(* ===== verification/_CoqProject ===== *)
-Q . S2P
Prelude.v
Heap.v
RbTree.v
RbShape.v
RbRefine.v
RbSearch.v
RbInsert.v
RbErase.v
KeyOrders.v
MapC.v
MapIface.v
MapRefine.v
MapProps.v
ContainerState.v
ContainerStateProps.v
RestartManager.v
RestartManagerProps.v
Volume.v
VolumeProps.v
StrUtils.v
StrProps.v
Path.v
PathProps.v
ContainersStore.v
ContainersStoreProps.v
Convert.v
ConvertProps.v
LinkedList.v
Effects.v
Service.v
ServiceInv.v
ServiceProps.v
RestoreProps.v
ServiceDemo.v
EventsHandler.v
EventsHandlerProps.v
GC.v
GCProps.v
Checkpoint.v
CheckpointProps.v
ImageStore.v
ImageStoreInv.v
ImageStoreProps.v
ImageStoreBigData.v
ImageStoreNames.v
ImageStoreRun.v
Timestamp.v
TimestampProps.v
HealthCheck.v
HealthCheckProps.v
HealthMonitorProps.v
LayerStore.v
LayerStoreInv.v
LayerStoreOps.v
LayerStoreDelete.v
LayerStoreSpec.v
LayerStoreCalls.v
LayerStoreProps.v
LayerStoreRun.v
RootfsStore.v
RootfsStoreInv.v
RootfsStoreProps.v
RootfsStoreRead.v
RootfsStoreRun.v
Storage.v
StorageSpec.v
StorageProps.v
StorageSession.v
StorageStores.v
StorageImages.v
StorageRootfs.v
StorageRun.v
Deviceset.v
DevicesetIds.v
DevicesetInv.v
DevicesetOps.v
DevicesetBoot.v
DevicesetSession.v
LocalVolume.v
LocalVolumeProps.v
