(* ===== verification/Prelude.v ===== *)
(** * Verification of iSulad

    iSulad is a container daemon written in C.  Its service module starts, stops
    and deletes containers on behalf of clients; its containers module keeps the
    state of every container, decides on restarts, handles exits, cleans up after
    containers that are gone and finds containers by id, name or prefix; the volume
    module tracks which containers use a volume; the checkpoint module saves
    containers and brings them back; the image module keeps the images, their
    names and the layers they are made of.  All of them rest on the red-black trees, maps,
    lists, strings, paths and number conversions of src/src/utils/cutils.  This
    library models those parts function by function and proves the properties they
    rely on.

    ** How C is modelled

    - A function is a Rocq function with the same name that returns its result and
      the new state.  A loop is a [Fixpoint] with fuel, and every theorem about it
      includes that the fuel chosen at the call is enough.
    - [option] with [None] outside stands for undefined behaviour: a dereference of
      an address that holds no object, an access outside of an array or a buffer, a
      call through a NULL pointer.  That a function returns [Some] is part of what
      is proved.  NULL results are an inner [None], or the address [NULL].
    - Integers are [Z] with the wrap-around of their width written out ([wrap_u],
      [wrap_s] below).  Strings are lists of characters (StrUtils, Path, Convert) or
      [cstr], NUL-free strings used as keys (KeyOrders).
    - Outcomes of the environment (allocation, locks, the clock, the file system,
      volume drivers) are arguments.  A function that runs under a lock is one step,
      so a sequence of calls covers every interleaving of threads.
    - The handlers of the service take and release locks themselves and make calls
      that last.  They are computations over a world (Effects, Service), and the
      environment answers each call and lets the other threads change the world
      while it is made.  What these may change are classes of ServiceInv: [Rely], anything
      that keeps the world consistent; [RelyLock], that they respect the lock of the
      container (the code does not always: containers_gc.c:326, checkpoint_restore);
      [RelyStores], that they leave the stores alone, for deletion only.
      The queues of events and of garbage are transition systems whose steps are
      the critical sections (EventsHandler), or computations during whose calls
      other threads append (GC).

    ** Parts

    The map (src/src/utils/cutils/map):
    - RbTree: rb_tree.c on an explicit heap of nodes with parent pointers and the
      shared sentinel.  Heap: heaps as lists of cells.  RbShape: the trees the heap
      represents, contexts (zippers), the red-black invariant and the rules for
      reading and writing.  RbRefine, RbSearch, RbInsert, RbErase: rotations,
      insertion, search, iteration, destruction, deletion against those trees.
    - KeyOrders: the three comparators are strict total orders ([KeyOrder]).
    - MapC: map.c, the typed map with copies of keys and values.  MapIface: what a
      map promises its clients ([MapOps], [MapLaws]).  MapRefine: map.c keeps the
      promise.  MapProps: sequences of calls, failing allocations included, behave as on
      a finite map; removal, search depth, release of memory, failures.

    The containers (src/src/daemon/modules/container):
    - ContainerState: container_state.c, the life-cycle flags and times behind the
      status of a container.  ContainerStateProps: the invariant of all reachable
      states, the status after each operation, the removal flag, snapshots.
    - RestartManager: restart_manager/restartmanager.c and its use in
      container_unix.c.  RestartManagerProps: back-off, retries, reference counts,
      cancellation, deadlines.
    - ContainersStore: containers_store.c, the containers by id and the index of
      names.  ContainersStoreProps: exact reference counts over all runs, precedence
      of lookups, exclusive names.

    - EventsHandler: container_events_handler.c, the queue of exit events and its
      threads.  EventsHandlerProps: once each, in order, by one thread at a time,
      and none forgotten as long as threads start, under every interleaving.
    - GC: container_gc/containers_gc.c.  GCProps: containers leave the queue only
      when they are cleaned up, the queue runs empty, and it survives the daemon.
    - HealthCheck: health_check/health_check.c, probes and their results over the state
      of the container, and the monitor threads with the functions that start and stop
      them as a transition system.  HealthCheckProps: log, streak and status after any
      sequence of probes; the buffer of the output.  HealthMonitorProps: how many
      monitors there are, and that closing one ends.

    The service (src/src/daemon/modules/service/service_container.c, with
    executor/container_cb, and restore/restore.c and checkpoint/checkpoint.c below
    modules):
    - Effects: the state monad of the handlers and its weakest preconditions.
    - Service: starting, stopping, killing, pausing, restarting, deleting, exits,
      the restart thread, the hooks of the garbage collector, restoring at start-up
      and from a checkpoint, composed as in the code from the components above.
      ServiceInv: the invariant of the world, what is assumed of the other threads, and
      that every handler keeps the invariant.  ServiceProps: what starting, stopping and
      deleting achieve, how stopping escalates, that a stop by the user is final, and that
      any sequence of requests is safe; restoring a checkpoint is not among these requests,
      since it leaks a reference and may dereference NULL (ServiceDemo).  RestoreProps: after a restart of
      the daemon the states agree with the runtime.  ServiceDemo: a concrete daemon
      on which the theorems are applied, and behaviours worth knowing.
    - Checkpoint: removing, creating and listing checkpoints.  CheckpointProps:
      removal is complete, listing is exact, and where the buffers overflow.

    The volumes (src/src/daemon/modules/volume):
    - Volume: volume.c, the store of references over the map interface, with the inner maps in
      a heap of their own because they are shared and mutated.  The drivers are a parameter:
      their calls change a state of their own and may not return.  VolumeProps: the
      references are tracked exactly; used volumes are not removed.
    - LocalVolume: local.c, the driver behind the store, with its table, its mutex and the
      directories of the disk.  LocalVolumeProps: a restart finds the volumes of the table
      again; behind the store the data of a volume in use are never lost; two runs show
      the mutex that stays locked and the volume that the table does not know.

    The images (src/src/daemon/modules/image/oci/storage/image_store):
    - ImageStore: images with reference counts on a heap, the indices by id, name and
      digest, and the operations of image_store.c that change them.  ImageStoreInv: the
      invariant.  ImageStoreProps, ImageStoreBigData, ImageStoreNames: every operation
      keeps it.  ImageStoreRun: sequences of calls, complete deletion, atomic creation,
      names that move.

    The layers (src/src/daemon/modules/image/oci/storage/layer_store):
    - LayerStore: layers with reference counts on a heap, their mounts and holds, the
      indices by id, name and digest, and the operations of layer_store.c and layer.c.
      LayerStoreInv: the invariant.  LayerStoreOps, LayerStoreDelete: creating, mounting,
      deleting keep it.  LayerStoreSpec: the abstract store, a sequence of layers.
      LayerStoreCalls: every call is a step of it.  LayerStoreProps: sequences of calls
      refine it and keep the store well formed.  LayerStoreRun: atomic creation, complete
      deletion, and what goes wrong.

    The root file systems of containers
    (src/src/daemon/modules/image/oci/storage/rootfs_store):
    - RootfsStore: rootfs_store.c and rootfs.c, objects with reference counts on a heap,
      the lock, the indices by id, layer and name.  RootfsStoreInv: the invariant, one
      statement for the three indices.  RootfsStoreProps, RootfsStoreRead: every operation
      keeps it and what it does.  RootfsStoreRun: sequences of calls, and what goes wrong.

    The storage module (src/src/daemon/modules/image/oci/storage/storage.c), which puts the
    three stores together:
    - Storage: the operations over the interfaces [ImageOps], [LayerOps] and [RootfsOps].
      StorageSpec: what the stores promise ([ImageLaws], [LayerLaws], [RootfsLaws]) and
      what it means that nothing dangles ([consistent]).  StorageProps: deleting chains of
      layers and images.  StorageSession: every call keeps the references.  StorageStores,
      StorageImages, StorageRootfs: the stores above keep the promises.  StorageRun: the
      theorems, and the stores put together.  Following parents has as much fuel as there
      are layers, plus one; where the fuel is an argument (sizes, the checks at the start)
      running out of it is undefined.

    The devices of the devicemapper driver
    (src/src/daemon/modules/image/oci/storage/layer_store/graphdriver/devmapper):
    - Deviceset: deviceset.c and metadata_store.c over the interface [PoolOps] of a thin
      pool; every state of the disk is kept, since power may be lost at any of them.
      DevicesetIds: the map of ids and the search for a free one.  DevicesetInv: what the
      pool promises ([PoolLaws]), what holds of the disk at every moment ([dsafe]) and
      between operations ([settled]).  DevicesetOps: transactions, creating, deleting, and
      the operations of the driver.  DevicesetBoot: the start from any safe
      disk, and the base device.  DevicesetSession: lives with losses of power, and
      concrete ones on a small pool.  Creating a device tries at most as many ids as there
      are.  The theorems suppose that files can be removed, that entering a device into the
      store does not fail, and that 64-bit transaction ids do not run out.

    The utilities (src/src/utils/cutils):
    - StrUtils: utils_array.c and utils_string.c.  StrProps: splitting, joining,
      trimming, filtering; no access outside of an array.
    - Path: path.c, cleaning of paths and symbolic links inside a root directory.
      PathProps: cleaning computes the canonical form; links never lead out of the
      root.
    - Convert: utils_convert.c.  ConvertProps: numbers survive printing and parsing.
    - LinkedList: linked_list.h on a heap, which implements sequences; loops, those that
      take nodes out included.
    - Timestamp: utils_timestamp.c with the calendar of libc.  TimestampProps: dates are
      those of the calendar, printed times are read back, durations and intervals are
      exact.

    ** Fuel and bounds

    The recursion of the tree has as much fuel as there are nodes in the heap, plus
    one ([fuel_of]); loops over strings have their length plus one; following links
    has the length of the path plus [MAXSYMLINKS * PATH_MAX] ([eval_fuel]), since
    each link starts a path shorter than [PATH_MAX].  The loop of the garbage
    collector runs for ever; [gchandler] makes a given number of turns, and
    GCProps says how many are enough.  Theorems on arrays suppose
    lengths below 2^40, those on reference counts runs of fewer than 2^31 calls, so
    that 64-bit counters do not wrap.

    ** Hypotheses on callers and memory

    The stores do not check everything their callers may get wrong, and some of their error
    paths are wrong.  Theorems on sequences of calls therefore suppose, as boolean functions
    of the sequence ([calls_fit], [names_fit], [ops_fit], [rootfs_calls_fit],
    [storage_calls_fit]), what callers must see to - free names, parents that exist, no
    lookup of unknown root file systems, [map_clear] on empty maps only - and, as records on
    the environment ([env_ok], [env_fits], [rootfs_env_ok]), that memory does not run out
    where a new object is entered into list and indices.  For most of these cases an
    example or a theorem next to it shows what the code does otherwise
    ([used_name_freed_twice], [failed_create_dangles], [loaded_image_dangles],
    [unknown_lookup_keeps_lock], [image_without_layer], [rbtree_clear_dangling_root],
    [dead_handler_forgets_events], [base_lost_for_ever]).

    ** What is not modelled

    Logging; system calls beyond the parameters above; the generated structures of
    libisula and their JSON; floating point ([util_safe_strtod], size and percent
    parsing); gRPC, REST and CRI glue; registry transfers; the
    overlay driver and the calls of the device mapper; the shim.  Left for later:
    executing commands in containers, filters, and the
    verification of names and host configurations. *)
From stdpp Require Export base tactics numbers list gmap strings sorting list_tactics.

(** * C integers *)

(** The value a [w]-bit unsigned object holds after a store of [z]. *)
Definition wrap_u (w z : Z) : Z := (z mod 2 ^ w)%Z.

(** The value a [w]-bit two's-complement object holds after a store of [z]. *)
Definition wrap_s (w z : Z) : Z := ((z + 2 ^ (w - 1)) mod 2 ^ w - 2 ^ (w - 1))%Z.

(** C's encoding of a comparison: [(int)(a > b) - (int)(a < b)]. *)
Definition c_cmp (gt lt : bool) : Z := (Z.b2z gt - Z.b2z lt)%Z.

Lemma wrap_u_range w z : (0 <= w)%Z -> (0 <= wrap_u w z < 2 ^ w)%Z.
Proof. intros Hw. unfold wrap_u. apply Z.mod_pos_bound. lia. Qed.

Lemma wrap_u_small w z : (0 <= z < 2 ^ w)%Z -> wrap_u w z = z.
Proof. intros Hz. unfold wrap_u. by apply Z.mod_small. Qed.

Lemma wrap_s_range w z :
  (1 <= w)%Z -> (- 2 ^ (w - 1) <= wrap_s w z < 2 ^ (w - 1))%Z.
Proof.
  intros Hw. unfold wrap_s.
  assert (2 ^ w = 2 * 2 ^ (w - 1))%Z as Hp.
  { rewrite <-(Z.pow_succ_r 2 (w - 1)) by lia. f_equal. lia. }
  pose proof (Z.mod_pos_bound (z + 2 ^ (w - 1)) (2 ^ w)) as H.
  assert (0 < 2 ^ (w - 1))%Z by (apply Z.pow_pos_nonneg; lia). lia.
Qed.

Lemma wrap_s_small w z :
  (1 <= w)%Z -> (- 2 ^ (w - 1) <= z < 2 ^ (w - 1))%Z -> wrap_s w z = z.
Proof.
  intros Hw Hz. unfold wrap_s.
  assert (2 ^ w = 2 * 2 ^ (w - 1))%Z as Hp.
  { rewrite <-(Z.pow_succ_r 2 (w - 1)) by lia. f_equal. lia. }
  rewrite Z.mod_small; lia.
Qed.

(** * Options as the result of code with undefined behaviour *)

(** [None] stands for a dereference of a pointer that points to no object. *)
Lemma bind_Some_inv {A B} (m : option A) (k : A -> option B) (b : B) :
  mbind k m = Some b -> exists a, m = Some a /\ k a = Some b.
Proof. destruct m; naive_solver. Qed.

(** Run one bind of a computation whose first step is known. *)
Ltac run_bind H := rewrite H; cbn [mbind option_bind].

(** Destruct the discriminee of the first [match] or [decide] of the goal. *)
Ltac split_match := repeat (case_match || case_decide); simplify_eq/=.

Create HintDb isulad discriminated.

(** * Association lists *)

Lemma NoDup_keys_inj {K V} (l : list (K * V)) k v v' :
  NoDup l.*1 -> (k, v) ∈ l -> (k, v') ∈ l -> v = v'.
Proof.
  induction l as [|[k0 v0] l IH]; cbn; [set_solver|].
  intros [Hni Hnd]%NoDup_cons [|]%elem_of_cons [|]%elem_of_cons; simplify_eq; [done|..].
  - destruct Hni. by apply (list_elem_of_fmap_2 fst _ (k0, v')).
  - destruct Hni. by apply (list_elem_of_fmap_2 fst _ (k0, v)).
  - by apply IH.
Qed.

Lemma elem_of_keys {K V} (l : list (K * V)) k v : (k, v) ∈ l -> k ∈ l.*1.
Proof. intros H. by apply (list_elem_of_fmap_2 fst _ (k, v)). Qed.
#[export] Hint Resolve elem_of_keys : isulad.

(** * Lists of optional values *)

Lemma omap_ext_elem {A B} (f g : A -> option B) (ps : list A) :
  (forall p, p ∈ ps -> f p = g p) -> omap f ps = omap g ps.
Proof.
  induction ps as [|p ps IH]; intros H; [done|]. cbn. rewrite (H p) by by left.
  rewrite IH; [done|]. intros q Hq. apply H. by right.
Qed.
Lemma filter_omap_none {A B} (P : B -> Prop) `{!forall b, Decision (P b)} (f : A -> option B) (ps : list A) :
  (forall p b, p ∈ ps -> f p = Some b -> ~ P b) -> filter P (omap f ps) = [].
Proof.
  intros Hno. induction ps as [|p ps IH]; [done|]. cbn.
  assert (filter P (omap f ps) = []) as Hnil by (apply IH; intros q b Hq; apply Hno; by right).
  destruct (f p) as [b|] eqn:Hf; [|done]. rewrite filter_cons, decide_False; [done|]. apply (Hno p); [by left|done].
Qed.
Lemma filter_omap_one {A B} (P : B -> Prop) `{!forall b, Decision (P b)} (f : A -> option B) (ps : list A) p a :
  p ∈ ps -> f p = Some a -> P a -> (forall q b, q ∈ ps -> f q = Some b -> P b -> q = p) ->
  head (filter P (omap f ps)) = Some a.
Proof.
  intros Hp Hf HP Hu. induction ps as [|q ps IH]; [by apply not_elem_of_nil in Hp|]. cbn.
  apply elem_of_cons in Hp as [<-|Hp].
  { rewrite Hf, filter_cons, decide_True by done. done. }
  assert (forall q' b, q' ∈ ps -> f q' = Some b -> P b -> q' = p) as Hu' by (intros q' b Hq'; apply Hu; by right).
  destruct (f q) as [b|] eqn:Hq; [|by apply IH]. rewrite filter_cons. destruct (decide (P b)); [|by apply IH].
  assert (q = p) as -> by (eapply Hu; [by left|done..]). cbn. congruence.
Qed.

Lemma omap_fmap_elem {A B C} (f : A -> option B) (g : A -> option C) (h : B -> C) (ps : list A) :
  (forall p, p ∈ ps -> g p = h <$> f p) -> omap g ps = h <$> omap f ps.
Proof.
  induction ps as [|p ps IH]; intros Hp; [done|]. cbn. rewrite (Hp p) by by left.
  rewrite IH by (intros q Hq; apply Hp; by right). by destruct (f p).
Qed.
Lemma omap_filter_elem {A B} (P : A -> Prop) `{!forall a, Decision (P a)} (Q : B -> Prop) `{!forall b, Decision (Q b)}
    (f g : A -> option B) (ps : list A) :
  (forall p, p ∈ ps -> exists b, f p = Some b /\ (P p <-> Q b) /\ (P p -> g p = Some b)) ->
  omap g (filter P ps) = filter Q (omap f ps).
Proof.
  induction ps as [|p ps IH]; intros Hp; [done|]. destruct (Hp p) as (b & Hf & HPQ & Hg); [by left|].
  rewrite filter_cons. cbn. rewrite Hf. rewrite filter_cons.
  destruct (decide (P p)) as [HP|HP]; [rewrite (decide_True (P := Q b)) by tauto|rewrite (decide_False (P := Q b)) by tauto];
    cbn; rewrite ?Hg by done; rewrite IH; try done; intros q Hq; apply Hp; by right.
Qed.

