(* ===== verification/Heap.v ===== *)
(** Linked structures: heaps described by the list of their cells.

    A heap is a finite map from addresses to objects.  [heap_is h cs] says that
    [h] holds exactly the cells [cs], at distinct addresses; the order of the
    cells is irrelevant ([heap_is] is invariant under permutation), so a list of
    cells plays the role of a separating conjunction of points-to facts. *)
From S2P Require Import Prelude.

(** Addresses; [NULL] is the address no object lives at. *)
Abbreviation loc := N (only parsing).
Definition NULL : loc := 0%N.

Section heap.
Context {A : Type}.
Implicit Types (h : gmap N A) (cs : list (N * A)) (a : N) (x y : A).

Definition heap_is h cs : Prop :=
  NoDup cs.*1 /\ NULL ∉ cs.*1 /\ h = list_to_map cs.

(** Read the object at [a]. *)
Definition hrd h a : option A := h !! a.

(** Update the object at [a] in place. *)
Definition hup h a (f : A -> A) : option (gmap loc A) :=
  x ← (h !! a); Some (<[a := f x]> h).

Lemma heap_is_perm h cs cs' : cs ≡ₚ cs' -> heap_is h cs -> heap_is h cs'.
Proof.
  intros Hp (Hn & Hz & ->). split_and!.
  - by rewrite <-Hp.
  - by rewrite <-Hp.
  - by apply list_to_map_proper.
Qed.

#[export] Instance heap_is_proper h : Proper ((≡ₚ) ==> iff) (heap_is h).
Proof. intros cs cs' Hp. split; apply heap_is_perm; [done | by symmetry]. Qed.

Lemma heap_is_lookup h cs a x : heap_is h cs -> (a, x) ∈ cs -> h !! a = Some x.
Proof. intros (Hn & _ & ->) Hin. by apply elem_of_list_to_map. Qed.

Lemma heap_is_update h cs a x y :
  heap_is h ((a, x) :: cs) -> heap_is (<[a := y]> h) ((a, y) :: cs).
Proof.
  intros (Hn & Hz & ->). split_and!; [done | done |].
  cbn. by rewrite insert_insert_eq.
Qed.

Lemma heap_is_alloc h cs a x :
  heap_is h cs -> a ≠ NULL -> a ∉ cs.*1 -> heap_is (<[a := x]> h) ((a, x) :: cs).
Proof.
  intros (Hn & Hz & ->) Ha Hni. split_and!; cbn; [by constructor | set_solver | done].
Qed.

Lemma heap_is_free h cs a x : heap_is h ((a, x) :: cs) -> heap_is (delete a h) cs.
Proof.
  intros (Hn & Hz & ->). cbn in *. apply NoDup_cons in Hn as [Hni Hn].
  split_and!; [done | set_solver |].
  rewrite delete_insert_id; [done|]. by apply not_elem_of_list_to_map_1.
Qed.

Lemma heap_is_dom h cs a : heap_is h cs -> a ∉ dom h <-> a ∉ cs.*1.
Proof.
  intros (_ & _ & ->). by rewrite not_elem_of_dom, <-not_elem_of_list_to_map.
Qed.

Lemma heap_is_size h cs : heap_is h cs -> size h = length cs.
Proof. intros (Hn & _ & ->). by rewrite map_size_list_to_map. Qed.

End heap.

(** ** Addressing a cell inside a list of cells

    [sel a x cs rest]: the cell [(a, x)] of [cs], and the other cells.
    [rep a x y cs cs']: [cs'] is [cs] with the cell [(a, x)] turned into [(a, y)]. *)
Section cells.
Context {A : Type}.
Implicit Types (cs rest : list (N * A)).

Inductive sel (a : N) (x : A) : list (N * A) -> list (N * A) -> Prop :=
| sel_here cs : sel a x ((a, x) :: cs) cs
| sel_next c cs rest : sel a x cs rest -> sel a x (c :: cs) (c :: rest)
| sel_app_l cs1 cs2 rest : sel a x cs1 rest -> sel a x (cs1 ++ cs2) (rest ++ cs2)
| sel_app_r cs1 cs2 rest : sel a x cs2 rest -> sel a x (cs1 ++ cs2) (cs1 ++ rest).

Inductive rep (a : N) (x y : A) : list (N * A) -> list (N * A) -> Prop :=
| rep_here cs : rep a x y ((a, x) :: cs) ((a, y) :: cs)
| rep_next c cs cs' : rep a x y cs cs' -> rep a x y (c :: cs) (c :: cs')
| rep_app_l cs1 cs2 cs' : rep a x y cs1 cs' -> rep a x y (cs1 ++ cs2) (cs' ++ cs2)
| rep_app_r cs1 cs2 cs' : rep a x y cs2 cs' -> rep a x y (cs1 ++ cs2) (cs1 ++ cs').

Lemma sel_perm a x cs rest : sel a x cs rest -> cs ≡ₚ (a, x) :: rest.
Proof.
  induction 1 as [|c cs rest _ IH|cs1 cs2 rest _ IH|cs1 cs2 rest _ IH]; [done|..];
    rewrite IH; solve_Permutation.
Qed.

Lemma rep_perm a x y cs cs' :
  rep a x y cs cs' -> exists rest, cs ≡ₚ (a, x) :: rest /\ cs' ≡ₚ (a, y) :: rest.
Proof.
  induction 1 as [cs|c cs cs' _ (r & IH1 & IH2)|cs1 cs2 cs' _ (r & IH1 & IH2)
                 |cs1 cs2 cs' _ (r & IH1 & IH2)].
  - by exists cs.
  - exists (c :: r). rewrite IH1, IH2. split; solve_Permutation.
  - exists (r ++ cs2). rewrite IH1, IH2. split; solve_Permutation.
  - exists (cs1 ++ r). rewrite IH1, IH2. split; solve_Permutation.
Qed.

Lemma heap_is_rep h a x y cs cs' :
  heap_is h cs -> rep a x y cs cs' -> heap_is (<[a := y]> h) cs'.
Proof.
  intros Hh (r & H1 & H2)%rep_perm. rewrite H1 in Hh. rewrite H2.
  by eapply heap_is_update.
Qed.

Lemma heap_is_sel h a x cs rest : heap_is h cs -> sel a x cs rest -> h !! a = Some x.
Proof.
  intros Hh Hs%sel_perm. eapply heap_is_lookup; [done|]. rewrite Hs. by left.
Qed.

Lemma heap_is_sel_free h a x cs rest :
  heap_is h cs -> sel a x cs rest -> heap_is (delete a h) rest.
Proof. intros Hh Hs%sel_perm. rewrite Hs in Hh. by eapply heap_is_free. Qed.

Lemma heap_is_sel_ne h a b x y cs rest rest' :
  heap_is h cs -> sel a x cs rest -> sel b y rest rest' -> a ≠ b.
Proof.
  intros (Hn & _) Hs%sel_perm Hs'%sel_perm ->. rewrite Hs, Hs' in Hn. cbn in Hn.
  apply NoDup_cons in Hn as [Hn _]. apply Hn. by left.
Qed.

Lemma heap_is_sel_not_NULL h a x cs rest : heap_is h cs -> sel a x cs rest -> a ≠ NULL.
Proof. intros (_ & Hz & _) Hs%sel_perm ->. rewrite Hs in Hz. apply Hz. by left. Qed.

End cells.

(** Find the cell a [sel] or [rep] goal speaks of. *)
Ltac sel_tac :=
  first [ apply sel_here | apply sel_next; sel_tac
        | apply sel_app_l; sel_tac | apply sel_app_r; sel_tac ].
Ltac rep_tac :=
  first [ apply rep_here | apply rep_next; rep_tac
        | apply rep_app_l; rep_tac | apply rep_app_r; rep_tac ].

(** An address above all that are in use. *)
Definition next_address {A} (m : gmap N A) : N := map_fold (fun k _ a => N.max (N.succ k) a) 1%N m.

Lemma next_address_spec {A} (m : gmap N A) :
  (1 <= next_address m)%N /\ forall k, is_Some (m !! k) -> (k < next_address m)%N.
Proof.
  unfold next_address. apply (map_fold_weak_ind (fun a m => (1 <= a)%N /\ forall k, is_Some (m !! k) -> (k < a)%N)).
  - split; [done|]. intros k. rewrite lookup_empty. by intros [].
  - intros k x m' a _ [H1 H2]. split; [lia|]. intros k'. rewrite lookup_insert_is_Some.
    intros [<-|[_ Hk]]; [lia|]. apply H2 in Hk. lia.
Qed.

Lemma next_address_fresh {A} (m : gmap N A) : m !! next_address m = None.
Proof.
  destruct (m !! next_address m) eqn:H; [|done]. destruct (next_address_spec m) as [_ Hlt].
  assert (next_address m < next_address m)%N by (apply Hlt; eauto). lia.
Qed.
