(* ===== verification/RbTree.v ===== *)
(** The red-black tree of src/src/utils/cutils/map/rb_tree.c, statement by
    statement.

    Nodes live in a heap ([t_heap]) and are linked by addresses, with the
    sentinel [t_nil] and parent pointers of the C structure.  Every function
    returns an [option]: [None] is a dereference of an address that holds no
    node (undefined behaviour in C), or a loop that outlives its fuel.  The
    theorems of [RbRefine] show that neither happens on a well-formed tree; the
    fuel of every loop is the number of objects in the heap. *)
From S2P Require Import Prelude Heap.

(** [typedef enum { RED = 0, BLACK } rbtree_colour] *)
Inductive rbtree_colour := RED | BLACK.

#[export] Instance rbtree_colour_eq_dec : EqDecision rbtree_colour.
Proof. solve_decision. Defined.

(** [typedef struct rb_node]; a NULL key or value is [None]. *)
Record rb_node (K V : Type) := RbNode {
  n_key : option K;
  n_value : option V;
  n_colour : rbtree_colour;
  n_left : loc;
  n_right : loc;
  n_parent : loc
}.
Arguments RbNode {K V} _ _ _ _ _ _.
Arguments n_key {K V} _.
Arguments n_value {K V} _.
Arguments n_colour {K V} _.
Arguments n_left {K V} _.
Arguments n_right {K V} _.
Arguments n_parent {K V} _.

(** [typedef struct rb_tree] with the heap its nodes live in.  [t_kvfreer] tells
    whether the tree has a [kvfreer] and [t_freed] logs the calls made to it. *)
Record rb_tree (K V : Type) := RbTree {
  t_root : loc;
  t_kvfreer : bool;
  t_nil : loc;
  t_heap : gmap loc (rb_node K V);
  t_freed : list (option K * option V)
}.
Arguments RbTree {K V} _ _ _ _ _.
Arguments t_root {K V} _.
Arguments t_kvfreer {K V} _.
Arguments t_nil {K V} _.
Arguments t_heap {K V} _.
Arguments t_freed {K V} _.

(** ** Comparators *)

(** [rbtree_ptr_cmp]: addresses in address order. *)
Definition rbtree_ptr_cmp (first last : loc) : Z :=
  c_cmp (N.ltb last first) (N.ltb first last).

(** [rbtree_int_cmp]: keys in integer order. *)
Definition rbtree_int_cmp (key1 key2 : Z) : Z :=
  c_cmp (key1 >? key2)%Z (key1 <? key2)%Z.

(** [rbtree_str_cmp]: the loop over the two strings, whose end reads as the
    terminating NUL.  [cval] is the numeric value of a [char], whose signedness
    is the implementation's choice. *)
Fixpoint rbtree_str_cmp (cval : Ascii.ascii -> Z) (key1 key2 : string) : Z :=
  match key1, key2 with
  | EmptyString, EmptyString => c_cmp false false
  | EmptyString, String b _ => c_cmp (0 >? cval b)%Z (0 <? cval b)%Z
  | String a _, EmptyString => c_cmp (cval a >? 0)%Z (cval a <? 0)%Z
  | String a key1, String b key2 =>
      if ((cval a =? 0) || negb (cval a =? cval b))%Z
      then c_cmp (cval a >? cval b)%Z (cval a <? cval b)%Z
      else rbtree_str_cmp cval key1 key2
  end.

Section rb_tree.
Context {K V : Type} (comparator : K -> K -> Z).
Implicit Types (t : rb_tree K V) (node : loc).

(** ** Memory accesses *)

Definition with_heap t h : rb_tree K V :=
  RbTree (t_root t) (t_kvfreer t) (t_nil t) h (t_freed t).
Definition set_root t p : rb_tree K V :=
  RbTree p (t_kvfreer t) (t_nil t) (t_heap t) (t_freed t).

(** [*p] *)
Definition rd t (p : loc) : option (rb_node K V) := t_heap t !! p.
Definition up t (p : loc) (f : rb_node K V -> rb_node K V) : option (rb_tree K V) :=
  h ← hup (t_heap t) p f; Some (with_heap t h).

Definition put_left q (n : rb_node K V) :=
  RbNode (n_key n) (n_value n) (n_colour n) q (n_right n) (n_parent n).
Definition put_right q (n : rb_node K V) :=
  RbNode (n_key n) (n_value n) (n_colour n) (n_left n) q (n_parent n).
Definition put_parent q (n : rb_node K V) :=
  RbNode (n_key n) (n_value n) (n_colour n) (n_left n) (n_right n) q.
Definition put_colour c (n : rb_node K V) :=
  RbNode (n_key n) (n_value n) c (n_left n) (n_right n) (n_parent n).
Definition put_value (v : option V) (n : rb_node K V) :=
  RbNode (n_key n) v (n_colour n) (n_left n) (n_right n) (n_parent n).

(** [p->left = q], [p->right = q], [p->parent = q], [p->colour = c] *)
Definition set_left t p q := up t p (put_left q).
Definition set_right t p q := up t p (put_right q).
Definition set_parent t p q := up t p (put_parent q).
Definition set_colour t p c := up t p (put_colour c).

(** [p->left], [p->right], [p->parent], [p->colour] *)
Definition get_left t p : option loc := n ← rd t p; Some (n_left n).
Definition get_right t p : option loc := n ← rd t p; Some (n_right n).
Definition get_parent t p : option loc := n ← rd t p; Some (n_parent n).
Definition get_colour t p : option rbtree_colour := n ← rd t p; Some (n_colour n).

(** [tree->comparator(key, p->key)] *)
Definition cmp_node t (key : K) p : option Z :=
  n ← rd t p; k ← n_key n; Some (comparator key k).

(** [if (tree->kvfreer != NULL) tree->kvfreer(key, value)] *)
Definition call_kvfreer t (k : option K) (v : option V) : rb_tree K V :=
  if t_kvfreer t
  then RbTree (t_root t) (t_kvfreer t) (t_nil t) (t_heap t) (t_freed t ++ [(k, v)])
  else t.

(** [free(p)] *)
Definition free_node t p : option (rb_tree K V) :=
  _ ← rd t p; Some (with_heap t (delete p (t_heap t))).

Definition fuel_of t : nat := S (size (t_heap t)).

(** ** Creation and search *)

(** [rbtree_create_node]; [a] is what the allocator returned. *)
Definition rbtree_create_node (h : gmap loc (rb_node K V)) (a : loc)
    (key : option K) (value : option V) (left right parent : loc)
    : loc * gmap loc (rb_node K V) :=
  if decide (a = NULL) then (NULL, h)
  else (a, <[a := RbNode key value BLACK left right parent]> h).

(** [rbtree_new]; the allocator returned [a_tree] for the tree and [a_nil] for
    the sentinel.  The result [None] is the NULL pointer. *)
Definition rbtree_new (a_tree a_nil : loc) (kvfreer : bool) : option (rb_tree K V) :=
  if decide (a_tree = NULL) then None
  else
    let '(nil_node, h) := rbtree_create_node ∅ a_nil None None NULL NULL NULL in
    Some (RbTree nil_node kvfreer nil_node h []).

Fixpoint rbtree_recursive_search (fuel : nat) t node (key : K) : option loc :=
  match fuel with
  | O => None
  | S fuel =>
      if decide (node = t_nil t) then Some node
      else
        c ← cmp_node t key node;
        if (c =? 0)%Z then Some node
        else if (c <? 0)%Z then
          l ← get_left t node; rbtree_recursive_search fuel t l key
        else
          r ← get_right t node; rbtree_recursive_search fuel t r key
  end.

(** [rbtree_find] *)
Definition rbtree_find t (key : option K) : option loc :=
  match key with
  | None => Some NULL
  | Some key => rbtree_recursive_search (fuel_of t) t (t_root t) key
  end.

(** [rbtree_search]: the value, or [None] for NULL. *)
Definition rbtree_search t (key : option K) : option (option V) :=
  match key with
  | None => Some None
  | Some _ =>
      find ← rbtree_find t key;
      if decide (find = t_nil t) then Some None
      else n ← rd t find; Some (n_value n)
  end.

(** ** Destruction *)

Fixpoint rbtree_destroy_all (fuel : nat) t node : option (rb_tree K V) :=
  match fuel with
  | O => None
  | S fuel =>
      if decide (node = t_nil t) then Some t
      else
        l ← get_left t node;
        t ← (if decide (l ≠ t_nil t) then rbtree_destroy_all fuel t l else Some t);
        r ← get_right t node;
        t ← (if decide (r ≠ t_nil t) then rbtree_destroy_all fuel t r else Some t);
        n ← rd t node;
        free_node (call_kvfreer t (n_key n) (n_value n)) node
  end.

(** [rbtree_clear]: the root pointer is left as it is. *)
Definition rbtree_clear t : option (rb_tree K V) :=
  rbtree_destroy_all (fuel_of t) t (t_root t).

(** [rbtree_free]: what remains allocated afterwards, and the [kvfreer] calls. *)
Definition rbtree_free t
    : option (gmap loc (rb_node K V) * list (option K * option V)) :=
  t ← rbtree_clear t;
  t ← free_node t (t_nil t);
  Some (t_heap t, t_freed t).

(** ** Rotations *)

Definition left_rot t node : option (rb_tree K V) :=
  y ← get_right t node;
  yl ← get_left t y;
  t ← set_right t node yl;
  t ← (if decide (yl ≠ t_nil t) then set_parent t yl node else Some t);
  p ← get_parent t node;
  t ← set_parent t y p;
  t ← (if decide (p = t_nil t) then Some (set_root t y)
       else
         pl ← get_left t p;
         if decide (node = pl) then set_left t p y else set_right t p y);
  t ← set_left t y node;
  set_parent t node y.

Definition right_rot t node : option (rb_tree K V) :=
  y ← get_left t node;
  yr ← get_right t y;
  t ← set_left t node yr;
  t ← (if decide (yr ≠ t_nil t) then set_parent t yr node else Some t);
  p ← get_parent t node;
  t ← set_parent t y p;
  t ← (if decide (p = t_nil t) then Some (set_root t y)
       else
         pr ← get_right t p;
         if decide (node = pr) then set_right t p y else set_left t p y);
  t ← set_right t y node;
  set_parent t node y.

(** ** Insertion *)

(** The loop of [rbtree_insert_fixup] with the statement that follows it. *)
Fixpoint rbtree_insert_fixup (fuel : nat) t node : option (rb_tree K V) :=
  match fuel with
  | O => None
  | S fuel =>
      p ← get_parent t node;
      pc ← get_colour t p;
      if decide (pc = RED) then
        g ← get_parent t p;
        gl ← get_left t g;
        if decide (p = gl) then
          y ← get_right t g;
          if decide (y = NULL) then Some t
          else
            yc ← get_colour t y;
            if decide (yc = RED) then
              t ← set_colour t p BLACK;
              t ← set_colour t y BLACK;
              t ← set_colour t g RED;
              rbtree_insert_fixup fuel t g
            else
              pr ← get_right t p;
              t_node ← (if decide (node = pr)
                        then t ← left_rot t p; Some (t, p)
                        else Some (t, node));
              let '(t, node) := t_node in
              p ← get_parent t node;
              t ← set_colour t p BLACK;
              g ← get_parent t p;
              t ← set_colour t g RED;
              t ← right_rot t g;
              rbtree_insert_fixup fuel t node
        else
          y ← get_left t g;
          if decide (y = NULL) then Some t
          else
            yc ← get_colour t y;
            if decide (yc = RED) then
              t ← set_colour t p BLACK;
              t ← set_colour t y BLACK;
              t ← set_colour t g RED;
              rbtree_insert_fixup fuel t g
            else
              pl ← get_left t p;
              t_node ← (if decide (node = pl)
                        then t ← right_rot t p; Some (t, p)
                        else Some (t, node));
              let '(t, node) := t_node in
              p ← get_parent t node;
              t ← set_colour t p BLACK;
              g ← get_parent t p;
              t ← set_colour t g RED;
              t ← left_rot t g;
              rbtree_insert_fixup fuel t node
      else set_colour t (t_root t) BLACK
  end.

(** The descent of [insert_node]: from [index], with [previous] its parent. *)
Fixpoint insert_descend (fuel : nat) t (key : K) (previous index : loc) : option loc :=
  match fuel with
  | O => None
  | S fuel =>
      if decide (index ≠ t_nil t) then
        c ← cmp_node t key index;
        if (c <? 0)%Z then
          l ← get_left t index; insert_descend fuel t key index l
        else
          r ← get_right t index; insert_descend fuel t key index r
      else Some previous
  end.

Definition insert_node t node : option (rb_tree K V) :=
  n ← rd t node;
  key ← n_key n;
  previous ← insert_descend (fuel_of t) t key (t_nil t) (t_root t);
  t ← set_parent t node previous;
  t ← (if decide (previous = t_nil t) then Some (set_root t node)
       else
         c ← cmp_node t key previous;
         if (c <? 0)%Z then set_left t previous node else set_right t previous node);
  t ← set_left t node (t_nil t);
  t ← set_right t node (t_nil t);
  t ← set_colour t node RED;
  rbtree_insert_fixup (fuel_of t) t node.

(** [rbtree_insert]; [a] is what the allocator returns for the new node. *)
Definition rbtree_insert t (a : loc) (key : option K) (value : option V)
    : option (bool * rb_tree K V) :=
  if bool_decide (key = None) || bool_decide (value = None) then Some (false, t)
  else
    find ← rbtree_find t key;
    if decide (find ≠ t_nil t) then Some (false, t)
    else
      let '(node, h) :=
        rbtree_create_node (t_heap t) a key value (t_nil t) (t_nil t) (t_nil t) in
      if decide (node = NULL) then Some (false, t)
      else t ← insert_node (with_heap t h) node; Some (true, t).

(** [rbtree_replace] *)
Definition rbtree_replace t (a : loc) (key : option K) (value : option V)
    : option (bool * rb_tree K V) :=
  if bool_decide (key = None) || bool_decide (value = None) then Some (false, t)
  else
    node ← rbtree_find t key;
    if decide (node = t_nil t) then rbtree_insert t a key value
    else
      n ← rd t node;
      let t := call_kvfreer t key (n_value n) in
      t ← up t node (put_value value);
      Some (true, t).

(** ** Extrema *)

Fixpoint minimum_loop (fuel : nat) t node : option loc :=
  match fuel with
  | O => None
  | S fuel =>
      l ← get_left t node;
      if decide (l ≠ t_nil t) then minimum_loop fuel t l else Some node
  end.

Definition rbtree_minimum t node : option loc :=
  if decide (node = t_nil t) then Some (t_nil t) else minimum_loop (fuel_of t) t node.

Fixpoint maximum_loop (fuel : nat) t node : option loc :=
  match fuel with
  | O => None
  | S fuel =>
      r ← get_right t node;
      if decide (r ≠ t_nil t) then maximum_loop fuel t r else Some node
  end.

Definition rbtree_maximum t node : option loc :=
  if decide (node = t_nil t) then Some (t_nil t) else maximum_loop (fuel_of t) t node.

(** ** Removal *)

(** [p == tree->nil || p->colour == BLACK] *)
Definition nil_or_black t p : option bool :=
  if decide (p = t_nil t) then Some true
  else c ← get_colour t p; Some (bool_decide (c = BLACK)).

(** The body of [do_with_left_node_not_null] from the test of the sibling's
    children on. *)
Definition erase_left_tail t node sibling : option (rb_tree K V * loc) :=
  sl ← get_left t sibling;
  sr ← get_right t sibling;
  flag_l ← nil_or_black t sl;
  flag_r ← nil_or_black t sr;
  if flag_l && flag_r then
    t ← set_colour t sibling RED;
    p ← get_parent t node;
    Some (t, p)
  else
    t_s ← (if flag_r : bool then
             t ← set_colour t sibling RED;
             t ← set_colour t sl BLACK;
             t ← right_rot t sibling;
             p ← get_parent t node;
             sibling ← get_right t p;
             Some (t, sibling)
           else Some (t, sibling));
    let '(t, sibling) := t_s in
    p ← get_parent t node;
    pc ← get_colour t p;
    t ← set_colour t sibling pc;
    t ← set_colour t p BLACK;
    sr ← get_right t sibling;
    t ← set_colour t sr BLACK;
    t ← left_rot t p;
    Some (t, t_root t).

(** [do_with_left_node_not_null]: [node] is a left child; the new [*node]. *)
Definition do_with_left_node_not_null t node : option (rb_tree K V * loc) :=
  p ← get_parent t node;
  sibling ← get_right t p;
  sc ← get_colour t sibling;
  t_s ← (if decide (sc = RED) then
           t ← set_colour t p RED;
           t ← set_colour t sibling BLACK;
           t ← left_rot t p;
           p ← get_parent t node;
           sibling ← get_right t p;
           Some (t, sibling)
         else Some (t, sibling));
  let '(t, sibling) := t_s in
  erase_left_tail t node sibling.

(** The body of [do_with_left_node_null] from the test of the sibling's children
    on. *)
Definition erase_right_tail t node sibling : option (rb_tree K V * loc) :=
  sr ← get_right t sibling;
  sl ← get_left t sibling;
  flag_r ← nil_or_black t sr;
  flag_l ← nil_or_black t sl;
  if flag_r && flag_l then
    t ← set_colour t sibling RED;
    p ← get_parent t node;
    Some (t, p)
  else
    t_s ← (if flag_l : bool then
             t ← set_colour t sibling RED;
             t ← set_colour t sr BLACK;
             t ← left_rot t sibling;
             p ← get_parent t node;
             sibling ← get_left t p;
             Some (t, sibling)
           else Some (t, sibling));
    let '(t, sibling) := t_s in
    p ← get_parent t node;
    pc ← get_colour t p;
    t ← set_colour t sibling pc;
    t ← set_colour t p BLACK;
    sl ← get_left t sibling;
    t ← set_colour t sl BLACK;
    t ← right_rot t p;
    Some (t, t_root t).

(** [do_with_left_node_null]: [node] is a right child; the new [*node]. *)
Definition do_with_left_node_null t node : option (rb_tree K V * loc) :=
  p ← get_parent t node;
  sibling ← get_left t p;
  sc ← get_colour t sibling;
  t_s ← (if decide (sc = RED) then
           t ← set_colour t sibling BLACK;
           t ← set_colour t p RED;
           t ← right_rot t p;
           p ← get_parent t node;
           sibling ← get_left t p;
           Some (t, sibling)
         else Some (t, sibling));
  let '(t, sibling) := t_s in
  erase_right_tail t node sibling.

(** [rbtree_erase_fixup]: the loop with the statement that follows it. *)
Fixpoint rbtree_erase_fixup (fuel : nat) t node : option (rb_tree K V) :=
  match fuel with
  | O => None
  | S fuel =>
      b ← nil_or_black t node;
      if b && bool_decide (node ≠ t_root t) then
        p ← get_parent t node;
        pl ← get_left t p;
        t_n ← (if decide (node = pl)
               then do_with_left_node_not_null t node
               else do_with_left_node_null t node);
        let '(t, node) := t_n in
        rbtree_erase_fixup fuel t node
      else if decide (node ≠ NULL) then set_colour t node BLACK
      else Some t
  end.

Definition rbtree_transplant t (u v : loc) : option (rb_tree K V) :=
  p ← get_parent t u;
  t ← (if decide (p = t_nil t) then Some (set_root t v)
       else
         pl ← get_left t p;
         if decide (u = pl) then set_left t p v else set_right t p v);
  p ← get_parent t u;
  set_parent t v p.

Definition rbtree_erase t node : option (rb_tree K V) :=
  c ← get_colour t node;
  l ← get_left t node;
  r ← get_right t node;
  t_x_c ← (if decide (l = t_nil t) then
             t ← rbtree_transplant t node r; Some (t, r, c)
           else if decide (r = t_nil t) then
             t ← rbtree_transplant t node l; Some (t, l, c)
           else
             y ← rbtree_minimum t r;
             yc ← get_colour t y;
             x ← get_right t y;
             yp ← get_parent t y;
             t ← (if decide (yp = node) then set_parent t x y
                  else
                    t ← rbtree_transplant t y x;
                    nr ← get_right t node;
                    t ← set_right t y nr;
                    set_parent t nr y);
             t ← rbtree_transplant t node y;
             nl ← get_left t node;
             t ← set_left t y nl;
             t ← set_parent t nl y;
             nc ← get_colour t node;
             t ← set_colour t y nc;
             Some (t, x, yc));
  let '(t, x, y_original_colour) := t_x_c in
  t ← (if decide (y_original_colour = BLACK)
       then rbtree_erase_fixup (fuel_of t) t x else Some t);
  n ← rd t node;
  free_node (call_kvfreer t (n_key n) (n_value n)) node.

(** [rbtree_remove] *)
Definition rbtree_remove t (key : option K) : option (bool * rb_tree K V) :=
  if bool_decide (key = None) then Some (false, t)
  else
    node ← rbtree_find t key;
    if decide (node = t_nil t) then Some (false, t)
    else t ← rbtree_erase t node; Some (true, t).

(** ** Size *)

Fixpoint number_of_nodes (fuel : nat) t node : option nat :=
  match fuel with
  | O => None
  | S fuel =>
      if decide (node = t_nil t) then Some 0
      else
        l ← get_left t node;
        r ← get_right t node;
        nl ← number_of_nodes fuel t l;
        nr ← number_of_nodes fuel t r;
        Some (1 + nl + nr)
  end.

Definition rbtree_size t : option nat := number_of_nodes (fuel_of t) t (t_root t).

(** ** Iteration: the iterator is its current node. *)

(** [rbtree_iterator_first], [rbtree_iterator_last]: the result and the new
    current node. *)
Definition rbtree_iterator_first t : option (bool * loc) :=
  node ← rbtree_minimum t (t_root t); Some (bool_decide (node ≠ t_nil t), node).
Definition rbtree_iterator_last t : option (bool * loc) :=
  node ← rbtree_maximum t (t_root t); Some (bool_decide (node ≠ t_nil t), node).

(** [rbtree_iterator_new]; [a] is what the allocator returned for the iterator,
    and the inner [None] is NULL. *)
Definition rbtree_iterator_new t (a : loc) : option (option loc) :=
  if decide (a = NULL) then Some None
  else bn ← rbtree_iterator_first t; Some (Some bn.2).
Definition rbtree_iterator_valid t node : bool := bool_decide (node ≠ t_nil t).

(** The climb of [rbtree_successor] to the first ancestor reached from the left. *)
Fixpoint successor_loop (fuel : nat) t node (successor : loc) : option loc :=
  match fuel with
  | O => None
  | S fuel =>
      if decide (successor = t_nil t) then Some successor
      else
        r ← get_right t successor;
        if decide (node = r) then
          p ← get_parent t successor; successor_loop fuel t successor p
        else Some successor
  end.

Definition rbtree_successor t node : option loc :=
  if decide (node = NULL) then Some NULL
  else
    r ← get_right t node;
    if decide (r ≠ t_nil t) then rbtree_minimum t r
    else p ← get_parent t node; successor_loop (fuel_of t) t node p.

Fixpoint predecessor_loop (fuel : nat) t node (predecessor : loc) : option loc :=
  match fuel with
  | O => None
  | S fuel =>
      if decide (predecessor = t_nil t) then Some predecessor
      else
        l ← get_left t predecessor;
        if decide (node = l) then
          p ← get_parent t predecessor; predecessor_loop fuel t predecessor p
        else Some predecessor
  end.

Definition rbtree_predecessor t node : option loc :=
  l ← get_left t node;
  if decide (l ≠ t_nil t) then rbtree_maximum t l
  else p ← get_parent t node; predecessor_loop (fuel_of t) t node p.

(** [rbtree_iterator_next] and [rbtree_iterator_prev]: the result and the new
    current node. *)
Definition rbtree_iterator_next t node : option (bool * loc) :=
  if decide (node = t_nil t) then Some (false, node)
  else s ← rbtree_successor t node; Some (bool_decide (s ≠ t_nil t), s).

Definition rbtree_iterator_prev t node : option (bool * loc) :=
  if decide (node = t_nil t) then Some (false, node)
  else s ← rbtree_predecessor t node; Some (bool_decide (s ≠ t_nil t), s).

(** [rbtree_iterator_key], [rbtree_iterator_value] *)
Definition rbtree_iterator_key t node : option (option K) :=
  if decide (node = NULL) then Some None else n ← rd t node; Some (n_key n).
Definition rbtree_iterator_value t node : option (option V) :=
  if decide (node = NULL) then Some None else n ← rd t node; Some (n_value n).

(** The loop every client of the iterator writes:
    [for (; valid(itor); next(itor)) visit(key(itor), value(itor))]. *)
Fixpoint iterate (fuel : nat) t node : option (list (K * V)) :=
  match fuel with
  | O => None
  | S fuel =>
      if rbtree_iterator_valid t node then
        k ← rbtree_iterator_key t node;
        v ← rbtree_iterator_value t node;
        k ← k; v ← v;
        bn ← rbtree_iterator_next t node;
        rest ← iterate fuel t bn.2;
        Some ((k, v) :: rest)
      else Some []
  end.

(** The bindings such a loop visits with a new iterator. *)
Definition rbtree_elements t : option (list (K * V)) :=
  bn ← rbtree_iterator_first t; iterate (fuel_of t) t bn.2.

End rb_tree.
