(* ===== verification/RbShape.v ===== *)
(** Address-labelled trees and zippers, and the heaps that hold them.

    [tree] is the mathematical red-black tree, each node labelled by its address;
    a [frame] list is the path from a focused subtree up to the root, which is
    what the parent pointers of the C structure encode.  [cells] computes the
    heap cells of a tree or a path, so that the state of the C program at a
    moment where it works on some node is [st] of a path and a subtree. *)
From S2P Require Import Prelude Heap RbTree.

Inductive tree (K V : Type) :=
| E
| T (c : rbtree_colour) (l : tree K V) (a : N) (k : K) (v : V) (r : tree K V).
Arguments E {K V}.
Arguments T {K V} _ _ _ _ _ _.

(** The side of its parent a subtree hangs on. *)
Inductive dir := L | R.

(** A node of the path: all of it but the child the path goes through. *)
Record frame (K V : Type) := F {
  f_dir : dir;
  f_col : rbtree_colour;
  f_a : N;
  f_k : K;
  f_v : V;
  f_sib : tree K V
}.
Arguments F {K V} _ _ _ _ _ _.
Arguments f_dir {K V} _.
Arguments f_col {K V} _.
Arguments f_a {K V} _.
Arguments f_k {K V} _.
Arguments f_v {K V} _.
Arguments f_sib {K V} _.

Section shape.
Context {K V : Type}.
Implicit Types (s : tree K V) (f : frame K V) (z : list (frame K V)) (nl : N).

Definition fill f s : tree K V :=
  match f_dir f with
  | L => T (f_col f) s (f_a f) (f_k f) (f_v f) (f_sib f)
  | R => T (f_col f) (f_sib f) (f_a f) (f_k f) (f_v f) s
  end.

Fixpoint plug z s : tree K V :=
  match z with [] => s | f :: z => plug z (fill f s) end.

(** The address of a subtree: the sentinel for the empty one. *)
Definition ptr nl s : N := match s with E => nl | T _ _ a _ _ _ => a end.
(** The address of the parent of the focus. *)
Definition cptr nl z : N := match z with [] => nl | f :: _ => f_a f end.

Definition col s : rbtree_colour :=
  match s with E => BLACK | T c _ _ _ _ _ => c end.

Fixpoint cells nl (par : N) s : list (N * rb_node K V) :=
  match s with
  | E => []
  | T c l a k v r =>
      (a, RbNode (Some k) (Some v) c (ptr nl l) (ptr nl r) par)
        :: cells nl a l ++ cells nl a r
  end.

Fixpoint ccells nl (sp : N) z : list (N * rb_node K V) :=
  match z with
  | [] => []
  | F d c a k v sib :: z =>
      match d with
      | L => (a, RbNode (Some k) (Some v) c sp (ptr nl sib) (cptr nl z))
      | R => (a, RbNode (Some k) (Some v) c (ptr nl sib) sp (cptr nl z))
      end :: cells nl a sib ++ ccells nl a z
  end.

Lemma cells_plug nl z s :
  cells nl nl (plug z s) ≡ₚ ccells nl (ptr nl s) z ++ cells nl (cptr nl z) s.
Proof.
  revert s. induction z as [|[[] c a k v sib] z IH]; intros s; [done|..];
    cbn [plug ccells cptr f_a]; rewrite IH; cbn; solve_Permutation.
Qed.

Lemma ptr_plug nl z s s' : z ≠ [] -> ptr nl (plug z s) = ptr nl (plug z s').
Proof.
  revert s s'. induction z as [|f z IH]; intros s s' Hz; [done|]. cbn.
  destruct z; [by destruct f as [[]]|]. by apply IH.
Qed.

Lemma ptr_plug_eq nl z s s' :
  ptr nl s = ptr nl s' -> ptr nl (plug z s) = ptr nl (plug z s').
Proof. intros H. destruct z as [|f z]; [done|]. by apply ptr_plug. Qed.

(** The sentinel; removals leave an arbitrary parent in it. *)
Definition nil_node (np : N) : rb_node K V := RbNode None None BLACK NULL NULL np.

(** The part of the tree structure that rotations and recolourings keep. *)
Record meta := Meta {
  m_nil : N;
  m_kvfreer : bool;
  m_freed : list (option K * option V);
  m_extra : list (N * rb_node K V)  (* allocated nodes that are not in the tree *)
}.

(** [t] has root pointer [rt] and holds exactly the sentinel, the cells [cs] and
    the detached nodes. *)
Definition st (t : rb_tree K V) (rt : N) (m : meta) (np : N)
    (cs : list (N * rb_node K V)) : Prop :=
  t_root t = rt /\ t_nil t = m_nil m /\ t_kvfreer t = m_kvfreer m /\
  t_freed t = m_freed m /\ heap_is (t_heap t) ((m_nil m, nil_node np) :: cs ++ m_extra m).

(** Running a computation that must not fail. *)
Definition wp {A} (c : option A) (Q : A -> Prop) : Prop := exists a, c = Some a /\ Q a.

Lemma wp_ret {A} (a : A) (Q : A -> Prop) : Q a -> wp (Some a) Q.
Proof. intros. by exists a. Qed.

Lemma wp_bind {A B} (c : option A) (k : A -> option B) Q :
  wp c (fun a => wp (k a) Q) -> wp (c ≫= k) Q.
Proof. intros (a & -> & b & Hk & HQ). exists b. split; [exact Hk|done]. Qed.

Lemma wp_mono {A} (c : option A) (Q Q' : A -> Prop) :
  wp c Q -> (forall a, Q a -> Q' a) -> wp c Q'.
Proof. intros (a & -> & HQ) H. exists a. auto. Qed.

Section rules.
Context (t : rb_tree K V) (rt : N) (m : meta) (np : N) (cs : list (N * rb_node K V)).
Context (Hst : st t rt m np cs).

Lemma st_nil : t_nil t = m_nil m.
Proof. apply Hst. Qed.
Lemma st_root : t_root t = rt.
Proof. apply Hst. Qed.

Lemma wp_rd p n rest (Q : rb_node K V -> Prop) :
  sel p n ((m_nil m, nil_node np) :: cs) rest -> Q n -> wp (rd t p) Q.
Proof.
  intros Hs HQ. exists n. split; [|done]. destruct Hst as (_ & _ & _ & _ & Hh).
  eapply heap_is_sel; [done|]. by apply (sel_app_l _ _ (_ :: cs)).
Qed.

Lemma wp_get_left p n rest (Q : N -> Prop) :
  sel p n ((m_nil m, nil_node np) :: cs) rest -> Q (n_left n) -> wp (get_left t p) Q.
Proof. intros Hs HQ. apply wp_bind. eapply wp_rd; [done|]. by apply wp_ret. Qed.
Lemma wp_get_right p n rest (Q : N -> Prop) :
  sel p n ((m_nil m, nil_node np) :: cs) rest -> Q (n_right n) -> wp (get_right t p) Q.
Proof. intros Hs HQ. apply wp_bind. eapply wp_rd; [done|]. by apply wp_ret. Qed.
Lemma wp_get_parent p n rest (Q : N -> Prop) :
  sel p n ((m_nil m, nil_node np) :: cs) rest -> Q (n_parent n) -> wp (get_parent t p) Q.
Proof. intros Hs HQ. apply wp_bind. eapply wp_rd; [done|]. by apply wp_ret. Qed.
Lemma wp_get_colour p n rest (Q : rbtree_colour -> Prop) :
  sel p n ((m_nil m, nil_node np) :: cs) rest -> Q (n_colour n) -> wp (get_colour t p) Q.
Proof. intros Hs HQ. apply wp_bind. eapply wp_rd; [done|]. by apply wp_ret. Qed.

Lemma wp_up p (fn : rb_node K V -> rb_node K V) n cs' (Q : rb_tree K V -> Prop) :
  rep p n (fn n) cs cs' ->
  (forall t', st t' rt m np cs' -> Q t') -> wp (up t p fn) Q.
Proof.
  intros Hr HQ. destruct Hst as (Hrt & Hnl & Hkf & Hfr & Hh).
  assert (t_heap t !! p = Some n) as Hl.
  { destruct (rep_perm _ _ _ _ _ Hr) as (rest & Hp & _).
    eapply heap_is_lookup; [done|]. rewrite Hp. right. by left. }
  exists (with_heap t (<[p := fn n]> (t_heap t))). split.
  { unfold up, hup. by rewrite Hl. }
  apply HQ. split_and!; try done. eapply heap_is_rep; [done|].
  constructor. by apply rep_app_l.
Qed.

(** Writes through the sentinel only ever change its parent. *)
Lemma wp_up_nil_parent q (Q : rb_tree K V -> Prop) :
  (forall t', st t' rt m q cs -> Q t') -> wp (set_parent t (m_nil m) q) Q.
Proof.
  intros HQ. destruct Hst as (Hrt & Hnl & Hkf & Hfr & Hh).
  exists (with_heap t (<[m_nil m := nil_node q]> (t_heap t))). split.
  { unfold set_parent, up, hup.
    rewrite (heap_is_sel _ _ _ _ _ Hh (sel_here _ _ _)). done. }
  apply HQ. split_and!; try done. by eapply heap_is_update.
Qed.

Lemma st_ne p q n n' rest rest' :
  sel p n ((m_nil m, nil_node np) :: cs) rest -> sel q n' rest rest' -> p ≠ q.
Proof.
  intros Hs Hs'.
  destruct Hst as (_ & _ & _ & _ & Hh). eapply heap_is_sel_ne; [done|..].
  - by apply (sel_app_l _ _ (_ :: cs)).
  - by apply sel_app_l.
Qed.

Lemma st_not_NULL p n rest :
  sel p n ((m_nil m, nil_node np) :: cs) rest -> p ≠ NULL.
Proof.
  intros Hs.
  destruct Hst as (_ & _ & _ & _ & Hh). eapply heap_is_sel_not_NULL; [done|].
  by apply (sel_app_l _ _ (_ :: cs)).
Qed.

Lemma st_perm cs' : cs ≡ₚ cs' -> st t rt m np cs'.
Proof. intros Hp. destruct Hst as (?&?&?&?&Hh). split_and!; try done. by rewrite <-Hp. Qed.

Lemma st_set_root p : st (set_root t p) p m np cs.
Proof. by destruct Hst as (?&?&?&?&?). Qed.

End rules.

(** [sub nl par u cs]: the cells of the subtree [u] are among [cs]. *)
Inductive sub nl par u : list (N * rb_node K V) -> Prop :=
| sub_here : sub nl par u (cells nl par u)
| sub_next c cs : sub nl par u cs -> sub nl par u (c :: cs)
| sub_app_l cs1 cs2 : sub nl par u cs1 -> sub nl par u (cs1 ++ cs2)
| sub_app_r cs1 cs2 : sub nl par u cs2 -> sub nl par u (cs1 ++ cs2).

Lemma sub_sel nl par c l a k v r cs :
  sub nl par (T c l a k v r) cs ->
  exists rest, sel a (RbNode (Some k) (Some v) c (ptr nl l) (ptr nl r) par) cs rest.
Proof.
  intros H. remember (T c l a k v r) as u eqn:Hu.
  induction H as [|c' cs _ (rest & IH)|cs1 cs2 _ (rest & IH)|cs1 cs2 _ (rest & IH)].
  - subst. eexists. cbn. apply sel_here.
  - eexists. by apply sel_next.
  - eexists. by apply sel_app_l.
  - eexists. by apply sel_app_r.
Qed.

Lemma wp_get_colour_ptr t rt m np cs par u (Q : rbtree_colour -> Prop) :
  st t rt m np cs -> sub (m_nil m) par u cs -> Q (col u) ->
  wp (get_colour t (ptr (m_nil m) u)) Q.
Proof.
  intros Hst Hs HQ. destruct u as [|c l a k v r]; cbn in *.
  - eapply wp_get_colour; [done|apply sel_here|done].
  - destruct (sub_sel _ _ _ _ _ _ _ _ _ Hs) as (rest & Hsel).
    eapply wp_get_colour; [done|by apply sel_next|done].
Qed.

(** The state while the program looks at subtree [s] under path [z]. *)
Definition zst t m np z s : Prop :=
  st t (ptr (m_nil m) (plug z s)) m np
     (ccells (m_nil m) (ptr (m_nil m) s) z ++ cells (m_nil m) (cptr (m_nil m) z) s).

(** ** Keys in order *)

Fixpoint inorder s : list (K * V) :=
  match s with
  | E => []
  | T _ l _ k v r => inorder l ++ (k, v) :: inorder r
  end.

Fixpoint before z : list (K * V) :=
  match z with
  | [] => []
  | F L _ _ _ _ _ :: z => before z
  | F R _ _ k v sib :: z => before z ++ inorder sib ++ [(k, v)]
  end.
Fixpoint after z : list (K * V) :=
  match z with
  | [] => []
  | F L _ _ k v sib :: z => (k, v) :: inorder sib ++ after z
  | F R _ _ _ _ _ :: z => after z
  end.

Lemma inorder_plug z s : inorder (plug z s) = before z ++ inorder s ++ after z.
Proof.
  revert s. induction z as [|[[] c a k v sib] z IH]; intros s; cbn.
  - by rewrite app_nil_r.
  - rewrite IH. cbn. by rewrite <-!app_assoc.
  - rewrite IH. cbn. by rewrite <-!app_assoc.
Qed.

Lemma inorder_plug_eq z s s' :
  inorder s = inorder s' -> inorder (plug z s) = inorder (plug z s').
Proof. intros H. by rewrite !inorder_plug, H. Qed.

(** ** The red-black invariant *)

(** [rb n s]: no red node has a red child, and every path to a leaf has [n]
    black nodes. *)
Inductive rb : nat -> tree K V -> Prop :=
| rb_E : rb 0 E
| rb_R n l a k v r :
    rb n l -> rb n r -> col l = BLACK -> col r = BLACK -> rb n (T RED l a k v r)
| rb_B n l a k v r : rb n l -> rb n r -> rb (S n) (T BLACK l a k v r).

(** [crb b n z]: filling the hole of [z] with a tree of black height [n] (with a
    black root if [b]) gives a red-black tree with a black root. *)
Inductive crb : bool -> nat -> list (frame K V) -> Prop :=
| crb_nil n : crb true n []
| crb_R n d a k v sib z :
    rb n sib -> col sib = BLACK -> crb false n z -> crb true n (F d RED a k v sib :: z)
| crb_B b b' n d a k v sib z :
    rb n sib -> crb b' (S n) z -> crb b n (F d BLACK a k v sib :: z).

Definition rb_root s : Prop := col s = BLACK /\ exists n, rb n s.

Lemma crb_weaken b n z : crb b n z -> crb true n z.
Proof. destruct 1; econstructor; eauto. Qed.

Lemma crb_plug b n z s :
  crb b n z -> rb n s -> (b = true -> col s = BLACK) -> rb_root (plug z s).
Proof.
  intros Hz. revert s. induction Hz as [n|n d a k v sib z Hs Hc Hz IH
    |b b' n d a k v sib z Hs Hz IH]; intros s Hr Hb; cbn.
  - split; eauto.
  - apply IH; [|done]. destruct d; constructor; auto.
  - apply IH; [|by destruct d]. destruct d; constructor; auto.
Qed.

Lemma rb_unplug z s :
  rb_root (plug z s) -> exists n, rb n s /\ crb (bool_decide (col s = BLACK)) n z.
Proof.
  revert s. induction z as [|[d c a k v sib] z IH]; intros s Hr.
  { destruct Hr as [Hc [n Hn]]. exists n. rewrite bool_decide_eq_true_2 by done.
    eauto using crb. }
  destruct (IH _ Hr) as (n & Hn & Hz).
  destruct d; inversion Hn; subst; eexists; (split; [done|]);
    rewrite ?bool_decide_eq_true_2 by done; eauto using crb.
Qed.

Definition blacken s : tree K V :=
  match s with E => E | T _ l a k v r => T BLACK l a k v r end.

Lemma blacken_black s : col s = BLACK -> blacken s = s.
Proof. by destruct s as [|[]]. Qed.

Lemma inorder_blacken s : inorder (blacken s) = inorder s.
Proof. by destruct s. Qed.

Lemma plug_T z c l a k v r : exists c' l' a' k' v' r', plug z (T c l a k v r) = T c' l' a' k' v' r'.
Proof.
  revert c l a k v r. induction z as [|[[] cf af kf vf sf] z IH]; intros; cbn; eauto 10.
Qed.

Lemma length_cells_plug nl z s :
  length (cells nl nl (plug z s)) = length (inorder (plug z s)).
Proof.
  generalize (plug z s). intros s'. generalize nl at 2. induction s' as [|c l IHl a k v r IHr]; [done|].
  intros par. cbn. rewrite !length_app, IHl, IHr. cbn. lia.
Qed.

Lemma length_before_after z : length z <= length (before z) + length (after z).
Proof.
  induction z as [|[[] c a k v sib] z IH]; cbn; rewrite ?length_app; cbn; lia.
Qed.

(** ** Height *)

Fixpoint height s : nat :=
  match s with E => 0 | T _ l _ _ _ r => S (height l `max` height r) end.

Lemma height_le_length s : height s <= length (inorder s).
Proof.
  induction s as [|c l IHl a k v r IHr]; cbn; [done|]. rewrite length_app. cbn. lia.
Qed.

(** A red-black tree is at most twice as high as a perfect one. *)
Lemma rb_height n s : rb n s -> height s <= 2 * n + (if decide (col s = RED) then 1 else 0).
Proof.
  induction 1 as [|n l a k v r Hl IHl Hr IHr Hcl Hcr|n l a k v r Hl IHl Hr IHr]; cbn in *.
  all: repeat case_decide; try congruence; lia.
Qed.

Lemma rb_count n s : rb n s -> 2 ^ n <= S (length (inorder s)).
Proof.
  induction 1; cbn [inorder]; rewrite ?length_app; cbn [length Nat.pow] in *; lia.
Qed.

Lemma rb_root_height s : rb_root s -> height s <= 2 * Nat.log2 (S (length (inorder s))).
Proof.
  intros [Hc [n Hn]]. pose proof (rb_height _ _ Hn) as Hh. rewrite Hc in Hh.
  rewrite (decide_False (P := BLACK = RED)) in Hh by done.
  pose proof (Nat.log2_le_mono _ _ (rb_count _ _ Hn)) as Hl.
  rewrite Nat.log2_pow2 in Hl by lia. lia.
Qed.

End shape.

(** Find the subtree a [sub] goal speaks of. *)
Ltac sub_tac :=
  first [ apply sub_here | apply sub_next; sub_tac
        | apply sub_app_l; sub_tac | apply sub_app_r; sub_tac ].
