(* ===== verification/RbRefine.v ===== *)
(** The C functions of [RbTree] on heaps that hold a tree: what each one turns
    the path and the subtree it works on into. *)
From S2P Require Import Prelude Heap RbTree RbShape.

(** Normalise the cells of a state. *)
Ltac wsimp :=
  unfold put_left, put_right, put_parent, put_colour, put_value in *;
  cbn [cells ccells ptr cptr f_a f_k f_v f_col f_dir f_sib n_left n_right n_parent n_colour n_key n_value
       col app nil_node] in *.

(** Replace the sentinel pointer and the root pointer by their values. *)
Ltac wmeta :=
  repeat match goal with
  | H : st ?t _ _ _ _ |- context [t_nil ?t] => rewrite (st_nil _ _ _ _ _ H)
  | H : st ?t _ _ _ _ |- context [t_root ?t] => rewrite (st_root _ _ _ _ _ H)
  end.

(** [p ≠ q] for the addresses of two different cells. *)
Ltac wne :=
  lazymatch goal with
  | |- ptr _ ?s ≠ _ => destruct s; wsimp; wne
  | |- _ ≠ ptr _ ?s => destruct s; wsimp; wne
  | |- _ => wne1
  end
with wne1 :=
  match goal with
  | H : st _ _ _ _ _ |- ?p ≠ ?q => eapply (st_ne _ _ _ _ _ H p q); [sel_tac | sel_tac]
  | H : st _ _ _ _ _ |- ?p ≠ ?q =>
      apply not_eq_sym; eapply (st_ne _ _ _ _ _ H q p); [sel_tac | sel_tac]
  | H : st _ _ _ _ _ |- _ ≠ NULL => eapply (st_not_NULL _ _ _ _ _ H); sel_tac
  end.

Ltac wdec :=
  match goal with
  | H : col ?s = ?c |- context [decide (col ?s = ?c)] =>
      rewrite (decide_True (P := col s = c)) by exact H
  | H : col ?s = _ |- context [decide (col ?s = ?c)] =>
      rewrite (decide_False (P := col s = c)) by (rewrite H; discriminate)
  | |- context [decide (?p = ?p)] => rewrite (decide_True (P := p = p)) by reflexivity
  | |- context [decide (?p ≠ ?p)] =>
      rewrite (decide_False (P := p ≠ p)) by (intros []; reflexivity)
  | |- context [decide (?p = ?q)] =>
      rewrite (decide_False (P := p = q)) by (first [discriminate | wne])
  | |- context [decide (?p ≠ ?q)] => rewrite (decide_True (P := p ≠ q)) by wne
  end.

(** One step of the program. *)
Ltac wstep1 :=
  lazymatch goal with
  | |- wp (_ ≫= _) _ => apply wp_bind
  | |- wp (mbind _ _) _ => apply wp_bind
  | H : st ?t _ _ _ _ |- wp (Some (set_root ?t ?p)) _ =>
      apply (fun H => st_set_root _ _ _ _ _ H p) in H; apply wp_ret; revert H;
      generalize (set_root t p); clear t; intros t H
  | |- wp (Some _) _ => apply wp_ret
  | H : st ?t _ _ _ _ |- wp (get_left ?t _) _ =>
      eapply (wp_get_left _ _ _ _ _ H); [sel_tac | cbn beta]
  | H : st ?t _ _ _ _ |- wp (get_right ?t _) _ =>
      eapply (wp_get_right _ _ _ _ _ H); [sel_tac | cbn beta]
  | H : st ?t _ _ _ _ |- wp (get_parent ?t _) _ =>
      eapply (wp_get_parent _ _ _ _ _ H); [sel_tac | cbn beta]
  | H : st ?t _ _ _ _ |- wp (get_colour ?t (ptr _ _)) _ =>
      eapply (wp_get_colour_ptr _ _ _ _ _ _ _ _ H); [sub_tac | cbn beta]
  | H : st ?t _ _ _ _ |- wp (get_colour ?t _) _ =>
      eapply (wp_get_colour _ _ _ _ _ H); [sel_tac | cbn beta]
  | H : st ?t _ _ _ _ |- wp (rd ?t _) _ =>
      eapply (wp_rd _ _ _ _ _ H); [sel_tac | cbn beta]
  | H : st ?t _ _ _ _ |- wp (set_left ?t _ _) _ =>
      eapply (wp_up _ _ _ _ _ H); [rep_tac | clear t H; intros t H]
  | H : st ?t _ _ _ _ |- wp (set_right ?t _ _) _ =>
      eapply (wp_up _ _ _ _ _ H); [rep_tac | clear t H; intros t H]
  | H : st ?t _ _ _ _ |- wp (set_parent ?t _ _) _ =>
      eapply (wp_up _ _ _ _ _ H); [rep_tac | clear t H; intros t H]
  | H : st ?t _ _ _ _ |- wp (set_colour ?t _ _) _ =>
      eapply (wp_up _ _ _ _ _ H); [rep_tac | clear t H; intros t H]
  | H : st ?t _ _ _ _ |- wp (up ?t _ _) _ =>
      eapply (wp_up _ _ _ _ _ H); [rep_tac | clear t H; intros t H]
  end.
Ltac wstep := wstep1; wsimp; wmeta; repeat wdec.
Ltac wsteps := wsimp; wmeta; repeat wdec; repeat wstep.

Section refine.
Context {K V : Type} (comparator : K -> K -> Z).
Implicit Types (s : tree K V) (z : list (frame K V)) (t : rb_tree K V) (m : @meta K V).

(** Conclude that the cells reached are those of the target tree. *)
Lemma zst_intro t rt m np cs z s :
  st t rt m np cs -> rt = ptr (m_nil m) (plug z s) ->
  cs ≡ₚ ccells (m_nil m) (ptr (m_nil m) s) z ++ cells (m_nil m) (cptr (m_nil m) z) s ->
  zst t m np z s.
Proof. intros Hst -> Hp. unfold zst. by eapply st_perm. Qed.

Lemma zst_refocus t m np z s z' s' :
  zst t m np z s -> plug z s = plug z' s' -> zst t m np z' s'.
Proof.
  unfold zst. intros Hst Heq. rewrite <-Heq. eapply st_perm; [exact Hst|].
  rewrite <-!cells_plug. by rewrite Heq.
Qed.

End refine.

Ltac wdone :=
  match goal with
  | H : st ?t _ _ _ _ |- zst ?t _ _ _ _ =>
      eapply (zst_intro _ _ _ _ _ _ _ H);
      cbn [plug fill f_dir f_col f_a f_k f_v f_sib];
      [ first [ reflexivity | by apply ptr_plug | by apply ptr_plug_eq | idtac ]
      | wsimp; try solve_Permutation ]
  end.

(** Look at the current state as subtree [s] under path [z]. *)
Ltac wfocus z s :=
  match goal with
  | H : st ?t _ ?m ?np _ |- _ =>
      let Hz := fresh "Hz" in assert (zst t m np z s) as Hz by wdone; clear H
  end.

(** Call a function whose specification is [lem]. *)
Tactic Notation "wcall" uconstr(lem) :=
  eapply wp_mono; [eapply lem; eassumption |];
  repeat match goal with H : zst ?t _ _ _ _ |- _ => clear H end;
  cbn beta; intros ? ?.

Ltac zexact := match goal with H : zst ?t _ _ _ _ |- zst ?t _ _ _ _ => exact H end.

(** Equality of the keys of two trees that differ by rotations. *)
Ltac order_tac :=
  cbn [plug fill f_dir f_col f_a f_k f_v f_sib]; apply inorder_plug_eq; cbn;
  rewrite <-?app_assoc; cbn; rewrite <-?app_assoc; reflexivity.

Section rot.
Context {K V : Type} (comparator : K -> K -> Z).
Implicit Types (s : tree K V) (z : list (frame K V)) (t : rb_tree K V) (m : @meta K V).

Lemma left_rot_spec t m np z c a x k v cy b y ky vy g :
  zst t m np z (T c a x k v (T cy b y ky vy g)) ->
  wp (left_rot t x) (fun t' => zst t' m np z (T cy (T c a x k v b) y ky vy g)).
Proof.
  unfold zst at 1. intros Hst. unfold left_rot.
  destruct b as [|cb bl b kb vb br], z as [|[[] cf af kf vf sf] z]; wsteps; wdone.
Qed.

Lemma right_rot_spec t m np z c g x k v cy b y ky vy a :
  zst t m np z (T c (T cy a y ky vy b) x k v g) ->
  wp (right_rot t x) (fun t' => zst t' m np z (T cy a y ky vy (T c b x k v g))).
Proof.
  unfold zst at 1. intros Hst. unfold right_rot.
  destruct b as [|cb bl b kb vb br], z as [|[[] cf af kf vf sf] z]; wsteps; wdone.
Qed.

(** ** Insertion *)

(** The last statement of the fix-ups: paint the root. *)
Lemma blacken_root_spec t m np z c l a k v r :
  zst t m np z (T c l a k v r) ->
  wp (set_colour t (ptr (m_nil m) (plug z (T c l a k v r))) BLACK)
     (fun t' => zst t' m np [] (blacken (plug z (T c l a k v r)))).
Proof.
  intros Hz. destruct (plug_T z c l a k v r) as (c' & l' & a' & k' & v' & r' & Hp).
  apply (fun H => zst_refocus _ _ _ _ _ [] _ H Hp) in Hz. rewrite Hp.
  unfold zst at 1 in Hz. wsteps; wdone.
Qed.

Lemma insert_fixup_exit fuel t m np z c l a k v r :
  zst t m np z (T c l a k v r) ->
  match z with [] => True | f :: _ => f_col f = BLACK end ->
  wp (rbtree_insert_fixup (S fuel) t a)
     (fun t' => zst t' m np [] (blacken (plug z (T c l a k v r)))).
Proof.
  intros Hz Hc. cbn [rbtree_insert_fixup]. pose proof Hz as Hst. unfold zst in Hst.
  destruct z as [|[[] cf af kf vf sf] z]; cbn in Hc; subst; wsteps;
    by apply blacken_root_spec.
Qed.

(** The post-condition of a balancing operation: a red-black tree with the same
    keys and values in the same order. *)
Definition balanced m np (kvs : list (K * V)) (t' : rb_tree K V) : Prop :=
  exists s', zst t' m np [] s' /\ rb_root s' /\ inorder s' = kvs.

Lemma balanced_exit m np kvs z s (c : option (rb_tree K V)) :
  wp c (fun t' => zst t' m np [] (blacken (plug z s))) ->
  rb_root (blacken (plug z s)) -> inorder (plug z s) = kvs ->
  wp c (balanced m np kvs).
Proof.
  intros Hc Hr Hi. eapply wp_mono; [done|]. intros t' Ht'.
  exists (blacken (plug z s)). by rewrite inorder_blacken.
Qed.

Lemma rb_root_blacken_plug b n z s :
  crb b n z -> rb n s -> (b = true -> col s = BLACK) -> rb_root (blacken (plug z s)).
Proof.
  intros Hz Hs Hb. pose proof (crb_plug _ _ _ _ Hz Hs Hb) as H.
  rewrite blacken_black; [done|]. apply H.
Qed.

(** The iteration that follows the rotations: the parent of the node is black. *)
Lemma insert_fixup_last fuel t m np n z d p kp vp sib l x k v r kvs :
  zst t m np z (fill (F d BLACK p kp vp sib) (T RED l x k v r)) ->
  crb true (S n) z -> rb n sib -> rb n (T RED l x k v r) -> 0 < fuel ->
  inorder (plug z (fill (F d BLACK p kp vp sib) (T RED l x k v r))) = kvs ->
  wp (rbtree_insert_fixup fuel t x) (balanced m np kvs).
Proof.
  intros Hz Hc Hs Hx Hf <-. destruct fuel as [|fuel]; [lia|].
  eapply (balanced_exit _ _ _ (F d BLACK p kp vp sib :: z) (T RED l x k v r)).
  - apply insert_fixup_exit; [|done]. by eapply zst_refocus.
  - eapply (rb_root_blacken_plug true (S n) z); [done| |by destruct d].
    destruct d; by constructor.
  - done.
Qed.

(** The uncle is red: recolour and go on from the grandparent. *)
Lemma insert_fixup_red fuel t m np z d dg p kp vp sp g kg vg ul ua uk uv ur s Q :
  let z' := F d RED p kp vp sp :: F dg BLACK g kg vg (T RED ul ua uk uv ur) :: z in
  let s' := fill (F dg RED g kg vg (T BLACK ul ua uk uv ur)) (fill (F d BLACK p kp vp sp) s) in
  s ≠ E ->
  zst t m np z' s ->
  (forall t', zst t' m np z s' -> wp (rbtree_insert_fixup fuel t' g) Q) ->
  wp (rbtree_insert_fixup (S fuel) t (ptr (m_nil m) s)) Q.
Proof.
  intros z' s' Hs Hz HQ. subst z' s'. destruct s as [|c l x k v r]; [done|].
  cbn [rbtree_insert_fixup ptr]. unfold zst in Hz.
  destruct d, dg; wsteps; apply HQ; wdone.
Qed.

(** The uncle is black: at most two rotations. *)
Lemma insert_fixup_black fuel t m np n z d dg p kp vp sp g kg vg u l x k v r :
  let z' := F d RED p kp vp sp :: F dg BLACK g kg vg u :: z in
  zst t m np z' (T RED l x k v r) ->
  crb true (S n) z -> rb n sp -> col sp = BLACK -> rb n u -> col u = BLACK ->
  rb n l -> rb n r -> col l = BLACK -> col r = BLACK -> 0 < fuel ->
  wp (rbtree_insert_fixup (S fuel) t x)
     (balanced m np (inorder (plug z' (T RED l x k v r)))).
Proof.
  intros z' Hz Hc Hsp Hcsp Hu Hcu Hl Hr Hcl Hcr Hf. subst z'.
  cbn [rbtree_insert_fixup]. unfold zst in Hz.
  destruct d, dg; wsteps.
  - wfocus z (T RED (T BLACK (T RED l x k v r) p kp vp sp) g kg vg u).
    wcall right_rot_spec.
    eapply (insert_fixup_last _ _ _ _ n z L p kp vp (T RED sp g kg vg u)); [zexact|eauto using rb..|].
    order_tac.
  - wfocus (F R BLACK g kg vg u :: z) (T RED (T RED l x k v r) p kp vp sp).
    wcall right_rot_spec. unfold zst in *. wsteps.
    wfocus z (T RED u g kg vg (T BLACK l x k v (T RED r p kp vp sp))).
    wcall left_rot_spec.
    eapply (insert_fixup_last _ _ _ _ n z R x k v (T RED u g kg vg l)); [zexact|eauto using rb..|].
    order_tac.
  - wfocus (F L BLACK g kg vg u :: z) (T RED sp p kp vp (T RED l x k v r)).
    wcall left_rot_spec. unfold zst in *. wsteps.
    wfocus z (T RED (T BLACK (T RED sp p kp vp l) x k v r) g kg vg u).
    wcall right_rot_spec.
    eapply (insert_fixup_last _ _ _ _ n z L x k v (T RED r g kg vg u)); [zexact|eauto using rb..|].
    order_tac.
  - wfocus z (T RED u g kg vg (T BLACK sp p kp vp (T RED l x k v r))).
    wcall left_rot_spec.
    eapply (insert_fixup_last _ _ _ _ n z R p kp vp (T RED u g kg vg sp)); [zexact|eauto using rb..|].
    order_tac.
Qed.

Lemma insert_fixup_spec fuel t m np n z l x k v r :
  zst t m np z (T RED l x k v r) ->
  crb true n z -> rb n l -> rb n r -> col l = BLACK -> col r = BLACK ->
  length z < fuel ->
  wp (rbtree_insert_fixup fuel t x)
     (balanced m np (inorder (plug z (T RED l x k v r)))).
Proof.
  revert t n z l x k v r.
  induction fuel as [|fuel IH]; intros t n z l x k v r Hz Hc Hl Hr Hcl Hcr Hf; [lia|].
  inversion Hc as [n'|n' d p kp vp sp z' Hsp Hcsp Hz'|b b' n' d p kp vp sp z' Hsp Hz']; subst.
  - eapply balanced_exit; [by apply insert_fixup_exit| |done].
    split; [done|]. exists (S n). by constructor.
  - inversion Hz' as [|? ? ? ? ? ? ? ? ? ?|? b' ? dg g kg vg u z'' Hu Hz'']; subst.
    apply crb_weaken in Hz''. cbn in Hf. destruct (col u) eqn:Hcu.
    + destruct u as [|cu ul ua uk uv ur]; cbn in Hcu; [done|subst].
      inversion Hu as [|? ? ? ? ? ? Hul Hur Hcul Hcur|]; subst.
      eapply (insert_fixup_red fuel t m np z'' d dg p kp vp sp g kg vg ul ua uk uv ur
                (T RED l x k v r)); [done|done|].
      intros t' Ht'. destruct d, dg; cbn in Ht';
        (eapply wp_mono;
          [eapply (IH t' (S n)); [exact Ht'|done|eauto using rb..|done|done|lia]|]);
        intros t'' (s' & Hs' & Hrb & Hin); (exists s'; split_and!; [done|done|]);
        rewrite Hin; order_tac.
    + eapply insert_fixup_black; eauto. lia.
  - eapply balanced_exit; [by apply insert_fixup_exit| |done].
    eapply (rb_root_blacken_plug b' (S n) z'); [exact Hz'| |by destruct d].
    destruct d; by repeat constructor.
Qed.
End rot.
