(* ===== verification/RbSearch.v ===== *)
(** Comparators that order keys, and the functions of [RbTree] that only read the
    tree: search, extrema, size and iteration. *)
From S2P Require Import Prelude Heap RbTree RbShape RbRefine.

(** What the tree relies on in its [comparator]: a strict total order whose
    ties are equalities. *)
Class KeyOrder {K : Type} (cmp : K -> K -> Z) : Prop := {
  cmp_zero a b : (cmp a b = 0)%Z <-> a = b;
  cmp_flip a b : (cmp a b < 0)%Z <-> (0 < cmp b a)%Z;
  cmp_trans a b c : (cmp a b < 0)%Z -> (cmp b c < 0)%Z -> (cmp a c < 0)%Z
}.

Section search.
Context {K V : Type} (cmp : K -> K -> Z) `{!KeyOrder cmp}.
Implicit Types (s : tree K V) (z : list (frame K V)) (t : rb_tree K V)
  (m : @meta K V) (kvs : list (K * V)).

(** Keys in increasing order. *)
Definition lt_kv (x y : K * V) : Prop := (cmp x.1 y.1 < 0)%Z.
Definition ksorted (kvs : list (K * V)) : Prop := StronglySorted lt_kv kvs.

(** The keys before the focus are smaller than [key], those after it larger. *)
Definition around (key : K) z : Prop :=
  Forall (fun kv => (cmp kv.1 key < 0)%Z) (before z) /\
  Forall (fun kv => (cmp key kv.1 < 0)%Z) (after z).

Lemma cmp_refl a : cmp a a = 0%Z.
Proof. by apply cmp_zero. Qed.

Lemma lt_kv_irrefl x : ~ lt_kv x x.
Proof. unfold lt_kv. rewrite cmp_refl. lia. Qed.

#[export] Instance lt_kv_trans : Transitive lt_kv.
Proof. intros x y w. unfold lt_kv. apply cmp_trans. Qed.

Lemma ksorted_app l1 l2 :
  ksorted (l1 ++ l2) <->
  ksorted l1 /\ ksorted l2 /\ forall x y, x ∈ l1 -> y ∈ l2 -> lt_kv x y.
Proof. unfold ksorted. rewrite StronglySorted_app. naive_solver. Qed.

Lemma ksorted_mid l1 x l2 :
  ksorted (l1 ++ x :: l2) <->
  ksorted l1 /\ ksorted l2 /\ Forall (fun y => lt_kv y x) l1 /\ Forall (lt_kv x) l2.
Proof.
  rewrite ksorted_app. unfold ksorted. rewrite StronglySorted_cons, !Forall_forall.
  split.
  - intros (H1 & (H2 & H3) & H4). split_and!; try done.
    intros y Hy. apply H4; [done|by left].
  - intros (H0 & H3 & H1 & H2). split_and!; try done.
    intros a b Ha [->|Hb]%elem_of_cons; [by apply H1|]. etrans; [by apply H1|by apply H2].
Qed.

Lemma ksorted_NoDup kvs : ksorted kvs -> NoDup kvs.*1.
Proof.
  induction 1 as [|[k v] l Hl IH Hk]; cbn; constructor; [|done].
  intros (x & -> & Hx)%list_elem_of_fmap. rewrite Forall_forall in Hk.
  apply (Hk _) in Hx. unfold lt_kv in Hx. cbn in Hx. rewrite cmp_refl in Hx. lia.
Qed.

(** A key around which the tree splits is not in it. *)
Lemma around_fresh key z : around key z -> key ∉ (before z ++ after z).*1.
Proof.
  intros [Hb Ha]. rewrite fmap_app, elem_of_app.
  intros [(x & -> & Hx)%list_elem_of_fmap|(x & -> & Hx)%list_elem_of_fmap];
    rewrite Forall_forall in *; [apply Hb in Hx|apply Ha in Hx];
    cbn in Hx; rewrite cmp_refl in Hx; lia.
Qed.

(** Going down to a child keeps the key between the two sides of the path. *)
Lemma around_left key z c a k v r :
  around key z -> (cmp key k < 0)%Z -> ksorted ((k, v) :: inorder r) ->
  around key (F L c a k v r :: z).
Proof.
  intros [Hb Ha] Hk [Hs _]%StronglySorted_cons. split; [done|]. cbn.
  constructor; [done|]. apply Forall_app. split; [|done].
  eapply Forall_impl; [done|]. intros [k' v'] H'. cbn. by eapply cmp_trans.
Qed.

Lemma around_right key z c a k v l :
  around key z -> (cmp k key < 0)%Z -> ksorted (inorder l ++ [(k, v)]) ->
  around key (F R c a k v l :: z).
Proof.
  intros [Hb Ha] Hk (_ & _ & Hs & _)%ksorted_mid. split; [|done]. cbn.
  apply Forall_app. split; [done|]. apply Forall_app. split; [|by repeat constructor].
  eapply Forall_impl; [done|]. intros [k' v'] H'. cbn. by eapply cmp_trans.
Qed.

Lemma wp_cmp_node t rt m np cs p n k key rest (Q : Z -> Prop) :
  st t rt m np cs -> sel p n ((m_nil m, nil_node np) :: cs) rest ->
  n_key n = Some k -> Q (cmp key k) -> wp (cmp_node cmp t key p) Q.
Proof.
  intros Hst Hs Hk HQ. unfold cmp_node. apply wp_bind. eapply wp_rd; [done..|].
  rewrite Hk. cbn. by apply wp_ret.
Qed.

(** The search returns the position of the key, or the empty position where it
    would be inserted. *)
Lemma search_spec fuel t m np z s key :
  zst t m np z s -> ksorted (inorder s) -> around key z -> height s < fuel ->
  wp (rbtree_recursive_search cmp fuel t (ptr (m_nil m) s) key)
     (fun p => exists z' s', plug z' s' = plug z s /\ p = ptr (m_nil m) s' /\
        around key z' /\ (s' = E \/ exists c l a v r, s' = T c l a key v r)).
Proof.
  revert z s. induction fuel as [|fuel IH]; intros z s Hz Hs Ha Hf; [lia|].
  pose proof Hz as Hst. unfold zst in Hst. cbn [rbtree_recursive_search].
  destruct s as [|c l a k v r]; wsteps.
  { exists z, E. eauto. }
  eapply wp_cmp_node; [exact Hst|sel_tac|done|].
  cbn in Hs, Hf.
  pose proof Hs as (Hl & Hr & Hlk & Hrk)%ksorted_mid.
  destruct (Z.eqb_spec (cmp key k) 0) as [->%cmp_zero|Hne].
  { apply wp_ret. exists z, (T c l a k v r). eauto 10. }
  destruct (Z.ltb_spec (cmp key k) 0) as [Hlt|Hge]; wstep; wstep.
  - eapply wp_mono; [apply (IH (F L c a k v r :: z) l)|]; eauto; [by eapply zst_refocus| |lia].
    apply around_left; [done..|]. by constructor.
  - eapply wp_mono; [apply (IH (F R c a k v l :: z) r)|]; eauto; [by eapply zst_refocus| |lia].
    apply around_right; [done| |].
    + apply cmp_flip. lia.
    + apply ksorted_mid. split_and!; [done|constructor|done|constructor].
Qed.

(** ** Extrema *)

(** [all_dir d zs]: the path [zs] always goes to the side [d]. *)
Definition all_dir (d : dir) z : Prop := Forall (fun f => f_dir f = d) z.

Lemma before_all_L zs z : all_dir L zs -> before (zs ++ z) = before z.
Proof. induction 1 as [|[[] c a k v sib] zs Hf _ IH]; cbn in *; [done|done|done]. Qed.
Lemma after_all_R zs z : all_dir R zs -> after (zs ++ z) = after z.
Proof. induction 1 as [|[[] c a k v sib] zs Hf _ IH]; cbn in *; [done|done|done]. Qed.

Lemma minimum_loop_spec fuel t m np z c l a k v r :
  zst t m np z (T c l a k v r) -> length (inorder l) < fuel ->
  wp (minimum_loop fuel t a) (fun p => exists zs c' k' v' r', all_dir L zs /\
     plug (zs ++ z) (T c' E p k' v' r') = plug z (T c l a k v r)).
Proof.
  revert z c l a k v r.
  induction fuel as [|fuel IH]; intros z c l a k v r Hz Hf; [lia|].
  pose proof Hz as Hst. unfold zst in Hst. cbn [minimum_loop].
  destruct l as [|cl ll la lk lv lr]; wsteps.
  { exists [], c, k, v, r. split; [by constructor|done]. }
  cbn in Hf. rewrite length_app in Hf. cbn in Hf.
  eapply wp_mono; [eapply (IH (F L c a k v r :: z)); [by eapply zst_refocus|lia]|].
  cbn beta. intros p (zs & c' & k' & v' & r' & Hd & Hp).
  exists (zs ++ [F L c a k v r]), c', k', v', r'. rewrite <-app_assoc. split; [|done].
  apply Forall_app. by repeat constructor.
Qed.

Lemma maximum_loop_spec fuel t m np z c l a k v r :
  zst t m np z (T c l a k v r) -> length (inorder r) < fuel ->
  wp (maximum_loop fuel t a) (fun p => exists zs c' l' k' v', all_dir R zs /\
     plug (zs ++ z) (T c' l' p k' v' E) = plug z (T c l a k v r)).
Proof.
  revert z c l a k v r.
  induction fuel as [|fuel IH]; intros z c l a k v r Hz Hf; [lia|].
  pose proof Hz as Hst. unfold zst in Hst. cbn [maximum_loop].
  destruct r as [|cr rl ra rk rv rr]; wsteps.
  { exists [], c, l, k, v. split; [by constructor|done]. }
  cbn in Hf. rewrite length_app in Hf. cbn in Hf.
  eapply wp_mono; [eapply (IH (F R c a k v l :: z)); [by eapply zst_refocus|lia]|].
  cbn beta. intros p (zs & c' & l' & k' & v' & Hd & Hp).
  exists (zs ++ [F R c a k v l]), c', l', k', v'. rewrite <-app_assoc. split; [|done].
  apply Forall_app. by repeat constructor.
Qed.

(** The fuel of the loops exceeds the number of nodes. *)
Lemma zst_fuel t m np z s : zst t m np z s -> length (inorder (plug z s)) < fuel_of t.
Proof.
  unfold zst. intros (_ & _ & _ & _ & Hh). unfold fuel_of.
  rewrite (heap_is_size _ _ Hh). cbn. rewrite !length_app.
  pose proof (length_cells_plug (m_nil m) z s) as Hc.
  rewrite cells_plug, length_app in Hc. lia.
Qed.

Lemma zst_fuel_sub t m np z s : zst t m np z s -> length (inorder s) + length z < fuel_of t.
Proof.
  intros Hz%zst_fuel. rewrite inorder_plug, !length_app in Hz.
  pose proof (length_before_after z). lia.
Qed.

Lemma minimum_spec t m np z c l a k v r :
  zst t m np z (T c l a k v r) ->
  wp (rbtree_minimum t a) (fun p => exists zs c' k' v' r', all_dir L zs /\
     plug (zs ++ z) (T c' E p k' v' r') = plug z (T c l a k v r)).
Proof.
  intros Hz. unfold rbtree_minimum. pose proof Hz as Hst. unfold zst in Hst. wsteps.
  apply zst_fuel_sub in Hz as Hf. cbn in Hf. rewrite length_app in Hf.
  eapply minimum_loop_spec; [done|lia].
Qed.

Lemma maximum_spec t m np z c l a k v r :
  zst t m np z (T c l a k v r) ->
  wp (rbtree_maximum t a) (fun p => exists zs c' l' k' v', all_dir R zs /\
     plug (zs ++ z) (T c' l' p k' v' E) = plug z (T c l a k v r)).
Proof.
  intros Hz. unfold rbtree_maximum. pose proof Hz as Hst. unfold zst in Hst. wsteps.
  apply zst_fuel_sub in Hz as Hf. cbn in Hf. rewrite length_app in Hf. cbn in Hf.
  eapply maximum_loop_spec; [done|lia].
Qed.

Lemma number_of_nodes_spec fuel t m np z s :
  zst t m np z s -> length (inorder s) < fuel ->
  wp (number_of_nodes fuel t (ptr (m_nil m) s)) (fun n => n = length (inorder s)).
Proof.
  revert z s. induction fuel as [|fuel IH]; intros z s Hz Hf; [lia|].
  pose proof Hz as Hst. unfold zst in Hst. cbn [number_of_nodes].
  destruct s as [|c l a k v r]; wsteps; [done|].
  cbn in Hf. rewrite length_app in Hf. cbn in Hf.
  eapply wp_mono; [apply (IH (F L c a k v r :: z) l); [by eapply zst_refocus|lia]|].
  intros nl' ->. apply wp_bind.
  eapply wp_mono; [apply (IH (F R c a k v l :: z) r); [by eapply zst_refocus|lia]|].
  intros nr' ->. apply wp_ret. cbn. rewrite length_app. cbn. lia.
Qed.

(** ** Iteration *)

(** [at_pos z0 s0 kvs p]: [p] is the node of [plug z0 s0] that follows the keys
    [kvs] in order, or the sentinel when these are all of them. *)
Definition at_pos m (s0 : tree K V) kvs (p : N) : Prop :=
  (p = m_nil m /\ kvs = inorder s0) \/
  exists z c l k v r, plug z (T c l p k v r) = s0 /\ before z ++ inorder l = kvs.

Lemma successor_loop_spec fuel t m np z s :
  zst t m np z s -> s ≠ E -> length z < fuel ->
  wp (successor_loop fuel t (ptr (m_nil m) s) (cptr (m_nil m) z))
     (at_pos m (plug z s) (before z ++ inorder s)).
Proof.
  revert z s. induction fuel as [|fuel IH]; intros z s Hz Hs Hf; [lia|].
  pose proof Hz as Hst. unfold zst in Hst. cbn [successor_loop].
  destruct s as [|c l a k v r]; [done|].
  destruct z as [|[[] cf af kf vf sf] z]; wsteps.
  - left. split; [done|]. by rewrite inorder_plug, app_nil_r.
  - right. exists z, cf, (T c l a k v r), kf, vf, sf. done.
  - eapply wp_mono; [apply (IH z (T cf sf af kf vf (T c l a k v r)))|].
    + by eapply zst_refocus.
    + done.
    + cbn in Hf. lia.
    + intros p. cbn [before inorder plug fill f_dir f_col f_a f_k f_v f_sib].
      by rewrite <-!app_assoc.
Qed.

Lemma predecessor_loop_spec fuel t m np z s :
  zst t m np z s -> s ≠ E -> length z < fuel ->
  wp (predecessor_loop fuel t (ptr (m_nil m) s) (cptr (m_nil m) z))
     (fun p => (p = m_nil m /\ before z = []) \/
        exists z' c l k v r, plug z' (T c l p k v r) = plug z s /\
           inorder r ++ after z' = inorder s ++ after z).
Proof.
  revert z s. induction fuel as [|fuel IH]; intros z s Hz Hs Hf; [lia|].
  pose proof Hz as Hst. unfold zst in Hst. cbn [predecessor_loop].
  destruct s as [|c l a k v r]; [done|].
  destruct z as [|[[] cf af kf vf sf] z]; wsteps.
  - by left.
  - eapply wp_mono; [apply (IH z (T cf (T c l a k v r) af kf vf sf))|].
    + by eapply zst_refocus.
    + done.
    + cbn in Hf. lia.
    + intros p. cbn [after before inorder plug fill f_dir f_col f_a f_k f_v f_sib].
      by rewrite <-!app_assoc.
  - right. exists z, cf, sf, kf, vf, (T c l a k v r). done.
Qed.

Lemma successor_spec t m np z c l a k v r :
  zst t m np z (T c l a k v r) ->
  wp (rbtree_successor t a)
     (at_pos m (plug z (T c l a k v r)) (before z ++ inorder l ++ [(k, v)])).
Proof.
  intros Hz. unfold rbtree_successor. pose proof Hz as Hst. unfold zst in Hst.
  destruct r as [|cr rl ra rk rv rr]; wsteps.
  - pose proof (successor_loop_spec (fuel_of t) t m np z (T c l a k v E)) as H.
    cbn in H. apply H; [done|done|]. apply zst_fuel_sub in Hz. lia.
  - eapply wp_mono.
    { eapply (minimum_spec t m np (F R c a k v l :: z)). by eapply zst_refocus. }
    cbn beta. intros p (zs & c' & k' & v' & r' & Hd & Hp). right.
    exists (zs ++ F R c a k v l :: z), c', E, k', v', r'. split; [done|].
    by rewrite before_all_L, app_nil_r by done.
Qed.

Lemma predecessor_spec t m np z c l a k v r :
  zst t m np z (T c l a k v r) ->
  wp (rbtree_predecessor t a)
     (fun p => (p = m_nil m /\ before z ++ inorder l = []) \/
        exists z' c' l' k' v' r', plug z' (T c' l' p k' v' r') = plug z (T c l a k v r) /\
          inorder r' ++ after z' = (k, v) :: inorder r ++ after z).
Proof.
  intros Hz. unfold rbtree_predecessor. pose proof Hz as Hst. unfold zst in Hst.
  destruct l as [|cl ll la lk lv lr]; wsteps.
  - pose proof (predecessor_loop_spec (fuel_of t) t m np z (T c E a k v r)) as H.
    cbn in H. rewrite app_nil_r. apply H; [done|done|]. apply zst_fuel_sub in Hz. lia.
  - eapply wp_mono.
    { eapply (maximum_spec t m np (F L c a k v r :: z)). by eapply zst_refocus. }
    cbn beta. intros p (zs & c' & l' & k' & v' & Hd & Hp). right.
    exists (zs ++ F L c a k v r :: z), c', l', k', v', E. split; [done|].
    by rewrite after_all_R by done.
Qed.

(** The client loop from a position visits the rest of the keys in order. *)
Lemma iterate_spec fuel t m np s0 kvs rest p :
  zst t m np [] s0 -> at_pos m s0 kvs p -> inorder s0 = kvs ++ rest ->
  length rest < fuel -> iterate fuel t p = Some rest.
Proof.
  revert kvs rest p. induction fuel as [|fuel IH]; intros kvs rest p Hz Hp Hr Hf; [lia|].
  pose proof Hz as Hst. unfold zst in Hst. cbn [iterate]. unfold rbtree_iterator_valid.
  rewrite (st_nil _ _ _ _ _ Hst).
  destruct Hp as [[-> ->]|(z & c & l & k & v & r & <- & <-)].
  { rewrite bool_decide_eq_false_2 by naive_solver.
    destruct rest; [done|]. apply (f_equal length) in Hr. rewrite length_app in Hr.
    cbn in Hr. lia. }
  clear Hst. pose proof Hz as Hz0.
  apply (zst_refocus _ _ _ [] _ z (T c l p k v r)) in Hz; [|done].
  pose proof Hz as Hst. unfold zst in Hst. wsimp.
  rewrite bool_decide_eq_true_2 by wne.
  destruct (successor_spec _ _ _ _ _ _ _ _ _ _ Hz) as (q & Hq & Hq').
  unfold rbtree_iterator_key, rbtree_iterator_value, rbtree_iterator_next.
  rewrite (st_nil _ _ _ _ _ Hst).
  assert (p ≠ NULL) by wne. assert (p ≠ m_nil m) by wne.
  rewrite !decide_False by done.
  edestruct (wp_rd _ _ _ _ _ Hst p) as (n & Hn & HQ); [sel_tac|exact eq_refl|].
  rewrite Hn. cbn [mbind option_bind]. rewrite <-HQ. cbn. rewrite Hq. cbn.
  rewrite inorder_plug in Hr. cbn in Hr. rewrite <-!app_assoc in Hr.
  apply app_inv_head in Hr. apply app_inv_head in Hr. subst rest.
  cbn in Hf. rewrite (IH (before z ++ inorder l ++ [(k, v)]) (inorder r ++ after z) q);
    [done|done|done| |lia].
  - rewrite inorder_plug. cbn. by rewrite <-!app_assoc.
Qed.

End search.
