(* ===== verification/RbInsert.v ===== *)
(** Creation, lookup, insertion, replacement and destruction of whole trees. *)
From S2P Require Import Prelude Heap RbTree RbShape RbRefine RbSearch.

Section insert.
Context {K V : Type} (cmp : K -> K -> Z) `{!KeyOrder cmp}.
Implicit Types (s : tree K V) (z : list (frame K V)) (t : rb_tree K V)
  (m : @meta K V) (kvs : list (K * V)).

Definition mt t (ex : list (N * rb_node K V)) : meta :=
  Meta (t_nil t) (t_kvfreer t) (t_freed t) ex.

(** [rbrep t kvs]: the heap of [t] holds exactly the sentinel and the nodes of a
    red-black search tree with a black root, whose bindings in key order are
    [kvs]. *)
Definition rbrep t kvs : Prop :=
  exists np s, zst t (mt t []) np [] s /\ rb_root s /\ inorder s = kvs /\ ksorted cmp kvs.

(** What an operation keeps of the tree structure besides root and nodes. *)
Definition same_meta t t' : Prop :=
  t_nil t' = t_nil t /\ t_kvfreer t' = t_kvfreer t /\ t_freed t' = t_freed t.

Lemma rbrep_of_balanced t t' np kvs :
  balanced (mt t []) np kvs t' -> ksorted cmp kvs -> rbrep t' kvs /\ same_meta t t'.
Proof.
  intros (s & Hz & Hr & Hi) Hs. pose proof Hz as Hst. destruct Hst as (_ & H1 & H2 & H3 & _).
  cbn in *. split; [|done]. exists np, s. split_and!; try done.
  unfold mt. by rewrite H1, H2, H3.
Qed.

(** ** Creation *)

Lemma rbtree_new_spec a_tree a_nil kvfreer :
  a_tree ≠ NULL -> a_nil ≠ NULL ->
  exists t, rbtree_new a_tree a_nil kvfreer = Some t /\ rbrep t [] /\
    t_nil t = a_nil /\ t_kvfreer t = kvfreer /\ t_freed t = [].
Proof.
  intros Ht Hn. unfold rbtree_new, rbtree_create_node. rewrite !decide_False by done.
  eexists. split; [done|]. split; [|done]. exists NULL, E. split; [|split; [|split]].
  - repeat split; cbn; [apply NoDup_singleton|set_solver].
  - split; [done|]. exists 0. constructor.
  - done.
  - constructor.
Qed.

(** ** Lookup *)

Lemma around_nil key : around cmp key ([] : list (frame K V)).
Proof. by split. Qed.

Lemma rbtree_find_spec t np s key :
  zst t (mt t []) np [] s -> ksorted cmp (inorder s) ->
  wp (rbtree_find cmp t (Some key)) (fun p => exists z' s', plug z' s' = s /\
     p = ptr (t_nil t) s' /\ around cmp key z' /\
     (s' = E \/ exists c l a v r, s' = T c l a key v r)).
Proof.
  intros Hz Hs. unfold rbtree_find. rewrite (st_root _ _ _ _ _ Hz).
  apply (search_spec cmp _ t (mt t []) np [] s); [done|done|apply around_nil|].
  pose proof (height_le_length s). apply zst_fuel_sub in Hz. lia.
Qed.

(** The position of a key decides whether it is bound. *)
Lemma position_E key z : around cmp key z -> key ∉ (inorder (plug z E)).*1.
Proof. intros Ha. rewrite inorder_plug. cbn. by apply (around_fresh cmp). Qed.

Lemma position_T key z c l a v r : (key, v) ∈ inorder (plug z (T c l a key v r)).
Proof. rewrite inorder_plug. cbn. set_solver. Qed.

Lemma ptr_T_ne_nil t np z c l a k v r :
  zst t (mt t []) np z (T c l a k v r) -> a ≠ t_nil t.
Proof. intros Hst. change (a ≠ m_nil (mt t [])). unfold zst in Hst. wsimp. wne. Qed.

Lemma rbtree_find_cases t kvs key :
  rbrep t kvs ->
  (key ∉ kvs.*1 /\ rbtree_find cmp t (Some key) = Some (t_nil t)) \/
  (exists np z c l a v r, zst t (mt t []) np z (T c l a key v r) /\
     rb_root (plug z (T c l a key v r)) /\ inorder (plug z (T c l a key v r)) = kvs /\
     a ≠ t_nil t /\ rbtree_find cmp t (Some key) = Some a).
Proof.
  intros (np & s & Hz & Hr & <- & Hs).
  destruct (rbtree_find_spec _ _ _ key Hz Hs) as (p & Hp & z & s' & <- & -> & Ha & Hs').
  destruct Hs' as [->|(c & l & a & v & r & ->)].
  - left. split; [by apply position_E|done].
  - right. exists np, z, c, l, a, v, r.
    assert (zst t (mt t []) np z (T c l a key v r)) as Hz' by by eapply zst_refocus.
    split_and!; try done. by eapply ptr_T_ne_nil.
Qed.

Lemma rbtree_search_absent t kvs key :
  rbrep t kvs -> key ∉ kvs.*1 -> rbtree_search cmp t (Some key) = Some None.
Proof.
  intros Hr Hk. unfold rbtree_search.
  destruct (rbtree_find_cases _ _ key Hr) as [[_ ->]|(np & z & c & l & a & v & r & _ & _ & <- & _)].
  - cbn. by rewrite decide_True by done.
  - destruct Hk. eapply elem_of_keys, position_T.
Qed.

Lemma rbtree_search_present t kvs key v :
  rbrep t kvs -> (key, v) ∈ kvs -> rbtree_search cmp t (Some key) = Some (Some v).
Proof.
  intros Hr Hk. unfold rbtree_search. pose proof Hr as (_ & _ & _ & _ & _ & Hs).
  destruct (rbtree_find_cases _ _ key Hr)
    as [[Hn _]|(np & z & c & l & a & v' & r & Hz & _ & <- & Hnil & ->)].
  { destruct Hn. eauto with isulad. }
  cbn. rewrite decide_False by done.
  assert (v' = v) as ->.
  { eapply NoDup_keys_inj; [by eapply ksorted_NoDup|apply position_T|done]. }
  unfold zst in Hz. wsimp. edestruct (wp_rd _ _ _ _ _ Hz a) as (n & -> & HQ); [sel_tac|exact eq_refl|].
  cbn. by rewrite <-HQ.
Qed.

(** ** Size and iteration *)

Lemma rbtree_size_spec t kvs : rbrep t kvs -> rbtree_size t = Some (length kvs).
Proof.
  intros (np & s & Hz & _ & <- & _). unfold rbtree_size. rewrite (st_root _ _ _ _ _ Hz).
  destruct (number_of_nodes_spec (fuel_of t) t (mt t []) np [] s) as (n & Hn & ->); [done| |done].
  apply zst_fuel_sub in Hz. lia.
Qed.

Lemma rbtree_elements_spec t kvs : rbrep t kvs -> rbtree_elements t = Some kvs.
Proof.
  intros (np & s & Hz & _ & <- & _). unfold rbtree_elements, rbtree_iterator_first.
  rewrite (st_root _ _ _ _ _ Hz). cbn [plug].
  assert (length (inorder s) < fuel_of t) as Hf by (apply zst_fuel_sub in Hz; lia).
  destruct s as [|c l a k v r].
  - unfold rbtree_minimum. cbn [ptr]. rewrite decide_True by done.
    cbn [mbind option_bind].
    apply (iterate_spec _ t (mt t []) np E []); [done|by left|done|done].
  - cbn [ptr]. destruct (minimum_spec t (mt t []) np [] c l a k v r Hz)
      as (p & -> & zs & c' & k' & v' & r' & Hd & Hp). cbn [mbind option_bind].
    apply (iterate_spec _ t (mt t []) np (T c l a k v r) []); [done| |done|done].
    right. exists zs, c', E, k', v', r'. rewrite app_nil_r in Hp. split; [done|].
    rewrite <-(app_nil_r zs), before_all_L by done. done.
Qed.

(** ** Insertion *)

Lemma descend_spec fuel t m np z s key :
  zst t m np z s -> ksorted cmp (inorder s) -> around cmp key z ->
  key ∉ (inorder s).*1 -> length (inorder s) < fuel ->
  wp (insert_descend cmp fuel t key (cptr (m_nil m) z) (ptr (m_nil m) s))
     (fun p => exists z', plug z' E = plug z s /\ p = cptr (m_nil m) z' /\ around cmp key z').
Proof.
  revert z s. induction fuel as [|fuel IH]; intros z s Hz Hs Ha Hn Hf; [lia|].
  pose proof Hz as Hst. unfold zst in Hst. cbn [insert_descend].
  destruct s as [|c l a k v r]; wsteps.
  { by exists z. }
  eapply (wp_cmp_node cmp); [exact Hst|sel_tac|done|].
  cbn in Hs, Hf, Hn. rewrite length_app in Hf. cbn in Hf.
  rewrite fmap_app, elem_of_app in Hn. cbn in Hn. rewrite elem_of_cons in Hn.
  pose proof Hs as (Hl & Hr & Hlk & Hrk)%ksorted_mid; [|done].
  assert (cmp key k ≠ 0%Z) as Hne by (rewrite cmp_zero; naive_solver).
  destruct (Z.ltb_spec (cmp key k) 0) as [Hlt|Hge]; wstep; wstep.
  - apply (IH (F L c a k v r :: z) l); [by eapply zst_refocus|done| |naive_solver|lia].
    apply around_left; [done..|]. by constructor.
  - apply (IH (F R c a k v l :: z) r); [by eapply zst_refocus|done| |naive_solver|lia].
    apply around_right; [done|done| |].
    + apply cmp_flip. lia.
    + apply ksorted_mid; [done|]. split_and!; [done|constructor|done|constructor].
Qed.

(** The detached node of an allocation joins the cells of the state. *)
Lemma st_attach t rt nl kf fr ex c np cs :
  st t rt (Meta nl kf fr (c :: ex)) np cs -> st t rt (Meta nl kf fr ex) np (c :: cs).
Proof.
  intros (H1 & H2 & H3 & H4 & H5). split_and!; try done. cbn in *.
  eapply heap_is_perm; [|exact H5]. solve_Permutation.
Qed.

(** Linking the new node below the path [z], whose nearest key tells the side. *)
Lemma insert_link_spec t m np z a key v nc n1 n2 n3 :
  let link previous t :=
    t ← set_parent t a previous;
    t ← (if decide (previous = t_nil t) then Some (set_root t a)
         else
           c ← cmp_node cmp t key previous;
           if (c <? 0)%Z then set_left t previous a else set_right t previous a);
    t ← set_left t a (t_nil t);
    t ← set_right t a (t_nil t);
    t ← set_colour t a RED;
    rbtree_insert_fixup (fuel_of t) t a in
  around cmp key z -> rb_root (plug z E) ->
  st t (ptr (m_nil m) (plug z E)) m np
     ((a, RbNode (Some key) (Some v) nc n1 n2 n3) :: ccells (m_nil m) (m_nil m) z) ->
  wp (link (cptr (m_nil m) z) t) (balanced m np (before z ++ (key, v) :: after z)).
Proof.
  intros link Ha (n & Hn & Hc)%rb_unplug Hst. subst link. inversion Hn; subst.
  apply crb_weaken in Hc. cbn [cptr].
  assert (forall t', zst t' m np z (T RED E a key v E) ->
    wp (rbtree_insert_fixup (fuel_of t') t' a)
       (balanced m np (before z ++ (key, v) :: after z))) as Hfix.
  { intros t' Ht'. pose proof (zst_fuel_sub _ _ _ _ _ Ht') as Hf. cbn in Hf.
    eapply wp_mono; [eapply insert_fixup_spec; [exact Ht'|exact Hc|eauto using rb..|done|done|lia]|].
    intros t'' Hb. by rewrite inorder_plug in Hb. }
  destruct z as [|[[] cf af kf vf sf] z]; wsteps.
  - apply Hfix. wdone.
  - eapply (wp_cmp_node cmp); [exact Hst|sel_tac|done|].
    destruct Ha as [_ [Hlt _]%Forall_cons]. cbn in Hlt.
    rewrite (proj2 (Z.ltb_lt _ _)) by done. wsteps. apply Hfix. wdone.
  - eapply (wp_cmp_node cmp); [exact Hst|sel_tac|done|].
    destruct Ha as [[_ [_ [Hlt _]%Forall_cons]%Forall_app]%Forall_app _]. cbn in Hlt.
    rewrite (proj2 (Z.ltb_ge _ _)) by (apply cmp_flip in Hlt; lia).
    wsteps. apply Hfix. wdone.
Qed.

Lemma insert_node_spec t nl kf fr np s a key v nc n1 n2 n3 :
  let m ex := Meta nl kf fr ex in
  zst t (m [(a, RbNode (Some key) (Some v) nc n1 n2 n3)]) np [] s ->
  rb_root s -> ksorted cmp (inorder s) -> key ∉ (inorder s).*1 ->
  wp (insert_node cmp t a) (fun t' => exists z', plug z' E = s /\ around cmp key z' /\
     balanced (m []) np (before z' ++ (key, v) :: after z') t').
Proof.
  intros m Hz Hrb Hs Hn. subst m. unfold insert_node.
  pose proof (st_attach _ _ _ _ _ _ _ _ _ Hz) as Hst.
  apply wp_bind. eapply (wp_rd _ _ _ _ _ Hst); [sel_tac|].
  cbn [n_key mbind option_bind]. apply wp_bind.
  rewrite (st_nil _ _ _ _ _ Hst), (st_root _ _ _ _ _ Hst). cbn [m_nil plug].
  eapply wp_mono.
  { eapply (descend_spec (fuel_of t) t _ np [] s key Hz); [done|apply around_nil|done|].
    apply zst_fuel_sub in Hz. lia. }
  cbn beta. intros p (z' & Hp & -> & Ha). cbn [plug] in Hp. clear Hst. subst s.
  apply (zst_refocus _ _ _ [] _ z' E) in Hz; [|done].
  apply st_attach in Hz. cbn [cells ptr m_nil] in Hz. rewrite app_nil_r in Hz.
  eapply wp_mono; [by eapply (insert_link_spec t (Meta nl kf fr []))|].
  eauto.
Qed.

Lemma insert_sorted key v z :
  around cmp key z -> ksorted cmp (before z ++ after z) ->
  ksorted cmp (before z ++ (key, v) :: after z).
Proof.
  intros [Hb Ha] (H1 & H2 & _)%ksorted_app. by apply ksorted_mid.
Qed.

Lemma zst_alloc t np s a n :
  zst t (mt t []) np [] s -> a ≠ NULL -> a ∉ dom (t_heap t) ->
  zst (with_heap t (<[a := n]> (t_heap t))) (mt t [(a, n)]) np [] s.
Proof.
  unfold zst. intros (H1 & H2 & H3 & H4 & H5) Ha Hd. split_and!; try done. cbn in *.
  rewrite (heap_is_dom _ _ _ H5) in Hd.
  eapply heap_is_perm; [|by eapply heap_is_alloc]. solve_Permutation.
Qed.

Lemma rbtree_insert_present t kvs a key v :
  rbrep t kvs -> key ∈ kvs.*1 -> rbtree_insert cmp t a (Some key) (Some v) = Some (false, t).
Proof.
  intros Hr Hk. unfold rbtree_insert. cbn [bool_decide orb].
  destruct (rbtree_find_cases _ _ key Hr)
    as [[Hn _]|(np & z & c & l & p & v' & r & _ & _ & _ & Hnil & ->)]; [done|].
  cbn. by rewrite decide_True by done.
Qed.

Lemma rbtree_insert_absent t kvs a key v :
  rbrep t kvs -> key ∉ kvs.*1 -> a ≠ NULL -> a ∉ dom (t_heap t) ->
  exists t' l1 l2, rbtree_insert cmp t a (Some key) (Some v) = Some (true, t') /\
    kvs = l1 ++ l2 /\ rbrep t' (l1 ++ (key, v) :: l2) /\ same_meta t t'.
Proof.
  intros Hr Hk Ha Hd. unfold rbtree_insert. cbn [bool_decide orb].
  destruct (rbtree_find_cases _ _ key Hr)
    as [[_ ->]|(np & z & c & l & p & v' & r & _ & _ & <- & _)].
  2: { destruct Hk. eapply elem_of_keys, position_T. }
  cbn [mbind option_bind]. rewrite decide_False by naive_solver.
  unfold rbtree_create_node. rewrite (decide_False (P := a = NULL)) by done.
  rewrite decide_False by done. destruct Hr as (np & s & Hz & Hrb & <- & Hs).
  destruct (insert_node_spec (with_heap t (<[a := RbNode (Some key) (Some v) BLACK
      (t_nil t) (t_nil t) (t_nil t)]> (t_heap t))) (t_nil t) (t_kvfreer t) (t_freed t)
      np s a key v BLACK (t_nil t) (t_nil t) (t_nil t))
    as (t' & -> & z' & <- & Har & Hb); [by apply zst_alloc|done..|].
  exists t', (before z'), (after z'). rewrite inorder_plug in Hs. cbn in Hs.
  split; [done|]. split; [by rewrite inorder_plug|].
  eapply rbrep_of_balanced; [exact Hb|]. by apply insert_sorted.
Qed.

(** A failed allocation leaves the tree as it was. *)
Lemma rbtree_insert_oom t kvs key v :
  rbrep t kvs -> rbtree_insert cmp t NULL (Some key) (Some v) = Some (false, t).
Proof.
  intros Hr. unfold rbtree_insert. cbn [bool_decide orb].
  destruct (rbtree_find_cases _ _ key Hr)
    as [[_ ->]|(np & z & c & l & p & v' & r & _ & _ & _ & Hnil & ->)];
    cbn [mbind option_bind].
  - rewrite decide_False by naive_solver. done.
  - by rewrite decide_True by done.
Qed.

(** ** Replacement *)

Lemma rbtree_replace_absent t kvs a key v :
  rbrep t kvs -> key ∉ kvs.*1 ->
  rbtree_replace cmp t a (Some key) (Some v) = rbtree_insert cmp t a (Some key) (Some v).
Proof.
  intros Hr Hk. unfold rbtree_replace. cbn [bool_decide orb].
  destruct (rbtree_find_cases _ _ key Hr)
    as [[_ ->]|(np & z & c & l & p & v' & r & _ & _ & <- & _)].
  - cbn [mbind option_bind]. by rewrite decide_True by done.
  - destruct Hk. eapply elem_of_keys, position_T.
Qed.

(** The old value and the key argument go to [kvfreer]; the node keeps its key. *)
Lemma rbtree_replace_present t kvs a key v :
  rbrep t kvs -> key ∈ kvs.*1 ->
  exists t' l1 l2 old, rbtree_replace cmp t a (Some key) (Some v) = Some (true, t') /\
    kvs = l1 ++ (key, old) :: l2 /\ rbrep t' (l1 ++ (key, v) :: l2) /\
    t_nil t' = t_nil t /\ t_kvfreer t' = t_kvfreer t /\
    t_freed t' = t_freed t ++ (if t_kvfreer t then [(Some key, Some old)] else []).
Proof.
  intros Hr Hk. pose proof Hr as (_ & _ & _ & _ & _ & Hs). unfold rbtree_replace.
  cbn [bool_decide orb]. destruct (rbtree_find_cases _ _ key Hr)
    as [[Hn _]|(np & z & c & l & p & old & r & Hz & Hrb & <- & Hnil & ->)]; [done|].
  cbn [mbind option_bind]. rewrite decide_False by done.
  destruct (rb_unplug _ _ Hrb) as (n & Hn & Hc).
  set (fr := t_freed t ++ (if t_kvfreer t then [(Some key, Some old)] else [])).
  assert (st (call_kvfreer t (Some key) (Some old)) (ptr (t_nil t) (plug z (T c l p key old r)))
    (Meta (t_nil t) (t_kvfreer t) fr []) np
    (ccells (t_nil t) p z ++ cells (t_nil t) (cptr (t_nil t) z) (T c l p key old r))) as Hst.
  { destruct Hz as (H1 & H2 & H3 & H4 & H5). subst fr. unfold call_kvfreer, st.
    destruct (t_kvfreer t) eqn:Hkf; cbn; rewrite ?app_nil_r in *; by split_and!. }
  unfold zst in Hz. cbn [cells ptr] in Hz, Hst.
  edestruct (wp_rd _ _ _ _ _ Hz p) as (n' & -> & HQ); [sel_tac|exact eq_refl|].
  cbn [mbind option_bind]. rewrite <-HQ. cbn [n_value]. clear Hz.
  edestruct (wp_up _ _ _ _ _ Hst p (put_value (Some v))) as (t' & -> & Hst');
    [rep_tac|intros t' H; exact H|]. wsimp. cbn [mbind option_bind].
  exists t', (before z ++ inorder l), (inorder r ++ after z), old. split; [done|].
  rewrite !inorder_plug in *. cbn in *. rewrite <-!app_assoc in *. cbn in *.
  split; [done|]. pose proof Hst' as (Hrt & H2 & H3 & H4 & _). cbn in *.
  split; [|done]. exists np, (plug z (T c l p key v r)). split_and!.
  - eapply (zst_refocus _ _ _ z (T c l p key v r)); [|done].
    unfold zst, mt. rewrite H2, H3, H4. eapply st_perm; [|done].
    cbn. erewrite ptr_plug_eq; [exact Hst'|done].
  - eapply crb_plug; [exact Hc| |]; [inversion Hn; by constructor|].
    cbn. rewrite bool_decide_eq_true. done.
  - by rewrite inorder_plug; cbn; rewrite <-app_assoc.
  - rewrite !app_assoc in *. apply ksorted_mid in Hs; [|done]. by apply ksorted_mid.
Qed.

(** ** Destruction *)

Fixpoint postorder s : list (option K * option V) :=
  match s with
  | E => []
  | T _ l _ k v r => postorder l ++ postorder r ++ [(Some k, Some v)]
  end.

Lemma postorder_perm s : postorder s ≡ₚ prod_map Some Some <$> inorder s.
Proof.
  induction s as [|c l IHl a k v r IHr]; [done|]. cbn.
  rewrite fmap_app, IHl, IHr. cbn. solve_Permutation.
Qed.

Definition log_freed m (l : list (option K * option V)) : @meta K V :=
  Meta (m_nil m) (m_kvfreer m) (m_freed m ++ (if m_kvfreer m then l else [])) (m_extra m).

Lemma log_freed_app m l l' : log_freed (log_freed m l) l' = log_freed m (l ++ l').
Proof. unfold log_freed. cbn. destruct (m_kvfreer m); by rewrite <-?app_assoc, ?app_nil_r. Qed.
Lemma log_freed_nil m : log_freed m [] = m.
Proof. destruct m as [? [] ? ?]; unfold log_freed; cbn; by rewrite app_nil_r. Qed.

(** [free(node)] after handing its key and value to [kvfreer]. *)
Lemma wp_free_node t rt m np cs a n k v rest (Q : rb_tree K V -> Prop) :
  st t rt m np cs -> sel a n cs rest ->
  (forall t', st t' rt (log_freed m [(k, v)]) np rest -> Q t') ->
  wp (free_node (call_kvfreer t k v) a) Q.
Proof.
  intros Hst Hs HQ. pose proof Hst as (H1 & H2 & H3 & H4 & H5).
  set (t1 := call_kvfreer t k v).
  assert (t_heap t1 = t_heap t) as Hh by (subst t1; unfold call_kvfreer; by destruct (t_kvfreer t)).
  exists (with_heap t1 (delete a (t_heap t))). split.
  - unfold free_node, rd. rewrite Hh. erewrite heap_is_sel; [done|exact H5|].
    apply sel_next. by apply sel_app_l.
  - apply HQ. subst t1. unfold call_kvfreer, log_freed, st in *. rewrite H3.
    destruct (m_kvfreer m) eqn:Hkf; cbn; rewrite ?Hkf; split_and!; try done;
      try (by rewrite ?H4, ?app_nil_r); try congruence;
      (eapply heap_is_sel_free; [exact H5|]; apply sel_next; by apply sel_app_l).
Qed.

Lemma destroy_all_spec fuel t rt m np par s cs :
  st t rt m np (cells (m_nil m) par s ++ cs) -> length (inorder s) < fuel ->
  wp (rbtree_destroy_all fuel t (ptr (m_nil m) s))
     (fun t' => st t' rt (log_freed m (postorder s)) np cs).
Proof.
  revert t m par s cs. induction fuel as [|fuel IH]; intros t m par s cs Hst Hf; [lia|].
  cbn [rbtree_destroy_all]. destruct s as [|c l a k v r]; wsteps.
  { by rewrite log_freed_nil. }
  cbn in Hf. rewrite length_app in Hf. cbn in Hf. rewrite <-app_assoc in Hst.
  set (nd := (a, RbNode (Some k) (Some v) c (ptr (m_nil m) l) (ptr (m_nil m) r) par)) in *.
  assert (wp (if decide (ptr (m_nil m) l ≠ m_nil m)
              then rbtree_destroy_all fuel t (ptr (m_nil m) l) else Some t)
    (fun t' => st t' rt (log_freed m (postorder l)) np (nd :: cells (m_nil m) a r ++ cs))) as Hl.
  { destruct l as [|cl ll la lk lv lr].
    - wsteps. by rewrite log_freed_nil.
    - rewrite decide_True by (subst nd; wsimp; wne).
      apply (IH _ _ a); [|lia]. eapply st_perm; [exact Hst|]. solve_Permutation. }
  eapply wp_mono; [exact Hl|]. clear Hst Hl t. cbn beta. intros t Hst.
  subst nd. wstep. wstep.
  assert (wp (if decide (ptr (m_nil m) r ≠ m_nil m)
              then rbtree_destroy_all fuel t (ptr (m_nil m) r) else Some t)
    (fun t' => st t' rt (log_freed m (postorder l ++ postorder r)) np
       ((a, RbNode (Some k) (Some v) c (ptr (m_nil m) l) (ptr (m_nil m) r) par) :: cs))) as Hr.
  { rewrite <-log_freed_app. destruct r as [|cr rl ra rk rv rr].
    - wsteps. by rewrite log_freed_nil.
    - change (m_nil m) with (m_nil (log_freed m (postorder l))).
      rewrite decide_True by (wsimp; wne).
      apply (IH _ _ a); [|lia]. eapply st_perm; [exact Hst|]. solve_Permutation. }
  apply wp_bind. eapply wp_mono; [exact Hr|]. clear Hst Hr t. cbn beta. intros t Hst.
  wstep. wstep. eapply (wp_free_node t rt _ np _ a); [exact Hst|sel_tac|].
  intros t' Ht'. cbn [postorder]. rewrite log_freed_app, <-app_assoc in Ht'. exact Ht'.
Qed.

(** [rbtree_clear] frees every node once, and hands every binding to [kvfreer]
    once; only the sentinel remains. *)
Lemma rbtree_clear_spec t kvs :
  rbrep t kvs -> exists t' log, rbtree_clear t = Some t' /\
    (exists np, t_heap t' = {[t_nil t := nil_node np]}) /\
    t_root t' = t_root t /\ t_nil t' = t_nil t /\ t_kvfreer t' = t_kvfreer t /\
    log ≡ₚ prod_map Some Some <$> kvs /\
    t_freed t' = t_freed t ++ (if t_kvfreer t then log else []).
Proof.
  intros (np & s & Hz & _ & <- & _). unfold rbtree_clear.
  pose proof (st_root _ _ _ _ _ Hz) as Hroot. cbn [plug] in Hroot.
  destruct (destroy_all_spec (fuel_of t) t (t_root t) (mt t []) np (t_nil t) s [])
    as (t' & Hd & H1 & H2 & H3 & H4 & H5 & H6 & H7).
  - rewrite app_nil_r, Hroot. exact Hz.
  - apply zst_fuel_sub in Hz. lia.
  - exists t', (postorder s). split_and!; try done.
    + rewrite Hroot. exact Hd.
    + exists np. rewrite H7. apply insert_empty.
    + apply postorder_perm.
Qed.

Lemma rbtree_free_spec t kvs :
  rbrep t kvs -> exists log, rbtree_free t = Some (∅, t_freed t ++ log) /\
    log ≡ₚ (if t_kvfreer t then prod_map Some Some <$> kvs else []).
Proof.
  intros Hr. destruct (rbtree_clear_spec _ _ Hr)
    as (t' & log & Hc & (np & Hh) & _ & Hn & _ & Hl & Hf).
  exists (if t_kvfreer t then log else []). split; [|by destruct (t_kvfreer t)].
  unfold rbtree_free. rewrite Hc. cbn [mbind option_bind]. unfold free_node, rd.
  rewrite Hh, Hn, lookup_singleton_eq. cbn [mbind option_bind t_heap t_freed with_heap].
  by rewrite Hf, delete_singleton_eq.
Qed.

End insert.
