(* ===== verification/RbErase.v ===== *)
(** Removal: the fix-up loop with its sentinel, transplantation and erasure. *)
From S2P Require Import Prelude Heap RbTree RbShape RbRefine RbSearch RbInsert.

Section rules.
Context {K V : Type}.
Implicit Types (s : tree K V) (z : list (frame K V)) (t : rb_tree K V) (m : @meta K V).

(** The parent of the focus: for the sentinel it is whatever was stored last. *)
Lemma wp_get_parent_ptr t rt m np cs par u (Q : N -> Prop) :
  st t rt m np cs -> sub (m_nil m) par u cs -> (u = E -> np = par) -> Q par ->
  wp (get_parent t (ptr (m_nil m) u)) Q.
Proof.
  intros Hst Hs Hnp HQ. destruct u as [|c l a k v r]; cbn in *.
  - rewrite <-Hnp in HQ by done. eapply wp_get_parent; [done|apply sel_here|done].
  - destruct (sub_sel _ _ _ _ _ _ _ _ _ Hs) as (rest & Hsel).
    eapply wp_get_parent; [done|by apply sel_next|done].
Qed.

Lemma wp_nil_or_black t rt m np cs par u (Q : bool -> Prop) :
  st t rt m np cs -> sub (m_nil m) par u cs -> Q (bool_decide (col u = BLACK)) ->
  wp (nil_or_black t (ptr (m_nil m) u)) Q.
Proof.
  intros Hst Hs HQ. unfold nil_or_black. rewrite (st_nil _ _ _ _ _ Hst).
  destruct (decide _) as [He|He].
  - destruct u as [|c l a k v r]; [by apply wp_ret|].
    destruct (sub_sel _ _ _ _ _ _ _ _ _ Hs) as (rest & Hsel). cbn in He. subst a.
    destruct (st_ne _ _ _ _ _ Hst (m_nil m) (m_nil m) _ _ _ _ (sel_here _ _ _) Hsel). done.
  - apply wp_bind. eapply wp_get_colour_ptr; [done..|]. by apply wp_ret.
Qed.

(** Painting the sentinel black changes nothing. *)
Lemma wp_blacken_nil t rt m np cs (Q : rb_tree K V -> Prop) :
  st t rt m np cs -> (forall t', st t' rt m np cs -> Q t') ->
  wp (set_colour t (m_nil m) BLACK) Q.
Proof.
  intros Hst HQ. destruct Hst as (Hrt & Hnl & Hkf & Hfr & Hh).
  exists (with_heap t (<[m_nil m := nil_node np]> (t_heap t))). split.
  { unfold set_colour, up, hup. by rewrite (heap_is_sel _ _ _ _ _ Hh (sel_here _ _ _)). }
  apply HQ. split_and!; try done. by eapply heap_is_update.
Qed.

(** Below the root, the focus is not the root. *)
Lemma ccells_root nl sp z s :
  z ≠ [] -> exists n rest, sel (ptr nl (plug z s)) n (ccells nl sp z) rest.
Proof.
  revert sp s. induction z as [|[d c a k v sib] z IH]; intros sp s Hz; [done|].
  cbn [plug ccells]. destruct z as [|f z].
  - destruct d; cbn; eexists _, _; apply sel_here.
  - destruct (IH a (fill (F d c a k v sib) s)) as (n & rest & Hsel); [done|].
    destruct d; eexists _, _; apply sel_next, sel_app_r; exact Hsel.
Qed.

Lemma zst_not_root t m np z s :
  zst t m np z s -> z ≠ [] -> ptr (m_nil m) s ≠ ptr (m_nil m) (plug z s).
Proof.
  intros Hst Hz. destruct (ccells_root (m_nil m) (ptr (m_nil m) s) z s Hz) as (n & rest & Hsel).
  apply not_eq_sym. destruct s as [|c l a k v r].
  - apply not_eq_sym. eapply (st_ne _ _ _ _ _ Hst); [apply sel_here|]. by apply sel_app_l.
  - eapply (st_ne _ _ _ _ _ Hst); [by apply sel_next, sel_app_l|].
    cbn. apply sel_next, sel_app_r. sel_tac.
Qed.

End rules.

Ltac wstep1 ::=
  lazymatch goal with
  | |- wp (_ ≫= _) _ => apply wp_bind
  | |- wp (mbind _ _) _ => apply wp_bind
  | H : st ?t _ _ _ _ |- wp (Some (set_root ?t ?p)) _ =>
      apply (fun H => st_set_root _ _ _ _ _ H p) in H; apply wp_ret; revert H;
      generalize (set_root t p); clear t; intros t H
  | |- wp (Some _) _ => apply wp_ret
  | H : st ?t _ _ _ _ |- wp (get_left ?t _) _ =>
      eapply (wp_get_left _ _ _ _ _ H); [sel_tac | cbn beta]
  | H : st ?t _ _ _ _ |- wp (get_right ?t _) _ =>
      eapply (wp_get_right _ _ _ _ _ H); [sel_tac | cbn beta]
  | H : st ?t _ _ _ _ |- wp (get_parent ?t (ptr _ _)) _ =>
      eapply (wp_get_parent_ptr _ _ _ _ _ _ _ _ H); [sub_tac | eassumption | cbn beta]
  | H : st ?t _ _ _ _ |- wp (get_parent ?t _) _ =>
      eapply (wp_get_parent _ _ _ _ _ H); [sel_tac | cbn beta]
  | H : st ?t _ _ _ _ |- wp (get_colour ?t (ptr _ _)) _ =>
      eapply (wp_get_colour_ptr _ _ _ _ _ _ _ _ H); [sub_tac | cbn beta]
  | H : st ?t _ _ _ _ |- wp (get_colour ?t _) _ =>
      eapply (wp_get_colour _ _ _ _ _ H); [sel_tac | cbn beta]
  | H : st ?t _ _ _ _ |- wp (nil_or_black ?t (ptr _ _)) _ =>
      eapply (wp_nil_or_black _ _ _ _ _ _ _ _ H); [sub_tac | cbn beta]
  | H : st ?t _ _ _ _ |- wp (rd ?t _) _ =>
      eapply (wp_rd _ _ _ _ _ H); [sel_tac | cbn beta]
  | H : st ?t _ _ _ _ |- wp (set_left ?t _ _) _ =>
      eapply (wp_up _ _ _ _ _ H); [rep_tac | clear t H; intros t H]
  | H : st ?t _ _ _ _ |- wp (set_right ?t _ _) _ =>
      eapply (wp_up _ _ _ _ _ H); [rep_tac | clear t H; intros t H]
  | H : st ?t _ ?m _ _ |- wp (set_parent ?t (m_nil ?m) _) _ =>
      eapply (wp_up_nil_parent _ _ _ _ _ H); clear t H; intros t H
  | H : st ?t _ _ _ _ |- wp (set_parent ?t _ _) _ =>
      eapply (wp_up _ _ _ _ _ H); [rep_tac | clear t H; intros t H]
  | H : st ?t _ _ _ _ |- wp (set_colour ?t _ _) _ =>
      eapply (wp_up _ _ _ _ _ H); [rep_tac | clear t H; intros t H]
  end.

Section erase.
Context {K V : Type}.
Implicit Types (s : tree K V) (z : list (frame K V)) (t : rb_tree K V)
  (m : @meta K V) (kvs : list (K * V)).

(** The state of the fix-up loop: the focus lacks one black node ([crb] wants
    black height [S n]), unless it is red, in which case painting it repairs the
    tree. *)
Definition erase_pre (n : nat) (np : N) m z s : Prop :=
  crb true (S n) z /\ (s = E -> np = cptr (m_nil m) z) /\
  (col s = BLACK /\ rb n s \/ col s = RED /\ rb (S n) (blacken s)).

(** After an iteration: nearer to the root, or about to exit. *)
Definition erase_post np m (len : nat) kvs (r : rb_tree K V * N) : Prop :=
  exists n' z' s', zst r.1 m np z' s' /\ r.2 = ptr (m_nil m) s' /\ erase_pre n' np m z' s' /\
    inorder (plug z' s') = kvs /\ (col s' = RED \/ z' = [] \/ length z' < len).

(** The loop is left through the root: the tree is balanced. *)
Lemma erase_post_done t np m len kvs z s n b :
  zst t m np z s -> s ≠ E -> rb n s -> crb b n z -> (b = true -> col s = BLACK) ->
  inorder (plug z s) = kvs -> erase_post np m len kvs (t, t_root t).
Proof.
  intros Hz Hne Hn Hc Hb Hk. destruct (crb_plug _ _ _ _ Hc Hn Hb) as [Hblk [n' Hn']].
  exists n', [], (plug z s). split_and!; try done; [by eapply zst_refocus|by apply Hz| |by auto].
  split_and!; [constructor| |by left]. intros He.
  destruct s as [|c l a k v r]; [done|].
  destruct (plug_T z c l a k v r) as (?&?&?&?&?&?&Hp). congruence.
Qed.

Ltac inv_rb := repeat match goal with H : rb _ E |- _ => inversion H; clear H; subst
  | H : rb (S _) (T _ _ _ _ _ _) |- _ => inversion H; clear H; subst end.

(** The sibling turns red: the whole subtree now lacks a black node. *)
Lemma erase_post_up t np m len d n z c p kp vp wl w kw vw wr s kvs :
  let f c' := F d c p kp vp (T c' wl w kw vw wr) in
  zst t m np z (fill (f RED) s) ->
  rb n s -> rb n wl -> rb n wr -> col wl = BLACK -> col wr = BLACK ->
  crb true (S n) (f BLACK :: z) -> (c = BLACK -> length z < len) ->
  inorder (plug (f BLACK :: z) s) = kvs ->
  erase_post np m len kvs (t, p).
Proof.
  intros f Hz Hs Hwl Hwr Hcl Hcr Hc Hlen Hk. subst f.
  assert (inorder (plug z (fill (F d c p kp vp (T RED wl w kw vw wr)) s)) = kvs) as Hk'.
  { rewrite <-Hk. cbn [plug]. apply inorder_plug_eq. by destruct d. }
  assert (rb n (T RED wl w kw vw wr)) by eauto using rb.
  inversion Hc as [|n' d' a' k' v' sib z' Hsib Hcsib Hz'|b b' n' d' a' k' v' sib z' Hsib Hz'];
    subst c.
  - exists n, z, (fill (F d RED p kp vp (T RED wl w kw vw wr)) s).
    split_and!; try done; [by destruct d| |by destruct d; left].
    split_and!; [by eapply crb_weaken|by destruct d|right].
    destruct d; cbn; eauto using rb.
  - exists (S n), z, (fill (F d BLACK p kp vp (T RED wl w kw vw wr)) s).
    split_and!; try done; [by destruct d| |right; right; auto].
    split_and!; [by eapply crb_weaken|by destruct d|left].
    destruct d; cbn; eauto using rb.
Qed.

(** The rotation at the parent: the missing black node is back. *)
Lemma erase_post_rot t np m len kvs n z d c p kp vp (sib : tree K V) l a k v r :
  zst t m np z (T c l a k v r) ->
  rb (S n) l -> rb (S n) r -> col l = BLACK -> col r = BLACK ->
  crb true (S n) (F d c p kp vp sib :: z) -> inorder (plug z (T c l a k v r)) = kvs ->
  erase_post np m len kvs (t, t_root t).
Proof.
  intros Hz Hl Hr Hcl Hcr Hc Hk.
  inversion Hc as [|n' d' a' k' v' sib' z' Hsib Hcsib Hz'|b b' n' d' a' k' v' sib' z' Hsib Hz'];
    subst; eapply erase_post_done; eauto using rb; done.
Qed.

Lemma erase_left_tail_spec t m np len n z c p kp vp wl w kw vw wr s kvs :
  zst t m np (F L c p kp vp (T BLACK wl w kw vw wr) :: z) s ->
  (s = E -> np = p) -> rb n s -> col s = BLACK -> rb n wl -> rb n wr ->
  crb true (S n) (F L c p kp vp (T BLACK wl w kw vw wr) :: z) ->
  (c = BLACK -> length z < len) ->
  inorder (plug (F L c p kp vp (T BLACK wl w kw vw wr) :: z) s) = kvs ->
  wp (erase_left_tail t (ptr (m_nil m) s) w) (erase_post np m len kvs).
Proof.
  intros Hz Hnp Hs Hcs Hwl Hwr Hc Hlen <-. unfold erase_left_tail, zst in *.
  wsteps. destruct (col wr) eqn:Hcwr.
  - destruct wr as [|cw x1 x kx vx x2]; cbn in Hcwr; [done|subst].
    inversion Hwr; subst.
    rewrite (bool_decide_eq_false_2 (RED = BLACK)), andb_false_r by done. wsteps.
    wfocus z (T BLACK s p kp vp (T c wl w kw vw (T BLACK x1 x kx vx x2))).
    wcall left_rot_spec. apply wp_ret.
    eapply erase_post_rot; [zexact|eauto using rb..|]. order_tac.
  - rewrite (bool_decide_eq_true_2 (BLACK = BLACK)), andb_true_r by done.
    destruct (col wl) eqn:Hcwl.
    + destruct wl as [|cw x1 x kx vx x2]; cbn in Hcwl; [done|subst].
      inversion Hwl; subst.
      rewrite (bool_decide_eq_false_2 (RED = BLACK)) by done. wsteps.
      wfocus (F R c p kp vp s :: z) (T RED (T BLACK x1 x kx vx x2) w kw vw wr).
      wcall right_rot_spec. unfold zst in *. wsteps.
      wfocus z (T BLACK s p kp vp (T c x1 x kx vx (T BLACK x2 w kw vw wr))).
      wcall left_rot_spec. apply wp_ret.
      eapply erase_post_rot; [zexact|eauto using rb..|]. order_tac.
    + rewrite (bool_decide_eq_true_2 (BLACK = BLACK)) by done. wsteps.
      eapply (erase_post_up _ _ _ _ L); [wdone|done..].
Qed.
Lemma erase_right_tail_spec t m np len n z c p kp vp wl w kw vw wr s kvs :
  zst t m np (F R c p kp vp (T BLACK wl w kw vw wr) :: z) s ->
  (s = E -> np = p) -> rb n s -> col s = BLACK -> rb n wl -> rb n wr ->
  crb true (S n) (F R c p kp vp (T BLACK wl w kw vw wr) :: z) ->
  (c = BLACK -> length z < len) ->
  inorder (plug (F R c p kp vp (T BLACK wl w kw vw wr) :: z) s) = kvs ->
  wp (erase_right_tail t (ptr (m_nil m) s) w) (erase_post np m len kvs).
Proof.
  intros Hz Hnp Hs Hcs Hwl Hwr Hc Hlen <-. unfold erase_right_tail, zst in *.
  wsteps. destruct (col wl) eqn:Hcwl.
  - destruct wl as [|cw x1 x kx vx x2]; cbn in Hcwl; [done|subst].
    inversion Hwl; subst.
    rewrite (bool_decide_eq_false_2 (RED = BLACK)), andb_false_r by done. wsteps.
    wfocus z (T BLACK (T c (T BLACK x1 x kx vx x2) w kw vw wr) p kp vp s).
    wcall right_rot_spec. apply wp_ret.
    eapply erase_post_rot; [zexact|eauto using rb..|]. order_tac.
  - rewrite (bool_decide_eq_true_2 (BLACK = BLACK)), andb_true_r by done.
    destruct (col wr) eqn:Hcwr.
    + destruct wr as [|cw x1 x kx vx x2]; cbn in Hcwr; [done|subst].
      inversion Hwr; subst.
      rewrite (bool_decide_eq_false_2 (RED = BLACK)) by done. wsteps.
      wfocus (F L c p kp vp s :: z) (T RED wl w kw vw (T BLACK x1 x kx vx x2)).
      wcall left_rot_spec. unfold zst in *. wsteps.
      wfocus z (T BLACK (T c (T BLACK wl w kw vw x1) x kx vx x2) p kp vp s).
      wcall right_rot_spec. apply wp_ret.
      eapply erase_post_rot; [zexact|eauto using rb..|]. order_tac.
    + rewrite (bool_decide_eq_true_2 (BLACK = BLACK)) by done. wsteps.
      eapply (erase_post_up _ _ _ _ R); [wdone|done..].
Qed.

(** One iteration of the loop below the root, for a left and a right child. *)
Lemma do_left_spec t m np n z c p kp vp sib s kvs :
  zst t m np (F L c p kp vp sib :: z) s ->
  (s = E -> np = p) -> rb n s -> col s = BLACK ->
  crb true (S n) (F L c p kp vp sib :: z) ->
  inorder (plug (F L c p kp vp sib :: z) s) = kvs ->
  wp (do_with_left_node_not_null t (ptr (m_nil m) s)) (erase_post np m (S (length z)) kvs).
Proof.
  intros Hz Hnp Hs Hcs Hc Hk. unfold do_with_left_node_not_null.
  destruct sib as [|[] wl w kw vw wr]; [inversion Hc; subst; by inv_rb| |].
  - inversion Hc as [|? ? ? ? ? ? ? ? Hcsib|? b' ? ? ? ? ? ? ? Hsib Hz']; subst; [done|].
    inversion Hsib as [|? ? ? ? ? ? Hwl Hwr Hcl Hcr|]; subst.
    destruct wl as [|[] x1 x kx vx x2]; cbn in Hcl; [by inv_rb|done|].
    inversion Hwl; subst. unfold zst in Hz. wsteps.
    wfocus z (T RED s p kp vp (T BLACK (T BLACK x1 x kx vx x2) w kw vw wr)).
    wcall left_rot_spec. unfold zst in *. wsteps.
    eapply (erase_left_tail_spec _ _ _ _ n (F L BLACK w kw vw wr :: z));
      [wdone|try solve [eauto using rb, crb | discriminate]..|order_tac].
  - assert (rb n wl /\ rb n wr) as [Hwl Hwr] by (inversion Hc; subst; by inv_rb).
    pose proof Hz as Hst. unfold zst in Hst. wsteps.
    eapply erase_left_tail_spec; eauto.
Qed.

Lemma do_right_spec t m np n z c p kp vp sib s kvs :
  zst t m np (F R c p kp vp sib :: z) s ->
  (s = E -> np = p) -> rb n s -> col s = BLACK ->
  crb true (S n) (F R c p kp vp sib :: z) ->
  inorder (plug (F R c p kp vp sib :: z) s) = kvs ->
  wp (do_with_left_node_null t (ptr (m_nil m) s)) (erase_post np m (S (length z)) kvs).
Proof.
  intros Hz Hnp Hs Hcs Hc Hk. unfold do_with_left_node_null.
  destruct sib as [|[] wl w kw vw wr]; [inversion Hc; subst; by inv_rb| |].
  - inversion Hc as [|? ? ? ? ? ? ? ? Hcsib|? b' ? ? ? ? ? ? ? Hsib Hz']; subst; [done|].
    inversion Hsib as [|? ? ? ? ? ? Hwl Hwr Hcl Hcr|]; subst.
    destruct wr as [|[] x1 x kx vx x2]; cbn in Hcr; [by inv_rb|done|].
    inversion Hwr; subst. unfold zst in Hz. wsteps.
    wfocus z (T RED (T BLACK wl w kw vw (T BLACK x1 x kx vx x2)) p kp vp s).
    wcall right_rot_spec. unfold zst in *. wsteps.
    eapply (erase_right_tail_spec _ _ _ _ n (F R BLACK w kw vw wl :: z));
      [wdone|try solve [eauto using rb, crb | discriminate]..|order_tac].
  - assert (rb n wl /\ rb n wr) as [Hwl Hwr] by (inversion Hc; subst; by inv_rb).
    pose proof Hz as Hst. unfold zst in Hst. wsteps.
    eapply erase_right_tail_spec; eauto.
Qed.

(** The statement after the loop: paint the focus. *)
Lemma blacken_focus_spec t m np z s :
  zst t m np z s ->
  wp (if decide (ptr (m_nil m) s ≠ NULL) then set_colour t (ptr (m_nil m) s) BLACK else Some t)
     (fun t' => zst t' m np z (blacken s)).
Proof.
  intros Hst. unfold zst in Hst. destruct s as [|c l a k v r]; wsteps.
  - eapply wp_blacken_nil; [exact Hst|]. auto.
  - wdone.
Qed.

(** The loop restores the red-black invariant and keeps the keys in order. *)
Lemma erase_fixup_spec fuel t m np n z s :
  zst t m np z s -> erase_pre n np m z s -> (col s = RED /\ 0 < fuel \/ length z < fuel) ->
  wp (rbtree_erase_fixup fuel t (ptr (m_nil m) s))
     (balanced m np (inorder (plug z s))).
Proof.
  revert t n z s. induction fuel as [|fuel IH]; intros t n z s Hz (Hc & Hnp & Hs) Hf; [lia|].
  pose proof Hz as Hst. unfold zst in Hst. cbn [rbtree_erase_fixup].
  apply wp_bind. eapply (wp_nil_or_black _ _ _ _ _ _ _ _ Hst); [sub_tac|].
  rewrite (st_root _ _ _ _ _ Hst). destruct (decide (col s = RED \/ z = [])) as [Hx|Hx].
  - assert (rb_root (plug z (blacken s))) as Hrb.
    { destruct Hs as [[Hb Hs]|[Hr Hs]].
      - destruct Hx as [Hx| ->]; [congruence|]. rewrite blacken_black by done. by split; eauto.
      - eapply crb_plug; [exact Hc|exact Hs|]. by destruct s. }
    assert (bool_decide (col s = BLACK) &&
      bool_decide (ptr (m_nil m) s ≠ ptr (m_nil m) (plug z s)) = false) as ->.
    { destruct Hx as [-> | ->]; [done|]. cbn.
      by rewrite (bool_decide_eq_false_2 (_ ≠ _)), andb_false_r by naive_solver. }
    eapply wp_mono; [by apply blacken_focus_spec|]. cbn beta. intros t' Ht'.
    exists (plug z (blacken s)). split_and!; [by eapply zst_refocus|done|].
    by rewrite !inorder_plug, inorder_blacken.
  - apply Decidable.not_or in Hx as [Hr Hnz]. destruct Hs as [[Hb Hs]|[? _]]; [|done].
    rewrite !bool_decide_eq_true_2 by (done || by eapply zst_not_root). cbn [andb].
    destruct z as [|[d c p kp vp sib] z]; [done|].
    assert (forall res, erase_post np m (S (length z))
       (inorder (plug (F d c p kp vp sib :: z) s)) res ->
       wp (let '(t, node) := res in rbtree_erase_fixup fuel t node)
         (balanced m np (inorder (plug (F d c p kp vp sib :: z) s)))) as Hnext.
    { intros [t' nd] (n' & z' & s' & Hz' & Hp & Hpre & Hk & Hlen).
      cbn [fst snd] in Hz', Hp. subst nd. rewrite <-Hk. cbn in Hf.
      destruct Hf as [[? _]|Hf]; [done|]. eapply IH; [done..|].
      destruct Hlen as [?|[->|?]]; [left|right; cbn|right]; try done; try lia.
      split; [done|lia]. }
    destruct d.
    + wsteps. eapply wp_mono; [by eapply do_left_spec|done].
    + destruct sib as [|w wl wa wk wv wr]; [inversion Hc; subst; by inv_rb|].
      wsteps. eapply wp_mono; [by eapply do_right_spec|done].
Qed.

(** ** Unlinking a node *)

(** [rbtree_transplant t a u] hangs the subtree [u] where the node [a] was. *)
Lemma transplant_spec t m np z c l r a k v par u rest :
  let nd := RbNode (Some k) (Some v) c l r (cptr (m_nil m) z) in
  st t (ptr (m_nil m) (plug z (T c E a k v E))) m np
     (ccells (m_nil m) a z ++ (a, nd) :: cells (m_nil m) par u ++ rest) ->
  wp (rbtree_transplant t a (ptr (m_nil m) u)) (fun t' => exists np',
     (u = E -> np' = cptr (m_nil m) z) /\ (u ≠ E -> np' = np) /\
     st t' (ptr (m_nil m) (plug z u)) m np'
        (ccells (m_nil m) (ptr (m_nil m) u) z ++ (a, nd) ::
           cells (m_nil m) (cptr (m_nil m) z) u ++ rest)).
Proof.
  intros nd Hst. subst nd. unfold rbtree_transplant.
  destruct u as [|cu ul ua uk uv ur], z as [|[[] cf af kf vf sf] z]; wsteps;
    (eexists; split; [|split; [|eapply st_perm;
       [first [exact Hst|erewrite ptr_plug by done; exact Hst]|solve_Permutation]]]); done.
Qed.
Definition add_extra m (ex : N * rb_node K V) : @meta K V :=
  Meta (m_nil m) (m_kvfreer m) (m_freed m) (ex :: m_extra m).

(** A cell that is no longer linked leaves the cells of the tree. *)
Lemma st_detach t rt m np ex cs cs' :
  st t rt m np cs -> cs ≡ₚ ex :: cs' -> st t rt (add_extra m ex) np cs'.
Proof.
  intros (H1 & H2 & H3 & H4 & H5) Hp. split_and!; try done. cbn in *.
  eapply heap_is_perm; [|exact H5]. rewrite Hp. solve_Permutation.
Qed.

(** The path of the successor after it has taken the place of the node. *)
Lemma crb_relabel b n zs z d c a k v a' k' v' (sib : tree K V) :
  crb b n (zs ++ F d c a k v sib :: z) -> crb b n (zs ++ F d c a' k' v' sib :: z).
Proof.
  revert b n. induction zs as [|f zs IH]; intros b n H; cbn in *; inversion H; subst;
    econstructor; eauto.
Qed.

Lemma rb_blacken n s : rb n s -> col s = RED -> rb (S n) (blacken s).
Proof. destruct 1; cbn; [done|constructor; auto|done]. Qed.

(** What the removal of a node with an empty child leaves to the fix-up: [u] is
    its other child, and [nc] its colour. *)
Definition unlinked m np (nc : rbtree_colour) z s : Prop :=
  (s = E -> np = cptr (m_nil m) z) /\
  (nc = RED -> rb_root (plug z s)) /\ (nc = BLACK -> exists n, erase_pre n np m z s).

Lemma unlinked_intro m np z z' nc l a k v r s :
  rb_root (plug z (T nc l a k v r)) -> (l = E /\ s = r \/ r = E /\ s = l) ->
  (forall b n, crb b n z -> crb b n z') -> (s = E -> np = cptr (m_nil m) z') ->
  unlinked m np nc z' s.
Proof.
  intros (n & Hn & Hc)%rb_unplug Hs Hz Hnp. apply Hz in Hc.
  assert (exists n', rb n' s /\ n = match nc with RED => n' | BLACK => S n' end /\
    (nc = RED -> col s = BLACK)) as (n' & Hs' & -> & Hcs).
  { inversion Hn; subst; destruct Hs as [[-> ->]|[-> ->]]; eexists; split_and!; done. }
  split_and!; [done|intros -> ..].
  - eapply crb_plug; [exact Hc|done|auto].
  - exists n'. split_and!; [by eapply crb_weaken|done|].
    destruct (col s) eqn:?; [right|left]; auto using rb_blacken.
Qed.

(** The successor [y], already detached with its new right subtree, takes the
    place of the node [a]. *)
Lemma splice_spec {A} t m np z c q l a k v par cy y ky vy r
    (kont : rb_tree K V -> option A) (Q : A -> Prop) :
  let ex := (a, RbNode (Some k) (Some v) c (ptr (m_nil m) l) q (cptr (m_nil m) z)) in
  l ≠ E ->
  st t (ptr (m_nil m) (plug z (T c E a k v E))) m np
     (ccells (m_nil m) a z ++ ex ::
        cells (m_nil m) par (T cy E y ky vy r) ++ cells (m_nil m) a l) ->
  (forall t', zst t' (add_extra m ex) np z (T c l y ky vy r) -> wp (kont t') Q) ->
  wp (t ← rbtree_transplant t a y;
      nl ← get_left t a;
      t ← set_left t y nl;
      t ← set_parent t nl y;
      nc ← get_colour t a;
      t ← set_colour t y nc;
      kont t) Q.
Proof.
  intros ex Hl Hst HQ. subst ex. destruct l as [|cl ll la lk lv lr]; [done|]. apply wp_bind.
  eapply wp_mono; [apply (transplant_spec _ _ _ _ _ _ _ _ _ _ _ _ _ Hst)|].
  cbn beta. clear Hst t. intros t (np' & _ & Hnp & Hst). rewrite Hnp in Hst by done.
  wsteps. apply HQ. unfold zst. eapply st_detach; [|].
  - erewrite (ptr_plug_eq _ z); [exact Hst|done].
  - cbn. solve_Permutation.
Qed.

Lemma plug_app z1 z2 s : plug (z1 ++ z2) s = plug z2 (plug z1 s).
Proof. revert s. induction z1 as [|f z1 IH]; intros s; [done|]. apply IH. Qed.

Lemma ccells_sel nl sp zs d c a k v sib z :
  exists n rest, sel a n (ccells nl sp (zs ++ F d c a k v sib :: z)) rest.
Proof.
  revert sp. induction zs as [|[d' c' a' k' v' sib'] zs IH]; intros sp; cbn [app ccells].
  - destruct d; eexists _, _; apply sel_here.
  - destruct (IH a') as (n & rest & Hsel). eexists _, _. by apply sel_next, sel_app_r.
Qed.

Lemma plug_cons_T f zs s : exists c l a k v r, plug (f :: zs) s = T c l a k v r.
Proof. cbn. destruct f as [[] c a k v sib]; apply plug_T. Qed.

(** The successor of a node with two children leaves its place, with what is
    left of the right subtree as its own right subtree. *)
Lemma detach_min_spec t m np z c l a k v zs cy y ky vy x :
  zst t m np (zs ++ F R c a k v l :: z) (T cy E y ky vy x) ->
  wp (if decide (cptr (m_nil m) (zs ++ F R c a k v l :: z) = a)
      then set_parent t (ptr (m_nil m) x) y
      else
        t ← rbtree_transplant t y (ptr (m_nil m) x);
        nr ← get_right t a;
        t ← set_right t y nr;
        set_parent t nr y)
     (fun t' => exists np' q par,
        (x = E -> np' = cptr (m_nil m) (zs ++ F R c y ky vy l :: z)) /\
        st t' (ptr (m_nil m) (plug z (T c E a k v E))) m np'
          (ccells (m_nil m) a z ++
             (a, RbNode (Some k) (Some v) c (ptr (m_nil m) l) q (cptr (m_nil m) z)) ::
             cells (m_nil m) par (T cy E y ky vy (plug zs x)) ++ cells (m_nil m) a l)).
Proof.
  intros Hst. destruct zs as [|f zs].
  - unfold zst in Hst. cbn [app plug] in *. unfold fill in Hst. wsimp.
    destruct x as [|cx xl xa xk xv xr]; wsteps;
      (eexists _, y, a; split; [|eapply st_perm; [erewrite (ptr_plug_eq _ z); [exact Hst|done]|
         wsimp; solve_Permutation]]); done.
  - destruct (plug_cons_T f zs x) as (cr & rl & ra & rk & rv & rr & Hr).
    assert (cptr (m_nil m) ((f :: zs) ++ F R c a k v l :: z) ≠ a) as Hne.
    { destruct f as [d cf af kf vf sf].
      destruct (ccells_sel (m_nil m) af zs R c a k v l z) as (n & rest & Hsel).
      unfold zst in Hst. destruct d; cbn [app cptr f_a ccells] in *;
        (eapply (st_ne _ _ _ _ _ Hst); [apply sel_next, sel_here|]);
        by apply sel_next, sel_app_l, sel_app_r. }
    rewrite decide_False by done. apply wp_bind.
    assert (st t (ptr (m_nil m) (plug ((f :: zs) ++ F R c a k v l :: z) (T cy E y ky vy E))) m np
      (ccells (m_nil m) y ((f :: zs) ++ F R c a k v l :: z) ++
       (y, RbNode (Some ky) (Some vy) cy (m_nil m) (ptr (m_nil m) x)
             (cptr (m_nil m) ((f :: zs) ++ F R c a k v l :: z))) ::
       cells (m_nil m) y x ++ [])) as Hst1.
    { erewrite ptr_plug_eq; [eapply st_perm; [exact Hst|]|done]. cbn. solve_Permutation. }
    eapply wp_mono; [apply (transplant_spec _ _ _ _ _ _ _ _ _ _ _ _ _ Hst1)|].
    cbn beta. clear Hst Hst1 t. intros t (np' & Hnp & _ & Hst).
    rewrite plug_app, Hr in Hst. cbn [plug fill f_dir f_col f_a f_k f_v f_sib] in Hst.
    eapply st_perm in Hst; [|].
    2: { rewrite app_nil_r, <-Permutation_middle, <-cells_plug, plug_app, Hr.
         cbn [plug]. rewrite cells_plug. cbn [fill f_dir f_col f_a f_k f_v f_sib]. reflexivity. }
    wsteps. exists np', ra. eexists. split; [done|]. rewrite Hr.
    eapply st_perm; [erewrite (ptr_plug_eq _ z); [exact Hst|done]|]. wsimp. solve_Permutation.
Qed.

(** [a] has no left child, or no right child. *)
Lemma erase_one_child t m np z c l a k v r u :
  zst t m np z (T c l a k v r) -> rb_root (plug z (T c l a k v r)) ->
  (l = E /\ u = r \/ r = E /\ u = l) ->
  wp (rbtree_transplant t a (ptr (m_nil m) u)) (fun t' => exists np',
     zst t' (add_extra m (a, RbNode (Some k) (Some v) c (ptr (m_nil m) l) (ptr (m_nil m) r)
                               (cptr (m_nil m) z))) np' z u /\ unlinked m np' c z u).
Proof.
  intros Hz Hrb Hu.
  assert (st t (ptr (m_nil m) (plug z (T c E a k v E))) m np (ccells (m_nil m) a z ++
    (a, RbNode (Some k) (Some v) c (ptr (m_nil m) l) (ptr (m_nil m) r) (cptr (m_nil m) z)) ::
    cells (m_nil m) a u ++ [])) as Hst.
  { erewrite (ptr_plug_eq _ z); [eapply st_perm; [exact Hz|]|done].
    cbn. destruct Hu as [[-> ->]|[-> ->]]; cbn; solve_Permutation. }
  eapply wp_mono; [apply (transplant_spec _ _ _ _ _ _ _ _ _ _ _ _ _ Hst)|].
  cbn beta. intros t' (np' & Hnp & _ & Hst'). exists np'. split.
  - eapply st_detach; [exact Hst'|]. solve_Permutation.
  - by eapply (unlinked_intro _ _ z).
Qed.

(** [a] has two children; [y] is its successor, at the end of the path [zs] down
    the left spine of the right child. *)
Lemma erase_two_children {A} t m np z c l a k v zs cy y ky vy x
    (kont : rb_tree K V -> option A) (Q : A -> Prop) :
  let z' := zs ++ F R c y ky vy l :: z in
  let ex q := (a, RbNode (Some k) (Some v) c (ptr (m_nil m) l) q (cptr (m_nil m) z)) in
  l ≠ E ->
  zst t m np (zs ++ F R c a k v l :: z) (T cy E y ky vy x) ->
  rb_root (plug (zs ++ F R c a k v l :: z) (T cy E y ky vy x)) ->
  (forall t' np' q, zst t' (add_extra m (ex q)) np' z' x -> unlinked m np' cy z' x ->
     wp (kont t') Q) ->
  wp (t ← (if decide (cptr (m_nil m) (zs ++ F R c a k v l :: z) = a)
           then set_parent t (ptr (m_nil m) x) y
           else
             t ← rbtree_transplant t y (ptr (m_nil m) x);
             nr ← get_right t a;
             t ← set_right t y nr;
             set_parent t nr y);
      t ← rbtree_transplant t a y;
      nl ← get_left t a;
      t ← set_left t y nl;
      t ← set_parent t nl y;
      nc ← get_colour t a;
      t ← set_colour t y nc;
      kont t) Q.
Proof.
  intros z' ex Hl Hz Hrb HQ. subst z' ex. apply wp_bind.
  eapply wp_mono; [by eapply detach_min_spec|]. cbn beta.
  intros t' (np' & q & par & Hnp & Hst).
  eapply (splice_spec t' m np' z c q l a k v par cy y ky vy); [done|exact Hst|].
  intros t'' Hz'. apply (HQ t'' np' q).
  - eapply zst_refocus; [exact Hz'|]. by rewrite plug_app.
  - eapply (unlinked_intro _ _ (zs ++ F R c a k v l :: z)); [exact Hrb|by left| |done].
    intros b n. apply crb_relabel.
Qed.

(** The end of [rbtree_erase]: the fix-up if a black node is missing, then the
    node is handed to [kvfreer] and freed. *)
Lemma erase_finish t m np z s nc a k v c l r p :
  m_extra m = [] ->
  zst t (add_extra m (a, RbNode (Some k) (Some v) c l r p)) np z s -> unlinked m np nc z s ->
  wp (t ← (if decide (nc = BLACK)
           then rbtree_erase_fixup (fuel_of t) t (ptr (m_nil m) s) else Some t);
      n ← rd t a;
      free_node (call_kvfreer t (n_key n) (n_value n)) a)
     (balanced (log_freed m [(Some k, Some v)]) np (inorder (plug z s))).
Proof.
  intros Hex Hz (Hnp & HR & HB). set (m' := add_extra m _) in *. apply wp_bind.
  eapply (wp_mono _ (balanced m' np (inorder (plug z s)))).
  - destruct nc; wdec.
    + apply wp_ret. exists (plug z s). split_and!; [by eapply zst_refocus|auto|done].
    + destruct HB as (n & Hpre); [done|]. eapply (erase_fixup_spec _ _ m'); [done|exact Hpre|].
      right. apply zst_fuel_sub in Hz. lia.
  - clear t Hz. intros t (s' & Hz & Hrb & Hi). subst m'. unfold add_extra in Hz.
    apply st_attach in Hz. wstep. wstep.
    eapply wp_free_node; [exact Hz|apply sel_here|]. intros t' Ht'.
    exists s'. split_and!; [|done..]. by destruct m.
Qed.

(** The successor carries the first binding of the right subtree. *)
Lemma min_inorder zs z c a k v l cy y ky vy x r :
  all_dir L zs ->
  plug (zs ++ F R c a k v l :: z) (T cy E y ky vy x) = plug (F R c a k v l :: z) r ->
  inorder r = (ky, vy) :: inorder x ++ after zs.
Proof.
  intros Hd Hp%(f_equal inorder). rewrite plug_app, !(inorder_plug (_ :: z)) in Hp.
  apply app_inv_head, app_inv_tail in Hp. rewrite <-Hp, inorder_plug.
  by rewrite <-(app_nil_r zs), before_all_L, app_nil_r.
Qed.

Lemma after_app z1 z2 : after (z1 ++ z2) = after z1 ++ after z2.
Proof. induction z1 as [|[[] c a k v sib] z1 IH]; cbn; [done|by rewrite IH, <-app_assoc|done]. Qed.

Lemma erase_spec t m np z c l a k v r :
  m_extra m = [] -> zst t m np z (T c l a k v r) -> rb_root (plug z (T c l a k v r)) ->
  wp (rbtree_erase t a) (fun t' => exists np',
     balanced (log_freed m [(Some k, Some v)]) np'
       (before z ++ inorder l ++ inorder r ++ after z) t').
Proof.
  intros Hex Hz Hrb. pose proof Hz as Hst. unfold zst in Hst. unfold rbtree_erase.
  destruct l as [|cl ll la lk lv lr]; [|destruct r as [|cr rl ra rk rv rr]]; wsteps.
  - eapply wp_mono; [eapply (erase_one_child _ _ _ _ _ _ _ _ _ _ r); [done..|by left]|].
    intros t' (np' & Hz' & Hu). apply wp_ret. eapply wp_mono; [by eapply erase_finish|].
    rewrite inorder_plug. eauto.
  - eapply wp_mono; [eapply (erase_one_child _ _ _ _ _ _ _ _ _ _ (T cl ll la lk lv lr));
      [done..|by right]|].
    intros t' (np' & Hz' & Hu). apply wp_ret.
    eapply wp_mono; [by eapply (erase_finish t' m np' z (T cl ll la lk lv lr))|].
    rewrite inorder_plug. eauto.
  - eapply wp_mono.
    { eapply (minimum_spec t m np (F R c a k v (T cl ll la lk lv lr) :: z)).
      by eapply zst_refocus. }
    cbn beta. intros y (zs & cy & ky & vy & x & Hd & Hp).
    pose proof (min_inorder _ _ _ _ _ _ _ _ _ _ _ _ _ Hd Hp) as Hi.
    apply (zst_refocus _ _ _ _ _ (zs ++ F R c a k v (T cl ll la lk lv lr) :: z)
      (T cy E y ky vy x)) in Hz; [|by rewrite Hp].
    change (plug z _) with (plug (F R c a k v (T cl ll la lk lv lr) :: z)
      (T cr rl ra rk rv rr)) in Hrb. rewrite <-Hp in Hrb.
    clear Hst. pose proof Hz as Hst. unfold zst in Hst.
    wstep. wstep. wstep. wstep. wstep. wstep.
    eapply erase_two_children; [done|exact Hz|exact Hrb|].
    intros t' np' q Hz' Hu. apply wp_ret.
    eapply wp_mono; [by eapply (erase_finish t' m np' _ x)|].
    intros t'' Hb. exists np'.
    match goal with |- balanced _ _ ?x _ => match type of Hb with balanced _ _ ?y _ =>
      replace x with y; [exact Hb|] end end.
    rewrite Hi, inorder_plug, before_all_L, after_app by done. clear.
    cbn [before after]. generalize (inorder (T cl ll la lk lv lr)). intros i.
    rewrite <-!app_assoc. cbn. rewrite <-?app_assoc. reflexivity.
Qed.

(** ** Removal *)

Context (cmp : K -> K -> Z) `{!KeyOrder cmp}.

Lemma rbtree_remove_absent t kvs key :
  rbrep cmp t kvs -> key ∉ kvs.*1 -> rbtree_remove cmp t (Some key) = Some (false, t).
Proof.
  intros Hr Hk. unfold rbtree_remove. cbn [bool_decide].
  destruct (rbtree_find_cases cmp _ _ key Hr)
    as [[_ ->]|(np & z & c & l & p & v' & r & _ & _ & <- & _)].
  - cbn [mbind option_bind]. by rewrite decide_True by done.
  - destruct Hk. eapply elem_of_keys, (position_T cmp).
Qed.

Lemma rbtree_remove_present t kvs key :
  rbrep cmp t kvs -> key ∈ kvs.*1 ->
  exists t' l1 l2 v, rbtree_remove cmp t (Some key) = Some (true, t') /\
    kvs = l1 ++ (key, v) :: l2 /\ rbrep cmp t' (l1 ++ l2) /\
    t_nil t' = t_nil t /\ t_kvfreer t' = t_kvfreer t /\
    t_freed t' = t_freed t ++ (if t_kvfreer t then [(Some key, Some v)] else []).
Proof.
  intros Hr Hk. pose proof Hr as (_ & _ & _ & _ & _ & Hs). unfold rbtree_remove.
  cbn [bool_decide]. destruct (rbtree_find_cases cmp _ _ key Hr)
    as [[Hn _]|(np & z & c & l & p & v & r & Hz & Hrb & <- & Hnil & ->)]; [done|].
  cbn [mbind option_bind]. rewrite decide_False by done.
  destruct (erase_spec _ (mt t []) _ _ _ _ _ _ _ _ eq_refl Hz Hrb) as (t' & -> & np' & s' & Hz' & Hrb' & Hi).
  exists t', (before z ++ inorder l), (inorder r ++ after z), v.
  rewrite inorder_plug in *. cbn in *. rewrite <-!app_assoc in *. cbn in *.
  pose proof Hz' as (_ & H2 & H3 & H4 & _). cbn in *. split_and!; try done.
  exists np', s'. split_and!; try done.
  - unfold mt. by rewrite H2, H3, H4.
  - rewrite app_assoc in *. apply ksorted_mid in Hs as (H5 & H6 & H7 & H8); [|done].
    apply ksorted_app. split_and!; [done..|]. intros a b Ha Hb.
    rewrite Forall_forall in H7, H8. etrans; [by apply H7|by apply H8].
Qed.
End erase.
