(* ===== verification/KeyOrders.v ===== *)
(** The three comparators of rb_tree.c order their keys.

    [KeyOrder] instances for pointers, [int]s and C strings.  A C string is a
    string without NUL; on such strings [rbtree_str_cmp] is a total order
    whatever the signedness of [char]. *)
From S2P Require Import Prelude Heap RbTree RbSearch.
From Stdlib Require Import Ascii.

(** ** C strings *)

Fixpoint no_nul (s : string) : bool :=
  match s with
  | EmptyString => true
  | String c s => negb (bool_decide (c = zero)) && no_nul s
  end.

Definition cstr : Type := { s : string | no_nul s = true }.
Definition cstr_str (s : cstr) : string := proj1_sig s.

Lemma cstr_eq (s1 s2 : cstr) : cstr_str s1 = cstr_str s2 -> s1 = s2.
Proof.
  destruct s1 as [s1 H1], s2 as [s2 H2]. cbn. intros ->. f_equal.
  apply Eqdep_dec.UIP_dec, bool_eq_dec.
Qed.

#[export] Instance cstr_eq_dec : EqDecision cstr.
Proof.
  intros s1 s2. destruct (decide (cstr_str s1 = cstr_str s2)) as [H|H].
  - left. by apply cstr_eq.
  - right. by intros ->.
Defined.

(** What a [char *] argument pointing at the bytes of [s] reads as. *)
Fixpoint truncate_nul (s : string) : string :=
  match s with
  | EmptyString => EmptyString
  | String c s => if decide (c = zero) then EmptyString else String c (truncate_nul s)
  end.

Lemma truncate_no_nul s : no_nul (truncate_nul s) = true.
Proof.
  induction s as [|c s IH]; cbn; [done|]. destruct (decide (c = zero)) as [|Hc]; [done|].
  cbn. by rewrite bool_decide_eq_false_2.
Qed.

Definition c_str (s : string) : cstr := exist _ (truncate_nul s) (truncate_no_nul s).

Lemma c_str_of (s : cstr) : c_str (cstr_str s) = s.
Proof.
  apply cstr_eq. destruct s as [s Hs]. cbn. induction s as [|c s IH]; [done|].
  cbn in *. apply andb_prop in Hs as [Hc Hs]. rewrite negb_true_iff, bool_decide_eq_false in Hc.
  rewrite decide_False by done. by rewrite IH.
Qed.

#[export] Instance cstr_countable : Countable cstr.
Proof. by apply (inj_countable' cstr_str c_str), c_str_of. Defined.

(** ** Characters *)

(** The values a [char] may have. *)
Class CharValue (cval : ascii -> Z) : Prop := {
  cval_inj a b : cval a = cval b -> a = b;
  cval_zero a : cval a = 0%Z <-> a = zero
}.

Definition uchar_value (a : ascii) : Z := Z.of_N (N_of_ascii a).
Definition schar_value (a : ascii) : Z := wrap_s 8 (uchar_value a).

Lemma uchar_value_inj a b : uchar_value a = uchar_value b -> a = b.
Proof.
  unfold uchar_value. intros H%N2Z.inj%(f_equal ascii_of_N).
  by rewrite !ascii_N_embedding in H.
Qed.

Lemma uchar_value_bound a : (0 <= uchar_value a < 256)%Z.
Proof. unfold uchar_value. pose proof (N_ascii_bounded a). lia. Qed.

Lemma schar_value_inj a b : schar_value a = schar_value b -> a = b.
Proof.
  intros H. apply uchar_value_inj. revert H. unfold schar_value, wrap_s.
  pose proof (uchar_value_bound a). pose proof (uchar_value_bound b).
  change (2 ^ 8)%Z with 256%Z. change (2 ^ (8 - 1))%Z with 128%Z. intros Hm.
  Z.div_mod_to_equations. lia.
Qed.

#[export] Instance uchar_CharValue : CharValue uchar_value.
Proof.
  split; [apply uchar_value_inj|]. intros a. split; [|by intros ->].
  intros H. by apply uchar_value_inj.
Qed.

#[export] Instance schar_CharValue : CharValue schar_value.
Proof.
  split; [apply schar_value_inj|]. intros a. split; [|by intros ->].
  intros H. by apply schar_value_inj.
Qed.

(** ** The orders *)

Lemma c_cmp_zero a b : c_cmp (a >? b)%Z (a <? b)%Z = 0%Z <-> a = b.
Proof. unfold c_cmp. destruct (Z.gtb_spec a b), (Z.ltb_spec a b); cbn; lia. Qed.
Lemma c_cmp_neg a b : (c_cmp (a >? b) (a <? b) < 0)%Z <-> (a < b)%Z.
Proof. unfold c_cmp. destruct (Z.gtb_spec a b), (Z.ltb_spec a b); cbn; lia. Qed.
Lemma c_cmp_pos a b : (0 < c_cmp (a >? b) (a <? b))%Z <-> (b < a)%Z.
Proof. unfold c_cmp. destruct (Z.gtb_spec a b), (Z.ltb_spec a b); cbn; lia. Qed.

#[export] Instance rbtree_int_cmp_order : KeyOrder rbtree_int_cmp.
Proof.
  unfold rbtree_int_cmp. split; intros.
  - apply c_cmp_zero.
  - by rewrite c_cmp_neg, c_cmp_pos.
  - rewrite c_cmp_neg in *. lia.
Qed.

Lemma rbtree_ptr_cmp_int a b : rbtree_ptr_cmp a b = rbtree_int_cmp (Z.of_N a) (Z.of_N b).
Proof.
  unfold rbtree_ptr_cmp, rbtree_int_cmp, c_cmp.
  destruct (N.ltb_spec b a), (N.ltb_spec a b), (Z.gtb_spec (Z.of_N a) (Z.of_N b)),
    (Z.ltb_spec (Z.of_N a) (Z.of_N b)); cbn; lia.
Qed.

#[export] Instance rbtree_ptr_cmp_order : KeyOrder rbtree_ptr_cmp.
Proof.
  split; intros *; rewrite !rbtree_ptr_cmp_int.
  - rewrite cmp_zero. lia.
  - apply cmp_flip.
  - apply cmp_trans.
Qed.

(** Strings are compared by the values of their characters, the terminating NUL
    included. *)
Section str.
Context (cval : ascii -> Z) `{!CharValue cval}.

Definition cstr_cmp (s1 s2 : cstr) : Z := rbtree_str_cmp cval (cstr_str s1) (cstr_str s2).

Lemma cval_neq_zero c : negb (bool_decide (c = zero)) = true -> cval c ≠ 0%Z.
Proof. rewrite negb_true_iff, bool_decide_eq_false, cval_zero. done. Qed.

(** The outcome of a comparison, from the first characters and the rest. *)
Lemma str_cmp_cons a b s1 s2 :
  cval a ≠ 0%Z ->
  rbtree_str_cmp cval (String a s1) (String b s2) =
    if decide (a = b) then rbtree_str_cmp cval s1 s2
    else c_cmp (cval a >? cval b)%Z (cval a <? cval b)%Z.
Proof.
  intros Ha. cbn. rewrite (proj2 (Z.eqb_neq _ _)) by done. cbn.
  destruct (decide (a = b)) as [->|Hab]; [by rewrite Z.eqb_refl|].
  rewrite (proj2 (Z.eqb_neq _ _)); [done|]. by intros ?%cval_inj.
Qed.

Ltac str_step :=
  cbn [no_nul] in *;
  repeat match goal with H : _ && _ = true |- _ => apply andb_prop in H as [? ?] end;
  repeat match goal with H : negb _ = true |- _ => apply cval_neq_zero in H end.

Lemma str_cmp_zero s1 s2 :
  no_nul s1 = true -> no_nul s2 = true -> rbtree_str_cmp cval s1 s2 = 0%Z <-> s1 = s2.
Proof.
  revert s2. induction s1 as [|a s1 IH]; intros [|b s2] H1 H2; str_step.
  - done.
  - cbn. rewrite c_cmp_zero. split; [congruence|done].
  - cbn. rewrite c_cmp_zero. split; [congruence|done].
  - rewrite str_cmp_cons by done. case_decide as Hab.
    + rewrite IH by done. naive_solver.
    + rewrite c_cmp_zero. split; [by intros ?%cval_inj|naive_solver].
Qed.

Lemma str_cmp_flip s1 s2 :
  no_nul s1 = true -> no_nul s2 = true ->
  (rbtree_str_cmp cval s1 s2 < 0)%Z <-> (0 < rbtree_str_cmp cval s2 s1)%Z.
Proof.
  revert s2. induction s1 as [|a s1 IH]; intros [|b s2] H1 H2; str_step.
  - done.
  - cbn. by rewrite c_cmp_neg, c_cmp_pos.
  - cbn. by rewrite c_cmp_neg, c_cmp_pos.
  - rewrite !str_cmp_cons by done. destruct (decide (a = b)), (decide (b = a)); try congruence.
    + by apply IH.
    + by rewrite c_cmp_neg, c_cmp_pos.
Qed.

Lemma str_cmp_trans s1 s2 s3 :
  no_nul s1 = true -> no_nul s2 = true -> no_nul s3 = true ->
  (rbtree_str_cmp cval s1 s2 < 0)%Z -> (rbtree_str_cmp cval s2 s3 < 0)%Z ->
  (rbtree_str_cmp cval s1 s3 < 0)%Z.
Proof.
  revert s2 s3. induction s1 as [|a s1 IH]; intros [|b s2] [|c s3] H1 H2 H3; str_step;
    rewrite ?str_cmp_cons by done; cbn [rbtree_str_cmp]; rewrite ?c_cmp_neg; try done; try lia.
  all: repeat destruct (decide (_ = _)); subst; rewrite ?c_cmp_neg; try done; try lia.
  by apply IH.
Qed.

#[export] Instance cstr_cmp_order : KeyOrder cstr_cmp.
Proof.
  split.
  - intros [s1 H1] [s2 H2]. unfold cstr_cmp. cbn. rewrite str_cmp_zero by done.
    split; [intros; by apply cstr_eq|congruence].
  - intros [s1 H1] [s2 H2]. by apply str_cmp_flip.
  - intros [s1 H1] [s2 H2] [s3 H3]. by apply str_cmp_trans.
Qed.
End str.
