(* ===== verification/MapC.v ===== *)
(** The typed map of src/src/utils/cutils/map/map.c over the red-black tree.

    A map is a tag and a tree; its functions test their arguments for NULL, copy
    keys and values of integer, boolean and string maps, and call the tree.  The
    section is parameterised by the Rocq types of keys and values; [MapKey] says
    which of the three key kinds of the tag a key type stands for and which
    comparator [map_new] picks for it. *)
From S2P Require Import Prelude Heap RbTree RbSearch RbInsert RbErase KeyOrders.

(** [map_type_t] *)
Inductive map_type_t :=
| MAP_INT_INT | MAP_INT_BOOL | MAP_INT_STR | MAP_INT_PTR
| MAP_STR_BOOL | MAP_STR_INT | MAP_STR_PTR | MAP_STR_STR
| MAP_PTR_INT | MAP_PTR_STR | MAP_PTR_PTR.

#[export] Instance map_type_eq_dec : EqDecision map_type_t.
Proof. solve_decision. Defined.

Definition is_key_int (type : map_type_t) : bool :=
  bool_decide (type = MAP_INT_INT) || bool_decide (type = MAP_INT_STR)
  || bool_decide (type = MAP_INT_PTR) || bool_decide (type = MAP_INT_BOOL).
Definition is_key_str (type : map_type_t) : bool :=
  bool_decide (type = MAP_STR_INT) || bool_decide (type = MAP_STR_STR)
  || bool_decide (type = MAP_STR_PTR) || bool_decide (type = MAP_STR_BOOL).
Definition is_key_ptr (type : map_type_t) : bool :=
  bool_decide (type = MAP_PTR_INT) || bool_decide (type = MAP_PTR_STR)
  || bool_decide (type = MAP_PTR_PTR).
Definition is_val_bool (type : map_type_t) : bool :=
  bool_decide (type = MAP_STR_BOOL) || bool_decide (type = MAP_INT_BOOL).
Definition is_val_int (type : map_type_t) : bool :=
  bool_decide (type = MAP_INT_INT) || bool_decide (type = MAP_STR_INT)
  || bool_decide (type = MAP_PTR_INT).
Definition is_val_str (type : map_type_t) : bool :=
  bool_decide (type = MAP_INT_STR) || bool_decide (type = MAP_STR_STR)
  || bool_decide (type = MAP_PTR_STR).
Definition is_val_ptr (type : map_type_t) : bool :=
  bool_decide (type = MAP_INT_PTR) || bool_decide (type = MAP_STR_PTR)
  || bool_decide (type = MAP_PTR_PTR).

(** The key kind a tag announces. *)
Inductive key_kind := KEY_INT | KEY_STR | KEY_PTR.

Definition kind_of (type : map_type_t) : key_kind :=
  if is_key_ptr type then KEY_PTR else if is_key_int type then KEY_INT else KEY_STR.

(** Key types with the comparator [map_new] selects for them. *)
Class MapKey (K : Type) := {
  mk_kind : key_kind;
  mk_cmp : K -> K -> Z;
  mk_order :: KeyOrder mk_cmp
}.

#[export] Instance int_MapKey : MapKey Z :=
  {| mk_kind := KEY_INT; mk_cmp := rbtree_int_cmp |}.
#[export] Instance ptr_MapKey : MapKey N :=
  {| mk_kind := KEY_PTR; mk_cmp := rbtree_ptr_cmp |}.
#[export] Instance cstr_MapKey : MapKey cstr :=
  {| mk_kind := KEY_STR; mk_cmp := cstr_cmp schar_value |}.

(** [struct _map_t] *)
Record map_t (K V : Type) := MapT { m_type : map_type_t; m_store : rb_tree K V }.
Arguments MapT {K V} _ _.
Arguments m_type {K V} _.
Arguments m_store {K V} _.

Section map_c.
Context {K V : Type} `{!MapKey K}.
Implicit Types (map : option (map_t K V)) (key : option K) (value : option V).

(** What the allocator hands to one call: for the copy of the key, the copy of
    the value, and the tree node. *)
Record allocs := Allocs { a_key : loc; a_val : loc; a_node : loc }.

(** The copies: the outer [None] is the [abort] of [util_strdup_s], the inner one
    the NULL result. *)
Definition map_convert_key (type : map_type_t) (a : loc) (k : K) : option (option K) :=
  if is_key_ptr type then Some (Some k)
  else if is_key_int type then
    if decide (a = NULL) then Some None else Some (Some k)
  else if is_key_str type then
    if decide (a = NULL) then None else Some (Some k)
  else Some None.

Definition map_convert_value (type : map_type_t) (a : loc) (v : V) : option (option V) :=
  if is_val_ptr type then Some (Some v)
  else if is_val_bool type || is_val_int type then
    if decide (a = NULL) then Some None else Some (Some v)
  else if is_val_str type then
    if decide (a = NULL) then None else Some (Some v)
  else Some None.

(** [map_new]; [comparator] and [kvfree] tell whether these arguments are other
    than the default NULL.  The result [None] is NULL. *)
Definition map_new (a_map a_tree a_nil : loc) (kvtype : map_type_t)
    (comparator kvfree : bool) : option (map_t K V) :=
  if decide (a_map = NULL) then None
  else
    let freer := true in
    if is_key_ptr kvtype && negb comparator || is_key_int kvtype && negb comparator
       || is_key_str kvtype && negb comparator
    then store ← rbtree_new a_tree a_nil freer; Some (MapT kvtype store)
    else None.

Definition map_search map key : option (option V) :=
  match map, key with
  | Some m, Some _ => rbtree_search mk_cmp (m_store m) key
  | _, _ => Some None
  end.

Definition map_size map : option nat :=
  match map with None => Some 0 | Some m => rbtree_size (m_store m) end.

Definition map_remove map key : option (bool * option (map_t K V)) :=
  match map, key with
  | Some m, Some _ =>
      rt ← rbtree_remove mk_cmp (m_store m) key;
      Some (rt.1, Some (MapT (m_type m) rt.2))
  | _, _ => Some (false, map)
  end.

(** The common body of [map_insert] and [map_replace] around the call of the
    tree; the third component lists the copies freed after a failure. *)
Definition map_store_with
    (store_op : rb_tree K V -> loc -> option K -> option V -> option (bool * rb_tree K V))
    map (a : allocs) key value : option (bool * option (map_t K V) * list loc) :=
  match map, key, value with
  | Some m, Some k, Some v =>
      tmp ← map_convert_key (m_type m) (a_key a) k;
      match tmp with
      | None => Some (false, map, [])
      | Some tmp =>
          tmp_value ← map_convert_value (m_type m) (a_val a) v;
          match tmp_value with
          | None =>
              Some (false, map, if negb (is_key_ptr (m_type m)) then [a_key a] else [])
          | Some tmp_value =>
              rt ← store_op (m_store m) (a_node a) (Some tmp) (Some tmp_value);
              Some (rt.1, Some (MapT (m_type m) rt.2),
                if rt.1 : bool then []
                else (if negb (is_key_ptr (m_type m)) then [a_key a] else [])
                     ++ (if negb (is_val_ptr (m_type m)) then [a_val a] else []))
          end
      end
  | _, _, _ => Some (false, map, [])
  end.

Definition map_replace := map_store_with (rbtree_replace mk_cmp).
Definition map_insert := map_store_with (rbtree_insert mk_cmp).

(** The iterator functions; an iterator is its current node, NULL is [None]. *)
Definition map_itor_new map (a : loc) : option (option loc) :=
  match map with None => Some None | Some m => rbtree_iterator_new (m_store m) a end.
Definition map_itor_first (m : map_t K V) (itor : option loc) : option (bool * option loc) :=
  match itor with
  | None => Some (false, None)
  | Some _ => bn ← rbtree_iterator_first (m_store m); Some (bn.1, Some bn.2)
  end.
Definition map_itor_last (m : map_t K V) (itor : option loc) : option (bool * option loc) :=
  match itor with
  | None => Some (false, None)
  | Some _ => bn ← rbtree_iterator_last (m_store m); Some (bn.1, Some bn.2)
  end.
Definition map_itor_next (m : map_t K V) (itor : option loc) : option (bool * option loc) :=
  match itor with
  | None => Some (false, None)
  | Some node => bn ← rbtree_iterator_next (m_store m) node; Some (bn.1, Some bn.2)
  end.
Definition map_itor_prev (m : map_t K V) (itor : option loc) : option (bool * option loc) :=
  match itor with
  | None => Some (false, None)
  | Some node => bn ← rbtree_iterator_prev (m_store m) node; Some (bn.1, Some bn.2)
  end.
Definition map_itor_valid (m : map_t K V) (itor : option loc) : bool :=
  match itor with None => false | Some node => rbtree_iterator_valid (m_store m) node end.
Definition map_itor_key (m : map_t K V) (itor : option loc) : option (option K) :=
  match itor with None => Some None | Some node => rbtree_iterator_key (m_store m) node end.
Definition map_itor_value (m : map_t K V) (itor : option loc) : option (option V) :=
  match itor with None => Some None | Some node => rbtree_iterator_value (m_store m) node end.

(** The loop a client writes with these functions, from an iterator. *)
Fixpoint map_itor_loop (fuel : nat) (m : map_t K V) (itor : option loc)
    : option (list (K * V)) :=
  match fuel with
  | O => None
  | S fuel =>
      if map_itor_valid m itor then
        k ← map_itor_key m itor;
        v ← map_itor_value m itor;
        k ← k; v ← v;
        bn ← map_itor_next m itor;
        rest ← map_itor_loop fuel m bn.2;
        Some ((k, v) :: rest)
      else Some []
  end.

Definition map_elements (m : map_t K V) (a : loc) : option (list (K * V)) :=
  itor ← map_itor_new (Some m) a;
  map_itor_loop (fuel_of (m_store m)) m itor.

Definition map_clear map : option (option (map_t K V)) :=
  match map with
  | None => Some None
  | Some m => t ← rbtree_clear (m_store m); Some (Some (MapT (m_type m) t))
  end.

Definition map_free map
    : option (gmap loc (rb_node K V) * list (option K * option V)) :=
  match map with None => Some (∅, []) | Some m => rbtree_free (m_store m) end.

End map_c.
