(* ===== verification/MapIface.v ===== *)
(** What a map promises to its clients, independently of its implementation.

    [MapOps] lists the operations of map.h a client uses and [MapLaws] their
    meaning: each operation acts on the abstract finite map [mo_abs] like the
    function of the same name on [gmap] below, and iteration visits the bindings
    in key order.  The finite map itself is an instance; [MapRefine] shows that
    the red-black tree of map.c is one too. *)
From S2P Require Import Prelude RbSearch.

(** ** The specification: finite maps *)
Section spec.
Context {K V : Type} `{Countable K}.
Implicit Types (g : gmap K V).

(** An insertion never overwrites. *)
Definition gm_insert (k : K) (v : V) g : bool * gmap K V :=
  match g !! k with Some _ => (false, g) | None => (true, <[k := v]> g) end.
Definition gm_replace (k : K) (v : V) g : bool * gmap K V := (true, <[k := v]> g).
(** The same when the allocator may be out of memory ([ok] is false). *)
Definition gm_try_insert (ok : bool) (k : K) (v : V) g : bool * gmap K V :=
  if ok then gm_insert k v g else (false, g).
Definition gm_remove (k : K) g : bool * gmap K V :=
  match g !! k with Some _ => (true, delete k g) | None => (false, g) end.
End spec.

Class MapOps (K V M : Type) := {
  mo_new : option M;
  mo_search : K -> M -> option V;
  mo_insert : bool -> K -> V -> M -> bool * M;  (* false: out of memory *)
  mo_replace : K -> V -> M -> bool * M;
  mo_remove : K -> M -> bool * M;
  mo_size : M -> nat;
  mo_elements : M -> list (K * V)
}.

Class MapLaws {K V M : Type} `{Countable K} (cmp : K -> K -> Z) (ops : MapOps K V M) := {
  mo_wf : M -> Prop;
  mo_abs : M -> gmap K V;
  mo_new_ok : exists m, mo_new = Some m /\ mo_wf m /\ mo_abs m = ∅;
  mo_search_ok k m : mo_wf m -> mo_search k m = mo_abs m !! k;
  mo_insert_ok ok k v m : mo_wf m ->
    mo_wf (mo_insert ok k v m).2 /\
    gm_try_insert ok k v (mo_abs m) = ((mo_insert ok k v m).1, mo_abs (mo_insert ok k v m).2);
  mo_replace_ok k v m : mo_wf m ->
    mo_wf (mo_replace k v m).2 /\
    gm_replace k v (mo_abs m) = ((mo_replace k v m).1, mo_abs (mo_replace k v m).2);
  mo_remove_ok k m : mo_wf m ->
    mo_wf (mo_remove k m).2 /\
    gm_remove k (mo_abs m) = ((mo_remove k m).1, mo_abs (mo_remove k m).2);
  mo_size_ok m : mo_wf m -> mo_size m = size (mo_abs m);
  mo_elements_ok m : mo_wf m ->
    ksorted cmp (mo_elements m) /\ mo_abs m = list_to_map (mo_elements m)
}.

(** ** Consequences a client uses *)
Section client.
Context {K V M : Type} `{Countable K} {cmp : K -> K -> Z} `{!KeyOrder cmp}
  {ops : MapOps K V M} `{!MapLaws cmp ops}.
Implicit Types (m : M) (k : K) (v : V).

Lemma mo_insert_fresh k v m :
  mo_wf m -> mo_abs m !! k = None ->
  (mo_insert true k v m).1 = true /\ mo_abs (mo_insert true k v m).2 = <[k := v]> (mo_abs m).
Proof.
  intros Hwf Hk. destruct (mo_insert_ok true k v m Hwf) as [_ He]. cbn in He.
  unfold gm_insert in He. rewrite Hk in He. split; congruence.
Qed.

Lemma mo_insert_bound ok k v v' m :
  mo_wf m -> mo_abs m !! k = Some v' ->
  (mo_insert ok k v m).1 = false /\ mo_abs (mo_insert ok k v m).2 = mo_abs m.
Proof.
  intros Hwf Hk. destruct (mo_insert_ok ok k v m Hwf) as [_ He].
  unfold gm_try_insert, gm_insert in He. rewrite Hk in He. destruct ok; split; congruence.
Qed.

Lemma mo_insert_oom k v m :
  mo_wf m -> (mo_insert false k v m).1 = false /\ mo_abs (mo_insert false k v m).2 = mo_abs m.
Proof.
  intros Hwf. destruct (mo_insert_ok false k v m Hwf) as [_ He]. cbn in He. split; congruence.
Qed.

Lemma mo_replace_abs k v m :
  mo_wf m -> (mo_replace k v m).1 = true /\
    mo_abs (mo_replace k v m).2 = <[k := v]> (mo_abs m).
Proof.
  intros Hwf. destruct (mo_replace_ok k v m Hwf) as [_ He].
  unfold gm_replace in He. split; congruence.
Qed.

Lemma mo_remove_abs k m :
  mo_wf m -> mo_abs (mo_remove k m).2 = delete k (mo_abs m) /\
    (mo_remove k m).1 = bool_decide (is_Some (mo_abs m !! k)).
Proof.
  intros Hwf. destruct (mo_remove_ok k m Hwf) as [_ He]. unfold gm_remove in He.
  destruct (mo_abs m !! k) as [v|] eqn:Hk.
  - rewrite bool_decide_eq_true_2 by eauto. split; congruence.
  - rewrite bool_decide_eq_false_2, delete_id by (rewrite ?Hk; auto using is_Some_None).
    split; congruence.
Qed.

Lemma mo_wf_insert ok k v m : mo_wf m -> mo_wf (mo_insert ok k v m).2.
Proof. apply mo_insert_ok. Qed.
Lemma mo_wf_replace k v m : mo_wf m -> mo_wf (mo_replace k v m).2.
Proof. apply mo_replace_ok. Qed.
Lemma mo_wf_remove k m : mo_wf m -> mo_wf (mo_remove k m).2.
Proof. apply mo_remove_ok. Qed.

Lemma mo_elements_perm m : mo_wf m -> mo_elements m ≡ₚ map_to_list (mo_abs m).
Proof.
  intros Hwf. destruct (mo_elements_ok m Hwf) as [Hs ->].
  symmetry. apply map_to_list_to_map. by eapply ksorted_NoDup.
Qed.

Lemma elem_of_mo_elements k v m : mo_wf m -> (k, v) ∈ mo_elements m <-> mo_abs m !! k = Some v.
Proof. intros Hwf. by rewrite mo_elements_perm, elem_of_map_to_list. Qed.

Lemma length_mo_elements m : mo_wf m -> length (mo_elements m) = mo_size m.
Proof.
  intros Hwf. rewrite mo_elements_perm, mo_size_ok by done. apply length_map_to_list.
Qed.
End client.

#[export] Hint Resolve mo_wf_insert mo_wf_replace mo_wf_remove : isulad.

(** ** The finite map as an implementation *)

Section gmap_ops.
Context {K V : Type} `{Countable K} (cmp : K -> K -> Z) `{!KeyOrder cmp}.

(** Bindings in key order, by insertion. *)
Fixpoint sorted_insert (kv : K * V) (l : list (K * V)) : list (K * V) :=
  match l with
  | [] => [kv]
  | kv' :: l => if (cmp kv.1 kv'.1 <? 0)%Z then kv :: kv' :: l else kv' :: sorted_insert kv l
  end.
Definition gm_elements (g : gmap K V) : list (K * V) := foldr sorted_insert [] (map_to_list g).

Lemma sorted_insert_perm kv l : sorted_insert kv l ≡ₚ kv :: l.
Proof.
  induction l as [|kv' l IH]; cbn; [done|]. destruct (_ <? _)%Z; [done|].
  rewrite IH. solve_Permutation.
Qed.

Lemma gm_elements_perm g : gm_elements g ≡ₚ map_to_list g.
Proof.
  unfold gm_elements. induction (map_to_list g) as [|kv l IH]; cbn; [done|].
  by rewrite sorted_insert_perm, IH.
Qed.

Lemma sorted_insert_sorted kv l :
  kv.1 ∉ l.*1 -> ksorted cmp l -> ksorted cmp (sorted_insert kv l).
Proof.
  induction l as [|kv' l IH]; cbn; intros Hn Hs; [by repeat constructor|].
  apply StronglySorted_cons in Hs as [Hf Hs]. rewrite elem_of_cons in Hn.
  destruct (Z.ltb_spec (cmp kv.1 kv'.1) 0) as [Hlt|Hge].
  - constructor; [by constructor|]. constructor; [done|].
    eapply Forall_impl; [done|]. intros x. by apply cmp_trans.
  - assert (cmp kv'.1 kv.1 < 0)%Z as Hlt.
    { apply cmp_flip. assert (cmp kv.1 kv'.1 ≠ 0%Z); [|lia]. rewrite cmp_zero. naive_solver. }
    constructor; [apply IH; naive_solver|]. by rewrite sorted_insert_perm, Forall_cons.
Qed.

Lemma gm_elements_sorted g : ksorted cmp (gm_elements g).
Proof.
  unfold gm_elements. pose proof (NoDup_fst_map_to_list g) as Hnd.
  induction (map_to_list g) as [|kv l IH]; cbn in *; [constructor|].
  apply NoDup_cons in Hnd as [Hn Hnd]. apply sorted_insert_sorted; [|auto].
  enough (foldr sorted_insert [] l ≡ₚ l) as -> by done. clear.
  induction l as [|kv l IH]; cbn; [done|]. by rewrite sorted_insert_perm, IH.
Qed.

#[export] Instance gmap_MapOps : MapOps K V (gmap K V) := {|
  mo_new := Some ∅;
  mo_search k g := g !! k;
  mo_insert := gm_try_insert;
  mo_replace := gm_replace;
  mo_remove := gm_remove;
  mo_size g := size g;
  mo_elements := gm_elements
|}.

#[export] Instance gmap_MapLaws : MapLaws cmp gmap_MapOps.
Proof.
  refine {| mo_wf _ := True; mo_abs g := g |}; cbn; intros.
  - by exists ∅.
  - done.
  - by destruct (gm_try_insert ok k v m).
  - done.
  - by destruct (gm_remove k m).
  - done.
  - split; [apply gm_elements_sorted|].
    rewrite (list_to_map_proper (gm_elements m) (map_to_list m)).
    + by rewrite list_to_map_to_list.
    + rewrite gm_elements_perm. apply NoDup_fst_map_to_list.
    + apply gm_elements_perm.
Defined.
End gmap_ops.
