(* ===== verification/MapRefine.v ===== *)
(** map.c implements finite maps.

    [map_is m g]: the map [m] is well formed and holds the bindings of [g].  Every
    operation is related to its counterpart on [gmap], the failing allocations
    included, and the tree-based map is an instance of the interface clients are
    verified against. *)
From S2P Require Import Prelude Heap RbTree RbShape RbRefine RbSearch RbInsert RbErase KeyOrders MapC MapIface.

Section refine.
Context {K V : Type} `{Countable K} `{!MapKey K}.
Implicit Types (m : map_t K V) (g : gmap K V) (kvs : list (K * V)) (a : allocs).

Definition map_is m g : Prop :=
  exists kvs, rbrep mk_cmp (m_store m) kvs /\ t_kvfreer (m_store m) = true /\
    kind_of (m_type m) = mk_kind /\ g = list_to_map kvs.

(** The allocator hands out fresh memory. *)
Definition alloc_ok m a : Prop :=
  a_key a ≠ NULL /\ a_val a ≠ NULL /\ a_node a ≠ NULL /\ a_node a ∉ dom (t_heap (m_store m)).

(** The copies [map_insert] and [map_replace] make of their arguments. *)
Definition copies m a : list loc :=
  (if negb (is_key_ptr (m_type m)) then [a_key a] else [])
  ++ (if negb (is_val_ptr (m_type m)) then [a_val a] else []).

Lemma rbrep_sorted (t : rb_tree K V) kvs : rbrep mk_cmp t kvs -> ksorted mk_cmp kvs.
Proof. by intros (_ & _ & _ & _ & _ & ?). Qed.

Lemma rbrep_NoDup (t : rb_tree K V) kvs : rbrep mk_cmp t kvs -> NoDup kvs.*1.
Proof. intros. eapply ksorted_NoDup; [apply _|]. by eapply rbrep_sorted. Qed.

(** ** Bindings in a list with distinct keys *)

Lemma lookup_kvs_None kvs k : (list_to_map kvs : gmap K V) !! k = None <-> k ∉ kvs.*1.
Proof. by rewrite not_elem_of_list_to_map. Qed.

Lemma lookup_kvs_Some kvs k : is_Some ((list_to_map kvs : gmap K V) !! k) -> k ∈ kvs.*1.
Proof.
  intros [v Hv]. destruct (decide (k ∈ kvs.*1)) as [|Hn]; [done|].
  apply lookup_kvs_None in Hn. congruence.
Qed.

Lemma list_to_map_mid l1 k v l2 :
  NoDup (l1 ++ (k, v) :: l2).*1 ->
  list_to_map (l1 ++ (k, v) :: l2) = (<[k := v]> (list_to_map (l1 ++ l2)) : gmap K V).
Proof.
  intros Hn. rewrite (list_to_map_proper (l1 ++ (k, v) :: l2) ((k, v) :: l1 ++ l2)); [done|done|].
  solve_Permutation.
Qed.

Lemma list_to_map_mid_fresh l1 (k : K) (v : V) l2 :
  NoDup (l1 ++ (k, v) :: l2).*1 -> k ∉ (l1 ++ l2).*1.
Proof.
  rewrite !fmap_app. cbn. rewrite <-Permutation_middle. by intros [? _]%NoDup_cons.
Qed.

(** ** Conversions *)

Lemma map_convert_key_ok ty (l : loc) (k : K) :
  l ≠ NULL -> map_convert_key ty l k = Some (Some k).
Proof. intros Hl. unfold map_convert_key. rewrite !decide_False by done. by destruct ty. Qed.
Lemma map_convert_value_ok ty (l : loc) (v : V) :
  l ≠ NULL -> map_convert_value ty l v = Some (Some v).
Proof. intros Hl. unfold map_convert_value. rewrite !decide_False by done. by destruct ty. Qed.

(** ** Operations *)

Lemma map_new_is a_map a_tree a_nil ty kvfree :
  a_map ≠ NULL -> a_tree ≠ NULL -> a_nil ≠ NULL -> kind_of ty = mk_kind ->
  exists m, map_new a_map a_tree a_nil ty false kvfree = Some m /\ map_is m ∅ /\
    m_type m = ty.
Proof.
  intros Hm Ht Hn Hk. unfold map_new. rewrite decide_False by done.
  destruct (rbtree_new_spec mk_cmp (V := V) a_tree a_nil true) as (t & -> & Hr & _ & Hf & _);
    [done..|].
  exists (MapT ty t). split; [by destruct ty|]. split; [|done]. exists []. by cbn.
Qed.

Lemma map_search_is m g k :
  map_is m g -> map_search (Some m) (Some k) = Some (g !! k).
Proof.
  intros (kvs & Hr & _ & _ & ->). cbn [map_search]. pose proof (rbrep_NoDup _ _ Hr) as Hn.
  destruct ((list_to_map kvs : gmap K V) !! k) as [v|] eqn:Hk.
  - eapply rbtree_search_present; [apply _|done|]. by apply elem_of_list_to_map.
  - eapply rbtree_search_absent; [apply _|done|]. by apply lookup_kvs_None.
Qed.

Lemma map_size_is m g : map_is m g -> map_size (Some m) = Some (size g).
Proof.
  intros (kvs & Hr & _ & _ & ->). cbn [map_size]. rewrite (rbtree_size_spec _ _ _ Hr).
  by rewrite map_size_list_to_map by by eapply rbrep_NoDup.
Qed.

Lemma map_insert_is m g a k v :
  map_is m g -> alloc_ok m a ->
  exists m', map_insert (Some m) a (Some k) (Some v)
    = Some ((gm_insert k v g).1, Some m',
        if (gm_insert k v g).1 then [] else copies m a) /\
    map_is m' (gm_insert k v g).2 /\ m_type m' = m_type m.
Proof.
  intros (kvs & Hr & Hf & Hty & ->) (Hak & Hav & Han & Had). unfold map_insert, map_store_with.
  rewrite map_convert_key_ok, map_convert_value_ok by done. cbn [mbind option_bind].
  unfold gm_insert. destruct ((list_to_map kvs : gmap K V) !! k) as [v'|] eqn:Hk.
  - rewrite (rbtree_insert_present _ _ _ _ _ _ Hr)
      by (apply lookup_kvs_Some; by eexists).
    exists m. destruct m. split; [done|]. split; [|done]. by exists kvs.
  - apply lookup_kvs_None in Hk.
    destruct (rbtree_insert_absent mk_cmp _ _ (a_node a) _ v Hr Hk Han Had)
      as (t' & l1 & l2 & -> & -> & Hr' & _ & Hf' & _).
    exists (MapT (m_type m) t'). cbn. split; [done|]. split; [|done].
    exists (l1 ++ (k, v) :: l2). split_and!; [done|cbn; congruence|done|].
    by rewrite list_to_map_mid by by eapply rbrep_NoDup.
Qed.

Lemma map_replace_is m g a k v :
  map_is m g -> alloc_ok m a ->
  exists m', map_replace (Some m) a (Some k) (Some v) = Some (true, Some m', []) /\
    map_is m' (<[k := v]> g) /\ m_type m' = m_type m.
Proof.
  intros Hm Ha. pose proof Hm as (kvs & Hr & Hf & Hty & ->).
  pose proof Ha as (Hak & Hav & Han & Had).
  pose proof (rbrep_NoDup _ _ Hr) as Hnd.
  destruct ((list_to_map kvs : gmap K V) !! k) as [v'|] eqn:Hk.
  - unfold map_replace, map_store_with.
    rewrite map_convert_key_ok, map_convert_value_ok by done. cbn [mbind option_bind].
    destruct (rbtree_replace_present mk_cmp _ _ (a_node a) k v Hr)
      as (t' & l1 & l2 & old & -> & -> & Hr' & _ & Hf' & _); [apply lookup_kvs_Some; by eexists|].
    exists (MapT (m_type m) t'). cbn. split; [done|]. split; [|done].
    exists (l1 ++ (k, v) :: l2). split_and!; [done|cbn; congruence|done|].
    rewrite (list_to_map_mid l1 k v), (list_to_map_mid l1 k old) by (done || by eapply rbrep_NoDup).
    by rewrite insert_insert_eq.
  - destruct (map_insert_is m (list_to_map kvs) a k v Hm Ha) as (m' & He & Hm' & Ht').
    unfold gm_insert in *. rewrite Hk in *. exists m'. split; [|done].
    cbn in He. rewrite <-He. unfold map_replace, map_insert, map_store_with.
    rewrite map_convert_key_ok, map_convert_value_ok by done. cbn [mbind option_bind].
    by rewrite (rbtree_replace_absent mk_cmp _ _ _ _ _ Hr) by by apply lookup_kvs_None.
Qed.

Lemma map_remove_is m g k :
  map_is m g ->
  exists m', map_remove (Some m) (Some k) = Some ((gm_remove k g).1, Some m') /\
    map_is m' (gm_remove k g).2 /\ m_type m' = m_type m.
Proof.
  intros (kvs & Hr & Hf & Hty & ->). cbn [map_remove]. unfold gm_remove.
  pose proof (rbrep_NoDup _ _ Hr) as Hnd.
  destruct ((list_to_map kvs : gmap K V) !! k) as [v'|] eqn:Hk.
  - destruct (rbtree_remove_present mk_cmp _ _ k Hr)
      as (t' & l1 & l2 & v & -> & -> & Hr' & _ & Hf' & _); [apply lookup_kvs_Some; by eexists|].
    exists (MapT (m_type m) t'). cbn. split; [done|]. split; [|done].
    exists (l1 ++ l2). split_and!; [done|cbn; congruence|done|].
    rewrite list_to_map_mid by done. rewrite delete_insert_id; [done|].
    apply lookup_kvs_None. by eapply list_to_map_mid_fresh.
  - rewrite (rbtree_remove_absent mk_cmp _ _ _ Hr) by by apply lookup_kvs_None.
    exists m. destruct m. split; [done|]. split; [|done]. by exists kvs.
Qed.

Lemma map_itor_loop_iterate fuel m p :
  map_itor_loop fuel m (Some p) = iterate fuel (m_store m) p.
Proof.
  revert p. induction fuel as [|fuel IH]; intros p; [done|]. cbn.
  destruct (rbtree_iterator_valid (m_store m) p); [|done].
  destruct (rbtree_iterator_key _ _) as [[k|]|]; cbn; [|done..].
  destruct (rbtree_iterator_value _ _) as [[v|]|]; cbn; [|done..].
  destruct (rbtree_iterator_next _ _) as [[b q]|]; cbn; [|done]. by rewrite IH.
Qed.

Lemma map_elements_is m g (a : loc) :
  map_is m g -> a ≠ NULL ->
  exists kvs, map_elements m a = Some kvs /\ ksorted mk_cmp kvs /\ g = list_to_map kvs.
Proof.
  intros (kvs & Hr & _ & _ & ->) Ha. exists kvs. split; [|split; [by eapply rbrep_sorted|done]].
  pose proof (rbtree_elements_spec _ _ _ Hr) as He. unfold rbtree_elements in He.
  unfold map_elements, map_itor_new, rbtree_iterator_new. rewrite decide_False by done.
  destruct (rbtree_iterator_first (m_store m)) as [[b p]|]; [|done]. cbn [mbind option_bind fst snd] in *.
  by rewrite map_itor_loop_iterate.
Qed.

(** ** The tree-based map as an instance of the interface

    The allocator of this instance hands out fresh addresses, unless the caller
    of an insertion asks it to fail. *)
Definition fresh_allocs m : allocs :=
  Allocs 1 1 (fresh ({[NULL]} ∪ dom (t_heap (m_store m)))).

Lemma fresh_allocs_ok m : alloc_ok m (fresh_allocs m).
Proof.
  unfold alloc_ok, fresh_allocs. cbn [a_key a_val a_node].
  pose proof (is_fresh ({[NULL]} ∪ dom (t_heap (m_store m)))) as Hf.
  split_and!; [done|done|set_solver..].
Qed.

(** Memory for the copies but not for the node. *)
Definition no_allocs : allocs := Allocs 1 1 NULL.

Lemma map_insert_oom_is m g k v :
  map_is m g -> map_insert (Some m) no_allocs (Some k) (Some v)
    = Some (false, Some m, copies m no_allocs).
Proof.
  intros (kvs & Hr & _ & _ & _). unfold map_insert, map_store_with.
  rewrite map_convert_key_ok, map_convert_value_ok by done. cbn [mbind option_bind].
  rewrite (rbtree_insert_oom _ _ _ _ _ Hr). by destruct m.
Qed.

Definition run_store (m : map_t K V) (r : option (bool * option (map_t K V) * list loc))
    : bool * map_t K V :=
  match r with Some (b, Some m', _) => (b, m') | _ => (false, m) end.
Definition run_remove (m : map_t K V) (r : option (bool * option (map_t K V)))
    : bool * map_t K V :=
  match r with Some (b, Some m') => (b, m') | _ => (false, m) end.

#[export] Instance map_c_MapOps (ty : map_type_t) : MapOps K V (map_t K V) := {|
  mo_new := map_new 1%N 1%N 1%N ty false false;
  mo_search k m := default None (map_search (Some m) (Some k));
  mo_insert ok k v m :=
    run_store m (map_insert (Some m) (if ok : bool then fresh_allocs m else no_allocs)
      (Some k) (Some v));
  mo_replace k v m := run_store m (map_replace (Some m) (fresh_allocs m) (Some k) (Some v));
  mo_remove k m := run_remove m (map_remove (Some m) (Some k));
  mo_size m := default 0 (map_size (Some m));
  mo_elements m := default [] (map_elements m 1%N)
|}.

Definition map_abs m : gmap K V := list_to_map (default [] (map_elements m 1%N)).

Lemma map_abs_is m g : map_is m g -> map_abs m = g.
Proof.
  intros Hm. destruct (map_elements_is m g 1%N Hm) as (kvs & He & _ & ->); [done|].
  unfold map_abs. by rewrite He.
Qed.

#[export] Instance map_c_MapLaws (ty : map_type_t) `{!TCEq (kind_of ty) mk_kind} :
  MapLaws mk_cmp (map_c_MapOps ty).
Proof.
  refine {| mo_wf m := exists g, map_is m g; mo_abs := map_abs |};
    cbn [mo_new mo_search mo_insert mo_replace mo_remove mo_size mo_elements map_c_MapOps].
  - destruct (map_new_is 1%N 1%N 1%N ty false) as (m & Hm & His & _);
      [done..|by apply TCEq_eq|].
    exists m. split_and!; [done|eauto|by apply map_abs_is].
  - intros k m [g Hg]. by rewrite (map_search_is _ _ _ Hg), (map_abs_is _ _ Hg).
  - intros [] k v m [g Hg]; cbn [gm_try_insert].
    2: { rewrite (map_insert_oom_is _ _ _ _ Hg). cbn [run_store fst snd]. eauto. }
    destruct (map_insert_is _ _ _ k v Hg (fresh_allocs_ok m)) as (m' & -> & Hm' & _).
    rewrite (map_abs_is _ _ Hg). cbn [run_store run_remove fst snd].
    rewrite (map_abs_is _ _ Hm').
    split; [eauto|by destruct (gm_insert k v g)].
  - intros k v m [g Hg].
    destruct (map_replace_is _ _ _ k v Hg (fresh_allocs_ok m)) as (m' & -> & Hm' & _).
    rewrite (map_abs_is _ _ Hg). cbn [run_store run_remove fst snd].
    rewrite (map_abs_is _ _ Hm'). eauto.
  - intros k m [g Hg].
    destruct (map_remove_is _ _ k Hg) as (m' & -> & Hm' & _).
    rewrite (map_abs_is _ _ Hg). cbn [run_store run_remove fst snd].
    rewrite (map_abs_is _ _ Hm').
    split; [eauto|by destruct (gm_remove k g)].
  - intros m [g Hg]. by rewrite (map_size_is _ _ Hg), (map_abs_is _ _ Hg).
  - intros m [g Hg]. destruct (map_elements_is m g 1%N Hg) as (kvs & He & Hs & ->); [done|].
    unfold map_abs. by rewrite He.
Defined.
End refine.
