(* ===== verification/MapProps.v ===== *)
(** The properties of the red-black tree and of the map built on it. *)
From S2P Require Import Prelude Heap RbTree RbShape RbRefine RbSearch RbInsert RbErase KeyOrders MapC MapIface MapRefine.

(** ** Sequences of operations

    The calls of map.c on a map, between its creation and its destruction.  Keys
    and values are the values compared and stored; of the copies map.c makes of
    them only the allocation and the release are modelled ([copies]). *)

Inductive map_op (K V : Type) :=
| OpSearch (k : K)
| OpInsert (k : K) (v : V)
| OpReplace (k : K) (v : V)
| OpRemove (k : K)
| OpSize
| OpElements
| OpClear.
Arguments OpSearch {K V} _.
Arguments OpInsert {K V} _ _.
Arguments OpReplace {K V} _ _.
Arguments OpRemove {K V} _.
Arguments OpSize {K V}.
Arguments OpElements {K V}.
Arguments OpClear {K V}.

Inductive map_out (K V : Type) :=
| OutValue (v : option V)
| OutBool (b : bool)
| OutSize (n : nat)
| OutElements (kvs : list (K * V))
| OutDone.
Arguments OutValue {K V} _.
Arguments OutBool {K V} _.
Arguments OutSize {K V} _.
Arguments OutElements {K V} _.
Arguments OutDone {K V}.

(** Which of the allocations of a call succeed: the copy of the key, the copy of
    the value, the tree node or the iterator. *)
Record mem := Mem { has_key : bool; has_val : bool; has_node : bool }.

Definition lacking (c : mem) (a : allocs) : allocs :=
  Allocs (if has_key c then a_key a else NULL) (if has_val c then a_val a else NULL)
    (if has_node c then a_node a else NULL).

(** The copies of strings are made by [util_strdup_s], which ends the process
    when memory is lacking. *)
Definition no_abort (ty : map_type_t) (c : mem) : bool :=
  implb (is_key_str ty) (has_key c) && implb (is_val_str ty) (has_val c).

(** The copies a call needs are made; pointers are not copied. *)
Definition copied (ty : map_type_t) (c : mem) : bool :=
  (is_key_ptr ty || has_key c) && (is_val_ptr ty || has_val c).

Section runs.
Context {K V : Type} `{Countable K} `{!MapKey K}.
Implicit Types (m : map_t K V) (g : gmap K V) (op : map_op K V).

(** One call of map.c, with what the allocator returns during it. *)
Definition map_exec m (a : allocs) op : option (map_out K V * map_t K V) :=
  match op with
  | OpSearch k => v ← map_search (Some m) (Some k); Some (OutValue v, m)
  | OpInsert k v =>
      r ← map_insert (Some m) a (Some k) (Some v); m' ← r.1.2; Some (OutBool r.1.1, m')
  | OpReplace k v =>
      r ← map_replace (Some m) a (Some k) (Some v); m' ← r.1.2; Some (OutBool r.1.1, m')
  | OpRemove k => r ← map_remove (Some m) (Some k); m' ← r.2; Some (OutBool r.1, m')
  | OpSize => n ← map_size (Some m); Some (OutSize n, m)
  | OpElements => kvs ← map_elements m (a_node a); Some (OutElements kvs, m)
  | OpClear => r ← map_clear (Some m); m' ← r; Some (OutDone, m')
  end.

Fixpoint map_run (alloc : map_t K V -> allocs) m (ops : list (mem * map_op K V))
    : option (list (map_out K V) * map_t K V) :=
  match ops with
  | [] => Some ([], m)
  | (c, op) :: ops =>
      om ← map_exec m (lacking c (alloc m)) op;
      r ← map_run alloc om.2 ops;
      Some (om.1 :: r.1, r.2)
  end.

(** The same calls on a finite map.  A call that lacks memory fails and changes
    nothing; replacing the value of a bound key needs no node. *)
Definition gm_exec (ty : map_type_t) (c : mem) g op : map_out K V * gmap K V :=
  match op with
  | OpSearch k => (OutValue (g !! k), g)
  | OpInsert k v =>
      if copied ty c && has_node c then prod_map OutBool id (gm_insert k v g)
      else (OutBool false, g)
  | OpReplace k v =>
      if copied ty c && (has_node c || bool_decide (is_Some (g !! k)))
      then prod_map OutBool id (gm_replace k v g) else (OutBool false, g)
  | OpRemove k => prod_map OutBool id (gm_remove k g)
  | OpSize => (OutSize (size g), g)
  | OpElements => (OutElements (if has_node c then gm_elements mk_cmp g else []), g)
  | OpClear => (OutDone, ∅)
  end.

Fixpoint gm_run ty g (ops : list (mem * map_op K V)) : list (map_out K V) * gmap K V :=
  match ops with
  | [] => ([], g)
  | (c, op) :: ops =>
      let r := gm_run ty (gm_exec ty c g op).2 ops in ((gm_exec ty c g op).1 :: r.1, r.2)
  end.

(** The calls a client may make: no copy of a string lacks memory, and
    [map_clear] is called on an empty map only ([rbtree_clear_dangling_root]). *)
Definition call_fits ty (c : mem) g op : bool :=
  no_abort ty c && match op with OpClear => bool_decide (g = ∅) | _ => true end.

Fixpoint calls_fit ty g (ops : list (mem * map_op K V)) : bool :=
  match ops with
  | [] => true
  | (c, op) :: ops => call_fits ty c g op && calls_fit ty (gm_exec ty c g op).2 ops
  end.

(** Two key-sorted lists with the same bindings are equal. *)
Lemma ksorted_unique (l1 l2 : list (K * V)) :
  ksorted mk_cmp l1 -> ksorted mk_cmp l2 -> l1 ≡ₚ l2 -> l1 = l2.
Proof.
  revert l2. induction l1 as [|x l1 IH]; intros l2 H1 H2 Hp.
  { by apply Permutation_nil_l in Hp. }
  destruct l2 as [|y l2]; [by apply Permutation_nil_r in Hp|].
  apply StronglySorted_cons in H1 as [Hx H1], H2 as [Hy H2]. rewrite Forall_forall in Hx, Hy.
  assert (x = y) as ->.
  { assert (x ∈ y :: l2) as Hxi by (rewrite <-Hp; left).
    assert (y ∈ x :: l1) as Hyi by (rewrite Hp; left).
    apply elem_of_cons in Hxi as [|Hxi]; [done|]. apply elem_of_cons in Hyi as [|Hyi]; [done|].
    destruct (lt_kv_irrefl mk_cmp x). etrans; [by apply Hx|by apply Hy]. }
  f_equal. apply IH; [done..|]. by apply Permutation_cons_inv in Hp.
Qed.

(** ** Calls that lack memory *)

Lemma convert_cases m (a : allocs) (c : mem) (k : K) (v : V) :
  alloc_ok m a -> no_abort (m_type m) c = true ->
  (copied (m_type m) c = true /\
   map_convert_key (m_type m) (a_key (lacking c a)) k = Some (Some k) /\
   map_convert_value (m_type m) (a_val (lacking c a)) v = Some (Some v)) \/
  (copied (m_type m) c = false /\
   (map_convert_key (m_type m) (a_key (lacking c a)) k = Some None \/
    map_convert_key (m_type m) (a_key (lacking c a)) k = Some (Some k) /\
    map_convert_value (m_type m) (a_val (lacking c a)) v = Some None)).
Proof.
  intros (Hk & Hv & _) Hc. unfold no_abort, copied, lacking, map_convert_key, map_convert_value in *.
  cbn [a_key a_val]. destruct c as [[] [] n]; cbn [has_key has_val] in *;
    rewrite ?(decide_False (P := a_key a = NULL)), ?(decide_False (P := a_val a = NULL)) by done;
    destruct (m_type m); vm_compute in Hc; try discriminate Hc; vm_compute; tauto.
Qed.

Lemma map_store_uncopied so m (a : allocs) (c : mem) k v :
  alloc_ok m a -> no_abort (m_type m) c = true -> copied (m_type m) c = false ->
  exists l, map_store_with so (Some m) (lacking c a) (Some k) (Some v) = Some (false, Some m, l).
Proof.
  intros Ha Hn Hc. unfold map_store_with.
  destruct (convert_cases m a c k v Ha Hn) as [(? & _)|(_ & [->|[-> ->]])]; [congruence|..];
    cbn [mbind option_bind]; eauto.
Qed.

Lemma map_store_copied so m (a : allocs) (c : mem) k v :
  alloc_ok m a -> no_abort (m_type m) c = true -> copied (m_type m) c = true ->
  exists l, map_store_with so (Some m) (lacking c a) (Some k) (Some v)
    = (rt ← so (m_store m) (a_node (lacking c a)) (Some k) (Some v);
       Some (rt.1, Some (MapT (m_type m) rt.2), if rt.1 : bool then [] else l)).
Proof.
  intros Ha Hn Hc. unfold map_store_with.
  destruct (convert_cases m a c k v Ha Hn) as [(_ & -> & ->)|[? _]]; [|congruence].
  cbn [mbind option_bind]. eauto.
Qed.

Lemma map_exec_insert m g (a : allocs) (c : mem) k v :
  map_is m g -> alloc_ok m a -> no_abort (m_type m) c = true ->
  exists m', map_exec m (lacking c a) (OpInsert k v)
      = Some ((gm_exec (m_type m) c g (OpInsert k v)).1, m') /\
    map_is m' (gm_exec (m_type m) c g (OpInsert k v)).2 /\ m_type m' = m_type m.
Proof.
  intros Hm Ha Hn. unfold map_exec, gm_exec. destruct (copied (m_type m) c) eqn:Hc; cbn [andb].
  2: { destruct (map_store_uncopied (rbtree_insert mk_cmp) m a c k v Ha Hn Hc) as [l Hl].
       unfold map_insert. rewrite Hl. by exists m. }
  destruct (map_store_copied (rbtree_insert mk_cmp) m a c k v Ha Hn Hc) as [l Hl].
  unfold map_insert. rewrite Hl. clear Hl. cbn [lacking a_node]. destruct (has_node c) eqn:Hnd.
  - destruct (map_insert_is _ _ _ k v Hm Ha) as (m' & Hi & Hm' & Ht).
    unfold map_insert, map_store_with in Hi.
    rewrite map_convert_key_ok, map_convert_value_ok in Hi by apply Ha. cbn [mbind option_bind] in *.
    destruct (rbtree_insert _ _ _ _ _) as [[b t]|]; [|discriminate Hi].
    cbn [mbind option_bind fst snd] in *. injection Hi as -> <- _. by exists (MapT (m_type m) t).
  - destruct Hm as (kvs & Hr & Hrest). rewrite (rbtree_insert_oom _ _ _ _ _ Hr).
    cbn [mbind option_bind fst snd]. exists (MapT (m_type m) (m_store m)). split; [done|].
    split; [|done]. by exists kvs.
Qed.

Lemma map_exec_replace m g (a : allocs) (c : mem) k v :
  map_is m g -> alloc_ok m a -> no_abort (m_type m) c = true ->
  exists m', map_exec m (lacking c a) (OpReplace k v)
      = Some ((gm_exec (m_type m) c g (OpReplace k v)).1, m') /\
    map_is m' (gm_exec (m_type m) c g (OpReplace k v)).2 /\ m_type m' = m_type m.
Proof.
  intros Hm Ha Hn. unfold map_exec, gm_exec. destruct (copied (m_type m) c) eqn:Hc; cbn [andb].
  2: { destruct (map_store_uncopied (rbtree_replace mk_cmp) m a c k v Ha Hn Hc) as [l Hl].
       unfold map_replace. rewrite Hl. by exists m. }
  destruct (map_store_copied (rbtree_replace mk_cmp) m a c k v Ha Hn Hc) as [l Hl].
  unfold map_replace. rewrite Hl. clear Hl. cbn [lacking a_node].
  destruct (g !! k) as [v0|] eqn:Hk.
  - rewrite (bool_decide_eq_true_2 (is_Some (Some v0))), orb_true_r by eauto.
    destruct Hm as (kvs & Hr & Hf & Hty & ->).
    destruct (rbtree_replace_present mk_cmp _ _ (if has_node c then a_node a else NULL) k v Hr)
      as (t' & l1 & l2 & old & Hrp & -> & Hr' & _ & Hf' & _); [apply lookup_kvs_Some; by eexists|].
    rewrite Hrp. exists (MapT (m_type m) t'). split; [done|]. split; [|done].
    exists (l1 ++ (k, v) :: l2). split_and!; [done|cbn; congruence|done|]. unfold gm_replace. cbn.
    rewrite (list_to_map_mid l1 k v), (list_to_map_mid l1 k old) by (by eapply rbrep_NoDup).
    by rewrite insert_insert_eq.
  - rewrite (bool_decide_eq_false_2 (is_Some None)), orb_false_r by (intros [? ?]; done).
    destruct (map_exec_insert m g a c k v Hm Ha Hn) as (m' & Hi & Hm' & Ht).
    unfold map_exec, gm_exec in Hi, Hm'. rewrite Hc in Hi, Hm'. cbn [andb] in Hi, Hm'.
    destruct Hm as (kvs & Hr & Hf & Hty & ->).
    rewrite (rbtree_replace_absent mk_cmp _ _ _ _ _ Hr) by by apply lookup_kvs_None.
    unfold map_insert in Hi.
    destruct (map_store_copied (rbtree_insert mk_cmp) m a c k v Ha Hn Hc) as [l' Hl].
    rewrite Hl in Hi. cbn [lacking a_node] in Hi. exists m'. unfold gm_insert in Hi, Hm'.
    rewrite Hk in Hi, Hm'. split; [|split; [|done]].
    + destruct (rbtree_insert _ _ _ _ _) as [[b t]|]; [|discriminate Hi].
      cbn [mbind option_bind fst snd] in *. by destruct (has_node c).
    + by destruct (has_node c).
Qed.

Lemma map_clear_empty m g : map_is m g -> g = ∅ -> map_clear (Some m) = Some (Some m).
Proof.
  intros (kvs & Hr & _ & _ & ->) He. apply map_to_list_empty_iff in He.
  assert (kvs = []) as ->.
  { destruct kvs as [|kv kvs]; [done|]. pose proof (rbrep_NoDup _ _ Hr) as Hn.
    apply (map_to_list_to_map (M := gmap K)) in Hn. rewrite He in Hn.
    by apply Permutation_nil_l in Hn. }
  destruct Hr as (np & s & Hz & _ & Hi & _). unfold map_clear, rbtree_clear, fuel_of.
  cbn [rbtree_destroy_all]. rewrite (st_root _ _ _ _ _ Hz). cbn [plug].
  destruct s as [|cl l x k v r]; [|cbn in Hi; by apply app_eq_nil in Hi as [_ ?]].
  rewrite decide_True by done. cbn [mbind option_bind]. by destruct m.
Qed.

Lemma map_exec_refines m g (a : allocs) (c : mem) op :
  map_is m g -> alloc_ok m a -> call_fits (m_type m) c g op = true ->
  exists m', map_exec m (lacking c a) op = Some ((gm_exec (m_type m) c g op).1, m') /\
    map_is m' (gm_exec (m_type m) c g op).2 /\ m_type m' = m_type m.
Proof.
  intros Hm Ha [Hn Hc]%andb_true_iff. destruct op as [k|k v|k v|k| | |].
  - unfold map_exec, gm_exec. rewrite (map_search_is _ _ _ Hm). by exists m.
  - by apply map_exec_insert.
  - by apply map_exec_replace.
  - unfold map_exec, gm_exec. destruct (map_remove_is _ _ k Hm) as (m' & -> & Hm' & ?). by exists m'.
  - unfold map_exec, gm_exec. rewrite (map_size_is _ _ Hm). by exists m.
  - unfold map_exec, gm_exec. exists m. cbn [lacking a_node fst snd]. destruct (has_node c).
    + destruct (map_elements_is m g (a_node a) Hm) as (kvs & -> & Hs & He); [apply Ha|].
      split; [|done]. cbn. do 3 f_equal.
      apply ksorted_unique; [done|apply gm_elements_sorted; apply _|].
      rewrite gm_elements_perm, He. symmetry. apply map_to_list_to_map.
      by eapply ksorted_NoDup; [apply _|].
    + split; [|done]. unfold map_elements, map_itor_new, rbtree_iterator_new.
      by rewrite decide_True.
  - apply bool_decide_eq_true in Hc as ->. unfold map_exec, gm_exec.
    rewrite (map_clear_empty _ _ Hm) by done. by exists m.
Qed.

Lemma map_run_refines alloc m g ops :
  (forall m, alloc_ok m (alloc m)) -> map_is m g -> calls_fit (m_type m) g ops = true ->
  exists m', map_run alloc m ops = Some ((gm_run (m_type m) g ops).1, m') /\
    map_is m' (gm_run (m_type m) g ops).2.
Proof.
  intros Ha. revert m g. induction ops as [|[c op] ops IH]; intros m g Hm Hf; [by exists m|].
  apply andb_true_iff in Hf as [Hf1 Hf2].
  destruct (map_exec_refines m g (alloc m) c op Hm (Ha m) Hf1) as (m1 & H1 & Hm1 & Ht).
  rewrite <-Ht in Hf2, Hm1. destruct (IH m1 _ Hm1 Hf2) as (m2 & H2 & Hm2). rewrite Ht in H2, Hm2.
  exists m2. split; [|done].
  cbn [map_run gm_run]. rewrite H1. cbn [mbind option_bind fst snd]. by rewrite H2.
Qed.

Lemma map_free_is m g : map_is m g ->
  exists log, map_free (Some m) = Some (∅, t_freed (m_store m) ++ log) /\
    log ≡ₚ prod_map Some Some <$> map_to_list g.
Proof.
  intros (kvs & Hr & Hf & _ & ->). destruct (rbtree_free_spec mk_cmp _ _ Hr) as (log & Hl & Hp).
  rewrite Hf in Hp. exists log. split; [done|]. rewrite Hp. apply fmap_Permutation. symmetry.
  apply map_to_list_to_map. by eapply rbrep_NoDup.
Qed.

End runs.

(** C2: the calls of map.c (search, insert, replace, remove, size, a whole
    iteration, clear) on a new map, of any of the three key types and with the
    default comparator, return what the same calls return on a finite map, and
    the map still represents that finite map: no call dereferences a dangling or
    NULL pointer and every loop ends.  An allocation of a call may fail
    ([mem]), the call then fails and changes nothing; memory that is handed out
    is fresh ([alloc_ok]).  The hypothesis [calls_fit] is on the client: copies
    of strings have memory, for otherwise [util_strdup_s] ends the process, and
    [map_clear] is called on an empty map only, for on another one it leaves the
    root dangling ([rbtree_clear_dangling_root]).  [map_free] at the end of the
    session releases every node and hands every binding still in the map to the
    freer once. *)
Theorem map_implements_finite_map {K V : Type} `{Countable K} `{!MapKey K}
    (alloc : map_t K V -> allocs) (ty : map_type_t) (ops : list (mem * map_op K V)) :
  (forall m, alloc_ok m (alloc m)) -> kind_of ty = mk_kind -> calls_fit ty ∅ ops = true ->
  exists m m' log, map_new 1%N 2%N 3%N ty false false = Some m /\
    map_run alloc m ops = Some ((gm_run ty ∅ ops).1, m') /\ map_is m' (gm_run ty ∅ ops).2 /\
    map_free (Some m') = Some (∅, t_freed (m_store m') ++ log) /\
    log ≡ₚ prod_map Some Some <$> map_to_list (gm_run ty ∅ ops).2.
Proof.
  intros Ha Hty Hf. destruct (map_new_is (K := K) (V := V) 1%N 2%N 3%N ty false)
    as (m & Hm & His & Ht); [done..|]. subst ty.
  destruct (map_run_refines alloc m ∅ ops Ha His Hf) as (m' & Hr & His').
  destruct (map_free_is m' _ His') as (log & Hl & Hp). by exists m, m', log.
Qed.

Definition demo_ops : list (mem * map_op Z string) :=
  let ok := Mem true true true in
  [(ok, OpClear); (ok, OpInsert 5%Z "e"); (ok, OpInsert 2%Z "b"); (ok, OpInsert 8%Z "h");
   (ok, OpInsert 2%Z "x"); (Mem true true false, OpInsert 9%Z "i");
   (Mem true true false, OpReplace 8%Z "H"); (Mem false true true, OpReplace 5%Z "E");
   (ok, OpRemove 5%Z); (ok, OpRemove 7%Z); (ok, OpElements); (ok, OpSize); (ok, OpSearch 8%Z)]%string.

Lemma map_implements_finite_map_witness :
  (exists m m' log, map_new 1%N 2%N 3%N MAP_INT_STR false false = Some m /\
     map_run fresh_allocs m demo_ops = Some ((gm_run MAP_INT_STR ∅ demo_ops).1, m') /\
     map_is m' (gm_run MAP_INT_STR ∅ demo_ops).2 /\
     map_free (Some m') = Some (∅, t_freed (m_store m') ++ log) /\
     log ≡ₚ [(Some 2%Z, Some "b"); (Some 8%Z, Some "H")]%string) /\
  (gm_run MAP_INT_STR ∅ demo_ops).1 =
    [OutDone; OutBool true; OutBool true; OutBool true; OutBool false; OutBool false;
     OutBool true; OutBool false; OutBool true; OutBool false;
     OutElements [(2%Z, "b"); (8%Z, "H")]; OutSize 2; OutValue (Some "H")]%string.
Proof.
  split; [|vm_compute; reflexivity].
  destruct (map_implements_finite_map fresh_allocs MAP_INT_STR demo_ops)
    as (m & m' & log & Hm & Hr & His & Hf & Hl); [intros m; apply fresh_allocs_ok|done|done|].
  exists m, m', log. split_and!; [done..|]. rewrite Hl. vm_compute. constructor.
Defined.

(** ** A concrete tree *)

Definition demo_tree : rb_tree Z string :=
  let ins t k v :=
    match rbtree_insert rbtree_int_cmp t (fresh ({[NULL]} ∪ dom (t_heap t))) (Some k) (Some v) with
    | Some (_, t') => t' | None => t end in
  ins (ins (ins (ins (RbTree 1%N true 1%N {[1%N := RbNode None None BLACK NULL NULL NULL]} [])
    5%Z "e") 2%Z "b") 8%Z "h") 9%Z "i".
Definition demo_kvs : list (Z * string) := [(2%Z, "b"); (5%Z, "e"); (8%Z, "h"); (9%Z, "i")]%string.

(** The shape of [demo_tree]. *)
Definition demo_shape : tree Z string :=
  T BLACK (T BLACK E 3%N 2%Z "b"%string E) 2%N 5%Z "e"%string
    (T BLACK E 4%N 8%Z "h"%string (T RED E 5%N 9%Z "i"%string E)).

Lemma demo_tree_rep : rbrep rbtree_int_cmp demo_tree demo_kvs.
Proof.
  exists NULL, demo_shape. split_and!.
  - unfold zst, st, heap_is. split_and!;
      first [vm_compute; reflexivity | apply (bool_decide_eq_true_1 _); vm_compute; reflexivity].
  - split; [done|]. exists 2. repeat constructor.
  - done.
  - unfold ksorted. repeat constructor.
Qed.

Section rb_properties.
Context {K V : Type} (cmp : K -> K -> Z) `{!KeyOrder cmp}.
Implicit Types (t : rb_tree K V) (kvs : list (K * V)).

(** C25: removing a key keeps the red-black search tree: a bound key is removed
    together with its node, its binding is handed to [kvfreer] exactly once, and
    everything else stays; for an unbound key the tree is unchanged and the
    result is false. *)
Theorem rbtree_remove_correct t kvs key :
  rbrep cmp t kvs ->
  (key ∉ kvs.*1 /\ rbtree_remove cmp t (Some key) = Some (false, t)) \/
  (exists t' l1 l2 v, kvs = l1 ++ (key, v) :: l2 /\
     rbtree_remove cmp t (Some key) = Some (true, t') /\ rbrep cmp t' (l1 ++ l2) /\
     t_freed t' = t_freed t ++ (if t_kvfreer t then [(Some key, Some v)] else [])).
Proof.
  intros Hr. destruct (rbtree_find_cases cmp _ _ key Hr)
    as [[Hn _]|(np & z & c & l & p & v & r & _ & _ & Hi & _)].
  - left. split; [done|]. by eapply rbtree_remove_absent.
  - right. destruct (rbtree_remove_present cmp t kvs key Hr)
      as (t' & l1 & l2 & v' & Hrem & Hk & Hr' & _ & _ & Hf).
    { subst kvs. eapply elem_of_keys, (position_T cmp). }
    exists t', l1, l2, v'. done.
Qed.

Lemma search_fuel_mono fuel fuel' t node key p :
  rbtree_recursive_search cmp fuel t node key = Some p -> fuel <= fuel' ->
  rbtree_recursive_search cmp fuel' t node key = Some p.
Proof.
  revert fuel' node. induction fuel as [|fuel IH]; intros [|fuel'] node Hs Hf; [done|done|lia|].
  cbn in *. destruct (decide (node = t_nil t)); [done|].
  destruct (cmp_node cmp t key node) as [c|]; cbn in *; [|done].
  destruct (c =? 0)%Z; [done|].
  destruct (c <? 0)%Z; [destruct (get_left t node)|destruct (get_right t node)]; cbn in *;
    try done; apply IH; (done || lia).
Qed.

(** A search in a tree of [n] bindings visits at most [2 * log2 (n + 1)]
    nodes before it stops, and that many recursive calls give the result of
    [rbtree_find]. *)
Theorem rbtree_search_depth t kvs key :
  rbrep cmp t kvs ->
  exists p, rbtree_recursive_search cmp (2 * Nat.log2 (S (length kvs)) + 1) t (t_root t) key
      = Some p /\ rbtree_find cmp t (Some key) = Some p.
Proof.
  intros (np & s & Hz & Hrb & <- & Hs). pose proof (rb_root_height _ Hrb) as Hh.
  rewrite (st_root _ _ _ _ _ Hz). cbn [plug].
  destruct (search_spec cmp (2 * Nat.log2 (S (length (inorder s))) + 1) t (mt t []) np [] s key)
    as (p & Hp & _); [done|done|apply around_nil; apply _|lia|].
  exists p. split; [exact Hp|].
  destruct (rbtree_find_spec cmp t np s key Hz Hs) as (q & Hq & _). rewrite Hq.
  unfold rbtree_find in Hq. rewrite (st_root _ _ _ _ _ Hz) in Hq. cbn [plug] in Hq.
  cbn [m_nil mt] in *.
  eapply search_fuel_mono in Hp; [|apply (Nat.le_max_l _ (fuel_of t))].
  eapply search_fuel_mono in Hq; [|apply Nat.le_max_r]. by rewrite Hp in Hq.
Qed.
(** [rbtree_free] releases every node and the sentinel and hands every binding
    to [kvfreer] exactly once. *)
Theorem rbtree_free_releases_all t kvs :
  rbrep cmp t kvs -> exists log, rbtree_free t = Some (∅, t_freed t ++ log) /\
    log ≡ₚ (if t_kvfreer t then prod_map Some Some <$> kvs else []).
Proof. apply rbtree_free_spec. Qed.

(** After [rbtree_clear] of a non-empty tree, any search reads freed memory:
    the root pointer is left dangling. *)
Theorem rbtree_clear_dangling_root t kvs key :
  rbrep cmp t kvs -> kvs ≠ [] ->
  exists t', rbtree_clear t = Some t' /\ rbtree_search cmp t' (Some key) = None.
Proof.
  intros Hr Hne. pose proof Hr as (np0 & s & Hz & _ & Hi & _).
  destruct (rbtree_clear_spec cmp _ _ Hr) as (t' & log & Hc & (np & Hh) & Hroot & Hnil & _).
  exists t'. split; [done|].
  assert (t_root t ≠ t_nil t) as Hrn.
  { rewrite (st_root _ _ _ _ _ Hz). cbn [plug]. destruct s as [|c l a k v r]; [by subst|].
    by eapply (ptr_T_ne_nil _ _ []). }
  unfold rbtree_search, rbtree_find, fuel_of. cbn [rbtree_recursive_search].
  rewrite Hroot, Hnil, decide_False by done. unfold cmp_node, rd.
  by rewrite Hh, lookup_singleton_ne by done.
Qed.

End rb_properties.

Lemma rbtree_remove_correct_witness :
  let t := demo_tree in
  ((5%Z ∉ demo_kvs.*1 /\ rbtree_remove rbtree_int_cmp t (Some 5%Z) = Some (false, t)) \/
   (exists t' l1 l2 v, demo_kvs = l1 ++ (5%Z, v) :: l2 /\
     rbtree_remove rbtree_int_cmp t (Some 5%Z) = Some (true, t') /\
     rbrep rbtree_int_cmp t' (l1 ++ l2) /\
     t_freed t' = t_freed t ++ (if t_kvfreer t then [(Some 5%Z, Some v)] else []))) /\
  (fst <$> rbtree_remove rbtree_int_cmp t (Some 5%Z)) = Some true.
Proof.
  split; [|vm_compute; reflexivity].
  apply (rbtree_remove_correct rbtree_int_cmp demo_tree demo_kvs 5%Z), demo_tree_rep.
Defined.

Lemma rbtree_search_depth_witness :
  exists p, rbtree_recursive_search rbtree_int_cmp 5 demo_tree (t_root demo_tree) 9%Z = Some p /\
    rbtree_find rbtree_int_cmp demo_tree (Some 9%Z) = Some p.
Proof.
  apply (rbtree_search_depth rbtree_int_cmp demo_tree demo_kvs 9%Z), demo_tree_rep.
Defined.

Lemma rbtree_free_releases_all_witness :
  exists log, rbtree_free demo_tree = Some (∅, t_freed demo_tree ++ log) /\
    log ≡ₚ prod_map Some Some <$> demo_kvs.
Proof. apply (rbtree_free_releases_all rbtree_int_cmp demo_tree demo_kvs), demo_tree_rep. Defined.

Lemma rbtree_clear_dangling_root_witness :
  exists t', rbtree_clear demo_tree = Some t' /\
    rbtree_search rbtree_int_cmp t' (Some 5%Z) = None.
Proof.
  apply (rbtree_clear_dangling_root rbtree_int_cmp demo_tree demo_kvs 5%Z);
    [apply demo_tree_rep|discriminate].
Defined.

Section map_properties.
Context {K V : Type} `{Countable K} `{!MapKey K}.
Implicit Types (m : map_t K V) (g : gmap K V).

(** A failed allocation during [map_insert] of an unbound key leaves the map
    as it was, the result is false, and every copy made before the failure is
    freed. *)
Theorem map_insert_out_of_memory m g (a : allocs) k v :
  map_is m g ->
  (a_key a ≠ NULL -> a_val a ≠ NULL -> a_node a = NULL ->
   map_insert (Some m) a (Some k) (Some v) = Some (false, Some m, copies m a)) /\
  (is_key_int (m_type m) = true -> a_key a = NULL ->
   map_insert (Some m) a (Some k) (Some v) = Some (false, Some m, [])) /\
  (is_val_bool (m_type m) || is_val_int (m_type m) = true -> a_key a ≠ NULL -> a_val a = NULL ->
   map_insert (Some m) a (Some k) (Some v)
   = Some (false, Some m, if is_key_ptr (m_type m) then [] else [a_key a])).
Proof.
  intros (kvs & Hr & _ & _ & _). unfold map_insert, map_store_with. split_and!.
  - intros Hk Hv ->. rewrite map_convert_key_ok, map_convert_value_ok by done.
    cbn [mbind option_bind]. rewrite (rbtree_insert_oom _ _ _ _ _ Hr). by destruct m.
  - intros Hi ->. unfold map_convert_key. rewrite decide_True, Hi by done.
    by destruct (m_type m).
  - intros Hb Hk ->. rewrite map_convert_key_ok by done. cbn [mbind option_bind].
    unfold map_convert_value. rewrite decide_True, Hb by done. by destruct (m_type m).
Qed.

(** [map_new] returns NULL whenever it is given a comparator of the caller's:
    the branch meant to accept it reports an invalid comparator instead. *)
Theorem map_new_rejects_custom_comparator (a_map a_tree a_nil : loc) (ty : map_type_t) kvfree :
  map_new (K := K) (V := V) a_map a_tree a_nil ty true kvfree = None.
Proof. unfold map_new. case_decide; [done|]. by rewrite !andb_false_r. Qed.
End map_properties.

Definition demo_map : map_t Z string := MapT MAP_INT_STR demo_tree.

Lemma demo_map_is : map_is demo_map (list_to_map demo_kvs).
Proof. exists demo_kvs. split_and!; [apply demo_tree_rep|reflexivity..]. Qed.

Lemma map_insert_out_of_memory_witness :
  map_insert (Some demo_map) (Allocs 10 11 NULL) (Some 7%Z) (Some "g"%string)
  = Some (false, Some demo_map, [10%N; 11%N]).
Proof.
  apply (map_insert_out_of_memory demo_map (list_to_map demo_kvs) (Allocs 10 11 NULL) 7%Z "g"%string);
    [apply demo_map_is|discriminate|discriminate|reflexivity].
Defined.

(** [rbtree_str_cmp] is a strict total order on C strings, for signed and
    unsigned [char] alike: it is zero on equal strings only, swapping the
    arguments flips its sign, and it is transitive. *)
Theorem rbtree_str_cmp_total_order (cval : Ascii.ascii -> Z) (s1 s2 s3 : string) :
  CharValue cval -> no_nul s1 = true -> no_nul s2 = true -> no_nul s3 = true ->
  (rbtree_str_cmp cval s1 s2 = 0%Z <-> s1 = s2) /\
  ((rbtree_str_cmp cval s1 s2 < 0)%Z <-> (0 < rbtree_str_cmp cval s2 s1)%Z) /\
  ((rbtree_str_cmp cval s1 s2 < 0)%Z -> (rbtree_str_cmp cval s2 s3 < 0)%Z ->
   (rbtree_str_cmp cval s1 s3 < 0)%Z).
Proof.
  intros Hc H1 H2 H3. split_and!;
    [by apply str_cmp_zero|by apply str_cmp_flip|by apply str_cmp_trans].
Qed.

Lemma rbtree_str_cmp_total_order_witness :
  (rbtree_str_cmp schar_value "ab" "b" < 0)%Z /\ (rbtree_str_cmp schar_value "b" "ba" < 0)%Z /\
  (rbtree_str_cmp schar_value "ab" "ba" < 0)%Z.
Proof.
  split_and!; [reflexivity|reflexivity|].
  apply (rbtree_str_cmp_total_order schar_value "ab" "b" "ba" _); reflexivity.
Defined.
