(* ===== verification/ContainerState.v ===== *)
(** The state of a container: src/src/daemon/modules/container/container_state.c.

    Every function of the file takes the state mutex around its body, so one
    call is one atomic step on the record below.  Where the C code takes a
    [container_state_t *] that may be NULL, the model takes an [option]; [now] is
    the text [util_get_now_time_buffer] writes. *)
From S2P Require Import Prelude.

(** ** Data *)

(** [Container_Status] (src/src/common/constants.h) *)
Inductive Container_Status :=
| CONTAINER_STATUS_UNKNOWN
| CONTAINER_STATUS_CREATED
| CONTAINER_STATUS_STARTING
| CONTAINER_STATUS_RUNNING
| CONTAINER_STATUS_STOPPED
| CONTAINER_STATUS_PAUSED
| CONTAINER_STATUS_RESTARTING.

#[export] Instance Container_Status_eq_dec : EqDecision Container_Status.
Proof. solve_decision. Defined.

Definition defaultContainerTime : string := "0001-01-01T00:00:00Z".

(** [pid_ppid_info_t] *)
Record pid_ppid_info_t := PidInfo {
  pi_pid : Z; pi_ppid : Z; pi_start_time : Z; pi_pstart_time : Z
}.

(** [defs_health_log_element] and [defs_health] of the generated headers, as far
    as the file uses them; NULL strings are [None]. *)
Record defs_health_log_element := HealthLog {
  hl_start : option string; hl_end : option string; hl_exit_code : Z; hl_output : option string
}.
Record defs_health := Health {
  h_status : option string; h_failing_streak : Z; h_log : list defs_health_log_element
}.

(** [container_state], the fields the file reads or writes. *)
Record container_state := CState {
  pid : Z;
  oom_killed : bool;
  dead : bool;
  paused : bool;
  running : bool;
  restarting : bool;
  removal_inprogress : bool;
  starting : bool;
  exit_code : Z;
  started_at : option string;
  finished_at : option string;
  error : option string;
  health : option defs_health;
  restart_count : Z;
  start_time : Z;
  p_pid : Z;
  p_start_time : Z;
  has_been_manually_stopped : bool
}.

(** What [calloc] gives. *)
Definition zero_state : container_state :=
  CState 0 false false false false false false false 0 None None None None 0 0 0 0 false.

(** Assignments to one field. *)
Definition put_process (p st pp pst : Z) s :=
  CState p (oom_killed s) (dead s) (paused s) (running s) (restarting s) (removal_inprogress s)
    (starting s) (exit_code s) (started_at s) (finished_at s) (error s) (health s)
    (restart_count s) st pp pst (has_been_manually_stopped s).
Definition put_dead b s :=
  CState (pid s) (oom_killed s) b (paused s) (running s) (restarting s) (removal_inprogress s)
    (starting s) (exit_code s) (started_at s) (finished_at s) (error s) (health s)
    (restart_count s) (start_time s) (p_pid s) (p_start_time s) (has_been_manually_stopped s).
Definition put_paused b s :=
  CState (pid s) (oom_killed s) (dead s) b (running s) (restarting s) (removal_inprogress s)
    (starting s) (exit_code s) (started_at s) (finished_at s) (error s) (health s)
    (restart_count s) (start_time s) (p_pid s) (p_start_time s) (has_been_manually_stopped s).
Definition put_running b s :=
  CState (pid s) (oom_killed s) (dead s) (paused s) b (restarting s) (removal_inprogress s)
    (starting s) (exit_code s) (started_at s) (finished_at s) (error s) (health s)
    (restart_count s) (start_time s) (p_pid s) (p_start_time s) (has_been_manually_stopped s).
Definition put_restarting b s :=
  CState (pid s) (oom_killed s) (dead s) (paused s) (running s) b (removal_inprogress s)
    (starting s) (exit_code s) (started_at s) (finished_at s) (error s) (health s)
    (restart_count s) (start_time s) (p_pid s) (p_start_time s) (has_been_manually_stopped s).
Definition put_removal b s :=
  CState (pid s) (oom_killed s) (dead s) (paused s) (running s) (restarting s) b
    (starting s) (exit_code s) (started_at s) (finished_at s) (error s) (health s)
    (restart_count s) (start_time s) (p_pid s) (p_start_time s) (has_been_manually_stopped s).
Definition put_starting b s :=
  CState (pid s) (oom_killed s) (dead s) (paused s) (running s) (restarting s)
    (removal_inprogress s) b (exit_code s) (started_at s) (finished_at s) (error s) (health s)
    (restart_count s) (start_time s) (p_pid s) (p_start_time s) (has_been_manually_stopped s).
Definition put_exit_code c s :=
  CState (pid s) (oom_killed s) (dead s) (paused s) (running s) (restarting s)
    (removal_inprogress s) (starting s) c (started_at s) (finished_at s) (error s) (health s)
    (restart_count s) (start_time s) (p_pid s) (p_start_time s) (has_been_manually_stopped s).
Definition put_started_at x s :=
  CState (pid s) (oom_killed s) (dead s) (paused s) (running s) (restarting s)
    (removal_inprogress s) (starting s) (exit_code s) x (finished_at s) (error s) (health s)
    (restart_count s) (start_time s) (p_pid s) (p_start_time s) (has_been_manually_stopped s).
Definition put_finished_at x s :=
  CState (pid s) (oom_killed s) (dead s) (paused s) (running s) (restarting s)
    (removal_inprogress s) (starting s) (exit_code s) (started_at s) x (error s) (health s)
    (restart_count s) (start_time s) (p_pid s) (p_start_time s) (has_been_manually_stopped s).
Definition put_error x s :=
  CState (pid s) (oom_killed s) (dead s) (paused s) (running s) (restarting s)
    (removal_inprogress s) (starting s) (exit_code s) (started_at s) (finished_at s) x (health s)
    (restart_count s) (start_time s) (p_pid s) (p_start_time s) (has_been_manually_stopped s).
Definition put_restart_count n s :=
  CState (pid s) (oom_killed s) (dead s) (paused s) (running s) (restarting s)
    (removal_inprogress s) (starting s) (exit_code s) (started_at s) (finished_at s) (error s)
    (health s) n (start_time s) (p_pid s) (p_start_time s) (has_been_manually_stopped s).
Definition put_manually_stopped b s :=
  CState (pid s) (oom_killed s) (dead s) (paused s) (running s) (restarting s)
    (removal_inprogress s) (starting s) (exit_code s) (started_at s) (finished_at s) (error s)
    (health s) (restart_count s) (start_time s) (p_pid s) (p_start_time s) b.

(** ** Operations *)

(** [if (s == NULL) return;] around an update. *)
Definition guarded (f : container_state -> container_state) (s : option container_state)
    : option container_state := f <$> s.
(** [if (s == NULL) return dflt;] around a read. *)
Definition read {A} (dflt : A) (f : container_state -> A) (s : option container_state) : A :=
  match s with None => dflt | Some s => f s end.

(** [container_state_new]; the three flags are the outcomes of the two
    allocations and of [pthread_mutex_init]. *)
Definition container_state_new (alloc_s mutex_ok alloc_state : bool) : option container_state :=
  if negb alloc_s then None
  else if negb mutex_ok then None
  else if negb alloc_state then None
  else Some (put_finished_at (Some defaultContainerTime)
              (put_started_at (Some defaultContainerTime) zero_state)).

Definition container_state_set_starting := guarded (put_starting true).
Definition container_state_set_dead := guarded (put_dead true).
Definition container_state_reset_starting := guarded (put_starting false).

Definition container_state_set_running (now : string) (pid_info : option pid_ppid_info_t)
    (initial : bool) :=
  guarded (fun s =>
    let s := put_error None s in
    let s := put_running true s in
    let s := put_starting false s in
    let s := put_restarting false s in
    let s := if initial then put_paused false s else s in
    let s := put_exit_code 0 s in
    let s :=
      match pid_info with
      | Some i => put_process (pi_pid i) (pi_start_time i) (pi_ppid i) (pi_pstart_time i) s
      | None => put_process 0 0 0 0 s
      end in
    put_started_at (Some now) s).

Definition container_state_set_stopped (now : string) (code : Z) :=
  guarded (fun s =>
    let s := put_running false s in
    let s := put_starting false s in
    let s := put_restarting false s in
    let s := put_paused false s in
    let s := put_exit_code code s in
    let s := put_process 0 0 0 0 s in
    put_finished_at (Some now) s).

Definition container_state_set_paused := guarded (put_paused true).
Definition container_state_reset_paused := guarded (put_paused false).

Definition container_restart_update_start_and_finish_time (now : string)
    (finish_at : option string) :=
  guarded (fun s =>
    let s := put_running true s in
    let s := put_starting false s in
    let s := put_restarting false s in
    let s := put_paused false s in
    let s := put_exit_code 0 s in
    let s := put_finished_at finish_at s in
    put_started_at (Some now) s).

Definition container_state_set_restarting (now : string) (code : Z) :=
  guarded (fun s =>
    let s := put_running true s in
    let s := put_starting false s in
    let s := put_restarting true s in
    let s := put_paused false s in
    let s := put_process 0 0 0 0 s in
    let s := put_exit_code code s in
    put_finished_at (Some now) s).

(** [restart_count] is an [int]. *)
Definition container_state_increase_restart_count :=
  guarded (fun s => put_restart_count (wrap_s 32 (restart_count s + 1)) s).
Definition container_state_reset_restart_count := guarded (put_restart_count 0).
Definition container_state_get_restart_count := read 0%Z restart_count.

(** The result, and the new state. *)
Definition container_state_set_removal_in_progress (s : option container_state)
    : bool * option container_state :=
  match s with
  | None => (false, None)
  | Some s =>
      if removal_inprogress s then (true, Some s) else (false, Some (put_removal true s))
  end.
Definition container_state_reset_removal_in_progress := guarded (put_removal false).

(** The C function does not test [s] for NULL. *)
Definition container_state_set_error (err : option string) (s : container_state)
    : container_state :=
  match err with Some e => put_error (Some e) s | None => s end.

Definition container_state_judge_status (state : option container_state) : Container_Status :=
  match state with
  | None => CONTAINER_STATUS_UNKNOWN
  | Some s =>
      if running s then
        if paused s then CONTAINER_STATUS_PAUSED
        else if restarting s then CONTAINER_STATUS_RESTARTING
        else CONTAINER_STATUS_RUNNING
      else if starting s then CONTAINER_STATUS_STARTING
      else
        match started_at s, finished_at s with
        | Some sa, Some fa =>
            if String.eqb sa defaultContainerTime && String.eqb fa defaultContainerTime
            then CONTAINER_STATUS_CREATED
            else CONTAINER_STATUS_STOPPED
        | _, _ => CONTAINER_STATUS_UNKNOWN
        end
  end.

Definition container_state_to_string (cs : Container_Status) : string :=
  match cs with
  | CONTAINER_STATUS_UNKNOWN => "unknown"
  | CONTAINER_STATUS_CREATED => "inited"
  | CONTAINER_STATUS_STARTING => "starting"
  | CONTAINER_STATUS_RUNNING => "running"
  | CONTAINER_STATUS_STOPPED => "exited"
  | CONTAINER_STATUS_PAUSED => "paused"
  | CONTAINER_STATUS_RESTARTING => "restarting"
  end.

Definition container_state_get_status (s : option container_state) : Container_Status :=
  container_state_judge_status s.

(** ** Copies *)

(** The loop that copies the log: [alloc i] is the outcome of the allocation of
    element [i]. *)
Fixpoint dup_health_log (alloc : nat -> bool) (i : nat) (src : list defs_health_log_element)
    : option (list defs_health_log_element) :=
  match src with
  | [] => Some []
  | e :: src =>
      if alloc i then
        rest ← dup_health_log alloc (S i) src;
        Some (HealthLog (hl_start e) (hl_end e) (hl_exit_code e) (hl_output e) :: rest)
      else None
  end.

Definition SIZE_MAX : Z := 2 ^ 64 - 1.

(** [container_dup_health_check_status]: [None] is the result -1 (nothing is
    stored in [*dst]), [Some None] leaves [*dst] alone. *)
Definition container_dup_health_check_status (alloc_result alloc_log : bool)
    (alloc_elem : nat -> bool) (src : option defs_health) : option (option defs_health) :=
  match src with
  | None => Some None
  | Some src =>
      if negb alloc_result then None
      else
        match h_log src with
        | [] => Some (Some (Health (h_status src) (h_failing_streak src) []))
        | log =>
            if (Z.of_nat (length log) >? SIZE_MAX / 8)%Z then None
            else if negb alloc_log then None
            else
              log' ← dup_health_log alloc_elem 0 log;
              Some (Some (Health (h_status src) (h_failing_streak src) log'))
        end
  end.

(** The outcomes of the allocations of one copy. *)
Record dup_allocs := DupAllocs {
  da_state : bool; da_health : bool; da_log : bool; da_elem : nat -> bool
}.
Definition dup_allocs_ok : dup_allocs := DupAllocs true true true (fun _ => true).

Definition container_dup_state (a : dup_allocs) (s : option container_state)
    : option container_state :=
  match s with
  | None => None
  | Some s =>
      if negb (da_state a) then None
      else
        match container_dup_health_check_status (da_health a) (da_log a) (da_elem a) (health s) with
        | None => None
        | Some h =>
            Some (CState (pid s) (oom_killed s) (dead s) (paused s) (running s) (restarting s)
              (removal_inprogress s) (starting s) (exit_code s)
              (Some (default defaultContainerTime (started_at s)))
              (Some (default defaultContainerTime (finished_at s)))
              (error s) h (restart_count s) 0 0 0 false)
        end
  end.

(** [container_inspect_state] of the generated headers. *)
Record container_inspect_state := InspectState {
  is_status : string;
  is_running : bool;
  is_paused : bool;
  is_restarting : bool;
  is_pid : Z;
  is_exit_code : Z;
  is_started_at : string;
  is_finished_at : string;
  is_error : option string;
  is_health : option defs_health
}.

Definition container_state_to_inspect_state (a : dup_allocs) (s : option container_state)
    : option container_inspect_state :=
  match s with
  | None => None
  | Some s =>
      if negb (da_state a) then None
      else
        match container_dup_health_check_status (da_health a) (da_log a) (da_elem a) (health s) with
        | None => None
        | Some h =>
            Some (InspectState
              (container_state_to_string (container_state_judge_status (Some s)))
              (running s) (paused s) (restarting s) (pid s) (exit_code s)
              (default defaultContainerTime (started_at s))
              (default defaultContainerTime (finished_at s)) (error s) h)
        end
  end.

(** ** Reads *)

(** The result is a [uint32_t]. *)
Definition container_state_get_exitcode := read 0%Z (fun s => wrap_u 32 (exit_code s)).
Definition container_is_running := read false running.
Definition container_is_restarting := read false restarting.
Definition container_is_paused := read false paused.
Definition container_is_removal_in_progress := read false removal_inprogress.
Definition container_is_dead := read false dead.
Definition container_state_get_pid := read 0%Z pid.
Definition container_state_get_started_at := read None started_at.

Definition is_state_string_paused (state : string) : bool := String.eqb state "paused".
Definition is_state_string_restarting (state : string) : bool := String.eqb state "restarting".
Definition is_state_string_running (state : string) : bool := String.eqb state "running".
Definition is_state_string_dead (state : string) : bool := String.eqb state "dead".
Definition is_state_string_created (state : string) : bool := String.eqb state "created".
Definition is_state_string_exited (state : string) : bool := String.eqb state "exited".

Definition container_is_valid_state_string (state : option string) : bool :=
  match state with
  | None => false
  | Some st =>
      negb (negb (is_state_string_paused st) && negb (is_state_string_restarting st)
        && negb (is_state_string_running st) && negb (is_state_string_dead st)
        && negb (is_state_string_created st) && negb (is_state_string_exited st))
  end.

Definition container_state_get_has_been_manual_stopped := read false has_been_manually_stopped.
Definition container_state_set_has_been_manual_stopped := guarded (put_manually_stopped true).
Definition container_state_reset_has_been_manual_stopped := guarded (put_manually_stopped false).
