(* ===== verification/ContainerStateProps.v ===== *)
(** The life cycle of a container as a state machine over the operations of
    [ContainerState]: invariants, status transitions, the removal flag, copies. *)
From S2P Require Import Prelude ContainerState.

(** ** The machine *)

(** One call of a function that changes the state. *)
Inductive cs_op :=
| SetStarting | ResetStarting | SetDead
| SetRunning (now : string) (pid_info : option pid_ppid_info_t) (initial : bool)
| SetStopped (now : string) (code : Z)
| SetPaused | ResetPaused
| RestartUpdate (now : string) (finish_at : option string)
| SetRestarting (now : string) (code : Z)
| IncRestartCount | ResetRestartCount
| SetRemoval | ResetRemoval
| SetError (err : option string)
| SetManualStop | ResetManualStop.

Definition cs_call (o : cs_op) (s : option container_state) : option container_state :=
  match o with
  | SetStarting => container_state_set_starting s
  | ResetStarting => container_state_reset_starting s
  | SetDead => container_state_set_dead s
  | SetRunning now i b => container_state_set_running now i b s
  | SetStopped now c => container_state_set_stopped now c s
  | SetPaused => container_state_set_paused s
  | ResetPaused => container_state_reset_paused s
  | RestartUpdate now f => container_restart_update_start_and_finish_time now f s
  | SetRestarting now c => container_state_set_restarting now c s
  | IncRestartCount => container_state_increase_restart_count s
  | ResetRestartCount => container_state_reset_restart_count s
  | SetRemoval => (container_state_set_removal_in_progress s).2
  | ResetRemoval => container_state_reset_removal_in_progress s
  | SetError e => container_state_set_error e <$> s
  | SetManualStop => container_state_set_has_been_manual_stopped s
  | ResetManualStop => container_state_reset_has_been_manual_stopped s
  end.

(** The clock never shows the placeholder date, and [finish_at] is a date. *)
Definition op_ok (o : cs_op) : Prop :=
  match o with
  | SetRunning now _ _ | SetStopped now _ | SetRestarting now _ => now ≠ defaultContainerTime
  | RestartUpdate now f => now ≠ defaultContainerTime /\ f ≠ None
  | _ => True
  end.

#[export] Instance op_ok_dec o : Decision (op_ok o).
Proof. destruct o; cbn; apply _. Defined.

(** States reached from a new container. *)
Inductive reachable : list cs_op -> container_state -> Prop :=
| reach_new s : container_state_new true true true = Some s -> reachable [] s
| reach_step ops s o s' :
    reachable ops s -> op_ok o -> cs_call o (Some s) = Some s' -> reachable (ops ++ [o]) s'.

(** ** Invariant *)

Record cs_inv (s : container_state) : Prop := {
  inv_restarting : restarting s = true -> running s = true /\ pid s = 0%Z;
  inv_pid : pid s ≠ 0%Z -> running s = true;
  inv_exit : running s = true -> restarting s = false -> exit_code s = 0%Z;
  inv_times : started_at s ≠ None /\ finished_at s ≠ None
}.

Lemma cs_call_total o s : exists s', cs_call o (Some s) = Some s'.
Proof. destruct o; cbn; try (by eexists). destruct (removal_inprogress s); by eexists. Qed.

Lemma new_inv s : container_state_new true true true = Some s -> cs_inv s.
Proof. intros [= <-]. by split. Qed.

Ltac cs_cases :=
  match goal with H : cs_call ?o (Some ?s) = Some _ |- _ =>
    destruct o as [| | |now [i|] []|now c| | |now f|now c| | | | |[e|]| |];
    cbn in H; try destruct (removal_inprogress s) eqn:?; injection H as <-; cbn in *
  end.

Lemma cs_call_inv o s s' : op_ok o -> cs_inv s -> cs_call o (Some s) = Some s' -> cs_inv s'.
Proof.
  intros Hok [H1 H2 H3 H4] Hc. cs_cases;
    (split; cbn; [intros ?|intros ?|intros ? ?|]); try done; auto; try tauto.
  all: destruct H4; split; (done || apply Hok).
Qed.

Lemma reachable_inv ops s : reachable ops s -> cs_inv s.
Proof. induction 1; eauto using new_inv, cs_call_inv. Qed.

(** C8: in every state a container can reach, [restarting] implies [running] with
    no process, a process implies [running], a container that runs and is not
    about to restart has exit code 0, and both time stamps are set. *)
Theorem container_state_invariant ops s :
  reachable ops s ->
  (restarting s = true -> running s = true /\ pid s = 0%Z) /\
  (pid s ≠ 0%Z -> running s = true) /\
  (running s = true -> restarting s = false -> exit_code s = 0%Z) /\
  container_state_get_status (Some s) ≠ CONTAINER_STATUS_UNKNOWN.
Proof.
  intros [H1 H2 H3 [H4 H5]]%reachable_inv. split_and!; [done..|].
  unfold container_state_get_status, container_state_judge_status.
  destruct (running s); [destruct (paused s), (restarting s); done|].
  destruct (starting s); [done|]. destruct (started_at s), (finished_at s); try done.
  by destruct (_ && _).
Qed.

(** ** Status *)

(** The operations that mark a container as having run. *)
Definition lifecycle (o : cs_op) : bool :=
  match o with
  | SetRunning _ _ _ | SetStopped _ _ | RestartUpdate _ _ | SetRestarting _ _ => true
  | _ => false
  end.

(** A container has run when one of its time stamps is not the placeholder. *)
Definition has_run (s : container_state) : bool :=
  negb (bool_decide (started_at s = Some defaultContainerTime)
        && bool_decide (finished_at s = Some defaultContainerTime)).

Lemma has_run_call o s s' :
  op_ok o -> cs_call o (Some s) = Some s' -> has_run s' = lifecycle o || has_run s.
Proof.
  intros Hok Hc. unfold has_run. cs_cases; try done;
    rewrite (bool_decide_eq_false_2 (Some now = _)) by (intros [= ->]; naive_solver);
    by rewrite ?andb_false_r.
Qed.

Lemma has_run_reachable ops s : reachable ops s -> has_run s = existsb lifecycle ops.
Proof.
  induction 1 as [s Hs|ops s o s' _ IH Hok Hc].
  - by injection Hs as <-.
  - rewrite existsb_app. cbn. rewrite orb_false_r, (has_run_call _ _ _ Hok Hc), IH.
    apply orb_comm.
Qed.

Lemma judge_status_cases s :
  started_at s ≠ None -> finished_at s ≠ None ->
  container_state_get_status (Some s) =
    if running s then
      (if paused s then CONTAINER_STATUS_PAUSED
       else if restarting s then CONTAINER_STATUS_RESTARTING else CONTAINER_STATUS_RUNNING)
    else if starting s then CONTAINER_STATUS_STARTING
    else if has_run s then CONTAINER_STATUS_STOPPED else CONTAINER_STATUS_CREATED.
Proof.
  intros H1 H2. unfold container_state_get_status, container_state_judge_status, has_run.
  destruct (running s), (starting s); try done.
  destruct (started_at s) as [sa|], (finished_at s) as [fa|]; try done.
  destruct (String.eqb_spec sa defaultContainerTime), (String.eqb_spec fa defaultContainerTime);
    subst; cbn; repeat (rewrite ?bool_decide_eq_true_2, ?bool_decide_eq_false_2 by naive_solver);
    done.
Qed.

(** A container that is neither running nor starting shows as created exactly
    when no operation of its history marked it running, restarting or stopped,
    and as stopped otherwise. *)
Theorem status_created_iff_never_ran ops s :
  reachable ops s -> running s = false -> starting s = false ->
  (container_state_get_status (Some s) = CONTAINER_STATUS_CREATED <-> existsb lifecycle ops = false) /\
  (container_state_get_status (Some s) = CONTAINER_STATUS_STOPPED <-> existsb lifecycle ops = true).
Proof.
  intros Hr Hrun Hst. pose proof (reachable_inv _ _ Hr) as [_ _ _ [H1 H2]].
  rewrite judge_status_cases, Hrun, Hst, (has_run_reachable _ _ Hr) by done.
  by destruct (existsb lifecycle ops).
Qed.

(** The status after each operation of the life cycle, from any reachable
    state. *)
Theorem lifecycle_status ops s now pi initial code finish_at :
  reachable ops s -> now ≠ defaultContainerTime ->
  container_state_get_status (container_state_set_running now pi initial (Some s)) =
    (if paused s && negb initial then CONTAINER_STATUS_PAUSED else CONTAINER_STATUS_RUNNING) /\
  container_state_get_status (container_state_set_stopped now code (Some s)) =
    CONTAINER_STATUS_STOPPED /\
  container_state_get_status (container_state_set_restarting now code (Some s)) =
    CONTAINER_STATUS_RESTARTING /\
  container_state_get_status (container_restart_update_start_and_finish_time now finish_at (Some s)) =
    CONTAINER_STATUS_RUNNING /\
  (container_state_get_status (Some s) = CONTAINER_STATUS_RUNNING ->
   container_state_get_status (container_state_set_paused (Some s)) = CONTAINER_STATUS_PAUSED) /\
  (container_state_get_status (Some s) = CONTAINER_STATUS_PAUSED -> restarting s = false ->
   container_state_get_status (container_state_reset_paused (Some s)) = CONTAINER_STATUS_RUNNING).
Proof.
  intros Hr Hnow. pose proof (reachable_inv _ _ Hr) as [_ _ _ [H1 H2]]. split_and!.
  - destruct pi, initial, (paused s) eqn:Hp; cbn; by rewrite ?Hp.
  - cbn. destruct (started_at s); [|done]. rewrite (proj2 (String.eqb_neq now _)) by done.
    by rewrite andb_false_r.
  - done.
  - done.
  - rewrite judge_status_cases by done. cbn.
    destruct (running s); [done|]. destruct (starting s); [done|]. by destruct (has_run s).
  - rewrite judge_status_cases by done. intros Hs Hre. cbn. rewrite Hre.
    destruct (running s); [done|]. destruct (starting s); [done|]. by destruct (has_run s).
Qed.

(** ** The removal flag *)

(** The operations of all threads in the order they take the mutex, with the
    results of [container_state_set_removal_in_progress]. *)
Fixpoint removal_results (s : option container_state) (ops : list cs_op) : list bool :=
  match ops with
  | [] => []
  | SetRemoval :: ops =>
      (container_state_set_removal_in_progress s).1 ::
        removal_results (cs_call SetRemoval s) ops
  | o :: ops => removal_results (cs_call o s) ops
  end.

Lemma removal_flag_kept o s s' :
  cs_call o (Some s) = Some s' -> o ≠ ResetRemoval ->
  removal_inprogress s' = match o with SetRemoval => true | _ => removal_inprogress s end.
Proof. intros Hc Hne. cs_cases; done. Qed.

(** Once set, the flag turns every later caller away until it is reset. *)
Lemma removal_held s ops :
  removal_inprogress s = true -> ResetRemoval ∉ ops ->
  Forall (fun b => b = true) (removal_results (Some s) ops).
Proof.
  revert s. induction ops as [|o ops IH]; intros s Hs Hn; [constructor|].
  apply not_elem_of_cons in Hn as [Ho Hn].
  destruct (cs_call_total o s) as [s' Hs'].
  assert (Forall (fun b => b = true) (removal_results (Some s') ops)) as Hrest.
  { apply IH; [|done]. rewrite (removal_flag_kept o s s' Hs') by done. by destruct o. }
  destruct o; cbn [removal_results]; rewrite Hs'; try done.
  constructor; [|done]. cbn. by rewrite Hs.
Qed.

(** Among any interleaving of callers that nobody resets, exactly the first
    [container_state_set_removal_in_progress] is granted (false); all later ones
    are told that a removal is in progress (true). *)
Theorem removal_granted_once s ops :
  removal_inprogress s = false -> ResetRemoval ∉ ops -> SetRemoval ∈ ops ->
  exists rest, removal_results (Some s) ops = false :: rest /\ Forall (fun b => b = true) rest.
Proof.
  revert s. induction ops as [|o ops IH]; intros s Hs Hn Hin; [by apply not_elem_of_nil in Hin|].
  apply not_elem_of_cons in Hn as [Ho Hn].
  destruct (cs_call_total o s) as [s' Hs'].
  pose proof (removal_flag_kept o s s' Hs' (not_eq_sym Ho)) as Hflag.
  apply elem_of_cons in Hin as [<-|Hin].
  - cbn [removal_results]. rewrite Hs'. eexists. split.
    + cbn. rewrite Hs. reflexivity.
    + by apply removal_held.
  - destruct o; cbn [removal_results]; rewrite Hs'; try (apply IH; by rewrite ?Hflag).
    eexists. split; [cbn; rewrite Hs; reflexivity|]. by apply removal_held.
Qed.

(** ** Copies *)

Lemma dup_health_log_id i log : dup_health_log (fun _ => true) i log = Some log.
Proof. revert i. induction log as [|[] log IH]; intros i; [done|]. cbn. by rewrite IH. Qed.

Lemma dup_health_id h :
  match h with Some h => (Z.of_nat (length (h_log h)) <= SIZE_MAX / 8)%Z | None => True end ->
  container_dup_health_check_status true true (fun _ => true) h = Some h.
Proof.
  destruct h as [[st fs [|e log]]|]; [done| |done]. intros Hl. unfold container_dup_health_check_status.
  cbn [h_log negb] in *. destruct (Z.gtb_spec (Z.of_nat (length (e :: log))) (SIZE_MAX / 8)); [lia|].
  by rewrite dup_health_log_id.
Qed.

(** A copy made by [container_dup_state] shows the same status, flags, exit
    code, counters and a deep copy of the health record, but not the process
    identity beyond the pid nor the manual-stop mark, which are cleared. *)
Theorem dup_state_snapshot ops s :
  reachable ops s ->
  match health s with Some h => (Z.of_nat (length (h_log h)) <= SIZE_MAX / 8)%Z | None => True end ->
  container_dup_state dup_allocs_ok (Some s)
    = Some (put_manually_stopped false (put_process (pid s) 0 0 0 s)) /\
  container_state_get_status (container_dup_state dup_allocs_ok (Some s))
    = container_state_get_status (Some s).
Proof.
  intros [_ _ _ [H1 H2]]%reachable_inv Hl. unfold container_dup_state. cbn [da_state negb].
  rewrite dup_health_id by done.
  destruct (started_at s) eqn:Hs; [|done]. destruct (finished_at s) eqn:Hf; [|done].
  unfold put_manually_stopped, put_process. cbn. by rewrite Hs, Hf.
Qed.

(** Of the statuses a container can show, a "status" filter accepts exactly
    those of running, stopped, paused and restarting containers; "created" and
    "dead" are accepted although no container shows them. *)
Theorem filterable_statuses (cs : Container_Status) :
  (container_is_valid_state_string (Some (container_state_to_string cs)) = true <->
   cs = CONTAINER_STATUS_RUNNING \/ cs = CONTAINER_STATUS_STOPPED \/
   cs = CONTAINER_STATUS_PAUSED \/ cs = CONTAINER_STATUS_RESTARTING) /\
  container_is_valid_state_string (Some "created") = true /\
  container_is_valid_state_string (Some "dead") = true /\
  container_state_to_string cs ≠ "created" /\ container_state_to_string cs ≠ "dead".
Proof. destruct cs; vm_compute; naive_solver. Qed.

(** ** Witnesses *)

Definition demo_now : string := "2021-09-01T10:00:00Z".
Definition demo_pid : pid_ppid_info_t := PidInfo 42 1 7 3.
Definition demo_cs_ops : list cs_op :=
  [SetStarting; SetRunning demo_now (Some demo_pid) true; SetRestarting demo_now 137].
Definition demo_cs : container_state :=
  default zero_state (foldl (fun s o => cs_call o s) (container_state_new true true true) demo_cs_ops).
Definition demo_fresh : container_state :=
  default zero_state (container_state_new true true true).

Lemma demo_fresh_reachable : reachable [] demo_fresh.
Proof. constructor. reflexivity. Qed.

Lemma reachable_run ops s :
  Forall op_ok ops ->
  foldl (fun s o => cs_call o s) (container_state_new true true true) ops = Some s ->
  reachable ops s.
Proof.
  revert s. induction ops as [|o ops IH] using rev_ind; intros s Hok Hs; [by constructor|].
  rewrite foldl_app in Hs. cbn in Hs. apply Forall_app in Hok as [Hok [Ho _]%Forall_cons].
  destruct (foldl _ _ ops) as [s1|] eqn:H1; [|by destruct o].
  by eapply reach_step; [apply IH| |].
Qed.

Lemma demo_reachable : reachable demo_cs_ops demo_cs.
Proof.
  apply reachable_run; [|vm_compute; reflexivity].
  apply (bool_decide_eq_true_1 _). vm_compute. reflexivity.
Qed.

Lemma container_state_invariant_witness :
  restarting demo_cs = true /\ running demo_cs = true /\ pid demo_cs = 0%Z.
Proof.
  split; [reflexivity|]. apply (container_state_invariant demo_cs_ops demo_cs demo_reachable).
  reflexivity.
Defined.

Lemma status_created_iff_never_ran_witness :
  container_state_get_status (Some demo_fresh) = CONTAINER_STATUS_CREATED.
Proof.
  apply (status_created_iff_never_ran [] demo_fresh demo_fresh_reachable); reflexivity.
Defined.

Lemma lifecycle_status_witness :
  container_state_get_status (container_state_set_stopped demo_now 0 (Some demo_cs))
  = CONTAINER_STATUS_STOPPED.
Proof.
  apply (lifecycle_status demo_cs_ops demo_cs demo_now None true 0 None demo_reachable).
  discriminate.
Defined.

Lemma removal_granted_once_witness :
  exists rest, removal_results (Some demo_cs) [SetDead; SetRemoval; SetPaused; SetRemoval; SetRemoval]
    = false :: rest /\ Forall (fun b => b = true) rest.
Proof.
  apply (removal_granted_once demo_cs [SetDead; SetRemoval; SetPaused; SetRemoval; SetRemoval]).
  - reflexivity.
  - intros H. repeat (apply elem_of_cons in H as [H|H]; [discriminate|]).
    by apply not_elem_of_nil in H.
  - right. left.
Defined.

Lemma dup_state_snapshot_witness :
  container_state_get_status (container_dup_state dup_allocs_ok (Some demo_cs))
  = CONTAINER_STATUS_RESTARTING.
Proof. apply (dup_state_snapshot demo_cs_ops demo_cs demo_reachable). exact I. Defined.
