(* ===== verification/RestartManager.v ===== *)
(** The restart manager of a container:
    src/src/daemon/modules/container/restart_manager/restartmanager.c and the
    functions of container_unix.c that own it.

    A manager is reference counted; [rm_live] turns false when its memory is
    freed.  Every function that touches a freed manager yields [None].  Functions
    that take [rm->mutex] are one atomic step. *)
From S2P Require Import Prelude ContainerState.

Open Scope Z_scope.

Definition Time_Milli : Z := 1000 * 1000.
Definition Time_Second : Z := 1000 * Time_Milli.
Definition Time_Minute : Z := 60 * Time_Second.
Definition backoffMultipulier : Z := 2.
Definition defaultTimeout : Z := 100 * Time_Milli.
Definition maxRestartTimeout : Z := Time_Minute.

(** [host_config_restart_policy] of the generated headers. *)
Record host_config_restart_policy := Policy {
  pol_name : option string;
  maximum_retry_count : Z
}.
Definition empty_policy : host_config_restart_policy := Policy None 0.

(** [restart_manager_t] (src/src/daemon/modules/api/container_api.h) *)
Record restart_manager_t := RM {
  init_mutex : bool;
  init_wait_cancel_con : bool;
  refcnt : Z;
  policy : option host_config_restart_policy;
  failure_count : Z;
  timeout : Z;
  canceled : bool;
  rm_live : bool
}.

Definition put_refcnt n rm :=
  RM (init_mutex rm) (init_wait_cancel_con rm) n (policy rm) (failure_count rm) (timeout rm)
    (canceled rm) (rm_live rm).
Definition put_policy p rm :=
  RM (init_mutex rm) (init_wait_cancel_con rm) (refcnt rm) p (failure_count rm) (timeout rm)
    (canceled rm) (rm_live rm).
Definition put_failure_count n rm :=
  RM (init_mutex rm) (init_wait_cancel_con rm) (refcnt rm) (policy rm) n (timeout rm)
    (canceled rm) (rm_live rm).
Definition put_timeout n rm :=
  RM (init_mutex rm) (init_wait_cancel_con rm) (refcnt rm) (policy rm) (failure_count rm) n
    (canceled rm) (rm_live rm).
Definition put_canceled b rm :=
  RM (init_mutex rm) (init_wait_cancel_con rm) (refcnt rm) (policy rm) (failure_count rm)
    (timeout rm) b (rm_live rm).
Definition put_freed rm :=
  RM false false (refcnt rm) None (failure_count rm) (timeout rm) (canceled rm) false.

(** Access to the memory of a manager. *)
Definition deref {A} (rm : restart_manager_t) (k : option A) : option A :=
  if rm_live rm then k else None.

(** ** util_atomic.h *)

Definition atomic_int_inc (n : Z) : Z := wrap_u 64 (n + 1).
(** The new value and whether it is zero. *)
Definition atomic_int_dec_test (n : Z) : Z * bool :=
  let n' := wrap_u 64 (n - 1) in (n', n' =? 0).

(** ** Life of a manager *)

Definition restart_manager_refinc (rm : restart_manager_t) : option restart_manager_t :=
  deref rm (Some (put_refcnt (atomic_int_inc (refcnt rm)) rm)).

Definition restart_manager_free (rm : restart_manager_t) : option restart_manager_t :=
  deref rm (Some (put_freed rm)).

Definition restart_manager_unref (rm : restart_manager_t) : option restart_manager_t :=
  deref rm
    (let '(n, is_zero) := atomic_int_dec_test (refcnt rm) in
     let rm := put_refcnt n rm in
     if negb is_zero then Some rm else restart_manager_free rm).

(** The outcomes of the allocations and initialisations of [restart_manager_new]. *)
Record rm_env := RmEnv { re_alloc : bool; re_mutex : bool; re_cond : bool; re_policy : bool }.
Definition rm_env_ok : rm_env := RmEnv true true true true.

(** [restart_manager_new]; [None] is NULL. *)
Definition restart_manager_new (e : rm_env) (p : option host_config_restart_policy)
    (failures : Z) : option restart_manager_t :=
  if negb (re_alloc e) then None
  else if negb (re_mutex e) then None
  else if negb (re_cond e) then None
  else if negb (re_policy e) then None
  else
    let rm_policy :=
      match p with
      | Some p => Policy (pol_name p) (maximum_retry_count p)
      | None => empty_policy
      end in
    Some (RM true true 1 (Some rm_policy) failures 0 false true).

(** The result, and the manager afterwards. *)
Definition restart_manager_set_policy (alloc : bool) (rm : restart_manager_t)
    (p : option host_config_restart_policy) : option (Z * restart_manager_t) :=
  match p with
  | None => Some (-1, rm)
  | Some p =>
      if negb alloc then Some (-1, rm)
      else
        deref rm (Some (0, put_policy (Some (Policy (pol_name p) (maximum_retry_count p))) rm))
  end.

Definition restart_manager_cancel (rm : restart_manager_t) : option (Z * restart_manager_t) :=
  deref rm (Some (0, put_canceled true rm)).

(** ** Waiting *)

(** [restart_manager_wait_cancel_cond_wait]: [clock] is what [clock_gettime]
    gives, [wait] is [pthread_cond_timedwait] with the given deadline. *)
Definition cond_wait_deadline (ts : Z * Z) (tmo : Z) : Z * Z :=
  let sec := tmo / Time_Second in
  let nsec := tmo - sec * Time_Second in
  let nsec := nsec + ts.2 in
  (ts.1 + (sec + nsec / Time_Second), nsec mod Time_Second).

Definition restart_manager_wait_cancel_cond_wait (clock : option (Z * Z))
    (wait : Z * Z -> Z) (tmo : Z) : Z :=
  match clock with
  | None => -1
  | Some ts => wait (cond_wait_deadline ts tmo)
  end.

Definition restart_manager_wait_cancel (clock : option (Z * Z)) (wait : Z * Z -> Z)
    (rm : option restart_manager_t) (tmo : Z) : option Z :=
  match rm with
  | None => Some (-1)
  | Some rm =>
      deref rm
        (Some (if canceled rm then 0 else restart_manager_wait_cancel_cond_wait clock wait tmo))
  end.

(** ** Decisions *)

(** [failure_count] is an [int], [timeout] an [int64_t]. *)
Definition restart_manager_set_items (rm : restart_manager_t) (code exec_duration : Z)
    : restart_manager_t :=
  let rm :=
    if negb (code =? 0) then put_failure_count (wrap_s 32 (failure_count rm + 1)) rm
    else put_failure_count 0 rm in
  let rm := if exec_duration >=? 10 then put_timeout 0 rm else rm in
  let rm :=
    if timeout rm =? 0 then put_timeout defaultTimeout rm
    else if timeout rm <? maxRestartTimeout
    then put_timeout (wrap_s 64 (timeout rm * backoffMultipulier)) rm
    else rm in
  if timeout rm >? maxRestartTimeout then put_timeout maxRestartTimeout rm else rm.

(** The names are those of the policy of the manager. *)
Definition should_be_restart (rm : restart_manager_t) (name : string) (max_retry : Z)
    (code : Z) (manually_stopped : bool) : bool :=
  if String.eqb name "always" then true
  else if String.eqb name "unless-stopped" && negb manually_stopped then true
  else if String.eqb name "on-failure" then
    if (max_retry =? 0) || (failure_count rm <=? max_retry) then negb (code =? 0) else false
  else if String.eqb name "on-reboot" then code =? 129
  else false.

(** ** The manager of a container *)

(** The fields of [container_t] involved. *)
Record rm_container := RmContainer {
  c_rm : option restart_manager_t;
  c_policy : option host_config_restart_policy;  (* hostconfig->restart_policy *)
  c_state : option container_state
}.
Definition put_rm rm c := RmContainer rm (c_policy c) (c_state c).

(** [get_restart_manager]: whether a manager is returned; it is the one of the
    container, with one more reference. *)
Definition get_restart_manager (e : rm_env) (c : rm_container)
    : option (bool * rm_container) :=
  let rm :=
    match c_rm c with
    | Some rm => Some rm
    | None =>
        restart_manager_new e (c_policy c) (container_state_get_restart_count (c_state c))
    end in
  match rm with
  | None => Some (false, c)
  | Some rm => rm ← restart_manager_refinc rm; Some (true, put_rm (Some rm) c)
  end.

(** Drop the reference obtained by [get_restart_manager]. *)
Definition unref_rm (c : rm_container) : option rm_container :=
  rm ← c_rm c; rm ← restart_manager_unref rm; Some (put_rm (Some rm) c).

(** [container_update_restart_manager] *)
Definition container_update_restart_manager (e : rm_env) (alloc : bool)
    (c : rm_container) (p : option host_config_restart_policy) : option rm_container :=
  match p with
  | None => Some c
  | Some _ =>
      r ← get_restart_manager e c;
      if negb r.1 then Some r.2
      else
        rm ← c_rm r.2;
        zr ← restart_manager_set_policy alloc rm p;
        unref_rm (put_rm (Some zr.2) r.2)
  end.

(** [container_exit_on_next] *)
Definition container_exit_on_next (e : rm_env) (c : rm_container) : option (Z * rm_container) :=
  r ← get_restart_manager e c;
  if negb r.1 then Some (-1, r.2)
  else
    rm ← c_rm r.2;
    zr ← restart_manager_cancel rm;
    c ← unref_rm (put_rm (Some zr.2) r.2);
    Some (zr.1, c).

(** [restart_manager_should_restart] for the container found under the id: the
    result, what is stored in [*timeout], and the container.  The reference to
    the container itself is not modelled. *)
Definition restart_manager_should_restart (e : rm_env) (code : Z) (manually_stopped : bool)
    (exec_duration : Z) (found : option rm_container)
    : option (bool * option Z * option rm_container) :=
  match found with
  | None => Some (false, None, None)
  | Some c =>
      r ← get_restart_manager e c;
      if negb r.1 then Some (false, None, Some r.2)
      else
        rm ← c_rm r.2;
        match policy rm with
        | Some (Policy (Some name) max_retry) =>
            if canceled rm then c ← unref_rm r.2; Some (false, None, Some c)
            else
              let rm := restart_manager_set_items rm code exec_duration in
              let restart := should_be_restart rm name max_retry code manually_stopped in
              c ← unref_rm (put_rm (Some rm) r.2);
              Some (restart, if restart then Some (wrap_u 64 (timeout rm)) else None, Some c)
        | _ => c ← unref_rm r.2; Some (false, None, Some c)
        end
  end.
