(* ===== verification/RestartManagerProps.v ===== *)
(** Properties of the restart manager: exponential back-off, bounded retries,
    cancellation, reference counts and deadlines. *)
From S2P Require Import Prelude ContainerState RestartManager.

Open Scope Z_scope.

(** ** Back-off *)

(** The timeout of the next restart. *)
Definition next_timeout (t duration : Z) : Z :=
  if (t =? 0) || (duration >=? 10) then defaultTimeout
  else if t <? maxRestartTimeout then Z.min (2 * t) maxRestartTimeout
  else Z.min t maxRestartTimeout.

Definition timeout_ok (t : Z) : Prop := 0 <= t <= maxRestartTimeout.

Lemma maxRestartTimeout_val : maxRestartTimeout = 60000000000.
Proof. reflexivity. Qed.
Lemma defaultTimeout_val : defaultTimeout = 100000000.
Proof. reflexivity. Qed.

Lemma set_items_timeout rm code d :
  timeout_ok (timeout rm) ->
  timeout (restart_manager_set_items rm code d) = next_timeout (timeout rm) d.
Proof.
  unfold timeout_ok, restart_manager_set_items, next_timeout, backoffMultipulier.
  rewrite maxRestartTimeout_val, defaultTimeout_val. intros Ht.
  destruct (negb (code =? 0)), (Z.geb_spec d 10) as [Hd|Hd]; cbn; rewrite ?orb_true_r, ?orb_false_r;
    try done; destruct (Z.eqb_spec (timeout rm) 0) as [H0|H0]; cbn; try done;
    destruct (Z.ltb_spec (timeout rm) 60000000000) as [Hm|Hm]; cbn;
    rewrite ?wrap_s_small by lia;
    match goal with |- context [?a >? ?b] => destruct (Z.gtb_spec a b) end; cbn; lia.
Qed.

Lemma next_timeout_ok t d : timeout_ok t -> 0 < next_timeout t d <= maxRestartTimeout.
Proof.
  unfold timeout_ok, next_timeout. rewrite maxRestartTimeout_val, defaultTimeout_val. intros Ht.
  destruct (Z.eqb_spec t 0), (Z.geb_spec d 10), (Z.ltb_spec t 60000000000); cbn; lia.
Qed.

(** A series of exits: exit code and seconds the container ran. *)
Definition rm_exits (rm : restart_manager_t) (exits : list (Z * Z)) : restart_manager_t :=
  foldl (fun rm e => restart_manager_set_items rm e.1 e.2) rm exits.

Lemma rm_exits_timeout rm exits :
  timeout rm = 0 -> Forall (fun e => e.2 < 10) exits -> exits ≠ [] ->
  timeout (rm_exits rm exits) =
    Z.min (defaultTimeout * 2 ^ (Z.of_nat (length exits) - 1)) maxRestartTimeout.
Proof.
  intros H0. induction exits as [|e exits IH] using rev_ind; [done|].
  intros [Hs [He _]%Forall_cons]%Forall_app _. unfold rm_exits. rewrite foldl_app. cbn.
  rewrite length_app. cbn. replace (Z.of_nat (length exits + 1) - 1) with (Z.of_nat (length exits)) by lia.
  destruct (decide (exits = [])) as [->|Hne].
  { cbn. rewrite set_items_timeout by (rewrite H0; split; [lia|done]). rewrite H0. reflexivity. }
  specialize (IH Hs Hne). unfold rm_exits in IH.
  assert (2 ^ Z.of_nat (length exits) = 2 * 2 ^ (Z.of_nat (length exits) - 1)) as Hp.
  { destruct exits as [|x exits]; [done|]. cbn [length].
    rewrite <-Z.pow_succ_r by lia. f_equal. lia. }
  assert (0 < 2 ^ (Z.of_nat (length exits) - 1)) as Hpos.
  { apply Z.pow_pos_nonneg; [lia|]. destruct exits; [done|]. cbn [length]. lia. }
  rewrite set_items_timeout; rewrite IH.
  - unfold next_timeout. rewrite Hp. rewrite maxRestartTimeout_val, defaultTimeout_val.
    destruct (Z.geb_spec e.2 10); [lia|].
    match goal with |- context [?a =? 0] => destruct (Z.eqb_spec a 0) end; [lia|]. cbn [orb].
    match goal with |- context [?a <? 60000000000] => destruct (Z.ltb_spec a 60000000000) end; lia.
  - unfold timeout_ok. rewrite maxRestartTimeout_val, defaultTimeout_val. lia.
Qed.

(** The waiting time before the n-th restart in a row of a container that
    never ran for ten seconds is 100ms * 2^(n-1), capped at one minute. *)
Theorem restart_backoff_doubles rm exits :
  timeout rm = 0 -> Forall (fun e => e.2 < 10) exits -> exits ≠ [] ->
  timeout (rm_exits rm exits) =
    Z.min (defaultTimeout * 2 ^ (Z.of_nat (length exits) - 1)) maxRestartTimeout.
Proof. apply rm_exits_timeout. Qed.

(** Whatever the exits, the waiting time is positive and at most one minute,
    and a run of ten seconds or more puts it back to 100ms. *)
Theorem restart_timeout_bounds rm code d :
  timeout_ok (timeout rm) ->
  0 < timeout (restart_manager_set_items rm code d) <= maxRestartTimeout /\
  (10 <= d -> timeout (restart_manager_set_items rm code d) = defaultTimeout).
Proof.
  intros Ht. rewrite set_items_timeout by done. split; [by apply next_timeout_ok|].
  intros Hd. unfold next_timeout. destruct (Z.geb_spec d 10); [|lia]. by rewrite orb_true_r.
Qed.

(** ** Retries *)

Lemma rm_exits_failures rm exits :
  Forall (fun e => e.1 ≠ 0) exits ->
  0 <= failure_count rm -> failure_count rm + Z.of_nat (length exits) < 2 ^ 31 ->
  failure_count (rm_exits rm exits) = failure_count rm + Z.of_nat (length exits).
Proof.
  intros Hs H0 Hb. unfold rm_exits. induction exits as [|e exits IH] using rev_ind; [cbn; lia|].
  apply Forall_app in Hs as [Hs [He _]%Forall_cons]. rewrite length_app in *. cbn in Hb |- *.
  rewrite foldl_app. cbn.
  assert (forall r c d, failure_count (restart_manager_set_items r c d) =
    if negb (c =? 0) then wrap_s 32 (failure_count r + 1) else 0) as Hf.
  { intros r c d. unfold restart_manager_set_items.
    destruct (negb (c =? 0)), (d >=? 10); cbn; repeat case_match; done. }
  rewrite Hf, IH by (done || lia). destruct (Z.eqb_spec e.1 0); [done|]. cbn.
  rewrite wrap_s_small; lia.
Qed.

(** With policy "on-failure" and a maximum of [n > 0] retries, a container
    whose every exit is a failure is restarted after its first [n] exits and not
    after any later one. *)
Theorem on_failure_bounded_retries rm exits code d n stopped :
  failure_count rm = 0 -> Forall (fun e => e.1 ≠ 0) exits -> code ≠ 0 -> 0 < n ->
  Z.of_nat (length exits) + 1 < 2 ^ 31 ->
  should_be_restart (rm_exits rm (exits ++ [(code, d)])) "on-failure" n code stopped = true <->
  Z.of_nat (length exits) + 1 <= n.
Proof.
  intros H0 Hs Hc Hn Hb. unfold should_be_restart.
  replace (String.eqb "on-failure" "always") with false by done.
  replace (String.eqb "on-failure" "unless-stopped") with false by done.
  replace (String.eqb "on-failure" "on-failure") with true by done. cbn [andb].
  rewrite rm_exits_failures, H0, length_app.
  2: { apply Forall_app. split; [done|]. by constructor. }
  2: lia.
  2: { rewrite H0, length_app. cbn [length]. lia. }
  cbn [length]. destruct (Z.eqb_spec n 0), (Z.eqb_spec code 0); [lia..|]. cbn [orb negb].
  match goal with |- context [?a <=? n] => destruct (Z.leb_spec a n) end; split; (done || lia).
Qed.

(** ** References *)

(** A container that owns a live manager, held [k] times besides. *)
Definition rm_owned (k : Z) (c : rm_container) : Prop :=
  match c_rm c with
  | None => True
  | Some rm => rm_live rm = true /\ refcnt rm = 1 + k
  end.

Lemma get_restart_manager_owned e k c :
  rm_owned k c -> 0 <= k < 2 ^ 64 - 2 -> (c_rm c = None -> k = 0) ->
  (get_restart_manager e c = Some (false, c) /\ c_rm c = None) \/
  exists rm rm0, get_restart_manager e c = Some (true, put_rm (Some rm) c) /\
    (c_rm c = Some rm0 \/ c_rm c = None /\
       restart_manager_new e (c_policy c) (container_state_get_restart_count (c_state c)) = Some rm0) /\
    rm = put_refcnt (2 + k) rm0 /\ rm_live rm0 = true.
Proof.
  unfold rm_owned, get_restart_manager. intros Ho Hk Hk0.
  destruct (c_rm c) as [rm|] eqn:Hrm.
  - destruct Ho as [Hl Hr]. right. exists (put_refcnt (2 + k) rm), rm.
    unfold restart_manager_refinc, deref. rewrite Hl. cbn. split_and!; auto.
    do 3 f_equal. unfold put_rm. do 2 f_equal. unfold put_refcnt, atomic_int_inc. f_equal.
    rewrite wrap_u_small; lia.
  - unfold restart_manager_new. destruct e as [[] [] [] []]; cbn; auto.
    right. eexists _, _. split_and!; [done|by right|by rewrite Hk0|done].
Qed.

Lemma unref_owned k rm c :
  rm_live rm = true -> 0 <= k < 2 ^ 64 - 2 ->
  unref_rm (put_rm (Some (put_refcnt (2 + k) rm)) c) = Some (put_rm (Some (put_refcnt (1 + k) rm)) c).
Proof.
  intros Hl Hk. unfold unref_rm, restart_manager_unref, deref, atomic_int_dec_test. cbn.
  rewrite Hl. replace (2 + k - 1) with (1 + k) by lia. rewrite wrap_u_small by lia.
  destruct (Z.eqb_spec (1 + k) 0); [lia|]. done.
Qed.

(** The references stay balanced through each operation of the container. *)
Definition owned_step (k : Z) (c : rm_container) : Prop :=
  rm_owned k c /\ 0 <= k < 2 ^ 64 - 2 /\ (c_rm c = None -> k = 0).

Lemma update_owned e a k c p :
  owned_step k c ->
  exists c', container_update_restart_manager e a c p = Some c' /\ owned_step k c'.
Proof.
  intros (Ho & Hk & Hk0). unfold container_update_restart_manager.
  destruct p as [p|]; [|by exists c].
  destruct (get_restart_manager_owned e k c Ho Hk Hk0) as [[-> Hn]|(rm & rm0 & -> & _ & -> & Hl)].
  { exists c. done. }
  cbn. unfold restart_manager_set_policy, deref. cbn. rewrite Hl. destruct a; cbn.
  - eexists. split.
    + apply (unref_owned k (put_policy (Some (Policy (pol_name p) (maximum_retry_count p))) rm0)
        (put_rm (Some (put_refcnt (2 + k) rm0)) c)); done.
    + by unfold owned_step, rm_owned; cbn.
  - eexists. split; [by apply (unref_owned k rm0 (put_rm (Some (put_refcnt (2 + k) rm0)) c))|].
    by unfold owned_step, rm_owned; cbn.
Qed.

Lemma exit_on_next_owned e k c :
  owned_step k c ->
  exists z c', container_exit_on_next e c = Some (z, c') /\ owned_step k c' /\
    (z = 0 -> exists rm, c_rm c' = Some rm /\ canceled rm = true).
Proof.
  intros (Ho & Hk & Hk0). unfold container_exit_on_next.
  destruct (get_restart_manager_owned e k c Ho Hk Hk0) as [[-> Hn]|(rm & rm0 & -> & _ & -> & Hl)].
  { exists (-1), c. done. }
  cbn -[unref_rm]. unfold restart_manager_cancel, deref. cbn -[unref_rm]. rewrite Hl.
  cbn -[unref_rm].
  pose proof (unref_owned k (put_canceled true rm0) (put_rm (Some (put_refcnt (2 + k) rm0)) c) Hl Hk)
    as Hu.
  change (put_refcnt (2 + k) (put_canceled true rm0))
    with (put_canceled true (put_refcnt (2 + k) rm0)) in Hu. rewrite Hu.
  cbn. eexists _, _. split; [done|].
  split; [by unfold owned_step, rm_owned; cbn|]. intros _. by eexists.
Qed.

Lemma set_items_frame rm code d :
  let rm' := restart_manager_set_items rm code d in
  rm_live rm' = rm_live rm /\ refcnt rm' = refcnt rm /\ canceled rm' = canceled rm /\
  policy rm' = policy rm.
Proof.
  cbn. unfold restart_manager_set_items.
  destruct (negb (code =? 0)), (d >=? 10); cbn; repeat case_match; done.
Qed.

Lemma put_refcnt_id rm n : refcnt rm = n -> rm = put_refcnt n rm.
Proof. by intros <-; destruct rm. Qed.

Lemma should_restart_owned e code st d k c :
  owned_step k c ->
  exists b t c', restart_manager_should_restart e code st d (Some c) = Some (b, t, Some c') /\
    owned_step k c' /\
    (forall rm, c_rm c = Some rm -> canceled rm = true ->
       b = false /\ exists rm', c_rm c' = Some rm' /\ canceled rm' = true).
Proof.
  intros (Ho & Hk & Hk0). unfold restart_manager_should_restart.
  destruct (get_restart_manager_owned e k c Ho Hk Hk0)
    as [[-> Hn]|(rm & rm0 & -> & Hrm & -> & Hl)].
  { exists false, None, c. split_and!; try done. by rewrite Hn. }
  cbn -[unref_rm restart_manager_set_items].
  set (c1 := put_rm (Some (put_refcnt (2 + k) rm0)) c).
  assert (unref_rm c1 = Some (put_rm (Some (put_refcnt (1 + k) rm0)) c)) as Hu
    by by apply unref_owned.
  assert (forall rm, c_rm c = Some rm -> rm = rm0) as Hsame by (intros; naive_solver).
  destruct (policy rm0) as [[[name|] n]|]; [destruct (canceled rm0) eqn:Hc| |].
  2: { set (rm1 := restart_manager_set_items (put_refcnt (2 + k) rm0) code d).
       destruct (set_items_frame (put_refcnt (2 + k) rm0) code d) as (H1 & H2 & H3 & _).
       fold rm1 in H1, H2, H3. cbn in H1, H2, H3.
       assert (unref_rm (put_rm (Some rm1) c1) = Some (put_rm (Some (put_refcnt (1 + k) rm1)) c1))
         as ->.
       { rewrite (put_refcnt_id rm1 (2 + k)) at 1 by done. apply unref_owned; [congruence|done]. }
       cbn.
       eexists _, _, _. split; [done|]. split.
       - unfold owned_step, rm_owned. cbn. rewrite H1. done.
       - intros rm ->%Hsame. congruence. }
  all: rewrite Hu; cbn; eexists _, _, _; (split; [done|]).
  all: split; [by unfold owned_step, rm_owned; cbn|].
  all: intros rm ->%Hsame Hcan; split; [done|by eexists].
Qed.

(** Updating the policy, cancelling and asking whether to restart never
    touch freed memory and give back the reference they take: the container
    still owns a live manager with the same number of references. *)
Theorem restart_manager_refs_balanced e a code st d p k c :
  owned_step k c ->
  (exists c', container_update_restart_manager e a c p = Some c' /\ owned_step k c') /\
  (exists z c', container_exit_on_next e c = Some (z, c') /\ owned_step k c') /\
  (exists b t c', restart_manager_should_restart e code st d (Some c) = Some (b, t, Some c') /\
     owned_step k c').
Proof.
  intros Ho. split_and!.
  - by apply update_owned.
  - destruct (exit_on_next_owned e k c Ho) as (z & c' & ? & ? & _). by exists z, c'.
  - destruct (should_restart_owned e code st d k c Ho) as (b & t & c' & ? & ? & _).
    by exists b, t, c'.
Qed.

(** A container asked about a series of exits. *)
Fixpoint ask_restarts (e : rm_env) (c : rm_container) (exits : list (Z * bool * Z))
    : option (list bool * rm_container) :=
  match exits with
  | [] => Some ([], c)
  | (code, st, d) :: exits =>
      r ← restart_manager_should_restart e code st d (Some c);
      c ← r.2;
      rest ← ask_restarts e c exits;
      Some (r.1.1 :: rest.1, rest.2)
  end.

(** After a successful [container_exit_on_next] no later exit of the
    container leads to a restart, whatever the policy, and a thread that waits
    to restart it is told so at once. *)
Theorem cancelled_never_restarts e k c c' exits :
  owned_step k c -> container_exit_on_next e c = Some (0, c') ->
  (exists c'' rest, ask_restarts e c' exits = Some (rest, c'') /\ Forall (fun b => b = false) rest) /\
  (forall clock wait t, restart_manager_wait_cancel clock wait (c_rm c') t = Some 0).
Proof.
  intros Ho Hx. destruct (exit_on_next_owned e k c Ho) as (z & c1 & Hx' & Ho' & Hcan).
  rewrite Hx in Hx'. simplify_eq. destruct (Hcan eq_refl) as (rm & Hrm & Hc). split.
  - clear Hx Ho Hcan. revert c1 rm Ho' Hrm Hc.
    induction exits as [|[[code st] d] exits IH]; intros c1 rm Ho' Hrm Hc.
    { by exists c1, []. }
    destruct (should_restart_owned e code st d k c1 Ho') as (b & t & c2 & Hs & Ho2 & H2).
    destruct (H2 rm Hrm Hc) as (-> & rm' & Hrm' & Hc').
    destruct (IH c2 rm' Ho2 Hrm' Hc') as (c3 & rest & Ha & Hf).
    exists c3, (false :: rest). cbn -[restart_manager_should_restart]. rewrite Hs. cbn.
    rewrite Ha. cbn. split; [done|]. by constructor.
  - intros clock wait t. rewrite Hrm. unfold restart_manager_wait_cancel, deref.
    destruct Ho' as [Ho' _]. unfold rm_owned in Ho'. rewrite Hrm in Ho'.
    destruct Ho' as [-> _]. by rewrite Hc.
Qed.

(** The deadline handed to [pthread_cond_timedwait] is the current time plus
    the timeout, with a nanosecond part in range. *)
Theorem wait_deadline_correct sec nsec tmo :
  0 <= nsec < Time_Second -> 0 <= tmo ->
  let '(s, ns) := cond_wait_deadline (sec, nsec) tmo in
  0 <= ns < Time_Second /\ s * Time_Second + ns = sec * Time_Second + nsec + tmo.
Proof.
  intros Hn Ht. unfold cond_wait_deadline. cbn.
  assert (Time_Second = 1000000000) as HT by reflexivity. rewrite HT in *.
  pose proof (Z.mod_pos_bound (tmo - tmo / 1000000000 * 1000000000 + nsec) 1000000000).
  pose proof (Z.div_mod (tmo - tmo / 1000000000 * 1000000000 + nsec) 1000000000). lia.
Qed.

(** ** Witnesses *)

Definition demo_rm : restart_manager_t :=
  RM true true 1 (Some (Policy (Some "on-failure") 2)) 0 0 false true.
Definition demo_rmc : rm_container :=
  RmContainer (Some demo_rm) (Some (Policy (Some "on-failure") 2)) None.

Lemma demo_rmc_owned : owned_step 0 demo_rmc.
Proof. split_and!; [done|done|lia|done]. Qed.

Lemma restart_backoff_doubles_witness :
  timeout (rm_exits demo_rm [(1, 0); (1, 3); (2, 0)]) = 400000000.
Proof.
  rewrite (restart_backoff_doubles demo_rm [(1, 0); (1, 3); (2, 0)]);
    [reflexivity|reflexivity|repeat constructor; cbn; lia|discriminate].
Defined.

Lemma restart_timeout_bounds_witness :
  timeout (restart_manager_set_items demo_rm 1 10) = defaultTimeout.
Proof. apply (restart_timeout_bounds demo_rm 1 10); [split; vm_compute; discriminate|lia]. Defined.

Lemma on_failure_bounded_retries_witness :
  should_be_restart (rm_exits demo_rm ([(1, 0)] ++ [(1, 0)])) "on-failure" 2 1 false = true.
Proof.
  apply (on_failure_bounded_retries demo_rm [(1, 0)] 1 0 2 false);
    [reflexivity|by apply Forall_singleton|lia|lia|cbn; lia|cbn; lia].
Defined.

Lemma restart_manager_refs_balanced_witness :
  exists z c', container_exit_on_next rm_env_ok demo_rmc = Some (z, c') /\ owned_step 0 c'.
Proof.
  apply (restart_manager_refs_balanced rm_env_ok true 1 false 0 None 0 demo_rmc demo_rmc_owned).
Defined.

Lemma cancelled_never_restarts_witness :
  let c := put_rm (Some (put_canceled true demo_rm)) demo_rmc in
  container_exit_on_next rm_env_ok demo_rmc = Some (0, c) /\
  exists c' rest, ask_restarts rm_env_ok c [(1, false, 0); (129, false, 20)] = Some (rest, c') /\
    Forall (fun b => b = false) rest.
Proof.
  split; [reflexivity|].
  apply (cancelled_never_restarts rm_env_ok 0 demo_rmc
    (put_rm (Some (put_canceled true demo_rm)) demo_rmc) [(1, false, 0); (129, false, 20)]
    demo_rmc_owned). reflexivity.
Defined.

Lemma wait_deadline_correct_witness :
  cond_wait_deadline (5, 900000000) 1200000000 = (7, 100000000) /\
  7 * Time_Second + 100000000 = 5 * Time_Second + 900000000 + 1200000000.
Proof.
  split; [reflexivity|].
  apply (wait_deadline_correct 5 900000000 1200000000); [split; reflexivity || lia|lia].
Defined.
