(* ===== verification/Volume.v ===== *)
(** The volume store: src/src/daemon/modules/volume/volume.c.

    The store has three kinds of maps, all used through the interface
    [MapOps]: drivers by name, and for each volume name a pointer to the map of
    the containers that refer to it.  The inner maps are shared and mutated in
    place, so they live in a heap of their own ([vs_refs]) and the outer map holds
    their addresses.  The volume drivers are an interface of function pointers;
    [D] is the state behind them.  [None] is undefined behaviour: a dangling
    pointer to an inner map, a call through a NULL function pointer, or a driver that does
    not return.  Every
    public function takes the store mutex around its body. *)
From S2P Require Import Prelude Heap KeyOrders MapC MapIface.

(** [struct volume] *)
Record volume := Vol {
  v_driver : cstr; v_name : cstr; v_path : cstr; v_mount_point : option cstr
}.

(** [volume_driver] (src/src/daemon/modules/api/volume_api.h); NULL pointers are
    [None].  A call of a driver may change its state, and gives [None] when it is undefined or
    never returns. *)
Record volume_driver (D : Type) := Driver {
  drv_create : option (cstr -> D -> option (option volume * D));
  drv_get : option (cstr -> D -> option (option volume * D));
  drv_mount : option (cstr -> D -> option (Z * D));
  drv_umount : option (cstr -> D -> option (Z * D));
  drv_list : option (D -> option (option (list volume) * D));
  drv_remove : option (cstr -> D -> option (Z * D))
}.
Arguments Driver {D} _ _ _ _ _ _.
Arguments drv_create {D} _.
Arguments drv_get {D} _.
Arguments drv_mount {D} _.
Arguments drv_umount {D} _.
Arguments drv_list {D} _.
Arguments drv_remove {D} _.

(** [volume_store], with the heap of inner maps, the static variable of
    [lookup_driver_by_volume_name], and the state of the drivers. *)
Record volume_store (D MD MN MR : Type) := VS {
  vs_drivers : MD;
  vs_name_refs : MN;
  vs_refs : gmap loc MR;
  vs_static : option (volume_driver D);
  vs_dev : D
}.
Arguments VS {D MD MN MR} _ _ _ _ _.
Arguments vs_drivers {D MD MN MR} _.
Arguments vs_name_refs {D MD MN MR} _.
Arguments vs_refs {D MD MN MR} _.
Arguments vs_static {D MD MN MR} _.
Arguments vs_dev {D MD MN MR} _.

Section volume.
Context {D MD MN MR : Type}.
Context {opsD : MapOps cstr (volume_driver D) MD} {opsN : MapOps cstr loc MN}
  {opsR : MapOps cstr bool MR}.
Implicit Types (vs : volume_store D MD MN MR) (name ref : cstr).

Definition put_drivers (m : MD) vs := VS m (vs_name_refs vs) (vs_refs vs) (vs_static vs) (vs_dev vs).
Definition put_names (m : MN) vs :=
  VS (vs_drivers vs) m (vs_refs vs) (vs_static vs) (vs_dev vs).
Definition put_refs (h : gmap loc MR) vs := VS (vs_drivers vs) (vs_name_refs vs) h (vs_static vs) (vs_dev vs).
Definition put_static d vs := VS (vs_drivers vs) (vs_name_refs vs) (vs_refs vs) d (vs_dev vs).
Definition put_dev d vs := VS (vs_drivers vs) (vs_name_refs vs) (vs_refs vs) (vs_static vs) d.

(** ** Drivers *)

Definition valid_driver (d : volume_driver D) : bool :=
  match d with
  | Driver (Some _) (Some _) (Some _) (Some _) (Some _) (Some _) => true
  | _ => false
  end.

Definition lookup_driver (name : option cstr) vs : option (volume_driver D) :=
  match name with None => None | Some name => mo_search name (vs_drivers vs) end.

(** The loop over the drivers: [driver] is assigned at every turn. *)
Fixpoint probe_drivers (ds : list (volume_driver D)) (dev : D) name
    (driver : option (volume_driver D)) : option (option (volume_driver D) * D) :=
  match ds with
  | [] => Some (driver, dev)
  | d :: ds =>
      get ← drv_get d;
      r ← get name dev;
      match r with
      | (Some _, dev) => Some (Some d, dev)
      | (None, dev) => probe_drivers ds dev name (Some d)
      end
  end.

(** [lookup_driver_by_volume_name]: the driver returned, which is also the new
    value of the static variable; [itor_ok] tells whether the iterator could be
    allocated. *)
Definition lookup_driver_by_volume_name (itor_ok : bool) (name : option cstr) vs
    : option (option (volume_driver D) * volume_store D MD MN MR) :=
  match name with
  | None => Some (None, vs)
  | Some name =>
      if negb itor_ok then Some (vs_static vs, vs)
      else
        r ← probe_drivers ((mo_elements (vs_drivers vs)).*2) (vs_dev vs) name (vs_static vs);
        Some (r.1, put_static r.1 (put_dev r.2 vs))
  end.

(** [insert_driver]; [alloc] is for the copy of the driver, [ok] for the map. *)
Definition insert_driver (alloc ok : bool) name (d : volume_driver D) vs
    : Z * volume_store D MD MN MR :=
  if negb (valid_driver d) then (-1, vs)%Z
  else if negb alloc then (-1, vs)%Z
  else
    let '(b, m) := mo_insert ok name d (vs_drivers vs) in
    if b then (0%Z, put_drivers m vs) else ((-1)%Z, put_drivers m vs).

Definition register_driver (alloc ok : bool) (name : option cstr)
    (driver : option (volume_driver D)) vs : Z * volume_store D MD MN MR :=
  match name, driver with
  | Some name, Some d =>
      match lookup_driver (Some name) vs with
      | Some _ => (-1, vs)%Z
      | None => insert_driver alloc ok name d vs
      end
  | _, _ => (-1, vs)%Z
  end.

(** [volume_init]; [local] is the driver [register_local_volume] registers under
    the name [local_name] ([None] when its initialisation fails), [dev] the state
    behind it.  The maps are freed again when the registration fails. *)
Definition volume_init (local_name : cstr) (local : option (volume_driver D)) (dev : D)
    : Z * option (volume_store D MD MN MR) :=
  match mo_new, mo_new with
  | Some drivers, Some name_refs =>
      let vs := VS drivers name_refs ∅ None dev in
      match local with
      | None => (-1, None)%Z
      | Some d =>
          let '(z, vs) := register_driver true true (Some local_name) (Some d) vs in
          if bool_decide (z = 0%Z) then (0%Z, Some vs) else (z, None)
      end
  | _, _ => (-1, None)%Z
  end.

(** ** References *)

(** What the allocator does during one call of [add_name_ref]: the address of a
    new inner map (NULL when there is none), and whether the insertions into the
    outer and the inner map find memory. *)
Record ref_allocs := RefAllocs { ra_map : loc; ra_outer : bool; ra_inner : bool }.

(** The first half of [add_name_ref]: the inner map of a name, made if needed;
    [None] inside is the early return of -1. *)
Definition find_or_new_refs (a : ref_allocs) name vs
    : option loc * volume_store D MD MN MR :=
  match mo_search name (vs_name_refs vs) with
  | Some p => (Some p, vs)
  | None =>
      if decide (ra_map a = NULL) then (None, vs)
      else
        match mo_new with
        | None => (None, vs)
        | Some refs =>
            let '(b, m) := mo_insert (ra_outer a) name (ra_map a) (vs_name_refs vs) in
            if b then (Some (ra_map a), put_refs (<[ra_map a := refs]> (vs_refs vs)) (put_names m vs))
            else (None, put_names m vs)
        end
  end.

(** [add_name_ref].  When the inner insertion fails, the code passes the inner
    map itself, not the name, to [map_remove]: [bytes_of] is that object read as
    a string. *)
Definition add_name_ref (bytes_of : loc -> cstr) (a : ref_allocs) name ref vs
    : option (Z * volume_store D MD MN MR) :=
  let '(p, vs) := find_or_new_refs a name vs in
  match p with
  | None => Some (-1, vs)%Z
  | Some p =>
      refs ← vs_refs vs !! p;
      match mo_search ref refs with
      | Some _ => Some (0%Z, vs)
      | None =>
          let '(b, refs') := mo_insert (ra_inner a) ref true refs in
          let vs := put_refs (<[p := refs']> (vs_refs vs)) vs in
          if b then Some (0%Z, vs)
          else if bool_decide (mo_size refs' = 0)
          then Some ((-1)%Z, put_names (mo_remove (bytes_of p) (vs_name_refs vs)).2 vs)
          else Some ((-1)%Z, vs)
      end
  end.

(** [get_name_refs]: the containers in key order, or NULL; the allocation of an
    empty array of names gives NULL. *)
Definition get_name_refs (alloc : bool) name vs : option (option (list cstr)) :=
  match mo_search name (vs_name_refs vs) with
  | None => Some None
  | Some p =>
      refs ← vs_refs vs !! p;
      if negb alloc || bool_decide (mo_size refs = 0) then Some None
      else Some (Some ((mo_elements refs).*1))
  end.

(** [del_name_ref]; removing a name from the outer map frees its inner map
    ([refs_kvfree]). *)
Definition del_name_ref name ref vs : option (Z * volume_store D MD MN MR) :=
  match mo_search name (vs_name_refs vs) with
  | None => Some (0%Z, vs)
  | Some p =>
      refs ← vs_refs vs !! p;
      let '(b, refs) :=
        if bool_decide (mo_size refs ≠ 0) then mo_remove ref refs else (true, refs) in
      let vs := put_refs (<[p := refs]> (vs_refs vs)) vs in
      if negb b then Some ((-1)%Z, vs)
      else if bool_decide (mo_size refs = 0) then
        let '(b, m) := mo_remove name (vs_name_refs vs) in
        if b then Some (0%Z, put_refs (delete p (vs_refs vs)) (put_names m vs))
        else Some ((-1)%Z, put_names m vs)
      else Some (0%Z, vs)
  end.

(** ** Public functions *)

Definition volume_add_ref (bytes_of : loc -> cstr) (a : ref_allocs) (name ref : option cstr) vs
    : option (Z * volume_store D MD MN MR) :=
  match name, ref with
  | Some name, Some ref => add_name_ref bytes_of a name ref vs
  | _, _ => Some (-1, vs)%Z
  end.

Definition volume_del_ref (name ref : option cstr) vs : option (Z * volume_store D MD MN MR) :=
  match name, ref with
  | Some name, Some ref => del_name_ref name ref vs
  | _, _ => Some (-1, vs)%Z
  end.

(** [volume_create]; [opts_ref] is [opts->ref] ([None] when [opts] or its [ref] is
    NULL) and [random] the generated name, if it could be generated. *)
Definition volume_create (bytes_of : loc -> cstr) (a : ref_allocs) (random : option cstr)
    (driver_name name opts_ref : option cstr) vs
    : option (option volume * volume_store D MD MN MR) :=
  match driver_name, opts_ref with
  | Some dn, Some ref =>
      match lookup_driver (Some dn) vs with
      | None => Some (None, vs)
      | Some d =>
          match (match name with Some n => Some n | None => random end) with
          | None => Some (None, vs)
          | Some n =>
              create ← drv_create d;
              made ← create n (vs_dev vs);
              let vs := put_dev made.2 vs in
              match made.1 with
              | None => Some (None, vs)
              | Some vol =>
                  r ← add_name_ref bytes_of a n ref vs;
                  if bool_decide (r.1 ≠ 0%Z) then Some (None, r.2) else Some (Some vol, r.2)
              end
          end
      end
  | _, _ => Some (None, vs)
  end.

(** The common shape of [volume_mount] and [volume_umount]. *)
Definition volume_with_driver
    (op : volume_driver D -> option (cstr -> D -> option (Z * D))) (itor_ok : bool) (name : option cstr) vs
    : option (Z * volume_store D MD MN MR) :=
  match name with
  | None => Some (-1, vs)%Z
  | Some n =>
      r ← lookup_driver_by_volume_name itor_ok name vs;
      match r.1 with
      | None => Some (-1, r.2)%Z
      | Some d => f ← op d; done ← f n (vs_dev r.2); Some (done.1, put_dev done.2 r.2)
      end
  end.
Definition volume_mount := volume_with_driver drv_mount.
Definition volume_umount := volume_with_driver drv_umount.

(** [list_all_driver_volumes]: the volumes of the first driver. *)
Definition list_all_driver_volumes (itor_ok : bool) vs
    : option (option (list volume) * volume_store D MD MN MR) :=
  if negb itor_ok then Some (None, vs)
  else
    match mo_elements (vs_drivers vs) with
    | [] => Some (None, vs)
    | (_, d) :: _ => list ← drv_list d; r ← list (vs_dev vs); Some (r.1, put_dev r.2 vs)
    end.
Definition volume_list := list_all_driver_volumes.

(** [volume_remove]; [alloc] is for the list of names. *)
Definition volume_remove (itor_ok alloc : bool) (name : option cstr) vs
    : option (Z * volume_store D MD MN MR) :=
  match name with
  | None => Some (-1, vs)%Z
  | Some n =>
      r ← lookup_driver_by_volume_name itor_ok name vs;
      let vs := r.2 in
      match r.1 with
      | None => Some (-1, vs)%Z
      | Some d =>
          vns ← get_name_refs alloc n vs;
          match vns with
          | Some (_ :: _) => Some (-1, vs)%Z
          | _ =>
              remove ← drv_remove d;
              done ← remove n (vs_dev vs);
              Some (done.1, put_dev done.2 vs)
          end
      end
  end.

(** The loop of [volume_prune]: the names of the volumes removed. *)
Fixpoint prune_loop (vols : list volume) vs
    : option (list cstr * volume_store D MD MN MR) :=
  match vols with
  | [] => Some ([], vs)
  | v :: vols =>
      r ← volume_remove true true (Some (v_name v)) vs;
      rest ← prune_loop vols r.2;
      Some (if bool_decide (r.1 = 0%Z) then v_name v :: rest.1 else rest.1, rest.2)
  end.

(** [volume_prune] with a non-NULL argument and enough memory: the result and
    [*pruned]. *)
Definition volume_prune vs : option (Z * list cstr * volume_store D MD MN MR) :=
  l ← volume_list true vs;
  match l.1 with
  | None => Some (-1, [], l.2)%Z
  | Some vols => r ← prune_loop vols l.2; Some (0%Z, r.1, r.2)
  end.

End volume.
