(* ===== verification/VolumeProps.v ===== *)
(** The volume store keeps, for each volume, the set of containers that use it,
    and does not let a used volume be removed.  The proofs use the maps only
    through their interface, so they hold for the finite maps and for the
    red-black trees of map.c alike. *)
From S2P Require Import Prelude Heap RbSearch KeyOrders MapC MapIface MapRefine Volume.

(** What holds of the state behind the drivers between calls. *)
Class DeviceInv (D : Type) := dev_inv : D -> Prop.

(** A driver function that is there and, from a state in order, returns in one. *)
Definition returns {D A : Type} `{!DeviceInv D} (f : D -> option (A * D)) : Prop :=
  forall dev, dev_inv dev -> exists a dev', f dev = Some (a, dev') /\ dev_inv dev'.
Record driver_ok {D : Type} `{!DeviceInv D} (d : volume_driver D) : Prop := {
  dok_create : exists f, drv_create d = Some f /\ forall n, returns (f n);
  dok_get : exists f, drv_get d = Some f /\ forall n, returns (f n);
  dok_mount : exists f, drv_mount d = Some f /\ forall n, returns (f n);
  dok_umount : exists f, drv_umount d = Some f /\ forall n, returns (f n);
  dok_list : exists f, drv_list d = Some f /\ returns f;
  dok_remove : exists f, drv_remove d = Some f /\ forall n, returns (f n)
}.
Lemma driver_ok_valid {D : Type} `{!DeviceInv D} (d : volume_driver D) : driver_ok d -> valid_driver d = true.
Proof.
  intros [(?&H1&_) (?&H2&_) (?&H3&_) (?&H4&_) (?&H5&_) (?&H6&_)]. destruct d. cbn in *. by subst.
Qed.

Section props.
Context {D MD MN MR : Type} `{!DeviceInv D}.
Context {cmp : cstr -> cstr -> Z} `{!KeyOrder cmp}.
Context {opsD : MapOps cstr (volume_driver D) MD} `{!MapLaws cmp opsD}.
Context {opsN : MapOps cstr loc MN} `{!MapLaws cmp opsN}.
Context {opsR : MapOps cstr bool MR} `{!MapLaws cmp opsR}.
Implicit Types (vs : volume_store D MD MN MR) (name ref : cstr).

(** ** Abstraction *)

(** The containers that refer to a volume. *)
Definition vol_refs vs name : gset cstr :=
  match mo_abs (vs_name_refs vs) !! name with
  | None => ∅
  | Some p => match vs_refs vs !! p with None => ∅ | Some r => dom (mo_abs r) end
  end.

(** The inner maps are live, belong to one name each, and are not empty; the drivers return. *)
Record vs_inv vs : Prop := {
  inv_drivers_wf : mo_wf (vs_drivers vs);
  inv_names_wf : mo_wf (vs_name_refs vs);
  inv_refs_wf p r : vs_refs vs !! p = Some r -> mo_wf r;
  inv_live n p : mo_abs (vs_name_refs vs) !! n = Some p -> is_Some (vs_refs vs !! p);
  inv_inj n1 n2 p : mo_abs (vs_name_refs vs) !! n1 = Some p ->
    mo_abs (vs_name_refs vs) !! n2 = Some p -> n1 = n2;
  inv_owned p : is_Some (vs_refs vs !! p) ->
    exists n, mo_abs (vs_name_refs vs) !! n = Some p;
  inv_nonempty p r : vs_refs vs !! p = Some r -> mo_abs r ≠ ∅;
  inv_valid n d : mo_abs (vs_drivers vs) !! n = Some d -> driver_ok d;
  inv_static d : vs_static vs = Some d -> driver_ok d;
  inv_dev : dev_inv (vs_dev vs)
}.

(** Memory for the call: a fresh inner map, and room for the bindings. *)
Definition ref_allocs_ok (a : ref_allocs) vs : Prop :=
  ra_map a ≠ NULL /\ vs_refs vs !! ra_map a = None /\ ra_outer a = true /\ ra_inner a = true.

Lemma vol_refs_None vs name :
  vs_inv vs -> mo_abs (vs_name_refs vs) !! name = None <-> vol_refs vs name = ∅.
Proof.
  intros Hi. unfold vol_refs. destruct (mo_abs (vs_name_refs vs) !! name) as [p|] eqn:Hp; [|done].
  destruct (inv_live _ Hi _ _ Hp) as [r Hr]. rewrite Hr. split; [done|].
  intros He%dom_empty_iff_L. by destruct (inv_nonempty _ Hi _ _ Hr).
Qed.

Lemma vol_refs_Some vs name p r :
  mo_abs (vs_name_refs vs) !! name = Some p -> vs_refs vs !! p = Some r ->
  vol_refs vs name = dom (mo_abs r).
Proof. intros Hp Hr. unfold vol_refs. by rewrite Hp, Hr. Qed.

(** The store after a change of one inner map. *)
Lemma vol_refs_update vs name p r n' :
  vs_inv vs -> mo_abs (vs_name_refs vs) !! name = Some p ->
  vol_refs (put_refs (<[p := r]> (vs_refs vs)) vs) n' =
    if decide (n' = name) then dom (mo_abs r) else vol_refs vs n'.
Proof.
  intros Hi Hp. unfold vol_refs. cbn. destruct (decide (n' = name)) as [->|Hne].
  - by rewrite Hp, lookup_insert_eq.
  - destruct (mo_abs (vs_name_refs vs) !! n') as [p'|] eqn:Hp'; [|done].
    rewrite lookup_insert_ne; [done|]. intros ->. destruct Hne. by eapply inv_inj.
Qed.

Lemma vs_inv_update vs name p r :
  vs_inv vs -> mo_abs (vs_name_refs vs) !! name = Some p -> mo_wf r -> mo_abs r ≠ ∅ ->
  vs_inv (put_refs (<[p := r]> (vs_refs vs)) vs).
Proof.
  intros Hi Hp Hwf Hne. destruct Hi. split; cbn; try done.
  - intros p' r' [[<- <-]|[? ?]]%lookup_insert_Some; eauto.
  - intros n p' Hp'. destruct (decide (p' = p)) as [->|].
    + rewrite lookup_insert_eq. eauto.
    + rewrite lookup_insert_ne by done. eauto.
  - intros p' [r' [[<- <-]|[? ?]]%lookup_insert_Some]; eauto.
  - intros p' r' [[<- <-]|[? ?]]%lookup_insert_Some; eauto.
Qed.

(** The store with a new name. *)
Lemma vol_refs_new vs name p m r n' :
  vs_inv vs -> vs_refs vs !! p = None -> mo_abs m = <[name := p]> (mo_abs (vs_name_refs vs)) ->
  vol_refs (put_refs (<[p := r]> (vs_refs vs)) (put_names m vs)) n' =
    if decide (n' = name) then dom (mo_abs r) else vol_refs vs n'.
Proof.
  intros Hi Hp Hm. unfold vol_refs. cbn. rewrite Hm. destruct (decide (n' = name)) as [->|Hne].
  - by rewrite !lookup_insert_eq.
  - rewrite lookup_insert_ne by done.
    destruct (mo_abs (vs_name_refs vs) !! n') as [p'|] eqn:Hp'; [|done].
    rewrite lookup_insert_ne; [done|]. intros ->.
    destruct (inv_live _ Hi _ _ Hp'). congruence.
Qed.

Lemma vs_inv_new vs name p m r :
  vs_inv vs -> mo_abs (vs_name_refs vs) !! name = None -> vs_refs vs !! p = None ->
  mo_wf m -> mo_abs m = <[name := p]> (mo_abs (vs_name_refs vs)) -> mo_wf r -> mo_abs r ≠ ∅ ->
  vs_inv (put_refs (<[p := r]> (vs_refs vs)) (put_names m vs)).
Proof.
  intros Hi Hn Hp Hm Hma Hr Hne.
  assert (forall n, mo_abs (vs_name_refs vs) !! n ≠ Some p) as Hfresh.
  { intros n Hnp. destruct (inv_live _ Hi _ _ Hnp). congruence. }
  destruct Hi. split; cbn; rewrite ?Hma; try done.
  - intros p' r' [[<- <-]|[? ?]]%lookup_insert_Some; eauto.
  - intros n p' [[<- <-]|[? ?]]%lookup_insert_Some; [rewrite lookup_insert_eq; eauto|].
    rewrite lookup_insert_ne; eauto. intros ->. naive_solver.
  - intros n1 n2 p' [[<- <-]|[? ?]]%lookup_insert_Some [[<- ?]|[? ?]]%lookup_insert_Some;
      [done|naive_solver..|eauto].
  - intros p' [r' [[<- <-]|[? ?]]%lookup_insert_Some].
    + exists name. by rewrite lookup_insert_eq.
    + destruct (inv_owned0 p') as [n Hn']; [eauto|]. exists n.
      rewrite lookup_insert_ne; [done|]. intros ->. congruence.
  - intros p' r' [[<- <-]|[? ?]]%lookup_insert_Some; eauto.
Qed.

(** The store without a name. *)
Lemma vol_refs_drop vs name p m n' :
  vs_inv vs -> mo_abs (vs_name_refs vs) !! name = Some p ->
  mo_abs m = delete name (mo_abs (vs_name_refs vs)) ->
  vol_refs (put_refs (delete p (vs_refs vs)) (put_names m vs)) n' =
    if decide (n' = name) then ∅ else vol_refs vs n'.
Proof.
  intros Hi Hp Hm. unfold vol_refs. cbn. rewrite Hm. destruct (decide (n' = name)) as [->|Hne].
  - by rewrite lookup_delete_eq.
  - rewrite lookup_delete_ne by done.
    destruct (mo_abs (vs_name_refs vs) !! n') as [p'|] eqn:Hp'; [|done].
    rewrite lookup_delete_ne; [done|]. intros ->. destruct Hne. by eapply inv_inj.
Qed.

Lemma vs_inv_drop vs name p m :
  vs_inv vs -> mo_abs (vs_name_refs vs) !! name = Some p -> mo_wf m ->
  mo_abs m = delete name (mo_abs (vs_name_refs vs)) ->
  vs_inv (put_refs (delete p (vs_refs vs)) (put_names m vs)).
Proof.
  intros Hi Hp Hm Hma. destruct Hi. split; cbn; rewrite ?Hma; try done.
  - intros p' r' [? ?]%lookup_delete_Some. eauto.
  - intros n p' [? ?]%lookup_delete_Some. rewrite lookup_delete_ne; eauto.
    intros ->. naive_solver.
  - intros n1 n2 p' [? ?]%lookup_delete_Some [? ?]%lookup_delete_Some. eauto.
  - intros p' [r' [? ?]%lookup_delete_Some]. destruct (inv_owned0 p') as [n Hn']; [eauto|].
    exists n. rewrite lookup_delete_ne; [done|]. intros ->. congruence.
  - intros p' r' [? ?]%lookup_delete_Some. eauto.
Qed.

(** ** Adding a reference *)

Lemma add_name_ref_spec bytes_of a name ref vs :
  vs_inv vs -> ref_allocs_ok a vs ->
  exists vs', add_name_ref bytes_of a name ref vs = Some (0%Z, vs') /\ vs_inv vs' /\
    vs_drivers vs' = vs_drivers vs /\ vs_dev vs' = vs_dev vs /\
    forall n, vol_refs vs' n = if decide (n = name) then {[ref]} ∪ vol_refs vs n else vol_refs vs n.
Proof.
  intros Hi (Ha & Hfresh & Ho & Hin). unfold add_name_ref, find_or_new_refs.
  pose proof (inv_names_wf _ Hi) as Hnw. rewrite mo_search_ok by done.
  destruct (mo_abs (vs_name_refs vs) !! name) as [p|] eqn:Hp.
  - destruct (inv_live _ Hi _ _ Hp) as [r Hr]. rewrite Hr. cbn [mbind option_bind].
    pose proof (inv_refs_wf _ Hi _ _ Hr) as Hrw. rewrite mo_search_ok by done.
    destruct (mo_abs r !! ref) as [b|] eqn:Hb.
    + exists vs. split_and!; try done. intros n. case_decide as Hn; [|done]. subst n.
      rewrite (vol_refs_Some _ _ _ _ Hp Hr).
      assert (ref ∈ dom (mo_abs r)) by (apply elem_of_dom; eauto). set_solver.
    + rewrite Hin. destruct (mo_insert_fresh ref true r Hrw Hb) as [H1 H2].
      pose proof (mo_wf_insert true ref true r Hrw) as Hrw'.
      destruct (mo_insert true ref true r) as [b r']. cbn in H1, H2, Hrw'. subst b.
      eexists. split; [done|]. split_and!; try done.
      * apply (vs_inv_update _ name); [done..|]. rewrite H2. apply insert_non_empty.
      * intros n. rewrite (vol_refs_update _ name) by done. case_decide; [|done]. subst n.
        rewrite H2, dom_insert_L. by rewrite (vol_refs_Some _ _ _ _ Hp Hr).
  - rewrite decide_False by done. destruct mo_new_ok as (r0 & -> & Hr0w & Hr0).
    rewrite Ho. destruct (mo_insert_fresh name (ra_map a) _ Hnw Hp) as [H1 H2].
    pose proof (mo_wf_insert true name (ra_map a) _ Hnw) as Hmw.
    destruct (mo_insert true name (ra_map a) (vs_name_refs vs)) as [b m]. cbn in H1, H2, Hmw. subst b.
    cbn. rewrite lookup_insert_eq. cbn [mbind option_bind].
    rewrite (mo_search_ok ref r0 Hr0w), Hr0, lookup_empty, Hin.
    destruct (mo_insert_fresh ref true r0 Hr0w) as [H3 H4]; [by rewrite Hr0|].
    pose proof (mo_wf_insert true ref true r0 Hr0w) as Hrw'.
    destruct (mo_insert true ref true r0) as [b r']. cbn in H3, H4, Hrw'. subst b.
    rewrite insert_insert_eq.
    eexists. split; [done|]. split_and!; try done.
    + apply (vs_inv_new _ name); try done. rewrite H4. apply insert_non_empty.
    + intros n. change (vol_refs _ n) with
        (vol_refs (put_refs (<[ra_map a := r']> (vs_refs vs)) (put_names m vs)) n) at 1.
      erewrite (vol_refs_new vs name) by done. case_decide; [|done]. subst n.
      rewrite H4, dom_insert_L, Hr0, dom_empty_L.
      apply vol_refs_None in Hp; [|done]. by rewrite Hp.
Qed.

(** Without memory a reference is not added and nothing changes, as long as the failure is not that of the
    very first reference of a volume: then the code removes the wrong name. *)
Lemma vs_inv_same_names m vs :
  vs_inv vs -> mo_wf m -> mo_abs m = mo_abs (vs_name_refs vs) -> vs_inv (put_names m vs).
Proof. intros [] Hm He. split; cbn; rewrite ?He; done. Qed.

Lemma add_name_ref_total bytes_of a name ref vs :
  vs_inv vs -> vs_refs vs !! ra_map a = None -> ra_inner a = true \/ vol_refs vs name <> ∅ ->
  exists z vs', add_name_ref bytes_of a name ref vs = Some (z, vs') /\ vs_inv vs' /\
    (z = 0%Z /\ (forall n, vol_refs vs' n = if decide (n = name) then {[ref]} ∪ vol_refs vs n else vol_refs vs n) \/
     z = (-1)%Z /\ forall n, vol_refs vs' n = vol_refs vs n).
Proof.
  intros Hi Hfresh Hin. set (a' := RefAllocs (fresh ({[NULL]} ∪ dom (vs_refs vs))) true true).
  assert (ref_allocs_ok a' vs) as Ha'.
  { pose proof (is_fresh ({[NULL]} ∪ dom (vs_refs vs))) as Hf. unfold ref_allocs_ok. cbn.
    split_and!; [set_solver| |done..]. apply not_elem_of_dom. set_solver. }
  pose proof (inv_names_wf _ Hi) as Hnw. destruct (mo_abs (vs_name_refs vs) !! name) as [p|] eqn:Hp.
  - destruct (inv_live _ Hi _ _ Hp) as [r Hr]. pose proof (inv_refs_wf _ Hi _ _ Hr) as Hrw.
    destruct (mo_abs r !! ref) as [b|] eqn:Hb; [|destruct (ra_inner a) eqn:Hina].
    1,2: destruct (add_name_ref_spec bytes_of a' name ref vs Hi Ha') as (vs' & Hrun & Hi' & _ & _ & Hrefs); exists 0%Z, vs';
      (split; [|auto]); rewrite <-Hrun; unfold add_name_ref, find_or_new_refs; rewrite mo_search_ok, Hp, Hr by done;
      cbn; rewrite mo_search_ok, Hb by done; by rewrite ?Hina.
    unfold add_name_ref, find_or_new_refs. rewrite mo_search_ok, Hp, Hr by done. cbn. rewrite mo_search_ok, Hb, Hina by done.
    destruct (mo_insert_oom ref true r Hrw) as [H1 H2]. pose proof (mo_wf_insert false ref true r Hrw) as Hrw'.
    destruct (mo_insert false ref true r) as [b r']. cbn in H1, H2, Hrw'. subst b. pose proof (inv_nonempty _ Hi _ _ Hr) as Hne.
    rewrite bool_decide_eq_false_2 by (rewrite mo_size_ok, map_size_empty_iff by done; congruence).
    eexists _, _. split; [done|]. split; [apply (vs_inv_update _ name); [done..|congruence]|]. right. split; [done|].
    intros n. rewrite (vol_refs_update _ name) by done. case_decide; [subst n|done]. by rewrite H2, (vol_refs_Some _ _ _ _ Hp Hr).
  - assert (ra_inner a = true) as Hina by (destruct Hin as [?|Hne]; [done|]; by apply vol_refs_None in Hp).
    destruct (decide (ra_map a = NULL)) as [Hz|Hnz].
    { exists (-1)%Z, vs. unfold add_name_ref, find_or_new_refs. rewrite mo_search_ok, Hp, decide_True by done. auto. }
    destruct (ra_outer a) eqn:Ho.
    + destruct (add_name_ref_spec bytes_of a name ref vs Hi) as (vs' & Hrun & Hi' & _ & _ & Hrefs); [done|]. exists 0%Z, vs'. auto.
    + unfold add_name_ref, find_or_new_refs. rewrite mo_search_ok, Hp, decide_False by done.
      destruct mo_new_ok as (r0 & -> & _). rewrite Ho. destruct (mo_insert_oom name (ra_map a) _ Hnw) as [H1 H2].
      pose proof (mo_wf_insert false name (ra_map a) _ Hnw) as Hmw.
      destruct (mo_insert false name (ra_map a) (vs_name_refs vs)) as [b m]. cbn in H1, H2, Hmw. subst b.
      exists (-1)%Z, (put_names m vs). split; [done|]. split; [by apply vs_inv_same_names|]. right. split; [done|].
      intros n. unfold vol_refs. cbn. by rewrite H2.
Qed.

(** ** Dropping a reference *)

Lemma mo_size_zero (r : MR) : mo_wf r -> (mo_size r = 0 <-> mo_abs r = ∅).
Proof. intros Hr. rewrite mo_size_ok by done. apply map_size_empty_iff. Qed.

Lemma del_name_ref_spec name ref vs :
  vs_inv vs ->
  exists z vs', del_name_ref name ref vs = Some (z, vs') /\ vs_inv vs' /\
    vs_drivers vs' = vs_drivers vs /\ vs_dev vs' = vs_dev vs /\
    z = (if decide (vol_refs vs name = ∅ \/ ref ∈ vol_refs vs name) then 0%Z else (-1)%Z) /\
    forall n, vol_refs vs' n = if decide (n = name) then vol_refs vs n ∖ {[ref]} else vol_refs vs n.
Proof.
  intros Hi. unfold del_name_ref.
  pose proof (inv_names_wf _ Hi) as Hnw. rewrite mo_search_ok by done.
  destruct (mo_abs (vs_name_refs vs) !! name) as [p|] eqn:Hp.
  2: { exists 0%Z, vs. apply vol_refs_None in Hp; [|done]. split_and!; try done.
       - by rewrite decide_True by auto.
       - intros n. case_decide; [subst|done]. rewrite Hp. set_solver. }
  destruct (inv_live _ Hi _ _ Hp) as [r Hr]. rewrite Hr. cbn [mbind option_bind].
  pose proof (inv_refs_wf _ Hi _ _ Hr) as Hrw. pose proof (inv_nonempty _ Hi _ _ Hr) as Hne.
  rewrite bool_decide_eq_true_2 by by rewrite mo_size_zero.
  rewrite (vol_refs_Some _ _ _ _ Hp Hr).
  destruct (mo_remove_abs ref r Hrw) as [H1 H2]. pose proof (mo_wf_remove ref r Hrw) as Hrw'.
  destruct (mo_remove ref r) as [b r']. cbn in H1, H2, Hrw'. subst b.
  assert (dom (mo_abs r) ≠ ∅) as Hdne by by rewrite dom_empty_iff_L.
  destruct (decide (is_Some (mo_abs r !! ref))) as [Hin|Hin].
  - rewrite bool_decide_eq_true_2 by done. cbn [negb]. apply elem_of_dom in Hin.
    rewrite decide_True by auto. destruct (decide (mo_size r' = 0)) as [Hz|Hz].
    + rewrite bool_decide_eq_true_2 by done. apply mo_size_zero in Hz; [|done].
      destruct (mo_remove_abs name _ Hnw) as [H3 H4].
      pose proof (mo_wf_remove name _ Hnw) as Hmw. cbn [vs_name_refs put_refs].
      destruct (mo_remove name (vs_name_refs vs)) as [b m]. cbn in H3, H4, Hmw. subst b.
      rewrite Hp, bool_decide_eq_true_2 by eauto. cbn [vs_refs put_refs].
      rewrite delete_insert_eq. eexists _, _. split; [done|]. split_and!; try done.
      * by apply (vs_inv_drop vs name).
      * intros n. change (vol_refs _ n) with
          (vol_refs (put_refs (delete p (vs_refs vs)) (put_names m vs)) n) at 1.
        erewrite (vol_refs_drop vs name) by done. case_decide; [subst n|done].
        rewrite (vol_refs_Some _ _ _ _ Hp Hr). rewrite Hz in H1.
        apply (f_equal dom) in H1. rewrite dom_empty_L, dom_delete_L in H1. by rewrite <-H1.
    + rewrite bool_decide_eq_false_2 by done. eexists _, _. split; [done|]. split_and!; try done.
      * apply (vs_inv_update _ name); [done..|]. by rewrite <-mo_size_zero.
      * intros n. rewrite (vol_refs_update _ name) by done. case_decide; [subst n|done].
        rewrite H1, dom_delete_L. by rewrite (vol_refs_Some _ _ _ _ Hp Hr).
  - rewrite bool_decide_eq_false_2 by done. cbn [negb].
    assert (ref ∉ dom (mo_abs r)) as Hnin by by rewrite elem_of_dom.
    rewrite decide_False by naive_solver. rewrite delete_id in H1 by by apply eq_None_not_Some.
    eexists _, _. split; [done|]. split_and!; try done.
    + apply (vs_inv_update _ name); [done..|congruence].
    + intros n. rewrite (vol_refs_update _ name) by done. case_decide; [subst n|done].
      rewrite (vol_refs_Some _ _ _ _ Hp Hr), H1. set_solver.
Qed.

(** ** Removal *)

Lemma get_name_refs_spec name vs :
  vs_inv vs ->
  exists o, get_name_refs true name vs = Some o /\
    match o with None => vol_refs vs name = ∅ | Some l => list_to_set l = vol_refs vs name /\ l ≠ [] end.
Proof.
  intros Hi. unfold get_name_refs. pose proof (inv_names_wf _ Hi) as Hnw.
  rewrite mo_search_ok by done.
  destruct (mo_abs (vs_name_refs vs) !! name) as [p|] eqn:Hp.
  2: { exists None. split; [done|]. by apply vol_refs_None. }
  destruct (inv_live _ Hi _ _ Hp) as [r Hr]. rewrite Hr. cbn [mbind option_bind negb orb].
  pose proof (inv_refs_wf _ Hi _ _ Hr) as Hrw. pose proof (inv_nonempty _ Hi _ _ Hr) as Hne.
  rewrite bool_decide_eq_false_2 by by rewrite mo_size_zero.
  eexists. split; [done|]. cbn. rewrite (vol_refs_Some _ _ _ _ Hp Hr). split.
  - apply set_eq. intros x. rewrite elem_of_list_to_set, list_elem_of_fmap, elem_of_dom. split.
    + intros ([k b] & -> & Hin). rewrite (elem_of_mo_elements (cmp := cmp)) in Hin by done. eauto.
    + intros [b Hb]. exists (x, b). split; [done|]. by rewrite (elem_of_mo_elements (cmp := cmp)).
  - intros He. destruct Hne. destruct (mo_elements_ok r Hrw) as [_ ->].
    by destruct (mo_elements r).
Qed.

(** The loop over the drivers ends on the first one that has the volume, or on
    the last one. *)
Lemma probe_drivers_spec (ds : list (volume_driver D)) dev name d0 :
  Forall driver_ok ds -> dev_inv dev ->
  exists d dev', probe_drivers ds dev name d0 = Some (d, dev') /\ dev_inv dev' /\ (ds = [] -> d = d0) /\
    (ds ≠ [] -> exists d', d = Some d' /\ d' ∈ ds).
Proof.
  revert d0 dev. induction ds as [|d ds IH]; intros d0 dev Hv Hdev; [by exists d0, dev|].
  apply Forall_cons in Hv as [Hd Hds]. destruct (dok_get _ Hd) as (get & Hget & Hret).
  cbn. rewrite Hget. cbn. destruct (Hret name dev Hdev) as ([v|] & dev1 & -> & Hdev1); cbn.
  - eexists _, _. split; [done|]. split_and!; [done..|]. intros _. eexists. split; [done|]. left.
  - destruct (IH (Some d) dev1 Hds Hdev1) as (d1 & dev2 & -> & Hdev2 & H1 & H2).
    exists d1, dev2. split_and!; [done..|]. intros _.
    destruct (decide (ds = [])) as [->|Hne].
    + rewrite H1 by done. eexists. split; [done|]. left.
    + destruct (H2 Hne) as (d' & -> & Hin). eexists. split; [done|]. by right.
Qed.

Lemma drivers_valid vs :
  vs_inv vs -> Forall driver_ok (mo_elements (vs_drivers vs)).*2.
Proof.
  intros Hi. apply Forall_forall. intros d ([n d'] & -> & Hin)%list_elem_of_fmap.
  rewrite (elem_of_mo_elements (cmp := cmp)) in Hin by apply Hi. by eapply inv_valid.
Qed.

Lemma vs_inv_static d vs :
  vs_inv vs -> (forall d', d = Some d' -> driver_ok d') -> vs_inv (put_static d vs).
Proof. intros Hi Hd. destruct Hi. by split. Qed.
Lemma vs_inv_dev dev vs : vs_inv vs -> dev_inv dev -> vs_inv (put_dev dev vs).
Proof. intros Hi Hd. destruct Hi. by split. Qed.

(** Looking a driver up only changes the static variable and, as far as the drivers do so when
    they are asked for the volume, their state. *)
Lemma lookup_by_volume_spec name vs :
  vs_inv vs ->
  exists d dev, lookup_driver_by_volume_name true (Some name) vs = Some (d, put_static d (put_dev dev vs)) /\
    vs_inv (put_static d (put_dev dev vs)) /\ (mo_size (vs_drivers vs) ≠ 0 -> d ≠ None) /\
    (forall d', d = Some d' -> driver_ok d').
Proof.
  intros Hi. pose proof (drivers_valid _ Hi) as Hv. unfold lookup_driver_by_volume_name.
  destruct (probe_drivers_spec _ (vs_dev vs) name (vs_static vs) Hv (inv_dev _ Hi)) as (d & dev & Hd & Hdev & H1 & H2).
  cbn [negb]. rewrite Hd. cbn [mbind option_bind fst snd]. exists d, dev.
  assert (forall d', d = Some d' -> driver_ok d') as Hdv.
  { intros d' ->. destruct (decide ((mo_elements (vs_drivers vs)).*2 = [])) as [He|Hne].
    - apply (inv_static _ Hi). symmetry. auto.
    - destruct (H2 Hne) as (d'' & [= ->] & Hin). rewrite Forall_forall in Hv. auto. }
  split_and!; [done|by apply vs_inv_static; [apply vs_inv_dev|]| |done].
  intros Hs Hn. destruct (H2) as (d' & ? & _); [|congruence].
  intros He. destruct Hs. rewrite <-(length_mo_elements (ops := opsD) (cmp := cmp)) by apply Hi.
  by apply (f_equal length) in He; rewrite length_fmap in He.
Qed.

(** What [volume_remove] does, by the references of the volume. *)
Lemma volume_remove_spec name vs :
  vs_inv vs ->
  exists z vs', volume_remove true true (Some name) vs = Some (z, vs') /\ vs_inv vs' /\
    (forall n, vol_refs vs' n = vol_refs vs n) /\ vs_drivers vs' = vs_drivers vs /\
    (vol_refs vs name ≠ ∅ -> z = (-1)%Z /\ exists d, lookup_driver_by_volume_name true (Some name) vs = Some (d, vs')).
Proof.
  intros Hi. unfold volume_remove.
  destruct (lookup_by_volume_spec name vs Hi) as (d & dev & -> & Hi' & _ & Hdv).
  cbn [mbind option_bind fst snd]. destruct d as [d|].
  2: { eexists _, _. split; [done|]. split_and!; try done. eauto. }
  destruct (get_name_refs_spec name _ Hi') as (o & -> & Ho). cbn [mbind option_bind].
  change (vol_refs (put_static (Some d) (put_dev dev vs)) name) with (vol_refs vs name) in Ho.
  destruct (dok_remove _ (Hdv d eq_refl)) as (rm & Hrm & Hret). rewrite Hrm.
  destruct o as [[|x l]|]; cbn.
  - destruct Ho as [_ Ho]. done.
  - eexists _, _. split; [done|]. split_and!; try done. eauto.
  - destruct (Hret name dev (inv_dev _ Hi')) as (z & dev' & -> & Hdev'). cbn. eexists _, _. split; [done|].
    split_and!; try done. by apply vs_inv_dev.
Qed.

(** ** Initialisation *)

Lemma volume_init_spec local_name d dev :
  driver_ok d -> dev_inv dev ->
  exists vs, volume_init local_name (Some d) dev = (0%Z, Some vs) /\ vs_inv vs /\
    mo_abs (vs_drivers vs) = {[local_name := d]} /\ vs_refs vs = ∅ /\ vs_dev vs = dev /\
    forall n, vol_refs vs n = ∅.
Proof.
  intros Hok Hdev. pose proof (driver_ok_valid _ Hok) as Hd. unfold volume_init.
  destruct (mo_new_ok (ops := opsD)) as (md & -> & Hmd & Had).
  destruct (mo_new_ok (ops := opsN)) as (mn & -> & Hmn & Han).
  cbn [register_driver lookup_driver vs_drivers]. rewrite mo_search_ok, Had, lookup_empty by done.
  unfold insert_driver. rewrite Hd. cbn [negb vs_drivers].
  destruct (mo_insert_fresh local_name d md Hmd) as [H1 H2]; [by rewrite Had|].
  pose proof (mo_wf_insert true local_name d md Hmd) as Hw.
  destruct (mo_insert true local_name d md) as [b m]. cbn in H1, H2, Hw. subst b.
  rewrite bool_decide_eq_true_2 by done. rewrite Had in H2.
  eexists. split; [done|]. split_and!; try done.
  - split; cbn; rewrite ?Han, ?H2; try done.
    + intros p [? ?]. by rewrite lookup_empty in *.
    + by intros n d' [[<- <-]|[? ?]]%lookup_insert_Some.
  - intros n. unfold vol_refs. cbn. by rewrite Han, lookup_empty.
Qed.

(** ** Claims *)


(** A volume that some container uses is not removed: [volume_remove] fails,
    the drivers are only asked whether they have it, and no reference changes. *)
Theorem volume_remove_refuses_used name vs :
  vs_inv vs -> vol_refs vs name ≠ ∅ ->
  exists d vs', volume_remove true true (Some name) vs = Some ((-1)%Z, vs') /\ vs_inv vs' /\
    lookup_driver_by_volume_name true (Some name) vs = Some (d, vs') /\ forall n, vol_refs vs' n = vol_refs vs n.
Proof.
  intros Hi Hne. destruct (volume_remove_spec name vs Hi) as (z & vs' & H1 & H2 & H3 & _ & H4).
  destruct (H4 Hne) as [-> [d H5]]. by exists d, vs'.
Qed.

Lemma prune_loop_spec vols vs :
  vs_inv vs ->
  exists pruned vs', prune_loop vols vs = Some (pruned, vs') /\ vs_inv vs' /\
    (forall n, vol_refs vs' n = vol_refs vs n) /\
    (forall n, n ∈ pruned -> vol_refs vs n = ∅ /\ n ∈ v_name <$> vols).
Proof.
  revert vs. induction vols as [|v vols IH]; intros vs Hi.
  { exists [], vs. split_and!; try done. by intros n ?%elem_of_nil. }
  cbn [prune_loop]. destruct (volume_remove_spec (v_name v) vs Hi)
    as (z & vs1 & -> & Hi1 & Hr1 & _ & Hz). cbn [mbind option_bind fst snd].
  destruct (IH vs1 Hi1) as (pruned & vs2 & -> & Hi2 & Hr2 & Hp). cbn [mbind option_bind fst snd].
  eexists _, vs2. split; [done|]. split_and!; [done|by intros; rewrite Hr2|].
  intros n Hn. cbn.
  assert (n ∈ pruned -> vol_refs vs n = ∅ /\ n ∈ v_name v :: (v_name <$> vols)) as Hrest.
  { intros H. apply Hp in H as [H1 H2]. rewrite Hr1 in H1. split; [done|by right]. }
  case_bool_decide as Hd; [|by apply Hrest].
  apply elem_of_cons in Hn as [->|Hn]; [|by apply Hrest]. split; [|by left].
  destruct (decide (vol_refs vs (v_name v) = ∅)) as [|Hne]; [done|].
  destruct (Hz Hne) as [? _]. congruence.
Qed.

(** [volume_prune] reports only volumes that no container uses, and leaves
    all references as they are. *)
Theorem volume_prune_spares_used vs :
  vs_inv vs ->
  exists z pruned vs', volume_prune vs = Some (z, pruned, vs') /\ vs_inv vs' /\
    (forall n, vol_refs vs' n = vol_refs vs n) /\ (forall n, n ∈ pruned -> vol_refs vs n = ∅).
Proof.
  intros Hi. unfold volume_prune, volume_list, list_all_driver_volumes. cbn [negb].
  pose proof (drivers_valid _ Hi) as Hv.
  destruct (mo_elements (vs_drivers vs)) as [|[n d] l].
  { exists (-1)%Z, [], vs. split_and!; try done. by intros n ?%elem_of_nil. }
  apply Forall_cons in Hv as [Hd _]. destruct (dok_list _ Hd) as (li & Hli & Hret). cbn [snd] in Hli. rewrite Hli.
  cbn [mbind option_bind]. destruct (Hret _ (inv_dev _ Hi)) as ([vols|] & dev & -> & Hdev); cbn [mbind option_bind fst snd].
  - destruct (prune_loop_spec vols (put_dev dev vs)) as (pruned & vs' & -> & H1 & H2 & H3); [by apply vs_inv_dev|].
    cbn. eexists _, pruned, vs'. split_and!; try done. intros m Hm. by apply H3.
  - exists (-1)%Z, [], (put_dev dev vs). split_and!; try done; [by apply vs_inv_dev|]. by intros m ?%elem_of_nil.
Qed.

(** As long as a driver is registered, looking a driver up by a volume name
    gives one even if no driver has that volume. *)
Theorem lookup_driver_never_fails name vs :
  vs_inv vs -> mo_size (vs_drivers vs) ≠ 0 ->
  exists d vs', lookup_driver_by_volume_name true (Some name) vs = Some (Some d, vs').
Proof.
  intros Hi Hs. destruct (lookup_by_volume_spec name vs Hi) as (d & dev & -> & _ & Hd & _).
  specialize (Hd Hs). destruct d as [d|]; [|done]. by eexists _, _.
Qed.

(** Without memory for the list of users, [volume_remove] goes on and calls
    the driver although containers use the volume. *)
Theorem volume_remove_oom_ignores_users name vs :
  vs_inv vs -> mo_size (vs_drivers vs) ≠ 0 -> vol_refs vs name ≠ ∅ ->
  exists d rm dev z dev' vs', drv_remove d = Some rm /\ rm name dev = Some (z, dev') /\
    volume_remove true false (Some name) vs = Some (z, vs') /\ vs_dev vs' = dev'.
Proof.
  intros Hi Hs Hne. unfold volume_remove.
  destruct (lookup_by_volume_spec name vs Hi) as (d & dev & -> & Hi' & Hd & Hdv).
  specialize (Hd Hs). destruct d as [d|]; [|done]. specialize (Hdv d eq_refl).
  cbn [mbind option_bind fst snd]. unfold get_name_refs. cbn [vs_name_refs put_static put_dev vs_refs].
  rewrite mo_search_ok by apply Hi.
  destruct (mo_abs (vs_name_refs vs) !! name) as [p|] eqn:Hp; [|by apply vol_refs_None in Hp].
  destruct (inv_live _ Hi _ _ Hp) as [r Hr]. rewrite Hr. cbn [mbind option_bind negb orb].
  destruct (dok_remove _ Hdv) as (rm & Hrm & Hret). rewrite Hrm. cbn.
  destruct (Hret name dev (inv_dev _ Hi')) as (z & dev' & Hz & _). rewrite Hz. by eexists d, rm, dev, z, dev', _.
Qed.
End props.

(** ** Witnesses: maps of map.c, and a driver that keeps a list of names *)

Definition demo_driver : volume_driver (list cstr) :=
  let mk n := Vol (c_str "local") n n None in
  Driver (Some (fun n l => Some (Some (mk n), n :: l)))
    (Some (fun n l => Some (if bool_decide (n ∈ l) then Some (mk n) else None, l)))
    (Some (fun _ l => Some (0%Z, l))) (Some (fun _ l => Some (0%Z, l)))
    (Some (fun l => Some (Some (mk <$> l), l)))
    (Some (fun n l => Some (0%Z, filter (fun m => m ≠ n) l))).
#[export] Instance demo_inv : DeviceInv (list cstr) := fun _ => True.
Lemma demo_driver_ok : driver_ok demo_driver.
Proof. split; eexists; (split; [done|]); repeat intros ?; by eexists _, _. Qed.

#[local] Instance demo_opsD : MapOps cstr (volume_driver (list cstr)) (map_t cstr (volume_driver (list cstr))) :=
  map_c_MapOps MAP_STR_PTR.
#[local] Instance demo_opsN : MapOps cstr N (map_t cstr N) := map_c_MapOps MAP_STR_PTR.
#[local] Instance demo_opsR : MapOps cstr bool (map_t cstr bool) := map_c_MapOps MAP_STR_BOOL.
#[local] Instance demo_lawsD : MapLaws mk_cmp demo_opsD := map_c_MapLaws MAP_STR_PTR.
#[local] Instance demo_lawsN : MapLaws mk_cmp demo_opsN := map_c_MapLaws MAP_STR_PTR.
#[local] Instance demo_lawsR : MapLaws mk_cmp demo_opsR := map_c_MapLaws MAP_STR_BOOL.

Definition demo_vstore : Type :=
  volume_store (list cstr) (map_t cstr (volume_driver (list cstr))) (map_t cstr N)
    (map_t cstr bool).

(** The store after initialisation, with the volumes "data" and "tmp". *)
Definition demo_vs : option demo_vstore :=
  (volume_init (opsD := demo_opsD) (opsN := demo_opsN) (c_str "local") (Some demo_driver)
     [c_str "data"; c_str "tmp"]).2.

Definition demo_allocs : ref_allocs := RefAllocs 7 true true.
(** The store once container "c1" uses "data". *)
Definition demo_used : option demo_vstore :=
  vs ← demo_vs;
  r ← volume_add_ref (opsN := demo_opsN) (opsR := demo_opsR) (fun _ => c_str "") demo_allocs
        (Some (c_str "data")) (Some (c_str "c1")) vs;
  Some r.2.

Lemma demo_vs_inv : exists vs, demo_vs = Some vs /\
  vs_inv (opsD := demo_opsD) (opsN := demo_opsN) (opsR := demo_opsR) vs /\
  ref_allocs_ok demo_allocs vs /\
  mo_abs (vs_drivers vs) = {[c_str "local" := demo_driver]} /\
  vs_dev vs = [c_str "data"; c_str "tmp"].
Proof.
  destruct (volume_init_spec (opsD := demo_opsD) (opsN := demo_opsN) (opsR := demo_opsR)
    (c_str "local") demo_driver [c_str "data"; c_str "tmp"])
    as (vs & Hv & Hi & Hd & Hr & Hdev & _); [apply demo_driver_ok|done|].
  exists vs. unfold demo_vs. rewrite Hv. split; [done|]. split; [exact Hi|].
  split; [|exact (conj Hd Hdev)]. unfold ref_allocs_ok. by rewrite Hr.
Qed.

Lemma demo_used_inv : exists vs, demo_used = Some vs /\
  vs_inv (opsD := demo_opsD) (opsN := demo_opsN) (opsR := demo_opsR) vs /\
  vol_refs (opsN := demo_opsN) (opsR := demo_opsR) vs (c_str "data") ≠ ∅ /\
  mo_size (vs_drivers vs) ≠ 0 /\
  mo_abs (vs_drivers vs) = {[c_str "local" := demo_driver]} /\
  vs_dev vs = [c_str "data"; c_str "tmp"].
Proof.
  destruct demo_vs_inv as (vs & Hv & Hi & Ha & Hd & Hdev).
  destruct (add_name_ref_spec (opsD := demo_opsD) (opsN := demo_opsN) (opsR := demo_opsR)
    (fun _ => c_str "") demo_allocs (c_str "data") (c_str "c1") vs Hi Ha)
    as (vs' & Hadd & Hi' & Hdr & Hdev' & Hr).
  exists vs'. unfold demo_used. rewrite Hv. cbn [mbind option_bind volume_add_ref]. rewrite Hadd.
  split; [done|]. split; [exact Hi'|]. split; [|split].
  - rewrite Hr, decide_True by done. set_solver.
  - rewrite mo_size_ok by apply Hi'. rewrite Hdr, Hd. by rewrite map_size_singleton.
  - rewrite Hdr, Hdev'. exact (conj Hd Hdev).
Qed.


Lemma volume_remove_refuses_used_witness : exists vs d vs', demo_used = Some vs /\
  volume_remove (opsD := demo_opsD) (opsN := demo_opsN) (opsR := demo_opsR) true true (Some (c_str "data")) vs
  = Some ((-1)%Z, vs') /\ lookup_driver_by_volume_name (opsD := demo_opsD) true (Some (c_str "data")) vs = Some (d, vs').
Proof.
  destruct demo_used_inv as (vs & Hv & Hi & Hne & _). exists vs.
  destruct (volume_remove_refuses_used (opsD := demo_opsD) (opsN := demo_opsN) (opsR := demo_opsR)
    (c_str "data") vs Hi Hne) as (d & vs' & H1 & _ & H2 & _). exists d, vs'.
  exact (conj Hv (conj H1 H2)).
Defined.

Lemma volume_prune_spares_used_witness : exists vs z pruned vs', demo_used = Some vs /\
  volume_prune (opsD := demo_opsD) (opsN := demo_opsN) (opsR := demo_opsR) vs = Some (z, pruned, vs') /\
  c_str "data" ∉ pruned.
Proof.
  destruct demo_used_inv as (vs & Hv & Hi & Hne & _).
  destruct (volume_prune_spares_used (opsD := demo_opsD) (opsN := demo_opsN) (opsR := demo_opsR) vs Hi)
    as (z & pruned & vs' & H1 & _ & _ & H2).
  exists vs, z, pruned, vs'. split; [exact Hv|]. split; [exact H1|].
  intros Hin. exact (Hne (H2 _ Hin)).
Defined.

Lemma lookup_driver_never_fails_witness : exists vs d vs', demo_used = Some vs /\
  lookup_driver_by_volume_name (opsD := demo_opsD) true (Some (c_str "nosuch")) vs = Some (Some d, vs').
Proof.
  destruct demo_used_inv as (vs & Hv & Hi & _ & Hs & _). exists vs.
  destruct (lookup_driver_never_fails (opsD := demo_opsD) (opsN := demo_opsN) (opsR := demo_opsR)
    (c_str "nosuch") vs Hi Hs) as (d & vs'' & H1).
  exists d, vs''. exact (conj Hv H1).
Defined.

Lemma volume_remove_oom_ignores_users_witness : exists vs z vs', demo_used = Some vs /\
  volume_remove (opsD := demo_opsD) (opsN := demo_opsN) (opsR := demo_opsR) true false (Some (c_str "data")) vs
  = Some (z, vs').
Proof.
  destruct demo_used_inv as (vs & Hv & Hi & Hne & Hs & _).
  destruct (volume_remove_oom_ignores_users (opsD := demo_opsD) (opsN := demo_opsN) (opsR := demo_opsR)
    (c_str "data") vs Hi Hs Hne) as (d & rm & dev & z & dev' & vs' & _ & _ & H & _).
  exists vs, z, vs'. exact (conj Hv H).
Defined.
