(* ===== verification/StrUtils.v ===== *)
(** C strings and NULL-terminated arrays of strings:
    src/src/utils/cutils/utils_array.c and utils_string.c.

    A string is the list of its characters up to the terminating NUL; a NULL
    pointer is [None].  [alloc n] tells whether [calloc] finds [n] bytes.  Arrays
    of strings are lists of cells, [None] being a NULL cell; a read or a write
    outside of an array is undefined behaviour and yields the outer [None]. *)
From Stdlib Require Import Ascii.
From S2P Require Import Prelude KeyOrders.

Abbreviation cs := (list ascii) (only parsing).
Definition bs (s : string) : cs := String.list_ascii_of_string s.

(** Cells of an array, the NULL at its end included. *)
Abbreviation arr := (list (option (list ascii))) (only parsing).

Definition SIZE_MAX : Z := 2 ^ 64 - 1.
Definition MAX_MEMORY_SIZE : Z := 2 ^ 47.
Definition sizeof_ptr : Z := 8.

(** ** Memory *)
Section alloc.
Context (alloc : Z -> bool).

(** [util_common_calloc_s] (utils.c) *)
Definition util_common_calloc_s (size : Z) : bool :=
  negb ((size =? 0) || (size >? MAX_MEMORY_SIZE))%Z && alloc size.

(** ** utils_array.c *)

(** [array[i] = x] *)
Definition arr_set (a : arr) (i : nat) (x : option cs) : option arr :=
  if decide (i < length a) then Some (<[i := x]> a) else None.

(** [util_array_len]: the loop stops at the first NULL; running past the end of
    the array is undefined. *)
Fixpoint util_array_len (a : arr) : option nat :=
  match a with
  | [] => None
  | None :: _ => Some 0
  | Some _ :: a => n ← util_array_len a; Some (S n)
  end.

(** [util_array_append]: the result and the new array. *)
Definition util_array_append (array : option arr) (element : option cs)
    : option (Z * option arr) :=
  match element with
  | None => Some (-1, array)%Z
  | Some e =>
      len ← match array with None => Some 0 | Some a => util_array_len a end;
      if (Z.of_nat len >? SIZE_MAX / sizeof_ptr - 2)%Z then Some (-1, array)%Z
      else if negb (util_common_calloc_s ((Z.of_nat len + 2) * sizeof_ptr)) then Some (-1, array)%Z
      else
        let new_array := match array with None => [] | Some a => take len a end
                         ++ replicate 2 None in
        new_array ← arr_set new_array len (Some e);
        Some (0%Z, Some new_array)
  end.

(** The loop [while (size + 1 > add_capacity) add_capacity += increment]. *)
Fixpoint grow_capacity (fuel : nat) (size add_capacity increment : Z) : option Z :=
  match fuel with
  | O => None
  | S fuel =>
      if (wrap_u 64 (size + 1) >? add_capacity)%Z
      then grow_capacity fuel size (wrap_u 64 (add_capacity + increment)) increment
      else Some add_capacity
  end.

(** [util_grow_array]: the result, the array and its capacity. *)
Definition util_grow_array (orig_array : option arr) (orig_capacity size increment : Z)
    : option (Z * option arr * Z) :=
  if (increment =? 0)%Z then Some (-1, orig_array, orig_capacity)%Z
  else
    let '(orig_array, orig_capacity) :=
      match orig_array with
      | None => (None, 0%Z)
      | Some a => if (orig_capacity =? 0)%Z then (None, 0%Z) else (Some a, orig_capacity)
      end in
    add_capacity ← grow_capacity (Z.to_nat (size + 2)) size orig_capacity increment;
    if (add_capacity =? orig_capacity)%Z then Some (0%Z, orig_array, orig_capacity)
    else if (add_capacity >? SIZE_MAX / sizeof_ptr)%Z then Some (-1, orig_array, orig_capacity)%Z
    else if negb (util_common_calloc_s (add_capacity * sizeof_ptr))
    then Some (-1, orig_array, orig_capacity)%Z
    else
      let old := match orig_array with None => [] | Some a => take (Z.to_nat orig_capacity) a end in
      Some (0%Z, Some (old ++ replicate (Z.to_nat add_capacity - length old) None), add_capacity).

(** ** Splitting (utils_string.c) *)

(** [util_shrink_array] *)
Definition util_shrink_array (orig_array : arr) (new_size : nat) : option arr :=
  if decide (new_size = 0) then Some orig_array
  else if (Z.of_nat new_size >? SIZE_MAX / sizeof_ptr)%Z then Some orig_array
  else if negb (util_common_calloc_s (Z.of_nat new_size * sizeof_ptr)) then Some orig_array
  else if decide (new_size <= length orig_array) then Some (take new_size orig_array) else None.

(** [make_empty_array]: two cells, the first one the empty string; [None] is NULL. *)
Definition make_empty_array : option arr :=
  if alloc (2 * sizeof_ptr) then Some [Some []; None] else None.

(** [strsep(&cur, deli)] with a delimiter of one character: the token and the new
    [cur]. *)
Fixpoint strsep_one (sep : ascii) (s : cs) : cs * option cs :=
  match s with
  | [] => ([], None)
  | c :: s =>
      if decide (c = sep) then ([], Some s)
      else let '(tok, cur) := strsep_one sep s in (c :: tok, cur)
  end.
Definition strsep (sep : ascii) (cur : option cs) : option (cs * option cs) :=
  match cur with None => None | Some s => Some (strsep_one sep s) end.

(** The loop that collects tokens into a growing array: [next] gives the next
    token, if any.  The inner [None] is the jump to [err_out]. *)
Fixpoint collect_tokens (fuel : nat) {St : Type} (next : St -> option (cs * St)) (st : St)
    (res_array : option arr) (capacity : Z) (count : nat)
    : option (option (option arr * nat)) :=
  match fuel with
  | O => None
  | S fuel =>
      match next st with
      | None => Some (Some (res_array, count))
      | Some (token, st) =>
          r ← util_grow_array res_array capacity (Z.of_nat count + 1) 16;
          let '(ret, res_array, capacity) := r in
          if (ret <? 0)%Z then Some None
          else
            res_array ← res_array;
            res_array ← arr_set res_array count (Some token);
            collect_tokens fuel next st (Some res_array) capacity (count + 1)
      end
  end.

(** [util_string_split_multi]; the inner [None] is NULL. *)
Definition util_string_split_multi (src_str : option cs) (delim : ascii) : option (option arr) :=
  match src_str with
  | None => Some None
  | Some [] => Some make_empty_array
  | Some s =>
      r ← collect_tokens (length s + 2) (strsep delim) (Some s) None 0 0;
      match r with
      | None => Some None
      | Some (res_array, count) =>
          res_array ← res_array;
          a ← util_shrink_array res_array (count + 1);
          Some (Some a)
      end
  end.

(** [strtok_r] with a delimiter of one character: skip delimiters, then the token
    up to the next one. *)
Fixpoint skip_char (sep : ascii) (s : cs) : cs :=
  match s with
  | [] => []
  | c :: s' => if decide (c = sep) then skip_char sep s' else s
  end.
Definition strtok (sep : ascii) (s : cs) : option (cs * cs) :=
  match skip_char sep s with
  | [] => None
  | s => let '(tok, cur) := strsep_one sep s in Some (tok, default [] cur)
  end.

(** [util_string_split] *)
Definition util_string_split (src_str : option cs) (sep : ascii) : option (option arr) :=
  match src_str with
  | None => Some None
  | Some [] => Some make_empty_array
  | Some s =>
      r ← collect_tokens (length s + 2) (strtok sep) s None 0 0;
      match r with
      | None => Some None
      | Some (None, _) => Some make_empty_array
      | Some (Some res_array, count) =>
          a ← util_shrink_array res_array (count + 1);
          Some (Some a)
      end
  end.

(** [strchr(s, sep)]: what is before the first [sep], and what is after it. *)
Fixpoint strchr (sep : ascii) (s : cs) : option (cs * cs) :=
  match s with
  | [] => None
  | c :: s =>
      if decide (c = sep) then Some ([], s)
      else match strchr sep s with None => None | Some (p, q) => Some (c :: p, q) end
  end.

(** The loop of [util_string_split_n]: the inner [None] is the jump to [err_out]. *)
Fixpoint split_n_loop (fuel : nat) (sep : ascii) (n count : nat) (index : cs)
    (res_array : option arr) : option (option (option arr)) :=
  match fuel with
  | O => None
  | S fuel =>
      let finish :=
        r ← util_array_append res_array (Some index);
        Some (if (r.1 =? 0)%Z then Some r.2 else None) in
      match strchr sep index with
      | None => finish
      | Some (before, after) =>
          let count := count + 1 in
          if decide (n <= count) then finish
          else
            r ← util_array_append res_array (Some before);
            if (r.1 =? 0)%Z then split_n_loop fuel sep n count after r.2 else Some None
      end
  end.

(** [util_string_split_n] *)
Definition util_string_split_n (src : option cs) (sep : ascii) (n : nat) : option (option arr) :=
  match src with
  | None => Some None
  | Some s =>
      if decide (n = 0) then Some None
      else
        match s with
        | [] => Some make_empty_array
        | _ =>
            r ← split_n_loop (length s + 1) sep n 0 s None;
            Some (match r with None => None | Some a => a end)
        end
  end.

(** ** Joining *)

(** The loop of [util_string_join] that adds up the lengths; [None] is the early
    return of NULL. *)
Fixpoint join_length (result_len : Z) (parts : arr) : option Z :=
  match parts with
  | [] => Some result_len
  | None :: _ => None
  | Some p :: parts =>
      if (result_len >=? SIZE_MAX - Z.of_nat (length p))%Z then None
      else join_length (result_len + Z.of_nat (length p)) parts
  end.

(** [do_string_join]: the [strcat]s into a buffer of [result_len + 1] bytes;
    writing more than that is undefined. *)
Fixpoint strcat_parts (sep : cs) (parts : list cs) : cs :=
  match parts with
  | [] => []
  | [p] => p
  | p :: parts => p ++ sep ++ strcat_parts sep parts
  end.
Definition do_string_join (sep : cs) (parts : list cs) (result_len : Z) : option (option cs) :=
  if negb ((0 <? result_len + 1) && (result_len + 1 <=? MAX_MEMORY_SIZE) && alloc (result_len + 1))%Z
  then Some None
  else
    let res := strcat_parts sep parts in
    if (Z.of_nat (length res) <=? result_len)%Z then Some (Some res) else None.

(** [util_string_join]: the outer [None] is undefined behaviour, the inner one
    NULL. *)
Definition util_string_join (sep : option cs) (parts : option arr) : option (option cs) :=
  match sep, parts with
  | Some sep, Some parts =>
      let len := Z.of_nat (length parts) in
      let sep_len := Z.of_nat (length sep) in
      if (len =? 0)%Z then Some None
      else if (negb (sep_len =? 0) && negb (sep_len =? 1) && (len >? SIZE_MAX / sep_len + 1))%Z
      then Some None
      else
        match join_length ((len - 1) * sep_len) parts, mapM id parts with
        | Some result_len, Some ps => do_string_join sep ps result_len
        | _, _ => Some None
        end
  | _, _ => Some None
  end.

(** [util_string_append] *)
Definition util_string_append (post pre : option cs) : option cs :=
  match post, pre with
  | None, None => None
  | Some post, None => Some post
  | None, Some pre => Some pre
  | Some post, Some pre =>
      if (Z.of_nat (length post) >? SIZE_MAX - Z.of_nat (length pre) - 1)%Z then None
      else if negb (util_common_calloc_s (Z.of_nat (length post) + Z.of_nat (length pre) + 1))
      then None
      else Some (pre ++ post)
  end.

(** [util_sub_string] *)
Definition util_sub_string (source : option cs) (offset len : nat) : option cs :=
  match source with
  | None => None
  | Some s =>
      if decide (len = 0) then None
      else if decide (length s < offset) then None
      else
        let substr_len := (if decide (len <= length s - offset) then len else length s - offset) + 1 in
        if negb (util_common_calloc_s (Z.of_nat substr_len)) then None
        else Some (take (substr_len - 1) (drop offset s))
  end.
End alloc.

(** ** Characters *)

(** [isspace], [tolower] and [toupper] in the "C" locale. *)
Definition isspace (c : ascii) : bool :=
  let n := nat_of_ascii c in bool_decide (n = 32) || (bool_decide (9 <= n) && bool_decide (n <= 13)).
Definition tolower (c : ascii) : ascii :=
  let n := nat_of_ascii c in
  if bool_decide (65 <= n) && bool_decide (n <= 90) then ascii_of_nat (n + 32) else c.
Definition toupper (c : ascii) : ascii :=
  let n := nat_of_ascii c in
  if bool_decide (97 <= n) && bool_decide (n <= 122) then ascii_of_nat (n - 32) else c.

(** [util_strings_contains_any]: the two nested loops. *)
Definition util_strings_contains_any (str substr : option cs) : bool :=
  match str, substr with
  | Some str, Some substr =>
      existsb (fun a => existsb (fun b => bool_decide (a = b)) substr) str
  | _, _ => false
  end.

(** [strcasecmp(a, b) == 0] *)
Fixpoint strcaseeq (a b : cs) : bool :=
  match a, b with
  | [], [] => true
  | x :: a, y :: b => bool_decide (tolower x = tolower y) && strcaseeq a b
  | _, _ => false
  end.

(** [util_strings_in_slice] *)
Definition util_strings_in_slice (strarray : option arr) (str : option cs) : bool :=
  match strarray, str with
  | Some a, Some str =>
      existsb (fun e => match e with None => false | Some e => strcaseeq e str end) a
  | _, _ => false
  end.

Definition util_strings_to_lower (str : option cs) : option cs :=
  match str with None => None | Some s => Some (List.map tolower s) end.
Definition util_strings_to_upper (str : option cs) : option cs :=
  match str with None => None | Some s => Some (List.map toupper s) end.

(** [util_str_skip_str]: what follows [skip] in [str]. *)
Fixpoint skip_str (str skip : cs) : option cs :=
  match skip, str with
  | [], _ => Some str
  | _ :: _, [] => None
  | b :: skip, a :: str => if decide (a = b) then skip_str str skip else None
  end.
Definition util_str_skip_str (str skip : option cs) : option cs :=
  match str, skip with Some str, Some skip => skip_str str skip | _, _ => None end.

Section chars.
(** The value of a [char]; the functions below compare it with an
    [unsigned char]. *)
Context (cval : ascii -> Z).

Definition util_strings_count (str : option cs) (c : ascii) : Z :=
  match str with
  | None => 0
  | Some str =>
      foldl (fun res x => if (cval x =? uchar_value c)%Z then wrap_s 32 (res + 1) else res) 0%Z str
  end.

(** The loop of [util_string_delchar_inplace] over the buffer [s], whose length
    is [slen]: the contents of the buffer when it ends.  Cutting the string at
    [i] writes a NUL there. *)
Fixpoint delchar_loop (fuel : nat) (slen : nat) (c : ascii) (s : cs) (i j : nat) : option cs :=
  match fuel with
  | O => None
  | S fuel =>
      if decide (i < slen) then
        if decide (j = slen) then Some (take i s)
        else
          x ← s !! j;
          let s := <[i := x]> s in
          delchar_loop fuel slen c s
            (if (cval x =? uchar_value c)%Z then i else i + 1) (j + 1)
      else Some s
  end.
Definition util_string_delchar (ss : option cs) (c : ascii) : option (option cs) :=
  match ss with
  | None => Some None
  | Some s => s ← delchar_loop (length s + 1) (length s) c s 0 0; Some (Some s)
  end.
End chars.

(** ** Trimming *)

(** Cut characters that satisfy [p] from the left, and from the right. *)
Fixpoint trim_left (p : ascii -> bool) (s : cs) : cs :=
  match s with [] => [] | c :: s' => if p c then trim_left p s' else s end.

(** A loop that walks from the last character towards the first while [p] holds;
    [None] when it runs past the first one. *)
Fixpoint walk_back (p : ascii -> bool) (s : cs) (end_ : nat) : option nat :=
  match s !! end_ with
  | None => None
  | Some c =>
      if p c then match end_ with O => None | S e => walk_back p s e end else Some end_
  end.

(** [util_trim_newline] *)
Fixpoint trim_newline_loop (s : cs) (len : nat) : cs :=
  match len with
  | O => take 0 s
  | S l => if decide (s !! l = Some "010"%char) then trim_newline_loop s l else take len s
  end.
Definition util_trim_newline (s : option cs) : option cs :=
  match s with None => None | Some s => Some (trim_newline_loop s (length s)) end.

Definition util_left_trim_space (str : cs) : cs := trim_left isspace str.
(** The loop has no lower bound: [None] when it leaves the string. *)
Definition util_right_trim_space (str : cs) : option cs :=
  if decide (length str = 0) then Some str
  else e ← walk_back isspace str (length str - 1); Some (take (e + 1) str).
Definition util_trim_space (str : option cs) : option (option cs) :=
  match str with
  | None => Some None
  | Some str => s ← util_right_trim_space (util_left_trim_space str); Some (Some s)
  end.

Definition is_quote (c : ascii) : bool := bool_decide (nat_of_ascii c = 34).
Definition is_quote_or_newline (c : ascii) : bool :=
  bool_decide (nat_of_ascii c = 0) || bool_decide (nat_of_ascii c = 10) || is_quote c.
Definition util_left_trim_quotation (str : cs) : cs := trim_left is_quote str.
(** Here the loop stops before the first character. *)
Definition util_right_trim_quotation (str : cs) : cs :=
  if decide (length str = 0) then str
  else
    match walk_back is_quote_or_newline str (length str - 1) with
    | None => []
    | Some e => take (e + 1) str
    end.
Definition util_trim_quotation (str : option cs) : option cs :=
  match str with
  | None => None
  | Some str => Some (util_right_trim_quotation (util_left_trim_quotation str))
  end.

(** [util_is_space_string] *)
Definition util_is_space_string (str : option cs) : bool :=
  match str with None => false | Some s => forallb isspace s end.

(** ** Prefixes, suffixes, tokens *)

Definition util_has_prefix (str prefix : option cs) : bool :=
  match str, prefix with
  | Some s, Some p =>
      if decide (length s < length p) then false else bool_decide (take (length p) s = p)
  | _, _ => false
  end.
Definition util_has_suffix (str suffix : option cs) : bool :=
  match str, suffix with
  | Some s, Some p =>
      if decide (length s < length p) then false
      else bool_decide (drop (length s - length p) s = p)
  | _, _ => false
  end.

(** [strstr(str, needle)]: what precedes the first occurrence, and what follows. *)
Fixpoint strstr (str needle : cs) : option (cs * cs) :=
  match skip_str str needle with
  | Some rest => Some ([], rest)
  | None =>
      match str with
      | [] => None
      | c :: str => match strstr str needle with None => None | Some (p, q) => Some (c :: p, q) end
      end
  end.

(** [util_str_token]: the token and the new [*input]; [dup_ok] is the outcome of
    [strndup]. *)
Definition util_str_token (dup_ok : bool) (input delimiter : option cs)
    : option cs * option cs :=
  match input, delimiter with
  | Some str, Some d =>
      if negb dup_ok then (None, input)
      else
        match strstr str d with
        | Some (tok, rest) => (Some tok, Some rest)
        | None => (Some str, None)
        end
  | _, _ => (None, input)
  end.

(** ** Copies of arrays *)

(** [util_str_array_dup] of the first [length src] cells. *)
Definition util_str_array_dup (alloc : Z -> bool) (src : option arr) : option arr :=
  match src with
  | None => None
  | Some src =>
      let len := Z.of_nat (length src) in
      if (len =? 0)%Z then None
      else if (len >? SIZE_MAX / sizeof_ptr - 1)%Z then None
      else if negb (util_common_calloc_s alloc (sizeof_ptr * (len + 1))) then None
      else Some (src ++ [None])
  end.

(** [util_dup_array_of_strings] with non-NULL [dst] and [dst_len]: the result and
    what is stored, if anything. *)
Definition util_dup_array_of_strings (alloc : Z -> bool) (src : option arr)
    : Z * option (option arr) :=
  match src with
  | None => (0%Z, None)
  | Some src =>
      let len := Z.of_nat (length src) in
      if (len =? 0)%Z then (0%Z, None)
      else if (len >? SIZE_MAX / sizeof_ptr)%Z then (-1, Some None)%Z
      else if negb (util_common_calloc_s alloc (len * sizeof_ptr)) then (-1, Some None)%Z
      else (0%Z, Some (Some src))
  end.
