(* ===== verification/StrProps.v ===== *)
(** Splitting, joining, trimming and filtering of strings: memory safety and
    agreement with reference functions on lists. *)
From Stdlib Require Import Ascii.
From S2P Require Import Prelude KeyOrders StrUtils.

(** The NULL-terminated array of some strings. *)
Definition arr_of (toks : list cs) : arr := (Some <$> toks) ++ [None].

(** An array with room: the strings, then at least one NULL. *)
Definition room (a : arr) (toks : list cs) (capacity : Z) : Prop :=
  exists k, a = (Some <$> toks) ++ replicate (S k) None /\ Z.of_nat (length a) = capacity.

(** The longest strings and arrays considered. *)
Definition small (n : Z) : Prop := (n < 2 ^ 40)%Z.

Section with_memory.
Context (alloc : Z -> bool) (Halloc : forall n, alloc n = true).

(** ** Arrays *)

Lemma calloc_ok n : (0 < n <= 2 ^ 47)%Z -> util_common_calloc_s alloc n = true.
Proof.
  intros Hn. unfold util_common_calloc_s, MAX_MEMORY_SIZE. rewrite Halloc, andb_true_r.
  destruct (Z.eqb_spec n 0), (Z.gtb_spec n (2 ^ 47)); cbn; (done || lia).
Qed.

Lemma grow_capacity_spec fuel size cap inc :
  (0 <= cap)%Z -> (0 < inc)%Z -> (0 <= size)%Z -> (size + 1 + inc < 2 ^ 64)%Z ->
  (size + 1 - cap < Z.of_nat fuel)%Z -> (0 < fuel) ->
  exists cap', grow_capacity fuel size cap inc = Some cap' /\
    (size + 1 <= cap')%Z /\ (cap' = cap \/ cap <= cap' < size + 1 + inc)%Z.
Proof.
  revert cap. induction fuel as [|fuel IH]; intros cap Hc Hi Hs Hb Hf H0; [lia|].
  cbn [grow_capacity]. rewrite (wrap_u_small 64 (size + 1)) by lia.
  destruct (Z.gtb_spec (size + 1) cap) as [Hgt|Hle].
  - rewrite wrap_u_small by lia.
    destruct (IH (cap + inc)%Z) as (cap' & -> & H1 & H2); [lia..|].
    exists cap'. split; [done|]. lia.
  - exists cap. split; [done|]. lia.
Qed.

(** Growing makes room for one more string and the NULL. *)
Lemma grow_array_spec res toks cap :
  small (Z.of_nat (length toks)) ->
  (res = None /\ toks = [] /\ cap = 0%Z) \/ (exists a, res = Some a /\ room a toks cap) ->
  exists a k cap', util_grow_array alloc res cap (Z.of_nat (length toks) + 1) 16
      = Some (0%Z, Some a, cap') /\
    a = (Some <$> toks) ++ replicate (S (S k)) None /\ Z.of_nat (length a) = cap'.
Proof.
  intros Hsm Hres. unfold small in Hsm.
  set (n := Z.of_nat (length toks)). assert (0 <= n)%Z by (subst n; lia).
  unfold util_grow_array. cbn [Z.eqb]. 
  assert (exists a0, a0 = match res with None => [] | Some a => a end /\
    Z.of_nat (length a0) = cap /\ (exists k, a0 = (Some <$> toks) ++ replicate k None) /\
    match res with
    | None => (None, 0%Z)
    | Some a => if (cap =? 0)%Z then (None, 0%Z) else (Some a, cap)
    end = (res, cap)) as (a0 & Ha0 & Hlen & [k Hk] & ->).
  { destruct Hres as [(-> & -> & ->)|(a & -> & k & -> & Hl)].
    - exists []. split_and!; try done. by exists 0.
    - exists ((Some <$> toks) ++ replicate (S k) None). split_and!; try done; [by eexists|].
      rewrite length_app, length_replicate in Hl. destruct (Z.eqb_spec cap 0); [lia|done]. }
  assert (0 <= cap)%Z by lia.
  destruct (grow_capacity_spec (Z.to_nat (n + 1 + 2)) (n + 1) cap 16)
    as (cap' & -> & Hc1 & Hc2); [lia..|]. cbn [mbind option_bind].
  assert (length a0 = length toks + k) as Hlk
    by (rewrite Hk, length_app, length_fmap, length_replicate; done).
  destruct (Z.eqb_spec cap' cap) as [->|Hne].
  - destruct res as [a|]; cbn in Ha0; subst a0.
    2: { cbn in *. lia. }
    exists a, (k - 2), cap. split; [done|]. split; [|done]. rewrite Hk. f_equal. f_equal. lia.
  - destruct Hc2 as [|Hc2]; [done|].
    unfold SIZE_MAX, sizeof_ptr. destruct (Z.gtb_spec cap' ((2 ^ 64 - 1) / 8)) as [Hgt|_].
    { assert ((2 ^ 64 - 1) / 8 = 2305843009213693951)%Z as Hv by reflexivity. lia. }
    rewrite calloc_ok by lia. cbn [negb].
    set (old := match res with None => [] | Some a => take (Z.to_nat cap) a end).
    assert (old = a0) as ->.
    { subst old. destruct res as [a|]; cbn in Ha0; subst; [|done]. apply take_ge. lia. }
    exists (a0 ++ replicate (Z.to_nat cap' - length a0) None),
      (k + (Z.to_nat cap' - length a0) - 2), cap'. split; [done|]. split.
    + rewrite Hk at 1. rewrite <-app_assoc, <-replicate_add. do 2 f_equal. lia.
    + rewrite length_app, length_replicate. lia.
Qed.

(** ** Collecting tokens *)

Inductive gens {St : Type} (next : St -> option (cs * St)) : St -> list cs -> Prop :=
| gens_nil st : next st = None -> gens next st []
| gens_cons st tok st' toks :
    next st = Some (tok, st') -> gens next st' toks -> gens next st (tok :: toks).

Lemma insert_next (toks : list cs) k tok :
  <[length toks := Some tok]> ((Some <$> toks) ++ replicate (S k) None : arr)
  = (Some <$> (toks ++ [tok])) ++ replicate k None.
Proof. induction toks as [|t toks IH]; cbn; [done|]. f_equal. apply IH. Qed.

Lemma collect_tokens_spec {St : Type} (next : St -> option (cs * St)) fuel st toks0 toks res cap :
  gens next st toks -> length toks < fuel -> small (Z.of_nat (length toks0 + length toks)) ->
  (res = None /\ toks0 = [] /\ cap = 0%Z) \/ (exists a, res = Some a /\ room a toks0 cap) ->
  exists res', collect_tokens alloc fuel next st res cap (length toks0)
      = Some (Some (res', length (toks0 ++ toks))) /\
    ((toks = [] /\ res' = res) \/
     toks ≠ [] /\ exists a cap', res' = Some a /\ room a (toks0 ++ toks) cap').
Proof.
  intros Hg. revert fuel toks0 res cap.
  induction Hg as [st Hn|st tok st' toks Hn Hg IH]; intros [|fuel] toks0 res cap Hf Hsm Hres;
    cbn [length] in *; try lia; cbn [collect_tokens]; rewrite Hn.
  { exists res. rewrite app_nil_r. auto. }
  destruct (grow_array_spec res toks0 cap) as (a & k & cap' & -> & Ha & Hl);
    [unfold small in *; lia|done|]. cbn [mbind option_bind].
  replace (0 <? 0)%Z with false by done.
  assert (length a = length toks0 + S (S k)) as Hlen
    by (rewrite Ha, length_app, length_fmap, length_replicate; done).
  unfold arr_set. rewrite decide_True by lia. cbn [mbind option_bind].
  set (a' := <[length toks0:=Some tok]> a).
  assert (a' = (Some <$> (toks0 ++ [tok])) ++ replicate (S k) None) as Ha'.
  { subst a'. rewrite Ha. apply (insert_next toks0 (S k)). }
  destruct (IH fuel (toks0 ++ [tok]) (Some a') cap') as (res' & Hc & Hr).
  - lia.
  - rewrite length_app. cbn [length]. unfold small in *. lia.
  - right. exists a'. split; [done|]. exists k. split; [done|].
    rewrite Ha', length_app, length_fmap, length_app, length_replicate. cbn [length]. lia.
  - rewrite length_app in Hc. cbn [length] in Hc. rewrite Hc. exists res'.
    rewrite <-app_assoc. split; [done|]. right. split; [done|].
    destruct Hr as [[-> ->]|(_ & a2 & cap2 & -> & Hr)].
    + exists a', cap'. split; [done|]. exists k. split; [done|].
      rewrite Ha', length_app, length_fmap, length_app, length_replicate. cbn [length]. lia.
    + rewrite <-app_assoc in Hr. eauto.
Qed.

Lemma shrink_spec a toks cap :
  room a toks cap -> small (Z.of_nat (length toks)) ->
  util_shrink_array alloc a (length toks + 1) = Some (arr_of toks).
Proof.
  intros (k & -> & _) Hsm. unfold small in Hsm. unfold util_shrink_array.
  rewrite decide_False by lia. unfold SIZE_MAX, sizeof_ptr.
  destruct (Z.gtb_spec (Z.of_nat (length toks + 1)) ((2 ^ 64 - 1) / 8)) as [Hgt|_].
  { assert ((2 ^ 64 - 1) / 8 = 2305843009213693951)%Z as Hv by reflexivity. lia. }
  rewrite calloc_ok by lia. cbn [negb].
  rewrite decide_True by (rewrite length_app, length_fmap, length_replicate; lia).
  f_equal. unfold arr_of. rewrite take_app, length_fmap.
  rewrite take_ge by (rewrite length_fmap; lia).
  replace (length toks + 1 - length toks) with 1 by lia. done.
Qed.

(** ** Splitting at every separator *)

Fixpoint split_on (sep : ascii) (s : cs) : list cs :=
  match s with
  | [] => [[]]
  | c :: s =>
      if decide (c = sep) then [] :: split_on sep s
      else match split_on sep s with [] => [[c]] | t :: ts => (c :: t) :: ts end
  end.

Lemma split_on_strsep sep s :
  split_on sep s =
    (strsep_one sep s).1 ::
      match (strsep_one sep s).2 with None => [] | Some r => split_on sep r end.
Proof.
  induction s as [|c s IH]; [done|]. cbn. destruct (decide (c = sep)); [done|].
  rewrite IH. by destruct (strsep_one sep s).
Qed.

Lemma strsep_shorter sep s tok r : strsep_one sep s = (tok, Some r) -> length r < length s.
Proof.
  revert tok. induction s as [|c s IH]; intros tok; cbn; [done|].
  destruct (decide (c = sep)); [intros [= _ ->]; cbn; lia|].
  destruct (strsep_one sep s) as [t cur] eqn:He. intros [= _ ->]. specialize (IH t eq_refl). lia.
Qed.

Lemma split_on_gens sep s : gens (strsep sep) (Some s) (split_on sep s).
Proof.
  remember (length s) as n eqn:Hn. revert s Hn.
  induction n as [n IH] using lt_wf_ind. intros s ->. rewrite split_on_strsep.
  destruct (strsep_one sep s) as [tok cur] eqn:He.
  eapply (gens_cons _ _ _ cur); [by cbn; rewrite He|]. cbn.
  destruct cur as [r|]; [|by constructor].
  apply (IH (length r)); [by eapply strsep_shorter|done].
Qed.

Lemma length_split_on sep s : length (split_on sep s) <= length s + 1.
Proof.
  induction s as [|c s IH]; [done|]. cbn. destruct (decide (c = sep)); cbn; [lia|].
  destruct (split_on sep s); cbn in *; lia.
Qed.

Lemma split_on_no_sep sep s : Forall (fun t => sep ∉ t) (split_on sep s).
Proof.
  induction s as [|c s IH]; cbn; [repeat constructor; apply not_elem_of_nil|].
  destruct (decide (c = sep)); [constructor; [apply not_elem_of_nil|done]|].
  destruct (split_on sep s) as [|t ts].
  - repeat constructor. by rewrite list_elem_of_singleton.
  - apply Forall_cons in IH as [Ht Hts]. constructor; [|done].
    rewrite elem_of_cons. naive_solver.
Qed.

Lemma split_on_ne sep s : split_on sep s ≠ [].
Proof. rewrite split_on_strsep. done. Qed.

Lemma strcat_split_on sep s : strcat_parts [sep] (split_on sep s) = s.
Proof.
  induction s as [|c s IH]; [done|]. cbn. pose proof (split_on_ne sep s) as Hne.
  destruct (split_on sep s) as [|t ts]; [done|]. destruct (decide (c = sep)) as [->|].
  - cbn in *. by rewrite IH.
  - destruct ts; cbn in *; by rewrite IH.
Qed.

Lemma split_multi_spec s sep :
  s ≠ [] -> small (Z.of_nat (length s) + 1) ->
  util_string_split_multi alloc (Some s) sep = Some (Some (arr_of (split_on sep s))).
Proof.
  intros Hne Hsm. unfold util_string_split_multi. destruct s as [|c s]; [done|].
  cbv beta iota. set (str := (c :: s) : cs) in *. clearbody str. pose proof (length_split_on sep str) as Hl.
  destruct (collect_tokens_spec (strsep sep) (length str + 2) (Some str) [] (split_on sep str) None 0)
    as (res & Hc & Hr); [apply split_on_gens|lia|unfold small in *; cbn [length plus]; lia|by left|].
  cbn [length] in Hc. rewrite Hc. cbn [mbind option_bind app].
  destruct Hr as [[He _]|(_ & a & cap & -> & Hr)]; [by destruct (split_on_ne sep str)|].
  cbn [mbind option_bind app]. rewrite (shrink_spec a (split_on sep str) cap); [done|exact Hr|].
  unfold small in *. lia.
Qed.

(** ** Joining *)

Fixpoint total (parts : list cs) : Z :=
  match parts with [] => 0 | p :: parts => Z.of_nat (length p) + total parts end.

Lemma total_nonneg parts : (0 <= total parts)%Z.
Proof. induction parts as [|p parts IH]; cbn [total]; lia. Qed.

Lemma join_length_spec n (parts : list cs) :
  (0 <= n)%Z -> (n + total parts < SIZE_MAX)%Z ->
  join_length n (Some <$> parts) = Some (n + total parts)%Z.
Proof.
  revert n. induction parts as [|p parts IH]; intros n Hn Hb;
    cbn [total join_length fmap list_fmap] in *; [f_equal; lia|].
  pose proof (total_nonneg parts).
  destruct (Z.geb_spec n (SIZE_MAX - Z.of_nat (length p))); [lia|].
  rewrite IH by lia. f_equal. lia.
Qed.

Lemma length_strcat sep parts :
  parts ≠ [] -> Z.of_nat (length (strcat_parts sep parts)) =
    ((Z.of_nat (length parts) - 1) * Z.of_nat (length sep) + total parts)%Z.
Proof.
  induction parts as [|p [|q parts] IH]; intros Hne; [done|cbn [length strcat_parts total]; lia|].
  change (strcat_parts sep (p :: q :: parts)) with (p ++ sep ++ strcat_parts sep (q :: parts)).
  rewrite !length_app, !Nat2Z.inj_add, IH by done.
  cbn [length total]. lia.
Qed.

Lemma mapM_Some_id {A} (l : list A) : mapM id (Some <$> l) = Some l.
Proof. induction l as [|x l IH]; [done|]. cbn. by rewrite IH. Qed.

Lemma join_spec (sep : cs) parts :
  parts ≠ [] -> length sep = 1 ->
  small (Z.of_nat (length (strcat_parts sep parts))) ->
  util_string_join alloc (Some sep) (Some (Some <$> parts)) = Some (Some (strcat_parts sep parts)).
Proof.
  intros Hne Hsep Hsm. unfold small in Hsm. pose proof (length_strcat sep parts Hne) as Hl.
  rewrite Hsep in Hl. pose proof (total_nonneg parts) as Ht.
  assert (1 <= length parts) by (destruct parts; [done|cbn; lia]).
  unfold util_string_join. rewrite length_fmap, Hsep, mapM_Some_id.
  destruct (Z.eqb_spec (Z.of_nat (length parts)) 0); [lia|]. cbn [Z.of_nat Z.eqb negb andb].
  change (Z.of_nat 1) with 1%Z in *. cbn [Z.eqb negb andb].
  rewrite join_length_spec by (unfold SIZE_MAX; lia).
  unfold do_string_join, MAX_MEMORY_SIZE. rewrite Halloc, andb_true_r, <-Hl.
  destruct (Z.ltb_spec 0 (Z.of_nat (length (strcat_parts sep parts)) + 1)); [|lia].
  destruct (Z.leb_spec (Z.of_nat (length (strcat_parts sep parts)) + 1) (2 ^ 47)); [|lia].
  cbn [andb negb]. by rewrite (proj2 (Z.leb_le _ _)) by lia.
Qed.

(** ** Splitting into non-empty tokens *)

Abbreviation nonempty_toks := (filter (fun t : cs => t ≠ [])).

Lemma skip_char_toks sep s :
  nonempty_toks (split_on sep s) = nonempty_toks (split_on sep (skip_char sep s)).
Proof.
  induction s as [|c s IH]; [done|]. cbn. destruct (decide (c = sep)) as [->|Hc].
  - rewrite filter_cons_False by naive_solver. apply IH.
  - cbn. by rewrite decide_False by done.
Qed.

Lemma skip_char_cases sep s :
  skip_char sep s = [] \/
  exists c s', skip_char sep s = c :: s' /\ c ≠ sep /\ length s' < length s.
Proof.
  induction s as [|c s IH]; [by left|]. cbn. destruct (decide (c = sep)).
  - destruct IH as [|(c' & s' & -> & Hc & Hl)]; [by left|]. right. exists c', s'. split_and!; [done..|lia].
  - right. exists c, s. split_and!; [done..|lia].
Qed.

Lemma strtok_gens sep s : gens (strtok sep) s (nonempty_toks (split_on sep s)).
Proof.
  remember (length s) as n eqn:Hn. revert s Hn.
  induction n as [n IH] using lt_wf_ind. intros s ->. rewrite skip_char_toks.
  destruct (skip_char_cases sep s) as [He|(c & s' & He & Hc & Hl)]; rewrite He.
  - apply gens_nil. unfold strtok. by rewrite He.
  - cbn [split_on]. rewrite decide_False by done. rewrite split_on_strsep.
    rewrite filter_cons_True by done.
    destruct (strsep_one sep s') as [tok cur] eqn:Hs. cbn [fst snd].
    eapply (gens_cons _ _ _ (default [] cur)).
    + unfold strtok. rewrite He. cbn. rewrite decide_False by done. by rewrite Hs.
    + destruct cur as [r|]; cbn [default from_option].
      * apply (IH (length r)); [|done]. apply strsep_shorter in Hs. lia.
      * by apply gens_nil.
Qed.

Lemma split_spec s sep :
  s ≠ [] -> small (Z.of_nat (length s) + 1) ->
  util_string_split alloc (Some s) sep = Some (Some (arr_of
    (match nonempty_toks (split_on sep s) with [] => [[]] | toks => toks end))).
Proof.
  intros Hne Hsm. unfold util_string_split. destruct s as [|c s]; [done|].
  cbv beta iota. set (str := (c :: s) : cs) in *. clearbody str.
  pose proof (length_split_on sep str) as Hl.
  pose proof (length_filter (fun t : cs => t ≠ []) (split_on sep str)) as Hl'.
  destruct (collect_tokens_spec (strtok sep) (length str + 2) str [] (nonempty_toks (split_on sep str)) None 0)
    as (res & Hc & Hr); [apply strtok_gens|lia|unfold small in *; cbn [length plus]; lia|by left|].
  cbn [length] in Hc. rewrite Hc. cbn [mbind option_bind app].
  destruct Hr as [[He ->]|(Hnil & a & cap & -> & Hr)].
  - rewrite He. unfold make_empty_array. by rewrite Halloc.
  - cbn [app] in Hr.
    rewrite (shrink_spec a (nonempty_toks (split_on sep str)) cap);
      [|exact Hr|unfold small in *; lia].
    cbn [mbind option_bind]. by destruct (nonempty_toks (split_on sep str)).
Qed.

(** ** Splitting at most [n - 1] times *)

Fixpoint split_first (m : nat) (sep : ascii) (s : cs) : list cs :=
  match m with
  | O => [s]
  | S m => match strchr sep s with None => [s] | Some (p, q) => p :: split_first m sep q end
  end.

Lemma strchr_spec sep s p q : strchr sep s = Some (p, q) -> s = p ++ sep :: q /\ sep ∉ p.
Proof.
  revert p. induction s as [|c s IH]; intros p; cbn; [done|].
  destruct (decide (c = sep)) as [->|Hc]; [intros [= <- <-]; split; [done|apply not_elem_of_nil]|].
  destruct (strchr sep s) as [[p' q']|]; [|done]. intros [= <- <-].
  destruct (IH p' eq_refl) as [-> Hn]. split; [done|]. rewrite elem_of_cons. naive_solver.
Qed.

Lemma split_first_facts m sep s :
  split_first m sep s ≠ [] /\ length (split_first m sep s) <= m + 1 /\
  strcat_parts [sep] (split_first m sep s) = s /\
  exists ts t, split_first m sep s = ts ++ [t] /\ Forall (fun t => sep ∉ t) ts.
Proof.
  revert s. induction m as [|m IH]; intros s; cbn.
  { split_and!; try done. by exists [], s. }
  destruct (strchr sep s) as [[p q]|] eqn:Hs; [|split_and!; try done; [cbn; lia|by exists [], s]].
  apply strchr_spec in Hs as [-> Hn]. destruct (IH q) as (H1 & H2 & H3 & ts & t & H4 & H5).
  split_and!; [done|cbn; lia| |].
  - destruct (split_first m sep q) as [|x l]; [done|].
    change (strcat_parts [sep] (p :: x :: l)) with (p ++ [sep] ++ strcat_parts [sep] (x :: l)).
    by rewrite H3.
  - exists (p :: ts), t. rewrite H4. split; [done|]. by constructor.
Qed.

Lemma array_len_arr_of toks : util_array_len (arr_of toks) = Some (length toks).
Proof. induction toks as [|t toks IH]; [done|]. cbn. unfold arr_of in IH. by rewrite IH. Qed.

Lemma array_append_spec array toks e :
  (array = None /\ toks = [] \/ array = Some (arr_of toks)) -> small (Z.of_nat (length toks)) ->
  util_array_append alloc array (Some e) = Some (0%Z, Some (arr_of (toks ++ [e]))).
Proof.
  intros Ha Hsm. unfold small in Hsm. unfold util_array_append.
  assert (match array with None => Some 0 | Some a => util_array_len a end = Some (length toks)) as ->.
  { destruct Ha as [[-> ->]| ->]; [done|apply array_len_arr_of]. }
  cbn [mbind option_bind]. unfold SIZE_MAX, sizeof_ptr.
  destruct (Z.gtb_spec (Z.of_nat (length toks)) ((2 ^ 64 - 1) / 8 - 2)) as [Hgt|_].
  { assert ((2 ^ 64 - 1) / 8 = 2305843009213693951)%Z as Hv by reflexivity. lia. }
  rewrite calloc_ok by lia. cbn [negb].
  assert (match array with None => [] | Some a => take (length toks) a end = Some <$> toks) as ->.
  { destruct Ha as [[-> ->]| ->]; [done|]. unfold arr_of. rewrite take_app, length_fmap, Nat.sub_diag.
    rewrite take_ge by by rewrite length_fmap. cbn. by rewrite app_nil_r. }
  unfold arr_set. rewrite decide_True by (rewrite length_app, length_fmap, length_replicate; lia).
  cbn [mbind option_bind]. do 2 f_equal. f_equal. apply (insert_next toks 1).
Qed.

Lemma split_n_loop_spec fuel sep n count index array toks :
  length index < fuel -> count < n -> small (Z.of_nat (length toks + length index + 1)) ->
  (array = None /\ toks = [] \/ array = Some (arr_of toks)) ->
  split_n_loop alloc fuel sep n count index array
    = Some (Some (Some (arr_of (toks ++ split_first (n - count - 1) sep index)))).
Proof.
  revert count index array toks. induction fuel as [|fuel IH];
    intros count index array toks Hf Hn Hsm Ha; [lia|].
  cbn [split_n_loop]. unfold small in Hsm.
  assert (forall e, util_array_append alloc array (Some e)
    = Some (0%Z, Some (arr_of (toks ++ [e])))) as Happ.
  { intros e. apply array_append_spec; [done|]. unfold small. lia. }
  destruct (strchr sep index) as [[p q]|] eqn:Hs.
  - destruct (decide (n <= count + 1)) as [Hle|Hgt].
    + rewrite Happ. cbn. replace (n - count - 1) with 0 by lia. done.
    + rewrite Happ. cbn [mbind option_bind fst snd Z.eqb].
      apply strchr_spec in Hs as Hs'. destruct Hs' as [-> _].
      rewrite length_app in *. cbn [length] in *.
      rewrite (IH (count + 1) q (Some (arr_of (toks ++ [p]))) (toks ++ [p]));
        [|lia|lia|unfold small; rewrite length_app; cbn [length]; lia|by right].
      replace (n - count - 1) with (S (n - (count + 1) - 1)) by lia.
      cbn [split_first]. rewrite Hs. by rewrite <-app_assoc.
  - rewrite Happ. cbn [mbind option_bind fst snd Z.eqb].
    destruct (n - count - 1); cbn; by rewrite ?Hs.
Qed.

Lemma split_n_spec s sep n :
  s ≠ [] -> n ≠ 0 -> small (Z.of_nat (length s) + 1) ->
  util_string_split_n alloc (Some s) sep n = Some (Some (arr_of (split_first (n - 1) sep s))).
Proof.
  intros Hne Hn Hsm. unfold util_string_split_n. rewrite decide_False by done.
  destruct s as [|c s]; [done|]. set (str := (c :: s) : cs) in *. clearbody str.
  rewrite (split_n_loop_spec _ sep n 0 str None []);
    [|lia|lia|unfold small in *; cbn [length plus]; lia|by left].
  cbn [mbind option_bind app]. by rewrite Nat.sub_0_r.
Qed.

(** ** Claims *)

(** [util_string_split_multi] stays within its arrays, gives the pieces
    between the separators, and [util_string_join] with the separator puts the
    string together again. *)
Theorem split_join_roundtrip s sep :
  s ≠ [] -> small (Z.of_nat (length s) + 1) ->
  exists parts, util_string_split_multi alloc (Some s) sep = Some (Some (arr_of parts)) /\
    Forall (fun t => sep ∉ t) parts /\
    util_string_join alloc (Some [sep]) (Some (Some <$> parts)) = Some (Some s).
Proof.
  intros Hne Hsm. exists (split_on sep s). split_and!.
  - by apply split_multi_spec.
  - apply split_on_no_sep.
  - rewrite join_spec; rewrite ?strcat_split_on; try done; [apply split_on_ne|].
    unfold small in *. lia.
Qed.

(** [util_string_split] gives the non-empty pieces between the separators
    in their order, or the empty string alone when there are none. *)
Theorem split_drops_empty_tokens s sep :
  s ≠ [] -> small (Z.of_nat (length s) + 1) ->
  util_string_split alloc (Some s) sep = Some (Some (arr_of
    (match nonempty_toks (split_on sep s) with [] => [[]] | toks => toks end))).
Proof. apply split_spec. Qed.

(** [util_string_split_n] gives at most [n] pieces, of which only the last
    may contain the separator, and which joined by the separator give the string
    back. *)
Theorem split_n_bounded s sep n :
  s ≠ [] -> n ≠ 0 -> small (Z.of_nat (length s) + 1) ->
  exists ts t, util_string_split_n alloc (Some s) sep n = Some (Some (arr_of (ts ++ [t]))) /\
    length (ts ++ [t]) <= n /\ Forall (fun t => sep ∉ t) ts /\
    strcat_parts [sep] (ts ++ [t]) = s.
Proof.
  intros Hne Hn Hsm. destruct (split_first_facts (n - 1) sep s) as (_ & H2 & H3 & ts & t & H4 & H5).
  exists ts, t. rewrite <-H4. split_and!; [by apply split_n_spec|lia|done|done].
Qed.
End with_memory.

(** ** Trimming *)

Lemma trim_left_spec p s :
  exists l, s = l ++ trim_left p s /\ Forall (fun c => p c = true) l /\
    (forall c, head (trim_left p s) = Some c -> p c = false).
Proof.
  induction s as [|c s (l & Hl & Hf & Hh)]; cbn; [by exists []|].
  destruct (p c) eqn:Hc.
  - exists (c :: l). split_and!; [cbn; by f_equal|by constructor|done].
  - exists []. split_and!; [done|constructor|]. by intros c' [= <-].
Qed.

(** Walking back stops at the last character outside of [p]. *)
Lemma walk_back_Some p s e n :
  e < length s -> walk_back p s e = Some n ->
  n <= e /\ (exists c, s !! n = Some c /\ p c = false) /\
  (forall i c, n < i <= e -> s !! i = Some c -> p c = true).
Proof.
  induction e as [|e IH]; intros He; cbn [walk_back].
  - destruct (s !! 0) as [c|] eqn:Hc; [|done]. destruct (p c) eqn:Hp; [done|].
    intros [= <-]. split_and!; [lia|eauto|]. intros i c' Hi. lia.
  - destruct (s !! S e) as [c|] eqn:Hc; [|done]. destruct (p c) eqn:Hp.
    + intros Hw. destruct IH as (H1 & H2 & H3); [lia|done|]. split_and!; [lia|done|].
      intros i c' Hi Hi'. destruct (decide (i = S e)) as [->|]; [congruence|].
      apply (H3 i); [lia|done].
    + intros [= <-]. split_and!; [lia|eauto|]. intros i c' Hi. lia.
Qed.

Lemma walk_back_None p s e :
  e < length s -> walk_back p s e = None -> forall i c, i <= e -> s !! i = Some c -> p c = true.
Proof.
  induction e as [|e IH]; intros He; cbn [walk_back].
  - destruct (s !! 0) as [c|] eqn:Hc; [|by apply lookup_ge_None in Hc; lia].
    destruct (p c) eqn:Hp; [|done]. intros _ i c' Hi Hc'.
    assert (i = 0) as -> by lia. congruence.
  - destruct (s !! S e) as [c|] eqn:Hc; [|by apply lookup_ge_None in Hc; lia].
    destruct (p c) eqn:Hp; [|done]. intros Hw i c' Hi Hc'.
    destruct (decide (i = S e)) as [->|]; [congruence|]. apply (IH ltac:(lia) Hw i); [lia|done].
Qed.

Lemma right_trim_spec s :
  (forall c, head s = Some c -> isspace c = false) ->
  exists t r, util_right_trim_space s = Some t /\ s = t ++ r /\
    Forall (fun c => isspace c = true) r /\ (forall c, last t = Some c -> isspace c = false) /\
    head t = head s.
Proof.
  intros Hh. unfold util_right_trim_space. destruct s as [|c s].
  { exists [], []. split_and!; try done. }
  rewrite decide_False by (cbn; lia). set (str := (c :: s) : cs) in *.
  assert (length str - 1 < length str) as Hlt by (cbn; lia).
  destruct (walk_back isspace str (length str - 1)) as [e|] eqn:Hw.
  - destruct (walk_back_Some _ _ _ _ Hlt Hw) as (H1 & (x & Hx & Hp) & H3).
    exists (take (e + 1) str), (drop (e + 1) str). cbn [mbind option_bind]. split_and!.
    + done.
    + by rewrite take_drop.
    + apply Forall_lookup. intros i y Hy. rewrite lookup_drop in Hy.
      apply (H3 (e + 1 + i) y); [|done]. apply lookup_lt_Some in Hy. lia.
    + intros y Hy. rewrite last_lookup, length_take in Hy.
      rewrite lookup_take_lt in Hy by lia.
      replace (Init.Nat.pred ((e + 1) `min` length str)) with e in Hy by lia. congruence.
    + subst str. by rewrite Nat.add_1_r.
  - pose proof (walk_back_None _ _ _ Hlt Hw 0 c) as H0.
    assert (isspace c = true) as Hc by (apply H0; [lia|done]).
    rewrite (Hh c) in Hc by done. done.
Qed.

(** [util_trim_space] never reads before its string and returns it without
    the white space around it: what is cut off on both sides is white space, and
    the result neither begins nor ends with any. *)
Theorem trim_space_spec s :
  exists l t r, util_trim_space (Some s) = Some (Some t) /\ s = l ++ t ++ r /\
    Forall (fun c => isspace c = true) (l ++ r) /\
    (forall c, head t = Some c \/ last t = Some c -> isspace c = false).
Proof.
  destruct (trim_left_spec isspace s) as (l & Hl & Hf & Hh).
  destruct (right_trim_spec (trim_left isspace s) Hh) as (t & r & Ht & Hs & Hr & Hlast & Hhead).
  exists l, t, r. unfold util_trim_space, util_left_trim_space. rewrite Ht. split_and!.
  - done.
  - by rewrite <-Hs.
  - by apply Forall_app.
  - intros c [Hc|Hc]; [|by apply Hlast]. apply Hh. by rewrite <-Hhead.
Qed.

(** ** Deleting a character *)
Section delchar.
Context (cval : ascii -> Z) (c : ascii).
Abbreviation keep := (fun x => bool_decide (cval x ≠ uchar_value c)).

(** The loop invariant: the buffer holds what was kept so far, then anything up to
    [j], then the rest of the original. *)
Lemma delchar_loop_spec fuel kept junk rest :
  length rest < fuel ->
  delchar_loop cval fuel (length (kept ++ junk ++ rest)) c (kept ++ junk ++ rest)
    (length kept) (length kept + length junk) = Some (kept ++ List.filter keep rest).
Proof.
  revert kept junk rest. induction fuel as [|fuel IH]; intros kept junk rest Hf; [lia|].
  cbn [delchar_loop]. destruct rest as [|x rest].
  { rewrite !app_nil_r, length_app. destruct junk as [|y junk].
    - rewrite decide_False by (cbn; lia). by rewrite app_nil_r.
    - rewrite decide_True by (cbn; lia). rewrite decide_True by done.
      by rewrite take_app_length. }
  rewrite decide_True by (rewrite !length_app; cbn; lia).
  rewrite decide_False by (rewrite !length_app; cbn; lia).
  assert ((kept ++ junk ++ x :: rest) !! (length kept + length junk) = Some x) as ->.
  { rewrite app_assoc, <-length_app. by apply list_lookup_middle. }
  cbn [mbind option_bind].
  assert (exists junk', length junk' = length junk /\
    <[length kept := x]> (kept ++ junk ++ x :: rest) = kept ++ [x] ++ junk' ++ rest)
    as (junk' & Hlen & ->).
  { destruct junk as [|y junk].
    - exists []. split; [done|]. cbn. rewrite insert_app_r_alt, Nat.sub_diag by done. done.
    - exists (junk ++ [x]). split; [rewrite length_app; cbn; lia|].
      rewrite insert_app_r_alt, Nat.sub_diag by done. cbn. by rewrite <-app_assoc. }
  cbn [List.filter]. destruct (Z.eqb_spec (cval x) (uchar_value c)) as [He|Hne].
  - rewrite bool_decide_eq_false_2 by (intros Hn; by apply Hn).
    specialize (IH kept (x :: junk') rest). cbn [length app] in *.
    rewrite <-IH by lia. f_equal; [rewrite !length_app; cbn; rewrite length_app; lia|lia].
  - rewrite bool_decide_eq_true_2 by done.
    specialize (IH (kept ++ [x]) junk' rest). rewrite <-!app_assoc in IH. cbn [length app] in *.
    rewrite <-IH by lia. rewrite !length_app. cbn [length]. rewrite length_app. f_equal; lia.
Qed.

(** [util_string_delchar] returns the string without the characters equal to
    [c], in their order. *)
Theorem delchar_filters s :
  util_string_delchar cval (Some s) c = Some (Some (List.filter keep s)).
Proof.
  unfold util_string_delchar.
  pose proof (delchar_loop_spec (length s + 1) [] [] s) as H. cbn [app length plus] in H.
  rewrite H by lia. done.
Qed.
End delchar.

(** ** Witnesses *)

Definition demo_alloc : Z -> bool := fun _ => true.

Lemma split_join_roundtrip_witness :
  exists parts,
    util_string_split_multi demo_alloc (Some (bs "a::bc:")) ":" = Some (Some (arr_of parts)) /\
    Forall (fun t => ":"%char ∉ t) parts /\
    util_string_join demo_alloc (Some [":"%char]) (Some (Some <$> parts)) = Some (Some (bs "a::bc:")).
Proof.
  apply (split_join_roundtrip demo_alloc (fun _ => eq_refl) (bs "a::bc:") ":");
    [discriminate|reflexivity].
Defined.

Lemma split_drops_empty_tokens_witness :
  util_string_split demo_alloc (Some (bs "a::bc:")) ":" = Some (Some (arr_of [bs "a"; bs "bc"])).
Proof.
  rewrite (split_drops_empty_tokens demo_alloc (fun _ => eq_refl) (bs "a::bc:") ":");
    [reflexivity|discriminate|reflexivity].
Defined.

Lemma split_n_bounded_witness :
  exists ts t, util_string_split_n demo_alloc (Some (bs "a:b:c")) ":" 2 = Some (Some (arr_of (ts ++ [t]))) /\
    length (ts ++ [t]) <= 2 /\ Forall (fun t => ":"%char ∉ t) ts /\
    strcat_parts [":"%char] (ts ++ [t]) = bs "a:b:c".
Proof.
  apply (split_n_bounded demo_alloc (fun _ => eq_refl) (bs "a:b:c") ":" 2);
    [discriminate|discriminate|reflexivity].
Defined.
