(* ===== verification/Path.v ===== *)
(** Path names: src/src/utils/cutils/path.c.

    The functions build their result in a buffer through a pointer [dest] that
    moves forwards and backwards.  Nothing at or after [dest] is ever read before
    it is overwritten, so the buffer is represented by the bytes before [dest],
    last byte first ([rd]).  A write at or after the end of the buffer and a read
    before its start are undefined behaviour: the outer [None].  Strings are
    lists of characters without the terminating NUL; NULL is the inner [None].

    The file system is a parameter: [is_link] tells whether [lstat] finds a
    symbolic link and [readlink] is the target it has; so is the working directory
    that [getcwd] reports. *)
From Stdlib Require Import Ascii.
From S2P Require Import Prelude StrUtils.

Definition PATH_MAX : Z := 4096.
(** sys/param.h *)
Definition MAXSYMLINKS : Z := 20.

Abbreviation slash := ("/"%char) (only parsing).
Abbreviation dot := ("."%char) (only parsing).
Definition ISSLASH (c : ascii) : bool := Ascii.eqb c slash.

Definition len (s : cs) : Z := Z.of_nat (length s).

(** [dest[-1]] *)
Definition last_byte (rd : cs) : option ascii := head rd.
(** [*dest++ = c] in a buffer of [limit] bytes. *)
Definition put_byte (limit : Z) (c : ascii) (rd : cs) : option cs :=
  if (len rd <? limit)%Z then Some (c :: rd) else None.
(** [memcpy(dest, w, n); dest += n] *)
Definition put_bytes (limit : Z) (w rd : cs) : option cs :=
  if (len rd + len w <=? limit)%Z then Some (rev w ++ rd) else None.
(** [*dest = '\0'] and the string in the buffer. *)
Definition terminate (limit : Z) (rd : cs) : option cs :=
  if (len rd <? limit)%Z then Some (rev rd) else None.

(** [while (ISSLASH(stpos[0])) ++stpos] *)
Fixpoint skip_slash (s : cs) : cs :=
  match s with
  | c :: s' => if ISSLASH c then skip_slash s' else s
  | [] => []
  end.
(** [for (endpos = stpos; endpos[0] && !ISSLASH(endpos[0]); ++endpos)]: the bytes passed
    over, and those from [endpos] on. *)
Fixpoint component (s : cs) : cs * cs :=
  match s with
  | c :: s' => if ISSLASH c then ([], s) else let '(w, r) := component s' in (c :: w, r)
  | [] => ([], [])
  end.
(** The loop [for (; dest > base && !ISSLASH(dest[-1]); --dest)]. *)
Fixpoint back_to_slash (rd : cs) : cs :=
  match rd with
  | c :: rd' => if ISSLASH c then rd else back_to_slash rd'
  | [] => []
  end.

Definition is_dot (w : cs) : bool := bool_decide (w = [dot]).
Definition is_dotdot (w : cs) : bool := bool_decide (w = [dot; dot]).

(** ** Cleaning *)

(** Whether the component is done with, and [dest]. *)
Definition do_clean_path_continue (w rd : cs) : bool * cs :=
  if is_dot w then (true, rd)
  else if is_dotdot w then
    if (len rd <=? 1)%Z then (true, rd) else (true, back_to_slash (tail rd))
  else (false, rd).

Fixpoint do_clean_path (fuel : nat) (stpos rd : cs) : option (Z * cs) :=
  match fuel with
  | O => None
  | S fuel =>
      match stpos with
      | [] => Some (0%Z, rd)
      | _ =>
          let stpos := skip_slash stpos in
          let '(w, endpos) := component stpos in
          match w with
          | [] => Some (0%Z, rd)
          | _ =>
              let '(continue, rd) := do_clean_path_continue w rd in
              if continue then do_clean_path fuel endpos rd
              else
                c ← last_byte rd;
                rd ← (if negb (ISSLASH c) then put_byte PATH_MAX slash rd else Some rd);
                if (len rd + len w >=? PATH_MAX)%Z then
                  (let rd := if (len rd >? 1)%Z then tail rd else rd in
                   _ ← terminate PATH_MAX rd; Some ((-1)%Z, rd))
                else
                  rd ← put_bytes PATH_MAX w rd;
                  do_clean_path fuel endpos rd
          end
      end
  end.

(** [util_clean_path]; [realpath_len] is the size of the buffer [realpath] ([None]
    when that is NULL).  The [strcat] of the relative case writes after [dest]. *)
Definition util_clean_path (getcwd : option cs) (path : option cs) (realpath_len : option Z)
    : option (option cs) :=
  match path, realpath_len with
  | Some ((c :: _) as path), Some realpath_len =>
      if (realpath_len <? PATH_MAX)%Z then Some None
      else
        start ← (if negb (ISSLASH c) then
                   match getcwd with
                   | None => Some None
                   | Some cwd =>
                       if (len path >=? PATH_MAX - 1 - len cwd)%Z then Some None
                       else Some (Some (rev cwd))
                   end
                 else rd ← put_byte PATH_MAX slash []; Some (Some rd));
        match start with
        | None => Some None
        | Some rd =>
            r ← do_clean_path (S (length path)) path rd;
            let '(ret, rd) := r in
            if (ret =? 0)%Z then
              c ← (if (len rd >? 1)%Z then last_byte rd else Some dot);
              let rd := if ISSLASH c then tail rd else rd in
              res ← terminate realpath_len rd; Some (Some res)
            else Some None
        end
  | _, _ => Some None
  end.

(** ** Following symbolic links inside a root directory *)
Section follow.
Context (alloc : Z -> bool) (is_link : cs -> bool) (readlink : cs -> option cs).

(** A C string ends at its first NUL. *)
Fixpoint cut_nul (s : cs) : cs :=
  match s with c :: s => if Ascii.eqb c zero then [] else c :: cut_nul s | [] => [] end.

(** [do_path_realloc]: the result, [dest] and the size of the buffer.  Only the
    first [PATH_MAX] bytes are copied ([util_mem_realloc] clears the rest). *)
Definition do_path_realloc (w rd : cs) (limit : Z) : Z * cs * Z :=
  if (len rd + len w <? limit)%Z then (0%Z, rd, limit)
  else
    let gap := (len w + 1)%Z in
    if (limit >? SIZE_MAX - gap)%Z then ((-1)%Z, rd, limit)
    else
      let new_size := (if gap >? PATH_MAX then limit + gap else limit + PATH_MAX)%Z in
      if negb (util_common_calloc_s alloc new_size) then ((-1)%Z, rd, limit)
      else
        let old := take (Z.to_nat PATH_MAX) (rev rd) in
        (0%Z, replicate (length rd - length old) zero ++ rev old, new_size).

(** [skip_dest_trailing_slash]; [do_get_symlinks_copy_buf] has a copy of it. *)
Definition skip_dest_trailing_slash (prefix_len : Z) (rd : cs) : cs :=
  if (len rd >? prefix_len + 1)%Z then back_to_slash (tail rd) else rd.

(** [prefix] is empty when its length is taken as 0. *)
Definition do_get_symlinks_copy_buf (buf prefix rd : cs) : cs :=
  match buf with
  | c :: _ => if ISSLASH c then slash :: rev prefix else skip_dest_trailing_slash (len prefix) rd
  | [] => skip_dest_trailing_slash (len prefix) rd
  end.

(** [do_get_symlinks]: the result, [dest], the rest of the path, the number of
    links and whether [extra_buf] is allocated. *)
Definition do_get_symlinks (prefix rd end_ : cs) (num_links : Z) (extra_buf : bool)
    : Z * cs * cs * Z * bool :=
  let num_links := (num_links + 1)%Z in
  let failed := ((-1)%Z, rd, end_, num_links, extra_buf) in
  if (num_links >? MAXSYMLINKS)%Z then failed
  else if negb (util_common_calloc_s alloc PATH_MAX) then failed
  else
    match readlink (cut_nul (rev rd)) with
    | None => failed
    | Some target =>
        let buf := take (Z.to_nat (PATH_MAX - 1)) target in
        if negb (extra_buf || util_common_calloc_s alloc PATH_MAX) then failed
        else if (len end_ >=? PATH_MAX - len buf)%Z
        then ((-1)%Z, rd, end_, num_links, true)
        else (0%Z, do_get_symlinks_copy_buf buf prefix rd, buf ++ end_, num_links, true)
    end.

(** [lstat] failed or found no link. *)
Definition do_eval_symlinks_in_scope_is_symlink (path : cs) : bool := negb (is_link path).

(** [do_eval_symlinks_in_scope]: the result, [dest], and the size of the buffer. *)
Fixpoint do_eval_symlinks_in_scope (fuel : nat) (prefix start rd : cs) (limit : Z)
    (num_links : Z) (extra_buf : bool) : option (Z * cs * Z) :=
  match fuel with
  | O => None
  | S fuel =>
      match start with
      | [] => Some (0%Z, rd, limit)
      | _ =>
          let start := skip_slash start in
          let '(w, end_) := component start in
          match w with
          | [] => Some (0%Z, rd, limit)
          | _ =>
              if is_dot w then
                do_eval_symlinks_in_scope fuel prefix end_ rd limit num_links extra_buf
              else if is_dotdot w then
                do_eval_symlinks_in_scope fuel prefix end_
                  (skip_dest_trailing_slash (len prefix) rd) limit num_links extra_buf
              else
                c ← last_byte rd;
                rd ← (if negb (ISSLASH c) then put_byte limit slash rd else Some rd);
                let '(nret, rd, limit) := do_path_realloc w rd limit in
                if negb (nret =? 0)%Z then Some ((-1)%Z, rd, limit)
                else
                  rd ← put_bytes limit w rd;
                  rpath ← terminate limit rd;
                  if do_eval_symlinks_in_scope_is_symlink (cut_nul rpath) then
                    do_eval_symlinks_in_scope fuel prefix end_ rd limit num_links extra_buf
                  else
                    let '(nret, rd, end_, num_links, extra_buf) :=
                      do_get_symlinks prefix rd end_ num_links extra_buf in
                    if negb (nret =? 0)%Z then Some ((-1)%Z, rd, limit)
                    else do_eval_symlinks_in_scope fuel prefix end_ rd limit num_links extra_buf
          end
      end
  end.

(** [strstr(s, t) != NULL] *)
Fixpoint is_substring (t s : cs) : bool :=
  bool_decide (t `prefix_of` s) || match s with [] => false | _ :: s => is_substring t s end.

(** Every turn of the loop shortens the rest of the path or follows one more link. *)
Definition eval_fuel (s : cs) : nat :=
  S (length s + Z.to_nat (MAXSYMLINKS * PATH_MAX)).

Definition eval_symlinks_in_scope (getcwd : option cs) (fullpath rootpath : option cs)
    : option (option cs) :=
  match fullpath, rootpath with
  | Some fullpath, Some rootpath =>
      root ← util_clean_path getcwd (Some rootpath) (Some PATH_MAX);
      match root with
      | None => Some None
      | Some root =>
          if bool_decide (fullpath = root) then Some (Some fullpath)
          else if negb (is_substring root fullpath) then Some None
          else if negb (util_common_calloc_s alloc PATH_MAX) then Some None
          else
            let prefix := if bool_decide (root = [slash]) then [] else root in
            if (len prefix >=? PATH_MAX - 1)%Z then Some None
            else
              rd ← put_bytes PATH_MAX prefix [];
              rd ← put_byte PATH_MAX slash rd;
              let start := drop (length prefix) fullpath in
              r ← do_eval_symlinks_in_scope (eval_fuel start) prefix start rd PATH_MAX 0 false;
              let '(ret, rd, limit) := r in
              if negb (ret =? 0)%Z then Some None
              else
                c ← (if (len rd >? len prefix + 1)%Z then last_byte rd else Some dot);
                let rd := if ISSLASH c then tail rd else rd in
                res ← terminate limit rd; Some (Some (cut_nul res))
      end
  | _, _ => Some None
  end.

Definition util_follow_symlink_in_scope (getcwd : option cs) (fullpath rootpath : option cs)
    : option (option cs) :=
  full ← util_clean_path getcwd fullpath (Some PATH_MAX);
  match full with
  | None => Some None
  | Some full =>
      root ← util_clean_path getcwd rootpath (Some PATH_MAX);
      match root with
      | None => Some None
      | Some root => eval_symlinks_in_scope getcwd (Some full) (Some root)
      end
  end.

(** ** Directories and base names *)

(** [basename] and [dirname] of libgen.h; they work on the reversed path. *)
Fixpoint drop_slashes (r : cs) : cs :=
  match r with c :: r' => if ISSLASH c then drop_slashes r' else r | [] => [] end.
Definition basename (p : cs) : cs :=
  match p with
  | [] => [dot]
  | _ =>
      match drop_slashes (rev p) with
      | [] => [slash]
      | r => rev (component r).1
      end
  end.
Definition dirname (p : cs) : cs :=
  match p with
  | [] => [dot]
  | _ =>
      match drop_slashes (rev p) with
      | [] => [slash]
      | r =>
          match (component r).2 with
          | [] => [dot]
          | r => match drop_slashes r with [] => [slash] | r => rev r end
          end
      end
  end.

Definition util_specify_current_dir (path : option cs) : bool :=
  match path with
  | None => false
  | Some [] => true
  | Some path => bool_decide (basename path = [dot])
  end.

Definition util_has_trailing_path_separator (path : option cs) : bool :=
  match path with
  | None => false
  | Some path => match rev path with c :: _ => ISSLASH c | [] => false end
  end.

(** Write [c] over the NUL at the end of the string in a zeroed buffer of [limit]
    bytes. *)
Definition push_byte (limit : Z) (c : ascii) (s : cs) : option cs :=
  if (len s + 1 <? limit)%Z then Some (s ++ [c]) else None.

Definition util_preserve_trailing_dot_or_separator (cleanedpath originalpath : option cs)
    : option (option cs) :=
  match cleanedpath, originalpath with
  | Some ((_ :: _) as cleaned), Some ((_ :: _) as original) =>
      if (len cleaned >=? PATH_MAX)%Z then Some None
      else
        let size := (PATH_MAX + 3)%Z in
        s ← (if negb (util_specify_current_dir (Some cleaned)) &&
                util_specify_current_dir (Some original) then
               s ← (if negb (util_has_trailing_path_separator (Some cleaned))
                    then push_byte size slash cleaned else Some cleaned);
               push_byte size dot s
             else Some cleaned);
        s ← (if negb (util_has_trailing_path_separator (Some s)) &&
                util_has_trailing_path_separator (Some original)
             then push_byte size slash s else Some s);
        Some (Some s)
  | _, _ => Some None
  end.

(** The loop of [util_filepath_split]: the bytes from the last '/' back to the
    start, last first, and the bytes after it. *)
Fixpoint split_last (r acc : cs) : cs * cs :=
  match r with
  | c :: r' => if ISSLASH c then (r, acc) else split_last r' (c :: acc)
  | [] => ([], acc)
  end.

(** [util_filepath_split]: the directory and the base name, or the result -1. *)
Definition util_filepath_split (path : option cs) : option (cs * cs) :=
  match path with
  | None => None
  | Some path =>
      let '(r, base) := split_last (rev path) [] in
      Some (match r with [] => [dot] | _ => rev r end, base)
  end.

Definition util_split_dir_and_base_name (path : option cs) : option (cs * cs) :=
  match path with None => None | Some path => Some (dirname path, basename path) end.

(** [util_path_join] (utils_file.c) *)
Definition util_path_join (getcwd : option cs) (dir file : option cs) : option (option cs) :=
  match dir, file with
  | Some dir, Some file =>
      let path := dir ++ [slash] ++ file in
      if (len path >=? PATH_MAX)%Z then Some None
      else util_clean_path getcwd (Some path) (Some PATH_MAX)
  | _, _ => Some None
  end.

Definition util_get_resource_path (getcwd : option cs) (rootpath path : cs)
    : option (option cs) :=
  let tmppath := [slash] ++ rootpath ++ [slash] ++ path in
  if (len tmppath >=? PATH_MAX)%Z then Some None
  else
    full ← util_clean_path getcwd (Some tmppath) (Some PATH_MAX);
    match full with
    | None => Some None
    | Some full => util_follow_symlink_in_scope getcwd (Some full) (Some rootpath)
    end.

(** [util_resolve_path]: [*resolvedpath] and [*abspath], or the result -1. *)
Definition util_resolve_path (getcwd : option cs) (rootpath path : cs)
    : option (option (cs * cs)) :=
  let tmppath := [slash] ++ path in
  if (len tmppath >=? PATH_MAX)%Z then Some None
  else
    cleaned ← util_clean_path getcwd (Some tmppath) (Some PATH_MAX);
    match cleaned with
    | None => Some None
    | Some cleaned =>
        abspath ← util_preserve_trailing_dot_or_separator (Some cleaned) (Some tmppath);
        match abspath with
        | None => Some None
        | Some abspath =>
            match util_filepath_split (Some abspath) with
            | None => Some None
            | Some (dirpath, basepath) =>
                dir ← util_get_resource_path getcwd rootpath dirpath;
                match dir with
                | None => Some None
                | Some dir =>
                    let size := (len dir + 1 + len basepath + 1)%Z in
                    if negb (util_common_calloc_s alloc size) then Some None
                    else Some (Some (dir ++ [slash] ++ basepath, abspath))
                end
            end
        end
    end.

Definition util_split_path_dir_entry (getcwd : option cs) (path : option cs)
    : option (option (cs * cs)) :=
  let size := (PATH_MAX + 3)%Z in
  cleaned ← util_clean_path getcwd path (Some PATH_MAX);
  match cleaned with
  | None => Some None
  | Some cleaned =>
      s ← (if util_specify_current_dir path then
             s ← push_byte size slash cleaned; push_byte size dot s
           else Some cleaned);
      Some (Some (dirname s, basename s))
  end.

(** The loop of [find_realpath]; [n] is the number of turns left, and running out
    of them is the error of too many links. *)
Fixpoint find_realpath_loop (n : nat) (getcwd : option cs) (iter_path : cs)
    : option (option cs) :=
  if is_link iter_path then
    match n with
    | O => Some None
    | S n =>
        match readlink iter_path with
        | None => Some None
        | Some target =>
            let target := take (Z.to_nat (PATH_MAX - 1)) target in
            next ← match target with
                   | c :: _ =>
                       if negb (ISSLASH c) then
                         de ← util_split_path_dir_entry getcwd (Some iter_path);
                         match de with
                         | None => Some None
                         | Some (parent, _) => util_path_join getcwd (Some parent) (Some target)
                         end
                       else Some (Some target)
                   | [] => Some (Some target)
                   end;
            match next with
            | None => Some None
            | Some next => find_realpath_loop n getcwd next
            end
        end
    end
  else Some (match n with O => None | _ => Some iter_path end).

Definition find_realpath (getcwd : option cs) (path : cs) : option (option cs) :=
  find_realpath_loop 11 getcwd path.

(** [util_realpath_in_scope]: the result and [*real_path]. *)
Definition util_realpath_in_scope (getcwd : option cs) (rootfs path : cs)
    : option (option cs) :=
  let full_path := rootfs ++ path in
  if (len full_path >=? PATH_MAX)%Z then Some None
  else
    cleaned ← util_clean_path getcwd (Some full_path) (Some PATH_MAX);
    match cleaned with
    | None => Some None
    | Some cleaned =>
        tmp ← find_realpath getcwd cleaned;
        match tmp with
        | None => Some None
        | Some tmp =>
            if bool_decide (rootfs `prefix_of` tmp) then Some (Some tmp) else Some None
        end
    end.
End follow.
