(* ===== verification/PathProps.v ===== *)
(** Correctness of path cleaning and confinement of symbolic links to a root
    directory.

    Paths are related to stacks of components, innermost first.  [opened base st]
    is the content of the buffer (last byte first) that denotes the components
    [st] below [base] and ends in a '/', [closed base st] the one without it. *)
From Stdlib Require Import Ascii.
From S2P Require Import Prelude StrUtils StrProps Path.

(** ** The reference: stacks of components *)

(** A component that is kept: not empty, no '/', neither "." nor "..". *)
Definition valid_comp (w : cs) : Prop :=
  w ≠ [] /\ slash ∉ w /\ w ≠ [dot] /\ w ≠ [dot; dot].

(** The effect of one piece between slashes. *)
Definition push_comp (st : list cs) (w : cs) : list cs :=
  if bool_decide (w = []) then st
  else if is_dot w then st
  else if is_dotdot w then tail st
  else w :: st.
Definition push_all (st : list cs) (ws : list cs) : list cs := foldl push_comp st ws.

(** The components of a path, innermost first. *)
Definition comps (p : cs) : list cs := push_all [] (split_on slash p).

(** The path of some components below [base]. *)
Definition path_of (base : cs) (st : list cs) : cs :=
  match st with
  | [] => base ++ [slash]
  | _ => base ++ concat (cons slash <$> rev st)
  end.

Fixpoint opened (base : cs) (st : list cs) : cs :=
  match st with
  | [] => slash :: rev base
  | w :: st => slash :: rev w ++ opened base st
  end.
Definition closed (base : cs) (st : list cs) : cs :=
  match st with [] => slash :: rev base | w :: st => rev w ++ opened base st end.
Definition shape (base : cs) (st : list cs) (rd : cs) : Prop :=
  rd = opened base st \/ rd = closed base st.

Lemma is_dot_spec w : is_dot w = true <-> w = [dot].
Proof. apply bool_decide_eq_true. Qed.
Lemma is_dotdot_spec w : is_dotdot w = true <-> w = [dot; dot].
Proof. apply bool_decide_eq_true. Qed.

Lemma ISSLASH_spec c : ISSLASH c = true <-> c = slash.
Proof. apply Ascii.eqb_eq. Qed.
Lemma ISSLASH_false c : ISSLASH c = false <-> c ≠ slash.
Proof. apply Ascii.eqb_neq. Qed.

Lemma elem_of_rev (c : ascii) w : c ∈ rev w <-> c ∈ w.
Proof. by rewrite !list_elem_of_In, <-in_rev. Qed.

Lemma rev_nil_inv (w : cs) : rev w = [] -> w = [].
Proof. intros E. by rewrite <-(rev_involutive w), E. Qed.

Lemma opened_cons base st : exists r, opened base st = slash :: r.
Proof. destruct st; eauto. Qed.

Lemma closed_opened base st : st ≠ [] -> opened base st = slash :: closed base st.
Proof. by destruct st. Qed.

Lemma rev_opened base st :
  rev (opened base st) = base ++ concat (cons slash <$> rev st) ++ [slash].
Proof.
  induction st as [|w st IH]; cbn; rewrite ?rev_involutive; [done|].
  rewrite rev_app_distr, rev_involutive, IH, fmap_app, concat_app. cbn.
  by rewrite app_nil_r, <-!app_assoc.
Qed.

Lemma rev_closed base st : rev (closed base st) = path_of base st.
Proof.
  destruct st as [|w st]; cbn; rewrite ?rev_involutive; [done|].
  rewrite rev_app_distr, rev_involutive, rev_opened, fmap_app, concat_app. cbn.
  by rewrite app_nil_r, <-!app_assoc.
Qed.

Lemma len_opened base st : length (opened base st) = S (length base + length (concat (cons slash <$> st))).
Proof.
  induction st as [|w st IH]; cbn; rewrite ?length_rev; [lia|].
  rewrite !length_app, length_rev, IH. lia.
Qed.

Lemma push_all_app st ws ws' : push_all st (ws ++ ws') = push_all (push_all st ws) ws'.
Proof. apply foldl_app. Qed.

Lemma push_comp_valid st w :
  slash ∉ w -> Forall valid_comp st -> Forall valid_comp (push_comp st w).
Proof.
  unfold push_comp. intros Hw Hst. case_bool_decide; [done|].
  destruct (is_dot w) eqn:Hd; [done|]. destruct (is_dotdot w) eqn:Hdd.
  - by destruct Hst.
  - constructor; [|done]. unfold valid_comp. split_and!; [done..| |].
    + intros E. apply is_dot_spec in E. congruence.
    + intros E. apply is_dotdot_spec in E. congruence.
Qed.

Lemma push_all_valid st ws :
  Forall (fun w => slash ∉ w) ws -> Forall valid_comp st -> Forall valid_comp (push_all st ws).
Proof.
  intros Hws. revert st. induction Hws; cbn; [done|]. auto using push_comp_valid.
Qed.

Lemma comps_valid p : Forall valid_comp (comps p).
Proof. apply push_all_valid; [apply split_on_no_sep|constructor]. Qed.

Lemma push_all_valid_id st ws :
  Forall valid_comp ws -> push_all st ws = rev ws ++ st.
Proof.
  intros Hws. revert st. induction Hws as [|w ws (Hn & Hs & Hd & Hdd) _ IH]; intros st; [done|].
  cbn. rewrite IH, <-app_assoc. f_equal. unfold push_comp, is_dot, is_dotdot.
  by rewrite !bool_decide_eq_false_2.
Qed.

(** ** Scanning *)

Lemma component_spec s :
  s = (component s).1 ++ (component s).2 /\ slash ∉ (component s).1 /\
  ((component s).2 = [] \/ exists r, (component s).2 = slash :: r).
Proof.
  induction s as [|c s (Hs & Hn & Hr)]; cbn; [split_and!; [done|set_solver|by left]|].
  destruct (ISSLASH c) eqn:Hc.
  - apply ISSLASH_spec in Hc as ->. split_and!; [done|set_solver|by eauto].
  - apply ISSLASH_false in Hc. destruct (component s) as [w r]; cbn in *.
    split_and!; [by rewrite Hs|set_solver|done].
Qed.

Lemma push_all_skip st s :
  push_all st (split_on slash s) = push_all st (split_on slash (skip_slash s)) /\
  length (skip_slash s) <= length s /\ (forall c r, skip_slash s = c :: r -> c ≠ slash).
Proof.
  induction s as [|c s (IH & IH' & Hh)]; cbn; [done|]. destruct (ISSLASH c) eqn:Hc.
  - apply ISSLASH_spec in Hc as ->. rewrite decide_True by done. split_and!; [exact IH|lia|done].
  - apply ISSLASH_false in Hc. split_and!; [done|done|]. by intros ? ? [= <- <-].
Qed.

Lemma split_on_app s r :
  slash ∉ s -> split_on slash (s ++ slash :: r) = s :: split_on slash r.
Proof.
  induction s as [|c s IH]; intros Hn; [done|]. cbn [app split_on].
  rewrite decide_False, IH by set_solver. done.
Qed.

Lemma split_on_single s : slash ∉ s -> split_on slash s = [s].
Proof.
  induction s as [|c s IH]; intros Hn; [done|]. cbn [split_on].
  by rewrite decide_False, IH by set_solver.
Qed.

(** Whether a path starts with a '/', or is empty: then the '/' in front of its
    first component costs nothing. *)
Definition lead (s : cs) : Z := match s with [] => 1 | c :: _ => Z.b2z (ISSLASH c) end.

(** What one turn of the scanning loops does to the components still to come. *)
Record scanned (st : list cs) (s w r : cs) : Prop := Scanned {
  sc_push : push_all st (split_on slash s) =
    if bool_decide (w = []) then st else push_all (push_comp st w) (split_on slash r);
  sc_no_slash : slash ∉ w;
  sc_length : (len w + len r <= len s)%Z;
  sc_lead : w ≠ [] -> (len w + len r + lead s <= len s)%Z;
  sc_rest : r = [] \/ exists r', r = slash :: r'
}.

Lemma scan_lead s w r :
  component (skip_slash s) = (w, r) -> w ≠ [] -> (len w + len r + lead s <= len s)%Z.
Proof.
  intros Hc Hw. destruct (component_spec (skip_slash s)) as (Hs & _). rewrite Hc in Hs. cbn in Hs.
  destruct s as [|c s]; [by simplify_eq/=|]. cbn in *.
  destruct (ISSLASH c) eqn:E; [destruct (push_all_skip [] s) as (_ & Hl & _)|];
    apply (f_equal length) in Hs; rewrite length_app in Hs; cbn in *; unfold len; cbn; lia.
Qed.

Lemma scan_step st s w r : component (skip_slash s) = (w, r) -> scanned st s w r.
Proof.
  intros Hc. destruct (push_all_skip st s) as (Hp & Hl & Hh).
  destruct (component_spec (skip_slash s)) as (Hs & Hn & Hr). rewrite Hc in Hs, Hn, Hr. cbn in *.
  rewrite Hs in Hl. rewrite length_app in Hl.
  split; [|done|unfold len; lia|by eapply scan_lead|done]. rewrite Hp, Hs.
  case_bool_decide as Hw.
  - subst w. cbn in *. destruct Hr as [->|[r' ->]]; [done|]. by destruct (Hh _ _ Hs).
  - destruct Hr as [->|[r' ->]].
    + by rewrite app_nil_r, split_on_single.
    + by rewrite split_on_app.
Qed.

(** ** Moves of [dest] *)

Lemma back_to_slash_app w rd :
  slash ∉ w -> back_to_slash (w ++ rd) = back_to_slash rd.
Proof.
  induction w as [|c w IH]; intros Hn; [done|]. cbn.
  destruct (ISSLASH c) eqn:Hc; [apply ISSLASH_spec in Hc; set_solver|]. apply IH. set_solver.
Qed.

Lemma back_opened base st : back_to_slash (opened base st) = opened base st.
Proof. destruct (opened_cons base st) as [r ->]. done. Qed.

Lemma shape_nonempty base st rd : shape base st rd -> rd ≠ [].
Proof.
  intros [-> | ->]; destruct st as [|w st]; cbn; try done.
  destruct (rev w); cbn; [|done]. by destruct (opened_cons base st) as [r ->].
Qed.

(** Going up one component. *)
Lemma shape_back base st rd :
  Forall valid_comp st -> shape base st rd ->
  (if (len rd >? len base + 1)%Z then back_to_slash (tail rd) else rd) = opened base (tail st).
Proof.
  intros Hv Hs. unfold len. destruct st as [|w st].
  - destruct Hs as [-> | ->]; cbn; rewrite length_rev; destruct (Z.gtb_spec (Z.of_nat (S (length base))) (Z.of_nat (length base) + 1)); done || lia.
  - inv Hv. destruct H1 as (Hne & Hw & _ & _).
    assert (slash ∉ rev w) as Hr by (by rewrite elem_of_rev).
    destruct (Z.gtb_spec (Z.of_nat (length rd)) (Z.of_nat (length base) + 1)) as [_|Hle].
    + destruct Hs as [-> | ->]; cbn.
      * by rewrite back_to_slash_app, back_opened.
      * destruct (rev w) as [|c v] eqn:E; [by apply rev_nil_inv in E|].
        cbn. rewrite back_to_slash_app, back_opened; [done|set_solver].
    + exfalso. destruct w; [done|]. pose proof (len_opened base st).
      destruct Hs as [-> | ->]; cbn in Hle; repeat rewrite length_app in Hle;
        rewrite ?length_rev in Hle; cbn in Hle; lia.
Qed.

(** The '/' before a new component. *)
Lemma shape_slash base st rd :
  Forall valid_comp st -> shape base st rd ->
  exists c, last_byte rd = Some c /\ (if negb (ISSLASH c) then slash :: rd else rd) = opened base st.
Proof.
  intros Hv Hs. destruct Hs as [-> | ->].
  - destruct (opened_cons base st) as [r ->]. by exists slash.
  - destruct st as [|w st]; [by exists slash|]. inv Hv. destruct H1 as (Hne & Hw & _ & _).
    cbn. destruct (rev w) as [|c v] eqn:E; [by apply rev_nil_inv in E|].
    exists c. split; [done|]. enough (ISSLASH c = false) as -> by done.
    apply ISSLASH_false. intros ->. apply Hw. rewrite <-(rev_involutive w), E.
    rewrite elem_of_rev. set_solver.
Qed.

(** The '/' dropped at the end. *)
Lemma shape_close base st rd :
  Forall valid_comp st -> shape base st rd ->
  exists c, (if (len rd >? len base + 1)%Z then last_byte rd else Some dot) = Some c /\
    (if ISSLASH c then tail rd else rd) = closed base st.
Proof.
  intros Hv Hs. destruct st as [|w st].
  - exists dot. destruct Hs as [-> | ->]; cbn; unfold len; cbn; rewrite length_rev;
      destruct (Z.gtb_spec (Z.of_nat (S (length base))) (Z.of_nat (length base) + 1)); done || lia.
  - assert (len rd > len base + 1)%Z as Hl.
    { inv Hv. destruct H1 as (Hne & _). destruct w; [done|]. pose proof (len_opened base st).
      unfold len. destruct Hs as [-> | ->]; cbn; repeat rewrite length_app;
        rewrite ?length_rev; cbn; lia. }
    destruct (Z.gtb_spec (len rd) (len base + 1)) as [_|]; [|lia].
    destruct (shape_slash base (w :: st) rd Hv Hs) as (c & Hc & Hc').
    exists c. split; [done|]. destruct (ISSLASH c); cbn in *; [by rewrite Hc'|congruence].
Qed.

(** The room needed for the components [st] and the rest [s] of the path. *)
Definition cost (base : cs) (st : list cs) (s : cs) : Z := len (opened base st) + len s - lead s.

Lemma len_push base w st : len (closed base (w :: st)) = (len (opened base st) + len w)%Z.
Proof. unfold len. cbn. rewrite length_app, length_rev. lia. Qed.

Lemma len_opened_tail base st : (len (opened base (tail st)) <= len (opened base st))%Z.
Proof. destruct st; unfold len; cbn; rewrite ?length_app; lia. Qed.

Lemma len_shape base st rd :
  Forall valid_comp st -> shape base st rd -> (len rd <= len (opened base st) <= len rd + 1)%Z.
Proof.
  intros Hv. intros [-> | ->]; [lia|]. destruct st; [cbn; lia|].
  rewrite closed_opened by done. unfold len. cbn. lia.
Qed.

Lemma lead_rest (r : cs) : (r = [] \/ exists r', r = slash :: r') -> lead r = 1%Z.
Proof. by intros [->|[r' ->]]. Qed.

Lemma cost_push base st s w r :
  scanned st s w r -> w ≠ [] -> (cost base (w :: st) r <= cost base st s)%Z.
Proof.
  intros [_ _ _ Hl Hr] Hw. specialize (Hl Hw). unfold cost. rewrite (lead_rest r Hr).
  rewrite closed_opened by done. unfold len at 1. cbn. rewrite length_app, length_rev.
  unfold len in *. lia.
Qed.

Lemma cost_keep base st st' s w r :
  scanned st s w r -> w ≠ [] -> (len (opened base st') <= len (opened base st))%Z ->
  (cost base st' r <= cost base st s)%Z.
Proof.
  intros [_ _ _ Hl Hr] Hw Ho. specialize (Hl Hw). unfold cost. rewrite (lead_rest r Hr).
  assert (0 < len w)%Z by (destruct w; [done|unfold len; cbn; lia]). lia.
Qed.

Lemma put_slash limit base st rd :
  Forall valid_comp st -> shape base st rd -> (len rd < limit)%Z ->
  exists c, last_byte rd = Some c /\
    (if negb (ISSLASH c) then put_byte limit slash rd else Some rd) = Some (opened base st).
Proof.
  intros Hv Hs Hl. destruct (shape_slash base st rd Hv Hs) as (c & Hc & Ho). exists c.
  split; [done|]. unfold put_byte. destruct (Z.ltb_spec (len rd) limit); [|lia].
  destruct (ISSLASH c); cbn in *; congruence.
Qed.

Lemma put_comp limit base st w :
  (len (opened base st) + len w <= limit)%Z ->
  put_bytes limit w (opened base st) = Some (closed base (w :: st)).
Proof. intros Hl. unfold put_bytes. by destruct (Z.leb_spec (len (opened base st) + len w) limit); [|lia]. Qed.

Lemma terminate_ok limit rd : (len rd < limit)%Z -> terminate limit rd = Some (rev rd).
Proof. intros Hl. unfold terminate. by destruct (Z.ltb_spec (len rd) limit); [|lia]. Qed.

Lemma push_comp_kinds st w :
  w ≠ [] ->
  push_comp st w = if is_dot w then st else if is_dotdot w then tail st else w :: st.
Proof. intros Hw. unfold push_comp. by rewrite bool_decide_eq_false_2. Qed.

(** ** Cleaning *)

(** What [do_clean_path] may do from the components [st] with [s] to come. *)
Definition clean_post (st : list cs) (s : cs) (o : option (Z * cs)) : Prop :=
  exists ret rd', o = Some (ret, rd') /\
    ((ret = 0%Z /\ shape [] (push_all st (split_on slash s)) rd' /\ (len rd' < PATH_MAX)%Z) \/
     (ret = (-1)%Z /\ (PATH_MAX <= cost [] st s)%Z)).

Lemma clean_post_weaken st s st' r o :
  push_all st (split_on slash s) = push_all st' (split_on slash r) ->
  (cost [] st' r <= cost [] st s)%Z -> clean_post st' r o -> clean_post st s o.
Proof.
  intros Hp Hc (ret & rd' & -> & Ho). exists ret, rd'. split; [done|]. rewrite Hp.
  destruct Ho as [Ho|[? ?]]; [by left|right; split; [done|lia]].
Qed.

(** Going up never makes the path longer. *)
Lemma len_shape_tail base st rd :
  Forall valid_comp st -> shape base st rd -> (len (opened base (tail st)) <= len rd)%Z.
Proof.
  intros Hv Hs. rewrite <-(shape_back base st rd) by done. destruct (_ >? _)%Z; [|done].
  destruct rd as [|c rd]; [done|]. cbn. transitivity (len rd); [|unfold len; cbn; lia].
  clear. unfold len. induction rd as [|c rd IH]; [done|]. cbn. destruct (ISSLASH c); cbn in *; lia.
Qed.

Lemma clean_continue st w rd :
  Forall valid_comp st -> shape [] st rd -> w ≠ [] ->
  do_clean_path_continue w rd =
    if is_dot w then (true, rd)
    else if is_dotdot w then (true, opened [] (tail st)) else (false, rd).
Proof.
  intros Hv Hs Hw. unfold do_clean_path_continue. rewrite <-(shape_back [] st rd) by done.
  change (len []) with 0%Z. destruct (is_dot w), (is_dotdot w); try done.
  destruct (Z.leb_spec (len rd) 1), (Z.gtb_spec (len rd) (0 + 1)); done || lia.
Qed.

Lemma clean_too_long st s w r :
  scanned st s w r -> w ≠ [] -> (len (opened [] st) <= PATH_MAX)%Z ->
  (PATH_MAX <= len (opened [] st) + len w)%Z ->
  let rd := opened [] st in
  clean_post st s (let rd := if (len rd >? 1)%Z then tail rd else rd in
                   _ ← terminate PATH_MAX rd; Some ((-1)%Z, rd)).
Proof.
  intros [_ _ _ Hlw _] Hw Hl Hge. specialize (Hlw Hw). cbv zeta. rewrite terminate_ok.
  - cbn [mbind option_bind]. eexists _, _. split; [done|]. right. split; [done|].
    unfold cost, len in *. lia.
  - destruct (Z.gtb_spec (len (opened [] st)) 1); [|unfold PATH_MAX; lia].
    destruct (opened_cons [] st) as [t Ht]. rewrite Ht in *. unfold len in *; cbn in *. lia.
Qed.

Lemma do_clean_path_spec fuel s st rd :
  Forall valid_comp st -> shape [] st rd -> (len rd < PATH_MAX)%Z -> length s < fuel ->
  clean_post st s (do_clean_path fuel s rd).
Proof.
  revert s st rd. induction fuel as [|fuel IH]; intros s st rd Hv Hs Hl Hf; [lia|].
  cbn [do_clean_path]. destruct s as [|c0 s0]; [exists 0%Z, rd; by auto|].
  set (s := c0 :: s0) in *. destruct (component (skip_slash s)) as [w r] eqn:Hc.
  pose proof (scan_step st s w r Hc) as Hsc. pose proof Hsc as [Hp Hns Hlen _ _].
  destruct w as [|c1 w1]; [exists 0%Z, rd; rewrite Hp; by auto|].
  set (w := c1 :: w1) in *. rewrite bool_decide_eq_false_2 in Hp by done.
  assert (length r < fuel) as Hr by (unfold len in Hlen; cbn in *; lia).
  pose proof (push_comp_valid st w Hns Hv) as Hv'.
  rewrite (clean_continue st) by done. rewrite push_comp_kinds in * by done.
  destruct (is_dot w) eqn:Hd.
  { eapply clean_post_weaken; [exact Hp|by eapply cost_keep|by apply IH]. }
  destruct (is_dotdot w) eqn:Hdd.
  { pose proof (len_shape_tail [] st rd Hv Hs).
    eapply clean_post_weaken; [exact Hp|eapply cost_keep; [done..|apply len_opened_tail]|].
    apply IH; [done|by left|lia|done]. }
  destruct (put_slash PATH_MAX [] st rd Hv Hs Hl) as (c & -> & Hps). cbn [mbind option_bind].
  rewrite Hps. cbn [mbind option_bind]. pose proof (len_shape [] st rd Hv Hs).
  destruct (Z.geb_spec (len (opened [] st) + len w) PATH_MAX) as [Hge|Hlt].
  - eapply clean_too_long; [exact Hsc|done|lia..].
  - rewrite put_comp by lia. cbn [mbind option_bind].
    eapply clean_post_weaken; [exact Hp|by eapply cost_push|].
    apply IH; [done|by right|rewrite len_push; lia|done].
Qed.

Lemma split_on_path_of st :
  Forall valid_comp st ->
  split_on slash (path_of [] st) = [] :: match st with [] => [[]] | _ => rev st end.
Proof.
  intros Hv. destruct st as [|w st]; [done|]. unfold path_of. cbn [app].
  assert (Forall (fun w => slash ∉ w) (rev (w :: st))) as Hn.
  { apply Forall_forall. intros v Hin. rewrite list_elem_of_In, <-in_rev, <-list_elem_of_In in Hin.
    rewrite Forall_forall in Hv. by destruct (Hv v Hin) as (_ & ? & _). }
  assert (rev (w :: st) ≠ []) as Hne.
  { intros E. apply (f_equal length) in E. rewrite length_rev in E. done. }
  revert Hn Hne. generalize (rev (w :: st)) as l. clear. intros l Hn Hne.
  destruct l as [|v l]; [done|]. clear Hne. cbn. f_equal.
  revert v Hn. induction l as [|v' l IH]; intros v Hn; inv Hn.
  - by rewrite app_nil_r, split_on_single.
  - cbn. rewrite split_on_app by done. f_equal. by apply IH.
Qed.

Lemma comps_path_of st : Forall valid_comp st -> comps (path_of [] st) = st.
Proof.
  intros Hv. unfold comps. rewrite split_on_path_of by done. destruct st as [|w st]; [done|].
  cbn [push_all foldl]. change (push_comp [] []) with ([] : list cs).
  change (push_all [] (rev (w :: st)) = w :: st).
  rewrite push_all_valid_id; [by rewrite rev_involutive, app_nil_r|].
  apply Forall_forall. intros v Hin. rewrite list_elem_of_In, <-in_rev, <-list_elem_of_In in Hin.
  rewrite Forall_forall in Hv. auto.
Qed.

(** What [getcwd] documents: an absolute path without ".", ".." or empty
    components, that fits the buffer. *)
Definition cwd_ok (getcwd : option cs) : Prop :=
  forall cwd, getcwd = Some cwd -> cwd = path_of [] (comps cwd) /\ (len cwd < PATH_MAX)%Z.

(** The components a path starts from. *)
Definition start_comps (getcwd : option cs) (p : cs) : list cs :=
  match p with
  | c :: _ => if ISSLASH c then [] else from_option comps [] getcwd
  | [] => []
  end.

(** When [util_clean_path] gives up: the path does not fit, or there is no
    working directory to start from. *)
Definition clean_gives_up (getcwd : option cs) (p : cs) : Prop :=
  match p with
  | c :: _ =>
      if ISSLASH c then (PATH_MAX <= len p)%Z
      else match getcwd with None => True | Some cwd => (PATH_MAX - 1 <= len cwd + len p)%Z end
  | [] => True
  end.

Definition clean_result (getcwd : option cs) (p : cs) : cs :=
  path_of [] (push_all (start_comps getcwd p) (split_on slash p)).

Lemma clean_finish size p st rd :
  (PATH_MAX <= size)%Z -> Forall valid_comp st -> shape [] st rd -> (len rd < PATH_MAX)%Z ->
  exists r, (r' ← do_clean_path (S (length p)) p rd;
    let '(ret, rd) := r' in
    if (ret =? 0)%Z then
      c ← (if (len rd >? 1)%Z then last_byte rd else Some dot);
      let rd := if ISSLASH c then tail rd else rd in
      res ← terminate size rd; Some (Some res)
    else Some None) = Some r /\
    ((r = Some (path_of [] (push_all st (split_on slash p))) /\
      (len (path_of [] (push_all st (split_on slash p))) < PATH_MAX)%Z) \/
     (r = None /\ (PATH_MAX <= cost [] st p)%Z)).
Proof.
  intros Hsz Hv Hs Hl. destruct (do_clean_path_spec (S (length p)) p st rd) as (ret & rd' & -> & Ho);
    [done..|lia|]. cbn [mbind option_bind]. destruct Ho as [(-> & Hs' & Hl')|[-> Hc]]; cbn [Z.eqb].
  - assert (Forall valid_comp (push_all st (split_on slash p))) as Hv'
      by (apply push_all_valid; [apply split_on_no_sep|done]).
    destruct (shape_close [] _ rd' Hv' Hs') as (c & Hc & Hcl).
    change (len [] + 1)%Z with 1%Z in Hc. rewrite Hc. cbn [mbind option_bind]. rewrite Hcl.
    assert (len (closed [] (push_all st (split_on slash p))) < PATH_MAX)%Z as Hlc.
    { rewrite <-Hcl. destruct (ISSLASH c); [|done]. destruct rd'; unfold len in *; cbn in *; lia. }
    rewrite terminate_ok, rev_closed by lia. eexists. split; [done|]. left. split; [done|].
    rewrite <-rev_closed. unfold len in *. by rewrite length_rev.
  - eexists. split; [done|]. by right.
Qed.

Lemma clean_path_spec getcwd p size :
  cwd_ok getcwd -> (PATH_MAX <= size)%Z ->
  exists r, util_clean_path getcwd (Some p) (Some size) = Some r /\
    ((r = Some (clean_result getcwd p) /\ (len (clean_result getcwd p) < PATH_MAX)%Z) \/
     (r = None /\ clean_gives_up getcwd p)).
Proof.
  intros Hcwd Hsz. destruct p as [|c p]; [eexists; split; [done|by right]|].
  unfold util_clean_path. destruct (Z.ltb_spec size PATH_MAX); [lia|].
  unfold clean_result, start_comps, clean_gives_up. destruct (ISSLASH c) eqn:Hc; cbn [negb].
  - change (put_byte PATH_MAX slash []) with (Some [slash]). cbn [mbind option_bind].
    edestruct (clean_finish size (c :: p) []) as (r & Hr & Ho);
      [done|constructor|by left|unfold PATH_MAX; done|].
    exists r. split; [exact Hr|]. destruct Ho as [Ho|[Ho Ho']]; [by left|right]. split; [done|].
    unfold cost, lead in Ho'. rewrite Hc in Ho'. unfold len in *. cbn in *. lia.
  - destruct getcwd as [cwd|]; cbn [from_option mbind option_bind]; [|eexists; split; [done|by right]].
    destruct (Hcwd cwd eq_refl) as [Hcl Hlc].
    destruct (Z.geb_spec (len (c :: p)) (PATH_MAX - 1 - len cwd)) as [Hg|Hg];
      cbn [mbind option_bind];
      [eexists; split; [done|right; split; [done|lia]]|].
    edestruct (clean_finish size (c :: p) (comps cwd) (rev cwd)) as (r & Hr & Ho);
      [done|apply comps_valid| | |].
    + right. by rewrite Hcl at 1; rewrite <-rev_closed, rev_involutive.
    + unfold len in *. by rewrite length_rev.
    + exists r. split; [exact Hr|]. destruct Ho as [Ho|[Ho Ho']]; [by left|exfalso].
      unfold cost, lead in Ho'. rewrite Hc in Ho'.
      destruct (len_shape [] (comps cwd) (rev cwd)) as [_ H'];
        [apply comps_valid|right; by rewrite Hcl at 1; rewrite <-rev_closed, rev_involutive|].
      unfold len in *. rewrite length_rev in *. unfold PATH_MAX in *. cbn in *. lia.
Qed.

(** ** Following links inside a root *)
Section follow.
Context (alloc : Z -> bool) (is_link : cs -> bool) (readlink : cs -> option cs).

Lemma cut_nul_id s : zero ∉ s -> cut_nul s = s.
Proof.
  induction s as [|c s IH]; intros Hn; [done|]. cbn.
  destruct (Ascii.eqb_spec c zero); [set_solver|]. rewrite IH; [done|set_solver].
Qed.

Definition nul_free (base : cs) (st : list cs) (s : cs) : Prop :=
  zero ∉ base /\ Forall (fun w => zero ∉ w) st /\ zero ∉ s.

Lemma nul_free_opened base st s : nul_free base st s -> zero ∉ opened base st.
Proof.
  intros (Hb & Hst & _). induction Hst as [|w st Hw _ IH]; cbn.
  - rewrite elem_of_cons, elem_of_rev. naive_solver.
  - rewrite elem_of_cons, elem_of_app, elem_of_rev. naive_solver.
Qed.

Lemma nul_free_path_of base st s : nul_free base st s -> zero ∉ path_of base st.
Proof.
  intros Hn. rewrite <-rev_closed, elem_of_rev. destruct st as [|w st].
  - by apply (nul_free_opened base [] s).
  - pose proof (nul_free_opened base (w :: st) s Hn) as Ho. cbn in Ho. set_solver.
Qed.

Lemma scan_nul s w r : component (skip_slash s) = (w, r) -> zero ∉ s -> zero ∉ w /\ zero ∉ r.
Proof.
  intros Hc Hs. destruct (component_spec (skip_slash s)) as (He & _). rewrite Hc in He. cbn in He.
  assert (zero ∉ skip_slash s) as Hk.
  { clear He Hc. induction s as [|c s IH]; [done|]. cbn. destruct (ISSLASH c); set_solver. }
  rewrite He in Hk. set_solver.
Qed.

(** Growing the buffer keeps its content. *)
Lemma do_path_realloc_spec base st w limit :
  (limit = PATH_MAX \/ (2 * PATH_MAX <= limit)%Z) -> (len (opened base st) <= limit)%Z ->
  (len (opened base st) + len w < 2 * PATH_MAX)%Z ->
  exists nret limit', do_path_realloc alloc w (opened base st) limit = (nret, opened base st, limit') /\
    (nret = 0%Z -> (limit' = PATH_MAX \/ (2 * PATH_MAX <= limit')%Z) /\
       (len (opened base st) + len w < limit')%Z).
Proof.
  intros Hlim Hl Hw. unfold do_path_realloc.
  destruct (Z.ltb_spec (len (opened base st) + len w) limit) as [Hlt|Hge];
    [by eexists _, _|]. cbv zeta.
  destruct (_ >? _)%Z; [by eexists _, _|]. destruct (negb _); [by eexists _, _|].
  rewrite take_ge by (rewrite length_rev; unfold len, PATH_MAX in *; lia).
  rewrite length_rev, Nat.sub_diag, rev_involutive. cbn [replicate app].
  eexists _, _. split; [done|]. intros _.
  destruct (Z.gtb_spec (len w + 1) PATH_MAX); unfold len, PATH_MAX in *; lia.
Qed.

(** Going back over the component that is a link. *)
Lemma copy_buf_spec base st w buf :
  Forall valid_comp (w :: st) ->
  do_get_symlinks_copy_buf buf base (closed base (w :: st)) =
    opened base (match buf with c :: _ => if ISSLASH c then [] else st | [] => st end).
Proof.
  intros Hv. pose proof (shape_back base (w :: st) _ Hv (or_intror eq_refl)) as Hb.
  unfold do_get_symlinks_copy_buf, skip_dest_trailing_slash. cbn [tail] in Hb.
  destruct buf as [|c buf]; [done|]. by destruct (ISSLASH c).
Qed.

(** The result of the loop: still below [base], or a failure. *)
Definition eval_post (base : cs) (o : option (Z * cs * Z)) : Prop :=
  exists ret rd limit, o = Some (ret, rd, limit) /\
    (ret = 0%Z -> exists st s, Forall valid_comp st /\ nul_free base st s /\
       shape base st rd /\ (len rd < limit)%Z).

Lemma eval_post_failed base rd limit : eval_post base (Some ((-1)%Z, rd, limit)).
Proof. by eexists _, _, _. Qed.

(** What is left to do: every turn makes it smaller. *)
Definition todo (s : cs) (num : Z) : Z := (len s + (MAXSYMLINKS - num) * PATH_MAX)%Z.

(** The invariant of the loop: the components [st] are in the buffer, [s] is to
    come and [num] links have been followed. *)
Record eval_inv (base s : cs) (st : list cs) (rd : cs) (limit num : Z) : Prop := EvalInv {
  ei_valid : Forall valid_comp st;
  ei_nul : nul_free base st s;
  ei_shape : shape base st rd;
  ei_limit : limit = PATH_MAX \/ (2 * PATH_MAX <= limit)%Z;
  ei_len : (len rd < limit)%Z;
  ei_cost : (cost base st s < 2 * PATH_MAX)%Z;
  ei_num : (num <= MAXSYMLINKS)%Z
}.

Lemma eval_inv_dot base s st rd limit num w r :
  eval_inv base s st rd limit num -> scanned st s w r -> w ≠ [] -> zero ∉ r ->
  eval_inv base r st rd limit num.
Proof.
  intros [Hv (Hb & Hst & _) Hs Hlim Hl Hc Hnum] Hsc Hw Hz. split; try done.
  pose proof (cost_keep base st st s w r Hsc Hw ltac:(done)). lia.
Qed.

Lemma eval_inv_up base s st rd limit num w r :
  eval_inv base s st rd limit num -> scanned st s w r -> w ≠ [] -> zero ∉ r ->
  eval_inv base r (tail st) (skip_dest_trailing_slash (len base) rd) limit num.
Proof.
  intros [Hv (Hb & Hst & _) Hs Hlim Hl Hc Hnum] Hsc Hw Hz.
  unfold skip_dest_trailing_slash. rewrite (shape_back base st rd) by done.
  pose proof (cost_keep base st (tail st) s w r Hsc Hw (len_opened_tail base st)).
  pose proof (len_shape_tail base st rd Hv Hs).
  split; [by destruct Hv|split_and!; [done| |done]; by destruct Hst|by left|done|lia..].
Qed.

Lemma eval_inv_push base s st rd limit limit' num w r :
  eval_inv base s st rd limit num -> scanned st s w r -> Forall valid_comp (w :: st) ->
  zero ∉ w -> zero ∉ r -> (limit' = PATH_MAX \/ (2 * PATH_MAX <= limit')%Z) ->
  (len (opened base st) + len w < limit')%Z ->
  eval_inv base r (w :: st) (closed base (w :: st)) limit' num.
Proof.
  intros [Hv (Hb & Hst & _) Hs Hlim Hl Hc Hnum] Hsc Hv' Hzw Hz Hlim' Hl'.
  pose proof (cost_push base st s w r Hsc) as Hp.
  assert (w ≠ []) as Hw by (inv Hv'; by destruct H1).
  split; [done|split_and!; [done|by constructor|done]|by right|done|rewrite len_push; lia| |done].
  specialize (Hp Hw). lia.
Qed.

Lemma todo_link r r' num :
  (len r' < PATH_MAX)%Z -> (todo r' (num + 1) < todo r num)%Z.
Proof. unfold todo, len, PATH_MAX. lia. Qed.

(** ** The public functions *)

Lemma split_on_not_elem c s : c ∉ s -> Forall (fun w => c ∉ w) (split_on slash s).
Proof.
  induction s as [|c' s IH]; intros Hn; cbn; [by repeat constructor|].
  assert (Forall (fun w => c ∉ w) (split_on slash s)) as H by (apply IH; set_solver).
  case_decide; [constructor; [set_solver|done]|]. destruct H; constructor; try done; set_solver.
Qed.

Lemma push_all_forall (P : cs -> Prop) st ws : Forall P st -> Forall P ws -> Forall P (push_all st ws).
Proof.
  intros Hst Hws. revert st Hst. induction Hws as [|w ws Hw _ IH]; intros st Hst; [done|].
  cbn. apply IH. unfold push_comp.
  destruct (bool_decide _); [done|]. destruct (is_dot w); [done|].
  destruct (is_dotdot w); [by destruct Hst|by constructor].
Qed.

(** C strings, and a working directory that is one. *)
Definition cstring (s : cs) : Prop := zero ∉ s.
Definition cwd_cstring (getcwd : option cs) : Prop := from_option cstring True getcwd.

Lemma clean_result_abs getcwd p :
  exists st, Forall valid_comp st /\ clean_result getcwd p = path_of [] st.
Proof.
  eexists. split; [|done]. apply push_all_valid; [apply split_on_no_sep|].
  unfold start_comps. destruct p as [|c p]; [constructor|]. destruct (ISSLASH c); [constructor|].
  destruct getcwd; [apply comps_valid|constructor].
Qed.

Lemma clean_result_cstring getcwd p :
  cwd_cstring getcwd -> cstring p -> cstring (clean_result getcwd p).
Proof.
  intros Hc Hp. apply (nul_free_path_of [] _ []). split_and!; [set_solver| |set_solver].
  apply push_all_forall; [|by apply split_on_not_elem].
  unfold start_comps. destruct p as [|c p]; [constructor|]. destruct (ISSLASH c); [constructor|].
  destruct getcwd as [cwd|]; [|constructor]. apply push_all_forall; [constructor|].
  by apply split_on_not_elem.
Qed.

Lemma path_of_slash st : exists p, path_of [] st = slash :: p.
Proof.
  unfold path_of. destruct st as [|w st]; cbn; [by eexists|].
  destruct (rev st ++ [w]) as [|v l] eqn:E; [by destruct (rev st)|]. by eexists.
Qed.

Lemma start_comps_abs getcwd st : start_comps getcwd (path_of [] st) = [].
Proof. by destruct (path_of_slash st) as [p ->]. Qed.

(** Cleaning a clean path that fits gives it back. *)
Lemma clean_path_fixpoint getcwd st size :
  cwd_ok getcwd -> (PATH_MAX <= size)%Z -> Forall valid_comp st -> (len (path_of [] st) < PATH_MAX)%Z ->
  util_clean_path getcwd (Some (path_of [] st)) (Some size) = Some (Some (path_of [] st)).
Proof.
  intros Hcwd Hsz Hv Hl. destruct (clean_path_spec getcwd (path_of [] st) size Hcwd Hsz)
    as (r & -> & [[-> _]|[-> Hg]]).
  - unfold clean_result. rewrite start_comps_abs.
    fold (comps (path_of [] st)). by rewrite comps_path_of.
  - exfalso. unfold clean_gives_up in Hg. destruct (path_of_slash st) as [p Hp]. rewrite Hp in *.
    cbn in Hg. lia.
Qed.

(** The directory a path denotes is the root, or below it without any ".". *)
Definition prefix_of_root (root : cs) : cs := if bool_decide (root = [slash]) then [] else root.
Definition in_scope (root p : cs) : Prop :=
  p = root \/ exists st, Forall valid_comp st /\ p = path_of (prefix_of_root root) st.

(** The state the loop starts from. *)
Lemma eval_start pre full :
  cstring pre -> cstring full -> (len pre < PATH_MAX - 1)%Z -> (len full < PATH_MAX)%Z ->
  (rd ← put_bytes PATH_MAX pre []; put_byte PATH_MAX slash rd) = Some (slash :: rev pre) /\
  eval_inv pre (drop (length pre) full) [] (slash :: rev pre) PATH_MAX 0.
Proof.
  intros Hp Hf Hlp Hlf. split.
  - unfold put_bytes, put_byte, len in *. rewrite app_nil_r. cbn [length].
    destruct (Z.leb_spec (Z.of_nat 0 + Z.of_nat (length pre)) PATH_MAX); [|lia].
    cbn [mbind option_bind]. rewrite length_rev.
    by destruct (Z.ltb_spec (Z.of_nat (length pre)) PATH_MAX); [|lia].
  - set (start := drop (length pre) full).
    assert (len start <= len full)%Z by (unfold len, start; rewrite length_drop; lia).
    split; [constructor| |by left|by left|unfold len in *; cbn; rewrite length_rev; lia| |done].
    + split_and!; [done|constructor|]. intros Hz. apply Hf.
      rewrite <-(take_drop (length pre) full), elem_of_app. by right.
    + unfold cost. change (opened pre []) with (slash :: rev pre).
      assert (0 <= lead start)%Z by (unfold lead; destruct start; [lia|]; by destruct (ISSLASH _)).
      unfold len in *. cbn. rewrite length_rev. unfold PATH_MAX in *. lia.
Qed.

(** The string returned when the loop has succeeded. *)
Lemma eval_finish pre st s rd limit :
  Forall valid_comp st -> nul_free pre st s -> shape pre st rd -> (len rd < limit)%Z ->
  (c ← (if (len rd >? len pre + 1)%Z then last_byte rd else Some dot);
   let rd := if ISSLASH c then tail rd else rd in
   res ← terminate limit rd; Some (Some (cut_nul res))) = Some (Some (path_of pre st)).
Proof.
  intros Hv Hn Hs Hl. destruct (shape_close pre st rd Hv Hs) as (c & -> & Hcl).
  cbn [mbind option_bind]. rewrite Hcl, terminate_ok, rev_closed.
  - cbn [mbind option_bind]. by rewrite cut_nul_id by (by eapply nul_free_path_of).
  - rewrite <-Hcl. destruct (ISSLASH c); [|done]. destruct rd; unfold len in *; cbn in *; lia.
Qed.

(** ** Paths without links *)

Lemma scan_comp w rest :
  valid_comp w -> (rest = [] \/ exists r, rest = slash :: r) ->
  component (skip_slash (slash :: w ++ rest)) = (w, rest).
Proof.
  intros (Hne & Hn & _) Hr. cbn [skip_slash]. change (ISSLASH slash) with true. cbv iota.
  assert (skip_slash (w ++ rest) = w ++ rest) as ->.
  { destruct w as [|c w]; [done|]. cbn. destruct (ISSLASH c) eqn:E; [|done].
    apply ISSLASH_spec in E. set_solver. }
  clear Hne. induction w as [|c w IH]; cbn.
  - by destruct Hr as [->|[r ->]].
  - destruct (ISSLASH c) eqn:E; [apply ISSLASH_spec in E; set_solver|]. by rewrite IH by set_solver.
Qed.

Lemma len_closed_app base l st : (len (closed base st) <= len (closed base (l ++ st)))%Z.
Proof.
  induction l as [|v l IH]; [done|]. cbn [app]. rewrite len_push.
  destruct (l ++ st) as [|u k] eqn:E; [unfold len in *; cbn in *; lia|].
  rewrite closed_opened by done. unfold len in *. cbn in *. lia.
Qed.

Lemma len_path_of base st : len (path_of base st) = len (closed base st).
Proof. rewrite <-rev_closed. unfold len. by rewrite length_rev. Qed.

Lemma concat_rest (ws : list cs) :
  concat (cons slash <$> ws) = [] \/ exists r, concat (cons slash <$> ws) = slash :: r.
Proof. destruct ws; [by left|right; by eexists]. Qed.

Lemma eval_no_links ws fuel base st rd num extra :
  Forall valid_comp st -> Forall valid_comp ws -> shape base st rd -> (len rd < PATH_MAX)%Z ->
  nul_free base (rev ws ++ st) [] -> (len (path_of base (rev ws ++ st)) < PATH_MAX)%Z ->
  (forall ws1 ws2, ws = ws1 ++ ws2 -> ws1 ≠ [] -> is_link (path_of base (rev ws1 ++ st)) = false) ->
  length (concat (cons slash <$> ws)) < fuel ->
  exists rd', do_eval_symlinks_in_scope alloc is_link readlink fuel base
      (concat (cons slash <$> ws)) rd PATH_MAX num extra = Some (0%Z, rd', PATH_MAX) /\
    shape base (rev ws ++ st) rd' /\ (len rd' < PATH_MAX)%Z.
Proof.
  revert fuel st rd. induction ws as [|w ws IH]; intros fuel st rd Hv Hws Hs Hl Hn Htot Hno Hf.
  { destruct fuel; [cbn in Hf; lia|]. by exists rd. }
  destruct fuel as [|fuel]; [lia|]. inv Hws. pose proof H1 as (Hne & Hns & Hd & Hdd).
  assert (rev (w :: ws) ++ st = rev ws ++ w :: st) as Happ by (cbn; by rewrite <-app_assoc).
  rewrite Happ in *. pose proof (scan_comp w (concat (cons slash <$> ws)) H1 (concat_rest ws)) as Hsc.
  cbn [fmap list_fmap concat app] in *. change ((slash :: w) ++ concat (cons slash <$> ws))
    with (slash :: w ++ concat (cons slash <$> ws)) in *.
  cbn [do_eval_symlinks_in_scope]. rewrite Hsc. destruct w as [|c1 w1] eqn:Ew; [done|].
  rewrite <-Ew in *. clear Ew. unfold is_dot, is_dotdot. rewrite !bool_decide_eq_false_2 by done.
  destruct (put_slash PATH_MAX base st rd Hv Hs Hl) as (c & -> & Hps). cbn [mbind option_bind].
  rewrite Hps. cbn [mbind option_bind].
  assert (len (closed base (w :: st)) < PATH_MAX)%Z as Hlc
    by (rewrite len_path_of in Htot; pose proof (len_closed_app base (rev ws) (w :: st)); lia).
  rewrite len_push in Hlc. unfold do_path_realloc.
  destruct (Z.ltb_spec (len (opened base st) + len w) PATH_MAX); [|lia]. cbn [negb Z.eqb].
  rewrite put_comp by lia. cbn [mbind option_bind].
  rewrite terminate_ok, rev_closed by (rewrite len_push; lia). cbn [mbind option_bind].
  assert (nul_free base (w :: st) []) as Hnw.
  { destruct Hn as (? & Ha & ?). apply Forall_app in Ha as [_ Ha]. by split_and!. }
  rewrite cut_nul_id by (by eapply nul_free_path_of). unfold do_eval_symlinks_in_scope_is_symlink.
  pose proof (Hno [w] ws eq_refl ltac:(done)) as Hno1. cbn [rev app] in Hno1. rewrite Hno1.
  cbn [negb].
  apply IH; [by constructor|done|by right|rewrite len_push; lia|done|done| |].
  - intros ws1 ws2 -> Hw1. specialize (Hno (w :: ws1) ws2 eq_refl ltac:(done)). cbn in Hno.
    by rewrite <-app_assoc in Hno.
  - cbn [length] in Hf. rewrite length_app in Hf. lia.
Qed.

Lemma prefix_of_path rst :
  Forall valid_comp rst -> prefix_of_root (path_of [] rst) = concat (cons slash <$> rev rst).
Proof.
  intros Hv. unfold prefix_of_root. destruct rst as [|w rst]; [done|].
  rewrite bool_decide_eq_false_2; [done|]. intros E.
  pose proof (comps_path_of _ Hv) as Hc. rewrite E in Hc. done.
Qed.

(** A path below a root, put together from the root and the rest. *)
Lemma path_of_app rst st :
  Forall valid_comp rst -> st ≠ [] ->
  path_of (prefix_of_root (path_of [] rst)) st = path_of [] (st ++ rst) /\
  path_of [] (st ++ rst) = prefix_of_root (path_of [] rst) ++ concat (cons slash <$> rev st).
Proof.
  intros Hv Hst. rewrite prefix_of_path by done.
  assert (path_of [] (st ++ rst) = concat (cons slash <$> rev rst) ++ concat (cons slash <$> rev st)) as ->.
  { unfold path_of. destruct (st ++ rst) eqn:E; [by destruct st|]. rewrite <-E.
    cbn [app]. by rewrite rev_app_distr, fmap_app, concat_app. }
  split; [|done]. by destruct st.
Qed.

Lemma root_prefix_of_full rst st :
  Forall valid_comp rst -> st ≠ [] -> path_of [] rst `prefix_of` path_of [] (st ++ rst).
Proof.
  intros Hv Hst. destruct rst as [|w rst].
  - rewrite app_nil_r. destruct (path_of_slash st) as [p ->]. by exists p.
  - destruct (path_of_app (w :: rst) st Hv Hst) as [_ ->]. rewrite prefix_of_path by done. by eexists.
Qed.

Lemma nul_free_concat base st :
  zero ∉ base ++ concat (cons slash <$> rev st) -> nul_free base st [].
Proof.
  rewrite elem_of_app. intros Hz. split_and!; [naive_solver| |set_solver].
  apply Forall_forall. intros w Hw Hin. apply Hz. right.
  rewrite list_elem_of_In, in_concat. exists (slash :: w). split.
  - apply list_elem_of_In, list_elem_of_fmap. exists w. split; [done|].
    by rewrite list_elem_of_In, <-in_rev, <-list_elem_of_In.
  - rewrite <-list_elem_of_In. by right.
Qed.

(** The loop from the root on, when no component below it is a link. *)
Lemma run_no_links rst st :
  Forall valid_comp rst -> Forall valid_comp st -> st ≠ [] -> cstring (path_of [] (st ++ rst)) ->
  (len (path_of [] (st ++ rst)) < PATH_MAX - 1)%Z ->
  (forall st1 st2, st = st1 ++ st2 -> st2 ≠ [] -> is_link (path_of [] (st2 ++ rst)) = false) ->
  let pre := prefix_of_root (path_of [] rst) in
  let s := concat (cons slash <$> rev st) in
  nul_free pre st [] /\
  exists rd, do_eval_symlinks_in_scope alloc is_link readlink (eval_fuel s) pre s
      (slash :: rev pre) PATH_MAX 0 false = Some (0%Z, rd, PATH_MAX) /\
    shape pre st rd /\ (len rd < PATH_MAX)%Z.
Proof.
  intros Hvr Hvs Hst Hz Hl Hno pre s. destruct (path_of_app rst st Hvr Hst) as [Hpa Hpc].
  assert (nul_free pre st []) as Hnf by (apply nul_free_concat; unfold pre; by rewrite <-Hpc).
  split; [done|]. assert (rev (rev st) ++ [] = st) as Hrr by (by rewrite rev_involutive, app_nil_r).
  pose proof (eval_no_links (rev st) (eval_fuel s) pre [] (slash :: rev pre) 0 false) as Hrun.
  rewrite Hrr in Hrun. apply Hrun; clear Hrun; [constructor| |by left| |done| | |].
  - rewrite Forall_forall in *. intros w Hw. apply Hvs.
    by rewrite list_elem_of_In, <-in_rev, <-list_elem_of_In in Hw.
  - assert (len pre <= len (path_of [] (st ++ rst)))%Z
      by (rewrite Hpc; fold pre; unfold len; rewrite length_app; lia).
    unfold len in *. cbn. rewrite length_rev. lia.
  - unfold pre. rewrite Hpa. lia.
  - intros ws1 ws2 Hws Hw1. rewrite app_nil_r. unfold pre.
    assert (rev ws1 ≠ []) as Hr by (intros E; destruct Hw1; by rewrite <-(rev_involutive ws1), E).
    destruct (path_of_app rst (rev ws1) Hvr Hr) as [-> _]. apply (Hno (rev ws2)); [|done].
    by rewrite <-rev_app_distr, <-Hws, rev_involutive.
  - unfold eval_fuel, s. lia.
Qed.

Lemma eval_unchanged getcwd rst st :
  cwd_ok getcwd -> util_common_calloc_s alloc PATH_MAX = true ->
  Forall valid_comp (st ++ rst) -> cstring (path_of [] (st ++ rst)) ->
  (len (path_of [] (st ++ rst)) < PATH_MAX - 1)%Z ->
  (forall st1 st2, st = st1 ++ st2 -> st2 ≠ [] -> is_link (path_of [] (st2 ++ rst)) = false) ->
  eval_symlinks_in_scope alloc is_link readlink getcwd (Some (path_of [] (st ++ rst)))
    (Some (path_of [] rst)) = Some (Some (path_of [] (st ++ rst))).
Proof.
  intros Hcwd Halloc [Hvs Hvr]%Forall_app Hz Hl Hno. unfold eval_symlinks_in_scope.
  assert (len (path_of [] rst) <= len (path_of [] (st ++ rst)))%Z as Hlr.
  { rewrite !len_path_of. apply len_closed_app. }
  rewrite clean_path_fixpoint by (done || lia). cbn [mbind option_bind].
  case_bool_decide as He; [done|]. assert (st ≠ []) as Hst by (by intros ->).
  destruct (path_of_app rst st Hvr Hst) as [Hpa Hpc].
  assert (is_substring (path_of [] rst) (path_of [] (st ++ rst)) = true) as ->.
  { pose proof (root_prefix_of_full rst st Hvr Hst).
    destruct (path_of [] (st ++ rst)); cbn; by rewrite bool_decide_eq_true_2. }
  rewrite Halloc. cbn [negb]. cbv zeta. fold (prefix_of_root (path_of [] rst)).
  set (pre := prefix_of_root (path_of [] rst)) in *.
  assert (len pre <= len (path_of [] (st ++ rst)))%Z.
  { rewrite Hpc. unfold len. rewrite length_app. lia. }
  destruct (Z.geb_spec (len pre) (PATH_MAX - 1)); [lia|].
  destruct (eval_start pre (path_of [] (st ++ rst))) as [Hstart _]; [|done|lia|lia|].
  { unfold cstring in *. rewrite Hpc, elem_of_app in Hz. naive_solver. }
  destruct (put_bytes PATH_MAX pre []) as [rd0|]; [|done]. cbn [mbind option_bind] in *.
  rewrite Hstart. cbn [mbind option_bind].
  replace (drop (length pre) (path_of [] (st ++ rst))) with (concat (cons slash <$> rev st))
    by (by rewrite Hpc, drop_app_length).
  destruct (run_no_links rst st) as [Hnf (rd & Hrun & Hs & Hlrd)]; [done..|].
  fold pre in Hrun, Hs, Hnf. rewrite Hrun. cbn [mbind option_bind negb Z.eqb].
  pose proof (eval_finish pre st [] rd PATH_MAX Hvs Hnf Hs Hlrd) as Hfin. cbv zeta in Hfin.
  by rewrite Hfin, Hpa.
Qed.

(** ** Any file system *)

(** [lstat] fails with ENAMETOOLONG. *)
Hypothesis lstat_long : forall p, is_link p = true -> (len p < PATH_MAX)%Z.
(** The target of a link is a C string. *)
Hypothesis readlink_cstring : forall p t, readlink p = Some t -> zero ∉ t.

(** A link that is followed. *)
Lemma do_get_symlinks_spec base st w r num extra :
  Forall valid_comp (w :: st) -> nul_free base (w :: st) r -> (len base < PATH_MAX - 1)%Z ->
  (len (closed base (w :: st)) < PATH_MAX)%Z ->
  exists nret rd' r' num' extra',
    do_get_symlinks alloc readlink base (closed base (w :: st)) r num extra
      = (nret, rd', r', num', extra') /\ num' = (num + 1)%Z /\
    (nret = 0%Z -> (num' <= MAXSYMLINKS)%Z /\ (len r' < PATH_MAX)%Z /\
      exists st', rd' = opened base st' /\ Forall valid_comp st' /\ nul_free base st' r' /\
        (cost base st' r' < 2 * PATH_MAX)%Z /\ (len (opened base st') < PATH_MAX)%Z).
Proof.
  intros Hv Hn Hb Hl. unfold do_get_symlinks.
  destruct (Z.gtb_spec (num + 1) MAXSYMLINKS) as [|Hm]; [by eexists _, _, _, _, _|].
  destruct (negb _); [by eexists _, _, _, _, _|].
  destruct (readlink _) as [t|] eqn:Ht; [|by eexists _, _, _, _, _].
  destruct (negb _); [by eexists _, _, _, _, _|]. cbv zeta.
  set (buf := take _ t). destruct (Z.geb_spec (len r) (PATH_MAX - len buf)) as [|Hr];
    [by eexists _, _, _, _, _|]. eexists _, _, _, _, _. split_and!; [done..|]. intros _.
  rewrite copy_buf_spec by done.
  assert (zero ∉ buf) as Hz.
  { pose proof (readlink_cstring _ _ Ht) as Hz.
    rewrite <-(take_drop (Z.to_nat (PATH_MAX - 1)) t), elem_of_app in Hz. naive_solver. }
  assert (len (buf ++ r) < PATH_MAX)%Z as Hlr by (unfold len in *; rewrite length_app; lia).
  split_and!; [lia|done|]. eexists. split; [done|].
  assert (nul_free base st (buf ++ r) /\ Forall valid_comp st) as [Hn' Hv'].
  { destruct Hn as (? & Hns & ?). inv Hns. inv Hv. split; [|done]. split_and!; [done..|set_solver]. }
  assert (0 <= lead (buf ++ r))%Z as Hld by (unfold lead; destruct (buf ++ r); [lia|]; by destruct (ISSLASH _)).
  rewrite len_push in Hl. inv Hv. destruct H1 as (Hw & _).
  assert (0 < len w)%Z by (destruct w; [done|unfold len; cbn; lia]).
  assert (cost base st (buf ++ r) < 2 * PATH_MAX)%Z by (unfold cost; lia).
  assert (len (opened base []) < PATH_MAX)%Z
    by (unfold len in *; cbn; rewrite length_rev; lia).
  assert (cost base [] (buf ++ r) < 2 * PATH_MAX)%Z by (unfold cost; lia).
  assert (len (opened base st) < PATH_MAX)%Z by lia.
  destruct buf as [|c buf']; [done|]. destruct (ISSLASH c); [|done].
  split_and!; [constructor| |done..]. destruct Hn' as (? & _ & ?). by split_and!.
Qed.

(** The part of a turn after a component has been appended. *)
Lemma eval_link_step fuel base st w r limit num extra :
  (forall s st rd limit num extra, eval_inv base s st rd limit num ->
     (todo s num < Z.of_nat fuel)%Z ->
     eval_post base (do_eval_symlinks_in_scope alloc is_link readlink fuel base s rd limit num extra)) ->
  (len base < PATH_MAX - 1)%Z ->
  eval_inv base r (w :: st) (closed base (w :: st)) limit num -> (todo r num < Z.of_nat fuel)%Z ->
  let rd := closed base (w :: st) in
  eval_post base
   (rpath ← terminate limit rd;
    if do_eval_symlinks_in_scope_is_symlink is_link (cut_nul rpath) then
      do_eval_symlinks_in_scope alloc is_link readlink fuel base r rd limit num extra
    else
      let '(nret, rd, end_, num_links, extra_buf) :=
        do_get_symlinks alloc readlink base rd r num extra in
      if negb (nret =? 0)%Z then Some ((-1)%Z, rd, limit)
      else do_eval_symlinks_in_scope alloc is_link readlink fuel base end_ rd limit num_links extra_buf).
Proof.
  intros IH Hb Hi Hf. pose proof Hi as [Hv Hn Hs Hlim Hl Hc Hnum]. cbv zeta.
  rewrite terminate_ok, rev_closed by done. cbn [mbind option_bind].
  rewrite cut_nul_id by (by eapply nul_free_path_of).
  unfold do_eval_symlinks_in_scope_is_symlink.
  destruct (is_link (path_of base (w :: st))) eqn:Hlink; cbn [negb]; [|by eapply IH].
  apply lstat_long in Hlink. rewrite <-rev_closed in Hlink.
  destruct (do_get_symlinks_spec base st w r num extra)
    as (nret & rd' & r' & num' & extra' & -> & -> & Hok); [done..| |].
  { unfold len in *. by rewrite length_rev in Hlink. }
  destruct (Z.eqb_spec nret 0) as [->|]; cbn [negb]; [|apply eval_post_failed].
  destruct (Hok eq_refl) as (Hm & Hlr & st' & -> & Hv' & Hn' & Hc' & Hlo).
  pose proof (todo_link r r' num Hlr). apply (IH r' st'); [|lia].
  split; [done|done|by left|done|unfold PATH_MAX in *; lia|done..].
Qed.

Lemma do_eval_symlinks_spec fuel base s st rd limit num extra :
  (len base < PATH_MAX - 1)%Z -> eval_inv base s st rd limit num ->
  (todo s num < Z.of_nat fuel)%Z ->
  eval_post base (do_eval_symlinks_in_scope alloc is_link readlink fuel base s rd limit num extra).
Proof.
  intros Hb. revert s st rd limit num extra.
  induction fuel as [|fuel IH]; intros s st rd limit num extra Hi Hf; pose proof Hi as [Hv Hn Hs Hlim Hl Hc Hnum].
  { unfold todo, len, PATH_MAX in Hf. lia. }
  assert (eval_post base (Some (0%Z, rd, limit))) as Hstop by (eexists _, _, _; eauto 10).
  cbn [do_eval_symlinks_in_scope]. destruct s as [|c0 s0]; [done|].
  set (s := c0 :: s0) in *. destruct (component (skip_slash s)) as [w r] eqn:Hcomp.
  pose proof (scan_step st s w r Hcomp) as Hsc.
  destruct w as [|c1 w1]; [done|]. set (w := c1 :: w1) in *. assert (w ≠ []) as Hw by done.
  destruct (scan_nul s w r Hcomp) as [Hzw Hzr]; [apply Hn|].
  assert (todo r num < Z.of_nat fuel)%Z as Hfr.
  { pose proof (sc_length _ _ _ _ Hsc). unfold todo, len in *. cbn [length w] in *. lia. }
  pose proof (push_comp_valid st w (sc_no_slash _ _ _ _ Hsc) Hv) as Hv'.
  rewrite push_comp_kinds in Hv' by done.
  destruct (is_dot w); [by eapply IH; [eapply eval_inv_dot|]|].
  destruct (is_dotdot w); [by eapply IH; [eapply eval_inv_up|]|].
  destruct (put_slash limit base st rd Hv Hs Hl) as (c & -> & Hps). cbn [mbind option_bind].
  rewrite Hps. cbn [mbind option_bind]. pose proof (len_shape base st rd Hv Hs) as Hls.
  pose proof (sc_lead _ _ _ _ Hsc Hw) as Hlead.
  assert (len (opened base st) + len w < 2 * PATH_MAX)%Z by (unfold cost, len in *; lia).
  destruct (do_path_realloc_spec base st w limit) as (nret & limit' & -> & Hre); [done|lia..|].
  destruct (Z.eqb_spec nret 0) as [->|]; cbn [negb]; [|apply eval_post_failed].
  destruct (Hre eq_refl) as [Hlim' Hl']. rewrite put_comp by lia. cbn [mbind option_bind].
  apply eval_link_step; [exact IH|done| |done]. by eapply eval_inv_push.
Qed.

Lemma eval_in_scope getcwd full rst :
  cwd_ok getcwd -> Forall valid_comp rst -> cstring full -> cstring (path_of [] rst) ->
  (len full < PATH_MAX)%Z -> (len (path_of [] rst) < PATH_MAX)%Z ->
  exists r, eval_symlinks_in_scope alloc is_link readlink getcwd (Some full) (Some (path_of [] rst))
    = Some r /\ forall p, r = Some p -> in_scope (path_of [] rst) p.
Proof.
  intros Hcwd Hv Hf Hr Hlf Hlr. unfold eval_symlinks_in_scope.
  rewrite clean_path_fixpoint by done. cbn [mbind option_bind]. set (root := path_of [] rst) in *.
  case_bool_decide as He; [eexists; split; [done|]; intros p [= <-]; by left|].
  destruct (negb _); [by eexists|]. destruct (negb _); [by eexists|]. cbv zeta.
  change (if bool_decide (root = [slash]) then [] else root) with (prefix_of_root root).
  assert (cstring (prefix_of_root root)) as Hp.
  { unfold prefix_of_root, cstring. case_bool_decide; [set_solver|done]. }
  set (pre := prefix_of_root root) in *.
  destruct (Z.geb_spec (len pre) (PATH_MAX - 1)) as [|Hlp]; [by eexists|].
  destruct (eval_start pre full) as [Hst Hi]; [done..|].
  destruct (put_bytes PATH_MAX pre []) as [rd0|]; [|done]. cbn [mbind option_bind] in *.
  rewrite Hst. cbn [mbind option_bind].
  destruct (do_eval_symlinks_spec (eval_fuel (drop (length pre) full)) pre _ [] _ PATH_MAX 0 false
              Hlp Hi) as (ret & rd & limit & -> & Hok).
  { unfold todo, eval_fuel, len, MAXSYMLINKS, PATH_MAX. lia. }
  cbn [mbind option_bind]. destruct (Z.eqb_spec ret 0) as [->|]; cbn [negb]; [|by eexists].
  destruct (Hok eq_refl) as (st & s' & Hvs & Hns & Hs & Hl).
  pose proof (eval_finish pre st s' rd limit Hvs Hns Hs Hl) as Hfin. cbv zeta in Hfin. rewrite Hfin.
  eexists. split; [done|]. intros p [= <-]. right. eauto.
Qed.

Lemma follow_in_scope getcwd full root :
  cwd_ok getcwd -> cwd_cstring getcwd -> cstring full -> cstring root ->
  exists r, util_follow_symlink_in_scope alloc is_link readlink getcwd (Some full) (Some root) = Some r /\
    forall p, r = Some p -> in_scope (clean_result getcwd root) p.
Proof.
  intros Hcwd Hcc Hf Hr. unfold util_follow_symlink_in_scope.
  destruct (clean_path_spec getcwd full PATH_MAX Hcwd) as (r1 & -> & [[-> Hlf]|[-> _]]);
    [done| |by eexists]. cbn [mbind option_bind].
  destruct (clean_path_spec getcwd root PATH_MAX Hcwd) as (r2 & -> & [[-> Hlr]|[-> _]]);
    [done| |by eexists]. cbn [mbind option_bind].
  pose proof (clean_result_cstring getcwd root Hcc Hr) as Hcr.
  destruct (clean_result_abs getcwd root) as (rst & Hv & Hst). rewrite Hst in *.
  apply eval_in_scope; try done. by apply clean_result_cstring.
Qed.

Lemma resource_in_scope getcwd root path :
  cwd_ok getcwd -> cwd_cstring getcwd -> cstring root -> cstring path ->
  exists r, util_get_resource_path alloc is_link readlink getcwd root path = Some r /\
    forall p, r = Some p -> in_scope (clean_result getcwd root) p.
Proof.
  intros Hcwd Hcc Hr Hp. unfold util_get_resource_path. cbv zeta. destruct (_ >=? _)%Z; [by eexists|].
  assert (cstring ([slash] ++ root ++ [slash] ++ path)) as Ht.
  { unfold cstring in *. rewrite !elem_of_app, !list_elem_of_singleton. naive_solver. }
  destruct (clean_path_spec getcwd ([slash] ++ root ++ [slash] ++ path) PATH_MAX Hcwd)
    as (r1 & -> & [[-> _]|[-> _]]); [done| |by eexists]. cbn [mbind option_bind].
  apply follow_in_scope; [done..| |done]. by apply clean_result_cstring.
Qed.
End follow.

(** ** Properties *)

(** C40: [util_clean_path] never reads or writes outside of its buffer, and when it
    succeeds it returns the canonical form of the path: the components of the
    working directory (for a relative path) and of the path, with empty ones and
    "." dropped and each ".." cancelling the one before it, each preceded by one
    '/'.  The result has fewer than [PATH_MAX] characters and cleaning it again
    gives the same string; it fails only when the path is too long. *)
Theorem clean_path_normalises getcwd p size :
  cwd_ok getcwd -> p ≠ [] -> (PATH_MAX <= size)%Z ->
  exists r, util_clean_path getcwd (Some p) (Some size) = Some r /\
    match r with
    | Some q =>
        q = path_of [] (push_all (start_comps getcwd p) (split_on slash p)) /\
        Forall valid_comp (comps q) /\ (len q < PATH_MAX)%Z /\
        util_clean_path getcwd (Some q) (Some size) = Some (Some q)
    | None => clean_gives_up getcwd p
    end.
Proof.
  intros Hcwd Hp Hsz. destruct (clean_path_spec getcwd p size Hcwd Hsz) as (r & -> & Ho).
  exists r. split; [done|]. destruct Ho as [[-> Hl]|[-> Hg]]; [|done].
  split_and!; [done|apply comps_valid|done|].
  destruct (clean_result_abs getcwd p) as (st & Hv & Hst). rewrite Hst in *.
  by apply clean_path_fixpoint.
Qed.

(** C7: whatever links the file system has, [util_follow_symlink_in_scope] and
    [util_get_resource_path] terminate without touching memory outside of their
    buffers, and a path they return is the root directory or lies below it
    component by component, without any "..".  The hypotheses are what [lstat]
    (ENAMETOOLONG), [readlink] and [getcwd] document. *)
Theorem follow_symlink_confined alloc is_link readlink getcwd full root :
  (forall p, is_link p = true -> (len p < PATH_MAX)%Z) ->
  (forall p t, readlink p = Some t -> zero ∉ t) ->
  cwd_ok getcwd -> cwd_cstring getcwd -> cstring full -> cstring root ->
  (exists r, util_follow_symlink_in_scope alloc is_link readlink getcwd (Some full) (Some root) = Some r /\
     forall p, r = Some p -> in_scope (clean_result getcwd root) p) /\
  (exists r, util_get_resource_path alloc is_link readlink getcwd root full = Some r /\
     forall p, r = Some p -> in_scope (clean_result getcwd root) p).
Proof.
  intros Hls Hrl Hcwd Hcc Hf Hr. split; [by apply follow_in_scope|by apply resource_in_scope].
Qed.

(** When none of the directories between the root and a path below it is a
    symbolic link, [util_follow_symlink_in_scope] returns the path unchanged. *)
Theorem follow_symlink_plain_path alloc is_link readlink getcwd rst st :
  cwd_ok getcwd -> util_common_calloc_s alloc PATH_MAX = true ->
  Forall valid_comp (st ++ rst) -> cstring (path_of [] (st ++ rst)) ->
  (len (path_of [] (st ++ rst)) < PATH_MAX - 1)%Z ->
  (forall st1 st2, st = st1 ++ st2 -> st2 ≠ [] -> is_link (path_of [] (st2 ++ rst)) = false) ->
  util_follow_symlink_in_scope alloc is_link readlink getcwd
    (Some (path_of [] (st ++ rst))) (Some (path_of [] rst)) = Some (Some (path_of [] (st ++ rst))).
Proof.
  intros Hcwd Ha Hv Hz Hl Hno. unfold util_follow_symlink_in_scope.
  pose proof (len_closed_app [] st rst) as Hlc. rewrite <-!len_path_of in Hlc.
  pose proof Hv as [_ Hvr]%Forall_app.
  rewrite clean_path_fixpoint by (done || lia). cbn [mbind option_bind].
  rewrite clean_path_fixpoint by (done || lia). cbn [mbind option_bind].
  by apply eval_unchanged.
Qed.

(** [util_realpath_in_scope] compares strings, not components: with a link
    "/rootfs/x" to "/rootfs-other/secret" it accepts a path outside of the root
    directory "/rootfs". *)
Theorem realpath_in_scope_accepts_sibling :
  exists is_link readlink root path p,
    util_realpath_in_scope is_link readlink None root path = Some (Some p) /\
    clean_result None root = root /\ ~ in_scope root p.
Proof.
  set (root := bs "/rootfs"). set (target := bs "/rootfs-other/secret").
  exists (fun p => bool_decide (p = bs "/rootfs/x")), (fun _ => Some target), root, (bs "/x"), target.
  split; [vm_compute; reflexivity|]. split; [vm_compute; reflexivity|].
  intros [E|(st & _ & E)]; [by vm_compute in E|]. change (prefix_of_root root) with root in E.
  unfold path_of in E. destruct st as [|w st]; [by vm_compute in E|].
  destruct (rev (w :: st)) as [|v l] eqn:Er; [by destruct (rev st)|].
  cbn in E. done.
Qed.

(** ** Instances *)

Lemma not_elem_dec (c : ascii) (s : cs) : bool_decide (c ∈ s) = false -> c ∉ s.
Proof. apply bool_decide_eq_false_1. Qed.

Lemma no_cwd_ok : cwd_ok None.
Proof. by intros cwd. Qed.

Example clean_path_normalises_witness :
  util_clean_path None (Some (bs "/a/./b//../c/")) (Some PATH_MAX) = Some (Some (bs "/a/c")) /\
  exists r, util_clean_path None (Some (bs "/a/./b//../c/")) (Some PATH_MAX) = Some r /\
    match r with
    | Some q =>
        q = path_of [] (push_all (start_comps None (bs "/a/./b//../c/"))
                          (split_on slash (bs "/a/./b//../c/"))) /\
        Forall valid_comp (comps q) /\ (len q < PATH_MAX)%Z /\
        util_clean_path None (Some q) (Some PATH_MAX) = Some (Some q)
    | None => clean_gives_up None (bs "/a/./b//../c/")
    end.
Proof.
  split; [vm_compute; reflexivity|].
  apply (clean_path_normalises None (bs "/a/./b//../c/") PATH_MAX); [exact no_cwd_ok|done|done].
Defined.

(** A root with a link that tries to leave it. *)
Definition demo_link (p : cs) : bool := bool_decide (p = bs "/r/x").
Definition demo_target (p : cs) : option cs :=
  if demo_link p then Some (bs "../../etc") else None.

Lemma demo_link_short p : demo_link p = true -> (len p < PATH_MAX)%Z.
Proof. unfold demo_link. rewrite bool_decide_eq_true. by intros ->. Qed.

Lemma demo_target_cstring p t : demo_target p = Some t -> zero ∉ t.
Proof.
  unfold demo_target. destruct (demo_link p); [|done]. intros [= <-].
  apply not_elem_dec. vm_compute. reflexivity.
Qed.

Example follow_symlink_confined_witness :
  util_follow_symlink_in_scope (fun _ => true) demo_link demo_target None
    (Some (bs "/r/x/passwd")) (Some (bs "/r")) = Some (Some (bs "/r/etc/passwd")) /\
  (exists r, util_follow_symlink_in_scope (fun _ => true) demo_link demo_target None
       (Some (bs "/r/x/passwd")) (Some (bs "/r")) = Some r /\
     forall p, r = Some p -> in_scope (clean_result None (bs "/r")) p) /\
  (exists r, util_get_resource_path (fun _ => true) demo_link demo_target None
       (bs "/r") (bs "/r/x/passwd") = Some r /\
     forall p, r = Some p -> in_scope (clean_result None (bs "/r")) p).
Proof.
  split; [vm_compute; reflexivity|].
  apply (follow_symlink_confined (fun _ => true) demo_link demo_target None (bs "/r/x/passwd") (bs "/r"));
    [exact demo_link_short|exact demo_target_cstring|exact no_cwd_ok|exact I|..];
    apply not_elem_dec; vm_compute; reflexivity.
Defined.

Example follow_symlink_plain_path_witness :
  util_follow_symlink_in_scope (fun _ => true) demo_link demo_target None
    (Some (path_of [] [bs "b"; bs "a"; bs "r"])) (Some (path_of [] [bs "r"])) =
    Some (Some (bs "/r/a/b")).
Proof.
  apply (follow_symlink_plain_path (fun _ => true) demo_link demo_target None [bs "r"] [bs "b"; bs "a"]);
    [exact no_cwd_ok|vm_compute; reflexivity| | |vm_compute; reflexivity|].
  - repeat constructor; try done; apply not_elem_dec; vm_compute; reflexivity.
  - apply not_elem_dec; vm_compute; reflexivity.
  - intros st1 st2 E Hne.
    destruct st1 as [|? [|? st1]]; simplify_eq/=; [done..|].
    by destruct st1, st2; simplify_eq/=.
Defined.
