(* ===== verification/ContainersStore.v ===== *)
(** The containers of the daemon and the index of their names:
    src/src/daemon/modules/container/containers_store.c.

    The store maps ids to pointers to reference counted containers and the index
    maps names to ids; both maps are used through the interface [MapOps].  Of a
    container only its reference count matters here ([st_refs]; a freed container
    has no entry), so [None] is a use of a freed container.  The value the map
    hands to its [kvfreer] when a binding is removed or replaced is unreferenced
    ([memory_store_map_kvfree]).  Every function takes a lock around its body;
    [lock_env] says whether locking and unlocking succeed. *)
From Stdlib Require Import Ascii.
From S2P Require Import Prelude Heap KeyOrders MapIface RestartManager StrUtils.

Record lock_env := LockEnv { l_lock : bool; l_unlock : bool }.
Definition lock_ok : lock_env := LockEnv true true.

(** [memory_store] and [name_index], with the live containers. *)
Record store (MC MN : Type) := Store {
  st_map : MC;
  st_index : MN;
  st_refs : gmap N Z
}.
Arguments Store {MC MN} _ _ _.
Arguments st_map {MC MN} _.
Arguments st_index {MC MN} _.
Arguments st_refs {MC MN} _.

Section store.
Context {MC MN : Type} {opsC : MapOps cstr N MC} {opsN : MapOps cstr cstr MN}.
Implicit Types (st : store MC MN) (id name : cstr) (cont : loc).

Definition put_map (m : MC) st := Store m (st_index st) (st_refs st).
Definition put_index (m : MN) st := Store (st_map st) m (st_refs st).
Definition put_counts (h : gmap N Z) st := Store (st_map st) (st_index st) h.

(** ** Reference counts (container_unix.c) *)

Definition container_refinc cont st : option (store MC MN) :=
  if decide (cont = NULL) then Some st
  else n ← st_refs st !! cont; Some (put_counts (<[cont := atomic_int_inc n]> (st_refs st)) st).

Definition container_unref cont st : option (store MC MN) :=
  if decide (cont = NULL) then Some st
  else
    n ← st_refs st !! cont;
    let '(n, is_zero) := atomic_int_dec_test n in
    if negb is_zero then Some (put_counts (<[cont := n]> (st_refs st)) st)
    else Some (put_counts (delete cont (st_refs st)) st).

(** ** The containers *)

(** [memory_store_new] and [name_index_new]: the map, or NULL. *)
Definition memory_store_new (alloc lock_init : bool) : option MC :=
  if negb alloc then None else if negb lock_init then None else mo_new.
Definition name_index_new (alloc lock_init : bool) : option MN :=
  if negb alloc then None else if negb lock_init then None else mo_new.

(** [containers_store_init] and [container_name_index_init]: the result and the
    map the global variable points to. *)
Definition containers_store_init (alloc lock_init : bool) : Z * option MC :=
  match memory_store_new alloc lock_init with
  | None => ((-1)%Z, None)
  | Some m => (0%Z, Some m)
  end.
Definition container_name_index_init (alloc lock_init : bool) : Z * option MN :=
  match name_index_new alloc lock_init with
  | None => ((-1)%Z, None)
  | Some m => (0%Z, Some m)
  end.

(** [containers_store_add]; [ok] is false when [map_replace] runs out of memory,
    which it does before any change. *)
Definition containers_store_add (l : lock_env) (ok : bool) (id : option cstr) cont st
    : option (bool * store MC MN) :=
  if negb (l_lock l) then Some (false, st)
  else
    r ← match id with
        | Some id =>
            if bool_decide (cont = NULL) || negb ok then Some (false, st)
            else
              let old := mo_search id (st_map st) in
              let '(b, m) := mo_replace id cont (st_map st) in
              st ← match old with Some old => container_unref old st | None => Some st end;
              Some (b, put_map m st)
        | None => Some (false, st)
        end;
    Some (if l_unlock l then r.1 else false, r.2).

(** [containers_store_get_by_id]: the container with one more reference, or NULL. *)
Definition containers_store_get_by_id (l : lock_env) (id : option cstr) st
    : option (N * store MC MN) :=
  match id with
  | None => Some (NULL, st)
  | Some id =>
      if negb (l_lock l) then Some (NULL, st)
      else
        let cont := default NULL (mo_search id (st_map st)) in
        st ← container_refinc cont st; Some (cont, st)
  end.

(** [container_name_index_get]: a copy of the id, or NULL. *)
Definition container_name_index_get (l : lock_env) (name : option cstr) st : option cstr :=
  match name with
  | None => None
  | Some name => if negb (l_lock l) then None else mo_search name (st_index st)
  end.

Definition containers_store_get_by_name (l : lock_env) (name : option cstr) st
    : option (N * store MC MN) :=
  match name with
  | None => Some (NULL, st)
  | Some _ =>
      match container_name_index_get l name st with
      | None => Some (NULL, st)
      | Some id => containers_store_get_by_id l (Some id) st
      end
  end.

(** The loop of [containers_store_get_by_prefix]; [None] is the jump out of it at
    the second match. *)
Fixpoint find_prefix (prefix : cstr) (l : list (cstr * N)) cont : option N :=
  match l with
  | [] => Some cont
  | (container_id, c) :: l =>
      if String.prefix (cstr_str prefix) (cstr_str container_id)
      then if decide (cont = NULL) then find_prefix prefix l c else None
      else find_prefix prefix l cont
  end.

(** [containers_store_get_by_prefix]; [itor] is for the iterator. *)
Definition containers_store_get_by_prefix (l : lock_env) (itor : bool) (prefix : option cstr) st
    : option (N * store MC MN) :=
  match prefix with
  | None => Some (NULL, st)
  | Some prefix =>
      if negb (l_lock l) then Some (NULL, st)
      else if negb itor then Some (NULL, st)
      else
        match find_prefix prefix (mo_elements (st_map st)) NULL with
        | None => Some (NULL, st)
        | Some cont => st ← container_refinc cont st; Some (cont, st)
        end
  end.

Definition containers_store_get (l : lock_env) (itor : bool) (id_or_name : option cstr) st
    : option (N * store MC MN) :=
  match id_or_name with
  | None => Some (NULL, st)
  | Some _ =>
      r ← containers_store_get_by_id l id_or_name st;
      if decide (r.1 ≠ NULL) then Some r
      else
        r ← containers_store_get_by_name l id_or_name r.2;
        if decide (r.1 ≠ NULL) then Some r
        else containers_store_get_by_prefix l itor id_or_name r.2
  end.

(** The references [containers_store_list] takes, in order. *)
Fixpoint refinc_all (conts : list N) st : option (store MC MN) :=
  match conts with
  | [] => Some st
  | c :: conts => st ← container_refinc c st; refinc_all conts st
  end.

(** [containers_store_list]: the result and [*out] with its length [*size]. *)
Definition containers_store_list (alloc : Z -> bool) (l : lock_env) (itor : bool) st
    : option (Z * list N * store MC MN) :=
  if negb (l_lock l) then Some ((-1)%Z, [], st)
  else
    let size := mo_size (st_map st) in
    if decide (size = 0%nat) then Some (0%Z, [], st)
    else if (Z.of_nat size >? SIZE_MAX / sizeof_ptr)%Z then Some ((-1)%Z, [], st)
    else if negb (util_common_calloc_s alloc (sizeof_ptr * Z.of_nat size)) then Some ((-1)%Z, [], st)
    else if negb itor then Some ((-1)%Z, [], st)
    else
      let conts := take size (mo_elements (st_map st)).*2 in
      st ← refinc_all conts st; Some (0%Z, conts, st).

(** The loop of [containers_store_list_ids]; the inner [None] is the failure. *)
Fixpoint append_ids (alloc : Z -> bool) (ids : list cstr) (idsarray : option (list (option (list ascii))))
    : option (option (option (list (option (list ascii))))) :=
  match ids with
  | [] => Some (Some idsarray)
  | id :: ids =>
      r ← util_array_append alloc idsarray (Some (bs (cstr_str id)));
      if (r.1 =? 0)%Z then append_ids alloc ids r.2 else Some None
  end.

Definition containers_store_list_ids (alloc : Z -> bool) (l : lock_env) (itor : bool) st
    : option (option (list (option (list ascii)))) :=
  if negb (l_lock l) then Some None
  else if decide (mo_size (st_map st) = 0%nat) then Some None
  else if negb itor then Some None
  else
    r ← append_ids alloc (mo_elements (st_map st)).*1 None;
    Some (match r with None => None | Some a => a end).

Definition containers_store_remove (l : lock_env) (id : option cstr) st
    : option (bool * store MC MN) :=
  if negb (l_lock l) then Some (false, st)
  else
    r ← match id with
        | Some id =>
            let old := mo_search id (st_map st) in
            let '(b, m) := mo_remove id (st_map st) in
            st ← match old with Some old => container_unref old st | None => Some st end;
            Some (b, put_map m st)
        | None => Some (false, st)
        end;
    Some (if l_unlock l then r.1 else false, r.2).

(** ** The names *)

(** [map_insert] and [map_remove] on the index refuse NULL arguments. *)
Definition index_insert (ok : bool) (name id : option cstr) (m : MN) : bool * MN :=
  match name, id with Some name, Some id => mo_insert ok name id m | _, _ => (false, m) end.
Definition index_remove (name : option cstr) (m : MN) : bool * MN :=
  match name with Some name => mo_remove name m | None => (false, m) end.

Definition container_name_index_add (l : lock_env) (ok : bool) (name id : option cstr) st
    : bool * store MC MN :=
  if negb (l_lock l) then (false, st)
  else
    let '(ret, m) := index_insert ok name id (st_index st) in
    (if l_unlock l then ret else false, put_index m st).

Definition container_name_index_rename (l : lock_env) (ok : bool)
    (new_name old_name id : option cstr) st : bool * store MC MN :=
  if negb (l_lock l) then (false, st)
  else
    let '(ret, m) := index_insert ok new_name id (st_index st) in
    let '(ret, m) := if negb ret then (ret, m) else index_remove old_name m in
    (if l_unlock l then ret else false, put_index m st).

Definition container_name_index_remove (l : lock_env) (name : option cstr) st
    : bool * store MC MN :=
  if negb (l_lock l) then (false, st)
  else
    let '(ret, m) := index_remove name (st_index st) in
    (if l_unlock l then ret else false, put_index m st).

(** The loop of [container_name_index_get_all]: names by id; [None] when an
    insertion fails. *)
Fixpoint invert_index (ok : cstr -> bool) (l : list (cstr * cstr)) (m : MN) : option MN :=
  match l with
  | [] => Some m
  | (name, id) :: l =>
      let '(b, m) := mo_insert (ok id) id name m in
      if b then invert_index ok l m else None
  end.

(** [container_name_index_get_all]: the map from ids to names, or NULL. *)
Definition container_name_index_get_all (l : lock_env) (itor : bool) (ok : cstr -> bool) st
    : option MN :=
  match mo_new with
  | None => None
  | Some map_id_name =>
      if negb (l_lock l) then None
      else if decide (mo_size (st_index st) = 0%nat) then Some map_id_name
      else if negb itor then None
      else invert_index ok (mo_elements (st_index st)) map_id_name
  end.
End store.
