(* ===== verification/ContainersStoreProps.v ===== *)
(** The reference counts of the containers are exact whatever the daemon does
    with the store, lookups follow their documented precedence, and the index of
    names stays a function in both directions.  The maps are used through their
    interface only. *)
From Stdlib Require Import Ascii.
From S2P Require Import Prelude Heap RbSearch KeyOrders MapC MapIface MapRefine RestartManager StrUtils ContainersStore.

Section props.
Context {MC MN : Type} {cmp : cstr -> cstr -> Z} `{!KeyOrder cmp}.
Context {opsC : MapOps cstr N MC} `{!MapLaws cmp opsC}.
Context {opsN : MapOps cstr cstr MN} `{!MapLaws cmp opsN}.
Implicit Types (st : store MC MN) (c : N) (held : N -> nat) (id name : cstr).
Open Scope nat_scope.

(** ** Counting the ids of a container *)

Definition count (g : gmap cstr N) c : nat := size (filter (fun kv => kv.2 = c) g).

Lemma count_insert_fresh (g : gmap cstr N) id c0 c :
  g !! id = None -> count (<[id := c0]> g) c = (if decide (c0 = c) then 1 else 0) + count g c.
Proof.
  intros Hg. unfold count. rewrite map_filter_insert. cbn. destruct (decide (c0 = c)) as [->|Hne].
  - rewrite map_size_insert_None; [done|]. apply map_lookup_filter_None. by left.
  - by rewrite delete_id.
Qed.

Lemma count_delete (g : gmap cstr N) id c0 c :
  g !! id = Some c0 -> count g c = (if decide (c0 = c) then 1 else 0) + count (delete id g) c.
Proof.
  intros Hg. rewrite <-count_insert_fresh with (id := id) by apply lookup_delete_eq.
  by rewrite insert_delete_id.
Qed.

Lemma count_replace (g : gmap cstr N) id c0 c :
  count (<[id := c0]> g) c =
    (if decide (c0 = c) then 1 else 0) + count g c -
    (if decide (g !! id = Some c) then 1 else 0).
Proof.
  rewrite <-insert_delete_eq, count_insert_fresh by apply lookup_delete_eq.
  destruct (g !! id) as [c1|] eqn:Hg.
  - rewrite (count_delete g id c1 c Hg).
    destruct (decide (c1 = c)) as [->|]; destruct (decide (Some _ = Some c)); simplify_eq; lia.
  - rewrite delete_id by done. destruct (decide (None = Some c)); [done|lia].
Qed.

Lemma count_zero (g : gmap cstr N) id c : count g c = 0 -> g !! id ≠ Some c.
Proof.
  intros Hc Hg. rewrite (count_delete g id c c Hg), decide_True in Hc by done. lia.
Qed.

Lemma count_le (g : gmap cstr N) c : count g c <= size g.
Proof. apply map_subseteq_size, map_filter_subseteq. Qed.

Lemma map_size_insert_le id c (g : gmap cstr N) : size (<[id := c]> g) <= S (size g).
Proof.
  destruct (g !! id) as [c0|] eqn:Hg.
  - rewrite map_size_insert_Some by eauto. lia.
  - rewrite map_size_insert_None by done. lia.
Qed.

(** ** The invariant *)

(** The count an object has when [n] references to it exist. *)
Definition enc (n : nat) : option Z := match n with O => None | S _ => Some (Z.of_nat n) end.

Definition refs_of st held c : nat := count (mo_abs (st_map st)) c + held c.

(** After [k] calls: the maps are well formed, no container is NULL, the counts
    are exact and small. *)
Record store_inv (k : nat) st held : Prop := StoreInv {
  si_map : mo_wf (st_map st);
  si_index : mo_wf (st_index st);
  si_null : refs_of st held NULL = 0;
  si_refs c : st_refs st !! c = enc (refs_of st held c);
  si_size : size (mo_abs (st_map st)) <= k;
  si_held c : held c <= k * k
}.

Definition few (k : nat) : Prop := (Z.of_nat k < 2 ^ 31)%Z.

Lemma refs_small k st held c :
  store_inv k st held -> few k -> (Z.of_nat (refs_of st held c + k + 1) < 2 ^ 64)%Z.
Proof.
  intros Hi Hk. unfold few in Hk. pose proof (si_held _ _ _ Hi c). pose proof (si_size _ _ _ Hi).
  pose proof (count_le (mo_abs (st_map st)) c). unfold refs_of. nia.
Qed.

(** ** References *)

Definition add_ref c (n : nat) held : N -> nat :=
  fun c' => if decide (c' = c) then held c' + n else held c'.
Definition drop_ref c held : N -> nat :=
  fun c' => if decide (c' = c) then held c' - 1 else held c'.

(** The store with the counts [f] and otherwise as before. *)
Definition with_counts st (f : N -> nat) st' : Prop :=
  st_map st' = st_map st /\ st_index st' = st_index st /\ forall c, st_refs st' !! c = enc (f c).

Lemma refinc_spec c (f : N -> nat) st :
  c ≠ NULL -> (forall c, st_refs st !! c = enc (f c)) -> 0 < f c ->
  (Z.of_nat (f c + 1) < 2 ^ 64)%Z ->
  exists st', container_refinc c st = Some st' /\ with_counts st (add_ref c 1 f) st'.
Proof.
  intros Hc Hf Hpos Hb. unfold container_refinc. rewrite decide_False, Hf by done.
  destruct (f c) as [|n] eqn:E; [lia|]. cbn [enc mbind option_bind].
  eexists. split; [done|]. split_and!; [done..|]. intros c'. cbn. unfold add_ref, atomic_int_inc.
  rewrite wrap_u_small by lia. destruct (decide (c' = c)) as [->|Hne].
  - rewrite lookup_insert_eq, E. replace (S n + 1) with (S (S n)) by lia. cbn. f_equal. lia.
  - by rewrite lookup_insert_ne.
Qed.

Lemma unref_spec c (f : N -> nat) st :
  c ≠ NULL -> (forall c, st_refs st !! c = enc (f c)) -> 0 < f c ->
  (Z.of_nat (f c) < 2 ^ 64)%Z ->
  exists st', container_unref c st = Some st' /\ with_counts st (drop_ref c f) st'.
Proof.
  intros Hc Hf Hpos Hb. unfold container_unref. rewrite decide_False, Hf by done.
  destruct (f c) as [|n] eqn:E; [lia|]. cbn [enc mbind option_bind].
  unfold atomic_int_dec_test. rewrite wrap_u_small by lia.
  destruct (Z.eqb_spec (Z.of_nat (S n) - 1) 0); cbn [negb];
    (eexists; split; [done|]; split_and!; [done..|]; intros c'; cbn; unfold drop_ref;
     destruct (decide (c' = c)) as [->|Hne]).
  - rewrite lookup_delete_eq, E. by replace (S n - 1) with 0 by lia.
  - by rewrite lookup_delete_ne.
  - rewrite lookup_insert_eq, E. replace (S n - 1) with n by lia. destruct n; [lia|]. cbn.
    f_equal. lia.
  - by rewrite lookup_insert_ne.
Qed.

Lemma refs_stored k st held id c :
  store_inv k st held -> mo_abs (st_map st) !! id = Some c -> c ≠ NULL /\ 0 < refs_of st held c.
Proof.
  intros Hi Hc. assert (0 < refs_of st held c) as Hpos.
  { unfold refs_of. rewrite (count_delete _ _ _ c Hc), decide_True by done. lia. }
  split; [|done]. intros ->. rewrite (si_null _ _ _ Hi) in Hpos. lia.
Qed.

Lemma refs_held k st held c :
  store_inv k st held -> 0 < held c -> c ≠ NULL /\ 0 < refs_of st held c.
Proof.
  intros Hi Hc. split; [|unfold refs_of; lia]. intros ->.
  pose proof (si_null _ _ _ Hi) as Hz. unfold refs_of in Hz. lia.
Qed.

Lemma store_inv_S k st held : store_inv k st held -> store_inv (S k) st held.
Proof.
  intros []. split; try done; [lia|]. intros c. specialize (si_held0 c). nia.
Qed.

(** A state that differs from a good one in its counts and in who holds what. *)
Lemma store_inv_counts k st held st' held' f :
  store_inv k st held -> with_counts st f st' ->
  (forall c, f c = refs_of st held' c) -> held' NULL = 0 -> (forall c, held' c <= held c + k + 1) ->
  store_inv (S k) st' held'.
Proof.
  intros [Hm Hx Hn Hr Hs Hh] (Em & Ex & Er) Hf Hnull Hle.
  split; rewrite ?Em, ?Ex; try done; [| |lia|].
  - unfold refs_of in *. rewrite Em. lia.
  - intros c. rewrite Er, Hf. unfold refs_of. by rewrite Em.
  - intros c. specialize (Hh c). specialize (Hle c). nia.
Qed.

(** ** Lookups *)

(** The outcome of a lookup: nothing, or a stored container with one more
    reference. *)
Definition got st held (r : option (N * store MC MN)) : Prop :=
  exists c st', r = Some (c, st') /\
    ((c = NULL /\ st' = st) \/
     (c ≠ NULL /\ (exists id, mo_abs (st_map st) !! id = Some c) /\
      with_counts st (add_ref c 1 (refs_of st held)) st')).

Lemma got_nothing st held : got st held (Some (NULL, st)).
Proof. eexists _, _. eauto. Qed.

Lemma got_stored k st held id c :
  store_inv k st held -> few k -> mo_abs (st_map st) !! id = Some c ->
  got st held (st' ← container_refinc c st; Some (c, st')).
Proof.
  intros Hi Hk Hc. destruct (refs_stored k st held id c Hi Hc) as [Hn Hpos].
  pose proof (refs_small k st held c Hi Hk).
  destruct (refinc_spec c (refs_of st held) st) as (st' & -> & Hw);
    [done|apply Hi|done|lia|]. eexists _, _. split; [done|]. right. eauto.
Qed.

Lemma get_by_id_spec k st held l (id : option cstr) :
  store_inv k st held -> few k -> got st held (containers_store_get_by_id l id st).
Proof.
  intros Hi Hk. unfold containers_store_get_by_id. destruct id as [id|]; [|apply got_nothing].
  destruct (negb _); [apply got_nothing|]. rewrite (mo_search_ok id _ (si_map _ _ _ Hi)).
  destruct (mo_abs (st_map st) !! id) as [c|] eqn:Hc; cbn [default]; [by eapply got_stored|].
  unfold container_refinc. rewrite decide_True by done. apply got_nothing.
Qed.

Lemma get_by_name_spec k st held l (name : option cstr) :
  store_inv k st held -> few k -> got st held (containers_store_get_by_name l name st).
Proof.
  intros Hi Hk. unfold containers_store_get_by_name. destruct name as [name|]; [|apply got_nothing].
  destruct (container_name_index_get _ _ _); [by eapply get_by_id_spec|apply got_nothing].
Qed.

Lemma find_prefix_elem prefix l c0 c :
  find_prefix prefix l c0 = Some c -> c = c0 \/ exists id, (id, c) ∈ l.
Proof.
  revert c0. induction l as [|[id c1] l IH]; intros c0; cbn; [intros [= ->]; by left|].
  setoid_rewrite elem_of_cons.
  destruct (String.prefix _ _); [case_decide; [|done]|]; intros [->|[id' ?]]%IH; eauto 6.
Qed.

Lemma get_by_prefix_spec k st held l itor prefix :
  store_inv k st held -> few k -> got st held (containers_store_get_by_prefix l itor prefix st).
Proof.
  intros Hi Hk. unfold containers_store_get_by_prefix.
  destruct prefix as [prefix|]; [|apply got_nothing].
  destruct (negb _); [apply got_nothing|]. destruct (negb _); [apply got_nothing|].
  destruct (find_prefix _ _ _) as [c|] eqn:Hf; [|apply got_nothing].
  apply find_prefix_elem in Hf as [->|[id Hin]].
  - unfold container_refinc. rewrite decide_True by done. apply got_nothing.
  - eapply got_stored; [done|done|]. by apply elem_of_mo_elements; [apply Hi|].
Qed.

Lemma get_spec k st held l itor x :
  store_inv k st held -> few k -> got st held (containers_store_get l itor x st).
Proof.
  intros Hi Hk. unfold containers_store_get. destruct x as [x|]; [|apply got_nothing].
  destruct (get_by_id_spec k st held l (Some x) Hi Hk) as (c1 & st1 & -> & H1).
  cbn [mbind option_bind fst snd]. case_decide; [by eexists _, _|].
  destruct H1 as [[-> ->]|[? _]]; [|done].
  destruct (get_by_name_spec k st held l (Some x) Hi Hk) as (c2 & st2 & -> & H2).
  cbn [mbind option_bind fst snd]. case_decide; [by eexists _, _|].
  destruct H2 as [[-> ->]|[? _]]; [|done]. by eapply get_by_prefix_spec.
Qed.

(** ** Listing *)

Definition occ c (l : list N) : nat := length (filter (eq c) l).

Lemma refinc_all_spec conts (f : N -> nat) st :
  (forall c, st_refs st !! c = enc (f c)) ->
  (forall c, c ∈ conts -> c ≠ NULL /\ 0 < f c /\ (Z.of_nat (f c + length conts) < 2 ^ 64)%Z) ->
  exists st', refinc_all conts st = Some st' /\ with_counts st (fun c => f c + occ c conts) st'.
Proof.
  revert f st. induction conts as [|c conts IH]; intros f st Hf Hc; cbn [refinc_all].
  { exists st. split; [done|]. split_and!; [done..|]. intros c. unfold occ. cbn. by rewrite Nat.add_0_r. }
  destruct (Hc c) as (Hn & Hpos & Hb); [set_solver|]. cbn in Hb.
  destruct (refinc_spec c f st) as (st1 & -> & Em & Ex & Er); [done..|lia|]. cbn [mbind option_bind].
  destruct (IH (add_ref c 1 f) st1) as (st2 & -> & Em' & Ex' & Er').
  - done.
  - intros c' Hin. destruct (Hc c') as (? & ? & Hb'); [set_solver|]. cbn in Hb'.
    unfold add_ref. case_decide; split_and!; try done; lia.
  - exists st2. split; [done|]. split_and!; [congruence..|]. intros c'. rewrite Er'. f_equal.
    unfold add_ref, occ. rewrite filter_cons. repeat case_decide; simplify_eq; cbn; lia.
Qed.

Lemma occ_le c l : occ c l <= length l.
Proof. apply length_filter. Qed.

Lemma occ_zero c l : c ∉ l -> occ c l = 0.
Proof.
  unfold occ. induction l as [|c' l IH]; intros Hn; [done|]. apply not_elem_of_cons in Hn as [? ?].
  rewrite filter_cons_False by done. auto.
Qed.

(** What a call that changes nothing leaves behind. *)
Lemma listed_nothing k st held (ret : Z) :
  store_inv k st held -> exists ret' conts st', Some (ret, [], st) = Some (ret', conts, st') /\
    store_inv (S k) st' (fun c => held c + occ c conts).
Proof.
  intros Hi. eexists _, _, _. split; [done|].
  eapply (store_inv_counts k st held st _ (refs_of st held)); [done|split_and!; [done..|apply Hi]|..];
    intros; unfold refs_of, occ; cbn; try lia.
  pose proof (si_null _ _ _ Hi). unfold refs_of in *. lia.
Qed.

Lemma stored_elem k st held c :
  store_inv k st held -> c ∈ (mo_elements (st_map st)).*2 -> c ≠ NULL /\ 0 < refs_of st held c.
Proof.
  intros Hi ([id c'] & -> & Hin)%list_elem_of_fmap. cbn.
  apply (refs_stored k st held id); [done|]. by apply elem_of_mo_elements; [apply Hi|].
Qed.

Lemma list_spec k st held alloc l itor :
  store_inv k st held -> few k ->
  exists ret conts st', containers_store_list alloc l itor st = Some (ret, conts, st') /\
    store_inv (S k) st' (fun c => held c + occ c conts).
Proof.
  intros Hi Hk. unfold containers_store_list. destruct (negb _); [by apply listed_nothing|].
  case_decide; [by apply listed_nothing|]. destruct (_ >? _)%Z; [by apply listed_nothing|].
  destruct (negb _); [by apply listed_nothing|]. destruct (negb _); [by apply listed_nothing|].
  set (conts := take _ _). assert (length conts <= k) as Hl.
  { unfold conts. rewrite length_take. pose proof (si_size _ _ _ Hi) as Hs.
    rewrite mo_size_ok by apply Hi. lia. }
  assert (forall c, c ∈ conts -> c ≠ NULL /\ 0 < refs_of st held c) as Hin.
  { intros c Hc. eapply stored_elem; [done|]. unfold conts in Hc.
    rewrite <-(take_drop (mo_size (st_map st)) (mo_elements (st_map st)).*2), elem_of_app. by left. }
  destruct (refinc_all_spec conts (refs_of st held) st) as (st' & -> & Hw); [apply Hi| |].
  { intros c Hc. pose proof (refs_small k st held c Hi Hk). destruct (Hin c Hc).
    split_and!; [done..|lia]. }
  cbn [mbind option_bind]. eexists _, _, _. split; [done|].
  eapply store_inv_counts; [done..| | |]; cbn.
  - intros c. unfold refs_of. lia.
  - pose proof (si_null _ _ _ Hi) as Hn. unfold refs_of in Hn.
    rewrite occ_zero; [lia|]. intros Hx. by destruct (Hin _ Hx).
  - intros c. pose proof (occ_le c conts). lia.
Qed.

(** ** Changes of the maps *)

Lemma unref_held_spec k st held c :
  store_inv k st held -> few k -> 0 < held c ->
  exists st', container_unref c st = Some st' /\ store_inv (S k) st' (drop_ref c held).
Proof.
  intros Hi Hk Hh. destruct (refs_held k st held c Hi Hh) as [Hn Hpos].
  pose proof (refs_small k st held c Hi Hk).
  destruct (unref_spec c (refs_of st held) st) as (st' & -> & Hw); [done|apply Hi|done|lia|].
  exists st'. split; [done|]. eapply store_inv_counts; [done..| | |].
  - intros c'. unfold drop_ref, refs_of. case_decide; [subst; lia|done].
  - unfold drop_ref. pose proof (si_null _ _ _ Hi) as Hz. unfold refs_of in Hz. case_decide; lia.
  - intros c'. unfold drop_ref. case_decide; lia.
Qed.

(** [kvfreer] on the binding of an id, if there is one. *)
Lemma unref_old_spec k st held id :
  store_inv k st held -> few k ->
  exists st', match mo_search id (st_map st) with
              | Some old => container_unref old st | None => Some st end = Some st' /\
    with_counts st (fun c => refs_of st held c -
      (if decide (mo_abs (st_map st) !! id = Some c) then 1 else 0)) st'.
Proof.
  intros Hi Hk. rewrite (mo_search_ok id _ (si_map _ _ _ Hi)).
  destruct (mo_abs (st_map st) !! id) as [c|] eqn:Hc.
  - destruct (refs_stored k st held id c Hi Hc) as [Hn Hpos].
    pose proof (refs_small k st held c Hi Hk).
    destruct (unref_spec c (refs_of st held) st) as (st' & -> & Em & Ex & Er);
      [done|apply Hi|done|lia|]. exists st'. split; [done|]. split_and!; [done..|].
    intros c'. rewrite Er. f_equal. unfold drop_ref. repeat case_decide; simplify_eq; lia.
  - exists st. split; [done|]. split_and!; [done..|]. intros c.
    rewrite decide_False, Nat.sub_0_r by done. apply Hi.
Qed.

Lemma add_spec k st held lk ok id c :
  store_inv k st held -> few k -> 0 < held c ->
  exists b st', containers_store_add (LockEnv lk true) ok (Some id) c st = Some (b, st') /\
    b = lk && ok /\
    store_inv (S k) st' (if b then drop_ref c held else held) /\
    mo_abs (st_map st') = (if b then <[id := c]> (mo_abs (st_map st)) else mo_abs (st_map st)).
Proof.
  intros Hi Hk Hh. destruct (refs_held k st held c Hi Hh) as [Hn Hpos].
  unfold containers_store_add. cbn [l_lock l_unlock]. destruct lk; cbn [negb andb].
  2:{ exists false, st. by split_and!; [..|apply store_inv_S|]. }
  rewrite bool_decide_eq_false_2 by done. destruct ok; cbn [negb orb mbind option_bind fst snd].
  2:{ exists false, st. by split_and!; [..|apply store_inv_S|]. }
  destruct (unref_old_spec k st held id Hi Hk) as (st1 & Hun & Em & Ex & Er).
  pose proof (mo_wf_replace id c _ (si_map _ _ _ Hi)) as Hwf.
  destruct (mo_replace_abs id c _ (si_map _ _ _ Hi)) as [Hb Ha].
  destruct (mo_replace id c (st_map st)) as [b m]. cbn [fst snd] in *. subst b.
  rewrite Hun. cbn [mbind option_bind fst snd]. eexists _, _. split; [done|]. split; [done|].
  split; [|done]. split; cbn; rewrite ?Ex; try done.
  - apply Hi.
  - unfold refs_of, drop_ref. cbn. rewrite Ha, count_replace.
    pose proof (si_null _ _ _ Hi) as Hz. unfold refs_of in Hz. repeat case_decide; simplify_eq; lia.
  - intros c'. rewrite Er. f_equal. unfold refs_of, drop_ref. cbn. rewrite Ha, count_replace.
    repeat case_decide; simplify_eq; try lia.
    all: pose proof (count_delete _ _ _ c' ltac:(eassumption)) as Hd; rewrite decide_True in Hd by done; lia.
  - rewrite Ha. pose proof (si_size _ _ _ Hi). pose proof (map_size_insert_le id c (mo_abs (st_map st))). lia.
  - intros c'. unfold drop_ref. pose proof (si_held _ _ _ Hi c'). case_decide; nia.
Qed.

Lemma remove_spec k st held lk id :
  store_inv k st held -> few k ->
  exists b st', containers_store_remove (LockEnv lk true) (Some id) st = Some (b, st') /\
    b = lk && bool_decide (is_Some (mo_abs (st_map st) !! id)) /\ store_inv (S k) st' held /\
    mo_abs (st_map st') = (if b then delete id (mo_abs (st_map st)) else mo_abs (st_map st)).
Proof.
  intros Hi Hk. unfold containers_store_remove. cbn [l_lock l_unlock]. destruct lk; cbn [negb andb].
  2:{ exists false, st. by split_and!; [..|apply store_inv_S|]. }
  destruct (unref_old_spec k st held id Hi Hk) as (st1 & Hun & Em & Ex & Er).
  pose proof (mo_wf_remove id _ (si_map _ _ _ Hi)) as Hwf.
  destruct (mo_remove_abs id _ (si_map _ _ _ Hi)) as [Ha Hb].
  destruct (mo_remove id (st_map st)) as [b m]. cbn [fst snd] in *. subst b.
  rewrite Hun. cbn [mbind option_bind fst snd]. eexists _, _. split; [done|]. split; [done|].
  assert (forall c, count (delete id (mo_abs (st_map st))) c =
    count (mo_abs (st_map st)) c - (if decide (mo_abs (st_map st) !! id = Some c) then 1 else 0)) as Hc.
  { intros c. destruct (mo_abs (st_map st) !! id) as [c0|] eqn:Hid.
    - rewrite (count_delete _ _ _ c Hid). repeat case_decide; simplify_eq; lia.
    - rewrite delete_id, decide_False by done. lia. }
  split; [split; cbn; rewrite ?Ex; try done|].
  - apply Hi.
  - unfold refs_of. cbn. rewrite Ha, Hc. pose proof (si_null _ _ _ Hi) as Hz. unfold refs_of in Hz. lia.
  - intros c. rewrite Er. f_equal. unfold refs_of. cbn. rewrite Ha, Hc.
    case_decide as Hd; [|lia]. rewrite (count_delete _ _ _ c Hd), decide_True by done. lia.
  - rewrite Ha. pose proof (si_size _ _ _ Hi). etransitivity; [|apply Nat.le_succ_diag_r].
    etransitivity; [apply map_subseteq_size, delete_subseteq|done].
  - intros c. pose proof (si_held _ _ _ Hi c). nia.
  - cbn. rewrite Ha. case_bool_decide as Hs; [done|]. apply delete_id. by apply eq_None_not_Some.
Qed.

(** ** Runs of the daemon *)

(** The calls the daemon makes; a thread passes to [containers_store_add] and to
    [container_unref] only containers it holds a reference to. *)
Inductive store_op :=
  | OpNew (c : N)                                  (* container_new *)
  | OpAdd (lk ok : bool) (id : cstr) (c : N)
  | OpGet (l : lock_env) (itor : bool) (x : option cstr)
  | OpList (alloc : Z -> bool) (l : lock_env) (itor : bool)
  | OpUnref (c : N)
  | OpRemove (lk : bool) (id : cstr)
  | OpNameAdd (l : lock_env) (ok : bool) (name id : option cstr)
  | OpRename (l : lock_env) (ok : bool) (new_name old_name id : option cstr)
  | OpNameRemove (l : lock_env) (name : option cstr).

(** One call: the store, and how many references the threads hold.  A successful
    [containers_store_add] hands the caller's reference to the store. *)
Definition store_exec (o : store_op) (s : store MC MN * (N -> nat))
    : option (store MC MN * (N -> nat)) :=
  let '(st, held) := s in
  match o with
  | OpNew c =>
      if decide (c = NULL \/ st_refs st !! c ≠ None) then Some (st, held)
      else Some (put_counts (<[c := 1%Z]> (st_refs st)) st, add_ref c 1 held)
  | OpAdd lk ok id c =>
      if decide (held c = 0) then Some (st, held)
      else r ← containers_store_add (LockEnv lk true) ok (Some id) c st;
           Some (r.2, if r.1 : bool then drop_ref c held else held)
  | OpGet l itor x =>
      r ← containers_store_get l itor x st;
      Some (r.2, if decide (r.1 = NULL) then held else add_ref r.1 1 held)
  | OpList alloc l itor =>
      r ← containers_store_list alloc l itor st;
      Some (r.2, fun c => held c + occ c r.1.2)
  | OpUnref c =>
      if decide (held c = 0) then Some (st, held)
      else st ← container_unref c st; Some (st, drop_ref c held)
  | OpRemove lk id => r ← containers_store_remove (LockEnv lk true) (Some id) st; Some (r.2, held)
  | OpNameAdd l ok name id => Some ((container_name_index_add l ok name id st).2, held)
  | OpRename l ok new_name old_name id =>
      Some ((container_name_index_rename l ok new_name old_name id st).2, held)
  | OpNameRemove l name => Some ((container_name_index_remove l name st).2, held)
  end.

Fixpoint store_run (ops : list store_op) (s : store MC MN * (N -> nat))
    : option (store MC MN * (N -> nat)) :=
  match ops with [] => Some s | o :: ops => s ← store_exec o s; store_run ops s end.

Lemma index_insert_wf ok (name id : option cstr) (m : MN) : mo_wf m -> mo_wf (index_insert ok name id m).2.
Proof. destruct name, id; cbn; auto with isulad. Qed.
Lemma index_remove_wf (name : option cstr) (m : MN) : mo_wf m -> mo_wf (index_remove name m).2.
Proof. destruct name; cbn; auto with isulad. Qed.

(** Calls on the index leave the containers alone. *)
Lemma store_inv_index k st held (m : MN) :
  store_inv k st held -> mo_wf m -> store_inv (S k) (put_index m st) held.
Proof. intros Hi Hm. apply store_inv_S. by destruct Hi. Qed.

Lemma index_op_inv k st held o :
  match o with OpNameAdd _ _ _ _ | OpRename _ _ _ _ _ | OpNameRemove _ _ => True | _ => False end ->
  store_inv k st held ->
  exists s', store_exec o (st, held) = Some s' /\ store_inv (S k) s'.1 s'.2.
Proof.
  intros Ho Hi. pose proof (si_index _ _ _ Hi) as Hx.
  destruct o as [| | | | | |l ok name id|l ok nn on id|l name]; try done; cbn; eexists; (split; [done|]); cbn.
  - unfold container_name_index_add. destruct (negb _); [by apply store_inv_S|].
    pose proof (index_insert_wf ok name id _ Hx) as Hw.
    destruct (index_insert _ _ _ _). by apply store_inv_index.
  - unfold container_name_index_rename. destruct (negb _); [by apply store_inv_S|].
    pose proof (index_insert_wf ok nn id _ Hx) as Hw. destruct (index_insert _ _ _ _) as [b m].
    pose proof (index_remove_wf on m Hw) as Hw'. destruct b; cbn; [|by apply store_inv_index].
    destruct (index_remove _ _). by apply store_inv_index.
  - unfold container_name_index_remove. destruct (negb _); [by apply store_inv_S|].
    pose proof (index_remove_wf name _ Hx) as Hw. destruct (index_remove _ _). by apply store_inv_index.
Qed.

Lemma store_new_inv k st held c :
  store_inv k st held -> c ≠ NULL -> st_refs st !! c = None ->
  store_inv (S k) (put_counts (<[c := 1%Z]> (st_refs st)) st) (add_ref c 1 held).
Proof.
  intros Hi Hn Hf. pose proof (si_refs _ _ _ Hi c) as Hr. rewrite Hf in Hr.
  destruct (refs_of st held c) eqn:E; [|done]. unfold refs_of in E.
  eapply (store_inv_counts k st held _ _ (refs_of st (add_ref c 1 held))); [done| |done|..].
  - split_and!; [done..|]. intros c'. cbn. unfold refs_of, add_ref. destruct (decide (c' = c)) as [->|].
    + rewrite lookup_insert_eq. by replace (count (mo_abs (st_map st)) c + (held c + 1)) with 1 by lia.
    + rewrite lookup_insert_ne by done. apply Hi.
  - unfold add_ref. rewrite decide_False by done. pose proof (si_null _ _ _ Hi) as Hz.
    unfold refs_of in Hz. lia.
  - intros c'. unfold add_ref. case_decide; lia.
Qed.

Lemma store_exec_inv k o st held :
  store_inv k st held -> few k ->
  exists s', store_exec o (st, held) = Some s' /\ store_inv (S k) s'.1 s'.2.
Proof.
  intros Hi Hk. destruct o as [c|lk ok id c|l itor x|alloc l itor|c|lk id|l ok name id|l ok nn on id|l name];
    try (by apply index_op_inv); cbn.
  - case_decide as Hd; [eexists; split; [done|]; by apply store_inv_S|].
    eexists. split; [done|]. apply store_new_inv; [done|naive_solver|].
    destruct (st_refs st !! c) eqn:E; [|done]. destruct Hd. right. congruence.
  - case_decide; [eexists; split; [done|]; by apply store_inv_S|].
    destruct (add_spec k st held lk ok id c Hi Hk) as (b & st' & -> & _ & Hi' & _); [lia|].
    by eexists.
  - destruct (get_spec k st held l itor x Hi Hk) as (c & st' & -> & Hg). cbn [mbind option_bind].
    eexists. split; [done|]. cbn. destruct Hg as [[-> ->]|(Hn & _ & Hw)].
    + by apply store_inv_S.
    + rewrite decide_False by done. eapply store_inv_counts; [done..| | |];
        unfold add_ref, refs_of; intros; repeat case_decide; simplify_eq; try lia.
      pose proof (si_null _ _ _ Hi) as Hz. unfold refs_of in Hz. lia.
  - destruct (list_spec k st held alloc l itor Hi Hk) as (ret & conts & st' & -> & Hi'). by eexists.
  - case_decide; [eexists; split; [done|]; by apply store_inv_S|].
    destruct (unref_held_spec k st held c Hi Hk) as (st' & -> & Hi'); [lia|]. by eexists.
  - destruct (remove_spec k st held lk id Hi Hk) as (b & st' & -> & _ & Hi' & _). by eexists.
Qed.

Lemma store_run_inv ops k st held :
  store_inv k st held -> few (k + length ops) ->
  exists s', store_run ops (st, held) = Some s' /\ store_inv (k + length ops) s'.1 s'.2.
Proof.
  revert k st held. induction ops as [|o ops IH]; intros k st held Hi Hk; cbn [store_run length] in *.
  - eexists. split; [done|]. by rewrite Nat.add_0_r.
  - destruct (store_exec_inv k o st held Hi) as ([st1 held1] & -> & Hi1); [unfold few in *; lia|].
    cbn [mbind option_bind]. rewrite Nat.add_succ_r, <-Nat.add_succ_l in *. by apply IH.
Qed.

(** ** What a lookup finds *)

Definition has_prefix (x id : cstr) : Prop := String.prefix (cstr_str x) (cstr_str id) = true.
#[local] Instance has_prefix_dec x id : Decision (has_prefix x id).
Proof. unfold has_prefix. apply _. Defined.

Lemma find_prefix_spec x (l : list (cstr * N)) c0 :
  Forall (fun kv => kv.2 ≠ NULL) l ->
  find_prefix x l c0 =
    match filter (fun kv => has_prefix x kv.1) l with
    | [] => Some c0
    | kv :: l' => if decide (c0 = NULL /\ l' = []) then Some kv.2 else None
    end.
Proof.
  intros Hl. revert c0. induction Hl as [|[id c] l Hc _ IH]; intros c0; [done|]. cbn [find_prefix].
  rewrite filter_cons. cbn [fst snd] in *. destruct (decide (has_prefix x id)) as [Hp|Hp].
  2:{ apply not_true_is_false in Hp. rewrite Hp. apply IH. }
  rewrite Hp. destruct (decide (c0 = NULL)) as [->|Hn].
  - rewrite IH. destruct (filter _ _) as [|kv l']; [by rewrite decide_True|].
    rewrite !decide_False by naive_solver. done.
  - by rewrite decide_False by naive_solver.
Qed.

(** The container of the only id that starts with [x]. *)
Definition only_prefix (g : gmap cstr N) (x : cstr) (c : N) : Prop :=
  exists id, g !! id = Some c /\ has_prefix x id /\
    forall id', is_Some (g !! id') -> has_prefix x id' -> id' = id.

Lemma find_prefix_only k st held x :
  store_inv k st held ->
  match find_prefix x (mo_elements (st_map st)) NULL with
  | Some c => if decide (c = NULL) then forall c', ~ only_prefix (mo_abs (st_map st)) x c'
              else only_prefix (mo_abs (st_map st)) x c
  | None => forall c', ~ only_prefix (mo_abs (st_map st)) x c'
  end.
Proof.
  intros Hi. pose proof (fun id c => elem_of_mo_elements id c _ (si_map _ _ _ Hi)) as Hel.
  pose proof (mo_elements_ok _ (si_map _ _ _ Hi)) as [Hsort _].
  pose proof (ksorted_NoDup cmp _ Hsort) as Hnd0. clear Hsort.
  rewrite find_prefix_spec.
  2:{ apply Forall_forall. intros [id c] Hin. apply Hel in Hin. cbn. by eapply refs_stored. }
  assert (forall id c, (id, c) ∈ filter (fun kv => has_prefix x kv.1) (mo_elements (st_map st)) <->
    has_prefix x id /\ mo_abs (st_map st) !! id = Some c) as Hf.
  { intros id c. by rewrite list_elem_of_filter, Hel. }
  assert (NoDup (filter (fun kv => has_prefix x kv.1) (mo_elements (st_map st))).*1) as Hnd.
  { eapply sublist_NoDup; [done|]. apply fmap_sublist, sublist_filter. }
  destruct (filter _ _) as [|[id c] l'].
  - rewrite decide_True by done. intros c' (id & Hid & Hp & _).
    by apply (not_elem_of_nil (id, c')), Hf.
  - destruct (proj1 (Hf id c)) as [Hp Hid]; [set_solver|]. case_decide as Hd.
    + destruct Hd as [_ ->]. cbn [snd]. rewrite decide_False by (by eapply refs_stored).
      exists id. split_and!; [done..|]. intros id' [c' Hid'] Hp'.
      assert ((id', c') ∈ [(id, c)]) as Hin by (by apply Hf). apply list_elem_of_singleton in Hin. congruence.
    + intros c' (id0 & _ & _ & Huniq). destruct l' as [|[id2 c2] l']; [naive_solver|].
      destruct (proj1 (Hf id2 c2)) as [Hp2 Hid2]; [set_solver|].
      cbn in Hnd. rewrite (Huniq id), (Huniq id2) in Hnd by eauto.
      apply NoDup_cons in Hnd as [Hni _]. set_solver.
Qed.

(** ** The index *)

Lemma invert_index_ok (l : list (cstr * cstr)) (m : MN) :
  mo_wf m -> NoDup l.*2 -> (forall id, id ∈ l.*2 -> mo_abs m !! id = None) ->
  exists m', invert_index (fun _ => true) l m = Some m' /\ mo_wf m' /\
    forall id name, mo_abs m' !! id = Some name <-> mo_abs m !! id = Some name \/ (name, id) ∈ l.
Proof.
  revert m. induction l as [|[name id] l IH]; intros m Hm Hnd Hf; cbn [invert_index].
  { exists m. split_and!; [done..|]. set_solver. }
  cbn in Hnd. apply NoDup_cons in Hnd as [Hni Hnd].
  assert (mo_abs m !! id = None) as Hid by (apply Hf; set_solver).
  destruct (mo_insert_fresh id name m Hm Hid) as [Hb Ha].
  pose proof (mo_wf_insert true id name m Hm) as Hw.
  destruct (mo_insert true id name m) as [b m1]. cbn in *. subst b.
  destruct (IH m1 Hw Hnd) as (m' & -> & Hw' & Hs).
  { intros id' Hin. rewrite Ha, lookup_insert_ne by set_solver. apply Hf. set_solver. }
  exists m'. split_and!; [done..|]. intros id' name'. rewrite Hs, Ha, elem_of_cons, lookup_insert_Some.
  destruct (decide (id = id')); naive_solver.
Qed.

Lemma invert_index_clash (l : list (cstr * cstr)) (m : MN) name id :
  mo_wf m -> (name, id) ∈ l -> is_Some (mo_abs m !! id) -> invert_index (fun _ => true) l m = None.
Proof.
  revert m. induction l as [|[name' id'] l IH]; intros m Hm Hin [v Hv]; [set_solver|]. cbn [invert_index].
  pose proof (mo_wf_insert true id' name' m Hm) as Hw.
  destruct (mo_abs m !! id') as [v'|] eqn:Hid.
  - destruct (mo_insert_bound true id' name' v' m Hm Hid) as [Hb _].
    destruct (mo_insert true id' name' m) as [b m1]. cbn in *. by subst.
  - destruct (mo_insert_fresh id' name' m Hm Hid) as [Hb Ha].
    destruct (mo_insert true id' name' m) as [b m1]. cbn in *. subst b.
    apply elem_of_cons in Hin as [[= <- <-]|Hin]; [congruence|]. apply IH; [done..|].
    rewrite Ha. destruct (decide (id' = id)) as [->|]; [congruence|].
    rewrite lookup_insert_ne by done. by rewrite Hv.
Qed.

Lemma invert_index_dup (l : list (cstr * cstr)) (m : MN) :
  mo_wf m -> ~ NoDup l.*2 -> invert_index (fun _ => true) l m = None.
Proof.
  revert m. induction l as [|[name id] l IH]; intros m Hm Hnd; [destruct Hnd; constructor|].
  cbn [invert_index]. cbn in Hnd. rewrite NoDup_cons in Hnd.
  pose proof (mo_wf_insert true id name m Hm) as Hw.
  destruct (mo_abs m !! id) as [v'|] eqn:Hid.
  - destruct (mo_insert_bound true id name v' m Hm Hid) as [Hb _].
    destruct (mo_insert true id name m) as [b m1]. cbn in *. by subst.
  - destruct (mo_insert_fresh id name m Hm Hid) as [Hb Ha].
    destruct (mo_insert true id name m) as [b m1]. cbn in *. subst b.
    destruct (decide (id ∈ l.*2)) as [([n i] & -> & Hin)%list_elem_of_fmap|Hni].
    + eapply invert_index_clash; [done..|]. cbn. rewrite Ha, lookup_insert_eq. eauto.
    + apply IH; [done|]. naive_solver.
Qed.

(** Distinct names have distinct ids exactly when no id occurs twice. *)
Lemma index_ids_NoDup (m : MN) :
  mo_wf m ->
  NoDup (mo_elements m).*2 <->
  forall n1 n2 id, mo_abs m !! n1 = Some id -> mo_abs m !! n2 = Some id -> n1 = n2.
Proof.
  intros Hm. setoid_rewrite <-(fun n i => elem_of_mo_elements n i m Hm).
  pose proof (ksorted_NoDup cmp _ (proj1 (mo_elements_ok m Hm))) as Hnd.
  induction (mo_elements m) as [|[n i] l IH]; cbn in *; [split; [set_solver|constructor]|].
  apply NoDup_cons in Hnd as [Hni Hnd]. rewrite NoDup_cons, IH by done. clear IH.
  setoid_rewrite elem_of_cons. split.
  - intros [Hi Hinj] n1 n2 id [H1|H1] [H2|H2]; simplify_eq; [done|..|by eapply Hinj].
    + destruct Hi. by apply (list_elem_of_fmap_2 snd _ (n2, i)).
    + destruct Hi. by apply (list_elem_of_fmap_2 snd _ (n1, i)).
  - intros Hinj. split; [|naive_solver]. intros ([n' i'] & -> & Hin)%list_elem_of_fmap. cbn in *.
    rewrite (Hinj n n' i') in Hni by auto. apply Hni. by eapply elem_of_keys.
Qed.

(** The container a successful lookup by id or by name returns. *)
Lemma get_by_id_value k st held id :
  store_inv k st held -> few k ->
  exists st', containers_store_get_by_id lock_ok (Some id) st =
      Some (default NULL (mo_abs (st_map st) !! id), st') /\
    (mo_abs (st_map st) !! id = None -> st' = st).
Proof.
  intros Hi Hk. destruct (get_by_id_spec k st held lock_ok (Some id) Hi Hk) as (c & st' & Hg & Hc).
  unfold containers_store_get_by_id in *. cbn [negb l_lock lock_ok] in *.
  rewrite (mo_search_ok id _ (si_map _ _ _ Hi)) in *.
  destruct (container_refinc _ st) as [st1|] eqn:Hr; [|done]. cbn [mbind option_bind] in *.
  exists st'. simplify_eq. split; [done|]. intros Hn. rewrite Hn in Hr. cbn [default] in Hr.
  unfold container_refinc in Hr. rewrite decide_True in Hr by done. congruence.
Qed.

Lemma get_by_name_value k st held name :
  store_inv k st held -> few k ->
  exists st', containers_store_get_by_name lock_ok (Some name) st =
      Some (default NULL (mo_abs (st_index st) !! name ≫= (mo_abs (st_map st) !!.)), st') /\
    (mo_abs (st_index st) !! name ≫= (mo_abs (st_map st) !!.) = None -> st' = st).
Proof.
  intros Hi Hk. unfold containers_store_get_by_name, container_name_index_get.
  cbn [negb l_lock lock_ok]. rewrite (mo_search_ok name _ (si_index _ _ _ Hi)).
  destruct (mo_abs (st_index st) !! name) as [id|]; [|by exists st]. by eapply get_by_id_value.
Qed.

Lemma index_insert_abs (name id : cstr) (m : MN) :
  mo_wf m ->
  index_insert true (Some name) (Some id) m = mo_insert true name id m /\
  (mo_insert true name id m).1 = bool_decide (mo_abs m !! name = None) /\
  mo_abs (mo_insert true name id m).2 =
    if decide (mo_abs m !! name = None) then <[name := id]> (mo_abs m) else mo_abs m.
Proof.
  intros Hm. split; [done|]. destruct (mo_abs m !! name) as [v|] eqn:Hv.
  - destruct (mo_insert_bound true name id v m Hm Hv) as [-> ->].
    by rewrite bool_decide_eq_false_2, decide_False.
  - destruct (mo_insert_fresh name id m Hm Hv) as [-> ->].
    by rewrite bool_decide_eq_true_2, decide_True.
Qed.

Lemma store_inv_empty st :
  mo_wf (st_map st) -> mo_wf (st_index st) -> mo_abs (st_map st) = ∅ -> st_refs st = ∅ ->
  store_inv 0 st (fun _ => 0).
Proof.
  intros Hm Hx Ha Hr. assert (forall c, refs_of st (fun _ => 0) c = 0) as H0.
  { intros c. unfold refs_of, count. by rewrite Ha, map_filter_empty. }
  split; try done; [intros c; by rewrite Hr, H0|by rewrite Ha].
Qed.

(** ** Properties *)

(** C3: whatever calls the threads of the daemon make, in any order (creating,
    adding, looking up, listing, removing and releasing containers, renaming), no
    call ever touches a freed container, and at every moment the reference count
    of a container is the number of ids it is stored under plus the number of
    references the threads hold; it is freed exactly when that number becomes
    zero. *)
Theorem store_references_exact ops st0 :
  mo_wf (st_map st0) -> mo_wf (st_index st0) -> mo_abs (st_map st0) = ∅ -> st_refs st0 = ∅ ->
  (Z.of_nat (length ops) < 2 ^ 31)%Z ->
  exists st held, store_run ops (st0, fun _ => 0) = Some (st, held) /\
    forall c, st_refs st !! c = enc (count (mo_abs (st_map st)) c + held c).
Proof.
  intros Hm Hx Ha Hr Hk. pose proof (store_inv_empty st0 Hm Hx Ha Hr) as Hi.
  destruct (store_run_inv ops 0 st0 (fun _ => 0) Hi) as ([st held] & Hrun & Hi'); [done|].
  exists st, held. split; [done|]. apply Hi'.
Qed.

(** [containers_store_get] finds the container whose id is the argument; if
    there is none, the one whose name is the argument; if there is none, the one
    whose id starts with the argument, provided that exactly one does. *)
Theorem store_get_precedence k st held x :
  store_inv k st held -> few k ->
  exists c st', containers_store_get lock_ok true (Some x) st = Some (c, st') /\
    match mo_abs (st_map st) !! x, mo_abs (st_index st) !! x ≫= (mo_abs (st_map st) !!.) with
    | Some c', _ => c = c'
    | None, Some c' => c = c'
    | None, None =>
        if decide (c = NULL) then forall c', ~ only_prefix (mo_abs (st_map st)) x c'
        else only_prefix (mo_abs (st_map st)) x c
    end.
Proof.
  intros Hi Hk. unfold containers_store_get.
  destruct (get_by_id_value k st held x Hi Hk) as (st1 & -> & H1). cbn [mbind option_bind fst snd].
  destruct (mo_abs (st_map st) !! x) as [c|] eqn:Hx; cbn [default].
  { destruct (refs_stored k st held x c Hi Hx). rewrite decide_True by done. eauto. }
  rewrite (H1 eq_refl), decide_False by naive_solver.
  destruct (get_by_name_value k st held x Hi Hk) as (st2 & -> & H2). cbn [mbind option_bind fst snd].
  destruct (mo_abs (st_index st) !! x ≫= (mo_abs (st_map st) !!.)) as [c|] eqn:Hn; cbn [default].
  { apply bind_Some in Hn as (id & _ & Hc). destruct (refs_stored k st held id c Hi Hc).
    rewrite decide_True by done. eauto. }
  rewrite (H2 eq_refl), decide_False by naive_solver.
  pose proof (find_prefix_only k st held x Hi) as Hp.
  destruct (get_by_prefix_spec k st held lock_ok true (Some x) Hi Hk) as (c & st3 & Hg & _).
  rewrite Hg. unfold containers_store_get_by_prefix in Hg. cbn [negb l_lock lock_ok] in Hg.
  eexists _, _. split; [done|]. destruct (find_prefix _ _ _) as [c'|]; simplify_eq; [|by rewrite decide_True].
  destruct (container_refinc c' st); simplify_eq/=. done.
Qed.

(** A name is given to one container at a time.  [container_name_index_add]
    succeeds exactly when the name is free, and never changes the id of a name in
    use; [container_name_index_rename] refuses a new name in use without any
    change, and otherwise adds the new name and drops the old one, succeeding
    exactly when there was an old one to drop. *)
Theorem name_index_exclusive st name old id :
  mo_wf (st_index st) ->
  let ix := mo_abs (st_index st) in
  (let '(b, st') := container_name_index_add lock_ok true (Some name) (Some id) st in
   b = bool_decide (ix !! name = None) /\ st_map st' = st_map st /\ st_refs st' = st_refs st /\
   mo_abs (st_index st') = if b then <[name := id]> ix else ix) /\
  (let '(b, st') := container_name_index_rename lock_ok true (Some name) (Some old) (Some id) st in
   st_map st' = st_map st /\ st_refs st' = st_refs st /\
   match ix !! name with
   | Some _ => b = false /\ mo_abs (st_index st') = ix
   | None => b = bool_decide (is_Some (<[name := id]> ix !! old)) /\
             mo_abs (st_index st') = delete old (<[name := id]> ix)
   end).
Proof.
  intros Hx ix. unfold container_name_index_add, container_name_index_rename.
  cbn [negb l_lock l_unlock lock_ok]. destruct (index_insert_abs name id _ Hx) as (-> & Hb & Ha).
  pose proof (mo_wf_insert true name id _ Hx) as Hw.
  destruct (mo_insert true name id (st_index st)) as [b m]. cbn [fst snd] in *. subst b. split.
  - split_and!; [done..|]. cbn. rewrite Ha. by destruct (decide (mo_abs (st_index st) !! name = None)) as [H|H];
      [rewrite bool_decide_eq_true_2|rewrite bool_decide_eq_false_2].
  - destruct (ix !! name) as [v|] eqn:Hn; fold ix in Ha.
    + rewrite bool_decide_eq_false_2 by (unfold ix in Hn; congruence). cbn.
      split_and!; [done..|]. rewrite Ha, decide_False; [done|congruence].
    + rewrite bool_decide_eq_true_2 by done. cbn. rewrite decide_True in Ha by done.
      destruct (mo_remove_abs old m Hw) as [Ha' Hb']. rewrite Ha in Ha', Hb'.
      destruct (mo_remove old m) as [b m']. cbn in *. by subst.
Qed.

(** [container_name_index_get_all] returns the inverse of the index, the name
    of every id, when no container has two names; otherwise it returns NULL. *)
Theorem name_index_inverse st :
  mo_wf (st_index st) ->
  let ix := mo_abs (st_index st) in
  ((forall n1 n2 id, ix !! n1 = Some id -> ix !! n2 = Some id -> n1 = n2) ->
   exists m, container_name_index_get_all lock_ok true (fun _ => true) st = Some m /\ mo_wf m /\
     forall id name, mo_abs m !! id = Some name <-> ix !! name = Some id) /\
  (forall n1 n2 id, ix !! n1 = Some id -> ix !! n2 = Some id -> n1 ≠ n2 ->
   container_name_index_get_all lock_ok true (fun _ => true) st = None).
Proof.
  intros Hx ix. unfold container_name_index_get_all.
  destruct mo_new_ok as (m0 & -> & Hw0 & Ha0). cbn [negb l_lock lock_ok].
  rewrite mo_size_ok by done. fold ix. destruct (decide (size ix = 0)) as [Hz|Hz].
  - apply map_size_empty_inv in Hz. split; [|intros n1 n2 id H1; by rewrite Hz in H1].
    intros _. exists m0. split_and!; [done..|]. intros id name. by rewrite Ha0, Hz.
  - split.
    + intros Hinj. apply index_ids_NoDup in Hinj; [|done].
      destruct (invert_index_ok (mo_elements (st_index st)) m0) as (m & -> & Hw & Hm);
        [done|done|intros i _; by rewrite Ha0, lookup_empty|]. exists m. split_and!; [done..|]. intros id name.
      rewrite Hm, elem_of_mo_elements, Ha0 by done. naive_solver.
    + intros n1 n2 id H1 H2 Hne. apply invert_index_dup; [done|].
      rewrite index_ids_NoDup by done. intros Hinj. by destruct Hne; eapply Hinj.
Qed.
End props.

(** ** Instances: the store over the red-black trees of map.c *)

Open Scope nat_scope.

#[local] Instance demo_opsC : MapOps cstr N (map_t cstr N) := map_c_MapOps MAP_STR_PTR.
#[local] Instance demo_opsN : MapOps cstr cstr (map_t cstr cstr) := map_c_MapOps MAP_STR_STR.
#[local] Instance demo_lawsC : MapLaws mk_cmp demo_opsC := map_c_MapLaws MAP_STR_PTR.
#[local] Instance demo_lawsN : MapLaws mk_cmp demo_opsN := map_c_MapLaws MAP_STR_STR.

Definition demo_calls : list store_op :=
  [OpNew 5; OpAdd true true (c_str "abc1") 5; OpNameAdd lock_ok true (Some (c_str "web")) (Some (c_str "abc1"));
   OpGet lock_ok true (Some (c_str "ab")); OpRemove true (c_str "abc1")].

Lemma demo_store : exists st0 : store (map_t cstr N) (map_t cstr cstr),
  mo_wf (st_map st0) /\ mo_wf (st_index st0) /\ mo_abs (st_map st0) = ∅ /\ st_refs st0 = ∅ /\
  mo_abs (st_index st0) = ∅.
Proof.
  destruct (mo_new_ok (MapLaws := demo_lawsC)) as (m1 & _ & H1 & A1).
  destruct (mo_new_ok (MapLaws := demo_lawsN)) as (m2 & _ & H2 & A2).
  by exists (Store m1 m2 ∅).
Qed.

Example store_references_exact_witness :
  exists (st0 st : store (map_t cstr N) (map_t cstr cstr)) held,
    store_run demo_calls (st0, fun _ => 0) = Some (st, held) /\
    forall c, st_refs st !! c = enc (count (mo_abs (st_map st)) c + held c).
Proof.
  destruct demo_store as (st0 & H1 & H2 & H3 & H4 & _). exists st0.
  apply (store_references_exact demo_calls st0); [done..|vm_compute; reflexivity].
Defined.

Lemma demo_inv : exists (st : store (map_t cstr N) (map_t cstr cstr)) held, store_inv 3 st held.
Proof.
  destruct demo_store as (st0 & H1 & H2 & H3 & H4 & _).
  destruct (store_run_inv (take 3 demo_calls) 0 st0 (fun _ => 0)) as ([st held] & _ & Hi);
    [by apply store_inv_empty|done|]. by exists st, held.
Qed.

Example store_get_precedence_witness :
  exists (st : store (map_t cstr N) (map_t cstr cstr)) held c st',
    store_inv 3 st held /\ containers_store_get lock_ok true (Some (c_str "web")) st = Some (c, st').
Proof.
  destruct demo_inv as (st & held & Hi).
  destruct (store_get_precedence 3 st held (c_str "web") Hi) as (c & st' & Hg & _); [done|].
  exists st, held, c, st'. exact (conj Hi Hg).
Defined.

Example name_index_exclusive_witness :
  exists st : store (map_t cstr N) (map_t cstr cstr),
    (container_name_index_add lock_ok true (Some (c_str "web")) (Some (c_str "abc1")) st).1 = true.
Proof.
  destruct demo_store as (st0 & _ & H2 & _ & _ & H5). exists st0.
  destruct (name_index_exclusive st0 (c_str "web") (c_str "db") (c_str "abc1") H2) as [Ha _].
  destruct (container_name_index_add _ _ _ _ _) as [b st']. destruct Ha as [Hb _]. cbn [fst].
  rewrite Hb. apply bool_decide_eq_true_2. by rewrite H5.
Defined.

Example name_index_inverse_witness :
  exists (st : store (map_t cstr N) (map_t cstr cstr)) m,
    container_name_index_get_all lock_ok true (fun _ => true) st = Some m /\ mo_wf m.
Proof.
  destruct demo_store as (st0 & _ & H2 & _ & _ & H5). exists st0.
  destruct (proj1 (name_index_inverse st0 H2)) as (m & Hm & Hw & _).
  - intros n1 n2 id H. by rewrite H5 in H.
  - exists m. exact (conj Hm Hw).
Defined.
