(* ===== verification/Convert.v ===== *)
(** Conversions between strings and numbers: src/src/utils/cutils/utils_convert.c.

    [strtol], [strtoul] and their [long long] twins are those of the C standard
    library (LP64: [long] and [long long] have 64 bits).  A conversion returns its
    result code and the value stored in [*converted], [None] when nothing is
    stored. *)
From Stdlib Require Import Ascii.
From S2P Require Import Prelude StrUtils.

Definition EINVAL : Z := 22.
Definition ERANGE : Z := 34.
Definition INT_MAX : Z := 2 ^ 31 - 1.
Definition INT_MIN : Z := - 2 ^ 31.
Definition UINT_MAX : Z := 2 ^ 32 - 1.
Definition LONG_MAX : Z := 2 ^ 63 - 1.
Definition LONG_MIN : Z := - 2 ^ 63.
Definition ULONG_MAX : Z := 2 ^ 64 - 1.
Definition MAX_NUM_STR_LEN : Z := 21.

(** ** Parsing of integers (stdlib.h) *)

Definition code (c : ascii) : Z := Z.of_N (N_of_ascii c).

(** The value of a digit or letter, as a digit of any base. *)
Definition digit_value (c : ascii) : option Z :=
  let n := code c in
  if ((48 <=? n) && (n <=? 57))%Z then Some (n - 48)%Z
  else if ((97 <=? n) && (n <=? 122))%Z then Some (n - 87)%Z
  else if ((65 <=? n) && (n <=? 90))%Z then Some (n - 55)%Z
  else None.
Definition digit_of (base : Z) (c : ascii) : option Z :=
  d ← digit_value c; if (d <? base)%Z then Some d else None.

Fixpoint skip_space (s : cs) : cs :=
  match s with c :: s' => if isspace c then skip_space s' else s | [] => [] end.

(** The digits at the start of [s]: their value, how many, and the rest. *)
Fixpoint scan_digits (base acc : Z) (n : nat) (s : cs) : Z * nat * cs :=
  match s with
  | c :: s' =>
      match digit_of base c with
      | Some d => scan_digits base (acc * base + d) (S n) s'
      | None => (acc, n, s)
      end
  | [] => (acc, n, [])
  end.

(** The base, and where the digits start: base 0 looks at the prefix, and a "0x"
    without a digit after it is the number 0. *)
Definition choose_base (base : Z) (s : cs) : Z * cs :=
  if (base =? 0)%Z then
    match s with
    | "0"%char :: x :: c :: _ =>
        if (Ascii.eqb x "x" || Ascii.eqb x "X") && bool_decide (is_Some (digit_of 16 c))
        then (16%Z, drop 2 s) else (8%Z, s)
    | "0"%char :: _ => (8%Z, s)
    | _ => (10%Z, s)
    end
  else (base, s).

(** Sign, magnitude and rest; [None] when there are no digits. *)
Definition scan_number (s : cs) (base : Z) : option (bool * Z * cs) :=
  let s := skip_space s in
  let '(neg, s) :=
    match s with
    | c :: s' => if Ascii.eqb c "-" then (true, s') else if Ascii.eqb c "+" then (false, s') else (false, s)
    | [] => (false, [])
    end in
  let '(base, s) := choose_base base s in
  let '(v, n, r) := scan_digits base 0 0 s in
  match n with O => None | _ => Some (neg, v, r) end.

(** What the [strto*] functions report: the value, [errno], and the end pointer
    (the rest of the string; [None] when it is the start). *)
Record strto := Strto { value : Z; errno : Z; end_ : option cs }.

Definition strtol (s : cs) (base : Z) : strto :=
  match scan_number s base with
  | None => Strto 0 0 None
  | Some (neg, v, r) =>
      let z := (if neg : bool then - v else v)%Z in
      if (z >? LONG_MAX)%Z then Strto LONG_MAX ERANGE (Some r)
      else if (z <? LONG_MIN)%Z then Strto LONG_MIN ERANGE (Some r)
      else Strto z 0 (Some r)
  end.
Definition strtoll := strtol.

(** A minus sign negates the value as an unsigned number. *)
Definition strtoul (s : cs) (base : Z) : strto :=
  match scan_number s base with
  | None => Strto 0 0 None
  | Some (neg, v, r) =>
      if (v >? ULONG_MAX)%Z then Strto ULONG_MAX ERANGE (Some r)
      else Strto (if neg : bool then wrap_u 64 (- v) else v) 0 (Some r)
  end.
Definition strtoull := strtoul.

(** ** utils_convert.c *)

(** [err_str == numstr || *err_str != '\0'] *)
Definition is_invalid_error_str (err_str : option cs) : bool :=
  match err_str with None => true | Some [] => false | Some _ => true end.

(** The common shape: parse, test [errno], test the end pointer, test the range. *)
Definition util_safe_u16 (numstr : option cs) : Z * option Z :=
  match numstr with
  | None => (- EINVAL, None)%Z
  | Some s =>
      let r := strtoul s 0 in
      if (errno r >? 0)%Z then (- errno r, None)%Z
      else if is_invalid_error_str (end_ r) then (- EINVAL, None)%Z
      else if (value r >? 65535)%Z then (- ERANGE, None)%Z
      else (0%Z, Some (wrap_u 16 (value r)))
  end.

Definition util_safe_int (num_str : option cs) : Z * option Z :=
  match num_str with
  | None => (- EINVAL, None)%Z
  | Some s =>
      let r := strtol s 0 in
      if (errno r >? 0)%Z then (- errno r, None)%Z
      else if is_invalid_error_str (end_ r) then (- EINVAL, None)%Z
      else if ((value r >? INT_MAX) || (value r <? INT_MIN))%Z then (- ERANGE, None)%Z
      else (0%Z, Some (wrap_s 32 (value r)))
  end.

Definition util_safe_uint (numstr : option cs) : Z * option Z :=
  match numstr with
  | None => (- EINVAL, None)%Z
  | Some s =>
      let r := strtoull s 0 in
      if (errno r >? 0)%Z then (- errno r, None)%Z
      else if is_invalid_error_str (end_ r) then (- EINVAL, None)%Z
      else if (value r >? UINT_MAX)%Z then (- ERANGE, None)%Z
      else (0%Z, Some (wrap_u 32 (value r)))
  end.

Definition util_safe_uint64 (numstr : option cs) : Z * option Z :=
  match numstr with
  | None => (- EINVAL, None)%Z
  | Some s =>
      let r := strtoull s 0 in
      if (errno r >? 0)%Z then (- errno r, None)%Z
      else if is_invalid_error_str (end_ r) then (- EINVAL, None)%Z
      else (0%Z, Some (wrap_u 64 (value r)))
  end.

Definition util_parse_octal_uint32 (numstr : option cs) : Z * option Z :=
  match numstr with
  | None => (- EINVAL, None)%Z
  | Some s =>
      let r := strtoll s 8 in
      if (errno r >? 0)%Z then (- errno r, None)%Z
      else if is_invalid_error_str (end_ r) || (value r <? 0)%Z || (value r >? UINT_MAX)%Z
      then (- EINVAL, None)%Z
      else (0%Z, Some (wrap_u 32 (value r)))
  end.

Definition util_safe_llong (numstr : option cs) : Z * option Z :=
  match numstr with
  | None => (- EINVAL, None)%Z
  | Some s =>
      let r := strtoll s 0 in
      if (errno r >? 0)%Z then (- errno r, None)%Z
      else if is_invalid_error_str (end_ r) then (- EINVAL, None)%Z
      else (0%Z, Some (value r))
  end.

Definition is_valid_str_bool_true (str : cs) : bool :=
  bool_decide (str ∈ [bs "1"; bs "t"; bs "T"; bs "true"; bs "TRUE"; bs "True"]).
Definition is_valid_str_bool_false (str : cs) : bool :=
  bool_decide (str ∈ [bs "0"; bs "f"; bs "F"; bs "false"; bs "FALSE"; bs "False"]).

Definition util_str_to_bool (boolstr : option cs) : Z * option bool :=
  match boolstr with
  | None => (- EINVAL, None)%Z
  | Some s =>
      if is_valid_str_bool_true s then (0%Z, Some true)
      else if is_valid_str_bool_false s then (0%Z, Some false)
      else (- EINVAL, None)%Z
  end.

(** ** Printing *)

(** The decimal digits of [n], put in front of [acc]. *)
Definition digit_char (d : Z) : ascii := ascii_of_N (Z.to_N (48 + d)).
Fixpoint print_dec (fuel : nat) (n : Z) (acc : cs) : cs :=
  match fuel with
  | O => acc
  | S fuel =>
      let acc := digit_char (n mod 10) :: acc in
      if (n <? 10)%Z then acc else print_dec fuel (n / 10) acc
  end.

(** "%llu" and "%lld": a 64-bit number has at most 20 digits. *)
Definition print_llu (n : Z) : cs := print_dec 20 n [].
Definition print_lld (n : Z) : cs :=
  if (n <? 0)%Z then "-"%char :: print_llu (- n) else print_llu n.

(** [snprintf] into [numstr]: [None] when it does not fit. *)
Definition util_uint_to_string (data : Z) : option cs :=
  let s := print_llu data in
  if (Z.of_nat (length s) >=? MAX_NUM_STR_LEN)%Z then None else Some s.
Definition util_int_to_string (data : Z) : option cs :=
  let s := print_lld data in
  if (Z.of_nat (length s) >=? MAX_NUM_STR_LEN)%Z then None else Some s.
