(* ===== verification/ConvertProps.v ===== *)
(** Numbers survive printing and parsing, at every width; the limits of the
    parsers. *)
From Stdlib Require Import Ascii.
From S2P Require Import Prelude StrUtils Convert.
Open Scope Z_scope.

(** ** Digits *)

Lemma digit_cases d : 0 <= d < 10 ->
  d = 0 \/ d = 1 \/ d = 2 \/ d = 3 \/ d = 4 \/ d = 5 \/ d = 6 \/ d = 7 \/ d = 8 \/ d = 9.
Proof. lia. Qed.

Lemma digit_of_char d : 0 <= d < 10 -> digit_of 10 (digit_char d) = Some d.
Proof. intros Hd. by destruct (digit_cases d Hd) as [->|[->|[->|[->|[->|[->|[->|[->|[->| ->]]]]]]]]]. Qed.

(** Scanning what was printed. *)
Lemma scan_print fuel n rest :
  0 <= n < 10 ^ Z.of_nat fuel -> (0 < fuel)%nat ->
  exists k, (0 < k)%nat /\
    scan_digits 10 0 0 (print_dec fuel n rest) = scan_digits 10 n k rest.
Proof.
  revert n rest. induction fuel as [|fuel IH]; intros n rest Hn Hf; [lia|]. cbn [print_dec].
  destruct (Z.ltb_spec n 10) as [Hlt|Hge].
  - exists 1%nat. split; [lia|]. rewrite Z.mod_small by lia. cbn [scan_digits].
    by rewrite digit_of_char by lia.
  - rewrite Nat2Z.inj_succ, Z.pow_succ_r in Hn by lia.
    assert (0 < fuel)%nat as Hf' by (destruct fuel; [cbn in Hn; lia|lia]).
    destruct (IH (n / 10) (digit_char (n mod 10) :: rest)) as (k & Hk & Hs); [|done|].
    { split; [apply Z.div_pos; lia|apply Z.div_lt_upper_bound; lia]. }
    exists (S k). split; [lia|]. rewrite Hs. cbn [scan_digits].
    rewrite digit_of_char by (apply Z.mod_pos_bound; lia). do 2 f_equal.
    pose proof (Z.div_mod n 10). lia.
Qed.

Lemma length_print fuel m n acc :
  0 <= n < 10 ^ Z.of_nat m -> (0 < m)%nat ->
  (length (print_dec fuel n acc) <= m + length acc)%nat.
Proof.
  revert m n acc. induction fuel as [|fuel IH]; intros m n acc Hn Hm; cbn [print_dec]; [lia|].
  destruct (Z.ltb_spec n 10); [cbn; lia|]. destruct m as [|m]; [lia|].
  rewrite Nat2Z.inj_succ, Z.pow_succ_r in Hn by lia.
  assert (0 < m)%nat as Hm' by (destruct m; [cbn in Hn; lia|lia]).
  etransitivity; [apply (IH m)|cbn; lia]; [|done].
  split; [apply Z.div_pos; lia|apply Z.div_lt_upper_bound; lia].
Qed.

(** A positive number is printed without a leading zero. *)
Lemma print_head fuel n acc :
  0 < n < 10 ^ Z.of_nat fuel ->
  exists d t, 1 <= d < 10 /\ print_dec fuel n acc = digit_char d :: t.
Proof.
  revert n acc. induction fuel as [|fuel IH]; intros n acc Hn; [cbn in Hn; lia|]. cbn [print_dec].
  destruct (Z.ltb_spec n 10); [exists n, acc; rewrite Z.mod_small by lia; split; [lia|done]|].
  rewrite Nat2Z.inj_succ, Z.pow_succ_r in Hn by lia. apply IH.
  split; [apply Z.div_str_pos; lia|apply Z.div_lt_upper_bound; lia].
Qed.

(** A digit is neither a space nor a sign, and chooses base ten. *)
Lemma lead_digit d t :
  1 <= d < 10 ->
  skip_space (digit_char d :: t) = digit_char d :: t /\
  Ascii.eqb (digit_char d) "-" = false /\ Ascii.eqb (digit_char d) "+" = false /\
  choose_base 0 (digit_char d :: t) = (10, digit_char d :: t).
Proof.
  intros Hd. assert (0 <= d < 10) as Hd' by lia.
  destruct (digit_cases d Hd') as [->|[->|[->|[->|[->|[->|[->|[->|[->| ->]]]]]]]]]; [lia|done..].
Qed.

Lemma scan_number_print n :
  0 <= n < 10 ^ 20 -> scan_number (print_llu n) 0 = Some (false, n, []).
Proof.
  intros Hn. destruct (decide (n = 0)) as [->|Hnz]; [done|].
  destruct (scan_print 20 n []) as (k & Hk & Hs); [done|lia|].
  destruct (print_head 20 n []) as (d & t & Hd & Hp); [lia|].
  unfold scan_number, print_llu. rewrite Hp in *. destruct (lead_digit d t Hd) as (-> & -> & -> & ->).
  rewrite Hs. cbn. by destruct k; [lia|].
Qed.

Lemma scan_number_minus n :
  0 < n < 10 ^ 20 -> scan_number ("-"%char :: print_llu n) 0 = Some (true, n, []).
Proof.
  intros Hn. pose proof (scan_number_print n ltac:(lia)) as Hs.
  destruct (print_head 20 n []) as (d & t & Hd & Hp); [lia|].
  unfold scan_number, print_llu in *. rewrite Hp in *.
  destruct (lead_digit d t Hd) as (Hsk & Hm & Hpl & Hb). rewrite Hsk, Hm, Hpl, Hb in Hs.
  change (skip_space ("-"%char :: digit_char d :: t)) with ("-"%char :: digit_char d :: t).
  cbn [Ascii.eqb Bool.eqb]. rewrite Hb. destruct (scan_digits _ _ _ _) as [[v k] r].
  destruct k; [done|]. by simplify_eq.
Qed.

(** ** Parsing what was printed *)

Lemma gtb_false a b : a <= b -> (a >? b) = false.
Proof. intros. destruct (Z.gtb_spec a b); [lia|done]. Qed.
Lemma ltb_false a b : b <= a -> (a <? b) = false.
Proof. intros. destruct (Z.ltb_spec a b); [lia|done]. Qed.

Lemma strtoul_print n : 0 <= n < 2 ^ 64 -> strtoul (print_llu n) 0 = Strto n 0 (Some []).
Proof.
  intros Hn. unfold strtoul. rewrite scan_number_print by lia.
  by rewrite gtb_false by (unfold ULONG_MAX; lia).
Qed.

Lemma strtol_print n : - 2 ^ 63 <= n < 2 ^ 63 -> strtol (print_lld n) 0 = Strto n 0 (Some []).
Proof.
  intros Hn. unfold strtol, print_lld, LONG_MAX, LONG_MIN. destruct (Z.ltb_spec n 0).
  - rewrite scan_number_minus by lia. by rewrite gtb_false, ltb_false, Z.opp_involutive by lia.
  - rewrite scan_number_print by lia. by rewrite gtb_false, ltb_false by lia.
Qed.

(** ** Properties *)

(** Every 64-bit number, signed or unsigned, can be printed (the buffer of 21
    bytes always suffices) and is read back unchanged; the narrower parsers read
    the same string exactly when the number fits their type and report ERANGE
    otherwise. *)
Theorem number_string_roundtrip n :
  (0 <= n < 2 ^ 64 ->
   exists s, util_uint_to_string n = Some s /\ util_safe_uint64 (Some s) = (0, Some n) /\
     util_safe_uint (Some s) = (if n <=? UINT_MAX then (0, Some n) else (- ERANGE, None)) /\
     util_safe_u16 (Some s) = (if n <=? 65535 then (0, Some n) else (- ERANGE, None))) /\
  (- 2 ^ 63 <= n < 2 ^ 63 ->
   exists s, util_int_to_string n = Some s /\ util_safe_llong (Some s) = (0, Some n) /\
     util_safe_int (Some s) =
       (if (INT_MIN <=? n) && (n <=? INT_MAX) then (0, Some n) else (- ERANGE, None))).
Proof.
  split; intros Hn.
  - exists (print_llu n). split_and!.
    + unfold util_uint_to_string, MAX_NUM_STR_LEN, print_llu.
      pose proof (length_print 20 20 n [] ltac:(lia) ltac:(lia)) as Hl. cbn [length] in Hl.
      destruct (Z.geb_spec (Z.of_nat (length (print_dec 20 n []))) 21); [lia|done].
    + unfold util_safe_uint64, strtoull. rewrite strtoul_print by lia. cbn.
      by rewrite wrap_u_small by lia.
    + unfold util_safe_uint, strtoull. rewrite strtoul_print by lia. cbn.
      destruct (Z.gtb_spec n UINT_MAX), (Z.leb_spec n UINT_MAX); try lia; [done|].
      unfold UINT_MAX in *. by rewrite wrap_u_small by lia.
    + unfold util_safe_u16. rewrite strtoul_print by lia. cbn.
      destruct (Z.gtb_spec n 65535), (Z.leb_spec n 65535); try lia; [done|].
      by rewrite wrap_u_small by lia.
  - exists (print_lld n). split_and!.
    + unfold util_int_to_string, MAX_NUM_STR_LEN, print_lld, print_llu.
      destruct (Z.ltb_spec n 0); cbn [length].
      * pose proof (length_print 20 19 (- n) [] ltac:(lia) ltac:(lia)) as Hl. cbn [length] in Hl.
        destruct (Z.geb_spec (Z.of_nat (S (length (print_dec 20 (- n) [])))) 21); [lia|done].
      * pose proof (length_print 20 20 n [] ltac:(lia) ltac:(lia)) as Hl. cbn [length] in Hl.
        destruct (Z.geb_spec (Z.of_nat (length (print_dec 20 n []))) 21); [lia|done].
    + unfold util_safe_llong, strtoll. by rewrite strtol_print by lia.
    + unfold util_safe_int. rewrite strtol_print by lia. cbn.
      destruct (Z.gtb_spec n INT_MAX), (Z.ltb_spec n INT_MIN), (Z.leb_spec INT_MIN n), (Z.leb_spec n INT_MAX);
        cbn; try lia; try done. unfold INT_MIN, INT_MAX in *. by rewrite wrap_s_small by lia.
Qed.

(** The unsigned parsers accept negative numbers: [util_safe_uint64] reads
    "-n" as 2^64 - n, and a large enough negative number passes the range test of
    the 16-bit parser. *)
Theorem unsigned_parsers_accept_minus n :
  0 < n < 2 ^ 64 ->
  util_safe_uint64 (Some ("-"%char :: print_llu n)) = (0, Some (2 ^ 64 - n)) /\
  (2 ^ 64 - n <= 65535 -> util_safe_u16 (Some ("-"%char :: print_llu n)) = (0, Some (2 ^ 64 - n))).
Proof.
  intros Hn. assert (strtoul ("-"%char :: print_llu n) 0 = Strto (2 ^ 64 - n) 0 (Some [])) as Hs.
  { unfold strtoul. rewrite scan_number_minus by lia. rewrite gtb_false by (unfold ULONG_MAX; lia).
    f_equal. unfold wrap_u. rewrite Z.mod_opp_l_nz; rewrite ?Z.mod_small by lia; lia. }
  split; [|intros Hle].
  - unfold util_safe_uint64, strtoull. rewrite Hs. cbn. by rewrite wrap_u_small by lia.
  - unfold util_safe_u16. rewrite Hs. cbn. rewrite gtb_false by lia. by rewrite wrap_u_small by lia.
Qed.

Example number_string_roundtrip_witness :
  (exists s, util_int_to_string (-42) = Some s /\ util_safe_llong (Some s) = (0, Some (-42))) /\
  util_int_to_string (-42) = Some (bs "-42").
Proof.
  split; [|vm_compute; reflexivity].
  destruct (proj2 (number_string_roundtrip (-42)) ltac:(lia)) as (s & H1 & H2 & _). by exists s.
Defined.

Example unsigned_parsers_accept_minus_witness :
  util_safe_uint64 (Some (bs "-1")) = (0, Some (2 ^ 64 - 1)).
Proof. apply (proj1 (unsigned_parsers_accept_minus 1 ltac:(lia))). Defined.
