(* ===== verification/LinkedList.v ===== *)
(** linked_list.h: the intrusive circular list of the event and garbage queues.

    Nodes live in a heap; a list is a ring through its header node.  The functions
    below are those of src/src/utils/cutils/linked_list.h, with [None] for an access
    through a pointer to no node.  [ring h head l] says that the header [head] leads
    through the nodes [l] and back; every function is proved to act on [l] as the
    obvious function on sequences, so the components that queue work use plain lists
    for these rings. *)
From S2P Require Import Prelude Heap.

Module LinkedList.

(** struct linked_list *)
Record linked_list := LL { elem : N; next : N; prev : N }.

Abbreviation heap := (gmap N linked_list).

Definition set_elem (e : N) (n : linked_list) := LL e (next n) (prev n).
Definition set_next (p : N) (n : linked_list) := LL (elem n) p (prev n).
Definition set_prev (p : N) (n : linked_list) := LL (elem n) (next n) p.

Definition linked_list_init (h : heap) (list : N) : option heap :=
  h ← hup h list (set_elem NULL);
  h ← hup h list (set_prev list);
  hup h list (set_next list).

Definition linked_list_add_elem (h : heap) (list e : N) : option heap :=
  hup h list (set_elem e).

Definition linked_list_first_elem (h : heap) (list : N) : option N :=
  n ← hrd h list; m ← hrd h (next n); Some (elem m).

Definition linked_list_last_elem (h : heap) (list : N) : option N :=
  n ← hrd h list; m ← hrd h (prev n); Some (elem m).

Definition linked_list_first_node (h : heap) (list : N) : option N :=
  n ← hrd h list; Some (next n).

Definition linked_list_empty (h : heap) (list : N) : option bool :=
  n ← hrd h list; Some (bool_decide (list = next n)).

Definition linked_list_add' (h : heap) (newlist prev next : N) : option heap :=
  h ← hup h next (set_prev newlist);
  h ← hup h newlist (set_next next);
  h ← hup h newlist (set_prev prev);
  hup h prev (set_next newlist).

Definition linked_list_add (h : heap) (head list : N) : option heap :=
  n ← hrd h head; linked_list_add' h list head (next n).

Definition linked_list_add_tail (h : heap) (head list : N) : option heap :=
  n ← hrd h head; linked_list_add' h list (prev n) head.

Definition linked_list_del (h : heap) (list : N) : option heap :=
  n ← hrd h list;
  h ← hup h (next n) (set_prev (prev n));
  hup h (prev n) (set_next (next n)).

(** The loops [linked_list_for_each]: [body] is run on each node in turn.  Such a body does not
    change the list. *)
Fixpoint for_each {S} (fuel : nat) (h : heap) (list iter : N) (body : N -> S -> S)
    (s : S) : option S :=
  match fuel with
  | 0 => None
  | S fuel =>
      if bool_decide (iter = list) then Some s
      else n ← hrd h iter; for_each fuel h list (next n) body (body iter s)
  end.

Definition linked_list_len (fuel : nat) (h : heap) (list : N) : option Z :=
  n ← hrd h list;
  for_each fuel h list (next n) (fun _ i => wrap_u 64 (i + 1)) 0%Z.

(** The loops [linked_list_for_each_safe]: the next node is fetched before [body] runs, which
    may take out and free the node it is run on. *)
Fixpoint for_each_safe (fuel : nat) (h : heap) (list iter nxt : N) (body : N -> heap -> option heap)
    : option heap :=
  match fuel with
  | 0 => None
  | S fuel =>
      if bool_decide (iter = list) then Some h
      else h ← body iter h; n ← hrd h nxt; for_each_safe fuel h list nxt (next n) body
  end.

(** Its use: the nodes that [victim] tells are taken out and freed. *)
Definition purge (victim : N -> bool) (it : N) (h : heap) : option heap :=
  if victim it then h ← linked_list_del h it; Some (delete it h) else Some h.

Definition linked_list_purge (fuel : nat) (h : heap) (list : N) (victim : N -> bool) : option heap :=
  n ← hrd h list;
  m ← hrd h (next n);
  for_each_safe fuel h list (next n) (next m) (purge victim).

(** ** Rings *)

Implicit Types (h : heap).

(** [u] and [v] are neighbours: each points to the other. *)
Definition edge (h : heap) (u v : N) : Prop :=
  next <$> h !! u = Some v /\ prev <$> h !! v = Some u.

(** A doubly linked path from [a] through [l] to [z]. *)
Fixpoint linked (h : heap) (a : N) (l : list N) (z : N) : Prop :=
  match l with
  | [] => edge h a z
  | b :: l => edge h a b /\ linked h b l z
  end.

Definition ring (h : heap) (head : N) (l : list (N * N)) : Prop :=
  NoDup (head :: l.*1) /\ linked h head l.*1 head /\
  Forall (fun '(a, e) => elem <$> h !! a = Some e) l.

Lemma linked_app h a l1 b l2 z :
  linked h a (l1 ++ b :: l2) z <-> linked h a l1 b /\ linked h b l2 z.
Proof.
  revert a. induction l1 as [|c l1 IH]; intros a; cbn; [done|]. rewrite IH. tauto.
Qed.

(** A path depends on the forward links of all but its last node and on the backward
    links of all but its first. *)
Lemma linked_frame h h' a l z :
  (forall u, u ∈ a :: l -> next <$> h' !! u = next <$> h !! u) ->
  (forall u, u ∈ l ++ [z] -> prev <$> h' !! u = prev <$> h !! u) ->
  linked h a l z -> linked h' a l z.
Proof.
  revert a. induction l as [|b l IH]; intros a Hn Hp; cbn; unfold edge.
  - rewrite Hn by set_solver. rewrite Hp by set_solver. done.
  - intros [? ?]. rewrite Hn by set_solver. rewrite Hp by set_solver.
    split; [done|]. apply IH; [set_solver..|done].
Qed.

Lemma ring_next h head l :
  ring h head l -> next <$> h !! head = Some (default head (l.*1 !! 0)).
Proof. intros (_ & Hl & _). destruct l as [|[a e] l]; apply Hl. Qed.

Lemma ring_prev h head l :
  ring h head l -> prev <$> h !! head = Some (default head (last l.*1)).
Proof.
  intros (_ & Hl & _). destruct l as [|[a e] l _] using rev_ind; [apply Hl|].
  rewrite fmap_app in *. cbn in *. rewrite last_snoc.
  by apply linked_app in Hl as [_ [_ Hl]].
Qed.

Lemma linked_live h a l z : linked h a l z -> Forall (fun u => is_Some (h !! u)) (a :: l).
Proof.
  revert a. induction l as [|b l IH]; intros a; cbn.
  - intros [(x & Hx & _)%fmap_Some _]. by repeat econstructor.
  - intros [[(x & Hx & _)%fmap_Some _] H%IH]. by econstructor.
Qed.

Lemma ring_live h head l u : ring h head l -> u ∈ head :: l.*1 -> is_Some (h !! u).
Proof. intros (_ & Hl%linked_live & _). rewrite Forall_forall in Hl. apply Hl. Qed.

(** What the two groups of writes do, as functions on the links of the nodes. *)
Lemma hup_run (h : heap) a f : is_Some (h !! a) ->
  exists x, h !! a = Some x /\ hup h a f = Some (<[a := f x]> h).
Proof. intros [x H]. unfold hup. rewrite H. eauto. Qed.

Lemma fmap_update {B} (g : linked_list -> B) h a x u :
  g <$> <[a := x]> h !! u = if decide (u = a) then Some (g x) else g <$> h !! u.
Proof. case_decide; subst; by rewrite ?lookup_insert_eq, ?lookup_insert_ne. Qed.

Lemma fmap_update_id {B} (g : linked_list -> B) (h : heap) a x y u :
  h !! a = Some x -> g y = g x -> g <$> <[a := y]> h !! u = g <$> h !! u.
Proof. intros H E. rewrite fmap_update. case_decide; subst; by rewrite ?H, ?E. Qed.

Lemma add_run h x p n :
  is_Some (h !! x) -> is_Some (h !! p) -> is_Some (h !! n) -> x <> n ->
  exists h', linked_list_add' h x p n = Some h' /\
    (forall u, next <$> h' !! u =
       if decide (u = p) then Some x else if decide (u = x) then Some n else next <$> h !! u) /\
    (forall u, prev <$> h' !! u =
       if decide (u = x) then Some p else if decide (u = n) then Some x else prev <$> h !! u) /\
    (forall u, elem <$> h' !! u = elem <$> h !! u).
Proof.
  intros Hx Hp Hn Hne. unfold linked_list_add'.
  edestruct (hup_run h n (set_prev x)) as (a & Ha & ->); [done|]. cbn.
  edestruct (hup_run (<[n := set_prev x a]> h) x (set_next n)) as (b & Hb & ->);
    [by rewrite lookup_insert_is_Some'; right|]. cbn.
  set (h2 := <[x := set_next n b]> _).
  edestruct (hup_run h2 x (set_prev p)) as (c & Hc & ->);
    [subst h2; rewrite !lookup_insert_is_Some'; auto|]. cbn.
  set (h3 := <[x := set_prev p c]> h2).
  edestruct (hup_run h3 p (set_next x)) as (d & Hd & ->);
    [subst h3 h2; rewrite !lookup_insert_is_Some'; auto|].
  eexists; split_and!; [done|..]; intros u.
  - rewrite fmap_update. case_decide; [done|]. unfold h3. rewrite (fmap_update_id _ _ _ c) by done.
    unfold h2. rewrite fmap_update. case_decide; [done|]. by apply (fmap_update_id _ _ _ a).
  - rewrite (fmap_update_id _ _ _ d) by done. unfold h3. rewrite fmap_update. case_decide; [done|].
    unfold h2. rewrite (fmap_update_id _ _ _ b) by done. by rewrite fmap_update.
  - rewrite (fmap_update_id _ _ _ d) by done. unfold h3. rewrite (fmap_update_id _ _ _ c) by done.
    unfold h2. rewrite (fmap_update_id _ _ _ b) by done. by apply (fmap_update_id _ _ _ a).
Qed.

Lemma del_run h x p n :
  next <$> h !! x = Some n -> prev <$> h !! x = Some p ->
  is_Some (h !! p) -> is_Some (h !! n) ->
  exists h', linked_list_del h x = Some h' /\
    (forall u, next <$> h' !! u = if decide (u = p) then Some n else next <$> h !! u) /\
    (forall u, prev <$> h' !! u = if decide (u = n) then Some p else prev <$> h !! u) /\
    (forall u, elem <$> h' !! u = elem <$> h !! u).
Proof.
  intros (y & Hy & ->)%fmap_Some (y' & Hy' & ->)%fmap_Some Hp Hn. simplify_eq.
  unfold linked_list_del, hrd. rewrite Hy. cbn.
  edestruct (hup_run h (next y) (set_prev (prev y))) as (a & Ha & ->); [done|]. cbn.
  edestruct (hup_run (<[next y := set_prev (prev y) a]> h) (prev y) (set_next (next y)))
    as (b & Hb & ->); [by rewrite lookup_insert_is_Some'; right|].
  eexists; split_and!; [done|..]; intros u.
  - rewrite fmap_update. case_decide; [done|]. by apply (fmap_update_id _ _ _ a).
  - rewrite (fmap_update_id _ _ _ b) by done. by rewrite fmap_update.
  - rewrite (fmap_update_id _ _ _ b) by done. by apply (fmap_update_id _ _ _ a).
Qed.

(** ** The operations on rings *)

(** Contents and live nodes are unchanged by the link updates. *)
Lemma contents_frame (h h' : heap) (l : list (N * N)) :
  (forall u, elem <$> h' !! u = elem <$> h !! u) ->
  Forall (fun '(a, e) => elem <$> h !! a = Some e) l ->
  Forall (fun '(a, e) => elem <$> h' !! a = Some e) l.
Proof. intros He Hl. eapply Forall_impl; [exact Hl|]. intros [a e]. by rewrite He. Qed.

Lemma init_ring h list x :
  h !! list = Some x -> exists h', linked_list_init h list = Some h' /\ ring h' list [] /\
    forall u, u <> list -> h' !! u = h !! u.
Proof.
  intros H. unfold linked_list_init, hup. rewrite H. cbn.
  rewrite !lookup_insert_eq. cbn. rewrite !lookup_insert_eq. cbn.
  eexists; split_and!; [done| |intros u Hu; by rewrite !lookup_insert_ne].
  split_and!; [apply NoDup_singleton| |constructor].
  split; by rewrite lookup_insert_eq.
Qed.

(** The first node after a path, and the last node before it. *)
Definition fst_or (z : N) (l : list N) : N := default z (l !! 0).
Definition lst_or (a : N) (l : list N) : N := default a (last l).

Lemma fst_or_in z l : fst_or z l ∈ l ++ [z].
Proof. destruct l; cbn; set_solver. Qed.

Lemma lst_or_in a l : lst_or a l ∈ a :: l.
Proof.
  unfold lst_or. destruct (last l) as [q|] eqn:E; cbn; [|by left].
  right. by apply last_Some_elem_of.
Qed.

Lemma linked_split h a l1 l2 z :
  linked h a (l1 ++ l2) z <->
  linked h a l1 (fst_or z l2) /\ linked h (lst_or a l1) l2 z.
Proof.
  destruct l2 as [|b l2].
  - rewrite app_nil_r. cbn. split; [|tauto]. intros H. split; [done|].
    destruct l1 as [|c l1 _] using rev_ind; [done|]. unfold lst_or. rewrite last_snoc.
    by apply linked_app in H as [_ ?].
  - rewrite linked_app. cbn. split; [|tauto]. intros [H ?]. split_and!; [done| |done].
    destruct l1 as [|c l1 _] using rev_ind; [done|]. unfold lst_or. rewrite last_snoc.
    by apply linked_app in H as [_ ?].
Qed.

(** Redirect the end of a path, or its start. *)
Lemma linked_end h h' a l z x :
  linked h a l z -> edge h' (lst_or a l) x ->
  (forall u, u ∈ a :: l -> u <> lst_or a l -> next <$> h' !! u = next <$> h !! u) ->
  (forall u, u ∈ l -> prev <$> h' !! u = prev <$> h !! u) ->
  NoDup (a :: l) -> linked h' a l x.
Proof.
  destruct l as [|b l _] using rev_ind; [done|].
  unfold lst_or. rewrite last_snoc. cbn [default]. rewrite !linked_app.
  intros [Hl _] He Hn Hp Hd. split; [|done]. revert Hl. apply linked_frame.
  - intros u Hu. apply Hn; [set_solver|]. intros ->.
    rewrite app_comm_cons in Hd. apply NoDup_app in Hd as (_ & Hd & _). set_solver.
  - intros u Hu. apply Hp. done.
Qed.

Lemma linked_start h h' a l z x :
  linked h a l z -> edge h' x (fst_or z l) ->
  (forall u, u ∈ l -> next <$> h' !! u = next <$> h !! u) ->
  (forall u, u ∈ l ++ [z] -> u <> fst_or z l -> prev <$> h' !! u = prev <$> h !! u) ->
  NoDup (l ++ [z]) -> linked h' x l z.
Proof.
  destruct l as [|b l]; [done|]. cbn. intros [_ Hl] He Hn Hp [Hb Hd]%NoDup_cons.
  split; [done|]. revert Hl. apply linked_frame; [done|].
  intros u Hu. apply Hp; [set_solver|]. intros ->. done.
Qed.

Lemma NoDup_halves (a : N) l1 l2 :
  NoDup (a :: l1 ++ l2) <-> NoDup (a :: l1) /\ NoDup (l2 ++ [a]) /\ l1 ## l2.
Proof.
  rewrite NoDup_cons, <-Permutation_cons_append, !NoDup_cons, NoDup_app.
  rewrite not_elem_of_app. set_solver.
Qed.

(** A ring is two paths, one to each side of any point in it. *)
Lemma ring_halves h head l1 l2 :
  ring h head (l1 ++ l2) <->
  (NoDup (head :: l1.*1) /\ NoDup (l2.*1 ++ [head]) /\ l1.*1 ## l2.*1) /\
  (linked h head l1.*1 (fst_or head l2.*1) /\ linked h (lst_or head l1.*1) l2.*1 head) /\
  (Forall (fun '(a, e) => elem <$> h !! a = Some e) l1 /\
   Forall (fun '(a, e) => elem <$> h !! a = Some e) l2).
Proof. unfold ring. by rewrite fmap_app, linked_split, Forall_app, NoDup_halves. Qed.

(** The neighbours of the gap between [l1] and [l2] lie on their own side of it. *)
Lemma gap_sides (a : N) l1 l2 :
  NoDup (a :: l1) -> NoDup (l2 ++ [a]) -> l1 ## l2 ->
  fst_or a l2 ∉ l1 /\ lst_or a l1 ∉ l2.
Proof.
  intros [H1 _]%NoDup_cons (_ & H2 & _)%NoDup_app Hd.
  pose proof (fst_or_in a l2) as [Hf|Hf%list_elem_of_singleton]%elem_of_app;
    pose proof (lst_or_in a l1) as [Hs|Hs]%elem_of_cons; rewrite ?Hf, ?Hs;
    split; try done; intros Hin; set_solver.
Qed.

(** Insert [x] between the nodes of [l1] and of [l2]. *)
Lemma add_ring h head l1 l2 x e :
  ring h head (l1 ++ l2) -> x ∉ head :: (l1 ++ l2).*1 -> elem <$> h !! x = Some e ->
  exists h', linked_list_add' h x (lst_or head l1.*1) (fst_or head l2.*1) = Some h' /\
             ring h' head (l1 ++ (x, e) :: l2) /\ (forall u, elem <$> h' !! u = elem <$> h !! u).
Proof.
  intros Hr Hx He. rewrite fmap_app in Hx.
  apply not_elem_of_cons in Hx as [Hxh [Hx1 Hx2]%not_elem_of_app].
  pose proof (lst_or_in head l1.*1) as Hp. pose proof (fst_or_in head l2.*1) as Hn.
  assert (x <> lst_or head l1.*1) as Hxp by set_solver.
  assert (x <> fst_or head l2.*1) as Hxn by set_solver.
  destruct (add_run h x (lst_or head l1.*1) (fst_or head l2.*1))
    as (h' & Hrun & Hnx & Hpv & Hel); [..|done|].
  1: by apply fmap_Some in He as (y & ? & _); eexists.
  1-2: apply (ring_live _ _ _ _ Hr); rewrite fmap_app; set_solver.
  exists h'. split; [done|]. split; [|done]. rewrite ring_halves in Hr |- *.
  destruct Hr as ((Hd1 & Hd2 & Hdj) & (Hl1 & Hl2) & Hc1 & Hc2).
  destruct (gap_sides _ _ _ Hd1 Hd2 Hdj) as [Hg1 Hg2]. split_and!.
  - done.
  - cbn. apply NoDup_cons. split; [|done]. clear -Hx2 Hxh. set_solver.
  - clear -Hx1 Hdj. cbn. set_solver.
  - eapply linked_end; [done|..|done].
    + split; [rewrite Hnx|rewrite Hpv]; by rewrite decide_True.
    + intros u Hu ?. rewrite Hnx, !decide_False; [done| |done]. intros ->. set_solver.
    + intros u Hu. rewrite Hpv, !decide_False; [done|..]; by intros ->.
  - cbn. split; [split; [rewrite Hnx|rewrite Hpv]; by rewrite decide_True|].
    eapply linked_start; [done|..|done].
    + split; [rewrite Hnx|rewrite Hpv]; rewrite decide_False, decide_True by done; done.
    + intros u Hu. rewrite Hnx, !decide_False; [done|..]; by intros ->.
    + intros u Hu ?. rewrite Hpv, !decide_False; [done..|]. intros ->.
      clear -Hu Hx2 Hxh. set_solver.
  - by eapply contents_frame.
  - constructor; [by rewrite Hel|]. by eapply contents_frame.
Qed.

(** Take out the node [x]; the node itself keeps its links. *)
Lemma del_ring h head l1 l2 x e :
  ring h head (l1 ++ (x, e) :: l2) ->
  exists h', linked_list_del h x = Some h' /\ ring h' head (l1 ++ l2) /\
             (forall u, elem <$> h' !! u = elem <$> h !! u).
Proof.
  intros Hr. pose proof Hr as Hlive. rewrite ring_halves in Hr.
  destruct Hr as ((Hd1 & Hd2 & Hdj) & (Hl1 & Hl2) & Hc1 & [He Hc2]%Forall_cons).
  cbn in Hd2, Hl1, Hl2. apply NoDup_cons in Hd2 as [Hx2 Hd2].
  destruct Hl2 as [[_ Hpx] Hl2].
  assert (l1.*1 ## l2.*1) as Hdj' by (clear -Hdj; cbn in Hdj; set_solver).
  assert (x ∉ l1.*1) as Hx1 by (clear -Hdj; cbn in Hdj; set_solver).
  destruct (gap_sides _ _ _ Hd1 Hd2 Hdj') as [Hg1 Hg2].
  assert (next <$> h !! x = Some (fst_or head l2.*1)) as Hnx'.
  { destruct l2 as [|[b f] l2]; apply Hl2. }
  destruct (del_run h x (lst_or head l1.*1) (fst_or head l2.*1))
    as (h' & Hrun & Hnx & Hpv & Hel); [done|done|..].
  1-2: apply (ring_live _ _ _ _ Hlive); rewrite fmap_app; cbn.
  { pose proof (lst_or_in head l1.*1) as H. clear -H. set_solver. }
  { pose proof (fst_or_in head l2.*1) as H. clear -H. set_solver. }
  exists h'. split; [done|]. split; [|done]. rewrite ring_halves. split_and!; try done.
  - eapply linked_end; [done|..|done].
    + split; [rewrite Hnx|rewrite Hpv]; by rewrite decide_True.
    + intros u Hu ?. by rewrite Hnx, decide_False.
    + intros u Hu. rewrite Hpv, decide_False; [done|]. by intros ->.
  - eapply linked_start; [done|..|done].
    + split; [rewrite Hnx|rewrite Hpv]; by rewrite decide_True.
    + intros u Hu. rewrite Hnx, decide_False; [done|]. by intros ->.
    + intros u Hu ?. by rewrite Hpv, decide_False.
  - by eapply contents_frame.
  - by eapply contents_frame.
Qed.

Lemma linked_list_add_ring h head l x e :
  ring h head l -> x ∉ head :: l.*1 -> elem <$> h !! x = Some e ->
  exists h', linked_list_add h head x = Some h' /\ ring h' head ((x, e) :: l) /\
             (forall u, elem <$> h' !! u = elem <$> h !! u).
Proof.
  intros Hr Hx He. destruct (add_ring h head [] l x e Hr Hx He) as (h' & Hrun & Hr').
  pose proof (ring_next _ _ _ Hr) as (n & Hn & En)%fmap_Some.
  exists h'. unfold linked_list_add, hrd. rewrite Hn. cbn. by rewrite <-En.
Qed.

Lemma linked_list_add_tail_ring h head l x e :
  ring h head l -> x ∉ head :: l.*1 -> elem <$> h !! x = Some e ->
  exists h', linked_list_add_tail h head x = Some h' /\ ring h' head (l ++ [(x, e)]) /\
             (forall u, elem <$> h' !! u = elem <$> h !! u).
Proof.
  intros Hr Hx He. destruct (add_ring h head l [] x e) as (h' & Hrun & Hr');
    [by rewrite app_nil_r..|done|].
  pose proof (ring_prev _ _ _ Hr) as (n & Hn & En)%fmap_Some.
  exists h'. unfold linked_list_add_tail, hrd. rewrite Hn. cbn. by rewrite <-En.
Qed.

(** The loop visits the nodes in order, with fuel for the nodes and the header. *)
Lemma for_each_linked {S} h list iter l (body : N -> S -> S) s :
  linked h iter l list -> list ∉ iter :: l ->
  for_each (length l + 2) h list iter body s = Some (foldl (flip body) s (iter :: l)).
Proof.
  revert iter s. induction l as [|b l IH]; intros iter s; cbn [linked length Nat.add].
  - intros [(n & Hn & En)%fmap_Some _] Hni. cbn.
    rewrite bool_decide_eq_false_2 by set_solver. unfold hrd. rewrite Hn. cbn.
    rewrite <-En. by rewrite bool_decide_eq_true_2.
  - intros [[(n & Hn & En)%fmap_Some _] Hl] Hni. cbn [for_each].
    rewrite bool_decide_eq_false_2 by set_solver. unfold hrd. rewrite Hn. cbn [mbind option_bind].
    rewrite <-En. change (foldl (flip body) s (iter :: b :: l))
      with (foldl (flip body) (body iter s) (b :: l)). apply IH; [done|set_solver].
Qed.

Lemma for_each_ring {S} h list l (body : N -> S -> S) s first :
  ring h list l -> linked_list_first_node h list = Some first ->
  for_each (length l + 1) h list first body s = Some (foldl (flip body) s l.*1).
Proof.
  intros Hr. pose proof (ring_next _ _ _ Hr) as (n & Hn & En)%fmap_Some.
  unfold linked_list_first_node, hrd. rewrite Hn. cbn. intros [= <-].
  destruct Hr as (Hd & Hl & _). destruct l as [|[a e] l].
  - cbn in *. rewrite <-En. by rewrite bool_decide_eq_true_2.
  - cbn in En. rewrite <-En. replace (length ((a, e) :: l) + 1) with (length l.*1 + 2)
      by (rewrite length_fmap; cbn; lia).
    apply for_each_linked; [apply Hl|]. by apply NoDup_cons in Hd as [? _].
Qed.

(** ** Taking nodes out in a loop *)

Lemma ring_delete h head l x : ring h head l -> x ∉ head :: l.*1 -> ring (delete x h) head l.
Proof.
  intros (Hd & Hl & Hc) Hx. split; [done|]. split.
  - eapply linked_frame; [| |exact Hl]; intros u Hu; rewrite lookup_delete_ne; [done| |done|]; set_solver.
  - rewrite Forall_forall in Hc |- *. intros [a e] Ha. rewrite lookup_delete_ne; [by apply (Hc (a, e))|].
    intros ->. apply Hx. right. apply list_elem_of_fmap. by exists (a, e).
Qed.

Lemma ring_next_mid h head l1 x e l2 :
  ring h head (l1 ++ (x, e) :: l2) -> next <$> h !! x = Some (fst_or head l2.*1).
Proof.
  rewrite ring_halves. intros (_ & (_ & Hl2) & _). destruct Hl2 as [_ Hl2].
  destruct l2 as [|[b f] l2]; apply Hl2.
Qed.

Lemma ring_mid_fresh h head l1 x e l2 :
  ring h head (l1 ++ (x, e) :: l2) -> x <> head /\ x ∉ head :: (l1 ++ l2).*1.
Proof.
  intros (Hd & _). rewrite fmap_app in *. cbn in Hd. apply NoDup_cons in Hd as [Hh Hd].
  rewrite <-Permutation_middle in Hd. apply NoDup_cons in Hd as [Hx _]. set_solver.
Qed.

Lemma purge_step h head l1 x e l2 victim :
  ring h head (l1 ++ (x, e) :: l2) ->
  exists h', purge victim x h = Some h' /\
    ring h' head ((l1 ++ if victim x then [] else [(x, e)]) ++ l2) /\
    forall u, h' !! u = None <-> h !! u = None \/ victim x = true /\ u = x.
Proof.
  intros Hr. unfold purge. destruct (victim x).
  - destruct (del_ring _ _ _ _ _ _ Hr) as (h1 & -> & Hr1 & He). exists (delete x h1). cbn [mbind option_bind].
    split; [done|]. rewrite app_nil_r. split; [apply ring_delete; [done|by eapply ring_mid_fresh]|].
    intros u. destruct (decide (u = x)) as [->|Hu]; [rewrite lookup_delete_eq; tauto|].
    rewrite lookup_delete_ne by done. rewrite <-!(fmap_None elem), He. naive_solver.
  - exists h. split; [done|]. rewrite <-app_assoc. split; [done|]. intros u. naive_solver.
Qed.

Lemma purge_loop head victim l2 : forall h l1 nxt,
  ring h head (l1 ++ l2) ->
  match l2 with [] => True | _ :: l2 => nxt = fst_or head l2.*1 end ->
  exists h', for_each_safe (length l2 + 1) h head (fst_or head l2.*1) nxt (purge victim) = Some h' /\
    ring h' head (l1 ++ filter (fun x => victim x.1 = false) l2) /\
    forall u, h' !! u = None <-> h !! u = None \/ victim u = true /\ u ∈ l2.*1.
Proof.
  induction l2 as [|[x e] l2 IH]; intros h l1 nxt Hr Hn; cbn [length Nat.add for_each_safe fst_or].
  { exists h. rewrite bool_decide_eq_true_2 by done. split_and!; [done..|]. intros u. cbn. set_solver. }
  destruct (ring_mid_fresh _ _ _ _ _ _ Hr) as [Hxh Hxf]. change (fst_or head ((x, e) :: l2).*1) with x.
  rewrite bool_decide_eq_false_2 by done.
  destruct (purge_step _ _ _ _ _ _ victim Hr) as (h1 & -> & Hr1 & Hlive). cbn [mbind option_bind]. subst nxt.
  assert (exists n, h1 !! fst_or head l2.*1 = Some n /\
    match l2 with [] => True | _ :: l2 => next n = fst_or head l2.*1 end) as (n & Hh & Hnn).
  { destruct l2 as [|[y f] l2].
    - destruct (ring_live _ _ _ head Hr1) as [n Hh]; [left|]. by exists n.
    - pose proof (ring_next_mid _ _ _ _ _ _ Hr1) as (n & Hh & En)%fmap_Some. by exists n. }
  unfold hrd. rewrite Hh. cbn [mbind option_bind].
  destruct (IH _ _ _ Hr1 Hnn) as (h' & Hrun & Hr' & Hl'). exists h'. split; [done|]. split.
  - rewrite filter_cons. rewrite <-app_assoc in Hr'. destruct (victim x) eqn:Hv; cbn in Hr' |- *.
    + by rewrite Hv in *.
    + by rewrite Hv in *.
  - intros u. rewrite Hl', Hlive. cbn. rewrite elem_of_cons. naive_solver.
Qed.

Lemma linked_list_purge_ring h head l victim :
  ring h head l ->
  exists h', linked_list_purge (length l + 1) h head victim = Some h' /\
    ring h' head (filter (fun x => victim x.1 = false) l) /\
    forall u, h' !! u = None <-> h !! u = None \/ victim u = true /\ u ∈ l.*1.
Proof.
  intros Hr. unfold linked_list_purge, hrd. pose proof (ring_next _ _ _ Hr) as (n & Hn & En)%fmap_Some.
  rewrite Hn. cbn [mbind option_bind]. rewrite <-En. fold (fst_or head l.*1).
  destruct (ring_live _ _ _ (fst_or head l.*1) Hr) as [m Hm]; [pose proof (fst_or_in head l.*1); set_solver|].
  rewrite Hm. cbn [mbind option_bind]. apply (purge_loop head victim l h [] (next m) Hr).
  destruct l as [|[x e] l]; [done|]. pose proof (ring_next_mid _ _ [] _ _ _ Hr) as Hx. cbn in Hm.
  rewrite Hm in Hx. by injection Hx.
Qed.

Lemma count_foldl (l : list N) i :
  (0 <= i)%Z -> (i + Z.of_nat (length l) < 2 ^ 64)%Z ->
  foldl (flip (fun _ i => wrap_u 64 (i + 1))) i l = (i + Z.of_nat (length l))%Z.
Proof.
  revert i. induction l as [|a l IH]; intros i Hi Hl; cbn [foldl length] in *; [lia|].
  unfold flip at 2. rewrite wrap_u_small by lia. rewrite IH; lia.
Qed.

(** ** Sequences of operations *)

Inductive ll_op :=
| LAdd (a : N)        (** linked_list_add *)
| LAddTail (a : N)    (** linked_list_add_tail *)
| LDel (a : N).       (** linked_list_del *)

Definition ll_call (head : N) (o : ll_op) (h : heap) : option heap :=
  match o with
  | LAdd a => linked_list_add h head a
  | LAddTail a => linked_list_add_tail h head a
  | LDel a => linked_list_del h a
  end.

(** The same on the sequence of queued nodes, with what each call requires: a node is
    queued once at a time and only queued nodes are taken out. *)
Definition seq_call (head : N) (contents : N -> N) (o : ll_op) (l : list (N * N))
    : option (list (N * N)) :=
  match o with
  | LAdd a => if decide (a ∈ head :: l.*1) then None else Some ((a, contents a) :: l)
  | LAddTail a => if decide (a ∈ head :: l.*1) then None else Some (l ++ [(a, contents a)])
  | LDel a => if decide (a ∈ l.*1) then Some (filter (fun p => p.1 <> a) l) else None
  end.

Fixpoint ll_run head os h : option heap :=
  match os with [] => Some h | o :: os => h ← ll_call head o h; ll_run head os h end.
Fixpoint seq_run head contents os l : option (list (N * N)) :=
  match os with
  | [] => Some l
  | o :: os => l ← seq_call head contents o l; seq_run head contents os l
  end.

(** The nodes of an intrusive list hold what their owners stored in them. *)
Definition holds (contents : N -> N) (nodes : list N) (h : heap) : Prop :=
  Forall (fun a => elem <$> h !! a = Some (contents a)) nodes.

Definition op_node (o : ll_op) : N := match o with LAdd a | LAddTail a | LDel a => a end.

Lemma filter_id {A} (P : A -> Prop) `{forall x, Decision (P x)} (l : list A) :
  (forall x, x ∈ l -> P x) -> filter P l = l.
Proof.
  induction l as [|x l IH]; intros Hl; [done|].
  rewrite filter_cons_True by (apply Hl; by left). f_equal. apply IH. set_solver.
Qed.

Lemma filter_out (l1 l2 : list (N * N)) x e :
  NoDup (l1 ++ (x, e) :: l2).*1 ->
  filter (fun p => p.1 <> x) (l1 ++ (x, e) :: l2) = l1 ++ l2.
Proof.
  rewrite fmap_app. cbn. rewrite NoDup_app, NoDup_cons. intros (_ & H1 & H2 & _).
  rewrite filter_app, filter_cons_False by (cbn; congruence).
  f_equal; apply filter_id; intros [b f] Hi; cbn; intros ->.
  - apply (H1 x); [by eapply elem_of_keys|]. by left.
  - apply H2. by eapply elem_of_keys.
Qed.

(** One operation: the ring follows the sequence; no node changes its contents. *)
Lemma ll_call_refines h head contents nodes o l l' :
  ring h head l -> holds contents nodes h -> op_node o ∈ nodes ->
  seq_call head contents o l = Some l' ->
  exists h', ll_call head o h = Some h' /\ ring h' head l' /\ holds contents nodes h'.
Proof.
  intros Hr Hh Ho. pose proof (proj1 (Forall_forall _ _) Hh _ Ho) as He.
  assert (forall h', (forall u, elem <$> h' !! u = elem <$> h !! u) ->
                     holds contents nodes h') as Hfr.
  { intros h' Hel. eapply Forall_impl; [exact Hh|]. intros a. by rewrite Hel. }
  destruct o as [a|a|a]; cbn in *; case_decide as Ha; try done; intros [= <-].
  - destruct (linked_list_add_ring h head l a (contents a)) as (h' & ? & ? & ?); eauto.
  - destruct (linked_list_add_tail_ring h head l a (contents a)) as (h' & ? & ? & ?); eauto.
  - apply list_elem_of_fmap in Ha as ([b e] & -> & (l1 & l2 & ->)%list_elem_of_split).
    destruct (del_ring h head l1 l2 b e Hr) as (h' & ? & ? & ?). exists h'.
    destruct Hr as ([_ Hd]%NoDup_cons & _). rewrite filter_out by done. auto.
Qed.

Lemma ll_run_refines head contents nodes os h l l' :
  ring h head l -> holds contents nodes h -> Forall (fun o => op_node o ∈ nodes) os ->
  seq_run head contents os l = Some l' ->
  exists h', ll_run head os h = Some h' /\ ring h' head l'.
Proof.
  revert h l. induction os as [|o os IH]; intros h l Hr Hh; cbn; [naive_solver|].
  intros [Ho Hos]%Forall_cons (l1 & Hl1 & Hrun)%bind_Some_inv.
  destruct (ll_call_refines _ _ _ _ _ _ _ Hr Hh Ho Hl1) as (h1 & -> & Hr1 & Hh1). cbn. eauto.
Qed.

Lemma ring_observed h head l :
  ring h head l -> (Z.of_nat (length l) < 2 ^ 64)%Z ->
  linked_list_empty h head = Some (bool_decide (l = [])) /\
  linked_list_first_node h head = Some (default head (l.*1 !! 0)) /\
  linked_list_len (length l + 1) h head = Some (Z.of_nat (length l)).
Proof.
  intros Hr Hlen. pose proof (ring_next _ _ _ Hr) as (n & Hn & En)%fmap_Some.
  assert (linked_list_first_node h head = Some (default head (l.*1 !! 0))) as Hf.
  { unfold linked_list_first_node, hrd. rewrite Hn. cbn. by rewrite En. }
  split_and!; [|done|].
  - unfold linked_list_empty, hrd. rewrite Hn. cbn. rewrite <-En. f_equal.
    apply bool_decide_ext. destruct Hr as ([Hd _]%NoDup_cons & _).
    destruct l as [|[a e] l]; cbn in *; [done|]. split; [|done]. set_solver.
  - unfold linked_list_len, hrd. rewrite Hn. cbn [mbind option_bind]. rewrite <-En.
    rewrite (for_each_ring _ _ _ _ _ _ Hr Hf), count_foldl by (rewrite ?length_fmap; lia).
    by rewrite length_fmap.
Qed.

Lemma ring_ends h head l a e :
  ring h head l -> (l !! 0 = Some (a, e) -> linked_list_first_elem h head = Some e) /\
  (last l = Some (a, e) -> linked_list_last_elem h head = Some e).
Proof.
  intros Hr. pose proof (ring_next _ _ _ Hr) as (n & Hn & En)%fmap_Some.
  pose proof (ring_prev _ _ _ Hr) as (n' & Hn' & Ep)%fmap_Some. simplify_eq.
  destruct Hr as (_ & _ & Hc). rewrite Forall_forall in Hc.
  unfold linked_list_first_elem, linked_list_last_elem, hrd. rewrite Hn. cbn. split; intros Hl.
  - rewrite list_lookup_fmap, Hl in En. cbn in En. rewrite <-En.
    apply list_elem_of_lookup_2, Hc, fmap_Some in Hl as (m & -> & ->). done.
  - rewrite fmap_last, Hl in Ep. cbn in Ep. rewrite <-Ep.
    apply last_Some_elem_of, Hc, fmap_Some in Hl as (m & -> & ->). done.
Qed.

(** C37: The intrusive list is a sequence.  Whatever nodes are added at the front, added
    at the back and taken out of a freshly initialised list, as long as a node is
    queued at most once at a time and only queued nodes are taken out, no call goes
    through a bad pointer, and afterwards emptiness, the first node, the length, the
    contents at the two ends and the order in which a loop visits the nodes are those
    of the sequence; and a loop that takes out and frees some of the nodes it visits
    ([linked_list_for_each_safe]) goes through no freed node and leaves the list with
    exactly the others. *)
Theorem linked_list_refines_sequence h0 head contents nodes os l :
  is_Some (h0 !! head) -> head ∉ nodes -> holds contents nodes h0 ->
  Forall (fun o => op_node o ∈ nodes) os ->
  seq_run head contents os [] = Some l -> (Z.of_nat (length l) < 2 ^ 64)%Z ->
  exists h1 h, linked_list_init h0 head = Some h1 /\ ll_run head os h1 = Some h /\
    (linked_list_empty h head = Some (bool_decide (l = [])) /\
     linked_list_first_node h head = Some (default head (l.*1 !! 0)) /\
     linked_list_len (length l + 1) h head = Some (Z.of_nat (length l))) /\
    (forall a e, (l !! 0 = Some (a, e) -> linked_list_first_elem h head = Some e) /\
                 (last l = Some (a, e) -> linked_list_last_elem h head = Some e)) /\
    (forall S (body : N -> S -> S) s,
      for_each (length l + 1) h head (default head (l.*1 !! 0)) body s
      = Some (foldl (flip body) s l.*1)) /\
    (forall victim, exists h',
      linked_list_purge (length l + 1) h head victim = Some h' /\
      ring h' head (filter (fun x => victim x.1 = false) l) /\
      forall u, h' !! u = None <-> h !! u = None \/ victim u = true /\ u ∈ l.*1).
Proof.
  intros [x Hx] Hni Hh Hos Hrun Hlen.
  destruct (init_ring h0 head x Hx) as (h1 & Hinit & Hr1 & Hfr).
  assert (holds contents nodes h1) as Hh1.
  { apply Forall_forall. intros a Ha. rewrite Hfr by (by intros ->).
    by apply (proj1 (Forall_forall _ _) Hh). }
  destruct (ll_run_refines _ _ _ _ _ _ _ Hr1 Hh1 Hos Hrun) as (h & Hrun' & Hr).
  pose proof (ring_observed _ _ _ Hr Hlen) as Hobs.
  exists h1, h. split_and!; try done; try apply Hobs.
  - intros a e. by apply ring_ends.
  - intros S body s. eapply for_each_ring; [done|]. apply Hobs.
  - intros victim. by apply linked_list_purge_ring.
Qed.

(** Three nodes added at both ends, the middle one taken out. *)
Definition heap3 : heap :=
  list_to_map [(1, LL 0 0 0); (2, LL 20 0 0); (3, LL 30 0 0); (4, LL 40 0 0)]%N.

Lemma linked_list_refines_sequence_witness :
  exists h1 h, linked_list_init heap3 1 = Some h1 /\
    ll_run 1 [LAddTail 2; LAddTail 3; LAdd 4; LDel 2] h1 = Some h /\
    (linked_list_empty h 1 = Some false /\ linked_list_first_node h 1 = Some 4%N /\
     linked_list_len 3 h 1 = Some 2%Z) /\
    for_each 3 h 1 4 (fun n s => s ++ [n]) [] = Some [4; 3]%N /\
    exists h', linked_list_purge 3 h 1 (fun n => (n =? 4)%N) = Some h' /\ ring h' 1 [(3, 30)]%N.
Proof.
  destruct (linked_list_refines_sequence heap3 1%N (fun a => (a * 10)%N) [2; 3; 4]%N
    [LAddTail 2; LAddTail 3; LAdd 4; LDel 2]%N [(4, 40); (3, 30)]%N)
    as (h1 & h & H1 & H2 & H3 & _ & H5 & H6).
  - vm_compute. eauto.
  - set_solver.
  - repeat constructor.
  - repeat constructor; set_solver.
  - reflexivity.
  - cbn. lia.
  - exists h1, h. split; [exact H1|]. split; [exact H2|]. split; [exact H3|]. split.
    + exact (H5 (list N) (fun n s => s ++ [n]) []).
    + destruct (H6 (fun n => (n =? 4)%N)) as (h' & Hp & Hr & _). exists h'. split; [exact Hp|exact Hr].
Defined.

End LinkedList.
