(* ===== verification/Effects.v ===== *)
(** Stateful handlers: a state monad with undefined behaviour, and its weakest
    preconditions.

    A handler of the daemon is a computation [M W A] over a world [W]; [None] is
    undefined behaviour (a NULL dereference, a lock taken twice, a descriptor closed
    twice).  [wp m Q w] is total correctness: started in [w], [m] returns and its
    result and final world satisfy [Q]. *)
From S2P Require Import Prelude.

Definition M (W A : Type) : Type := W -> option (A * W).

#[export] Instance M_ret W : MRet (M W) := fun A a w => Some (a, w).
#[export] Instance M_bind W : MBind (M W) :=
  fun A B k m w => match m w with None => None | Some (a, w) => k a w end.

Section effects.
Context {W : Type}.

Definition gets {A} (f : W -> A) : M W A := fun w => Some (f w, w).
Definition modify (f : W -> W) : M W unit := fun w => Some (tt, f w).
(** Undefined behaviour. *)
Definition crash {A} : M W A := fun _ => None.
(** [if (b) m;] *)
Definition when (b : bool) (m : M W unit) : M W unit := if b then m else mret tt.
(** A pure function on a part of the state that may be undefined. *)
Definition lift {A} (r : option A) : M W A := fun w => r ≫= fun a => Some (a, w).

Definition wp {A} (m : M W A) (Q : A -> W -> Prop) (w : W) : Prop :=
  exists a w', m w = Some (a, w') /\ Q a w'.

Implicit Types (w : W).

Lemma wp_mret {A} (a : A) (Q : A -> W -> Prop) w : Q a w -> wp (mret a) Q w.
Proof. intros H. by exists a, w. Qed.

Lemma wp_mbind {A B} (m : M W A) (k : A -> M W B) (Q : B -> W -> Prop) w :
  wp m (fun a => wp (k a) Q) w -> wp (m ≫= k) Q w.
Proof.
  intros (a & w1 & Hm & b & w2 & Hk & HQ). exists b, w2. split; [|done].
  unfold mbind, M_bind. by rewrite Hm.
Qed.

Lemma wp_bind_inv {A B} (m : M W A) (k : A -> M W B) (Q : B -> W -> Prop) w :
  wp (m ≫= k) Q w -> wp m (fun a => wp (k a) Q) w.
Proof.
  intros (b & w2 & Hm & HQ). unfold mbind, M_bind in Hm.
  destruct (m w) as [[a w1]|] eqn:E; [|done]. exists a, w1. split; [done|]. by exists b, w2.
Qed.

Lemma wp_conseq {A} (m : M W A) (Q Q' : A -> W -> Prop) w :
  wp m Q w -> (forall a w', Q a w' -> Q' a w') -> wp m Q' w.
Proof. intros (a & w' & ? & ?) HQ. exists a, w'. eauto. Qed.

Lemma wp_and {A} (m : M W A) (Q Q' : A -> W -> Prop) w :
  wp m Q w -> wp m Q' w -> wp m (fun a w' => Q a w' /\ Q' a w') w.
Proof. intros (a & w' & Hm & ?) (b & w'' & Hm' & ?). simplify_eq. exists a, w'. auto. Qed.

Lemma wp_gets {A} (f : W -> A) (Q : A -> W -> Prop) w : Q (f w) w -> wp (gets f) Q w.
Proof. intros H. by exists (f w), w. Qed.

Lemma wp_modify (f : W -> W) (Q : unit -> W -> Prop) w : Q tt (f w) -> wp (modify f) Q w.
Proof. intros H. by exists tt, (f w). Qed.

Lemma wp_lift {A} (r : option A) (Q : A -> W -> Prop) w a :
  r = Some a -> Q a w -> wp (lift r) Q w.
Proof. intros -> H. by exists a, w. Qed.

Lemma wp_when b (m : M W unit) (Q : unit -> W -> Prop) w :
  (b = true -> wp m Q w) -> (b = false -> Q tt w) -> wp (when b m) Q w.
Proof. destruct b; intros H1 H2; [by apply H1|]. apply wp_mret. auto. Qed.

Lemma wp_if {A} (b : bool) (m1 m2 : M W A) (Q : A -> W -> Prop) w :
  (b = true -> wp m1 Q w) -> (b = false -> wp m2 Q w) -> wp (if b then m1 else m2) Q w.
Proof. destruct b; auto. Qed.

Lemma bind_run {A B} (m : M W A) (k : A -> M W B) w a w1 :
  m w = Some (a, w1) -> (m ≫= k) w = k a w1.
Proof. intros Hm. unfold mbind, M_bind. by rewrite Hm. Qed.

(** A computation that is known to run. *)
Lemma wp_run {A} (m : M W A) (Q : A -> W -> Prop) w a w' :
  wp m Q w -> m w = Some (a, w') -> Q a w'.
Proof. intros (? & ? & ? & ?) ?. by simplify_eq. Qed.
End effects.

(** One step of symbolic execution.  Calls with a specification of their own are
    left to the caller. *)
Ltac wp_step :=
  lazymatch goal with
  | |- wp (mbind _ _) _ _ => apply wp_mbind
  | |- wp (mret _) _ _ => apply wp_mret
  | |- wp (gets _) _ _ => apply wp_gets
  | |- wp (modify _) _ _ => apply wp_modify
  | |- wp (when _ _) _ _ => apply wp_when; intros ?
  | |- wp (if _ then _ else _) _ _ => apply wp_if; intros ?
  end.
