(* ===== verification/Service.v ===== *)
(** The handlers that start, stop, kill, pause, restart and delete a container:
    src/src/daemon/modules/service/service_container.c, with the functions of
    container_unix.c, container_events_handler.c, restartmanager.c, execution.c and
    execution_extend.c they are composed with.

    A handler runs over a [world]: one container, the restart managers (a heap, since
    a restart thread can hold a manager the container has already replaced), the
    store of containers and the volume store, the lock of the container, the exit
    fifos this thread has open, and the trace of the calls made so far, latest
    first.

    The environment [env] answers every call that leaves this code (the runtime, the
    image module, the file system, plugins) and, in [e_other], acts for the other
    threads: whenever a call is made, and in particular while the container lock is
    waited for or a condition wait has released it, the rest of the daemon may change
    the world.  What it may change is a hypothesis of the theorems ([Rely] in
    ServiceInv). *)
From Stdlib Require Import Ascii.
From S2P Require Import Prelude Heap KeyOrders MapIface ContainerState RestartManager StrUtils ContainersStore Volume Effects.

Open Scope Z_scope.

(** ** Data *)

(** [host_config], the fields used here. *)
Record host_config := HostConfig {
  auto_remove : bool;
  auto_remove_bak : bool;
  system_container : bool;
  external_rootfs : bool;  (** whether the path is set *)
  user_remap : bool;       (** whether it is set *)
  host_channel : bool;     (** whether it is set *)
  restart_policy : option host_config_restart_policy
}.
Definition put_auto_remove b hc :=
  HostConfig b (auto_remove_bak hc) (system_container hc) (external_rootfs hc) (user_remap hc)
    (host_channel hc) (restart_policy hc).

(** [container_config_v2_common_config_mount_points_element] *)
Record mount_point := MountPoint {
  mp_type : option string; mp_source : option string; mp_name : option cstr; mp_named : bool
}.

(** [container_t] *)
Record container_t := Container {
  ct_addr : N;                             (** where the object lives *)
  ct_id : cstr;                            (** common_config->id *)
  ct_name : cstr;                          (** common_config->name *)
  ct_image_type : string;
  ct_runtime : string;
  ct_stop_signal : Z;                      (** [util_sig_parse] of the configured signal *)
  ct_mounts : list mount_point;
  ct_state : option container_state;
  ct_hostconfig : option host_config;
  ct_rm : N;                               (** the restart manager, or [NULL] *)
  ct_rm_anonymous_volumes : bool
}.
Definition put_ct_state s c :=
  Container (ct_addr c) (ct_id c) (ct_name c) (ct_image_type c) (ct_runtime c) (ct_stop_signal c)
    (ct_mounts c) s (ct_hostconfig c) (ct_rm c) (ct_rm_anonymous_volumes c).
Definition put_ct_hostconfig h c :=
  Container (ct_addr c) (ct_id c) (ct_name c) (ct_image_type c) (ct_runtime c) (ct_stop_signal c)
    (ct_mounts c) (ct_state c) h (ct_rm c) (ct_rm_anonymous_volumes c).
Definition put_ct_rm p c :=
  Container (ct_addr c) (ct_id c) (ct_name c) (ct_image_type c) (ct_runtime c) (ct_stop_signal c)
    (ct_mounts c) (ct_state c) (ct_hostconfig c) p (ct_rm_anonymous_volumes c).
Definition put_ct_rm_anonymous b c :=
  Container (ct_addr c) (ct_id c) (ct_name c) (ct_image_type c) (ct_runtime c) (ct_stop_signal c)
    (ct_mounts c) (ct_state c) (ct_hostconfig c) (ct_rm c) b.

(** The calls that leave this code; 0 is success unless said otherwise. *)
Inductive call :=
| Lock                        (** wait for the container lock *)
| InGc                        (** container_is_in_gc_progress; non-zero is true *)
| ToDisk                      (** container_state_to_disk *)
| BroadcastStop | BroadcastRm (** pthread_cond_broadcast *)
| WaitStop (timeout : Z)      (** wait on wait_stop_con, the lock released meanwhile *)
| WaitCancel (timeout : Z)    (** wait on wait_cancel_con of a manager *)
| PreStart | PostStop | PostRemove                       (** plugin events *)
| InitHealth | UpdateHealth | StopHealth                 (** health check module *)
| FormatPath                  (** snprintf into a buffer of PATH_MAX; non-zero: too long *)
| MountDevTmpfs | UmountDevTmpfs | ChmodBundle | MountHostChannel | UmountHostChannel
| LogConfig | MkdirState | DupPidfile | CreateFifo
| OpenFifo                    (** the descriptor, or a negative number *)
| CloseFd (fd : Z)
| LoadOci | WriteEnv | CreateMtab | RenewOci | VerifySettings | SaveOci
| MountRootfs | UmountRootfs | RemoveRootfs
| Lstat (path : string)
| RtCreate
| RtStart (s : option container_state)   (** runtime_start, noting the state it finds *)
| RtClean (pid : Z) | RtKill (pid : Z) (signal stop_signal : Z)
| RtResume | RtPause | RtRestart | RtRm
| AddExitMonitor (fd : Z) (pid : Z)   (** closes the descriptor when it fails *)
| SendEvent                   (** isulad_monitor_send_container_event *)
| ProcAlive (pid : Z)         (** util_process_alive; non-zero is true *)
| Kill (pid signal : Z)
| RmStateDir | UmountShm | CleanupMounts
| SpawnRestart (timeout code : Z)     (** container_restart_in_thread *)
| StoreLock | StoreUnlock | StoreIter (** locking and iterating the stores *)
| VolIter | VolNames
| RtStatus                    (** runtime_status; the status is then in [e_status] *)
| ReadPid (pid : Z)           (** util_read_pid_ppid_info *)
| PostGc (pid : Z)            (** post_stopped_container_to_gc *)
| RestoreSupervisor           (** restore_supervisor *)
| LxcNew | LxcDefined | LxcRunning | LxcRestore.  (** liblxc; the last three are booleans *)

Definition SIGKILL : Z := 9.
Definition SIGTERM : Z := 15.
Definition KATA_RUNTIME : string := "kata-runtime".
Definition IMAGE_TYPE_EMBEDDED : string := "embedded".
Definition MOUNT_TYPE_VOLUME : string := "volume".
Definition VOLUME_ERR_NOT_EXIST : Z := -2.
Definition RUNTIME_NOT_IMPLEMENT_RESET : Z := -2.

(** ** utils.c: the exit code an error message stands for *)

Definition lower_eqb (a b : ascii) : bool := bool_decide (tolower a = tolower b).
Fixpoint prefix_ci (needle hay : list ascii) : bool :=
  match needle, hay with
  | [], _ => true
  | _ :: _, [] => false
  | a :: needle, b :: hay => lower_eqb a b && prefix_ci needle hay
  end.
Fixpoint strcasestr (hay needle : list ascii) : bool :=
  prefix_ci needle hay || match hay with [] => false | _ :: hay => strcasestr hay needle end.

Definition util_contain_errmsg (errmsg : option string) (exit_code : Z) : Z :=
  match errmsg with
  | None => exit_code
  | Some e =>
      let has := fun s => strcasestr (bs e) (bs s) in
      if has "executable file not found" || has "no such file or directory"
         || has "system cannot find the file specified"
      then 127
      else if has "permission denied" then 126
      else if has "not a directory" then 127
      else exit_code
  end.

Section service.
Context {MC MN : Type} {opsC : MapOps cstr N MC} {opsN : MapOps cstr cstr MN}.
Context {D MD MV MR : Type} {opsD : MapOps cstr (volume_driver D) MD}
  {opsV : MapOps cstr loc MV} {opsR : MapOps cstr bool MR}.

Record world := World {
  w_cont : container_t;
  w_rms : gmap N restart_manager_t;
  w_store : store MC MN;
  w_vols : volume_store D MD MV MR;
  w_locked : bool;                      (** this thread holds the container lock *)
  w_fds : list Z;                       (** the exit fifos this thread has open *)
  w_trace : list call
}.

Record env := Env {
  e_ans : list call -> call -> Z;
  e_now : list call -> string;                (** util_get_now_time_buffer *)
  e_since : list call -> Z;                   (** util_time_seconds_since *)
  e_pid : list call -> pid_ppid_info_t;       (** what runtime_start or /proc reports *)
  e_status : list call -> Z;                  (** what runtime_status reports *)
  e_errmsg : list call -> option string;      (** g_isulad_errmsg *)
  e_rm : list call -> rm_env;                 (** allocations of restart_manager_new *)
  e_fresh : gmap N restart_manager_t -> N;    (** the address of a new manager *)
  e_other : call -> world -> world            (** the other threads *)
}.

Definition put_cont c w := World c (w_rms w) (w_store w) (w_vols w) (w_locked w) (w_fds w) (w_trace w).
Definition put_rms h w := World (w_cont w) h (w_store w) (w_vols w) (w_locked w) (w_fds w) (w_trace w).
Definition put_store s w := World (w_cont w) (w_rms w) s (w_vols w) (w_locked w) (w_fds w) (w_trace w).
Definition put_vols v w := World (w_cont w) (w_rms w) (w_store w) v (w_locked w) (w_fds w) (w_trace w).
Definition put_locked b w := World (w_cont w) (w_rms w) (w_store w) (w_vols w) b (w_fds w) (w_trace w).
Definition put_fds l w := World (w_cont w) (w_rms w) (w_store w) (w_vols w) (w_locked w) l (w_trace w).
Definition put_trace t w := World (w_cont w) (w_rms w) (w_store w) (w_vols w) (w_locked w) (w_fds w) t.

Variable E : env.
Abbreviation H A := (M world A) (only parsing).

(** ** Calls and locks *)

(** Make a call: it enters the trace, the other threads get to run, the answer
    comes back. *)
Definition ext (c : call) : H Z := fun w =>
  Some (e_ans E (w_trace w) c, e_other E c (put_trace (c :: w_trace w) w)).
Definition ext_ (c : call) : H unit := _ ← ext c; mret tt.
(** A call that reports success. *)
Definition ext_ok (c : call) : H bool := z ← ext c; mret (z =? 0).

(** The lock is not recursive. *)
Definition container_lock : H unit :=
  ext_ Lock;;
  held ← gets w_locked;
  if held : bool then crash else modify (put_locked true).
Definition container_unlock : H unit :=
  held ← gets w_locked;
  if held : bool then modify (put_locked false) else crash.

Definition get_state : H (option container_state) := gets (fun w => ct_state (w_cont w)).
Definition upd_state (f : option container_state -> option container_state) : H unit :=
  modify (fun w => put_cont (put_ct_state (f (ct_state (w_cont w))) (w_cont w)) w).
Definition st_is (f : option container_state -> bool) : H bool := s ← get_state; mret (f s).

(** container_state_set_error dereferences the state. *)
Definition set_error : H unit :=
  s ← get_state;
  s ← lift s;
  err ← gets (fun w => e_errmsg E (w_trace w));
  upd_state (fun _ => Some (container_state_set_error err s)).
Definition set_stopped (code : Z) : H unit :=
  now ← gets (fun w => e_now E (w_trace w)); upd_state (container_state_set_stopped now code).

(** [hostconfig->field], which is undefined on NULL. *)
Definition get_hostconfig : H host_config :=
  hc ← gets (fun w => ct_hostconfig (w_cont w)); lift hc.
(** [hostconfig != NULL && hostconfig->auto_remove] *)
Definition is_auto_remove : H bool :=
  gets (fun w => match ct_hostconfig (w_cont w) with Some hc => auto_remove hc | None => false end).

(** ** Restart managers of the container (container_unix.c) *)

(** The container with its manager, as the functions of RestartManager take it.  A
    missing manager is made from [hostconfig->restart_policy]. *)
Definition rm_view (w : world) : option rm_container :=
  let c := w_cont w in
  if decide (ct_rm c = NULL)
  then hc ← ct_hostconfig c; Some (RmContainer None (restart_policy hc) (ct_state c))
  else rm ← w_rms w !! ct_rm c;
       Some (RmContainer (Some rm) (ct_hostconfig c ≫= restart_policy) (ct_state c)).
Definition rm_put (c : rm_container) (w : world) : world :=
  match c_rm c with
  | None => put_cont (put_ct_rm NULL (w_cont w)) w
  | Some rm =>
      let p := if decide (ct_rm (w_cont w) = NULL) then e_fresh E (w_rms w)
               else ct_rm (w_cont w) in
      put_rms (<[p := rm]> (w_rms w)) (put_cont (put_ct_rm p (w_cont w)) w)
  end.
Definition with_rm {A} (f : rm_env -> rm_container -> option (A * rm_container)) : H A := fun w =>
  c ← rm_view w; r ← f (e_rm E (w_trace w)) c; Some (r.1, rm_put r.2 w).

Definition exit_on_next : H Z := with_rm container_exit_on_next.
(** The manager with one more reference, or NULL. *)
Definition get_rm : H N :=
  found ← with_rm get_restart_manager;
  if found : bool then gets (fun w => ct_rm (w_cont w)) else mret NULL.
(** Run a function of RestartManager on the manager at [p]. *)
Definition on_rm {A} (p : N) (f : restart_manager_t -> option (A * restart_manager_t)) : H A :=
  rms ← gets w_rms;
  rm ← lift (rms !! p);
  r ← lift (f rm);
  modify (put_rms (<[p := r.2]> rms));;
  mret r.1.
Definition unref_at (p : N) : H unit :=
  on_rm p (fun rm => rm ← restart_manager_unref rm; Some (tt, rm)).

Definition container_reset_restart_manager (reset_count : bool) : H bool :=
  p ← gets (fun w => ct_rm (w_cont w));
  ok ← (if decide (p = NULL) then (mret true : H bool)
        else z ← on_rm p restart_manager_cancel;
             if negb (z =? 0) then mret false else unref_at p;; mret true);
  if negb ok then mret false
  else
    when reset_count (upd_state container_state_reset_restart_count);;
    modify (fun w => put_cont (put_ct_rm NULL (w_cont w)) w);;
    mret true.

(** [restart_manager_wait_cancel]: 0 when the manager is or gets cancelled. *)
Definition rm_wait_cancel (p : N) (timeout : Z) : H Z :=
  if decide (p = NULL) then mret (-1)
  else
    rms ← gets w_rms;
    rm ← lift (rms !! p);
    if negb (rm_live rm) then crash
    else if canceled rm then mret 0
    else ext (WaitCancel timeout).

(** ** Waiting for the end of the container (container_unix.c) *)

Definition container_wait_stop (timeout : Z) : H Z :=
  running ← st_is container_is_running;
  if negb running then mret 0 else ext (WaitStop timeout).

Definition container_wait_stop_locking (timeout : Z) : H Z :=
  container_lock;;
  ret ← container_wait_stop timeout;
  container_unlock;;
  mret ret.

(** ** Killing *)

Definition container_stop_signal (c : container_t) : Z :=
  if ct_stop_signal c <=? 0 then SIGTERM else ct_stop_signal c.

Definition send_signal_to_process (pid stop_signal signal : Z) : H Z :=
  alive ← ext (ProcAlive pid);
  if alive =? 0 then mret (if (signal =? stop_signal) || (signal =? SIGKILL) then 0 else -1)
  else ret ← ext (Kill pid signal); mret (if ret <? 0 then -1 else 0).

(** The annotation [signal=%u] always fits its buffer. *)
Definition kill_with_signal (signal : Z) : H Z :=
  stop_signal ← gets (fun w => container_stop_signal (w_cont w));
  need_unpause ← st_is container_is_paused;
  z ← exit_on_next;
  if negb (z =? 0) then mret (-1)
  else
    upd_state container_state_set_has_been_manual_stopped;;
    ext_ ToDisk;;
    running ← st_is container_is_running;
    restarting ← st_is container_is_restarting;
    if negb running then mret 0
    else if restarting : bool then mret 0
    else
      s ← get_state;
      s ← lift s;
      ret ← ext (RtKill (pid s) signal stop_signal);
      if (signal =? SIGKILL) && need_unpause then
        z ← ext RtResume;
        if negb (z =? 0) then mret (-1) else ext_ SendEvent;; mret ret
      else ext_ SendEvent;; mret ret.

Definition force_kill : H Z :=
  stop_signal ← gets (fun w => container_stop_signal (w_cont w));
  _ ← kill_with_signal SIGKILL;
  ret ← container_wait_stop 90;
  if ret =? 0 then mret 0
  else
    s ← get_state;
    s ← lift s;
    ret ← send_signal_to_process (p_pid s) stop_signal SIGKILL;
    if negb (ret =? 0) then mret ret else container_wait_stop (-1).

(** [stop_container] *)
Definition stop_or_kill (timeout : Z) (force : bool) : H Z :=
  if negb force then
    stop_signal ← gets (fun w => container_stop_signal (w_cont w));
    _ ← kill_with_signal stop_signal;
    ret ← container_wait_stop timeout;
    if negb (ret =? 0) then force_kill else mret 0
  else force_kill.

Definition set_auto_remove (f : host_config -> bool) : H unit :=
  hc ← get_hostconfig;
  modify (fun w => put_cont (put_ct_hostconfig (Some (put_auto_remove (f hc) hc)) (w_cont w)) w).

Definition stop_container (timeout : Z) (force restart : bool) : H Z :=
  container_lock;;
  paused ← st_is container_is_paused;
  ret ← (if paused : bool then (mret (-1) : H Z)
         else when restart (set_auto_remove (fun _ => false));; stop_or_kill timeout force);
  when restart (set_auto_remove auto_remove_bak);;
  container_unlock;;
  mret ret.

Definition kill_container (signal : Z) : H Z :=
  container_lock;;
  running ← st_is container_is_running;
  ret ← (if negb running then (mret (-1) : H Z)
         else if (signal =? 0) || (signal =? SIGKILL) then force_kill
         else kill_with_signal signal);
  container_unlock;;
  mret (if ret =? 0 then 0 else -1).

(** ** Deleting *)

Definition set_container_to_removal : H Z :=
  s ← get_state;
  let '(already, s) := container_state_set_removal_in_progress s in
  upd_state (fun _ => s);;
  mret (if already : bool then -1 else 0).

Definition umount_dev_tmpfs_for_system_container : H Z :=
  hc ← gets (fun w => ct_hostconfig (w_cont w));
  match hc with
  | Some hc =>
      if system_container hc && external_rootfs hc then
        z ← ext FormatPath;
        if negb (z =? 0) then mret (-1) else ext_ UmountDevTmpfs;; mret 0
      else mret 0
  | None => mret 0
  end.

Definition do_clean_container (pid : Z) : H Z :=
  z ← ext LogConfig;
  if negb (z =? 0) then mret (-1)
  else
    z ← ext (RtClean pid);
    if negb (z =? 0) then mret (-1)
    else
      z ← ext UmountRootfs;
      if negb (z =? 0) then mret (-1)
      else
        z ← umount_dev_tmpfs_for_system_container;
        mret (if z <? 0 then -1 else 0).

(** The calls on the two stores, with the outcome of their locks and iterators. *)
Definition store_get (id : cstr) : H N :=
  l ← ext_ok StoreLock;
  i ← ext_ok StoreIter;
  st ← gets w_store;
  r ← lift (containers_store_get (LockEnv l true) i (Some id) st);
  modify (put_store r.2);;
  mret r.1.
Definition store_unref (cont : N) : H unit :=
  st ← gets w_store;
  st ← lift (container_unref cont st);
  modify (put_store st).
Definition store_remove (id : cstr) : H bool :=
  l ← ext_ok StoreLock;
  u ← ext_ok StoreUnlock;
  st ← gets w_store;
  r ← lift (containers_store_remove (LockEnv l u) (Some id) st);
  modify (put_store r.2);;
  mret r.1.
Definition name_index_remove (name : cstr) : H bool :=
  l ← ext_ok StoreLock;
  u ← ext_ok StoreUnlock;
  st ← gets w_store;
  let '(b, st) := container_name_index_remove (LockEnv l u) (Some name) st in
  modify (put_store st);;
  mret b.
Definition vol_del_ref (name id : cstr) : H Z :=
  vs ← gets w_vols;
  r ← lift (volume_del_ref (Some name) (Some id) vs);
  modify (put_vols r.2);;
  mret r.1.
Definition vol_remove (name : cstr) : H Z :=
  i ← ext_ok VolIter;
  a ← ext_ok VolNames;
  vs ← gets w_vols;
  r ← lift (volume_remove i a (Some name) vs);
  modify (put_vols r.2);;
  mret r.1.

(** The result of the loop is the variable [ret]. *)
Fixpoint release_volumes (mount_points : list mount_point) (id : cstr) (rm_anonymous : bool)
    (ret : Z) : H Z :=
  match mount_points with
  | [] => mret ret
  | mp :: mount_points =>
      match mp_name mp with
      | None => release_volumes mount_points id rm_anonymous ret
      | Some name =>
          z ← vol_del_ref name id;
          if negb (z =? 0) then release_volumes mount_points id rm_anonymous (-1)
          else if negb (mp_named mp) && rm_anonymous then
            ret ← vol_remove name;
            release_volumes mount_points id rm_anonymous
              (if negb (ret =? 0) && negb (ret =? VOLUME_ERR_NOT_EXIST) then -1 else ret)
          else release_volumes mount_points id rm_anonymous ret
      end
  end.

(** The part of [do_delete_container] after the check of the garbage collector, with
    the lock held. *)
Definition remove_resources (id : cstr) (rm_anonymous : bool) : H Z :=
  z ← ext FormatPath;
  if negb (z =? 0) then mret (-1)
  else
    z ← ext RmStateDir;
    if negb (z =? 0) then mret (-1)
    else
      z ← ext RemoveRootfs;
      if negb (z =? 0) then mret (-1)
      else
        ext_ UmountShm;;
        hc ← get_hostconfig;
        when (host_channel hc) (ext_ UmountHostChannel);;
        ext_ CleanupMounts;;
        z ← ext RtRm;
        if negb (z =? 0) then mret (-1)
        else
          mps ← gets (fun w => ct_mounts (w_cont w));
          release_volumes mps id rm_anonymous 0.

Definition deregister (id name : cstr) : H Z :=
  ext_ BroadcastRm;;
  removed ← store_remove id;
  if negb removed then mret (-1)
  else
    removed ← name_index_remove name;
    mret (if negb removed then -1 else 0).

(** [do_delete_container] once the container is known to be registered. *)
Definition delete_registered (id name : cstr) (rm_anonymous : bool) : H Z :=
  ext_ ToDisk;;
  gc ← ext InGc;
  if negb (gc =? 0) then mret (-1)
  else
    ret ← remove_resources id rm_anonymous;
    if negb (ret =? 0) then mret ret else deregister id name.

Definition do_delete_container : H Z :=
  container_lock;;
  id ← gets (fun w => ct_id (w_cont w));
  name ← gets (fun w => ct_name (w_cont w));
  anon ← gets (fun w => ct_rm_anonymous_volumes (w_cont w));
  auto ← is_auto_remove;
  tmp ← store_get id;
  ret ← (if decide (tmp = NULL) then (mret 0 : H Z)
         else store_unref tmp;; delete_registered id name (anon || auto));
  container_unlock;;
  mret ret.

Definition delete_container (force : bool) : H Z :=
  running ← st_is container_is_running;
  ret ← (if running : bool then
           if negb force then (mret (-1) : H Z)
           else ret ← stop_container 3 force false; mret (if ret =? 0 then 0 else -1)
         else mret 0);
  ret ← (if negb (ret =? 0) then (mret ret : H Z) else ext_ PostRemove;; do_delete_container);
  when (negb (ret =? 0)) (upd_state container_state_reset_removal_in_progress);;
  mret ret.

(** The request to delete, from the point where the container has been found
    ([container_delete_cb] of execution.c). *)
Definition delete_request (force volumes : bool) : H Z :=
  container_lock;;
  nret ← set_container_to_removal;
  container_unlock;;
  if negb (nret =? 0) then mret (-1)
  else
    modify (fun w => put_cont (put_ct_rm_anonymous volumes (w_cont w)) w);;
    ret ← delete_container force;
    mret (if ret =? 0 then 0 else -1).

(** Whether the container is still to be saved. *)
Definition save_after_auto_remove : H bool :=
  auto ← is_auto_remove;
  if auto : bool then
    nret ← set_container_to_removal;
    if negb (nret =? 0) then mret true
    else
      container_unlock;;
      nret ← delete_container true;
      container_lock;;
      mret (negb (nret =? 0))
  else mret true.

(** ** Starting *)

Definition mount_dev_tmpfs_for_system_container : H Z :=
  hc ← gets (fun w => ct_hostconfig (w_cont w));
  match hc with
  | None => mret 0
  | Some hc => if system_container hc && external_rootfs hc then ext MountDevTmpfs else mret 0
  end.

Definition prepare_user_remap_config : H Z :=
  hc ← gets (fun w => ct_hostconfig (w_cont w));
  match hc with
  | None => mret 0
  | Some hc =>
      z ← (if user_remap hc then ext ChmodBundle else mret 0);
      if negb (z =? 0) then mret (-1)
      else
        z ← (if host_channel hc then ext MountHostChannel else mret 0);
        mret (if negb (z =? 0) then -1 else 0)
  end.

(** [prepare_start_state_files]: the result and the descriptor; the sub-calls return
    NULL or a negative number on failure, here non-zero. *)
Definition prepare_start_state_files : H (Z * Z) :=
  z ← ext FormatPath;
  if negb (z =? 0) then mret (-1, -1)
  else
    z ← ext MkdirState;
    if z <? 0 then mret (-1, -1)
    else
      z ← ext FormatPath;
      if negb (z =? 0) then mret (-1, -1)
      else
        z ← ext DupPidfile;
        if negb (z =? 0) then mret (-1, -1)
        else
          z ← ext CreateFifo;
          if negb (z =? 0) then mret (-1, -1)
          else
            fd ← ext OpenFifo;
            if fd <? 0 then mret (-1, fd)
            else modify (fun w => put_fds (fd :: w_fds w) w);; mret (0, fd).

(** The descriptors after one of them is given up; closing a descriptor that is not
    open is an error of the program. *)
Fixpoint drop_fd (fd : Z) (fds : list Z) : option (list Z) :=
  match fds with
  | [] => None
  | x :: fds => if x =? fd then Some fds else fds ← drop_fd fd fds; Some (x :: fds)
  end.

Definition close_fd (fd : Z) : H unit :=
  fds ← gets w_fds;
  fds ← lift (drop_fd fd fds);
  modify (put_fds fds);;
  ext_ (CloseFd fd).

(** [do_post_start_on_success]: the supervisor takes the descriptor over, and closes
    it when it fails. *)
Definition do_post_start_on_success (fd : Z) (pid_info : pid_ppid_info_t) : H Z :=
  fds ← gets w_fds;
  fds ← lift (drop_fd fd fds);
  modify (put_fds fds);;
  z ← ext (AddExitMonitor fd (pi_pid pid_info));
  mret (if negb (z =? 0) then -1 else 0).

Definition valid_mount_point (mp : mount_point) : H Z :=
  match mp_type mp, mp_source mp with
  | Some ty, Some source =>
      if negb (String.eqb ty MOUNT_TYPE_VOLUME) then mret 0
      else z ← ext (Lstat source); mret (if negb (z =? 0) then -1 else 0)
  | _, _ => mret 0
  end.
Fixpoint verify_mounts (mount_points : list mount_point) : H Z :=
  match mount_points with
  | [] => mret 0
  | mp :: mount_points =>
      z ← valid_mount_point mp;
      if negb (z =? 0) then mret (-1) else verify_mounts mount_points
  end.

(** Where a failed step jumps to. *)
Inductive label := L_out | L_close_exit_fd | L_clean_resources.

(** [ret], the label and [pid_info]. *)
Definition outcome : Type := Z * label * pid_ppid_info_t.
Definition no_pid : pid_ppid_info_t := PidInfo 0 0 0 0.

(** [if (m) { ret = -1; goto l; }] before the rest. *)
Definition or_goto (m : H Z) (l : label) (k : H outcome) : H outcome :=
  z ← m; if negb (z =? 0) then mret (-1, l, no_pid) else k.

(** The steps between the opening of the fifo and the start of the runtime. *)
Definition start_steps : list (H Z) :=
  [ ext LoadOci; z ← ext WriteEnv; mret (if z <? 0 then -1 else 0);
    ext MountRootfs;
    (ty ← gets (fun w => ct_image_type (w_cont w));
     rt ← gets (fun w => ct_runtime (w_cont w));
     if negb (String.eqb IMAGE_TYPE_EMBEDDED ty) && negb (String.eqb KATA_RUNTIME rt)
     then ext CreateMtab else mret 0);
    (mps ← gets (fun w => ct_mounts (w_cont w)); verify_mounts mps);
    ext RenewOci; ext VerifySettings; ext SaveOci;
    (z ← ext PreStart; if negb (z =? 0) then ext_ PostStop;; mret (-1) else mret 0);
    ext RtCreate ].

Definition run_steps (steps : list (H Z)) (l : label) (k : H outcome) : H outcome :=
  foldr (fun m k => or_goto m l k) k steps.

(** The call of the runtime and what follows it. *)
Definition start_runtime (fd : Z) : H outcome :=
  s ← get_state;
  ret ← ext (RtStart s);
  pid_info ← gets (fun w => e_pid E (w_trace w));
  if ret =? 0 then
    z ← do_post_start_on_success fd pid_info;
    if negb (z =? 0) then mret (-1, L_clean_resources, pid_info) else mret (0, L_out, pid_info)
  else mret (ret, L_close_exit_fd, pid_info).

(** The steps before there is a descriptor. *)
Definition before_fifo (reset_rm : bool) : list (H Z) :=
  [ ext FormatPath;
    (z ← mount_dev_tmpfs_for_system_container; mret (if z <? 0 then -1 else 0));
    prepare_user_remap_config;
    (ok ← (if reset_rm then container_reset_restart_manager true else mret true);
     mret (if negb ok then -1 else 0));
    ext LogConfig ].

(** The body of [do_start_container] up to its labels; the descriptor is -1 until the
    fifo is open. *)
Definition start_body (reset_rm : bool) : H (outcome * Z) :=
  first ← run_steps (before_fifo reset_rm) L_out (mret (0, L_out, no_pid));
  if negb (first.1.1 =? 0) then mret (first, -1)
  else
    r ← prepare_start_state_files;
    if negb (r.1 =? 0) then mret (-1, L_out, no_pid, r.2)
    else res ← run_steps start_steps L_close_exit_fd (start_runtime r.2); mret (res, r.2).

Definition clean_resources_on_failure : H unit := ext_ (RtClean 0).

Definition do_start_container (reset_rm : bool) : H (Z * pid_ppid_info_t) :=
  r ← start_body reset_rm;
  let '(ret, l, pid_info, fd) := r in
  match l with
  | L_close_exit_fd => close_fd fd;; clean_resources_on_failure
  | L_clean_resources => clean_resources_on_failure
  | L_out => mret tt
  end;;
  when (negb (ret =? 0))
    (ext_ UmountRootfs;; _ ← umount_dev_tmpfs_for_system_container; mret tt);;
  mret (ret, pid_info).

(** The tail of [start_container] on failure, from [set_stopped]: whether the container
    is still to be saved. *)
Definition start_failed : H bool :=
  set_error;;
  err ← gets (fun w => e_errmsg E (w_trace w));
  set_stopped (util_contain_errmsg err 125);;
  ext_ BroadcastStop;;
  save_after_auto_remove.

Definition start_succeeded (pid_info : pid_ppid_info_t) : H unit :=
  now ← gets (fun w => e_now E (w_trace w));
  upd_state (container_state_set_running now (Some pid_info) true);;
  upd_state container_state_reset_has_been_manual_stopped;;
  ext_ InitHealth.

Definition save_container (ret : Z) : H Z :=
  z ← ext ToDisk; mret (if negb (z =? 0) then -1 else ret).

(** The guards of [start_container]: the early result, if any. *)
Definition start_guards (reset_rm : bool) : H (option Z) :=
  running ← st_is container_is_running;
  paused ← st_is container_is_paused;
  removal ← st_is container_is_removal_in_progress;
  dead ← st_is container_is_dead;
  if reset_rm && running then mret (Some 0)
  else if paused : bool then mret (Some (-1))
  else if (removal : bool) || dead then mret (Some (-1))
  else gc ← ext InGc; mret (if negb (gc =? 0) then Some (-1) else None).

Definition start_container (reset_rm : bool) : H Z :=
  container_lock;;
  early ← start_guards reset_rm;
  ret ← match early with
        | Some ret => (mret ret : H Z)
        | None =>
            r ← do_start_container reset_rm;
            if negb (r.1 =? 0) then
              save ← start_failed;
              if save : bool then save_container (-1) else mret (-1)
            else start_succeeded r.2;; save_container 0
        end;
  container_unlock;;
  mret ret.

(** ** Pausing, resuming and restarting (execution_extend.c, execution.c) *)

Definition do_pause_container : H Z :=
  container_lock;;
  running ← st_is container_is_running;
  paused ← st_is container_is_paused;
  restarting ← st_is container_is_restarting;
  ret ← (if negb running then (mret (-1) : H Z)
         else if paused : bool then mret (-1)
         else if restarting : bool then mret (-1)
         else
           ext_ StopHealth;;
           z ← ext RtPause;
           if negb (z =? 0) then ext_ UpdateHealth;; mret (-1)
           else upd_state container_state_set_paused;; save_container 0);
  container_unlock;;
  mret ret.

Definition do_resume_container : H Z :=
  container_lock;;
  running ← st_is container_is_running;
  paused ← st_is container_is_paused;
  ret ← (if negb running then (mret (-1) : H Z)
         else if negb paused then mret (-1)
         else
           z ← ext RtResume;
           if negb (z =? 0) then mret (-1)
           else upd_state container_state_reset_paused;; ext_ UpdateHealth;; save_container 0);
  container_unlock;;
  mret ret.

(** [restart_container] of execution.c; [ret] is still 0 when it refuses. *)
Definition restart_container : H Z :=
  container_lock;;
  removal ← st_is container_is_removal_in_progress;
  dead ← st_is container_is_dead;
  ret ← (if (removal : bool) || dead then (mret 0 : H Z)
         else
           now ← gets (fun w => e_now E (w_trace w));
           ret ← ext RtRestart;
           if ret =? RUNTIME_NOT_IMPLEMENT_RESET then mret ret
           else
             now' ← gets (fun w => e_now E (w_trace w));
             when (ret =? 0)
               (upd_state (container_restart_update_start_and_finish_time now' (Some now)));;
             save_container ret);
  container_unlock;;
  mret ret.

(** [container_state_to_disk_locking] *)
Definition to_disk_locking : H Z :=
  container_lock;; z ← ext ToDisk; container_unlock;; mret z.

(** Non-zero is ISULAD_ERR_EXEC. *)
Definition stop_and_start (timeout : Z) : H Z :=
  ret ← stop_container timeout false true;
  cc ← (if negb (ret =? 0) then set_error;; (mret 1 : H Z)
        else
          upd_state container_state_set_starting;;
          z ← to_disk_locking;
          if negb (z =? 0) then mret 1
          else
            running ← st_is container_is_running;
            if running : bool then mret 0
            else z ← start_container true; mret (if negb (z =? 0) then 1 else 0));
  upd_state container_state_reset_starting;;
  mret cc.

Definition do_restart_container (timeout : Z) : H Z :=
  ret ← restart_container;
  if ret =? -1 then set_error;; mret 1
  else if ret =? RUNTIME_NOT_IMPLEMENT_RESET then stop_and_start timeout
  else mret 0.

(** ** Exits (container_events_handler.c) *)

(** [struct isulad_events_format], the fields used. *)
Record isulad_events_format := Event {
  ev_stopped : bool;   (** type == EVENTS_TYPE_STOPPED1 *)
  ev_pid : Z; ev_exit_status : Z
}.

(** [restart_manager_should_restart], with the lookup of the container by its id. *)
Definition rm_should_restart (code : Z) (stopped : bool) (duration : Z) : H (bool * option Z) :=
  id ← gets (fun w => ct_id (w_cont w));
  tmp ← store_get id;
  if decide (tmp = NULL) then mret (false, None)
  else
    r ← with_rm (fun e c =>
          r ← restart_manager_should_restart e code stopped duration (Some c);
          c ← r.2; Some (r.1, c));
    store_unref tmp;;
    mret r.

(** The body of [container_state_changed] with the lock held: the result, and whether the
    container is to be removed. *)
Definition exited (ev : isulad_events_format) : H (Z * bool) :=
  stopped ← st_is container_state_get_has_been_manual_stopped;
  since ← gets (fun w => e_since E (w_trace w));
  r ← rm_should_restart (ev_exit_status ev) stopped since;
  (if r.1 : bool then
     upd_state container_state_increase_restart_count;;
     now ← gets (fun w => e_now E (w_trace w));
     upd_state (container_state_set_restarting now (wrap_s 32 (ev_exit_status ev)));;
     ext_ BroadcastStop;;
     ext_ (SpawnRestart (default 0 r.2) (wrap_s 32 (ev_exit_status ev)))
   else
     set_stopped (wrap_s 32 (ev_exit_status ev));;
     ext_ BroadcastStop;;
     ext_ PostStop);;
  auto ← is_auto_remove;
  let remove := negb r.1 && auto in
  ret ← (if remove then set_container_to_removal else mret 0);
  z ← ext ToDisk;
  mret (if negb (z =? 0) then (-1, false) else (ret, remove)).

Definition container_state_changed (ev : isulad_events_format) : H Z :=
  if negb (ev_stopped ev) then mret 0
  else
    container_lock;;
    running ← st_is container_is_running;
    s ← get_state;
    r ← (if negb running then (mret (0, false) : H (Z * bool))
         else if negb (container_state_get_pid s =? wrap_s 32 (ev_pid ev)) then mret (0, false)
         else exited ev);
    container_unlock;;
    if (r : Z * bool).2 then ret ← delete_container true; mret (if negb (ret =? 0) then -1 else ret)
    else mret r.1.

(** ** The restart thread (restartmanager.c) *)

(** [container_restart] after its container has been found. *)
Definition restart_set_stopped (exit_code : Z) : H unit :=
  container_lock;; set_stopped exit_code;; ext_ BroadcastStop;; container_unlock.

Definition restart_with (rm : N) (timeout exit_code : Z) : H unit :=
  ret ← rm_wait_cancel rm timeout;
  (if ret =? 0 then restart_set_stopped exit_code
   else
     z ← start_container false;
     restarting ← st_is container_is_restarting;
     when (negb (z =? 0) && restarting) (restart_set_stopped exit_code));;
  unref_at rm.

Definition container_restart (timeout exit_code : Z) : H unit :=
  gc ← ext InGc;
  if negb (gc =? 0) then restart_set_stopped exit_code
  else
    container_lock;;
    rm ← get_rm;
    container_unlock;;
    if decide (rm = NULL) then restart_set_stopped exit_code
    else restart_with rm timeout exit_code.

(** [clean_container_resource], from the point where the container has been found. *)
Definition clean_container_resource (pid : Z) : H Z :=
  container_lock;;
  ret ← do_clean_container pid;
  container_unlock;;
  mret (if negb (ret =? 0) then -1 else 0).

(** ** After garbage collection (containers_gc.c) *)

(** From the point where the container has been found. *)
Definition apply_restart_policy_after_gc : H unit :=
  container_lock;;
  running ← st_is container_is_running;
  (if running : bool then (mret tt : H unit)
   else
     s ← get_state;
     let exit_code := container_state_get_exitcode s in
     let stopped := container_state_get_has_been_manual_stopped s in
     since ← gets (fun w => e_since E (w_trace w));
     r ← rm_should_restart exit_code stopped since;
     when r.1
       (upd_state container_state_increase_restart_count;;
        now ← gets (fun w => e_now E (w_trace w));
        upd_state (container_state_set_restarting now (wrap_s 32 exit_code));;
        ext_ (SpawnRestart (default 0 r.2) (wrap_s 32 exit_code));;
        ext_ ToDisk));;
  container_unlock.

Definition apply_auto_remove_after_gc : H unit :=
  running ← st_is container_is_running;
  bak ← gets (fun w => match ct_hostconfig (w_cont w) with
                       | Some hc => auto_remove_bak hc | None => false end);
  when (negb running && bak)
    (_ ← set_container_to_removal; _ ← delete_container true; mret tt).

(** The state is changed without the container lock. *)
Definition do_runtime_resume_container : H Z :=
  z ← ext RtResume;
  if negb (z =? 0) then mret (-1)
  else upd_state container_state_reset_paused;; save_container 0.

(** ** When the daemon starts (restore.c) *)

Definition RUNTIME_CONTAINER_STATUS_RUNNING : Z := 3.
Definition RUNTIME_CONTAINER_STATUS_STOPPED : Z := 4.
Definition RUNTIME_CONTAINER_STATUS_PAUSED : Z := 5.

Definition is_same_process (s : container_state) (i : pid_ppid_info_t) : bool :=
  (pi_pid i =? pid s) && (pi_ppid i =? p_pid s) && (pi_start_time i =? start_time s)
  && (pi_pstart_time i =? p_start_time s).

Definition set_running (i : pid_ppid_info_t) (initial : bool) : H unit :=
  now ← gets (fun w => e_now E (w_trace w));
  upd_state (container_state_set_running now (Some i) initial).

Definition try_to_set_paused_container_pid (status : Container_Status) (i : pid_ppid_info_t) : H unit :=
  s ← get_state;
  s ← lift s;
  when (negb (bool_decide (status = CONTAINER_STATUS_PAUSED)) || negb (is_same_process s i))
    (set_running i false).

Definition try_to_set_container_running (status : Container_Status) (i : pid_ppid_info_t) : H unit :=
  s ← get_state;
  s ← lift s;
  when (negb (bool_decide (status = CONTAINER_STATUS_RUNNING)) || negb (is_same_process s i))
    (set_running i true).

Definition restore_stopped_container (status : Container_Status) : H unit :=
  when (negb (bool_decide (status = CONTAINER_STATUS_STOPPED))
        && negb (bool_decide (status = CONTAINER_STATUS_CREATED)))
    (s ← get_state;
     s ← lift s;
     alive ← ext (ProcAlive (pid s));
     ext_ (PostGc (if alive =? 0 then 0 else pid s));;
     set_stopped 255).

Definition lost_process : H unit := ext_ (PostGc 0);; set_stopped 255.

(** [pid] is what the runtime reported. *)
Definition restore_running_container (status : Container_Status) (pid : Z) : H unit :=
  nret ← ext (ReadPid pid);
  i ← gets (fun w => e_pid E (w_trace w));
  if nret =? 0 then
    try_to_set_container_running status i;; upd_state container_state_reset_has_been_manual_stopped
  else lost_process.

Definition restore_paused_container (status : Container_Status) (pid : Z) : H unit :=
  upd_state container_state_set_paused;;
  nret ← ext (ReadPid pid);
  i ← gets (fun w => e_pid E (w_trace w));
  if nret =? 0 then
    try_to_set_paused_container_pid status i;; upd_state container_state_reset_has_been_manual_stopped
  else lost_process.

Definition restore_state : H unit :=
  s ← get_state;
  let status := container_state_get_status s in
  _ ← exit_on_next;
  nret ← ext RtStatus;
  reported ← gets (fun w => e_status E (w_trace w));
  i ← gets (fun w => e_pid E (w_trace w));
  let real := if negb (nret =? 0) then RUNTIME_CONTAINER_STATUS_STOPPED else reported in
  (if real =? RUNTIME_CONTAINER_STATUS_STOPPED then restore_stopped_container status
   else if real =? RUNTIME_CONTAINER_STATUS_RUNNING then restore_running_container status (pi_pid i)
   else if real =? RUNTIME_CONTAINER_STATUS_PAUSED then restore_paused_container status (pi_pid i)
   else mret tt);;
  removal ← st_is container_is_removal_in_progress;
  when removal (upd_state container_state_reset_removal_in_progress);;
  ext_ ToDisk.

Definition restored_restart_container : H unit :=
  s ← get_state;
  since ← gets (fun w => e_since E (w_trace w));
  r ← rm_should_restart (container_state_get_exitcode s)
        (container_state_get_has_been_manual_stopped s) since;
  when r.1
    (upd_state container_state_increase_restart_count;;
     s ← get_state;
     ext_ (SpawnRestart (5 * Time_Second) (wrap_s 32 (container_state_get_exitcode s)))).

(** One turn of the loop of [handle_restored_container]. *)
Definition handle_restored : H unit :=
  container_lock;;
  _ ← container_reset_restart_manager false;
  gc ← ext InGc;
  (if negb (gc =? 0) then (mret tt : H unit)
   else
     running ← st_is container_is_running;
     if running : bool then
       z ← ext RestoreSupervisor;
       if negb (z =? 0) then set_stopped 255;; ext_ (PostGc 0) else ext_ InitHealth
     else
       bak ← gets (fun w => match ct_hostconfig (w_cont w) with
                            | Some hc => auto_remove_bak hc | None => false end);
       if bak : bool then
         _ ← set_container_to_removal;
         container_unlock;;
         _ ← delete_container true;
         container_lock
       else restored_restart_container);;
  container_unlock.

(** ** Restoring a checkpoint (checkpoint.c) *)

(** [checkpoint_restore] called with the id of the container; [path_fits] says whether the
    path of the checkpoint fits its buffer (see Checkpoint).  A container that is not found
    is dereferenced, the reference to one that is found is never given back, and the
    container lock is not taken. *)
Definition checkpoint_restore (path_fits : bool) : H Z :=
  id ← gets (fun w => ct_id (w_cont w));
  cont ← store_get id;
  if decide (cont = NULL) then crash
  else
  ext_ MountRootfs;;
  z ← ext LxcNew;
  if negb (z =? 0) then mret (-1)
  else
    defined ← ext LxcDefined;
    if defined =? 0 then mret (-1)
    else
      up ← ext LxcRunning;
      if negb (up =? 0) then mret (-1)
      else if negb path_fits then crash
      else
        res ← ext LxcRestore;
        if res =? 0 then mret (-1)
        else
          set_running no_pid true;;
          upd_state container_state_reset_has_been_manual_stopped;;
          ext_ InitHealth;;
          save_container 0.
End service.
Arguments world : clear implicits.
Arguments env : clear implicits.
