(* ===== verification/ServiceInv.v ===== *)
(** The handlers of Service never go wrong: whatever the environment answers and
    whatever the other threads do within their rights, a handler returns, releases the
    container lock and its descriptors, balances the references it takes, and leaves
    the container and the stores in a consistent state. *)
From S2P Require Import Prelude Heap RbSearch KeyOrders MapC MapIface ContainerState ContainerStateProps RestartManager RestartManagerProps ContainersStore ContainersStoreProps Volume VolumeProps Effects Service.

(** ** Consistent containers *)

Record cont_ok (c : container_t) : Prop := {
  ok_state : exists s, ct_state c = Some s /\ cs_inv s;
  ok_hostconfig : is_Some (ct_hostconfig c)
}.

(** What a thread that holds the container lock may count on.  Threads without the lock set
    the flag [starting] and the error in the callbacks and the health in the health check, a
    failed removal clears its flag and the garbage collector resumes a container.  Two
    places do more: the garbage collector also marks a container for removal
    (apply_auto_remove_after_gc, containers_gc.c:326) and [checkpoint_restore] sets it running.
    Theorems that need [quiet] suppose that neither happens meanwhile; that every handler
    returns in a consistent world does not depend on it. *)
Record quiet (s s' : container_state) : Prop := {
  q_pid : pid s' = pid s;
  q_p_pid : p_pid s' = p_pid s;
  q_running : running s' = running s;
  q_paused : paused s' = true -> paused s = true;
  q_restarting : restarting s' = restarting s;
  q_dead : dead s' = dead s;
  q_exit_code : exit_code s' = exit_code s;
  q_started : started_at s' = started_at s;
  q_finished : finished_at s' = finished_at s;
  q_restarts : restart_count s' = restart_count s;
  q_manual : has_been_manually_stopped s' = has_been_manually_stopped s;
  q_removal : removal_inprogress s' = true -> removal_inprogress s = true
}.

Lemma quiet_refl s : quiet s s.
Proof. by split. Qed.

Lemma quiet_trans s1 s2 s3 : quiet s1 s2 -> quiet s2 s3 -> quiet s1 s3.
Proof. intros [] []. split; try congruence; auto. Qed.

Lemma quiet_inv s s' : quiet s s' -> cs_inv s -> cs_inv s'.
Proof.
  intros [] [H1 H2 H3 [H4 H5]]. split; rewrite ?q_pid0, ?q_running0, ?q_restarting0, ?q_exit_code0;
    try done. split; congruence.
Qed.

(** The parts of a container that never change. *)
Definition same_id (c c' : container_t) : Prop :=
  ct_addr c' = ct_addr c /\ ct_id c' = ct_id c /\ ct_name c' = ct_name c /\
  ct_image_type c' = ct_image_type c /\ ct_runtime c' = ct_runtime c /\
  ct_stop_signal c' = ct_stop_signal c /\ ct_mounts c' = ct_mounts c.

#[export] Instance same_id_preorder : PreOrder same_id.
Proof.
  split; [by intros c|]. intros c1 c2 c3 (?&?&?&?&?&?&?) (?&?&?&?&?&?&?).
  repeat split; congruence.
Qed.

(** ** Restart managers *)

(** The references to the manager at [q]: the container's, those this thread holds
    ([own]) and those of the others. *)
Definition rm_refs (c : container_t) (own : list N) (others : N -> nat) (q : N) : nat :=
  (if decide (ct_rm c = q) then 1 else 0) + (occ q own + others q).

Record rms_ok (own : list N) (c : container_t) (rms : gmap N restart_manager_t)
    (others : N -> nat) : Prop := {
  rm_null : NULL ∉ own /\ others NULL = 0%nat /\ rms !! NULL = None;
  rm_few q : (Z.of_nat (others q) < 2 ^ 62)%Z;
  rm_exact q : q <> NULL -> rm_refs c own others q <> 0%nat ->
    exists rm, rms !! q = Some rm /\ rm_live rm = true /\
               refcnt rm = Z.of_nat (rm_refs c own others q)
}.

(** Few references of our own; the handlers hold at most one. *)
Definition few_own (own : list N) : Prop := (Z.of_nat (length own) < 2 ^ 32)%Z.

Section inv.
Context {MC MN : Type} {cmp : cstr -> cstr -> Z} `{!KeyOrder cmp}.
Context {opsC : MapOps cstr N MC} `{!MapLaws cmp opsC}.
Context {opsN : MapOps cstr cstr MN} `{!MapLaws cmp opsN}.
Context {D MD MV MR : Type} `{!DeviceInv D} {opsD : MapOps cstr (volume_driver D) MD} `{!MapLaws cmp opsD}.
Context {opsV : MapOps cstr loc MV} `{!MapLaws cmp opsV}.
Context {opsR : MapOps cstr bool MR} `{!MapLaws cmp opsR}.
Abbreviation world := (world MC MN D MD MV MR).
Abbreviation env := (env MC MN D MD MV MR).
Implicit Types (w : world) (own : list N) (held : N -> nat).

(** The world when [n] more calls on the store of containers are expected. *)
Record inv (own : list N) (held : N -> nat) (n : nat) w : Prop := {
  inv_cont : cont_ok (w_cont w);
  inv_rms : exists others, rms_ok own (w_cont w) (w_rms w) others;
  inv_store : exists k, store_inv (cmp := cmp) k (w_store w) held /\ few (k + n);
  inv_vols : vs_inv (cmp := cmp) (w_vols w)
}.

(** Calls during which the container lock is not held even if it was taken before. *)
Definition releases (c : call) : bool := match c with WaitStop _ => true | _ => false end.

(** What the other threads may do at a call made in [w]: whatever keeps the container, the
    restart managers and the two stores consistent and respects the references that this
    thread holds. *)
Record other_step (c : call) w w' : Prop := {
  os_trace : w_trace w' = w_trace w;
  os_locked : w_locked w' = w_locked w;
  os_fds : w_fds w' = w_fds w;
  os_store held n : (exists k, store_inv (cmp := cmp) k (w_store w) held /\ few (k + n)) ->
    exists k, store_inv (cmp := cmp) k (w_store w') held /\ few (k + n);
  os_vols : vs_inv (cmp := cmp) (w_vols w) -> vs_inv (cmp := cmp) (w_vols w');
  os_id : same_id (w_cont w) (w_cont w');
  os_ok : cont_ok (w_cont w) -> cont_ok (w_cont w');
  os_rms own others : rms_ok own (w_cont w) (w_rms w) others ->
    exists others', rms_ok own (w_cont w') (w_rms w') others'
}.

(** What the container lock protects, while it is held. *)
Record locked_step (c : call) w w' : Prop := {
  os_quiet : w_locked w = true -> releases c = false ->
    (forall s, ct_state (w_cont w) = Some s ->
       exists s', ct_state (w_cont w') = Some s' /\ quiet s s') /\
    ct_hostconfig (w_cont w') = ct_hostconfig (w_cont w) /\
    ct_rm (w_cont w') = ct_rm (w_cont w) /\
    ct_rm_anonymous_volumes (w_cont w') = ct_rm_anonymous_volumes (w_cont w);
  os_canceled q rm : w_rms w !! q = Some rm -> canceled rm = true -> rm_live rm = true ->
    forall own others, rms_ok own (w_cont w) (w_rms w) others ->
    (q ∈ own \/ w_locked w = true /\ releases c = false /\ ct_rm (w_cont w) = q) ->
    exists rm', w_rms w' !! q = Some rm' /\ canceled rm' = true
}.

(** Allocation gives fresh addresses, and the others behave. *)
Class Rely (E : env) : Prop := {
  rely_fresh h : e_fresh E h <> NULL /\ h !! e_fresh E h = None;
  rely_now t : e_now E t <> defaultContainerTime;
  rely_other c w : other_step c w (e_other E c w)
}.
(** The others respect the lock of the container. *)
Class RelyLock (E : env) : Prop := { rely_lock c w : locked_step c w (e_other E c w) }.
(** The others leave the stores alone. *)
Class RelyStores (E : env) : Prop := {
  rely_store c w : w_store (e_other E c w) = w_store w;
  rely_vols c w : w_vols (e_other E c w) = w_vols w
}.

Section handlers.
Context (E : env) `{HR : !Rely E}.

Lemma wp_ext c (Q : Z -> world -> Prop) w :
  (forall w', other_step c (put_trace (c :: w_trace w) w) w' -> Q (e_ans E (w_trace w) c) w') ->
  wp (ext E c) Q w.
Proof. intros HQ. eexists _, _. split; [done|]. apply HQ, rely_other. Qed.

Lemma inv_other own held n c w w' :
  inv own held n w -> other_step c (put_trace (c :: w_trace w) w) w' -> inv own held n w'.
Proof.
  intros [H1 [o H2] H3 H4] Hs. split.
  - by apply (os_ok _ _ _ Hs).
  - by eapply (os_rms _ _ _ Hs).
  - by apply (os_store _ _ _ Hs).
  - by apply (os_vols _ _ _ Hs).
Qed.

Lemma inv_weaken own held n m w : inv own held n w -> (m <= n)%nat -> inv own held m w.
Proof.
  intros [H1 H2 (k & H3 & Hk) H4] Hle. split; try done. exists k. split; [done|].
  unfold few in *. lia.
Qed.

(** ** A logic for "goes well"

    [keeps cost b m b'] : from a consistent world in which the container lock is held
    iff [b], [m] returns, in a consistent world in which the lock is held iff [b'], with
    the same descriptors open, after at most [cost] calls on the store of containers. *)
Definition keeps {A} (cost : nat) (b : bool) (m : M world A) (b' : bool) : Prop :=
  forall own held n w, few_own own -> inv own held (n + cost) w -> w_locked w = b ->
    wp m (fun _ w' => inv own held n w' /\ w_locked w' = b' /\ w_fds w' = w_fds w /\
                      same_id (w_cont w) (w_cont w')) w.

Lemma keeps_weaken {A} c1 c2 b (m : M world A) b' :
  keeps c1 b m b' -> (c1 <= c2)%nat -> keeps c2 b m b'.
Proof.
  intros Hm Hle own held n w Hown Hi Hb. apply Hm; [done| |done].
  eapply inv_weaken; [done|]. lia.
Qed.

Lemma keeps_ret {A} c b (a : A) : keeps c b (mret a) b.
Proof.
  intros own held n w Hown Hi Hb. apply wp_mret. split_and!; try done.
  eapply inv_weaken; [done|lia].
Qed.

Lemma keeps_bind_cost {A B} c1 c2 b (m : M world A) b1 (k : A -> M world B) b2 :
  keeps c1 b m b1 -> (forall a, keeps c2 b1 (k a) b2) -> keeps (c1 + c2) b (m ≫= k) b2.
Proof.
  intros Hm Hk own held n w Hown Hi Hb. apply wp_mbind.
  eapply wp_conseq; [apply (Hm own held (n + c2)%nat w Hown); [|done]|].
  { by rewrite <-Nat.add_assoc, (Nat.add_comm c2 c1). }
  intros a w1 (Hi1 & Hb1 & Hf1 & Hs1). eapply wp_conseq; [by apply Hk|].
  intros a2 w2 (Hi2 & Hb2 & Hf2 & Hs2). split_and!; [done..|congruence|by etransitivity].
Qed.

Lemma keeps_bind {A B} c b (m : M world A) b1 (k : A -> M world B) b2 :
  keeps 0 b m b1 -> (forall a, keeps c b1 (k a) b2) -> keeps c b (m ≫= k) b2.
Proof. apply (keeps_bind_cost 0 c). Qed.

Lemma keeps_if {A} c b (t : bool) (m1 m2 : M world A) b' :
  keeps c b m1 b' -> keeps c b m2 b' -> keeps c b (if t then m1 else m2) b'.
Proof. by destruct t. Qed.

Lemma keeps_decide {A} c b (P : Prop) `{!Decision P} (m1 m2 : M world A) b' :
  keeps c b m1 b' -> keeps c b m2 b' -> keeps c b (if decide P then m1 else m2) b'.
Proof. intros H1 H2. by destruct (decide P). Qed.

Lemma keeps_when c b t (m : M world unit) : keeps c b m b -> keeps c b (when t m) b.
Proof. intros Hm. destruct t; [done|apply keeps_ret]. Qed.

Lemma keeps_gets {A} c b (f : world -> A) : keeps c b (gets f) b.
Proof.
  intros own held n w Hown Hi Hb. apply wp_gets. split_and!; try done.
  eapply inv_weaken; [done|lia].
Qed.

Lemma keeps_ext c b k : keeps c b (ext E k) b.
Proof.
  intros own held n w Hown Hi Hb. apply wp_ext. intros w' Hs. split_and!.
  - eapply inv_weaken; [by eapply inv_other|lia].
  - rewrite (os_locked _ _ _ Hs). done.
  - by rewrite (os_fds _ _ _ Hs).
  - apply (os_id _ _ _ Hs).
Qed.

Lemma keeps_ext_ c b k : keeps c b (ext_ E k) b.
Proof. apply keeps_bind with b; [apply keeps_ext|]. intros. apply keeps_ret. Qed.
Lemma keeps_ext_ok c b k : keeps c b (ext_ok E k) b.
Proof. apply keeps_bind with b; [apply keeps_ext|]. intros. apply keeps_ret. Qed.

(** Changes of the lock flag, of the container and of its state. *)
Lemma inv_locked own held n w b : inv own held n w -> inv own held n (put_locked b w).
Proof. by intros []. Qed.

Lemma keeps_lock c : keeps c false (container_lock E) true.
Proof.
  apply keeps_bind with false; [apply keeps_ext_|]. intros _ own held n w Hown Hi Hb.
  apply wp_mbind, wp_gets. rewrite Hb. apply wp_modify. split_and!; try done.
  apply inv_locked. eapply inv_weaken; [done|lia].
Qed.

Lemma keeps_unlock c : keeps c true container_unlock false.
Proof.
  intros own held n w Hown Hi Hb.
  apply wp_mbind, wp_gets. rewrite Hb. apply wp_modify. split_and!; try done.
  apply inv_locked. eapply inv_weaken; [done|lia].
Qed.

Lemma inv_state own held n w s :
  inv own held n w -> cs_inv s -> inv own held n (put_cont (put_ct_state (Some s) (w_cont w)) w).
Proof.
  intros [[_ Hh] [o Hr] Hs Hv] Hc. split; try done.
  - split; [by exists s|done].
  - exists o. destruct Hr. by split.
Qed.

Lemma keeps_upd c b o : op_ok o -> keeps c b (upd_state (cs_call o)) b.
Proof.
  intros Ho own held n w Hown Hi Hb. apply wp_modify.
  destruct (ok_state _ (inv_cont _ _ _ _ Hi)) as (s & Hs & Hc). rewrite Hs.
  destruct (cs_call_total o s) as [s' Hs']. rewrite Hs'. split_and!; try done.
  apply inv_state; [|by eapply cs_call_inv]. eapply inv_weaken; [done|lia].
Qed.

Lemma keeps_get_state {A} c b (k : container_state -> M world A) b' :
  (forall s, keeps c b (k s) b') -> keeps c b (s ← get_state; s ← lift s; k s) b'.
Proof.
  intros Hk own held n w Hown Hi Hb. apply wp_mbind, wp_gets, wp_mbind.
  destruct (ok_state _ (inv_cont _ _ _ _ Hi)) as (s & Hs & _).
  eapply wp_lift; [exact Hs|]. by apply Hk.
Qed.

Lemma keeps_st_is c b f : keeps c b (st_is f) b.
Proof. apply keeps_bind with b; [apply keeps_gets|]. intros. apply keeps_ret. Qed.

Lemma keeps_hostconfig {A} c b (k : host_config -> M world A) b' :
  (forall hc, keeps c b (k hc) b') -> keeps c b (hc ← get_hostconfig; k hc) b'.
Proof.
  intros Hk own held n w Hown Hi Hb. apply wp_mbind, wp_mbind, wp_gets.
  destruct (ok_hostconfig _ (inv_cont _ _ _ _ Hi)) as [hc Hhc].
  eapply wp_lift; [exact Hhc|]. by apply Hk.
Qed.

Lemma keeps_put_hostconfig c b hc :
  keeps c b (modify (fun w => put_cont (put_ct_hostconfig (Some hc) (w_cont w)) w)) b.
Proof.
  intros own held n w Hown Hi Hb. apply wp_modify. split_and!; try done.
  apply inv_weaken with (m := n) in Hi; [|lia]. destruct Hi as [[Hs Hh] [o Hr] Hst Hv].
  split; try done. exists o. destruct Hr. by split.
Qed.

Lemma keeps_set_stopped c b code : keeps c b (set_stopped E code) b.
Proof.
  intros own held n w Hown Hi Hb. apply wp_mbind, wp_gets.
  apply (keeps_upd c b (SetStopped (e_now E (w_trace w)) code)); [apply rely_now|done..].
Qed.

Lemma keeps_set_error c b : keeps c b (set_error E) b.
Proof.
  intros own held n w Hown Hi Hb.
  destruct (ok_state _ (inv_cont _ _ _ _ Hi)) as (s & Hs & Hc).
  apply wp_mbind, wp_gets, wp_mbind. eapply wp_lift; [exact Hs|]. apply wp_mbind, wp_gets, wp_modify.
  split_and!; try done. apply inv_state; [eapply inv_weaken; [done|lia]|].
  eapply (cs_call_inv (SetError (e_errmsg E (w_trace w)))); [done|exact Hc|done].
Qed.

Lemma keeps_removal c b : keeps c b set_container_to_removal b.
Proof.
  intros own held n w Hown Hi Hb.
  destruct (ok_state _ (inv_cont _ _ _ _ Hi)) as (s & Hs & Hc).
  apply wp_mbind, wp_gets. rewrite Hs.
  destruct (container_state_set_removal_in_progress (Some s)) as [already s'] eqn:Hr.
  pose proof (f_equal snd Hr) as Hr'. apply wp_mbind, wp_modify, wp_mret. split_and!; try done.
  destruct s' as [s'|]; [|by cbn in Hr; destruct (removal_inprogress s)].
  apply inv_state; [eapply inv_weaken; [done|lia]|]. by eapply (cs_call_inv SetRemoval).
Qed.

(** *** Restart managers *)

(** The container of a consistent world, as RestartManager sees it. *)
Lemma rm_view_owned own held n w others :
  inv own held n w -> few_own own -> rms_ok own (w_cont w) (w_rms w) others ->
  exists c, rm_view w = Some c /\ c_state c = ct_state (w_cont w) /\
    c_rm c = (if decide (ct_rm (w_cont w) = NULL) then None else w_rms w !! ct_rm (w_cont w)) /\
    owned_step (Z.of_nat (occ (ct_rm (w_cont w)) own + others (ct_rm (w_cont w)))) c.
Proof.
  intros Hi Hf Hr. unfold rm_view. pose proof (rm_few _ _ _ _ Hr (ct_rm (w_cont w))) as Hfew.
  pose proof (occ_le (ct_rm (w_cont w)) own) as Hlen. unfold few_own in Hf.
  destruct (decide (ct_rm (w_cont w) = NULL)) as [Hz|Hz].
  - destruct (ok_hostconfig _ (inv_cont _ _ _ _ Hi)) as [hc Hhc]. rewrite Hhc. cbn.
    eexists. split; [done|]. do 2 (split; [done|]). split; [done|]. rewrite Hz in *.
    destruct (rm_null _ _ _ _ Hr) as (Hno & -> & _). rewrite occ_zero by done. cbn. lia.
  - destruct (rm_exact _ _ _ _ Hr _ Hz) as (rm & Hrm & Hl & Hc).
    { unfold rm_refs. rewrite decide_True by done. lia. }
    rewrite Hrm. cbn. eexists. split; [done|]. do 2 (split; [done|]). split; [|split; [lia|done]].
    split; [done|]. rewrite Hc. unfold rm_refs. rewrite decide_True by done. lia.
Qed.

Lemma rm_refs_ne c own others p q :
  q <> p -> ct_rm c = p -> rm_refs c own others q = (occ q own + others q)%nat.
Proof. intros Hn Hp. unfold rm_refs. rewrite decide_False by congruence. lia. Qed.

(** An address outside of the heap has no references. *)
Lemma rm_refs_fresh own c rms others q :
  rms_ok own c rms others -> q <> NULL -> rms !! q = None -> rm_refs c own others q = 0%nat.
Proof.
  intros Hr Hq Hn. destruct (decide (rm_refs c own others q = 0)%nat) as [|H]; [done|].
  destruct (rm_exact _ _ _ _ Hr q Hq H) as (rm & ? & _). congruence.
Qed.

(** Storing the container back, when its manager is held by [own'] instead of [own]
    besides. *)
Lemma rm_put_ok own own' others w c :
  rms_ok own (w_cont w) (w_rms w) others -> NULL ∉ own' ->
  let p := match c_rm c with
           | None => NULL
           | Some _ => if decide (ct_rm (w_cont w) = NULL) then e_fresh E (w_rms w)
                       else ct_rm (w_cont w) end in
  rm_owned (Z.of_nat (occ p own' + others p)) c ->
  (forall q, q <> p -> (occ q own' = occ q own)%nat) ->
  (c_rm c = None -> ct_rm (w_cont w) <> NULL -> occ (ct_rm (w_cont w)) own' = 0%nat /\
                    others (ct_rm (w_cont w)) = 0%nat) ->
  rms_ok own' (w_cont (rm_put E c w)) (w_rms (rm_put E c w)) others.
Proof.
  intros Hr Hnull p Ho Hocc Hnone. destruct (rely_fresh (w_rms w)) as [Hf Hfr].
  unfold rm_put. destruct (c_rm c) as [rm|] eqn:Hrm.
  - unfold rm_owned in Ho. rewrite Hrm in Ho. destruct Ho as [Hl Hc].
    assert (p <> NULL) as Hp by (subst p; by case_decide).
    split; cbn -[rm_refs].
    + destruct (rm_null _ _ _ _ Hr) as (? & ? & ?). by rewrite lookup_insert_ne.
    + apply Hr.
    + intros q Hq Hz. fold p. destruct (decide (q = p)) as [->|Hne].
      * rewrite lookup_insert_eq. eexists. split_and!; [done..|]. rewrite Hc. unfold rm_refs. cbn.
        fold p. rewrite decide_True by done. lia.
      * rewrite lookup_insert_ne by done. fold p in Hz.
        rewrite (rm_refs_ne _ _ _ p) in Hz |- * by done.
        rewrite Hocc in Hz |- * by done.
        destruct (decide (ct_rm (w_cont w) = q)) as [Hcq|Hcq].
        { subst p. rewrite decide_False in Hne by congruence. congruence. }
        destruct (rm_exact _ _ _ _ Hr q Hq) as (rm' & ? & ? & Hc').
        { unfold rm_refs. rewrite decide_False by done. done. }
        exists rm'. split_and!; [done..|]. rewrite Hc'. unfold rm_refs.
        by rewrite decide_False.
  - split; cbn -[rm_refs].
    + by destruct (rm_null _ _ _ _ Hr) as (? & ? & ?).
    + apply Hr.
    + intros q Hq Hz. rewrite (rm_refs_ne _ _ _ NULL) in Hz |- * by done.
      destruct (decide (ct_rm (w_cont w) = q)) as [Hcq|Hcq].
      { destruct Hnone as [H1 H2]; [done|congruence|]. subst q. lia. }
      rewrite Hocc in Hz |- * by done.
      destruct (rm_exact _ _ _ _ Hr q Hq) as (rm' & ? & ? & Hc').
      { unfold rm_refs. by rewrite decide_False. }
      exists rm'. split_and!; [done..|]. rewrite Hc'. unfold rm_refs. by rewrite decide_False.
Qed.

Lemma rm_put_frame c w :
  w_locked (rm_put E c w) = w_locked w /\ w_fds (rm_put E c w) = w_fds w /\
  w_trace (rm_put E c w) = w_trace w /\ w_store (rm_put E c w) = w_store w /\
  w_vols (rm_put E c w) = w_vols w /\ same_id (w_cont w) (w_cont (rm_put E c w)) /\
  ct_state (w_cont (rm_put E c w)) = ct_state (w_cont w) /\
  ct_hostconfig (w_cont (rm_put E c w)) = ct_hostconfig (w_cont w).
Proof. unfold rm_put. by destruct (c_rm c). Qed.

Lemma inv_rm_put own own' held n w c others :
  inv own held n w -> rms_ok own' (w_cont (rm_put E c w)) (w_rms (rm_put E c w)) others ->
  inv own' held n (rm_put E c w).
Proof.
  intros [[Hs Hh] _ Hst Hv] Hr. destruct (rm_put_frame c w) as (_ & _ & _ & E1 & E2 & _ & E3 & E4).
  split; [split|by exists others|by rewrite E1|by rewrite E2].
  - by rewrite E3.
  - by rewrite E4.
Qed.

(** A function that gives back the references it takes. *)
Definition balanced {A} (f : rm_env -> rm_container -> option (A * rm_container)) : Prop :=
  forall e k c, owned_step k c -> exists a c', f e c = Some (a, c') /\ owned_step k c'.

Lemma with_rm_spec {A} (f : rm_env -> rm_container -> option (A * rm_container)) own held n w :
  balanced f -> few_own own -> inv own held n w ->
  exists c a c', rm_view w = Some c /\ f (e_rm E (w_trace w)) c = Some (a, c') /\
    with_rm E f w = Some (a, rm_put E c' w) /\ inv own held n (rm_put E c' w).
Proof.
  intros Hb Hown Hi. destruct (inv_rms _ _ _ _ Hi) as [others Hr].
  destruct (rm_view_owned own held n w others Hi Hown Hr) as (c & Hv & _ & Hcrm & Ho).
  destruct (Hb (e_rm E (w_trace w)) _ c Ho) as (a & c' & Hf & Ho' & Hk & Hk0).
  exists c, a, c'. split_and!; try done; [unfold with_rm; rewrite Hv; cbn; by rewrite Hf|].
  eapply inv_rm_put; [done|]. apply (rm_put_ok own own others); [done|apply Hr|..].
  - destruct (decide (ct_rm (w_cont w) = NULL)) as [Hz|Hz].
    + unfold rm_owned in *. destruct (c_rm c') as [rm|] eqn:Hrm; [|done].
      destruct Ho' as [Hl Hc']. split; [done|]. rewrite Hc'. f_equal. f_equal.
      destruct (rely_fresh (w_rms w)) as [Hf1 Hf2].
      pose proof (rm_refs_fresh _ _ _ _ _ Hr Hf1 Hf2) as H0. unfold rm_refs in H0.
      rewrite decide_False in H0 by congruence. rewrite Hz.
      destruct (rm_null _ _ _ _ Hr) as (Hno & E0 & _). rewrite (occ_zero NULL) by done. lia.
    + unfold rm_owned in *. destruct (c_rm c') as [rm|] eqn:Hrm; done.
  - done.
  - intros Hn _. specialize (Hk0 Hn). lia.
Qed.

Lemma keeps_with_rm {A} c b (f : rm_env -> rm_container -> option (A * rm_container)) :
  balanced f -> keeps c b (with_rm E f) b.
Proof.
  intros Hb own held n w Hown Hi Hl. apply inv_weaken with (m := n) in Hi; [|lia].
  destruct (with_rm_spec f own held n w Hb Hown Hi) as (v & a & v' & _ & _ & Hrun & Hi').
  destruct (rm_put_frame v' w) as (E1 & E2 & _ & _ & _ & E3 & _).
  exists a, (rm_put E v' w). split; [done|]. split_and!; [done|congruence|done|done].
Qed.

Lemma exit_on_next_balanced : balanced container_exit_on_next.
Proof.
  intros e k c Ho. destruct (exit_on_next_owned e k c Ho) as (z & c' & ? & ? & _). eauto.
Qed.

Lemma keeps_exit_on_next c b : keeps c b (exit_on_next E) b.
Proof. apply keeps_with_rm, exit_on_next_balanced. Qed.

Lemma keeps_get c b : keeps c b get_state b.
Proof. apply keeps_gets. Qed.

Lemma keeps_is_auto_remove c b : keeps c b is_auto_remove b.
Proof. apply keeps_gets. Qed.

(** Structural steps; calls are resolved by the lemmas of [db]. *)
Ltac keeps_step :=
  lazymatch goal with
  | |- forall _, _ => intros ?
  | |- keeps _ _ (mret _) _ => apply keeps_ret
  | |- keeps _ _ (get_state ≫= _) _ =>
      first [apply keeps_get_state | eapply keeps_bind; [apply keeps_get|]]
  | |- keeps _ _ (get_hostconfig ≫= _) _ => apply keeps_hostconfig
  | |- keeps _ _ (_ ≫= _) _ => eapply keeps_bind
  | |- keeps _ _ (if decide _ then _ else _) _ => apply keeps_decide
  | |- keeps _ _ (if _ then _ else _) _ => apply keeps_if
  | |- keeps _ _ (when _ _) _ => apply keeps_when
  | |- keeps _ _ (match ?x with _ => _ end) _ => destruct x
  | |- keeps _ _ (let '(_, _) := ?x in _) _ => destruct x
  end.
Ltac keeps_auto :=
  repeat keeps_step; eauto using keeps_ext, keeps_ext_, keeps_ext_ok, keeps_gets, keeps_st_is,
    keeps_lock, keeps_unlock, keeps_set_stopped, keeps_set_error, keeps_removal, keeps_exit_on_next,
    keeps_is_auto_remove, keeps_put_hostconfig.

Lemma keeps_wait_stop c b t : keeps c b (container_wait_stop E t) b.
Proof. unfold container_wait_stop. keeps_auto. Qed.

Lemma keeps_send_signal c b p ss sg : keeps c b (send_signal_to_process E p ss sg) b.
Proof. unfold send_signal_to_process. keeps_auto. Qed.

Lemma keeps_kill_with_signal c b sg : keeps c b (kill_with_signal E sg) b.
Proof.
  unfold kill_with_signal. keeps_auto. apply (keeps_upd _ _ SetManualStop). done.
Qed.

Lemma keeps_force_kill c b : keeps c b (force_kill E) b.
Proof.
  unfold force_kill. keeps_auto; eauto using keeps_kill_with_signal, keeps_wait_stop, keeps_send_signal.
Qed.

Lemma keeps_set_auto_remove c b f : keeps c b (set_auto_remove f) b.
Proof. unfold set_auto_remove. keeps_auto. Qed.

Lemma keeps_stop_container c t f r : keeps c false (stop_container E t f r) false.
Proof.
  unfold stop_container, stop_or_kill.
  keeps_auto; eauto using keeps_kill_with_signal, keeps_wait_stop, keeps_force_kill, keeps_set_auto_remove.
Qed.

Lemma keeps_kill_container c sg : keeps c false (kill_container E sg) false.
Proof. unfold kill_container. keeps_auto; eauto using keeps_kill_with_signal, keeps_force_kill. Qed.

(** *** The stores *)

Lemma inv_put_store own held held' n w (st : store MC MN) k :
  inv own held n w -> store_inv (cmp := cmp) k st held' -> few (k + n) ->
  inv own held' n (put_store st w).
Proof. intros [H1 H2 _ H4] Hs Hk. split; eauto. Qed.

Lemma inv_put_vols own held n w vs :
  inv own held n w -> vs_inv (cmp := cmp) vs -> inv own held n (put_vols vs w).
Proof. intros [H1 H2 H3 _] Hv. by split. Qed.

Lemma few_lt k n : few (k + n) -> few k.
Proof. unfold few. lia. Qed.

(** What a step leaves alone besides the stores. *)
Definition framed w w' : Prop :=
  w_locked w' = w_locked w /\ w_fds w' = w_fds w /\ same_id (w_cont w) (w_cont w').

Lemma framed_refl w : framed w w.
Proof. by split. Qed.
Lemma framed_trans w1 w2 w3 : framed w1 w2 -> framed w2 w3 -> framed w1 w3.
Proof. intros (?&?&?) (?&?&?). split_and!; [congruence..|by etransitivity]. Qed.

Lemma wp_keeps {A} c b (m : M world A) b' own held n w :
  keeps c b m b' -> few_own own -> inv own held (n + c) w -> w_locked w = b ->
  wp m (fun _ w' => inv own held n w' /\ w_locked w' = b' /\ w_fds w' = w_fds w /\
                    same_id (w_cont w) (w_cont w')) w.
Proof. intros Hm. apply Hm. Qed.

(** A lookup takes a reference, which [store_unref] gives back. *)
Lemma store_get_spec own held n w id :
  few_own own -> inv own held (S n) w ->
  wp (store_get E id) (fun c w' => framed w w' /\
    inv own (if decide (c = NULL) then held else add_ref c 1 held) n w') w.
Proof.
  intros Hown Hi. unfold store_get.
  apply wp_mbind. eapply wp_conseq;
    [apply (keeps_ext_ok 0 (w_locked w) StoreLock own held (S n)); [done|by rewrite Nat.add_0_r|done]|].
  cbv beta. intros l w1 (Hi1 & Hl1 & Hf1 & Hs1).
  apply wp_mbind. eapply wp_conseq;
    [apply (keeps_ext_ok 0 (w_locked w) StoreIter own held (S n)); [done|by rewrite Nat.add_0_r|done]|].
  cbv beta. intros i w2 (Hi2 & Hl2 & Hf2 & Hs2).
  apply wp_mbind, wp_gets.
  destruct (inv_store _ _ _ _ Hi2) as (k & Hk & Hfew).
  destruct (store_exec_inv k (OpGet (LockEnv l true) i (Some id)) (w_store w2) held Hk)
    as ([st' held'] & He & Hst); [unfold few in *; lia|].
  cbn [store_exec] in He. destruct (containers_store_get _ _ _ _) as [[c st1]|] eqn:Hg; [|done].
  cbn [mbind option_bind fst snd] in He. injection He as <- <-.
  apply wp_mbind. eapply wp_lift; [done|]. apply wp_mbind, wp_modify, wp_mret. split.
  - split_and!; cbn; [congruence..|by etransitivity].
  - eapply inv_put_store; [eapply inv_weaken; [exact Hi2|lia]|done|unfold few in *; lia].
Qed.

Lemma store_unref_spec own held n w c :
  inv own held (S n) w -> (0 < held c)%nat ->
  wp (store_unref c) (fun _ w' => framed w w' /\ inv own (drop_ref c held) n w') w.
Proof.
  intros Hi Hh. apply wp_mbind, wp_gets.
  destruct (inv_store _ _ _ _ Hi) as (k & Hk & Hfew).
  destruct (unref_held_spec k (w_store w) held c Hk) as (st' & He & Hst); [unfold few in *; lia|done|].
  apply wp_mbind. eapply wp_lift; [done|]. apply wp_modify. split; [by split_and!|].
  eapply inv_put_store; [eapply inv_weaken; [exact Hi|lia]|done|unfold few in *; lia].
Qed.

(** [held] is only used pointwise. *)
Lemma inv_held own held held' n w :
  (forall c, held' c = held c) -> inv own held n w -> inv own held' n w.
Proof.
  intros He [H1 H2 (k & H3 & Hk) H4]. split; try done. exists k. split; [|done].
  destruct H3 as [Ha Hb Hc Hd Hs Hh]. split; try done.
  - unfold refs_of in *. by rewrite He.
  - intros c. rewrite Hd. unfold refs_of. by rewrite He.
  - intros c. by rewrite He.
Qed.

Lemma drop_add_ref c held c' : drop_ref c (add_ref c 1 held) c' = held c'.
Proof. unfold drop_ref, add_ref. case_decide; lia. Qed.

(** Removal under either outcome of the unlocking. *)
Lemma remove_any k (st : store MC MN) held l u id :
  store_inv (cmp := cmp) k st held -> few k ->
  exists b st', containers_store_remove (LockEnv l u) (Some id) st = Some (b && u, st') /\
    b = l && bool_decide (is_Some (mo_abs (st_map st) !! id)) /\
    store_inv (cmp := cmp) (S k) st' held /\
    mo_abs (st_map st') = (if b then delete id (mo_abs (st_map st)) else mo_abs (st_map st)) /\
    st_index st' = st_index st.
Proof.
  intros Hi Hk. destruct (remove_spec k st held l id Hi Hk) as (b & st' & Hr & Hb & Hi' & Ha).
  exists b, st'. unfold containers_store_remove in *. cbn [l_lock l_unlock] in *.
  destruct l; cbn [negb] in *; [|by simplify_eq].
  destruct (mo_remove id (st_map st)) as [b1 m1].
  destruct (match mo_search id (st_map st) with
            | Some old => container_unref old st | None => Some st end) as [st1|] eqn:Hu; [|done].
  cbn [mbind option_bind fst snd] in *. simplify_eq. split_and!; try done.
  - by destruct u; rewrite ?andb_true_r, ?andb_false_r.
  - cbn. destruct (mo_search id (st_map st)) as [old|]; [|by simplify_eq].
    unfold container_unref in Hu. case_decide; [by simplify_eq|].
    apply bind_Some_inv in Hu as (c & _ & Hu). destruct (atomic_int_dec_test c) as [? []] in Hu;
      by simplify_eq/=.
Qed.

Lemma keeps_store_remove b id : keeps 1 b (store_remove E id) b.
Proof.
  apply keeps_bind with b; [apply keeps_ext_ok|]. intros l.
  apply keeps_bind with b; [apply keeps_ext_ok|]. intros u own held n w Hown Hi Hb.
  apply wp_mbind, wp_gets, wp_mbind. destruct (inv_store _ _ _ _ Hi) as (k & Hk & Hfew).
  destruct (remove_any k (w_store w) held l u id Hk) as (b1 & st' & Hr & _ & Hst & _);
    [unfold few in *; lia|].
  eapply wp_lift; [done|]. apply wp_mbind, wp_modify, wp_mret. split_and!; try done.
  eapply inv_put_store; [eapply inv_weaken; [exact Hi|lia]|done|unfold few in *; lia].
Qed.

Lemma keeps_name_index_remove b name : keeps 1 b (name_index_remove E name) b.
Proof.
  apply keeps_bind with b; [apply keeps_ext_ok|]. intros l.
  apply keeps_bind with b; [apply keeps_ext_ok|]. intros u own held n w Hown Hi Hb.
  apply wp_mbind, wp_gets. destruct (inv_store _ _ _ _ Hi) as (k & Hk & Hfew).
  destruct (store_exec_inv k (OpNameRemove (LockEnv l u) (Some name)) (w_store w) held Hk)
    as ([st' held'] & He & Hst); [unfold few in *; lia|].
  cbn [store_exec] in He. injection He as <- <-.
  destruct (container_name_index_remove _ _ _) as [b1 st1].
  apply wp_mbind, wp_modify, wp_mret. split_and!; try done.
  eapply inv_put_store; [eapply inv_weaken; [exact Hi|lia]|done|unfold few in *; lia].
Qed.

(** *** The volumes *)

(** Whatever the iterator and the allocation give, removal runs and keeps the references. *)
Lemma volume_remove_any i a name (vs : volume_store D MD MV MR) :
  vs_inv (cmp := cmp) vs ->
  exists z vs', volume_remove i a (Some name) vs = Some (z, vs') /\ vs_inv (cmp := cmp) vs' /\
    forall n, vol_refs (cmp := cmp) vs' n = vol_refs (cmp := cmp) vs n.
Proof.
  intros Hi. unfold volume_remove.
  assert (exists d vs1, lookup_driver_by_volume_name i (Some name) vs = Some (d, vs1) /\
    vs_inv (cmp := cmp) vs1 /\ (forall n, vol_refs (cmp := cmp) vs1 n = vol_refs (cmp := cmp) vs n) /\
    (forall d', d = Some d' -> driver_ok d')) as (d & vs1 & -> & Hi1 & Hr1 & Hd).
  { destruct i.
    - destruct (lookup_by_volume_spec name vs Hi) as (d & dev & Hl & Hi' & _ & Hdv). eexists d, _. split; [exact Hl|done].
    - exists (vs_static vs), vs. split_and!; try done. apply Hi. }
  cbn [mbind option_bind fst snd]. destruct d as [d|]; [|by eauto].
  assert (exists o, get_name_refs a name vs1 = Some o) as [o ->].
  { unfold get_name_refs. rewrite mo_search_ok by apply Hi1.
    destruct (mo_abs (vs_name_refs vs1) !! name) as [p|] eqn:Hp; [|by eauto].
    destruct ((inv_live (cmp := cmp)) _ Hi1 _ _ Hp) as [r ->]. cbn. destruct (_ || _); eauto. }
  cbn [mbind option_bind]. destruct (dok_remove _ (Hd d eq_refl)) as (rm & Hrm & Hret). rewrite Hrm. cbn.
  assert (exists z vs', (done ← rm name (vs_dev vs1); Some (done.1, put_dev done.2 vs1)) = Some (z, vs') /\
    vs_inv (cmp := cmp) vs' /\ forall n, vol_refs (cmp := cmp) vs' n = vol_refs (cmp := cmp) vs n) as Hrun.
  { destruct (Hret name (vs_dev vs1) (inv_dev (cmp := cmp) _ Hi1)) as (z & dev & -> & Hdev). eexists _, _. split; [done|].
    split; [by apply vs_inv_dev|done]. }
  destruct o as [[|x l]|]; [done| |done]. by eauto.
Qed.

Lemma keeps_vol_del_ref c b name id : keeps c b (vol_del_ref name id) b.
Proof.
  intros own held n w Hown Hi Hb. apply wp_mbind, wp_gets, wp_mbind.
  destruct (del_name_ref_spec name id (w_vols w) (inv_vols _ _ _ _ Hi)) as (z & vs & Hd & Hv & _).
  eapply wp_lift; [exact Hd|]. apply wp_mbind, wp_modify, wp_mret. split_and!; try done.
  apply inv_put_vols; [eapply inv_weaken; [exact Hi|lia]|done].
Qed.

Lemma keeps_vol_remove c b name : keeps c b (vol_remove E name) b.
Proof.
  apply keeps_bind with b; [apply keeps_ext_ok|]. intros i.
  apply keeps_bind with b; [apply keeps_ext_ok|]. intros a own held n w Hown Hi Hb.
  apply wp_mbind, wp_gets, wp_mbind.
  destruct (volume_remove_any i a name (w_vols w) (inv_vols _ _ _ _ Hi)) as (z & vs & Hd & Hv & _).
  eapply wp_lift; [exact Hd|]. apply wp_mbind, wp_modify, wp_mret. split_and!; try done.
  apply inv_put_vols; [eapply inv_weaken; [exact Hi|lia]|done].
Qed.

Lemma keeps_release_volumes c b mps id anon ret :
  keeps c b (release_volumes E mps id anon ret) b.
Proof.
  revert ret. induction mps as [|mp mps IH]; intros ret; cbn; keeps_auto;
    eauto using keeps_vol_del_ref, keeps_vol_remove.
Qed.

(** *** Deleting *)

Lemma keeps_umount_dev c b : keeps c b (umount_dev_tmpfs_for_system_container E) b.
Proof. unfold umount_dev_tmpfs_for_system_container. keeps_auto. Qed.

Lemma keeps_do_clean c b p : keeps c b (do_clean_container E p) b.
Proof. unfold do_clean_container. keeps_auto; eauto using keeps_umount_dev. Qed.

Lemma keeps_remove_resources c b id anon : keeps c b (remove_resources E id anon) b.
Proof. unfold remove_resources. keeps_auto; eauto using keeps_release_volumes. Qed.

Lemma keeps_deregister b id name : keeps 2 b (deregister E id name) b.
Proof.
  apply keeps_bind with b; [apply keeps_ext_|]. intros _.
  apply (keeps_bind_cost 1 1) with b; [apply keeps_store_remove|]. intros []; [|apply keeps_ret].
  apply (keeps_bind_cost 1 0) with b; [apply keeps_name_index_remove|]. intros. apply keeps_ret.
Qed.

(** A lookup followed by code that runs in between and by the drop of the reference. *)
Lemma keeps_store_lookup {A} c b id (k : N -> M world A) b' :
  (forall own held n w x, few_own own -> x <> NULL -> inv own (add_ref x 1 held) (n + c) w ->
     w_locked w = b ->
     wp (k x) (fun _ w' => inv own held n w' /\ w_locked w' = b' /\ w_fds w' = w_fds w /\
                           same_id (w_cont w) (w_cont w')) w) ->
  keeps c b (k NULL) b' -> keeps (S c) b (store_get E id ≫= k) b'.
Proof.
  intros Hk H0 own held n w Hown Hi Hb. apply wp_mbind.
  rewrite Nat.add_succ_r in Hi.
  eapply wp_conseq; [by eapply store_get_spec|]. cbv beta. intros x w1 ((Hl & Hf & Hs) & Hi1).
  assert (wp (k x) (fun _ w' => inv own held n w' /\ w_locked w' = b' /\ w_fds w' = w_fds w1 /\
                           same_id (w_cont w1) (w_cont w')) w1) as Hw.
  { case_decide as Hx; [subst x; apply H0|apply Hk]; try done; congruence. }
  eapply wp_conseq; [exact Hw|]. cbv beta. intros a w2 (? & ? & ? & ?).
  split_and!; [done..|congruence|by etransitivity].
Qed.

Lemma wp_unref_back own held n w x :
  inv own (add_ref x 1 held) (S n) w ->
  wp (store_unref x) (fun _ w' => framed w w' /\ inv own held n w') w.
Proof.
  intros Hi. eapply wp_conseq; [apply store_unref_spec; [exact Hi|]|].
  - unfold add_ref. rewrite decide_True by done. lia.
  - cbv beta. intros _ w' [Hf Hi']. split; [done|]. eapply inv_held; [|exact Hi'].
    intros c. by rewrite drop_add_ref.
Qed.

Lemma keeps_delete_registered b id name anon : keeps 2 b (delete_registered E id name anon) b.
Proof.
  unfold delete_registered. keeps_auto; eauto using keeps_remove_resources, keeps_deregister.
Qed.

Lemma keeps_do_delete : keeps 4 false (do_delete_container E) false.
Proof.
  unfold do_delete_container. do 5 (keeps_step; [keeps_auto|]; intros ?).
  apply (keeps_store_lookup 3); [|rewrite decide_True by done; keeps_auto].
  intros own held n w x Hown Hx Hi Hb. rewrite decide_False by done.
  apply wp_mbind, wp_mbind. replace (n + 3)%nat with (S (n + 2)) in Hi by lia.
  eapply wp_conseq; [by apply wp_unref_back|]. cbv beta. intros _ w1 ((Hl & Hf & Hs) & Hi1).
  eapply wp_conseq; [eapply (keeps_delete_registered true); [done|exact Hi1|congruence]|].
  cbv beta. intros ret w2 (Hi2 & Hl2 & Hf2 & Hs2).
  assert (keeps 0 true (container_unlock;; mret ret) false) as Hk by keeps_auto.
  eapply wp_conseq; [apply (Hk own held n w2); [done|by rewrite Nat.add_0_r|congruence]|].
  cbv beta. intros _ w3 (? & ? & ? & Hs3). split_and!; [done..|congruence|].
  by rewrite Hs, Hs2.
Qed.

Lemma keeps_delete force : keeps 4 false (delete_container E force) false.
Proof.
  unfold delete_container. keeps_step; [keeps_auto|]; intros ?.
  keeps_step; [keeps_auto; eauto using keeps_stop_container|]; intros ?.
  eapply (keeps_bind_cost 4 0).
  - keeps_step; [keeps_auto|]. keeps_step; [keeps_auto|]; intros ?. apply keeps_do_delete.
  - intros ret. keeps_auto. apply (keeps_upd _ _ ResetRemoval). done.
Qed.

Lemma keeps_put_anonymous c b v :
  keeps c b (modify (fun w => put_cont (put_ct_rm_anonymous v (w_cont w)) w)) b.
Proof.
  intros own held n w Hown Hi Hb. apply wp_modify. split_and!; try done.
  apply inv_weaken with (m := n) in Hi; [|lia]. destruct Hi as [[Hs Hh] [o Hr] Hst Hv].
  split; try done. exists o. destruct Hr. by split.
Qed.

Lemma keeps_delete_request force volumes : keeps 4 false (delete_request E force volumes) false.
Proof.
  unfold delete_request. do 3 (keeps_step; [keeps_auto|]; intros ?).
  keeps_step; [keeps_auto|]. keeps_step; [apply keeps_put_anonymous|]; intros ?.
  eapply (keeps_bind_cost 4 0); [apply keeps_delete|]. keeps_auto.
Qed.

Lemma keeps_save_after : keeps 4 true (save_after_auto_remove E) true.
Proof.
  unfold save_after_auto_remove. keeps_step; [keeps_auto|]; intros ?.
  keeps_step; [|keeps_auto]. keeps_step; [keeps_auto|]; intros ?. keeps_step; [keeps_auto|].
  keeps_step; [keeps_auto|]; intros ?.
  eapply (keeps_bind_cost 4 0); [apply keeps_delete|]. keeps_auto.
Qed.

(** *** Starting *)

Lemma unref_live rm n :
  rm_live rm = true -> refcnt rm = Z.of_nat (S n) -> (Z.of_nat (S n) < 2 ^ 64)%Z ->
  exists rm', restart_manager_unref rm = Some rm' /\ canceled rm' = canceled rm /\
    (n <> 0%nat -> rm_live rm' = true /\ refcnt rm' = Z.of_nat n).
Proof.
  intros Hl Hc Hn. unfold restart_manager_unref, restart_manager_free, deref, atomic_int_dec_test.
  rewrite Hl, Hc. rewrite wrap_u_small by lia.
  replace (Z.of_nat (S n) - 1)%Z with (Z.of_nat n) by lia.
  destruct (Z.eqb_spec (Z.of_nat n) 0) as [E0|E0]; cbn; [rewrite Hl|]; eexists; (split; [done|]);
    (split; [done|]); [lia|done].
Qed.

Lemma on_rm_run {A} p (f : restart_manager_t -> option (A * restart_manager_t)) w rm a rm' :
  w_rms w !! p = Some rm -> f rm = Some (a, rm') ->
  on_rm p f w = Some (a, put_rms (<[p := rm']> (w_rms w)) w).
Proof.
  intros Hp Hf. unfold on_rm, gets, lift, mbind, M_bind. rewrite Hp. cbn. by rewrite Hf.
Qed.

(** The container lets go of its manager: it is cancelled for whoever still holds it. *)
Lemma reset_rm_spec own held n w rc :
  few_own own -> inv own held n w ->
  wp (container_reset_restart_manager rc) (fun ok w' => ok = true /\ inv own held n w' /\
    framed w w' /\ w_trace w' = w_trace w /\ w_store w' = w_store w /\ w_vols w' = w_vols w /\
    ct_rm (w_cont w') = NULL /\
    (if rc then container_state_reset_restart_count else id) (ct_state (w_cont w))
      = ct_state (w_cont w') /\
    ct_hostconfig (w_cont w') = ct_hostconfig (w_cont w) /\
    (ct_rm (w_cont w) <> NULL -> exists rm, w_rms w' !! ct_rm (w_cont w) = Some rm /\ canceled rm = true)) w.
Proof.
  intros Hown Hi. destruct (inv_rms _ _ _ _ Hi) as [others Hr].
  destruct (inv_cont _ _ _ _ Hi) as [(s & Hs & Hc) Hh].
  unfold container_reset_restart_manager. apply wp_mbind, wp_gets, wp_mbind.
  set (p := ct_rm (w_cont w)).
  assert (exists rms', (if decide (p = NULL) then (mret true : M world bool)
      else z ← on_rm p restart_manager_cancel;
           if negb (z =? 0)%Z then mret false else unref_at p;; mret true) w
    = Some (true, put_rms rms' w) /\
    rms_ok own (put_ct_rm NULL (w_cont w)) rms' others /\
    (p <> NULL -> exists rm, rms' !! p = Some rm /\ canceled rm = true)) as (rms' & Hrun & Hr' & Hcan).
  { destruct (decide (p = NULL)) as [Hp|Hp].
    - exists (w_rms w). split; [by destruct w|]. split; [|done]. destruct Hr as [H1 H2 H3].
      split; try done. intros q Hq. unfold rm_refs in *. cbn. specialize (H3 q Hq).
      rewrite decide_False in H3 by (fold p; congruence).
      by rewrite decide_False by congruence.
    - destruct (rm_exact _ _ _ _ Hr p Hp) as (rm & Hrm & Hl & Hcnt).
      { unfold rm_refs. rewrite decide_True by done. lia. }
      pose proof (rm_few _ _ _ _ Hr p) as Hfew. pose proof (occ_le p own) as Hocc.
      unfold few_own in Hown. unfold rm_refs in Hcnt. rewrite decide_True in Hcnt by done.
      destruct (unref_live (put_canceled true rm) (occ p own + others p)) as (rm' & Hu & Hcr & Hlive);
        [done|cbn in *; lia|lia|].
      exists (<[p := rm']> (w_rms w)). split_and!.
      + erewrite bind_run; [|eapply on_rm_run; [exact Hrm|];
          unfold restart_manager_cancel, deref; by rewrite Hl]. cbn [negb Z.eqb].
        erewrite bind_run; [|eapply on_rm_run; [apply lookup_insert_eq|by rewrite Hu]].
        cbn. by rewrite insert_insert_eq.
      + split; cbn; [destruct (rm_null _ _ _ _ Hr) as (?&?&?); by rewrite lookup_insert_ne|apply Hr|].
        intros q Hq Hz. unfold rm_refs in *. cbn in *. rewrite decide_False in Hz |- * by congruence.
        destruct (decide (q = p)) as [->|Hne].
        * rewrite lookup_insert_eq. destruct Hlive; [cbn in Hz; lia|]. eauto.
        * rewrite lookup_insert_ne by done. pose proof (rm_exact _ _ _ _ Hr q Hq) as Hex.
          unfold rm_refs in Hex. rewrite decide_False in Hex by (fold p; congruence). by apply Hex.
      + intros _. exists rm'. by rewrite lookup_insert_eq, Hcr. }
  exists true, (put_rms rms' w). split; [exact Hrun|].
  destruct rc; cbn [when negb]; eexists _, _; (split; [reflexivity|]); cbn; rewrite ?Hs; cbn;
    (split; [done|]); (split_and!; try done).
  - split; try apply Hi; [split; [|done]|]; cbn.
    + eexists. split; [done|]. by eapply (cs_call_inv ResetRestartCount).
    + exists others. destruct Hr'. by split.
  - split; try apply Hi; [split; [|done]|]; cbn.
    + by exists s.
    + exists others. destruct Hr'. by split.
Qed.

Lemma keeps_reset_rm c b rc : keeps c b (container_reset_restart_manager rc) b.
Proof.
  intros own held n w Hown Hi Hb. apply inv_weaken with (m := n) in Hi; [|lia].
  eapply wp_conseq; [by apply reset_rm_spec|]. cbv beta.
  intros ok w' (_ & Hi' & (Hl & Hf & Hs) & _). split_and!; [done|congruence|done|done].
Qed.

Lemma keeps_verify_mounts c b mps : keeps c b (verify_mounts E mps) b.
Proof.
  induction mps as [|mp mps IH]; cbn; unfold valid_mount_point; keeps_auto.
Qed.

Lemma keeps_mount_dev c b : keeps c b (mount_dev_tmpfs_for_system_container E) b.
Proof. unfold mount_dev_tmpfs_for_system_container. keeps_auto. Qed.

Lemma keeps_user_remap c b : keeps c b (prepare_user_remap_config E) b.
Proof. unfold prepare_user_remap_config. keeps_auto. Qed.

Lemma keeps_before_fifo c b rr : Forall (fun m => keeps c b m b) (before_fifo E rr).
Proof.
  unfold before_fifo. repeat constructor; keeps_auto; eauto using keeps_mount_dev, keeps_user_remap, keeps_reset_rm.
Qed.

Lemma keeps_start_steps c b : Forall (fun m => keeps c b m b) (start_steps E).
Proof. unfold start_steps. repeat constructor; keeps_auto; eauto using keeps_verify_mounts. Qed.

(** Guarded steps: either all of them succeed and the rest runs, or one fails. *)
Lemma wp_run_steps steps l (k : M world outcome) own held n w (Q : outcome -> world -> Prop) :
  Forall (fun m => keeps 0 true m true) steps -> few_own own ->
  inv own held n w -> w_locked w = true ->
  (forall w', inv own held n w' -> framed w w' -> wp k Q w') ->
  (forall w', inv own held n w' -> framed w w' -> Q (-1, l, no_pid)%Z w') ->
  wp (run_steps steps l k) Q w.
Proof.
  intros Hsteps Hown. revert w. induction Hsteps as [|m steps Hm _ IH]; intros w Hi Hb Hk Hfail.
  { apply Hk; [done|apply framed_refl]. }
  change (wp (or_goto m l (run_steps steps l k)) Q w). unfold or_goto. apply wp_mbind.
  eapply wp_conseq; [apply (Hm own held n w Hown); [by rewrite Nat.add_0_r|done]|].
  cbv beta. intros z w1 (Hi1 & Hl1 & Hf1 & Hs1).
  assert (framed w w1) as Hfr by (split_and!; [congruence|done..]).
  apply wp_if; intros _; [apply wp_mret; by apply Hfail|].
  apply IH; [done..|intros w2 ? ?|intros w2 ? ?]; [apply Hk|apply Hfail]; try done;
    by eapply framed_trans.
Qed.

Lemma prepare_files_spec own held n w :
  few_own own -> inv own held n w -> w_locked w = true ->
  wp (prepare_start_state_files E) (fun r w' => inv own held n w' /\ w_locked w' = true /\
    same_id (w_cont w) (w_cont w') /\
    w_fds w' = if (r.1 =? 0)%Z then r.2 :: w_fds w else w_fds w) w.
Proof.
  intros Hown Hi Hb. unfold prepare_start_state_files.
  assert (forall c w1, inv own held n w1 -> w_locked w1 = true ->
    wp (ext E c) (fun _ w' => inv own held n w' /\ framed w1 w') w1) as He.
  { intros c w1 Hi1 Hb1. eapply wp_conseq; [apply (keeps_ext 0 true c own held n); try done;
      by rewrite Nat.add_0_r|]. cbv beta. intros z w2 (?&?&?&?). split; [done|].
    split_and!; [congruence|done..]. }
  assert (forall c (k : Z -> M world (Z * Z)) w1 Q, inv own held n w1 -> framed w w1 ->
    (forall z w2, inv own held n w2 -> framed w w2 -> wp (k z) Q w2) -> wp (ext E c ≫= k) Q w1) as Hstep.
  { intros c k w1 Q Hi1 Hf1 Hk. apply wp_mbind. eapply wp_conseq; [apply He; [done|]|].
    - destruct Hf1 as (-> & _). done.
    - cbv beta. intros z w2 [? ?]. apply Hk; [done|by eapply framed_trans]. }
  assert (forall r w1, inv own held n w1 -> framed w w1 -> (r.1 =? 0)%Z = false ->
    wp (mret r) (fun r w' => inv own held n w' /\ w_locked w' = true /\
      same_id (w_cont w) (w_cont w') /\
      w_fds w' = if (r.1 =? 0)%Z then r.2 :: w_fds w else w_fds w) w1) as Hret.
  { intros r w1 Hi1 (?&?&?) Hr. apply wp_mret. rewrite Hr. split_and!; [done|congruence|done..]. }
  do 5 (apply Hstep; [done|done || apply framed_refl|]; intros ? ? ? ?;
        apply wp_if; intros _; [by apply Hret|]).
  apply Hstep; [done..|]. intros fd w' Hi2 (Hl & Hf & Hs). apply wp_if; intros _; [by apply Hret|].
  apply wp_mbind, wp_modify, wp_mret. cbn. split_and!; [|congruence|done|by rewrite Hf].
  destruct Hi2. by split.
Qed.

Lemma drop_fd_head fd l : drop_fd fd (fd :: l) = Some l.
Proof. cbn. by rewrite Z.eqb_refl. Qed.

(** A consistent world under the lock, with the descriptors [fds] open, reached from
    [w0]. *)
Record under_lock own held n (w0 : world) (fds : list Z) w : Prop := {
  ul_inv : inv own held n w;
  ul_locked : w_locked w = true;
  ul_id : same_id (w_cont w0) (w_cont w);
  ul_fds : w_fds w = fds
}.

Lemma wp_keeps_under {A} (m : M world A) own held n w0 fds w :
  keeps 0 true m true -> few_own own -> under_lock own held n w0 fds w ->
  wp m (fun _ w' => under_lock own held n w0 fds w') w.
Proof.
  intros Hm Hown [Hi Hl Hs Hf]. eapply wp_conseq; [apply (Hm own held n w Hown); [|done];
    by rewrite Nat.add_0_r|].
  cbv beta. intros _ w' (? & ? & ? & ?). split; [done..|by etransitivity|congruence].
Qed.

Lemma put_fds_under own held n w0 fds fds' w :
  under_lock own held n w0 fds w -> under_lock own held n w0 fds' (put_fds fds' w).
Proof. intros [Hi Hl Hs Hf]. split; [|done..]. destruct Hi. by split. Qed.

(** The descriptor is open exactly when control goes to [close_exit_fd]. *)
Lemma start_runtime_spec own held n w0 w fd l0 :
  few_own own -> under_lock own held n w0 (fd :: l0) w ->
  wp (start_runtime E fd) (fun r w' => under_lock own held n w0
    (match r.1.2 with L_close_exit_fd => fd :: l0 | _ => l0 end) w') w.
Proof.
  intros Hown Hu. unfold start_runtime. apply wp_mbind, wp_gets, wp_mbind.
  eapply wp_conseq; [by apply (wp_keeps_under (ext E _)); [apply keeps_ext|..]|].
  cbv beta. intros ret w1 Hu1. apply wp_mbind, wp_gets. apply wp_if; intros _; [|by apply wp_mret].
  apply wp_mbind. unfold do_post_start_on_success. apply wp_mbind, wp_gets, wp_mbind.
  rewrite (ul_fds _ _ _ _ _ _ Hu1). eapply wp_lift; [apply drop_fd_head|].
  apply wp_mbind, wp_modify, wp_mbind.
  eapply wp_conseq; [apply (wp_keeps_under (ext E _)); [apply keeps_ext|done|by eapply put_fds_under]|].
  cbv beta. intros z w2 Hu2. apply wp_mret. apply wp_if; intros _; by apply wp_mret.
Qed.

Lemma start_body_spec own held n w0 fds w rr :
  few_own own -> under_lock own held n w0 fds w ->
  wp (start_body E rr) (fun r w' => under_lock own held n w0
    (match r.1.1.2 with L_close_exit_fd => r.2 :: fds | _ => fds end) w') w.
Proof.
  intros Hown Hu. pose proof Hu as [Hi Hl Hs Hf]. unfold start_body.
  assert (forall w', inv own held n w' -> framed w w' -> under_lock own held n w0 fds w') as Hfr.
  { intros w' ? (? & ? & ?). split; [done|congruence|by etransitivity|congruence]. }
  apply wp_mbind. apply (wp_run_steps _ _ _ own held n); [apply keeps_before_fifo|done..| |].
  2: { intros w' ? ?. cbn. apply wp_mret. by apply Hfr. }
  intros w1 Hi1 Hf1. apply wp_mret. cbn [fst snd negb Z.eqb]. specialize (Hfr w1 Hi1 Hf1). clear Hf1.
  apply wp_mbind. eapply wp_conseq; [apply prepare_files_spec; [done..|apply Hfr]|].
  cbv beta. intros [ret fd] w2 (Hi2 & Hl2 & Hs2 & Hf2). cbn [fst snd] in *.
  destruct (Z.eqb_spec ret 0) as [->|]; cbn [negb].
  2: { apply wp_mret. split; [done..| |by rewrite Hf2, (ul_fds _ _ _ _ _ _ Hfr)].
       etransitivity; [apply Hfr|done]. }
  assert (under_lock own held n w0 (fd :: fds) w2) as Hu2.
  { split; [done..| |by rewrite Hf2, (ul_fds _ _ _ _ _ _ Hfr)]. etransitivity; [apply Hfr|done]. }
  apply wp_mbind. apply (wp_run_steps _ _ _ own held n); [apply keeps_start_steps|done..| |].
  - intros w3 Hi3 (? & ? & ?). eapply wp_conseq; [eapply (start_runtime_spec own held n w0 w3 fd fds); [done|]|].
    + split; [done|congruence|by etransitivity; [apply Hu2|]|]. rewrite <-(ul_fds _ _ _ _ _ _ Hu2). done.
    + cbv beta. intros r w4 Hu4. by apply wp_mret.
  - intros w3 Hi3 (? & ? & ?). apply wp_mret. cbn.
    split; [done|congruence|by etransitivity; [apply Hu2|]|]. by rewrite <-(ul_fds _ _ _ _ _ _ Hu2).
Qed.

Lemma keeps_do_start rr : keeps 0 true (do_start_container E rr) true.
Proof.
  intros own held n w Hown Hi Hb. rewrite Nat.add_0_r in Hi.
  assert (under_lock own held n w (w_fds w) w) as Hu by by split.
  apply wp_mbind. eapply wp_conseq; [by apply start_body_spec|].
  cbv beta. intros [[[ret l] pi] fd] w1 Hu1. cbn in Hu1.
  assert (forall m : M world unit, keeps 0 true m true -> forall w1, under_lock own held n w (w_fds w) w1 ->
    wp (m;; when (negb (ret =? 0)%Z)
          (ext_ E UmountRootfs;; _ ← umount_dev_tmpfs_for_system_container E; mret tt);;
        mret (ret, pi))
      (fun _ w' => inv own held n w' /\ w_locked w' = true /\ w_fds w' = w_fds w /\
                   same_id (w_cont w) (w_cont w')) w1) as Htail.
  { intros m Hm w2 Hu2. eapply wp_conseq; [apply (wp_keeps_under _ own held n w (w_fds w)); [|done..]|].
    - keeps_auto; eauto using keeps_umount_dev.
    - cbv beta. intros _ w3 [? ? ? ?]. done. }
  destruct l; [apply (Htail (mret tt)); [apply keeps_ret|done]| |
               apply (Htail (clean_resources_on_failure E)); [apply keeps_ext_|done]].
  apply wp_mbind. unfold close_fd. apply wp_mbind, wp_mbind, wp_gets, wp_mbind.
  rewrite (ul_fds _ _ _ _ _ _ Hu1). eapply wp_lift; [apply drop_fd_head|].
  apply wp_mbind, wp_modify. eapply put_fds_under in Hu1.
  eapply wp_conseq; [apply (wp_keeps_under (ext_ E _)); [apply keeps_ext_|done|exact Hu1]|].
  cbv beta. intros _ w2 Hu2.
  apply (Htail (clean_resources_on_failure E)) in Hu2; [|apply keeps_ext_]. by apply wp_bind_inv in Hu2.
Qed.

Lemma keeps_start_failed : keeps 4 true (start_failed E) true.
Proof. unfold start_failed. keeps_auto; eauto using keeps_save_after. Qed.

(** The clock never shows the placeholder date. *)
Lemma keeps_now {A} c b (k : string -> M world A) b' :
  (forall now, now <> defaultContainerTime -> keeps c b (k now) b') ->
  keeps c b (now ← gets (fun w => e_now E (w_trace w)); k now) b'.
Proof.
  intros Hk own held n w Hown Hi Hb. apply wp_mbind, wp_gets. by apply Hk; [apply rely_now|..].
Qed.

Lemma keeps_start_succeeded c b pi : keeps c b (start_succeeded E pi) b.
Proof.
  apply keeps_now. intros now Hnow.
  keeps_step; [by apply (keeps_upd _ _ (SetRunning now (Some pi) true))|]. intros _.
  keeps_step; [by apply (keeps_upd _ _ ResetManualStop)|]. intros _. apply keeps_ext_.
Qed.

Lemma keeps_save c b ret : keeps c b (save_container E ret) b.
Proof. unfold save_container. keeps_auto. Qed.

Lemma keeps_guards c b rr : keeps c b (start_guards E rr) b.
Proof. unfold start_guards. keeps_auto. Qed.

Lemma keeps_start rr : keeps 4 false (start_container E rr) false.
Proof.
  unfold start_container. keeps_step; [keeps_auto|]; intros _.
  keeps_step; [apply keeps_guards|]; intros early. eapply (keeps_bind_cost 4 0); [|keeps_auto].
  destruct early as [ret|]; [keeps_auto|]. keeps_step; [apply keeps_do_start|]; intros r.
  keeps_step.
  - eapply (keeps_bind_cost 4 0); [apply keeps_start_failed|]. keeps_auto; eauto using keeps_save.
  - keeps_auto; eauto using keeps_start_succeeded, keeps_save.
Qed.

Lemma keeps_pause c : keeps c false (do_pause_container E) false.
Proof.
  unfold do_pause_container. keeps_auto; eauto using keeps_save.
  apply (keeps_upd _ _ SetPaused). done.
Qed.

Lemma keeps_resume c : keeps c false (do_resume_container E) false.
Proof.
  unfold do_resume_container. keeps_auto; eauto using keeps_save.
  apply (keeps_upd _ _ ResetPaused). done.
Qed.

Lemma keeps_restart_container c : keeps c false (restart_container E) false.
Proof.
  unfold restart_container. do 3 (keeps_step; [keeps_auto|]; intros ?).
  keeps_step; [|keeps_auto]. keeps_step; [keeps_auto|].
  keeps_step; [keeps_auto|]; intros now. keeps_step; [keeps_auto|]; intros ret.
  keeps_step; [keeps_auto|]. apply keeps_now. intros now' Hnow. keeps_step; [|intros; apply keeps_save].
  apply keeps_when. by apply (keeps_upd _ _ (RestartUpdate now' (Some now))).
Qed.

Lemma keeps_to_disk_locking c : keeps c false (to_disk_locking E) false.
Proof. unfold to_disk_locking. keeps_auto. Qed.

Lemma keeps_stop_and_start t : keeps 4 false (stop_and_start E t) false.
Proof.
  unfold stop_and_start. keeps_step; [apply keeps_stop_container|]; intros ret.
  eapply (keeps_bind_cost 4 0).
  - keeps_step; [keeps_auto|]. keeps_step; [by apply (keeps_upd _ _ SetStarting)|]; intros _.
    keeps_step; [apply keeps_to_disk_locking|]; intros ?. keeps_step; [keeps_auto|].
    keeps_step; [keeps_auto|]; intros ?. keeps_step; [keeps_auto|].
    eapply (keeps_bind_cost 4 0); [apply keeps_start|]. keeps_auto.
  - intros cc. keeps_auto. by apply (keeps_upd _ _ ResetStarting).
Qed.

Lemma keeps_do_restart t : keeps 4 false (do_restart_container E t) false.
Proof.
  unfold do_restart_container. keeps_auto; eauto using keeps_restart_container, keeps_stop_and_start.
Qed.

(** *** Exits *)

Lemma should_restart_balanced code stopped d :
  balanced (fun e c => r ← restart_manager_should_restart e code stopped d (Some c);
                       c ← r.2; Some (r.1, c)).
Proof.
  intros e k c Ho. destruct (should_restart_owned e code stopped d k c Ho) as (b & t & c' & -> & ? & _).
  cbn. eauto.
Qed.

Lemma keeps_should_restart b code stopped d : keeps 2 b (rm_should_restart E code stopped d) b.
Proof.
  unfold rm_should_restart. keeps_step; [keeps_auto|]; intros id.
  apply (keeps_store_lookup 1); [|rewrite decide_True by done; keeps_auto].
  intros own held n w x Hown Hx Hi Hb. rewrite decide_False by done. apply wp_mbind.
  eapply wp_conseq; [apply (keeps_with_rm 0 b _ (should_restart_balanced code stopped d) own
    (add_ref x 1 held) (n + 1)%nat); [done|by rewrite Nat.add_0_r|done]|].
  cbv beta. intros r w1 (Hi1 & Hl1 & Hf1 & Hs1). apply wp_mbind. rewrite Nat.add_1_r in Hi1.
  eapply wp_conseq; [by apply wp_unref_back|].
  cbv beta. intros _ w2 ((? & ? & ?) & Hi2). apply wp_mret.
  split_and!; [done|congruence|congruence|by etransitivity].
Qed.

Lemma keeps_exited b ev : keeps 2 b (exited E ev) b.
Proof.
  unfold exited. do 2 (keeps_step; [keeps_auto|]; intros ?).
  eapply (keeps_bind_cost 2 0); [apply keeps_should_restart|]. intros r.
  keeps_step; [keeps_step|keeps_auto].
  - keeps_step; [by apply (keeps_upd _ _ IncRestartCount)|]; intros _.
    apply keeps_now. intros now Hnow.
    keeps_step; [by apply (keeps_upd _ _ (SetRestarting now (wrap_s 32 (ev_exit_status ev))))|].
    keeps_auto.
  - keeps_auto.
Qed.

Lemma keeps_state_changed ev : keeps 6 false (container_state_changed E ev) false.
Proof.
  unfold container_state_changed. keeps_step; [keeps_auto|].
  do 2 (keeps_step; [keeps_auto|]; intros ?). keeps_step; intros s.
  eapply (keeps_bind_cost 2 4).
  - keeps_step; [keeps_auto|]. keeps_step; [keeps_auto|]. apply keeps_exited.
  - intros r. keeps_step; [keeps_auto|]; intros _. keeps_step; [|keeps_auto].
    eapply (keeps_bind_cost 4 0); [apply keeps_delete|]. keeps_auto.
Qed.

Lemma keeps_clean c p : keeps c false (clean_container_resource E p) false.
Proof. unfold clean_container_resource. keeps_auto; eauto using keeps_do_clean. Qed.

(** *** The restart thread *)

Lemma occ_cons q p own : occ q (p :: own) = ((if decide (q = p) then 1 else 0) + occ q own)%nat.
Proof.
  unfold occ. rewrite filter_cons. by repeat case_decide.
Qed.

(** The thread takes a reference to the manager of the container. *)
Lemma get_rm_spec own held n w :
  few_own own -> inv own held n w ->
  wp (get_rm E) (fun p w' => framed w w' /\
    inv (if decide (p = NULL) then own else p :: own) held n w') w.
Proof.
  intros Hown Hi. destruct (inv_rms _ _ _ _ Hi) as [others Hr].
  destruct (rm_view_owned own held n w others Hi Hown Hr) as (c & Hv & _ & Hcrm & Ho & Hk & Hk0).
  set (k := Z.of_nat _) in *.
  destruct (get_restart_manager_owned (e_rm E (w_trace w)) k c Ho Hk Hk0)
    as [[Hg Hn]|(rm & rm0 & Hg & Hrm0 & -> & Hl)].
  - apply wp_mbind. exists false, (rm_put E c w). split; [unfold with_rm; rewrite Hv; cbn; by rewrite Hg|].
    destruct (rm_put_frame c w) as (E1 & E2 & _ & _ & _ & E3 & _).
    apply wp_mret. split; [done|]. rewrite decide_True by done.
    eapply inv_rm_put; [done|]. apply (rm_put_ok own own others); [done|apply Hr|..].
    + unfold rm_owned. by rewrite Hn.
    + done.
    + intros _ Hz. specialize (Hk0 Hn). subst k. lia.
  - set (c' := put_rm (Some (put_refcnt (2 + k) rm0)) c) in *.
    apply wp_mbind. exists true, (rm_put E c' w). split; [unfold with_rm; rewrite Hv; cbn; by rewrite Hg|].
    destruct (rm_put_frame c' w) as (E1 & E2 & _ & _ & _ & E3 & _). apply wp_gets.
    set (p := ct_rm (w_cont (rm_put E c' w))).
    assert (p = if decide (ct_rm (w_cont w) = NULL) then e_fresh E (w_rms w) else ct_rm (w_cont w))
      as Hp by done.
    destruct (rely_fresh (w_rms w)) as [Hf1 Hf2].
    assert (p <> NULL) as Hpn by (rewrite Hp; by case_decide).
    split; [done|]. rewrite decide_False by done.
    eapply inv_rm_put; [done|]. apply (rm_put_ok own (p :: own) others); [done|..].
    + destruct (rm_null _ _ _ _ Hr) as (? & _). set_solver.
    + change (c_rm c') with (Some (put_refcnt (2 + k) rm0)). cbv beta iota. rewrite <-Hp.
      split; [done|]. change (2 + k = 1 + Z.of_nat (occ p (p :: own) + others p))%Z.
      rewrite occ_cons, decide_True by done. enough (Z.of_nat (occ p own + others p) = k) by lia. unfold k.
      rewrite Hp. case_decide as Hz; [|done].
      pose proof (rm_refs_fresh _ _ _ _ _ Hr Hf1 Hf2) as H0. unfold rm_refs in H0.
      rewrite decide_False in H0 by congruence. rewrite Hz.
      destruct (rm_null _ _ _ _ Hr) as (Hno & E0 & _). rewrite (occ_zero NULL) by done. lia.
    + intros q Hq. change (c_rm c') with (Some (put_refcnt (2 + k) rm0)) in Hq. cbv beta iota in Hq.
      rewrite <-Hp in Hq. rewrite occ_cons, decide_False by done. done.
    + done.
Qed.

(** And gives it back, at any later time. *)
Lemma unref_at_spec p own held n w :
  few_own own -> inv (p :: own) held n w ->
  wp (unref_at p) (fun _ w' => framed w w' /\ inv own held n w') w.
Proof.
  intros Hown Hi. destruct (inv_rms _ _ _ _ Hi) as [others Hr].
  destruct (rm_null _ _ _ _ Hr) as (Hno & Hn0 & Hnn). assert (p <> NULL) as Hp by set_solver.
  pose proof (rm_few _ _ _ _ Hr p) as Hfew. pose proof (occ_le p own) as Hocc. unfold few_own in Hown.
  destruct (rm_exact _ _ _ _ Hr p Hp) as (rm & Hrm & Hl & Hc);
    [unfold rm_refs; rewrite occ_cons, (decide_True (P := p = p)) by done; lia|].
  assert (rm_refs (w_cont w) (p :: own) others p = S (rm_refs (w_cont w) own others p)) as HS.
  { unfold rm_refs. rewrite occ_cons, (decide_True (P := p = p)) by done. lia. }
  rewrite HS in Hc.
  destruct (unref_live rm (rm_refs (w_cont w) own others p)) as (rm' & Hu & _ & Hlive); [done|done|..].
  { unfold rm_refs in *. case_decide; lia. }
  exists tt, (put_rms (<[p := rm']> (w_rms w)) w). split.
  { eapply on_rm_run; [done|]. by rewrite Hu. }
  split; [by split_and!|]. destruct Hi as [H1 _ H3 H4]. split; try done. exists others.
  split; cbn; [rewrite lookup_insert_ne by done; set_solver|apply Hr|].
  intros q Hq Hz. destruct (decide (q = p)) as [->|Hne].
  - rewrite lookup_insert_eq. destruct (Hlive Hz). eauto.
  - rewrite lookup_insert_ne by done. pose proof (rm_exact _ _ _ _ Hr q Hq) as Hex.
    unfold rm_refs in *. rewrite occ_cons, (decide_False (P := q = p)) in Hex by done.
    cbn in Hex. by apply Hex.
Qed.

Lemma wait_cancel_spec p own held n w t :
  few_own (p :: own) -> inv (p :: own) held n w ->
  wp (rm_wait_cancel E p t) (fun _ w' => framed w w' /\ inv (p :: own) held n w') w.
Proof.
  intros Hown Hi. destruct (inv_rms _ _ _ _ Hi) as [others Hr].
  destruct (rm_null _ _ _ _ Hr) as (Hno & _). assert (p <> NULL) as Hp by set_solver.
  destruct (rm_exact _ _ _ _ Hr p Hp) as (rm & Hrm & Hl & _);
    [unfold rm_refs; rewrite occ_cons, (decide_True (P := p = p)) by done; lia|].
  unfold rm_wait_cancel. rewrite decide_False by done. apply wp_mbind, wp_gets, wp_mbind.
  eapply wp_lift; [done|]. rewrite Hl. cbn [negb]. apply wp_if; intros _.
  - apply wp_mret. by split; [apply framed_refl|].
  - eapply wp_conseq; [apply (keeps_ext 0 (w_locked w) (WaitCancel t) (p :: own) held n);
      [done|by rewrite Nat.add_0_r|done]|].
    cbv beta. intros _ w' (? & ? & ? & ?). by split_and!.
Qed.

Lemma keeps_restart_set_stopped c code : keeps c false (restart_set_stopped E code) false.
Proof. unfold restart_set_stopped. keeps_auto. Qed.

Lemma restart_with_spec p own held n w t code :
  few_own (p :: own) -> inv (p :: own) held (n + 4) w -> w_locked w = false ->
  wp (restart_with E p t code) (fun _ w' => framed w w' /\ inv own held n w') w.
Proof.
  intros Hown Hi Hb. unfold restart_with. apply wp_mbind.
  eapply wp_conseq; [by apply wait_cancel_spec|]. cbv beta. intros ret w1 ((Hl1 & Hf1 & Hs1) & Hi1).
  apply wp_mbind. match goal with |- wp ?m _ _ => assert (keeps 4 false m false) as Hk end.
  { keeps_step; [apply keeps_restart_set_stopped|].
    eapply (keeps_bind_cost 4 0); [apply keeps_start|]. keeps_auto. apply keeps_restart_set_stopped. }
  eapply wp_conseq; [eapply Hk; [exact Hown|exact Hi1|congruence]|].
  cbv beta. intros _ w2 (Hi2 & Hl2 & Hf2 & Hs2).
  eapply wp_conseq; [apply unref_at_spec; [|exact Hi2]|].
  - unfold few_own in *. cbn in *. lia.
  - cbv beta. intros _ w3 ((? & ? & ?) & ?). split; [|done].
    split_and!; [congruence..|]. by etransitivity; [|etransitivity].
Qed.

Lemma keeps_container_restart t code own held n w :
  (Z.of_nat (length own) < 2 ^ 32 - 1)%Z -> inv own held (n + 4) w -> w_locked w = false ->
  wp (container_restart E t code) (fun _ w' => framed w w' /\ inv own held n w') w.
Proof.
  intros Hown Hi Hb. assert (few_own own) as Hown' by (unfold few_own; lia).
  assert (forall {A} (m : M world A) b' w1, keeps 0 (w_locked w1) m b' -> inv own held (n + 4) w1 ->
    wp m (fun _ w' => inv own held (n + 4) w' /\ w_locked w' = b' /\ w_fds w' = w_fds w1 /\
                      same_id (w_cont w1) (w_cont w')) w1) as Hk.
  { intros A m b' w1 Hm Hi1. apply Hm; [done| |done]. by rewrite Nat.add_0_r. }
  unfold container_restart. apply wp_mbind. eapply wp_conseq; [apply Hk; [apply keeps_ext|done]|].
  cbv beta. intros gc w1 (Hi1 & Hl1 & Hf1 & Hs1). rewrite Hb in Hl1. apply wp_if; intros _.
  { eapply wp_conseq; [apply (keeps_restart_set_stopped 4 code own held n w1); done|].
    cbv beta. intros _ w2 (? & ? & ? & ?). split; [|done].
    split_and!; [congruence..|by etransitivity]. }
  apply wp_mbind. eapply wp_conseq; [apply Hk; [rewrite Hl1; apply keeps_lock|done]|].
  cbv beta. intros _ w2 (Hi2 & Hl2 & Hf2 & Hs2). apply wp_mbind.
  eapply wp_conseq; [by apply get_rm_spec|]. cbv beta. intros p w3 ((Hl3 & Hf3 & Hs3) & Hi3).
  apply wp_mbind, wp_mbind, wp_gets. rewrite Hl3, Hl2. apply wp_modify.
  assert (framed w (put_locked false w3)) as Hfr.
  { split_and!; cbn; [done|congruence|]. by rewrite Hs1, Hs2. }
  destruct (decide (p = NULL)) as [Hz|Hz].
  - eapply wp_conseq; [apply (keeps_restart_set_stopped 4 code own held n (put_locked false w3));
      [done|by apply inv_locked|done]|].
    cbv beta. intros _ w4 (? & ? & ? & ?). split; [|done].
    eapply framed_trans; [done|]. by split_and!.
  - eapply wp_conseq; [apply (restart_with_spec p own held n (put_locked false w3));
      [unfold few_own; cbn; lia|by apply inv_locked|done]|].
    cbv beta. intros _ w4 (? & ?). split; [by eapply framed_trans|done].
Qed.

(** *** After garbage collection *)

Lemma keeps_policy_after_gc : keeps 2 false (apply_restart_policy_after_gc E) false.
Proof.
  unfold apply_restart_policy_after_gc. do 2 (keeps_step; [keeps_auto|]; intros ?).
  eapply (keeps_bind_cost 2 0); [|keeps_auto]. keeps_step; [keeps_auto|].
  keeps_step; intros s. keeps_step; [keeps_auto|]; intros since.
  eapply (keeps_bind_cost 2 0); [apply keeps_should_restart|]. intros r. apply keeps_when.
  keeps_step; [by apply (keeps_upd _ _ IncRestartCount)|]; intros _.
  apply keeps_now. intros now Hnow. keeps_step; [by eapply (keeps_upd _ _ (SetRestarting now _))|].
  keeps_auto.
Qed.

Lemma keeps_auto_remove_after_gc : keeps 4 false (apply_auto_remove_after_gc E) false.
Proof.
  unfold apply_auto_remove_after_gc. do 2 (keeps_step; [keeps_auto|]; intros ?).
  apply keeps_when. keeps_step; [keeps_auto|]; intros ?.
  eapply (keeps_bind_cost 4 0); [apply keeps_delete|]. keeps_auto.
Qed.

Lemma keeps_gc_resume c b : keeps c b (do_runtime_resume_container E) b.
Proof.
  unfold do_runtime_resume_container. keeps_auto; eauto using keeps_save.
  by apply (keeps_upd _ _ ResetPaused).
Qed.

(** *** When the daemon starts *)

Lemma keeps_set_running c b i initial : keeps c b (set_running E i initial) b.
Proof. apply keeps_now. intros now Hnow. by apply (keeps_upd _ _ (SetRunning now (Some i) initial)). Qed.

Lemma keeps_restore_state c b : keeps c b (restore_state E) b.
Proof.
  unfold restore_state, restore_stopped_container, restore_running_container,
    restore_paused_container, try_to_set_container_running, try_to_set_paused_container_pid, lost_process.
  keeps_auto; eauto using keeps_set_running;
    by first [ apply (keeps_upd _ _ ResetRemoval) | apply (keeps_upd _ _ ResetManualStop)
             | apply (keeps_upd _ _ SetPaused) ].
Qed.

Lemma keeps_restored_restart b : keeps 2 b (restored_restart_container E) b.
Proof.
  unfold restored_restart_container. keeps_step; intros s.
  keeps_step; [keeps_auto|]; intros since.
  eapply (keeps_bind_cost 2 0); [apply keeps_should_restart|]. keeps_auto.
  by apply (keeps_upd _ _ IncRestartCount).
Qed.

Lemma keeps_handle_restored : keeps 4 false (handle_restored E) false.
Proof.
  unfold handle_restored. keeps_step; [keeps_auto|]; intros _.
  keeps_step; [apply keeps_reset_rm|]; intros _. keeps_step; [keeps_auto|]; intros gc.
  eapply (keeps_bind_cost 4 0); [|keeps_auto]. keeps_step; [keeps_auto|].
  keeps_step; [keeps_auto|]; intros running. keeps_step; [keeps_auto|].
  keeps_step; [keeps_auto|]; intros bak. keeps_step.
  - do 2 (keeps_step; [keeps_auto|]; intros ?).
    eapply (keeps_bind_cost 4 0); [apply keeps_delete|]. keeps_auto.
  - eapply keeps_weaken; [apply keeps_restored_restart|lia].
Qed.
End handlers.
End inv.
