(* ===== verification/ServiceProps.v ===== *)
(** What starting, stopping, killing and deleting a container achieve, and what they
    never do, under every behaviour of the environment. *)
From S2P Require Import Prelude Heap RbSearch KeyOrders MapC MapIface MapRefine ContainerState ContainerStateProps RestartManager RestartManagerProps ContainersStore ContainersStoreProps Volume VolumeProps Effects Service ServiceInv.

(** The state as far as the decisions of the handlers go. *)
Record flags (s s' : container_state) : Prop := {
  f_pid : pid s' = pid s;
  f_running : running s' = running s;
  f_paused : paused s' = true -> paused s = true;
  f_restarting : restarting s' = restarting s;
  f_dead : dead s' = dead s;
  f_exit_code : exit_code s' = exit_code s;
  f_manual : has_been_manually_stopped s' = has_been_manually_stopped s;
  f_removal : removal_inprogress s' = true -> removal_inprogress s = true
}.

#[export] Instance flags_preorder : PreOrder flags.
Proof. split; [by intros s; split|]. intros s1 s2 s3 [] []. split; (congruence || auto). Qed.

Lemma flags_unpaused s s' : flags s s' -> paused s = false -> paused s' = false.
Proof. intros [] H. destruct (paused s'); [|done]. rewrite f_paused0 in H; done. Qed.

Lemma quiet_flags s s' : quiet s s' -> flags s s'.
Proof. intros []. by split. Qed.

Section props.
Context {MC MN : Type} {cmp : cstr -> cstr -> Z} `{!KeyOrder cmp}.
Context {opsC : MapOps cstr N MC} `{!MapLaws cmp opsC}.
Context {opsN : MapOps cstr cstr MN} `{!MapLaws cmp opsN}.
Context {D MD MV MR : Type} `{!DeviceInv D} {opsD : MapOps cstr (volume_driver D) MD} `{!MapLaws cmp opsD}.
Context {opsV : MapOps cstr loc MV} `{!MapLaws cmp opsV}.
Context {opsR : MapOps cstr bool MR} `{!MapLaws cmp opsR}.
Abbreviation world := (world MC MN D MD MV MR).
Abbreviation env := (env MC MN D MD MV MR).
Implicit Types (w : world) (own : list N) (held : N -> nat).

(** ** Calls made under the lock

    [advances P w w'] : from [w] to [w'] the lock stayed held, the flags of the state
    did not change, and all calls made satisfy [P]. *)
Record advances (P : call -> Prop) w w' : Prop := {
  adv_locked : w_locked w = true -> w_locked w' = true;
  adv_flags s : w_locked w = true -> ct_state (w_cont w) = Some s ->
    exists s', ct_state (w_cont w') = Some s' /\ flags s s';
  adv_trace : exists new, w_trace w' = new ++ w_trace w /\ Forall P new
}.

Definition adv {A} (P : call -> Prop) (m : M world A) : Prop :=
  forall w a w', w_locked w = true -> m w = Some (a, w') -> advances P w w'.

Lemma advances_refl P w : advances P w w.
Proof. split; [done|intros s; by exists s|by exists []]. Qed.

Lemma advances_trans P w1 w2 w3 : advances P w1 w2 -> advances P w2 w3 -> advances P w1 w3.
Proof.
  intros [L1 F1 (n1 & T1 & P1)] [L2 F2 (n2 & T2 & P2)]. split; [auto|..].
  - intros s Hl Hs. destruct (F1 s Hl Hs) as (s1 & Hs1 & ?).
    destruct (F2 s1 (L1 Hl) Hs1) as (s2 & Hs2 & ?). exists s2. split; [done|by etransitivity].
  - exists (n2 ++ n1). rewrite T2, T1, app_assoc. split; [done|]. by apply Forall_app.
Qed.

Lemma advances_mono (P P' : call -> Prop) w w' :
  (forall c, P c -> P' c) -> advances P w w' -> advances P' w w'.
Proof.
  intros HP [L F (n & T & Pn)]. split; [done..|]. exists n. split; [done|]. by eapply Forall_impl.
Qed.

Lemma bind_inv {A B} (m : M world A) (k : A -> M world B) w b w' :
  (m ≫= k) w = Some (b, w') -> exists a w1, m w = Some (a, w1) /\ k a w1 = Some (b, w').
Proof. unfold mbind, M_bind. destruct (m w) as [[a w1]|]; [|done]. eauto. Qed.

Lemma adv_ret {A} P (a : A) : adv P (mret a).
Proof. intros w b w' _ [= <- <-]. apply advances_refl. Qed.
Lemma adv_gets {A} P (f : world -> A) : adv P (gets f).
Proof. intros w b w' _ [= <- <-]. apply advances_refl. Qed.
Lemma adv_lift {A} P (r : option A) : adv P (lift r).
Proof. intros w b w' _ H. destruct r; [|done]. injection H as <- <-. apply advances_refl. Qed.
Lemma adv_bind {A B} P (m : M world A) (k : A -> M world B) :
  adv P m -> (forall a, adv P (k a)) -> adv P (m ≫= k).
Proof.
  intros Hm Hk w b w' Hl (a & w1 & H1 & H2)%bind_inv. pose proof (Hm _ _ _ Hl H1) as Ha.
  eapply advances_trans; [done|]. eapply Hk; [by apply Ha|done].
Qed.
Lemma adv_if {A} P (b : bool) (m1 m2 : M world A) : adv P m1 -> adv P m2 -> adv P (if b then m1 else m2).
Proof. by destruct b. Qed.
Lemma adv_when P b (m : M world unit) : adv P m -> adv P (when b m).
Proof. destruct b; [done|]. intros _. apply adv_ret. Qed.
Lemma adv_modify P (f : world -> world) :
  (forall w, w_locked (f w) = w_locked w /\ w_trace (f w) = w_trace w /\
     (forall s, ct_state (w_cont w) = Some s ->
        exists s', ct_state (w_cont (f w)) = Some s' /\ flags s s')) -> adv P (modify f).
Proof.
  intros Hf w a w' Hl [= <- <-]. destruct (Hf w) as (H1 & H2 & H3).
  split; [congruence|auto|]. by exists [].
Qed.

Section env.
Context (E : env) `{HR : !Rely (cmp := cmp) E} `{HL : !RelyLock E}.

(** One call under the lock. *)
Lemma ext_inv c w z w' s :
  w_locked w = true -> releases c = false -> ct_state (w_cont w) = Some s ->
  ext E c w = Some (z, w') ->
  z = e_ans E (w_trace w) c /\ w_trace w' = c :: w_trace w /\ w_locked w' = true /\
  exists s', ct_state (w_cont w') = Some s' /\ flags s s'.
Proof.
  intros Hl Hr Hs [= <- <-]. pose proof (rely_other c (put_trace (c :: w_trace w) w)) as Ho.
  split; [done|]. split; [by rewrite (os_trace _ _ _ Ho)|]. split; [by rewrite (os_locked _ _ _ Ho)|].
  destruct (os_quiet _ _ _ (rely_lock c (put_trace (c :: w_trace w) w)) Hl Hr) as [Hq _]. destruct (Hq s Hs) as (s' & ? & ?%quiet_flags). eauto.
Qed.

Lemma adv_ext (P : call -> Prop) c : P c -> releases c = false -> adv P (ext E c).
Proof.
  intros HP Hr w a w' Hl [= <- <-]. pose proof (rely_other c (put_trace (c :: w_trace w) w)) as Hs.
  split.
  - by rewrite (os_locked _ _ _ Hs).
  - intros s _ H. destruct (os_quiet _ _ _ (rely_lock c (put_trace (c :: w_trace w) w)) Hl Hr) as [Hq _].
    destruct (Hq s H) as (s' & ? & ?%quiet_flags). eauto.
  - exists [c]. rewrite (os_trace _ _ _ Hs). split; [done|]. by constructor.
Qed.

Lemma adv_ext_ (P : call -> Prop) c : P c -> releases c = false -> adv P (ext_ E c).
Proof. intros. apply adv_bind; [by apply adv_ext|]. intros. apply adv_ret. Qed.

Lemma adv_on_rm {A} P p (f : restart_manager_t -> option (A * restart_manager_t)) : adv P (on_rm p f : M world A).
Proof.
  apply adv_bind; [apply adv_gets|intros rms]. apply adv_bind; [apply adv_lift|intros rm].
  apply adv_bind; [apply adv_lift|intros r]. apply adv_bind; [|intros; apply adv_ret].
  apply adv_modify. intros w. split_and!; [done..|]. intros s Hs. by exists s.
Qed.

Lemma adv_reset_rm P rc : adv P (container_reset_restart_manager rc : M world bool).
Proof.
  apply adv_bind; [apply adv_gets|intros p].
  apply adv_bind.
  - case_decide; [apply adv_ret|]. apply adv_bind; [apply adv_on_rm|intros z].
    apply adv_if; [apply adv_ret|]. apply adv_bind; [apply adv_on_rm|intros; apply adv_ret].
  - intros ok. apply adv_if; [apply adv_ret|]. apply adv_bind.
    + apply adv_when, adv_modify. intros w. split_and!; [done..|]. intros s Hs. cbn. rewrite Hs.
      eexists. split; [done|]. by split.
    + intros _. apply adv_bind; [|intros; apply adv_ret]. apply adv_modify. intros w.
      split_and!; [done..|]. intros s Hs. by exists s.
Qed.

Ltac adv_auto :=
  repeat lazymatch goal with
  | |- forall _, _ => intros ?
  | |- adv _ (mret _) => apply adv_ret
  | |- adv _ (gets _) => apply adv_gets
  | |- adv _ (lift _) => apply adv_lift
  | |- adv _ (get_state) => apply adv_gets
  | |- adv _ (ext _ _) => apply adv_ext; done
  | |- adv _ (ext_ _ _) => apply adv_ext_; done
  | |- adv _ (container_reset_restart_manager _) => apply adv_reset_rm
  | |- adv _ (_ ≫= _) => apply adv_bind
  | |- adv _ (if _ then _ else _) => apply adv_if
  | |- adv _ (when _ _) => apply adv_when
  | |- adv _ (match ?x with _ => _ end) => destruct x
  end.

(** ** Starting *)

(** The calls that matter for the resources of a start; [b] tells whether the runtime may be
    asked to create the container. *)
Definition prep_call (b : bool) (c : call) : Prop :=
  match c with
  | RtStart _ | RtClean _ | UmountRootfs | AddExitMonitor _ _ => False
  | RtCreate => b = true
  | _ => True
  end.

Lemma adv_before_fifo rr : Forall (fun m => adv (prep_call false) m) (before_fifo E rr).
Proof.
  unfold before_fifo, mount_dev_tmpfs_for_system_container, prepare_user_remap_config.
  repeat (apply Forall_cons; split); [..|apply Forall_nil; done]; adv_auto.
Qed.

Lemma adv_verify_mounts mps : adv (prep_call true) (verify_mounts E mps).
Proof. induction mps as [|mp mps IH]; cbn; unfold valid_mount_point; adv_auto; auto. Qed.

Lemma adv_start_steps : Forall (fun m => adv (prep_call true) m) (start_steps E).
Proof.
  unfold start_steps. repeat (apply Forall_cons; split); [..|apply Forall_nil; done];
    adv_auto; apply adv_verify_mounts.
Qed.

Lemma adv_prepare_files : adv (prep_call false) (prepare_start_state_files E).
Proof.
  unfold prepare_start_state_files. adv_auto. apply adv_modify. intros w. split_and!; [done..|].
  intros s Hs. by exists s.
Qed.

(** Guarded steps end in the first failure or in the continuation. *)
Lemma run_steps_inv P steps l (k : M world outcome) w r w' :
  Forall (fun m => adv P m) steps -> w_locked w = true -> run_steps steps l k w = Some (r, w') ->
  exists w1, advances P w w1 /\
    ((r = (-1, l, no_pid)%Z /\ w' = w1) \/ k w1 = Some (r, w')).
Proof.
  intros Hs. revert w. induction Hs as [|m steps Hm _ IH]; intros w Hl Hrun.
  { exists w. split; [apply advances_refl|by right]. }
  apply bind_inv in Hrun as (z & w1 & Hz & Hrun). pose proof (Hm _ _ _ Hl Hz) as Ha.
  destruct (negb (z =? 0)%Z).
  - injection Hrun as <- <-. exists w1. split; [done|by left].
  - destruct (IH w1) as (w2 & Ha2 & Hc); [by apply Ha|done|].
    exists w2. split; [by eapply advances_trans|done].
Qed.

Lemma advances_prep b w w' s0 :
  w_locked w = true -> ct_state (w_cont w) = Some s0 -> advances (prep_call b) w w' ->
  w_locked w' = true /\ (exists s', ct_state (w_cont w') = Some s' /\ flags s0 s').
Proof. intros Hl Hs [L F _]. eauto. Qed.

(** The body of [do_start_container] up to its labels, by what it returns. *)
Record body_ran w (s0 : container_state) (ret : Z) (l : label) (pi : pid_ppid_info_t) w' : Prop := {
  br_locked : w_locked w' = true;
  br_state : exists s', ct_state (w_cont w') = Some s' /\ flags s0 s';
  br_label : l <> L_out -> ret <> 0%Z;
  br_trace : exists new, w_trace w' = new ++ w_trace w /\
    Forall (fun c => match c with
                     | RtClean _ | UmountRootfs => False
                     | RtStart s => (exists s1, s = Some s1 /\ flags s0 s1) /\
                                    (ret <> 0%Z -> l <> L_out)
                     | RtCreate => ret <> 0%Z -> l <> L_out
                     | _ => True end) new /\
    (ret = 0%Z -> exists fd, AddExitMonitor fd (pi_pid pi) ∈ new)
}.

Lemma body_ran_advances b w w1 s0 s1 ret l pi w' :
  advances (prep_call b) w w1 -> (b = true -> ret <> 0%Z -> l <> L_out) -> flags s0 s1 -> body_ran w1 s1 ret l pi w' -> body_ran w s0 ret l pi w'.
Proof.
  intros [_ _ (n1 & T1 & P1)] Hb Hf [Hl (s' & Hs' & Hf') Hlab (n2 & T2 & P2 & HA)]. split; [done| |done|].
  - exists s'. split; [done|by etransitivity].
  - exists (n2 ++ n1). rewrite T2, T1, app_assoc. split; [done|]. split.
    + apply Forall_app. split.
      * eapply Forall_impl; [exact P2|]. intros []; try done.
        intros [(s2 & -> & ?) ?]. split; [|done]. exists s2. split; [done|by etransitivity].
      * eapply Forall_impl; [exact P1|]. by intros [].
    + intros H0. destruct (HA H0) as [fd ?]. exists fd. set_solver.
Qed.

Lemma body_ran_failed b w s0 w1 l :
  (b = true -> l <> L_out) -> w_locked w = true -> ct_state (w_cont w) = Some s0 -> advances (prep_call b) w w1 ->
  body_ran w s0 (-1) l no_pid w1.
Proof.
  intros Hb Hl Hs Ha. destruct (advances_prep _ _ _ _ Hl Hs Ha) as [? ?]. destruct Ha as [_ _ (n & T & P)].
  split; [done..|]. exists n. split; [done|]. split; [|done].
  eapply Forall_impl; [exact P|]. intros []; try done; auto.
Qed.

Lemma start_runtime_inv w fd s ret l pi w' :
  w_locked w = true -> ct_state (w_cont w) = Some s ->
  start_runtime E fd w = Some (ret, l, pi, w') -> body_ran w s ret l pi w' /\ (ret <> 0%Z -> l <> L_out).
Proof.
  intros Hl Hs Hrun. apply bind_inv in Hrun as (s1 & w1 & [= <- <-] & Hrun).
  apply bind_inv in Hrun as (ret1 & w2 & Hret & Hrun). rewrite Hs in Hret.
  destruct (ext_inv (RtStart (Some s)) _ _ _ _ Hl eq_refl Hs Hret) as (_ & T2 & L2 & s2 & Hs2 & Hf2).
  apply bind_inv in Hrun as (pi1 & w3 & [= <- <-] & Hrun).
  destruct (Z.eqb_spec ret1 0) as [->|Hne].
  - apply bind_inv in Hrun as (z & w3 & Hz & Hrun).
    apply bind_inv in Hz as (fds & w4 & [= <- <-] & Hz). apply bind_inv in Hz as (fds' & w5 & Hd & Hz).
    destruct (drop_fd fd (w_fds w2)) as [fds1|]; [|done]. injection Hd as <- <-.
    apply bind_inv in Hz as ([] & w6 & [= <-] & Hz). apply bind_inv in Hz as (z1 & w7 & Hz & [= <- <-]).
    destruct (ext_inv (AddExitMonitor fd (pi_pid (e_pid E (w_trace w2)))) (put_fds fds1 w2) _ _ s2 L2 eq_refl Hs2 Hz)
      as (_ & T3 & L3 & s3 & Hs3 & Hf3).
    assert ((body_ran w s ret l (e_pid E (w_trace w2)) w7 /\ (ret <> 0%Z -> l <> L_out)) /\ pi = e_pid E (w_trace w2) /\ w' = w7)
      as (Hb & -> & ->); [|done].
    assert (forall r lb, (lb <> L_out -> r <> 0%Z) -> (r <> 0%Z -> lb <> L_out) ->
      body_ran w s r lb (e_pid E (w_trace w2)) w7) as Hbr.
    { intros r lb H1 H2. split; [done|exists s3; split; [done|by etransitivity]|done|].
      exists [AddExitMonitor fd (pi_pid (e_pid E (w_trace w2))); RtStart (Some s)].
      split; [by rewrite T3; cbn; rewrite T2|]. split; [|intros _; exists fd; by left].
      repeat (apply Forall_cons; split); [done| |done]. split; [by eexists|done]. }
    destruct (negb _) in Hrun; injection Hrun as <- <- <- <-; (split; [split; [by apply Hbr|done]|done]).
  - injection Hrun as <- <- <- <-. split; [|done]. split; [done|by eexists|done|].
    exists [RtStart (Some s)]. split; [by rewrite T2|]. split; [|done].
    repeat (apply Forall_cons; split); [|done]. split; [by eexists|done].
Qed.

Lemma start_body_inv rr w s ret l pi fd w' :
  w_locked w = true -> ct_state (w_cont w) = Some s ->
  start_body E rr w = Some (ret, l, pi, fd, w') -> body_ran w s ret l pi w'.
Proof.
  intros Hl Hs Hrun. apply bind_inv in Hrun as (r1 & w1 & Hr1 & Hrun).
  eapply run_steps_inv in Hr1 as (w2 & Ha & Hc); [|apply adv_before_fifo|done].
  destruct (advances_prep _ _ _ _ Hl Hs Ha) as (Hl2 & s2 & Hs2 & Hf2).
  destruct Hc as [[-> ->]|[= <- <-]].
  { cbn in Hrun. injection Hrun as <- <- <- _ <-. by apply (body_ran_failed false). }
  cbn [fst snd negb Z.eqb] in Hrun. apply bind_inv in Hrun as ([ret2 fd2] & w3 & Hr3 & Hrun).
  pose proof (adv_prepare_files _ _ _ Hl2 Hr3) as Ha3. cbn [fst snd] in Hrun.
  destruct (advances_prep _ _ _ _ Hl2 Hs2 Ha3) as (Hl3 & s3 & Hs3 & Hf3).
  assert (advances (prep_call false) w w3) as Ha' by by eapply advances_trans.
  assert (flags s s3) as Hf by by etransitivity.
  destruct (negb _) in Hrun.
  { injection Hrun as <- <- <- _ <-. by apply (body_ran_failed false). }
  apply bind_inv in Hrun as (res & w4 & Hr4 & Hrun). injection Hrun as -> _ ->.
  eapply run_steps_inv in Hr4 as (w5 & Ha5 & Hc); [|apply adv_start_steps|done].
  destruct (advances_prep _ _ _ _ Hl3 Hs3 Ha5) as (Hl5 & s5 & Hs5 & Hf5).
  eapply (body_ran_advances false); [exact Ha'|done|exact Hf|]. destruct Hc as [[[= -> -> ->] ->]|Hrt].
  - by apply (body_ran_failed true).
  - eapply start_runtime_inv in Hrt as [Hb Hne]; [|done..]. by eapply (body_ran_advances true); [exact Ha5|intros _|exact Hf5|].
Qed.

(** Neither a start nor a restart to come. *)
Definition no_start (c : call) : Prop := match c with RtStart _ | RtCreate | SpawnRestart _ _ => False | _ => True end.

Lemma adv_close_fd fd : adv no_start (close_fd E fd).
Proof.
  unfold close_fd. adv_auto. apply adv_modify. intros w. split_and!; [done..|].
  intros s Hs. by exists s.
Qed.

Lemma adv_umount_dev : adv no_start (umount_dev_tmpfs_for_system_container E).
Proof. unfold umount_dev_tmpfs_for_system_container. adv_auto. Qed.

(** A call that is certainly made. *)
Lemma ext_trace (c : call) w z w' : ext E c w = Some (z, w') -> w_trace w' = c :: w_trace w.
Proof.
  intros [= _ <-]. by rewrite (os_trace _ _ _ (rely_other c (put_trace (c :: w_trace w) w))).
Qed.
Lemma ext_made (c : call) w w' : ext_ E c w = Some (tt, w') -> w_trace w' = c :: w_trace w.
Proof. intros (z & w1 & H & [= <-])%bind_inv. by eapply ext_trace. Qed.

(** What [do_start_container] has done when it returns [ret] and [pi]. *)
Record start_ran w (s0 : container_state) (ret : Z) (pi : pid_ppid_info_t) w' : Prop := {
  sr_locked : w_locked w' = true;
  sr_state : exists s', ct_state (w_cont w') = Some s' /\ flags s0 s';
  sr_trace : exists new, w_trace w' = new ++ w_trace w /\
    (forall s, RtStart s ∈ new -> exists s1, s = Some s1 /\ flags s0 s1) /\
    (ret = 0%Z -> (exists fd, AddExitMonitor fd (pi_pid pi) ∈ new) /\
                 Forall (fun c => match c with RtClean _ | UmountRootfs => False | _ => True end) new) /\
    (ret <> 0%Z -> UmountRootfs ∈ new /\ (RtCreate ∈ new -> RtClean 0 ∈ new) /\ (forall s, RtStart s ∈ new -> RtClean 0 ∈ new))
}.

Lemma do_start_inv rr w s ret pi w' :
  w_locked w = true -> ct_state (w_cont w) = Some s ->
  do_start_container E rr w = Some (ret, pi, w') -> start_ran w s ret pi w'.
Proof.
  intros Hl Hs Hrun. apply bind_inv in Hrun as ([[[ret1 l] pi1] fd] & w1 & Hb & Hrun).
  apply (start_body_inv rr w s) in Hb as [Hl1 (s1 & Hs1 & Hf1) Hlab (n1 & T1 & P1 & HA)]; [|done..].
  apply bind_inv in Hrun as ([] & w2 & Hlb & Hrun).
  assert (exists n2, advances no_start w1 w2 /\ w_trace w2 = n2 ++ w_trace w1 /\
    (l <> L_out -> RtClean 0 ∈ n2) /\ (l = L_out -> n2 = [])) as (n2 & Ha2 & T2 & Hcl & Hno).
  { destruct l.
    - injection Hlb as <-. exists []. split; [apply advances_refl|done].
    - assert (adv no_start (close_fd E fd;; clean_resources_on_failure E)) as Hadv.
      { apply adv_bind; [apply adv_close_fd|]. intros _. by apply adv_ext_. }
      pose proof (Hadv _ _ _ Hl1 Hlb) as Ha. apply bind_inv in Hlb as ([] & w3 & Hc & Hlb).
      pose proof (adv_close_fd fd _ _ _ Hl1 Hc) as [_ _ (n3 & T3 & _)].
      apply ext_made in Hlb. exists (RtClean 0 :: n3). rewrite Hlb, T3. split_and!; [done..| |done].
      intros _. by left.
    - pose proof (adv_ext_ no_start (RtClean 0) I eq_refl _ _ _ Hl1 Hlb) as Ha. apply ext_made in Hlb.
      exists [RtClean 0]. split_and!; [done..| |done]. intros _. by left. }
  assert (w_locked w2 = true) as Hl2 by by apply Ha2.
  destruct (adv_flags _ _ _ Ha2 s1 Hl1 Hs1) as (s2 & Hs2 & Hf2).
  apply bind_inv in Hrun as ([] & w3 & Hw & [= <- <- <-]).
  assert (exists n3, advances no_start w2 w3 /\ w_trace w3 = n3 ++ w_trace w2 /\
    (ret1 <> 0%Z -> UmountRootfs ∈ n3) /\ (ret1 = 0%Z -> n3 = [])) as (n3 & Ha3 & T3 & Hum & Hno3).
  { destruct (Z.eqb_spec ret1 0) as [->|Hne]; cbn [negb when] in Hw.
    - injection Hw as <-. exists []. split; [apply advances_refl|done].
    - assert (adv no_start (ext_ E UmountRootfs;; _ ← umount_dev_tmpfs_for_system_container E; mret tt)) as Hadv.
      { apply adv_bind; [by apply adv_ext_|]. intros _. apply adv_bind; [apply adv_umount_dev|].
        intros _. apply adv_ret. }
      pose proof (Hadv _ _ _ Hl2 Hw) as Ha. apply bind_inv in Hw as ([] & w4 & Hc & Hw).
      pose proof (adv_ext_ no_start UmountRootfs I eq_refl _ _ _ Hl2 Hc) as Ha4. apply ext_made in Hc.
      apply bind_inv in Hw as (z & w5 & Hu & [= <-]).
      pose proof (adv_umount_dev _ _ _ (adv_locked _ _ _ Ha4 Hl2) Hu) as [_ _ (n5 & T5 & _)].
      exists (n5 ++ [UmountRootfs]). rewrite T5, Hc, <-app_assoc. split_and!; [done..| |done].
      intros _. set_solver. }
  destruct (adv_flags _ _ _ Ha3 s2 Hl2 Hs2) as (s3 & Hs3 & Hf3).
  split; [by apply Ha3|exists s3; split; [done|by rewrite Hf1, Hf2]|].
  destruct (adv_trace _ _ _ Ha2) as (n2' & T2' & P2). destruct (adv_trace _ _ _ Ha3) as (n3' & T3' & P3).
  rewrite T2' in T2. apply app_inv_tail in T2 as ->. rewrite T3' in T3. apply app_inv_tail in T3 as ->.
  exists (n3 ++ n2 ++ n1). split; [by rewrite T3', T2', T1, !app_assoc|].
  rewrite Forall_forall in P1, P2, P3.
  assert (forall s, RtStart s ∈ n3 ++ n2 ++ n1 -> RtStart s ∈ n1) as Hin.
  { intros s' [H|[H|H]%elem_of_app]%elem_of_app; [by destruct (P3 _ H)|by destruct (P2 _ H)|done]. }
  assert (RtCreate ∈ n3 ++ n2 ++ n1 -> RtCreate ∈ n1) as Hin'.
  { intros [H|[H|H]%elem_of_app]%elem_of_app; [by destruct (P3 _ H)|by destruct (P2 _ H)|done]. }
  split_and!.
  - intros s' H%Hin. by destruct (P1 _ H).
  - intros H0. rewrite (Hno3 H0). destruct l; [|by destruct Hlab..]. rewrite (Hno eq_refl).
    destruct (HA H0) as [fd' ?]. split; [by exists fd'|]. apply Forall_forall. intros c Hc.
    specialize (P1 c Hc). by destruct c.
  - intros H0. specialize (Hum H0). split; [set_solver|]. split.
    + intros H%Hin'. specialize (Hcl (P1 _ H H0)). set_solver.
    + intros s' H%Hin. destruct (P1 _ H) as [_ Hl']. specialize (Hcl (Hl' H0)). set_solver.
Qed.

(** ** The calls of a handler, whoever holds the lock *)

(** [within R m]: whatever [m] does relates its worlds by [R]. *)
Definition within {A} (R : world -> world -> Prop) (m : M world A) : Prop :=
  forall w a w', m w = Some (a, w') -> R w w'.

Lemma within_run {A} R (m : M world A) w a w' : m w = Some (a, w') -> within R m -> R w w'.
Proof. intros Hrun Hm. by eapply Hm. Qed.

Section within.
Context (R : world -> world -> Prop) `{!PreOrder R}.
Lemma within_ret {A} (a : A) : within R (mret a).
Proof. by intros w b w' [= <- <-]. Qed.
Lemma within_crash {A} : within R (crash : M world A).
Proof. by intros w b w'. Qed.
Lemma within_gets {A} (f : world -> A) : within R (gets f).
Proof. by intros w b w' [= <- <-]. Qed.
Lemma within_lift {A} (r : option A) : within R (lift r).
Proof. intros w b w' H. destruct r; [|done]. by injection H as <- <-. Qed.
Lemma within_modify (f : world -> world) : (forall w, R w (f w)) -> within R (modify f).
Proof. by intros Hf w b w' [= <- <-]. Qed.
Lemma within_ext c :
  (forall w, R w (e_other E c (put_trace (c :: w_trace w) w))) -> within R (ext E c).
Proof. intros HP w b w' [= <- <-]. apply HP. Qed.
Lemma within_bind {A B} (m : M world A) (k : A -> M world B) :
  within R m -> (forall a, within R (k a)) -> within R (m ≫= k).
Proof.
  intros Hm Hk w b w' (a & w1 & H1 & H2)%bind_inv. etransitivity; [by eapply Hm|by eapply Hk].
Qed.
Lemma within_with_rm {A} (f : rm_env -> rm_container -> option (A * rm_container)) :
  (forall c w, R w (rm_put E c w)) -> within R (with_rm E f).
Proof.
  by intros Hp w b w' (c & _ & (r & _ & [= <- <-])%bind_Some_inv)%bind_Some_inv.
Qed.
End within.

(** [leaf] closes the obligations on calls and updates. *)
Ltac within_auto leaf :=
  repeat lazymatch goal with
  | |- forall _, _ => intros ?
  | |- within _ (mret _) => apply within_ret; apply _
  | |- within _ crash => apply within_crash
  | |- within _ (gets _) => apply within_gets; apply _
  | |- within _ (lift _) => apply within_lift; apply _
  | |- within _ (modify _) => apply within_modify; [leaf..]
  | |- within _ (ext _ _) => apply within_ext; [leaf..]
  | |- within _ (with_rm _ _) => apply within_with_rm; [leaf..]
  | |- within _ (_ ≫= _) => apply within_bind; [apply _|..]
  | |- within _ (if _ then _ else _) => case_match
  | |- within _ (when ?b _) => destruct b; unfold when
  | |- within _ (match ?x with _ => _ end) => destruct x
  | |- within _ ?m => unfold ext_, ext_ok, container_lock, container_unlock, get_state, upd_state, st_is,
      is_auto_remove, get_hostconfig, exit_on_next, store_get, store_unref, store_remove,
      name_index_remove, vol_del_ref, vol_remove, set_auto_remove, set_error, set_stopped
  end.

(** The calls made satisfy [P]. *)
Definition called (P : call -> Prop) w w' : Prop :=
  exists new, w_trace w' = new ++ w_trace w /\ Forall P new.
#[local] Instance called_preorder P : PreOrder (called P).
Proof.
  split; [by exists []|]. intros w1 w2 w3 (n1 & T1 & P1) (n2 & T2 & P2).
  exists (n2 ++ n1). rewrite T2, T1, app_assoc. split; [done|]. by apply Forall_app.
Qed.

Abbreviation emits P m := (within (called P) m).
Ltac called_leaf :=
  first [ by intros w; exists []
        | intros w; eexists [_]; rewrite (os_trace _ _ _ (rely_other _ _));
          split; [reflexivity|by repeat constructor]
        | intros ? w; exists []; split; [apply rm_put_frame|done] ].
Ltac emits_auto := within_auto called_leaf.

Lemma emits_kill sg : emits no_start (kill_with_signal E sg).
Proof. unfold kill_with_signal. emits_auto. Qed.
Lemma emits_force_kill : emits no_start (force_kill E).
Proof.
  unfold force_kill, container_wait_stop, send_signal_to_process. emits_auto; apply emits_kill.
Qed.
Lemma emits_stop t f r : emits no_start (stop_container E t f r).
Proof.
  unfold stop_container, stop_or_kill, container_wait_stop.
  emits_auto; first [apply emits_kill | apply emits_force_kill].
Qed.
Lemma emits_release_volumes mps id anon ret : emits no_start (release_volumes E mps id anon ret).
Proof. revert ret. induction mps as [|mp mps IH]; intros ret; cbn; emits_auto; apply IH. Qed.
Lemma emits_delete force : emits no_start (delete_container E force).
Proof.
  unfold delete_container, do_delete_container, delete_registered, remove_resources, deregister.
  emits_auto; first [apply emits_stop | apply emits_release_volumes].
Qed.
Lemma emits_start_failed : emits no_start (start_failed E).
Proof.
  unfold start_failed, save_after_auto_remove, set_container_to_removal. emits_auto; apply emits_delete.
Qed.

(** ** Starting a container *)

(** The states in which the runtime may be asked to start. *)
Definition may_start (reset_rm : bool) (s : container_state) : Prop :=
  paused s = false /\ dead s = false /\ removal_inprogress s = false /\
  (reset_rm = true -> running s = false).

Lemma may_start_flags rr s s' : may_start rr s -> flags s s' -> may_start rr s'.
Proof.
  intros (H1 & H2 & H3 & H4) Hf. pose proof (flags_unpaused _ _ Hf H1). destruct Hf.
  split_and!; [done|congruence| |intros; rewrite f_running0; auto].
  destruct (removal_inprogress s'); [|done]. rewrite f_removal0 in H3; done.
Qed.

Lemma start_guards_inv rr w s early w' :
  w_locked w = true -> ct_state (w_cont w) = Some s ->
  start_guards E rr w = Some (early, w') ->
  advances no_start w w' /\
  match early with
  | Some ret => ret = 0%Z -> rr = true /\ running s = true
  | None => may_start rr s
  end.
Proof.
  intros Hl Hs Hrun. split.
  { revert Hrun. apply (fun H => (H : adv no_start _) w _ _ Hl). unfold start_guards, st_is. adv_auto. }
  unfold start_guards, st_is, get_state in Hrun. unfold mbind, M_bind, gets, mret, M_ret in Hrun.
  cbn in Hrun. rewrite Hs in Hrun. cbn in Hrun. unfold may_start.
  destruct rr, (running s); cbn in Hrun; simplify_eq/=; try done.
  all: destruct (paused s); simplify_eq/=; try done.
  all: destruct (removal_inprogress s), (dead s); simplify_eq/=; try done.
  all: by destruct (negb _).
Qed.

Lemma lock_inv w w' : container_lock E w = Some (tt, w') ->
  w_locked w' = true /\ w_trace w' = Lock :: w_trace w.
Proof.
  intros ([] & w1 & H1%ext_made & H2)%bind_inv.
  unfold mbind, M_bind, gets in H2. destruct (w_locked w1); [done|]. injection H2 as <-. done.
Qed.

Lemma unlock_inv w w' : container_unlock w = Some (tt, w') -> w' = put_locked false w.
Proof. unfold container_unlock, mbind, M_bind, gets. destruct (w_locked w); [|done]. by intros [= <-]. Qed.

Lemma save_inv ret w s z w' :
  w_locked w = true -> ct_state (w_cont w) = Some s -> save_container E ret w = Some (z, w') ->
  w_trace w' = ToDisk :: w_trace w /\ (z = 0%Z -> ret = 0%Z) /\
  exists s', ct_state (w_cont w') = Some s' /\ flags s s'.
Proof.
  intros Hl Hs Hrun. apply bind_inv in Hrun as (z1 & w1 & Hz & [= <- <-]).
  destruct (ext_inv ToDisk _ _ _ _ Hl eq_refl Hs Hz) as (_ & T & _ & s' & ? & ?).
  split_and!; [done| |eauto]. by destruct (negb _).
Qed.

Lemma start_succeeded_inv pi w s w' :
  w_locked w = true -> ct_state (w_cont w) = Some s -> start_succeeded E pi w = Some (tt, w') ->
  w_locked w' = true /\ w_trace w' = InitHealth :: w_trace w /\
  exists s', ct_state (w_cont w') = Some s' /\ running s' = true /\ restarting s' = false /\
    paused s' = false /\ exit_code s' = 0%Z /\ pid s' = pi_pid pi /\
    has_been_manually_stopped s' = false.
Proof.
  intros Hl Hs Hrun. apply bind_inv in Hrun as (now & w1 & [= <- <-] & Hrun).
  apply bind_inv in Hrun as ([] & w1 & [= <-] & Hrun).
  apply bind_inv in Hrun as ([] & w2 & [= <-] & Hrun).
  apply bind_inv in Hrun as (z & w3 & Hz & [= <-]).
  match type of Hz with ext E _ ?w2 = _ => eassert (ct_state (w_cont w2) = Some _) as Hs2
    by (cbn; rewrite Hs; reflexivity) end.
  eapply ext_inv in Hz as (_ & T & L & s' & Hs' & Hf); [|done|done|exact Hs2].
  pose proof (flags_unpaused _ _ Hf eq_refl). destruct Hf.
  split_and!; [done|done|]. exists s'. split; [done|]. cbn in *. by split_and!.
Qed.

(** A start from beginning to end. *)
Lemma start_container_inv rr w ret w' :
  start_container E rr w = Some (ret, w') ->
  (forall w1, container_lock E w = Some (tt, w1) -> is_Some (ct_state (w_cont w1))) ->
  exists new, w_trace w' = new ++ w_trace w /\
    (forall s, RtStart s ∈ new -> exists s1, s = Some s1 /\ may_start rr s1) /\
    (ret = 0%Z -> exists s', ct_state (w_cont w') = Some s' /\ running s' = true /\
       (forall s, RtStart s ∈ new -> restarting s' = false /\ paused s' = false /\ exit_code s' = 0%Z /\
          has_been_manually_stopped s' = false /\ exists fd, AddExitMonitor fd (pid s') ∈ new)).
Proof.
  intros Hrun Hst. apply bind_inv in Hrun as ([] & w1 & Hlk & Hrun).
  destruct (Hst w1 Hlk) as [s1 Hs1]. apply lock_inv in Hlk as [L1 T1].
  apply bind_inv in Hrun as (early & w2 & Hg & Hrun).
  apply (start_guards_inv rr w1 s1) in Hg as [Hadv Hg]; [|done..].
  pose proof Hadv as [L2 F2 (n2 & T2 & P2)]. specialize (L2 L1). destruct (F2 s1 L1 Hs1) as (s2 & Hs2 & Hf2).
  rewrite Forall_forall in P2. assert (forall s, RtStart s ∉ n2) as Hn2 by (intros s H; by apply (P2 _ H)).
  apply bind_inv in Hrun as (r & w3 & Hbody & Hrun). apply bind_inv in Hrun as ([] & w4 & Hu & [= <- <-]).
  apply unlock_inv in Hu as ->. cbn [w_trace w_cont put_locked].
  destruct early as [r1|].
  { injection Hbody as <- <-. exists (n2 ++ [Lock]). rewrite T2, T1, <-app_assoc. split; [done|].
    assert (forall s, RtStart s ∉ n2 ++ [Lock]) as Hno by (intros s; specialize (Hn2 s); set_solver).
    split; [intros s H; by destruct (Hno s)|]. intros H0. destruct (Hg H0) as [_ Hr].
    exists s2. split; [done|]. destruct Hf2. split; [congruence|]. intros s H. by destruct (Hno s). }
  apply bind_inv in Hbody as ([ret1 pi] & w4 & Hd & Hbody). cbn [fst snd] in Hbody.
  apply (do_start_inv rr w2 s2) in Hd as [L4 (s4 & Hs4 & Hf4) (n4 & T4 & Hms & Hok & _)]; [|done..].
  assert (forall s, RtStart s ∈ n4 ++ n2 ++ [Lock] -> exists s1, s = Some s1 /\ may_start rr s1) as Hms'.
  { intros s [H|[H|H]%elem_of_app]%elem_of_app; [|by destruct (Hn2 s)|set_solver].
    destruct (Hms s H) as (s5 & -> & Hf5). exists s5. split; [done|].
    eapply may_start_flags; [exact Hg|]. by etransitivity. }
  assert (w_trace w4 = (n4 ++ n2 ++ [Lock]) ++ w_trace w) as T4'
    by by rewrite T4, T2, T1, <-!app_assoc.
  destruct (Z.eqb_spec ret1 0) as [->|Hne]; cbn [negb] in Hbody.
  - apply bind_inv in Hbody as ([] & w5 & Hss & Hsv).
    destruct (start_succeeded_inv pi w4 s4 w5 L4 Hs4 Hss) as (L5 & T5 & s5 & Hs5 & H1 & H2 & H3 & H4 & H5 & H6).
    destruct (save_inv 0 w5 s5 r w3 L5 Hs5 Hsv) as (T6 & _ & s6 & Hs6 & Hf6).
    pose proof (flags_unpaused _ _ Hf6 H3) as Hp6. destruct Hf6.
    exists ([ToDisk; InitHealth] ++ n4 ++ n2 ++ [Lock]).
    rewrite T6, T5, T4'. split; [done|]. split.
    { intros s H. apply Hms'. set_solver. }
    intros _. exists s6. split; [done|]. split; [congruence|]. intros s _.
    destruct (Hok eq_refl) as [[fd Hfd] _]. split_and!; [congruence..|]. exists fd.
    rewrite f_pid0, H5. set_solver.
  - apply bind_inv in Hbody as (save & w5 & Hfl & Hsv).
    destruct (emits_start_failed _ _ _ Hfl) as (n5 & T5 & P5). rewrite Forall_forall in P5.
    assert (r = (-1)%Z /\ exists n6, w_trace w3 = n6 ++ w_trace w5 /\ forall s, RtStart s ∉ n6)
      as (-> & n6 & T6 & Hn6).
    { destruct save; [|injection Hsv as <- <-; split; [done|]; exists []; split; [done|set_solver]].
      apply bind_inv in Hsv as (z & w6 & Hz & [= <- <-]). split; [by destruct (negb _)|].
      exists [ToDisk]. split; [by eapply ext_trace|set_solver]. }
    exists (n6 ++ n5 ++ n4 ++ n2 ++ [Lock]). rewrite T6, T5, T4', <-!app_assoc. split; [done|].
    split; [|done]. intros s [H|[H|H]%elem_of_app]%elem_of_app; [by destruct (Hn6 s)| |by apply Hms'].
    by destruct (P5 _ H).
Qed.

(** ** Deleting a container *)

Section deleting.
Context `{HS : !RelyStores E}.

(** Nothing but the stores' own operations touches the maps and the volumes. *)
Definition stores_kept w w' : Prop :=
  st_map (w_store w') = st_map (w_store w) /\ st_index (w_store w') = st_index (w_store w) /\
  w_vols w' = w_vols w /\ same_id (w_cont w) (w_cont w').
#[local] Instance stores_kept_preorder : PreOrder stores_kept.
Proof.
  split; [by intros w; split_and!|].
  intros w1 w2 w3 (?&?&?&?) (?&?&?&?). split_and!; [congruence..|by etransitivity].
Qed.

Lemma kept_other c w : stores_kept w (e_other E c (put_trace (c :: w_trace w) w)).
Proof.
  split_and!; rewrite ?rely_store, ?rely_vols; try done. apply (os_id _ _ _ (rely_other c (put_trace _ w))).
Qed.
Lemma kept_ext c : within stores_kept (ext E c).
Proof. apply within_ext. apply kept_other. Qed.
Lemma kept_rm_put c w : stores_kept w (rm_put E c w).
Proof.
  destruct (rm_put_frame E c w) as (_&_&_&H1&H2&H3&_). unfold stores_kept. by rewrite H1, H2.
Qed.

Ltac kept_leaf :=
  first [ intros ?; unfold stores_kept; split_and!; done | intros ? ?; apply kept_rm_put
        | intros ?; apply kept_other ].
Ltac kept_auto := within_auto kept_leaf.

Lemma refinc_maps c (st st' : store MC MN) : container_refinc c st = Some st' ->
  st_map st' = st_map st /\ st_index st' = st_index st.
Proof.
  unfold container_refinc. case_decide; [by intros [= ->]|].
  intros (n & _ & [= <-])%bind_Some_inv. done.
Qed.
Lemma unref_maps c (st st' : store MC MN) : container_unref c st = Some st' ->
  st_map st' = st_map st /\ st_index st' = st_index st.
Proof.
  unfold container_unref. case_decide; [by intros [= ->]|].
  intros (n & _ & Hn)%bind_Some_inv. destruct (atomic_int_dec_test n) as [? []]; by simplify_eq/=.
Qed.

Lemma get_by_id_maps l x (st st' : store MC MN) c : containers_store_get_by_id l x st = Some (c, st') ->
  st_map st' = st_map st /\ st_index st' = st_index st.
Proof.
  unfold containers_store_get_by_id. destruct x; [|by intros [= _ ->]].
  case_match; [by intros [= _ ->]|]. intros (st1 & Hr & [= _ <-])%bind_Some_inv. by eapply refinc_maps.
Qed.

Lemma get_maps l i x (st st' : store MC MN) c : containers_store_get l i x st = Some (c, st') ->
  st_map st' = st_map st /\ st_index st' = st_index st.
Proof.
  unfold containers_store_get. destruct x as [x|]; [|by intros [= _ ->]].
  intros ([c1 st1] & H1 & H)%bind_Some_inv. pose proof (get_by_id_maps _ _ _ _ _ H1) as [E1 E2].
  cbn [fst snd] in H. case_decide; [by simplify_eq|].
  apply bind_Some_inv in H as ([c2 st2] & H2 & H). cbn [fst snd] in H.
  assert (st_map st2 = st_map st /\ st_index st2 = st_index st) as [E3 E4].
  { unfold containers_store_get_by_name in H2.
    destruct (container_name_index_get _ _ _); [|simplify_eq; done].
    apply get_by_id_maps in H2 as [-> ->]. done. }
  case_decide; [by simplify_eq|]. unfold containers_store_get_by_prefix in H.
  repeat case_match; simplify_eq; try done.
  apply bind_Some_inv in H as (st3 & H & [= _ <-]). apply refinc_maps in H as [-> ->]. done.
Qed.

(** The lookup before a deletion: with working locks it finds the id if it is there. *)
Lemma store_get_value id w c w' k held :
  (forall t, e_ans E t StoreLock = 0%Z) -> store_inv (cmp := cmp) k (w_store w) held -> few k ->
  store_get E id w = Some (c, w') ->
  stores_kept w w' /\ (c = NULL -> mo_abs (st_map (w_store w)) !! id = None).
Proof.
  intros Hlk Hi Hf Hrun. unfold store_get in Hrun. apply bind_inv in Hrun as (l & w1 & H1 & Hrun).
  apply bind_inv in Hrun as (i & w2 & H2 & Hrun).
  apply bind_inv in Hrun as (st & w3 & [= <- <-] & Hrun). apply bind_inv in Hrun as ([c1 st1] & w3 & H3 & Hrun).
  destruct (containers_store_get _ _ _ _) as [r|] eqn:Hg in H3; [|done]. injection H3 as -> <-.
  injection Hrun as <- <-. cbn [fst].
  assert (forall c, within stores_kept (ext_ok E c)) as Hk.
  { intros c. apply within_bind; [apply _|apply kept_ext|]. intros. kept_auto. }
  assert (stores_kept w w2) as Hw2 by (etransitivity; [by eapply Hk|by eapply Hk]).
  pose proof (get_maps _ _ _ _ _ _ Hg) as [E1 E2]. split.
  { etransitivity; [exact Hw2|]. unfold stores_kept. by split_and!. }
  intros ->. assert (l = true) as ->.
  { apply bind_inv in H1 as (z & w4 & Hz & [= <- <-]). injection Hz as <- _. by rewrite Hlk. }
  destruct (get_by_id_value k (w_store w) held id Hi Hf) as (st' & Hv & _).
  assert (w_store w2 = w_store w) as Hst.
  { assert (forall c, within (fun w w' => w_store w' = w_store w) (ext_ok E c)) as Hk'.
    { intros c0 u a u' (z & u1 & [= _ <-] & [= _ <-])%bind_inv.
      by rewrite rely_store. }
    by rewrite (Hk' _ _ _ _ H2), (Hk' _ _ _ _ H1). }
  rewrite Hst in Hg. unfold containers_store_get in Hg.
  change (LockEnv true true) with lock_ok in Hg. rewrite Hv in Hg. cbn [mbind option_bind fst snd] in Hg.
  destruct (mo_abs (st_map (w_store w)) !! id) as [a|] eqn:Ha; [|done]. cbn [default] in Hg.
  destruct (refs_stored k (w_store w) held id a Hi Ha) as [Hn _].
  rewrite decide_True in Hg by done. by simplify_eq/=.
Qed.

Abbreviation users w := (vol_refs (cmp := cmp) (w_vols w)).

(** From [w] to [w'] the world stays consistent and the maps of the store of containers
    do not change. *)
Definition maps_kept own held n w w' : Prop :=
  inv (cmp := cmp) own held n w' /\ framed w w' /\
  st_map (w_store w') = st_map (w_store w) /\ st_index (w_store w') = st_index (w_store w).

Lemma maps_kept_trans own held n w1 w2 w3 :
  maps_kept own held n w1 w2 -> maps_kept own held n w2 w3 -> maps_kept own held n w1 w3.
Proof. intros (?&?&?&?) (?&?&?&?). split_and!; try congruence. by eapply framed_trans. Qed.

Lemma ext_kept own held n c w :
  inv (cmp := cmp) own held n w ->
  wp (ext E c) (fun _ w' => maps_kept own held n w w' /\ w_vols w' = w_vols w) w.
Proof.
  intros Hi. eexists _, _. split; [done|]. set (w0 := put_trace _ w). pose proof (rely_other c w0) as Ho.
  unfold maps_kept, framed. split_and!;
    rewrite ?(os_locked _ _ _ Ho), ?(os_fds _ _ _ Ho), ?rely_store, ?rely_vols; try done.
  - by eapply inv_other.
  - apply (os_id _ _ _ Ho).
Qed.

Lemma ext_ok_kept own held n c w :
  inv (cmp := cmp) own held n w ->
  wp (ext_ok E c) (fun _ w' => maps_kept own held n w w' /\ w_vols w' = w_vols w) w.
Proof.
  intros Hi. apply wp_mbind. eapply wp_conseq; [by apply ext_kept|]. intros z w' H. by apply wp_mret.
Qed.

Lemma vol_del_ref_spec own held n v id w :
  inv (cmp := cmp) own held n w ->
  wp (vol_del_ref v id) (fun _ w' => maps_kept own held n w w' /\
    forall v', users w' v' = if decide (v' = v) then users w v' ∖ {[id]} else users w v') w.
Proof.
  intros Hi. apply wp_mbind, wp_gets, wp_mbind.
  destruct (del_name_ref_spec v id (w_vols w) (inv_vols _ _ _ _ Hi)) as (z & vs & Hd & Hvs & _ & _ & _ & Hr).
  eapply wp_lift; [exact Hd|]. apply wp_mbind, wp_modify, wp_mret. split; [|exact Hr].
  unfold maps_kept, framed. split_and!; try done. by apply inv_put_vols.
Qed.

Lemma vol_remove_spec own held n v w :
  inv (cmp := cmp) own held n w ->
  wp (vol_remove E v) (fun _ w' => maps_kept own held n w w' /\ forall v', users w' v' = users w v') w.
Proof.
  intros Hi. unfold vol_remove.
  apply wp_mbind. eapply wp_conseq; [by apply ext_ok_kept|]. cbv beta. intros i w2 [Hk2 Hv2].
  apply wp_mbind. eapply wp_conseq; [apply ext_ok_kept, Hk2|]. cbv beta. intros a w3 [Hk3 Hv3].
  assert (maps_kept own held n w w3) as Hk by by eapply maps_kept_trans.
  apply wp_mbind, wp_gets, wp_mbind.
  destruct (volume_remove_any i a v (w_vols w3) (inv_vols _ _ _ _ (proj1 Hk))) as (z3 & vs3 & Hd3 & Hi3 & Hr3).
  eapply wp_lift; [exact Hd3|]. apply wp_mbind, wp_modify, wp_mret. split.
  - eapply maps_kept_trans; [exact Hk|]. unfold maps_kept, framed. split_and!; try done.
    apply inv_put_vols; [apply Hk|done].
  - intros v'. cbn. rewrite Hr3, Hv3, Hv2. done.
Qed.

(** Whatever [release_volumes] returns, the container uses none of its volumes
    afterwards. *)
Definition released (id : cstr) (mps : list mount_point) w : Prop :=
  forall mp v, mp ∈ mps -> mp_name mp = Some v -> id ∉ users w v.

Lemma release_volumes_spec own held n mps id anon ret w :
  inv (cmp := cmp) own held n w ->
  wp (release_volumes E mps id anon ret) (fun _ w' => maps_kept own held n w w' /\
    released id mps w' /\ (forall v, id ∉ users w v -> id ∉ users w' v)) w.
Proof.
  revert ret w. induction mps as [|mp mps IH]; intros ret w Hi; cbn [release_volumes].
  { apply wp_mret. split_and!; [unfold maps_kept, framed; by split_and!| |done].
    intros mp v Hin. by apply not_elem_of_nil in Hin. }
  destruct (mp_name mp) as [v|] eqn:Hv.
  2: { eapply wp_conseq; [by apply IH|]. cbv beta. intros z w' (? & Hm & ?). split_and!; try done.
       intros mp' v [->|?]%elem_of_cons Hv'; [congruence|by eapply Hm]. }
  apply wp_mbind. eapply wp_conseq; [by apply vol_del_ref_spec|]. cbv beta. intros z w1 [Hk1 Hu1].
  assert (id ∉ users w1 v) as Hv1 by (rewrite Hu1, decide_True by done; set_solver).
  assert (forall v, id ∉ users w v -> id ∉ users w1 v) as Hmon1.
  { intros v' Hv'. rewrite Hu1. case_decide; [subst; set_solver|done]. }
  assert (forall ret w2, maps_kept own held n w w2 -> (forall v, users w2 v = users w1 v) ->
    wp (release_volumes E mps id anon ret) (fun _ w' => maps_kept own held n w w' /\
      released id (mp :: mps) w' /\ (forall v, id ∉ users w v -> id ∉ users w' v)) w2) as Hrest.
  { intros r2 w2 Hk2 Hu. eapply wp_conseq; [apply (IH r2 w2), Hk2|].
    cbv beta. intros _ w' (Hk & Hm & Hmon). split_and!; [by eapply maps_kept_trans|..].
    + intros mp' v' [->|?]%elem_of_cons Hv'; [|by eapply Hm]. simplify_eq. apply Hmon. by rewrite Hu.
    + intros v' Hv'. apply Hmon. rewrite Hu. by apply Hmon1. }
  apply wp_if; intros _; [by apply Hrest|]. apply wp_if; intros _; [|by apply Hrest].
  apply wp_mbind. eapply wp_conseq; [apply vol_remove_spec, Hk1|]. cbv beta. intros z2 w2 [Hk2 Hu2].
  apply Hrest; [by eapply maps_kept_trans|done].
Qed.

(** Steps that may fail: on failure the result is -1, on success the next one runs. *)
Lemma remove_resources_spec own held n id anon w :
  inv (cmp := cmp) own held n w ->
  wp (remove_resources E id anon) (fun ret w' => maps_kept own held n w w' /\
    (ret = 0%Z -> released id (ct_mounts (w_cont w)) w')) w.
Proof.
  intros Hi. unfold remove_resources.
  set (Q := fun (ret : Z) w' => maps_kept own held n w w' /\
    (ret = 0%Z -> released id (ct_mounts (w_cont w)) w')).
  assert (maps_kept own held n w w) as Hk0 by (unfold maps_kept, framed; by split_and!).
  assert (forall c (k : Z -> M world Z) w1, maps_kept own held n w w1 ->
    (forall z w2, maps_kept own held n w w2 -> wp (k z) Q w2) -> wp (ext E c ≫= k) Q w1) as Hext.
  { intros c k w1 Hk1 Hk. apply wp_mbind. eapply wp_conseq; [apply ext_kept, Hk1|].
    cbv beta. intros z w2 [Hk2 _]. apply Hk. by eapply maps_kept_trans. }
  assert (forall w1, maps_kept own held n w w1 -> wp (mret (-1)%Z) Q w1) as Hfail.
  { intros w1 Hk1. apply wp_mret. by split. }
  assert (forall c (k : M world Z) w1, maps_kept own held n w w1 ->
    (forall w2, maps_kept own held n w w2 -> wp k Q w2) -> wp (ext_ E c;; k) Q w1) as Hext_.
  { intros c k w1 Hk1 Hk. apply wp_mbind, wp_mbind. eapply wp_conseq; [apply ext_kept, Hk1|].
    cbv beta. intros z w2 [Hk2 _]. apply wp_mret, Hk. by eapply maps_kept_trans. }
  do 3 (apply Hext; [done|]; intros ? ? ?; apply wp_if; intros _; [by apply Hfail|]).
  apply Hext_; [done|]. intros w4 Hk4.
  destruct (ok_hostconfig _ (inv_cont _ _ _ _ (proj1 Hk4))) as [hc Hhc].
  apply wp_mbind, wp_mbind, wp_gets. eapply wp_lift; [exact Hhc|].
  assert (forall w5, maps_kept own held n w w5 -> wp (ext_ E CleanupMounts;;
    z ← ext E RtRm; if negb (z =? 0)%Z then mret (-1)%Z else
    mps ← gets (fun w => ct_mounts (w_cont w)); release_volumes E mps id anon 0) Q w5) as Hlast.
  { intros w5 Hk5. apply Hext_; [done|]. intros w6 Hk6. apply Hext; [done|]. intros z7 w7 Hk7.
    apply wp_if; intros _; [by apply Hfail|]. apply wp_mbind, wp_gets.
    eapply wp_conseq; [apply release_volumes_spec, Hk7|]. cbv beta. intros ret w8 (Hk8 & Hrel & _).
    split; [by eapply maps_kept_trans|]. intros _.
    destruct Hk7 as (_ & (_ & _ & _ & _ & _ & _ & _ & _ & <-) & _). done. }
  apply wp_mbind, wp_when; intros _; [|by apply Hlast].
  apply wp_mbind. eapply wp_conseq; [apply ext_kept, Hk4|]. cbv beta. intros z9 w9 [Hk9 _].
  apply wp_mret, Hlast. by eapply maps_kept_trans.
Qed.

(** Success means that the id and the name are gone. *)
Lemma deregister_spec own held n id name w :
  inv (cmp := cmp) own held (n + 2) w ->
  wp (deregister E id name) (fun ret w' => ret = 0%Z ->
    mo_abs (st_map (w_store w')) !! id = None /\ mo_abs (st_index (w_store w')) !! name = None /\
    w_vols w' = w_vols w) w.
Proof.
  intros Hi. unfold deregister. apply wp_mbind, wp_mbind.
  eapply wp_conseq; [by apply ext_kept|]. cbv beta. intros z w1 [Hk1 Hv1]. apply wp_mret, wp_mbind.
  unfold store_remove. apply wp_mbind. eapply wp_conseq; [apply ext_ok_kept, Hk1|].
  cbv beta. intros l w2 [Hk2 Hv2]. apply wp_mbind. eapply wp_conseq; [apply ext_ok_kept, Hk2|].
  cbv beta. intros u w3 [Hk3 Hv3]. apply wp_mbind, wp_gets, wp_mbind.
  destruct (inv_store _ _ _ _ (proj1 Hk3)) as (k & Hk & Hfew).
  destruct (remove_any k (w_store w3) held l u id Hk) as (b & st' & Hr & _ & Hst & Hab & Hix);
    [unfold few in *; lia|].
  eapply wp_lift; [exact Hr|]. apply wp_mbind, wp_modify, wp_mret. cbn [fst snd].
  apply wp_if; intros Hb; [by apply wp_mret|].
  assert (b = true) as -> by (destruct b; [done|by cbn in Hb]). clear Hb.
  assert (inv (cmp := cmp) own held n (put_store st' w3)) as Hi4.
  { eapply inv_put_store; [eapply inv_weaken; [apply Hk3|lia]|exact Hst|unfold few in *; lia]. }
  apply wp_mbind. unfold name_index_remove.
  apply wp_mbind. eapply wp_conseq; [by apply ext_ok_kept|]. cbv beta. intros l5 w5 [Hk5 Hv5].
  apply wp_mbind. eapply wp_conseq; [apply ext_ok_kept, Hk5|]. cbv beta. intros u6 w6 [Hk6 Hv6].
  apply wp_mbind, wp_gets.
  pose proof (maps_kept_trans _ _ _ _ _ _ Hk5 Hk6) as (Hi6 & _ & Em & Ei). cbn in Em, Ei.
  destruct (inv_store _ _ _ _ Hi6) as (k6 & Hk6' & Hfew6).
  unfold container_name_index_remove. cbn [l_lock l_unlock]. destruct l5; cbn [negb].
  2: { apply wp_mbind, wp_modify, wp_mret, wp_mret. done. }
  cbn [index_remove]. destruct (mo_remove_abs name _ (si_index _ _ _ Hk6')) as [Ha Hb].
  destruct (mo_remove name (st_index (w_store w6))) as [b6 m6]. cbn [fst snd] in *.
  apply wp_mbind, wp_modify, wp_mret, wp_mret. destruct (if u6 then b6 else false) eqn:Hres; cbn; [|done].
  intros _. split_and!.
  - rewrite Em, Hab. apply lookup_delete_eq.
  - rewrite Ha. apply lookup_delete_eq.
  - cbn in Hv5. congruence.
Qed.

(** The container [c] has left the daemon: its id is free and, if it was registered in
    [w], its name is free and it uses no volume. *)
Definition gone (c : container_t) w w' : Prop :=
  mo_abs (st_map (w_store w')) !! ct_id c = None /\
  (is_Some (mo_abs (st_map (w_store w)) !! ct_id c) ->
   mo_abs (st_index (w_store w')) !! ct_name c = None /\ released (ct_id c) (ct_mounts c) w').

Lemma delete_registered_spec own held n id name anon w :
  inv (cmp := cmp) own held (n + 2) w ->
  wp (delete_registered E id name anon) (fun ret w' => ret = 0%Z ->
    mo_abs (st_map (w_store w')) !! id = None /\ mo_abs (st_index (w_store w')) !! name = None /\
    released id (ct_mounts (w_cont w)) w') w.
Proof.
  intros Hi. unfold delete_registered. apply wp_mbind, wp_mbind.
  eapply wp_conseq; [by apply ext_kept|]. cbv beta. intros z1 w1 [Hk1 _]. apply wp_mret, wp_mbind.
  eapply wp_conseq; [apply ext_kept, Hk1|]. cbv beta. intros gc w2 [Hk2 _].
  pose proof (maps_kept_trans _ _ _ _ _ _ Hk1 Hk2) as Hk.
  apply wp_if; intros _; [by apply wp_mret|]. apply wp_mbind.
  eapply wp_conseq; [apply remove_resources_spec, Hk|]. cbv beta. intros ret w3 [Hk3 Hrel].
  apply wp_if; intros Hret.
  { apply wp_mret. intros ->. done. }
  eapply wp_conseq; [eapply deregister_spec, Hk3|]. cbv beta. intros ret4 w4 H4 ->.
  destruct (H4 eq_refl) as (H5 & H6 & H7). split_and!; [done..|].
  intros mp v Hin Hmp. rewrite H7. destruct Hk as (_ & (_ & _ & Hid) & _).
  destruct (Z.eqb_spec ret 0) as [->|]; [|done]. apply (Hrel eq_refl mp v); [|done].
  by destruct Hid as (_&_&_&_&_&_&->).
Qed.

Lemma lock_kept : within stores_kept (container_lock E).
Proof.
  unfold container_lock, ext_.
  apply within_bind; [apply _| |intros []; kept_auto].
  apply within_bind; [apply _|apply kept_ext|intros; kept_auto].
Qed.

Lemma do_delete_spec own held n w :
  (forall t, e_ans E t StoreLock = 0%Z) -> few_own own ->
  inv (cmp := cmp) own held (n + 4) w -> w_locked w = false ->
  wp (do_delete_container E) (fun ret w' => ret = 0%Z -> gone (w_cont w) w w') w.
Proof.
  intros Hlk Hown Hi Hl. unfold do_delete_container. apply wp_mbind.
  destruct (keeps_lock E 0 own held (n + 4)%nat w Hown) as ([] & w1 & Hrun1 & Hi1 & Hl1 & _ & Hs1);
    [by rewrite Nat.add_0_r|done|].
  exists tt, w1. split; [done|]. pose proof (lock_kept _ _ _ Hrun1) as Hk1.
  do 4 (apply wp_mbind, wp_gets). apply wp_mbind.
  set (id := ct_id (w_cont w1)). replace (n + 4)%nat with (S (n + 3)) in Hi1 by lia.
  destruct (store_get_spec E own held (n + 3)%nat w1 id Hown Hi1) as (c & w2 & Hrun2 & Hf2 & Hi2).
  exists c, w2. split; [done|]. destruct (inv_store _ _ _ _ Hi1) as (k & Hst & Hfew).
  destruct (store_get_value id w1 c w2 k held Hlk Hst) as [Hk2 Hnull]; [unfold few in *; lia|done|].
  assert (stores_kept w w2) as Hk by by etransitivity.
  destruct Hk as (Em & Ei & Ev & Hid). destruct Hk1 as (Em1 & Ei1 & Ev1 & Hid1).
  assert (ct_id (w_cont w1) = ct_id (w_cont w)) as Eid by apply Hid1.
  assert (ct_name (w_cont w1) = ct_name (w_cont w)) as Ename by apply Hid1.
  assert (ct_mounts (w_cont w2) = ct_mounts (w_cont w)) as Emp by apply Hid.
  apply wp_mbind. destruct (decide (c = NULL)) as [->|Hc].
  - apply wp_mret. specialize (Hnull eq_refl). apply wp_mbind. unfold container_unlock.
    apply wp_mbind, wp_gets. destruct Hf2 as (Hl2 & _). rewrite Hl2, Hl1.
    apply wp_modify, wp_mret. intros _. unfold gone. cbn. rewrite Em, <-Em1, <-Eid. fold id.
    rewrite Hnull. split; [done|]. by intros [? ?].
  - apply wp_mbind. replace (n + 3)%nat with (S (n + 2)) in Hi2 by lia.
    eapply wp_conseq; [apply wp_unref_back, Hi2|]. cbv beta. intros _ w3 ((Hl3 & _ & Hid3) & Hi3).
    assert (ct_mounts (w_cont w3) = ct_mounts (w_cont w)) as Emp3.
    { destruct Hid3 as (_&_&_&_&_&_&E3). congruence. }
    eapply wp_conseq; [apply wp_and; [apply (keeps_delete_registered E true id (ct_name (w_cont w1))
        (ct_rm_anonymous_volumes (w_cont w1) || _) own held n w3 Hown); [exact Hi3|]
      |eapply delete_registered_spec, Hi3]|].
    { destruct Hf2 as (Hl2 & _). congruence. }
    cbv beta. intros ret w4 [(_ & Hl4 & _) H4]. apply wp_mbind. unfold container_unlock.
    apply wp_mbind, wp_gets. rewrite Hl4. apply wp_modify, wp_mret. intros H0.
    destruct (H4 H0) as (H5 & H6 & H7). unfold gone. cbn. rewrite <-Eid, <-Ename. split_and!; [done|].
    intros _. split; [done|]. intros mp v Hin. rewrite <-Emp3 in Hin. by apply H7.
Qed.

Lemma kept_kill sg : within stores_kept (kill_with_signal E sg).
Proof. unfold kill_with_signal. kept_auto. Qed.
Lemma kept_force_kill : within stores_kept (force_kill E).
Proof. unfold force_kill, container_wait_stop, send_signal_to_process. kept_auto; apply kept_kill. Qed.
Lemma kept_stop t f r : within stores_kept (stop_container E t f r).
Proof.
  unfold stop_container, stop_or_kill, container_wait_stop.
  kept_auto; first [apply kept_kill | apply kept_force_kill].
Qed.

Lemma wp_within {A} (R : world -> world -> Prop) (m : M world A) (Q : A -> world -> Prop) w :
  within R m -> wp m Q w -> wp m (fun a w' => Q a w' /\ R w w') w.
Proof. intros Hm (a & w' & Hrun & HQ). exists a, w'. split; [done|]. split; [done|by eapply Hm]. Qed.

Lemma gone_kept c w w1 w' : stores_kept w w1 -> gone c w1 w' -> gone c w w'.
Proof. intros (Em & _ & _ & _) [H1 H2]. split; [done|]. by rewrite <-Em. Qed.

Lemma gone_id c c' w w' : same_id c c' -> gone c' w w' -> gone c w w'.
Proof. intros (_ & E1 & E2 & _ & _ & _ & E3). unfold gone. by rewrite E1, E2, E3. Qed.

Lemma delete_container_spec own held n force w :
  (forall t, e_ans E t StoreLock = 0%Z) -> few_own own ->
  inv (cmp := cmp) own held (n + 4) w -> w_locked w = false ->
  wp (delete_container E force) (fun ret w' =>
    (ret = 0%Z -> gone (w_cont w) w w') /\
    (ret <> 0%Z -> exists s', ct_state (w_cont w') = Some s' /\ removal_inprogress s' = false)) w.
Proof.
  intros Hlk Hown Hi Hl. unfold delete_container. apply wp_mbind, wp_mbind, wp_gets, wp_mret, wp_mbind.
  match goal with |- wp ?m _ _ => assert (keeps 0 false m false /\ within stores_kept m) as [Hk0 Hk1] end.
  { split.
    - repeat (case_match || apply keeps_ret). apply keeps_bind with false; [apply keeps_stop_container; done|].
      intros. apply keeps_ret.
    - kept_auto. apply kept_stop. }
  eapply wp_conseq; [apply (wp_within stores_kept); [exact Hk1|];
    apply (Hk0 own held (n + 4)%nat w Hown); [by rewrite Nat.add_0_r|done]|].
  cbv beta. clear Hk0 Hk1. intros ret1 w1 [(Hi1 & Hl1 & _ & Hid1) Hk1]. apply wp_mbind.
  assert (forall ret w2 (Hi2 : inv (cmp := cmp) own held n w2), (ret = 0%Z -> gone (w_cont w) w w2) ->
    wp (when (negb (ret =? 0)%Z) (upd_state container_state_reset_removal_in_progress);; mret ret)
      (fun ret w' => (ret = 0%Z -> gone (w_cont w) w w') /\
        (ret <> 0%Z -> exists s', ct_state (w_cont w') = Some s' /\ removal_inprogress s' = false)) w2) as Htail.
  { intros ret w2 Hi2 Hg. apply wp_mbind, wp_when; intros Hz.
    - apply wp_modify, wp_mret. destruct (Z.eqb_spec ret 0) as [->|Hne]; [done|]. split; [done|]. intros _.
      destruct (ok_state _ (inv_cont _ _ _ _ Hi2)) as (s & Hs & _). cbn. rewrite Hs. by eexists.
    - apply wp_mret. destruct (Z.eqb_spec ret 0) as [->|Hne]; [|done]. split; [auto|done]. }
  apply wp_if; intros Hz.
  { apply wp_mret, Htail; [eapply inv_weaken; [exact Hi1|lia]|]. by intros ->. }
  apply wp_mbind, wp_mbind. eapply wp_conseq; [by apply ext_kept|]. cbv beta. intros z w2 [Hk2 Hv2].
  pose proof Hk2 as (Hi2 & (Hl2 & _ & Hid2) & Em2 & Ei2).
  apply wp_mret. eapply wp_conseq; [apply wp_and;
    [apply (keeps_do_delete E own held n w2 Hown); [exact Hi2|congruence]
    |apply (do_delete_spec own held n w2); [done..|congruence]]|].
  cbv beta. intros ret3 w3 [(Hi3 & _) Hg3]. apply Htail; [done|]. intros H0.
  eapply gone_kept; [exact Hk1|]. eapply (gone_kept _ w1 w2); [unfold stores_kept; split_and!; done|].
  eapply gone_id; [|by apply Hg3]. by etransitivity.
Qed.

End deleting.

(** ** Stopping a container *)

(** Since [base], before the rest of [t], a wait of [tm] seconds has ended with [P]. *)
Definition wait_ended (P : Z -> Prop) (base : list call) (tm : Z) (t : list call) : Prop :=
  exists m1 m2, t = m1 ++ WaitStop tm :: m2 /\ base `suffix_of` m2 /\ P (e_ans E m2 (WaitStop tm)).
Definition timed_out := wait_ended (fun z => z <> 0%Z).
Definition woken := wait_ended (fun z => z = 0%Z).

Lemma wait_ended_mono P base tm t t' : t `suffix_of` t' -> wait_ended P base tm t -> wait_ended P base tm t'.
Proof. intros [n ->] (m1 & m2 & -> & Hb & HP). exists (n ++ m1), m2. by rewrite <-app_assoc. Qed.

(** Every call is made for a reason found in the calls before it. *)
Fixpoint justified (P : call -> list call -> Prop) (new base : list call) : Prop :=
  match new with [] => True | c :: new => P c (new ++ base) /\ justified P new base end.

Lemma justified_app P n2 n1 base : justified P (n2 ++ n1) base <-> justified P n2 (n1 ++ base) /\ justified P n1 base.
Proof. induction n2 as [|c n2 IH]; cbn; [tauto|]. rewrite IH, app_assoc. tauto. Qed.

(** The signals of a stop: first that of the container, unless the stop is forced; SIGKILL only by force
    or after a wait that timed out; and a signal straight to the process only when waiting for the runtime has timed out too. *)
Definition escalates (base : list call) (stop_signal timeout : Z) (force : bool) (c : call) (t : list call) : Prop :=
  match c with
  | RtKill _ sg ss => ss = stop_signal /\
      (force = false /\ sg = stop_signal \/ sg = SIGKILL /\ (force = true \/ timed_out base timeout t))
  | Kill _ sg => sg = SIGKILL /\ timed_out base 90 t
  | _ => True
  end.

(** The calls made are justified by [P]; the signal of the container does not change. *)
Definition goes P w w' : Prop :=
  container_stop_signal (w_cont w') = container_stop_signal (w_cont w) /\
  exists new, w_trace w' = new ++ w_trace w /\ justified P new (w_trace w).
#[local] Instance goes_preorder P : PreOrder (goes P).
Proof.
  split; [by intros w; split; [|exists []]|]. intros w1 w2 w3 (E1 & n1 & T1 & J1) (E2 & n2 & T2 & J2). split; [congruence|].
  exists (n2 ++ n1). rewrite T2, T1, <-app_assoc. split; [done|]. apply justified_app. by rewrite <-T1.
Qed.
Lemma goes_suffix P w w' : goes P w w' -> w_trace w `suffix_of` w_trace w'.
Proof. intros (_ & n & -> & _). by exists n. Qed.
Lemma goes_weaken P P' w w' :
  goes P w w' -> (forall c t, w_trace w `suffix_of` t -> P c t -> P' c t) -> goes P' w w'.
Proof.
  intros (E1 & n & T & J) HP. split; [done|]. exists n. split; [done|]. clear T E1.
  induction n as [|c n IH]; cbn in *; [done|]. destruct J. split; [|auto]. apply HP; [by exists n|done].
Qed.

(** Of the signals, the calls that a kill with [sg] makes. *)
Definition sends (stop_signal sg : Z) (c : call) (_ : list call) : Prop :=
  match c with RtKill _ x y => x = sg /\ y = stop_signal | Kill _ _ => False | _ => True end.
Definition sends_direct (c : call) (_ : list call) : Prop :=
  match c with RtKill _ _ _ => False | Kill _ x => x = SIGKILL | _ => True end.
Lemma same_signal c c' : same_id c c' -> container_stop_signal c' = container_stop_signal c.
Proof. intros (_ & _ & _ & _ & _ & H & _). unfold container_stop_signal. by rewrite H. Qed.

Lemma goes_id P w w' :
  container_stop_signal (w_cont w') = container_stop_signal (w_cont w) -> w_trace w' = w_trace w -> goes P w w'.
Proof. intros. split; [done|]. by exists []. Qed.
Lemma goes_ext (P : call -> list call -> Prop) c w :
  P c (w_trace w) -> goes P w (e_other E c (put_trace (c :: w_trace w) w)).
Proof.
  intros HP. pose proof (rely_other c (put_trace (c :: w_trace w) w)) as Ho. split; [apply same_signal, (os_id _ _ _ Ho)|].
  exists [c]. rewrite (os_trace _ _ _ Ho). split; [done|]. by split.
Qed.
Lemma goes_rm_put P c w : goes P w (rm_put E c w).
Proof. destruct (rm_put_frame E c w) as (_&_&?&_&_&H&_). by apply goes_id; [apply same_signal|]. Qed.

Ltac goes_leaf :=
  first [ intros ?; apply goes_id; reflexivity | intros ?; apply goes_ext; cbn; by auto | intros ? ?; apply goes_rm_put ].
Ltac goes_auto := within_auto goes_leaf.

Lemma goes_kill sg w z w' :
  kill_with_signal E sg w = Some (z, w') -> goes (sends (container_stop_signal (w_cont w)) sg) w w'.
Proof.
  unfold kill_with_signal. intros (ss & w1 & [= <- <-] & Hrun)%bind_inv. revert Hrun.
  generalize (container_stop_signal (w_cont w)) as ss. intros ss Hrun. eapply within_run; [exact Hrun|]. goes_auto.
Qed.
Lemma goes_direct p ss : within (goes sends_direct) (send_signal_to_process E p ss SIGKILL).
Proof. unfold send_signal_to_process. goes_auto. Qed.

Definition not_running w : Prop := forall s, ct_state (w_cont w) = Some s -> running s = false.

Lemma wait_stop_inv P t w z w' :
  P (WaitStop t) (w_trace w) -> container_wait_stop E t w = Some (z, w') ->
  goes P w w' /\ (z = 0%Z /\ w' = w /\ not_running w \/
    z = e_ans E (w_trace w) (WaitStop t) /\ w_trace w' = WaitStop t :: w_trace w).
Proof.
  intros HP Hrun. apply bind_inv in Hrun as (r & w1 & Hr & Hrun).
  apply bind_inv in Hr as (s & w2 & [= <- <-] & [= <- <-]).
  destruct (container_is_running _) eqn:Hrn; cbn [negb] in Hrun.
  - injection Hrun as <- <-. pose proof (rely_other (WaitStop t) (put_trace (WaitStop t :: w_trace w) w)) as Ho. split; [split|right; split; [done|]].
    + apply same_signal, (os_id _ _ _ Ho).
    + exists [WaitStop t]. rewrite (os_trace _ _ _ Ho). by split_and!.
    + by rewrite (os_trace _ _ _ Ho).
  - injection Hrun as <- <-. split; [done|]. left. split_and!; [done..|]. intros s Hs. by rewrite Hs in Hrn.
Qed.

(** How a wait that reports success may end. *)
Definition ended base w : Prop := not_running w \/ exists tm, woken base tm (w_trace w).

Lemma wait_stop_ended P base t w z w' :
  P (WaitStop t) (w_trace w) -> base `suffix_of` w_trace w -> container_wait_stop E t w = Some (z, w') ->
  goes P w w' /\ (z = 0%Z -> ended base w') /\ (z <> 0%Z -> timed_out base t (w_trace w')).
Proof.
  intros HP Hb Hrun. destruct (wait_stop_inv P t w z w' HP Hrun) as [Hg [(-> & -> & Hn)|[-> T]]]; split_and!; try done.
  - intros _. by left.
  - intros Hz. right. exists t, [], (w_trace w). by rewrite T.
  - intros Hz. exists [], (w_trace w). by rewrite T.
Qed.

Section escalation.
Variables (base : list call) (S timeout : Z) (force : bool).
Abbreviation P := (escalates base S timeout force).
Abbreviation at_ w := (container_stop_signal (w_cont w) = S /\ base `suffix_of` w_trace w).
Lemma at_goes w w' : at_ w -> goes P w w' -> at_ w'.
Proof. intros [H1 H2] Hg. split; [by rewrite (proj1 Hg)|]. etransitivity; [done|by eapply goes_suffix]. Qed.

Lemma force_kill_goes w z w' :
  at_ w -> force = true \/ timed_out base timeout (w_trace w) -> force_kill E w = Some (z, w') ->
  goes P w w' /\ (z = 0%Z -> ended base w').
Proof.
  intros Hat Hf Hrun. apply bind_inv in Hrun as (ss & w0 & [= <- <-] & Hrun). apply bind_inv in Hrun as (z1 & w1 & Hk & Hrun).
  assert (goes P w w1) as H1.
  { apply goes_kill in Hk. eapply goes_weaken; [exact Hk|]. intros [] t Ht; try done. cbn. intros [-> ->].
    split; [apply Hat|]. right. split; [done|]. destruct Hf; [by left|right]. by eapply wait_ended_mono. }
  apply bind_inv in Hrun as (z2 & w2 & Hw & Hrun). pose proof (at_goes _ _ Hat H1) as Hat1.
  destruct (wait_stop_ended P base 90 w1 z2 w2 I (proj2 Hat1) Hw) as (H2 & H2a & H2b). destruct (Z.eqb_spec z2 0) as [->|Hne].
  { injection Hrun as <- <-. split; [by etransitivity|done]. }
  specialize (H2b Hne). pose proof (at_goes _ _ Hat1 H2) as Hat2.
  apply bind_inv in Hrun as (s & w3 & [= <- <-] & Hrun). apply bind_inv in Hrun as (s1 & w3 & Hl & Hrun).
  assert (w3 = w2) as ->. { destruct (ct_state (w_cont w2)); [|done]. by injection Hl as _ <-. }
  apply bind_inv in Hrun as (z3 & w3 & Hd & Hrun).
  assert (goes P w2 w3) as H3.
  { eapply goes_weaken; [by eapply goes_direct|]. intros [] t Ht; try done. cbn. intros ->. split; [done|]. by eapply wait_ended_mono. }
  assert (goes P w w3) as H03 by (etransitivity; [exact H1|etransitivity; [exact H2|exact H3]]).
  destruct (Z.eqb_spec z3 0) as [->|Hne3]; cbn [negb] in Hrun; [|by injection Hrun as <- <-].
  destruct (wait_stop_ended P base (-1) w3 z w' I (proj2 (at_goes _ _ Hat2 H3)) Hrun) as (H4 & H4a & _).
  split; [by etransitivity|done].
Qed.

Lemma stop_or_kill_goes w z w' :
  at_ w -> stop_or_kill E timeout force w = Some (z, w') -> goes P w w' /\ (z = 0%Z -> ended base w').
Proof.
  intros Hat Hrun. unfold stop_or_kill in Hrun.
  destruct (negb force) eqn:Hf; [apply negb_true_iff in Hf|apply negb_false_iff in Hf; apply force_kill_goes; auto].
  apply bind_inv in Hrun as (ss & w0 & [= <- <-] & Hrun). apply bind_inv in Hrun as (z1 & w1 & Hk & Hrun).
  assert (goes P w w1) as H1.
  { apply goes_kill in Hk. eapply goes_weaken; [exact Hk|]. intros [] t Ht; try done. cbn. rewrite (proj1 Hat). intros [-> ->]. auto. }
  apply bind_inv in Hrun as (z2 & w2 & Hw & Hrun). pose proof (at_goes _ _ Hat H1) as Hat1.
  destruct (wait_stop_ended P base timeout w1 z2 w2 I (proj2 Hat1) Hw) as (H2 & H2a & H2b).
  assert (goes P w w2) as H02 by by etransitivity.
  destruct (Z.eqb_spec z2 0) as [->|Hne]; cbn [negb] in Hrun; [by injection Hrun as <- <-|].
  destruct (force_kill_goes w2 z w') as [H3 H3a]; [by eapply at_goes|right; auto|done|]. split; [by etransitivity|done].
Qed.
End escalation.

Lemma goes_auto_remove P f : within (goes P) (set_auto_remove f : M world unit).
Proof. goes_auto. Qed.

Lemma stop_container_goes t f r w z w' :
  stop_container E t f r w = Some (z, w') ->
  goes (escalates (w_trace w) (container_stop_signal (w_cont w)) t f) w w' /\ (z = 0%Z -> ended (w_trace w) w').
Proof.
  set (P := escalates _ _ _ _). intros Hrun. apply bind_inv in Hrun as ([] & w1 & Hlk & Hrun).
  assert (goes P w w1) as H1. { eapply within_run; [exact Hlk|]. goes_auto. }
  apply bind_inv in Hrun as (p & w2 & Hp & Hrun). apply bind_inv in Hp as (s & w3 & [= <- <-] & [= <- <-]).
  apply bind_inv in Hrun as (ret & w3 & Hb & Hrun). apply bind_inv in Hrun as ([] & w4 & Ha & Hrun).
  apply bind_inv in Hrun as ([] & w5 & Hu & [= <- <-]). apply unlock_inv in Hu as ->.
  assert (goes P w w3 /\ (ret = 0%Z -> ended (w_trace w) w3)) as [H3 H3a].
  { destruct (container_is_paused _); [by injection Hb as <- <-|]. apply bind_inv in Hb as ([] & w6 & Hwh & Hb).
    assert (goes P w1 w6) as H6. { destruct r; cbn [when] in Hwh; [by eapply goes_auto_remove|by injection Hwh as <-]. }
    assert (goes P w w6) as H06 by by etransitivity.
    destruct (stop_or_kill_goes (w_trace w) (container_stop_signal (w_cont w)) t f w6 ret w3) as [H7 H7a]; [|done|split; [by etransitivity|done]].
    apply (at_goes _ _ t f w); [done|done]. }
  assert (goes P w3 w4 /\ ct_state (w_cont w4) = ct_state (w_cont w3) /\ w_trace w4 = w_trace w3) as (H4 & Hs4 & T4).
  { destruct r; cbn [when] in Ha; [|by injection Ha as <-]. split; [by eapply goes_auto_remove|].
    apply bind_inv in Ha as (hc & w6 & Hhc & [= <-]). apply bind_inv in Hhc as (o & w7 & [= <- <-] & Hhc).
    destruct (ct_hostconfig (w_cont w3)); [|done]. by injection Hhc as _ <-. }
  split; [by etransitivity|]. intros H0. destruct (H3a H0) as [Hn|[tm Hw]]; [left|right; exists tm].
  - intros s. cbn. rewrite Hs4. apply Hn.
  - cbn. by rewrite T4.
Qed.

(** ** Requests *)

(** What reaches a container from outside: calls of clients, exit events from the
    monitor, restart threads, the garbage collector. *)
Inductive request :=
| RqStart | RqStop (timeout : Z) (force : bool) | RqKill (signal : Z)
| RqPause | RqResume | RqRestart (timeout : Z) | RqDelete (force volumes : bool)
| RqExited (ev : isulad_events_format) | RqRestartThread (timeout code : Z) | RqClean (pid : Z)
| RqPolicyAfterGc | RqAutoRemoveAfterGc | RqGcResume
| RqRestoreState | RqRestored.

Definition serve (r : request) : M world unit :=
  match r with
  | RqStart => _ ← start_container E true; mret tt
  | RqStop t f => _ ← stop_container E t f false; mret tt
  | RqKill sg => _ ← kill_container E sg; mret tt
  | RqPause => _ ← do_pause_container E; mret tt
  | RqResume => _ ← do_resume_container E; mret tt
  | RqRestart t => _ ← do_restart_container E t; mret tt
  | RqDelete f v => _ ← delete_request E f v; mret tt
  | RqExited ev => _ ← container_state_changed E ev; mret tt
  | RqRestartThread t code => container_restart E t code
  | RqClean p => _ ← clean_container_resource E p; mret tt
  | RqPolicyAfterGc => apply_restart_policy_after_gc E
  | RqAutoRemoveAfterGc => apply_auto_remove_after_gc E
  | RqGcResume => _ ← do_runtime_resume_container E; mret tt
  | RqRestoreState => restore_state E
  | RqRestored => handle_restored E
  end.

Fixpoint serve_all (rs : list request) : M world unit :=
  match rs with [] => mret tt | r :: rs => serve r;; serve_all rs end.

Lemma serve_spec own held n r w :
  (Z.of_nat (length own) < 2 ^ 32 - 1)%Z -> inv (cmp := cmp) own held (n + 6) w -> w_locked w = false ->
  wp (serve r) (fun _ w' => framed w w' /\ inv (cmp := cmp) own held n w') w.
Proof.
  intros Hown Hi Hl.
  assert (forall {A} c (m : M world A), keeps c false m false -> (c <= 6)%nat ->
    wp (_ ← m; mret tt) (fun _ w' => framed w w' /\ inv (cmp := cmp) own held n w') w) as Hk.
  { intros A c m Hm Hc. apply wp_mbind. eapply wp_conseq; [apply (keeps_weaken c 6%nat _ _ _ Hm Hc own held n w)|].
    - unfold few_own. lia.
    - done.
    - done.
    - cbv beta. intros a w' (? & ? & ? & ?). apply wp_mret. split; [|done]. split_and!; [congruence|done..]. }
  assert (forall c (m : M world unit), keeps c false m false -> (c <= 6)%nat ->
    wp m (fun _ w' => framed w w' /\ inv (cmp := cmp) own held n w') w) as Hk1.
  { intros c m Hm Hc. destruct (Hk unit c m Hm Hc) as ([] & w' & (u & w1 & Hr & [= <-])%bind_inv & HQ).
    by exists u, w1. }
  destruct r; cbn [serve].
  - apply (Hk _ 4%nat); [apply (keeps_start E)|lia].
  - apply (Hk _ 0%nat); [by apply (keeps_stop_container E)|lia].
  - apply (Hk _ 0%nat); [by apply (keeps_kill_container E)|lia].
  - apply (Hk _ 0%nat); [by apply (keeps_pause E)|lia].
  - apply (Hk _ 0%nat); [by apply (keeps_resume E)|lia].
  - apply (Hk _ 4%nat); [apply (keeps_do_restart E)|lia].
  - apply (Hk _ 4%nat); [apply (keeps_delete_request E)|lia].
  - apply (Hk _ 6%nat); [apply (keeps_state_changed E)|lia].
  - apply (keeps_container_restart E); [done| |done]. eapply inv_weaken; [done|lia].
  - apply (Hk _ 0%nat); [by apply (keeps_clean E)|lia].
  - apply (Hk1 2%nat); [apply (keeps_policy_after_gc E)|lia].
  - apply (Hk1 4%nat); [apply (keeps_auto_remove_after_gc E)|lia].
  - apply (Hk _ 0%nat); [by apply (keeps_gc_resume E)|lia].
  - apply (Hk1 0%nat); [by apply (keeps_restore_state E)|lia].
  - apply (Hk1 4%nat); [apply (keeps_handle_restored E)|lia].
Qed.

Lemma serve_all_spec rs held n w :
  inv (cmp := cmp) [] held (6 * length rs + n) w -> w_locked w = false ->
  wp (serve_all rs) (fun _ w' => framed w w' /\ inv (cmp := cmp) [] held n w') w.
Proof.
  revert w. induction rs as [|r rs IH]; intros w Hi Hl.
  { apply wp_mret. by split. }
  cbn [length] in Hi. replace (6 * S (length rs) + n)%nat with (6 * length rs + n + 6)%nat in Hi by lia.
  apply wp_mbind. eapply wp_conseq; [by apply (serve_spec [] held (6 * length rs + n)%nat r w)|].
  cbv beta. intros [] w1 [Hf Hi1]. eapply wp_conseq; [apply IH; [done|]|].
  - destruct Hf as [Hl1 _]. congruence.
  - cbv beta. intros _ w2 [Hf2 Hi2]. split; [|done]. by eapply framed_trans.
Qed.

(** ** A stop by the user is final *)

(** The restart manager of the container has been cancelled. *)
Definition halted w : Prop :=
  ct_rm (w_cont w) <> NULL /\ exists rm, w_rms w !! ct_rm (w_cont w) = Some rm /\ canceled rm = true.
(** Nobody else starts the container: a cancelled manager is left in its place. *)
Definition left_alone : Prop := forall c w, halted w -> halted (e_other E c w).

(** A cancelled manager stays cancelled and nothing is started. *)
Definition final w w' : Prop := halted w -> halted w' /\ called no_start w w'.
#[local] Instance final_preorder : PreOrder final.
Proof.
  split; [by intros w Hw; split|]. intros w1 w2 w3 H1 H2 Hw. destruct (H1 Hw) as [Hw2 C1]. destruct (H2 Hw2) as [Hw3 C2].
  split; [done|by etransitivity].
Qed.

(** What the functions of RestartManager do to a cancelled manager. *)
Definition keeps_cancelled {A} (f : rm_env -> rm_container -> option (A * rm_container)) : Prop :=
  forall e c a c' rm, f e c = Some (a, c') -> c_rm c = Some rm -> canceled rm = true ->
    exists rm', c_rm c' = Some rm' /\ canceled rm' = true.

Lemma deref_inv {A} rm (r : option A) a : deref rm r = Some a -> r = Some a.
Proof. unfold deref. by destruct (rm_live rm). Qed.
Lemma unref_canceled rm rm' : restart_manager_unref rm = Some rm' -> canceled rm' = canceled rm.
Proof.
  intros H%deref_inv. destruct (atomic_int_dec_test (refcnt rm)) as [k []]; cbn in H; [|by injection H as <-].
  apply deref_inv in H. by injection H as <-.
Qed.
Lemma unref_rm_canceled c c' rm :
  unref_rm c = Some c' -> c_rm c = Some rm -> exists rm', c_rm c' = Some rm' /\ canceled rm' = canceled rm.
Proof.
  unfold unref_rm. intros H Hc. rewrite Hc in H. cbn in H. apply bind_Some_inv in H as (rm' & H & [= <-]).
  exists rm'. split; [done|by apply unref_canceled].
Qed.
Lemma get_manager_inv e c b c' :
  get_restart_manager e c = Some (b, c') ->
  (b = true -> exists rm, c_rm c' = Some rm /\ forall rm0, c_rm c = Some rm0 -> canceled rm = canceled rm0) /\
  ((exists rm, c_rm c = Some rm) \/ e = rm_env_ok -> b = true).
Proof.
  unfold get_restart_manager. destruct (c_rm c) as [rm|] eqn:Hc.
  - intros (rm' & H%deref_inv & [= <- <-])%bind_Some_inv. injection H as <-. split; [|done].
    intros _. eexists. split; [done|]. by intros rm0 [= <-].
  - destruct (restart_manager_new _ _ _) as [rm|] eqn:Hn.
    + intros (rm' & H & [= <- <-])%bind_Some_inv. split; [|done]. intros _. eexists. by split.
    + intros [= <- <-]. split; [done|]. by intros [[? ?]| -> ].
Qed.

Lemma exit_on_next_cancels e c z c' :
  container_exit_on_next e c = Some (z, c') -> (exists rm, c_rm c = Some rm) \/ e = rm_env_ok ->
  z = 0%Z /\ exists rm, c_rm c' = Some rm /\ canceled rm = true.
Proof.
  unfold container_exit_on_next. intros ([b c1] & Hg & H)%bind_Some_inv He. destruct (get_manager_inv _ _ _ _ Hg) as [H1 H2].
  rewrite (H2 He) in *. cbn [fst snd negb] in H. destruct (H1 eq_refl) as (rm & Hrm & _).
  rewrite Hrm in H. cbn in H. apply bind_Some_inv in H as ([z1 rm1] & Hc%deref_inv & H). injection Hc as <- <-.
  apply bind_Some_inv in H as (c2 & Hu & [= <- <-]). split; [done|].
  destruct (unref_rm_canceled (put_rm (Some (put_canceled true rm)) c1) _ _ Hu eq_refl) as (rm2 & ? & Hcan). exists rm2. by split.
Qed.
Lemma exit_on_next_keeps : keeps_cancelled container_exit_on_next.
Proof. intros e c a c' rm H Hc _. by destruct (exit_on_next_cancels e c a c' H) as [_ ?]; [left; exists rm|]. Qed.
Lemma get_manager_keeps : keeps_cancelled get_restart_manager.
Proof.
  intros e c b c' rm H Hc Hcan. destruct (get_manager_inv _ _ _ _ H) as [H1 H2].
  destruct (H1 (H2 (or_introl (ex_intro _ rm Hc)))) as (rm' & ? & He). exists rm'. split; [done|]. by rewrite (He rm Hc).
Qed.
(** A cancelled manager never asks for a restart. *)
Lemma should_restart_cancelled e code stopped d c rm r c' :
  restart_manager_should_restart e code stopped d (Some c) = Some (r, Some c') -> c_rm c = Some rm -> canceled rm = true ->
  r.1 = false /\ exists rm', c_rm c' = Some rm' /\ canceled rm' = true.
Proof.
  unfold restart_manager_should_restart. intros ([b c1] & Hg & H)%bind_Some_inv Hc Hcan.
  destruct (get_manager_inv _ _ _ _ Hg) as [H1 H2]. rewrite (H2 (or_introl (ex_intro _ rm Hc))) in *. cbn [fst snd negb] in H.
  destruct (H1 eq_refl) as (rm1 & Hrm1 & He). specialize (He rm Hc). rewrite Hrm1 in H. cbn [mbind option_bind] in H.
  assert (forall c2, unref_rm c1 = Some c2 -> exists rm', c_rm c2 = Some rm' /\ canceled rm' = true) as Hu.
  { intros c2 Hu. destruct (unref_rm_canceled _ _ _ Hu Hrm1) as (rm' & ? & ?). exists rm'. split; [done|congruence]. }
  destruct (policy rm1) as [[[nm|] mx]|].
  - rewrite He, Hcan in H. apply bind_Some_inv in H as (c2 & H & [= <- <-]). auto.
  - apply bind_Some_inv in H as (c2 & H & [= <- <-]). auto.
  - apply bind_Some_inv in H as (c2 & H & [= <- <-]). auto.
Qed.

(** A call with the manager of a container that is halted. *)
Lemma with_rm_halted {A} (f : rm_env -> rm_container -> option (A * rm_container)) w a w' :
  with_rm E f w = Some (a, w') -> halted w ->
  exists c c' rm, f (e_rm E (w_trace w)) c = Some (a, c') /\ w' = rm_put E c' w /\ c_rm c = Some rm /\ canceled rm = true.
Proof.
  intros (c & Hv & (r & Hf & [= <- <-])%bind_Some_inv)%bind_Some_inv [Hn (rm & Hrm & Hcan)].
  unfold rm_view in Hv. rewrite decide_False, Hrm in Hv by done. injection Hv as <-. destruct r as [a c']. by eexists _, c', rm.
Qed.
Lemma rm_put_halted c rm w : c_rm c = Some rm -> canceled rm = true -> halted (rm_put E c w).
Proof.
  intros Hc Hcan. unfold rm_put. rewrite Hc. split; cbn.
  - case_decide; [apply rely_fresh|done].
  - exists rm. by rewrite lookup_insert_eq.
Qed.
Lemma final_with_rm {A} (f : rm_env -> rm_container -> option (A * rm_container)) :
  keeps_cancelled f -> within final (with_rm E f).
Proof.
  intros Hf w a w' Hrun Hw. destruct (with_rm_halted f w a w' Hrun Hw) as (c & c' & rm & Hr & -> & Hc & Hcan).
  destruct (Hf _ _ _ _ _ Hr Hc Hcan) as (rm' & ? & ?). split; [by eapply rm_put_halted|].
  exists []. split; [apply rm_put_frame|done].
Qed.

Section finality.
Hypothesis Halone : left_alone.

Lemma final_id w w' : w_rms w' = w_rms w -> ct_rm (w_cont w') = ct_rm (w_cont w) -> w_trace w' = w_trace w -> final w w'.
Proof. intros H1 H2 H3 Hw. split; [unfold halted; by rewrite H1, H2|]. by exists []. Qed.
Lemma final_ext c w : no_start c -> final w (e_other E c (put_trace (c :: w_trace w) w)).
Proof.
  intros Hc Hw. split; [by apply Halone|]. exists [c]. rewrite (os_trace _ _ _ (rely_other _ _)). split; [done|]. by constructor.
Qed.
(** A step whose result is known when the container is halted. *)
Lemma final_bind {A B} (Q : A -> world -> Prop) (m : M world A) (k : A -> M world B) :
  (forall w a w', m w = Some (a, w') -> halted w -> Q a w' /\ halted w' /\ called no_start w w') ->
  (forall a w b w', k a w = Some (b, w') -> Q a w -> final w w') -> within final (m ≫= k).
Proof.
  intros Hm Hk w b w' (a & w1 & H1 & H2)%bind_inv Hw. destruct (Hm _ _ _ H1 Hw) as (HQ & Hw1 & C1).
  destruct (Hk _ _ _ _ H2 HQ Hw1) as [Hw' C2]. split; [done|by etransitivity].
Qed.

Ltac final_leaf := first [ intros ?; apply final_id; reflexivity | intros ?; apply final_ext; exact I ].
Lemma final_exit : within final (exit_on_next E).
Proof. apply final_with_rm, exit_on_next_keeps. Qed.
Lemma final_get_rm : within final (get_rm E).
Proof. unfold get_rm. apply within_bind; [apply _|apply final_with_rm, get_manager_keeps|]. within_auto final_leaf. Qed.
Lemma final_unref p : within final (unref_at p : M world unit).
Proof.
  intros w a w' (rms & w1 & [= <- <-] & Hrun)%bind_inv [Hn (rm0 & Hrm0 & Hcan0)].
  apply bind_inv in Hrun as (rm & w2 & Hl & Hrun). destruct (w_rms w !! p) as [rm1|] eqn:Hp; [|done]. injection Hl as -> <-.
  apply bind_inv in Hrun as (r & w2 & Hl & Hrun). destruct (restart_manager_unref rm) as [rm2|] eqn:Hu; [|done].
  injection Hl as <- <-. injection Hrun as <- <-. split; [|by exists []]. split; [done|]. cbn.
  destruct (decide (ct_rm (w_cont w) = p)) as [<-|Hne]; [|rewrite lookup_insert_ne by done; by exists rm0].
  exists rm2. rewrite lookup_insert_eq. split; [done|]. rewrite (unref_canceled _ _ Hu). congruence.
Qed.

Lemma final_kill sg : within final (kill_with_signal E sg).
Proof. unfold kill_with_signal. within_auto final_leaf; apply final_exit. Qed.
Lemma final_force_kill : within final (force_kill E).
Proof.
  unfold force_kill, container_wait_stop, send_signal_to_process. within_auto final_leaf; apply final_kill.
Qed.
Lemma final_stop t f r : within final (stop_container E t f r).
Proof.
  unfold stop_container, stop_or_kill, container_wait_stop.
  within_auto final_leaf; first [apply final_kill | apply final_force_kill].
Qed.
Lemma final_release_volumes mps id anon ret : within final (release_volumes E mps id anon ret).
Proof. revert ret. induction mps as [|mp mps IH]; intros ret; cbn; within_auto final_leaf; apply IH. Qed.
Lemma final_delete force : within final (delete_container E force).
Proof.
  unfold delete_container, do_delete_container, delete_registered, remove_resources, deregister.
  within_auto final_leaf; first [apply final_stop | apply final_release_volumes].
Qed.

Lemma should_restart_halted code stopped d w r w' :
  rm_should_restart E code stopped d w = Some (r, w') -> halted w -> r.1 = false /\ halted w' /\ called no_start w w'.
Proof.
  intros Hrun Hw. apply bind_inv in Hrun as (id & w0 & [= <- <-] & Hrun). apply bind_inv in Hrun as (tmp & w1 & Hg & Hrun).
  assert (within final (store_get E (ct_id (w_cont w)))) as Hfg by within_auto final_leaf.
  destruct (Hfg _ _ _ Hg Hw) as [Hw1 C1]. case_decide; [by injection Hrun as <- <-|].
  apply bind_inv in Hrun as (r1 & w2 & Hr & Hrun). destruct (with_rm_halted _ _ _ _ Hr Hw1) as (c & c' & rm & Hf & -> & Hc & Hcan).
  apply bind_Some_inv in Hf as ([r2 o] & Hsr & Hf). cbn [snd fst] in Hf. destruct o as [c2|]; [|done]. injection Hf as <- <-.
  destruct (should_restart_cancelled _ _ _ _ _ _ _ _ Hsr Hc Hcan) as (Hr1 & rm' & Hc' & Hcan').
  apply bind_inv in Hrun as ([] & w3 & Hu & [= <- <-]). split; [done|].
  assert (within final (store_unref tmp : M world unit)) as Hfu by within_auto final_leaf.
  destruct (Hfu _ _ _ Hu (rm_put_halted c2 rm' w1 Hc' Hcan')) as [Hw3 C3]. split; [done|]. etransitivity; [exact C1|].
  etransitivity; [|exact C3]. exists []. split; [apply rm_put_frame|done].
Qed.

Lemma final_exited ev : within final (exited E ev).
Proof.
  unfold exited. apply within_bind; [apply _|within_auto final_leaf|intros stopped]. apply within_bind; [apply _|within_auto final_leaf|intros since].
  apply (final_bind (fun r _ => r.1 = false)); [intros *; apply should_restart_halted|].
  intros [b t] w x w' Hrun Hb. cbn in Hb. subst b. eapply within_run; [exact Hrun|]. cbn [fst]. unfold set_container_to_removal. within_auto final_leaf.
Qed.
Lemma final_state_changed ev : within final (container_state_changed E ev).
Proof. unfold container_state_changed. within_auto final_leaf; first [apply final_exited | apply final_delete]. Qed.
Lemma final_policy : within final (apply_restart_policy_after_gc E).
Proof.
  unfold apply_restart_policy_after_gc. apply within_bind; [apply _|within_auto final_leaf|intros _].
  apply within_bind; [apply _|within_auto final_leaf|intros running]. apply within_bind; [apply _| |within_auto final_leaf].
  destruct running; [within_auto final_leaf|]. apply within_bind; [apply _|within_auto final_leaf|intros s].
  apply within_bind; [apply _|within_auto final_leaf|intros since].
  apply (final_bind (fun r _ => r.1 = false)); [intros *; apply should_restart_halted|].
  intros [b t] w x w' Hrun Hb. cbn in Hb. subst b. eapply within_run; [exact Hrun|]. cbn [fst when]. within_auto final_leaf.
Qed.

Lemma final_set_stopped code : within final (restart_set_stopped E code).
Proof. unfold restart_set_stopped. within_auto final_leaf. Qed.
(** The restart thread finds the manager cancelled and gives up. *)
Lemma final_restart_with tm code w u w' :
  restart_with E (ct_rm (w_cont w)) tm code w = Some (u, w') -> final w w'.
Proof.
  intros Hrun Hw. pose proof Hw as [Hn (rm & Hrm & Hcan)]. apply bind_inv in Hrun as (ret & w1 & Hc & Hrun).
  unfold rm_wait_cancel in Hc. rewrite decide_False in Hc by done. apply bind_inv in Hc as (rms & w2 & [= <- <-] & Hc).
  apply bind_inv in Hc as (rm1 & w2 & Hl & Hc). rewrite Hrm in Hl. injection Hl as <- <-.
  destruct (negb (rm_live rm)); [done|]. rewrite Hcan in Hc. injection Hc as <- <-. cbn [Z.eqb] in Hrun.
  revert Hw. change (final w w'). eapply within_run; [exact Hrun|].
  apply within_bind; [apply _|apply final_set_stopped|]. intros _. apply final_unref.
Qed.
Lemma final_container_restart tm code : within final (container_restart E tm code).
Proof.
  unfold container_restart. apply within_bind; [apply _|within_auto final_leaf|intros gc]. destruct (negb _); [apply final_set_stopped|].
  apply within_bind; [apply _|within_auto final_leaf|intros _].
  apply (final_bind (fun p w => p = NULL \/ p = ct_rm (w_cont w))).
  - intros w p w' Hrun Hw. destruct (final_get_rm _ _ _ Hrun Hw) as [Hw' C]. split; [|done].
    apply bind_inv in Hrun as (found & w1 & _ & Hrun). destruct found; [|left]; injection Hrun as <- <-; auto.
  - intros p w u w' ([] & w1 & Hu & Hrun)%bind_inv Hp. apply unlock_inv in Hu as ->.
    transitivity (put_locked false w); [by apply final_id|]. case_decide; [by eapply final_set_stopped|].
    destruct Hp as [| -> ]; [done|]. by eapply (final_restart_with tm code (put_locked false w)).
Qed.

(** What reaches a container that nobody asks to start. *)
Definition no_start_request (r : request) : bool :=
  match r with RqStart | RqRestart _ | RqRestoreState | RqRestored => false | _ => true end.
Lemma final_serve r : no_start_request r = true -> within final (serve r).
Proof.
  destruct r; try done; intros _; cbn [serve].
  - within_auto final_leaf. apply final_stop.
  - unfold kill_container. within_auto final_leaf; first [apply final_kill | apply final_force_kill].
  - unfold do_pause_container, save_container. within_auto final_leaf.
  - unfold do_resume_container, save_container. within_auto final_leaf.
  - unfold delete_request, set_container_to_removal. within_auto final_leaf. apply final_delete.
  - within_auto final_leaf. apply final_state_changed.
  - apply final_container_restart.
  - unfold clean_container_resource, do_clean_container, umount_dev_tmpfs_for_system_container. within_auto final_leaf.
  - apply final_policy.
  - unfold apply_auto_remove_after_gc, set_container_to_removal. within_auto final_leaf. apply final_delete.
  - unfold do_runtime_resume_container, save_container. within_auto final_leaf.
Qed.
Lemma final_serve_all rs : Forall (fun r => no_start_request r = true) rs -> within final (serve_all rs).
Proof.
  induction 1 as [|r rs Hr _ IH]; cbn [serve_all]; [within_auto final_leaf|]. apply within_bind; [apply _|by apply final_serve|done].
Qed.

(** With memory for a manager, every kill cancels it. *)
Hypothesis Hmem : forall t, e_rm E t = rm_env_ok.
Lemma kill_halts sg w z w' : kill_with_signal E sg w = Some (z, w') -> halted w'.
Proof.
  unfold kill_with_signal. intros (ss & w1 & [= <- <-] & Hrun)%bind_inv. apply bind_inv in Hrun as (u & w1 & Hp & Hrun).
  apply bind_inv in Hp as (s & w2 & [= <- <-] & [= <- <-]). apply bind_inv in Hrun as (z1 & w1 & Hx & Hrun).
  assert (z1 = 0%Z /\ halted w1) as [-> Hw1].
  { apply bind_Some_inv in Hx as (c & _ & ([z2 c'] & Hf & [= <- <-])%bind_Some_inv).
    destruct (exit_on_next_cancels _ _ _ _ Hf) as (-> & rm & Hc & Hcan); [right; apply Hmem|]. split; [done|]. by eapply rm_put_halted. }
  cbn [negb Z.eqb] in Hrun. revert Hrun. generalize (container_stop_signal (w_cont w)) as ss. intros ss Hrun.
  assert (final w1 w') as Hf by (eapply within_run; [exact Hrun|]; within_auto final_leaf). by apply Hf.
Qed.
Lemma force_kill_halts w z w' : force_kill E w = Some (z, w') -> halted w'.
Proof.
  intros (ss & w1 & [= <- <-] & Hrun)%bind_inv. apply bind_inv in Hrun as (z1 & w1 & Hk & Hrun). apply kill_halts in Hk.
  assert (final w1 w') as Hf; [|by apply Hf]. eapply within_run; [exact Hrun|].
  unfold container_wait_stop, send_signal_to_process. within_auto final_leaf.
Qed.

(** A stop or a kill by the user. *)
Inductive user_stop := UStop (timeout : Z) (force : bool) | UKill (signal : Z).
Definition run_user_stop (u : user_stop) : M world Z :=
  match u with UStop t f => stop_container E t f false | UKill sg => kill_container E sg end.
Lemma user_stop_halts u w w' : run_user_stop u w = Some (0%Z, w') -> halted w'.
Proof.
  destruct u as [t f|sg]; cbn [run_user_stop]; intros Hrun; apply bind_inv in Hrun as ([] & w1 & _ & Hrun);
    apply bind_inv in Hrun as (p & w2 & Hp & Hrun); apply bind_inv in Hrun as (ret & w3 & Hb & Hrun).
  - apply bind_inv in Hrun as ([] & w4 & [= <-] & Hrun). apply bind_inv in Hrun as ([] & w5 & Hu & [= -> <-]). apply unlock_inv in Hu as ->.
    destruct p; [by injection Hb|]. apply bind_inv in Hb as ([] & w4 & [= <-] & Hb). unfold stop_or_kill in Hb.
    destruct (negb f); [|exact (force_kill_halts w2 _ w3 Hb)]. apply bind_inv in Hb as (ss & w4 & [= <- <-] & Hb).
    apply bind_inv in Hb as (z1 & w4 & Hk & Hb). apply kill_halts in Hk. apply bind_inv in Hb as (z2 & w5 & Hw & Hb).
    assert (final w4 w5) as Hf by (eapply within_run; [exact Hw|]; unfold container_wait_stop; within_auto final_leaf).
    destruct (negb _) in Hb; [exact (force_kill_halts w5 _ w3 Hb)|]. injection Hb as <-. by apply Hf.
  - apply bind_inv in Hrun as ([] & w5 & Hu & Hrun). apply unlock_inv in Hu as ->. injection Hrun as Hz <-.
    destruct (Z.eqb_spec ret 0) as [->|]; [|done]. destruct (negb p); [by injection Hb|].
    match type of Hb with (if ?b then _ else _) _ = _ => destruct b end; [exact (force_kill_halts w2 _ w3 Hb)|exact (kill_halts _ w2 _ w3 Hb)].
Qed.
End finality.

(** C1: whatever requests, exits and restart threads a container sees, and whatever
    the runtime, the image module, the file system, the plugins and the other threads
    do in between, every handler returns without touching freed memory or a NULL
    pointer, takes and releases the container lock properly, leaves no descriptor open
    and closes none twice, and the world stays consistent: the state of the container
    satisfies its invariant, the restart managers and the stored containers are
    referenced exactly as often as their counts say, and the volume store is well
    formed.  The other threads may do anything that keeps the world consistent and the
    references of this thread counted ([Rely]); restoring a checkpoint is not among the
    requests (see [checkpoint_restore]), and the calls on the store of containers stay few
    enough for its counters. *)
Theorem service_requests_safe rs held w :
  inv (cmp := cmp) [] held (6 * length rs) w -> w_locked w = false -> w_fds w = [] ->
  exists w', serve_all rs w = Some (tt, w') /\ inv (cmp := cmp) [] held 0 w' /\
    w_locked w' = false /\ w_fds w' = [].
Proof.
  intros Hi Hl Hf. destruct (serve_all_spec rs held 0 w) as ([] & w' & Hrun & (Hl' & Hf' & _) & Hi'); [|done|].
  - by rewrite Nat.add_0_r.
  - exists w'. split_and!; [done|done|congruence|congruence].
Qed.

(** C13: starting a container.  The runtime is asked to start only a container that is
    not paused, not dead, not being removed and, for a start by the user, not already
    running; when the start reports success the container is running, and if the
    runtime was involved the exit monitor watches exactly the process recorded in the
    state, which is neither paused nor restarting.  Threads that do not hold the lock of
    the container leave its state alone but for what [quiet] allows ([RelyLock]). *)
Theorem start_container_correct rr own held n w :
  few_own own -> inv (cmp := cmp) own held (n + 4) w -> w_locked w = false ->
  exists ret w', start_container E rr w = Some (ret, w') /\
    inv (cmp := cmp) own held n w' /\ w_locked w' = false /\ w_fds w' = w_fds w /\
    exists new, w_trace w' = new ++ w_trace w /\
      (forall s, RtStart s ∈ new -> exists s1, s = Some s1 /\ may_start rr s1) /\
      (ret = 0%Z -> exists s', ct_state (w_cont w') = Some s' /\ running s' = true /\
         (forall s, RtStart s ∈ new -> restarting s' = false /\ paused s' = false /\ exit_code s' = 0%Z /\
            has_been_manually_stopped s' = false /\ exists fd, AddExitMonitor fd (pid s') ∈ new)).
Proof.
  intros Hown Hi Hl. destruct (keeps_start E rr own held n w Hown Hi Hl) as (ret & w' & Hrun & Hi' & Hl' & Hf' & _).
  exists ret, w'. split_and!; [done..|]. eapply start_container_inv; [exact Hrun|].
  intros w1 Hlk. destruct (keeps_lock E 4 own held n w Hown Hi Hl) as ([] & w2 & Hlk2 & Hi2 & _).
  rewrite Hlk in Hlk2. simplify_eq. destruct (ok_state _ (inv_cont _ _ _ _ Hi2)) as (s & ? & _). eauto.
Qed.

(** C34: a start that fails undoes what it did.  When [do_start_container] fails the
    container's file system is unmounted, and if the runtime had been asked to create or to
    start the container, its resources are cleaned; when it succeeds neither happens and the
    exit of the process is monitored.  In both cases no descriptor is left open.  The other
    threads respect the lock of the container ([RelyLock]). *)
Theorem failed_start_cleans_up rr own held n w :
  few_own own -> inv (cmp := cmp) own held n w -> w_locked w = true ->
  exists ret pi w', do_start_container E rr w = Some (ret, pi, w') /\ w_fds w' = w_fds w /\
    exists new, w_trace w' = new ++ w_trace w /\
      (ret = 0%Z -> (exists fd, AddExitMonitor fd (pi_pid pi) ∈ new) /\
         Forall (fun c => match c with RtClean _ | UmountRootfs => False | _ => True end) new) /\
      (ret <> 0%Z -> UmountRootfs ∈ new /\ (RtCreate ∈ new -> RtClean 0 ∈ new) /\
         (forall s, RtStart s ∈ new -> RtClean 0 ∈ new)).
Proof.
  intros Hown Hi Hl. destruct (keeps_do_start E rr own held n w Hown) as ([ret pi] & w' & Hrun & _ & _ & Hf & _);
    [by rewrite Nat.add_0_r|done|].
  destruct (ok_state _ (inv_cont _ _ _ _ Hi)) as (s & Hs & _).
  destruct (do_start_inv rr w s ret pi w' Hl Hs Hrun) as [_ _ (new & T & _ & H1 & H2)].
  exists ret, pi, w'. split_and!; [done..|]. by exists new.
Qed.

(** C14: deleting a container.  With working locks a deletion that reports success
    leaves no container under the id; if one was registered, its name is free again
    and it is no user of any of its volumes.  A deletion that fails gives the right to
    remove the container back.  The other threads respect the lock of the container and leave
    the stores of containers and of volumes alone meanwhile ([RelyLock], [RelyStores]). *)
Theorem delete_container_removes `{HS : !RelyStores E} own held n force w :
  (forall t, e_ans E t StoreLock = 0%Z) -> few_own own ->
  inv (cmp := cmp) own held (n + 4) w -> w_locked w = false ->
  exists ret w', delete_container E force w = Some (ret, w') /\
    inv (cmp := cmp) own held n w' /\ w_locked w' = false /\
    (ret = 0%Z -> gone (w_cont w) w w') /\
    (ret <> 0%Z -> exists s', ct_state (w_cont w') = Some s' /\ removal_inprogress s' = false).
Proof.
  intros Hlk Hown Hi Hl.
  destruct (delete_container_spec own held n force w Hlk Hown Hi Hl) as (ret & w' & Hrun & H1 & H2).
  destruct (keeps_delete E force own held n w Hown Hi Hl) as (ret' & w'' & Hrun' & Hi' & Hl' & _).
  rewrite Hrun in Hrun'. simplify_eq. exists ret', w''. by split_and!.
Qed.

(** C31: stopping a container.  [stop_container] always returns with the lock released and the
    world consistent.  The signals escalate: the runtime is asked for the signal of the container
    first, unless the stop is forced; for SIGKILL only by force or after the wait of [timeout]
    seconds has failed; and the process is killed directly only when a wait of 90 seconds has
    failed too.  When success is reported, the container has been seen not running, or a
    condition wait has been woken up (the code does not look at the state again after it). *)
Theorem stop_container_escalates own held n timeout force restart w :
  few_own own -> inv (cmp := cmp) own held n w -> w_locked w = false ->
  exists ret w', stop_container E timeout force restart w = Some (ret, w') /\
    inv (cmp := cmp) own held n w' /\ w_locked w' = false /\
    (exists new, w_trace w' = new ++ w_trace w /\
       justified (escalates (w_trace w) (container_stop_signal (w_cont w)) timeout force) new (w_trace w)) /\
    (ret = 0%Z -> not_running w' \/ exists tm, woken (w_trace w) tm (w_trace w')).
Proof.
  intros Hown Hi Hl.
  destruct (keeps_stop_container E 0 timeout force restart own held n w Hown)
    as (ret & w' & Hrun & Hi' & Hl' & _); [by rewrite Nat.add_0_r|done|].
  destruct (stop_container_goes timeout force restart w ret w' Hrun) as [[_ Hg] He]. by exists ret, w'.
Qed.

(** C35: a stop by the user is final.  After a stop or a kill that reports success, whatever
    requests, exits, restart threads and garbage collections the container sees next, the runtime
    is never asked to create or start it and no restart is scheduled, whatever its restart policy
    says, until somebody asks for a start or a restart or the daemon is restarted: neither is
    among these requests, and the other threads do neither.  Memory for a restart manager is
    needed. *)
Theorem user_stop_is_final u rs held w :
  (forall t, e_rm E t = rm_env_ok) -> left_alone ->
  inv (cmp := cmp) [] held (6 * length rs) w -> w_locked w = false ->
  Forall (fun r => no_start_request r = true) rs ->
  exists z w1 w2, run_user_stop u w = Some (z, w1) /\ serve_all rs w1 = Some (tt, w2) /\
    (z = 0%Z -> exists new, w_trace w2 = new ++ w_trace w1 /\
       Forall (fun c => match c with RtStart _ | RtCreate | SpawnRestart _ _ => False | _ => True end) new).
Proof.
  intros Hmem Ha Hi Hl Hrs.
  assert (wp (run_user_stop u) (fun _ w' => framed w w' /\ inv (cmp := cmp) [] held (6 * length rs) w') w) as (z & w1 & Hr1 & (Hl1 & _) & Hi1).
  { assert (keeps 0 false (run_user_stop u) false) as Hk by (destruct u; cbn; eauto using keeps_stop_container, keeps_kill_container).
    eapply wp_conseq; [apply (Hk [] held (6 * length rs)%nat w); [done|by rewrite Nat.add_0_r|done]|].
    cbv beta. intros z w' (? & ? & ? & ?). split; [|done]. split_and!; [congruence|done..]. }
  destruct (serve_all_spec rs held 0 w1) as ([] & w2 & Hr2 & _); [by rewrite Nat.add_0_r|congruence|].
  exists z, w1, w2. split_and!; [done..|]. intros ->. by apply (final_serve_all Ha rs Hrs _ _ _ Hr2), (user_stop_halts Ha Hmem u w).
Qed.
End env.
End props.
