(* ===== verification/RestoreProps.v ===== *)
(** What the daemon makes of a container it finds at start-up, and of a container that
    is restored from a checkpoint. *)
From S2P Require Import Prelude Heap RbSearch KeyOrders MapC MapIface ContainerState ContainerStateProps RestartManager RestartManagerProps ContainersStore ContainersStoreProps Volume VolumeProps Effects Service ServiceInv.

(** The process a state describes. *)
Definition process_of (s : container_state) : pid_ppid_info_t :=
  PidInfo (pid s) (p_pid s) (start_time s) (p_start_time s).

Lemma same_process s i : is_same_process s i = true -> process_of s = i.
Proof.
  unfold is_same_process, process_of. destruct i as [a b c d]; cbn.
  rewrite !andb_true_iff, !Z.eqb_eq. intros (((-> & ->) & ->) & ->). reflexivity.
Qed.

(** A container whose process is gone. *)
Definition lost (s : container_state) : Prop :=
  container_state_get_status (Some s) = CONTAINER_STATUS_STOPPED /\ exit_code s = 255%Z /\ pid s = 0%Z.

Section restore.
Context {MC MN : Type} {cmp : cstr -> cstr -> Z} `{!KeyOrder cmp}.
Context {opsC : MapOps cstr N MC} `{!MapLaws cmp opsC}.
Context {opsN : MapOps cstr cstr MN} `{!MapLaws cmp opsN}.
Context {D MD MV MR : Type} `{!DeviceInv D} {opsD : MapOps cstr (volume_driver D) MD} `{!MapLaws cmp opsD}.
Context {opsV : MapOps cstr loc MV} `{!MapLaws cmp opsV}.
Context {opsR : MapOps cstr bool MR} `{!MapLaws cmp opsR}.
Abbreviation world := (world MC MN D MD MV MR).
Abbreviation env := (env MC MN D MD MV MR).
Implicit Types (w : world) (held : N -> nat).
Context (E : env) `{HR : !Rely (cmp := cmp) E}.

(** The container is not in the store yet: no other thread knows it. *)
Definition alone : Prop := forall c w, e_other E c w = w.

(** What the runtime answers to the query made after the calls [t]. *)
Definition real_status (t : list call) : Z :=
  if negb (e_ans E t RtStatus =? 0)%Z then RUNTIME_CONTAINER_STATUS_STOPPED
  else e_status E (RtStatus :: t).
(** The call that looks the reported process up in /proc, and what it finds. *)
Definition read_pid (t : list call) : call := ReadPid (pi_pid (e_pid E (RtStatus :: t))).
Definition process_found (t : list call) : bool :=
  (e_ans E (RtStatus :: t) (read_pid t) =? 0)%Z.
Definition process_read (t : list call) : pid_ppid_info_t := e_pid E (read_pid t :: RtStatus :: t).

(** What the state must be after the restoration. *)
Definition restored (t : list call) (s : container_state) (t' : list call) (s' : container_state) : Prop :=
  let status := container_state_get_status (Some s) in
  let status' := container_state_get_status (Some s') in
  removal_inprogress s' = false /\
  if (real_status t =? RUNTIME_CONTAINER_STATUS_STOPPED)%Z then
    if bool_decide (status = CONTAINER_STATUS_STOPPED \/ status = CONTAINER_STATUS_CREATED)
    then status' = status
    else lost s' /\
      PostGc (if (e_ans E (RtStatus :: t) (ProcAlive (pid s)) =? 0)%Z then 0%Z else pid s) ∈ t'
  else if (real_status t =? RUNTIME_CONTAINER_STATUS_RUNNING)%Z then
    if process_found t
    then status' = CONTAINER_STATUS_RUNNING /\ process_of s' = process_read t /\
         has_been_manually_stopped s' = false
    else lost s' /\ PostGc 0 ∈ t'
  else if (real_status t =? RUNTIME_CONTAINER_STATUS_PAUSED)%Z then
    if process_found t
    then status' = CONTAINER_STATUS_PAUSED /\ process_of s' = process_read t /\
         has_been_manually_stopped s' = false
    else lost s' /\ PostGc 0 ∈ t'
  else status' = status.

(** Symbolic execution without interference. *)
Lemma wp_ext_alone c (Q : Z -> world -> Prop) w :
  alone -> Q (e_ans E (w_trace w) c) (put_trace (c :: w_trace w) w) -> wp (ext E c) Q w.
Proof. intros Ha HQ. eexists _, _. split; [done|]. by rewrite Ha. Qed.

Lemma status_put_removal b s :
  container_state_get_status (Some (put_removal b s)) = container_state_get_status (Some s).
Proof. done. Qed.

(** The state and the trace, the rest is irrelevant here. *)
Definition at_state (t : list call) (s : container_state) w : Prop :=
  w_trace w = t /\ ct_state (w_cont w) = Some s.

Lemma wp_upd f t s (Q : unit -> world -> Prop) w :
  at_state t s w -> (forall w', at_state t (f s) w' -> Q tt w') -> wp (upd_state (guarded f)) Q w.
Proof. intros [Ht Hs] HQ. apply wp_modify, HQ. split; [done|]. cbn. by rewrite Hs. Qed.

Lemma wp_ext_at c t s (Q : Z -> world -> Prop) w :
  alone -> at_state t s w -> (forall w', at_state (c :: t) s w' -> Q (e_ans E t c) w') -> wp (ext E c) Q w.
Proof.
  intros Ha [Ht Hs] HQ. apply wp_ext_alone; [done|]. rewrite <-Ht in *. by apply HQ.
Qed.

Lemma wp_stopped code t s (Q : unit -> world -> Prop) w :
  at_state t s w -> cs_inv s ->
  (forall s' w', at_state t s' w' -> cs_inv s' -> running s' = false -> exit_code s' = code ->
     pid s' = 0%Z -> container_state_get_status (Some s') = CONTAINER_STATUS_STOPPED ->
     Q tt w') ->
  wp (set_stopped E code) Q w.
Proof.
  intros Hat Hc HQ. apply wp_mbind, wp_gets. eapply wp_upd; [done|]. intros w' Hat'.
  pose proof (rely_now (w_trace w)) as Hnow.
  eassert (cs_inv _) as Hc'.
  { eapply (cs_call_inv (SetStopped (e_now E (w_trace w)) code) s); [done|done|reflexivity]. }
  eapply HQ; [exact Hat'|exact Hc'|done..|]. rewrite judge_status_cases by apply Hc'. cbn.
  unfold has_run. cbn. by rewrite (bool_decide_eq_false_2 (Some (e_now E (w_trace w)) = _)), andb_false_r by congruence.
Qed.

(** The part of [restore_state] that depends on the runtime, from a state [s] with the
    calls [t] made; [Q] is asked of the state it reaches. *)
Definition reaches (m : M world unit) (t : list call) (s : container_state)
    (Q : list call -> container_state -> Prop) : Prop :=
  forall w, at_state t s w -> wp m (fun _ w' => exists (t' : list call) (s' : container_state), at_state t' s' w' /\ Q t' s') w.

Lemma at_state_get t s w (Q : option container_state -> world -> Prop) :
  at_state t s w -> Q (Some s) w -> wp get_state Q w.
Proof. intros [_ Hs] HQ. apply wp_gets. by rewrite Hs. Qed.

Lemma wp_set_running t s i (initial : bool) w (Q : unit -> world -> Prop) :
  at_state t s w ->
  (forall s' w', at_state t s' w' -> running s' = true -> restarting s' = false ->
     paused s' = (if initial then false else paused s) -> process_of s' = i -> Q tt w') ->
  wp (set_running E i initial) Q w.
Proof.
  intros Hat HQ. apply wp_mbind, wp_gets. eapply wp_upd; [done|]. intros w' Hat'.
  eapply HQ; [exact Hat'|..]; destruct initial, i; done.
Qed.

Lemma lost_process_reaches t s :
  alone -> cs_inv s -> reaches (lost_process E) t s (fun t' s' => lost s' /\ PostGc 0 ∈ t').
Proof.
  intros Ha Hc w Hat. apply wp_mbind, wp_mbind. eapply wp_ext_at; [done..|]. intros w1 Hat1.
  apply wp_mret. eapply wp_stopped; [done..|]. intros s' w2 Hat2 Hc2 _ He Hp Hst.
  eexists _, s'. split; [done|]. split; [done|]. apply list_elem_of_here.
Qed.

Lemma restore_stopped_reaches t s :
  alone -> cs_inv s ->
  let status := container_state_get_status (Some s) in
  reaches (restore_stopped_container E status) t s (fun t' s' =>
    if bool_decide (status = CONTAINER_STATUS_STOPPED \/ status = CONTAINER_STATUS_CREATED)
    then s' = s
    else lost s' /\ PostGc (if (e_ans E t (ProcAlive (pid s)) =? 0)%Z then 0%Z else pid s) ∈ t').
Proof.
  intros Ha Hc status w Hat. unfold restore_stopped_container. apply wp_when; intros Hw.
  - rewrite andb_true_iff, !negb_true_iff, !bool_decide_eq_false in Hw.
    rewrite bool_decide_eq_false_2 by naive_solver.
    apply wp_mbind. eapply at_state_get; [done|]. apply wp_mbind. eapply wp_lift; [done|].
    apply wp_mbind. eapply wp_ext_at; [done..|]. intros w1 Hat1.
    apply wp_mbind, wp_mbind. eapply wp_ext_at; [done..|]. intros w2 Hat2. apply wp_mret.
    eapply wp_stopped; [done..|]. intros s' w3 Hat3 _ _ He Hp Hst. eexists _, s'. split; [done|].
    split; [done|]. apply list_elem_of_here.
  - rewrite bool_decide_eq_true_2; [by exists t, s|].
    destruct (decide (status = CONTAINER_STATUS_STOPPED)) as [|H1]; [by left|].
    destruct (decide (status = CONTAINER_STATUS_CREATED)) as [|H2]; [by right|].
    by rewrite !bool_decide_eq_false_2 in Hw.
Qed.

(** The state after a process has been found, for either status [st] of the runtime. *)
Definition resumed (st : Container_Status) (i : pid_ppid_info_t) (s' : container_state) : Prop :=
  container_state_get_status (Some s') = st /\ process_of s' = i /\
  has_been_manually_stopped s' = false.

Lemma reset_manual_reaches t s st i :
  container_state_get_status (Some s) = st -> process_of s = i ->
  reaches (upd_state container_state_reset_has_been_manual_stopped) t s (fun _ => resumed st i).
Proof.
  intros Hst Hi w Hat. eapply wp_upd; [done|]. intros w' Hat'. eexists _, _.
  split; [exact Hat'|]. by split_and!.
Qed.

Lemma restore_running_reaches t s p :
  alone -> cs_inv s ->
  reaches (restore_running_container E (container_state_get_status (Some s)) p) t s (fun t' s' =>
    if (e_ans E t (ReadPid p) =? 0)%Z
    then resumed CONTAINER_STATUS_RUNNING (e_pid E (ReadPid p :: t)) s'
    else lost s' /\ PostGc 0 ∈ t').
Proof.
  intros Ha Hc w Hat. apply wp_mbind. eapply wp_ext_at; [done..|]. intros w1 Hat1.
  apply wp_mbind, wp_gets. rewrite (proj1 Hat1).
  destruct (e_ans E t (ReadPid p) =? 0)%Z; [|by apply lost_process_reaches with (ReadPid p :: t) s].
  apply wp_mbind, wp_mbind. eapply at_state_get; [done|]. apply wp_mbind. eapply wp_lift; [done|].
  apply wp_when; intros Hw.
  - eapply wp_set_running; [done|]. intros s' w2 Hat2 Hr Hre Hpa Hp.
    eapply reset_manual_reaches; [|done|done]. cbn. by rewrite Hr, Hpa, Hre.
  - apply orb_false_iff in Hw as [Hst Hsame]. apply negb_false_iff, bool_decide_eq_true in Hst.
    apply negb_false_iff, same_process in Hsame. by eapply reset_manual_reaches.
Qed.

Lemma restore_paused_reaches t s p :
  alone -> cs_inv s ->
  reaches (restore_paused_container E (container_state_get_status (Some s)) p) t s (fun t' s' =>
    if (e_ans E t (ReadPid p) =? 0)%Z
    then resumed CONTAINER_STATUS_PAUSED (e_pid E (ReadPid p :: t)) s'
    else lost s' /\ PostGc 0 ∈ t').
Proof.
  intros Ha Hc w Hat. apply wp_mbind. eapply wp_upd; [done|]. intros w0 Hat0.
  assert (cs_inv (put_paused true s)) as Hc0 by by eapply (cs_call_inv SetPaused s).
  apply wp_mbind. eapply wp_ext_at; [done..|]. intros w1 Hat1.
  apply wp_mbind, wp_gets. rewrite (proj1 Hat1).
  destruct (e_ans E t (ReadPid p) =? 0)%Z; [|by eapply lost_process_reaches].
  apply wp_mbind, wp_mbind. eapply at_state_get; [done|]. apply wp_mbind. eapply wp_lift; [done|].
  apply wp_when; intros Hw.
  - eapply wp_set_running; [done|]. intros s' w2 Hat2 Hr Hre Hpa Hp.
    eapply reset_manual_reaches; [|done|done]. cbn in *. by rewrite Hr, Hpa.
  - apply orb_false_iff in Hw as [Hst Hsame]. apply negb_false_iff, bool_decide_eq_true in Hst.
    apply negb_false_iff, same_process in Hsame. eapply reset_manual_reaches; [|done|done].
    cbn in *. by destruct (running s), (starting s), (started_at s), (finished_at s); repeat case_match.
Qed.

Lemma wp_exit_on_next own held n t s w (Q : Z -> world -> Prop) :
  few_own own -> inv (cmp := cmp) own held n w -> at_state t s w ->
  (forall z w', at_state t s w' -> Q z w') -> wp (exit_on_next E) Q w.
Proof.
  intros Ho Hi [Ht Hs] HQ.
  destruct (with_rm_spec E _ own held n w exit_on_next_balanced Ho Hi) as (c & z & c' & _ & _ & Hrun & _).
  destruct (rm_put_frame E c' w) as (_ & _ & F1 & _ & _ & _ & F2 & _).
  exists z, (rm_put E c' w). split; [exact Hrun|]. apply HQ. split; congruence.
Qed.

(** C33: after a restart of the daemon the state of a container agrees with what the
    runtime says about it.  A container that runs or is paused, and whose process is
    found, has that status, that process and no mark of a manual stop; one whose process
    is gone is stopped with exit code 255 and handed to the garbage collector, with its
    old process if that is still alive; one that was stopped or never started stays so.
    No removal is in progress any more. *)
Theorem restore_state_correct held n w s :
  alone -> inv (cmp := cmp) [] held n w -> ct_state (w_cont w) = Some s ->
  exists w' s', restore_state E w = Some (tt, w') /\ ct_state (w_cont w') = Some s' /\
    restored (w_trace w) s (w_trace w') s'.
Proof.
  intros Ha Hi Hs.
  enough (wp (restore_state E) (fun _ w' => exists s', ct_state (w_cont w') = Some s' /\
    restored (w_trace w) s (w_trace w') s') w) as ([] & w' & Hr & s' & ?) by eauto.
  assert (cs_inv s) as Hc by (destruct (ok_state _ (inv_cont _ _ _ _ Hi)) as (s0 & ? & ?); congruence).
  set (t := w_trace w). assert (at_state t s w) as Hat by done.
  apply wp_mbind. eapply at_state_get; [done|]. apply wp_mbind.
  eapply wp_exit_on_next; [|exact Hi|exact Hat|]; [done|]. intros _ w1 Hat1. apply wp_mbind.
  eapply wp_ext_at; [done..|]. intros w2 Hat2. apply wp_mbind, wp_gets. rewrite (proj1 Hat2).
  apply wp_mbind, wp_gets. rewrite (proj1 Hat2). apply wp_mbind. fold (real_status t).
  set (Q := fun t' s' => restored t s t' (put_removal false s')).
  match goal with |- wp ?m _ _ => assert (reaches m (RtStatus :: t) s Q) as Hm end.
  { unfold Q, restored. destruct (real_status t =? _)%Z.
    { intros w0 H0. eapply wp_conseq; [by apply restore_stopped_reaches|]. cbv beta.
      intros _ w' (t' & s' & ? & HQ). exists t', s'. split; [done|]. split; [done|].
      case_bool_decide; [by subst|done]. }
    destruct (real_status t =? _)%Z.
    { intros w0 H0. eapply wp_conseq; [by apply restore_running_reaches|]. cbv beta.
      intros _ w' (t' & s' & ? & HQ). exists t', s'. split; [done|]. split; [done|].
      unfold process_found, read_pid. by destruct (_ =? _)%Z. }
    destruct (real_status t =? _)%Z.
    { intros w0 H0. eapply wp_conseq; [by apply restore_paused_reaches|]. cbv beta.
      intros _ w' (t' & s' & ? & HQ). exists t', s'. split; [done|]. split; [done|].
      unfold process_found, read_pid. by destruct (_ =? _)%Z. }
    intros w0 H0. apply wp_mret. eauto. }
  eapply wp_conseq; [by apply Hm|]. cbv beta. intros _ w3 (t3 & s3 & Hat3 & HQ).
  apply wp_mbind, wp_mbind. eapply at_state_get; [done|]. apply wp_mret, wp_mbind.
  assert (wp (when (removal_inprogress s3) (upd_state container_state_reset_removal_in_progress))
    (fun _ w' => at_state t3 (put_removal false s3) w') w3) as Hr.
  { apply wp_when; intros Hr; [by eapply wp_upd|]. destruct Hat3 as [? Hs3]. split; [done|].
    rewrite Hs3. by destruct s3; cbn in *; subst. }
  eapply wp_conseq; [exact Hr|]. cbv beta. intros _ w4 Hat4. apply wp_mbind. eapply wp_ext_at; [done..|].
  intros w5 [Ht5 Hs5]. apply wp_mret. eexists. split; [done|]. rewrite Ht5.
  revert HQ. unfold Q, restored. intros [? HQ]. split; [done|].
  repeat case_match; try done; destruct HQ; (split; [done|]); by apply list_elem_of_further.
Qed.
End restore.
