(* ===== verification/ServiceDemo.v ===== *)
(** A concrete daemon for the handlers of Service: finite maps for the stores, one
    container that uses the volume "data", and environments in which everything
    succeeds, in which the container exits while it is waited for, and in which the
    condition wait wakes up for no reason.  The theorems of ServiceProps are applied to
    it. *)
From S2P Require Import Prelude Heap RbSearch KeyOrders MapC MapIface ContainerState ContainerStateProps RestartManager RestartManagerProps ContainersStore ContainersStoreProps Volume VolumeProps Effects Service ServiceInv ServiceProps RestoreProps.

#[local] Abbreviation dcmp := (cstr_cmp uchar_value).
#[local] Instance dC : MapOps cstr N (gmap cstr N) := gmap_MapOps dcmp.
#[local] Instance dN : MapOps cstr cstr (gmap cstr cstr) := gmap_MapOps dcmp.
#[local] Instance dD : MapOps cstr (volume_driver (list cstr)) (gmap cstr (volume_driver (list cstr))) :=
  gmap_MapOps dcmp.
#[local] Instance dR : MapOps cstr bool (gmap cstr bool) := gmap_MapOps dcmp.

Definition dworld : Type :=
  world (gmap cstr N) (gmap cstr cstr) (list cstr) (gmap cstr (volume_driver (list cstr)))
    (gmap cstr N) (gmap cstr bool).
Definition denv : Type :=
  env (gmap cstr N) (gmap cstr cstr) (list cstr) (gmap cstr (volume_driver (list cstr)))
    (gmap cstr N) (gmap cstr bool).

Definition d_id : cstr := c_str "abc1".
Definition d_name : cstr := c_str "web".
Definition d_vol : cstr := c_str "data".
Definition d_now : string := "2021-09-01T10:00:00Z".

(** ** Environments *)

Definition d_env (ans : list call -> call -> Z) (other : call -> dworld -> dworld) : denv :=
  Env ans (fun _ => d_now) (fun _ => 5) (fun _ => PidInfo 42 1 7 3) (fun _ => 3) (fun _ => None)
    (fun _ => rm_env_ok) (fun h => fresh ({[NULL]} ∪ dom h)) other.

(** Every call succeeds. *)
Definition d_ok (_ : list call) (c : call) : Z := match c with OpenFifo => 3 | _ => 0 end.

(** The container exits while somebody waits for it. *)
Definition d_exits (c : call) (w : dworld) : dworld :=
  match c with
  | WaitStop _ =>
      put_cont (put_ct_state (cs_call (SetStopped d_now 0) (ct_state (w_cont w))) (w_cont w)) w
  | _ => w
  end.

Definition d_E : denv := d_env d_ok d_exits.
(** The wait returns although nothing has happened. *)
Definition d_spurious : denv := d_env d_ok (fun _ w => w).

Lemma d_same_step c (w : dworld) : other_step (cmp := dcmp) c w w.
Proof. split; try done. intros own others Hr. by exists others. Qed.
Lemma d_same_locked c (w : dworld) : locked_step c w w.
Proof.
  split.
  - intros _ _. split_and!; try done. intros s Hs. exists s. split; [done|apply quiet_refl].
  - intros q rm Hrm Hc _ _ _ _ _. by exists rm.
Qed.

Lemma d_fresh_ok (h : gmap N restart_manager_t) :
  fresh ({[NULL]} ∪ dom h) <> NULL /\ h !! fresh ({[NULL]} ∪ dom h) = None.
Proof.
  pose proof (is_fresh ({[NULL]} ∪ dom h)) as Hf. apply not_elem_of_union in Hf as [H1 H2].
  split; [set_solver|]. by apply not_elem_of_dom.
Qed.

(** Nobody else does anything. *)
Lemma d_idle_rely ans : Rely (cmp := dcmp) (d_env ans (fun _ w => w)).
Proof. split; [apply d_fresh_ok|done|]. intros c w. apply d_same_step. Qed.
#[local] Instance d_spurious_rely : Rely (cmp := dcmp) d_spurious := d_idle_rely _.

(** The container may exit while it is waited for. *)
Lemma d_exits_rely ans : Rely (cmp := dcmp) (d_env ans d_exits).
Proof.
  split; [apply d_fresh_ok|done|]. intros c w.
  destruct c; try apply d_same_step. cbn.
  split; try done.
  - intros [(s & Hs & Hc) Hh]. split; [|done]. cbn. rewrite Hs. eexists. split; [done|].
    by eapply (cs_call_inv (SetStopped d_now 0)).
  - intros own others [H1 H2 H3]. exists others. by split.
Qed.
Lemma d_exits_lock ans : RelyLock (d_env ans d_exits).
Proof.
  split. intros c w. destruct c; try apply d_same_locked. cbn. split; [done|].
  intros q rm Hrm Hc _ _ _ _ _. by exists rm.
Qed.
#[local] Instance d_E_rely : Rely (cmp := dcmp) d_E := d_exits_rely _.
#[local] Instance d_E_lock : RelyLock d_E := d_exits_lock _.
#[local] Instance d_E_stores : RelyStores d_E.
Proof. split; by intros [] w. Qed.

(** ** A world *)

(** The store after the container has been created, named and looked up once. *)
Definition d_calls : list store_op :=
  [OpNew 5; OpAdd true true d_id 5; OpNameAdd lock_ok true (Some d_name) (Some d_id);
   OpGet lock_ok true (Some d_id)].
Definition d_store0 : store (gmap cstr N) (gmap cstr cstr) := Store ∅ ∅ ∅.
Definition d_vols0 : volume_store (list cstr) (gmap cstr (volume_driver (list cstr))) (gmap cstr N) (gmap cstr bool) :=
  VS {[c_str "local" := demo_driver]} {[d_vol := 7%N]} {[7%N := {[d_id := true]}]} None [d_vol].

Definition d_fresh_state : container_state :=
  put_finished_at (Some defaultContainerTime) (put_started_at (Some defaultContainerTime) zero_state).
Definition d_cont (s : container_state) : container_t :=
  Container 5 d_id d_name "oci" "lcr" 0 [MountPoint (Some "volume") (Some "/v") (Some d_vol) true]
    (Some s) (Some (HostConfig false false false false false false (Some (Policy (Some "always") 0))))
    NULL false.
Definition d_world (s : container_state) (st : store (gmap cstr N) (gmap cstr cstr)) : dworld :=
  World (d_cont s) ∅ st d_vols0 false [] [].

Lemma d_vols_inv : vs_inv (cmp := dcmp) d_vols0.
Proof.
  split; cbn -[d_vol d_id]; try done.
  - intros n p [<- <-]%lookup_singleton_Some. by eexists.
  - intros n1 n2 p [<- <-]%lookup_singleton_Some [<- _]%lookup_singleton_Some. done.
  - intros p [r [<- <-]%lookup_singleton_Some]. exists d_vol. by apply lookup_singleton_Some.
  - intros p r [<- <-]%lookup_singleton_Some. apply map_non_empty_singleton.
  - intros n d [<- <-]%lookup_singleton_Some. apply demo_driver_ok.
Qed.

Lemma d_inv s : cs_inv s -> exists st held,
  store_run d_calls (d_store0, fun _ => 0%nat) = Some (st, held) /\
  inv (cmp := dcmp) [] held 1000 (d_world s st).
Proof.
  intros Hs.
  destruct (store_run_inv (cmp := dcmp) d_calls 0 d_store0 (fun _ => 0%nat)) as ([st held] & Hrun & Hi);
    [by apply store_inv_empty|done|].
  exists st, held. split; [done|]. split; cbn.
  - split; [by exists s|by eexists].
  - exists (fun _ => 0%nat). split; cbn; [split_and!; [set_solver|done|done]|done|].
    intros q Hq. unfold rm_refs. cbn. by rewrite decide_False by done.
  - exists 4%nat. split; [exact Hi|done].
  - apply d_vols_inv.
Qed.

Lemma d_fresh_inv : cs_inv d_fresh_state.
Proof. by split. Qed.

(** The store of [d_inv], computed. *)
Definition d_store : store (gmap cstr N) (gmap cstr cstr) :=
  match store_run d_calls (d_store0, fun _ => 0%nat) with Some (st, _) => st | None => d_store0 end.

Lemma d_world_inv s : cs_inv s -> exists held, inv (cmp := dcmp) [] held 1000 (d_world s d_store).
Proof.
  intros Hs. destruct (d_inv s Hs) as (st & held & Hrun & Hi). exists held.
  assert (d_store = st) as -> by (unfold d_store; rewrite Hrun; reflexivity). exact Hi.
Qed.

(** ** The theorems at work *)

Lemma service_requests_safe_witness : exists held w',
  serve_all d_E [RqStart; RqPause; RqResume; RqStop 10 false; RqDelete false true] (d_world d_fresh_state d_store)
    = Some (tt, w') /\ inv (cmp := dcmp) [] held 0 w' /\ w_locked w' = false /\ w_fds w' = [].
Proof.
  destruct (d_world_inv d_fresh_state d_fresh_inv) as [held Hi]. exists held.
  apply (service_requests_safe d_E).
  - eapply inv_weaken; [exact Hi|cbn; lia].
  - reflexivity.
  - reflexivity.
Defined.

Example d_deleted :
  match serve_all d_E [RqStart; RqStop 10 false; RqDelete false true] (d_world d_fresh_state d_store) with
  | Some (_, w') => bool_decide (size (st_map (w_store w')) = 0%nat /\ size (st_index (w_store w')) = 0%nat /\
                                 size (vs_refs (w_vols w')) = 0%nat)
  | None => false
  end = true.
Proof. vm_compute. reflexivity. Qed.

Lemma start_container_correct_witness : exists held ret w',
  start_container d_E true (d_world d_fresh_state d_store) = Some (ret, w') /\
  inv (cmp := dcmp) [] held 0 w' /\ w_fds w' = [].
Proof.
  destruct (d_world_inv d_fresh_state d_fresh_inv) as [held Hi]. exists held.
  destruct (start_container_correct d_E true [] held 0 (d_world d_fresh_state d_store))
    as (ret & w' & Hrun & Hi' & _ & Hf & _).
  - unfold few_own. cbn. lia.
  - eapply inv_weaken; [exact Hi|cbn; lia].
  - reflexivity.
  - exists ret, w'. exact (conj Hrun (conj Hi' Hf)).
Defined.

(** The runtime creates the container and then fails to start it. *)
Definition d_fails : denv :=
  d_env (fun t c => match c with RtStart _ => -1 | _ => d_ok t c end) d_exits.
#[local] Instance d_fails_rely : Rely (cmp := dcmp) d_fails := d_exits_rely _.
#[local] Instance d_fails_lock : RelyLock d_fails := d_exits_lock _.

Lemma created_in t : existsb (fun c => match c with RtCreate => true | _ => false end) t = true -> RtCreate ∈ t.
Proof. intros (c & Hc%list_elem_of_In & Hk)%existsb_exists. by destruct c. Qed.

Lemma failed_start_cleans_up_witness : exists ret pi w',
  do_start_container d_fails true (put_locked true (d_world d_fresh_state d_store)) = Some (ret, pi, w') /\
  ret = -1 /\ w_fds w' = [] /\ RtCreate ∈ w_trace w' /\ UmountRootfs ∈ w_trace w' /\ RtClean 0 ∈ w_trace w'.
Proof.
  destruct (d_world_inv d_fresh_state d_fresh_inv) as [held Hi].
  destruct (failed_start_cleans_up d_fails true [] held 1000 (put_locked true (d_world d_fresh_state d_store)))
    as (ret & pi & w' & Hrun & Hf & new & T & _ & Hc).
  - unfold few_own. cbn. lia.
  - apply inv_locked. exact Hi.
  - reflexivity.
  - assert (match do_start_container d_fails true (put_locked true (d_world d_fresh_state d_store)) with
            | Some (ret, _, w') => ret = -1 /\ existsb (fun c => match c with RtCreate => true | _ => false end) (w_trace w') = true
            | None => False end) as Hr by (vm_compute; split; reflexivity).
    rewrite Hrun in Hr. destruct Hr as [-> Hex].
    cbn [w_trace put_locked d_world] in T. rewrite app_nil_r in T. subst new. apply created_in in Hex.
    destruct Hc as (Hu & Hcl & _); [done|].
    exists (-1), pi, w'. exact (conj Hrun (conj eq_refl (conj Hf (conj Hex (conj Hu (Hcl Hex)))))).
Defined.

Lemma delete_container_removes_witness : exists ret w',
  delete_container d_E true (d_world d_fresh_state d_store) = Some (ret, w') /\
  (ret = 0%Z -> gone (cmp := dcmp) (d_cont d_fresh_state) (d_world d_fresh_state d_store) w').
Proof.
  destruct (d_world_inv d_fresh_state d_fresh_inv) as [held Hi].
  destruct (delete_container_removes d_E [] held 0 true (d_world d_fresh_state d_store))
    as (ret & w' & Hrun & _ & _ & Hg & _).
  - reflexivity.
  - unfold few_own. cbn. lia.
  - eapply inv_weaken; [exact Hi|cbn; lia].
  - reflexivity.
  - exists ret, w'. exact (conj Hrun Hg).
Defined.

(** At start-up, with the process 42 found in /proc. *)
Lemma restore_state_correct_witness : exists w' s',
  restore_state d_spurious (d_world d_fresh_state d_store) = Some (tt, w') /\
  ct_state (w_cont w') = Some s' /\ container_state_get_status (Some s') = CONTAINER_STATUS_RUNNING /\
  pid s' = 42.
Proof.
  destruct (d_world_inv d_fresh_state d_fresh_inv) as [held Hi].
  destruct (restore_state_correct d_spurious held 1000 (d_world d_fresh_state d_store) d_fresh_state)
    as (w' & s' & Hrun & Hs & _ & Hst & Hp & _).
  - intros c w. reflexivity.
  - exact Hi.
  - reflexivity.
  - exists w', s'. exact (conj Hrun (conj Hs (conj Hst (f_equal pi_pid Hp)))).
Defined.

(** ** Behaviours worth knowing *)

(** Run a handler and look at the result and at the state of the container. *)
Definition d_observe {A} (r : option (A * dworld)) : option (A * option container_state) :=
  '(a, w) ← r; Some (a, ct_state (w_cont w)).
Definition d_started : dworld :=
  match start_container d_E true (d_world d_fresh_state d_store) with
  | Some (_, w) => w
  | None => d_world d_fresh_state d_store
  end.

(** A running container. *)
Definition d_running_state : container_state :=
  match container_state_set_running d_now (Some (PidInfo 42 1 7 3)) true (Some d_fresh_state) with
  | Some s => s
  | None => d_fresh_state
  end.
Lemma d_running_inv : cs_inv d_running_state.
Proof. by eapply (cs_call_inv (SetRunning d_now (Some (PidInfo 42 1 7 3)) true)); [|apply d_fresh_inv|]. Qed.

(** The container ignores its stop signal: the first wait fails, SIGKILL ends it. *)
Definition d_stubborn : denv :=
  d_env (fun t c => match c with WaitStop 10 => -1 | _ => d_ok t c end)
    (fun c w => match c with WaitStop 10 => w | _ => d_exits c w end).
Lemma d_stubborn_other c w : e_other d_stubborn c w = w \/ e_other d_stubborn c w = d_exits c w.
Proof. destruct c; auto. cbn. repeat (case_match; auto). Qed.
#[local] Instance d_stubborn_rely : Rely (cmp := dcmp) d_stubborn.
Proof.
  split; [apply d_fresh_ok|done|]. intros c w. destruct (d_stubborn_other c w) as [-> | ->]; [apply d_same_step|].
  apply (rely_other (Rely := d_E_rely) c w).
Qed.

Definition is_kill (sg : Z) (c : call) : bool :=
  match c with RtKill p x y => (p =? 42) && (x =? sg) && (y =? 15) | _ => false end.
Lemma is_kill_in sg t : existsb (is_kill sg) t = true -> RtKill 42 sg 15 ∈ t.
Proof.
  intros (c & Hc%list_elem_of_In & Hk)%existsb_exists. destruct c; try discriminate. cbn in Hk.
  rewrite !andb_true_iff, !Z.eqb_eq in Hk. by destruct Hk as [[-> ->] ->].
Qed.

Lemma stop_container_escalates_witness : exists w',
  stop_container d_stubborn 10 false false (d_world d_running_state d_store) = Some (0, w') /\
  RtKill 42 15 15 ∈ w_trace w' /\ RtKill 42 9 15 ∈ w_trace w' /\
  justified (escalates d_stubborn [] 15 10 false) (w_trace w') [] /\
  (not_running w' \/ exists tm, woken d_stubborn [] tm (w_trace w')).
Proof.
  destruct (d_world_inv d_running_state d_running_inv) as [held Hi].
  destruct (stop_container_escalates d_stubborn [] held 1000 10 false false (d_world d_running_state d_store))
    as (ret & w' & Hrun & _ & _ & (new & T & Hj) & He).
  - unfold few_own. cbn. lia.
  - exact Hi.
  - reflexivity.
  - assert (match stop_container d_stubborn 10 false false (d_world d_running_state d_store) with
            | Some (ret, w') => ret = 0 /\ existsb (is_kill 15) (w_trace w') = true /\ existsb (is_kill 9) (w_trace w') = true
            | None => False end) as Hr by (vm_compute; split_and!; reflexivity).
    rewrite Hrun in Hr. destruct Hr as (-> & H15 & H9). cbn [w_trace d_world] in T. rewrite app_nil_r in T. subst new.
    exists w'. split_and!; [exact Hrun|by apply is_kill_in|by apply is_kill_in|exact Hj|by apply He].
Defined.

(** Killed by the user while it runs under the policy "always": the exit is handled, a restart thread and the
    garbage collector come along, and nothing is started again. *)
Lemma user_stop_is_final_witness : exists w1 w2,
  run_user_stop d_spurious (UKill 15) (d_world d_running_state d_store) = Some (0, w1) /\
  serve_all d_spurious [RqExited (Event true 42 137); RqRestartThread 100 137; RqPolicyAfterGc; RqAutoRemoveAfterGc] w1 = Some (tt, w2) /\
  exists new, w_trace w2 = new ++ w_trace w1 /\
    Forall (fun c => match c with RtStart _ | RtCreate | SpawnRestart _ _ => False | _ => True end) new.
Proof.
  destruct (d_world_inv d_running_state d_running_inv) as [held Hi].
  destruct (user_stop_is_final d_spurious (UKill 15)
    [RqExited (Event true 42 137); RqRestartThread 100 137; RqPolicyAfterGc; RqAutoRemoveAfterGc] held (d_world d_running_state d_store))
    as (z & w1 & w2 & Hr1 & Hr2 & Hn).
  - reflexivity.
  - intros c w Hw. exact Hw.
  - eapply inv_weaken; [exact Hi|cbn; lia].
  - reflexivity.
  - repeat constructor.
  - assert (match run_user_stop d_spurious (UKill 15) (d_world d_running_state d_store) with
            | Some (z, _) => z = 0 | None => False end) as Hz by (vm_compute; reflexivity).
    rewrite Hr1 in Hz. subst z. exists w1, w2. split_and!; [exact Hr1|exact Hr2|by apply Hn].
Defined.
(** Without the kill the same exit is followed by a restart. *)
Example d_exit_restarts :
  match serve_all d_spurious [RqExited (Event true 42 137)] (d_world d_running_state d_store) with
  | Some (_, w) => existsb (fun c => match c with SpawnRestart _ _ => true | _ => false end) (w_trace w) = true
  | None => False
  end.
Proof. vm_compute. reflexivity. Qed.

(** A wait that is woken up for no reason makes stopping report success for a container that
    is still running: [container_wait_stop] does not look at the state again after the
    condition wait. *)
Theorem spurious_wakeup_stops_nothing :
  match d_observe (stop_container d_spurious 10 false false d_started) with
  | Some (ret, Some s) => ret = 0 /\ running s = true /\ pid s = 42
  | _ => False
  end.
Proof. vm_compute. split_and!; reflexivity. Qed.

(** A forced removal of a paused container fails, although the message for an unforced
    one advises it: [stop_container] refuses paused containers. *)
Theorem paused_container_not_force_removed :
  match (_ ← do_pause_container d_E; delete_container d_E true) d_started with
  | Some (ret, w) => ret = -1 /\ is_Some (st_map (w_store w) !! d_id)
  | None => False
  end.
Proof. vm_compute. split; [reflexivity|]. eexists. reflexivity. Qed.

(** Restarting a container that is being removed reports success and does nothing. *)
Theorem restart_of_removed_reports_success :
  match (_ ← set_container_to_removal; do_restart_container d_E 10) d_started with
  | Some (cc, w) => cc = 0 /\ forall c, c ∈ w_trace w -> c <> RtRestart
  | None => False
  end.
Proof.
  vm_compute. split; [reflexivity|]. intros c Hc ->.
  repeat (apply elem_of_cons in Hc as [Hc|Hc]; [discriminate|]). by apply not_elem_of_nil in Hc.
Qed.

(** The error of a volume whose reference could not be dropped is lost when a later
    anonymous volume is removed. *)
Theorem release_volumes_forgets_errors :
  match release_volumes d_E
      [MountPoint None None (Some d_vol) true; MountPoint None None (Some (c_str "anon")) false]
      (c_str "other") true 0 d_started with
  | Some (ret, _) => ret = 0
  | None => False
  end /\
  match vol_del_ref d_vol (c_str "other") d_started with Some (ret, _) => ret = -1 | None => False end.
Proof. vm_compute. split; reflexivity. Qed.

(** The exit of a container with automatic removal is followed by its deletion even when
    another thread has already been granted the removal, and when that deletion fails the
    other thread's flag is cleared. *)
Definition d_rmdir_fails : denv :=
  d_env (fun t c => match c with RmStateDir => -1 | _ => d_ok t c end) (fun _ w => w).

Theorem auto_remove_ignores_other_removal :
  match (set_auto_remove (fun _ => true);;
         _ ← kill_container d_rmdir_fails 15;
         first ← set_container_to_removal;
         _ ← container_state_changed d_rmdir_fails (Event true 42 0);
         again ← set_container_to_removal;
         mret (first, again)) d_started with
  | Some ((first, again), _) => first = 0 /\ again = 0
  | None => False
  end.
Proof. vm_compute. split; reflexivity. Qed.

(** A container restored from a checkpoint is recorded with process 0, so that the exit of
    its real process is taken for that of another one: the container stays running. *)
Definition d_lxc : denv :=
  d_env (fun t c => match c with LxcDefined | LxcRestore => 1 | _ => d_ok t c end) (fun _ w => w).

Theorem checkpoint_restored_exit_ignored ev :
  (0 < ev_pid ev < 2 ^ 31)%Z ->
  match checkpoint_restore d_lxc true (d_world d_fresh_state d_store) with
  | Some (ret, w) => ret = 0 /\
      match d_observe (container_state_changed d_lxc ev w) with
      | Some (ret, Some s) => ret = 0 /\ running s = true
      | _ => False
      end
  | None => False
  end.
Proof.
  intros Hp. destruct ev as [stopped p code]. cbn in Hp.
  assert (match checkpoint_restore d_lxc true (d_world d_fresh_state d_store) with
          | Some (ret, w) => (ret =? 0) && negb (w_locked w) &&
              match ct_state (w_cont w) with Some s => running s && (pid s =? 0) | None => false end
          | None => false
          end = true) as Hr by (vm_compute; reflexivity).
  destruct (checkpoint_restore _ _) as [[ret w]|]; [|done].
  rewrite !andb_true_iff, Z.eqb_eq, negb_true_iff in Hr. destruct Hr as [[-> Hl] Hr].
  split; [done|]. destruct (ct_state (w_cont w)) as [s|] eqn:Hs; [|done].
  apply andb_true_iff in Hr as [Hrun Hpid%Z.eqb_eq].
  unfold d_observe, container_state_changed. cbn [ev_stopped ev_pid].
  destruct stopped; cbn [negb]; [|cbn; rewrite Hs; done].
  assert ((container_state_get_pid (Some s) =? wrap_s 32 p) = false) as Hne.
  { cbn. rewrite wrap_s_small by lia. apply Z.eqb_neq. lia. }
  unfold container_lock, container_unlock, ext_, ext, st_is, get_state, gets, mbind, M_bind, mret, M_ret, modify.
  cbn -[wrap_s container_state_get_pid exited]. rewrite Hl. cbn -[wrap_s container_state_get_pid exited].
  rewrite Hs. cbn -[wrap_s container_state_get_pid exited].
  unfold container_is_running, read. rewrite Hrun, Hne. cbn. rewrite Hs. done.
Qed.

Lemma checkpoint_restored_exit_ignored_witness :
  match checkpoint_restore d_lxc true (d_world d_fresh_state d_store) with
  | Some (ret, w) => ret = 0 /\
      match d_observe (container_state_changed d_lxc (Event true 42 0) w) with
      | Some (ret, Some s) => ret = 0 /\ running s = true
      | _ => False
      end
  | None => False
  end.
Proof. apply (checkpoint_restored_exit_ignored (Event true 42 0)). cbn. lia. Defined.

(** Restoring a checkpoint keeps the reference it takes: each time the container has one more, and it is never freed. *)
Example checkpoint_restore_keeps_reference :
  match checkpoint_restore d_lxc true (d_world d_fresh_state d_store) with
  | Some (_, w) => bool_decide (st_refs (w_store w) !! 5%N = (Z.add 1) <$> st_refs d_store !! 5%N) = true
  | None => False
  end.
Proof. vm_compute. reflexivity. Qed.
(** Restoring a container that is not found dereferences a NULL pointer. *)
Example checkpoint_restore_unknown_container :
  checkpoint_restore d_lxc true (d_world d_fresh_state d_store0) = None.
Proof. vm_compute. reflexivity. Qed.
