(* ===== verification/EventsHandler.v ===== *)
(** The queue of exit events of a container and the threads that drain it:
    src/src/daemon/modules/container/container_events_handler.c.

    Posting threads append to the queue and start a handler thread when there is none;
    a handler thread takes events one by one and ends, under the lock, when the queue is
    empty.  The critical sections are functions on the handler; the threads are a
    transition system whose steps are these sections and the handling in between.  The
    queue is the sequence that LinkedList shows the list to be. *)
From S2P Require Import Prelude.

Section events.
(** [struct isulad_events_format], and the world it is handled in. *)
Context {Ev W : Type}.
(** [container_state_changed]; its result is only logged. *)
Variable state_changed : Ev -> W -> option W.

(** [container_events_handler_t]; [h_locked] is the state of its mutex. *)
Record container_events_handler_t := Handler {
  events_list : list Ev; has_handler : bool; h_locked : bool
}.

(** [container_events_handler_new]: the outcomes of the allocation and of the mutex. *)
Definition container_events_handler_new (alloc mutex_ok : bool) : option container_events_handler_t :=
  if negb alloc then None else if negb mutex_ok then None else Some (Handler [] false false).

(** Waiting for the mutex is left to the scheduler: the section runs when it is free. *)
Definition events_handler_lock (h : container_events_handler_t) : container_events_handler_t :=
  Handler (events_list h) (has_handler h) true.
(** Unlocking a mutex that is not locked is undefined. *)
Definition events_handler_unlock (h : container_events_handler_t) : option container_events_handler_t :=
  if h_locked h then Some (Handler (events_list h) (has_handler h) false) else None.

(** ** Posting *)

(** The outcomes of [containers_store_get], of the two allocations and of
    [pthread_create]. *)
Record post_env := PostEnv { pe_found : bool; pe_node : bool; pe_dup : bool; pe_create : Z }.

(** [dup_event]: the copy, or NULL. *)
Definition dup_event (alloc : bool) (event : Ev) : option Ev := if alloc then Some event else None.

(** The exit path [out]: [cont->handler] is dereferenced whether or not [cont] is NULL, and
    unlocked whether or not it has been locked. *)
Definition post_out (cont : option container_events_handler_t) (ret : Z) (thread : bool)
    : option (Z * bool * container_events_handler_t) :=
  h ← cont;
  h ← events_handler_unlock h;
  Some (ret, thread, h).

(** The result, whether a thread was started, and the handler. *)
Definition container_events_handler_post_events (e : post_env) (event : option Ev)
    (h : container_events_handler_t) : option (Z * bool * container_events_handler_t) :=
  match event with
  | None => Some ((-1)%Z, false, h)
  | Some event =>
      if negb (pe_found e) then post_out None (-1) false
      else if negb (pe_node e) then post_out (Some h) (-1) false
      else
        match dup_event (pe_dup e) event with
        | None => post_out (Some h) (-1) false
        | Some post_event =>
            let h := events_handler_lock h in
            let h := Handler (events_list h ++ [post_event]) (has_handler h) (h_locked h) in
            if has_handler h then post_out (Some h) 0 false
            else if negb (pe_create e =? 0)%Z then post_out (Some h) (pe_create e) false
            else post_out (Some (Handler (events_list h) true (h_locked h))) 0 true
        end
  end.

(** ** Handling *)

(** The critical section of [handle_one]: the event taken, or none and the end of the
    thread. *)
Definition handle_one (h : container_events_handler_t) : option (option Ev * container_events_handler_t) :=
  let h := events_handler_lock h in
  match events_list h with
  | [] =>
      h ← events_handler_unlock (Handler [] false (h_locked h));
      Some (None, h)
  | it :: rest =>
      h ← events_handler_unlock (Handler rest (has_handler h) (h_locked h));
      Some (Some it, h)
  end.

(** Where a thread running [events_handler_thread] is: before the lookup of its container,
    at the head of the loop, with an event in hand, or at its end. *)
Inductive thread := TStart | TLoop | THandle (ev : Ev) | TEnd.

Record system := System {
  sy_handler : container_events_handler_t;
  sy_threads : list thread;
  sy_world : W;
  sy_posted : list Ev;    (** the events accepted, in order *)
  sy_handled : list Ev    (** the events handled, in order *)
}.

(** What happens next: a post, the start of thread [i] (whether it finds the container and
    its handler), or a step of thread [i]. *)
Inductive action := Post (e : post_env) (event : option Ev) | Start (i : nat) (found : bool) | Run (i : nat).

(** [None]: undefined behaviour, or an action that is not enabled. *)
Definition sys_step (a : action) (y : system) : option system :=
  let 'System h ts w posted handled := y in
  match a with
  | Post e event =>
      r ← container_events_handler_post_events e event h;
      let '(_, spawned, h') := r in
      Some (System h' (if spawned : bool then ts ++ [TStart] else ts) w
              (posted ++ drop (length (events_list h)) (events_list h')) handled)
  | Start i found =>
      t ← ts !! i;
      match t with
      | TStart => Some (System h (<[i := if found : bool then TLoop else TEnd]> ts) w posted handled)
      | _ => None
      end
  | Run i =>
      t ← ts !! i;
      match t with
      | TLoop =>
          r ← handle_one h;
          Some (System r.2 (<[i := match r.1 with Some ev => THandle ev | None => TEnd end]> ts)
                  w posted handled)
      | THandle ev =>
          w' ← state_changed ev w;
          Some (System h (<[i := TLoop]> ts) w' posted (handled ++ [ev]))
      | _ => None
      end
  end.

Inductive steps : list action -> system -> system -> Prop :=
| steps_nil y : steps [] y y
| steps_cons a acts y y1 y2 : sys_step a y = Some y1 -> steps acts y1 y2 -> steps (a :: acts) y y2.

Definition initial (w : W) : system := System (Handler [] false false) [] w [] [].
End events.
Arguments container_events_handler_t : clear implicits.
Arguments system : clear implicits.
Arguments thread : clear implicits.
Arguments action : clear implicits.
Arguments TEnd {Ev}. Arguments TLoop {Ev}. Arguments TStart {Ev}.
