(* ===== verification/EventsHandlerProps.v ===== *)
(** Every event is handled exactly once, in the order of posting, by at most one thread
    at a time, and no event is forgotten as long as threads start, under every
    interleaving. *)
From S2P Require Import Prelude EventsHandler.

Section props.
Context {Ev W : Type}.
Variable state_changed : Ev -> W -> option W.
Abbreviation system := (system Ev W).
Implicit Types (y : system) (ts : list (thread Ev)) (h : container_events_handler_t Ev).

(** The world after the handling of some events. *)
Fixpoint handle_all (evs : list Ev) (w : W) : option W :=
  match evs with [] => Some w | ev :: evs => w ← state_changed ev w; handle_all evs w end.

Lemma handle_all_snoc evs ev w w1 w2 :
  handle_all evs w = Some w1 -> state_changed ev w1 = Some w2 -> handle_all (evs ++ [ev]) w = Some w2.
Proof.
  revert w. induction evs as [|e evs IH]; intros w; cbn; [intros [= ->] ->; done|].
  destruct (state_changed e w) as [w'|]; cbn; [apply IH|done].
Qed.

(** ** Threads *)

Definition live (t : thread Ev) : Prop := match t with TEnd => False | _ => True end.
#[export] Instance live_dec t : Decision (live t).
Proof. destruct t; cbn; apply _. Defined.

(** The events a thread has taken and not handled yet. *)
Definition in_hand (t : thread Ev) : list Ev := match t with THandle ev => [ev] | _ => [] end.

(** Steps a thread has to make before the head of its loop, from the point of view of
    the number of steps left. *)
Definition lag (t : thread Ev) : nat := match t with TStart => 2 | TLoop => 1 | _ => 0 end.

(** A change of the only live thread. *)
Lemma live_insert ts i t t0 t' :
  filter live ts = [t0] -> ts !! i = Some t -> live t ->
  t = t0 /\ filter live (<[i := t']> ts) = if decide (live t') then [t'] else [].
Proof.
  revert i. induction ts as [|u ts IH]; intros i Hf Hi Hl; [done|].
  rewrite filter_cons in Hf. destruct i as [|i]; cbn in Hi;
    [change (<[0%nat := t']> (u :: ts)) with (t' :: ts)
    |change (<[S i := t']> (u :: ts)) with (u :: <[i := t']> ts)]; rewrite filter_cons.
  - injection Hi as ->. rewrite decide_True in Hf by done. injection Hf as -> Hf. rewrite Hf. done.
  - destruct (decide (live u)) as [Hu|Hu]; [|by apply IH].
    injection Hf as -> Hf. assert (t ∈ filter live ts) as Hin
      by (apply list_elem_of_filter; split; [done|by eapply list_elem_of_lookup_2]).
    rewrite Hf in Hin. by apply not_elem_of_nil in Hin.
Qed.

Lemma live_none ts i t : filter live ts = [] -> ts !! i = Some t -> ~ live t.
Proof.
  intros Hf Hi Hl. assert (t ∈ filter live ts) as Hin
    by (apply list_elem_of_filter; split; [done|by eapply list_elem_of_lookup_2]).
  rewrite Hf in Hin. by apply not_elem_of_nil in Hin.
Qed.

(** ** Invariant *)

(** No start of a thread failed. *)
Definition starts_ok (a : action Ev) : Prop := match a with Start _ found => found = true | _ => True end.

Record sys_inv (w0 : W) y : Prop := {
  si_unlocked : h_locked (sy_handler y) = false;
  (** [has_handler] says whether there is a thread, and there is never more than one *)
  si_live : exists t, filter live (sy_threads y) = (if has_handler (sy_handler y) then [t] else []) /\
    sy_posted y = sy_handled y ++ (if has_handler (sy_handler y) then in_hand t else [])
                    ++ events_list (sy_handler y) /\
    (has_handler (sy_handler y) = true -> live t);
  si_world : handle_all (sy_handled y) w0 = Some (sy_world y)
}.

Lemma initial_inv w : sys_inv w (initial w).
Proof. split; [done| |done]. by exists TEnd. Qed.

(** What posting does when it is defined. *)
Lemma post_spec e event h ret (spawned : bool) h' :
  h_locked h = false ->
  container_events_handler_post_events e event h = Some (ret, spawned, h') ->
  h_locked h' = false /\
  (event = None /\ h' = h /\ spawned = false \/
   exists ev, event = Some ev /\ events_list h' = events_list h ++ [ev] /\
     (spawned = true /\ has_handler h = false /\ has_handler h' = true \/
      spawned = false /\ has_handler h' = has_handler h)).
Proof.
  intros Hl. unfold container_events_handler_post_events, post_out, events_handler_unlock, dup_event.
  destruct event as [ev|]; [|intros [= <- <- <-]; by eauto].
  destruct (pe_found e); cbn; [|done]. destruct (pe_node e), (pe_dup e); cbn; rewrite ?Hl; try done.
  destruct (has_handler h) eqn:Hh; cbn.
  - intros [= <- <- <-]. split; [done|]. right. exists ev. by eauto.
  - destruct (pe_create e =? 0)%Z; cbn; intros [= <- <- <-]; (split; [done|]); right; exists ev; by eauto 6.
Qed.

Lemma handle_one_spec h o h' :
  handle_one h = Some (o, h') ->
  h_locked h' = false /\
  match o with
  | None => events_list h = [] /\ events_list h' = [] /\ has_handler h' = false
  | Some ev => events_list h = ev :: events_list h' /\ has_handler h' = has_handler h
  end.
Proof.
  unfold handle_one, events_handler_unlock. cbn.
  destruct (events_list h) as [|ev rest]; cbn; by intros [= <- <-].
Qed.

(** The measure of a state relative to the first [n] events: how many more steps of
    handler threads it takes at most to handle them. *)
Definition todo (n : nat) y : nat :=
  2 * (n - length (sy_handled y)) + sum_list_with lag (filter live (sy_threads y)).

(** Steps made by handler threads. *)
Definition by_handler (a : action Ev) : bool := match a with Post _ _ => false | _ => true end.

(** One step: it keeps the invariant, extends what was posted and handled, and, when made
    by a handler while one of the first [n] events is unhandled, makes progress. *)
Lemma step_inv w0 a y y' :
  sys_inv w0 y -> starts_ok a -> sys_step state_changed a y = Some y' ->
  sys_inv w0 y' /\ sy_posted y `prefix_of` sy_posted y' /\ sy_handled y `prefix_of` sy_handled y' /\
  forall n, (length (sy_handled y) < n <= length (sy_posted y))%nat ->
    has_handler (sy_handler y) = true ->
    has_handler (sy_handler y') = true /\
    (todo n y' + (if by_handler a then 1 else 0) <= todo n y)%nat.
Proof.
  destruct y as [h ts w posted handled]. intros [Hu (t & Hf & Hp & Hl) Hw] Hs Hstep. cbn in *.
  destruct a as [e event|i found|i]; cbn in Hs, Hstep.
  - destruct (container_events_handler_post_events e event h) as [[[ret spawned] h']|] eqn:Hpost; [|done].
    injection Hstep as <-. destruct (post_spec _ _ _ _ _ _ Hu Hpost) as [Hu' [(-> & -> & ->)|(ev & -> & Hq & Hcase)]].
    { rewrite drop_all, app_nil_r. split; [split; [done| |done]; by exists t|].
      split_and!; [done..|]. intros n _ ?. cbn. unfold todo. cbn. by split; [|lia]. }
    rewrite Hq, drop_app_length. destruct Hcase as [(-> & Hn & Hy)|[-> He]].
    + split; [split; [done| |done]|].
      * exists TStart. cbn. rewrite Hy, filter_app, Hf, Hn. cbn. split_and!; [done| |done].
        rewrite Hp, Hn, Hq. cbn. by rewrite <-!app_assoc.
      * split_and!; [by apply prefix_app_r|done|]. intros n _ ?. congruence.
    + split; [split; [done| |done]|].
      * exists t. cbn. rewrite He. split_and!; [done| |done]. by rewrite Hp, Hq, <-!app_assoc.
      * split_and!; [by apply prefix_app_r|done|]. intros n _ ?. cbn. unfold todo. cbn.
        rewrite He. split; [done|lia].
  - destruct (ts !! i) as [u|] eqn:Hi; [|done]. cbn in Hstep. destruct u; try done.
    injection Hstep as <-. subst found. destruct (has_handler h) eqn:Hh.
    + destruct (live_insert ts i TStart t TLoop Hf Hi I) as [<- Hf'].
      rewrite decide_True in Hf' by done.
      split; [split; [done| |done]; exists TLoop; cbn; rewrite Hh; by split_and!|].
      split_and!; [done..|]. intros n _ _. split; [done|]. unfold todo. cbn. rewrite Hf', Hf. cbn. lia.
    + by destruct (live_none ts i TStart Hf Hi).
  - destruct (ts !! i) as [u|] eqn:Hi; [|done]. cbn in Hstep. destruct u as [| |ev|]; try done.
    + destruct (handle_one h) as [[o h']|] eqn:Ho; [|done]. cbn in Hstep. injection Hstep as <-.
      destruct (handle_one_spec _ _ _ Ho) as [Hu' Hcase].
      destruct (has_handler h) eqn:Hh; [|by destruct (live_none ts i TLoop Hf Hi)].
      destruct (live_insert ts i TLoop t (match o with Some ev => THandle ev | None => TEnd end) Hf Hi I)
        as [<- Hf']. cbn in Hp. destruct o as [ev|];
        [rewrite decide_True in Hf' by done|rewrite decide_False in Hf' by by intros []].
      * destruct Hcase as [Hq He]. split; [split; [done| |done]|].
        -- exists (THandle ev). cbn. rewrite He. by rewrite Hp, Hq.
        -- split_and!; [done..|]. intros n _ _. split; [by cbn; rewrite He|].
           unfold todo. cbn. rewrite Hf', Hf. cbn. lia.
      * destruct Hcase as (Hq & Hq' & He). split; [split; [done| |done]|].
        -- exists TEnd. cbn. rewrite He, Hq'. by rewrite Hp, Hq.
        -- split_and!; [done..|]. intros n Hn _. rewrite Hp, Hq, app_nil_r in Hn. lia.
    + destruct (state_changed ev w) as [w'|] eqn:Hc; [|done]. cbn in Hstep. injection Hstep as <-.
      destruct (has_handler h) eqn:Hh; [|by destruct (live_none ts i (THandle ev) Hf Hi)].
      destruct (live_insert ts i (THandle ev) t TLoop Hf Hi I) as [<- Hf'].
      rewrite decide_True in Hf' by done.
      split; [split; [done| |by eapply handle_all_snoc]|].
      * exists TLoop. cbn. rewrite Hh. split_and!; [done| |done]. by rewrite Hp, <-!app_assoc.
      * split_and!; [done|by apply prefix_app_r|]. intros n Hn _. split; [done|].
        unfold todo. cbn. rewrite Hf', Hf, length_app. cbn. lia.
Qed.

Lemma steps_inv w0 acts y y' :
  steps state_changed acts y y' -> Forall starts_ok acts -> sys_inv w0 y ->
  sys_inv w0 y' /\ sy_posted y `prefix_of` sy_posted y' /\ sy_handled y `prefix_of` sy_handled y'.
Proof.
  induction 1 as [y|a acts y y1 y2 Hs Hr IH]; intros Hok Hi; [done|].
  inversion_clear Hok. destruct (step_inv _ _ _ _ Hi H Hs) as (Hi1 & Hp1 & Hh1 & _).
  destruct (IH H0 Hi1) as (Hi2 & Hp2 & Hh2). split_and!; [done|by etransitivity..].
Qed.

(** Handler steps use up the measure as long as one of the first [n] events is left. *)
Lemma steps_progress w0 acts y y' n :
  steps state_changed acts y y' -> Forall starts_ok acts -> sys_inv w0 y ->
  has_handler (sy_handler y) = true -> (n <= length (sy_posted y))%nat ->
  (todo n y <= length (filter by_handler acts))%nat -> (n <= length (sy_handled y'))%nat.
Proof.
  intros Hr. induction Hr as [y|a acts y y1 y2 Hs Hr IH]; intros Hok Hi Hh Hn Hlen.
  - unfold todo in Hlen. cbn in Hlen. lia.
  - pose proof (Forall_inv Hok) as Ha. pose proof (Forall_inv_tail Hok) as Hok'.
    destruct (step_inv _ _ _ _ Hi Ha Hs) as (Hi1 & Hp1 & Hh1 & Hpr).
    destruct (decide (n <= length (sy_handled y))%nat) as [Hdone|Hleft].
    + destruct (steps_inv _ _ _ _ Hr Hok' Hi1) as (_ & _ & Hh2).
      apply prefix_length in Hh1, Hh2. lia.
    + destruct (Hpr n) as [Hhas Hm]; [lia|done|]. apply prefix_length in Hp1.
      apply IH; [done..|lia|]. rewrite filter_cons in Hlen.
      destruct (by_handler a); [rewrite decide_True in Hlen by done|rewrite decide_False in Hlen by by intros []];
        cbn [length] in Hlen; lia.
Qed.

Lemma todo_bound w0 y :
  sys_inv w0 y -> has_handler (sy_handler y) = true ->
  (todo (length (sy_posted y)) y
   <= 2 * (length (sy_posted y) - length (sy_handled y)) + 2)%nat.
Proof.
  intros [_ (t & Hf & _) _] Hh. unfold todo. rewrite Hf, Hh. destruct t; cbn; lia.
Qed.

(** A handler thread that runs can always make its next step. *)
Lemma handler_enabled w0 y :
  sys_inv w0 y -> has_handler (sy_handler y) = true ->
  (forall ev, is_Some (state_changed ev (sy_world y))) ->
  exists a, by_handler a = true /\ starts_ok a /\ is_Some (sys_step state_changed a y).
Proof.
  destruct y as [h ts w posted handled]. intros [Hu (t & Hf & _ & Hl) _] Hh Htot. cbn in *.
  rewrite Hh in Hf. assert (t ∈ ts) as [i Hi]%list_elem_of_lookup
    by (eapply list_elem_of_filter; rewrite Hf; apply list_elem_of_here).
  specialize (Hl Hh). destruct t as [| |ev|]; try done.
  - exists (Start i true). cbn. rewrite Hi. cbn. split_and!; [done..|by eexists].
  - exists (Run i). cbn. rewrite Hi. cbn. split_and!; [done..|].
    unfold handle_one, events_handler_unlock. cbn. destruct (events_list h); cbn; by eexists.
  - exists (Run i). cbn. rewrite Hi. cbn. split_and!; [done..|].
    destruct (Htot ev) as [w' ->]. cbn. by eexists.
Qed.

(** C15: whatever the interleaving of posting threads and handler threads, at most one
    handler thread is alive at a time, exactly while [has_handler] says so; the events
    handled so far are, each once and in order, the first events posted, and the container
    is in the state their handling one after the other leads to; what is not handled is in
    the queue or in the hand of the one thread. *)
Theorem events_handled_in_order w0 acts y :
  steps state_changed acts (initial w0) y -> Forall starts_ok acts ->
  (length (filter live (sy_threads y)) = if has_handler (sy_handler y) then 1 else 0)%nat /\
  sy_posted y = sy_handled y ++ concat (in_hand <$> filter live (sy_threads y))
                  ++ events_list (sy_handler y) /\
  handle_all (sy_handled y) w0 = Some (sy_world y).
Proof.
  intros Hr Hok. destruct (steps_inv w0 _ _ _ Hr Hok (initial_inv w0)) as [[_ (t & Hf & Hp & _) Hw] _].
  rewrite Hf. destruct (has_handler (sy_handler y)); cbn in *; rewrite ?app_nil_r; done.
Qed.

(** [pthread_create] did not fail. *)
Definition spawns_ok (a : action Ev) : Prop := match a with Post e _ => pe_create e = 0%Z | _ => True end.

(** Then events wait only while there is a handler. *)
Definition attended y : Prop := has_handler (sy_handler y) = false -> events_list (sy_handler y) = [].

Lemma step_attended a y y' :
  h_locked (sy_handler y) = false -> spawns_ok a -> attended y -> sys_step state_changed a y = Some y' -> attended y'.
Proof.
  destruct y as [h ts w posted handled]. unfold attended. cbn. intros Hu Hs Hq Hstep. destruct a as [e event|i found|i]; cbn in *.
  - unfold container_events_handler_post_events, post_out, events_handler_unlock, dup_event in Hstep.
    destruct event as [ev|]; [|by injection Hstep as <-].
    rewrite Hs in Hstep. destruct (pe_found e), (pe_node e), (pe_dup e); cbn in Hstep; rewrite ?Hu in Hstep; try discriminate Hstep.
    destruct (has_handler h) eqn:Hh; injection Hstep as <-; cbn; congruence.
  - destruct (ts !! i) as [[]|]; cbn in Hstep; try discriminate Hstep. by injection Hstep as <-.
  - destruct (ts !! i) as [[]|]; cbn in Hstep; try discriminate Hstep.
    + destruct (handle_one h) as [[o h']|] eqn:Ho; cbn in Hstep; [|discriminate Hstep]. injection Hstep as <-. cbn.
      destruct (handle_one_spec _ _ _ Ho) as [_ Hc]. destruct o as [e|]; [|tauto]. destruct Hc as [Hc ->].
      intros Hh. by rewrite (Hq Hh) in Hc.
    + destruct (state_changed ev w); cbn in Hstep; [|discriminate Hstep]. by injection Hstep as <-.
Qed.

Lemma steps_attended w0 acts y y' :
  steps state_changed acts y y' -> Forall starts_ok acts -> Forall spawns_ok acts -> sys_inv w0 y -> attended y -> attended y'.
Proof.
  induction 1 as [y|a acts y y1 y2 Hs Hr IH]; intros Hok Hsp Hi Ha; [done|].
  inversion_clear Hok. inversion_clear Hsp. destruct (step_inv _ _ _ _ Hi H Hs) as (Hi1 & _).
  apply IH; [done..|]. eapply step_attended; [apply Hi|done..].
Qed.

(** C32: no event is forgotten, as long as every handler thread finds its container
    ([starts_ok]; otherwise [dead_handler_forgets_events]) and either there is a handler
    thread or no [pthread_create] has failed so far ([spawns_ok]): every event posted has
    been handled already, or there is a handler thread, which can make its next step when
    handling is defined; and however many events are posted in between, the n events
    posted and not handled by now have all been handled after 2 n + 2 steps of handler
    threads. *)
Theorem events_eventually_handled w0 acts y acts' y' :
  steps state_changed acts (initial w0) y -> Forall starts_ok acts ->
  has_handler (sy_handler y) = true \/ Forall spawns_ok acts ->
  (sy_handled y = sy_posted y \/
   has_handler (sy_handler y) = true /\
   ((forall ev, is_Some (state_changed ev (sy_world y))) ->
    exists a, by_handler a = true /\ is_Some (sys_step state_changed a y))) /\
  (steps state_changed acts' y y' -> Forall starts_ok acts' ->
   (2 * (length (sy_posted y) - length (sy_handled y)) + 2 <= length (filter by_handler acts'))%nat ->
   sy_posted y `prefix_of` sy_handled y').
Proof.
  intros Hr Hok Hor. destruct (steps_inv w0 _ _ _ Hr Hok (initial_inv w0)) as [Hi _].
  destruct (has_handler (sy_handler y)) eqn:Hh.
  - split; [right; split; [done|]; intros Htot; destruct (handler_enabled w0 y Hi Hh Htot) as (a & ? & _ & ?); eauto|].
    intros Hr' Hok' Hlen. pose proof (todo_bound _ _ Hi Hh) as Hb.
    pose proof (steps_progress w0 _ _ _ (length (sy_posted y)) Hr' Hok' Hi Hh (Nat.le_refl _)) as Hdone.
    destruct (steps_inv _ _ _ _ Hr' Hok' Hi) as [[_ (t & _ & Hp & _) _] [Hpre _]].
    rewrite Hp in Hpre. destruct (prefix_weak_total _ _ _ Hpre (prefix_app_r _ _ _ (reflexivity _))) as [|Hle];
      [done|]. rewrite (prefix_length_eq _ _ Hle); [done|]. apply Hdone. lia.
  - assert (sy_handled y = sy_posted y) as He.
    { destruct Hor as [|Hsp]; [done|]. pose proof (steps_attended w0 _ _ _ Hr Hok Hsp (initial_inv w0)) as Ha.
      destruct Hi as [_ (t & _ & Hp & _) _]. rewrite Hh, Ha in Hp by done. by rewrite app_nil_r in Hp. }
    split; [by left|]. intros Hr' Hok' _. rewrite <-He. by apply (steps_inv _ _ _ _ Hr' Hok' Hi).
Qed.

(** ** Behaviours worth knowing *)

(** An event for a container that has been removed is not reported as an error:
    the exit path dereferences the missing container.  When an allocation fails instead, it
    unlocks a mutex that is not locked. *)
Theorem post_events_error_paths_undefined e ev (h : container_events_handler_t Ev) :
  h_locked h = false ->
  (container_events_handler_post_events e (Some ev) h = None <->
   pe_found e = false \/ pe_node e = false \/ pe_dup e = false).
Proof.
  intros Hl. unfold container_events_handler_post_events, post_out, events_handler_unlock, dup_event.
  destruct (pe_found e); cbn; [|by split; auto]. destruct (pe_node e); cbn; rewrite ?Hl; [|by split; auto].
  destruct (pe_dup e); cbn; rewrite ?Hl; [|by split; auto]. split; [|by intros [|[|]]].
  destruct (has_handler h), (pe_create e =? 0)%Z; done.
Qed.

(** A handler thread that does not find its container ends without clearing
    [has_handler]; nothing is handled after that, whatever is posted. *)
Theorem dead_handler_forgets_events w0 acts i y y1 acts' y2 :
  steps state_changed acts (initial w0) y -> Forall starts_ok acts ->
  sys_step state_changed (Start i false) y = Some y1 ->
  steps state_changed acts' y1 y2 ->
  sy_handled y2 = sy_handled y /\ has_handler (sy_handler y2) = true.
Proof.
  intros Hr Hok Hs Hr'. destruct (steps_inv w0 _ _ _ Hr Hok (initial_inv w0)) as [Hi _].
  assert (h_locked (sy_handler y1) = false /\ has_handler (sy_handler y1) = true /\
    filter live (sy_threads y1) = [] /\ sy_handled y1 = sy_handled y) as Hy1.
  { destruct y as [h ts w posted handled]. destruct Hi as [Hu (t & Hf & _) _]. cbn in *.
    destruct (ts !! i) as [u|] eqn:Hi; [|done]. cbn in Hs. destruct u; try done. injection Hs as <-.
    destruct (has_handler h) eqn:Hh; [|by destruct (live_none ts i TStart Hf Hi)].
    destruct (live_insert ts i TStart t TEnd Hf Hi I) as [_ Hf'].
    rewrite decide_False in Hf' by by intros []. done. }
  destruct Hy1 as (Hu & Hh & Hf & <-). clear Hs Hi Hr Hok.
  induction Hr' as [y1|a acts' y1 y3 y2 Hs Hr' IH]; [done|].
  enough (h_locked (sy_handler y3) = false /\ has_handler (sy_handler y3) = true /\
    filter live (sy_threads y3) = [] /\ sy_handled y3 = sy_handled y1) as (H1 & H2 & H3 & H4).
  { destruct (IH H1 H2 H3) as [-> ->]. done. }
  destruct y1 as [h ts w posted handled]. cbn in *. destruct a as [e event|j found|j]; cbn in Hs.
  - destruct (container_events_handler_post_events e event h) as [[[ret spawned] h']|] eqn:Hpost; [|done].
    injection Hs as <-. destruct (post_spec _ _ _ _ _ _ Hu Hpost) as [Hu' [(_ & -> & ->)|(ev & _ & _ & Hc)]];
      [done|]. destruct Hc as [(_ & ? & _)|[-> He]]; [congruence|]. cbn. by rewrite He.
  - destruct (ts !! j) as [u|] eqn:Hj; [|done]. cbn in Hs. pose proof (live_none _ _ _ Hf Hj).
    by destruct u.
  - destruct (ts !! j) as [u|] eqn:Hj; [|done]. cbn in Hs. pose proof (live_none _ _ _ Hf Hj).
    by destruct u.
Qed.
End props.

(** ** A run *)

(** Handling an event notes it. *)
Definition ev_note (ev : nat) (w : list nat) : option (list nat) := Some (w ++ [ev]).
Definition ev_post (n : nat) : action nat := Post (PostEnv true true true 0) (Some n).
Definition ev_acts : list (action nat) :=
  [ev_post 1; Start 0 true; ev_post 2; Run 0; ev_post 3; Run 0].

Lemma steps_run {Ev W} (sc : Ev -> W -> option W) acts (y y' : system Ev W) :
  foldl (fun o a => o ≫= sys_step sc a) (Some y) acts = Some y' -> steps sc acts y y'.
Proof.
  revert y. induction acts as [|a acts IH]; intros y; cbn; [intros [= ->]; constructor|].
  destruct (sys_step sc a y) as [y1|] eqn:Hs.
  - intros H. econstructor; [done|]. by apply IH.
  - intros H. exfalso. assert (forall l, foldl (fun o a => o ≫= sys_step sc a) None l = None) as Hn
      by (induction l; done). rewrite Hn in H. done.
Qed.

Definition ev_sys : system nat (list nat) :=
  System (Handler [2; 3]%nat true false) [TLoop] [1%nat] [1; 2; 3]%nat [1%nat].
Lemma ev_steps : steps ev_note ev_acts (initial []) ev_sys.
Proof. apply steps_run. reflexivity. Qed.
Lemma ev_starts : Forall starts_ok ev_acts.
Proof. by repeat constructor. Qed.

Lemma events_handled_in_order_witness :
  handle_all ev_note [1%nat] [] = Some [1%nat] /\
  sy_posted ev_sys = [1%nat] ++ [] ++ [2; 3]%nat.
Proof.
  destruct (events_handled_in_order ev_note [] ev_acts ev_sys ev_steps ev_starts) as (_ & Hp & Hw).
  exact (conj Hw Hp).
Defined.

(** Two more events are posted while the handler works. *)
Definition ev_acts' : list (action nat) :=
  [Run 0; ev_post 4; Run 0; Run 0; Run 0; ev_post 5; Run 0; Run 0].

Lemma events_eventually_handled_witness : exists y',
  steps ev_note ev_acts' ev_sys y' /\ [1; 2; 3]%nat `prefix_of` sy_handled y'.
Proof.
  eexists. assert (steps ev_note ev_acts' ev_sys _) as Hr by (apply steps_run; reflexivity).
  split; [exact Hr|].
  apply (events_eventually_handled ev_note [] ev_acts ev_sys ev_acts' _ ev_steps ev_starts (or_introl eq_refl)).
  - exact Hr.
  - by repeat constructor.
  - apply Nat.leb_le. reflexivity.
Defined.

Lemma post_events_error_paths_undefined_witness :
  container_events_handler_post_events (PostEnv false true true 0) (Some 7%nat) (Handler [] false false) = None.
Proof. apply post_events_error_paths_undefined; [reflexivity|]. left. reflexivity. Defined.

Lemma dead_handler_forgets_events_witness : exists y2,
  steps ev_note [ev_post 2; ev_post 3] (System (Handler [1%nat] true false) [TEnd] [] [1%nat] []) y2 /\
  sy_handled y2 = [] /\ sy_posted y2 = [1; 2; 3]%nat.
Proof.
  exists (System (Handler [1; 2; 3]%nat true false) [TEnd] [] [1; 2; 3]%nat []).
  assert (steps ev_note [ev_post 2; ev_post 3] (System (Handler [1%nat] true false) [TEnd] [] [1%nat] [])
    (System (Handler [1; 2; 3]%nat true false) [TEnd] [] [1; 2; 3]%nat [])) as Hr
    by (apply steps_run; reflexivity).
  split; [exact Hr|]. split; [|reflexivity].
  apply (dead_handler_forgets_events ev_note [] [ev_post 1] 0
    (System (Handler [1%nat] true false) [TStart] [] [1%nat] [])
    (System (Handler [1%nat] true false) [TEnd] [] [1%nat] []) [ev_post 2; ev_post 3]).
  - apply steps_run. reflexivity.
  - by repeat constructor.
  - reflexivity.
  - exact Hr.
Defined.
