(* ===== verification/GC.v ===== *)
(** The garbage collector of containers:
    src/src/daemon/modules/container/container_gc/containers_gc.c.

    A queue of containers whose processes are to be killed and whose resources are to be
    cleaned up, with a copy on disk.  One thread works on the head of the queue; other
    threads append at any time at which the lock of the queue is free: whenever the
    collector makes a call outside of its critical sections, [g_posts] says who does.
    The queue is the sequence that LinkedList shows the list to be, its nodes with their
    addresses.  What is done to the container itself ([clean_container_resource],
    [apply_restart_policy_after_gc], [apply_auto_remove_after_gc] and
    [do_runtime_resume_container]) is in Service. *)
From S2P Require Import Prelude ContainerState Effects.

Open Scope Z_scope.

(** [container_garbage_config_gc_containers_element] *)
Record gc_element := GcElement {
  gc_id : string; gc_runtime : string; gc_pid : Z; gc_start_time : Z; gc_ppid : Z; gc_p_start_time : Z
}.
#[export] Instance gc_element_dec : EqDecision gc_element.
Proof. solve_decision. Defined.

(** The calls that leave the file. *)
Inductive gc_call :=
| GcAlive (pid start_time : Z)                (** util_process_alive; non-zero is true *)
| GcKill (pid : Z)                            (** kill with SIGKILL *)
| GcClean (id runtime : string) (pid : Z)     (** clean_container_resource *)
| GcRestartPolicy (id : string) | GcAutoRemove (id : string) | GcResume (id runtime : string)
| GcSave.                                     (** gc_save_containers_config *)
#[export] Instance gc_call_dec : EqDecision gc_call.
Proof. solve_decision. Defined.

(** How writing the file ends: the file is truncated when it is opened, so that a failed
    [write] leaves no list behind. *)
Inductive save_result := SaveOk | SaveFailed | SaveTorn.

(** A call of [gc_add_container] by another thread, with the outcomes of its allocations. *)
Record gc_post := GcPost {
  po_node : bool; po_elem : bool; po_id : string; po_runtime : string; po_pid : option pid_ppid_info_t
}.

Record gc_env := GcEnv {
  g_ans : list gc_call -> gc_call -> Z;
  g_posts : list gc_call -> list gc_post;
  g_array : list gc_call -> bool;         (** the allocation of the array to save *)
  g_save : list gc_call -> save_result;
  g_fresh : list N -> N                   (** the address of a new node *)
}.

Record gc_world := GcWorld {
  containers_list : list (N * gc_element);
  g_disk : option (list gc_element);      (** what garbage.json holds, if readable *)
  g_trace : list gc_call;
  g_added : nat                           (** how many elements have been added *)
}.
Definition put_list l w := GcWorld l (g_disk w) (g_trace w) (g_added w).

Section gc.
Variable E : gc_env.
Abbreviation G A := (M gc_world A) (only parsing).

(** ** The queue *)

(** Called with the lock held. *)
Definition gc_containers_to_disk : G Z := fun w =>
  let t := g_trace w in
  let size := Z.of_nat (length (containers_list w)) in
  if negb (size =? 0) && (size >? SIZE_MAX / 8) then Some (-1, w)
  else if negb (size =? 0) && negb (g_array E t) then Some (-1, w)
  else
    let w' d := GcWorld (containers_list w) d (GcSave :: t) (g_added w) in
    match g_save E t with
    | SaveOk => Some (0, w' (Some (containers_list w).*2))
    | SaveFailed => Some (-1, w' (g_disk w))
    | SaveTorn => Some (-1, w' None)
    end.

Definition gc_is_gc_progress (id : string) (w : gc_world) : bool :=
  existsb (fun n => String.eqb id (gc_id n.2)) (containers_list w).

(** [container_is_in_gc_progress] *)
Definition container_is_in_gc_progress (id : option string) (w : gc_world) : bool :=
  match id with None => false | Some id => gc_is_gc_progress id w end.

Definition linked_list_add_tail_gc (p : N) (e : gc_element) : G unit :=
  modify (fun w => put_list (containers_list w ++ [(p, e)]) w).
Definition linked_list_del_gc (p : N) : G unit :=
  modify (fun w => put_list (filter (fun n => n.1 <> p) (containers_list w)) w).

Definition new_element (po : gc_post) (i : pid_ppid_info_t) : gc_element :=
  GcElement (po_id po) (po_runtime po) (pi_pid i) (pi_start_time i) (pi_ppid i) (pi_pstart_time i).

Definition gc_add_container (po : gc_post) : G Z :=
  match po_pid po with
  | None => mret (-1)
  | Some pid_info =>
      if negb (po_node po) then mret (-1)
      else if negb (po_elem po) then mret (-1)
      else
        newnode ← gets (fun w => g_fresh E (containers_list w).*1);
        linked_list_add_tail_gc newnode (new_element po pid_info);;
        modify (fun w => GcWorld (containers_list w) (g_disk w) (g_trace w) (S (g_added w)));;
        _ ← gc_containers_to_disk;
        mret 0
  end.

(** Other threads. *)
Fixpoint gc_add_all (pos : list gc_post) : G unit :=
  match pos with [] => mret tt | po :: pos => _ ← gc_add_container po; gc_add_all pos end.
Definition gc_ext (c : gc_call) : G Z := fun w =>
  let z := g_ans E (g_trace w) c in
  let w := GcWorld (containers_list w) (g_disk w) (c :: g_trace w) (g_added w) in
  r ← gc_add_all (g_posts E (g_trace w)) w;
  Some (z, r.2).

(** ** Restoring *)

(** The loop over the elements of the file; [alloc i] is the allocation of node [i]. *)
Fixpoint gc_restore_loop (alloc : nat -> bool) (i : nat) (els : list gc_element) : G bool :=
  match els with
  | [] => mret true
  | e :: els =>
      if negb (alloc i) then mret false
      else
        newnode ← gets (fun w => g_fresh E (containers_list w).*1);
        linked_list_add_tail_gc newnode e;;
        gc_restore_loop alloc (S i) els
  end.

Definition gc_restore (alloc : nat -> bool) : G Z :=
  gcconfig ← gets g_disk;
  match gcconfig with
  | None => mret 0
  | Some els =>
      ok ← gc_restore_loop alloc 0 els;
      if negb ok then mret (-1) else _ ← gc_containers_to_disk; mret 0
  end.

Definition new_gchandler (mutex_ok : bool) (alloc : nat -> bool) : G Z :=
  modify (put_list []);;
  if negb mutex_ok then mret (-1)
  else z ← gc_restore alloc; mret (if negb (z =? 0) then -1 else 0).

(** ** Collecting *)

Definition gc_monitor_process (pid start_time : Z) : G unit :=
  alive ← gc_ext (GcAlive pid start_time);
  if alive =? 0 then mret tt else _ ← gc_ext (GcKill pid); mret tt.

Definition add_to_list_tail_to_retry_gc (it : N) (e : gc_element) : G unit :=
  linked_list_del_gc it;; linked_list_add_tail_gc it e.

Definition gc_container_process (it : N) (gc_cont : gc_element) : G unit :=
  alive ← gc_ext (GcAlive (gc_pid gc_cont) (gc_start_time gc_cont));
  if alive =? 0 then
    ret ← gc_ext (GcClean (gc_id gc_cont) (gc_runtime gc_cont) (gc_pid gc_cont));
    if negb (ret =? 0) then add_to_list_tail_to_retry_gc it gc_cont
    else
      linked_list_del_gc it;;
      _ ← gc_containers_to_disk;
      _ ← gc_ext (GcRestartPolicy (gc_id gc_cont));
      _ ← gc_ext (GcAutoRemove (gc_id gc_cont));
      mret tt
  else
    _ ← gc_ext (GcResume (gc_id gc_cont) (gc_runtime gc_cont));
    _ ← gc_ext (GcKill (gc_pid gc_cont));
    add_to_list_tail_to_retry_gc it gc_cont.

Definition do_gc_container (it : N) (gc_cont : gc_element) : G unit :=
  gc_monitor_process (gc_ppid gc_cont) (gc_p_start_time gc_cont);;
  gc_container_process it gc_cont.

(** One turn of the loop of [gchandler]. *)
Definition gc_turn : G unit :=
  l ← gets containers_list;
  match l with [] => mret tt | (it, gc_cont) :: _ => do_gc_container it gc_cont end.

Fixpoint gchandler (turns : nat) : G unit :=
  match turns with O => mret tt | S turns => gc_turn;; gchandler turns end.
End gc.
