(* ===== verification/GCProps.v ===== *)
(** The garbage collector never loses a container, gives one up only when its process is
    gone and its resources are cleaned, gets to the end of its queue, and finds its queue
    again after a restart of the daemon. *)
From S2P Require Import Prelude ContainerState Effects GC.

Open Scope nat_scope.

(** How often a call has been made. *)
Definition calls (c : gc_call) (t : list gc_call) : nat := length (filter (eq c) t).

Lemma calls_app c t1 t2 : calls c (t1 ++ t2) = calls c t1 + calls c t2.
Proof. unfold calls. by rewrite filter_app, length_app. Qed.
Lemma calls_cons c d t : calls c (d :: t) = (if decide (c = d) then 1 else 0) + calls c t.
Proof. unfold calls. rewrite filter_cons. by case_decide. Qed.

Lemma filter_keeps_all {A} (P : A -> Prop) `{!forall x, Decision (P x)} (l : list A) :
  Forall P l -> filter P l = l.
Proof. induction 1 as [|x l Hx _ IH]; [done|]. by rewrite filter_cons, decide_True, IH. Qed.

Section props.
Variable E : gc_env.

(** Allocation gives addresses that are not in use. *)
Definition fresh_nodes : Prop := forall l, g_fresh E l ∉ l.
(** Saving the list succeeds. *)
Definition saves_ok : Prop := forall t, g_array E t = true /\ g_save E t = SaveOk.
Definition fits (w : gc_world) : Prop := (Z.of_nat (length (containers_list w)) <= SIZE_MAX / 8)%Z.

(** The file holds the queue, in some order. *)
Definition disk_good (w : gc_world) : Prop :=
  exists els, g_disk w = Some els /\ els ≡ₚ (containers_list w).*2.

(** [w'] is [w] after calls and additions by other threads. *)
Record later (w w' : gc_world) : Prop := {
  lt_list : exists new, containers_list w' = containers_list w ++ new /\
                        g_added w' = g_added w + length new;
  lt_trace : exists newt, g_trace w' = newt ++ g_trace w;
  lt_nodup : fresh_nodes -> NoDup (containers_list w).*1 -> NoDup (containers_list w').*1;
  lt_disk : saves_ok -> fits w' -> disk_good w -> disk_good w'
}.

Lemma later_fits w w' : later w w' -> fits w' -> fits w.
Proof.
  intros [(new & Hl & _) _ _ _]. unfold fits. rewrite Hl, length_app. lia.
Qed.

#[export] Instance later_preorder : PreOrder later.
Proof.
  split.
  - intros w. split; [by exists []; rewrite app_nil_r|by exists []|done|done].
  - intros w1 w2 w3 H1 H2. pose proof (later_fits _ _ H2).
    destruct H1 as [(n1 & L1 & A1) (t1 & T1) N1 D1], H2 as [(n2 & L2 & A2) (t2 & T2) N2 D2].
    split.
    + exists (n1 ++ n2). rewrite L2, L1, app_assoc, length_app. split; [done|lia].
    + exists (t2 ++ t1). by rewrite T2, T1, app_assoc.
    + auto.
    + auto.
Qed.

(** ** The operations *)

Lemma to_disk_spec w : exists z w',
  gc_containers_to_disk E w = Some (z, w') /\ containers_list w' = containers_list w /\
  g_added w' = g_added w /\ (exists newt, g_trace w' = newt ++ g_trace w) /\
  (saves_ok -> fits w -> z = 0%Z /\ disk_good w').
Proof.
  unfold gc_containers_to_disk. set (size := Z.of_nat _).
  destruct (negb (size =? 0)%Z && (size >? SIZE_MAX / 8)%Z) eqn:Hbig.
  { eexists _, _. split_and!; [done..|by exists []|]. intros _ Hf. unfold fits in Hf. fold size in Hf.
    apply andb_true_iff in Hbig as [_ Hbig]. lia. }
  destruct (negb (size =? 0)%Z && negb (g_array E (g_trace w))) eqn:Harr.
  { eexists _, _. split_and!; [done..|by exists []|]. intros Hok _.
    rewrite (proj1 (Hok _)), andb_false_r in Harr. done. }
  destruct (g_save E (g_trace w)) eqn:Hs; (eexists _, _; split_and!; [done..|by exists [GcSave]|]);
    intros Hok _; rewrite (proj2 (Hok _)) in Hs; try done. split; [done|]. by eexists.
Qed.

Lemma gc_add_spec po w : exists z w', gc_add_container E po w = Some (z, w') /\ later w w'.
Proof.
  unfold gc_add_container. destruct (po_pid po) as [i|]; [|by eexists _, w].
  destruct (po_node po); cbn; [|by eexists _, w]. destruct (po_elem po); cbn; [|by eexists _, w].
  unfold mbind, M_bind, gets, modify, linked_list_add_tail_gc, modify. cbn.
  set (w1 := GcWorld _ _ _ _).
  destruct (to_disk_spec w1) as (z & w' & -> & Hl & Ha & (newt & Ht) & Hd). eexists _, w'.
  split; [done|]. split.
  - eexists. rewrite Hl, Ha. cbn. split; [done|]. cbn. lia.
  - by exists newt.
  - intros Hf Hn. rewrite Hl. cbn. rewrite fmap_app. apply NoDup_app. split_and!; [done| |by apply NoDup_singleton].
    intros x Hx. cbn. intros ->%list_elem_of_singleton. by destruct (Hf (containers_list w).*1).
  - intros Hok Hfit _. apply Hd; [done|]. unfold fits in *. by rewrite Hl in Hfit.
Qed.

Lemma add_all_spec pos w : exists w', gc_add_all E pos w = Some (tt, w') /\ later w w'.
Proof.
  revert w. induction pos as [|po pos IH]; intros w; cbn; [by exists w|].
  destruct (gc_add_spec po w) as (z & w1 & Hr & H1). rewrite (bind_run _ _ _ _ _ Hr).
  destruct (IH w1) as (w2 & -> & H2). exists w2. split; [done|by etransitivity].
Qed.

Lemma gc_ext_spec c w : exists w', gc_ext E c w = Some (g_ans E (g_trace w) c, w') /\ later w w' /\
  calls c (g_trace w) + 1 <= calls c (g_trace w').
Proof.
  unfold gc_ext. set (w1 := GcWorld _ _ _ _).
  assert (later w w1) as H0.
  { split; [by exists []; rewrite app_nil_r|by exists [c]|done|done]. }
  destruct (add_all_spec (g_posts E (g_trace w1)) w1) as (w' & -> & H1). exists w'.
  split; [done|]. split; [by etransitivity|].
  destruct (lt_trace _ _ H1) as [newt ->]. cbn. rewrite calls_app, calls_cons, decide_True by done. lia.
Qed.

Lemma later_calls c w w' : later w w' -> calls c (g_trace w) <= calls c (g_trace w').
Proof. intros H. destruct (lt_trace _ _ H) as [newt ->]. rewrite calls_app. lia. Qed.

End props.

(** ** A turn of the collector *)

Section turn.
Variable E : gc_env.

(** The last answers the collector saw: the call [c] was made after [t] and answered [z]. *)
Definition answered (t : list gc_call) (c : gc_call) (z : Z) (w' : gc_world) : Prop :=
  (exists newt, g_trace w' = newt ++ c :: t) /\ g_ans E t c = z.

Definition alive_call (e : gc_element) := GcAlive (gc_pid e) (gc_start_time e).
Definition clean_call (e : gc_element) := GcClean (gc_id e) (gc_runtime e) (gc_pid e).

(** The process of [e] was found dead, and then its resources were cleaned up. *)
Definition cleaned (e : gc_element) w w' : Prop :=
  exists t1 t2, answered t1 (alive_call e) 0 w' /\ answered t2 (clean_call e) 0 w' /\
    (exists n, t2 = n ++ alive_call e :: t1) /\ exists n, t1 = n ++ g_trace w.

(** Why an element is put back: its process was alive and has been killed, or cleaning it
    up failed. *)
Definition retried (e : gc_element) w w' : Prop :=
  exists t c c', (exists n, t = n ++ g_trace w) /\ g_ans E t c <> 0%Z /\
    (c = alive_call e /\ c' = GcKill (gc_pid e) \/ c = clean_call e /\ c' = clean_call e) /\
    calls c' t + 1 <= calls c' (g_trace w').

Definition turned (it : N) (e : gc_element) (rest : list (N * gc_element)) w w' : Prop :=
  (exists n, g_trace w' = n ++ g_trace w) /\
  exists new, g_added w' = g_added w + length new /\
    ((containers_list w' = rest ++ new /\ cleaned e w w') \/
     (containers_list w' = rest ++ new ++ [(it, e)] /\ retried e w w')).

Lemma del_first (it : N) (e : gc_element) rest :
  NoDup ((it, e) :: rest).*1 -> filter (fun n => n.1 <> it) ((it, e) :: rest) = rest.
Proof.
  rewrite fmap_cons. intros [Hni _]%NoDup_cons. rewrite filter_cons, decide_False by (cbn; naive_solver).
  apply filter_keeps_all, Forall_forall. intros [p e'] Hin Hp. cbn in Hp. subst p.
  apply Hni, list_elem_of_fmap. by exists (it, e').
Qed.

Lemma later_cons w w' it e rest :
  fresh_nodes E -> later E w w' -> containers_list w = (it, e) :: rest ->
  NoDup (containers_list w).*1 ->
  exists new, containers_list w' = (it, e) :: rest ++ new /\ g_added w' = g_added w + length new /\
    filter (fun n => n.1 <> it) (containers_list w') = rest ++ new.
Proof.
  intros Hf Hl Hw Hn. pose proof (lt_nodup _ _ _ Hl Hf Hn) as Hn'.
  destruct (lt_list _ _ _ Hl) as (new & Hl' & Ha). rewrite Hw in Hl'. cbn in Hl'.
  exists new. split_and!; [done..|]. rewrite Hl'. apply (del_first it e). by rewrite <-Hl'.
Qed.

(** Everything a turn keeps: no node is in the queue twice, the file stays good. *)
Definition kept w w' : Prop :=
  (fresh_nodes E -> NoDup (containers_list w).*1 -> NoDup (containers_list w').*1) /\
  (fresh_nodes E -> NoDup (containers_list w).*1 -> saves_ok E -> fits w' -> disk_good w -> disk_good w').

Lemma wp_gc_ext c (Q : Z -> gc_world -> Prop) w :
  (forall w', later E w w' -> calls c (g_trace w) + 1 <= calls c (g_trace w') ->
     (exists n, g_trace w' = n ++ c :: g_trace w) -> Q (g_ans E (g_trace w) c) w') ->
  wp (gc_ext E c) Q w.
Proof.
  intros HQ. destruct (gc_ext_spec E c w) as (w' & Hr & Hl & Hc). eexists _, w'. split; [exact Hr|].
  apply HQ; [done..|]. unfold gc_ext in Hr. set (w1 := GcWorld _ _ _ _) in Hr.
  destruct (add_all_spec E (g_posts E (g_trace w1)) w1) as (w2 & Hr2 & Hl2).
  rewrite Hr2 in Hr. cbn in Hr. injection Hr as <-. apply (lt_trace _ _ _ Hl2).
Qed.

Lemma monitor_spec p st w (Q : unit -> gc_world -> Prop) :
  (forall w', later E w w' -> Q tt w') -> wp (gc_monitor_process E p st) Q w.
Proof.
  intros HQ. apply wp_mbind, wp_gc_ext. intros w1 H1 _ _. apply wp_if; intros _; [by apply wp_mret, HQ|].
  apply wp_mbind, wp_gc_ext. intros w2 H2 _ _. apply wp_mret, HQ. by etransitivity.
Qed.

(** The node that was looked at goes to the tail. *)
Lemma retry_spec w w1 it e rest :
  fresh_nodes E -> later E w w1 -> containers_list w = (it, e) :: rest -> NoDup (containers_list w).*1 ->
  retried e w w1 ->
  wp (add_to_list_tail_to_retry_gc it e) (fun _ w' => turned it e rest w w' /\ kept w w') w1.
Proof.
  intros Hf Hl Hw Hn Hre. destruct (later_cons w w1 it e rest Hf Hl Hw Hn) as (new & Hl1 & Ha & Hd).
  apply wp_mbind, wp_modify, wp_modify.
  assert (rest ++ new ++ [(it, e)] ≡ₚ containers_list w1) as Hperm
    by (rewrite Hl1, app_assoc; symmetry; apply Permutation_cons_append).
  assert (containers_list (put_list (filter (fun n => n.1 <> it) (containers_list w1) ++ [(it, e)]) w1)
    = rest ++ new ++ [(it, e)]) as Heq by (cbn; by rewrite Hd, <-app_assoc).
  split; [split; [apply (lt_trace _ _ _ Hl)|]; exists new; split; [done|]; right; done|].
  split; cbn in Heq |- *.
  - intros _ _. rewrite Heq, Hperm. by apply (lt_nodup _ _ _ Hl).
  - intros _ _ Hok Hfit Hg. destruct (lt_disk _ _ _ Hl Hok) as (els & Hels & Hp); [|done|].
    + unfold fits in *. cbn in Hfit. by rewrite Heq, Hperm in Hfit.
    + exists els. split; [done|]. cbn. by rewrite Heq, Hperm.
Qed.

Lemma later_disk_steps w1 w2 :
  later E w1 w2 -> (saves_ok E -> fits w1 -> disk_good w1) -> saves_ok E -> fits w2 -> disk_good w2.
Proof.
  intros Hl Hg Hok Hf. apply (lt_disk _ _ _ Hl Hok Hf), Hg; [done|]. by eapply later_fits.
Qed.

Lemma turn_spec w it e rest :
  fresh_nodes E -> containers_list w = (it, e) :: rest -> NoDup (containers_list w).*1 ->
  wp (gc_turn E) (fun _ w' => turned it e rest w w' /\ kept w w') w.
Proof.
  intros Hf Hw Hn. apply wp_mbind, wp_gets. rewrite Hw. apply wp_mbind, monitor_spec. intros w1 H1.
  destruct (lt_trace _ _ _ H1) as [n1 T1].
  apply wp_mbind, wp_gc_ext. intros w2 H2 _ [n2 T2]. apply wp_if; intros Ha.
  - apply wp_mbind, wp_gc_ext. intros w3 H3 C3 [n3 T3]. apply wp_if; intros Hc.
    + apply retry_spec; [done|by do 2 (etransitivity; [eassumption|])|done..|].
      exists (g_trace w2), (clean_call e), (clean_call e). split_and!; [| |by right|done];
        [|by intros Hz; unfold clean_call in Hz; rewrite Hz in Hc].
      exists (n2 ++ alive_call e :: n1). rewrite T2, T1. by rewrite <-app_assoc.
    + assert (later E w w3) as H03 by (by do 2 (etransitivity; [eassumption|])).
      destruct (later_cons w w3 it e rest Hf H03 Hw Hn) as (new & Hl3 & Ha3 & Hd3).
      apply wp_mbind, wp_modify. set (w4 := put_list _ w3). apply wp_mbind.
      destruct (to_disk_spec E w4) as (z & w5 & Hr & L5 & A5 & (n5 & T5) & D5). exists z, w5.
      split; [exact Hr|]. apply wp_mbind, wp_gc_ext. intros w6 H6 _ _.
      apply wp_mbind, wp_gc_ext. intros w7 H7 _ _. apply wp_mret.
      assert (later E w5 w7) as H57 by by etransitivity.
      destruct (lt_list _ _ _ H57) as (new' & L7 & A7). destruct (lt_trace _ _ _ H57) as [n7 T7].
      assert (containers_list w4 = rest ++ new) as L4 by (subst w4; cbn; by rewrite Hd3).
      split.
      * split; [exists (n7 ++ n5 ++ n3 ++ clean_call e :: n2 ++ alive_call e :: n1); rewrite T7, T5; cbn;
          rewrite T3, T2, T1; by repeat (rewrite <-app_assoc; cbn)|].
        exists (new ++ new'). rewrite length_app, A7, A5. split; [subst w4; cbn; lia|]. left.
        rewrite L7, L5, L4, app_assoc. split; [done|].
        exists (g_trace w1), (g_trace w2). unfold answered, alive_call, clean_call in *. split_and!;
          try (by apply Z.eqb_eq, Ha || by destruct (Z.eqb_spec (g_ans E (g_trace w2) (GcClean (gc_id e) (gc_runtime e) (gc_pid e))) 0)).
        -- exists (n7 ++ n5 ++ n3 ++ clean_call e :: n2). rewrite T7, T5. cbn. rewrite T3, T2.
           by rewrite <-!app_assoc.
        -- exists (n7 ++ n5 ++ n3). rewrite T7, T5. cbn. by rewrite T3, <-!app_assoc.
        -- by exists n2.
        -- by exists n1.
      * split.
        -- intros _ _. apply (lt_nodup _ _ _ H57 Hf). rewrite L5, L4.
           pose proof (lt_nodup _ _ _ H03 Hf Hn) as Hn3. rewrite Hl3 in Hn3. by inversion Hn3.
        -- intros _ _ Hok Hfit _. eapply later_disk_steps; [exact H57| |done..]. intros _ Hfit5.
           apply D5; [done|]. unfold fits in *. by rewrite L5 in Hfit5.
  - apply wp_mbind, wp_gc_ext. intros w3 H3 _ _. apply wp_mbind, wp_gc_ext. intros w4 H4 C4 _.
    apply retry_spec; [done|by do 3 (etransitivity; [eassumption|])|done..|].
    exists (g_trace w1), (alive_call e), (GcKill (gc_pid e)). split_and!; [by exists n1| |by left|];
      [by intros Hz; unfold alive_call in Hz; rewrite Hz in Ha|].
    pose proof (later_calls E (GcKill (gc_pid e)) _ _ H2). pose proof (later_calls E (GcKill (gc_pid e)) _ _ H3). lia.
Qed.

(** ** Many turns *)

Lemma turn_nil w : containers_list w = [] -> gc_turn E w = Some (tt, w).
Proof. intros Hw. unfold gc_turn, mbind, M_bind, gets. by rewrite Hw. Qed.

(** One turn from any queue. *)
Lemma turn_any w :
  fresh_nodes E -> NoDup (containers_list w).*1 ->
  wp (gc_turn E) (fun _ w' => kept w w' /\ g_added w <= g_added w' /\
    (length (containers_list w) <= g_added w -> length (containers_list w') <= g_added w')) w.
Proof.
  intros Hf Hn. destruct (containers_list w) as [|[it e] rest] eqn:Hw.
  { exists tt, w. split; [by apply turn_nil|]. rewrite Hw. split_and!; [split; auto|lia|auto]. }
  eapply wp_conseq; [apply (turn_spec w it e rest); [done|done|by rewrite Hw]|]. cbv beta.
  intros _ w' [(_ & new & Ha & [[Hl _]|[Hl _]]) Hk]; rewrite Hl; repeat rewrite length_app; cbn;
    (split_and!; [done|lia|lia]).
Qed.

Lemma gchandler_any k w :
  fresh_nodes E -> NoDup (containers_list w).*1 ->
  wp (gchandler E k) (fun _ w' => NoDup (containers_list w').*1 /\ g_added w <= g_added w' /\
    (length (containers_list w) <= g_added w ->
     length (containers_list w') <= g_added w' /\
     (saves_ok E -> (Z.of_nat (g_added w') <= SIZE_MAX / 8)%Z -> disk_good w -> disk_good w'))) w.
Proof.
  intros Hf. revert w. induction k as [|k IH]; intros w Hn; cbn [gchandler].
  { by apply wp_mret. }
  apply wp_mbind. eapply wp_conseq; [by apply turn_any|]. cbv beta.
  intros _ w1 ([Hk1 Hk2] & Ha1 & Hl1). eapply wp_conseq; [by apply IH; auto|]. cbv beta.
  intros _ w2 (Hn2 & Ha2 & Hr2). split_and!; [done|lia|]. intros Hl. specialize (Hl1 Hl).
  destruct (Hr2 Hl1) as [Hl2 Hd2]. split; [done|]. intros Hok Hfit Hg. apply Hd2; [done..|].
  apply Hk2; [done..| |done]. unfold fits. lia.
Qed.

(** *** How long it takes *)

(** After [K] signals the process is gone, and after [F] failures cleaning up succeeds. *)
Section bounds.
Variables K F : nat.
Definition processes_die : Prop := forall t p st, K <= calls (GcKill p) t -> g_ans E t (GcAlive p st) = 0%Z.
Definition cleaning_succeeds : Prop := forall t id rt p,
  F <= calls (GcClean id rt p) t -> g_ans E t (GcClean id rt p) = 0%Z.

(** How often an element can still be looked at. *)
Definition budget (t : list gc_call) (e : gc_element) : nat :=
  (K - calls (GcKill (gc_pid e)) t) + (F - calls (clean_call e) t) + 1.
Definition work w : nat := sum_list_with (fun n => budget (g_trace w) n.2) (containers_list w).

Lemma budget_app t' t e : budget (t' ++ t) e <= budget t e.
Proof. unfold budget. rewrite !calls_app. lia. Qed.

Lemma budget_max t e : budget t e <= K + F + 1.
Proof. unfold budget. lia. Qed.

Lemma work_app t' t (l : list (N * gc_element)) :
  sum_list_with (fun n => budget (t' ++ t) n.2) l <= sum_list_with (fun n => budget t n.2) l.
Proof. induction l as [|n l IH]; cbn; [done|]. pose proof (budget_app t' t n.2). lia. Qed.

Lemma work_max t (l : list (N * gc_element)) :
  sum_list_with (fun n => budget t n.2) l <= (K + F + 1) * length l.
Proof. induction l as [|n l IH]; cbn; [lia|]. pose proof (budget_max t n.2). lia. Qed.

Lemma retried_budget e w w' :
  processes_die -> cleaning_succeeds -> (exists n, g_trace w' = n ++ g_trace w) -> retried e w w' ->
  budget (g_trace w') e + 1 <= budget (g_trace w) e.
Proof.
  intros HK HF [n' Hn'] (t & c & c' & [n ->] & Hz & Hc & Hcnt).
  pose proof (fun d => calls_app d n (g_trace w)) as Hc1.
  pose proof (fun d => calls_app d n' (g_trace w)) as Hc2. rewrite <-Hn' in Hc2. unfold budget.
  destruct Hc as [[-> ->]|[-> ->]].
  - assert (~ K <= calls (GcKill (gc_pid e)) (n ++ g_trace w)) as Hlt by (intros H; by apply Hz, HK).
    specialize (Hc1 (GcKill (gc_pid e))). pose proof (Hc2 (clean_call e)). lia.
  - assert (~ F <= calls (clean_call e) (n ++ g_trace w)) as Hlt by (intros H; by apply Hz, HF).
    specialize (Hc1 (clean_call e)). pose proof (Hc2 (GcKill (gc_pid e))). lia.
Qed.

Lemma turn_work w it e rest :
  fresh_nodes E -> processes_die -> cleaning_succeeds ->
  containers_list w = (it, e) :: rest -> NoDup (containers_list w).*1 ->
  wp (gc_turn E) (fun _ w' => NoDup (containers_list w').*1 /\ g_added w <= g_added w' /\
    work w' + 1 <= work w + (K + F + 1) * (g_added w' - g_added w)) w.
Proof.
  intros Hf HK HF Hw Hn. eapply wp_conseq; [by apply turn_spec|]. cbv beta.
  intros _ w' [([n Hn'] & new & Ha & Hcase) [Hnd _]]. split; [by apply Hnd|]. split; [lia|].
  replace (g_added w' - g_added w) with (length new) by lia. unfold work. rewrite Hw. cbn.
  pose proof (work_app n (g_trace w) rest) as Hrest. pose proof (work_max (g_trace w') new) as Hnew.
  rewrite <-Hn' in Hrest. destruct Hcase as [[Hl _]|[Hl Hr]].
  - rewrite Hl, sum_list_with_app. assert (1 <= budget (g_trace w) e) by (unfold budget; lia). lia.
  - rewrite Hl, !sum_list_with_app. cbn.
    pose proof (retried_budget e w w' HK HF (ex_intro _ n Hn') Hr). lia.
Qed.

Lemma gchandler_work k w w' :
  fresh_nodes E -> processes_die -> cleaning_succeeds -> NoDup (containers_list w).*1 ->
  gchandler E k w = Some (tt, w') -> work w + (K + F + 1) * (g_added w' - g_added w) < k ->
  exists j wj, j <= k /\ gchandler E j w = Some (tt, wj) /\ containers_list wj = [].
Proof.
  intros Hf HK HF. revert w. induction k as [|k IH]; intros w Hn Hrun Hlt; [by apply Nat.nlt_0_r in Hlt|].
  destruct (containers_list w) as [|[it e] rest] eqn:Hw; [by exists 0, w; split_and!; [lia|..]|].
  rewrite <-Hw in Hn.
  destruct (turn_work w it e rest Hf HK HF Hw Hn) as ([] & w1 & Hr1 & Hn1 & Ha1 & Hwork).
  cbn [gchandler] in Hrun. rewrite (bind_run _ _ _ _ _ Hr1) in Hrun.
  destruct (gchandler_any k w1 Hf Hn1) as ([] & w2 & Hr2 & _ & Ha2 & _).
  rewrite Hrun in Hr2. injection Hr2 as <-.
  destruct (IH w1 Hn1 Hrun) as (j & wj & Hj & Hrj & Hlj).
  - assert (g_added w' - g_added w = (g_added w1 - g_added w) + (g_added w' - g_added w1)) as He by lia.
    rewrite He, Nat.mul_add_distr_l in Hlt. lia.
  - exists (S j), wj. split_and!; [lia| |done]. cbn [gchandler]. by rewrite (bind_run _ _ _ _ _ Hr1).
Qed.
End bounds.
End turn.

Section theorems.
Variable E : gc_env.

(** A turn of the collector with the container [e] at the head of its queue either
    takes [e] out of the queue, and then its process was found dead and its resources were
    cleaned up successfully after that; or it puts [e] at the tail, because the process was
    alive and has been killed, or because the cleaning failed.  The other containers keep
    their order, those added meanwhile come after them, and no container is lost or
    duplicated. *)
Theorem gc_turn_correct w it e rest :
  fresh_nodes E -> containers_list w = (it, e) :: rest -> NoDup (containers_list w).*1 ->
  exists w' new, gc_turn E w = Some (tt, w') /\ NoDup (containers_list w').*1 /\
    (containers_list w' = rest ++ new /\ cleaned E e w w' \/
     containers_list w' = rest ++ new ++ [(it, e)] /\ retried E e w w').
Proof.
  intros Hf Hw Hn. destruct (turn_spec E w it e rest Hf Hw Hn) as ([] & w' & Hr & (_ & new & _ & Hc) & Hk & _).
  exists w', new. split_and!; [done|by apply Hk|done].
Qed.

(** C16: if every process is gone after at most [K] signals and cleaning up a container
    fails at most [F] times, then the queue runs empty: whatever other threads add
    meanwhile, [K + F + 1] turns for each container in the queue or added are enough. *)
Theorem gc_empties_queue K F k w :
  fresh_nodes E -> processes_die E K -> cleaning_succeeds E F -> NoDup (containers_list w).*1 ->
  exists w', gchandler E k w = Some (tt, w') /\
    ((K + F + 1) * (length (containers_list w) + (g_added w' - g_added w)) < k ->
     exists j wj, j <= k /\ gchandler E j w = Some (tt, wj) /\ containers_list wj = []).
Proof.
  intros Hf HK HF Hn. destruct (gchandler_any E k w Hf Hn) as ([] & w' & Hr & _). exists w'.
  split; [done|]. intros Hlt. eapply (gchandler_work E K F); [done..|].
  pose proof (work_max K F (g_trace w) (containers_list w)). unfold work.
  rewrite Nat.mul_add_distr_l in Hlt. lia.
Qed.

Lemma restore_loop_spec alloc els i w :
  fresh_nodes E -> (forall j, alloc j = true) -> NoDup (containers_list w).*1 ->
  exists w', gc_restore_loop E alloc i els w = Some (true, w') /\
    (containers_list w').*2 = (containers_list w).*2 ++ els /\ NoDup (containers_list w').*1.
Proof.
  intros Hf Ha. revert i w. induction els as [|e els IH]; intros i w Hn; cbn.
  { exists w. by rewrite app_nil_r. }
  rewrite Ha. cbn. unfold mbind, M_bind, gets, linked_list_add_tail_gc, modify. cbn.
  destruct (IH (S i) (put_list (containers_list w ++ [(g_fresh E (containers_list w).*1, e)]) w))
    as (w' & Hr & Hl & Hn').
  - cbn. rewrite fmap_app. apply NoDup_app. split_and!; [done| |by apply NoDup_singleton].
    intros x Hx. cbn. intros ->%list_elem_of_singleton. by destruct (Hf (containers_list w).*1).
  - exists w'. split; [exact Hr|]. split; [|done]. rewrite Hl. cbn. by rewrite fmap_app, <-app_assoc.
Qed.

(** C36: as long as saving works, the queue survives the daemon: after any number of turns
    of the collector and additions by other threads, a new daemon that reads the file gets
    back exactly the containers that were in the queue, so that none of them can be started
    before it has been cleaned up. *)
Theorem gc_survives_restart k w :
  fresh_nodes E -> saves_ok E -> NoDup (containers_list w).*1 -> disk_good w ->
  length (containers_list w) <= g_added w ->
  exists w', gchandler E k w = Some (tt, w') /\
    ((Z.of_nat (g_added w') <= SIZE_MAX / 8)%Z ->
     exists w'', new_gchandler E true (fun _ => true) w' = Some (0%Z, w'') /\
       (containers_list w'').*2 ≡ₚ (containers_list w').*2 /\ disk_good w'' /\
       forall id, gc_is_gc_progress id w'' = gc_is_gc_progress id w').
Proof.
  intros Hf Hok Hn Hg Hl. destruct (gchandler_any E k w Hf Hn) as ([] & w' & Hr & Hn' & _ & Hd).
  destruct (Hd Hl) as [Hl' Hg']. exists w'. split; [done|]. intros Hfit.
  destruct (Hg' Hok Hfit Hg) as (els & Hels & Hp).
  destruct (restore_loop_spec (fun _ => true) els 0 (put_list [] w') Hf (fun _ => eq_refl)) as (w1 & Hr1 & Hl1 & Hn1);
    [by apply NoDup_nil_2|]. cbn in Hl1.
  destruct (to_disk_spec E w1) as (z & w2 & Hr2 & Hl2 & _ & _ & Hd2).
  exists w2. rewrite <-Hl1 in Hp. split_and!.
  - unfold new_gchandler, gc_restore, mbind, M_bind, gets, modify. cbn. rewrite Hels, Hr1. cbn. by rewrite Hr2.
  - by rewrite Hl2.
  - apply Hd2; [done|]. unfold fits. apply Permutation_length in Hp. rewrite !length_fmap in Hp. lia.
  - intros id. unfold gc_is_gc_progress. rewrite Hl2. apply eq_bool_prop_intro.
    assert (forall l : list (N * gc_element), existsb (fun n => String.eqb id (gc_id n.2)) l
      = existsb (fun e => String.eqb id (gc_id e)) l.*2) as Hex
      by (induction l as [|n l IH]; [done|]; cbn; by rewrite IH).
    rewrite !Hex, !Is_true_true, !existsb_exists. setoid_rewrite <-list_elem_of_In. by setoid_rewrite Hp.
Qed.
End theorems.

(** ** An example *)

(** Processes die at the first signal, cleaning up always works, saving too; another
    thread adds a container while the first one is looked at. *)
Definition gc_el (n : Z) : gc_element := GcElement "c" "lcr" n 1 0 0.
Definition gc_demo : gc_env :=
  GcEnv (fun t c => match c with
                    | GcAlive p _ => if bool_decide (GcKill p ∈ t) then 0%Z else p
                    | _ => 0%Z
                    end)
        (fun t => if bool_decide (length t = 2) then [GcPost true true "d" "lcr" (Some (PidInfo 9 0 1 0))] else [])
        (fun _ => true) (fun _ => SaveOk) (fun l => fresh (list_to_set l : gset N)).
Definition gc_w : gc_world := GcWorld [(1%N, gc_el 7); (2%N, gc_el 8)] (Some [gc_el 8; gc_el 7]) [] 2.

Lemma gc_demo_fresh : fresh_nodes gc_demo.
Proof. intros l Hl. apply (is_fresh (list_to_set l : gset N)). by apply elem_of_list_to_set. Qed.
Lemma gc_w_nodup : NoDup (containers_list gc_w).*1.
Proof. apply (bool_decide_unpack _). reflexivity. Qed.
Lemma gc_demo_saves : saves_ok gc_demo.
Proof. done. Qed.
Lemma gc_demo_die : processes_die gc_demo 1.
Proof.
  intros t p st Hc. cbn. rewrite bool_decide_eq_true_2; [done|].
  unfold calls in Hc. destruct (filter (eq (GcKill p)) t) as [|c l] eqn:Hf; [cbn in Hc; lia|].
  assert (c ∈ filter (eq (GcKill p)) t) as [<- ?]%list_elem_of_filter by (rewrite Hf; apply list_elem_of_here).
  done.
Qed.
Lemma gc_w_disk : disk_good gc_w.
Proof. eexists. split; [reflexivity|]. apply Permutation_swap. Qed.

Lemma gc_turn_correct_witness : exists w' new,
  gc_turn gc_demo gc_w = Some (tt, w') /\
  (containers_list w' = [(2%N, gc_el 8)] ++ new /\ cleaned gc_demo (gc_el 7) gc_w w' \/
   containers_list w' = [(2%N, gc_el 8)] ++ new ++ [(1%N, gc_el 7)] /\ retried gc_demo (gc_el 7) gc_w w').
Proof.
  destruct (gc_turn_correct gc_demo gc_w 1%N (gc_el 7) [(2%N, gc_el 8)] gc_demo_fresh eq_refl gc_w_nodup)
    as (w' & new & Hr & _ & Hc).
  exists w', new. exact (conj Hr Hc).
Defined.

Lemma gc_empties_queue_witness : exists j wj,
  gchandler gc_demo j gc_w = Some (tt, wj) /\ containers_list wj = [].
Proof.
  destruct (gc_empties_queue gc_demo 1 0 7 gc_w gc_demo_fresh gc_demo_die) as (w' & Hr & He).
  - intros t id rt p _. reflexivity.
  - exact gc_w_nodup.
  - destruct He as (j & wj & _ & Hj).
    + assert (g_added <$> (snd <$> gchandler gc_demo 7 gc_w) = Some 3) as Ha by (vm_compute; reflexivity).
      rewrite Hr in Ha. injection Ha as ->. cbn. lia.
    + exists j, wj. exact Hj.
Defined.

Lemma gc_survives_restart_witness : exists w' w'',
  gchandler gc_demo 2 gc_w = Some (tt, w') /\
  new_gchandler gc_demo true (fun _ => true) w' = Some (0%Z, w'') /\
  (containers_list w'').*2 ≡ₚ (containers_list w').*2.
Proof.
  destruct (gc_survives_restart gc_demo 2 gc_w gc_demo_fresh gc_demo_saves gc_w_nodup gc_w_disk)
    as (w' & Hr & Hn).
  - cbn. lia.
  - destruct Hn as (w'' & Hr' & Hp & _).
    + assert (g_added <$> (snd <$> gchandler gc_demo 2 gc_w) = Some 3) as Ha by (vm_compute; reflexivity).
      rewrite Hr in Ha. injection Ha as ->. vm_compute. discriminate.
    + exists w', w''. exact (conj Hr (conj Hr' Hp)).
Defined.
