(* ===== verification/Checkpoint.v ===== *)
(** Checkpoints of containers: src/src/daemon/modules/checkpoint/checkpoint.c.

    Paths are built in buffers of 1000 bytes; [None] is a write past the end of such a
    buffer, or past the end of the array of a listing.  Directories are trees; [fs_env]
    says which calls on them succeed.  Restoring a checkpoint changes a container and is in
    Service. *)
From Stdlib Require Import Ascii.
From S2P Require Import Prelude Heap KeyOrders MapIface RestartManager StrUtils ContainersStore.

Abbreviation cs := (list ascii).

(** ** Paths *)

Definition PATH_BUF : Z := 1000.

(** [strcpy] and [strcat] into a buffer of that size. *)
Definition strcpy_buf (s : cs) : option cs :=
  if (Z.of_nat (length s) + 1 <=? PATH_BUF)%Z then Some s else None.
Definition strcat_buf (buf s : cs) : option cs := strcpy_buf (buf ++ s).

Definition slash : ascii := "/"%char.

Definition is_special_dir (path : cs) : bool :=
  bool_decide (path = bs ".") || bool_decide (path = bs "..").

(** For the empty path the byte before the buffer is read. *)
Definition get_file_path (path file_name : cs) : option cs :=
  file_path ← strcpy_buf path;
  c ← last path;
  file_path ← (if bool_decide (c <> slash) then strcat_buf file_path [slash] else Some file_path);
  strcat_buf file_path file_name.

Definition DEFAULT_DIR : cs := bs "/tmp/isula-criu/".

(** The buffer [checkpoint_path] of [checkpoint_create], [checkpoint_restore] and
    [checkpoint_remove]. *)
Definition checkpoint_path (container : cs) (dir : option cs) : option cs :=
  buf ← strcat_buf [] (default DEFAULT_DIR dir);
  strcat_buf buf container.

(** ** Removing a checkpoint *)

(** What [lstat] tells apart: a regular file, a directory, anything else. *)
Inductive node := NFile | NOther | NDir (entries : list (cs * node)).

(** Whether [remove], [opendir] and [rmdir] succeed on a path; [rmdir] is called a second
    time on an entry after the recursive call. *)
Record fs_env := FsEnv {
  can_remove : cs -> bool; can_open : cs -> bool; can_rmdir : bool -> cs -> bool
}.

(** What is left at a path, if anything; only an empty directory is removed. *)
Definition rmdir (e : fs_env) (again : bool) (path : cs) (n : option node) : option node :=
  match n with
  | Some (NDir []) => if can_rmdir e again path then None else n
  | _ => n
  end.

(** The result, and what is left.  [readdir] gives the two special entries too. *)
Fixpoint delete_file (e : fs_env) (path : cs) (n : node) : option (Z * option node) :=
  match n with
  | NFile => Some (0%Z, if can_remove e path then None else Some NFile)
  | NOther => Some ((-1)%Z, Some NOther)
  | NDir entries =>
      if negb (can_open e path) then Some ((-1)%Z, Some n)
      else
        _ ← get_file_path path (bs ".");
        _ ← get_file_path path (bs "..");
        left ← (fix go (entries : list (cs * node)) : option (list (cs * node)) :=
                  match entries with
                  | [] => Some []
                  | (d_name, n) :: entries =>
                      file_path ← get_file_path path d_name;
                      r ← delete_file e file_path n;
                      left ← go entries;
                      Some (match rmdir e true file_path r.2 with
                            | Some n => (d_name, n) :: left
                            | None => left
                            end)
                  end) entries;
        Some (0%Z, rmdir e false path (Some (NDir left)))
  end.

(** [tree] is what there is at a path. *)
Definition checkpoint_remove (e : fs_env) (tree : cs -> option node) (container : cs) (dir : option cs)
    : option (Z * option node) :=
  path ← checkpoint_path container dir;
  match tree path with
  | None => Some ((-1)%Z, None)
  | Some n =>
      r ← delete_file e path n;
      Some (if (r.1 =? 0)%Z then 0%Z else (-1)%Z, r.2)
  end.

(** ** Creating a checkpoint *)

(** The answers of liblxc. *)
Record lxc_env := LxcEnv {
  lxc_new : bool; lxc_is_defined : bool; lxc_is_running : bool; lxc_checkpoint : cs -> bool
}.

Definition checkpoint_create (e : lxc_env) (container : cs) (dir : option cs) : option Z :=
  if negb (lxc_new e) then Some (-1)%Z
  else if negb (lxc_is_defined e) then Some (-1)%Z
  else if negb (lxc_is_running e) then Some (-1)%Z
  else
    path ← checkpoint_path container dir;
    Some (if lxc_checkpoint e path then 0%Z else (-1)%Z).

(** ** Listing *)

Section listing.
Context {MC MN : Type} {opsC : MapOps cstr N MC} {opsN : MapOps cstr cstr MN}.
Implicit Types (st : store MC MN).

(** struct checkpoint *)
Record checkpoint := Checkpoint { che_dir : cs; che_name : cs }.

Definition name_of (d_name : cs) : cstr := c_str (String.string_of_list_ascii d_name).

(** The first pass counts the entries that are containers; the references taken by the
    lookups are kept. *)
Fixpoint count_checkpoints (names : list cs) (sum : nat) st : option (nat * store MC MN) :=
  match names with
  | [] => Some (sum, st)
  | d_name :: names =>
      if is_special_dir d_name then count_checkpoints names sum st
      else
        r ← containers_store_get lock_ok true (Some (name_of d_name)) st;
        count_checkpoints names (if decide (r.1 = NULL) then sum else S sum) r.2
  end.

(** The second pass fills the array of [cap] elements. *)
Fixpoint fill_checkpoints (alloc : nat -> bool) (dir : cs) (names : list cs) (cap : nat)
    (ches : list checkpoint) st : option (list checkpoint * store MC MN) :=
  match names with
  | [] => Some (ches, st)
  | d_name :: names =>
      if is_special_dir d_name then fill_checkpoints alloc dir names cap ches st
      else
        r ← containers_store_get lock_ok true (Some (name_of d_name)) st;
        if decide (r.1 = NULL) then fill_checkpoints alloc dir names cap ches r.2
        else if negb (alloc (length ches)) then Some (ches, r.2)
        else if decide (length ches < cap)%nat then
          fill_checkpoints alloc dir names cap (ches ++ [Checkpoint dir d_name]) r.2
        else None
  end.

(** [names1] and [names2] are what the two passes read; NULL stands for a directory that
    cannot be opened.  [alloc_list] is the allocation of the result, [alloc] that of its
    elements.  The second [opendir] is not checked. *)
Definition checkpoint_list (alloc_list : bool) (alloc : nat -> bool) (dir : option cs)
    (names1 names2 : option (list cs)) st : option (option (list checkpoint) * store MC MN) :=
  let dir := default DEFAULT_DIR dir in
  match names1 with
  | None => Some (None, st)
  | Some names1 =>
      r ← count_checkpoints names1 0 st;
      if negb alloc_list then Some (None, r.2)
      else
        names2 ← names2;
        r ← fill_checkpoints alloc dir names2 r.1 [] r.2;
        Some (Some r.1, r.2)
  end.
End listing.
