(* ===== verification/CheckpointProps.v ===== *)
(** Removing a checkpoint removes everything and stays within its buffers; listing finds
    the containers that have a checkpoint, and keeps their references. *)
From Stdlib Require Import Ascii.
From S2P Require Import Prelude Heap RbSearch KeyOrders MapC MapIface MapRefine RestartManager StrUtils ContainersStore ContainersStoreProps Checkpoint.

(** ** Trees *)

Section node_induction.
Variable P : node -> Prop.
Hypothesis Hfile : P NFile.
Hypothesis Hother : P NOther.
Hypothesis Hdir : forall entries, Forall (fun en => P en.2) entries -> P (NDir entries).
Fixpoint node_ind' (n : node) : P n :=
  match n with
  | NFile => Hfile
  | NOther => Hother
  | NDir entries =>
      Hdir entries ((fix go l : Forall (fun en => P en.2) l :=
        match l with
        | [] => Forall_nil_2 _
        | en :: l => Forall_cons_2 _ _ _ (node_ind' en.2) (go l)
        end) entries)
  end.
End node_induction.

(** Only directories and regular files. *)
Fixpoint plain (n : node) : bool :=
  match n with NFile => true | NOther => false | NDir es => forallb (fun en => plain en.2) es end.

(** The bytes of the longest path built below a path of [len] bytes: a slash and a name for
    every directory on the way, of which the special entry ".." is one. *)
Fixpoint deepest (len : nat) (n : node) : nat :=
  match n with
  | NDir es => foldr (fun en m => Nat.max (deepest (len + 1 + length en.1) en.2) m) (len + 3) es
  | _ => len
  end.

Lemma deepest_ge len n : (len <= deepest len n)%nat.
Proof.
  destruct n as [| |es]; cbn; try lia. induction es as [|en es IH]; cbn; lia.
Qed.

Lemma deepest_mono n l1 l2 : (l1 <= l2)%nat -> (deepest l1 n <= deepest l2 n)%nat.
Proof.
  revert l1 l2. induction n as [| |es IH] using node_ind'; intros l1 l2 Hle; cbn; try lia.
  induction IH as [|en es Hn _ IHes]; cbn; [lia|].
  pose proof (Hn (l1 + 1 + length en.1) (l2 + 1 + length en.1))%nat. lia.
Qed.

(** ** Buffers *)

Lemma strcpy_buf_spec s :
  strcpy_buf s = if decide (length s < 1000)%nat then Some s else None.
Proof.
  unfold strcpy_buf, PATH_BUF. destruct (Z.leb_spec (Z.of_nat (length s) + 1) 1000); case_decide; (done || lia).
Qed.

(** The path of an entry: at most one slash is added, and the path is not empty. *)
Lemma get_file_path_fits path name :
  path <> [] -> (length path + 1 + length name < 1000)%nat ->
  exists p, get_file_path path name = Some p /\ p <> [] /\ (length p <= length path + 1 + length name)%nat.
Proof.
  intros Hne Hlen. unfold get_file_path, strcat_buf.
  destruct (last path) as [c|] eqn:Hl; [|by rewrite last_None in Hl].
  rewrite !strcpy_buf_spec, (decide_True (P := (length path < 1000)%nat)) by lia. cbn.
  case_bool_decide; cbn; rewrite !strcpy_buf_spec.
  - rewrite decide_True by (rewrite length_app; cbn; lia). cbn. rewrite strcpy_buf_spec.
    rewrite decide_True by (rewrite !length_app; cbn; lia). eexists. split; [done|].
    rewrite !length_app. cbn. split; [by destruct path|lia].
  - rewrite decide_True by (rewrite length_app; lia). eexists. split; [done|].
    rewrite length_app. split; [by destruct path|lia].
Qed.

(** ** Removal *)

Section removal.
Variable e : fs_env.

(** The loop over the entries, named. *)
Fixpoint delete_entries (path : cs) (entries : list (cs * node)) : option (list (cs * node)) :=
  match entries with
  | [] => Some []
  | (d_name, n) :: entries =>
      file_path ← get_file_path path d_name;
      r ← delete_file e file_path n;
      left ← delete_entries path entries;
      Some (match rmdir e true file_path r.2 with Some n => (d_name, n) :: left | None => left end)
  end.

Lemma delete_dir path es :
  delete_file e path (NDir es) =
    if negb (can_open e path) then Some ((-1)%Z, Some (NDir es))
    else
      _ ← get_file_path path (bs ".");
      _ ← get_file_path path (bs "..");
      left ← delete_entries path es;
      Some (0%Z, rmdir e false path (Some (NDir left))).
Proof.
  cbn. destruct (negb _); [done|].
  enough (delete_entries path es = (fix go (entries : list (cs * node)) : option (list (cs * node)) :=
    match entries with
    | [] => Some []
    | (d_name, n) :: entries =>
        file_path ← get_file_path path d_name;
        r ← delete_file e file_path n;
        left ← go entries;
        Some (match rmdir e true file_path r.2 with Some n => (d_name, n) :: left | None => left end)
    end) es) as -> by done.
  induction es as [|[name n] es IH]; [done|]. cbn. by rewrite IH.
Qed.

(** Paths that fit: the removal runs, and if everything succeeds nothing is left. *)
Lemma delete_file_fits n path :
  path <> [] -> (deepest (length path) n < 1000)%nat ->
  exists z left, delete_file e path n = Some (z, left) /\
    (plain n = true -> (forall p, can_remove e p = true /\ can_open e p = true /\ can_rmdir e false p = true) ->
     z = 0%Z /\ left = None).
Proof.
  revert path. induction n as [| |es IH] using node_ind'; intros path Hne Hd.
  - eexists _, _. split; [done|]. intros _ He. cbn. by rewrite (proj1 (He path)).
  - by eexists _, _.
  - rewrite delete_dir. destruct (can_open e path) eqn:Ho; cbn [negb].
    2: { eexists _, _. split; [done|]. intros _ He. rewrite (proj1 (proj2 (He path))) in Ho. done. }
    assert (length path + 3 < 1000)%nat as H3.
    { revert Hd. cbn. induction es as [|en es IHes]; cbn; [lia|].
      intros Hm. apply IHes; [by inversion IH|]. lia. }
    destruct (get_file_path_fits path (bs ".") Hne) as (p1 & -> & _); [cbn; lia|].
    destruct (get_file_path_fits path (bs "..") Hne) as (p2 & -> & _); [cbn; lia|]. cbn [mbind option_bind].
    assert (exists left, delete_entries path es = Some left /\
      (plain (NDir es) = true ->
       (forall p, can_remove e p = true /\ can_open e p = true /\ can_rmdir e false p = true) -> left = [])) as (left & -> & Hleft).
    { clear H3 Ho p1 p2. cbn in Hd. induction IH as [|[name n] es Hn _ IHes]; cbn in Hd |- *; [by exists []|].
      destruct IHes as (left & Hes & Hleft); [lia|].
      pose proof (deepest_ge (length path + 1 + length name) n).
      destruct (get_file_path_fits path name Hne) as (p & -> & Hpne & Hplen); [lia|]. cbn [mbind option_bind].
      destruct (Hn p Hpne) as (z & l & Hdel & Hall).
      - pose proof (deepest_mono n _ _ Hplen). cbn [snd]. lia.
      - cbn [snd] in Hdel. rewrite Hdel, Hes. cbn [mbind option_bind snd].
        eexists. split; [done|]. cbn. rewrite andb_true_iff. intros [Hp1 Hp2] He.
        destruct (Hall Hp1 He) as [_ ->]. cbn. by apply Hleft. }
    eexists _, _. split; [done|]. intros Hp He. rewrite (Hleft Hp He). cbn.
    by rewrite (proj2 (proj2 (He path))).
Qed.

(** The path is the directory followed by the name, or does not fit. *)
Lemma checkpoint_path_spec container dir :
  checkpoint_path container dir =
    (let path := default DEFAULT_DIR dir ++ container in
     if decide (length path < 1000)%nat then Some path else None).
Proof.
  unfold checkpoint_path, strcat_buf. generalize (default DEFAULT_DIR dir) as d. intros d.
  cbn [app]. rewrite strcpy_buf_spec. cbv zeta.
  destruct (decide (length d < 1000)%nat); cbn -[strcpy_buf length].
  - by rewrite strcpy_buf_spec.
  - by rewrite decide_False by (rewrite length_app; lia).
Qed.

(** Removing a checkpoint of directories and regular files, all of whose paths have
    less than 1000 bytes, stays within the buffers, returns success and leaves nothing
    behind, provided that the calls on the file system succeed. *)
Theorem checkpoint_remove_complete tree n container dir :
  (forall p, can_remove e p = true /\ can_open e p = true /\ can_rmdir e false p = true) ->
  plain n = true -> tree (default DEFAULT_DIR dir ++ container) = Some n ->
  default DEFAULT_DIR dir ++ container <> [] ->
  (deepest (length (default DEFAULT_DIR dir ++ container)) n < 1000)%nat ->
  checkpoint_remove e tree container dir = Some (0%Z, None).
Proof.
  intros He Hp Ht Hne Hd. unfold checkpoint_remove. rewrite checkpoint_path_spec. cbv zeta.
  pose proof (deepest_ge (length (default DEFAULT_DIR dir ++ container)) n).
  rewrite decide_True by lia. cbn [mbind option_bind]. rewrite Ht.
  destruct (delete_file_fits n _ Hne Hd) as (z & left & -> & Hall). destruct (Hall Hp He) as [-> ->]. done.
Qed.

(** A directory and a container whose names have 1000 bytes or more together overflow
    the buffer of every operation on checkpoints that gets as far as its path. *)
Theorem checkpoint_path_overflow tree lxc container dir :
  (1000 <= length (default DEFAULT_DIR dir) + length container)%nat ->
  checkpoint_remove e tree container dir = None /\
  (lxc_new lxc = true -> lxc_is_defined lxc = true -> lxc_is_running lxc = true ->
   checkpoint_create lxc container dir = None).
Proof.
  intros Hlen. unfold checkpoint_remove, checkpoint_create. rewrite !checkpoint_path_spec. cbv zeta.
  rewrite length_app, decide_False by lia. split; [done|]. by intros -> -> ->.
Qed.

(** The result of removing a directory says nothing about what was removed: it is
    success whenever the directory could be opened, whatever is left. *)
Theorem checkpoint_remove_hides_failures tree es container dir r :
  checkpoint_remove e tree container dir = Some r ->
  tree (default DEFAULT_DIR dir ++ container) = Some (NDir es) ->
  (r.1 = 0%Z <-> can_open e (default DEFAULT_DIR dir ++ container) = true).
Proof.
  unfold checkpoint_remove. rewrite checkpoint_path_spec. cbv zeta. case_decide; [|done].
  cbn [mbind option_bind]. intros Hr Ht. rewrite Ht, delete_dir in Hr.
  destruct (can_open e _); cbn [negb] in Hr; [|by injection Hr as <-].
  destruct (get_file_path _ (bs ".")); [|done]. destruct (get_file_path _ (bs "..")); [|done].
  destruct (delete_entries _ es); [|done]. cbn in Hr. by injection Hr as <-.
Qed.
End removal.

(** ** Listing *)

Section listing.
Context {MC MN : Type} {cmp : cstr -> cstr -> Z} `{!KeyOrder cmp}.
Context {opsC : MapOps cstr N MC} `{!MapLaws cmp opsC}.
Context {opsN : MapOps cstr cstr MN} `{!MapLaws cmp opsN}.
Implicit Types (st : store MC MN) (held : N -> nat).

(** The container a lookup returns, which depends on the maps only. *)
Definition resolve st (x : cstr) : N :=
  match mo_abs (st_map st) !! x with
  | Some c => c
  | None =>
      match mo_abs (st_index st) !! x ≫= (mo_abs (st_map st) !!.) with
      | Some c => c
      | None => default NULL (find_prefix x (mo_elements (st_map st)) NULL)
      end
  end.

Lemma get_resolve k st held x :
  store_inv (cmp := cmp) k st held -> few k ->
  exists st', containers_store_get lock_ok true (Some x) st = Some (resolve st x, st') /\
    store_inv (cmp := cmp) (S k) st'
      (if decide (resolve st x = NULL) then held else add_ref (resolve st x) 1 held) /\
    forall y, resolve st' y = resolve st y.
Proof.
  intros Hi Hk.
  destruct (get_spec k st held lock_ok true (Some x) Hi Hk) as (c & st' & Hg & Hc).
  assert (c = resolve st x) as <-.
  { revert Hg. unfold containers_store_get, resolve.
    destruct (get_by_id_value k st held x Hi Hk) as (st1 & -> & H1). cbn [mbind option_bind fst snd].
    destruct (mo_abs (st_map st) !! x) as [c1|] eqn:Hx; cbn [default].
    { destruct (refs_stored k st held x c1 Hi Hx). rewrite decide_True by done. by intros [= <- _]. }
    rewrite (H1 eq_refl), decide_False by naive_solver.
    destruct (get_by_name_value k st held x Hi Hk) as (st2 & -> & H2). cbn [mbind option_bind fst snd].
    destruct (mo_abs (st_index st) !! x ≫= (mo_abs (st_map st) !!.)) as [c1|] eqn:Hn; cbn [default].
    { apply bind_Some in Hn as (id & _ & Hc1). destruct (refs_stored k st held id c1 Hi Hc1).
      rewrite decide_True by done. by intros [= <- _]. }
    rewrite (H2 eq_refl), decide_False by naive_solver.
    unfold containers_store_get_by_prefix. cbn [negb l_lock lock_ok].
    destruct (find_prefix _ _ _) as [c1|]; [|by intros [= <- _]].
    destruct (container_refinc c1 st); [|done]. by intros [= <- _]. }
  exists st'. split; [done|].
  destruct (store_exec_inv k (OpGet lock_ok true (Some x)) st held Hi Hk) as ([st1 held1] & He & Hi').
  cbn [store_exec] in He. rewrite Hg in He. cbn [mbind option_bind fst snd] in He. injection He as <- <-.
  split; [exact Hi'|]. intros y. destruct Hc as [[_ ->]|(_ & _ & Hm & Hx & _)]; [done|].
  unfold resolve. by rewrite Hm, Hx.
Qed.

(** The entries of a directory that name a container, and these containers. *)
Definition listed st (names : list cs) : list cs :=
  filter (fun d => is_special_dir d = false /\ resolve st (name_of d) <> NULL) names.

(** The references after the containers of [names] have been looked up. *)
Fixpoint taken st (names : list cs) held : N -> nat :=
  match names with
  | [] => held
  | d :: names => taken st names (add_ref (resolve st (name_of d)) 1 held)
  end.

Lemma taken_count st names held c :
  taken st names held c
  = held c + length (filter (fun d => resolve st (name_of d) = c) names).
Proof.
  revert held. induction names as [|d names IH]; intros held; cbn [taken]; [cbn; lia|].
  rewrite IH, filter_cons. unfold add_ref. destruct (decide (c = _)) as [->|]; case_decide; cbn; (lia || congruence).
Qed.

(** What a pass does to the store. *)
Definition passed (k : nat) st held (names : list cs) st' : Prop :=
  store_inv (cmp := cmp) (k + length names) st' (taken st (listed st names) held) /\
  forall y, resolve st' y = resolve st y.

Lemma listed_same st st' names :
  (forall y, resolve st' y = resolve st y) ->
  listed st' names = listed st names /\ forall held l, taken st' l held = taken st l held.
Proof.
  intros Hs. split.
  - unfold listed. apply list_filter_iff. intros d. by rewrite Hs.
  - intros held l. revert held. induction l as [|d l IH]; intros held; cbn; [done|]. by rewrite Hs, IH.
Qed.

Lemma store_inv_le k k' st held :
  store_inv (cmp := cmp) k st held -> (k <= k')%nat -> store_inv (cmp := cmp) k' st held.
Proof.
  intros Hi Hle. replace k' with ((k' - k) + k)%nat by lia. induction (k' - k)%nat as [|d IH]; [done|].
  by apply store_inv_S.
Qed.

(** One entry: it is special, or no container, or a container with one more reference. *)
Lemma entry_cases k st held d names :
  store_inv (cmp := cmp) k st held -> few k ->
  (is_special_dir d = true /\ listed st (d :: names) = listed st names) \/
  (is_special_dir d = false /\ exists st1,
     containers_store_get lock_ok true (Some (name_of d)) st = Some (resolve st (name_of d), st1) /\
     (forall y, resolve st1 y = resolve st y) /\
     (resolve st (name_of d) = NULL /\ listed st (d :: names) = listed st names /\
        store_inv (cmp := cmp) (S k) st1 held \/
      resolve st (name_of d) <> NULL /\ listed st (d :: names) = d :: listed st names /\
        store_inv (cmp := cmp) (S k) st1 (add_ref (resolve st (name_of d)) 1 held))).
Proof.
  intros Hi Hk. unfold listed. rewrite filter_cons. destruct (is_special_dir d).
  { left. rewrite decide_False by naive_solver. done. }
  right. split; [done|]. destruct (get_resolve k st held (name_of d) Hi Hk) as (st1 & Hg & Hi1 & Hs).
  exists st1. split_and!; [done..|]. destruct (decide (resolve st (name_of d) = NULL)) as [Hn|Hn].
  - left. rewrite decide_False by naive_solver. done.
  - right. rewrite decide_True by done. done.
Qed.

Lemma count_spec names sum k st held :
  store_inv (cmp := cmp) k st held -> few (k + length names) ->
  exists st', count_checkpoints names sum st = Some ((sum + length (listed st names))%nat, st') /\
    passed k st held names st'.
Proof.
  revert sum k st held. induction names as [|d names IH]; intros sum k st held Hi Hk; cbn [count_checkpoints].
  { exists st. cbn. rewrite Nat.add_0_r. split; [done|]. split; [by rewrite Nat.add_0_r|done]. }
  assert (few k /\ few (S k + length names)) as [Hk0 Hk1] by (unfold few in *; cbn in Hk; lia).
  assert (forall st1 held1 sum', store_inv (cmp := cmp) (S k) st1 held1 ->
    (forall y, resolve st1 y = resolve st y) ->
    exists st', count_checkpoints names sum' st1 = Some ((sum' + length (listed st names))%nat, st') /\
      store_inv (cmp := cmp) (k + length (d :: names)) st' (taken st (listed st names) held1) /\
      forall y, resolve st' y = resolve st y) as Hrest.
  { intros st1 held1 sum' Hi1 Hs. destruct (listed_same st st1 names Hs) as [Hl Ht].
    destruct (IH sum' (S k) st1 held1 Hi1 Hk1) as (st' & Hc & Hi' & Hs'). rewrite Hl in Hc. exists st'.
    split; [done|]. split; [|intros y; by rewrite Hs', Hs].
    cbn. rewrite Nat.add_succ_r, <-Ht, <-Hl. exact Hi'. }
  destruct (entry_cases k st held d names Hi Hk0) as [[-> Hl]|(-> & st1 & -> & Hs & Hcase)].
  - unfold passed. rewrite Hl. apply Hrest; [by apply store_inv_S|done].
  - cbn [mbind option_bind fst snd]. unfold passed. destruct Hcase as [(-> & Hl & Hi1)|(Hn & Hl & Hi1)]; rewrite Hl.
    + rewrite decide_True by done. by apply Hrest.
    + rewrite decide_False by done. destruct (Hrest st1 _ (S sum) Hi1 Hs) as (st' & Hc & Hi').
      exists st'. split; [|done]. rewrite Hc. do 2 f_equal. cbn. lia.
Qed.

Lemma fill_spec dir names cap ches k st held :
  store_inv (cmp := cmp) k st held -> few (k + length names) ->
  let total := (length ches + length (listed st names))%nat in
  if decide (total <= cap)%nat then
    exists st', fill_checkpoints (fun _ => true) dir names cap ches st
        = Some (ches ++ (Checkpoint dir <$> listed st names), st') /\ passed k st held names st'
  else fill_checkpoints (fun _ => true) dir names cap ches st = None \/ (cap < length ches)%nat.
Proof.
  revert ches k st held. induction names as [|d names IH]; intros ches k st held Hi Hk; cbn [fill_checkpoints].
  { cbn. case_decide; [|right; lia]. exists st. rewrite app_nil_r. split; [done|].
    split; [by rewrite Nat.add_0_r|done]. }
  assert (few k /\ few (S k + length names)) as [Hk0 Hk1] by (unfold few in *; cbn in Hk; lia).
  assert (forall st1 held1 ches', store_inv (cmp := cmp) (S k) st1 held1 ->
    (forall y, resolve st1 y = resolve st y) ->
    if decide (length ches' + length (listed st names) <= cap)%nat then
      exists st', fill_checkpoints (fun _ => true) dir names cap ches' st1
          = Some (ches' ++ (Checkpoint dir <$> listed st names), st') /\
        store_inv (cmp := cmp) (k + length (d :: names)) st' (taken st (listed st names) held1) /\
        forall y, resolve st' y = resolve st y
    else fill_checkpoints (fun _ => true) dir names cap ches' st1 = None \/ (cap < length ches')%nat) as Hrest.
  { intros st1 held1 ches' Hi1 Hs. destruct (listed_same st st1 names Hs) as [Hl Ht].
    specialize (IH ches' (S k) st1 held1 Hi1 Hk1). cbv zeta in IH. rewrite Hl in IH.
    case_decide; [|done]. destruct IH as (st' & Hc & Hi' & Hs'). exists st'.
    split; [done|]. split; [|intros y; by rewrite Hs', Hs].
    cbn. rewrite Nat.add_succ_r, <-Ht, <-Hl. exact Hi'. }
  cbv zeta. unfold passed.
  destruct (entry_cases k st held d names Hi Hk0) as [[-> Hl]|(-> & st1 & -> & Hs & Hcase)].
  - rewrite Hl. apply Hrest; [by apply store_inv_S|done].
  - cbn [mbind option_bind fst snd]. destruct Hcase as [(-> & Hl & Hi1)|(Hn & Hl & Hi1)]; rewrite Hl.
    + rewrite (decide_True (P := NULL = NULL)) by done. by apply Hrest.
    + rewrite (decide_False (P := resolve st (name_of d) = NULL)) by done. cbn [negb].
      destruct (decide (length ches < cap)%nat) as [Hlt|Hlt].
      * specialize (Hrest st1 _ (ches ++ [Checkpoint dir d]) Hi1 Hs).
        rewrite length_app in Hrest. cbn [length] in Hrest |- *.
        replace (length ches + 1 + length (listed st names))%nat
          with (length ches + S (length (listed st names)))%nat in Hrest by lia.
        case_decide; [|destruct Hrest; [by left|right; lia]]. rewrite <-app_assoc in Hrest. exact Hrest.
      * rewrite decide_False by (cbn; lia). by left.
Qed.

(** Listing the checkpoints of a directory that does not change meanwhile gives, in
    the order of the directory, exactly the entries that name a container, with no access
    outside of the array.  Each call leaves every listed container with two more references
    that nobody will drop. *)
Theorem checkpoint_list_correct dir names k st held :
  store_inv (cmp := cmp) k st held -> few (k + length names + length names) ->
  exists st' held', checkpoint_list true (fun _ => true) dir (Some names) (Some names) st
      = Some (Some (Checkpoint (default DEFAULT_DIR dir) <$> listed st names), st') /\
    store_inv (cmp := cmp) (k + length names + length names) st' held' /\
    forall c, held' c
      = (held c + 2 * length (filter (fun d => resolve st (name_of d) = c) (listed st names)))%nat.
Proof.
  intros Hi Hk. unfold checkpoint_list.
  destruct (count_spec names 0 k st held Hi) as (st1 & -> & Hi1 & Hs1); [unfold few in *; lia|].
  cbn [mbind option_bind fst snd negb]. rewrite Nat.add_0_l. destruct (listed_same st st1 names Hs1) as [Hl Ht].
  pose proof (fill_spec (default DEFAULT_DIR dir) names (length (listed st names)) [] _ st1 _ Hi1 Hk) as Hf.
  cbv zeta in Hf. cbn [length] in Hf. rewrite Hl, decide_True in Hf by lia.
  destruct Hf as (st2 & -> & Hi2 & _). cbn [mbind option_bind fst snd]. eexists st2, _.
  split; [done|]. split; [exact Hi2|]. intros c. rewrite Ht, !taken_count, Hl. lia.
Qed.

(** A checkpoint that appears between the two passes over the directory is written past
    the end of the array. *)
Theorem checkpoint_list_overflow dir names1 names2 k st held :
  store_inv (cmp := cmp) k st held -> few (k + length names1 + length names2) ->
  (length (listed st names1) < length (listed st names2))%nat ->
  checkpoint_list true (fun _ => true) dir (Some names1) (Some names2) st = None.
Proof.
  intros Hi Hk Hlt. unfold checkpoint_list.
  destruct (count_spec names1 0 k st held Hi) as (st1 & -> & Hi1 & Hs1); [unfold few in *; lia|].
  cbn [mbind option_bind fst snd negb]. rewrite Nat.add_0_l. destruct (listed_same st st1 names2 Hs1) as [Hl _].
  pose proof (fill_spec (default DEFAULT_DIR dir) names2 (length (listed st names1)) [] _ st1 _ Hi1 Hk) as Hf.
  cbv zeta in Hf. cbn [length] in Hf. rewrite Hl, decide_False in Hf by lia.
  destruct Hf as [->|Hf]; [done|lia].
Qed.
End listing.

(** ** Examples *)

(** A checkpoint with the images of two processes. *)
Definition cp_tree : node :=
  NDir [(bs "core-1.img", NFile); (bs "pages", NDir [(bs "p-1.img", NFile); (bs "p-2.img", NFile)])].
Definition cp_id : cs := bs "abc1".
Definition cp_fs : fs_env := FsEnv (fun _ => true) (fun _ => true) (fun _ _ => true).
(** A file system on which files cannot be removed. *)
Definition cp_ro : fs_env := FsEnv (fun _ => false) (fun _ => true) (fun _ _ => true).

Lemma checkpoint_remove_complete_witness :
  checkpoint_remove cp_fs (fun _ => Some cp_tree) cp_id None = Some (0%Z, None).
Proof.
  apply (checkpoint_remove_complete cp_fs (fun _ => Some cp_tree) cp_tree cp_id None).
  - intros p. split; [reflexivity|]. split; reflexivity.
  - reflexivity.
  - reflexivity.
  - discriminate.
  - apply Nat.ltb_lt. vm_compute. reflexivity.
Defined.

Lemma checkpoint_path_overflow_witness :
  checkpoint_remove cp_fs (fun _ => None) cp_id (Some (replicate 996 slash)) = None.
Proof. apply (checkpoint_path_overflow cp_fs (fun _ => None) (LxcEnv true true true (fun _ => true))).
  apply Nat.leb_le. vm_compute. reflexivity. Defined.

Lemma checkpoint_remove_hides_failures_witness : exists left,
  checkpoint_remove cp_ro (fun _ => Some cp_tree) cp_id None = Some (0%Z, Some left).
Proof.
  destruct (checkpoint_remove cp_ro (fun _ => Some cp_tree) cp_id None) as [[z left]|] eqn:Hr;
    [|exfalso; vm_compute in Hr; discriminate].
  assert (z = 0%Z) as ->
    by (apply (checkpoint_remove_hides_failures cp_ro _ _ _ _ _ Hr eq_refl); reflexivity).
  vm_compute in Hr. injection Hr as <-. eexists. reflexivity.
Defined.

#[local] Abbreviation cp_cmp := (cstr_cmp uchar_value).
#[local] Instance cp_opsC : MapOps cstr N (gmap cstr N) := gmap_MapOps cp_cmp.
#[local] Instance cp_opsN : MapOps cstr cstr (gmap cstr cstr) := gmap_MapOps cp_cmp.

Lemma cp_store : exists (st : store (gmap cstr N) (gmap cstr cstr)) held,
  store_inv (cmp := cp_cmp) 2 st held /\ mo_abs (st_map st) = {[c_str "abc1" := 5%N]}.
Proof.
  destruct (store_run_inv (cmp := cp_cmp) [OpNew 5; OpAdd true true (c_str "abc1") 5] 0
    (Store ∅ ∅ ∅) (fun _ => 0%nat)) as ([st held] & Hrun & Hi); [by apply store_inv_empty|done|].
  exists st, held. split; [exact Hi|].
  assert (match store_run (opsC := cp_opsC) (opsN := cp_opsN) [OpNew 5; OpAdd true true (c_str "abc1") 5]
            (Store ∅ ∅ ∅, fun _ => 0%nat) with
          | Some (st, _) => bool_decide (st_map st = {[c_str "abc1" := 5%N]}) | None => false end = true) as Hb
    by (vm_compute; reflexivity).
  rewrite Hrun in Hb. by apply bool_decide_eq_true in Hb.
Qed.

Definition cp_names : list cs := [bs "."; bs ".."; bs "abc1"; bs "zzz"].

Lemma checkpoint_list_correct_witness : exists (st : store (gmap cstr N) (gmap cstr cstr)) st' l,
  checkpoint_list true (fun _ => true) None (Some cp_names) (Some cp_names) st = Some (Some l, st').
Proof.
  destruct cp_store as (st & held & Hi & _).
  destruct (checkpoint_list_correct (cmp := cp_cmp) None cp_names 2 st held Hi) as (st' & _ & Hl & _);
    [vm_compute; reflexivity|].
  exists st, st', (Checkpoint DEFAULT_DIR <$> listed st cp_names). exact Hl.
Defined.

Lemma checkpoint_list_overflow_witness : exists st : store (gmap cstr N) (gmap cstr cstr),
  checkpoint_list true (fun _ => true) None (Some []) (Some [bs "abc1"]) st = None.
Proof.
  destruct cp_store as (st & held & Hi & Hm). exists st.
  apply (checkpoint_list_overflow (cmp := cp_cmp) None [] [bs "abc1"] 2 st held Hi).
  - vm_compute. reflexivity.
  - unfold listed, resolve. rewrite Hm. apply Nat.ltb_lt. vm_compute. reflexivity.
Defined.
