(* ===== verification/ImageStore.v ===== *)
(** The store of images: src/src/daemon/modules/image/oci/storage/image_store/image_store.c
    and image_type.c.

    The images live in a heap with their reference counts; the store keeps a list of them
    and three indices over the map interface, by id, by name and by digest.  The objects
    of the digest index are lists of images in a heap of their own, since they are shared
    and mutated.  [is_disk] is what the json files say.  Operations are computations over
    the store (Effects); [None] is undefined behaviour, in particular the use of an image
    that has been freed.  Every public function runs under the lock of the store. *)
From S2P Require Import Prelude Heap KeyOrders MapIface RestartManager ContainersStore Effects.

Open Scope Z_scope.

(** [storage_image], the fields the store works with; the two maps may be NULL. *)
Record storage_image := SImage {
  si_id : cstr;
  si_digest : option cstr;
  si_names : list cstr;
  si_layer : option cstr;
  si_metadata : option cstr;
  si_size : Z;
  big_data_names : list cstr;
  big_data_sizes : option (list (cstr * Z));
  big_data_digests : option (list (cstr * cstr))
}.
Definition put_names l s :=
  SImage (si_id s) (si_digest s) l (si_layer s) (si_metadata s) (si_size s)
    (big_data_names s) (big_data_sizes s) (big_data_digests s).
Definition put_digest d s :=
  SImage (si_id s) d (si_names s) (si_layer s) (si_metadata s) (si_size s)
    (big_data_names s) (big_data_sizes s) (big_data_digests s).
Definition put_metadata m s :=
  SImage (si_id s) (si_digest s) (si_names s) (si_layer s) (Some m) (si_size s)
    (big_data_names s) (big_data_sizes s) (big_data_digests s).
Definition put_size z s :=
  SImage (si_id s) (si_digest s) (si_names s) (si_layer s) (si_metadata s) z
    (big_data_names s) (big_data_sizes s) (big_data_digests s).
Definition put_big_data names sizes digests s :=
  SImage (si_id s) (si_digest s) (si_names s) (si_layer s) (si_metadata s) (si_size s)
    names sizes digests.

(** [image_t]; the parsed specification is left out. *)
Record image_t := Image { img_refcnt : Z; simage : storage_image }.

(** [imagetool_image_summary], what the storage module reads of it *)
Record img_summary := ImgSummary { im_id : cstr; im_top_layer : option cstr; im_size : Z }.

(** The outcomes of the environment during a call. *)
Record img_env := ImgEnv {
  ie_lock : bool;
  ie_itor : bool;                  (** the iterator of the prefix search *)
  ie_node : bool;                  (** a node of a list *)
  ie_map : bool;                   (** insertion into a map *)
  ie_digest : bool;                (** an object of the digest index *)
  ie_names : bool;                 (** an array of names *)
  ie_image : bool;                 (** a new image *)
  ie_time : bool;                  (** the conversion of the creation time *)
  ie_random : option cstr;         (** a random id *)
  ie_save : cstr -> bool;          (** writing the json file of an image *)
  ie_data : bool;                  (** writing a file of big data *)
  ie_jmap : bool;                  (** a map of a json object *)
  ie_jadd : bool;                  (** a new entry of such a map *)
  ie_full_digest : cstr -> cstr;   (** [util_full_digest] of [sha256_digest_str] *)
  ie_rmdir : bool;
  ie_summary : storage_image -> bool;            (** making the summary of an image *)
  ie_info : storage_image -> bool;               (** making its full description *)
  ie_list : bool;                                (** the array of all images *)
  ie_content : cstr -> cstr -> option cstr;      (** reading a file of big data *)
  ie_fresh_image : gmap N image_t -> N;
  ie_fresh_digest : gmap N (list N) -> N
}.

Definition IMAGE_DIGEST_BIG_DATA_KEY : cstr := c_str "manifest".

Section image_store.
Context {MI MG MB : Type} {opsI : MapOps cstr N MI} {opsG : MapOps cstr N MG} {opsB : MapOps cstr bool MB}.

(** [image_store_t] *)
Record image_store := IStore {
  is_images : gmap N image_t;
  images_list : list N;
  images_list_len : Z;
  byid : MI;
  byname : MI;
  bydigest : MG;
  is_digests : gmap N (list N);    (** the objects [digest_image_t] *)
  is_disk : gmap cstr storage_image
}.
Definition put_images x st :=
  IStore x (images_list st) (images_list_len st) (byid st) (byname st) (bydigest st) (is_digests st) (is_disk st).
Definition put_images_list l n st :=
  IStore (is_images st) l n (byid st) (byname st) (bydigest st) (is_digests st) (is_disk st).
Definition put_byid m st :=
  IStore (is_images st) (images_list st) (images_list_len st) m (byname st) (bydigest st) (is_digests st) (is_disk st).
Definition put_byname m st :=
  IStore (is_images st) (images_list st) (images_list_len st) (byid st) m (bydigest st) (is_digests st) (is_disk st).
Definition put_bydigest m h st :=
  IStore (is_images st) (images_list st) (images_list_len st) (byid st) (byname st) m h (is_disk st).
Definition put_disk d st :=
  IStore (is_images st) (images_list st) (images_list_len st) (byid st) (byname st) (bydigest st) (is_digests st) d.

Variable E : img_env.
Abbreviation S A := (M image_store A) (only parsing).

(** ** Images *)

(** [img->simage] *)
Definition get_simage (img : N) : S storage_image :=
  imgs ← gets is_images; i ← lift (imgs !! img); mret (simage i).
Definition set_simage (img : N) (s : storage_image) : S unit :=
  imgs ← gets is_images;
  i ← lift (imgs !! img);
  modify (put_images (<[img := Image (img_refcnt i) s]> imgs)).

Definition new_image (s : storage_image) : S N :=
  if negb (ie_image E) then mret NULL
  else
    imgs ← gets is_images;
    let p := ie_fresh_image E imgs in
    modify (put_images (<[p := Image 1 s]> imgs));;
    mret p.

Definition image_ref_inc (img : N) : S unit :=
  if decide (img = NULL) then mret tt
  else
    imgs ← gets is_images;
    i ← lift (imgs !! img);
    modify (put_images (<[img := Image (atomic_int_inc (img_refcnt i)) (simage i)]> imgs)).

Definition free_image_t (img : N) : S unit :=
  if decide (img = NULL) then mret tt
  else
    imgs ← gets is_images;
    _ ← lift (imgs !! img);
    modify (put_images (delete img imgs)).

Definition image_ref_dec (img : N) : S unit :=
  if decide (img = NULL) then mret tt
  else
    imgs ← gets is_images;
    i ← lift (imgs !! img);
    let '(c, is_zero) := atomic_int_dec_test (img_refcnt i) in
    modify (put_images (<[img := Image c (simage i)]> imgs));;
    if is_zero then free_image_t img else mret tt.

(** The file is written atomically. *)
Definition save_image (s : storage_image) : S Z :=
  if ie_save E (si_id s) then modify (fun st => put_disk (<[si_id s := s]> (is_disk st)) st);; mret 0
  else mret (-1).

(** Without its name; the array is copied unless it becomes empty. *)
Definition remove_name (img : N) (name : cstr) : S Z :=
  if decide (img = NULL) then mret 0
  else
    s ← get_simage img;
    let names := filter (fun n => n <> name) (si_names s) in
    match names with
    | [] => set_simage img (put_names [] s);; mret 0
    | _ :: _ => if negb (ie_names E) then mret (-1) else set_simage img (put_names names s);; mret 0
    end.

(** [util_string_array_unique] (utils_string.c): the names once each, in the order of the
    map; [ok]: the array for them can be allocated. *)
Fixpoint replace_all (names : list cstr) (m : MB) : MB :=
  match names with [] => m | n :: names => replace_all names (mo_replace n true m).2 end.
Definition array_unique (ok : bool) (names : list cstr) : option (list cstr) :=
  match names with
  | [] => Some []
  | _ :: _ => m ← mo_new; if negb ok then None else Some (mo_elements (replace_all names m)).*1
  end.
Definition util_string_array_unique (names : list cstr) : option (list cstr) := array_unique (ie_names E) names.

(** ** Lookup *)

Definition get_image_for_store_by_prefix (id : cstr) : S N :=
  if negb (ie_itor E) then mret NULL
  else m ← gets byid; mret (default NULL (find_prefix id (mo_elements m) NULL)).

(** The image with one more reference, or NULL. *)
Definition lookup (id : cstr) : S N :=
  ids ← gets byid;
  names ← gets byname;
  img ← match mo_search id ids with
        | Some img => (mret img : S N)
        | None =>
            match mo_search id names with
            | Some img => mret img
            | None => get_image_for_store_by_prefix id
            end
        end;
  image_ref_inc img;;
  mret img.

(** ** The digest index *)

Fixpoint ids_of (imgs : list N) : S (list (N * cstr)) :=
  match imgs with
  | [] => mret []
  | p :: imgs => s ← get_simage p; rest ← ids_of imgs; mret ((p, si_id s) :: rest)
  end.

Definition digest_image_slice_without_value (q img : N) : S unit :=
  digs ← gets is_digests;
  l ← lift (digs !! q);
  s ← get_simage img;
  l ← ids_of l;
  modify (fun st => put_bydigest (bydigest st)
            (<[q := (filter (fun x => x.2 <> si_id s) l).*1]> (is_digests st)) st).

(** Removing a digest from the map frees its object. *)
Definition remove_image_from_digest_index (img : N) (digest : cstr) : S Z :=
  m ← gets bydigest;
  match mo_search digest m with
  | None => mret 0
  | Some q =>
      digest_image_slice_without_value q img;;
      digs ← gets is_digests;
      l ← lift (digs !! q);
      match l with
      | [] =>
          let '(ok, m) := mo_remove digest m in
          modify (put_bydigest m (if ok then delete q digs else digs));;
          mret (if ok then 0 else -1)
      | _ :: _ => mret 0
      end
  end.

Definition append_image_to_digest_images (q img : N) : S Z :=
  if decide (img = NULL) then mret 0
  else if negb (ie_node E) then mret (-1)
  else
    digs ← gets is_digests;
    l ← lift (digs !! q);
    modify (fun st => put_bydigest (bydigest st) (<[q := l ++ [img]]> digs) st);;
    mret 0.

Definition append_image_according_to_digest (digest : option cstr) (img : N) : S Z :=
  match digest with
  | None => mret 0
  | Some digest =>
      m ← gets bydigest;
      match mo_search digest m with
      | Some q => append_image_to_digest_images q img
      | None =>
          if negb (ie_digest E) then mret (-1)
          else
            digs ← gets is_digests;
            let q := ie_fresh_digest E digs in
            modify (put_bydigest m (<[q := []]> digs));;
            z ← append_image_to_digest_images q img;
            if negb (z =? 0) then modify (fun st => put_bydigest m (delete q (is_digests st)) st);; mret (-1)
            else
              let '(ok, m') := mo_insert (ie_map E) digest q m in
              if ok then modify (fun st => put_bydigest m' (is_digests st) st);; mret 0
              else modify (fun st => put_bydigest m' (delete q (is_digests st)) st);; mret (-1)
      end
  end.

(** ** Removing *)

Fixpoint remove_names (names : list cstr) : S Z :=
  match names with
  | [] => mret 0
  | n :: names =>
      m ← gets byname;
      let '(ok, m) := mo_remove n m in
      modify (put_byname m);;
      if ok then remove_names names else mret (-1)
  end.

Definition get_value (m : option (list (cstr * cstr))) (key : cstr) : option cstr :=
  l ← m; x ← list_find (fun kv => kv.1 = key) l; Some x.2.2.

(** The loop over the images: the first one with that id leaves the list, which drops its
    reference. *)
Fixpoint unlist (id : cstr) (before after : list N) : S unit :=
  match after with
  | [] => mret tt
  | p :: after =>
      s ← get_simage p;
      if decide (si_id s = id) then
        modify (fun st => put_images_list (before ++ after) (wrap_u 64 (images_list_len st - 1)) st);;
        image_ref_dec p
      else unlist id (before ++ [p]) after
  end.

Definition remove_from_indices (img : N) (id : cstr) : S Z :=
  ids ← gets byid;
  let '(ok, ids) := mo_remove id ids in
  modify (put_byid ids);;
  if negb ok then mret (-1)
  else
    s ← get_simage img;
    z ← remove_names (si_names s);
    if negb (z =? 0) then mret (-1)
    else
      z ← match get_value (big_data_digests s) IMAGE_DIGEST_BIG_DATA_KEY with
          | Some digest => remove_image_from_digest_index img digest
          | None => mret 0
          end;
      if negb (z =? 0) then mret (-1)
      else
        z ← match si_digest s with
            | Some digest => remove_image_from_digest_index img digest
            | None => mret 0
            end;
        if negb (z =? 0) then mret (-1)
        else l ← gets images_list; unlist id [] l;; mret 0.

Definition remove_image_from_memory (id : cstr) : S Z :=
  img ← lookup id;
  z ← (if decide (img = NULL) then (mret (-1) : S Z) else remove_from_indices img id);
  image_ref_dec img;;
  mret z.

Definition remove_image_dir (id : cstr) : S Z :=
  if ie_rmdir E then modify (fun st => put_disk (delete id (is_disk st)) st);; mret 0 else mret (-1).

Definition do_delete_image_info (id : cstr) : S Z :=
  img ← lookup id;
  if decide (img = NULL) then mret 0
  else
    s ← get_simage img;
    z ← remove_image_from_memory (si_id s);
    z ← (if negb (z =? 0) then (mret (-1) : S Z) else remove_image_dir (si_id s));
    image_ref_dec img;;
    mret z.

Definition image_store_delete (id : option cstr) : S Z :=
  match id with
  | None => mret (-1)
  | Some id =>
      if negb (ie_lock E) then mret (-1)
      else z ← do_delete_image_info id; mret (if negb (z =? 0) then -1 else 0)
  end.

(** ** Creating *)

Fixpoint insert_names (names : list cstr) (img : N) : S Z :=
  match names with
  | [] => mret 0
  | n :: names =>
      m ← gets byname;
      match mo_search n m with
      | Some _ => mret (-1)
      | None =>
          let '(ok, m) := mo_insert (ie_map E) n img m in
          modify (put_byname m);;
          if ok then insert_names names img else mret (-1)
      end
  end.

Definition insert_into_indices (id : cstr) (digest : option cstr) (img : N) : S Z :=
  ids ← gets byid;
  let '(ok, ids) := mo_insert (ie_map E) id img ids in
  modify (put_byid ids);;
  if negb ok then mret (-1)
  else
    z ← append_image_according_to_digest digest img;
    if negb (z =? 0) then mret (-1)
    else s ← get_simage img; insert_names (si_names s) img.

(** On failure only the node of the list is taken back: neither the length nor the indices
    are. *)
Definition image_store_append_image (id : cstr) (digest : option cstr) (img : N) : S Z :=
  if negb (ie_node E) then mret (-1)
  else
    l ← gets images_list;
    modify (fun st => put_images_list (l ++ [img]) (wrap_u 64 (images_list_len st + 1)) st);;
    z ← insert_into_indices id digest img;
    when (negb (z =? 0)) (modify (fun st => put_images_list l (images_list_len st) st));;
    mret z.

Definition new_storage_image (id : cstr) (digest : option cstr) (names : list cstr)
    (layer metadata : option cstr) : option storage_image :=
  if negb (ie_image E) then None
  else if negb (ie_time E) then None
  else Some (SImage id digest names layer metadata 0 [] None None).

Definition image_store_create (id : option cstr) (names : list cstr) (layer metadata digest : option cstr)
    : S (option cstr) :=
  if negb (ie_lock E) then mret None
  else
    match (match id with None => ie_random E | Some _ => id end) with
    | None => mret None
    | Some dst_id =>
        ids ← gets byid;
        match mo_search dst_id ids with
        | Some _ => mret None
        | None =>
            match (unique ← util_string_array_unique names;
                   new_storage_image dst_id digest unique layer metadata) with
            | None => mret None
            | Some im =>
                img ← new_image im;
                if decide (img = NULL) then mret None
                else
                  z ← image_store_append_image dst_id digest img;
                  if negb (z =? 0) then free_image_t img;; mret None
                  else
                    s ← get_simage img;
                    z ← save_image s;
                    if negb (z =? 0) then _ ← do_delete_image_info dst_id; mret None
                    else mret (Some dst_id)
            end
        end
    end.

(** ** Reading *)

(** The functions that look an image up, read something and drop the reference. *)
Definition with_image {A} (id : option cstr) (fail : A) (f : storage_image -> A) : S A :=
  match id with
  | None => mret fail
  | Some id =>
      if negb (ie_lock E) then mret fail
      else
        img ← lookup id;
        r ← (if decide (img = NULL) then (mret fail : S A) else s ← get_simage img; mret (f s));
        image_ref_dec img;;
        mret r
  end.

(** [util_dup_array_of_strings]: nothing is allocated for an empty array. *)
Definition dup_names (l : list cstr) : option (list cstr) :=
  match l with [] => Some [] | _ :: _ => if ie_names E then Some l else None end.

Definition image_store_lookup (id : option cstr) : S (option cstr) :=
  with_image id None (fun s => Some (si_id s)).
Definition image_store_exists (id : option cstr) : S bool := with_image id false (fun _ => true).
Definition image_store_get_names (id : option cstr) : S (option (list cstr)) :=
  with_image id None (fun s => dup_names (si_names s)).
Definition image_store_metadata (id : option cstr) : S (option cstr) := with_image id None si_metadata.
Definition image_store_top_layer (id : option cstr) : S (option cstr) := with_image id None si_layer.
Definition image_store_big_data_names (id : option cstr) : S (option (list cstr)) :=
  with_image id None (fun s => dup_names (big_data_names s)).
(** -1 as an unsigned number when the lock cannot be taken. *)
Definition image_store_get_images_number : S Z :=
  if negb (ie_lock E) then mret (wrap_u 64 (-1)) else gets images_list_len.

(** ** Changing *)

(** The functions that look an image up, change it and save it. *)
Definition update_image (id : option cstr) (f : storage_image -> storage_image) : S Z :=
  match id with
  | None => mret (-1)
  | Some id =>
      if negb (ie_lock E) then mret (-1)
      else
        img ← lookup id;
        r ← (if decide (img = NULL) then (mret (-1) : S Z)
             else
               s ← get_simage img;
               set_simage img (f s);;
               save_image (f s));
        image_ref_dec img;;
        mret r
  end.
Definition image_store_set_metadata (id metadata : option cstr) : S Z :=
  match metadata with None => mret (-1) | Some m => update_image id (put_metadata m) end.
Definition image_store_set_image_size (id : option cstr) (size : Z) : S Z := update_image id (put_size size).

(** ** Big data *)

Definition get_value_from_json_map_string_int64 (m : list (cstr * Z)) (key : cstr) : option Z :=
  x ← list_find (fun kv => kv.1 = key) m; Some x.2.2.
(** The first entry of the key, and every entry. *)
Fixpoint update_json_map_string_int64 (m : list (cstr * Z)) (key : cstr) (value : Z) : list (cstr * Z) :=
  match m with
  | [] => []
  | kv :: m => if decide (kv.1 = key) then (kv.1, value) :: m else kv :: update_json_map_string_int64 m key value
  end.
Definition update_json_map_string_string (m : list (cstr * cstr)) (key value : cstr) : list (cstr * cstr) :=
  (fun kv => if decide (kv.1 = key) then (kv.1, value) else kv) <$> m.
Definition append_json_map {A} (m : list (cstr * A)) (key : cstr) (value : A) : list (cstr * A) :=
  if ie_jadd E then m ++ [(key, value)] else m.

(** The manifest's digest changes from [old] to [full]: the index follows, but only when it
    has an entry for the new digest already. *)
Definition unindex_old (img : N) (old : option cstr) (full : cstr) : S Z :=
  match old with
  | None => mret 0
  | Some od =>
      if decide (od = full) then mret 0
      else
        s ← get_simage img;
        d ← lift (si_digest s);          (* strcmp with NULL *)
        if decide (od = d) then mret 0 else remove_image_from_digest_index img od
  end.

Definition reindex_manifest (img : N) (old : option cstr) (full : cstr) : S Z :=
  z ← unindex_old img old full;
  if negb (z =? 0) then mret (-1)
  else
    m ← gets bydigest;
    match mo_search full m with
    | None => mret 0
    | Some q =>
        digest_image_slice_without_value q img;;
        z ← append_image_to_digest_images q img;
        mret (if negb (z =? 0) then -1 else 0)
    end.

(** The status and whether the image is to be saved. *)
Definition update_image_with_big_data (img : N) (key data : cstr) : S (Z * bool) :=
  s ← get_simage img;
  if bool_decide (big_data_sizes s = None) && negb (ie_jmap E) then mret (-1, false)
  else
    let sizes := default [] (big_data_sizes s) in
    let len := Z.of_nat (String.length (cstr_str data)) in
    let old_size := get_value_from_json_map_string_int64 sizes key in
    let sizes := match old_size with
                 | Some _ => update_json_map_string_int64 sizes key len
                 | None => append_json_map sizes key len
                 end in
    let s := put_big_data (big_data_names s) (Some sizes) (big_data_digests s) s in
    set_simage img s;;
    if bool_decide (big_data_digests s = None) && negb (ie_jmap E) then mret (-1, false)
    else
      let digests := default [] (big_data_digests s) in
      let old_digest := get_value (Some digests) key in
      let full_digest := ie_full_digest E data in
      let digests := match old_digest with
                     | Some _ => update_json_map_string_string digests key full_digest
                     | None => append_json_map digests key full_digest
                     end in
      let s := put_big_data (big_data_names s) (big_data_sizes s) (Some digests) s in
      set_simage img s;;
      let should_save := negb (bool_decide (old_size = Some len /\ old_digest = Some full_digest)) in
      let add_name := bool_decide (key ∉ big_data_names s) in
      if add_name && negb (ie_names E) then mret (-1, should_save)
      else
        when add_name (set_simage img
          (put_big_data (big_data_names s ++ [key]) (big_data_sizes s) (big_data_digests s) s));;
        z ← (if decide (key = IMAGE_DIGEST_BIG_DATA_KEY) then reindex_manifest img old_digest full_digest
             else mret 0);
        mret (z, should_save || add_name).

Definition image_store_set_big_data (id key : option cstr) (data : cstr) : S Z :=
  match key with
  | None => mret (-1)
  | Some key =>
      if (String.length (cstr_str key) =? 0)%nat then mret (-1)
      else if negb (ie_lock E) then mret (-1)
      else
        match id with
        | None => mret (-1)
        | Some id =>
            img ← lookup id;
            r ← (if decide (img = NULL) then (mret (-1) : S Z)
                 else if negb (ie_data E) then mret (-1)
                 else
                   r ← update_image_with_big_data img key data;
                   if negb (r.1 =? 0) then mret (-1)
                   else if r.2 : bool then s ← get_simage img; save_image s else mret 0);
            image_ref_dec img;;
            mret r
        end
  end.

(** ** Names *)

(** The name goes to [img]; [save_other] is for [image_store_add_name], which saves the
    image that loses it. *)
Definition take_name (save_other : bool) (img : N) (name : cstr) : S Z :=
  m ← gets byname;
  z ← match mo_search name m with
      | None => (mret 0 : S Z)
      | Some other =>
          z ← remove_name other name;
          if negb (z =? 0) then mret (-1)
          else if save_other then s ← get_simage other; save_image s else mret 0
      end;
  if negb (z =? 0) then mret (-1)
  else
    let '(ok, m) := mo_replace name img m in
    modify (put_byname m);;
    mret (if ok then 0 else -1).

Fixpoint take_names (save_other : bool) (img : N) (names : list cstr) : S Z :=
  match names with
  | [] => mret 0
  | n :: names =>
      z ← take_name save_other img n;
      if negb (z =? 0) then mret (-1) else take_names save_other img names
  end.

(** The names of [img] become [unique]. *)
Definition assign_names (save_other : bool) (img : N) (unique : list cstr) : S Z :=
  s ← get_simage img;
  z ← remove_names (si_names s);
  if negb (z =? 0) then mret (-1)
  else
    z ← take_names save_other img unique;
    if negb (z =? 0) then mret (-1)
    else
      s ← get_simage img;
      set_simage img (put_names unique s);;
      save_image (put_names unique s).

Definition image_store_add_name (id name : option cstr) : S Z :=
  match id, name with
  | Some id, Some name =>
      if negb (ie_lock E) then mret (-1)
      else
        img ← lookup id;
        r ← (if decide (img = NULL) then (mret (-1) : S Z)
             else
               s ← get_simage img;
               match (if ie_names E then util_string_array_unique (si_names s ++ [name]) else None) with
               | None => mret (-1)
               | Some unique => assign_names true img unique
               end);
        image_ref_dec img;;
        mret r
  | _, _ => mret (-1)
  end.

Definition image_store_set_names (id : option cstr) (names : list cstr) : S Z :=
  match id, names with
  | Some id, _ :: _ =>
      if negb (ie_lock E) then mret (-1)
      else
        img ← lookup id;
        r ← (if decide (img = NULL) then (mret (-1) : S Z)
             else
               match util_string_array_unique names with
               | None => mret (-1)
               | Some unique => assign_names false img unique
               end);
        image_ref_dec img;;
        mret r
  | _, _ => mret (-1)
  end.

(** ** Loading *)

Definition get_index_by_key (keys : list cstr) (target : cstr) : option nat :=
  fst <$> list_find (fun k => k = target) keys.

(** The test of [get_index_by_key] is the wrong way round: when there is no manifest the
    first digest is used, of whatever it is. *)
Definition implicit_digest (img : N) : S Z :=
  s ← get_simage img;
  match big_data_digests s with
  | None => mret 0
  | Some digests =>
      match get_index_by_key digests.*1 IMAGE_DIGEST_BIG_DATA_KEY with
      | Some _ => mret 0
      | None =>
          kv ← lift (digests !! 0%nat);
          append_image_according_to_digest (Some kv.2) img
      end
  end.

Definition explicit_digest (img : N) : S Z :=
  s ← get_simage img;
  match big_data_digests s with
  | None => mret 0
  | Some digests =>
      let value := get_value (Some digests) IMAGE_DIGEST_BIG_DATA_KEY in
      match si_digest s with
      | None => set_simage img (put_digest value s);; mret 0
      | Some d =>
          if bool_decide (value <> Some d) then append_image_according_to_digest (Some d) img else mret 0
      end
  end.

(** Names that another image has are taken from it; whether some were.  The names are read
    again in every turn, since the other image may be [img] itself; [fuel] is their number,
    which never grows. *)
Fixpoint load_names (fuel : nat) (img : N) (i : nat) (should_save : bool) : S (Z * bool) :=
  match fuel with
  | O => mret (0, should_save)
  | Datatypes.S fuel =>
      s ← get_simage img;
      match si_names s !! i with
      | None => mret (0, should_save)
      | Some n =>
          m ← gets byname;
          z ← match mo_search n m with
              | None => (mret (0, should_save) : S (Z * bool))
              | Some other => z ← remove_name other n; mret (z, true)
              end;
          if negb (z.1 =? 0) then mret (-1, z.2)
          else
            s ← get_simage img;
            n ← lift (si_names s !! i);
            let '(ok, m) := mo_replace n img m in
            modify (put_byname m);;
            if ok then load_names fuel img (i + 1) z.2 else mret (-1, z.2)
      end
  end.

Definition load_image_to_store_field (img : N) : S Z :=
  s ← get_simage img;
  ids ← gets byid;
  let '(ok, ids) := mo_replace (si_id s) img ids in
  modify (put_byid ids);;
  if negb ok then mret (-1)
  else
    r ← load_names (length (si_names s)) img 0 false;
    if negb (r.1 =? 0) then mret (-1)
    else
      s ← get_simage img;
      z ← (if r.2 : bool then save_image s else mret 0);
      if negb (z =? 0) then mret (-1)
      else
        z ← implicit_digest img;
        if negb (z =? 0) then mret (-1)
        else z ← explicit_digest img; mret (if negb (z =? 0) then -1 else 0).

Definition do_append_image (im : storage_image) : S Z :=
  img ← new_image im;
  if decide (img = NULL) then mret (-1)
  else if negb (ie_node E) then free_image_t img;; mret (-1)
  else
    modify (fun st => put_images_list (images_list st ++ [img]) (wrap_u 64 (images_list_len st + 1)) st);;
    z ← load_image_to_store_field img;
    mret (if negb (z =? 0) then -1 else 0).

(** ** Summaries *)

Definition get_image_summary (s : storage_image) : option img_summary :=
  if ie_summary E s then Some (ImgSummary (si_id s) (si_layer s) (si_size s)) else None.
Definition image_store_get_image_summary (id : option cstr) : S (option img_summary) := with_image id None get_image_summary.
(** [image_store_get_image], of which the id, the top layer and the size are kept. *)
Definition image_store_get_image (id : option cstr) : S (option img_summary) :=
  with_image id None (fun s => if ie_info E s then Some (ImgSummary (si_id s) (si_layer s) (si_size s)) else None).

(** Images without a summary are left out. *)
Fixpoint summaries (imgs : list N) : S (list img_summary) :=
  match imgs with
  | [] => mret []
  | img :: imgs =>
      s ← get_simage img;
      l ← summaries imgs;
      mret (match get_image_summary s with Some i => i :: l | None => l end)
  end.
Definition image_store_get_all_images : S (Z * list img_summary) :=
  if negb (ie_lock E) then mret (-1, [])
  else
    len ← gets images_list_len;
    if len =? 0 then mret (0, [])
    else if negb (ie_list E) then mret (-1, [])
    else imgs ← gets images_list; l ← summaries imgs; mret (0, l).

(** ** Sizes of big data *)

Definition image_store_big_data (id key : option cstr) : S (option cstr) :=
  match id, key with
  | Some _, Some k =>
      if (String.length (cstr_str k) =? 0)%nat then mret None else with_image id None (fun s => ie_content E (si_id s) k)
  | _, _ => mret None
  end.
Definition big_data_size (s : storage_image) (key : cstr) : option Z :=
  m ← big_data_sizes s; get_value_from_json_map_string_int64 m key.
(** The status and the size, which stays -1 when it is not in the map. *)
Definition get_size_with_update_big_data (id key : cstr) : S (Z * Z) :=
  data ← image_store_big_data (Some id) (Some key);
  match data with
  | None => mret (-1, -1)
  | Some data =>
      z ← image_store_set_big_data (Some id) (Some key) data;
      if negb (z =? 0) then mret (-1, -1)
      else with_image (Some id) (-1, -1) (fun s => (0, default (-1) (big_data_size s key)))
  end.
Definition image_store_big_data_size (id key : cstr) : S Z :=
  if (String.length (cstr_str key) =? 0)%nat then mret (-1)
  else
    known ← with_image (Some id) None (fun s => Some (big_data_size s key));
    match known with
    | None => mret (-1)
    | Some (Some size) => mret size
    | Some None => r ← get_size_with_update_big_data id key; mret r.2
    end.
End image_store.
Arguments image_store : clear implicits.
