(* ===== verification/ImageStoreInv.v ===== *)
(** The store of images stays consistent: the indices agree with the images, a name belongs
    to one image, no image is used after it has been freed, and deleting an image removes
    every trace of it. *)
From S2P Require Import Prelude Heap RbSearch KeyOrders MapC MapIface RestartManager ContainersStore ContainersStoreProps Effects ImageStore.

Open Scope Z_scope.

Section image_store.
Context {MI MG MB : Type} {cmp : cstr -> cstr -> Z} `{!KeyOrder cmp}.
Context {opsI : MapOps cstr N MI} `{!MapLaws cmp opsI}.
Context {opsG : MapOps cstr N MG} `{!MapLaws cmp opsG}.
Context {opsB : MapOps cstr bool MB} `{!MapLaws cmp opsB}.
Abbreviation image_store := (image_store MI MG).
Implicit Types (st : image_store) (own : list N).

(** The description of the image at an address. *)
Definition sim st (p : N) : option storage_image := simage <$> is_images st !! p.

(** ** Consistency *)

(** The references: one for the list, and those of the running call. *)
Definition refs st own (p : N) : nat := (if decide (p ∈ images_list st) then 1 else 0) + occ p own.

Record refs_ok own st : Prop := {
  ro_nodup : NoDup (images_list st);
  ro_null : refs st own NULL = 0%nat;
  ro_refs p : match is_images st !! p with
              | Some i => img_refcnt i = Z.of_nat (refs st own p) /\ refs st own p <> 0%nat
              | None => refs st own p = 0%nat
              end;
  ro_len : images_list_len st = wrap_u 64 (Z.of_nat (length (images_list st)));
  ro_few : (length own <= 8)%nat
}.

(** The digests under which an image may be found. *)
Definition digest_of (s : storage_image) (d : cstr) : Prop :=
  si_digest s = Some d \/ get_value (big_data_digests s) IMAGE_DIGEST_BIG_DATA_KEY = Some d.

Definition names_of st (p : N) : list cstr := match sim st p with Some s => si_names s | None => [] end.

(** The index of digests lists an image under a digest. *)
Definition occurs st (p : N) (d : cstr) : Prop :=
  exists q l, mo_abs (bydigest st) !! d = Some q /\ is_digests st !! q = Some l /\ p ∈ l.

Record dig_wf st : Prop := {
  dw_wf : mo_wf (bydigest st);
  dw_live d q : mo_abs (bydigest st) !! d = Some q -> is_Some (is_digests st !! q);
  dw_inj d1 d2 q : mo_abs (bydigest st) !! d1 = Some q -> mo_abs (bydigest st) !! d2 = Some q -> d1 = d2
}.

(** The index of names, for the names [nm]. *)
Record names_ok (nm : N -> list cstr) st : Prop := {
  nx_wf : mo_wf (byname st);
  nx_name n p : mo_abs (byname st) !! n = Some p <-> p ∈ images_list st /\ n ∈ nm p
}.

(** The index of ids and that of digests agree with the images of the list. *)
Record index_ok st : Prop := {
  ix_wf : mo_wf (byid st);
  ix_id i p : mo_abs (byid st) !! i = Some p <-> p ∈ images_list st /\ si_id <$> sim st p = Some i;
  ix_nodup p : p ∈ images_list st -> NoDup (names_of st p);
  ix_dig : dig_wf st;
  ix_occurs p d : occurs st p d -> p ∈ images_list st /\ exists s, sim st p = Some s /\ digest_of s d
}.

Definition is_inv own st : Prop := refs_ok own st /\ names_ok (names_of st) st /\ index_ok st.

(** A step that changes nothing but reference counts; images may have been freed. *)
Record only_refs st st' : Prop := {
  or_list : images_list st' = images_list st;
  or_len : images_list_len st' = images_list_len st;
  or_byid : byid st' = byid st;
  or_byname : byname st' = byname st;
  or_bydigest : bydigest st' = bydigest st;
  or_digests : is_digests st' = is_digests st;
  or_disk : is_disk st' = is_disk st;
  or_sim p : is_Some (sim st' p) -> sim st' p = sim st p
}.

#[export] Instance only_refs_preorder : PreOrder only_refs.
Proof.
  split; [by intros st; split|]. intros s1 s2 s3 H1 H2.
  split; [destruct H1, H2; congruence..|]. intros p Hp. rewrite (or_sim _ _ H2 p Hp).
  apply (or_sim _ _ H1). by rewrite <-(or_sim _ _ H2 p Hp).
Qed.

Lemma refs_live own st p : refs_ok own st -> refs st own p <> 0%nat -> is_Some (sim st p).
Proof.
  intros Hr Hp. pose proof (ro_refs _ _ Hr p) as H. unfold sim. destruct (is_images st !! p); [by eexists|done].
Qed.

Lemma refs_listed own st p : p ∈ images_list st -> refs st own p <> 0%nat.
Proof. intros H. unfold refs. rewrite decide_True by done. lia. Qed.

Lemma refs_owned own st p : p ∈ own -> refs st own p <> 0%nat.
Proof.
  intros H. unfold refs, occ. assert (p ∈ filter (eq p) own) as Hin by by apply list_elem_of_filter.
  destruct (filter (eq p) own); [by apply not_elem_of_nil in Hin|]. cbn. lia.
Qed.

Lemma occ_cons_eq p q own : occ q (p :: own) = ((if decide (q = p) then 1 else 0) + occ q own)%nat.
Proof. unfold occ. rewrite filter_cons. by repeat case_decide. Qed.

Lemma refs_cons st own p q :
  refs st (p :: own) q = ((if decide (q = p) then 1 else 0) + refs st own q)%nat.
Proof. unfold refs. rewrite occ_cons_eq. lia. Qed.

Lemma refs_bound own st p : refs_ok own st -> (refs st own p <= 9)%nat.
Proof.
  intros Hr. unfold refs. pose proof (occ_le p own). pose proof (ro_few _ _ Hr). case_decide; lia.
Qed.

Lemma sim_only_refs own st st' p :
  only_refs st st' -> refs_ok own st' -> p ∈ images_list st -> sim st' p = sim st p.
Proof.
  intros Ho Hr Hp. apply (or_sim _ _ Ho). eapply refs_live; [done|]. apply refs_listed. by rewrite (or_list _ _ Ho).
Qed.

Lemma index_only_refs own st st' :
  only_refs st st' -> refs_ok own st' -> index_ok st -> index_ok st'.
Proof.
  intros Ho Hr [H1 H2 H3 [H4 H5 H6] H7].
  assert (forall p, p ∈ images_list st -> sim st' p = sim st p) as Hs by eauto using sim_only_refs.
  destruct Ho. assert (dig_wf st') by (split; rewrite ?or_bydigest0, ?or_digests0; done).
  split; unfold occurs, names_of in *;
    rewrite ?or_byid0, ?or_byname0, ?or_bydigest0, ?or_digests0, ?or_list0; try done.
  - intros i p. rewrite H2. split; intros [Hp Hx]; (split; [done|]); by rewrite Hs in * by done.
  - intros p Hp. rewrite Hs by done. auto.
  - intros p d Hd. destruct (H7 p d Hd) as [Hp Hx]. by rewrite Hs.
Qed.

Lemma names_only_refs own st st' :
  only_refs st st' -> refs_ok own st' -> names_ok (names_of st) st -> names_ok (names_of st') st'.
Proof.
  intros Ho Hr [H1 H2]. pose proof (fun p => sim_only_refs own st st' p Ho Hr) as Hs.
  split; rewrite ?(or_byname _ _ Ho), ?(or_list _ _ Ho); [done|].
  intros n p. rewrite H2. split; intros [Hp Hx]; (split; [done|]); unfold names_of in *; by rewrite Hs in * by done.
Qed.

Lemma inv_only_refs own own' st st' :
  only_refs st st' -> refs_ok own' st' -> is_inv own st -> is_inv own' st'.
Proof. intros Ho Hr (_ & Hn & Hx). split_and!; [done|by eapply names_only_refs|by eapply index_only_refs]. Qed.

(** ** References *)

Lemma ref_inc_spec own st p :
  refs_ok own st -> refs st own p <> 0%nat -> (length own < 8)%nat ->
  wp (image_ref_inc p) (fun _ st' => refs_ok (p :: own) st' /\ only_refs st st') st.
Proof.
  intros Hr Hp Hlen. unfold image_ref_inc.
  assert (p <> NULL) as Hn by (intros ->; by rewrite (ro_null _ _ Hr) in Hp). rewrite decide_False by done.
  apply wp_mbind, wp_gets. pose proof (ro_refs _ _ Hr p) as Hpr. pose proof (refs_bound own st p Hr) as Hb.
  destruct (is_images st !! p) as [i|] eqn:Hi; [|done]. destruct Hpr as [Hc _].
  apply wp_mbind. eapply wp_lift; [done|]. apply wp_modify. split.
  - split; cbn; try apply Hr.
    + change (refs st (p :: own) NULL = 0%nat). rewrite refs_cons, decide_False by done. apply Hr.
    + intros q. change (refs _ (p :: own) q) with (refs st (p :: own) q). rewrite refs_cons.
      destruct (decide (q = p)) as [->|Hne].
      * rewrite lookup_insert_eq. cbn. unfold atomic_int_inc. rewrite Hc, wrap_u_small by lia. lia.
      * rewrite lookup_insert_ne by done. apply (ro_refs _ _ Hr q).
    + lia.
  - split; try done. intros q _. unfold sim. cbn. destruct (decide (q = p)) as [->|Hne].
    + by rewrite lookup_insert_eq, Hi.
    + by rewrite lookup_insert_ne.
Qed.

Lemma ref_dec_spec own st p :
  refs_ok (p :: own) st ->
  wp (image_ref_dec p) (fun _ st' => refs_ok own st' /\ only_refs st st') st.
Proof.
  intros Hr. unfold image_ref_dec.
  assert (refs st (p :: own) p = S (refs st own p)) as Hp by by rewrite refs_cons, decide_True.
  assert (p <> NULL) as Hn by (intros ->; by rewrite (ro_null _ _ Hr) in Hp). rewrite decide_False by done.
  apply wp_mbind, wp_gets. pose proof (ro_refs _ _ Hr p) as Hpr. pose proof (refs_bound _ st p Hr) as Hb.
  destruct (is_images st !! p) as [i|] eqn:Hi; [|lia]. destruct Hpr as [Hc _].
  apply wp_mbind. eapply wp_lift; [done|]. unfold atomic_int_dec_test. rewrite Hc, wrap_u_small by lia.
  assert (Z.of_nat (refs st (p :: own) p) - 1 = Z.of_nat (refs st own p)) as -> by lia.
  assert (forall st', images_list st' = images_list st -> images_list_len st' = images_list_len st ->
    (forall q, q <> p -> is_images st' !! q = is_images st !! q) ->
    match is_images st' !! p with
    | Some i => img_refcnt i = Z.of_nat (refs st own p) /\ refs st own p <> 0%nat
    | None => refs st own p = 0%nat
    end -> refs_ok own st') as Hok.
  { intros st' El En Hq Hp'. assert (forall q, refs st' own q = refs st own q) as Er
      by (intros q; unfold refs; by rewrite El).
    split; rewrite ?El, ?En; try apply Hr.
    - rewrite Er. pose proof (ro_null _ _ Hr) as H0. rewrite refs_cons in H0. lia.
    - intros q. rewrite Er. destruct (decide (q = p)) as [->|Hne]; [done|].
      rewrite Hq by done. pose proof (ro_refs _ _ Hr q) as Hrq. by rewrite refs_cons, decide_False in Hrq by done.
    - pose proof (ro_few _ _ Hr) as Hf. cbn in Hf. lia. }
  apply wp_mbind, wp_modify. destruct (Z.eqb_spec (Z.of_nat (refs st own p)) 0) as [Hz|Hz].
  - unfold free_image_t. rewrite decide_False by done. apply wp_mbind, wp_gets. cbn.
    apply wp_mbind. eapply wp_lift; [apply lookup_insert_eq|]. apply wp_modify. split.
    + apply Hok; cbn; try done.
      * intros q Hq. by rewrite lookup_delete_ne, lookup_insert_ne by done.
      * rewrite lookup_delete_eq. lia.
    + split; try done. intros q. unfold sim. cbn. destruct (decide (q = p)) as [->|Hne].
      * rewrite lookup_delete_eq. by intros [].
      * by rewrite lookup_delete_ne, lookup_insert_ne.
  - apply wp_mret. split.
    + apply Hok; cbn; try done.
      * intros q Hq. by rewrite lookup_insert_ne by done.
      * rewrite lookup_insert_eq. cbn. lia.
    + split; try done. intros q _. unfold sim. cbn. destruct (decide (q = p)) as [->|Hne].
      * by rewrite lookup_insert_eq, Hi.
      * by rewrite lookup_insert_ne.
Qed.

Context (E : img_env).

(** The image an identifier stands for: its id, one of its names, a prefix of its id. *)
Definition resolve st (id : cstr) : option N :=
  match mo_abs (byid st) !! id with
  | Some p => Some p
  | None =>
      match mo_abs (byname st) !! id with
      | Some p => Some p
      | None => if ie_itor E then find_prefix id (mo_elements (byid st)) NULL else None
      end
  end.

Lemma listed_not_null own st p : refs_ok own st -> p ∈ images_list st -> p <> NULL.
Proof. intros Hr Hp ->. pose proof (refs_listed own st NULL Hp). by rewrite (ro_null _ _ Hr) in *. Qed.

Lemma resolve_listed own st id p :
  is_inv own st -> resolve st id = Some p -> p <> NULL -> p ∈ images_list st.
Proof.
  intros (Hr & Hn & Hx) Hp Hnn. unfold resolve in Hp.
  destruct (mo_abs (byid st) !! id) as [p'|] eqn:Hid; [simplify_eq; by apply (ix_id _ Hx) in Hid as [? _]|].
  destruct (mo_abs (byname st) !! id) as [p'|] eqn:Hnm; [simplify_eq; by apply (nx_name _ _ Hn) in Hnm as [? _]|].
  destruct (ie_itor E); [|done]. apply find_prefix_elem in Hp as [->|[i Hi]]; [done|].
  apply elem_of_mo_elements in Hi; [|apply Hx]. by apply (ix_id _ Hx) in Hi as [? _].
Qed.

Lemma lookup_spec own st id :
  is_inv own st -> (length own < 8)%nat ->
  wp (lookup E id) (fun p st' => p = default NULL (resolve st id) /\ only_refs st st' /\
    (p = NULL /\ st' = st \/ p <> NULL /\ p ∈ images_list st /\ is_inv (p :: own) st')) st.
Proof.
  intros Hi Hlen. pose proof Hi as (Hr & Hn & Hx). unfold lookup.
  apply wp_mbind, wp_gets, wp_mbind, wp_gets, wp_mbind.
  assert (wp (match mo_search id (byid st) with
     | Some img => mret img
     | None => match mo_search id (byname st) with
               | Some img => mret img
               | None => get_image_for_store_by_prefix E id end
     end) (fun p st' => p = default NULL (resolve st id) /\ st' = st) st) as Hw.
  { rewrite (mo_search_ok id _ (ix_wf _ Hx)), (mo_search_ok id _ (nx_wf _ _ Hn)). unfold resolve.
    destruct (mo_abs (byid st) !! id); [by apply wp_mret|].
    destruct (mo_abs (byname st) !! id); [by apply wp_mret|].
    unfold get_image_for_store_by_prefix. destruct (ie_itor E); cbn; [|by apply wp_mret].
    by apply wp_mbind, wp_gets, wp_mret. }
  eapply wp_conseq; [exact Hw|]. clear Hw. intros p st' [Hp ->]. apply wp_mbind.
  destruct (decide (p = NULL)) as [->|Hnn].
  { unfold image_ref_inc. rewrite decide_True by done. apply wp_mret, wp_mret. split_and!; [done..|]. by left. }
  assert (p ∈ images_list st) as Hl.
  { apply (resolve_listed own st id); [done| |done]. subst p. destruct (resolve st id); [done|by destruct Hnn]. }
  eapply wp_conseq; [eapply ref_inc_spec; [done|by apply refs_listed|done]|].
  intros _ st' [Hr' Ho]. apply wp_mret. split_and!; [done..|]. right. split_and!; [done..|].
  by eapply inv_only_refs.
Qed.

(** Dropping the reference of the call. *)
Lemma drop_spec own st p :
  is_inv (p :: own) st -> wp (image_ref_dec p) (fun _ st' => is_inv own st' /\ only_refs st st') st.
Proof.
  intros Hi. eapply wp_conseq; [apply (ref_dec_spec own), Hi|]. intros _ st' [Hr Ho].
  split; [by eapply inv_only_refs|done].
Qed.

Lemma ref_dec_null st (Q : unit -> image_store -> Prop) : Q tt st -> wp (image_ref_dec NULL) Q st.
Proof. intros H. unfold image_ref_dec. rewrite decide_True by done. by apply wp_mret. Qed.

(** ** Descriptions *)

Lemma get_simage_spec st p s (Q : storage_image -> image_store -> Prop) :
  sim st p = Some s -> Q s st -> wp (get_simage p) Q st.
Proof.
  intros Hs HQ. unfold sim in Hs. destruct (is_images st !! p) as [i|] eqn:Hi; [|done]. cbn in Hs. simplify_eq.
  unfold get_simage. apply wp_mbind, wp_gets, wp_mbind. eapply wp_lift; [done|]. by apply wp_mret.
Qed.

(** The image at [p] described by [s]. *)
Definition describe (p : N) (s : storage_image) st : image_store :=
  put_images (alter (fun i => Image (img_refcnt i) s) p (is_images st)) st.

Lemma set_simage_spec st p s (Q : unit -> image_store -> Prop) :
  is_Some (sim st p) -> Q tt (describe p s st) -> wp (set_simage p s) Q st.
Proof.
  intros [s0 Hs] HQ. unfold sim in Hs. destruct (is_images st !! p) as [i|] eqn:Hi; [|done].
  unfold set_simage. apply wp_mbind, wp_gets, wp_mbind. eapply wp_lift; [done|]. apply wp_modify.
  replace (put_images _ st) with (describe p s st); [done|]. unfold describe. f_equal.
  apply map_eq. intros q. destruct (decide (q = p)) as [->|Hne].
  - by rewrite lookup_alter_eq, lookup_insert_eq, Hi.
  - by rewrite lookup_alter_ne, lookup_insert_ne by done.
Qed.

Lemma sim_describe p s st q :
  sim (describe p s st) q = if decide (q = p) then (fun _ => s) <$> sim st p else sim st q.
Proof.
  unfold sim. cbn. case_decide as Hq; [subst; rewrite lookup_alter_eq|by rewrite lookup_alter_ne by done].
  by destruct (is_images st !! p).
Qed.

Lemma sim_describe_eq p s s0 st : sim st p = Some s0 -> sim (describe p s st) p = Some s.
Proof. intros H. by rewrite sim_describe, decide_True, H. Qed.

Lemma refs_describe own p s st : refs_ok own st -> refs_ok own (describe p s st).
Proof.
  intros Hr. split; try apply Hr. intros q. change (refs (describe p s st) own q) with (refs st own q). cbn.
  pose proof (ro_refs _ _ Hr q) as Hq. destruct (decide (q = p)) as [->|Hne].
  - rewrite lookup_alter_eq. by destruct (is_images st !! p).
  - by rewrite lookup_alter_ne by done.
Qed.

(** A description that keeps what the indices are about. *)
Lemma inv_describe own p s s0 st :
  is_inv own st -> sim st p = Some s0 ->
  si_id s = si_id s0 -> si_names s = si_names s0 -> (forall d, occurs st p d -> digest_of s d) ->
  is_inv own (describe p s st).
Proof.
  intros (Hr & [N1 N2] & [H1 H2 H3 H4 H5]) Hs Eid En Hd.
  assert (forall q, si_id <$> sim (describe p s st) q = si_id <$> sim st q) as Ei.
  { intros q. rewrite sim_describe. case_decide; [subst; rewrite Hs; cbn; congruence|done]. }
  assert (forall q, names_of (describe p s st) q = names_of st q) as Enm.
  { intros q. unfold names_of. rewrite sim_describe. case_decide; [subst; by rewrite Hs|done]. }
  split_and!; [by apply refs_describe| |].
  - split; [done|]. intros n q. rewrite Enm. apply N2.
  - split; [done| | |by destruct H4|].
    + intros i q. rewrite Ei. apply H2.
    + intros q. rewrite Enm. apply H3.
    + intros q d Hq. destruct (H5 q d Hq) as [Hl Hx]. split; [done|]. rewrite sim_describe.
      case_decide; [subst|done]. rewrite Hs. eexists. split; [done|]. by apply Hd.
Qed.

(** ** The index of digests *)

Lemma ids_of_spec st l (Q : list (N * cstr) -> image_store -> Prop) :
  (forall p, p ∈ l -> is_Some (sim st p)) ->
  (forall r, r.*1 = l -> (forall x, x ∈ r -> si_id <$> sim st x.1 = Some x.2) -> Q r st) ->
  wp (ids_of l) Q st.
Proof.
  revert Q. induction l as [|p l IH]; intros Q Hl HQ; cbn.
  { apply wp_mret, HQ; [done|]. intros x Hx. by apply not_elem_of_nil in Hx. }
  destruct (Hl p) as [s Hs]; [by left|]. apply wp_mbind. eapply get_simage_spec; [done|].
  apply wp_mbind, IH; [intros q Hq; apply Hl; by right|]. intros r Hr Hx. apply wp_mret, HQ; [by rewrite fmap_cons, Hr|].
  intros x [->|Hin]%elem_of_cons; [cbn; by rewrite Hs|auto].
Qed.

(** The images of an object of the index without one of them. *)
Lemma slice_without_spec st q l p s (Q : unit -> image_store -> Prop) :
  is_digests st !! q = Some l -> sim st p = Some s ->
  (forall p', p' ∈ l -> is_Some (sim st p') /\ (si_id <$> sim st p' = Some (si_id s) -> p' = p)) ->
  (forall l', (forall p', p' ∈ l' <-> p' ∈ l /\ p' <> p) ->
     Q tt (put_bydigest (bydigest st) (<[q := l']> (is_digests st)) st)) ->
  wp (digest_image_slice_without_value q p) Q st.
Proof.
  intros Hq Hs Hl HQ. unfold digest_image_slice_without_value. apply wp_mbind, wp_gets, wp_mbind.
  eapply wp_lift; [done|]. apply wp_mbind. eapply get_simage_spec; [done|]. apply wp_mbind, ids_of_spec.
  { intros p' Hp'. by apply Hl. }
  intros r Hr Hx. apply wp_modify, HQ. intros p'. rewrite list_elem_of_fmap. split.
  - intros ([p0 i] & -> & [Hi Hin]%list_elem_of_filter). cbn in *. split; [by rewrite <-Hr; apply (list_elem_of_fmap_2 fst _ (p0, i))|].
    intros ->. apply Hx in Hin. cbn in Hin. rewrite Hs in Hin. cbn in Hin. congruence.
  - intros [Hin Hne]. rewrite <-Hr in Hin. apply list_elem_of_fmap in Hin as ([p0 i] & -> & Hin). cbn in *.
    exists (p0, i). split; [done|]. apply list_elem_of_filter. split; [|done]. cbn. intros ->. apply Hne.
    apply Hl; [rewrite <-Hr; apply (list_elem_of_fmap_2 fst _ (p0, si_id s)), Hin|]. by apply Hx in Hin.
Qed.

Lemma dig_wf_put st q l : dig_wf st -> dig_wf (put_bydigest (bydigest st) (<[q := l]> (is_digests st)) st).
Proof.
  intros [H1 H2 H3]. split; cbn; [done| |done]. intros d q' Hd.
  destruct (decide (q' = q)) as [->|]; [rewrite lookup_insert_eq; eauto|rewrite lookup_insert_ne by done; eauto].
Qed.

(** What an object's new content does to the index. *)
Lemma occurs_put st d q l p' d' :
  dig_wf st -> mo_abs (bydigest st) !! d = Some q ->
  occurs (put_bydigest (bydigest st) (<[q := l]> (is_digests st)) st) p' d' <->
    if decide (d' = d) then p' ∈ l else occurs st p' d'.
Proof.
  intros Hw Hd. unfold occurs. cbn. case_decide as Hdd.
  - subst. split; [|intros Hl; exists q, l; by rewrite lookup_insert_eq].
    intros (q' & l' & Hq & Hl & Hin). simplify_eq. rewrite lookup_insert_eq in Hl. by simplify_eq.
  - split; intros (q' & l' & Hq & Hl & Hin); exists q', l'; (split; [done|]);
      (assert (q' <> q) by (intros ->; by eapply Hdd, dw_inj)); rewrite lookup_insert_ne in * by done; done.
Qed.

(** The effect of an operation on the index of digests: [occ'] is what is listed. *)
Definition digests_become (occ' : N -> cstr -> Prop) st st' : Prop :=
  exists m h, st' = put_bydigest m h st /\ dig_wf st' /\ forall p d, occurs st' p d <-> occ' p d.

Lemma digests_same st : dig_wf st -> digests_become (occurs st) st st.
Proof. intros H. exists (bydigest st), (is_digests st). split; [by destruct st|done]. Qed.

(** The images found under a digest are live and have ids of their own. *)
Definition apart st (p : N) (s : storage_image) (d : cstr) : Prop :=
  forall p', occurs st p' d -> is_Some (sim st p') /\ (si_id <$> sim st p' = Some (si_id s) -> p' = p).

Lemma remove_digest_spec st p s d :
  dig_wf st -> sim st p = Some s -> apart st p s d ->
  wp (remove_image_from_digest_index p d) (fun z st' => z = 0 /\
    digests_become (fun p' d' => occurs st p' d' /\ ~ (p' = p /\ d' = d)) st st') st.
Proof.
  intros Hw Hs Hap. unfold remove_image_from_digest_index. apply wp_mbind, wp_gets.
  rewrite (mo_search_ok d _ (dw_wf _ Hw)). destruct (mo_abs (bydigest st) !! d) as [q|] eqn:Hd.
  2: { apply wp_mret. split; [done|]. exists (bydigest st), (is_digests st). split; [by destruct st|]. split; [done|].
       intros p' d'. split; [|tauto]. intros Ho. split; [done|]. intros [-> ->].
       destruct Ho as (q & l & Hq & _). congruence. }
  destruct (dw_live _ Hw d q Hd) as [l Hl]. apply wp_mbind.
  eapply slice_without_spec; [done..| |].
  { intros p' Hp'. apply Hap. by exists q, l. }
  intros l' Hl'. apply wp_mbind, wp_gets. cbn. apply wp_mbind. eapply wp_lift; [apply lookup_insert_eq|].
  pose proof (fun p' d' => occurs_put st d q l' p' d' Hw Hd) as Ho.
  assert (forall p' d', occurs (put_bydigest (bydigest st) (<[q := l']> (is_digests st)) st) p' d' <->
    occurs st p' d' /\ ~ (p' = p /\ d' = d)) as Ho'.
  { intros p' d'. rewrite Ho. case_decide as Hdd; [subst|naive_solver]. rewrite Hl'. split.
    - intros [? ?]. split; [by exists q, l|naive_solver].
    - intros [(q' & l0 & ? & ? & ?) ?]. simplify_eq. naive_solver. }
  destruct l' as [|p0 l'].
  - destruct (mo_remove_abs d (bydigest st) (dw_wf _ Hw)) as [Hm Hok].
    pose proof (mo_wf_remove d _ (dw_wf _ Hw)) as Hmw.
    destruct (mo_remove d (bydigest st)) as [ok m] eqn:Em. cbn in *. rewrite Hd in Hok.
    rewrite bool_decide_eq_true_2 in Hok by eauto. subst ok. apply wp_mbind, wp_modify, wp_mret. split; [done|].
    eexists m, _. split; [done|]. split.
    + split; cbn; rewrite ?Hm; [done| |].
      * intros d' q' [Hne Hd']%lookup_delete_Some. rewrite lookup_delete_ne, lookup_insert_ne; [by eapply dw_live|..];
          intros ->; eapply Hne, dw_inj; done.
      * intros d1 d2 q' [_ H1]%lookup_delete_Some [_ H2]%lookup_delete_Some. by eapply dw_inj.
    + intros p' d'. rewrite <-Ho', Ho. unfold occurs. cbn. rewrite Hm. case_decide as Hdd.
      * subst. split; [|by intros ?%not_elem_of_nil]. intros (q' & l0 & Hq' & _). by rewrite lookup_delete_eq in Hq'.
      * rewrite lookup_delete_ne by done.
        split; intros (q' & l0 & Hq' & Hl0 & Hin); exists q', l0; (split; [done|]);
          (assert (q' <> q) by (intros ->; by eapply Hdd, dw_inj));
          rewrite lookup_delete_ne, lookup_insert_ne in * by done; done.
  - apply wp_mret. split; [done|]. eexists _, _. split; [done|]. split; [by apply dig_wf_put|done].
Qed.

(** ** The index of names *)

Lemma remove_names_spec st names :
  mo_wf (byname st) -> NoDup names -> (forall n, n ∈ names -> is_Some (mo_abs (byname st) !! n)) ->
  wp (remove_names names) (fun z st' => z = 0 /\ exists m, st' = put_byname m st /\ mo_wf m /\
    forall n, mo_abs m !! n = if decide (n ∈ names) then None else mo_abs (byname st) !! n) st.
Proof.
  revert st. induction names as [|n names IH]; intros st Hw Hnd Hin; cbn.
  { apply wp_mret. split; [done|]. exists (byname st). by destruct st. }
  apply NoDup_cons in Hnd as [Hn Hnd]. apply wp_mbind, wp_gets.
  destruct (mo_remove_abs n (byname st) Hw) as [Hm Hok]. pose proof (mo_wf_remove n _ Hw) as Hmw.
  destruct (mo_remove n (byname st)) as [ok m] eqn:Em. cbn in *.
  rewrite bool_decide_eq_true_2 in Hok by (apply Hin; by left). subst ok. apply wp_mbind, wp_modify.
  eapply wp_conseq; [apply IH; [done|done|]|].
  { cbn. intros n' Hn'. rewrite Hm, lookup_delete_ne by (by intros ->). apply Hin. by right. }
  intros z st' (-> & m' & -> & Hm'w & Hm'). split; [done|]. exists m'. split_and!; [done..|].
  intros n'. rewrite Hm'. cbn. rewrite Hm. destruct (decide (n' = n)) as [->|Hne].
  - rewrite (decide_False (P := n ∈ names)), decide_True by (done || by left). apply lookup_delete_eq.
  - rewrite lookup_delete_ne by done. repeat case_decide; set_solver.
Qed.

(** ** Removing an image *)

Lemma unlist_spec id p s a1 a2 before st (Q : unit -> image_store -> Prop) :
  (forall q, q ∈ a1 -> exists s', sim st q = Some s' /\ si_id s' <> id) ->
  sim st p = Some s -> si_id s = id ->
  wp (image_ref_dec p) Q (put_images_list (before ++ a1 ++ a2) (wrap_u 64 (images_list_len st - 1)) st) ->
  wp (unlist id before (a1 ++ p :: a2)) Q st.
Proof.
  intros Ha Hs Hid. revert before. induction a1 as [|q a1 IH]; intros before HQ; cbn.
  - apply wp_mbind. eapply get_simage_spec; [done|]. rewrite decide_True by done. by apply wp_mbind, wp_modify.
  - destruct (Ha q) as (s' & Hs' & Hne); [by left|]. apply wp_mbind. eapply get_simage_spec; [done|].
    rewrite decide_False by done. apply IH; [|by rewrite <-app_assoc].
    intros q' Hq'. apply Ha. by right.
Qed.

(** The reference of the list goes to the call. *)
Lemma refs_unlist own st l1 p l2 :
  refs_ok own st -> images_list st = l1 ++ p :: l2 -> (length own < 8)%nat ->
  refs_ok (p :: own) (put_images_list (l1 ++ l2) (wrap_u 64 (images_list_len st - 1)) st).
Proof.
  intros Hr El Hlen. pose proof (ro_nodup _ _ Hr) as Hnd. rewrite El in Hnd.
  apply NoDup_app in Hnd as (Hn1 & Hd & [Hp Hn2]%NoDup_cons).
  assert (forall q, refs (put_images_list (l1 ++ l2) (wrap_u 64 (images_list_len st - 1)) st) (p :: own) q =
                    refs st own q) as Er.
  { intros q. rewrite refs_cons. unfold refs. cbn. rewrite El.
    destruct (decide (q = p)) as [->|Hne].
    - rewrite (decide_True (P := p ∈ l1 ++ p :: l2)) by set_solver. rewrite decide_False by set_solver. lia.
    - destruct (decide (q ∈ l1 ++ l2)), (decide (q ∈ l1 ++ p :: l2)); try lia; set_solver. }
  split; cbn.
  - apply NoDup_app. split_and!; [done| |done]. intros q Hq1 Hq2. by apply (Hd q Hq1), elem_of_cons; right.
  - rewrite Er. apply Hr.
  - intros q. rewrite Er. apply (ro_refs _ _ Hr q).
  - rewrite (ro_len _ _ Hr), El. unfold wrap_u. rewrite Zminus_mod_idemp_l. f_equal. rewrite !length_app. cbn. lia.
  - lia.
Qed.

(** [st'] is [st] without the image [p], described by [s]. *)
Record removed (p : N) (s : storage_image) st st' : Prop := {
  rm_list : images_list st' = filter (fun q => q <> p) (images_list st);
  rm_byid : mo_abs (byid st') = delete (si_id s) (mo_abs (byid st));
  rm_byname n : mo_abs (byname st') !! n =
    if decide (n ∈ si_names s) then None else mo_abs (byname st) !! n;
  rm_occurs q d : occurs st' q d <-> occurs st q d /\ q <> p;
  rm_sim q : q ∈ images_list st -> q <> p -> sim st' q = sim st q
}.

Lemma filter_split (l1 l2 : list N) p :
  NoDup (l1 ++ p :: l2) -> filter (fun q => q <> p) (l1 ++ p :: l2) = l1 ++ l2.
Proof.
  intros (Hn1 & Hd & [Hp Hn2]%NoDup_cons)%NoDup_app. rewrite filter_app, filter_cons, decide_False by naive_solver.
  assert (forall l : list N, p ∉ l -> filter (fun q => q <> p) l = l) as Hf.
  { intros l Hl. induction l as [|q l IH]; [done|]. rewrite filter_cons, decide_True by set_solver. f_equal. apply IH. set_solver. }
  rewrite !Hf; [done|done|]. intros H. apply (Hd p H), elem_of_cons. by left.
Qed.

Lemma remove_digest_opt_spec st p s o :
  dig_wf st -> sim st p = Some s -> (forall d, o = Some d -> apart st p s d) ->
  wp (match o with Some d => remove_image_from_digest_index p d | None => mret 0 end) (fun z st' => z = 0 /\
    digests_become (fun p' d' => occurs st p' d' /\ ~ (p' = p /\ o = Some d')) st st') st.
Proof.
  intros Hw Hs Hap. destruct o as [d|].
  - eapply wp_conseq; [eapply remove_digest_spec; eauto|]. intros z st' (-> & m & h & -> & Hw' & Ho).
    split; [done|]. exists m, h. split_and!; [done..|]. intros p' d'. rewrite Ho. naive_solver.
  - apply wp_mret. split; [done|]. exists (bydigest st), (is_digests st). split_and!; [by destruct st|done|].
    intros p' d'. naive_solver.
Qed.
End image_store.
