(* ===== verification/ImageStoreProps.v ===== *)
(** The operations of the store of images keep it consistent: the indices agree with the
    images, a name belongs to one image, no image is used after it has been freed, and
    deleting an image removes every trace of it. *)
From S2P Require Import Prelude Heap RbSearch KeyOrders MapC MapIface RestartManager ContainersStore ContainersStoreProps Effects ImageStore ImageStoreInv.

Open Scope Z_scope.

Section image_store.
Context {MI MG MB : Type} {cmp : cstr -> cstr -> Z} `{!KeyOrder cmp}.
Context {opsI : MapOps cstr N MI} `{!MapLaws cmp opsI}.
Context {opsG : MapOps cstr N MG} `{!MapLaws cmp opsG}.
Context {opsB : MapOps cstr bool MB} `{!MapLaws cmp opsB}.
Abbreviation image_store := (image_store MI MG).
Implicit Types (st : image_store) (own : list N).
Context (E : img_env).

(** ** Deleting *)

Lemma listed_sim own st p : is_inv own st -> p ∈ images_list st -> exists s, sim st p = Some s.
Proof. intros (Hr & _) Hp. by eapply refs_live, refs_listed. Qed.

Lemma inv_id own st p s : is_inv own st -> p ∈ images_list st -> sim st p = Some s ->
  mo_abs (byid st) !! si_id s = Some p.
Proof. intros (_ & _ & Hx) Hp Hs. apply (ix_id _ Hx). by rewrite Hs. Qed.

Lemma inv_id_inj own st p q s :
  is_inv own st -> p ∈ images_list st -> q ∈ images_list st -> sim st p = Some s ->
  si_id <$> sim st q = Some (si_id s) -> q = p.
Proof.
  intros Hi Hp Hq Hs Hid. pose proof (inv_id _ _ _ _ Hi Hp Hs) as H1. destruct Hi as (_ & _ & Hx).
  assert (mo_abs (byid st) !! si_id s = Some q) by by apply (ix_id _ Hx). congruence.
Qed.

Lemma inv_apart own st p s d : is_inv own st -> p ∈ images_list st -> sim st p = Some s -> apart st p s d.
Proof.
  intros Hi Hp Hs q Hq. destruct Hi as (Hr & Hn & Hx). destruct (ix_occurs _ Hx _ _ Hq) as [Hql (s' & Hs' & _)].
  split; [eauto|]. intros Hid. by eapply (inv_id_inj own); [split_and!|..].
Qed.

Lemma inv_removed own st st' p s :
  is_inv own st -> p ∈ images_list st -> sim st p = Some s ->
  mo_wf (byid st') -> mo_wf (byname st') -> dig_wf st' ->
  removed p s st st' -> refs_ok own st' -> is_inv own st'.
Proof.
  intros Hi Hp Hs Hw1 Hw2 Hw3 [R1 R2 R3 R4 R5] Hr. pose proof Hi as (_ & Hn & Hx).
  assert (forall q, q ∈ images_list st' <-> q ∈ images_list st /\ q <> p) as Hl.
  { intros q. rewrite R1, list_elem_of_filter. tauto. }
  assert (forall q, q ∈ images_list st' -> sim st' q = sim st q) as Hsim by (intros q [? ?]%Hl; auto).
  split_and!; [done| |].
  - split; [done|]. intros n q. rewrite R3. split.
    + case_decide as Hns; [done|]. intros [Hq Hqn]%(nx_name _ _ Hn).
      assert (q ∈ images_list st') as Hq'. { apply Hl. split; [done|]. intros ->. apply Hns. unfold names_of in Hqn. by rewrite Hs in Hqn. }
      split; [done|]. unfold names_of in *. by rewrite Hsim.
    + intros [Hq Hqn]. unfold names_of in Hqn. rewrite Hsim in Hqn by done. apply Hl in Hq as [Hq Hne].
      assert (mo_abs (byname st) !! n = Some q) as Hnq by by apply (nx_name _ _ Hn).
      case_decide as Hns; [|done]. assert (mo_abs (byname st) !! n = Some p); [|congruence].
      apply (nx_name _ _ Hn). split; [done|]. unfold names_of. by rewrite Hs.
  - split; [done| | |done|].
    + intros i q. rewrite R2. rewrite lookup_delete_Some, (ix_id _ Hx). split.
      * intros (Hne & Hq & Hid). assert (q ∈ images_list st') as Hq'.
        { apply Hl. split; [done|]. intros ->. rewrite Hs in Hid. cbn in Hid. congruence. }
        split; [done|]. by rewrite Hsim.
      * intros [Hq Hid]. rewrite Hsim in Hid by done. apply Hl in Hq as [Hq Hne]. split_and!; [|done..].
        intros Heq. eapply Hne, inv_id_inj; [exact Hi|done..|]. congruence.
    + intros q Hq. unfold names_of. rewrite Hsim by done. apply Hl in Hq as [Hq _]. by apply (ix_nodup _ Hx).
    + intros q d [Hq Hne]%R4. destruct (ix_occurs _ Hx _ _ Hq) as [Hql Hd].
      assert (q ∈ images_list st') as Hq' by by apply Hl. split; [done|]. by rewrite Hsim.
Qed.

Lemma remove_from_indices_spec own st p s :
  is_inv own st -> (length own < 8)%nat -> p ∈ images_list st -> sim st p = Some s ->
  wp (remove_from_indices p (si_id s))
    (fun z st' => z = 0 /\ removed p s st st' /\ is_disk st' = is_disk st /\ is_inv own st') st.
Proof.
  intros Hi Hlen Hp Hs. pose proof Hi as (Hr & Hn & Hx). unfold remove_from_indices.
  apply wp_mbind, wp_gets. destruct (mo_remove_abs (si_id s) (byid st) (ix_wf _ Hx)) as [Hm Hok].
  pose proof (mo_wf_remove (si_id s) _ (ix_wf _ Hx)) as Hmw.
  destruct (mo_remove (si_id s) (byid st)) as [ok ids] eqn:Em. cbn in *.
  rewrite (inv_id _ _ _ _ Hi Hp Hs), bool_decide_eq_true_2 in Hok by eauto. subst ok. cbn.
  apply wp_mbind, wp_modify, wp_mbind. eapply get_simage_spec; [exact Hs|].
  assert (names_of st p = si_names s) as Enm by (unfold names_of; by rewrite Hs).
  apply wp_mbind. eapply wp_conseq; [apply remove_names_spec; [apply Hn|rewrite <-Enm; by apply (ix_nodup _ Hx)|]|].
  { intros n Hin. exists p. apply (nx_name _ _ Hn). by rewrite Enm. }
  intros z st1 (-> & nms & -> & Hnw & Hnm). cbn in Hnm |- *. apply wp_mbind.
  eapply wp_conseq; [eapply remove_digest_opt_spec with (s := s); [by destruct (ix_dig _ Hx)|done|intros d _; exact (inv_apart own st p s d Hi Hp Hs)]|].
  intros z st2 (-> & m1 & h1 & -> & Hw1 & Ho1). cbn. apply wp_mbind.
  eapply wp_conseq; [eapply remove_digest_opt_spec with (s := s); [done|done|]|].
  { intros d Hd q Hq. apply Ho1 in Hq as [Hq _]. exact (inv_apart own st p s d Hi Hp Hs q Hq). }
  intros z st3 (-> & m2 & h2 & -> & Hw2 & Ho2). cbn. apply wp_mbind, wp_gets. cbn.
  apply list_elem_of_split in Hp as Hsp. destruct Hsp as (l1 & l2 & El). rewrite El.
  apply wp_mbind. eapply unlist_spec with (s := s); [|done..|].
  { intros q Hq. destruct (listed_sim own st q Hi) as [s' Hs']; [rewrite El; apply elem_of_app; by left|].
    exists s'. split; [done|]. intros Hid. pose proof (ro_nodup _ _ Hr) as Hnd. rewrite El in Hnd.
    apply NoDup_app in Hnd as (_ & Hd & _). apply (Hd q Hq), elem_of_cons. left.
    eapply inv_id_inj; [done|exact Hp| |exact Hs|rewrite Hs'; cbn; congruence]. rewrite El. apply elem_of_app. by left. }
  set (st4 := put_images_list _ _ _). assert (refs_ok (p :: own) st4) as Hr4.
  { destruct (refs_unlist own st l1 p l2 Hr El Hlen). by split. }
  eapply wp_conseq; [by eapply ref_dec_spec|]. intros _ st5 [Hr5 Ho5]. apply wp_mret. split; [done|].
  assert (removed p s st st5) as Hrm.
  { destruct Ho5. split; rewrite ?or_list, ?or_byid, ?or_byname; cbn; [|done|done| |].
    - rewrite El, filter_split; [done|]. rewrite <-El. apply Hr.
    - intros q d. unfold occurs at 1. rewrite or_bydigest, or_digests. fold (occurs st4 q d).
      etransitivity; [apply Ho2|]. rewrite Ho1. change (occurs (put_byname _ _) q d) with (occurs st q d).
      split; [intros ([Hq H1] & H2)|tauto]. split; [done|]. intros ->.
      destruct (ix_occurs _ Hx _ _ Hq) as [_ (s' & Hs' & [Hd|Hd])]; simplify_eq; tauto.
    - intros q Hq Hne. rewrite or_sim; [done|]. eapply refs_live; [done|].
      apply refs_listed. rewrite or_list. cbn. rewrite El in Hq. set_solver. }
  split; [done|]. split; [apply (or_disk _ _ Ho5)|]. eapply inv_removed; try done; destruct Ho5; rewrite ?or_byid, ?or_byname; [done..|].
  destruct Hw2 as [W1 W2 W3]. split; rewrite ?or_bydigest, ?or_digests; done.
Qed.

Lemma occurs_only_refs st st' p d : only_refs st st' -> occurs st' p d <-> occurs st p d.
Proof. intros Ho. unfold occurs. by rewrite (or_bydigest _ _ Ho), (or_digests _ _ Ho). Qed.

(** References taken before and dropped after a removal. *)
Lemma removed_refs own1 own2 p s st st1 st2 st3 :
  only_refs st st1 -> refs_ok own1 st1 -> removed p s st1 st2 ->
  only_refs st2 st3 -> refs_ok own2 st3 -> removed p s st st3.
Proof.
  intros H1 Hr1 [R1 R2 R3 R4 R5] H2 Hr2. rewrite (or_list _ _ H1) in *. split.
  - by rewrite (or_list _ _ H2), R1.
  - by rewrite (or_byid _ _ H2), R2, (or_byid _ _ H1).
  - intros n. by rewrite (or_byname _ _ H2), R3, (or_byname _ _ H1).
  - intros q d. by rewrite (occurs_only_refs _ _ _ _ H2), R4, (occurs_only_refs _ _ _ _ H1).
  - intros q Hq Hne. rewrite (sim_only_refs own2 st2), R5, (sim_only_refs own1 st); try done.
    rewrite R1. by apply list_elem_of_filter.
Qed.

Lemma resolve_only_refs st st' id : only_refs st st' -> resolve E st' id = resolve E st id.
Proof. intros H. unfold resolve. by rewrite (or_byid _ _ H), (or_byname _ _ H). Qed.

Lemma remove_from_memory_spec own st p s :
  is_inv own st -> (length own < 7)%nat -> p ∈ images_list st -> sim st p = Some s ->
  wp (remove_image_from_memory E (si_id s))
    (fun z st' => z = 0 /\ removed p s st st' /\ is_disk st' = is_disk st /\ is_inv own st') st.
Proof.
  intros Hi Hlen Hp Hs. unfold remove_image_from_memory. apply wp_mbind.
  eapply wp_conseq; [apply (lookup_spec E own); [done|lia]|]. intros p' st1 (Hp' & Ho1 & Hcase).
  unfold resolve in Hp'. rewrite (inv_id _ _ _ _ Hi Hp Hs) in Hp'. cbn in Hp'. subst p'.
  destruct Hcase as [[-> _]|(Hnn & _ & Hi1)]; [by eapply listed_not_null in Hp; [|apply Hi]|].
  rewrite decide_False by done. apply wp_mbind.
  assert (sim st1 p = Some s) as Hs1 by by rewrite (sim_only_refs (p :: own) st) by (done || apply Hi1).
  eapply wp_conseq; [eapply remove_from_indices_spec; [done|cbn; lia|by rewrite (or_list _ _ Ho1)|done]|].
  intros z st2 (-> & Hrm & Hd & Hi2). apply wp_mbind.
  eapply wp_conseq; [by apply drop_spec|]. intros _ st3 [Hi3 Ho3]. apply wp_mret. split_and!; [done| | |done].
  - eapply removed_refs; [done|apply Hi1|done|done|apply Hi3].
  - by rewrite (or_disk _ _ Ho3), Hd, (or_disk _ _ Ho1).
Qed.

(** The effect of deleting what an identifier stands for. *)
Definition deleted (id : cstr) (z : Z) st st' : Prop :=
  match default NULL (resolve E st id) with
  | 0%N => z = 0 /\ st' = st
  | p => p ∈ images_list st /\ exists s, sim st p = Some s /\ removed p s st st' /\
           z = (if ie_rmdir E then 0 else -1) /\
           is_disk st' = (if ie_rmdir E then delete (si_id s) (is_disk st) else is_disk st)
  end.

Lemma deleted_found id z st st' p :
  deleted id z st st' -> resolve E st id = Some p -> p <> NULL ->
  p ∈ images_list st /\ exists s, sim st p = Some s /\ removed p s st st' /\
    z = (if ie_rmdir E then 0 else -1) /\
    is_disk st' = (if ie_rmdir E then delete (si_id s) (is_disk st) else is_disk st).
Proof. unfold deleted. intros Hd Hr Hnn. rewrite Hr in Hd. by destruct p. Qed.

Lemma only_refs_disk st st' d : only_refs st st' -> only_refs (put_disk d st) (put_disk d st').
Proof. intros []. by split. Qed.

Lemma inv_disk own st d : is_inv own st -> is_inv own (put_disk d st).
Proof. intros ([] & [] & [? ? ? [] ?]). split_and!; by split. Qed.

Lemma do_delete_info_spec own st id :
  is_inv own st -> (length own < 6)%nat ->
  wp (do_delete_image_info E id) (fun z st' => deleted id z st st' /\ is_inv own st') st.
Proof.
  intros Hi Hlen. unfold do_delete_image_info, deleted. apply wp_mbind.
  eapply wp_conseq; [apply (lookup_spec E own); [done|lia]|]. intros p st1 (Hp & Ho1 & Hcase). rewrite <-Hp.
  destruct Hcase as [[-> ->]|(Hnn & Hl & Hi1)]; [by apply wp_mret|]. rewrite decide_False by done.
  destruct (listed_sim _ _ _ Hi Hl) as [s Hs].
  assert (sim st1 p = Some s) as Hs1 by by rewrite (sim_only_refs (p :: own) st) by (done || apply Hi1).
  apply wp_mbind. eapply get_simage_spec; [done|]. apply wp_mbind.
  eapply wp_conseq; [eapply remove_from_memory_spec; [done|cbn; lia|by rewrite (or_list _ _ Ho1)|done]|].
  intros z st2 (-> & Hrm & Hd & Hi2). cbn [Z.eqb negb]. apply wp_mbind.
  eapply (wp_conseq _ (fun z st' => z = (if ie_rmdir E then 0 else -1) /\
    st' = put_disk (if ie_rmdir E then delete (si_id s) (is_disk st) else is_disk st) st2)).
  { rewrite (or_disk _ _ Ho1) in Hd. unfold remove_image_dir. destruct (ie_rmdir E).
    - apply wp_mbind, wp_modify, wp_mret. by rewrite Hd.
    - apply wp_mret. split; [done|]. rewrite <-Hd. by destruct st2. }
  intros z st3 [-> ->]. apply wp_mbind. eapply wp_conseq; [by apply drop_spec, inv_disk|].
  intros _ st4 [Hi4 Ho4]. apply wp_mret. split; [|done]. destruct p as [|p]; [done|]. split; [done|].
  exists s. split; [done|]. split; [|by rewrite (or_disk _ _ Ho4)].
  eapply removed_refs; [done|apply Hi1| |exact Ho4|apply Hi4]. by destruct Hrm.
Qed.

Theorem image_store_delete_spec st id :
  is_inv [] st -> ie_lock E = true ->
  wp (image_store_delete E (Some id)) (fun z st' => deleted id z st st' /\ is_inv [] st') st.
Proof.
  intros Hi Hlk. unfold image_store_delete. rewrite Hlk. cbn [negb]. apply wp_mbind.
  eapply wp_conseq; [apply (do_delete_info_spec []); [done|cbn; lia]|]. intros z st' [Hd Hi']. apply wp_mret.
  split; [|done]. unfold deleted in *. destruct (default NULL (resolve E st id)); [by destruct Hd as [-> ?]|].
  destruct Hd as (? & s & ? & ? & -> & ?). split; [done|]. exists s. split_and!; try done. by destruct (ie_rmdir E).
Qed.

(** ** Creating *)

Lemma replace_all_spec names (m : MB) :
  mo_wf m -> mo_wf (replace_all names m) /\
    forall n, is_Some (mo_abs (replace_all names m) !! n) <-> n ∈ names \/ is_Some (mo_abs m !! n).
Proof.
  revert m. induction names as [|n names IH]; intros m Hw; cbn.
  { split; [done|]. intros n. set_solver. }
  destruct (mo_replace_abs n true m Hw) as [_ Hm]. destruct (IH _ (mo_wf_replace n true m Hw)) as [Hw' He].
  split; [done|]. intros n'. rewrite He, Hm, elem_of_cons. destruct (decide (n' = n)) as [->|Hne].
  - rewrite lookup_insert_eq. naive_solver.
  - rewrite lookup_insert_ne by done. naive_solver.
Qed.

Lemma array_unique_spec ok names unique :
  array_unique (opsB := opsB) ok names = Some unique ->
  NoDup unique /\ forall n, n ∈ unique <-> n ∈ names.
Proof.
  destruct names as [|n0 names]; cbn; [intros [= <-]; split; [constructor|done]|].
  destruct (mo_new_ok (cmp := cmp) (ops := opsB)) as (m & -> & Hw & Hm). cbn. destruct ok; [|done]. cbn.
  intros [= <-]. destruct (mo_replace_abs n0 true m Hw) as [_ Hm1].
  destruct (replace_all_spec names _ (mo_wf_replace n0 true m Hw)) as [Hw' He].
  set (r := replace_all _ _) in *. destruct (mo_elements_ok r Hw') as [Hs _].
  split; [by eapply ksorted_NoDup|]. intros n. rewrite list_elem_of_fmap, elem_of_cons. split.
  - intros ([n' b] & -> & Hin). apply elem_of_mo_elements in Hin; [|done]. cbn.
    destruct (proj1 (He n') (ex_intro _ b Hin)) as [?|Hb]; [by right|]. rewrite Hm1, Hm in Hb.
    destruct (decide (n' = n0)) as [->|Hne]; [by left|]. rewrite lookup_insert_ne, lookup_empty in Hb by done. by destruct Hb.
  - intros Hn. destruct (proj2 (He n)) as [b Hb].
    { rewrite Hm1. destruct Hn as [->|?]; [right; rewrite lookup_insert_eq; eauto|by left]. }
    exists (n, b). split; [done|]. by apply elem_of_mo_elements.
Qed.

Lemma unique_spec names unique :
  util_string_array_unique (opsB := opsB) E names = Some unique -> NoDup unique /\ forall n, n ∈ unique <-> n ∈ names.
Proof. apply array_unique_spec. Qed.

(** The allocator returns fresh addresses and does not fail. *)
Record env_ok : Prop := {
  eo_image imgs : imgs !! ie_fresh_image E imgs = None /\ ie_fresh_image E imgs <> NULL;
  eo_digest digs : digs !! ie_fresh_digest E digs = None;
  eo_node : ie_node E = true;
  eo_map : ie_map E = true;
  eo_dig : ie_digest E = true
}.
Context (HE : env_ok).

Lemma append_digest_spec st o p :
  dig_wf st -> p <> NULL ->
  wp (append_image_according_to_digest E o p) (fun z st' => z = 0 /\
    digests_become (fun p' d' => occurs st p' d' \/ (p' = p /\ o = Some d')) st st') st.
Proof.
  intros Hw Hnn. destruct o as [d|]; cbn.
  2: { apply wp_mret. split; [done|]. exists (bydigest st), (is_digests st). split_and!; [by destruct st|done|naive_solver]. }
  apply wp_mbind, wp_gets. rewrite (mo_search_ok d _ (dw_wf _ Hw)). unfold append_image_to_digest_images.
  destruct (mo_abs (bydigest st) !! d) as [q|] eqn:Hd.
  - rewrite decide_False, (eo_node HE) by done. cbn [negb]. destruct (dw_live _ Hw d q Hd) as [l Hl]. apply wp_mbind, wp_gets, wp_mbind. eapply wp_lift; [done|].
    apply wp_mbind, wp_modify, wp_mret. split; [done|]. eexists _, _. split; [done|].
    split; [by apply dig_wf_put|]. intros p' d'. rewrite (occurs_put st d q) by done. case_decide as Hdd.
    + subst. rewrite elem_of_app, list_elem_of_singleton. unfold occurs. naive_solver.
    + naive_solver.
  - rewrite (eo_dig HE). cbn [negb]. apply wp_mbind, wp_gets. set (q := ie_fresh_digest E (is_digests st)).
    assert (is_digests st !! q = None) as Hq by apply (eo_digest HE).
    apply wp_mbind, wp_modify, wp_mbind. rewrite decide_False, (eo_node HE) by done. cbn [negb].
    apply wp_mbind, wp_gets, wp_mbind. cbn. eapply wp_lift; [apply lookup_insert_eq|]. apply wp_mbind, wp_modify, wp_mret. cbn. rewrite insert_insert_eq.
    rewrite (eo_map HE). destruct (mo_insert_fresh d q _ (dw_wf _ Hw) Hd) as [Hok Hm].
    pose proof (mo_wf_insert true d q _ (dw_wf _ Hw)) as Hmw.
    destruct (mo_insert true d q (bydigest st)) as [ok m] eqn:Em. cbn in *. subst ok.
    apply wp_mbind, wp_modify, wp_mret. split; [done|]. eexists m, _. split; [done|].
    assert (forall d' q', mo_abs (bydigest st) !! d' = Some q' -> q' <> q) as Hne.
    { intros d' q' Hd' ->. destruct (dw_live _ Hw _ _ Hd'). congruence. }
    split.
    + split; cbn; [done| |]; rewrite Hm.
      * intros d' q' [[<- <-]|[? Hd']]%lookup_insert_Some; [rewrite lookup_insert_eq; eauto|].
        rewrite lookup_insert_ne by (symmetry; eauto). by eapply dw_live.
      * intros d1 d2 q' [[<- <-]|[? H1]]%lookup_insert_Some [[<- ?]|[? H2]]%lookup_insert_Some; try done;
          [exfalso; by eapply Hne|subst; exfalso; by eapply Hne|by eapply dw_inj].
    + intros p' d'. unfold occurs. cbn. rewrite Hm. split.
      * intros (q' & l & [[<- <-]|[? Hd']]%lookup_insert_Some & Hl & Hin).
        -- rewrite lookup_insert_eq in Hl. simplify_eq. right. by apply list_elem_of_singleton in Hin.
        -- rewrite lookup_insert_ne in Hl by (symmetry; eauto). left. eauto.
      * intros [(q' & l & Hd' & Hl & Hin)|[-> [= ->]]].
        -- exists q', l. rewrite lookup_insert_ne by congruence.
           rewrite lookup_insert_ne by (symmetry; eauto). done.
        -- exists q, [p]. rewrite !lookup_insert_eq. split_and!; [done..|]. by apply list_elem_of_singleton.
Qed.

Lemma insert_names_spec st names p :
  mo_wf (byname st) -> NoDup names -> (forall n, n ∈ names -> mo_abs (byname st) !! n = None) ->
  wp (insert_names E names p) (fun z st' => z = 0 /\ exists m, st' = put_byname m st /\ mo_wf m /\
    forall n, mo_abs m !! n = if decide (n ∈ names) then Some p else mo_abs (byname st) !! n) st.
Proof.
  revert st. induction names as [|n names IH]; intros st Hw Hnd Hin; cbn.
  { apply wp_mret. split; [done|]. exists (byname st). by destruct st. }
  apply NoDup_cons in Hnd as [Hn Hnd]. apply wp_mbind, wp_gets. rewrite (mo_search_ok n _ Hw), Hin by by left.
  rewrite (eo_map HE). destruct (mo_insert_fresh n p (byname st) Hw) as [Hok Hm]; [apply Hin; by left|].
  pose proof (mo_wf_insert true n p _ Hw) as Hmw.
  destruct (mo_insert true n p (byname st)) as [ok m] eqn:Em. cbn in *. subst ok. apply wp_mbind, wp_modify.
  eapply wp_conseq; [apply IH; [done|done|]|].
  { cbn. intros n' Hn'. rewrite Hm, lookup_insert_ne by (by intros ->). apply Hin. by right. }
  intros z st' (-> & m' & -> & Hm'w & Hm'). split; [done|]. exists m'. split_and!; [done..|].
  intros n'. rewrite Hm'. cbn. rewrite Hm. destruct (decide (n' = n)) as [->|Hne].
  - rewrite (decide_False (P := n ∈ names)), decide_True by (done || by left). apply lookup_insert_eq.
  - rewrite lookup_insert_ne by done. repeat case_decide; set_solver.
Qed.

(** [st'] is [st] with the image [p], described by [s]. *)
Record added (p : N) (s : storage_image) st st' : Prop := {
  ad_list : images_list st' = images_list st ++ [p];
  ad_byid : mo_abs (byid st') = <[si_id s := p]> (mo_abs (byid st));
  ad_byname n : mo_abs (byname st') !! n =
    if decide (n ∈ si_names s) then Some p else mo_abs (byname st) !! n;
  ad_occurs q d : occurs st' q d <-> occurs st q d \/ (q = p /\ si_digest s = Some d);
  ad_sim q : sim st' q = if decide (q = p) then Some s else sim st q
}.

Lemma inv_added own st st' p s :
  is_inv own st -> is_images st !! p = None -> NoDup (si_names s) ->
  (forall n, n ∈ si_names s -> mo_abs (byname st) !! n = None) -> mo_abs (byid st) !! si_id s = None ->
  mo_wf (byid st') -> mo_wf (byname st') -> dig_wf st' -> added p s st st' -> refs_ok own st' -> is_inv own st'.
Proof.
  intros Hi Hf Hnd Hnm Hid Hw1 Hw2 Hw3 [A1 A2 A3 A4 A5] Hr'. pose proof Hi as (Hr & Hn & Hx).
  assert (p ∉ images_list st) as Hp.
  { intros Hp. destruct (listed_sim _ _ _ Hi Hp) as [s' Hs']. unfold sim in Hs'. by rewrite Hf in Hs'. }
  assert (forall q, q ∈ images_list st' <-> q ∈ images_list st \/ q = p) as Hl
    by (intros q; rewrite A1, elem_of_app, list_elem_of_singleton; done).
  assert (forall q, q ∈ images_list st -> sim st' q = sim st q) as Hsim.
  { intros q Hq. rewrite A5, decide_False by (by intros ->). done. }
  assert (sim st' p = Some s) as Hsp by by rewrite A5, decide_True.
  split_and!; [done| |].
  - split; [done|]. intros n q. rewrite A3, Hl. unfold names_of. case_decide as Hns.
    + split; [intros [= <-]; rewrite Hsp; auto|]. intros [[Hq| ->] Hnq]; [|done].
      rewrite Hsim in Hnq by done. assert (mo_abs (byname st) !! n = Some q); [by apply (nx_name _ _ Hn)|].
      rewrite Hnm in *; done.
    + rewrite (nx_name _ _ Hn). split.
      * intros [Hq Hnq]. rewrite Hsim by done. auto.
      * intros [[Hq| ->] Hnq]; [by rewrite Hsim in Hnq|by rewrite Hsp in Hnq].
  - split; [done| | |done|].
    + intros i q. rewrite A2, Hl. rewrite lookup_insert_Some, (ix_id _ Hx). split.
      * intros [[<- <-]|(Hne & Hq & Hi')]; [rewrite Hsp; auto|rewrite Hsim by done; auto].
      * intros [[Hq| ->] Hi']; [|rewrite Hsp in Hi'; cbn in Hi'; simplify_eq; by left].
        rewrite Hsim in Hi' by done. right. split_and!; [|done..]. intros Heq.
        assert (mo_abs (byid st) !! i = Some q); [by apply (ix_id _ Hx)|congruence].
    + intros q [Hq| ->]%Hl; unfold names_of; [rewrite Hsim by done; by apply (ix_nodup _ Hx)|by rewrite Hsp].
    + intros q d [Hq|[-> Hd]]%A4; [|rewrite Hl, Hsp; split; [by right|]; exists s; split; [done|by left]].
      destruct (ix_occurs _ Hx _ _ Hq) as [Hql Hd]. rewrite Hl, Hsim by done. auto.
Qed.

(** A new image in the list: its reference is the list's. *)
Lemma refs_listing own st p s :
  refs_ok own st -> is_images st !! p = None -> p <> NULL ->
  refs_ok own (put_images_list (images_list st ++ [p]) (wrap_u 64 (images_list_len st + 1))
    (put_images (<[p := Image 1 s]> (is_images st)) st)).
Proof.
  intros Hr Hf Hnn. pose proof (ro_refs _ _ Hr p) as Hp. rewrite Hf in Hp.
  assert (p ∉ images_list st) as Hpl by (intros H; by apply (refs_listed own) in H).
  assert (forall q, refs (put_images_list (images_list st ++ [p]) (wrap_u 64 (images_list_len st + 1))
     (put_images (<[p := Image 1 s]> (is_images st)) st)) own q =
     ((if decide (q = p) then 1 else 0) + refs st own q)%nat) as Er.
  { intros q. unfold refs. cbn. destruct (decide (q = p)) as [->|Hne].
    - rewrite decide_True, decide_False by set_solver. lia.
    - destruct (decide (q ∈ images_list st ++ [p])), (decide (q ∈ images_list st)); try lia; set_solver. }
  split; cbn.
  - apply NoDup_app. split_and!; [apply Hr| |apply NoDup_singleton]. intros q Hq. rewrite list_elem_of_singleton. by intros ->.
  - rewrite Er, decide_False by done. apply Hr.
  - intros q. rewrite Er. destruct (decide (q = p)) as [->|Hne].
    + rewrite lookup_insert_eq. cbn. lia.
    + rewrite lookup_insert_ne by done. apply (ro_refs _ _ Hr q).
  - rewrite (ro_len _ _ Hr). unfold wrap_u. rewrite Zplus_mod_idemp_l. f_equal. rewrite length_app. cbn. lia.
  - apply Hr.
Qed.

Lemma append_image_spec own st p s :
  is_inv own st -> is_images st !! p = None -> p <> NULL -> NoDup (si_names s) ->
  (forall n, n ∈ si_names s -> mo_abs (byname st) !! n = None) -> mo_abs (byid st) !! si_id s = None ->
  wp (image_store_append_image E (si_id s) (si_digest s) p)
    (fun z st' => z = 0 /\ added p s st st' /\ is_disk st' = is_disk st /\ is_inv own st')
    (put_images (<[p := Image 1 s]> (is_images st)) st).
Proof.
  intros Hi Hf Hnn Hnd Hnm Hid. pose proof Hi as (Hr & Hn & Hx).
  unfold image_store_append_image, insert_into_indices. rewrite (eo_node HE). cbn [negb].
  apply wp_mbind, wp_gets, wp_mbind, wp_modify. cbn. apply wp_mbind, wp_mbind, wp_gets. cbn. rewrite (eo_map HE).
  destruct (mo_insert_fresh (si_id s) p _ (ix_wf _ Hx) Hid) as [Hok Hm].
  pose proof (mo_wf_insert true (si_id s) p _ (ix_wf _ Hx)) as Hmw.
  destruct (mo_insert true (si_id s) p (byid st)) as [ok ids] eqn:Em. cbn in *. subst ok. cbn [negb].
  apply wp_mbind, wp_modify, wp_mbind.
  eapply wp_conseq; [apply append_digest_spec; [by destruct (ix_dig _ Hx)|done]|].
  intros z st1 (-> & m1 & h1 & -> & Hw1 & Ho1). cbn. apply wp_mbind.
  eapply get_simage_spec; [unfold sim; cbn; by rewrite lookup_insert_eq|]. cbn.
  eapply wp_conseq; [apply insert_names_spec; [apply Hn|done..]|].
  intros z st2 (-> & nms & -> & Hnw & Hnms). cbn in Hnms |- *. apply wp_mbind, wp_mret, wp_mret. split; [done|].
  set (st3 := put_byname _ _).
  assert (added p s st st3) as Ha.
  { split; [done|exact Hm|exact Hnms| |].
    - intros q d. etransitivity; [apply Ho1|]. done.
    - intros q. unfold sim. cbn. case_decide; [subst; by rewrite lookup_insert_eq|by rewrite lookup_insert_ne]. }
  split_and!; [done..|]. eapply inv_added; try done; [by destruct Hw1|].
  destruct (refs_listing own st p s Hr Hf Hnn). by split.
Qed.

(** The stores have the same images under the same ids, names and digests. *)
Record same_content st st' : Prop := {
  sc_list : images_list st' = images_list st;
  sc_byid : mo_abs (byid st') = mo_abs (byid st);
  sc_byname n : mo_abs (byname st') !! n = mo_abs (byname st) !! n;
  sc_occurs q d : occurs st' q d <-> occurs st q d;
  sc_sim q : q ∈ images_list st -> sim st' q = sim st q
}.

#[export] Instance same_content_refl : Reflexive same_content.
Proof. by intros st. Qed.

Lemma same_content_refs own st st' : only_refs st st' -> refs_ok own st' -> same_content st st'.
Proof.
  intros Ho Hr. split; [apply Ho|by rewrite (or_byid _ _ Ho)|intros; by rewrite (or_byname _ _ Ho)| |].
  - intros. by apply occurs_only_refs.
  - intros q Hq. by eapply sim_only_refs.
Qed.

(** Removing the image that has just been added. *)
Lemma added_removed own st st1 st2 p s :
  is_inv own st -> is_images st !! p = None -> mo_abs (byid st) !! si_id s = None ->
  (forall n, n ∈ si_names s -> mo_abs (byname st) !! n = None) ->
  added p s st st1 -> removed p s st1 st2 -> same_content st st2.
Proof.
  intros Hi Hf Hid Hnm [A1 A2 A3 A4 A5] [R1 R2 R3 R4 R5].
  assert (p ∉ images_list st) as Hp.
  { intros Hp. destruct (listed_sim _ _ _ Hi Hp) as [s' Hs']. unfold sim in Hs'. by rewrite Hf in Hs'. }
  split.
  - rewrite R1, A1. rewrite <-(app_nil_r (images_list st)) at 2. apply filter_split.
    apply NoDup_app. split_and!; [apply Hi| |apply NoDup_singleton]. intros q Hq. rewrite list_elem_of_singleton. by intros ->.
  - rewrite R2, A2. by rewrite delete_insert_id.
  - intros n. rewrite R3, A3. case_decide; [by rewrite Hnm|done].
  - intros q d. rewrite R4, A4. split; [tauto|]. intros Hq. split; [by left|]. intros ->.
    destruct Hi as (_ & _ & Hx). by destruct (ix_occurs _ Hx _ _ Hq).
  - intros q Hq. assert (q <> p) by (by intros ->). rewrite R5, A5, decide_False by (rewrite ?A1; set_solver). done.
Qed.

Lemma resolve_id st i p : mo_abs (byid st) !! i = Some p -> resolve E st i = Some p.
Proof. intros H. unfold resolve. by rewrite H. Qed.

(** What a call of [image_store_create] does. *)
Definition created (id : option cstr) (names : list cstr) (layer digest : option cstr) (r : option cstr) st st' : Prop :=
  match r with
  | Some i =>
      (id = Some i \/ id = None /\ ie_random E = Some i) /\ mo_abs (byid st) !! i = None /\
      exists p s, added p s st st' /\ si_id s = i /\ si_digest s = digest /\ si_layer s = layer /\ si_size s = 0 /\ NoDup (si_names s) /\
        (forall n, n ∈ si_names s <-> n ∈ names) /\ is_disk st' = <[i := s]> (is_disk st)
  | None => same_content st st' /\ forall i, id = Some i -> mo_abs (byid st) !! i = None ->
      ie_names E && ie_image E && ie_time E && ie_save E i = false
  end.

Lemma save_image_spec s st :
  wp (save_image E s) (fun z st' => z = (if ie_save E (si_id s) then 0 else -1) /\
    st' = if ie_save E (si_id s) then put_disk (<[si_id s := s]> (is_disk st)) st else st) st.
Proof.
  unfold save_image. destruct (ie_save E (si_id s)); [|by apply wp_mret]. by apply wp_mbind, wp_modify, wp_mret.
Qed.

Theorem image_store_create_spec st id names layer metadata digest :
  is_inv [] st -> ie_lock E = true -> (forall n, n ∈ names -> mo_abs (byname st) !! n = None) ->
  wp (image_store_create (opsB := opsB) E id names layer metadata digest)
    (fun r st' => is_inv [] st' /\ created id names layer digest r st st') st.
Proof.
  intros Hi Hlk Hnm. unfold image_store_create, created. rewrite Hlk. cbn [negb].
  destruct (match id with Some _ => id | None => ie_random E end) as [dst|] eqn:Hdst.
  2: { apply wp_mret. split; [done|]. split; [done|]. by intros i ->. }
  assert (id = Some dst \/ id = None /\ ie_random E = Some dst) as Hid by (destruct id; auto).
  apply wp_mbind, wp_gets. rewrite (mo_search_ok dst) by apply Hi.
  destruct (mo_abs (byid st) !! dst) as [q|] eqn:Hq.
  { apply wp_mret. split; [done|]. split; [done|]. intros i ->. naive_solver. }
  destruct (util_string_array_unique E names) as [unique|] eqn:Hu; cbn.
  2: { apply wp_mret. split; [done|]. split; [done|]. intros i _ _. destruct names as [|n names]; [done|]. cbn in Hu.
       destruct (mo_new_ok (cmp := cmp) (ops := opsB)) as (m & Hm & _). rewrite Hm in Hu. cbn in Hu. by destruct (ie_names E). }
  apply unique_spec in Hu as [Hnd Hun]. unfold new_storage_image.
  destruct (ie_image E) eqn:Him; [cbn|apply wp_mret; split_and!; [done..|]; intros; by destruct (ie_names E)].
  destruct (ie_time E) eqn:Htm; [cbn|apply wp_mret; split_and!; [done..|]; intros; by destruct (ie_names E)].
  set (s := SImage _ _ _ _ _ _ _ _ _). unfold new_image. rewrite Him. cbn [negb].
  apply wp_mbind, wp_mbind, wp_gets. set (p := ie_fresh_image E (is_images st)).
  destruct (eo_image HE (is_images st)) as [Hf Hnn]. fold p in Hf, Hnn.
  apply wp_mbind, wp_modify, wp_mret. rewrite decide_False by done. apply wp_mbind.
  assert (forall n, n ∈ si_names s -> mo_abs (byname st) !! n = None) as Hnm' by (intros n Hn; by apply Hnm, Hun).
  eapply wp_conseq; [apply (append_image_spec [] st p s Hi Hf Hnn Hnd Hnm' Hq)|].
  intros z st1 (-> & Ha & Hd & Hi1). cbn [Z.eqb negb].
  apply wp_mbind. eapply get_simage_spec; [by rewrite (ad_sim _ _ _ _ Ha), decide_True|].
  apply wp_mbind. eapply wp_conseq; [apply save_image_spec|]. intros z st2 [-> ->]. cbn [si_id s].
  destruct (ie_save E dst) eqn:Hsv; cbn [Z.eqb negb].
  - apply wp_mret. split; [by apply inv_disk|]. split_and!; [done..|]. exists p, s. split_and!; [|done..|].
    + by destruct Ha.
    + cbn. by rewrite Hd.
  - apply wp_mbind. eapply wp_conseq; [apply (do_delete_info_spec []); [done|cbn; lia]|].
    intros z st3 [Hdel Hi3]. apply wp_mret. split; [done|].
    destruct (deleted_found _ _ _ _ p Hdel) as (_ & s' & Hs' & Hrm & _); [|done|].
    { apply resolve_id. rewrite (ad_byid _ _ _ _ Ha). apply lookup_insert_eq. }
    rewrite (ad_sim _ _ _ _ Ha), decide_True in Hs' by done. injection Hs' as <-.
    split; [by apply (added_removed [] st st1 st3 p s)|].
    intros i Heq _. destruct Hid as [->|[-> _]]; [|done]. simplify_eq. by rewrite Hsv, !andb_false_r.
Qed.
End image_store.
