(* ===== verification/ImageStoreBigData.v ===== *)
(** Reading images, and changing their descriptions and their big data. *)
From S2P Require Import Prelude Heap RbSearch KeyOrders MapC MapIface RestartManager ContainersStore ContainersStoreProps Effects ImageStore ImageStoreInv ImageStoreProps.

Open Scope Z_scope.

Section image_store.
Context {MI MG MB : Type} {cmp : cstr -> cstr -> Z} `{!KeyOrder cmp}.
Context {opsI : MapOps cstr N MI} `{!MapLaws cmp opsI}.
Context {opsG : MapOps cstr N MG} `{!MapLaws cmp opsG}.
Context {opsB : MapOps cstr bool MB} `{!MapLaws cmp opsB}.
Abbreviation image_store := (image_store MI MG).
Implicit Types (st : image_store) (own : list N).
Context (E : img_env).

(** The description an identifier stands for. *)
Definition meaning st (id : cstr) : option storage_image :=
  match default NULL (resolve E st id) with 0%N => None | p => sim st p end.

Lemma meaning_found st id p :
  p <> NULL -> p = default NULL (resolve E st id) -> meaning st id = sim st p.
Proof. unfold meaning. intros Hnn <-. by destruct p. Qed.

(** Between taking and dropping the reference of a call: [m] is run on the image found. *)
Lemma looked_up_spec {A} st id (m : N -> M image_store A) (fail : A) (Q : A -> image_store -> Prop) :
  is_inv [] st ->
  (meaning st id = None -> Q fail st) ->
  (forall p s st1, meaning st id = Some s -> p = default NULL (resolve E st id) -> p <> NULL ->
     p ∈ images_list st -> sim st p = Some s -> only_refs st st1 ->
     is_inv [p] st1 -> sim st1 p = Some s ->
     wp (m p) (fun r st2 => is_inv [p] st2 /\ forall st3, is_inv [] st3 -> only_refs st2 st3 -> Q r st3) st1) ->
  wp (img ← lookup E id;
      r ← (if decide (img = NULL) then (mret fail : M image_store A) else m img);
      image_ref_dec img;; mret r) Q st.
Proof.
  intros Hi Hfail Hm. apply wp_mbind. eapply wp_conseq; [apply (lookup_spec E []); [done|cbn; lia]|].
  intros p st1 (Hp & Ho & [[-> ->]|(Hnn & Hl & Hi1)]).
  - rewrite decide_True by done. apply wp_mbind, wp_mret, wp_mbind, ref_dec_null, wp_mret. apply Hfail.
    unfold meaning. by rewrite <-Hp.
  - rewrite decide_False by done. destruct (listed_sim _ _ _ Hi Hl) as [s Hs]. apply wp_mbind.
    eapply wp_conseq; [apply (Hm p s); try done|].
    + by rewrite (meaning_found _ _ p).
    + by rewrite (sim_only_refs [p] st) by (done || apply Hi1).
    + intros r st2 [Hi2 HQ]. apply wp_mbind. eapply wp_conseq; [by apply drop_spec|].
      intros _ st3 [Hi3 Ho3]. apply wp_mret. by apply HQ.
Qed.

(** Readers return what the image says, and change nothing. *)
Lemma with_image_spec {A} st id (fail : A) f :
  is_inv [] st -> ie_lock E = true ->
  wp (with_image E (Some id) fail f) (fun r st' => is_inv [] st' /\ same_content st st' /\
    is_disk st' = is_disk st /\ r = match meaning st id with Some s => f s | None => fail end) st.
Proof.
  intros Hi Hlk. unfold with_image. rewrite Hlk. cbn [negb]. apply looked_up_spec; [done| |].
  { intros ->. by split_and!. }
  intros p s st1 -> _ _ _ _ Ho Hi1 Hs. apply wp_mbind. eapply get_simage_spec; [done|]. apply wp_mret.
  split; [done|]. intros st3 Hi3 Ho3. assert (only_refs st st3) as Ho' by by etransitivity.
  split_and!; [done|by eapply same_content_refs; [|apply Hi3]|apply Ho'|done].
Qed.

(** [st'] is [st] with the image [p] described by [s]. *)
Record redescribed (p : N) (s : storage_image) st st' : Prop := {
  rd_list : images_list st' = images_list st;
  rd_byid : mo_abs (byid st') = mo_abs (byid st);
  rd_byname n : mo_abs (byname st') !! n = mo_abs (byname st) !! n;
  rd_sim q : q ∈ images_list st -> sim st' q = if decide (q = p) then Some s else sim st q
}.

Lemma redescribed_refs own1 own2 p s st st1 st2 st3 :
  only_refs st st1 -> refs_ok own1 st1 -> redescribed p s st1 st2 ->
  only_refs st2 st3 -> refs_ok own2 st3 -> redescribed p s st st3.
Proof.
  intros H1 Hr1 [R1 R2 R3 R4] H2 Hr2. split.
  - by rewrite (or_list _ _ H2), R1, (or_list _ _ H1).
  - by rewrite (or_byid _ _ H2), R2, (or_byid _ _ H1).
  - intros n. by rewrite (or_byname _ _ H2), R3, (or_byname _ _ H1).
  - intros q Hq. assert (q ∈ images_list st1) as Hq1 by by rewrite (or_list _ _ H1).
    rewrite (sim_only_refs own2 st2), R4 by (done || by rewrite R1). by rewrite (sim_only_refs own1 st).
Qed.

(** Changing what the indices do not depend on. *)
Lemma update_image_spec st id f :
  is_inv [] st -> ie_lock E = true ->
  (forall s, si_id (f s) = si_id s /\ si_names (f s) = si_names s /\ forall d, digest_of s d -> digest_of (f s) d) ->
  wp (update_image E (Some id) f) (fun z st' => is_inv [] st' /\
    match meaning st id with
    | None => z = -1 /\ st' = st
    | Some s => redescribed (default NULL (resolve E st id)) (f s) st st' /\
                z = (if ie_save E (si_id s) then 0 else -1) /\
                is_disk st' = if ie_save E (si_id s) then <[si_id s := f s]> (is_disk st) else is_disk st
    end) st.
Proof.
  intros Hi Hlk Hf. unfold update_image. rewrite Hlk. cbn [negb]. apply looked_up_spec; [done| |].
  { intros ->. by split_and!. }
  intros p s st1 -> <- Hnn Hl Hs0 Ho Hi1 Hs. destruct (Hf s) as (F1 & F2 & F3).
  apply wp_mbind. eapply get_simage_spec; [done|]. apply wp_mbind. eapply set_simage_spec; [eauto|].
  eapply wp_conseq; [apply save_image_spec|]. rewrite F1. intros z st2 [-> ->].
  assert (is_inv [p] (describe p (f s) st1)) as Hi2.
  { eapply inv_describe; [done..|]. intros d Hd. destruct Hi1 as (_ & _ & Hx).
    destruct (ix_occurs _ Hx _ _ Hd) as [_ (s' & Hs' & Hd')]. simplify_eq. auto. }
  split; [destruct (ie_save E (si_id s)); [by apply inv_disk|done]|].
  intros st3 Hi3 Ho3. split; [done|]. split.
  - eapply (redescribed_refs [p] []); [done|apply Hi1| |exact Ho3|apply Hi3].
    assert (redescribed p (f s) st1 (describe p (f s) st1)) as Hrd.
    { split; [done..|]. intros q _. rewrite sim_describe. case_decide; [subst; by rewrite Hs|done]. }
    destruct (ie_save E (si_id s)); [|done]. by destruct Hrd.
  - split; [done|]. rewrite (or_disk _ _ Ho3). destruct (ie_save E (si_id s)); cbn; by rewrite (or_disk _ _ Ho).
Qed.

(** ** Big data *)

Lemma describe_describe p s s' st : describe p s' (describe p s st) = describe p s' st.
Proof.
  unfold describe. cbn. unfold put_images. cbn. f_equal. apply map_eq. intros q.
  destruct (decide (q = p)) as [->|Hne]; [|by rewrite !lookup_alter_ne].
  rewrite !lookup_alter_eq. by destruct (is_images st !! p).
Qed.

Lemma inv_redescribe own p s s0 st m h :
  is_inv own st -> p ∈ images_list st -> sim st p = Some s0 ->
  si_id s = si_id s0 -> si_names s = si_names s0 ->
  let st' := put_bydigest m h (describe p s st) in
  dig_wf st' ->
  (forall q d, occurs st' q d -> q = p /\ digest_of s d \/ q <> p /\ occurs st q d) ->
  is_inv own st'.
Proof.
  intros (Hr & [N1 N2] & [H1 H2 H3 H4 H5]) Hp Hs Eid En st' Hw Ho.
  assert (forall q, sim st' q = if decide (q = p) then Some s else sim st q) as Es.
  { intros q. change (sim st' q) with (sim (describe p s st) q). rewrite sim_describe.
    case_decide; [by rewrite Hs|done]. }
  assert (forall q, si_id <$> sim st' q = si_id <$> sim st q) as Ei.
  { intros q. rewrite Es. case_decide; [subst; rewrite Hs; cbn; congruence|done]. }
  assert (forall q, names_of st' q = names_of st q) as Enm.
  { intros q. unfold names_of. rewrite Es. case_decide; [subst; by rewrite Hs|done]. }
  split_and!; [by destruct (refs_describe own p s st Hr)| |].
  - split; [done|]. intros n q. rewrite Enm. apply N2.
  - split; [done| | |done|].
    + intros i q. rewrite Ei. apply H2.
    + intros q. rewrite Enm. apply H3.
    + intros q d [[-> Hd]|[Hne Hq]]%Ho.
      * split; [done|]. rewrite Es, decide_True by done. eauto.
      * destruct (H5 q d Hq) as [Hl Hx]. split; [done|]. by rewrite Es, decide_False.
Qed.

Section reindex.
Context (own : list N) st (p : N) (s s0 : storage_image).
Hypothesis (Hi : is_inv own st) (Hp : p ∈ images_list st) (Hs0 : sim st p = Some s0) (Eid : si_id s = si_id s0).

Lemma sim_described : sim (describe p s st) p = Some s.
Proof. by eapply sim_describe_eq. Qed.

Lemma apart_described d m h :
  (forall q, occurs (put_bydigest m h (describe p s st)) q d -> occurs st q d) ->
  apart (put_bydigest m h (describe p s st)) p s d.
Proof.
  intros Ho q Hq. apply Ho in Hq. pose proof (inv_apart own st p s0 d Hi Hp Hs0 q Hq) as [Hlive Hid].
  change (sim (put_bydigest m h (describe p s st)) q) with (sim (describe p s st) q). rewrite sim_describe.
  case_decide; [subst; rewrite Hs0; cbn; eauto|]. rewrite Eid. auto.
Qed.

(** The old digest has been dealt with. *)
Definition unindexed (old : option cstr) (full : cstr) st1 : Prop :=
  exists m h, st1 = put_bydigest m h (describe p s st) /\ dig_wf st1 /\
    forall q d, occurs st1 q d -> occurs st q d /\ (q = p -> old = Some d -> d = full \/ si_digest s = Some d).

Lemma unindex_old_spec old full :
  old = None \/ old = Some full \/ is_Some (si_digest s) ->
  wp (unindex_old p old full) (fun z st1 => z = 0 /\ unindexed old full st1) (describe p s st).
Proof.
  intros Hold. destruct Hi as (Hr & Hn & Hx).
  assert (dig_wf (describe p s st)) as Hw0 by by destruct (ix_dig _ Hx).
  assert ((forall d, old = Some d -> d = full \/ si_digest s = Some d) -> unindexed old full (describe p s st)) as Hsame.
  { intros Hd. exists (bydigest st), (is_digests st). split_and!; [by destruct st|done|]. auto. }
  unfold unindex_old. destruct old as [od|]; [|apply wp_mret; split; [done|by apply Hsame]].
  case_decide as Hod; [apply wp_mret; split; [done|apply Hsame; naive_solver]|].
  destruct Hold as [?|[?|[d Hd]]]; [done|naive_solver|].
  apply wp_mbind. eapply get_simage_spec; [apply sim_described|]. apply wp_mbind. eapply wp_lift; [done|].
  case_decide as Hod'; [apply wp_mret; split; [done|apply Hsame; naive_solver]|].
  eapply wp_conseq; [eapply remove_digest_spec; [done|apply sim_described|]|].
  { apply (apart_described od (bydigest st) (is_digests st)). done. }
  intros z st1 (-> & m & h & -> & Hw & Ho). split; [done|]. exists m, h. split_and!; [done..|].
  intros q d' Hq. apply Ho in Hq as [Hq Hne]. split; [done|]. naive_solver.
Qed.

(** The image leaves the list of its old digest, unless that is its digest proper, and
    joins that of the new one. *)
Definition reindexed (old : option cstr) (full : cstr) st' : Prop :=
  exists m h, st' = put_bydigest m h (describe p s st) /\ dig_wf st' /\
    forall q d, occurs st' q d -> q <> p /\ occurs st q d \/
      q = p /\ (d = full \/ occurs st p d /\ (old = Some d -> si_digest s = Some d)).

Lemma reindexed_put m h old full q l l1 :
  unindexed old full (put_bydigest m h (describe p s st)) -> dig_wf (put_bydigest m h (describe p s st)) ->
  mo_abs m !! full = Some q -> h !! q = Some l -> (forall p', p' ∈ l1 -> p' ∈ l \/ p' = p) ->
  reindexed old full (put_bydigest m (<[q := l1]> h) (describe p s st)).
Proof.
  intros (m0 & h0 & He & _ & Ho) Hw Hq Hl Hl1. exists m, (<[q := l1]> h). split; [done|].
  split; [exact (dig_wf_put _ q l1 Hw)|]. intros q' d Hd.
  apply (occurs_put (put_bydigest m h (describe p s st)) full q l1 q' d Hw Hq) in Hd.
  destruct (decide (d = full)) as [->|Hne].
  - destruct (decide (q' = p)) as [->|Hnp]; [auto|]. left. split; [done|].
    destruct (Hl1 _ Hd) as [Hin|?]; [|done]. eapply (Ho q' full). by exists q, l.
  - destruct (Ho _ _ Hd) as [H1 H2]. destruct (decide (q' = p)) as [->|Hnp]; [right|by left].
    split; [done|]. right. split; [done|]. naive_solver.
Qed.

Lemma reindex_spec old full :
  old = None \/ old = Some full \/ is_Some (si_digest s) ->
  wp (reindex_manifest E p old full) (fun _ st' => reindexed old full st') (describe p s st).
Proof.
  intros Hold. unfold reindex_manifest. apply wp_mbind. eapply wp_conseq; [by apply unindex_old_spec|].
  intros z st1 (-> & Hun). pose proof Hun as (m & h & -> & Hw & Ho). cbn [Z.eqb negb].
  apply wp_mbind, wp_gets. cbn [bydigest put_bydigest].
  rewrite (mo_search_ok full m (dw_wf _ Hw)). destruct (mo_abs m !! full) as [q|] eqn:Hq.
  2: { apply wp_mret. exists m, h. split_and!; [done..|]. intros q d Hd. destruct (decide (q = p)) as [->|Hne].
       - destruct (Ho _ _ Hd) as [Hd1 Hd2]. right. split; [done|].
         destruct (decide (d = full)) as [->|]; [by left|right]. split; [done|]. naive_solver.
       - left. split; [done|]. by apply Ho. }
  destruct (dw_live _ Hw full q Hq) as [l Hl]. cbn in Hl. apply wp_mbind.
  eapply slice_without_spec; [done|apply sim_described| |].
  { intros p' Hp'. apply (apart_described full m h); [intros q' Hq'; by apply Ho|]. by exists q, l. }
  intros l' Hl'. cbn [bydigest is_digests put_bydigest]. apply wp_mbind.
  unfold append_image_to_digest_images. pose proof (listed_not_null own st p (proj1 Hi) Hp) as Hnn.
  rewrite decide_False by done. destruct (ie_node E); cbn [negb].
  - apply wp_mbind, wp_gets, wp_mbind. cbn. eapply wp_lift; [apply lookup_insert_eq|].
    apply wp_mbind, wp_modify, wp_mret. cbn. apply wp_mret. rewrite insert_insert_eq.
    eapply reindexed_put; [done..|]. intros p' [Hp'| ->%list_elem_of_singleton]%elem_of_app; [left; by apply Hl'|by right].
  - apply wp_mret, wp_mret. eapply reindexed_put; [done..|]. intros p' Hp'. left. by apply Hl'.
Qed.
End reindex.

Lemma get_value_cons kv l k :
  get_value (Some (kv :: l)) k = if decide (kv.1 = k) then Some kv.2 else get_value (Some l) k.
Proof.
  unfold get_value. cbn. case_decide; [done|]. by destruct (list_find _ l) as [[i x]|].
Qed.

Lemma get_value_update l k v k' :
  get_value (Some (update_json_map_string_string l k v)) k' =
    if decide (k' = k) then (fun _ => v) <$> get_value (Some l) k else get_value (Some l) k'.
Proof.
  induction l as [|kv l IH].
  { cbn. by case_decide. }
  change (update_json_map_string_string (kv :: l) k v) with
    ((if decide (kv.1 = k) then (kv.1, v) else kv) :: update_json_map_string_string l k v).
  rewrite !get_value_cons, IH. repeat (case_decide; simplify_eq/=); congruence.
Qed.

Lemma get_value_app l k v k' :
  get_value (Some (l ++ [(k, v)])) k' =
    match get_value (Some l) k' with Some x => Some x | None => if decide (k' = k) then Some v else None end.
Proof.
  induction l as [|kv l IH]; cbn [app]; rewrite !get_value_cons.
  - cbn. repeat case_decide; congruence.
  - rewrite IH. by destruct (decide (kv.1 = k')).
Qed.

Lemma describe_id p s st : sim st p = Some s -> describe p s st = st.
Proof.
  intros Hs. unfold describe. replace (alter _ p (is_images st)) with (is_images st); [by destruct st|].
  apply map_eq. intros q. destruct (decide (q = p)) as [->|Hne]; [|by rewrite lookup_alter_ne].
  rewrite lookup_alter_eq. unfold sim in Hs. destruct (is_images st !! p) as [[c i]|]; [|done]. cbn in *. by simplify_eq.
Qed.

Lemma describe_put p s s' st : sim st p = Some s -> is_Some (sim (describe p s' st) p).
Proof. intros Hs. rewrite (sim_describe_eq p s' s) by done. eauto. Qed.

(** The description of the image after its big data has changed. *)
Record big_data_changed (key data : cstr) (ok : bool) (s0 s : storage_image) : Prop := {
  bd_id : si_id s = si_id s0;
  bd_names : si_names s = si_names s0;
  bd_digest : si_digest s = si_digest s0;
  bd_value k : k <> key -> get_value (big_data_digests s) k = get_value (big_data_digests s0) k;
  bd_new : ok = true -> get_value (big_data_digests s) key = Some (ie_full_digest E data) /\
    key ∈ big_data_names s
}.

Definition new_digests (s : storage_image) (key data : cstr) : list (cstr * cstr) :=
  let digests := default [] (big_data_digests s) in
  match get_value (Some digests) key with
  | Some _ => update_json_map_string_string digests key (ie_full_digest E data)
  | None => append_json_map E digests key (ie_full_digest E data)
  end.

Lemma get_value_default s k : get_value (Some (default [] (big_data_digests s))) k = get_value (big_data_digests s) k.
Proof. by destruct (big_data_digests s). Qed.

Lemma new_digests_value s key data k :
  ie_jadd E = true -> get_value (Some (new_digests s key data)) k =
    if decide (k = key) then Some (ie_full_digest E data) else get_value (big_data_digests s) k.
Proof.
  intros Hj. unfold new_digests. destruct (get_value _ key) as [v|] eqn:Hv.
  - rewrite get_value_update, Hv, get_value_default. by case_decide.
  - unfold append_json_map. rewrite Hj, get_value_app. rewrite get_value_default in *.
    case_decide; [subst; by rewrite Hv|by destruct (get_value _ k)].
Qed.

(** The index follows a change of the description. *)
Lemma inv_reindexed own p s s0 st old full st' :
  is_inv own st -> p ∈ images_list st -> sim st p = Some s0 ->
  si_id s = si_id s0 -> si_names s = si_names s0 -> si_digest s = si_digest s0 ->
  old = get_value (big_data_digests s0) IMAGE_DIGEST_BIG_DATA_KEY ->
  get_value (big_data_digests s) IMAGE_DIGEST_BIG_DATA_KEY = Some full ->
  reindexed st p s old full st' -> is_inv own st'.
Proof.
  intros Hi Hp Hs0 Eid En Ed -> Hfull (m & h & -> & Hw & Ho). eapply inv_redescribe; [done..|].
  intros q d Hd. destruct (Ho q d Hd) as [[Hne Hq]|[-> Hd']]; [auto|]. left. split; [done|].
  destruct Hd' as [->|[Hq Hold]]; [by right|]. destruct Hi as (_ & _ & Hx).
  destruct (ix_occurs _ Hx _ _ Hq) as [_ (s' & Hs' & Hdig)]. simplify_eq.
  destruct Hdig as [Hdig|Hdig]; left; [congruence|]. by apply Hold.
Qed.

(** The digest of the image is needed when that of its manifest changes. *)
Definition manifest_safe (s : storage_image) (key data : cstr) : Prop :=
  key = IMAGE_DIGEST_BIG_DATA_KEY ->
  get_value (big_data_digests s) key = None \/
  get_value (big_data_digests s) key = Some (ie_full_digest E data) \/ is_Some (si_digest s).

Definition big_data_done (p : N) (key data : cstr) (s0 : storage_image) st (z : Z) st' : Prop :=
  exists s m h, st' = put_bydigest m h (describe p s st) /\ big_data_changed key data (z =? 0) s0 s.

Lemma update_big_data_spec own st p s0 key data :
  is_inv own st -> p ∈ images_list st -> sim st p = Some s0 ->
  ie_jadd E = true -> ie_names E = true -> manifest_safe s0 key data ->
  wp (update_image_with_big_data E p key data)
    (fun r st' => is_inv own st' /\ big_data_done p key data s0 st r.1 st') st.
Proof.
  intros Hi Hp Hs0 Hj Hn Hsafe. unfold update_image_with_big_data. apply wp_mbind. eapply get_simage_spec; [done|].
  destruct (bool_decide (big_data_sizes s0 = None) && negb (ie_jmap E)).
  { apply wp_mret. split; [done|]. exists s0, (bydigest st), (is_digests st). split; [rewrite describe_id by done; by destruct st|]. by split. }
  set (sz := match get_value_from_json_map_string_int64 _ _ with Some _ => _ | None => _ end).
  set (s1 := put_big_data (big_data_names s0) (Some sz) _ s0).
  apply wp_mbind. eapply set_simage_spec; [eauto|]. cbn [big_data_digests s1 put_big_data].
  destruct (bool_decide (big_data_digests s0 = None) && negb (ie_jmap E)) eqn:Hdm.
  { apply wp_mret. split.
    - eapply inv_describe; [done..|]. intros d Hd. destruct Hi as (_ & _ & Hx).
      destruct (ix_occurs _ Hx _ _ Hd) as [_ (s' & Hs' & ?)]. by simplify_eq.
    - exists s1, (bydigest st), (is_digests st). split; [by destruct st|by split]. }
  fold (new_digests s0 key data). apply wp_mbind. eapply set_simage_spec; [by eapply describe_put|].
  rewrite describe_describe. cbn [big_data_names s1 put_big_data big_data_sizes]. rewrite Hn, andb_false_r.
  set (s2 := put_big_data _ _ (Some (new_digests s0 key data)) s1). set (add := bool_decide (key ∉ big_data_names s0)).
  set (s3 := if add then put_big_data (big_data_names s0 ++ [key]) (big_data_sizes s2) (big_data_digests s2) s2 else s2).
  assert (big_data_changed key data true s0 s3) as Hs3.
  { assert (big_data_digests s3 = Some (new_digests s0 key data)) as Ed by (unfold s3; by destruct add).
    split; try (unfold s3; by destruct add); rewrite Ed.
    - intros k Hk. by rewrite new_digests_value, decide_False.
    - intros _. rewrite new_digests_value, decide_True by done. split; [done|]. unfold s3.
      destruct add eqn:Ha; cbn; [apply elem_of_app; right; by apply list_elem_of_singleton|].
      by apply bool_decide_eq_false, dec_stable in Ha. }
  apply wp_mbind. eapply (wp_conseq _ (fun _ st' => st' = describe p s3 st)).
  { unfold when, s3. destruct add; [|by apply wp_mret]. eapply set_simage_spec; [by eapply describe_put|].
    by rewrite describe_describe. }
  intros _ st' ->. pose proof Hs3 as [B1 B2 B3 B4 B5]. destruct (B5 eq_refl) as [B6 B7].
  apply wp_mbind. rewrite get_value_default. case_decide as Hkey.
  - eapply wp_conseq; [eapply (reindex_spec own st p s3 s0 Hi Hp Hs0 B1)|].
    + rewrite B3. by apply Hsafe.
    + intros z st' Hre. apply wp_mret. split.
      * subst key. by eapply inv_reindexed.
      * destruct Hre as (m & h & -> & _). exists s3, m, h. split; [done|]. split; auto.
  - apply wp_mret, wp_mret. split.
    + eapply inv_describe; [done..|]. intros d Hd. destruct Hi as (_ & _ & Hx).
      destruct (ix_occurs _ Hx _ _ Hd) as [_ (s' & Hs' & Hdig)]. simplify_eq. unfold digest_of in *.
      by rewrite B3, B4.
    + exists s3, (bydigest st), (is_digests st). split; [by destruct st|]. by split.
Qed.

Theorem image_store_set_big_data_spec st id key data :
  is_inv [] st -> ie_lock E = true -> ie_jadd E = true -> ie_names E = true ->
  (forall s, meaning st id = Some s -> manifest_safe s key data) ->
  wp (image_store_set_big_data E (Some id) (Some key) data) (fun z st' => is_inv [] st' /\
    match meaning st id with
    | None => z = -1 /\ st' = st
    | Some s => z = 0 -> exists s', meaning st' id = Some s' /\ big_data_changed key data true s s'
    end) st.
Proof.
  intros Hi Hlk Hj Hn Hsafe. unfold image_store_set_big_data.
  destruct (String.length (cstr_str key) =? 0)%nat.
  { apply wp_mret. split; [done|]. by destruct (meaning st id). }
  rewrite Hlk. cbn [negb]. apply looked_up_spec; [done| |].
  { intros ->. by split_and!. }
  intros p s st1 Hm Hp Hnn Hl Hs0 Ho Hi1 Hs. rewrite Hm. destruct (ie_data E); cbn [negb].
  2: { apply wp_mret. split; [done|]. intros st3 Hi3 Ho3. by split. }
  apply wp_mbind. eapply wp_conseq; [eapply update_big_data_spec; [done| |done..|by apply Hsafe]|].
  { by rewrite (or_list _ _ Ho). }
  intros [z save] st2 (Hi2 & s' & m & h & -> & Hbd). cbn [fst snd] in *.
  assert (forall d st3, is_inv [] st3 -> only_refs (put_disk d (put_bydigest m h (describe p s' st1))) st3 ->
    meaning st3 id = Some s') as Hmean.
  { intros d st3 Hi3 Ho3. rewrite (meaning_found _ _ p); [|done|].
    - rewrite (sim_only_refs _ _ st3 p Ho3 (proj1 Hi3)); [by eapply sim_describe_eq|]. cbn. by rewrite (or_list _ _ Ho).
    - rewrite Hp. f_equal. unfold resolve. by rewrite (or_byid _ _ Ho3), (or_byname _ _ Ho3), <-(or_byid _ _ Ho), <-(or_byname _ _ Ho). }
  assert (sim (put_bydigest m h (describe p s' st1)) p = Some s') as Hs' by by eapply sim_describe_eq.
  set (st2 := put_bydigest m h (describe p s' st1)) in *.
  assert (st2 = put_disk (is_disk st2) st2) as Ed by by destruct st1.
  destruct (Z.eqb_spec z 0) as [->|Hz]; cbn [negb].
  - destruct save.
    + apply wp_mbind. eapply get_simage_spec; [done|]. eapply wp_conseq; [apply save_image_spec|]. intros z' st3 [-> ->].
      destruct (ie_save E (si_id s')).
      * split; [by apply inv_disk|]. intros st3 Hi3 Ho3. split; [done|]. intros _. exists s'. eauto.
      * split; [done|]. intros st3 Hi3 Ho3. by split.
    + apply wp_mret. split; [done|]. intros st3 Hi3 Ho3. split; [done|]. intros _. rewrite Ed in Ho3. eauto.
  - apply wp_mret. split; [done|]. intros st3 Hi3 Ho3. by split.
Qed.
End image_store.
