(* ===== verification/ImageStoreNames.v ===== *)
(** Naming images, and sequences of operations of the store of images. *)
From S2P Require Import Prelude Heap RbSearch KeyOrders MapC MapIface RestartManager ContainersStore ContainersStoreProps Effects ImageStore ImageStoreInv ImageStoreProps ImageStoreBigData.

Open Scope Z_scope.

Section image_store.
Context {MI MG MB : Type} {cmp : cstr -> cstr -> Z} `{!KeyOrder cmp}.
Context {opsI : MapOps cstr N MI} `{!MapLaws cmp opsI}.
Context {opsG : MapOps cstr N MG} `{!MapLaws cmp opsG}.
Context {opsB : MapOps cstr bool MB} `{!MapLaws cmp opsB}.
Abbreviation image_store := (image_store MI MG).
Implicit Types (st : image_store) (own : list N).
Context (E : img_env).

(** ** Names *)

Lemma remove_name_spec st q s n :
  sim st q = Some s -> q <> NULL -> ie_names E = true ->
  wp (remove_name E q n) (fun z st' => z = 0 /\
    st' = describe q (put_names (filter (fun n' => n' <> n) (si_names s)) s) st) st.
Proof.
  intros Hs Hnn Hn. unfold remove_name. rewrite decide_False, Hn by done. cbn [negb]. apply wp_mbind.
  eapply get_simage_spec; [done|].
  destruct (filter _ (si_names s)); apply wp_mbind; (eapply set_simage_spec; [eauto|]); by apply wp_mret.
Qed.

Lemma index_describe q s s0 st :
  index_ok st -> sim st q = Some s0 -> si_id s = si_id s0 -> NoDup (si_names s) ->
  (forall d, digest_of s0 d -> digest_of s d) -> index_ok (describe q s st).
Proof.
  intros [H1 H2 H3 H4 H5] Hs Eid Hnd Hd. split; [done| | |by destruct H4|].
  - intros i p. rewrite sim_describe. case_decide; [subst; rewrite Hs; cbn; rewrite Eid|apply H2].
    rewrite <-(fmap_Some_2 si_id (Some s0) s0 eq_refl) in *. rewrite <-Hs. apply H2.
  - intros p Hp. unfold names_of. rewrite sim_describe. case_decide; [subst; by rewrite Hs|by apply H3].
  - intros p d Hp. destruct (H5 p d Hp) as [Hl (s' & Hs' & Hd')]. split; [done|]. rewrite sim_describe.
    case_decide; [|by eauto]. subst. rewrite Hs. eexists. split; [done|]. apply Hd. congruence.
Qed.

Definition without (l : list cstr) (s : storage_image) : storage_image :=
  put_names (filter (fun n => n ∉ l) (si_names s)) s.

(** While the names of [p] are being assigned; [taken] have been so far. *)
Record during own (st0 : image_store) (p : N) (taken : list cstr) st : Prop := {
  du_refs : refs_ok own st;
  du_names : names_ok (fun q => if decide (q = p) then taken else names_of st q) st;
  du_index : index_ok st;
  du_list : images_list st = images_list st0;
  du_byid : byid st = byid st0;
  du_occurs q d : occurs st q d <-> occurs st0 q d;
  du_sim q : q ∈ images_list st0 -> q <> p -> sim st q = without taken <$> sim st0 q;
  du_p : sim st p = sim st0 p
}.

Lemma without_nil s : without [] s = s.
Proof.
  unfold without. assert (forall l, filter (fun n : cstr => n ∉ []) l = l) as ->; [|by destruct s].
  intros l. induction l as [|n l IH]; [done|]. rewrite filter_cons, decide_True by apply not_elem_of_nil. by rewrite IH.
Qed.

Lemma without_app l n s :
  put_names (filter (fun n' => n' <> n) (si_names (without l s))) (without l s) = without (l ++ [n]) s.
Proof.
  unfold without. cbn. unfold put_names. cbn. f_equal. rewrite list_filter_filter. apply list_filter_iff.
  intros n'. rewrite not_elem_of_app, list_elem_of_singleton. tauto.
Qed.

Lemma without_absent l n s : n ∉ si_names (without l s) -> without (l ++ [n]) s = without l s.
Proof.
  intros Hn. rewrite <-without_app. set (w := without l s) in *.
  assert (filter (fun n' => n' <> n) (si_names w) = si_names w) as ->; [|by destruct w].
  clearbody w. induction (si_names w) as [|n' ns IH]; [done|]. apply not_elem_of_cons in Hn as [Hne Hn].
  rewrite filter_cons, decide_True by done. by rewrite IH.
Qed.

Section taking.
Context (own : list N) (st0 : image_store) (p : N) (s0 : storage_image).
Hypothesis (Hp : p ∈ images_list st0) (Hs0 : sim st0 p = Some s0).
Hypothesis (Hlive : forall q, q ∈ images_list st0 -> is_Some (sim st0 q)).

(** The names the others have lost are bound to [p]. *)
Lemma during_bind taken n st st1 m :
  during own st0 p taken st -> refs_ok own st1 -> index_ok st1 ->
  images_list st1 = images_list st0 -> byid st1 = byid st0 -> (forall q d, occurs st1 q d <-> occurs st0 q d) ->
  (forall q, q ∈ images_list st0 -> q <> p -> sim st1 q = without (taken ++ [n]) <$> sim st0 q) ->
  sim st1 p = sim st0 p -> mo_wf m -> mo_abs m = <[n := p]> (mo_abs (byname st)) ->
  during own st0 p (taken ++ [n]) (put_byname m st1).
Proof.
  intros Hd Hr Hx El Ei Ho Hsim Hps Hw Hm. split; [by destruct Hr| |by destruct Hx as [? ? ? [] ?]|done..].
  split; [done|]. intros n' q. cbn. rewrite Hm, El. change (names_of (put_byname m st1) q) with (names_of st1 q).
  rewrite lookup_insert_Some, (nx_name _ _ (du_names _ _ _ _ _ Hd)), (du_list _ _ _ _ _ Hd).
  destruct (decide (q = p)) as [->|Hne].
  - rewrite elem_of_app, list_elem_of_singleton. destruct (decide (n' = n)) as [->|]; naive_solver.
  - split.
    + intros [[_ <-]|(Hnn & Hq & Hin)]; [done|]. split; [done|]. unfold names_of in *.
      rewrite (du_sim _ _ _ _ _ Hd) in Hin by done. rewrite Hsim by done.
      destruct (Hlive q Hq) as [s Hs]. rewrite Hs in *. cbn in *. apply list_elem_of_filter in Hin as [Hin1 Hin2].
      apply list_elem_of_filter. split; [|done]. rewrite not_elem_of_app, list_elem_of_singleton. naive_solver.
    + intros [Hq Hin]. unfold names_of in *. rewrite Hsim in Hin by done. rewrite (du_sim _ _ _ _ _ Hd) by done.
      destruct (Hlive q Hq) as [s Hs]. rewrite Hs in *. cbn in *. apply list_elem_of_filter in Hin as [Hin1 Hin2].
      rewrite not_elem_of_app, list_elem_of_singleton in Hin1. right. split_and!; [naive_solver|done|].
      apply list_elem_of_filter. naive_solver.
Qed.

Lemma absent_sim taken n st q :
  during own st0 p taken st -> q ∈ images_list st0 -> q <> p -> n ∉ names_of st q ->
  sim st q = without (taken ++ [n]) <$> sim st0 q.
Proof.
  intros Hd Hq Hne Hn. unfold names_of in Hn. rewrite (du_sim _ _ _ _ _ Hd) in * by done.
  destruct (Hlive q Hq) as [s Hs]. rewrite Hs in *. cbn in *. f_equal. symmetry. by apply without_absent.
Qed.

Lemma take_name_spec save taken n st :
  during own st0 p taken st -> n ∉ taken -> ie_names E = true -> (save = true -> forall i, ie_save E i = true) ->
  wp (take_name E save p n) (fun z st' => z = 0 /\ during own st0 p (taken ++ [n]) st') st.
Proof.
  intros Hd Hnt Hnm Hsv. pose proof Hd as [D1 D2 D3 D4 D5 D6 D7 D8]. unfold take_name. apply wp_mbind, wp_gets.
  rewrite (mo_search_ok n _ (nx_wf _ _ D2)). destruct (mo_replace_abs n p (byname st) (nx_wf _ _ D2)) as [Hok Hm].
  pose proof (mo_wf_replace n p _ (nx_wf _ _ D2)) as Hmw. destruct (mo_replace n p (byname st)) as [ok m]. cbn in *. subst ok.
  destruct (mo_abs (byname st) !! n) as [q|] eqn:Hq; cbn.
  - apply (nx_name _ _ D2) in Hq as [Hq Hin]. case_decide as Hqp; [done|]. rewrite D4 in Hq.
    destruct (Hlive q Hq) as [s Hs]. pose proof (D7 q Hq Hqp) as Hsq. rewrite Hs in Hsq. cbn in Hsq.
    assert (q <> NULL) as Hnn by (eapply listed_not_null; [done|by rewrite D4]).
    apply wp_mbind, wp_mbind. eapply wp_conseq; [by eapply remove_name_spec|]. intros z st1 [-> ->].
    rewrite without_app. cbn [Z.eqb negb]. set (s' := without (taken ++ [n]) s).
    assert (forall d, during own st0 p (taken ++ [n]) (put_byname m (put_disk d (describe q s' st)))) as Hfin.
    { intros d. eapply during_bind; try done.
      - destruct (refs_describe own q s' st D1). by split.
      - assert (index_ok (describe q s' st)) as [? ? ? [] ?]; [|by split].
        eapply index_describe; [done..| |done]. unfold s'. rewrite <-without_app. apply NoDup_filter.
        rewrite <-D4 in Hq. pose proof (ix_nodup _ D3 q Hq) as Hnd. unfold names_of in Hnd. by rewrite Hsq in Hnd.
      - intros q' Hq' Hne'. change (sim (put_disk d (describe q s' st)) q') with (sim (describe q s' st) q').
        rewrite sim_describe. case_decide as Hqq; [subst; by rewrite Hsq, Hs|]. apply (absent_sim taken n st); [done..|].
        intros Hc. apply Hqq. assert (mo_abs (byname st) !! n = Some q') as Hn'.
        { apply (nx_name _ _ D2). rewrite decide_False, D4 by done. done. }
        assert (mo_abs (byname st) !! n = Some q) as Hn''; [|congruence].
        apply (nx_name _ _ D2). by rewrite decide_False, D4 by done.
      - change (sim (put_disk d (describe q s' st)) p) with (sim (describe q s' st) p).
        by rewrite sim_describe, decide_False by done. }
    eapply (wp_conseq _ (fun z st1 => z = 0 /\ exists d, st1 = put_disk d (describe q s' st))).
    { destruct save.
      - apply wp_mbind. eapply get_simage_spec; [by eapply sim_describe_eq|].
        eapply wp_conseq; [apply save_image_spec|]. rewrite Hsv by done. intros z st1 [-> ->]. eauto.
      - apply wp_mret. split; [done|]. exists (is_disk st). by destruct st. }
    intros z st1 (-> & d & ->). cbn [Z.eqb negb]. apply wp_mbind, wp_modify, wp_mret. by split.
  - apply wp_mbind, wp_mret. cbn [Z.eqb negb]. apply wp_mbind, wp_modify, wp_mret. split; [done|].
    eapply during_bind; try done. intros q Hq' Hne. apply (absent_sim taken n st); [done..|]. intros Hc.
    assert (mo_abs (byname st) !! n = Some q); [|congruence].
    apply (nx_name _ _ D2). by rewrite decide_False, D4 by done.
Qed.

Lemma take_names_spec save taken names st :
  during own st0 p taken st -> NoDup (taken ++ names) -> ie_names E = true ->
  (save = true -> forall i, ie_save E i = true) ->
  wp (take_names E save p names) (fun z st' => z = 0 /\ during own st0 p (taken ++ names) st') st.
Proof.
  revert taken st. induction names as [|n names IH]; intros taken st Hd Hnd Hnm Hsv; cbn.
  { apply wp_mret. by rewrite app_nil_r. }
  apply wp_mbind. eapply wp_conseq; [apply take_name_spec; try done|].
  { apply NoDup_app in Hnd as (_ & Hnd & _). intros Hn. apply (Hnd n Hn), elem_of_cons. by left. }
  intros z st1 [-> Hd1]. cbn [Z.eqb negb].
  assert (taken ++ n :: names = (taken ++ [n]) ++ names) as Ea by by rewrite <-app_assoc.
  rewrite Ea in Hnd |- *. by apply IH.
Qed.
End taking.

(** [st'] is [st] where the names of [p] are [unique], which the other images have lost. *)
Record renamed (p : N) (s : storage_image) (unique : list cstr) st st' : Prop := {
  rn_list : images_list st' = images_list st;
  rn_byid : mo_abs (byid st') = mo_abs (byid st);
  rn_occurs q d : occurs st' q d <-> occurs st q d;
  rn_other q : q ∈ images_list st -> q <> p -> sim st' q = without unique <$> sim st q;
  rn_self : sim st' p = Some (put_names unique s)
}.

Lemma during_start own st p s m :
  is_inv own st -> p ∈ images_list st -> sim st p = Some s -> mo_wf m ->
  (forall n, mo_abs m !! n = if decide (n ∈ si_names s) then None else mo_abs (byname st) !! n) ->
  during own st p [] (put_byname m st).
Proof.
  intros Hi Hp Hs Hw Hm. pose proof Hi as (Hr & Hn & Hx).
  assert (forall n, mo_abs (byname st) !! n = Some p <-> n ∈ si_names s) as Hpn.
  { intros n. rewrite (nx_name _ _ Hn). unfold names_of. rewrite Hs. naive_solver. }
  split; [by destruct Hr| |by destruct Hx as [? ? ? [] ?]|done..| |done].
  - split; [done|]. intros n q. cbn. rewrite Hm. change (names_of (put_byname m st) q) with (names_of st q).
    pose proof (nx_name _ _ Hn n q) as Hnq. case_decide as Hns.
    + split; [done|]. intros [Hq Hin]. case_decide as Hqp; [by apply not_elem_of_nil in Hin|].
      apply Hpn in Hns. destruct Hqp. assert (mo_abs (byname st) !! n = Some q); [by apply Hnq|congruence].
    + case_decide as Hqp; [|done]. subst. split; [by intros ?%Hpn|]. by intros [_ ?%not_elem_of_nil].
  - intros q Hq Hne. change (sim (put_byname m st) q) with (sim st q). destruct (sim st q); cbn; [|done].
    by rewrite without_nil.
Qed.

Lemma during_end own st0 st p s unique :
  during own st0 p unique st -> sim st0 p = Some s -> NoDup unique ->
  is_inv own (describe p (put_names unique s) st) /\ renamed p s unique st0 (describe p (put_names unique s) st).
Proof.
  intros [D1 D2 D3 D4 D5 D6 D7 D8] Hs Hnd. rewrite Hs in D8.
  assert (forall q, sim (describe p (put_names unique s) st) q = if decide (q = p) then Some (put_names unique s) else sim st q) as Es.
  { intros q. rewrite sim_describe. case_decide; [by rewrite D8|done]. }
  split; [split_and!|].
  - by apply refs_describe.
  - destruct D2 as [W N]. split; [done|]. intros n q. cbn. rewrite N. unfold names_of at 2. rewrite Es. by case_decide.
  - by eapply index_describe.
  - split; [done|by cbn; rewrite D5|exact D6| |by rewrite Es, decide_True].
    intros q Hq Hne. rewrite Es, decide_False by done. auto.
Qed.

Lemma assign_names_spec own save st p s unique :
  is_inv own st -> p ∈ images_list st -> sim st p = Some s -> NoDup unique -> ie_names E = true ->
  (save = true -> forall i, ie_save E i = true) ->
  wp (assign_names E save p unique) (fun z st' => is_inv own st' /\ renamed p s unique st st' /\
    z = (if ie_save E (si_id s) then 0 else -1) /\
    (z = 0 -> is_disk st' !! si_id s = Some (put_names unique s))) st.
Proof.
  intros Hi Hp Hs Hnd Hnm Hsv. pose proof Hi as (Hr & Hn & Hx). unfold assign_names.
  assert (names_of st p = si_names s) as Enm by (unfold names_of; by rewrite Hs).
  apply wp_mbind. eapply get_simage_spec; [done|]. apply wp_mbind.
  eapply wp_conseq; [apply remove_names_spec; [apply Hn|rewrite <-Enm; by apply (ix_nodup _ Hx)|]|].
  { intros n Hin. exists p. apply (nx_name _ _ Hn). by rewrite Enm. }
  intros z st1 (-> & m & -> & Hw & Hm). cbn [Z.eqb negb]. apply wp_mbind.
  eapply wp_conseq; [eapply (take_names_spec own st p Hp); [|by eapply during_start|done..]|].
  { intros q Hq. destruct (listed_sim _ _ _ Hi Hq) as [t Ht]. eauto. }
  intros z st2 [-> Hd]. cbn [Z.eqb negb]. cbn [app] in Hd. destruct (during_end _ _ _ _ _ _ Hd Hs Hnd) as [Hi3 Hrn].
  assert (sim st2 p = Some s) as Hs2 by by rewrite (du_p _ _ _ _ _ Hd).
  apply wp_mbind. eapply get_simage_spec; [done|]. apply wp_mbind. eapply set_simage_spec; [eauto|].
  eapply wp_conseq; [apply save_image_spec|]. cbn [si_id put_names]. intros z st3 [-> ->].
  destruct (ie_save E (si_id s)); split_and!; try done; [by apply inv_disk|by destruct Hrn|].
  intros _. cbn. apply lookup_insert_eq.
Qed.

Lemma renamed_refs own1 own2 p s u st st1 st2 st3 :
  p ∈ images_list st -> only_refs st st1 -> refs_ok own1 st1 -> renamed p s u st1 st2 ->
  only_refs st2 st3 -> refs_ok own2 st3 -> renamed p s u st st3.
Proof.
  intros Hp H1 Hr1 [R1 R2 R3 R4 R5] H2 Hr2. rewrite (or_list _ _ H1) in *.
  assert (forall q, q ∈ images_list st -> sim st3 q = sim st2 q) as Hs2.
  { intros q Hq. apply (sim_only_refs own2 _ _ q H2 Hr2). by rewrite R1. }
  split.
  - by rewrite (or_list _ _ H2), R1.
  - by rewrite (or_byid _ _ H2), R2, (or_byid _ _ H1).
  - intros q d. by rewrite (occurs_only_refs _ _ _ _ H2), R3, (occurs_only_refs _ _ _ _ H1).
  - intros q Hq Hne. rewrite Hs2, R4, (sim_only_refs own1 st); done.
  - by rewrite Hs2.
Qed.

(** What the two functions that assign names do. *)
Definition names_assigned (id : cstr) (names_for : storage_image -> list cstr) (z : Z) st st' : Prop :=
  match meaning E st id with
  | None => z = -1 /\ st' = st
  | Some s => exists unique, NoDup unique /\ (forall n, n ∈ unique <-> n ∈ names_for s) /\
      renamed (default NULL (resolve E st id)) s unique st st' /\
      z = (if ie_save E (si_id s) then 0 else -1) /\
      (z = 0 -> is_disk st' !! si_id s = Some (put_names unique s))
  end.

Lemma unique_some names : ie_names E = true -> exists u, util_string_array_unique (opsB := opsB) E names = Some u.
Proof.
  intros Hn. destruct names as [|n names]; cbn; [eauto|].
  destruct (mo_new_ok (cmp := cmp) (ops := opsB)) as (m & -> & _). cbn. rewrite Hn. cbn. eauto.
Qed.

(** Under the reference of the call. *)
Lemma assigned_spec save st st1 id p s names names_for u :
  is_inv [] st -> meaning E st id = Some s -> p = default NULL (resolve E st id) -> p ∈ images_list st ->
  only_refs st st1 -> is_inv [p] st1 -> sim st1 p = Some s -> names_for s = names ->
  util_string_array_unique (opsB := opsB) E names = Some u -> ie_names E = true ->
  (save = true -> forall i, ie_save E i = true) ->
  wp (assign_names E save p u) (fun r st2 => is_inv [p] st2 /\ forall st3, is_inv [] st3 -> only_refs st2 st3 ->
    is_inv [] st3 /\ names_assigned id names_for r st st3) st1.
Proof.
  intros Hi Hm Hp Hl Ho Hi1 Hs <- Hu Hn Hsv. destruct (unique_spec (cmp := cmp) E _ _ Hu) as [Hnd Hun].
  eapply wp_conseq; [eapply assign_names_spec; [done|by rewrite (or_list _ _ Ho)|done..]|].
  intros z st2 (Hi2 & Hrn & Hz & Hd). split; [done|]. intros st3 Hi3 Ho3. split; [done|].
  unfold names_assigned. rewrite Hm, <-Hp. exists u. split_and!; [done..| |done|].
  - eapply renamed_refs; [done|done|apply Hi1|done|done|apply Hi3].
  - by rewrite (or_disk _ _ Ho3).
Qed.

Theorem image_store_add_name_spec st id name :
  is_inv [] st -> ie_lock E = true -> ie_names E = true -> (forall i, ie_save E i = true) ->
  wp (image_store_add_name (opsB := opsB) E (Some id) (Some name)) (fun z st' => is_inv [] st' /\
    names_assigned id (fun s => si_names s ++ [name]) z st st') st.
Proof.
  intros Hi Hlk Hn Hsv. unfold image_store_add_name. rewrite Hlk. cbn [negb]. apply looked_up_spec; [done| |].
  { intros Hm. unfold names_assigned. by rewrite Hm. }
  intros p s st1 Hm Hp Hnn Hl Hs0 Ho Hi1 Hs. apply wp_mbind. eapply get_simage_spec; [done|].
  destruct (unique_some (si_names s ++ [name]) Hn) as [u Hu]. rewrite Hu, Hn. by eapply assigned_spec.
Qed.

Theorem image_store_set_names_spec st id n names :
  is_inv [] st -> ie_lock E = true -> ie_names E = true ->
  wp (image_store_set_names (opsB := opsB) E (Some id) (n :: names)) (fun z st' => is_inv [] st' /\
    names_assigned id (fun _ => n :: names) z st st') st.
Proof.
  intros Hi Hlk Hn. unfold image_store_set_names. rewrite Hlk. cbn [negb]. apply looked_up_spec; [done| |].
  { intros Hm. unfold names_assigned. by rewrite Hm. }
  intros p s st1 Hm Hp Hnn Hl Hs0 Ho Hi1 Hs. destruct (unique_some (n :: names) Hn) as [u Hu]. rewrite Hu.
  by eapply assigned_spec.
Qed.
End image_store.
