(* ===== verification/ImageStoreRun.v ===== *)
(** Sequences of operations of the store of images, and what the store gets wrong. *)
From S2P Require Import Prelude Heap RbSearch KeyOrders MapC MapIface RestartManager ContainersStore ContainersStoreProps Effects ImageStore ImageStoreInv ImageStoreProps ImageStoreBigData ImageStoreNames.

Open Scope Z_scope.

Section image_store.
Context {MI MG MB : Type} {cmp : cstr -> cstr -> Z} `{!KeyOrder cmp}.
Context {opsI : MapOps cstr N MI} `{!MapLaws cmp opsI}.
Context {opsG : MapOps cstr N MG} `{!MapLaws cmp opsG}.
Context {opsB : MapOps cstr bool MB} `{!MapLaws cmp opsB}.
Abbreviation image_store := (image_store MI MG).
Implicit Types (st : image_store).

(** A call, with the outcomes of its environment. *)
Inductive img_op :=
| OpCreate (id : option cstr) (names : list cstr) (layer metadata digest : option cstr)
| OpDelete (id : option cstr)
| OpLookup (id : option cstr)
| OpExists (id : option cstr)
| OpGetNames (id : option cstr)
| OpMetadata (id : option cstr)
| OpTopLayer (id : option cstr)
| OpSetMetadata (id metadata : option cstr)
| OpSetSize (id : option cstr) (size : Z)
| OpAddName (id name : option cstr)
| OpSetNames (id : option cstr) (names : list cstr)
| OpSetBigData (id key : option cstr) (data : cstr).

Definition run_op (E : img_env) (op : img_op) : M image_store unit :=
  match op with
  | OpCreate id names layer md digest => _ ← image_store_create (opsB := opsB) E id names layer md digest; mret tt
  | OpDelete id => _ ← image_store_delete E id; mret tt
  | OpLookup id => _ ← image_store_lookup E id; mret tt
  | OpExists id => _ ← image_store_exists E id; mret tt
  | OpGetNames id => _ ← image_store_get_names E id; mret tt
  | OpMetadata id => _ ← image_store_metadata E id; mret tt
  | OpTopLayer id => _ ← image_store_top_layer E id; mret tt
  | OpSetMetadata id md => _ ← image_store_set_metadata E id md; mret tt
  | OpSetSize id size => _ ← image_store_set_image_size E id size; mret tt
  | OpAddName id name => _ ← image_store_add_name (opsB := opsB) E id name; mret tt
  | OpSetNames id names => _ ← image_store_set_names (opsB := opsB) E id names; mret tt
  | OpSetBigData id key data => _ ← image_store_set_big_data E id key data; mret tt
  end.

(** What the environment of a call must offer. *)
Definition env_fits (E : img_env) (op : img_op) : Prop :=
  match op with
  | OpCreate _ _ _ _ _ => env_ok E
  | OpAddName _ _ => ie_names E = true /\ forall i, ie_save E i = true
  | OpSetNames _ _ => ie_names E = true
  | OpSetBigData _ _ _ => ie_jadd E = true /\ ie_names E = true
  | _ => True
  end.

Definition safe_manifest (E : img_env) (s : storage_image) (key data : cstr) : bool :=
  bool_decide (key <> IMAGE_DIGEST_BIG_DATA_KEY) ||
  bool_decide (get_value (big_data_digests s) key = None) ||
  bool_decide (get_value (big_data_digests s) key = Some (ie_full_digest E data)) ||
  bool_decide (si_digest s <> None).

(** What the caller must see to: a new image has names that are free, and the manifest of an
    image without digest is not replaced. *)
Definition op_fits (E : img_env) (op : img_op) st : bool :=
  match op with
  | OpCreate _ names _ _ _ => forallb (fun n => bool_decide (mo_search n (byname st) = None)) names
  | OpSetBigData (Some id) (Some key) data =>
      match meaning E st id with Some s => safe_manifest E s key data | None => true end
  | _ => true
  end.

Fixpoint run_ops (l : list (img_env * img_op)) : M image_store unit :=
  match l with [] => mret tt | (E, op) :: l => run_op E op;; run_ops l end.

Fixpoint ops_fit (l : list (img_env * img_op)) st : bool :=
  match l with
  | [] => true
  | (E, op) :: l =>
      op_fits E op st && match run_op E op st with Some (_, st') => ops_fit l st' | None => true end
  end.

Lemma with_image_inv {A} E st id (fail : A) f :
  is_inv [] st -> wp (with_image E id fail f) (fun _ st' => is_inv [] st') st.
Proof.
  intros Hi. destruct id as [id|]; [|by apply wp_mret]. destruct (ie_lock E) eqn:Hlk.
  - eapply wp_conseq; [by eapply with_image_spec|]. by intros r st' (? & _).
  - unfold with_image. rewrite Hlk. by apply wp_mret.
Qed.

Lemma update_image_inv E st id f :
  is_inv [] st -> (forall s, si_id (f s) = si_id s /\ si_names (f s) = si_names s /\ forall d, digest_of s d -> digest_of (f s) d) ->
  wp (update_image E id f) (fun _ st' => is_inv [] st') st.
Proof.
  intros Hi Hf. destruct id as [id|]; [|by apply wp_mret]. destruct (ie_lock E) eqn:Hlk.
  - eapply wp_conseq; [by eapply update_image_spec|]. by intros r st' (? & _).
  - unfold update_image. rewrite Hlk. by apply wp_mret.
Qed.

Lemma create_inv E st id names layer md digest :
  is_inv [] st -> env_ok E -> op_fits E (OpCreate id names layer md digest) st = true ->
  wp (image_store_create (opsB := opsB) E id names layer md digest) (fun _ st' => is_inv [] st') st.
Proof.
  intros Hi HE Hop. destruct (ie_lock E) eqn:Hlk; [|unfold image_store_create; rewrite Hlk; by apply wp_mret].
  eapply wp_conseq; [apply image_store_create_spec; try done|by intros r st' (? & _)].
  intros n Hn. cbn in Hop. rewrite forallb_forall in Hop. apply list_elem_of_In, Hop in Hn.
  apply bool_decide_eq_true in Hn. by rewrite mo_search_ok in Hn by apply Hi.
Qed.

Lemma names_inv E st id name names :
  is_inv [] st -> ie_names E = true ->
  ((forall i, ie_save E i = true) ->
    wp (image_store_add_name (opsB := opsB) E id name) (fun _ st' => is_inv [] st') st) /\
  wp (image_store_set_names (opsB := opsB) E id names) (fun _ st' => is_inv [] st') st.
Proof.
  intros Hi Hn. split.
  - intros Hsv. destruct id as [id|], name as [name|]; try (by apply wp_mret).
    destruct (ie_lock E) eqn:Hlk; [|unfold image_store_add_name; rewrite Hlk; by apply wp_mret].
    eapply wp_conseq; [by apply image_store_add_name_spec|by intros r st' (? & _)].
  - destruct id as [id|], names as [|n names]; try (by apply wp_mret).
    destruct (ie_lock E) eqn:Hlk; [|unfold image_store_set_names; rewrite Hlk; by apply wp_mret].
    eapply wp_conseq; [by apply image_store_set_names_spec|by intros r st' (? & _)].
Qed.

Lemma big_data_inv E st id key data :
  is_inv [] st -> env_fits E (OpSetBigData id key data) -> op_fits E (OpSetBigData id key data) st = true ->
  wp (image_store_set_big_data E id key data) (fun _ st' => is_inv [] st') st.
Proof.
  intros Hi [Hj Hn] Hop. destruct key as [key|]; [|by apply wp_mret].
  unfold image_store_set_big_data. destruct (String.length (cstr_str key) =? 0)%nat eqn:Hkey; [by apply wp_mret|].
  destruct (ie_lock E) eqn:Hlk; [|by apply wp_mret]. destruct id as [id|]; [|by apply wp_mret].
  assert (wp (image_store_set_big_data E (Some id) (Some key) data) (fun _ st' => is_inv [] st') st) as Hw.
  { eapply wp_conseq; [apply image_store_set_big_data_spec; try done|by intros r st' (? & _)].
    intros s Hs. cbn in Hop. rewrite Hs in Hop. unfold safe_manifest in Hop. intros Hk.
    rewrite bool_decide_eq_false_2 in Hop by naive_solver. cbn in Hop.
    apply orb_true_iff in Hop as [Hop|Hop]; [apply orb_true_iff in Hop as [Hop|Hop]|];
      apply bool_decide_eq_true in Hop; [by left|right; by left|]. right; right. destruct (si_digest s); [eauto|done]. }
  unfold image_store_set_big_data in Hw. by rewrite Hkey, Hlk in Hw.
Qed.

Lemma run_op_inv E op st :
  is_inv [] st -> env_fits E op -> op_fits E op st = true -> wp (run_op E op) (fun _ st' => is_inv [] st') st.
Proof.
  intros Hi He Hop. destruct op; cbn [run_op]; apply wp_mbind;
    match goal with |- wp _ _ _ => eapply (wp_conseq _ (fun _ st' => is_inv [] st'));
      [|intros; by apply wp_mret] end; try by apply with_image_inv.
  - by apply create_inv.
  - destruct id as [id|]; [|by apply wp_mret].
    destruct (ie_lock E) eqn:Hlk; [|unfold image_store_delete; rewrite Hlk; by apply wp_mret].
    eapply wp_conseq; [by apply image_store_delete_spec|by intros r st' [? ?]].
  - destruct metadata as [md|]; [|by apply wp_mret]. by apply update_image_inv.
  - by apply update_image_inv.
  - destruct He as [Hn Hs]. exact (proj1 (names_inv E st id name [] Hi Hn) Hs).
  - exact (proj2 (names_inv E st id None names Hi He)).
  - by apply big_data_inv.
Qed.

Lemma run_ops_inv l st :
  is_inv [] st -> Forall (fun x => env_fits x.1 x.2) l -> ops_fit l st = true ->
  wp (run_ops l) (fun _ st' => is_inv [] st') st.
Proof.
  revert st. induction l as [|[E op] l IH]; intros st Hi Hl Hfit; cbn; [by apply wp_mret|].
  apply Forall_cons in Hl as [He Hl]. cbn in Hfit. apply andb_true_iff in Hfit as [Hop Hfit].
  apply wp_mbind. destruct (run_op_inv E op st Hi He Hop) as ([] & st' & Hr & Hi'). exists tt, st'. split; [done|].
  rewrite Hr in Hfit. auto.
Qed.

(** ** What the sequences keep *)

Lemma empty_store_inv (mi mn : MI) (mg : MG) :
  mo_wf mi -> mo_abs mi = ∅ -> mo_wf mn -> mo_abs mn = ∅ -> mo_wf mg -> mo_abs mg = ∅ ->
  is_inv [] (IStore ∅ [] 0 mi mn mg ∅ ∅).
Proof.
  intros W1 A1 W2 A2 W3 A3. set (st := IStore _ _ _ _ _ _ _ _).
  assert (forall p d, ~ occurs st p d) as Ho by (intros p d (q & l & Hq & _); cbn in Hq; by rewrite A3 in Hq).
  assert (dig_wf st) as Hw by (split; [done|intros d q; cbn; by rewrite A3|intros d1 d2 q; cbn; by rewrite A3]).
  split_and!.
  - split; cbn; [constructor|done| |done|lia]. intros p. done.
  - split; [done|]. intros n p. cbn. rewrite A2. split; [done|]. by intros [?%not_elem_of_nil _].
  - split; [done| | |done|].
    + intros n p. cbn. rewrite A1. split; [done|]. by intros [?%not_elem_of_nil _].
    + intros p Hp. by apply not_elem_of_nil in Hp.
    + intros p d Hd. by apply Ho in Hd.
Qed.

(** C9: a sequence of calls on the store of images runs without undefined behaviour (no image is
    read, referenced or released after it has been freed) and leaves the store consistent: an
    image is live exactly when it is in the list and then has one reference, the number kept
    is that of the images, the index of ids is exact, a name leads to the one image that has
    it, and whatever the digest index leads to is an image of the list that has the digest
    (that every digest of an image is in the index is not claimed).  The sequences start from
    a consistent store, such as an empty one; loading from disk is not among the calls
    ([loaded_image_dangles]).  The hypotheses on the calls: names of a new image are free
    ([failed_create_dangles]) and the manifest of an image without digest is not replaced
    (image_store.c:1093) ([ops_fit]); memory suffices when an image is created, named or
    given big data, and the files of [image_store_add_name] can be saved ([env_fits]). *)
Theorem image_store_session l st :
  is_inv [] st -> Forall (fun x => env_fits x.1 x.2) l -> ops_fit l st = true ->
  exists st', run_ops l st = Some (tt, st') /\ is_inv [] st' /\
    (forall p, is_Some (is_images st' !! p) <-> p ∈ images_list st') /\
    (forall p i, is_images st' !! p = Some i -> img_refcnt i = 1) /\
    images_list_len st' = wrap_u 64 (Z.of_nat (length (images_list st'))) /\
    (forall i p, mo_search i (byid st') = Some p <-> p ∈ images_list st' /\ si_id <$> sim st' p = Some i) /\
    (forall n p, mo_search n (byname st') = Some p <-> p ∈ images_list st' /\ n ∈ names_of st' p) /\
    (forall d p, occurs st' p d -> p ∈ images_list st' /\ exists s, sim st' p = Some s /\ digest_of s d).
Proof.
  intros Hi Hl Hfit. destruct (run_ops_inv l st Hi Hl Hfit) as ([] & st' & Hr & Hi').
  exists st'. split; [done|]. split; [done|]. destruct Hi' as (R & Hn & Hx).
  assert (forall p, refs st' [] p = if decide (p ∈ images_list st') then 1%nat else 0%nat) as Er.
  { intros p. unfold refs. cbn. case_decide; lia. }
  split_and!.
  - intros p. pose proof (ro_refs _ _ R p) as Hp. rewrite Er in Hp.
    destruct (is_images st' !! p); case_decide; naive_solver.
  - intros p i Hp. pose proof (ro_refs _ _ R p) as Hc. rewrite Hp, Er in Hc. case_decide; naive_solver.
  - apply R.
  - intros i p. rewrite mo_search_ok by apply Hx. apply Hx.
  - intros n p. rewrite mo_search_ok by apply Hn. apply Hn.
  - intros d p. apply (ix_occurs _ Hx).
Qed.

(** C18: deleting an image from a consistent store ([is_inv], which holds after any of the calls
    above on a store that was empty) removes every trace of it, when the lock is taken and
    its directory can be removed: the image found under the given id, name or prefix leaves
    the list and its memory is released, no id, name or digest leads to it any more, its file
    is gone, and every other image is as before.  Stores that hold images loaded at start-up
    are not covered: a loaded image without manifest is entered under digests that deleting
    does not remove ([loaded_image_dangles]). *)
Theorem image_store_delete_complete E st id p s :
  is_inv [] st -> ie_lock E = true -> ie_rmdir E = true ->
  resolve E st id = Some p -> p <> NULL -> sim st p = Some s ->
  exists st', image_store_delete E (Some id) st = Some (0, st') /\ is_inv [] st' /\
    is_images st' !! p = None /\ p ∉ images_list st' /\
    (forall k, mo_search k (byid st') <> Some p) /\ (forall n, mo_search n (byname st') <> Some p) /\
    (forall d, ~ occurs st' p d) /\ is_disk st' = delete (si_id s) (is_disk st) /\
    (forall q, q ∈ images_list st -> q <> p -> q ∈ images_list st' /\ sim st' q = sim st q) /\
    (forall n, n ∉ si_names s -> mo_search n (byname st') = mo_search n (byname st)).
Proof.
  intros Hi Hlk Hrm Hp Hnn Hs. destruct (image_store_delete_spec E st id Hi Hlk) as (z & st' & Hrun & Hdel & Hi').
  destruct (deleted_found E _ _ _ _ p Hdel Hp Hnn) as (Hl & s' & Hs' & [R1 R2 R3 R4 R5] & Hz & Hd).
  rewrite Hrm in Hz, Hd. simplify_eq. exists st'. split; [done|]. split; [done|]. destruct Hi' as (R & Hn & Hx).
  assert (p ∉ images_list st') as Hpl by (rewrite R1, list_elem_of_filter; tauto).
  split_and!; [|done|..].
  - pose proof (ro_refs _ _ R p) as Hc. unfold refs in Hc. rewrite decide_False in Hc by done. cbn in Hc.
    destruct (is_images st' !! p); [|done]. lia.
  - intros k. rewrite mo_search_ok by apply Hx. by intros [? _]%(ix_id _ Hx).
  - intros n. rewrite mo_search_ok by apply Hn. by intros [? _]%(nx_name _ _ Hn).
  - intros d. rewrite R4. tauto.
  - done.
  - intros q Hq Hne. split; [rewrite R1; by apply list_elem_of_filter|auto].
  - intros n Hns. destruct Hi as (_ & Hn0 & _). rewrite !mo_search_ok by (apply Hn || apply Hn0).
    by rewrite R3, decide_False.
Qed.

(** C17: creating an image with free names in a consistent store either adds exactly that image,
    found by its id, by each of its names and by its digest and written to its file, or - when
    the lock, the memory for the image itself, the time or the writing of the file fails, or
    the id is in use - leaves the images and the three indices as they were.  Memory for the list
    node and for the entries of the indices does not run out ([env_ok]): the code leaves
    dangling entries otherwise (image_store.c:774). *)
Theorem image_store_create_atomic E st id names layer metadata digest :
  is_inv [] st -> env_ok E ->
  (forall n, n ∈ names -> mo_search n (byname st) = None) ->
  exists r st', image_store_create (opsB := opsB) E id names layer metadata digest st = Some (r, st') /\
    is_inv [] st' /\
    match r with
    | Some i => exists p s, mo_search i (byid st') = Some p /\ images_list st' = images_list st ++ [p] /\
        sim st' p = Some s /\ si_id s = i /\ is_disk st' = <[i := s]> (is_disk st) /\
        (forall n, mo_search n (byname st') = if decide (n ∈ names) then Some p else mo_search n (byname st)) /\
        (forall q d, occurs st' q d <-> occurs st q d \/ q = p /\ si_digest s = Some d) /\
        (forall q, q ∈ images_list st -> sim st' q = sim st q)
    | None => images_list st' = images_list st /\
        (forall i, mo_search i (byid st') = mo_search i (byid st)) /\
        (forall n, mo_search n (byname st') = mo_search n (byname st)) /\
        (forall q d, occurs st' q d <-> occurs st q d) /\
        (forall q, q ∈ images_list st -> sim st' q = sim st q)
    end.
Proof.
  intros Hi HE Hnm. destruct (ie_lock E) eqn:Hlk.
  2: { exists None, st. split; [unfold image_store_create; by rewrite Hlk|]. done. }
  destruct (image_store_create_spec E HE st id names layer metadata digest Hi Hlk) as (r & st' & Hrun & Hi' & Hc).
  { intros n Hn. rewrite <-mo_search_ok by apply Hi. auto. }
  exists r, st'. split; [done|]. split; [done|]. pose proof Hi as (Hr & Hn & Hx). destruct Hi' as (Hr' & Hn' & Hx').
  destruct r as [i|].
  - destruct Hc as (_ & Hid & p & s & [A1 A2 A3 A4 A5] & <- & _ & _ & _ & _ & Hnames & Hd). exists p, s.
    split_and!; try done.
    + rewrite mo_search_ok, A2 by apply Hx'. apply lookup_insert_eq.
    + by rewrite A5, decide_True.
    + intros n. rewrite !mo_search_ok by (apply Hn || apply Hn'). rewrite A3. pose proof (Hnames n).
      repeat case_decide; tauto.
    + intros q Hq. rewrite A5, decide_False; [done|]. intros ->. 
      assert (p ∈ images_list st) as Hp by done. pose proof (ro_nodup _ _ Hr') as Hnd. rewrite A1 in Hnd.
      apply NoDup_app in Hnd as (_ & Hnd & _). by apply (Hnd p Hp), list_elem_of_singleton.
  - destruct Hc as [[S1 S2 S3 S4 S5] _]. split_and!; try done.
    + intros i. by rewrite !mo_search_ok, S2 by (apply Hx || apply Hx').
    + intros n. by rewrite !mo_search_ok, S3 by (apply Hn || apply Hn').
Qed.

(** Giving a name to an image that exists succeeds when the files can be written: the
    image has the name besides those it had, the name leads to it, no other image has the
    name any more, and the others keep their other names. *)
Theorem image_store_add_name_moves E st id name p s :
  is_inv [] st -> ie_lock E = true -> ie_names E = true -> (forall i, ie_save E i = true) ->
  resolve E st id = Some p -> p <> NULL -> sim st p = Some s ->
  exists st', image_store_add_name (opsB := opsB) E (Some id) (Some name) st = Some (0, st') /\ is_inv [] st' /\
    (forall n, n ∈ names_of st' p <-> n ∈ si_names s \/ n = name) /\
    mo_search name (byname st') = Some p /\
    (forall q n, q ∈ images_list st -> q <> p -> n ∈ names_of st' q <-> n ∈ names_of st q /\ n <> name) /\
    is_disk st' !! si_id s = sim st' p.
Proof.
  intros Hi Hlk Hn Hsv Hp Hnn Hs.
  destruct (image_store_add_name_spec (opsB := opsB) E st id name Hi Hlk Hn Hsv) as (z & st' & Hrun & Hi' & Ha).
  unfold names_assigned in Ha. rewrite (meaning_found E _ _ p), Hp, Hs in Ha by (rewrite ?Hp; done). cbn in Ha.
  destruct Ha as (u & Hnd & Hu & [R1 R2 R3 R4 R5] & Hz & Hd). rewrite Hsv in Hz. subst z.
  exists st'. split; [done|]. split; [done|]. destruct Hi' as (Hr' & Hn' & Hx'). pose proof Hi as (_ & Hn0 & _).
  assert (p ∈ images_list st) as Hpl by by eapply (resolve_listed E []).
  assert (forall n, n ∈ u <-> n ∈ si_names s \/ n = name) as Hu'.
  { intros n. by rewrite Hu, elem_of_app, list_elem_of_singleton. }
  split_and!.
  - intros n. unfold names_of. by rewrite R5.
  - rewrite mo_search_ok by apply Hn'. apply (nx_name _ _ Hn'). split; [by rewrite R1|].
    unfold names_of. rewrite R5. cbn. apply Hu'. by right.
  - intros q n Hq Hne. unfold names_of. rewrite R4 by done. destruct (sim st q) as [t|] eqn:Ht; cbn; [|set_solver].
    rewrite list_elem_of_filter, Hu'. split; [naive_solver|]. intros [Hin Hnn']. split; [|done].
    intros [Hin'|?]; [|done]. apply Hne.
    assert (mo_abs (byname st) !! n = Some q) by (apply (nx_name _ _ Hn0); unfold names_of; by rewrite Ht).
    assert (mo_abs (byname st) !! n = Some p) by (apply (nx_name _ _ Hn0); unfold names_of; by rewrite Hs). congruence.
  - rewrite R5. auto.
Qed.

(** ** What goes wrong *)

Lemma NoDup_single (u : list cstr) n : NoDup u -> (forall x, x ∈ u <-> x ∈ [n]) -> u = [n].
Proof.
  intros Hnd Hu. apply Permutation_singleton_r, NoDup_Permutation; [done|apply NoDup_singleton|done].
Qed.

(** Inserting an image with a name in use fails after the id has been bound. *)
Lemma append_name_used E st p s n q :
  env_ok E -> is_inv [] st -> is_images st !! p = None -> p <> NULL -> si_names s = [n] ->
  mo_abs (byid st) !! si_id s = None -> mo_abs (byname st) !! n = Some q ->
  wp (image_store_append_image E (si_id s) (si_digest s) p)
    (fun z st' => z = -1 /\ mo_wf (byid st') /\ mo_abs (byid st') !! si_id s = Some p /\
       is_images st' = <[p := Image 1 s]> (is_images st))
    (put_images (<[p := Image 1 s]> (is_images st)) st).
Proof.
  intros HE Hi Hf Hnn Hnm Hid Hused. pose proof Hi as (Hr & Hn & Hx).
  unfold image_store_append_image, insert_into_indices. rewrite (eo_node E HE). cbn [negb].
  apply wp_mbind, wp_gets, wp_mbind, wp_modify. cbn. apply wp_mbind, wp_mbind, wp_gets. cbn. rewrite (eo_map E HE).
  destruct (mo_insert_fresh (si_id s) p _ (ix_wf _ Hx) Hid) as [Hok Hm].
  pose proof (mo_wf_insert true (si_id s) p _ (ix_wf _ Hx)) as Hmw.
  destruct (mo_insert true (si_id s) p (byid st)) as [ok ids] eqn:Em. cbn in *. subst ok. cbn [negb].
  apply wp_mbind, wp_modify, wp_mbind.
  eapply wp_conseq; [apply (append_digest_spec E HE); [by destruct (ix_dig _ Hx)|done]|].
  intros z st1 (-> & m1 & h1 & -> & _ & _). cbn. apply wp_mbind.
  eapply get_simage_spec; [unfold sim; cbn; by rewrite lookup_insert_eq|]. cbn. rewrite Hnm. cbn.
  apply wp_mbind, wp_gets. cbn. rewrite (mo_search_ok n _ (nx_wf _ _ Hn)), Hused. apply wp_mret.
  apply wp_mbind, wp_modify, wp_mret. cbn. rewrite Hm, lookup_insert_eq. done.
Qed.

(** Creating an image with a name that another image has fails, and leaves the id bound
    to the image, whose memory has been released: the next lookup of that id reads freed
    memory. *)
Theorem failed_create_dangles E st i n q layer metadata digest :
  is_inv [] st -> env_ok E -> ie_lock E && ie_names E && ie_image E && ie_time E = true ->
  mo_search i (byid st) = None -> mo_search n (byname st) = Some q ->
  exists st', image_store_create (opsB := opsB) E (Some i) [n] layer metadata digest st = Some (None, st') /\
    forall E', ie_lock E' = true -> image_store_lookup E' (Some i) st' = None.
Proof.
  intros Hi HE Hall Hid Hn. rewrite !andb_true_iff in Hall. destruct Hall as [[[Hlk Hnm] Him] Htm].
  assert (wp (image_store_create (opsB := opsB) E (Some i) [n] layer metadata digest)
    (fun r st' => r = None /\ exists p, p <> NULL /\ mo_search i (byid st') = Some p /\ is_images st' !! p = None) st) as Hw.
  { unfold image_store_create. rewrite Hlk. cbn [negb]. apply wp_mbind, wp_gets. rewrite Hid.
    destruct (unique_some (cmp := cmp) (opsB := opsB) E [n] Hnm) as [u Hu]. rewrite Hu.
    apply (unique_spec (cmp := cmp)) in Hu as [Hnd Hu]. rewrite (NoDup_single u n Hnd Hu). cbn.
    unfold new_storage_image. rewrite Him, Htm. cbn. set (s := SImage _ _ _ _ _ _ _ _ _).
    unfold new_image. rewrite Him. cbn [negb]. apply wp_mbind, wp_mbind, wp_gets.
    destruct (eo_image E HE (is_images st)) as [Hf Hnn]. set (p := ie_fresh_image E (is_images st)) in *.
    apply wp_mbind, wp_modify, wp_mret. rewrite decide_False by done. apply wp_mbind.
    eapply wp_conseq; [eapply (append_name_used E st p s); try done; by rewrite <-mo_search_ok by apply Hi|].
    intros z st1 (-> & Hwf & Hid1 & Him1). cbn [Z.eqb negb].
    unfold free_image_t. rewrite decide_False by done. apply wp_mbind, wp_mbind, wp_gets. rewrite Him1.
    apply wp_mbind. eapply wp_lift; [apply lookup_insert_eq|]. apply wp_modify, wp_mret. split; [done|].
    exists p. split; [done|]. cbn. rewrite mo_search_ok by done. split; [done|apply lookup_delete_eq]. }
  destruct Hw as (r & st' & Hrun & -> & p & Hnn & Hp & Hfree). exists st'. split; [done|].
  intros E' Hlk'. unfold image_store_lookup, with_image. rewrite Hlk'. cbn [negb].
  assert (ImageStore.lookup E' i st' = None) as Hl; [|unfold mbind, M_bind; by rewrite Hl].
  unfold ImageStore.lookup. rewrite (bind_run _ _ _ (byid st') st') by done.
  rewrite (bind_run _ _ _ (byname st') st') by done. rewrite Hp, (bind_run _ _ _ p st') by done.
  unfold image_ref_inc. rewrite decide_False by done. unfold mbind, M_bind, gets, lift. by rewrite Hfree.
Qed.

(** The manifest of an image without digest cannot be replaced. *)
Lemma reindex_manifest_null_digest E st p s d full :
  sim st p = Some s -> si_digest s = None -> d <> full ->
  reindex_manifest E p (Some d) full st = None.
Proof.
  intros Hs Hd Hne. unfold reindex_manifest, unindex_old. rewrite decide_False by done.
  unfold sim in Hs. destruct (is_images st !! p) as [im|] eqn:Him; [|done]. cbn in Hs. simplify_eq.
  unfold get_simage, gets, lift, mbind, M_bind. cbn. rewrite Him. cbn. by rewrite Hd.
Qed.

(** Loading does not enter the digest of a manifest into the index. *)
Lemma implicit_digest_skips_manifest E st p s digests k :
  sim st p = Some s -> big_data_digests s = Some digests ->
  get_index_by_key digests.*1 IMAGE_DIGEST_BIG_DATA_KEY = Some k -> implicit_digest E p st = Some (0, st).
Proof.
  intros Hs Hd Hk. unfold sim in Hs. destruct (is_images st !! p) as [im|] eqn:Him; [|done]. cbn in Hs. simplify_eq.
  unfold implicit_digest, get_simage, gets, lift, mbind, M_bind. cbn. rewrite Him. cbn. by rewrite Hd, Hk.
Qed.
End image_store.

(** ** Examples *)

#[local] Abbreviation im_cmp := (cstr_cmp uchar_value).
#[local] Instance im_opsI : MapOps cstr N (gmap cstr N) := gmap_MapOps im_cmp.
#[local] Instance im_opsB : MapOps cstr bool (gmap cstr bool) := gmap_MapOps im_cmp.
#[local] Abbreviation im_store := (image_store (gmap cstr N) (gmap cstr N)).

Definition demo_env : img_env :=
  ImgEnv true true true true true true true true (Some (c_str "r0")) (fun _ => true) true true true
    (fun d => d) true (fun _ => true) (fun _ => true) true (fun _ _ => None) next_address next_address.

Lemma demo_env_ok : env_ok demo_env.
Proof.
  split; try done.
  - intros imgs. split; [apply next_address_fresh|]. cbn. pose proof (proj1 (next_address_spec imgs)). unfold NULL. lia.
  - intros digs. apply next_address_fresh.
Qed.

Definition demo_empty : im_store := IStore ∅ [] 0 ∅ ∅ ∅ ∅ ∅.

Lemma demo_empty_inv : is_inv (cmp := im_cmp) [] demo_empty.
Proof. by apply empty_store_inv. Qed.

Definition im_busybox : cstr := c_str "busybox:latest".
Definition demo_image : img_op := OpCreate (Some (c_str "a1")) [im_busybox] None None (Some (c_str "sha256:1")).
Definition demo_other : img_op := OpCreate (Some (c_str "b2")) [] None None (Some (c_str "sha256:1")).
Definition demo_ops : list (img_env * img_op) := pair demo_env <$>
  [demo_image; demo_other; OpSetBigData (Some (c_str "a1")) (Some IMAGE_DIGEST_BIG_DATA_KEY) (c_str "m");
   OpAddName (Some (c_str "b")) (Some im_busybox); OpSetNames (Some (c_str "a")) [c_str "x"; c_str "x"];
   OpDelete (Some im_busybox); OpLookup (Some (c_str "a1"))].

Lemma demo_ops_fit : Forall (fun x => env_fits x.1 x.2) demo_ops.
Proof. repeat constructor; apply demo_env_ok. Qed.

(** The store with two images, the first of them named. *)
Definition demo_two : list (img_env * img_op) := pair demo_env <$> [demo_image; demo_other].

Lemma demo_two_store : exists st : im_store, is_inv (cmp := im_cmp) [] st /\
  run_ops (opsB := im_opsB) demo_two demo_empty = Some (tt, st).
Proof.
  destruct (run_ops_inv (cmp := im_cmp) (opsB := im_opsB) demo_two demo_empty demo_empty_inv) as ([] & st & Hr & Hi).
  - repeat constructor; apply demo_env_ok.
  - vm_compute. reflexivity.
  - eauto.
Qed.

(** What the store with two images looks like. *)
Lemma demo_two_check (b : im_store -> bool) :
  match run_ops (opsB := im_opsB) demo_two demo_empty with Some (_, st) => b st | None => false end = true ->
  exists st : im_store, is_inv (cmp := im_cmp) [] st /\ b st = true.
Proof. destruct demo_two_store as (st & Hi & ->). eauto. Qed.

Lemma image_store_session_witness :
  exists st', run_ops (opsB := im_opsB) demo_ops demo_empty = Some (tt, st') /\ is_inv (cmp := im_cmp) [] st'.
Proof.
  destruct (image_store_session (cmp := im_cmp) (opsB := im_opsB) demo_ops demo_empty demo_empty_inv demo_ops_fit)
    as (st' & Hr & Hi & _); [vm_compute; reflexivity|]. eauto.
Defined.

Lemma image_store_delete_complete_witness : exists st st' : im_store,
  image_store_delete demo_env (Some im_busybox) st = Some (0, st') /\ is_images st' !! 1%N = None.
Proof.
  destruct (demo_two_check (fun st => bool_decide (resolve (cmp := im_cmp) demo_env st im_busybox = Some 1%N) &&
    match sim st 1 with Some s => true | None => false end)) as (st & Hi & Hb); [vm_compute; reflexivity|].
  apply andb_true_iff in Hb as [Hb1 Hb2]. apply bool_decide_eq_true in Hb1.
  destruct (sim st 1) as [s|] eqn:Hs; [|done].
  destruct (image_store_delete_complete (cmp := im_cmp) demo_env st im_busybox 1 s Hi eq_refl eq_refl Hb1)
    as (st' & Hr & _ & Hf & _); [discriminate|exact Hs|]. exists st, st'. auto.
Defined.

(** The file of the new image cannot be written. *)
Definition no_save_env : img_env :=
  ImgEnv true true true true true true true true (Some (c_str "r0")) (fun _ => false) true true true
    (fun d => d) true (fun _ => true) (fun _ => true) true (fun _ _ => None) next_address next_address.
Lemma no_save_env_ok : env_ok no_save_env.
Proof. destruct demo_env_ok as [H1 H2 H3 H4 H5]. by split. Qed.

Definition demo_create (E : img_env) (st : im_store) : option (option cstr * im_store) :=
  image_store_create (opsB := im_opsB) E (Some (c_str "c3")) [c_str "y"] None None (Some (c_str "sha256:1")) st.

Lemma image_store_create_atomic_witness : exists st : im_store,
  (exists p st', demo_create demo_env st = Some (Some (c_str "c3"), st') /\ images_list st' = images_list st ++ [p] /\
     occurs st' p (c_str "sha256:1")) /\
  exists st', demo_create no_save_env st = Some (None, st') /\ images_list st' = images_list st /\
    forall q d, occurs st' q d <-> occurs st q d.
Proof.
  destruct (demo_two_check (fun st => bool_decide (byname st !! c_str "y" = None) &&
    bool_decide (fst <$> demo_create demo_env st = Some (Some (c_str "c3"))) &&
    bool_decide (fst <$> demo_create no_save_env st = Some None) &&
    match demo_create demo_env st with Some (_, st') => bool_decide (si_digest <$> sim st' 3 = Some (Some (c_str "sha256:1"))) &&
      bool_decide (byid st' !! c_str "c3" = Some 3%N) | None => false end)) as (st & Hi & Hb);
    [vm_compute; reflexivity|].
  rewrite !andb_true_iff, !bool_decide_eq_true in Hb. destruct Hb as [[[Hb H1] H2] H3]. unfold demo_create in *.
  assert (forall n, n ∈ [c_str "y"] -> mo_search n (byname st) = None) as Hn by by intros n ->%list_elem_of_singleton.
  destruct (image_store_create_atomic (cmp := im_cmp) (opsB := im_opsB) demo_env st (Some (c_str "c3")) [c_str "y"] None None
    (Some (c_str "sha256:1")) Hi demo_env_ok Hn) as (r & st' & Hr & _ & Hc).
  destruct (image_store_create_atomic (cmp := im_cmp) (opsB := im_opsB) no_save_env st (Some (c_str "c3")) [c_str "y"] None None
    (Some (c_str "sha256:1")) Hi no_save_env_ok Hn) as (r2 & st2 & Hr2 & _ & Hc2).
  exists st. rewrite Hr in H1, H3 |- *. rewrite Hr2 in H2 |- *. cbn in H1, H2. simplify_eq. split.
  - destruct Hc as (p & s & Hid & Hl & Hs & _ & _ & _ & Ho & _). exists p, st'. split_and!; [done..|].
    rewrite andb_true_iff, !bool_decide_eq_true in H3. destruct H3 as [H3 Hid'].
    assert (p = 3%N) as -> by (cbn in Hid; congruence). apply Ho. right. split; [done|].
    rewrite Hs in H3. by injection H3.
  - exists st2. split; [done|]. split; [apply Hc2|apply Hc2].
Defined.

Lemma image_store_add_name_moves_witness : exists st st' : im_store,
  image_store_add_name (opsB := im_opsB) demo_env (Some (c_str "b2")) (Some im_busybox) st = Some (0, st') /\
  byname st' !! im_busybox = Some 2%N.
Proof.
  destruct (demo_two_check (fun st => bool_decide (resolve (cmp := im_cmp) demo_env st (c_str "b2") = Some 2%N) &&
    match sim st 2 with Some s => true | None => false end)) as (st & Hi & Hb); [vm_compute; reflexivity|].
  apply andb_true_iff in Hb as [Hb1 Hb2]. apply bool_decide_eq_true in Hb1.
  destruct (sim st 2) as [s|] eqn:Hs; [|done].
  destruct (image_store_add_name_moves (cmp := im_cmp) (opsB := im_opsB) demo_env st (c_str "b2") im_busybox 2 s Hi
    eq_refl eq_refl (fun _ => eq_refl) Hb1) as (st' & Hr & _ & _ & Hm & _); [discriminate|exact Hs|].
  exists st, st'. auto.
Defined.

Lemma failed_create_dangles_witness : exists st st' : im_store,
  image_store_create (opsB := im_opsB) demo_env (Some (c_str "c3")) [im_busybox] None None None st = Some (None, st') /\
  image_store_lookup demo_env (Some (c_str "c3")) st' = None.
Proof.
  destruct (demo_two_check (fun st => bool_decide (byid st !! c_str "c3" = None) &&
    bool_decide (byname st !! im_busybox = Some 1%N))) as (st & Hi & Hb); [vm_compute; reflexivity|].
  apply andb_true_iff in Hb as [Hb1 Hb2]. apply bool_decide_eq_true in Hb1, Hb2.
  destruct (failed_create_dangles (cmp := im_cmp) (opsB := im_opsB) demo_env st (c_str "c3") im_busybox 1 None None None
    Hi demo_env_ok eq_refl Hb1 Hb2) as (st' & Hr & Hl). exists st, st'. auto.
Defined.

(** An image without manifest that was loaded from disk stays in the index of digests after
    its deletion, although its memory has been released. *)
Definition no_manifest : storage_image :=
  SImage (c_str "a1") None [] None None 0 [c_str "k"] None (Some [(c_str "k", c_str "sha256:1")]).

Lemma loaded_image_dangles :
  match (r ← do_append_image demo_env no_manifest demo_empty; image_store_delete demo_env (Some (c_str "a1")) r.2) with
  | Some (0, st) => bool_decide (is_images st !! 1%N = None) &&
      bool_decide (bydigest st !! c_str "sha256:1" = Some 1%N) && bool_decide (is_digests st !! 1%N = Some [1%N])
  | _ => false
  end = true.
Proof. vm_compute. reflexivity. Qed.
