(* ===== verification/Timestamp.v ===== *)
(** Times: src/src/utils/cutils/utils_timestamp.c, and [util_valid_time_tz] of utils_verify.c.

    The calendar functions of libc are the proleptic Gregorian calendar; the time zone is a
    parameter.  A function whose arithmetic overflows a signed integer, or which reads an
    indeterminate buffer, is undefined and yields the outer [None]; the inner [None] is the
    failure the function reports. *)
From Stdlib Require Import Ascii.
From S2P Require Import Prelude KeyOrders StrUtils Convert.

Open Scope Z_scope.

Definition Time_Nano : Z := 1.
Definition Time_Micro : Z := 1000 * Time_Nano.
Definition Time_Milli : Z := 1000 * Time_Micro.
Definition Time_Second : Z := 1000 * Time_Milli.
Definition Time_Minute : Z := 60 * Time_Second.
Definition Time_Hour : Z := 60 * Time_Minute.

Definition rFC339Local : cs := bs "2006-01-02T15:04:05".
Definition rFC339NanoLocal : cs := bs "2006-01-02T15:04:05.999999999".
Definition dateLocal : cs := bs "2006-01-02".
Definition defaultContainerTime : cs := bs "0001-01-01T00:00:00Z".

(** [types_timestamp_t] and [struct types_timezone] *)
Record types_timestamp := Ts { has_seconds : bool; seconds : Z; has_nanos : bool; nanos : Z }.
Record types_timezone := Tz { tz_hour : Z; tz_min : Z }.

(** [struct tm], the fields in use. *)
Record tm := Tm { tm_year : Z; tm_mon : Z; tm_mday : Z; tm_hour : Z; tm_min : Z; tm_sec : Z }.
Definition tm_zero : tm := Tm 0 0 0 0 0 0.

(** Results of signed arithmetic. *)
Definition int32 (z : Z) : option Z := if (- 2 ^ 31 <=? z) && (z <? 2 ^ 31) then Some z else None.
Definition int64 (z : Z) : option Z := if (- 2 ^ 63 <=? z) && (z <? 2 ^ 63) then Some z else None.

(** ** libc *)

(** The Gregorian calendar: leap years, days before a year (since 1970-01-01) and before a
    month of a year. *)
Definition leap (y : Z) : bool := (y mod 4 =? 0) && (negb (y mod 100 =? 0) || (y mod 400 =? 0)).
Definition year_start (y : Z) : Z := 365 * (y - 1970) + ((y - 1) / 4 - (y - 1) / 100 + (y - 1) / 400) - 477.
Definition month_start (l m : Z) : Z :=
  if m <=? 1 then 0 else if m <=? 2 then 31 else if m <=? 3 then 59 + l else if m <=? 4 then 90 + l
  else if m <=? 5 then 120 + l else if m <=? 6 then 151 + l else if m <=? 7 then 181 + l
  else if m <=? 8 then 212 + l else if m <=? 9 then 243 + l else if m <=? 10 then 273 + l
  else if m <=? 11 then 304 + l else 334 + l.
Definition month_of (l n : Z) : Z :=
  if n <? 31 then 1 else if n <? 59 + l then 2 else if n <? 90 + l then 3 else if n <? 120 + l then 4
  else if n <? 151 + l then 5 else if n <? 181 + l then 6 else if n <? 212 + l then 7
  else if n <? 243 + l then 8 else if n <? 273 + l then 9 else if n <? 304 + l then 10
  else if n <? 334 + l then 11 else 12.

Definition days_from_civil (y m d : Z) : Z :=
  year_start y + month_start (if leap y then 1 else 0) m + d - 1.
(** The year is guessed from its mean length and corrected. *)
Definition year_of (z : Z) : Z :=
  let y := 1970 + 400 * z / 146097 in
  if z <? year_start y then y - 1 else if z >=? year_start (y + 1) then y + 1 else y.
Definition civil_from_days (z : Z) : Z * Z * Z :=
  let y := year_of z in
  let l := if leap y then 1 else 0 in
  let m := month_of l (z - year_start y) in
  (y, m, z - year_start y - month_start l m + 1).

Definition timegm (t : tm) : Z :=
  days_from_civil (tm_year t + 1900) (tm_mon t + 1) (tm_mday t) * 86400 +
    tm_hour t * 3600 + tm_min t * 60 + tm_sec t.
(** NULL when the year does not fit. *)
Definition gmtime (s : Z) : option tm :=
  let '(y, m, d) := civil_from_days (s / 86400) in
  let r := s mod 86400 in
  y ← int32 (y - 1900);
  Some (Tm y (m - 1) d (r / 3600) (r / 60 mod 60) (r mod 60)).

(** A time zone: what [localtime] and [mktime] do. *)
Record zone := Zone { localtime : Z -> option tm; mktime : tm -> Z }.
(** A zone that is always at [off] seconds from Greenwich: it stands for [localtime] and [mktime] of a
    zone without daylight saving time. *)
Definition fixed_zone (off : Z) : zone := Zone (fun s => gmtime (s + off)) (fun t => timegm t - off).

(** "%0wd" *)
Definition pad0 (w : nat) (s : cs) : cs := replicate (w - length s) "0"%char ++ s.
Definition fmt0 (w : nat) (z : Z) : cs :=
  if z <? 0 then "-"%char :: pad0 (w - 1) (print_llu (- z)) else pad0 w (print_llu z).

(** [strftime] with "%Y-%m-%dT%H:%M:%S" *)
Definition strftime_local (t : tm) : cs :=
  print_lld (tm_year t + 1900) ++ bs "-" ++ fmt0 2 (tm_mon t + 1) ++ bs "-" ++ fmt0 2 (tm_mday t) ++
  bs "T" ++ fmt0 2 (tm_hour t) ++ bs ":" ++ fmt0 2 (tm_min t) ++ bs ":" ++ fmt0 2 (tm_sec t).

Definition isdigit (c : ascii) : bool := (48 <=? code c) && (code c <=? 57).

(** ** Timestamps *)

(** Division truncates. *)
Definition unix_nanos_to_timestamp (n : Z) : types_timestamp :=
  Ts true (Z.quot n Time_Second) true (Z.rem n Time_Second).

Definition types_timestamp_cmp_check (t1 t2 : option types_timestamp) : Z :=
  match t1, t2 with
  | None, None => 0
  | Some _, None => 1
  | None, Some _ => -1
  | Some _, Some _ => 2
  end.
Definition types_timestamp_cmp_nanos (t1 t2 : types_timestamp) : Z :=
  if has_nanos t1 && has_nanos t2 then
    if nanos t1 >? nanos t2 then 1 else if nanos t1 <? nanos t2 then -1 else 0
  else if has_nanos t1 then 1 else if has_nanos t2 then -1 else 0.
Definition util_types_timestamp_cmp (t1 t2 : option types_timestamp) : Z :=
  match t1, t2 with
  | Some t1, Some t2 =>
      if has_seconds t1 && has_seconds t2 then
        if seconds t1 >? seconds t2 then 1
        else if seconds t1 <? seconds t2 then -1
        else types_timestamp_cmp_nanos t1 t2
      else if has_seconds t1 then 1 else if has_seconds t2 then -1 else 0
  | _, _ => types_timestamp_cmp_check t1 t2
  end.

Definition util_get_time_interval (first last : types_timestamp) : option (option Z) :=
  seconds_diff ← int64 ((if has_seconds last then seconds last else 0) - (if has_seconds first then seconds first else 0));
  nanos_diff ← int32 ((if has_nanos last then nanos last else 0) - (if has_nanos first then nanos first else 0));
  if (seconds_diff >? (2 ^ 63 - 1) / Time_Second) ||
     ((seconds_diff =? (2 ^ 63 - 1) / Time_Second) && (nanos_diff >? (2 ^ 63 - 1) mod Time_Second))
  then Some None
  else
    product ← int64 (seconds_diff * Time_Second);
    result ← int64 (product + nanos_diff);
    Some (Some result).

(** ** Printing *)

(** [None]: the buffer is too small for [strftime] and is read all the same;
    [Some None]: failure. *)
Definition get_time_buffer_help (zn : zone) (timestamp : types_timestamp) (maxsize : Z) (local_utc : bool)
    : option (option cs) :=
  if (maxsize =? 0) || negb (has_seconds timestamp) then Some None
  else
    let tm_local := default tm_zero (localtime zn (seconds timestamp)) in
    let timebuffer := strftime_local tm_local in
    if maxsize <=? Z.of_nat (length timebuffer) then None
    else
      let nanos := if has_nanos timestamp then nanos timestamp else 0 in
      let tmp_size := maxsize - Z.of_nat (length timebuffer) in
      let tail :=
        if local_utc then bs "." ++ fmt0 9 nanos ++ bs "Z"
        else
          let tm_utc := default tm_zero (gmtime (seconds timestamp)) in
          let tm_zone := tm_hour tm_local - tm_hour tm_utc in
          let tm_zone := if tm_zone <? -12 then tm_zone + 24
                         else if tm_zone >? 12 then tm_zone - 24 else tm_zone in
          if tm_zone >=? 0 then bs "." ++ fmt0 9 nanos ++ bs "+" ++ fmt0 2 tm_zone ++ bs ":00"
          else bs "." ++ fmt0 9 nanos ++ bs "-" ++ fmt0 2 (- tm_zone) ++ bs ":00" in
      if Z.of_nat (length tail) >=? tmp_size then Some None else Some (Some (timebuffer ++ tail)).

Definition util_get_time_buffer (zn : zone) (timestamp : types_timestamp) (maxsize : Z) : option (option cs) :=
  get_time_buffer_help zn timestamp maxsize false.

(** [clock]: what [clock_gettime] gives. *)
Definition util_get_now_time_stamp (clock : option (Z * Z)) : option types_timestamp :=
  '(sec, nsec) ← clock; Some (Ts true sec true (wrap_s 32 nsec)).
Definition util_get_now_time_nanos (clock : option (Z * Z)) : option Z :=
  match clock with None => Some 0 | Some (sec, nsec) => p ← int64 (sec * Time_Second); int64 (p + nsec) end.
Definition util_get_now_time_buffer (zn : zone) (clock : option (Z * Z)) (maxsize : Z) : option (option cs) :=
  match util_get_now_time_stamp clock with
  | None => Some None
  | Some ts => util_get_time_buffer zn ts maxsize
  end.
Definition util_get_now_local_utc_time_buffer (zn : zone) (clock : option (Z * Z)) (maxsize : Z) : option (option cs) :=
  match util_get_now_time_stamp clock with
  | None => Some None
  | Some ts => get_time_buffer_help zn ts maxsize true
  end.

(** ** Parsing *)

(** A character is an [int] of the value [cval]. *)
Section parsing.
Context (cval : ascii -> Z).

(** The number at the start of [time] and what follows it. *)
Fixpoint parsing_time_to_digit (sum : Z) (time : cs) : option (Z * cs) :=
  match time with
  | [] => Some (sum, [])
  | c :: rest =>
      if isdigit c then x ← int32 (sum * 10 + code c); parsing_time_to_digit (x - 48) rest
      else Some (sum, time)
  end.

(** The separators may be any characters; what is missing stays. *)
Definition parsing_time_data (time : cs) (t : tm) : option tm :=
  '(y, r) ← parsing_time_to_digit 0 time;
  let t := Tm y (tm_mon t) (tm_mday t) (tm_hour t) (tm_min t) (tm_sec t) in
  match r with [] => Some t | _ :: r =>
  '(m, r) ← parsing_time_to_digit 0 r;
  let t := Tm y m (tm_mday t) (tm_hour t) (tm_min t) (tm_sec t) in
  match r with [] => Some t | _ :: r =>
  '(d, r) ← parsing_time_to_digit 0 r;
  let t := Tm y m d (tm_hour t) (tm_min t) (tm_sec t) in
  match r with [] => Some t | _ :: r =>
  '(h, r) ← parsing_time_to_digit 0 r;
  let t := Tm y m d h (tm_min t) (tm_sec t) in
  match r with [] => Some t | _ :: r =>
  '(mi, r) ← parsing_time_to_digit 0 r;
  let t := Tm y m d h mi (tm_sec t) in
  match r with [] => Some t | _ :: r =>
  '(s, r) ← parsing_time_to_digit 0 r;
  Some (Tm y m d h mi s)
  end end end end end.

(** The two loops over the fraction: its characters, whatever they are, then the zeros up to
    the length of the format. *)
Fixpoint nanos_digits (n : Z) (time : cs) : option Z :=
  match time with
  | [] => Some n
  | c :: time => x ← int32 (n * 10); x ← int32 (x + cval c); x ← int32 (x - 48); nanos_digits x time
  end.
Fixpoint nanos_scale (n : Z) (k : nat) : option Z :=
  match k with O => Some n | S k => x ← int32 (n * 10); nanos_scale x k end.

Definition util_parsing_time (format time : cs) (t : tm) : option (option (tm * Z)) :=
  let index_nanos := if bool_decide (format = rFC339NanoLocal) then (length rFC339Local + 1)%nat else O in
  if (if (index_nanos =? 0)%nat then negb (length format =? length time)%nat
      else (length format <? length time)%nat || (length time <=? index_nanos)%nat)
  then Some None
  else
    n ← (if (index_nanos =? 0)%nat then Some 0
         else n ← nanos_digits 0 (drop index_nanos time); nanos_scale n (length format - length time));
    t ← parsing_time_data time t;
    Some (Some (t, n)).

Definition is_out_of_range (value lower upper : Z) : bool := (value >? upper) || (value <? lower).
Definition is_leap_year (year : Z) : bool :=
  ((Z.rem year 4 =? 0) && negb (Z.rem year 100 =? 0)) || (Z.rem year 400 =? 0).
Definition get_valid_days (mon year : Z) : Z :=
  let leap_year := if is_leap_year year then 1 else 0 in
  if mon =? 2 then (31 - 3) + leap_year
  else if (mon =? 4) || (mon =? 6) || (mon =? 9) || (mon =? 11) then 30 else 31.

Definition util_fix_date (t : tm) : option tm :=
  if is_out_of_range (tm_hour t) 0 23 || is_out_of_range (tm_min t) 0 59 || is_out_of_range (tm_sec t) 0 59 ||
     is_out_of_range (tm_mon t) 1 12 || is_out_of_range (tm_year t) 1900 2100
  then None
  else if is_out_of_range (tm_mday t) 1 (get_valid_days (tm_mon t) (tm_year t)) then None
  else Some (Tm (tm_year t - 1900) (tm_mon t - 1) (tm_mday t) (tm_hour t) (tm_min t) (tm_sec t)).

(** The format is chosen by the punctuation. *)
Definition time_format (str : cs) : option cs :=
  if util_strings_contains_any (Some str) (Some (bs ".")) then Some rFC339NanoLocal
  else if util_strings_contains_any (Some str) (Some (bs "T")) then
    let tcolons := util_strings_count cval (Some str) ":"%char in
    if tcolons =? 0 then Some (bs "2016-01-02T15")
    else if tcolons =? 1 then Some (bs "2016-01-02T15:04")
    else if tcolons =? 2 then Some rFC339Local
    else None
  else Some dateLocal.

Definition util_get_tm_from_str (str : cs) (t : tm) : option (option (tm * Z)) :=
  match time_format str with
  | None => Some None
  | Some format =>
      r ← util_parsing_time format str t;
      match r with
      | None => Some None
      | Some (t, n) => Some (t ← util_fix_date t; Some (t, n))
      end
  end.

Definition util_get_timestamp (zn : zone) (str_time : option cs) (timestamp : types_timestamp)
    : option (option types_timestamp) :=
  match str_time with
  | None => Some None
  | Some str =>
      r ← util_get_tm_from_str str tm_zero;
      Some ('(t, n) ← r;
            Some (if n =? 0 then Ts true (mktime zn t) (has_nanos timestamp) (nanos timestamp)
                  else Ts true (mktime zn t) true n))
  end.

(** ** Zones *)

(** [strrchr]: what is before the last [c], and what is after it. *)
Fixpoint strrchr (c : ascii) (s : cs) : option (cs * cs) :=
  match s with
  | [] => None
  | x :: s' =>
      match strrchr c s' with
      | Some (p, q) => Some (x :: p, q)
      | None => if Ascii.eqb x c then Some ([], s') else None
      end
  end.

(** What is before the last sign, the sign, and what is after it: a plus anywhere is
    preferred. *)
Definition tm_get_zp (tmstr : cs) : option (cs * ascii * cs) :=
  match strrchr "+" tmstr with
  | Some (p, q) => Some (p, "+"%char, q)
  | None => '(p, q) ← strrchr "-" tmstr; Some (p, "-"%char, q)
  end.

Definition tz_init_ok (sign : ascii) (zonestr : cs) : option (option types_timezone) :=
  let positive := if Ascii.eqb sign "-" then -1 else 1 in
  '(h, r) ← parsing_time_to_digit 0 zonestr;
  match r with
  | [] => Some None
  | _ :: r =>
      '(m, _) ← parsing_time_to_digit 0 r;
      Some (Some (Tz (positive * h) (positive * m)))
  end.

Definition get_tm_zone_from_str (str : cs) : option (option (tm * Z * types_timezone)) :=
  match tm_get_zp str with
  | None => Some None
  | Some (tmstr, sign, zonestr) =>
      r ← util_get_tm_from_str tmstr tm_zero;
      match r with
      | None => Some None
      | Some (t, n) =>
          z ← tz_init_ok sign zonestr;
          Some (z ← z; Some (t, n, z))
      end
  end.

Definition get_minmus_time (zn : zone) (tm1 tm2 : tm) : option Z := int64 (mktime zn tm1 - mktime zn tm2).

(** Seconds between the time [in] and [currentime]; the zone is added. *)
Definition seconds_between (zn : zone) (currentime : Z) (r : tm * Z * types_timezone) : option (option Z) :=
  let '(t, _, tz) := r in
  match gmtime currentime with
  | None => Some None
  | Some currentm =>
      d ← get_minmus_time zn currentm t;
      d ← int64 (d + tz_hour tz * 3600 + tz_min tz * 60);
      Some (Some d)
  end.

Definition is_no_time (str : option cs) : bool :=
  match str with
  | None => true
  | Some s => bool_decide (s = defaultContainerTime) || bool_decide (s = bs "-")
  end.

Definition util_time_seconds_since (zn : zone) (currentime : Z) (str : option cs) : option Z :=
  if is_no_time str then Some 0
  else
    r ← get_tm_zone_from_str (default [] str);
    match r with
    | None => Some 0
    | Some r => d ← seconds_between zn currentime r; Some (match d with Some d => Z.max 0 d | None => 0 end)
    end.

(** ** Durations for people *)

Definition g_time_human_duration_rules : list ((Z -> bool) * (Z -> cs)) := [
  ((fun s => s <? 1), (fun _ => bs "Less than a second"));
  ((fun s => s <? 60), (fun s => print_lld s ++ bs " seconds"));
  ((fun s => Z.quot s 60 =? 1), (fun _ => bs "About a minute"));
  ((fun s => Z.quot s 60 <? 60), (fun s => print_lld (Z.quot s 60) ++ bs " minutes"));
  ((fun s => Z.quot s (60 * 60) =? 1), (fun _ => bs "About an hour"));
  ((fun s => Z.quot s (60 * 60) <? 48), (fun s => print_lld (Z.quot s (60 * 60)) ++ bs " hours"));
  ((fun s => Z.quot s (60 * 60) <? 7 * 48), (fun s => print_lld (Z.quot s (60 * 60 * 24)) ++ bs " days"));
  ((fun s => Z.quot s (60 * 60) <? 24 * 30 * 3), (fun s => print_lld (Z.quot s (60 * 60 * 24 * 7)) ++ bs " weeks"));
  ((fun s => Z.quot s (60 * 60) <? 24 * 365 * 2), (fun s => print_lld (Z.quot s (60 * 60 * 24 * 30)) ++ bs " months"));
  ((fun s => Z.quot s (60 * 60) >=? 24 * 365 * 2), (fun s => print_lld (Z.quot s (60 * 60 * 24 * 365)) ++ bs " years"))].

(** The first rule that applies; without one the buffer stays as it was ([out]). *)
Fixpoint apply_rules (rules : list ((Z -> bool) * (Z -> cs))) (seconds : Z) (out : cs) : cs :=
  match rules with
  | [] => out
  | (check, gen) :: rules => if check seconds then gen seconds else apply_rules rules seconds out
  end.
Definition time_human_duration (seconds : Z) (out : cs) (len : Z) : option cs :=
  if (seconds =? 0) || (len =? 0) then None
  else
    let s := apply_rules g_time_human_duration_rules seconds out in
    if Z.of_nat (length s) >=? len then None else Some s.

(** The status and what the buffer holds. *)
Definition time_format_duration_bad (len : Z) (out : cs) : Z * cs :=
  if 1 >=? len then (-1, if len =? 1 then [] else out) else (1, bs "-").

Definition util_time_format_duration (zn : zone) (currentime : Z) (str : option cs) (out : cs) (len : Z)
    : option (Z * cs) :=
  if is_no_time str then Some (time_format_duration_bad len out)
  else
    r ← get_tm_zone_from_str (default [] str);
    match r with
    | None => Some (time_format_duration_bad len out)
    | Some r =>
        d ← seconds_between zn currentime r;
        match d with
        | None => Some (-1, out)
        | Some d =>
            match (if d <? 0 then None else time_human_duration d out len) with
            | None => Some (time_format_duration_bad len out)
            | Some s => Some (0, s)
            end
        end
    end.

Definition util_time_format_duration_ago (zn : zone) (currentime : Z) (str : option cs) (out : cs) (len : Z)
    : option (Z * cs) :=
  r ← util_time_format_duration zn currentime str out len;
  let '(st, s) := r in
  if negb (st =? 0) then Some (-1, s)
  else if negb (bool_decide (s = bs "-")) && (Z.of_nat (length s) + 5 <? len) then Some (0, s ++ bs " ago")
  else Some (0, s).

(** ** Unix times *)

(** The expression "^[0-9]{4}-[0-9]{2}-[0-9]{2}T[0-9]{2}:[0-9]{2}:[0-9]{2}(.[0-9]{1,9})?(Z|[+-][0-9]{2}:[0-9]{2})$";
    its dot matches any character. *)
Definition match_zone (s : cs) : bool :=
  match s with
  | ["Z"%char] => true
  | [g; a; b; ":"%char; c; d] =>
      (Ascii.eqb g "+" || Ascii.eqb g "-") && isdigit a && isdigit b && isdigit c && isdigit d
  | _ => false
  end.
Fixpoint match_digits (k : nat) (s : cs) : option cs :=
  match k, s with
  | O, _ => Some s
  | S k, c :: s => if isdigit c then match_digits k s else None
  | S _, [] => None
  end.
Definition match_char (c : ascii) (s : cs) : option cs :=
  match s with x :: s => if Ascii.eqb x c then Some s else None | [] => None end.
Definition match_date (s : cs) : option cs :=
  s ← match_digits 4 s; s ← match_char "-" s; s ← match_digits 2 s; s ← match_char "-" s; s ← match_digits 2 s;
  s ← match_char "T" s; s ← match_digits 2 s; s ← match_char ":" s; s ← match_digits 2 s; s ← match_char ":" s;
  match_digits 2 s.
Definition util_valid_time_tz (time : option cs) : bool :=
  match time with
  | None => false
  | Some time =>
      match match_date time with
      | None => false
      | Some s =>
          match_zone s ||
          existsb (fun k => match match_digits k (tail s) with
                            | Some r => bool_decide (s <> []) && match_zone r
                            | None => false
                            end) (seq 1 9)
      end
  end.

Definition time_tz_to_seconds_nanos (time_tz : cs) : option (option (Z * Z)) :=
  match time_tz with
  | [] => None
  | _ :: _ =>
      r ← util_get_tm_from_str (removelast time_tz) tm_zero;
      Some ('(t, n) ← r; Some (timegm t, n))
  end.

Definition unix_nanos (seconds nanos : Z) : option Z := p ← int64 (seconds * Time_Second); int64 (p + nanos).

(** The zone of the string is parsed and not used. *)
Definition util_to_unix_nanos_from_str (zn : zone) (str : option cs) : option (option Z) :=
  match str with
  | None => Some (Some 0)
  | Some s =>
      if bool_decide (s = []) || bool_decide (s = defaultContainerTime) then Some (Some 0)
      else if negb (util_valid_time_tz (Some s)) then Some None
      else if bool_decide (last s = Some "Z"%char) then
        r ← time_tz_to_seconds_nanos s;
        match r with
        | None => Some None
        | Some (sec, n) => x ← unix_nanos sec n; Some (Some x)
        end
      else
        r ← get_tm_zone_from_str s;
        match r with
        | None => Some None
        | Some (t, n, _) => x ← unix_nanos (mktime zn t) n; Some (Some x)
        end
  end.

Definition util_to_timestamp_from_str (zn : zone) (str : option cs) : option types_timestamp :=
  r ← util_to_unix_nanos_from_str zn str;
  Some (match r with Some n => unix_nanos_to_timestamp n | None => Ts false 0 false 0 end).

(** ** Durations with a unit *)

(** The status and the new value of [*pns]. *)
Definition get_time_ns (pns unit : Z) : Z * Z :=
  if unit =? 0 then (-1, pns)
  else if Z.quot (2 ^ 63 - 1) pns >=? unit then (0, pns * unit) else (-1, pns).
Definition get_time_unit (unit : ascii) : Z :=
  if Ascii.eqb unit "M" then Time_Milli
  else if Ascii.eqb unit "s" then Time_Second
  else if Ascii.eqb unit "m" then Time_Minute
  else if Ascii.eqb unit "h" then Time_Hour
  else 0.

(** The expression "^([0-9]+)+(ms|s|m|h)$": the digits and the unit. *)
Fixpoint split_digits (s : cs) : cs * cs :=
  match s with
  | c :: s' => if isdigit c then let '(d, u) := split_digits s' in (c :: d, u) else ([], s)
  | [] => ([], [])
  end.
Definition match_duration (value : cs) : bool :=
  let '(d, u) := split_digits value in
  bool_decide (d <> []) && bool_decide (u ∈ [bs "ms"; bs "s"; bs "m"; bs "h"]).

(** The status and what is stored in [*nanoseconds], if anything: for zero nothing is, and
    on overflow it is the bare number. *)
Definition util_time_str_to_nanoseconds (value : option cs) : Z * option Z :=
  match value with
  | None => (-1, None)
  | Some value =>
      if negb (match_duration value) then (-1, None)
      else
        let len := length value in
        let '(unit, num_str) :=
          match strstr value (bs "ms") with
          | None => (default "000"%char (last value), take (len - 1) value)
          | Some _ => ("M"%char, take (len - 2) value)
          end in
        let '(ret, tmp) := util_safe_llong (Some num_str) in
        if ret <? 0 then (-1, None)
        else
          let tmp := default 0 tmp in
          if tmp =? 0 then (ret, None)
          else let '(ret, ns) := get_time_ns tmp (get_time_unit unit) in (ret, Some ns)
  end.
End parsing.
