(* ===== verification/TimestampProps.v ===== *)
(** Times survive printing and parsing, exactly the dates of the calendar are accepted, and
    durations are converted exactly or refused. *)
From Stdlib Require Import Ascii.
From S2P Require Import Prelude KeyOrders StrUtils Convert ConvertProps Timestamp.

Open Scope Z_scope.

(** ** The calendar *)

Ltac div_lia := Z.to_euclidean_division_equations; lia.

Lemma year_length y : year_start (y + 1) = year_start y + 365 + (if leap y then 1 else 0).
Proof.
  unfold year_start, leap. replace (y + 1 - 1) with y by lia.
  destruct (Z.eqb_spec (y mod 4) 0), (Z.eqb_spec (y mod 100) 0), (Z.eqb_spec (y mod 400) 0); cbn; div_lia.
Qed.

(** The guess is off by a year at most. *)
Lemma year_of_spec z : year_start (year_of z) <= z < year_start (year_of z + 1).
Proof.
  unfold year_of. set (y := 1970 + 400 * z / 146097).
  assert (year_start (y - 1) <= z < year_start (y + 2)) as Hy by (unfold year_start, y; div_lia).
  destruct (Z.ltb_spec z (year_start y)); [replace (y - 1 + 1) with y by lia; lia|].
  rewrite Z.geb_leb. destruct (Z.leb_spec (year_start (y + 1)) z); [|lia].
  replace (y + 1 + 1) with (y + 2) by lia. lia.
Qed.

Lemma year_start_mono y1 y2 : y1 <= y2 -> year_start y1 <= year_start y2.
Proof. intros H. unfold year_start. div_lia. Qed.

Lemma year_of_unique z y : year_start y <= z < year_start (y + 1) -> year_of z = y.
Proof.
  intros Hz. pose proof (year_of_spec z) as Hs. destruct (Z.lt_trichotomy (year_of z) y) as [Hlt|[->|Hgt]]; [|done|].
  - pose proof (year_start_mono (year_of z + 1) y). lia.
  - pose proof (year_start_mono (y + 1) (year_of z)). lia.
Qed.

Lemma leap_is_leap_year y : 0 <= y -> is_leap_year y = leap y.
Proof.
  intros Hy. unfold is_leap_year, leap. rewrite !Z.rem_mod_nonneg by lia.
  destruct (Z.eqb_spec (y mod 4) 0), (Z.eqb_spec (y mod 100) 0), (Z.eqb_spec (y mod 400) 0); try done; div_lia.
Qed.

Lemma valid_days_leap m y : 0 <= y -> get_valid_days m y =
  if m =? 2 then 28 + (if leap y then 1 else 0)
  else if (m =? 4) || (m =? 6) || (m =? 9) || (m =? 11) then 30 else 31.
Proof. intros Hy. unfold get_valid_days. by rewrite leap_is_leap_year. Qed.

(** Months and days of a year. *)
Lemma month_of_spec l n : 0 <= l <= 1 -> 0 <= n < 365 + l ->
  let m := month_of l n in
  1 <= m <= 12 /\ 0 <= n - month_start l m <
    (if m =? 2 then 28 + l else if (m =? 4) || (m =? 6) || (m =? 9) || (m =? 11) then 30 else 31).
Proof.
  intros Hl Hn. cbv zeta. unfold month_of.
  repeat match goal with |- context [n <? ?k] => destruct (Z.ltb_spec n k) end; cbn -[Z.add Z.sub]; lia.
Qed.

Lemma month_of_start l m k : 0 <= l <= 1 -> 1 <= m <= 12 ->
  0 <= k < (if m =? 2 then 28 + l else if (m =? 4) || (m =? 6) || (m =? 9) || (m =? 11) then 30 else 31) ->
  month_of l (month_start l m + k) = m /\ 0 <= month_start l m + k < 365 + l.
Proof.
  intros Hl Hm Hk.
  assert (m = 1 \/ m = 2 \/ m = 3 \/ m = 4 \/ m = 5 \/ m = 6 \/ m = 7 \/ m = 8 \/ m = 9 \/ m = 10 \/ m = 11 \/ m = 12) as Hc by lia.
  unfold month_of. repeat destruct Hc as [->|Hc]; try subst m; cbn -[Z.add Z.sub] in *;
    (split; [repeat match goal with |- context [?a <? ?b] => destruct (Z.ltb_spec a b) end; lia|lia]).
Qed.

(** The days from 1900-01-01 to 2100-12-31. *)
Definition first_day : Z := -25567.
Definition last_day : Z := 47846.

Lemma civil_day z y m d :
  first_day <= z <= last_day -> civil_from_days z = (y, m, d) ->
  1900 <= y <= 2100 /\ 1 <= m <= 12 /\ 1 <= d <= get_valid_days m y /\ days_from_civil y m d = z.
Proof.
  intros Hz He. unfold civil_from_days in He. injection He as Hy Hm Hd.
  pose proof (year_of_spec z) as Hs. rewrite Hy in *.
  assert (1900 <= y <= 2100) as Hyr.
  { pose proof (year_start_mono 2101 y). pose proof (year_start_mono (y + 1) 1900).
    change (year_start 2101) with 47847 in *. change (year_start 1900) with (-25567) in *. unfold first_day, last_day in *. lia. }
  rewrite year_length in Hs. rewrite valid_days_leap by lia.
  pose proof (month_of_spec (if leap y then 1 else 0) (z - year_start y)) as Hmo. cbv zeta in Hmo. rewrite Hm in *.
  unfold days_from_civil. destruct (leap y); (destruct Hmo as [Hm1 Hm2]; [lia..|]; split_and!; try lia).
Qed.

Lemma day_of_date y m d :
  1900 <= y <= 2100 -> 1 <= m <= 12 -> 1 <= d <= get_valid_days m y ->
  first_day <= days_from_civil y m d <= last_day /\ civil_from_days (days_from_civil y m d) = (y, m, d).
Proof.
  intros Hy Hm Hd. rewrite valid_days_leap in Hd by lia. unfold days_from_civil, civil_from_days.
  set (l := if leap y then 1 else 0) in *. assert (0 <= l <= 1) as Hl by (unfold l; destruct (leap y); lia).
  destruct (month_of_start l m (d - 1) Hl Hm) as [H1 H2]; [lia|].
  set (z := year_start y + month_start l m + d - 1).
  assert (year_of z = y) as ->. { apply year_of_unique. rewrite year_length. fold l. unfold z. lia. }
  fold l. replace (z - year_start y) with (month_start l m + (d - 1)) by (unfold z; lia). rewrite H1.
  split; [|do 2 f_equal; lia].
  pose proof (year_start_mono 1900 y). pose proof (year_start_mono (y + 1) 2101). pose proof (year_length y) as Hlen. fold l in Hlen.
  change (year_start 2101) with 47847 in *. change (year_start 1900) with (-25567) in *. unfold first_day, last_day, z. lia.
Qed.

Lemma out_of_range_false v lo hi : is_out_of_range v lo hi = false <-> lo <= v <= hi.
Proof. unfold is_out_of_range. rewrite orb_false_iff. lia. Qed.

(** A valid date and time of day. *)
Definition valid_tm (t : tm) : Prop :=
  1900 <= tm_year t <= 2100 /\ 1 <= tm_mon t <= 12 /\ 1 <= tm_mday t <= get_valid_days (tm_mon t) (tm_year t) /\
  0 <= tm_hour t <= 23 /\ 0 <= tm_min t <= 59 /\ 0 <= tm_sec t <= 59.

Lemma fix_date_spec t t' :
  util_fix_date t = Some t' <->
  valid_tm t /\ t' = Tm (tm_year t - 1900) (tm_mon t - 1) (tm_mday t) (tm_hour t) (tm_min t) (tm_sec t).
Proof.
  unfold util_fix_date, valid_tm.
  destruct (is_out_of_range (tm_hour t) 0 23 || _ || _ || _ || _) eqn:H1.
  { split; [done|]. intros [(H2 & H3 & _ & H4 & H5 & H6) _]. revert H1.
    rewrite <-out_of_range_false in H2, H3, H4, H5, H6. by rewrite H2, H3, H4, H5, H6. }
  rewrite !orb_false_iff, !out_of_range_false in H1.
  destruct (is_out_of_range (tm_mday t) _ _) eqn:H2.
  { split; [done|]. intros [(_ & _ & H3 & _) _]. rewrite <-out_of_range_false in H3. congruence. }
  rewrite out_of_range_false in H2. split; [intros [= <-]; split; [tauto|done]|]. by intros [_ ->].
Qed.

Lemma timegm_gmtime s t :
  first_day * 86400 <= s < (last_day + 1) * 86400 -> gmtime s = Some t ->
  valid_tm (Tm (tm_year t + 1900) (tm_mon t + 1) (tm_mday t) (tm_hour t) (tm_min t) (tm_sec t)) /\ timegm t = s.
Proof.
  intros Hs Hg. unfold gmtime in Hg. destruct (civil_from_days (s / 86400)) as [[y m] d] eqn:Hc.
  assert (first_day <= s / 86400 <= last_day) as Hday by (unfold first_day, last_day in *; Z.to_euclidean_division_equations; lia).
  destruct (civil_day _ _ _ _ Hday Hc) as (Hy & Hm & Hd & He).
  destruct (int32 (y - 1900)) as [x|] eqn:Hi; [|done]. cbn in Hg. unfold int32 in Hi.
  destruct ((_ <=? _) && _); simplify_eq/=. unfold valid_tm, timegm. cbn.
  replace (y - 1900 + 1900) with y by lia. replace (m - 1 + 1) with m by lia. rewrite He. clear Hc He.
  assert (0 <= s mod 86400 < 86400) by (apply Z.mod_pos_bound; lia).
  split; [split_and!; try lia|]; clear Hd; Z.to_euclidean_division_equations; lia.
Qed.

Lemma gmtime_timegm t : valid_tm t ->
  let t' := Tm (tm_year t - 1900) (tm_mon t - 1) (tm_mday t) (tm_hour t) (tm_min t) (tm_sec t) in
  first_day * 86400 <= timegm t' < (last_day + 1) * 86400 /\ gmtime (timegm t') = Some t'.
Proof.
  intros (Hy & Hm & Hd & Hh & Hmi & Hs). cbv zeta. unfold timegm. cbn [tm_year tm_mon tm_mday tm_hour tm_min tm_sec].
  replace (tm_year t - 1900 + 1900) with (tm_year t) by lia. replace (tm_mon t - 1 + 1) with (tm_mon t) by lia.
  destruct (day_of_date _ _ _ Hy Hm Hd) as [Hr Hc]. set (z := days_from_civil _ _ _) in *.
  split; [unfold first_day, last_day in *; lia|]. unfold gmtime.
  set (s := z * 86400 + _ + _ + _). assert (s / 86400 = z) as -> by (unfold s; Z.to_euclidean_division_equations; lia).
  assert (s mod 86400 = tm_hour t * 3600 + tm_min t * 60 + tm_sec t) as ->
    by (unfold s; Z.to_euclidean_division_equations; lia).
  rewrite Hc. cbv beta iota. unfold int32. destruct (Z.leb_spec (- 2 ^ 31) (tm_year t - 1900)), (Z.ltb_spec (tm_year t - 1900) (2 ^ 31)); try lia.
  cbn. do 2 f_equal; Z.to_euclidean_division_equations; lia.
Qed.

(** C38: [util_fix_date] accepts exactly the dates of the Gregorian calendar from 1900 to 2100
    with a time of day, that is those that some number of seconds since the epoch stands
    for, and [timegm] of the result is that number. *)
Theorem fix_date_is_calendar t t' :
  util_fix_date t = Some t' <->
  t' = Tm (tm_year t - 1900) (tm_mon t - 1) (tm_mday t) (tm_hour t) (tm_min t) (tm_sec t) /\
  first_day * 86400 <= timegm t' < (last_day + 1) * 86400 /\ gmtime (timegm t') = Some t'.
Proof.
  rewrite fix_date_spec. split.
  - intros [Hv ->]. split; [done|]. by apply gmtime_timegm.
  - intros (-> & Hr & Hg). split; [|done]. destruct (timegm_gmtime _ _ Hr Hg) as [Hv _]. cbn in Hv.
    destruct t as [y m d h mi s]. cbn in *. by rewrite !Z.sub_add in Hv.
Qed.

(** ** Fixed-width numbers *)

(** The last [w] decimal digits of [z]. *)
Fixpoint digits (w : nat) (z : Z) : cs :=
  match w with O => [] | S w => digits w (z / 10) ++ [digit_char (z mod 10)] end.

Lemma length_digits w z : length (digits w z) = w.
Proof. revert z. induction w as [|w IH]; intros z; cbn; [done|]. rewrite length_app, IH. cbn. lia. Qed.

Lemma digits_zero w : digits w 0 = replicate w "0"%char.
Proof.
  induction w as [|w IH]; [done|]. cbn [digits]. change (0 / 10) with 0. change (digit_char (0 mod 10)) with "0"%char.
  by rewrite IH, replicate_S_end.
Qed.

Lemma pad_print w fuel z acc :
  0 <= z < 10 ^ Z.of_nat w -> (0 < w <= fuel)%nat ->
  replicate (w - length (print_dec fuel z [])) "0"%char ++ print_dec fuel z acc = digits w z ++ acc.
Proof.
  assert (forall fuel z acc, print_dec fuel z acc = print_dec fuel z [] ++ acc) as Hacc.
  { clear. intros fuel. induction fuel as [|fuel IH]; intros z acc; cbn [print_dec]; [done|].
    destruct (z <? 10); [done|]. rewrite IH, (IH _ [_]), <-app_assoc. done. }
  revert fuel z acc. induction w as [|w IH]; intros fuel z acc Hz Hw; [lia|]. destruct fuel as [|fuel]; [lia|].
  rewrite Nat2Z.inj_succ, Z.pow_succ_r in Hz by lia. cbn [digits print_dec].
  destruct (Z.ltb_spec z 10) as [Hlt|Hge].
  - rewrite Z.div_small, digits_zero by lia. cbn [length]. replace (S w - 1)%nat with w by lia. by rewrite <-app_assoc.
  - rewrite <-app_assoc. cbn [app].
    assert (0 < w)%nat by (destruct w; [cbn in Hz; lia|lia]).
    rewrite Hacc, length_app. cbn [length].
    rewrite <-(IH fuel (z / 10) (digit_char (z mod 10) :: acc)); [|split; [apply Z.div_pos; lia|apply Z.div_lt_upper_bound; lia]|lia].
    do 2 f_equal. lia.
Qed.

Lemma fmt0_digits w z : 0 <= z < 10 ^ Z.of_nat w -> (0 < w <= 20)%nat -> fmt0 w z = digits w z.
Proof.
  intros Hz Hw. unfold fmt0, pad0, print_llu. rewrite (proj2 (Z.ltb_ge z 0)) by lia.
  rewrite (pad_print w 20 z []) by lia. by rewrite app_nil_r.
Qed.

Lemma print_year y : 1000 <= y <= 9999 -> print_lld y = digits 4 y.
Proof.
  intros Hy. unfold print_lld, print_llu. rewrite (proj2 (Z.ltb_ge y 0)) by lia.
  cbn [print_dec digits]. repeat match goal with |- context [?a <? 10] => rewrite (proj2 (Z.ltb_ge a 10)) by div_lia end.
  rewrite (proj2 (Z.ltb_lt _ 10)) by div_lia. done.
Qed.

Lemma code_digit d : 0 <= d < 10 -> code (digit_char d) = 48 + d.
Proof. intros Hd. by destruct (digit_cases d Hd) as [->|[->|[->|[->|[->|[->|[->|[->|[->| ->]]]]]]]]]. Qed.

Lemma isdigit_digit d : 0 <= d < 10 -> isdigit (digit_char d) = true.
Proof. intros Hd. unfold isdigit. rewrite code_digit by done. lia. Qed.

(** The digits are digits. *)
Lemma digits_isdigit w z : Forall (fun c => isdigit c = true) (digits w z).
Proof.
  revert z. induction w as [|w IH]; intros z; cbn; [constructor|]. apply Forall_app. split; [done|].
  constructor; [|done]. apply isdigit_digit. apply Z.mod_pos_bound. lia.
Qed.

Lemma not_in_digits w z c : isdigit c = false -> c ∉ digits w z.
Proof. intros Hc Hin. pose proof (digits_isdigit w z) as Hf. rewrite Forall_forall in Hf. apply Hf in Hin. congruence. Qed.

Definition no_digit (s : cs) : Prop := match s with [] => True | c :: _ => isdigit c = false end.

Lemma int32_ok z : - 2 ^ 31 <= z < 2 ^ 31 -> int32 z = Some z.
Proof. intros Hz. unfold int32. by rewrite (proj2 (Z.leb_le _ _)), (proj2 (Z.ltb_lt _ _)) by lia. Qed.
Lemma int64_ok z : - 2 ^ 63 <= z < 2 ^ 63 -> int64 z = Some z.
Proof. intros Hz. unfold int64. by rewrite (proj2 (Z.leb_le _ _)), (proj2 (Z.ltb_lt _ _)) by lia. Qed.

Lemma parse_stop sum rest : no_digit rest -> parsing_time_to_digit sum rest = Some (sum, rest).
Proof. destruct rest as [|c rest]; cbn; [done|]. by intros ->. Qed.

Lemma parse_digits_app w z sum rest :
  0 <= z < 10 ^ Z.of_nat w -> 0 <= sum -> (sum + 1) * 10 ^ Z.of_nat w <= 2 * 10 ^ 9 ->
  parsing_time_to_digit sum (digits w z ++ rest) = parsing_time_to_digit (sum * 10 ^ Z.of_nat w + z) rest.
Proof.
  revert z sum rest. induction w as [|w IH]; intros z sum rest Hz Hs Hb; cbn [digits].
  - cbn in *. f_equal. lia.
  - rewrite Nat2Z.inj_succ, Z.pow_succ_r in * by lia. rewrite <-app_assoc.
    assert (0 < 10 ^ Z.of_nat w) by (apply Z.pow_pos_nonneg; lia).
    rewrite IH; [|split; [apply Z.div_pos; lia|apply Z.div_lt_upper_bound; lia]|done|lia]. cbn [app parsing_time_to_digit].
    assert (0 <= z mod 10 < 10) by (apply Z.mod_pos_bound; lia). rewrite isdigit_digit, code_digit by done.
    pose proof (Z.div_mod z 10). rewrite int32_ok by nia. cbn [mbind option_bind]. f_equal. nia.
Qed.

Lemma parse_digits w z rest :
  0 <= z < 10 ^ Z.of_nat w -> (w <= 9)%nat -> no_digit rest ->
  parsing_time_to_digit 0 (digits w z ++ rest) = Some (z, rest).
Proof.
  intros Hz Hw Hr. rewrite parse_digits_app; [|done|lia|].
  - by apply parse_stop.
  - assert (10 ^ Z.of_nat w <= 10 ^ 9); [apply Z.pow_le_mono_r; lia|lia].
Qed.

Lemma match_digits_ok w z rest : match_digits w (digits w z ++ rest) = Some rest.
Proof.
  pose proof (digits_isdigit w z) as Hd. pose proof (length_digits w z) as Hl. revert Hl Hd.
  generalize (digits w z). intros l <-. induction l as [|c l IH]; intros Hd; [done|].
  apply Forall_cons in Hd as [Hc Hd]. cbn. rewrite Hc. auto.
Qed.

(** ** Strings of times *)

(** Characters of seven bits have the same value whatever the sign of [char]. *)
Class AsciiValue (cval : ascii -> Z) : Prop := ascii_value c : code c < 128 -> cval c = code c.
#[export] Instance uchar_AsciiValue : AsciiValue uchar_value.
Proof. by intros c _. Qed.
#[export] Instance schar_AsciiValue : AsciiValue schar_value.
Proof.
  intros c Hc. unfold schar_value. apply wrap_s_small; [done|]. pose proof (uchar_value_bound c).
  change (uchar_value c) with (code c) in *. cbn. lia.
Qed.

Section strings.
Context (cval : ascii -> Z) `{!AsciiValue cval}.

Lemma nanos_digits_ok w z n :
  0 <= z < 10 ^ Z.of_nat w -> 0 <= n -> (n + 1) * 10 ^ Z.of_nat w <= 2 * 10 ^ 9 ->
  nanos_digits cval n (digits w z) = Some (n * 10 ^ Z.of_nat w + z).
Proof.
  assert (forall l1 l2 n, nanos_digits cval n (l1 ++ l2) = (x ← nanos_digits cval n l1; nanos_digits cval x l2)) as Happ.
  { clear. intros l1 l2. induction l1 as [|c l1 IH]; intros n; cbn; [done|].
    destruct (int32 (n * 10)) as [x|]; cbn; [|done]. destruct (int32 (x + cval c)) as [x'|]; cbn; [|done].
    destruct (int32 (x' - 48)); cbn; [apply IH|done]. }
  revert z n. induction w as [|w IH]; intros z n Hz Hn Hb; cbn [digits].
  - cbn in *. f_equal. lia.
  - rewrite Nat2Z.inj_succ, Z.pow_succ_r in * by lia. rewrite Happ.
    assert (0 < 10 ^ Z.of_nat w) by (apply Z.pow_pos_nonneg; lia).
    rewrite IH; [|split; [apply Z.div_pos; lia|apply Z.div_lt_upper_bound; lia]|done|lia]. cbn.
    assert (0 <= z mod 10 < 10) by (apply Z.mod_pos_bound; lia). pose proof (Z.div_mod z 10).
    rewrite ascii_value by (rewrite code_digit by done; lia). rewrite code_digit by done.
    rewrite int32_ok by nia. cbn. rewrite int32_ok by nia. cbn. rewrite int32_ok by nia. cbn. f_equal. nia.
Qed.

(** A date and time of day, and the zone, as they are written. *)
Definition date_str (t : tm) : cs :=
  digits 4 (tm_year t) ++ "-"%char :: digits 2 (tm_mon t) ++ "-"%char :: digits 2 (tm_mday t) ++
  "T"%char :: digits 2 (tm_hour t) ++ ":"%char :: digits 2 (tm_min t) ++ ":"%char :: digits 2 (tm_sec t).
Definition zone_str (sign : ascii) (a : Z) : cs := sign :: digits 2 a ++ bs ":00".

Lemma valid_tm_bounds t : valid_tm t ->
  1900 <= tm_year t < 10 ^ 4 /\ 0 <= tm_mon t < 10 ^ 2 /\ 0 <= tm_mday t < 10 ^ 2 /\
  0 <= tm_hour t < 10 ^ 2 /\ 0 <= tm_min t < 10 ^ 2 /\ 0 <= tm_sec t < 10 ^ 2.
Proof.
  intros (Hy & Hm & Hd & Hh & Hmi & Hs). rewrite valid_days_leap in Hd by lia.
  split_and!; try lia. destruct (leap _); repeat case_match; lia.
Qed.

Lemma length_date_str t : length (date_str t) = 19%nat.
Proof. unfold date_str. repeat (rewrite length_app, length_digits; cbn [length]). by rewrite length_digits. Qed.

Lemma date_str_app t rest : date_str t ++ rest =
  digits 4 (tm_year t) ++ "-"%char :: digits 2 (tm_mon t) ++ "-"%char :: digits 2 (tm_mday t) ++
  "T"%char :: digits 2 (tm_hour t) ++ ":"%char :: digits 2 (tm_min t) ++ ":"%char :: digits 2 (tm_sec t) ++ rest.
Proof. unfold date_str. by repeat (rewrite <-app_assoc; cbn [app]). Qed.

Lemma strftime_date_str t : valid_tm (Tm (tm_year t + 1900) (tm_mon t + 1) (tm_mday t) (tm_hour t) (tm_min t) (tm_sec t)) ->
  strftime_local t = date_str (Tm (tm_year t + 1900) (tm_mon t + 1) (tm_mday t) (tm_hour t) (tm_min t) (tm_sec t)).
Proof.
  intros Hv. apply valid_tm_bounds in Hv as (Hy & Hm & Hd & Hh & Hmi & Hs). cbn in *. unfold strftime_local, date_str. cbn [tm_year tm_mon tm_mday tm_hour tm_min tm_sec].
  by rewrite print_year, !fmt0_digits by (cbn; lia).
Qed.

Lemma parse_date_str t n : valid_tm t ->
  parsing_time_data (date_str t ++ "."%char :: n) tm_zero = Some t.
Proof.
  intros Hv. apply valid_tm_bounds in Hv as (Hy & Hm & Hd & Hh & Hmi & Hs). rewrite date_str_app. unfold parsing_time_data.
  repeat (rewrite parse_digits by (done || cbn; lia); cbn [mbind option_bind]). by destruct t.
Qed.

Lemma contains_dot a b : util_strings_contains_any (Some (a ++ "."%char :: b)) (Some (bs ".")) = true.
Proof. cbn. rewrite existsb_app. cbn. by rewrite orb_true_r. Qed.

Lemma get_tm_ok t ns : valid_tm t -> 0 <= ns < 10 ^ 9 ->
  util_get_tm_from_str cval (date_str t ++ "."%char :: digits 9 ns) tm_zero =
  Some (Some (Tm (tm_year t - 1900) (tm_mon t - 1) (tm_mday t) (tm_hour t) (tm_min t) (tm_sec t), ns)).
Proof.
  intros Hv Hns. unfold util_get_tm_from_str, time_format. rewrite contains_dot. cbn [mbind option_bind].
  unfold util_parsing_time. rewrite bool_decide_eq_true_2 by done.
  assert (length (date_str t ++ "."%char :: digits 9 ns) = 29%nat) as Hlen.
  { rewrite length_app, length_date_str. cbn [length]. by rewrite length_digits. }
  assert (drop 20 (date_str t ++ "."%char :: digits 9 ns) = digits 9 ns) as Hdrop.
  { by rewrite drop_app, length_date_str, drop_ge by (rewrite length_date_str; lia). }
  rewrite Hlen. change (length rFC339Local + 1)%nat with 20%nat. change (length rFC339NanoLocal) with 29%nat.
  change (20 =? 0)%nat with false. change ((29 <? 29)%nat || (29 <=? 20)%nat) with false. cbv zeta iota.
  rewrite Hdrop, nanos_digits_ok by (cbn; lia). cbn [mbind option_bind Nat.sub nanos_scale].
  rewrite parse_date_str by done. cbn [mbind option_bind].
  rewrite (proj2 (fix_date_spec t _)) by done. done.
Qed.

(** ** Zones *)

Lemma strrchr_None c s : c ∉ s -> strrchr c s = None.
Proof.
  induction s as [|x s IH]; cbn; [done|]. intros [Hx Hs]%not_elem_of_cons. rewrite IH by done.
  destruct (Ascii.eqb_spec x c); congruence.
Qed.

Lemma strrchr_last c p q : c ∉ q -> strrchr c (p ++ c :: q) = Some (p, q).
Proof.
  intros Hq. induction p as [|x p IH]; cbn.
  - rewrite strrchr_None by done. by rewrite Ascii.eqb_refl.
  - by rewrite IH.
Qed.

Lemma tz_init_spec sign a : 0 <= a < 100 ->
  tz_init_ok sign (digits 2 a ++ bs ":00") = Some (Some (Tz ((if Ascii.eqb sign "-" then -1 else 1) * a) 0)).
Proof.
  intros Ha. unfold tz_init_ok. rewrite parse_digits by (done || cbn; lia). cbn.
  repeat f_equal. by destruct (Ascii.eqb sign "-").
Qed.

Definition plus_free (s : cs) : Prop := "+"%char ∉ s.

Lemma date_plus_free t n : plus_free (date_str t ++ "."%char :: digits 9 n).
Proof.
  unfold plus_free. rewrite date_str_app.
  repeat (rewrite not_elem_of_app || rewrite not_elem_of_cons || split); try done; by apply not_in_digits.
Qed.

Lemma get_zp_ok t n sign a : sign = "+"%char \/ sign = "-"%char ->
  tm_get_zp ((date_str t ++ "."%char :: digits 9 n) ++ zone_str sign a) =
    Some (date_str t ++ "."%char :: digits 9 n, sign, digits 2 a ++ bs ":00").
Proof.
  intros Hs. unfold tm_get_zp, zone_str.
  assert (forall c, isdigit c = false -> c <> ":"%char -> c <> "0"%char -> c ∉ digits 2 a ++ bs ":00") as Hz.
  { intros c Hc H1 H2. rewrite not_elem_of_app. split; [by apply not_in_digits|]. cbn. set_solver. }
  destruct Hs as [-> | ->].
  - rewrite strrchr_last; [done|]. by apply Hz.
  - rewrite strrchr_None, strrchr_last; [done|by apply Hz|].
    rewrite not_elem_of_app, not_elem_of_cons. split; [apply date_plus_free|]. split; [done|by apply Hz].
Qed.

Lemma get_tm_zone_ok t ns sign a : valid_tm t -> 0 <= ns < 10 ^ 9 -> 0 <= a < 100 ->
  sign = "+"%char \/ sign = "-"%char ->
  get_tm_zone_from_str cval ((date_str t ++ "."%char :: digits 9 ns) ++ zone_str sign a) =
  Some (Some (Tm (tm_year t - 1900) (tm_mon t - 1) (tm_mday t) (tm_hour t) (tm_min t) (tm_sec t), ns,
              Tz ((if Ascii.eqb sign "-" then -1 else 1) * a) 0)).
Proof.
  intros Hv Hns Ha Hs. unfold get_tm_zone_from_str. rewrite get_zp_ok by done. rewrite get_tm_ok by done.
  cbn [mbind option_bind]. by rewrite tz_init_spec.
Qed.

Lemma valid_time_ok t ns sign a : sign = "+"%char \/ sign = "-"%char ->
  util_valid_time_tz (Some ((date_str t ++ "."%char :: digits 9 ns) ++ zone_str sign a)) = true.
Proof.
  intros Hs. unfold util_valid_time_tz, match_date. rewrite <-app_assoc, date_str_app.
  repeat (rewrite match_digits_ok; cbn [mbind option_bind match_char Ascii.eqb Bool.eqb]).
  apply orb_true_iff. right. apply existsb_exists. exists 9%nat. split; [apply in_seq; lia|].
  cbn [app tail]. rewrite match_digits_ok, bool_decide_eq_true_2 by done. unfold zone_str. cbn -[isdigit digit_char Z.div Z.modulo].
  rewrite !isdigit_digit by (apply Z.mod_pos_bound; lia). by destruct Hs as [-> | ->].
Qed.
End strings.

(** ** Round trip *)

(** A time the calendar of the program covers. *)
Definition in_range (s : Z) : Prop := first_day * 86400 <= s < (last_day + 1) * 86400.

Lemma gmtime_some s : in_range s -> exists t, gmtime s = Some t /\ tm_hour t = s mod 86400 / 3600.
Proof.
  intros Hs. unfold gmtime. destruct (civil_from_days (s / 86400)) as [[y m] d] eqn:Hc.
  assert (first_day <= s / 86400 <= last_day) as Hday by (unfold in_range, first_day, last_day in *; div_lia).
  destruct (civil_day _ _ _ _ Hday Hc) as (Hy & _). rewrite int32_ok by lia. cbn. eexists. split; [done|]. done.
Qed.

(** The sign and the hours of a zone. *)
Definition zone_sign (h : Z) : ascii := if h >=? 0 then "+"%char else "-"%char.

Lemma zone_hours h s : -11 <= h <= 11 ->
  let d := (s + 3600 * h) mod 86400 / 3600 - s mod 86400 / 3600 in
  (if d <? -12 then d + 24 else if d >? 12 then d - 24 else d) = h.
Proof.
  intros Hh. cbv zeta. rewrite Z.gtb_ltb.
  assert (exists k, (s + 3600 * h) mod 86400 / 3600 - s mod 86400 / 3600 = h - 24 * k) as [k Hk].
  { exists ((s + 3600 * h) / 86400 - s / 86400). div_lia. }
  assert (-24 < (s + 3600 * h) mod 86400 / 3600 - s mod 86400 / 3600 < 24) by div_lia.
  repeat match goal with |- context [?a <? ?b] => destruct (Z.ltb_spec a b) end; lia.
Qed.

(** What is printed. *)
Definition time_str (t : tm) (ns h : Z) : cs :=
  (date_str (Tm (tm_year t + 1900) (tm_mon t + 1) (tm_mday t) (tm_hour t) (tm_min t) (tm_sec t)) ++ "."%char :: digits 9 ns)
    ++ zone_str (zone_sign h) (Z.abs h).

Lemma length_time_str t ns h : length (time_str t ns h) = 35%nat.
Proof.
  unfold time_str, zone_str. rewrite !length_app, length_date_str. cbn [length]. rewrite length_app, !length_digits. done.
Qed.

Lemma time_buffer_spec h s ns maxsize t :
  -11 <= h <= 11 -> in_range s -> in_range (s + 3600 * h) -> 0 <= ns < 10 ^ 9 -> 36 <= maxsize ->
  gmtime (s + 3600 * h) = Some t ->
  util_get_time_buffer (fixed_zone (3600 * h)) (Ts true s true ns) maxsize = Some (Some (time_str t ns h)).
Proof.
  intros Hh Hs Hl Hns Hmax Ht. unfold util_get_time_buffer, get_time_buffer_help. cbn [has_seconds negb seconds has_nanos nanos].
  rewrite (proj2 (Z.eqb_neq maxsize 0)) by lia. cbn [orb localtime fixed_zone]. rewrite Ht. cbn [default from_option].
  destruct (timegm_gmtime _ _ Hl Ht) as [Hv _]. rewrite strftime_date_str by done. rewrite length_date_str.
  rewrite (proj2 (Z.leb_gt _ _)) by lia. destruct (gmtime_some s Hs) as (u & Hu & Huh).
  destruct (gmtime_some _ Hl) as (t' & Ht' & Hth). assert (t' = t) as -> by congruence.
  rewrite Hu. cbn [default from_option id]. pose proof (zone_hours h s Hh) as Hz. cbv zeta in Hz.
  rewrite <-Huh, <-Hth in Hz. rewrite Hz.
  unfold time_str, zone_sign, zone_str. rewrite (fmt0_digits 9) by (cbn; lia). rewrite (Z.geb_leb h 0).
  destruct (Z.leb_spec 0 h).
  - rewrite (fmt0_digits 2) by (cbn; lia). rewrite Z.abs_eq by lia.
    rewrite Z.geb_leb, (proj2 (Z.leb_gt _ _)); [by rewrite <-app_assoc|].
    rewrite !length_app. cbn [length bs String.list_ascii_of_string]. rewrite !length_digits. lia.
  - rewrite (fmt0_digits 2) by (cbn; lia). rewrite Z.abs_neq by lia.
    rewrite Z.geb_leb, (proj2 (Z.leb_gt _ _)); [by rewrite <-app_assoc|].
    rewrite !length_app. cbn [length bs String.list_ascii_of_string]. rewrite !length_digits. lia.
Qed.

Lemma zone_sign_cases h : zone_sign h = "+"%char \/ zone_sign h = "-"%char.
Proof. unfold zone_sign. destruct (h >=? 0); auto. Qed.

Lemma zone_sign_abs h : (if Ascii.eqb (zone_sign h) "-" then -1 else 1) * Z.abs h = h.
Proof. unfold zone_sign. rewrite Z.geb_leb. destruct (Z.leb_spec 0 h); cbn -[Z.mul]; lia. Qed.

Section roundtrip.
Context (cval : ascii -> Z) `{!AsciiValue cval}.

Lemma zone_from_time_str h s ns t :
  -11 <= h <= 11 -> in_range (s + 3600 * h) -> 0 <= ns < 10 ^ 9 -> gmtime (s + 3600 * h) = Some t ->
  get_tm_zone_from_str cval (time_str t ns h) = Some (Some (t, ns, Tz h 0)).
Proof.
  intros Hh Hl Hns Ht. destruct (timegm_gmtime _ _ Hl Ht) as [Hv _]. unfold time_str.
  rewrite get_tm_zone_ok by (done || apply zone_sign_cases || lia). cbn [tm_year tm_mon tm_mday tm_hour tm_min tm_sec].
  rewrite zone_sign_abs, !Z.add_simpl_r. by destruct t.
Qed.

Lemma unix_nanos_time_str h s ns t :
  -11 <= h <= 11 -> in_range s -> in_range (s + 3600 * h) -> 0 <= ns < 10 ^ 9 -> gmtime (s + 3600 * h) = Some t ->
  util_to_unix_nanos_from_str cval (fixed_zone (3600 * h)) (Some (time_str t ns h)) = Some (Some (s * 10 ^ 9 + ns)).
Proof.
  intros Hh Hs Hl Hns Ht. destruct (timegm_gmtime _ _ Hl Ht) as [_ He]. pose proof (length_time_str t ns h) as Hlen.
  unfold util_to_unix_nanos_from_str.
  rewrite (bool_decide_eq_false_2 (time_str t ns h = [])) by (intros Heq; by rewrite Heq in Hlen).
  rewrite (bool_decide_eq_false_2 (time_str t ns h = defaultContainerTime)) by (intros Heq; by rewrite Heq in Hlen).
  cbn [orb]. assert (util_valid_time_tz (Some (time_str t ns h)) = true) as -> by (apply valid_time_ok, zone_sign_cases).
  cbn [negb]. rewrite bool_decide_eq_false_2.
  2: { unfold time_str, zone_str. rewrite last_app_cons, app_comm_cons. by rewrite last_app. }
  rewrite (zone_from_time_str h s) by done. cbn [mbind option_bind mktime fixed_zone]. rewrite He.
  replace (s + 3600 * h - 3600 * h) with s by lia. unfold unix_nanos, Time_Second, Time_Milli, Time_Micro, Time_Nano.
  unfold in_range, first_day, last_day in Hs. rewrite int64_ok by lia. cbn [mbind option_bind]. rewrite int64_ok by lia. done.
Qed.

(** C29: a time between 1900 and 2100 (in Greenwich and in the zone), printed by
    [util_get_time_buffer] into a buffer of at least 36 bytes, is read back to the nanosecond
    by [util_to_unix_nanos_from_str], without overflow, and [util_time_seconds_since] of it is
    the number of seconds that have passed, or zero; it is printed and read in the same zone,
    which has a fixed offset of whole hours, at most eleven, and no daylight saving time.
    Zones beyond that are misprinted and the zone in the string is not looked at when it is
    read. *)
Theorem time_string_roundtrip h s ns maxsize now :
  -11 <= h <= 11 -> in_range s -> in_range (s + 3600 * h) -> 0 <= ns < 10 ^ 9 -> 36 <= maxsize -> in_range now ->
  exists str, util_get_time_buffer (fixed_zone (3600 * h)) (Ts true s true ns) maxsize = Some (Some str) /\
    util_to_unix_nanos_from_str cval (fixed_zone (3600 * h)) (Some str) = Some (Some (s * 10 ^ 9 + ns)) /\
    util_time_seconds_since cval (fixed_zone (3600 * h)) now (Some str) = Some (Z.max 0 (now - s)).
Proof.
  intros Hh Hs Hl Hns Hmax Hnow. destruct (gmtime_some _ Hl) as (t & Ht & _). exists (time_str t ns h).
  split; [by apply time_buffer_spec|]. split; [by apply unix_nanos_time_str|].
  pose proof (length_time_str t ns h) as Hlen. unfold util_time_seconds_since, is_no_time.
  rewrite !bool_decide_eq_false_2 by (intros Heq; by rewrite Heq in Hlen). cbn [orb default from_option id].
  rewrite (zone_from_time_str h s) by done. cbn [mbind option_bind]. unfold seconds_between.
  destruct (gmtime_some now Hnow) as (n & Hn & _). rewrite Hn. unfold get_minmus_time. cbn [mktime fixed_zone tz_hour tz_min].
  destruct (timegm_gmtime _ _ Hnow Hn) as [_ ->]. destruct (timegm_gmtime _ _ Hl Ht) as [_ ->].
  unfold in_range, first_day, last_day in *. rewrite int64_ok by lia. cbn [mbind option_bind]. rewrite int64_ok by lia.
  cbn [mbind option_bind]. do 2 f_equal. lia.
Qed.
End roundtrip.

(** ** Durations *)

Lemma print_isdigit fuel n acc :
  0 <= n -> Forall (fun c => isdigit c = true) acc -> Forall (fun c => isdigit c = true) (print_dec fuel n acc).
Proof.
  revert n acc. induction fuel as [|fuel IH]; intros n acc Hn Ha; cbn [print_dec]; [done|].
  assert (isdigit (digit_char (n mod 10)) = true) by (apply isdigit_digit, Z.mod_pos_bound; lia).
  destruct (n <? 10); [by constructor|]. apply IH; [apply Z.div_pos; lia|by constructor].
Qed.

Lemma split_digits_app d u : Forall (fun c => isdigit c = true) d -> no_digit u -> split_digits (d ++ u) = (d, u).
Proof.
  intros Hd Hu. induction Hd as [|c d Hc _ IH]; cbn.
  - destruct u as [|c u]; cbn in *; [done|]. by rewrite Hu.
  - by rewrite Hc, IH.
Qed.

Lemma strstr_digits d u x y : Forall (fun c => isdigit c = true) d -> isdigit x = false ->
  is_Some (strstr (d ++ u) [x; y]) <-> is_Some (strstr u [x; y]).
Proof.
  intros Hd Hx. induction Hd as [|c d Hc _ IH]; [done|]. rewrite <-IH. cbn [app strstr].
  cbn [skip_str]. destruct (decide (c = x)) as [->|]; [congruence|].
  destruct (strstr (d ++ u) [x; y]) as [[p q]|]; split; intros [? ?]; simplify_eq; eauto.
Qed.

(** The units of durations. *)
Definition duration_units : list (cs * Z) :=
  [(bs "ms", Time_Milli); (bs "s", Time_Second); (bs "m", Time_Minute); (bs "h", Time_Hour)].

(** How a number with a unit is taken apart. *)
Lemma duration_split d suffix unit :
  Forall (fun c => isdigit c = true) d -> d <> [] -> (suffix, unit) ∈ duration_units ->
  match_duration (d ++ suffix) = true /\ 0 < unit /\ exists u, get_time_unit u = unit /\
    match strstr (d ++ suffix) (bs "ms") with
    | None => (default "000"%char (last (d ++ suffix)), take (length (d ++ suffix) - 1) (d ++ suffix))
    | Some _ => ("M"%char, take (length (d ++ suffix) - 2) (d ++ suffix))
    end = (u, d).
Proof.
  intros Hd Hne Hu. pose proof (strstr_digits d suffix "m" "s" Hd eq_refl) as Hss.
  assert (forall x, last (d ++ [x]) = Some x) as Hl by (intros; apply last_snoc).
  assert (forall k u, k = length u -> take (length (d ++ u) - k) (d ++ u) = d) as Ht.
  { intros k u ->. rewrite length_app, Nat.add_sub. by rewrite take_app_length. }
  unfold duration_units in Hu. rewrite !elem_of_cons in Hu.
  destruct Hu as [Hu|[Hu|[Hu|[Hu|Hu]]]]; [injection Hu as -> ->..|by apply not_elem_of_nil in Hu];
    (split; [unfold match_duration; rewrite split_digits_app, !bool_decide_eq_true_2 by (done || set_solver); done|]);
    (split; [done|]).
  - exists "M"%char. destruct (proj2 Hss) as [r Hr]; [by eexists|]. change (bs "ms") with ["m"%char; "s"%char] in *.
    rewrite Hr, Ht by done. done.
  - exists "s"%char. change (bs "ms") with ["m"%char; "s"%char]. rewrite (proj2 (eq_None_not_Some _)) by (intros [? ?]%Hss; done).
    by rewrite Hl, Ht.
  - exists "m"%char. change (bs "ms") with ["m"%char; "s"%char]. rewrite (proj2 (eq_None_not_Some _)) by (intros [? ?]%Hss; done).
    by rewrite Hl, Ht.
  - exists "h"%char. change (bs "ms") with ["m"%char; "s"%char]. rewrite (proj2 (eq_None_not_Some _)) by (intros [? ?]%Hss; done).
    by rewrite Hl, Ht.
Qed.

(** A positive number followed by a unit is converted to nanoseconds exactly when the
    product fits 64 bits, and refused otherwise; zero is accepted without storing anything. *)
Theorem duration_string_exact n suffix unit :
  0 <= n < 2 ^ 63 -> (suffix, unit) ∈ duration_units ->
  util_time_str_to_nanoseconds (Some (print_llu n ++ suffix)) =
    if n =? 0 then (0, None) else if n * unit <=? 2 ^ 63 - 1 then (0, Some (n * unit)) else (-1, Some n).
Proof.
  intros Hn Hu.
  assert (Forall (fun c => isdigit c = true) (print_llu n)) as Hd by (apply print_isdigit; [lia|constructor]).
  assert (print_llu n <> []) as Hne by (unfold print_llu; destruct (Z.eq_dec n 0) as [->|]; [done|];
    destruct (print_head 20 n []) as (d & t & _ & ->); [cbn; lia|done]).
  assert (util_safe_llong (Some (print_llu n)) = (0, Some n)) as Hsafe.
  { pose proof (strtol_print n) as Hp. unfold print_lld in Hp. rewrite (proj2 (Z.ltb_ge n 0)) in Hp by lia.
    unfold util_safe_llong, strtoll. rewrite Hp by lia. done. }
  destruct (duration_split _ _ _ Hd Hne Hu) as (Hm & Hpos & u & Hunit & Hsplit).
  unfold util_time_str_to_nanoseconds. rewrite Hm. cbn [negb]. rewrite Hsplit, Hsafe.
  cbn [Z.ltb Z.compare default from_option id]. destruct (Z.eqb_spec n 0) as [->|Hn0]; [done|].
  rewrite Hunit. unfold get_time_ns. rewrite (proj2 (Z.eqb_neq unit 0)) by lia. rewrite Z.geb_leb, Z.quot_div_nonneg by lia.
  destruct (Z.leb_spec unit ((2 ^ 63 - 1) / n)) as [Hq|Hq], (Z.leb_spec (n * unit) (2 ^ 63 - 1)); try done; exfalso.
  - assert (n * unit <= n * ((2 ^ 63 - 1) / n)) by nia. pose proof (Z.mul_div_le (2 ^ 63 - 1) n). lia.
  - assert (unit <= (2 ^ 63 - 1) / n); [apply Z.div_le_lower_bound; lia|lia].
Qed.

(** ** Intervals *)

(** The interval between two timestamps is exact when it fits 64 bits of nanoseconds (up
    to a second at either end) and refused when it is too long; an interval too far back
    overflows. *)
Theorem time_interval_exact first last :
  has_seconds first && has_nanos first && has_seconds last && has_nanos last = true ->
  0 <= nanos first < 10 ^ 9 -> 0 <= nanos last < 10 ^ 9 ->
  - 2 ^ 62 <= seconds first < 2 ^ 62 -> - 2 ^ 62 <= seconds last < 2 ^ 62 ->
  let d := (seconds last - seconds first) * 10 ^ 9 + (nanos last - nanos first) in
  (d > 2 ^ 63 - 1 -> util_get_time_interval first last = Some None) /\
  (- 2 ^ 63 + 10 ^ 9 <= d <= 9223372036 * 10 ^ 9 -> util_get_time_interval first last = Some (Some d)) /\
  (d < - 2 ^ 63 -> util_get_time_interval first last = None).
Proof.
  rewrite !andb_true_iff. intros [[[H1 H2] H3] H4] Hn1 Hn2 Hs1 Hs2. cbv zeta. unfold util_get_time_interval.
  rewrite H1, H2, H3, H4. rewrite int64_ok by lia. cbn [mbind option_bind]. rewrite int32_ok by lia. cbn [mbind option_bind].
  set (s := seconds last - seconds first). set (n := nanos last - nanos first).
  change ((2 ^ 63 - 1) / Time_Second) with 9223372036. change ((2 ^ 63 - 1) mod Time_Second) with 854775807.
  change Time_Second with (10 ^ 9). rewrite !Z.gtb_ltb.
  split_and!; intros Hd.
  - destruct (Z.ltb_spec 9223372036 s), (Z.eqb_spec s 9223372036), (Z.ltb_spec 854775807 n); cbn [orb andb]; try done; lia.
  - destruct (Z.ltb_spec 9223372036 s); [lia|]. cbn [orb].
    assert ((s =? 9223372036) && (854775807 <? n) = false) as ->
      by (destruct (Z.eqb_spec s 9223372036), (Z.ltb_spec 854775807 n); cbn; try done; lia).
    rewrite int64_ok by lia. cbn [mbind option_bind]. by rewrite int64_ok by lia.
  - destruct (Z.ltb_spec 9223372036 s); [lia|]. destruct (Z.eqb_spec s 9223372036); [lia|]. cbn [orb andb].
    unfold int64. destruct (Z.leb_spec (- 2 ^ 63) (s * 10 ^ 9)), (Z.ltb_spec (s * 10 ^ 9) (2 ^ 63)); cbn [andb mbind option_bind]; try done.
    destruct (Z.leb_spec (- 2 ^ 63) (s * 10 ^ 9 + n)); [lia|done].
Qed.

(** ** What goes wrong *)

Definition noon : types_timestamp := Ts true 1600000000 true 0.
Definition printed (off : Z) (ts : types_timestamp) : option string :=
  r ← util_get_time_buffer (fixed_zone off) ts 512; s ← r; Some (String.string_of_list_ascii s).

(** Zones of half hours, of thirteen hours and of twelve hours are misprinted. *)
Lemma zones_misprinted :
  printed 19800 noon = Some "2020-09-13T17:56:40.000000000+05:00"%string /\
  printed (13 * 3600) noon = Some "2020-09-14T01:26:40.000000000-11:00"%string /\
  printed (12 * 3600) noon = Some "2020-09-14T00:26:40.000000000-12:00"%string.
Proof. split_and!; vm_compute; reflexivity. Qed.

(** The zone of a string is ignored when it is converted. *)
Lemma zone_ignored :
  util_to_unix_nanos_from_str uchar_value (fixed_zone 0) (Some (bs "2020-09-13T12:26:40.0+08:00")) =
  util_to_unix_nanos_from_str uchar_value (fixed_zone 0) (Some (bs "2020-09-13T12:26:40.0+00:00")).
Proof. vm_compute. reflexivity. Qed.

(** A number of durations with leading zeros is octal. *)
Lemma duration_octal : util_time_str_to_nanoseconds (Some (bs "010s")) = (0, Some (8 * Time_Second)).
Proof. vm_compute. reflexivity. Qed.

(** Long numbers overflow while they are parsed, before they are checked. *)
Lemma parse_overflow : util_get_timestamp uchar_value (fixed_zone 0) (Some (bs "9999999999")) (Ts false 0 false 0) = None.
Proof. vm_compute. reflexivity. Qed.

(** ** Examples *)

Lemma in_range_demo s : (first_day * 86400 <=? s) && (s <? (last_day + 1) * 86400) = true -> in_range s.
Proof. unfold in_range. lia. Qed.

Lemma fix_date_is_calendar_witness :
  util_fix_date (Tm 2020 2 29 23 59 59) = Some (Tm 120 1 29 23 59 59) /\ util_fix_date (Tm 2100 2 29 0 0 0) = None.
Proof.
  split.
  - apply fix_date_is_calendar. split; [reflexivity|]. split; [split; vm_compute; congruence|vm_compute; reflexivity].
  - destruct (util_fix_date (Tm 2100 2 29 0 0 0)) as [t|] eqn:Ht; [|reflexivity].
    exfalso. apply fix_date_is_calendar in Ht as (-> & _ & Hg). vm_compute in Hg. discriminate.
Defined.

Lemma time_string_roundtrip_witness : exists str,
  util_get_time_buffer (fixed_zone (3600 * 8)) (Ts true 1600000000 true 5) 512 = Some (Some str) /\
  util_to_unix_nanos_from_str schar_value (fixed_zone (3600 * 8)) (Some str) = Some (Some (1600000000 * 10 ^ 9 + 5)).
Proof.
  destruct (time_string_roundtrip schar_value 8 1600000000 5 512 1600000007) as (str & H1 & H2 & _);
    [lia|apply in_range_demo; reflexivity..|lia|lia|apply in_range_demo; reflexivity|].
  exists str. split; [exact H1|exact H2].
Defined.

Lemma duration_string_exact_witness :
  util_time_str_to_nanoseconds (Some (print_llu 15 ++ bs "ms")) = (0, Some 15000000).
Proof. apply (duration_string_exact 15 (bs "ms") Time_Milli); [lia|left]. Defined.

Lemma time_interval_exact_witness :
  util_get_time_interval (Ts true 5 true 7) (Ts true 7 true 3) = Some (Some (2 * 10 ^ 9 - 4)).
Proof.
  apply (time_interval_exact (Ts true 5 true 7) (Ts true 7 true 3)); cbn; lia.
Defined.
