(* ===== verification/HealthCheck.v ===== *)
(** Health checks: src/src/daemon/modules/container/health_check/health_check.c.

    The probes work on the state of the container ([M hworld], [None] is undefined
    behaviour); what they ask of the environment - the store, memory, the disk, the clock,
    the command run in the container - is answered by [health_env].  The monitor threads and
    the functions that start and stop them are a transition system ([Monitor]). *)
From Stdlib Require Import Ascii.
From S2P Require Import Prelude KeyOrders StrUtils Path Convert Timestamp ContainerState Effects.

Open Scope Z_scope.

Definition NO_HEALTH_CHECK : string := "none".
Definition HEALTH_STARTING : string := "starting".
Definition HEALTHY : string := "healthy".
Definition UNHEALTHY : string := "unhealthy".
Definition DEFAULT_PROBE_INTERVAL : Z := 30 * Time_Second.
Definition DEFAULT_PROBE_TIMEOUT : Z := 30 * Time_Second.
Definition DEFAULT_START_PERIOD : Z := 0 * Time_Second.
Definition DEFAULT_PROBE_RETRIES : Z := 3.
Definition MAX_LOG_ENTRIES : nat := 5.
Definition EXIT_STATUS_HEALTHY : Z := 0.
Definition REV_BUF_SIZE : nat := 4096.

Inductive monitor_state := MONITOR_IDLE | MONITOR_INTERVAL | MONITOR_STOP.
#[export] Instance monitor_state_eq_dec : EqDecision monitor_state.
Proof. solve_decision. Defined.
Inductive health_probe := CMD | CMD_SHELL | HEALTH_NONE | HEALTH_UNKNOWN.

(** [health_check_manager_t] *)
Record health_check_manager := Manager { monitor_status : monitor_state; monitor_exist : bool }.

(** [defs_health_check] of the configuration. *)
Record health_config := HealthConfig {
  hc_test : list string;
  hc_interval : Z;
  hc_timeout : Z;
  hc_start_period : Z;
  hc_retries : Z;
  hc_exit_on_unhealthy : bool
}.

(** The container; [hw_stops] counts the threads started to stop it. *)
Record hworld := HWorld {
  hw_state : container_state;
  hw_manager : option health_check_manager;
  hw_disk : option container_state;
  hw_stops : nat
}.

(** What a command run in the container leaves behind: the result of [exec_container], the
    error message and the exit code of its response, and the data written to the two streams. *)
Record exec_outcome := ExecOutcome {
  xo_ret : Z;
  xo_errmsg : option cs;
  xo_exit_code : Z;
  xo_writes : list cs
}.

Record health_env := HealthEnv {
  he_found : bool;               (** [containers_store_get] *)
  he_alloc : Z -> bool;          (** [calloc] of a number of bytes *)
  he_realloc : bool;
  he_calloc : bool;              (** [calloc] of a structure *)
  he_mutex : bool;               (** [pthread_mutex_init] *)
  he_save : bool;                (** [container_state_to_disk] *)
  he_thread : bool;              (** [pthread_create] *)
  he_clock : option (Z * Z);     (** [clock_gettime], at the start and at the end of a probe *)
  he_clock_end : option (Z * Z);
  he_zone : zone;
  he_cval : ascii -> Z;          (** digits, as in Convert *)
  he_exec : list (option cs) -> Z -> exec_outcome   (** [exec_container] on the arguments and the time-out *)
}.

Section health.
Context (E : health_env) (config : health_config).
Abbreviation H A := (M hworld A) (only parsing).

(** ** State *)

Definition put_health (h : option defs_health) (s : container_state) : container_state :=
  CState (pid s) (oom_killed s) (dead s) (paused s) (running s) (restarting s) (removal_inprogress s)
    (starting s) (exit_code s) (started_at s) (finished_at s) (error s) h (restart_count s)
    (start_time s) (p_pid s) (p_start_time s) (has_been_manually_stopped s).

(** [cont->state->state->health], which must not be NULL. *)
Definition get_health : H defs_health := s ← gets hw_state; lift (health s).
Definition set_health (h : defs_health) : H unit :=
  modify (fun w => HWorld (put_health (Some h) (hw_state w)) (hw_manager w) (hw_disk w) (hw_stops w)).
Definition to_disk : H unit :=
  when (he_save E) (modify (fun w => HWorld (hw_state w) (hw_manager w) (Some (hw_state w)) (hw_stops w))).

Definition get_health_status : H string :=
  h ← get_health;
  mret (match h_status h with
        | None => UNHEALTHY
        | Some s => if (String.length s =? 0)%nat then UNHEALTHY else s
        end).

Definition set_health_status (new : string) : H unit :=
  h ← get_health;
  set_health (Health (Some new) (h_failing_streak h) (h_log h));;
  to_disk.

(** ** The manager *)

Definition get_manager : H health_check_manager := m ← gets hw_manager; lift m.
Definition set_manager (m : health_check_manager) : H unit :=
  modify (fun w => HWorld (hw_state w) (Some m) (hw_disk w) (hw_stops w)).

Definition init_monitor_idle_status : H unit :=
  m ← get_manager; set_manager (Manager MONITOR_IDLE (monitor_exist m)).
(** Not from [MONITOR_STOP]. *)
Definition transfer_monitor_idle_status : H Z :=
  m ← get_manager;
  if decide (monitor_status m = MONITOR_STOP) then mret (-1)
  else set_manager (Manager MONITOR_IDLE (monitor_exist m));; mret 0.
Definition set_monitor_stop_status : H unit :=
  m ← get_manager; set_manager (Manager MONITOR_STOP (monitor_exist m)).
Definition transfer_monitor_interval_timeout_status : H Z :=
  m ← get_manager;
  if decide (monitor_status m = MONITOR_STOP) then mret (-1)
  else set_manager (Manager MONITOR_INTERVAL (monitor_exist m));; mret 0.
Definition get_health_check_monitor_state : H monitor_state := m ← get_manager; mret (monitor_status m).
Definition set_monitor_exist_flag (b : bool) : H unit :=
  m ← get_manager; set_manager (Manager (monitor_status m) b).
Definition get_monitor_exist_flag : H bool := m ← get_manager; mret (monitor_exist m).

(** ** Results of probes *)

(** The five entries move one place down. *)
Definition shift_and_store_log_result (h : defs_health) (result : defs_health_log_element) : defs_health :=
  Health (h_status h) (h_failing_streak h) (take (MAX_LOG_ENTRIES - 1) (drop 1 (h_log h)) ++ [result]).
Definition append_last_log_result (h : defs_health) (result : defs_health_log_element) : option defs_health :=
  if negb (he_realloc E) then None
  else if negb (he_calloc E) then None
  else Some (Health (h_status h) (h_failing_streak h) (h_log h ++ [result])).

Definition append_health_log (result : defs_health_log_element) : H Z :=
  h ← get_health;
  if (MAX_LOG_ENTRIES <=? length (h_log h))%nat then set_health (shift_and_store_log_result h result);; mret 0
  else
    match append_last_log_result h result with
    | None => mret (-1)
    | Some h => set_health h;; mret 0
    end.

Definition handle_increment_streak (retries : Z) : H Z :=
  h ← get_health;
  streak ← lift (int32 (h_failing_streak h + 1));
  set_health (Health (h_status h) streak (h_log h));;
  if streak >=? retries then
    set_health_status UNHEALTHY;;
    if hc_exit_on_unhealthy config then
      if he_thread E then
        modify (fun w => HWorld (hw_state w) (hw_manager w) (hw_disk w) (hw_stops w + 1));; mret 0
      else mret (-1)
    else mret 0
  else to_disk;; mret 0.

Definition start_period : Z :=
  if hc_start_period config =? 0 then DEFAULT_START_PERIOD else hc_start_period config.

(** [None]: one of the times cannot be read. *)
Definition within_start_period (result : defs_health_log_element) : H (option bool) :=
  s ← gets hw_state;
  first ← lift (util_to_unix_nanos_from_str (he_cval E) (he_zone E) (bs <$> started_at s));
  match first with
  | None => mret None
  | Some first =>
      last ← lift (util_to_unix_nanos_from_str (he_cval E) (he_zone E) (bs <$> hl_start result));
      match last with
      | None => mret None
      | Some last => d ← lift (int64 (last - first)); mret (Some (d <? start_period))
      end
  end.

Definition handle_unhealthy_case (result : defs_health_log_element) (retries : Z) : H Z :=
  health_status ← get_health_status;
  skip ← (if decide (health_status = HEALTH_STARTING) then within_start_period result else mret (Some false));
  match skip with
  | None => mret (-1)
  | Some true => mret 0
  | Some false => handle_increment_streak retries
  end.

Definition probe_retries : Z := if hc_retries config <=? 0 then DEFAULT_PROBE_RETRIES else hc_retries config.

(** The status and whether an event was reported. *)
Definition handle_probe_result (result : defs_health_log_element) : H (Z * bool) :=
  if negb (he_found E) then mret (-1, false)
  else
    st ← get_health_check_monitor_state;
    if decide (st = MONITOR_STOP) then mret (0, false)
    else
      old_state ← get_health_status;
      ret ← append_health_log result;
      if negb (ret =? 0) then mret (ret, false)
      else
        ret ← (if hl_exit_code result =? EXIT_STATUS_HEALTHY then
                 h ← get_health;
                 set_health (Health (h_status h) 0 (h_log h));;
                 set_health_status HEALTHY;;
                 mret 0
               else handle_unhealthy_case result probe_retries);
        if negb (ret =? 0) then mret (-1, false)
        else current ← get_health_status; mret (0, bool_decide (old_state <> current)).

(** ** Running a probe *)

(** The buffer of the output: every write starts at its beginning. *)
Definition strncpy (dst src : cs) (n : nat) : cs :=
  let src := cut_nul (take n src) in src ++ replicate (n - length src) zero ++ drop n dst.
Definition write_to_string (dst data : cs) : cs :=
  let len := length data in
  if (len =? 0)%nat then dst
  else if (REV_BUF_SIZE <=? len)%nat then
    take (REV_BUF_SIZE - 4) (strncpy dst data (REV_BUF_SIZE - 4)) ++ bs "..." ++ [zero]
  else strncpy dst data len.

(** [{"/bin/sh", "-c", NULL}] *)
Definition get_shell : option (option (list (option cs))) :=
  r1 ← util_array_append (he_alloc E) None (Some (bs "/bin/sh"));
  if negb (r1.1 =? 0) then Some None
  else
    r2 ← util_array_append (he_alloc E) r1.2 (Some (bs "-c"));
    Some (if negb (r2.1 =? 0) then None else r2.2).

(** The cells of the array; its last one stays NULL when there is a test. *)
Definition health_check_cmds : option (option (list (option cs))) :=
  shell ← get_shell;
  match shell with
  | None => Some None
  | Some shell =>
      shell_len ← util_array_len shell;
      let test_len := length (hc_test config) in
      if Z.of_nat shell_len >? SIZE_MAX / sizeof_ptr - Z.of_nat test_len then Some None
      else if negb (util_common_calloc_s (he_alloc E) ((Z.of_nat shell_len + Z.of_nat test_len) * sizeof_ptr))
      then Some None
      else Some (Some (take shell_len shell ++ ((fun t => Some (bs t)) <$> tail (hc_test config)) ++
                       replicate (Nat.min 1 test_len) None))
  end.

Definition health_check_exec_failed_handle (r : exec_outcome) (result : defs_health_log_element)
    : defs_health_log_element :=
  HealthLog (hl_start result) (hl_end result) (-1)
    (Some (match xo_errmsg r with
           | Some m => String.string_of_list_ascii m
           | None => "Execution of exec failed"%string
           end)).
(** [exit_code] is a [uint32_t] cast to [int]. *)
Definition health_check_exec_success_handle (r : exec_outcome) (output : cs) (result : defs_health_log_element)
    : defs_health_log_element :=
  HealthLog (hl_start result) (hl_end result) (wrap_s 32 (xo_exit_code r))
    (Some (String.string_of_list_ascii output)).

Definition probe_timeout : Z :=
  Z.quot (if hc_timeout config =? 0 then DEFAULT_PROBE_TIMEOUT else hc_timeout config) Time_Second.
Definition TIME_STR_SIZE : Z := 512.

(** The output of a probe: the string in the zeroed buffer after all writes. *)
Definition probe_output (writes : list cs) : cs :=
  cut_nul (foldl write_to_string (replicate REV_BUF_SIZE zero) writes).

(** [health_check_run] up to the end of the command: [None] when there is no result. *)
Definition run_probe : H (option defs_health_log_element) :=
  if negb (he_found E) then mret None
  else
    cmds ← lift health_check_cmds;
    match cmds with
    | None => mret None
    | Some cmd_slice =>
        if negb (he_calloc E) then mret None
        else
          argv_len ← lift (util_array_len cmd_slice);
          start ← lift (util_get_now_time_buffer (he_zone E) (he_clock E) TIME_STR_SIZE);
          let start := default [] start in
          let r := he_exec E (take argv_len cmd_slice) probe_timeout in
          let result := HealthLog (Some (String.string_of_list_ascii start)) None 0 None in
          let result :=
            if negb (xo_ret r =? 0) then health_check_exec_failed_handle r result
            else health_check_exec_success_handle r (probe_output (xo_writes r)) result in
          end_ ← lift (util_get_now_time_buffer (he_zone E) (he_clock_end E) TIME_STR_SIZE);
          mret (Some (HealthLog (hl_start result) (Some (String.string_of_list_ascii (default start end_)))
                        (hl_exit_code result) (hl_output result)))
    end.
Definition health_check_run : H unit :=
  r ← run_probe;
  match r with
  | None => mret tt
  | Some result => _ ← handle_probe_result result; mret tt
  end.

Definition get_probe : health_probe :=
  match hc_test config with
  | [] => HEALTH_NONE
  | t :: _ =>
      if decide (t = "CMD"%string) then CMD
      else if decide (t = "CMD-SHELL"%string) then CMD_SHELL
      else if decide (t = "NONE"%string) then HEALTH_NONE
      else HEALTH_NONE
  end.

(** ** The monitor *)

Definition valid_container_status_for_health_check : H bool :=
  s ← gets hw_state;
  mret (if negb (he_found E) then false
        else if negb (container_is_running (Some s)) then false
        else if container_is_paused (Some s) then false
        else if container_is_restarting (Some s) then false
        else true).

(** After the probe: the new start of the interval, or [None] for the result -1. *)
Definition interval_done : H (option types_timestamp) :=
  ret ← transfer_monitor_idle_status;
  if negb (ret =? 0) then mret None else mret (util_get_now_time_stamp (he_clock_end E)).
Definition do_monitor_interval : H (option types_timestamp) :=
  valid ← valid_container_status_for_health_check;
  if negb valid then mret None else health_check_run;; interval_done.

Definition probe_interval : Z :=
  if hc_interval config =? 0 then DEFAULT_PROBE_INTERVAL else hc_interval config.

Definition do_monitor_default (start_timestamp : types_timestamp) : H Z :=
  valid ← valid_container_status_for_health_check;
  if negb valid then mret (-1)
  else
    match util_get_now_time_stamp (he_clock E) with
    | None => mret (-1)
    | Some last_timestamp =>
        d ← lift (util_get_time_interval start_timestamp last_timestamp);
        match d with
        | None => mret (-1)
        | Some time_interval =>
            if time_interval >=? probe_interval then
              ret ← transfer_monitor_interval_timeout_status;
              if negb (ret =? 0) then mret (-1) else mret 0
            else mret 0
        end
    end.

(** ** Starting and stopping the monitor

    [health_check_monitor] and the functions that wait for its end as machines, one step for
    each critical section of the manager's lock and for each turn of a loop. *)

Inductive monitor_pc :=
  | MStart                                  (** created, before its first instruction *)
  | MLoop (start : types_timestamp)         (** at the [switch] *)
  | MInterval (start : types_timestamp)     (** in [do_monitor_interval], before the probe *)
  | MResult (start : types_timestamp) (result : defs_health_log_element)
  | MProbed (start : types_timestamp)       (** after the probe *)
  | MDefault (start : types_timestamp)      (** in [do_monitor_default] *)
  | MOut                                    (** at [out] *)
  | MExit                                   (** the status is set, the flag is not *)
  | MDone.

(** One step of [health_check_monitor]; [MStart] of a container that is gone jumps to [out],
    where the NULL container is dereferenced. *)
Definition health_check_monitor (pc : monitor_pc) : H monitor_pc :=
  match pc with
  | MStart =>
      if negb (he_found E) then crash
      else
        set_monitor_exist_flag true;;
        mret (match util_get_now_time_stamp (he_clock E) with None => MOut | Some t => MLoop t end)
  | MLoop start =>
      st ← get_health_check_monitor_state;
      mret (match st with
            | MONITOR_STOP => MOut
            | MONITOR_INTERVAL => MInterval start
            | MONITOR_IDLE => MDefault start
            end)
  | MInterval start =>
      valid ← valid_container_status_for_health_check;
      if negb valid then mret MOut
      else
        r ← run_probe;
        mret (match r with None => MProbed start | Some result => MResult start result end)
  | MResult start result => _ ← handle_probe_result result; mret (MProbed start)
  | MProbed start =>
      r ← interval_done;
      mret (match r with None => MOut | Some start => MLoop start end)
  | MDefault start =>
      ret ← do_monitor_default start;
      mret (if negb (ret =? 0) then MOut else MLoop start)
  | MOut => set_health_status UNHEALTHY;; mret MExit
  | MExit => set_monitor_exist_flag false;; mret MDone
  | MDone => crash
  end.

(** A caller: nothing to do, in [close_health_check_monitor] with a monitor wanted afterwards
    or not, past it, before [pthread_create]. *)
Inductive caller_pc := CDone | CWait (want_running : bool) | CClosed (want_running : bool) | CCreate.

(** [close_health_check_monitor] up to its loop *)
Definition close_health_check_monitor (want_running : bool) : H caller_pc :=
  m ← gets hw_manager;
  match m with
  | None => mret (CClosed want_running)
  | Some _ => set_monitor_stop_status;; mret (CWait want_running)
  end.

Definition container_stop_health_checks : H caller_pc :=
  if negb (he_found E) then mret CDone
  else
    s ← gets hw_state;
    match health s with
    | None => mret CDone
    | Some _ => close_health_check_monitor false
    end.

Definition container_update_health_monitor : H caller_pc :=
  if negb (he_found E) then mret CDone
  else
    s ← gets hw_state;
    match health s with
    | None => mret CDone
    | Some _ =>
        close_health_check_monitor
          (container_is_running (Some s) && negb (container_is_paused (Some s)) &&
           match get_probe with HEALTH_NONE => false | _ => true end)
    end.

Definition health_check_manager_new (alloc mutex : bool) : option health_check_manager :=
  if negb alloc then None else if negb mutex then None else Some (Manager MONITOR_IDLE false).

(** A test of length 0 is a NULL array. *)
Definition container_init_health_monitor : H caller_pc :=
  if negb (he_found E) then mret CDone
  else if bool_decide (hc_test config = []) then mret CDone
  else
    m ← gets hw_manager;
    ok ← match m with
         | Some _ => mret true
         | None =>
             match health_check_manager_new (he_calloc E) (he_mutex E) with
             | None => mret false
             | Some m => set_manager m;; mret true
             end
         end;
    if negb ok then mret CDone
    else
      match get_probe with
      | HEALTH_NONE => mret CDone
      | _ =>
          s ← gets hw_state;
          match health s with
          | Some _ =>
              set_health_status HEALTH_STARTING;;
              h ← get_health;
              set_health (Health (h_status h) 0 (h_log h));;
              container_update_health_monitor
          | None =>
              if negb (he_calloc E) then mret CDone
              else
                set_health (Health None 0 []);;
                set_health_status HEALTH_STARTING;;
                container_update_health_monitor
          end
      end.

(** One step of a caller: its next point and whether a thread was created. *)
Definition caller_step (pc : caller_pc) : H (caller_pc * bool) :=
  match pc with
  | CWait want => b ← get_monitor_exist_flag; mret (if b : bool then CWait want else CClosed want, false)
  | CClosed true => init_monitor_idle_status;; mret (CCreate, false)
  | CClosed false => mret (CDone, false)
  | CCreate => mret (CDone, he_thread E)
  | CDone => crash
  end.
End health.

(** ** The threads of a container

    There is one caller at a time, because the callers are to hold the lock of the container
    (checkpoint_restore, checkpoint.c:193, does not); any number of monitor threads. *)
Record hsystem := HSystem { hs_world : hworld; hs_monitors : list monitor_pc; hs_caller : caller_pc }.

Inductive hrequest := ReqInit | ReqUpdate | ReqStop.
(** Steps: a call begins, the caller goes on, a monitor goes on, the rest of the daemon
    changes the flags of the container. *)
Inductive haction :=
  | HBegin (r : hrequest) (E : health_env)
  | HCaller (E : health_env)
  | HMonitor (i : nat) (E : health_env)
  | HFlags (running paused restarting : bool).

Definition put_flags (r p s : bool) (x : container_state) : container_state :=
  CState (pid x) (oom_killed x) (dead x) p r s (removal_inprogress x)
    (starting x) (exit_code x) (started_at x) (finished_at x) (error x) (health x) (restart_count x)
    (start_time x) (p_pid x) (p_start_time x) (has_been_manually_stopped x).

Definition hrequest_begin (config : health_config) (r : hrequest) (E : health_env) : M hworld caller_pc :=
  match r with
  | ReqInit => container_init_health_monitor E config
  | ReqUpdate => container_update_health_monitor E config
  | ReqStop => container_stop_health_checks E
  end.

Definition hstep (config : health_config) (a : haction) (y : hsystem) : option hsystem :=
  match a with
  | HBegin r E =>
      match hs_caller y with
      | CDone => '(c, w) ← hrequest_begin config r E (hs_world y); Some (HSystem w (hs_monitors y) c)
      | _ => None
      end
  | HCaller E =>
      '((c, created), w) ← caller_step E (hs_caller y) (hs_world y);
      Some (HSystem w (hs_monitors y ++ (if created : bool then [MStart] else [])) c)
  | HMonitor i E =>
      pc ← hs_monitors y !! i;
      '(pc, w) ← health_check_monitor E config pc (hs_world y);
      Some (HSystem w (<[i := pc]> (hs_monitors y)) (hs_caller y))
  | HFlags r p s =>
      let w := hs_world y in
      Some (HSystem (HWorld (put_flags r p s (hw_state w)) (hw_manager w) (hw_disk w) (hw_stops w))
              (hs_monitors y) (hs_caller y))
  end.
Fixpoint hrun (config : health_config) (l : list haction) (y : hsystem) : option hsystem :=
  match l with [] => Some y | a :: l => hstep config a y ≫= hrun config l end.
