(* ===== verification/HealthCheckProps.v ===== *)
(** What a sequence of probe results leaves in the health of a container, and the bounds of
    the output of a probe. *)
From Stdlib Require Import Ascii.
From S2P Require Import Prelude KeyOrders StrUtils Path Convert Timestamp TimestampProps ContainerState Effects HealthCheck.

Open Scope Z_scope.

(** ** The history of a container *)

(** A probe: the environment in which its result is handled, the result, and the time in
    nanoseconds at which it started. *)
Record probe := Probe { pr_env : health_env; pr_result : defs_health_log_element; pr_time : Z }.

Definition succeeded (p : probe) : bool := hl_exit_code (pr_result p) =? EXIT_STATUS_HEALTHY.

Fixpoint record_probes (config : health_config) (ps : list probe) : M hworld unit :=
  match ps with
  | [] => mret tt
  | p :: ps => _ ← handle_probe_result (pr_env p) config (pr_result p); record_probes config ps
  end.

Section history.
Context (config : health_config) (first : Z).

(** The start period is over when the probe starts. *)
Definition late (p : probe) : bool := start_period config <=? pr_time p - first.

(** The failures since the last success, and whether there was one. *)
Fixpoint recent (ps : list probe) (acc : list probe) : list probe :=
  match ps with [] => acc | p :: ps => recent ps (if succeeded p then [] else acc ++ [p]) end.
Definition some_success (ps : list probe) : bool := existsb succeeded ps.

(** Before the first success, failures within the start period do not count. *)
Definition spec_streak (ps : list probe) : Z :=
  Z.of_nat (length (if some_success ps then recent ps [] else filter (fun p => late p) ps)).
Definition spec_status (ps : list probe) : string :=
  if probe_retries config <=? spec_streak ps then UNHEALTHY
  else if some_success ps then HEALTHY else HEALTH_STARTING.
Definition spec_log (log0 : list defs_health_log_element) (ps : list probe) : list defs_health_log_element :=
  let l := log0 ++ (pr_result <$> ps) in drop (length l - MAX_LOG_ENTRIES) l.

Lemma recent_snoc ps acc p : recent (ps ++ [p]) acc = if succeeded p then [] else recent ps acc ++ [p].
Proof. revert acc. induction ps as [|q ps IH]; intros acc; cbn; [done|]. apply IH. Qed.
Lemma some_success_snoc ps p : some_success (ps ++ [p]) = some_success ps || succeeded p.
Proof. unfold some_success. rewrite existsb_app. cbn. by rewrite orb_false_r. Qed.
Lemma retries_pos : 0 < probe_retries config.
Proof. unfold probe_retries, DEFAULT_PROBE_RETRIES. destruct (Z.leb_spec (hc_retries config) 0); lia. Qed.
Lemma spec_streak_nonneg ps : 0 <= spec_streak ps.
Proof. unfold spec_streak. lia. Qed.

Lemma recent_length ps acc : (length (recent ps acc) <= length ps + length acc)%nat.
Proof.
  revert acc. induction ps as [|p ps IH]; intros acc; cbn; [lia|].
  etrans; [apply IH|]. destruct (succeeded p); cbn; [lia|]. rewrite length_app. cbn. lia.
Qed.
Lemma spec_streak_bound ps : spec_streak ps <= Z.of_nat (length ps).
Proof.
  unfold spec_streak. destruct (some_success ps).
  - pose proof (recent_length ps []) as H. cbn in H. lia.
  - pose proof (length_filter (fun p => late p) ps). lia.
Qed.

Lemma spec_streak_success ps p : succeeded p = true -> spec_streak (ps ++ [p]) = 0.
Proof. intros H. unfold spec_streak. by rewrite some_success_snoc, recent_snoc, H, orb_true_r. Qed.
Lemma spec_streak_failure ps p : succeeded p = false ->
  spec_streak (ps ++ [p]) = spec_streak ps + (if some_success ps || late p then 1 else 0).
Proof.
  intros H. unfold spec_streak. rewrite some_success_snoc, recent_snoc, H, orb_false_r.
  destruct (some_success ps); cbn [orb].
  - rewrite length_app. cbn. lia.
  - rewrite filter_app, length_app, filter_cons, filter_nil.
    case_decide as Hd; destruct (late p); cbn in *; [lia|done|by destruct Hd|lia].
Qed.

Lemma spec_log_snoc log0 ps p : (length log0 <= MAX_LOG_ENTRIES)%nat ->
  spec_log log0 (ps ++ [p]) =
  if (MAX_LOG_ENTRIES <=? length (spec_log log0 ps))%nat
  then take (MAX_LOG_ENTRIES - 1) (drop 1 (spec_log log0 ps)) ++ [pr_result p]
  else spec_log log0 ps ++ [pr_result p].
Proof.
  intros Hl. unfold spec_log. rewrite fmap_app, app_assoc. cbn [fmap list_fmap].
  set (l := log0 ++ (pr_result <$> ps)). rewrite length_app, length_drop. cbn [length].
  unfold MAX_LOG_ENTRIES in *. destruct (Nat.leb_spec 5 (length l - (length l - 5))).
  - rewrite drop_drop, drop_app_le by lia. f_equal.
    replace (length l + 1 - 5)%nat with (length l - 5 + 1)%nat by lia.
    rewrite take_ge; [done|]. rewrite length_drop. lia.
  - rewrite drop_app_le by lia. f_equal. f_equal. lia.
Qed.

(** What is supposed of a probe: memory is found, the thread that stops the container can be
    created, and the two times can be read and subtracted. *)
Record probe_ok (started : option string) (p : probe) : Prop := ProbeOk {
  po_found : he_found (pr_env p) = true;
  po_realloc : he_realloc (pr_env p) = true;
  po_calloc : he_calloc (pr_env p) = true;
  po_thread : he_thread (pr_env p) = true;
  po_first : util_to_unix_nanos_from_str (he_cval (pr_env p)) (he_zone (pr_env p)) (bs <$> started) = Some (Some first);
  po_last : util_to_unix_nanos_from_str (he_cval (pr_env p)) (he_zone (pr_env p)) (bs <$> hl_start (pr_result p))
            = Some (Some (pr_time p));
  po_diff : - 2 ^ 63 <= pr_time p - first < 2 ^ 63
}.

(** The container after the probes [ps]. *)
Definition recorded (started : option string) (log0 : list defs_health_log_element) (ps : list probe)
    (w : hworld) : Prop :=
  started_at (hw_state w) = started /\
  (exists m, hw_manager w = Some m /\ monitor_status m <> MONITOR_STOP) /\
  health (hw_state w) = Some (Health (Some (spec_status ps)) (spec_streak ps) (spec_log log0 ps)).

(** Start times do not decrease. *)
Definition ordered (ps : list probe) : Prop := StronglySorted Z.le (pr_time <$> ps).

Context (started : option string) (log0 : list defs_health_log_element) (Hlog0 : (length log0 <= MAX_LOG_ENTRIES)%nat).

(** Everything but the health is left alone. *)
Definition only_health (h : defs_health) (w w' : hworld) : Prop :=
  hw_state w' = put_health (Some h) (hw_state w) /\ hw_manager w' = hw_manager w.

Lemma only_health_trans h h' w w' w'' : only_health h w w' -> only_health h' w' w'' -> only_health h' w w''.
Proof. intros [H1 ?] [H2 ?]. split; [|congruence]. by rewrite H2, H1. Qed.

Lemma wp_get_health h (Q : defs_health -> hworld -> Prop) w :
  health (hw_state w) = Some h -> Q h w -> wp get_health Q w.
Proof. intros Hh HQ. unfold get_health. repeat wp_step. by eapply wp_lift. Qed.

Lemma wp_set_health h w : wp (set_health h) (fun _ w' => only_health h w w') w.
Proof. unfold set_health. wp_step. done. Qed.

Lemma wp_to_disk E (Q : unit -> hworld -> Prop) w :
  (forall d, Q tt (HWorld (hw_state w) (hw_manager w) d (hw_stops w))) -> wp (to_disk E) Q w.
Proof. intros HQ. unfold to_disk. wp_step; [wp_step; apply HQ|]. destruct w as [? ? d ?]. apply (HQ d). Qed.

Lemma wp_set_health_status E h s w : health (hw_state w) = Some h ->
  wp (set_health_status E s) (fun _ w' => only_health (Health (Some s) (h_failing_streak h) (h_log h)) w w') w.
Proof.
  intros Hh. unfold set_health_status. wp_step. eapply wp_get_health; [done|]. wp_step.
  eapply wp_conseq; [apply wp_set_health|]. cbn. intros ? w' [Hs Hm].
  apply wp_to_disk. intros d. done.
Qed.

Lemma wp_get_health_status h s w (Q : string -> hworld -> Prop) :
  health (hw_state w) = Some h -> h_status h = Some s -> s <> ""%string -> Q s w -> wp get_health_status Q w.
Proof.
  intros Hh Hs Hne HQ. unfold get_health_status. wp_step. eapply wp_get_health; [done|]. wp_step.
  rewrite Hs. by destruct s.
Qed.

Lemma wp_append_log p ps h w : probe_ok started p -> health (hw_state w) = Some h -> h_log h = spec_log log0 ps ->
  wp (append_health_log (pr_env p) (pr_result p)) (fun ret w' => ret = 0 /\
    only_health (Health (h_status h) (h_failing_streak h) (spec_log log0 (ps ++ [p]))) w w') w.
Proof.
  intros Hp Hh Hl. unfold append_health_log. wp_step. eapply wp_get_health; [done|].
  unfold append_last_log_result, shift_and_store_log_result.
  rewrite spec_log_snoc, (po_realloc _ _ Hp), (po_calloc _ _ Hp), <-Hl by done. cbn [negb].
  wp_step; rewrite H; (wp_step; eapply wp_conseq; [apply wp_set_health|]; intros ? w' Hw; by wp_step).
Qed.

Lemma wp_increment p ps st lg w :
  probe_ok started p -> health (hw_state w) = Some (Health (Some st) (spec_streak ps) lg) ->
  Z.of_nat (length ps) < 2 ^ 31 - 1 ->
  wp (handle_increment_streak (pr_env p) config (probe_retries config)) (fun ret w' => ret = 0 /\
    only_health (Health (Some (if probe_retries config <=? spec_streak ps + 1 then UNHEALTHY else st))
                   (spec_streak ps + 1) lg) w w') w.
Proof.
  intros Hp Hh Hn. unfold handle_increment_streak. wp_step. eapply wp_get_health; [done|]. wp_step.
  pose proof (spec_streak_bound ps). pose proof (spec_streak_nonneg ps).
  eapply wp_lift; [apply int32_ok; cbn [h_failing_streak]; lia|]. wp_step.
  eapply wp_conseq; [apply wp_set_health|]. intros ? w1 H1. cbn [h_failing_streak h_status h_log] in *.
  rewrite Z.geb_leb. wp_step; rewrite H2.
  - wp_step. eapply wp_conseq; [apply wp_set_health_status; rewrite (proj1 H1); reflexivity|].
    intros ? w2 H3. pose proof (only_health_trans _ _ _ _ _ H1 H3) as H4. rewrite (po_thread _ _ Hp).
    wp_step; [|by wp_step]. wp_step. wp_step. wp_step. done.
  - wp_step. apply wp_to_disk. intros d. wp_step. done.
Qed.

Lemma within_start_ok p w : probe_ok started p -> started_at (hw_state w) = started ->
  within_start_period (pr_env p) config (pr_result p) w = Some (Some (negb (late p)), w).
Proof.
  intros Hp Hs. unfold within_start_period, gets, lift, late, mbind, M_bind. rewrite Hs, (po_first _ _ Hp). cbn.
  rewrite (po_last _ _ Hp). cbn. rewrite int64_ok by apply Hp. cbn. do 2 f_equal. f_equal.
  by rewrite Z.leb_antisym, negb_involutive.
Qed.

(** A failure before any success that comes after one that was counted is counted as well. *)
Lemma counted_stays ps p : ordered (ps ++ [p]) -> some_success ps = false -> 0 < spec_streak ps -> late p = true.
Proof.
  unfold ordered, spec_streak. intros Ho -> Hs.
  destruct (filter (fun p => late p) ps) as [|q l] eqn:Hf; [done|].
  assert (late q /\ q ∈ ps) as [Hq Hin].
  { apply (list_elem_of_filter (fun p => late p)). rewrite Hf. apply list_elem_of_here. }
  rewrite fmap_app in Ho.
  pose proof (StronglySorted_app_1_elem_of _ _ _ (pr_time q) (pr_time p) Ho) as Hle.
  unfold late in *. apply Is_true_true in Hq.
  assert (pr_time q <= pr_time p); [|lia].
  apply Hle; [by apply list_elem_of_fmap_2|apply list_elem_of_here].
Qed.

Lemma spec_status_nonempty ps : spec_status ps <> ""%string.
Proof. unfold spec_status. by repeat case_match. Qed.
Lemma spec_status_starting ps : spec_status ps = HEALTH_STARTING <->
  spec_streak ps < probe_retries config /\ some_success ps = false.
Proof.
  unfold spec_status. destruct (Z.leb_spec (probe_retries config) (spec_streak ps)), (some_success ps);
    split; intros; (done || (destruct_and?; done || lia) || idtac); lia.
Qed.

Lemma wp_unhealthy p ps w lg :
  probe_ok started p -> succeeded p = false -> ordered (ps ++ [p]) -> Z.of_nat (length ps) < 2 ^ 31 - 1 ->
  started_at (hw_state w) = started ->
  health (hw_state w) = Some (Health (Some (spec_status ps)) (spec_streak ps) lg) ->
  wp (handle_unhealthy_case (pr_env p) config (pr_result p) (probe_retries config)) (fun ret w' => ret = 0 /\
    only_health (Health (Some (spec_status (ps ++ [p]))) (spec_streak (ps ++ [p])) lg) w w') w.
Proof.
  intros Hp Hf Ho Hn Hs Hh. unfold handle_unhealthy_case. wp_step.
  eapply wp_get_health_status; [done..|apply spec_status_nonempty|]. wp_step.
  assert (forall ps', only_health (Health (Some (spec_status ps')) (spec_streak ps') lg) w w <->
    Some (Health (Some (spec_status ps')) (spec_streak ps') lg) = health (hw_state w)) as Hsame.
  { intros ps'. split; [intros [H _]; by rewrite H|]. intros H. split; [|done]. unfold put_health. rewrite H.
    by destruct (hw_state w). }
  assert (late p = true \/ some_success ps = true -> wp (handle_increment_streak (pr_env p) config (probe_retries config))
    (fun ret w' => ret = 0 /\
    only_health (Health (Some (spec_status (ps ++ [p]))) (spec_streak (ps ++ [p])) lg) w w') w) as Hinc.
  { intros Hc. eapply wp_conseq; [by eapply wp_increment|]. intros ret w' [-> Hw]. split; [done|].
    assert (spec_streak (ps ++ [p]) = spec_streak ps + 1) as Hst.
    { rewrite spec_streak_failure by done. destruct Hc as [-> | ->]; [by rewrite orb_true_r|done]. }
    unfold spec_status. rewrite Hst, some_success_snoc, Hf, orb_false_r.
    destruct (Z.leb_spec (probe_retries config) (spec_streak ps + 1)); [done|].
    unfold spec_status in Hw. destruct (Z.leb_spec (probe_retries config) (spec_streak ps)); [lia|done]. }
  case_decide as Hd.
  - eexists _, _. split; [by apply within_start_ok|]. destruct (late p) eqn:Hl; cbn [negb]; [auto|].
    apply wp_mret. split; [done|]. apply spec_status_starting in Hd as [Hlt Hns].
    rewrite Hsame, Hh. unfold spec_status.
    by rewrite spec_streak_failure, some_success_snoc, Hns, Hl, Hf, Z.add_0_r by done.
  - wp_step. apply Hinc. rewrite spec_status_starting in Hd. destruct (some_success ps) eqn:Hss; [by right|left].
    pose proof retries_pos. apply (counted_stays ps); [done..|]. destruct (Z.ltb_spec 0 (spec_streak ps)); [done|].
    destruct Hd. split; [lia|done].
Qed.

Lemma recorded_step p ps w :
  probe_ok started p -> ordered (ps ++ [p]) -> Z.of_nat (length ps) < 2 ^ 31 - 1 -> recorded started log0 ps w ->
  wp (handle_probe_result (pr_env p) config (pr_result p)) (fun r w' => r.1 = 0 /\
    r.2 = bool_decide (spec_status ps <> spec_status (ps ++ [p])) /\ recorded started log0 (ps ++ [p]) w') w.
Proof.
  intros Hp Ho Hn (Hs & (m & Hm & Hst) & Hh). unfold handle_probe_result. rewrite (po_found _ _ Hp). cbn [negb].
  wp_step. unfold get_health_check_monitor_state, get_manager. do 3 wp_step. eapply wp_lift; [done|]. wp_step.
  rewrite decide_False by done. wp_step.
  eapply wp_get_health_status; [done..|apply spec_status_nonempty|]. wp_step.
  eapply wp_conseq; [by eapply (wp_append_log p ps)|]. intros ret w1 [-> H1]. cbn [h_status h_failing_streak] in H1.
  change (negb (0 =? 0)) with false. cbn [negb]. wp_step.
  apply (wp_conseq _ (fun ret w' => ret = 0 /\
    only_health (Health (Some (spec_status (ps ++ [p]))) (spec_streak (ps ++ [p])) (spec_log log0 (ps ++ [p]))) w w')).
  - fold (succeeded p). wp_step.
    + wp_step. eapply wp_get_health; [rewrite (proj1 H1); done|]. wp_step.
      eapply wp_conseq; [apply wp_set_health|]. intros ? w2 H2. cbn in H2.
      wp_step. eapply wp_conseq; [apply wp_set_health_status; rewrite (proj1 H2); done|]. intros ? w3 H3. wp_step.
      split; [done|]. unfold spec_status. rewrite spec_streak_success, some_success_snoc, H, orb_true_r by done.
      pose proof retries_pos. destruct (Z.leb_spec (probe_retries config) 0); [lia|].
      eapply only_health_trans, H3. by eapply only_health_trans.
    + eapply wp_conseq; [eapply wp_unhealthy; [done..| |]; by rewrite (proj1 H1)|].
      intros ret w2 [-> H2]. split; [done|]. by eapply only_health_trans.
  - intros ret w2 [-> H2]. change (negb (0 =? 0)) with false. cbn [negb]. wp_step.
    eapply wp_get_health_status; [rewrite (proj1 H2); done|done|apply spec_status_nonempty|]. wp_step.
    split; [done|]. split; [done|]. destruct H2 as [H2 H3]. unfold recorded. rewrite H2, H3. eauto.
Qed.

Lemma recorded_steps ps done w :
  Forall (probe_ok started) ps -> ordered (done ++ ps) -> Z.of_nat (length (done ++ ps)) < 2 ^ 31 ->
  recorded started log0 done w ->
  wp (record_probes config ps) (fun _ w' => recorded started log0 (done ++ ps) w') w.
Proof.
  revert done w. induction ps as [|p ps IH]; intros dn w Hok Ho Hn Hw; cbn [record_probes].
  { wp_step. by rewrite app_nil_r. }
  apply Forall_cons in Hok as [Hp Hok]. rewrite cons_middle, app_assoc in *. wp_step.
  eapply wp_conseq; [apply recorded_step; [done| | |done]|].
  - unfold ordered in *. rewrite fmap_app in Ho. by eapply StronglySorted_app_1_l.
  - rewrite !length_app in Hn. cbn in Hn. lia.
  - intros r w' (_ & _ & Hw'). by apply IH.
Qed.
End history.

(** C12: health after any sequence of probes.  A container that has just been initialised
    (status starting, no failures, at most five old entries in its log) and then receives
    the results of the probes [ps], whose start times do not decrease, has
    in its log the last five results, in order; as its streak the number of failures since the
    last success or, before the first success, the number of failures after the start
    period; and the status unhealthy when the streak has reached the number of retries,
    otherwise healthy when a probe has succeeded, otherwise starting.  No step is undefined. *)
Theorem health_follows_probes config first started log0 ps w :
  recorded config first started log0 [] w ->
  (length log0 <= MAX_LOG_ENTRIES)%nat ->
  Forall (probe_ok first started) ps -> ordered ps -> Z.of_nat (length ps) < 2 ^ 31 ->
  wp (record_probes config ps) (fun _ w' =>
    health (hw_state w') = Some (Health (Some (spec_status config first ps)) (spec_streak config first ps)
                                   (spec_log log0 ps))) w.
Proof.
  intros Hw Hl Hok Ho Hn. eapply wp_conseq; [by apply (recorded_steps config first started log0 Hl ps [])|].
  intros ? w' (_ & _ & Hh). done.
Qed.

(** ** The output of a probe *)

Lemma rev_buf_size : (4 < REV_BUF_SIZE)%nat.
Proof. by apply (bool_decide_unpack _). Qed.
Local Opaque REV_BUF_SIZE.

Lemma cut_nul_length s : (length (cut_nul s) <= length s)%nat.
Proof. induction s as [|c s IH]; cbn; [done|]. destruct (Ascii.eqb c zero); cbn; lia. Qed.
Lemma cut_nul_free s : zero ∉ s -> cut_nul s = s.
Proof.
  induction s as [|c s IH]; cbn; [done|]. intros [Hc Hs]%not_elem_of_cons.
  destruct (Ascii.eqb_spec c zero); [congruence|]. by rewrite IH.
Qed.
Lemma cut_nul_app_zero s t : zero ∉ s -> cut_nul (s ++ zero :: t) = s.
Proof.
  induction s as [|c s IH]; cbn; [done|]. intros [Hc Hs]%not_elem_of_cons.
  destruct (Ascii.eqb_spec c zero); [congruence|]. by rewrite IH.
Qed.
Lemma cut_nul_short s t : (length (cut_nul (s ++ zero :: t)) <= length s)%nat.
Proof. induction s as [|c s IH]; cbn; [lia|]. destruct (Ascii.eqb c zero); cbn; lia. Qed.

Lemma strncpy_shape dst src n : (n <= length dst)%nat ->
  exists p, length p = n /\ strncpy dst src n = p ++ drop n dst.
Proof.
  intros Hn. unfold strncpy. pose proof (cut_nul_length (take n src)). rewrite length_take in H.
  exists (cut_nul (take n src) ++ replicate (n - length (cut_nul (take n src))) zero).
  rewrite length_app, length_replicate, <-app_assoc. split; [lia|done].
Qed.

(** The buffer keeps its size and its last NUL. *)
Definition terminated (buf : list ascii) : Prop := exists p, buf = p ++ [zero] /\ S (length p) = REV_BUF_SIZE.

Lemma write_terminated dst data : terminated dst -> terminated (write_to_string dst data).
Proof.
  pose proof rev_buf_size. intros (p & -> & Hp). unfold write_to_string.
  destruct (Nat.eqb_spec (length data) 0); [by exists p|]. destruct (Nat.leb_spec REV_BUF_SIZE (length data)).
  - destruct (strncpy_shape (p ++ [zero]) data (REV_BUF_SIZE - 4)) as (q & Hq & ->).
    { rewrite length_app. cbn. lia. }
    exists (q ++ bs "..."). rewrite <-Hq, take_app_length, <-app_assoc. split; [done|].
    rewrite length_app, Hq. cbn. lia.
  - destruct (strncpy_shape (p ++ [zero]) data (length data)) as (q & Hq & ->).
    { rewrite length_app. cbn. lia. }
    exists (q ++ drop (length data) p). rewrite drop_app_le, app_assoc by lia. split; [done|].
    rewrite length_app, length_drop. lia.
Qed.

Lemma buffer_terminated writes : terminated (foldl write_to_string (replicate REV_BUF_SIZE zero) writes).
Proof.
  assert (forall buf, terminated buf -> terminated (foldl write_to_string buf writes)) as H.
  { induction writes as [|d l IH]; intros buf Hb; [done|]. cbn. by apply IH, write_terminated. }
  apply H. exists (replicate (REV_BUF_SIZE - 1) zero). rewrite length_replicate. pose proof rev_buf_size.
  split; [|lia]. replace REV_BUF_SIZE with (REV_BUF_SIZE - 1 + 1)%nat at 1 by lia. by rewrite replicate_add.
Qed.

Lemma drop_zeros n k : (n < k)%nat -> exists t, drop n (replicate k zero) = zero :: t.
Proof. intros. rewrite drop_replicate. destruct (k - n)%nat eqn:E; [lia|]. eauto. Qed.

(** C39: the output of a probe.  Whatever a probe writes and in whatever pieces, the buffer of
    4096 bytes keeps its size and ends in NUL, so the recorded output is a string of less
    than 4096 characters; a single piece of text is recorded exactly when it fits, and
    otherwise its first 4092 characters followed by three dots. *)
Theorem probe_output_bounded writes :
  terminated (foldl write_to_string (replicate REV_BUF_SIZE zero) writes) /\
  (length (probe_output writes) < REV_BUF_SIZE)%nat /\
  (forall d, writes = [d] -> zero ∉ d ->
    probe_output writes =
    if (length d <? REV_BUF_SIZE)%nat then d else take (REV_BUF_SIZE - 4) d ++ bs "...").
Proof.
  pose proof rev_buf_size as Hsz. split; [apply buffer_terminated|]. split.
  { destruct (buffer_terminated writes) as (p & Hb & Hp). unfold probe_output. rewrite Hb.
    pose proof (cut_nul_short p []). lia. }
  intros d -> Hd. unfold probe_output. cbn [foldl]. unfold write_to_string.
  destruct (Nat.eqb_spec (length d) 0) as [->%nil_length_inv|].
  { destruct (drop_zeros 0 REV_BUF_SIZE ltac:(lia)) as [t Ht]. rewrite drop_0 in Ht. rewrite Ht.
    by destruct (Nat.ltb_spec (length (@nil ascii)) REV_BUF_SIZE); cbn in *; [|lia]. }
  destruct (Nat.ltb_spec (length d) REV_BUF_SIZE); destruct (Nat.leb_spec REV_BUF_SIZE (length d)); try lia.
  - unfold strncpy. rewrite (take_ge d), (cut_nul_free d), Nat.sub_diag by (done || lia).
    destruct (drop_zeros (length d) REV_BUF_SIZE ltac:(lia)) as [t ->]. cbn. by apply cut_nul_app_zero.
  - assert (zero ∉ take (REV_BUF_SIZE - 4) d) as Ht by (intros (k & Hk & _)%elem_of_take; by apply Hd, (list_elem_of_lookup_2 _ k)).
    unfold strncpy. rewrite (cut_nul_free (take _ d)) by done.
    rewrite take_app_le, take_take by (rewrite length_take; lia). rewrite Nat.min_id.
    rewrite app_assoc. apply cut_nul_app_zero. rewrite not_elem_of_app. split; [done|]. set_solver.
Qed.

(** A second piece overwrites the beginning of the first. *)
Lemma later_output_overwrites :
  String.string_of_list_ascii (probe_output [bs "connection refused"; bs "retry"]) = "retryction refused"%string.
Proof. vm_compute. reflexivity. Qed.

(** ** Demonstration *)

Definition demo_config : health_config := HealthConfig ["CMD-SHELL"; "curl localhost"] 0 0 (10 * Time_Second) 2 false.
Definition demo_env : health_env :=
  HealthEnv true (fun _ => true) true true true true true (Some (1625097600, 5)) (Some (1625097601, 7))
    (fixed_zone 0) uchar_value (fun _ _ => ExecOutcome 0 None 0 [bs "ok"]).
Definition demo_probe (start : string) (t : Z) (code : Z) : probe :=
  Probe demo_env (HealthLog (Some start) (Some start) code (Some ""%string)) t.
(** A failure within the start period, a success, and two failures. *)
Definition demo_probes : list probe := [
  demo_probe "2021-07-01T00:00:05.000000000Z" (1625097605 * Time_Second) 1;
  demo_probe "2021-07-01T00:00:20.000000000Z" (1625097620 * Time_Second) 0;
  demo_probe "2021-07-01T00:00:35.000000000Z" (1625097635 * Time_Second) 1;
  demo_probe "2021-07-01T00:00:50.000000000Z" (1625097650 * Time_Second) 7].
Definition demo_started : option string := Some "2021-07-01T00:00:00.000000000Z"%string.
Definition demo_first : Z := 1625097600 * Time_Second.
Definition demo_hworld : hworld :=
  HWorld (put_health (Some (Health (Some HEALTH_STARTING) 0 [])) (put_started_at demo_started zero_state))
    (Some (Manager MONITOR_IDLE true)) None 0.

Lemma health_follows_probes_witness :
  recorded demo_config demo_first demo_started [] [] demo_hworld /\
  Forall (probe_ok demo_first demo_started) demo_probes /\ ordered demo_probes /\
  spec_status demo_config demo_first demo_probes = UNHEALTHY /\ spec_streak demo_config demo_first demo_probes = 2 /\
  wp (record_probes demo_config demo_probes) (fun _ w' =>
    health (hw_state w') = Some (Health (Some (spec_status demo_config demo_first demo_probes))
      (spec_streak demo_config demo_first demo_probes) (spec_log [] demo_probes))) demo_hworld.
Proof.
  assert (Hr : recorded demo_config demo_first demo_started [] [] demo_hworld).
  { split; [reflexivity|]. split; [by eexists|]. vm_compute. reflexivity. }
  assert (Hok : Forall (probe_ok demo_first demo_started) demo_probes).
  { repeat (apply Forall_cons; split); [..|apply Forall_nil; done];
      (split; try reflexivity; [vm_compute; reflexivity..|vm_compute; split; congruence]). }
  assert (Ho : ordered demo_probes).
  { unfold ordered, demo_probes. cbn. repeat constructor; vm_compute; congruence. }
  split; [exact Hr|]. split; [exact Hok|]. split; [exact Ho|].
  split; [vm_compute; reflexivity|]. split; [vm_compute; reflexivity|].
  apply (health_follows_probes demo_config demo_first demo_started [] demo_probes demo_hworld Hr);
    [cbn; unfold MAX_LOG_ENTRIES; lia|exact Hok|exact Ho|vm_compute; reflexivity].
Defined.
