(* ===== verification/HealthMonitorProps.v ===== *)
(** The threads of the health check: how many monitors run, and that closing one ends. *)
From Stdlib Require Import Ascii.
From S2P Require Import Prelude KeyOrders StrUtils Path Convert Timestamp ContainerState Effects HealthCheck HealthCheckProps.

Open Scope Z_scope.

(** ** What a computation does to the manager *)

Definition exist_flag (w : hworld) : bool := match hw_manager w with Some m => monitor_exist m | None => false end.
Definition stopping (w : hworld) : Prop := exists m, hw_manager w = Some m /\ monitor_status m = MONITOR_STOP.

(** The flag is not touched, a request to stop is not lost. *)
Definition calm (w w' : hworld) : Prop := exist_flag w' = exist_flag w /\ (stopping w -> stopping w').
#[export] Instance calm_preorder : PreOrder calm.
Proof. split; [by intros w|]. intros w1 w2 w3 [H1 ?] [H2 ?]. split; [congruence|auto]. Qed.

Definition keeps {A} (m : M hworld A) : Prop := forall w a w', m w = Some (a, w') -> calm w w'.

Lemma calm_mret {A} (a : A) : keeps (mret a).
Proof. intros w b w' [= <- <-]. done. Qed.
Lemma calm_bind {A B} (m : M hworld A) (k : A -> M hworld B) : keeps m -> (forall a, keeps (k a)) -> keeps (m ≫= k).
Proof.
  intros Hm Hk w b w'. unfold mbind, M_bind. destruct (m w) as [[a w1]|] eqn:E; [|done]. intros H.
  etrans; [by eapply Hm|by eapply Hk].
Qed.
Lemma calm_gets {A} (f : hworld -> A) : keeps (gets f).
Proof. intros w b w' [= <- <-]. done. Qed.
Lemma calm_lift {A} (r : option A) : keeps (lift r).
Proof. intros w b w'. unfold lift. destruct r; cbn; [|done]. intros [= <- <-]. done. Qed.
Lemma calm_crash {A} : keeps (crash (A := A)).
Proof. intros w b w' H. done. Qed.
Lemma calm_set_health h : keeps (set_health h).
Proof. intros w b w' [= <- <-]. done. Qed.
Lemma calm_to_disk E : keeps (to_disk E).
Proof. intros w b w'. unfold to_disk, when. by destruct (he_save E); intros [= <- <-]. Qed.
Lemma calm_stops : keeps (modify (fun w => HWorld (hw_state w) (hw_manager w) (hw_disk w) (hw_stops w + 1))).
Proof. intros w b w' [= <- <-]. done. Qed.
Lemma calm_transfer st :
  keeps (m ← get_manager; if decide (monitor_status m = MONITOR_STOP) then mret (-1)
         else set_manager (Manager st (monitor_exist m));; mret 0).
Proof.
  intros w b w'. unfold get_manager, gets, lift, set_manager, modify, mbind, M_bind.
  destruct (hw_manager w) as [m|] eqn:Hm; cbn; [|done]. case_decide as Hd; intros [= <- <-]; [done|].
  unfold calm, exist_flag, stopping. cbn. rewrite Hm. split; [done|]. intros (m' & [= <-] & ?). done.
Qed.
Create HintDb calm discriminated.
#[export] Hint Resolve calm_mret calm_gets calm_lift calm_crash calm_set_health calm_to_disk calm_stops calm_transfer : calm.

Ltac calm_step :=
  lazymatch goal with
  | |- keeps (mbind _ _) => apply calm_bind; [|intros ?]
  | |- keeps (match ?x with _ => _ end) => destruct x
  | |- _ => solve [eauto with calm nocore]
  end.
Ltac calm_auto := repeat calm_step.

Lemma calm_get_health : keeps get_health.
Proof. unfold get_health. calm_auto. Qed.
#[export] Hint Resolve calm_get_health : calm.
Lemma calm_get_health_status : keeps get_health_status.
Proof. unfold get_health_status. calm_auto. Qed.
Lemma calm_set_health_status E s : keeps (set_health_status E s).
Proof. unfold set_health_status. calm_auto. Qed.
Lemma calm_monitor_state : keeps get_health_check_monitor_state.
Proof. unfold get_health_check_monitor_state, get_manager. calm_auto. Qed.
#[export] Hint Resolve calm_get_health_status calm_set_health_status calm_monitor_state : calm.
Lemma calm_idle : keeps transfer_monitor_idle_status.
Proof. apply calm_transfer. Qed.
Lemma calm_interval : keeps transfer_monitor_interval_timeout_status.
Proof. apply calm_transfer. Qed.
#[export] Hint Resolve calm_idle calm_interval : calm.
Lemma calm_valid E : keeps (valid_container_status_for_health_check E).
Proof. unfold valid_container_status_for_health_check. calm_auto. Qed.
Lemma calm_handle_probe E config r : keeps (handle_probe_result E config r).
Proof.
  unfold handle_probe_result, append_health_log, handle_unhealthy_case, within_start_period, handle_increment_streak.
  calm_auto.
Qed.
Lemma calm_run_probe E config : keeps (run_probe E config).
Proof. unfold run_probe. calm_auto. Qed.
#[export] Hint Resolve calm_valid calm_handle_probe calm_run_probe : calm.
Lemma calm_interval_done E : keeps (interval_done E).
Proof. unfold interval_done. calm_auto. Qed.
Lemma calm_default E config t : keeps (do_monitor_default E config t).
Proof. unfold do_monitor_default. calm_auto. Qed.
#[export] Hint Resolve calm_interval_done calm_default : calm.

(** ** Steps of a monitor *)

Definition live (pc : monitor_pc) : Prop := pc <> MDone.
Definition working (pc : monitor_pc) : Prop := pc <> MStart /\ pc <> MDone.

(** The steps a monitor makes at most after it was asked to stop. *)
Definition weight (pc : monitor_pc) : nat :=
  match pc with
  | MStart => 6 | MInterval _ => 5 | MResult _ _ => 4 | MDefault _ => 4 | MLoop _ => 3 | MProbed _ => 3
  | MOut => 2 | MExit => 1 | MDone => 0
  end.

Lemma hbind_inv {A B} (m : M hworld A) (k : A -> M hworld B) w b w' :
  (m ≫= k) w = Some (b, w') -> exists a w1, m w = Some (a, w1) /\ k a w1 = Some (b, w').
Proof. unfold mbind, M_bind. destruct (m w) as [[a w1]|]; naive_solver. Qed.
Lemma mret_inv {A} (a b : A) (w w' : hworld) : (mret a : M hworld A) w = Some (b, w') -> b = a /\ w' = w.
Proof. by intros [= -> ->]. Qed.

Lemma exist_flag_set b w w' u : set_monitor_exist_flag b w = Some (u, w') ->
  exist_flag w' = b /\ (stopping w <-> stopping w').
Proof.
  unfold set_monitor_exist_flag, get_manager, gets, lift, set_manager, modify, mbind, M_bind.
  destruct (hw_manager w) as [m|] eqn:Hm; cbn; [|done]. intros [= <- <-].
  unfold exist_flag, stopping. cbn. rewrite Hm. split; [done|]. split; intros (m' & [= <-] & Hs); by eexists.
Qed.

Lemma stopping_state w st w' : get_health_check_monitor_state w = Some (st, w') -> stopping w -> st = MONITOR_STOP.
Proof.
  unfold get_health_check_monitor_state, get_manager, gets, lift, mbind, M_bind, mret, M_ret. intros H (m & Hm & Hs).
  rewrite Hm in H. cbn in H. congruence.
Qed.
Lemma stopping_interval_done E w r w' : interval_done E w = Some (r, w') -> stopping w -> r = None.
Proof.
  unfold interval_done, transfer_monitor_idle_status, get_manager, gets, lift, mbind, M_bind, mret, M_ret.
  intros H ([st ex] & Hm & Hs). rewrite Hm in H. cbn in Hs. subst st. cbn in H. destruct (decide _); [|done]. cbn in H. congruence.
Qed.

Definition monitor_effect (pc pc' : monitor_pc) (w w' : hworld) : Prop :=
  match pc with
  | MStart => exist_flag w' = true /\ working pc' /\ (stopping w -> stopping w')
  | MExit => exist_flag w' = false /\ pc' = MDone /\ (stopping w -> stopping w')
  | MDone => False
  | _ => calm w w' /\ working pc' /\ (stopping w -> (weight pc' < weight pc)%nat)
  end.

Lemma monitor_step E config pc w pc' w' :
  health_check_monitor E config pc w = Some (pc', w') -> monitor_effect pc pc' w w'.
Proof.
  unfold monitor_effect, working. destruct pc as [|t|t|t r|t|t| | |]; cbn [health_check_monitor weight]; [..|done].
  - destruct (negb _); [done|]. intros (u & w1 & [? Hs]%exist_flag_set & [-> ->]%mret_inv)%hbind_inv.
    split; [done|]. split; [by destruct (util_get_now_time_stamp _)|tauto].
  - intros (st & w1 & H & [-> ->]%mret_inv)%hbind_inv. split; [by eapply calm_monitor_state|].
    split; [by destruct st|]. intros Hs. rewrite (stopping_state _ _ _ H Hs). cbn. lia.
  - intros H. split; [revert H; eapply (_ : keeps _)|].
    apply hbind_inv in H as (b & w1 & _ & H). destruct (negb b).
    + apply mret_inv in H as [-> _]. cbn. split; [done|lia].
    + apply hbind_inv in H as (r & w2 & _ & [-> _]%mret_inv). split; [by destruct r|]. destruct r; cbn; lia.
  - intros (st & w1 & H & [-> ->]%mret_inv)%hbind_inv. split; [by eapply calm_handle_probe|]. split; [done|cbn; lia].
  - intros (st & w1 & H & [-> ->]%mret_inv)%hbind_inv. split; [by eapply calm_interval_done|].
    split; [by destruct st|]. intros Hs. rewrite (stopping_interval_done _ _ _ _ H Hs). cbn. lia.
  - intros (st & w1 & H & [-> ->]%mret_inv)%hbind_inv. split; [by eapply calm_default|].
    destruct (negb _); cbn; (split; [done|lia]).
  - intros (st & w1 & H & [-> ->]%mret_inv)%hbind_inv. split; [by eapply calm_set_health_status|]. split; [done|cbn; lia].
  - intros (u & w1 & [? Hs]%exist_flag_set & [-> ->]%mret_inv)%hbind_inv. split; [done|]. split; [done|tauto].
  Unshelve. all: calm_auto.
Qed.

(** ** Steps of a caller *)

Definition begun (w w' : hworld) (c : caller_pc) : Prop :=
  exist_flag w' = exist_flag w /\
  match c with
  | CDone => True
  | CWait _ => stopping w'
  | CClosed _ => exist_flag w' = false
  | CCreate => False
  end.

Lemma close_begun want w c w' : close_health_check_monitor want w = Some (c, w') -> begun w w' c.
Proof.
  unfold close_health_check_monitor, set_monitor_stop_status, get_manager, set_manager, gets, lift, modify, mbind,
    M_bind, mret, M_ret. destruct (hw_manager w) as [m|] eqn:Hm; cbn.
  - rewrite Hm. intros [= <- <-]. unfold begun, exist_flag, stopping. cbn. rewrite Hm. split; [done|]. by eexists.
  - intros [= <- <-]. unfold begun, exist_flag. by rewrite Hm.
Qed.

Lemma begun_CDone w : begun w w CDone.
Proof. done. Qed.

Lemma stop_begun E w c w' : container_stop_health_checks E w = Some (c, w') -> begun w w' c.
Proof.
  unfold container_stop_health_checks. destruct (negb _); [by intros [-> ->]%mret_inv|].
  intros (s & w1 & [= <- <-] & H)%hbind_inv. destruct (health _); [by eapply close_begun|].
  by apply mret_inv in H as [-> ->].
Qed.
Lemma update_begun E config w c w' : container_update_health_monitor E config w = Some (c, w') -> begun w w' c.
Proof.
  unfold container_update_health_monitor. destruct (negb (he_found E)); [by intros [-> ->]%mret_inv|].
  intros (s & w1 & [= <- <-] & H)%hbind_inv. destruct (health _); [by eapply close_begun|].
  by apply mret_inv in H as [-> ->].
Qed.

Lemma begun_after w w1 w' c : exist_flag w1 = exist_flag w -> begun w1 w' c -> begun w w' c.
Proof. intros H [H1 H2]. split; [congruence|done]. Qed.

Lemma init_begun E config w c w' : container_init_health_monitor E config w = Some (c, w') -> begun w w' c.
Proof.
  unfold container_init_health_monitor. destruct (negb (he_found E)); [by intros [-> ->]%mret_inv|].
  destruct (bool_decide _); [by intros [-> ->]%mret_inv|].
  intros (m & w1 & [= <- <-] & (ok & w2 & Hnew & H)%hbind_inv)%hbind_inv.
  assert (exist_flag w2 = exist_flag w) as H2.
  { destruct (hw_manager w) eqn:Hm; [by apply mret_inv in Hnew as [-> ->]|].
    unfold health_check_manager_new in Hnew. destruct (he_calloc E), (he_mutex E); cbn in Hnew;
      [|by apply mret_inv in Hnew as [-> ->]..].
    apply hbind_inv in Hnew as (u & w3 & [= <- <-] & [-> ->]%mret_inv). unfold exist_flag. cbn. by rewrite Hm. }
  apply (begun_after _ _ _ _ H2). clear Hnew H2. destruct (negb ok); [by apply mret_inv in H as [-> ->]|].
  assert (forall n, (s ← gets hw_state;
    match health s with
    | Some _ => set_health_status E HEALTH_STARTING;; (h ← get_health; set_health (Health (h_status h) 0 (h_log h));;
                container_update_health_monitor E config)
    | None => if negb (he_calloc E) then mret CDone
              else set_health n;; set_health_status E HEALTH_STARTING;; container_update_health_monitor E config
    end) w2 = Some (c, w') -> begun w2 w' c) as Hrest.
  { intros n (s & w3 & [= <- <-] & Hs)%hbind_inv. destruct (health (hw_state w2)).
    - apply hbind_inv in Hs as (? & w3 & Hs1%calm_set_health_status & (h & w4 & Hs2%calm_get_health &
        (? & w5 & Hs3%calm_set_health & Hu%update_begun)%hbind_inv)%hbind_inv).
      eapply begun_after, Hu. rewrite (proj1 Hs3), (proj1 Hs2). apply Hs1.
    - destruct (negb _); [by apply mret_inv in Hs as [-> ->]|].
      apply hbind_inv in Hs as (? & w3 & Hs1%calm_set_health & (? & w4 & Hs2%calm_set_health_status & Hu%update_begun)%hbind_inv).
      eapply begun_after, Hu. rewrite (proj1 Hs2). apply Hs1. }
  destruct (get_probe config); [by eapply Hrest..|by apply mret_inv in H as [-> ->]|by eapply Hrest].
Qed.

Lemma request_begun config r E w c w' : hrequest_begin config r E w = Some (c, w') -> begun w w' c.
Proof. destruct r; [apply init_begun|apply update_begun|apply stop_begun]. Qed.

Definition caller_effect (c c' : caller_pc) (created : bool) (w w' : hworld) : Prop :=
  exist_flag w' = exist_flag w /\
  match c with
  | CWait want => w' = w /\ created = false /\ c' = if exist_flag w then CWait want else CClosed want
  | CClosed want => created = false /\ c' = if want then CCreate else CDone
  | CCreate => c' = CDone
  | CDone => False
  end.
Lemma caller_step_effect E c c' b w w' : caller_step E c w = Some ((c', b), w') -> caller_effect c c' b w w'.
Proof.
  unfold caller_effect. destruct c as [|want|[]|]; cbn [caller_step]; [done|..].
  - unfold get_monitor_exist_flag, get_manager, gets, lift, mbind, M_bind, mret, M_ret, exist_flag.
    destruct (hw_manager w) as [m|] eqn:Hm; cbn; [|done]. intros [= <- <- <-]. by rewrite Hm.
  - unfold init_monitor_idle_status, get_manager, set_manager, modify, gets, lift, mbind, M_bind, mret, M_ret, exist_flag.
    destruct (hw_manager w) as [m|] eqn:Hm; cbn; [|done]. by intros [= <- <- <-].
  - by intros [[= -> ->] ->]%mret_inv.
  - by intros [[= -> ->] ->]%mret_inv.
Qed.

(** ** The invariant *)

(** Calls that begin only when every monitor created so far has started. *)
Definition polite (a : haction) (y : hsystem) : Prop :=
  match a with HBegin _ _ => MStart ∉ hs_monitors y | _ => True end.
Inductive polite_run (config : health_config) : list haction -> hsystem -> hsystem -> Prop :=
  | polite_nil y : polite_run config [] y y
  | polite_snoc l a y y1 y2 :
      polite_run config l y y1 -> polite a y1 -> hstep config a y1 = Some y2 -> polite_run config (l ++ [a]) y y2.

(** Between calls, without a monitor. *)
Definition quiet (y : hsystem) : Prop :=
  hs_monitors y = [] /\ hs_caller y = CDone /\ exist_flag (hs_world y) = false.

Record single (y : hsystem) : Prop := Single {
  sg_one : forall i j pi pj, hs_monitors y !! i = Some pi -> hs_monitors y !! j = Some pj -> live pi -> live pj -> i = j;
  sg_flag : forall i p, hs_monitors y !! i = Some p -> working p -> exist_flag (hs_world y) = true;
  sg_work : exist_flag (hs_world y) = true -> exists i p, hs_monitors y !! i = Some p /\ working p;
  sg_caller : match hs_caller y with
              | CDone => True
              | CWait _ => MStart ∉ hs_monitors y /\ stopping (hs_world y)
              | CClosed _ | CCreate => forall i p, hs_monitors y !! i = Some p -> ~ live p
              end
}.

Lemma live_cases p : live p -> p = MStart \/ working p.
Proof. unfold live, working. destruct p; auto. Qed.

Lemma none_live y : single y -> MStart ∉ hs_monitors y -> exist_flag (hs_world y) = false ->
  forall i p, hs_monitors y !! i = Some p -> ~ live p.
Proof.
  intros [_ Hf _ _] Hs He i p Hi [-> | Hw]%live_cases; [by apply Hs, (list_elem_of_lookup_2 _ i)|].
  rewrite (Hf _ _ Hi Hw) in He. done.
Qed.

Lemma single_begin config r E y y' : single y -> polite (HBegin r E) y -> hstep config (HBegin r E) y = Some y' -> single y'.
Proof.
  intros HI Hp. cbn [hstep polite] in *. destruct (hs_caller y); try done.
  destruct (hrequest_begin config r E (hs_world y)) as [[c w]|] eqn:Hb; cbn; [|done]. intros [= <-].
  apply request_begun in Hb as [He Hc]. destruct HI as [H1 H2 H3 H4]. split; cbn; rewrite ?He; [done..|].
  destruct c; try done. rewrite He in Hc. by eapply (none_live y).
Qed.

Lemma single_caller config E y y' : single y -> hstep config (HCaller E) y = Some y' -> single y'.
Proof.
  intros HI. cbn [hstep]. destruct (caller_step E (hs_caller y) (hs_world y)) as [[[c b] w]|] eqn:Hc; cbn; [|done].
  intros [= <-]. apply caller_step_effect in Hc as [He Hc]. pose proof HI as [H1 H2 H3 H4].
  destruct (hs_caller y) as [|want|want|] eqn:Hcy; [done|..].
  - destruct Hc as (-> & -> & ->). split; cbn; rewrite app_nil_r; [done..|].
    destruct (exist_flag (hs_world y)) eqn:Hf; [done|]. apply (none_live y HI); [apply H4|done].
  - destruct Hc as (-> & ->). destruct want; split; cbn; rewrite ?app_nil_r, ?He; done.
  - subst c. destruct b; [|split; cbn; rewrite ?app_nil_r, ?He; done].
    assert (forall i p, (hs_monitors y ++ [MStart]) !! i = Some p -> live p -> i = length (hs_monitors y) /\ p = MStart) as Hnew.
    { intros i p [Hi | [Hl Hi]]%lookup_app_Some Hp; [by destruct (H4 _ _ Hi)|].
      apply list_lookup_singleton_Some in Hi as [? <-]. split; [lia|done]. }
    split; cbn; rewrite ?He.
    + intros i j pi pj Hi Hj Hli Hlj. apply Hnew in Hi as [-> _], Hj as [-> _]; done.
    + intros i p Hi Hw. destruct (Hnew _ _ Hi) as [_ ->]; [apply Hw|]. by destruct Hw.
    + intros (i & p & Hi & Hw)%H3. destruct (H4 _ _ Hi). apply Hw.
    + done.
Qed.

Lemma single_monitor config i E y y' : single y -> hstep config (HMonitor i E) y = Some y' -> single y'.
Proof.
  intros HI. cbn [hstep]. destruct (hs_monitors y !! i) as [pc|] eqn:Hi; cbn; [|done].
  destruct (health_check_monitor E config pc (hs_world y)) as [[pc' w]|] eqn:Hm; cbn; [|done]. intros [= <-].
  apply monitor_step in Hm. pose proof HI as [H1 H2 H3 H4].
  assert (live pc) as Hl by (by intros ->).
  assert (forall j p, <[i := pc']> (hs_monitors y) !! j = Some p ->
    j = i /\ p = pc' \/ j <> i /\ hs_monitors y !! j = Some p) as Hins.
  { intros j p [(-> & -> & _)|[? ?]]%list_lookup_insert_Some; [by left|by right]. }
  assert (forall j p, j <> i -> hs_monitors y !! j = Some p -> ~ live p) as Hother.
  { intros j p Hj Hp Hlp. by apply Hj, (H1 _ _ _ _ Hp Hi). }
  assert (forall j p, <[i := pc']> (hs_monitors y) !! j = Some p -> live p -> j = i /\ p = pc') as Hlive.
  { intros j p [?|[Hj Hp]]%Hins Hlp; [done|]. by destruct (Hother _ _ Hj Hp). }
  assert (exist_flag w = true /\ working pc' \/ exist_flag w = false /\ pc' = MDone) as Hfl.
  { destruct pc; cbn in Hm; try (destruct Hm as ([-> _] & Hw & _); left; split; [eapply H2; [done|]|]; done).
    - left. tauto.
    - right. tauto.
    - done. }
  split; cbn.
  - intros j k pj pk Hj Hk Hlj Hlk. destruct (Hlive _ _ Hj Hlj) as [-> _]. by destruct (Hlive _ _ Hk Hlk) as [-> _].
  - intros j p Hj Hw. destruct (Hlive _ _ Hj (proj2 Hw)) as [-> ->]. destruct Hfl as [[? _]|[_ ->]]; [done|].
    by destruct Hw.
  - intros Hw. destruct Hfl as [[_ ?]|[? _]]; [|congruence]. exists i, pc'. split; [|done].
    apply list_lookup_insert_eq. by eapply lookup_lt_Some.
  - destruct (hs_caller y); [done|..].
    + destruct H4 as [H4 Hs]. split.
      * intros (j & [[_ <-]|[_ Hp]]%Hins)%list_elem_of_lookup_1; [|by apply H4, (list_elem_of_lookup_2 _ j)].
        destruct Hfl as [[_ [Hw _]]|[_ ?]]; done.
      * destruct pc; cbn in Hm; try (apply Hm; done). done.
    + by destruct (H4 _ _ Hi).
    + by destruct (H4 _ _ Hi).
Qed.

Lemma single_step config a y y' : single y -> polite a y -> hstep config a y = Some y' -> single y'.
Proof.
  destruct a; [apply single_begin|intros ? _; by apply single_caller|intros ? _; by apply single_monitor|].
  intros [H1 H2 H3 H4] _ [= <-]. by split.
Qed.
Lemma quiet_single y : quiet y -> single y.
Proof. intros (Hm & Hc & He). split; rewrite ?Hm, ?Hc, ?He; done. Qed.
Lemma polite_single config l y y' : quiet y -> polite_run config l y y' -> single y'.
Proof. intros Hq. induction 1; [by apply quiet_single|]. by eapply single_step; [apply IHpolite_run| |]. Qed.

(** C11: there is never more than one monitor.  From a quiet container, however the calls of
    container_init_health_monitor, container_update_health_monitor and
    container_stop_health_checks, the monitor threads and the rest of the daemon interleave,
    at most one monitor is alive, and none is when close_health_check_monitor has returned
    and until the new one is created - provided that there is one call at a time, as among
    callers that hold the lock of the container, and that a call begins only after the
    monitor created by the previous one has started. *)
Theorem one_monitor config l y y' :
  quiet y -> polite_run config l y y' ->
  (forall i j pi pj, hs_monitors y' !! i = Some pi -> hs_monitors y' !! j = Some pj -> live pi -> live pj -> i = j) /\
  (forall i p, hs_monitors y' !! i = Some p -> live p ->
     match hs_caller y' with CClosed _ | CCreate => False | _ => True end).
Proof.
  intros Hq Hr. destruct (polite_single _ _ _ _ Hq Hr) as [H1 _ _ H4]. split; [done|].
  intros i p Hi Hl. destruct (hs_caller y'); try done; by destruct (H4 i p Hi).
Qed.

(** ** Closing a monitor ends *)

Definition is_begin (a : haction) : bool := match a with HBegin _ _ => true | _ => false end.
Definition is_monitor (a : haction) : nat := match a with HMonitor _ _ => 1 | _ => 0 end.
Definition monitor_steps (l : list haction) : nat := sum_list_with is_monitor l.
Definition waiting (c : caller_pc) : bool := match c with CWait _ => true | _ => false end.

Lemma sum_insert {A} (f : A -> nat) l i x y : l !! i = Some x ->
  (sum_list_with f (<[i := y]> l) + f x = sum_list_with f l + f y)%nat.
Proof.
  revert i. induction l as [|z l IH]; intros [|i] Hi; [done|done|..].
  { injection Hi as ->. cbn. lia. }
  specialize (IH i Hi). change (<[S i := y]> (z :: l)) with (z :: <[i := y]> l). cbn [sum_list_with]. lia.
Qed.
Lemma sum_dead l : (forall i p, l !! i = Some p -> ~ live p) -> sum_list_with weight l = 0%nat.
Proof.
  induction l as [|p l IH]; intros H; cbn; [done|]. rewrite IH by (intros i; apply (H (S i))).
  destruct p; try done; by destruct (H 0%nat _ eq_refl).
Qed.
Lemma sum_single l : (forall i j pi pj, l !! i = Some pi -> l !! j = Some pj -> live pi -> live pj -> i = j) ->
  MStart ∉ l -> (sum_list_with weight l <= 5)%nat.
Proof.
  induction l as [|p l IH]; intros H1 Hs; cbn; [lia|]. apply not_elem_of_cons in Hs as [Hp Hs].
  assert (forall i j pi pj, l !! i = Some pi -> l !! j = Some pj -> live pi -> live pj -> i = j) as Hl.
  { intros i j pi pj Hi Hj Hli Hlj. by injection (H1 (S i) (S j) _ _ Hi Hj Hli Hlj). }
  destruct (decide (weight p = 0%nat)) as [-> |Hz]; [by apply IH|].
  rewrite sum_dead; [destruct p; cbn; congruence || lia|].
  intros i q Hq Hlq. by discriminate (H1 0%nat (S i) p q eq_refl Hq ltac:(by intros ->) Hlq).
Qed.

Lemma not_waiting_stays config a y y' : hstep config a y = Some y' -> is_begin a = false ->
  waiting (hs_caller y) = false -> waiting (hs_caller y') = false.
Proof.
  destruct a; cbn [hstep is_begin]; [done|..]; intros H _ Hw.
  - destruct (caller_step _ _ _) as [[[c b] w]|] eqn:Hc; [|done]. injection H as <-.
    apply caller_step_effect in Hc as [_ Hc]. cbn. destruct (hs_caller y) as [| |[]|]; naive_solver.
  - destruct (hs_monitors y !! i) as [pc|]; [|done]. cbn in H.
    destruct (health_check_monitor _ _ _ _) as [[]|]; [|done]. by injection H as <-.
  - by injection H as <-.
Qed.
Lemma waiting_before config l y y' : hrun config l y = Some y' -> Forall (fun a => is_begin a = false) l ->
  waiting (hs_caller y') = true -> waiting (hs_caller y) = true.
Proof.
  revert y. induction l as [|a l IH]; cbn [hrun]; intros y Hr Hb Hw; [by injection Hr as <-|].
  apply Forall_cons in Hb as [Ha Hb]. apply bind_Some_inv in Hr as (y1 & Hs & Hr).
  destruct (waiting (hs_caller y)) eqn:E; [done|].
  by rewrite <-(not_waiting_stays _ _ _ _ Hs Ha E), (IH _ Hr Hb Hw).
Qed.

Lemma waiting_step config a y y' : single y -> waiting (hs_caller y) = true -> is_begin a = false ->
  hstep config a y = Some y' ->
  (sum_list_with weight (hs_monitors y') + is_monitor a <= sum_list_with weight (hs_monitors y))%nat.
Proof.
  intros [_ _ _ H4] Hw Ha Hs. destruct (hs_caller y) as [|want| |] eqn:Hc; try done. destruct H4 as [H4 Hst].
  destruct a; cbn [hstep is_begin is_monitor] in *; [done|..].
  - rewrite Hc in Hs. destruct (caller_step _ _ _) as [[[c b] w]|] eqn:Hcs; [|done]. injection Hs as <-.
    apply caller_step_effect in Hcs as (_ & _ & -> & _). cbn. rewrite app_nil_r. lia.
  - destruct (hs_monitors y !! i) as [pc|] eqn:Hi; [|done]. cbn in Hs.
    destruct (health_check_monitor _ _ _ _) as [[pc' w]|] eqn:Hm; [|done]. injection Hs as <-. cbn.
    apply monitor_step in Hm. pose proof (sum_insert weight _ _ _ pc' Hi).
    assert (pc <> MStart) by (intros ->; by apply H4, (list_elem_of_lookup_2 _ i)).
    assert (weight pc' < weight pc)%nat; [|lia].
    destruct pc; cbn in Hm; try done; try (by apply Hm). destruct Hm as (_ & -> & _). cbn. lia.
  - injection Hs as <-. cbn. lia.
Qed.

Lemma waiting_run config l y y' : single y -> hrun config l y = Some y' -> Forall (fun a => is_begin a = false) l ->
  waiting (hs_caller y') = true ->
  single y' /\ (sum_list_with weight (hs_monitors y') + monitor_steps l <= sum_list_with weight (hs_monitors y))%nat.
Proof.
  revert y. induction l as [|a l IH]; cbn [hrun]; intros y HI Hr Hb Hw.
  { injection Hr as <-. split; [done|]. cbn. lia. }
  pose proof (waiting_before config (a :: l) y y' Hr Hb Hw) as Hwy.
  apply Forall_cons in Hb as [Ha Hb]. apply bind_Some_inv in Hr as (y1 & Hs & Hr).
  pose proof (waiting_step _ _ _ _ HI Hwy Ha Hs).
  destruct (IH y1) as [HI' Hsum]; [|done..|].
  { eapply single_step; [exact HI| |exact Hs]. by destruct a. }
  split; [done|]. cbn. fold (monitor_steps l). lia.
Qed.

(** C30: close_health_check_monitor returns.  While a caller waits for the monitor to end, the
    monitor makes at most five more steps, whatever it was doing; and the caller still waits
    only if a monitor is at work, so that as soon as the monitor has made these steps the
    caller's next look at the flag ends the wait. *)
Theorem close_returns config l1 l2 y y1 y2 want :
  quiet y -> polite_run config l1 y y1 -> hrun config l2 y1 = Some y2 -> Forall (fun a => is_begin a = false) l2 ->
  hs_caller y2 = CWait want ->
  (monitor_steps l2 <= 5)%nat /\
  ((exists i p, hs_monitors y2 !! i = Some p /\ working p) \/
   forall E, exists y3, hstep config (HCaller E) y2 = Some y3 /\ hs_caller y3 = CClosed want).
Proof.
  intros Hq H1 H2 Hb Hw. pose proof (polite_single _ _ _ _ Hq H1) as HI.
  destruct (waiting_run config l2 y1 y2) as [HI2 Hsum]; [done..|by rewrite Hw|].
  assert (waiting (hs_caller y1) = true) as Hw1 by (eapply waiting_before; [done..|by rewrite Hw]).
  split.
  - destruct HI as [Hone _ _ Hc]. destruct (hs_caller y1); try done.
    pose proof (sum_single _ Hone (proj1 Hc)). lia.
  - destruct (exist_flag (hs_world y2)) eqn:He; [left; by apply HI2|right]. intros E.
    destruct HI2 as [_ _ _ Hc]. rewrite Hw in Hc. destruct Hc as [_ (m & Hm & _)].
    unfold hstep. rewrite Hw. cbn [caller_step].
    unfold get_monitor_exist_flag, get_manager, gets, lift, mbind, M_bind, option_bind. rewrite Hm. cbn.
    unfold exist_flag in He. rewrite Hm in He. rewrite He. by eexists.
Qed.

(** ** Demonstration *)

Definition is_start (p : monitor_pc) : bool := match p with MStart => true | _ => false end.
Definition is_live (p : monitor_pc) : bool := match p with MDone => false | _ => true end.
Definition politely (a : haction) (y : hsystem) : bool := negb (is_begin a && existsb is_start (hs_monitors y)).
Fixpoint polite_exec (config : health_config) (l : list haction) (y : hsystem) : option hsystem :=
  match l with
  | [] => Some y
  | a :: l => if politely a y then hstep config a y ≫= polite_exec config l else None
  end.
Lemma politely_polite a y : politely a y = true -> polite a y.
Proof.
  unfold politely, polite. destruct a; try done. cbn. rewrite negb_true_iff. intros H Hs.
  assert (existsb is_start (hs_monitors y) = true); [|congruence].
  apply existsb_exists. exists MStart. split; [by apply list_elem_of_In|done].
Qed.
Lemma polite_exec_run config l l2 y y1 y2 :
  polite_run config l y y1 -> polite_exec config l2 y1 = Some y2 -> polite_run config (l ++ l2) y y2.
Proof.
  revert l y1. induction l2 as [|a l2 IH]; cbn; intros l y1 Hr He; [simplify_eq; by rewrite app_nil_r|].
  destruct (politely a y1) eqn:Hp; [|done]. apply bind_Some_inv in He as (y1' & Hs & He).
  rewrite cons_middle, app_assoc. eapply IH; [|done]. eapply polite_snoc; [done| |done]. by apply politely_polite.
Qed.

Definition demo_system : hsystem :=
  HSystem (HWorld (put_flags true false false (put_started_at demo_started zero_state)) None None 0) [] CDone.
Definition call (r : hrequest) : list haction :=
  HBegin r demo_env :: replicate 3 (HCaller demo_env).
Definition demo_run : list haction :=
  call ReqInit ++ replicate 3 (HMonitor 0 demo_env) ++ [HBegin ReqUpdate demo_env; HCaller demo_env].

Lemma demo_quiet : quiet demo_system.
Proof. done. Qed.
Lemma demo_reaches : exists y', polite_run demo_config demo_run demo_system y' /\
  hs_caller y' = CWait true /\ existsb is_live (hs_monitors y') = true /\
  exists y2, hrun demo_config (replicate 2 (HMonitor 0 demo_env)) y' = Some y2 /\ hs_caller y2 = CWait true.
Proof.
  destruct (polite_exec demo_config demo_run demo_system) as [y'|] eqn:He; [|vm_compute in He; discriminate].
  exists y'. split; [apply (polite_exec_run _ [] _ _ _ _ (polite_nil _ _) He)|].
  vm_compute in He. injection He as <-. split; [reflexivity|]. split; [reflexivity|]. eexists. split; vm_compute; reflexivity.
Qed.

Lemma one_monitor_witness : exists y', polite_run demo_config demo_run demo_system y' /\
  (forall i j pi pj, hs_monitors y' !! i = Some pi -> hs_monitors y' !! j = Some pj -> live pi -> live pj -> i = j).
Proof.
  destruct demo_reaches as (y' & Hr & _). exists y'. split; [exact Hr|].
  apply (one_monitor demo_config demo_run demo_system y' demo_quiet Hr).
Defined.

Lemma close_returns_witness : exists y1 y2, polite_run demo_config demo_run demo_system y1 /\
  hrun demo_config (replicate 2 (HMonitor 0 demo_env)) y1 = Some y2 /\
  ((exists i p, hs_monitors y2 !! i = Some p /\ working p) \/
   forall E, exists y3, hstep demo_config (HCaller E) y2 = Some y3 /\ hs_caller y3 = CClosed true).
Proof.
  destruct demo_reaches as (y1 & Hr & _ & _ & y2 & H2 & Hw). exists y1, y2. split; [exact Hr|]. split; [exact H2|].
  apply (close_returns demo_config demo_run (replicate 2 (HMonitor 0 demo_env)) demo_system y1 y2 true demo_quiet Hr H2);
    [repeat constructor|exact Hw].
Defined.

(** A second call before the first monitor has started: two monitors. *)
Lemma two_monitors :
  (fun y => (length (List.filter is_live (hs_monitors y)), hs_caller y)) <$>
    hrun demo_config (call ReqInit ++ call ReqUpdate ++ [HMonitor 0 demo_env; HMonitor 1 demo_env]) demo_system
  = Some (2%nat, CDone).
Proof. vm_compute. reflexivity. Qed.

(** A container that exits and is started again before its monitor has ended: the old monitor
    marks it as unhealthy after it was initialised, and before any probe. *)
Lemma restarted_unhealthy :
  (fun y => h_status <$> health (hw_state (hs_world y))) <$>
    hrun demo_config (call ReqInit ++ [HMonitor 0 demo_env; HMonitor 0 demo_env; HFlags false false false;
      HMonitor 0 demo_env; HFlags true false false; HBegin ReqInit demo_env; HMonitor 0 demo_env; HMonitor 0 demo_env] ++
      replicate 3 (HCaller demo_env)) demo_system
  = Some (Some (Some UNHEALTHY)).
Proof. vm_compute. reflexivity. Qed.

(** A container that is deleted before its monitor starts is dereferenced. *)
Lemma monitor_of_deleted E config w : he_found E = false -> health_check_monitor E config MStart w = None.
Proof. cbn. by intros ->. Qed.
