(* ===== verification/LayerStore.v ===== *)
(** The store of layers: src/src/daemon/modules/image/oci/storage/layer_store/layer_store.c
    and layer.c.

    The layers live in a heap with their reference counts; the store keeps a list of them,
    the indices by id and by name over the map interface, and two indices from digests to
    lists of ids ([dindex]).  [ls_dirs] is the directory of the store, [ls_mjson] the files of
    the mount points; [ls_driver] and [ls_mounted] are the layers the graph driver has and
    those it has mounted.  Operations are computations over the store (Effects); [None] is
    undefined behaviour, in particular the use of a layer that has been freed.  What the
    environment answers during a call is [lay_env]. *)
From S2P Require Import Prelude Heap KeyOrders MapIface RestartManager Effects.

Open Scope Z_scope.

(** [storage_layer], less the compressed size and the time of creation, which are only copied. *)
Record storage_layer := SLayer {
  sl_id : cstr;
  sl_parent : option cstr;
  sl_mountlabel : option cstr;
  sl_names : list cstr;
  sl_diff_digest : option cstr;
  sl_compressed_diff_digest : option cstr;
  sl_diff_size : Z;
  sl_incompelte : bool
}.
Definition put_incompelte b s :=
  SLayer (sl_id s) (sl_parent s) (sl_mountlabel s) (sl_names s) (sl_diff_digest s)
    (sl_compressed_diff_digest s) (sl_diff_size s) b.
Definition put_diff_size z s :=
  SLayer (sl_id s) (sl_parent s) (sl_mountlabel s) (sl_names s) (sl_diff_digest s)
    (sl_compressed_diff_digest s) z (sl_incompelte s).
Definition put_lnames l s :=
  SLayer (sl_id s) (sl_parent s) (sl_mountlabel s) l (sl_diff_digest s)
    (sl_compressed_diff_digest s) (sl_diff_size s) (sl_incompelte s).

(** [storage_mount_point] *)
Record mount_point := MountPoint { mp_path : option cstr; mp_count : Z }.

(** [layer_t]; of the paths, whether that of the mount point is set. *)
Record layer_t := Layer {
  l_refcnt : Z;
  hold_refs_num : Z;
  slayer : option storage_layer;
  smount_point : option mount_point;
  has_mount_json : bool
}.

(** [struct layer_opts] *)
Record layer_opts := LayerOpts {
  lo_parent : option cstr;
  lo_names : list cstr;
  lo_writable : bool;
  lo_uncompressed_digest : option cstr;
  lo_compressed_digest : option cstr;
  lo_mount_label : option cstr
}.

(** What a directory of the store holds: layer.json, and whether there is a tar split. *)
Record layer_dir := LayerDir { ld_json : option storage_layer; ld_tar_split : bool }.

(** A digest index: the map from digests to objects [digest_layer_t], and these. *)
Record dindex (MG : Type) := DIndex { di_map : MG; di_objs : gmap N (list cstr) }.
Arguments DIndex {MG}.
Arguments di_map {MG}.
Arguments di_objs {MG}.

(** The outcomes of the environment during a call. *)
Record lay_env := LayEnv {
  le_lock : bool;
  le_node : bool;                              (** a node of a list *)
  le_map : bool;                               (** insertion into a map *)
  le_digest : bool;                            (** a [digest_layer_t] *)
  le_layer : bool;                             (** a [layer_t] and its mutex *)
  le_mkdir : bool;
  le_slayer : bool;                            (** a [storage_layer], its names, the time, the path *)
  le_opts : bool;                              (** the options for the driver *)
  le_create : bool;                            (** [graphdriver_create_rw] and [_ro] *)
  le_rm : bool;                                (** [graphdriver_rm_layer] *)
  le_rmdir : bool;
  le_save : storage_layer -> bool;             (** writing layer.json *)
  le_apply : bool;                             (** [graphdriver_apply_diff] *)
  le_tar_split : bool * Z;                     (** [make_tar_split_file] and the size *)
  le_mpoint : bool;                            (** a [storage_mount_point] *)
  le_metadata : option (option (option cstr)); (** [graphdriver_get_metadata]: NULL, no data, its directory *)
  le_mjson_path : bool;
  le_mopts : bool;
  le_mount : option cstr;                      (** [graphdriver_mount_layer] *)
  le_umount : bool;
  le_save_mount : bool;
  le_rm_files : bool;                          (** [util_path_remove] *)
  le_array : bool;                             (** the array of a list of layers *)
  le_copy : bool;                              (** a [struct layer] *)
  le_check : Z;                                (** [do_integration_check] *)
  le_fresh_layer : gmap N layer_t -> N;
  le_fresh_obj : gmap N (list cstr) -> N
}.

(** ** The digest indices *)
Section digests.
Context {MG : Type} {opsG : MapOps cstr N MG}.
Implicit Types (d : dindex MG).

(** The loop stops at the first item. *)
Fixpoint remove_first (id : cstr) (l : list cstr) : list cstr :=
  match l with [] => [] | i :: l => if decide (i = id) then l else i :: remove_first id l end.

(** Removing a digest from the map frees its object. *)
Definition delete_digest_from_map (d : dindex MG) (digest : option cstr) (id : cstr) : option (dindex MG) :=
  match digest with
  | None => Some d
  | Some dg =>
      match mo_search dg (di_map d) with
      | None => Some d
      | Some q =>
          l ← di_objs d !! q;
          let l := remove_first id l in
          let objs := <[q := l]> (di_objs d) in
          if (length l =? 0)%nat then
            let '(ok, m) := mo_remove dg (di_map d) in
            Some (DIndex m (if ok then delete q objs else objs))
          else Some (DIndex (di_map d) objs)
      end
  end.

Definition insert_new_digest_list (E : lay_env) (d : dindex MG) (dg id : cstr) : Z * dindex MG :=
  if negb (le_digest E) then (-1, d)
  else
    let q := le_fresh_obj E (di_objs d) in
    let '(ok, m) := mo_insert (le_map E) dg q (di_map d) in
    if negb ok then (-1, DIndex m (di_objs d)) else (0, DIndex m (<[q := [id]]> (di_objs d))).

Definition insert_digest_into_map (E : lay_env) (d : dindex MG) (digest : option cstr) (id : cstr)
    : option (Z * dindex MG) :=
  match digest with
  | None => Some (0, d)
  | Some dg =>
      if negb (le_node E) then Some (-1, d)
      else
        match mo_search dg (di_map d) with
        | None => Some (insert_new_digest_list E d dg id)
        | Some q => l ← di_objs d !! q; Some (0, DIndex (di_map d) (<[q := l ++ [id]]> (di_objs d)))
        end
  end.
End digests.

Section layer_store.
Context {MI MG : Type} {opsI : MapOps cstr N MI} {opsG : MapOps cstr N MG}.

(** [layer_store_metadata] and what lies outside of the process. *)
Record layer_store := LStore {
  ls_layers : gmap N layer_t;
  layers_list : list N;
  layers_list_len : Z;
  by_id : MI;
  by_name : MI;
  by_compress_digest : dindex MG;
  by_uncompress_digest : dindex MG;
  ls_dirs : gmap cstr layer_dir;
  ls_mjson : gmap cstr mount_point;
  ls_driver : gset cstr;
  ls_mounted : gset cstr
}.
Definition set_layers x st :=
  LStore x (layers_list st) (layers_list_len st) (by_id st) (by_name st) (by_compress_digest st)
    (by_uncompress_digest st) (ls_dirs st) (ls_mjson st) (ls_driver st) (ls_mounted st).
Definition set_layers_list l n st :=
  LStore (ls_layers st) l n (by_id st) (by_name st) (by_compress_digest st)
    (by_uncompress_digest st) (ls_dirs st) (ls_mjson st) (ls_driver st) (ls_mounted st).
Definition set_by_id m st :=
  LStore (ls_layers st) (layers_list st) (layers_list_len st) m (by_name st) (by_compress_digest st)
    (by_uncompress_digest st) (ls_dirs st) (ls_mjson st) (ls_driver st) (ls_mounted st).
Definition set_by_name m st :=
  LStore (ls_layers st) (layers_list st) (layers_list_len st) (by_id st) m (by_compress_digest st)
    (by_uncompress_digest st) (ls_dirs st) (ls_mjson st) (ls_driver st) (ls_mounted st).
Definition set_compress d st :=
  LStore (ls_layers st) (layers_list st) (layers_list_len st) (by_id st) (by_name st) d
    (by_uncompress_digest st) (ls_dirs st) (ls_mjson st) (ls_driver st) (ls_mounted st).
Definition set_uncompress d st :=
  LStore (ls_layers st) (layers_list st) (layers_list_len st) (by_id st) (by_name st) (by_compress_digest st)
    d (ls_dirs st) (ls_mjson st) (ls_driver st) (ls_mounted st).
Definition set_dirs x st :=
  LStore (ls_layers st) (layers_list st) (layers_list_len st) (by_id st) (by_name st) (by_compress_digest st)
    (by_uncompress_digest st) x (ls_mjson st) (ls_driver st) (ls_mounted st).
Definition set_mjson x st :=
  LStore (ls_layers st) (layers_list st) (layers_list_len st) (by_id st) (by_name st) (by_compress_digest st)
    (by_uncompress_digest st) (ls_dirs st) x (ls_driver st) (ls_mounted st).
Definition set_driver x y st :=
  LStore (ls_layers st) (layers_list st) (layers_list_len st) (by_id st) (by_name st) (by_compress_digest st)
    (by_uncompress_digest st) (ls_dirs st) (ls_mjson st) x y.

Variable E : lay_env.
Abbreviation S A := (M layer_store A) (only parsing).

(** ** Layers (layer.c) *)

Definition get_layer (l : N) : S layer_t := ls ← gets ls_layers; lift (ls !! l).
Definition set_layer (l : N) (x : layer_t) : S unit :=
  ls ← gets ls_layers; _ ← lift (ls !! l); modify (set_layers (<[l := x]> ls)).
(** [l->slayer], which is dereferenced. *)
Definition get_slayer (l : N) : S storage_layer := x ← get_layer l; lift (slayer x).
Definition set_slayer (l : N) (s : storage_layer) : S unit :=
  x ← get_layer l;
  set_layer l (Layer (l_refcnt x) (hold_refs_num x) (Some s) (smount_point x) (has_mount_json x)).
Definition set_mount_point (l : N) (p : mount_point) : S unit :=
  x ← get_layer l;
  set_layer l (Layer (l_refcnt x) (hold_refs_num x) (slayer x) (Some p) (has_mount_json x)).

Definition free_layer_t (l : N) : S unit :=
  if decide (l = NULL) then mret tt
  else ls ← gets ls_layers; _ ← lift (ls !! l); modify (set_layers (delete l ls)).

Definition create_empty_layer : S N :=
  if negb (le_layer E) then mret NULL
  else
    ls ← gets ls_layers;
    let l := le_fresh_layer E ls in
    modify (set_layers (<[l := Layer 1 0 None None false]> ls));;
    mret l.

Definition layer_ref_inc (l : N) : S unit :=
  if decide (l = NULL) then mret tt
  else
    x ← get_layer l;
    set_layer l (Layer (atomic_int_inc (l_refcnt x)) (hold_refs_num x) (slayer x) (smount_point x) (has_mount_json x)).

Definition layer_ref_dec (l : N) : S unit :=
  if decide (l = NULL) then mret tt
  else
    x ← get_layer l;
    let '(c, is_zero) := atomic_int_dec_test (l_refcnt x) in
    set_layer l (Layer c (hold_refs_num x) (slayer x) (smount_point x) (has_mount_json x));;
    if is_zero then free_layer_t l else mret tt.

(** The file is written atomically into the directory of the layer. *)
Definition save_layer (l : N) : S Z :=
  s ← get_slayer l;
  dirs ← gets ls_dirs;
  match dirs !! sl_id s with
  | None => mret (-1)
  | Some d =>
      if le_save E s then modify (set_dirs (<[sl_id s := LayerDir (Some s) (ld_tar_split d)]> dirs));; mret 0
      else mret (-1)
  end.

Definition save_mount_point (l : N) : S Z :=
  x ← get_layer l;
  match smount_point x with
  | None => mret (-1)
  | Some p =>
      if negb (has_mount_json x) then mret (-1)
      else
        s ← lift (slayer x);
        if le_save_mount E then modify (fun st => set_mjson (<[sl_id s := p]> (ls_mjson st)) st);; mret 0
        else mret (-1)
  end.

(** ** The list and the lookup *)

Definition append_layer_into_list (l : N) : S bool :=
  if decide (l = NULL) then mret true
  else if negb (le_node E) then mret false
  else
    modify (fun st => set_layers_list (layers_list st ++ [l]) (wrap_u 64 (layers_list_len st + 1)) st);;
    mret true.

(** [delete_g_layer_list_item] of the item between [before] and [after] *)
Definition delete_g_layer_list_item (before : list N) (l : N) (after : list N) : S unit :=
  modify (fun st => set_layers_list (before ++ after) (layers_list_len st) st);;
  layer_ref_dec l;;
  modify (fun st => set_layers_list (layers_list st) (wrap_u 64 (layers_list_len st - 1)) st).

Definition remove_layer_list_tail : S unit :=
  ls ← gets layers_list;
  match last ls with
  | None => mret tt
  | Some l => delete_g_layer_list_item (removelast ls) l []
  end.

(** The layer with one more reference, or NULL. *)
Definition lookup (id : cstr) : S N :=
  ids ← gets by_id;
  names ← gets by_name;
  match mo_search id ids with
  | Some l => layer_ref_inc l;; mret l
  | None =>
      match mo_search id names with
      | Some l => layer_ref_inc l;; mret l
      | None => mret NULL
      end
  end.
Definition lookup_with_lock (id : cstr) : S N := if negb (le_lock E) then mret NULL else lookup id.

(** ** Inserting and removing *)

Fixpoint unlist_layer (id : cstr) (before after : list N) : S unit :=
  match after with
  | [] => mret tt
  | l :: after =>
      s ← get_slayer l;
      if decide (sl_id s = id) then delete_g_layer_list_item before l after
      else unlist_layer id (before ++ [l]) after
  end.

(** Names that are not there are skipped with a warning. *)
Fixpoint remove_layer_names (names : list cstr) : S unit :=
  match names with
  | [] => mret tt
  | n :: names => modify (fun st => set_by_name (mo_remove n (by_name st)).2 st);; remove_layer_names names
  end.

Definition delete_compress (digest : option cstr) (id : cstr) : S unit :=
  d ← gets by_compress_digest;
  d ← lift (delete_digest_from_map d digest id);
  modify (set_compress d).
Definition delete_uncompress (digest : option cstr) (id : cstr) : S unit :=
  d ← gets by_uncompress_digest;
  d ← lift (delete_digest_from_map d digest id);
  modify (set_uncompress d).

Definition remove_memory_stores (id : cstr) : S Z :=
  l ← lookup id;
  if decide (l = NULL) then mret (-1)
  else
    s ← get_slayer l;
    delete_compress (sl_compressed_diff_digest s) (sl_id s);;
    delete_uncompress (sl_diff_digest s) (sl_id s);;
    modify (fun st => set_by_id (mo_remove (sl_id s) (by_id st)).2 st);;
    remove_layer_names (sl_names s);;
    ls ← gets layers_list;
    unlist_layer id [] ls;;
    layer_ref_dec l;;
    mret 0.

(** The names inserted before the first that fails, and whether one did. *)
Fixpoint insert_layer_names (names : list cstr) (l : N) (done_ : list cstr) : S (bool * list cstr) :=
  match names with
  | [] => mret (true, done_)
  | n :: names =>
      m ← gets by_name;
      let '(ok, m) := mo_insert (le_map E) n l m in
      modify (set_by_name m);;
      if negb ok then mret (false, done_) else insert_layer_names names l (done_ ++ [n])
  end.

Definition insert_compress (digest : option cstr) (id : cstr) : S Z :=
  match digest with
  | None => mret 0
  | Some _ =>
      d ← gets by_compress_digest;
      r ← lift (insert_digest_into_map E d digest id);
      modify (set_compress r.2);; mret r.1
  end.
Definition insert_uncompress (digest : option cstr) (id : cstr) : S Z :=
  match digest with
  | None => mret 0
  | Some _ =>
      d ← gets by_uncompress_digest;
      r ← lift (insert_digest_into_map E d digest id);
      modify (set_uncompress r.2);; mret r.1
  end.

(** [clear_by_name] and [clear_list]: the reference of the list is dropped. *)
Definition clear_by_name (id : cstr) (names : list cstr) : S unit :=
  remove_layer_names (rev names);;
  modify (fun st => set_by_id (mo_remove id (by_id st)).2 st);;
  remove_layer_list_tail.

Definition insert_memory_stores (id : cstr) (opts : layer_opts) (l : N) : S Z :=
  ok ← append_layer_into_list l;
  if negb ok then mret (-1)
  else
    m ← gets by_id;
    let '(ok, m) := mo_insert (le_map E) id l m in
    modify (set_by_id m);;
    if negb ok then remove_layer_list_tail;; mret (-1)
    else
      r ← insert_layer_names (lo_names opts) l [];
      if negb r.1 then clear_by_name id r.2;; mret (-1)
      else
        s ← get_slayer l;
        z ← insert_compress (sl_compressed_diff_digest s) id;
        if negb (z =? 0) then clear_by_name id (lo_names opts);; mret z
        else
          z ← insert_uncompress (sl_diff_digest s) id;
          if negb (z =? 0) then
            delete_compress (sl_compressed_diff_digest s) id;;
            clear_by_name id (lo_names opts);; mret z
          else mret 0.

(** ** Creating *)

Definition build_layer_dir (id : cstr) : S bool :=
  if le_mkdir E then
    modify (fun st => set_dirs (<[id := default (LayerDir None false) (ls_dirs st !! id)]> (ls_dirs st)) st);;
    mret true
  else mret false.

Definition update_layer_datas (id : cstr) (opts : layer_opts) (l : N) : S Z :=
  if negb (le_slayer E) then mret (-1)
  else
    x ← get_layer l;
    set_layer l (Layer (l_refcnt x) (hold_refs_num x)
      (Some (SLayer id (lo_parent opts) (lo_mount_label opts) (lo_names opts) (lo_uncompressed_digest opts)
               (lo_compressed_digest opts) 0 false)) (smount_point x) (has_mount_json x));;
    mret 0.

Definition new_layer_by_opts (id : cstr) (opts : layer_opts) : S Z :=
  l ← create_empty_layer;
  ret ← (if decide (l = NULL) then (mret (-1) : S Z)
         else
           ok ← build_layer_dir id;
           if negb ok then mret (-1)
           else
             ret ← update_layer_datas id opts l;
             if negb (ret =? 0) then mret ret else insert_memory_stores id opts l);
  when (negb (ret =? 0)) (layer_ref_dec l);;
  mret ret.

Definition driver_create_layer (id : cstr) (opts : layer_opts) : S Z :=
  if negb (le_opts E) then mret (-1)
  else if negb (le_create E) then mret (-1)
  else modify (fun st => set_driver ({[id]} ∪ ls_driver st) (ls_mounted st) st);; mret 0.
Definition graphdriver_rm_layer (id : cstr) : S Z :=
  if le_rm E then modify (fun st => set_driver (ls_driver st ∖ {[id]}) (ls_mounted st) st);; mret 0 else mret (-1).
Definition layer_store_remove_layer (id : cstr) : S Z :=
  if le_rmdir E then modify (fun st => set_dirs (delete id (ls_dirs st)) st);; mret 0 else mret (-1).

(** [diff]: there is an archive to unpack. *)
Definition apply_diff (l : N) (diff : bool) : S Z :=
  if negb diff then mret 0
  else if negb (le_apply E) then mret (-1)
  else
    s ← get_slayer l;
    let '(ok, size) := le_tar_split E in
    when ok (modify (fun st =>
      set_dirs (alter (fun d => LayerDir (ld_json d) true) (sl_id s) (ls_dirs st)) st));;
    set_slayer l (put_diff_size size s);;
    mret (if ok then 0 else -1).

Definition update_mount_point (l : N) : S Z :=
  x ← get_layer l;
  if bool_decide (smount_point x = None) && negb (le_mpoint E) then mret (-1)
  else
    let p := default (MountPoint None 0) (smount_point x) in
    set_mount_point l p;;
    _ ← get_slayer l;
    match le_metadata E with
    | None => mret (-1)
    | Some data =>
        when (bool_decide (data <> None)) (set_mount_point l (MountPoint (default None data) (mp_count p)));;
        if has_mount_json x then mret 0
        else if negb (le_mjson_path E) then mret (-1)
        else
          x ← get_layer l;
          set_layer l (Layer (l_refcnt x) (hold_refs_num x) (slayer x) (smount_point x) true);;
          mret 0
    end.

(** [int] arithmetic *)
Definition int_add (a b : Z) : option Z :=
  if (- 2 ^ 31 <=? a + b) && (a + b <? 2 ^ 31) then Some (a + b) else None.

Definition change_hold_refs (l : N) (k : Z) : S unit :=
  x ← get_layer l;
  n ← lift (int_add (hold_refs_num x) k);
  set_layer l (Layer (l_refcnt x) n (slayer x) (smount_point x) (has_mount_json x)).

(** The layer is in the store: it is saved as incomplete, filled, and saved again. *)
Definition complete_layer (l : N) (diff : bool) : S Z :=
  s ← get_slayer l;
  set_slayer l (put_incompelte true s);;
  z ← save_layer l;
  if negb (z =? 0) then mret (-1)
  else
    z ← apply_diff l diff;
    if negb (z =? 0) then mret z
    else
      z ← update_mount_point l;
      if negb (z =? 0) then mret z
      else
        s ← get_slayer l;
        set_slayer l (put_incompelte false s);;
        save_layer l.

(** [driver_remove] *)
Definition undo_create (id : cstr) : S unit :=
  _ ← graphdriver_rm_layer id;
  _ ← layer_store_remove_layer id;
  mret tt.

(** The status and [*new_id]. *)
Definition layer_store_create (lid : cstr) (opts : option layer_opts) (diff : bool) : S (Z * option cstr) :=
  match opts with
  | None => mret (-1, None)
  | Some opts =>
      if negb (le_lock E) then mret (-1, None)
      else
        l ← lookup lid;
        if decide (l <> NULL) then change_hold_refs l 1;; layer_ref_dec l;; mret (0, None)
        else
          ret ← driver_create_layer lid opts;
          if negb (ret =? 0) then mret (ret, None)
          else
            ret ← new_layer_by_opts lid opts;
            if negb (ret =? 0) then undo_create lid;; mret (ret, None)
            else
              l ← lookup lid;
              ret ← (if decide (l = NULL) then (mret (-1) : S Z) else complete_layer l diff);
              if ret =? 0 then change_hold_refs l 1;; layer_ref_dec l;; mret (0, Some lid)
              else
                _ ← remove_memory_stores lid;
                undo_create lid;;
                layer_ref_dec l;;
                mret (ret, None)
  end.

(** ** Mounting *)

Definition graphdriver_umount_layer (id : cstr) : S Z :=
  if le_umount E then modify (fun st => set_driver (ls_driver st) (ls_mounted st ∖ {[id]}) st);; mret 0 else mret (-1).

(** [mount_point] is the current one. *)
Definition mount_helper (l : N) : S (option cstr) :=
  z ← update_mount_point l;
  if negb (z =? 0) then mret None
  else
    x ← get_layer l;
    p ← lift (smount_point x);
    if mp_count p >? 0 then
      n ← lift (int_add (mp_count p) 1);
      set_mount_point l (MountPoint (mp_path p) n);;
      _ ← save_mount_point l;
      mret (mp_path p)
    else if negb (le_mopts E) then mret None
    else
      s ← get_slayer l;
      match le_mount E with
      | None => mret None
      | Some path =>
          modify (fun st => set_driver (ls_driver st) ({[sl_id s]} ∪ ls_mounted st) st);;
          n ← lift (int_add (mp_count p) 1);
          set_mount_point l (MountPoint (mp_path p) n);;
          _ ← save_mount_point l;
          mret (Some path)
      end.

Definition umount_helper (l : N) (force : bool) : S Z :=
  x ← get_layer l;
  match smount_point x with
  | None => mret 0
  | Some p =>
      if negb force && (mp_count p >? 1) then
        set_mount_point l (MountPoint (mp_path p) (mp_count p - 1));;
        _ ← save_mount_point l;
        mret 0
      else
        s ← get_slayer l;
        z ← graphdriver_umount_layer (sl_id s);
        if negb (z =? 0) then mret (-1)
        else
          set_mount_point l (MountPoint (mp_path p) 0);;
          _ ← save_mount_point l;
          mret 0
  end.

Definition layer_store_mount (id : option cstr) : S (option cstr) :=
  match id with
  | None => mret None
  | Some id =>
      l ← lookup_with_lock id;
      if decide (l = NULL) then mret None
      else r ← mount_helper l; layer_ref_dec l;; mret r
  end.

Definition layer_store_umount (id : option cstr) (force : bool) : S Z :=
  match id with
  | None => mret 0
  | Some id =>
      l ← lookup_with_lock id;
      if decide (l = NULL) then mret 0
      else r ← umount_helper l force; layer_ref_dec l;; mret r
  end.

(** ** Deleting *)

Definition remove_mjson (l : N) : S unit :=
  x ← get_layer l;
  s ← lift (slayer x);
  when (has_mount_json x && le_rm_files E) (modify (fun st => set_mjson (delete (sl_id s) (ls_mjson st)) st)).
Definition remove_tar_split (id : cstr) : S unit :=
  when (le_rm_files E) (modify (fun st =>
    set_dirs (alter (fun d => LayerDir (ld_json d) false) id (ls_dirs st)) st)).

(** The layer is unmounted, forgotten, and removed from the driver and the disk. *)
Definition delete_steps (l : N) : S Z :=
  z ← umount_helper l true;
  if negb (z =? 0) then mret (-1)
  else
    remove_mjson l;;
    s ← get_slayer l;
    remove_tar_split (sl_id s);;
    z ← remove_memory_stores (sl_id s);
    if negb (z =? 0) then mret z
    else
      z ← graphdriver_rm_layer (sl_id s);
      if negb (z =? 0) then mret z else layer_store_remove_layer (sl_id s).

Definition do_delete_layer (id : cstr) : S Z :=
  l ← lookup id;
  if decide (l = NULL) then mret 0
  else r ← delete_steps l; layer_ref_dec l;; mret r.

Definition layer_store_delete (id : option cstr) : S Z :=
  match id with
  | None => mret (-1)
  | Some id =>
      if negb (le_lock E) then mret (-1)
      else z ← do_delete_layer id; mret (if negb (z =? 0) then -1 else 0)
  end.

(** ** Holding *)

Definition layer_set_hold_refs (id : option cstr) (increase : bool) : S Z :=
  match id with
  | None => mret (-1)
  | Some id =>
      if negb (le_lock E) then mret (-1)
      else
        m ← gets by_id;
        match mo_search id m with
        | None => mret (-1)
        | Some l => change_hold_refs l (if increase then 1 else -1);; mret 0
        end
  end.
Definition layer_inc_hold_refs (id : option cstr) : S Z := layer_set_hold_refs id true.
Definition layer_dec_hold_refs (id : option cstr) : S Z := layer_set_hold_refs id false.
Definition layer_get_hold_refs (id : option cstr) : S (option Z) :=
  match id with
  | None => mret None
  | Some id =>
      if negb (le_lock E) then mret None
      else
        m ← gets by_id;
        match mo_search id m with
        | None => mret None
        | Some l => x ← get_layer l; mret (Some (hold_refs_num x))
        end
  end.

(** ** Reading *)

(** [struct layer], less the compressed size. *)
Record layer_info := LayerInfo {
  li_id : cstr;
  li_parent : option cstr;
  li_compressed_digest : option cstr;
  li_uncompressed_digest : option cstr;
  li_uncompress_size : Z;
  li_mount_point : option cstr;
  li_mount_count : Z
}.
Definition copy_json_to_layer (s : storage_layer) (p : option mount_point) : layer_info :=
  LayerInfo (sl_id s) (sl_parent s) (sl_compressed_diff_digest s) (sl_diff_digest s) (sl_diff_size s)
    (p ≫= mp_path) (match p with Some p => mp_count p | None => 0 end).
Definition info_of (l : N) : S layer_info :=
  x ← get_layer l; s ← lift (slayer x); mret (copy_json_to_layer s (smount_point x)).

Definition layer_store_exists (id : cstr) : S bool :=
  l ← lookup_with_lock id;
  if decide (l = NULL) then mret false else layer_ref_dec l;; mret true.

Definition layer_store_lookup (name : option cstr) : S (option layer_info) :=
  match name with
  | None => mret None
  | Some name =>
      l ← lookup_with_lock name;
      if decide (l = NULL) then mret None
      else if negb (le_copy E) then layer_ref_dec l;; mret None
      else i ← info_of l; layer_ref_dec l;; mret (Some i)
  end.

(** The status and the layers copied so far. *)
Fixpoint copy_layers (ls : list N) : S (Z * list layer_info) :=
  match ls with
  | [] => mret (0, [])
  | l :: ls =>
      if negb (le_copy E) then mret (-1, [])
      else i ← info_of l; r ← copy_layers ls; mret (r.1, i :: r.2)
  end.
Definition layer_store_list : S (Z * list layer_info) :=
  if negb (le_lock E) then mret (-1, [])
  else if negb (le_array E) then mret (-1, [])
  else ls ← gets layers_list; copy_layers ls.

Fixpoint copy_layers_by_id (ids : list cstr) : S (Z * list layer_info) :=
  match ids with
  | [] => mret (0, [])
  | id :: ids =>
      if negb (le_copy E) then mret (-1, [])
      else
        l ← lookup id;
        if decide (l = NULL) then mret (-1, [])
        else i ← info_of l; layer_ref_dec l;; r ← copy_layers_by_id ids; mret (r.1, i :: r.2)
  end.
Definition layers_by_digest_map (d : dindex MG) (digest : cstr) : S (Z * list layer_info) :=
  match mo_search digest (di_map d) with
  | None => mret (-1, [])
  | Some q =>
      ids ← lift (di_objs d !! q);
      if (length ids =? 0)%nat then mret (0, [])
      else if negb (le_array E) then mret (-1, [])
      else copy_layers_by_id ids
  end.
Definition layer_store_by_compress_digest (digest : cstr) : S (Z * list layer_info) :=
  if negb (le_lock E) then mret (-1, []) else d ← gets by_compress_digest; layers_by_digest_map d digest.
Definition layer_store_by_uncompress_digest (digest : cstr) : S (Z * list layer_info) :=
  if negb (le_lock E) then mret (-1, []) else d ← gets by_uncompress_digest; layers_by_digest_map d digest.

(** The layer is unmounted at the end whether or not it was mounted. *)
Definition layer_store_check (id : cstr) : S Z :=
  l ← lookup_with_lock id;
  if decide (l = NULL) then mret (-1)
  else
    s ← get_slayer l;
    ret ← (if bool_decide (sl_diff_digest s = None) then (mret 0 : S Z)
           else
             rootfs ← layer_store_mount (Some id);
             match rootfs with None => mret (-1) | Some _ => mret (le_check E) end);
    _ ← layer_store_umount (Some id) false;
    layer_ref_dec l;;
    mret ret.

(** ** Loading *)

(** The name is removed from the layer that has it, not from the index. *)
Definition remove_name (name : cstr) : S bool :=
  m ← gets by_name;
  match mo_search name m with
  | None => mret false
  | Some l =>
      s ← get_slayer l;
      set_slayer l (put_lnames (filter (fun n => n <> name) (sl_names s)) s);;
      mret (bool_decide (name ∈ sl_names s))
  end.

Definition load_layer (s : storage_layer) (p : option mount_point) : S N :=
  l ← create_empty_layer;
  if decide (l = NULL) then mret NULL
  else set_layer l (Layer 1 0 (Some s) p true);; mret l.

Definition do_validate_image_layer (l : N) : S Z :=
  s ← get_slayer l;
  match sl_diff_digest s with
  | None => mret 0
  | Some _ =>
      dirs ← gets ls_dirs;
      drv ← gets ls_driver;
      mret (if match dirs !! sl_id s with Some d => ld_tar_split d | None => false end &&
               bool_decide (sl_id s ∈ drv) then 0 else -1)
  end.

Definition do_validate_rootfs_layer (l : N) : S Z :=
  s ← get_slayer l;
  match sl_diff_digest s with
  | Some _ => mret 0
  | None =>
      z ← update_mount_point l;
      if negb (z =? 0) then mret (-1)
      else
        x ← get_layer l;
        p ← lift (smount_point x);
        if mp_count p >? 0 then
          set_mount_point l (MountPoint (mp_path p) 0);;
          r ← mount_helper l;
          mret (match r with None => -1 | Some _ => 0 end)
        else mret 0
  end.

(** [parsed]: the two files can be parsed; [named]: the name of the directory has 64
    characters. *)
Definition load_layer_json_cb (name : cstr) (named parsed : bool) : S unit :=
  dirs ← gets ls_dirs;
  match dirs !! name with
  | None => mret tt
  | Some d =>
      mjson ← gets ls_mjson;
      l ← match (if named && parsed then ld_json d else None) with
          | None => (mret NULL : S N)
          | Some s => load_layer s (mjson !! name)
          end;
      ok ← (if decide (l = NULL) then (mret false : S bool)
            else
              z ← do_validate_image_layer l;
              if negb (z =? 0) then mret false
              else
                z ← do_validate_rootfs_layer l;
                if negb (z =? 0) then mret false else append_layer_into_list l);
      if ok : bool then mret tt
      else
        _ ← graphdriver_umount_layer name;
        _ ← graphdriver_rm_layer name;
        _ ← layer_store_remove_layer name;
        free_layer_t l
  end.

(** Whether a name was taken from another layer; -1 when the index has the name already.
    The names are read again in every turn; [fuel] is their number, which never grows. *)
Fixpoint load_layer_names (fuel : nat) (l : N) (i : nat) (should_save : bool) : S (Z * bool) :=
  match fuel with
  | O => mret (0, should_save)
  | Datatypes.S fuel =>
      s ← get_slayer l;
      match sl_names s !! i with
      | None => mret (0, should_save)
      | Some n =>
          b ← remove_name n;
          let should_save := should_save || b in
          s ← get_slayer l;
          n ← lift (sl_names s !! i);
          m ← gets by_name;
          let '(ok, m) := mo_insert (le_map E) n l m in
          modify (set_by_name m);;
          if negb ok then mret (-1, should_save) else load_layer_names fuel l (i + 1) should_save
      end
  end.

(** One turn of the loop over the layers; the layer is saved at its end even when it was
    incomplete and has just been deleted. *)
Definition load_one (l : N) (should_save : bool) : S (Z * bool) :=
  s ← get_slayer l;
  m ← gets by_id;
  let '(ok, m) := mo_insert (le_map E) (sl_id s) l m in
  modify (set_by_id m);;
  if negb ok then mret (-1, should_save)
  else
    r ← load_layer_names (length (sl_names s)) l 0 should_save;
    if negb (r.1 =? 0) then mret (-1, r.2)
    else
      s ← get_slayer l;
      z ← insert_compress (sl_compressed_diff_digest s) (sl_id s);
      if negb (z =? 0) then mret (z, r.2)
      else
        z ← insert_uncompress (sl_diff_digest s) (sl_id s);
        if negb (z =? 0) then mret (z, r.2)
        else
          z ← (if sl_incompelte s then do_delete_layer (sl_id s) else mret 0);
          if negb (z =? 0) then mret (-1, r.2)
          else
            let should_save := r.2 || sl_incompelte s in
            z ← (if should_save : bool then save_layer l else mret 0);
            mret (if negb (z =? 0) then -1 else 0, should_save).
Fixpoint load_all (ls : list N) (should_save : bool) : S Z :=
  match ls with
  | [] => mret 0
  | l :: ls => r ← load_one l should_save; if negb (r.1 =? 0) then mret r.1 else load_all ls r.2
  end.
Fixpoint scan_subdirs (subs : list (cstr * bool * bool)) : S unit :=
  match subs with
  | [] => mret tt
  | (name, named, parsed) :: subs => load_layer_json_cb name named parsed;; scan_subdirs subs
  end.
Definition load_layers_from_json_files (subs : list (cstr * bool * bool)) : S Z :=
  if negb (le_lock E) then mret (-1)
  else scan_subdirs subs;; ls ← gets layers_list; load_all ls false.
End layer_store.
Arguments layer_store : clear implicits.
