(* ===== verification/LayerStoreInv.v ===== *)
(** The invariant of the store of layers, and what the parts of its operations do to it:
    references, the digest indices, changes that stay within a layer. *)
From S2P Require Import Prelude Heap RbSearch KeyOrders MapC MapIface RestartManager ContainersStoreProps Effects LayerStore.

Open Scope Z_scope.

(** ** The digest indices *)
Section digests.
Context {MG : Type} {cmp : cstr -> cstr -> Z} `{!KeyOrder cmp} {opsG : MapOps cstr N MG} `{!MapLaws cmp opsG}.
Implicit Types (d : dindex MG) (l : list cstr).

(** The ids a digest leads to. *)
Definition dlist d (dg : cstr) : list cstr :=
  match mo_abs (di_map d) !! dg with Some q => default [] (di_objs d !! q) | None => [] end.

Record di_ok d : Prop := {
  dk_wf : mo_wf (di_map d);
  dk_live dg q : mo_abs (di_map d) !! dg = Some q -> exists i l, di_objs d !! q = Some (i :: l);
  dk_inj dg1 dg2 q : mo_abs (di_map d) !! dg1 = Some q -> mo_abs (di_map d) !! dg2 = Some q -> dg1 = dg2
}.

Lemma dlist_found d dg q l :
  mo_abs (di_map d) !! dg = Some q -> di_objs d !! q = Some l -> dlist d dg = l.
Proof. intros H1 H2. unfold dlist. by rewrite H1, H2. Qed.

(** Other digests do not see a change of an object. *)
Lemma dlist_insert_ne d m q l dg dg' :
  di_ok d -> mo_abs (di_map d) !! dg = Some q -> dg' <> dg ->
  mo_abs m !! dg' = mo_abs (di_map d) !! dg' -> dlist (DIndex m (<[q := l]> (di_objs d))) dg' = dlist d dg'.
Proof.
  intros Hd Hq Hne Hm. unfold dlist. cbn. rewrite Hm. destruct (mo_abs (di_map d) !! dg') as [q'|] eqn:Hq'; [|done].
  rewrite lookup_insert_ne; [done|]. intros ->. by eapply Hne, dk_inj.
Qed.

Lemma delete_digest_ok d o id :
  di_ok d -> exists d', delete_digest_from_map d o id = Some d' /\ di_ok d' /\
    forall dg, dlist d' dg = if decide (o = Some dg) then remove_first id (dlist d dg) else dlist d dg.
Proof.
  intros Hd. unfold delete_digest_from_map. destruct o as [dg|]; [|by eexists].
  rewrite (mo_search_ok dg _ (dk_wf _ Hd)). destruct (mo_abs (di_map d) !! dg) as [q|] eqn:Hq.
  2: { exists d. split; [done|]. split; [done|]. intros dg'. case_decide; [|done]. simplify_eq. unfold dlist. by rewrite Hq. }
  destruct (dk_live _ Hd _ _ Hq) as (i & l & Hl). rewrite Hl. cbn [mbind option_bind].
  pose proof (dlist_found _ _ _ _ Hq Hl) as Hdl.
  destruct (remove_first id (i :: l)) as [|j r] eqn:Hr; cbn [length Nat.eqb].
  - destruct (mo_remove_abs dg (di_map d) (dk_wf _ Hd)) as [Hm Hok].
    pose proof (mo_wf_remove dg _ (dk_wf _ Hd)) as Hw. destruct (mo_remove dg (di_map d)) as [ok m]. cbn [fst snd] in *.
    rewrite Hq, bool_decide_eq_true_2 in Hok by eauto. subst ok. eexists. split; [done|]. rewrite delete_insert_eq. split.
    + split; cbn; [done| |]; rewrite Hm.
      * intros dg' q' [Hne Hq']%lookup_delete_Some. rewrite lookup_delete_ne; [by eapply dk_live|].
        intros ->. by eapply Hne, dk_inj.
      * intros dg1 dg2 q' [_ H1]%lookup_delete_Some [_ H2]%lookup_delete_Some. by eapply dk_inj.
    + intros dg'. destruct (decide (Some dg = Some dg')) as [Hdg|Hdg]; [injection Hdg as <-|].
      * rewrite Hdl, Hr. unfold dlist. cbn. by rewrite Hm, lookup_delete_eq.
      * unfold dlist. cbn. rewrite Hm, lookup_delete_ne by congruence.
        destruct (mo_abs (di_map d) !! dg') as [q'|] eqn:Hq'; [|done]. rewrite lookup_delete_ne; [done|].
        intros ->. apply Hdg. f_equal. by eapply dk_inj.
  - eexists. split; [done|]. split.
    + split; cbn; [apply Hd| |apply Hd]. intros dg' q' Hq'. destruct (decide (q' = q)) as [->|].
      * rewrite lookup_insert_eq. eauto.
      * rewrite lookup_insert_ne by done. by eapply dk_live.
    + intros dg'. destruct (decide (Some dg = Some dg')) as [Hdg|Hdg]; [injection Hdg as <-|].
      * rewrite Hdl, Hr. by eapply dlist_found; [|apply lookup_insert_eq].
      * apply (dlist_insert_ne d (di_map d) q _ dg dg'); [done|done|congruence|done].
Qed.

Context (E : lay_env) (Hfresh : forall g, g !! le_fresh_obj E g = None).

Lemma insert_digest_ok d dg id :
  di_ok d -> exists z d', insert_digest_into_map E d (Some dg) id = Some (z, d') /\ di_ok d' /\
    (z = 0 \/ z = -1 /\ (le_node E && le_digest E && le_map E = false)) /\
    forall dg', dlist d' dg' = if decide (z = 0 /\ dg' = dg) then dlist d dg' ++ [id] else dlist d dg'.
Proof.
  intros Hd. unfold insert_digest_into_map. destruct (le_node E) eqn:Hle1; cbn [negb].
  2: { exists (-1), d. split; [done|]. split; [done|]. split; [by right|]. intros dg'. by rewrite decide_False by (by intros []). }
  rewrite (mo_search_ok dg _ (dk_wf _ Hd)). destruct (mo_abs (di_map d) !! dg) as [q|] eqn:Hq.
  - destruct (dk_live _ Hd _ _ Hq) as (i & l & Hl). rewrite Hl. cbn [mbind option_bind].
    eexists 0, _. split; [done|]. split; [|split; [by left|]].
    + split; cbn; [apply Hd| |apply Hd]. intros dg' q' Hq'. destruct (decide (q' = q)) as [->|].
      * rewrite lookup_insert_eq. cbn. eauto.
      * rewrite lookup_insert_ne by done. by eapply dk_live.
    + intros dg'. destruct (decide (dg' = dg)) as [->|Hne].
      * rewrite decide_True, (dlist_found _ _ _ _ Hq Hl) by done. by eapply dlist_found; [|apply lookup_insert_eq].
      * rewrite decide_False by naive_solver. by eapply dlist_insert_ne.
  - assert (forall dg', dlist d dg' = dlist (DIndex (di_map d) (di_objs d)) dg') as He by (by destruct d).
    assert (dlist d dg = []) as Hnil by (unfold dlist; by rewrite Hq).
    unfold insert_new_digest_list. destruct (le_digest E) eqn:Hle2; cbn [negb].
    2: { exists (-1), d. split; [done|]. split; [done|]. split; [by right|]. intros dg'. by rewrite decide_False by (by intros []). }
    set (q := le_fresh_obj E (di_objs d)). pose proof (mo_wf_insert (le_map E) dg q _ (dk_wf _ Hd)) as Hw.
    destruct (le_map E) eqn:Hle.
    + destruct (mo_insert_fresh dg q _ (dk_wf _ Hd) Hq) as [Hok Hm].
      destruct (mo_insert true dg q (di_map d)) as [ok m]. cbn in *. subst ok. cbn [negb].
      eexists 0, _. split; [done|]. split; [|split; [by left|]].
      * split; cbn; [done| |]; rewrite Hm.
        -- intros dg' q' [[<- <-]|[Hne Hq']]%lookup_insert_Some; [rewrite lookup_insert_eq; eauto|].
           destruct (dk_live _ Hd _ _ Hq') as (i & l & Hl). rewrite lookup_insert_ne; [eauto|].
           intros <-. unfold q in Hl. by rewrite Hfresh in Hl.
        -- intros dg1 dg2 q' [[<- <-]|[Hne1 H1]]%lookup_insert_Some [[<- Hqq]|[Hne2 H2]]%lookup_insert_Some; [done|..].
           ++ destruct (dk_live _ Hd _ _ H2) as (i & l & Hl). unfold q in Hl. by rewrite Hfresh in Hl.
           ++ destruct (dk_live _ Hd _ _ H1) as (i & l & Hl). rewrite <-Hqq in Hl. unfold q in Hl. by rewrite Hfresh in Hl.
           ++ by eapply dk_inj.
      * intros dg'. destruct (decide (dg' = dg)) as [->|Hne].
        -- rewrite decide_True, Hnil by done. unfold dlist. cbn. by rewrite Hm, !lookup_insert_eq.
        -- rewrite decide_False by naive_solver. unfold dlist. cbn. rewrite Hm, lookup_insert_ne by done.
           destruct (mo_abs (di_map d) !! dg') as [q'|] eqn:Hq'; [|done]. rewrite lookup_insert_ne; [done|].
           intros <-. destruct (dk_live _ Hd _ _ Hq') as (i & l & Hl). unfold q in Hl. by rewrite Hfresh in Hl.
    + destruct (mo_insert_oom dg q _ (dk_wf _ Hd)) as [Hok Hm].
      destruct (mo_insert false dg q (di_map d)) as [ok m]. cbn in *. subst ok. cbn [negb].
      eexists (-1), _. split; [done|]. split; [|split; [by right|]].
      * split; cbn; rewrite ?Hm; [done|apply Hd..].
      * intros dg'. rewrite decide_False by (by intros []). unfold dlist. cbn. by rewrite Hm.
Qed.
End digests.

Section layer_store.
Context {MI MG : Type} {cmp : cstr -> cstr -> Z} `{!KeyOrder cmp}.
Context {opsI : MapOps cstr N MI} `{!MapLaws cmp opsI}.
Context {opsG : MapOps cstr N MG} `{!MapLaws cmp opsG}.
Abbreviation layer_store := (layer_store MI MG).
Implicit Types (st : layer_store) (own : list N) (p q l : N).

(** ** Consistency *)

(** The description of the layer at an address, and what is read of it. *)
Definition sl st p : option storage_layer := ls_layers st !! p ≫= slayer.
Definition key (s : storage_layer) := (sl_id s, sl_names s, sl_diff_digest s, sl_compressed_diff_digest s, sl_parent s).
Definition skey st p := key <$> sl st p.
Definition count_of (x : layer_t) : Z := match smount_point x with Some m => mp_count m | None => 0 end.
Definition count st p : Z := match ls_layers st !! p with Some x => count_of x | None => 0 end.
Definition hold st p : Z := match ls_layers st !! p with Some x => hold_refs_num x | None => 0 end.

(** The references: one for the list, and those of the running call. *)
Definition lrefs st own p : nat := (if decide (p ∈ layers_list st) then 1 else 0) + occ p own.

Record lrefs_ok own st : Prop := {
  lr_nodup : NoDup (layers_list st);
  lr_null : lrefs st own NULL = 0%nat;
  lr_refs p : match ls_layers st !! p with
              | Some x => l_refcnt x = Z.of_nat (lrefs st own p) /\ lrefs st own p <> 0%nat /\ is_Some (slayer x)
              | None => lrefs st own p = 0%nat
              end;
  lr_few : (length own <= 8)%nat
}.

(** The ids of the layers with a digest, in the order of the list. *)
Definition id_with (f : storage_layer -> option cstr) st (dg : cstr) p : option cstr :=
  s ← sl st p; if decide (f s = Some dg) then Some (sl_id s) else None.
Definition ids_with (f : storage_layer -> option cstr) st (dg : cstr) : list cstr :=
  omap (id_with f st dg) (layers_list st).

Definition names_at st p : list cstr := match sl st p with Some s => sl_names s | None => [] end.

Record lindex_ok st : Prop := {
  lx_id_wf : mo_wf (by_id st);
  lx_id i p : mo_abs (by_id st) !! i = Some p <-> p ∈ layers_list st /\ sl_id <$> sl st p = Some i;
  lx_name_wf : mo_wf (by_name st);
  lx_name n p : mo_abs (by_name st) !! n = Some p <-> p ∈ layers_list st /\ n ∈ names_at st p;
  lx_nodup p : p ∈ layers_list st -> NoDup (names_at st p);
  lx_cdig : di_ok (by_compress_digest st);
  lx_compress dg : dlist (by_compress_digest st) dg = ids_with sl_compressed_diff_digest st dg;
  lx_udig : di_ok (by_uncompress_digest st);
  lx_uncompress dg : dlist (by_uncompress_digest st) dg = ids_with sl_diff_digest st dg;
  lx_len : layers_list_len st = wrap_u 64 (Z.of_nat (length (layers_list st)))
}.

(** The driver has mounted the layers with a positive count. *)
Record mounts_ok st : Prop := {
  mk_mounted i : i ∈ ls_mounted st <-> exists p, p ∈ layers_list st /\ sl_id <$> sl st p = Some i /\ 0 < count st p;
  mk_count p : 0 <= count st p
}.
(** Counters that [k] calls may have increased. *)
Definition bounded (k : Z) st : Prop := forall p, count st p <= k /\ - k <= hold st p <= k.

Definition linv own st : Prop := lrefs_ok own st /\ lindex_ok st /\ mounts_ok st.

(** A step that stays within layers: neither the list nor the indices change, and of the
    layers that are still there neither what the indices are about nor the counters. *)
Record local st st' : Prop := {
  lc_list : layers_list st' = layers_list st;
  lc_len : layers_list_len st' = layers_list_len st;
  lc_by_id : by_id st' = by_id st;
  lc_by_name : by_name st' = by_name st;
  lc_compress : by_compress_digest st' = by_compress_digest st;
  lc_uncompress : by_uncompress_digest st' = by_uncompress_digest st;
  lc_mounted : ls_mounted st' = ls_mounted st;
  lc_layer p : is_Some (ls_layers st' !! p) ->
    is_Some (ls_layers st !! p) /\ skey st' p = skey st p /\ count st' p = count st p /\ hold st' p = hold st p
}.

#[export] Instance local_preorder : PreOrder local.
Proof.
  split; [by intros st; split|]. intros s1 s2 s3 H1 H2. split; [destruct H1, H2; congruence..|].
  intros p Hp. destruct (lc_layer _ _ H2 p Hp) as (Hp2 & A1 & A2 & A3).
  destruct (lc_layer _ _ H1 p Hp2) as (Hp1 & B1 & B2 & B3). split_and!; [done|congruence..].
Qed.

Lemma lrefs_listed own st p : p ∈ layers_list st -> lrefs st own p <> 0%nat.
Proof. intros H. unfold lrefs. rewrite decide_True by done. lia. Qed.
Lemma lrefs_owned own st p : p ∈ own -> lrefs st own p <> 0%nat.
Proof.
  intros H. unfold lrefs, occ. assert (p ∈ filter (eq p) own) as Hin by by apply list_elem_of_filter.
  destruct (filter (eq p) own); [by apply not_elem_of_nil in Hin|]. cbn. lia.
Qed.
Lemma lrefs_cons st own p q : lrefs st (p :: own) q = ((if decide (q = p) then 1 else 0) + lrefs st own q)%nat.
Proof. unfold lrefs, occ. rewrite filter_cons. repeat case_decide; simplify_eq; cbn; lia. Qed.
Lemma lrefs_bound own st p : lrefs_ok own st -> (lrefs st own p <= 9)%nat.
Proof. intros Hr. unfold lrefs. pose proof (occ_le p own). pose proof (lr_few _ _ Hr). case_decide; lia. Qed.

Lemma lrefs_live own st p : lrefs_ok own st -> lrefs st own p <> 0%nat ->
  exists x s, ls_layers st !! p = Some x /\ slayer x = Some s.
Proof.
  intros Hr Hp. pose proof (lr_refs _ _ Hr p) as H. destruct (ls_layers st !! p) as [x|]; [|done].
  destruct H as (_ & _ & s & Hs). eauto.
Qed.
Lemma owned_live own st p : lrefs_ok own st -> p ∈ own -> exists x s, ls_layers st !! p = Some x /\ slayer x = Some s.
Proof. intros Hr Hp. by eapply lrefs_live, lrefs_owned. Qed.
Lemma listed_live own st p : lrefs_ok own st -> p ∈ layers_list st -> exists s, sl st p = Some s.
Proof.
  intros Hr Hp. destruct (lrefs_live own st p Hr) as (x & s & Hx & Hs); [by apply lrefs_listed|].
  exists s. unfold sl. by rewrite Hx.
Qed.
Lemma live_not_null own st p : lrefs_ok own st -> lrefs st own p <> 0%nat -> p <> NULL.
Proof. intros Hr Hp ->. by rewrite (lr_null _ _ Hr) in Hp. Qed.

(** Listed layers survive a local step. *)
Lemma local_listed own st st' p : local st st' -> lrefs_ok own st' -> p ∈ layers_list st ->
  skey st' p = skey st p /\ count st' p = count st p /\ hold st' p = hold st p.
Proof.
  intros Hl Hr Hp. destruct (lrefs_live own st' p Hr) as (x & s & Hx & _).
  { apply lrefs_listed. by rewrite (lc_list _ _ Hl). }
  apply (lc_layer _ _ Hl). eauto.
Qed.

Lemma skey_id st st' p : skey st' p = skey st p -> sl_id <$> sl st' p = sl_id <$> sl st p.
Proof. unfold skey, key. intros H. destruct (sl st' p), (sl st p); cbn in *; congruence. Qed.
Lemma skey_names st st' p : skey st' p = skey st p -> names_at st' p = names_at st p.
Proof. unfold skey, key, names_at. intros H. destruct (sl st' p), (sl st p); cbn in *; congruence. Qed.
Lemma ids_with_ext f st st' dg :
  (forall s s', key s = key s' -> f s = f s') -> layers_list st' = layers_list st ->
  (forall p, p ∈ layers_list st -> skey st' p = skey st p) -> ids_with f st' dg = ids_with f st dg.
Proof.
  intros Hf Hl Hk. unfold ids_with, id_with. rewrite Hl. clear Hl. induction (layers_list st) as [|p ps IH]; [done|].
  cbn. rewrite IH by (intros; apply Hk; by right).
  assert (skey st' p = skey st p) as Hp by (apply Hk; by left). unfold skey in Hp.
  destruct (sl st' p) as [s'|], (sl st p) as [s|]; cbn in *; try done. injection Hp as Hp.
  assert (key s' = key s) as Hks by (unfold key; congruence).
  rewrite (Hf _ _ Hks). unfold key in Hks. injection Hks as -> _ _ _ _. done.
Qed.

Lemma index_keys st st' : lindex_ok st -> layers_list st' = layers_list st ->
  layers_list_len st' = layers_list_len st -> by_id st' = by_id st ->
  by_name st' = by_name st -> by_compress_digest st' = by_compress_digest st ->
  by_uncompress_digest st' = by_uncompress_digest st -> (forall p, p ∈ layers_list st -> skey st' p = skey st p) ->
  lindex_ok st'.
Proof.
  intros [H1 H2 H3 H4 H5 H6 H7 H8 H9 H10] E1 E2 E3 E4 E5 E6 Hk.
  split; rewrite ?E1, ?E2, ?E3, ?E4, ?E5, ?E6; try done.
  - intros i p. rewrite H2. split; intros [Hp Hi]; (split; [done|]); by rewrite (skey_id _ _ _ (Hk p Hp)) in *.
  - intros n p. rewrite H4. split; intros [Hp Hn]; (split; [done|]); by rewrite (skey_names _ _ _ (Hk p Hp)) in *.
  - intros p Hp. rewrite (skey_names _ _ _ (Hk p Hp)). auto.
  - intros dg. rewrite H7. symmetry. apply ids_with_ext; [|done..]. unfold key. congruence.
  - intros dg. rewrite H9. symmetry. apply ids_with_ext; [|done..]. unfold key. congruence.
Qed.

Lemma index_local own st st' : local st st' -> lrefs_ok own st' -> lindex_ok st -> lindex_ok st'.
Proof.
  intros Hl Hr Hx. pose proof Hl as [E1 E2 E3 E4 E5 E6 _ _]. apply (index_keys st); [done..|].
  intros p Hp. by eapply local_listed.
Qed.

Lemma count_dead st p : ls_layers st !! p = None -> count st p = 0 /\ hold st p = 0.
Proof. intros H. unfold count, hold. by rewrite H. Qed.

Lemma mounts_local own st st' : local st st' -> lrefs_ok own st' -> mounts_ok st -> mounts_ok st'.
Proof.
  intros Hl Hr [M1 M2]. split.
  - intros i. rewrite (lc_mounted _ _ Hl), M1, (lc_list _ _ Hl).
    split; intros (p & Hp & Hi & Hc); exists p; destruct (local_listed _ _ _ _ Hl Hr Hp) as (K & C & _);
      rewrite (skey_id _ _ _ K), C in *; done.
  - intros p. destruct (ls_layers st' !! p) eqn:Hp; [|rewrite (proj1 (count_dead _ _ Hp)); lia].
    destruct (lc_layer _ _ Hl p) as (_ & _ & C & _); [eauto|]. rewrite C. apply M2.
Qed.
Lemma inv_local own own' st st' : local st st' -> lrefs_ok own' st' -> linv own st -> linv own' st'.
Proof. intros Hl Hr (_ & Hx & Hm). split_and!; [done|by eapply index_local|by eapply mounts_local]. Qed.
Lemma bounded_local k st st' : 0 <= k -> local st st' -> bounded k st -> bounded k st'.
Proof.
  intros Hk Hl Hb p. destruct (ls_layers st' !! p) eqn:Hp; [|destruct (count_dead _ _ Hp); lia].
  destruct (lc_layer _ _ Hl p) as (_ & _ & C & H); [eauto|]. rewrite C, H. apply Hb.
Qed.

(** ** Reading and changing a layer *)

Lemma wp_get_layer st p x (Q : layer_t -> layer_store -> Prop) :
  ls_layers st !! p = Some x -> Q x st -> wp (get_layer p) Q st.
Proof. intros Hx HQ. unfold get_layer. apply wp_mbind, wp_gets. by eapply wp_lift. Qed.
Lemma wp_set_layer st p x x' (Q : unit -> layer_store -> Prop) :
  ls_layers st !! p = Some x -> Q tt (set_layers (<[p := x']> (ls_layers st)) st) -> wp (set_layer p x') Q st.
Proof. intros Hx HQ. unfold set_layer. apply wp_mbind, wp_gets, wp_mbind. eapply wp_lift; [done|]. by apply wp_modify. Qed.
Lemma wp_get_slayer st p s (Q : storage_layer -> layer_store -> Prop) :
  sl st p = Some s -> Q s st -> wp (get_slayer p) Q st.
Proof.
  unfold sl. intros Hs HQ. destruct (ls_layers st !! p) as [x|] eqn:Hx; [|done]. unfold get_slayer.
  apply wp_mbind. eapply wp_get_layer; [done|]. by eapply wp_lift.
Qed.

(** What a change within a layer keeps. *)
Definition alike (x x' : layer_t) : Prop :=
  key <$> slayer x' = key <$> slayer x /\ count_of x' = count_of x /\ hold_refs_num x' = hold_refs_num x.

Lemma alike_local st p x x' : ls_layers st !! p = Some x -> alike x x' ->
  local st (set_layers (<[p := x']> (ls_layers st)) st).
Proof.
  intros Hx (K & C & H). split; try done. intros q Hq. unfold skey, sl, count, hold. cbn in *.
  destruct (decide (q = p)) as [->|Hne].
  - rewrite lookup_insert_eq, Hx. cbn. split_and!; [eauto|done..].
  - rewrite lookup_insert_ne in * by done. done.
Qed.
Lemma lrefs_set_layer own st p x x' :
  lrefs_ok own st -> ls_layers st !! p = Some x -> l_refcnt x' = l_refcnt x -> is_Some (slayer x') ->
  lrefs_ok own (set_layers (<[p := x']> (ls_layers st)) st).
Proof.
  intros Hr Hx Hc Hs. split; try apply Hr. intros q. change (lrefs _ own q) with (lrefs st own q). cbn.
  pose proof (lr_refs _ _ Hr q) as Hq. destruct (decide (q = p)) as [->|Hne].
  - rewrite lookup_insert_eq. rewrite Hx in Hq. rewrite Hc. naive_solver.
  - by rewrite lookup_insert_ne.
Qed.

(** Only what lies outside of the process changed. *)
Definition outside st st' : Prop :=
  exists dirs mjson drv, st' = set_dirs dirs (set_mjson mjson (set_driver drv (ls_mounted st) st)).
Lemma outside_intro st st' :
  ls_layers st' = ls_layers st -> layers_list st' = layers_list st -> layers_list_len st' = layers_list_len st ->
  by_id st' = by_id st -> by_name st' = by_name st -> by_compress_digest st' = by_compress_digest st ->
  by_uncompress_digest st' = by_uncompress_digest st -> ls_mounted st' = ls_mounted st -> outside st st'.
Proof.
  destruct st, st'; cbn. intros; subst. eexists _, _, _. reflexivity.
Qed.
Lemma outside_local st st' : outside st st' -> local st st'.
Proof. intros (dirs & mjson & drv & ->). by split. Qed.
Lemma outside_refs own st st' : outside st st' -> lrefs_ok own st -> lrefs_ok own st'.
Proof. intros (dirs & mjson & drv & ->) Hr. destruct Hr. by split. Qed.

(** ** References *)

Lemma layer_ref_inc_spec own st p :
  lrefs_ok own st -> lrefs st own p <> 0%nat -> (length own < 8)%nat ->
  wp (layer_ref_inc p) (fun _ st' => lrefs_ok (p :: own) st' /\ local st st' /\
    (forall q, q <> p -> ls_layers st' !! q = ls_layers st !! q) /\ st' = set_layers (ls_layers st') st) st.
Proof.
  intros Hr Hp Hlen. unfold layer_ref_inc. rewrite decide_False by by eapply live_not_null.
  pose proof (lrefs_bound own st p Hr) as Hb. pose proof (lr_refs _ _ Hr p) as Hpr.
  destruct (ls_layers st !! p) as [x|] eqn:Hx; [|done]. destruct Hpr as (Hc & _ & Hs).
  apply wp_mbind. eapply wp_get_layer; [done|]. eapply wp_set_layer; [done|].
  split; [|split; [eapply alike_local; done|split; [|done]]].
  - split; try apply Hr.
    + change (lrefs st (p :: own) NULL = 0%nat). rewrite lrefs_cons, decide_False; [apply Hr|]. intros Hn.
      by eapply (live_not_null own st p).
    + intros q. change (lrefs _ (p :: own) q) with (lrefs st (p :: own) q). rewrite lrefs_cons. cbn.
      destruct (decide (q = p)) as [->|Hne].
      * rewrite lookup_insert_eq. cbn. unfold atomic_int_inc. rewrite Hc, wrap_u_small by lia. split_and!; [lia..|done].
      * rewrite lookup_insert_ne by done. apply (lr_refs _ _ Hr q).
    + cbn. lia.
  - intros q Hq. cbn. by rewrite lookup_insert_ne.
Qed.

Lemma local_delete st p x : ls_layers st !! p = Some x -> local st (set_layers (delete p (ls_layers st)) st).
Proof.
  intros Hx. split; try done. intros q Hq. unfold skey, sl, count, hold. cbn in *.
  destruct (decide (q = p)) as [->|Hne]; [by rewrite lookup_delete_eq in Hq; destruct Hq|].
  rewrite lookup_delete_ne in * by done. done.
Qed.

Lemma lrefs_drop own st st' p :
  lrefs_ok (p :: own) st -> layers_list st' = layers_list st ->
  (forall q, q <> p -> ls_layers st' !! q = ls_layers st !! q) ->
  match ls_layers st' !! p with
  | Some x => l_refcnt x = Z.of_nat (lrefs st own p) /\ lrefs st own p <> 0%nat /\ is_Some (slayer x)
  | None => lrefs st own p = 0%nat
  end -> lrefs_ok own st'.
Proof.
  intros Hr El Hq Hp. assert (forall q, lrefs st' own q = lrefs st own q) as Er
    by (intros q; unfold lrefs; by rewrite El).
  split; rewrite ?El; try apply Hr.
  - rewrite Er. pose proof (lr_null _ _ Hr) as H0. rewrite lrefs_cons in H0. lia.
  - intros q. rewrite Er. destruct (decide (q = p)) as [->|Hne]; [done|].
    rewrite Hq by done. pose proof (lr_refs _ _ Hr q) as Hrq. by rewrite lrefs_cons, decide_False in Hrq by done.
  - pose proof (lr_few _ _ Hr) as Hf. cbn in Hf. lia.
Qed.

Lemma layer_ref_dec_spec own st p :
  lrefs_ok (p :: own) st ->
  wp (layer_ref_dec p) (fun _ st' => lrefs_ok own st' /\ local st st' /\
    (forall q, q <> p -> ls_layers st' !! q = ls_layers st !! q) /\ st' = set_layers (ls_layers st') st /\
    (is_Some (ls_layers st' !! p) -> sl st' p = sl st p)) st.
Proof.
  intros Hr. assert (lrefs st (p :: own) p = S (lrefs st own p)) as Hp by by rewrite lrefs_cons, decide_True.
  unfold layer_ref_dec. rewrite decide_False by (eapply live_not_null; [done|]; by rewrite Hp).
  pose proof (lrefs_bound _ st p Hr) as Hb. pose proof (lr_refs _ _ Hr p) as Hpr.
  destruct (ls_layers st !! p) as [x|] eqn:Hx; [|lia]. destruct Hpr as (Hc & _ & Hs).
  apply wp_mbind. eapply wp_get_layer; [done|]. unfold atomic_int_dec_test. rewrite Hc, Hp, wrap_u_small by lia.
  replace (Z.of_nat (S (lrefs st own p)) - 1) with (Z.of_nat (lrefs st own p)) by lia.
  apply wp_mbind. eapply wp_set_layer; [done|]. set (x' := Layer _ _ _ _ _).
  assert (local st (set_layers (<[p := x']> (ls_layers st)) st)) as Hl by by eapply alike_local.
  destruct (Z.eqb_spec (Z.of_nat (lrefs st own p)) 0).
  - unfold free_layer_t. rewrite decide_False by (eapply live_not_null; [done|]; by rewrite Hp).
    apply wp_mbind, wp_gets, wp_mbind. cbn. eapply wp_lift; [apply lookup_insert_eq|]. apply wp_modify.
    split; [|split; [|split]].
    + eapply lrefs_drop; [done..| |]; cbn; [intros q Hq; by rewrite lookup_delete_ne, lookup_insert_ne|].
      rewrite lookup_delete_eq. lia.
    + etrans; [exact Hl|]. by eapply (local_delete (set_layers _ st)), lookup_insert_eq.
    + intros q Hq. cbn. by rewrite lookup_delete_ne, lookup_insert_ne.
    + split; [done|]. cbn. rewrite lookup_delete_eq. by intros [].
  - apply wp_mret. split; [|split; [done|split; [|split; [done|]]]].
    + eapply lrefs_drop; [done..| |]; cbn; [intros q Hq; by rewrite lookup_insert_ne|].
      rewrite lookup_insert_eq. cbn. split_and!; [done|lia|done].
    + intros q Hq. cbn. by rewrite lookup_insert_ne.
    + intros _. unfold sl. cbn. by rewrite lookup_insert_eq, Hx.
Qed.

Lemma layer_drop_spec own st p :
  linv (p :: own) st -> wp (layer_ref_dec p) (fun _ st' => linv own st' /\ local st st') st.
Proof.
  intros Hi. eapply wp_conseq; [apply (layer_ref_dec_spec own), Hi|]. intros _ st' (Hr & Hl & _).
  split; [by eapply inv_local|done].
Qed.

(** ** Lookup *)

Definition resolve st (id : cstr) : option N :=
  match mo_abs (by_id st) !! id with Some p => Some p | None => mo_abs (by_name st) !! id end.

Lemma layer_resolve_listed st id p : lindex_ok st -> resolve st id = Some p -> p ∈ layers_list st.
Proof.
  intros Hx. unfold resolve. destruct (mo_abs (by_id st) !! id) as [p'|] eqn:Hid.
  - intros [= <-]. by apply (lx_id _ Hx) in Hid as [? _].
  - intros Hn. by apply (lx_name _ Hx) in Hn as [? _].
Qed.

Lemma layer_lookup_spec own st id :
  linv own st -> (length own < 8)%nat ->
  wp (lookup id) (fun p st' => local st st' /\ st' = set_layers (ls_layers st') st /\
    match resolve st id with
    | None => p = NULL /\ st' = st
    | Some p' => p = p' /\ p <> NULL /\ linv (p :: own) st' /\
        (forall q, q <> p -> ls_layers st' !! q = ls_layers st !! q)
    end) st.
Proof.
  intros Hi Hlen. pose proof Hi as (Hr & Hx & _). unfold lookup. apply wp_mbind, wp_gets, wp_mbind, wp_gets.
  rewrite (mo_search_ok id _ (lx_id_wf _ Hx)), (mo_search_ok id _ (lx_name_wf _ Hx)).
  assert (forall p, resolve st id = Some p -> wp (layer_ref_inc p;; mret p) (fun p0 st' => local st st' /\
    st' = set_layers (ls_layers st') st /\ p0 = p /\ p0 <> NULL /\ linv (p0 :: own) st' /\
    (forall q, q <> p0 -> ls_layers st' !! q = ls_layers st !! q)) st) as Hw.
  { intros p Hp. apply layer_resolve_listed in Hp; [|done]. pose proof (lrefs_listed own st p Hp) as Hn.
    apply wp_mbind. eapply wp_conseq; [by eapply layer_ref_inc_spec|]. intros _ st' (Hr' & Hl & Hq & Hd).
    apply wp_mret. split_and!; [done|done|done|by apply (live_not_null own st)|by apply (inv_local own (p :: own) st)|done]. }
  unfold resolve in *. destruct (mo_abs (by_id st) !! id); [by apply Hw|].
  destruct (mo_abs (by_name st) !! id); [by apply Hw|]. apply wp_mret. split; [done|]. by destruct st.
Qed.

(** ** Computations on one layer

    [tame own l k c m]: on a layer [l] that the call holds, with the key [k] and the mount
    count [c], the computation [m] makes a local step. *)
Section tame.
Context (E : lay_env) (own : list N) (l : N) (k : cstr * list cstr * option cstr * option cstr * option cstr) (c : Z) (Hl : l ∈ own).

Definition at_layer st : Prop := lrefs_ok own st /\ skey st l = Some k /\ count st l = c.
Definition tame {A} (m : M layer_store A) : Prop :=
  forall st, at_layer st -> wp m (fun _ st' => at_layer st' /\ local st st' /\
    (forall q, q <> l -> ls_layers st' !! q = ls_layers st !! q)) st.

Lemma at_layer_step st st' : at_layer st -> lrefs_ok own st' -> local st st' -> at_layer st'.
Proof.
  intros (_ & Hk & Hc) Hr Hloc. destruct (owned_live own st' l Hr Hl) as (x & s & Hx & _).
  destruct (lc_layer _ _ Hloc l) as (_ & K & C & _); [eauto|]. split_and!; [done|congruence..].
Qed.
Lemma at_layer_read st : at_layer st ->
  exists x s, ls_layers st !! l = Some x /\ slayer x = Some s /\ key s = k /\ count_of x = c.
Proof.
  intros (Hr & Hk & Hc). destruct (owned_live own st l Hr Hl) as (x & s & Hx & Hs). exists x, s.
  unfold skey, sl in Hk. unfold count in Hc. rewrite Hx in Hk, Hc. cbn in Hk. rewrite Hs in Hk. cbn in Hk. by simplify_eq.
Qed.

Lemma tame_ret {A} (a : A) : tame (mret a).
Proof. intros st Hst. by apply wp_mret. Qed.
Lemma tame_bind {A B} (m : M layer_store A) (f : A -> M layer_store B) : tame m -> (forall a, tame (f a)) -> tame (m ≫= f).
Proof.
  intros Hm Hf st Hst. apply wp_mbind. eapply wp_conseq; [by apply Hm|]. intros a st' (Hst' & H1 & O1).
  eapply wp_conseq; [by apply Hf|]. intros b st'' (Hst'' & H2 & O2). split_and!; [done|by etrans|].
  intros q Hq. by rewrite O2, O1.
Qed.
Lemma tame_gets {A B} (g : layer_store -> A) (f : A -> M layer_store B) : (forall a, tame (f a)) -> tame (gets g ≫= f).
Proof. intros Hf. apply tame_bind; [|done]. intros st Hst. by apply wp_gets. Qed.
Lemma tame_outside (g : layer_store -> layer_store) : (forall st, outside st (g st)) -> tame (modify g).
Proof.
  intros Hg st Hst. apply wp_modify. pose proof (outside_local _ _ (Hg st)). split_and!; [|done|].
  - eapply at_layer_step; [done| |done]. eapply outside_refs; [done|apply Hst].
  - intros q _. by destruct (Hg st) as (? & ? & ? & ->).
Qed.
Lemma tame_when b (m : M layer_store unit) : tame m -> tame (when b m).
Proof. intros Hm. destruct b; [done|apply tame_ret]. Qed.

Lemma tame_get_slayer {B} (f : storage_layer -> M layer_store B) :
  (forall s, key s = k -> tame (f s)) -> tame (get_slayer l ≫= f).
Proof.
  intros Hf st Hst. destruct (at_layer_read st Hst) as (x & s & Hx & Hs & Hk & _). apply wp_mbind.
  eapply (wp_get_slayer _ _ s); [unfold sl; by rewrite Hx|]. by apply Hf.
Qed.
Lemma tame_get_layer {B} (f : layer_t -> M layer_store B) :
  (forall x s, slayer x = Some s -> key s = k -> count_of x = c -> tame (f x)) -> tame (get_layer l ≫= f).
Proof.
  intros Hf st Hst. destruct (at_layer_read st Hst) as (x & s & Hx & Hs & Hk & Hc). apply wp_mbind.
  eapply wp_get_layer; [done|]. by eapply Hf.
Qed.
(** Reading a layer and writing it back. *)
Lemma tame_update (f : layer_t -> layer_t) :
  (forall x s, slayer x = Some s -> key s = k -> count_of x = c ->
     l_refcnt (f x) = l_refcnt x /\ alike x (f x)) ->
  tame (x ← get_layer l; set_layer l (f x)).
Proof.
  intros Hf st Hst. destruct (at_layer_read st Hst) as (x & s & Hx & Hs & Hk & Hc).
  destruct (Hf x s Hs Hk Hc) as [Href Ha]. apply wp_mbind. eapply wp_get_layer; [done|]. eapply wp_set_layer; [done|].
  pose proof (alike_local _ _ _ _ Hx Ha) as Hloc. split_and!; [|done|intros q Hq; cbn; by rewrite lookup_insert_ne].
  eapply at_layer_step; [done| |done].
  eapply lrefs_set_layer; [apply Hst|done..|]. destruct Ha as (Ha & _). rewrite Hs in Ha. by destruct (slayer (f x)).
Qed.
Lemma tame_update_then {B} (f : layer_t -> layer_t) (m : M layer_store B) :
  (forall x s, slayer x = Some s -> key s = k -> count_of x = c ->
     l_refcnt (f x) = l_refcnt x /\ alike x (f x)) -> tame m ->
  tame (x ← get_layer l; set_layer l (f x);; m).
Proof.
  intros Hf Hm st Hst. pose proof (tame_bind _ (fun _ => m) (tame_update f Hf) (fun _ => Hm) st Hst) as H.
  apply wp_bind_inv, wp_bind_inv in H. apply wp_mbind. eapply wp_conseq; [exact H|]. intros x st' H'. by apply wp_mbind.
Qed.
Lemma tame_set_slayer s : key s = k -> tame (set_slayer l s).
Proof.
  intros Hk. unfold set_slayer. apply tame_update. intros x s' Hs Hk' Hc. split; [done|]. split_and!; [|done..].
  cbn. rewrite Hs. cbn. by rewrite Hk, Hk'.
Qed.
Lemma tame_set_mount_point (m : mount_point) : mp_count m = c -> tame (set_mount_point l m).
Proof.
  intros Hp. unfold set_mount_point. apply tame_update. intros x s' Hs Hk' Hc. split; [done|]. split_and!; [done| |done].
  unfold count_of in *. cbn. congruence.
Qed.
End tame.

Ltac tame_outside :=
  match goal with |- tame _ _ _ _ (modify _) =>
    apply tame_outside; [assumption|let w := fresh in intros w; destruct w; unfold outside, set_dirs, set_mjson, set_driver; cbn; do 3 eexists; reflexivity] end.
Ltac tame_step :=
  lazymatch goal with
  | |- tame _ _ _ _ (mret _) => apply tame_ret
  | |- tame _ _ _ _ (gets _ ≫= _) => apply tame_gets; intros ?
  | |- tame _ ?l _ _ (get_slayer ?l ≫= _) => apply tame_get_slayer; [assumption|intros ? ?]
  | |- tame _ ?l _ _ (set_slayer ?l _) => apply tame_set_slayer; [assumption|]
  | |- tame _ ?l _ _ (set_mount_point ?l _) => apply tame_set_mount_point; [assumption|]
  | |- tame _ ?l _ _ (get_layer ?l ≫= fun x => set_layer ?l _) => apply tame_update; [assumption|intros ? ? ? ? ?]
  | |- tame _ ?l _ _ (get_layer ?l ≫= _) => apply tame_get_layer; [assumption|intros ? ? ? ? ?]
  | |- tame _ _ _ _ (modify _) => tame_outside
  | |- tame _ _ _ _ (when _ _) => apply tame_when
  | |- tame _ _ _ _ (mbind _ _) => apply tame_bind; [|intros ?]
  | |- tame _ _ _ _ (match ?x with _ => _ end) => destruct x eqn:?
  end.

Section helpers.
Context (E : lay_env) (own : list N) (l : N) (k : cstr * list cstr * option cstr * option cstr * option cstr) (c : Z) (Hl : l ∈ own).

Lemma tame_save_layer : tame own l k c (save_layer E l).
Proof. unfold save_layer. repeat tame_step. Qed.
Lemma tame_save_mount_point : tame own l k c (save_mount_point E l).
Proof.
  unfold save_mount_point. apply tame_get_layer; [done|]. intros x s Hs Hk Hc.
  destruct (smount_point x); [|apply tame_ret]. destruct (negb _); [apply tame_ret|]. rewrite Hs.
  apply tame_bind; [intros st Hst; by eapply wp_lift|]. intros s'. repeat tame_step.
Qed.
Lemma tame_apply_diff diff : tame own l k c (apply_diff E l diff).
Proof. unfold apply_diff. repeat tame_step. done. Qed.
Lemma tame_update_mount_point : tame own l k c (update_mount_point E l).
Proof.
  unfold update_mount_point. apply tame_get_layer; [done|]. intros x s Hs Hk Hc.
  assert (mp_count (default (MountPoint None 0) (smount_point x)) = c) as Hd.
  { unfold count_of in Hc. by destruct (smount_point x). }
  destruct (_ && _); [apply tame_ret|]. tame_step; [by apply tame_set_mount_point|]. tame_step.
  destruct (le_metadata E); [|apply tame_ret]. tame_step; [by apply tame_when, tame_set_mount_point|].
  destruct (has_mount_json x); [apply tame_ret|]. destruct (negb _); [apply tame_ret|].
  apply tame_update_then; [done| |apply tame_ret]. intros. split; [done|]. by split_and!.
Qed.
Lemma tame_complete_layer diff : tame own l k c (complete_layer E l diff).
Proof.
  unfold complete_layer. repeat (tame_step || apply tame_save_layer || apply tame_apply_diff || apply tame_update_mount_point); done.
Qed.
End helpers.

(** ** Mount counts *)

Record recount p (n : Z) st st' : Prop := {
  rc_list : layers_list st' = layers_list st;
  rc_len : layers_list_len st' = layers_list_len st;
  rc_by_id : by_id st' = by_id st;
  rc_by_name : by_name st' = by_name st;
  rc_compress : by_compress_digest st' = by_compress_digest st;
  rc_uncompress : by_uncompress_digest st' = by_uncompress_digest st;
  rc_mounted : exists i, sl_id <$> sl st p = Some i /\
    ls_mounted st' = if decide (0 < n) then {[i]} ∪ ls_mounted st else ls_mounted st ∖ {[i]};
  rc_layer q : is_Some (ls_layers st' !! q) ->
    is_Some (ls_layers st !! q) /\ skey st' q = skey st q /\
    count st' q = (if decide (q = p) then n else count st q) /\ hold st' q = hold st q
}.

Lemma recount_local own p n st st1 st2 :
  lrefs_ok own st1 -> p ∈ own -> local st st1 -> recount p n st1 st2 -> recount p n st st2.
Proof.
  intros Hr Hp [A1 A2 A3 A4 A5 A6 A7 A8] [B1 B2 B3 B4 B5 B6 (i & Hi & B7) B8]. split; try congruence.
  - exists i. rewrite B7, A7. split; [|done]. rewrite <-Hi. symmetry. apply skey_id.
    destruct (owned_live own st1 p Hr Hp) as (x & s & Hx & _). apply A8. eauto.
  - intros q Hq. destruct (B8 q Hq) as (Hq1 & K1 & C1 & H1). destruct (A8 q Hq1) as (Hq0 & K0 & C0 & H0).
    split_and!; [done|congruence| |congruence]. rewrite C1. by case_decide.
Qed.
Lemma recount_local_r p n st st1 st2 : recount p n st st1 -> local st1 st2 -> recount p n st st2.
Proof.
  intros [B1 B2 B3 B4 B5 B6 (i & Hi & B7) B8] [A1 A2 A3 A4 A5 A6 A7 A8]. split; try congruence.
  - exists i. by rewrite A7, B7.
  - intros q Hq. destruct (A8 q Hq) as (Hq1 & K1 & C1 & H1). destruct (B8 q Hq1) as (Hq0 & K0 & C0 & H0).
    split_and!; [done|congruence..].
Qed.

Lemma listed_id own st p q i : linv own st -> p ∈ layers_list st -> q ∈ layers_list st ->
  sl_id <$> sl st p = Some i -> sl_id <$> sl st q = Some i -> p = q.
Proof.
  intros (_ & Hx & _) Hp Hq Hi Hj.
  assert (mo_abs (by_id st) !! i = Some p) by by apply (lx_id _ Hx).
  assert (mo_abs (by_id st) !! i = Some q) by by apply (lx_id _ Hx). congruence.
Qed.

Lemma inv_recount own own' p n st st' :
  linv own st -> lrefs_ok own' st' -> p ∈ layers_list st -> 0 <= n -> recount p n st st' -> linv own' st'.
Proof.
  intros Hi Hr Hp Hn [E1 E2 E3 E4 E5 E6 (i & Hpi & E7) E8]. pose proof Hi as (_ & Hx & [M1 M2]).
  assert (forall q, q ∈ layers_list st -> skey st' q = skey st q /\ count st' q = if decide (q = p) then n else count st q) as Hk.
  { intros q Hq. destruct (lrefs_live own' st' q Hr) as (x & s & Hq' & _); [apply lrefs_listed; by rewrite E1|].
    destruct (E8 q) as (_ & K & C & _); [eauto|done]. }
  split_and!; [done| |].
  - apply (index_keys st st'); [done..|]. intros q Hq. by apply Hk.
  - split.
    + intros j. rewrite E7, E1. split.
      * intros Hj. destruct (decide (j = i)) as [->|Hne].
        -- exists p. destruct (Hk p Hp) as [K C]. rewrite (skey_id _ _ _ K), C, decide_True by done.
           split; [done|]. split; [done|]. destruct (decide (0 < n)); [done|set_solver].
        -- assert (j ∈ ls_mounted st) as Hj' by (destruct (decide (0 < n)); set_solver).
           apply M1 in Hj' as (q & Hq & Hqi & Hc). exists q. destruct (Hk q Hq) as [K C].
           rewrite (skey_id _ _ _ K), C, decide_False; [done|]. intros ->. congruence.
      * intros (q & Hq & Hqi & Hc). destruct (Hk q Hq) as [K C]. rewrite (skey_id _ _ _ K) in Hqi. rewrite C in Hc.
        destruct (decide (q = p)) as [->|Hne].
        -- rewrite decide_True by done. rewrite Hpi in Hqi. simplify_eq. set_solver.
        -- assert (j ∈ ls_mounted st) by (apply M1; eauto). assert (j <> i); [|destruct (decide (0 < n)); set_solver].
           intros ->. by eapply Hne, listed_id.
    + intros q. destruct (ls_layers st' !! q) eqn:Hq; [|rewrite (proj1 (count_dead _ _ Hq)); lia].
      destruct (E8 q) as (_ & _ & C & _); [eauto|]. rewrite C. case_decide; [done|apply M2].
Qed.

Lemma recount_intro st l x s x' n mounted' :
  ls_layers st !! l = Some x -> slayer x = Some s -> key <$> slayer x' = key <$> slayer x ->
  hold_refs_num x' = hold_refs_num x -> count_of x' = n ->
  mounted' = (if decide (0 < n) then {[sl_id s]} ∪ ls_mounted st else ls_mounted st ∖ {[sl_id s]}) ->
  recount l n st (set_layers (<[l := x']> (ls_layers st)) (set_driver (ls_driver st) mounted' st)).
Proof.
  intros Hx Hs Hk Hh Hc Hm. split; try done.
  - exists (sl_id s). split; [unfold sl; by rewrite Hx; cbn; rewrite Hs|done].
  - intros q Hq. unfold skey, sl, count, hold. cbn in *. destruct (decide (q = l)) as [->|Hne].
    + rewrite lookup_insert_eq, Hx. cbn. split_and!; [eauto|done..].
    + rewrite lookup_insert_ne in * by done. done.
Qed.
Lemma set_driver_same st : set_driver (ls_driver st) (ls_mounted st) st = st.
Proof. by destruct st. Qed.

(** The count of a layer becomes [n] and the file follows. *)
Lemma recount_spec E own st l x s path n mounted' :
  lrefs_ok own st -> l ∈ own -> ls_layers st !! l = Some x -> slayer x = Some s ->
  mounted' = (if decide (0 < n) then {[sl_id s]} ∪ ls_mounted st else ls_mounted st ∖ {[sl_id s]}) ->
  wp (set_mount_point l (MountPoint path n);; save_mount_point E l)
    (fun _ st' => lrefs_ok own st' /\ recount l n st st') (set_driver (ls_driver st) mounted' st).
Proof.
  intros Hr Hl Hx Hs Hm. apply wp_mbind. unfold set_mount_point. apply wp_mbind.
  eapply wp_get_layer; [exact Hx|]. eapply wp_set_layer; [exact Hx|]. set (x' := Layer _ _ _ _ _). set (st1 := set_layers _ _).
  assert (recount l n st st1) as Hrc by (by eapply (recount_intro st l x s x')).
  assert (lrefs_ok own st1) as Hr1.
  { apply (lrefs_set_layer own (set_driver (ls_driver st) mounted' st) l x x'); [|done..|eauto]. by destruct Hr; split. }
  eapply wp_conseq; [apply (tame_save_mount_point E own l (key s) n Hl)|].
  - split_and!; [done|..]; unfold skey, sl, count, st1; cbn; rewrite lookup_insert_eq; cbn; [by rewrite Hs|done].
  - intros z st2 ((Hr2 & _) & Hl2 & _). split; [done|]. by eapply recount_local_r.
Qed.

Lemma mounted_same own st l x s : linv own st -> l ∈ layers_list st -> ls_layers st !! l = Some x ->
  slayer x = Some s -> 0 < count_of x -> ls_mounted st = {[sl_id s]} ∪ ls_mounted st.
Proof.
  intros (_ & _ & [M1 _]) Hl Hx Hs Hc. assert (sl_id s ∈ ls_mounted st); [|set_solver].
  apply M1. exists l. unfold sl, count. rewrite Hx. cbn. by rewrite Hs.
Qed.

Lemma update_mount_point_some E own st l :
  lrefs_ok own st -> l ∈ own ->
  wp (update_mount_point E l) (fun z st' => z = 0 -> exists x m, ls_layers st' !! l = Some x /\ smount_point x = Some m) st.
Proof.
  intros Hr Hl. destruct (owned_live own st l Hr Hl) as (x & s & Hx & Hs).
  unfold update_mount_point, set_mount_point, get_slayer. apply wp_mbind. eapply wp_get_layer; [done|].
  destruct (_ && _); [by apply wp_mret|]. apply wp_mbind, wp_mbind. eapply wp_get_layer; [done|]. eapply wp_set_layer; [done|].
  apply wp_mbind, wp_mbind. eapply wp_get_layer; [apply lookup_insert_eq|]. eapply wp_lift; [exact Hs|].
  destruct (le_metadata E) as [data|]; [|by apply wp_mret].
  apply wp_mbind, wp_when; intros _.
  - apply wp_mbind. eapply wp_get_layer; [apply lookup_insert_eq|]. eapply wp_set_layer; [apply lookup_insert_eq|]. cbn.
    destruct (has_mount_json x); [apply wp_mret; intros _; cbn; rewrite lookup_insert_eq; eauto|].
    destruct (negb _); [by apply wp_mret|]. apply wp_mbind. eapply wp_get_layer; [apply lookup_insert_eq|].
    apply wp_mbind. eapply wp_set_layer; [apply lookup_insert_eq|]. apply wp_mret. intros _. cbn.
    rewrite lookup_insert_eq. eauto.
  - destruct (has_mount_json x); [apply wp_mret; intros _; cbn; rewrite lookup_insert_eq; eauto|].
    destruct (negb _); [by apply wp_mret|]. apply wp_mbind. eapply wp_get_layer; [apply lookup_insert_eq|].
    apply wp_mbind. eapply wp_set_layer; [apply lookup_insert_eq|]. apply wp_mret. intros _. cbn.
    rewrite lookup_insert_eq. eauto.
Qed.

Lemma at_layer_intro own st l : lrefs_ok own st -> l ∈ own ->
  exists s, sl st l = Some s /\ at_layer own l (key s) (count st l) st.
Proof.
  intros Hr Hl. destruct (owned_live own st l Hr Hl) as (x & s & Hx & Hs). exists s.
  assert (sl st l = Some s) as H by (unfold sl; by rewrite Hx). split; [done|]. unfold at_layer, skey. by rewrite H.
Qed.
End layer_store.
