(* ===== verification/LayerStoreOps.v ===== *)
(** The operations of the store of layers keep its invariant: mounting and unmounting,
    removing, inserting and creating. *)
From S2P Require Import Prelude Heap RbSearch KeyOrders MapC MapIface RestartManager ContainersStoreProps Effects LayerStore LayerStoreInv.

Open Scope Z_scope.

Section layer_store.
Context {MI MG : Type} {cmp : cstr -> cstr -> Z} `{!KeyOrder cmp}.
Context {opsI : MapOps cstr N MI} `{!MapLaws cmp opsI}.
Context {opsG : MapOps cstr N MG} `{!MapLaws cmp opsG}.
Abbreviation layer_store := (layer_store MI MG).
Implicit Types (st : layer_store) (own : list N) (p q : N).
Context (E : lay_env).

(** ** Mounting and holding *)

Lemma int_add_ok a b : - 2 ^ 31 <= a + b < 2 ^ 31 -> int_add a b = Some (a + b).
Proof. intros H. unfold int_add. by rewrite (proj2 (andb_true_iff _ _)) by lia. Qed.

Lemma mount_helper_spec own st l :
  linv own st -> l ∈ own -> l ∈ layers_list st -> count st l < 2 ^ 31 - 1 ->
  wp (mount_helper E l) (fun r st' => linv own st' /\
    (recount l (count st l + 1) st st' \/ local st st' /\ r = None)) st.
Proof.
  intros Hi Hl Hlist Hb. pose proof Hi as (Hr & Hx & Hm). unfold mount_helper. apply wp_mbind.
  destruct (at_layer_intro own st l Hr Hl) as (s & Hs & Hat).
  eapply wp_conseq; [apply wp_and; [by apply (tame_update_mount_point E own l (key s) (count st l) Hl)|by eapply (update_mount_point_some E own)]|].
  intros z st1 [(Hat1 & Hl1 & _) Hsome]. pose proof Hat1 as (Hr1 & _ & Hc1).
  assert (linv own st1) as Hi1 by by eapply inv_local.
  destruct (Z.eqb_spec z 0) as [->|]; cbn [negb]; [|apply wp_mret; split; [done|by right]].
  destruct (Hsome eq_refl) as (x & m & Hx1 & Hm1). destruct (at_layer_read own l _ _ Hl st1 Hat1) as (x' & s1 & Hx1' & Hs1 & _ & Hcx).
  rewrite Hx1 in Hx1'. injection Hx1' as <-. apply wp_mbind. eapply wp_get_layer; [done|]. apply wp_mbind.
  eapply wp_lift; [done|]. assert (mp_count m = count st l) as Hmc by (unfold count_of in Hcx; by rewrite Hm1 in Hcx).
  assert (0 <= count st l) as Hpos by apply (mk_count _ Hm).
  assert (l ∈ layers_list st1) as Hlist1 by (by rewrite (lc_list _ _ Hl1)).
  assert (forall path (r : option cstr) mounted', mounted' = {[sl_id s1]} ∪ ls_mounted st1 ->
    wp (n ← lift (int_add (mp_count m) 1); set_mount_point l (MountPoint path n);; _ ← save_mount_point E l; mret r)
      (fun r st' => linv own st' /\ (recount l (count st l + 1) st st' \/ local st st' /\ r = None))
      (set_driver (ls_driver st1) mounted' st1)) as Hw.
  { intros path r mounted' ->. apply wp_mbind. eapply wp_lift; [apply int_add_ok; lia|]. rewrite Hmc.
    pose proof (recount_spec E own st1 l x s1 path (count st l + 1) _ Hr1 Hl Hx1 Hs1 eq_refl) as Hrs.
    rewrite decide_True in Hrs by lia. apply wp_bind_inv in Hrs. apply wp_mbind. eapply wp_conseq; [exact Hrs|].
    intros u st2 Hst2. apply wp_mbind. eapply wp_conseq; [exact Hst2|]. intros z st3 [Hr3 Hrc]. apply wp_mret.
    split; [by eapply (inv_recount own own l (count st l + 1) st1); [|done|done|lia|]|].
    left. by apply (recount_local own l _ st st1). }
  destruct (Z.gtb_spec (mp_count m) 0).
  - rewrite <-(set_driver_same st1). apply Hw. eapply mounted_same; [done..|lia].
  - destruct (negb _); [by apply wp_mret; split; [|right]|]. apply wp_mbind.
    eapply (wp_get_slayer _ _ s1); [unfold sl; by rewrite Hx1|].
    destruct (le_mount E) as [path|]; [|by apply wp_mret; split; [|right]].
    apply wp_mbind, wp_modify. by apply Hw.
Qed.

Lemma umount_helper_spec own st l force :
  linv own st -> l ∈ own -> l ∈ layers_list st ->
  wp (umount_helper E l force) (fun z st' => linv own st' /\
    (z = 0 /\ (recount l (if force then 0 else Z.max 0 (count st l - 1)) st st' \/ st' = st /\ count st l = 0) \/
     z = -1 /\ st' = st /\ le_umount E = false)) st.
Proof.
  intros Hi Hl Hlist. pose proof Hi as (Hr & Hx & Hm). destruct (owned_live own st l Hr Hl) as (x & s & Hx1 & Hs).
  assert (0 <= count st l) as Hpos by apply (mk_count _ Hm).
  unfold umount_helper. apply wp_mbind. eapply wp_get_layer; [done|].
  assert (count st l = count_of x) as Hc by (unfold count; by rewrite Hx1). unfold count_of in Hc.
  destruct (smount_point x) as [m|] eqn:Hm1; [|apply wp_mret; split; [done|left; split; [done|by right]]].
  assert (forall path n mounted', 0 <= n -> n = (if force then 0 else Z.max 0 (count st l - 1)) ->
    mounted' = (if decide (0 < n) then {[sl_id s]} ∪ ls_mounted st else ls_mounted st ∖ {[sl_id s]}) ->
    wp (set_mount_point l (MountPoint path n);; _ ← save_mount_point E l; mret 0) (fun z st' => linv own st' /\
      (z = 0 /\ (recount l (if force then 0 else Z.max 0 (count st l - 1)) st st' \/ st' = st /\ count st l = 0) \/
       z = -1 /\ st' = st /\ le_umount E = false)) (set_driver (ls_driver st) mounted' st)) as Hw.
  { intros path n mounted' Hn0 Hn Hmt. pose proof (recount_spec E own st l x s path n _ Hr Hl Hx1 Hs Hmt) as Hrs.
    apply wp_bind_inv in Hrs. apply wp_mbind. eapply wp_conseq; [exact Hrs|]. intros u st2 Hst2. apply wp_mbind.
    eapply wp_conseq; [exact Hst2|]. intros z st3 [Hr3 Hrc]. apply wp_mret.
    split; [by eapply inv_recount|]. left. split; [done|]. left. by rewrite <-Hn. }
  destruct (negb force && (mp_count m >? 1)) eqn:Hpart.
  - apply andb_true_iff in Hpart as [Hf Hgt]. destruct force; [done|].
    pose proof (Hw (mp_path m) (mp_count m - 1) (ls_mounted st)) as Hw'. rewrite set_driver_same in Hw'. apply Hw'; [lia|lia|]. rewrite decide_True by lia. by eapply mounted_same; [| | | |unfold count_of; rewrite Hm1; lia].
  - apply wp_mbind. eapply (wp_get_slayer _ _ s); [unfold sl; by rewrite Hx1|]. apply wp_mbind.
    unfold graphdriver_umount_layer. destruct (le_umount E) eqn:Hu; [|apply wp_mret, wp_mret; split; [done|by right]].
    apply wp_mbind, wp_modify, wp_mret. change (negb (0 =? 0)) with false. cbn [negb].
    apply Hw; [lia| |by rewrite decide_False by lia].
    destruct force; [done|]. cbn [negb andb] in Hpart. lia.
Qed.

(** Only the number of holds of [l] changes. *)
Definition rehold l (n : Z) st st' : Prop :=
  exists x, ls_layers st !! l = Some x /\
    st' = set_layers (<[l := Layer (l_refcnt x) n (slayer x) (smount_point x) (has_mount_json x)]> (ls_layers st)) st.

Lemma rehold_reads l n st st' : rehold l n st st' ->
  forall q, skey st' q = skey st q /\ count st' q = count st q /\ hold st' q = if decide (q = l) then n else hold st q.
Proof.
  intros (x & Hx & ->) q. unfold skey, sl, count, hold. cbn. destruct (decide (q = l)) as [->|Hne].
  - by rewrite lookup_insert_eq, Hx.
  - by rewrite lookup_insert_ne.
Qed.

Lemma inv_rehold own l n st st' : linv own st -> rehold l n st st' -> linv own st'.
Proof.
  intros (Hr & Hx & [M1 M2]) Hh. pose proof (rehold_reads _ _ _ _ Hh) as Hq. destruct Hh as (x & Hl & ->).
  split_and!.
  - eapply lrefs_set_layer; [done..|]. pose proof (lr_refs _ _ Hr l) as H. rewrite Hl in H. naive_solver.
  - eapply index_keys; [done..|]. intros p _. apply Hq.
  - split.
    + intros i. cbn. rewrite M1. split; intros (p & Hp & Hi & Hc); exists p;
        destruct (Hq p) as (K & C & _); rewrite (skey_id _ _ _ K), C in *; done.
    + intros p. destruct (Hq p) as (_ & -> & _). apply M2.
Qed.

Lemma change_hold_spec own st l k :
  linv own st -> lrefs st own l <> 0%nat -> - 2 ^ 31 <= hold st l + k < 2 ^ 31 ->
  wp (change_hold_refs l k) (fun _ st' => linv own st' /\ rehold l (hold st l + k) st st') st.
Proof.
  intros Hi Hl Hb. pose proof Hi as (Hr & _). destruct (lrefs_live own st l Hr Hl) as (x & s & Hx & _).
  assert (hold st l = hold_refs_num x) as Hh by (unfold hold; by rewrite Hx).
  unfold change_hold_refs. apply wp_mbind. eapply wp_get_layer; [done|]. apply wp_mbind.
  eapply wp_lift; [apply int_add_ok; by rewrite <-Hh|]. eapply wp_set_layer; [done|].
  assert (rehold l (hold st l + k) st (set_layers (<[l := Layer (l_refcnt x) (hold_refs_num x + k) (slayer x)
    (smount_point x) (has_mount_json x)]> (ls_layers st)) st)) as H by (exists x; by rewrite Hh).
  split; [by eapply inv_rehold|done].
Qed.

(** ** Removing *)

Lemma remove_first_app_ne i a b : i ∉ a -> remove_first i (a ++ b) = a ++ remove_first i b.
Proof.
  induction a as [|j a IH]; cbn; [done|]. intros [Hj Ha]%not_elem_of_cons. rewrite decide_False by done. by rewrite IH.
Qed.

(** The layers with a digest after one has left the list. *)
Lemma ids_with_split (f : storage_layer -> option cstr) st st' l (s : storage_layer) (l1 l2 : list N) (dg : cstr) :
  layers_list st = l1 ++ l :: l2 -> layers_list st' = l1 ++ l2 -> sl st l = Some s ->
  (forall q, q ∈ l1 ++ l2 -> sl st' q = sl st q) ->
  (forall q, q ∈ l1 -> sl_id <$> sl st q <> Some (sl_id s)) ->
  ids_with f st' dg = if decide (f s = Some dg) then remove_first (sl_id s) (ids_with f st dg) else ids_with f st dg.
Proof.
  intros El El' Hs Hq Hid. unfold ids_with. rewrite El, El'.
  assert (forall ps : list N, (forall q, q ∈ ps -> sl st' q = sl st q) -> omap (id_with f st' dg) ps = omap (id_with f st dg) ps) as Hg.
  { induction ps as [|q ps IH]; intros H; [done|]. cbn.
    assert (id_with f st' dg q = id_with f st dg q) as -> by (unfold id_with; rewrite (H q); [done|by left]).
    rewrite IH; [done|]. intros q' Hq'. apply H. by right. }
  rewrite Hg by done. rewrite !omap_app.
  assert (id_with f st dg l = if decide (f s = Some dg) then Some (sl_id s) else None) as Hl by (unfold id_with; by rewrite Hs).
  cbn [omap list_omap]. rewrite Hl. case_decide as Hd; [|done]. rewrite remove_first_app_ne; [cbn; by rewrite decide_True|].
  intros (q & Hq1 & Hq2)%list_elem_of_omap. apply (Hid q Hq1). unfold id_with in Hq2.
  destruct (sl st q) as [s'|]; [|done]. cbn in *. case_decide; congruence.
Qed.

(** [st'] is [st] without the layer [l], described by [s]. *)
Record removed l (s : storage_layer) st st' : Prop := {
  rm_list : layers_list st' = filter (fun q => q <> l) (layers_list st);
  rm_by_id : mo_abs (by_id st') = delete (sl_id s) (mo_abs (by_id st));
  rm_by_name n : mo_abs (by_name st') !! n = if decide (n ∈ sl_names s) then None else mo_abs (by_name st) !! n;
  rm_layer q : q <> l -> ls_layers st' !! q = ls_layers st !! q;
  rm_dirs : ls_dirs st' = ls_dirs st;
  rm_mjson : ls_mjson st' = ls_mjson st;
  rm_driver : ls_driver st' = ls_driver st;
  rm_mounted : ls_mounted st' = ls_mounted st
}.

Lemma filter_without (l1 l2 : list N) p :
  NoDup (l1 ++ p :: l2) -> filter (fun q => q <> p) (l1 ++ p :: l2) = l1 ++ l2.
Proof.
  intros (Hn1 & Hd & [Hp Hn2]%NoDup_cons)%NoDup_app. rewrite filter_app, filter_cons, decide_False by naive_solver.
  assert (forall l : list N, p ∉ l -> filter (fun q => q <> p) l = l) as Hf.
  { intros l Hl. induction l as [|q l IH]; [done|]. rewrite filter_cons, decide_True by set_solver. f_equal. apply IH. set_solver. }
  rewrite !Hf; [done|done|]. intros H. apply (Hd p H), elem_of_cons. by left.
Qed.

Lemma remove_layer_names_spec names st :
  mo_wf (by_name st) ->
  wp (remove_layer_names names) (fun _ st' => exists m, st' = set_by_name m st /\ mo_wf m /\
    forall n, mo_abs m !! n = if decide (n ∈ names) then None else mo_abs (by_name st) !! n) st.
Proof.
  revert st. induction names as [|n names IH]; intros st Hw; cbn.
  { apply wp_mret. exists (by_name st). split_and!; [by destruct st|done..]. }
  apply wp_mbind, wp_modify. destruct (mo_remove_abs n (by_name st) Hw) as [Hm _].
  eapply wp_conseq; [apply IH; cbn; by apply mo_wf_remove|]. intros _ st' (m & -> & Hmw & Hn).
  exists m. split_and!; [done..|]. intros n'. rewrite Hn. cbn. rewrite Hm. destruct (decide (n' = n)) as [->|Hne].
  - rewrite lookup_delete_eq. by repeat case_decide; set_solver.
  - rewrite lookup_delete_ne by done. by repeat case_decide; set_solver.
Qed.

Lemma unlist_layer_spec id l (s : storage_layer) (a1 a2 before : list N) st (Q : unit -> layer_store -> Prop) :
  (forall q, q ∈ a1 -> exists s', sl st q = Some s' /\ sl_id s' <> id) ->
  sl st l = Some s -> sl_id s = id ->
  wp (delete_g_layer_list_item (before ++ a1) l a2) Q st ->
  wp (unlist_layer id before (a1 ++ l :: a2)) Q st.
Proof.
  intros Ha Hs Hid. revert before. induction a1 as [|q a1 IH]; intros before HQ; cbn.
  - apply wp_mbind. eapply wp_get_slayer; [done|]. rewrite decide_True by done. by rewrite app_nil_r in HQ.
  - destruct (Ha q) as (s' & Hs' & Hne); [by left|]. apply wp_mbind. eapply wp_get_slayer; [done|].
    rewrite decide_False by done. apply IH; [|by rewrite <-app_assoc]. intros q' Hq'. apply Ha. by right.
Qed.

(** The reference of the list goes to the call. *)
Lemma lrefs_unlist own st (l1 l2 : list N) l n :
  lrefs_ok own st -> layers_list st = l1 ++ l :: l2 -> (length own < 8)%nat ->
  lrefs_ok (l :: own) (set_layers_list (l1 ++ l2) n st).
Proof.
  intros Hr El Hlen. pose proof (lr_nodup _ _ Hr) as Hnd. rewrite El in Hnd.
  apply NoDup_app in Hnd as (Hn1 & Hd & [Hp Hn2]%NoDup_cons).
  assert (forall q, lrefs (set_layers_list (l1 ++ l2) n st) (l :: own) q = lrefs st own q) as Er.
  { intros q. rewrite lrefs_cons. unfold lrefs. cbn. rewrite El. destruct (decide (q = l)) as [->|Hne].
    - rewrite (decide_True (P := l ∈ l1 ++ l :: l2)) by set_solver. rewrite decide_False by set_solver. lia.
    - destruct (decide (q ∈ l1 ++ l2)), (decide (q ∈ l1 ++ l :: l2)); try lia; set_solver. }
  split; cbn.
  - apply NoDup_app. split_and!; [done| |done]. intros q Hq1 Hq2. by apply (Hd q Hq1), elem_of_cons; right.
  - rewrite Er. apply Hr.
  - intros q. rewrite Er. apply (lr_refs _ _ Hr q).
  - lia.
Qed.

Lemma delete_item_spec own st (l1 l2 : list N) l :
  lrefs_ok own st -> layers_list st = l1 ++ l :: l2 -> (length own < 8)%nat ->
  wp (delete_g_layer_list_item l1 l l2) (fun _ st' => lrefs_ok own st' /\
    st' = set_layers_list (l1 ++ l2) (wrap_u 64 (layers_list_len st - 1)) (set_layers (ls_layers st') st) /\
    (forall q, q <> l -> ls_layers st' !! q = ls_layers st !! q) /\
    (is_Some (ls_layers st' !! l) -> is_Some (ls_layers st !! l) /\ count st' l = count st l)) st.
Proof.
  intros Hr El Hlen. unfold delete_g_layer_list_item. apply wp_mbind, wp_modify, wp_mbind.
  eapply wp_conseq; [by apply (layer_ref_dec_spec own), lrefs_unlist|]. intros ? st1 (Hr1 & Hl1 & Hq1 & Heq1 & _).
  apply wp_modify. split_and!.
  - destruct Hr1 as [A B C D]. split; [exact A|exact B|exact C|exact D].
  - cbn. rewrite Heq1. done.
  - intros q Hq. cbn. by apply Hq1.
  - intros Hs. by destruct (lc_layer _ _ Hl1 l Hs) as (? & _ & ? & _).
Qed.

Lemma listed_split own st l s : linv own st -> l ∈ layers_list st -> sl st l = Some s ->
  exists l1 l2, layers_list st = l1 ++ l :: l2 /\ NoDup (l1 ++ l :: l2) /\
    (forall q, q ∈ l1 ++ l2 -> q ∈ layers_list st /\ q <> l /\ sl_id <$> sl st q <> Some (sl_id s)).
Proof.
  intros Hi Hl Hs. pose proof Hi as (Hr & _). apply list_elem_of_split in Hl as Hsp. destruct Hsp as (l1 & l2 & El).
  pose proof (lr_nodup _ _ Hr) as Hnd. rewrite El in Hnd. exists l1, l2. split; [done|]. split; [done|].
  intros q Hq. assert (q <> l) as Hne.
  { intros ->. apply NoDup_app in Hnd as (_ & Hd & [Hp _]%NoDup_cons). apply elem_of_app in Hq as [Hq|Hq]; [|done].
    apply (Hd l Hq), elem_of_cons. by left. }
  assert (q ∈ layers_list st) as Hql by (rewrite El; set_solver). split_and!; [done..|].
  intros Hid. apply Hne. eapply (listed_id own st); [exact Hi|done|done|exact Hid|by rewrite Hs].
Qed.

Lemma inv_layer_removed own st st' l s :
  linv own st -> l ∈ layers_list st -> sl st l = Some s -> count st l = 0 ->
  lrefs_ok own st' -> removed l s st st' -> mo_wf (by_id st') -> mo_wf (by_name st') ->
  di_ok (by_compress_digest st') -> di_ok (by_uncompress_digest st') ->
  (forall dg, dlist (by_compress_digest st') dg = if decide (sl_compressed_diff_digest s = Some dg)
     then remove_first (sl_id s) (dlist (by_compress_digest st) dg) else dlist (by_compress_digest st) dg) ->
  (forall dg, dlist (by_uncompress_digest st') dg = if decide (sl_diff_digest s = Some dg)
     then remove_first (sl_id s) (dlist (by_uncompress_digest st) dg) else dlist (by_uncompress_digest st) dg) ->
  layers_list_len st' = wrap_u 64 (layers_list_len st - 1) -> 0 <= count st' l -> linv own st'.
Proof.
  intros Hi Hl Hs Hc Hr' [R1 R2 R3 R4 R5 R6 R7 R8] W1 W2 W3 W4 D1 D2 Hlen Hc'. pose proof Hi as (Hr & Hx & [M1 M2]).
  destruct (listed_split own st l s Hi Hl Hs) as (l1 & l2 & El & Hnd & Hot).
  assert (layers_list st' = l1 ++ l2) as El' by (by rewrite R1, El, filter_without).
  assert (forall q, q ∈ layers_list st' <-> q ∈ layers_list st /\ q <> l) as Hin.
  { intros q. rewrite R1, list_elem_of_filter. tauto. }
  assert (forall q, q <> l -> sl st' q = sl st q /\ count st' q = count st q) as Hq.
  { intros q Hne. unfold sl, count. by rewrite R4. }
  assert (forall q, q <> l -> names_at st' q = names_at st q) as Hnm by (intros q Hne; unfold names_at; by rewrite (proj1 (Hq q Hne))).
  assert (forall f dg, ids_with f st' dg = if decide (f s = Some dg) then remove_first (sl_id s) (ids_with f st dg) else ids_with f st dg) as Hids.
  { intros f dg. eapply ids_with_split; [done..| |].
    - intros q Hq1. apply Hq. by apply Hot.
    - intros q Hq1. apply Hot. apply elem_of_app. by left. }
  split_and!; [done| |].
  - split; try done.
    + intros i q. rewrite R2, lookup_delete_Some, (lx_id _ Hx), Hin. split.
      * intros (Hne & Hql & Hid). assert (q <> l) by (intros ->; rewrite Hs in Hid; cbn in Hid; congruence).
        rewrite (proj1 (Hq q ltac:(done))). naive_solver.
      * intros ((Hql & Hne) & Hid). rewrite (proj1 (Hq q Hne)) in Hid. split_and!; [|done..].
        intros Heq. eapply Hne, (listed_id own st); [exact Hi|done|exact Hl|exact Hid|]. rewrite Hs. cbn. congruence.
    + intros n q. rewrite R3, Hin. assert (names_at st l = sl_names s) as Hnl by (unfold names_at; by rewrite Hs). split.
      * case_decide as Hns; [done|]. intros [Hql Hqn]%(lx_name _ Hx).
        assert (q <> l) by (intros ->; by rewrite Hnl in Hqn). by rewrite Hnm.
      * intros ((Hql & Hne) & Hqn). rewrite Hnm in Hqn by done.
        assert (mo_abs (by_name st) !! n = Some q) as Hq1 by by apply (lx_name _ Hx). case_decide as Hns; [|done].
        assert (mo_abs (by_name st) !! n = Some l) by (apply (lx_name _ Hx); by rewrite Hnl). congruence.
    + intros q [Hql Hne]%Hin. rewrite Hnm by done. by apply (lx_nodup _ Hx).
    + intros dg. by rewrite D1, Hids, (lx_compress _ Hx).
    + intros dg. by rewrite D2, Hids, (lx_uncompress _ Hx).
    + rewrite Hlen, (lx_len _ Hx), El, El'. unfold wrap_u. rewrite Zminus_mod_idemp_l. f_equal.
      rewrite !length_app. cbn. lia.
  - split.
    + intros i. rewrite R8, M1. split.
      * intros (q & Hql & Hid & Hcq). assert (q <> l) as Hne by (intros ->; lia). exists q.
        destruct (Hq q Hne) as [-> ->]. by rewrite Hin.
      * intros (q & [Hql Hne]%Hin & Hid & Hcq). destruct (Hq q Hne) as [E1 E2]. rewrite E1, E2 in *. eauto.
    + intros q. destruct (decide (q = l)) as [->|Hne]; [done|rewrite (proj2 (Hq q Hne)); apply M2].
Qed.

Lemma delete_compress_spec o id st :
  di_ok (by_compress_digest st) ->
  wp (delete_compress o id) (fun _ st' => exists d, st' = set_compress d st /\ di_ok d /\
    forall dg, dlist d dg = if decide (o = Some dg) then remove_first id (dlist (by_compress_digest st) dg)
                            else dlist (by_compress_digest st) dg) st.
Proof.
  intros Hd. destruct (delete_digest_ok _ o id Hd) as (d & Hdel & Hd' & Hdl).
  unfold delete_compress. apply wp_mbind, wp_gets, wp_mbind. eapply wp_lift; [done|]. apply wp_modify. by exists d.
Qed.
Lemma delete_uncompress_spec o id st :
  di_ok (by_uncompress_digest st) ->
  wp (delete_uncompress o id) (fun _ st' => exists d, st' = set_uncompress d st /\ di_ok d /\
    forall dg, dlist d dg = if decide (o = Some dg) then remove_first id (dlist (by_uncompress_digest st) dg)
                            else dlist (by_uncompress_digest st) dg) st.
Proof.
  intros Hd. destruct (delete_digest_ok _ o id Hd) as (d & Hdel & Hd' & Hdl).
  unfold delete_uncompress. apply wp_mbind, wp_gets, wp_mbind. eapply wp_lift; [done|]. apply wp_modify. by exists d.
Qed.

(** The same layers are held. *)
Lemma lrefs_same own st st' : lrefs_ok own st -> layers_list st' = layers_list st -> ls_layers st' = ls_layers st -> lrefs_ok own st'.
Proof.
  intros [A B C D] El Ex. assert (forall q, lrefs st' own q = lrefs st own q) as Er by (intros q; unfold lrefs; by rewrite El).
  split; rewrite ?El, ?Er; [done..| |done]. intros q. rewrite Ex, Er. apply C.
Qed.

Lemma remove_memory_stores_spec own st l s :
  linv own st -> (length own < 7)%nat -> l ∈ layers_list st -> sl st l = Some s -> count st l = 0 ->
  wp (remove_memory_stores (sl_id s)) (fun z st' => z = 0 /\ linv own st' /\ removed l s st st') st.
Proof.
  intros Hi Hown Hl Hs Hc. pose proof Hi as (Hr & Hx & Hm).
  assert (resolve st (sl_id s) = Some l) as Hres.
  { unfold resolve. by rewrite (proj2 (lx_id _ Hx (sl_id s) l)) by (split; [done|by rewrite Hs]). }
  unfold remove_memory_stores. apply wp_mbind. eapply wp_conseq; [apply (layer_lookup_spec own); [done|lia]|].
  intros p st1 (Hloc & Heq & Hp). rewrite Hres in Hp. destruct Hp as (-> & Hnn & Hi1 & Hq1). rewrite decide_False by done.
  pose proof Hi1 as (Hr1 & _). destruct (owned_live _ st1 l Hr1) as (x1 & s1 & Hx1 & Hs1); [by left|].
  assert (sl st1 l = Some s1) as Hsl1 by (unfold sl; by rewrite Hx1).
  assert (key s1 = key s) as Hk.
  { destruct (lc_layer _ _ Hloc l) as (_ & K & _); [eauto|]. unfold skey in K. rewrite Hsl1, Hs in K. cbn in K. congruence. }
  unfold key in Hk. injection Hk as Hk1 Hk2 Hk3 Hk4 _.
  apply wp_mbind. eapply wp_get_slayer; [done|]. rewrite Hk1, Hk2, Hk3, Hk4.
  apply wp_mbind. eapply wp_conseq; [apply delete_compress_spec; rewrite Heq; apply Hx|]. intros ? st2 (d1 & -> & Hd1 & Hdl1).
  apply wp_mbind. eapply wp_conseq; [apply delete_uncompress_spec; cbn; rewrite Heq; apply Hx|]. intros ? st3 (d2 & -> & Hd2 & Hdl2).
  apply wp_mbind, wp_modify, wp_mbind.
  eapply wp_conseq; [apply remove_layer_names_spec; cbn; rewrite Heq; apply Hx|]. intros ? st4 (m & -> & Hmw & Hmn).
  cbn in Hdl2, Hmn. apply wp_mbind, wp_gets. cbn [layers_list set_by_name set_by_id set_uncompress set_compress].
  destruct (listed_split own st l s Hi Hl Hs) as (l1 & l2 & El & Hnd & Hot).
  assert (layers_list st1 = l1 ++ l :: l2) as El1 by (by rewrite (lc_list _ _ Hloc)). rewrite El1.
  set (st5 := set_by_name m _). assert (ls_layers st5 = ls_layers st1) as Ex5 by done.
  assert (lrefs_ok (l :: own) st5) as Hr5 by by apply (lrefs_same _ st1).
  apply wp_mbind. apply (unlist_layer_spec _ _ s1); [|done|done|].
  { intros q Hq. destruct (Hot q) as (Hql & Hne & Hid); [apply elem_of_app; by left|].
    destruct (listed_live own st q Hr Hql) as [s' Hs']. exists s'. rewrite Hs' in Hid. cbn in Hid.
    split; [|congruence]. unfold sl, st5. cbn. rewrite Hq1 by done. exact Hs'. }
  eapply wp_conseq; [apply (delete_item_spec (l :: own)); [done|exact El1|cbn; lia]|].
  intros ? st6 (Hr6 & Heq6 & Hq6 & Hc6). apply wp_mbind.
  eapply wp_conseq; [by apply (layer_ref_dec_spec own)|]. intros ? st7 (Hr7 & Hl7 & Hq7 & Heq7 & _). apply wp_mret.
  assert (st7 = set_layers_list (l1 ++ l2) (wrap_u 64 (layers_list_len st - 1)) (set_layers (ls_layers st7)
    (set_by_name m (set_by_id (mo_remove (sl_id s) (by_id st)).2 (set_uncompress d2 (set_compress d1 st)))))) as Est.
  { rewrite Heq7, Heq6. unfold st5. rewrite Heq. done. }
  assert (removed l s st st7) as Hrm.
  { rewrite Est. split; cbn; try done.
    - by rewrite El, filter_without.
    - apply mo_remove_abs, Hx.
    - intros n. rewrite Hmn. by rewrite Heq.
    - intros q Hq. by rewrite Hq7, Hq6, Ex5, Hq1 by done. }
  split; [done|]. split; [|done].
  apply (inv_layer_removed own st st7 l s); try done; try (rewrite Est; cbn; try done).
  - apply mo_wf_remove, Hx.
  - intros dg. by rewrite Hdl1, Heq.
  - intros dg. by rewrite Hdl2, Heq.
  - rewrite <-Est. destruct (ls_layers st7 !! l) as [x|] eqn:Hx7; [|rewrite (proj1 (count_dead _ _ Hx7)); lia].
    destruct (lc_layer _ _ Hl7 l) as (H6 & _ & -> & _); [eauto|]. destruct (Hc6 H6) as [H5 ->].
    change (count st5 l) with (count st1 l). destruct (lc_layer _ _ Hloc l) as (_ & _ & -> & _); [done|lia].
Qed.

(** ** Inserting *)

(** Memory is found and new objects get addresses of their own. *)
Record env_ok : Prop := {
  eo_node : le_node E = true;
  eo_map : le_map E = true;
  eo_digest : le_digest E = true;
  eo_fresh_layer g : g !! le_fresh_layer E g = None /\ le_fresh_layer E g <> NULL;
  eo_fresh_obj g : g !! le_fresh_obj E g = None
}.
Context (HE : env_ok).

Lemma insert_layer_names_spec names l done_ st :
  mo_wf (by_name st) -> NoDup names -> (forall n, n ∈ names -> mo_abs (by_name st) !! n = None) ->
  wp (insert_layer_names E names l done_) (fun r st' => r = (true, done_ ++ names) /\ exists m, st' = set_by_name m st /\
    mo_wf m /\ forall n, mo_abs m !! n = if decide (n ∈ names) then Some l else mo_abs (by_name st) !! n) st.
Proof.
  revert done_ st. induction names as [|n names IH]; intros done_ st Hw Hnd Hfree; cbn.
  { apply wp_mret. rewrite app_nil_r. split; [done|]. exists (by_name st). by destruct st. }
  apply NoDup_cons in Hnd as [Hn Hnd]. apply wp_mbind, wp_gets. rewrite (eo_map HE).
  destruct (mo_insert_fresh n l (by_name st) Hw) as [Hok Hm]; [apply Hfree; by left|].
  pose proof (mo_wf_insert true n l _ Hw) as Hmw. destruct (mo_insert true n l (by_name st)) as [ok m]. cbn in *. subst ok.
  apply wp_mbind, wp_modify. cbn [negb]. eapply wp_conseq; [apply IH; [done|done|]|].
  { intros n' Hn'. cbn. rewrite Hm, lookup_insert_ne by (by intros ->). apply Hfree. by right. }
  intros r st' (-> & m' & -> & Hm'w & Hm'). rewrite <-app_assoc. split; [done|]. exists m'. split_and!; [done..|].
  intros n'. rewrite Hm'. cbn. rewrite Hm. destruct (decide (n' = n)) as [->|Hne].
  - rewrite lookup_insert_eq. by repeat case_decide; set_solver.
  - rewrite lookup_insert_ne by done. by repeat case_decide; set_solver.
Qed.

Lemma insert_compress_spec o id st :
  di_ok (by_compress_digest st) ->
  wp (insert_compress E o id) (fun z st' => z = 0 /\ exists d, st' = set_compress d st /\ di_ok d /\
    forall dg, dlist d dg = dlist (by_compress_digest st) dg ++ (if decide (o = Some dg) then [id] else [])) st.
Proof.
  intros Hd. destruct o as [dg|]; cbn [insert_compress].
  - destruct (insert_digest_ok E (eo_fresh_obj HE) _ dg id Hd) as (z & d & Hins & Hd' & Hz & Hdl).
    destruct Hz as [->|[_ Hz]]; [|by rewrite (eo_node HE), (eo_digest HE), (eo_map HE) in Hz].
    apply wp_mbind, wp_gets, wp_mbind. eapply wp_lift; [exact Hins|]. apply wp_mbind, wp_modify, wp_mret.
    split; [done|]. exists d. split_and!; [done..|]. intros dg'. rewrite Hdl. repeat case_decide; rewrite ?app_nil_r; naive_solver.
  - apply wp_mret. split; [done|]. exists (by_compress_digest st). split_and!; [by destruct st|done|]. intros dg. by rewrite app_nil_r.
Qed.
Lemma insert_uncompress_spec o id st :
  di_ok (by_uncompress_digest st) ->
  wp (insert_uncompress E o id) (fun z st' => z = 0 /\ exists d, st' = set_uncompress d st /\ di_ok d /\
    forall dg, dlist d dg = dlist (by_uncompress_digest st) dg ++ (if decide (o = Some dg) then [id] else [])) st.
Proof.
  intros Hd. destruct o as [dg|]; cbn [insert_uncompress].
  - destruct (insert_digest_ok E (eo_fresh_obj HE) _ dg id Hd) as (z & d & Hins & Hd' & Hz & Hdl).
    destruct Hz as [->|[_ Hz]]; [|by rewrite (eo_node HE), (eo_digest HE), (eo_map HE) in Hz].
    apply wp_mbind, wp_gets, wp_mbind. eapply wp_lift; [exact Hins|]. apply wp_mbind, wp_modify, wp_mret.
    split; [done|]. exists d. split_and!; [done..|]. intros dg'. rewrite Hdl. repeat case_decide; rewrite ?app_nil_r; naive_solver.
  - apply wp_mret. split; [done|]. exists (by_uncompress_digest st). split_and!; [by destruct st|done|]. intros dg. by rewrite app_nil_r.
Qed.

(** [st'] is [st] with the new layer [l], described by [s]. *)
Record added l (s : storage_layer) st st' : Prop := {
  ad_fresh : ls_layers st !! l = None;
  ad_list : layers_list st' = layers_list st ++ [l];
  ad_by_id : mo_abs (by_id st') = <[sl_id s := l]> (mo_abs (by_id st));
  ad_by_name n : mo_abs (by_name st') !! n = if decide (n ∈ sl_names s) then Some l else mo_abs (by_name st) !! n;
  ad_layers : ls_layers st' = <[l := Layer 1 0 (Some s) None false]> (ls_layers st);
  ad_driver : ls_driver st' = ls_driver st;
  ad_mounted : ls_mounted st' = ls_mounted st
}.

(** The layer is allocated but not in the store. *)
Definition with_layer l (x : layer_t) st : layer_store := set_layers (<[l := x]> (ls_layers st)) st.

Lemma insert_memory_stores_spec l (s : storage_layer) opts st own :
  linv own st -> ls_layers st !! l = None -> l <> NULL -> lo_names opts = sl_names s ->
  mo_abs (by_id st) !! sl_id s = None -> NoDup (sl_names s) -> (forall n, n ∈ sl_names s -> mo_abs (by_name st) !! n = None) ->
  wp (insert_memory_stores E (sl_id s) opts l) (fun z st' => z = 0 /\ added l s st st' /\
    mo_wf (by_id st') /\ mo_wf (by_name st') /\ di_ok (by_compress_digest st') /\ di_ok (by_uncompress_digest st') /\
    (forall dg, dlist (by_compress_digest st') dg =
       dlist (by_compress_digest st) dg ++ (if decide (sl_compressed_diff_digest s = Some dg) then [sl_id s] else [])) /\
    (forall dg, dlist (by_uncompress_digest st') dg =
       dlist (by_uncompress_digest st) dg ++ (if decide (sl_diff_digest s = Some dg) then [sl_id s] else [])) /\
    layers_list_len st' = wrap_u 64 (layers_list_len st + 1) /\ ls_dirs st' = ls_dirs st)
    (with_layer l (Layer 1 0 (Some s) None false) st).
Proof.
  intros (Hr & Hx & Hm) Hl Hnn Hon Hid Hnd Hfree. unfold insert_memory_stores, append_layer_into_list.
  rewrite decide_False, (eo_node HE) by done. cbn [negb]. apply wp_mbind, wp_mbind, wp_modify, wp_mret. cbn [negb].
  apply wp_mbind, wp_gets. cbn [by_id set_layers_list with_layer set_layers]. rewrite (eo_map HE).
  destruct (mo_insert_fresh (sl_id s) l (by_id st) (lx_id_wf _ Hx) Hid) as [Hok Hmi].
  pose proof (mo_wf_insert true (sl_id s) l _ (lx_id_wf _ Hx)) as Hmiw.
  destruct (mo_insert true (sl_id s) l (by_id st)) as [ok mi]. cbn [fst snd] in *. subst ok.
  apply wp_mbind, wp_modify. cbn [negb]. apply wp_mbind. rewrite Hon.
  eapply wp_conseq; [apply insert_layer_names_spec; [apply Hx|done|done]|]. intros r st1 (-> & mn & -> & Hmnw & Hmn).
  cbn [fst negb]. apply wp_mbind.
  eapply (wp_get_slayer _ _ s); [unfold sl; cbn; by rewrite lookup_insert_eq|].
  apply wp_mbind. eapply wp_conseq; [apply insert_compress_spec; apply Hx|]. intros z st2 (-> & d1 & -> & Hd1 & Hdl1).
  change (negb (0 =? 0)) with false. cbn [negb]. apply wp_mbind.
  eapply wp_conseq; [apply insert_uncompress_spec; apply Hx|]. intros z st3 (-> & d2 & -> & Hd2 & Hdl2).
  change (negb (0 =? 0)) with false. cbn [negb]. apply wp_mret. split; [done|]. split; [by split|]. by split_and!.
Qed.

Lemma sl_added l s st st' q : added l s st st' -> sl st' q = if decide (q = l) then Some s else sl st q.
Proof.
  intros H. unfold sl. rewrite (ad_layers _ _ _ _ H). case_decide; [subst; by rewrite lookup_insert_eq|].
  by rewrite lookup_insert_ne.
Qed.
Lemma count_added l s st st' q : added l s st st' -> count st' q = count st q /\ hold st' q = hold st q.
Proof.
  intros H. unfold count, hold. rewrite (ad_layers _ _ _ _ H). destruct (decide (q = l)) as [->|].
  - rewrite lookup_insert_eq. by rewrite (ad_fresh _ _ _ _ H).
  - by rewrite lookup_insert_ne.
Qed.
Lemma fresh_unlisted own st l : lrefs_ok own st -> ls_layers st !! l = None -> l ∉ layers_list st /\ l ∉ own.
Proof.
  intros Hr Hl. pose proof (lr_refs _ _ Hr l) as H. rewrite Hl in H.
  split; intros Hin; [by apply (lrefs_listed own) in Hin|by apply (lrefs_owned own st) in Hin].
Qed.

Lemma lrefs_added own st st' l s : lrefs_ok own st -> l <> NULL -> added l s st st' -> lrefs_ok own st'.
Proof.
  intros Hr Hnn Ha. destruct (fresh_unlisted _ _ _ Hr (ad_fresh _ _ _ _ Ha)) as [Hnl Hno].
  assert (forall q, lrefs st' own q = if decide (q = l) then 1%nat else lrefs st own q) as Er.
  { intros q. unfold lrefs. rewrite (ad_list _ _ _ _ Ha). case_decide as Hq; destruct (decide (q = l)) as [->|Hne].
    - by rewrite occ_zero.
    - rewrite decide_True; [done|]. set_solver.
    - set_solver.
    - rewrite decide_False; [done|]. set_solver. }
  split.
  - rewrite (ad_list _ _ _ _ Ha). apply NoDup_app. split_and!; [apply Hr|set_solver|apply NoDup_singleton].
  - rewrite Er, decide_False by done. apply Hr.
  - intros q. rewrite Er, (ad_layers _ _ _ _ Ha). destruct (decide (q = l)) as [->|Hne].
    + rewrite lookup_insert_eq. cbn. eauto.
    + rewrite lookup_insert_ne by done. apply Hr.
  - apply Hr.
Qed.

Lemma ids_with_added own f l s st st' dg : lrefs_ok own st -> added l s st st' ->
  ids_with f st' dg = ids_with f st dg ++ (if decide (f s = Some dg) then [sl_id s] else []).
Proof.
  intros Hr Ha. destruct (fresh_unlisted _ _ _ Hr (ad_fresh _ _ _ _ Ha)) as [Hnl _].
  unfold ids_with. rewrite (ad_list _ _ _ _ Ha), omap_app. f_equal.
  - clear - Ha Hnl. induction (layers_list st) as [|q ps IH]; [done|]. apply not_elem_of_cons in Hnl as [Hne Hnl].
    cbn. rewrite IH by done. unfold id_with. by rewrite (sl_added _ _ _ _ q Ha), decide_False by done.
  - cbn. unfold id_with. rewrite (sl_added _ _ _ _ l Ha), decide_True by done. cbn. by case_decide.
Qed.

Lemma inv_layer_added own st st' l s :
  linv own st -> l <> NULL -> added l s st st' -> mo_abs (by_id st) !! sl_id s = None -> NoDup (sl_names s) ->
  (forall n, n ∈ sl_names s -> mo_abs (by_name st) !! n = None) ->
  mo_wf (by_id st') -> mo_wf (by_name st') -> di_ok (by_compress_digest st') -> di_ok (by_uncompress_digest st') ->
  (forall dg, dlist (by_compress_digest st') dg =
     dlist (by_compress_digest st) dg ++ (if decide (sl_compressed_diff_digest s = Some dg) then [sl_id s] else [])) ->
  (forall dg, dlist (by_uncompress_digest st') dg =
     dlist (by_uncompress_digest st) dg ++ (if decide (sl_diff_digest s = Some dg) then [sl_id s] else [])) ->
  layers_list_len st' = wrap_u 64 (layers_list_len st + 1) -> linv own st'.
Proof.
  intros Hi Hnn Ha Hid Hnd Hfree W1 W2 W3 W4 D1 D2 Hlen. pose proof Hi as (Hr & Hx & [M1 M2]).
  destruct (fresh_unlisted _ _ _ Hr (ad_fresh _ _ _ _ Ha)) as [Hnl _].
  assert (forall q, q ∈ layers_list st' <-> q ∈ layers_list st \/ q = l) as Hin.
  { intros q. rewrite (ad_list _ _ _ _ Ha). set_solver. }
  pose proof (fun q => sl_added _ _ _ _ q Ha) as Hsl.
  assert (forall q, q ∈ layers_list st -> q <> l) as Hne by (intros q Hq ->; done).
  split_and!; [by eapply lrefs_added| |].
  - split; try done.
    + intros i q. rewrite (ad_by_id _ _ _ _ Ha), lookup_insert_Some, (lx_id _ Hx), Hin, Hsl. split.
      * intros [[<- <-]|(Hi' & Hq & Hs)]; [by rewrite decide_True by done; split; [right|]|].
        rewrite decide_False by auto. auto.
      * intros [[Hq| ->] Hs]; [rewrite decide_False in Hs by auto; right|rewrite decide_True in Hs by done; left; split; [by injection Hs|done]].
        split_and!; [|done..]. intros <-. assert (mo_abs (by_id st) !! sl_id s = Some q) by by apply (lx_id _ Hx). congruence.
    + intros n q. rewrite (ad_by_name _ _ _ _ Ha), Hin. unfold names_at. rewrite Hsl. split.
      * case_decide as Hn; [intros [= <-]; rewrite decide_True by done; auto|]. intros [Hq Hqn]%(lx_name _ Hx).
        rewrite decide_False by auto. auto.
      * intros [[Hq| ->] Hqn]; [rewrite decide_False in Hqn by auto|rewrite decide_True in Hqn by done; by rewrite decide_True].
        assert (mo_abs (by_name st) !! n = Some q) by by apply (lx_name _ Hx). case_decide as Hn; [|done].
        rewrite Hfree in * by done. done.
    + intros q. rewrite Hin. unfold names_at. rewrite Hsl. intros [Hq| ->]; [|by rewrite decide_True].
      rewrite decide_False by auto. by apply (lx_nodup _ Hx).
    + intros dg. by rewrite D1, (ids_with_added own _ _ _ _ _ _ Hr Ha), (lx_compress _ Hx).
    + intros dg. by rewrite D2, (ids_with_added own _ _ _ _ _ _ Hr Ha), (lx_uncompress _ Hx).
    + rewrite Hlen, (lx_len _ Hx), (ad_list _ _ _ _ Ha). unfold wrap_u. rewrite Zplus_mod_idemp_l. f_equal.
      rewrite length_app. cbn. lia.
  - split; [|intros q; rewrite (proj1 (count_added _ _ _ _ q Ha)); apply M2].
    intros i. rewrite (ad_mounted _ _ _ _ Ha), M1. split.
    + intros (q & Hq & Hs & Hc). exists q. rewrite Hin, Hsl, (proj1 (count_added _ _ _ _ q Ha)), decide_False by auto. auto.
    + intros (q & Hq & Hs & Hc). rewrite Hin, Hsl, (proj1 (count_added _ _ _ _ q Ha)) in *.
      destruct Hq as [Hq| ->]; [rewrite decide_False in Hs by auto; eauto|].
      rewrite (proj1 (count_dead _ _ (ad_fresh _ _ _ _ Ha))) in Hc. lia.
Qed.

(** ** Creating *)

Definition described (id : cstr) (opts : layer_opts) : storage_layer :=
  SLayer id (lo_parent opts) (lo_mount_label opts) (lo_names opts) (lo_uncompressed_digest opts)
    (lo_compressed_digest opts) 0 false.

Lemma inv_outside own st st' : outside st st' -> linv own st -> linv own st'.
Proof. intros Ho Hi. eapply inv_local; [by apply outside_local|by eapply outside_refs; [|apply Hi]|done]. Qed.
Lemma outside_dirs dirs st : outside st (set_dirs dirs st).
Proof. destruct st. do 3 eexists. reflexivity. Qed.

(** A layer that nobody else holds is released. *)
Lemma release_spec l x st (Q : unit -> layer_store -> Prop) :
  l <> NULL -> ls_layers st !! l = None -> l_refcnt x = 1 -> Q tt st -> wp (layer_ref_dec l) Q (with_layer l x st).
Proof.
  intros Hnn Hl Hx HQ. unfold layer_ref_dec. rewrite decide_False by done. apply wp_mbind.
  eapply wp_get_layer; [cbn; apply lookup_insert_eq|]. rewrite Hx. cbn. apply wp_mbind.
  eapply wp_set_layer; [cbn; apply lookup_insert_eq|]. unfold free_layer_t. rewrite decide_False by done.
  apply wp_mbind, wp_gets, wp_mbind. cbn. eapply wp_lift; [apply lookup_insert_eq|]. apply wp_modify.
  replace (set_layers _ _) with st; [done|]. destruct st. unfold set_layers. cbn in *.
  by rewrite !delete_insert_eq, delete_id by done.
Qed.

Lemma new_layer_spec own st id opts :
  linv own st -> mo_abs (by_id st) !! id = None -> NoDup (lo_names opts) ->
  (forall n, n ∈ lo_names opts -> mo_abs (by_name st) !! n = None) ->
  wp (new_layer_by_opts E id opts) (fun z st' => linv own st' /\
    (z = 0 /\ (exists l, l <> NULL /\ added l (described id opts) st st' /\ is_Some (ls_dirs st' !! id)) \/
     z <> 0 /\ exists dirs, st' = set_dirs dirs st)) st.
Proof.
  intros Hi Hid Hnd Hfree. unfold new_layer_by_opts, create_empty_layer.
  assert (linv own st /\ exists dirs, st = set_dirs dirs st) as Hsame by (split; [done|exists (ls_dirs st); by destruct st]).
  destruct (le_layer E); cbn [negb].
  2: { apply wp_mbind, wp_mret, wp_mbind. rewrite decide_True by done. apply wp_mret. cbn [Z.eqb negb when].
       apply wp_mbind. unfold layer_ref_dec. rewrite decide_True by done. apply wp_mret, wp_mret. naive_solver. }
  apply wp_mbind, wp_mbind, wp_gets. destruct (eo_fresh_layer HE (ls_layers st)) as [Hl Hnn].
  set (l := le_fresh_layer E (ls_layers st)) in *. apply wp_mbind, wp_modify, wp_mret, wp_mbind. rewrite decide_False by done.
  unfold build_layer_dir. destruct (le_mkdir E); [|apply wp_mbind, wp_mret, wp_mret, wp_mbind; cbn; apply release_spec; [done..|]; apply wp_mret; naive_solver].
  apply wp_mbind, wp_mbind, wp_modify, wp_mret. cbn [negb]. set (dirs := <[id := _]> _).
  pose proof (inv_outside own st _ (outside_dirs dirs st) Hi) as Hi0.
  unfold update_layer_datas. destruct (le_slayer E); cbn [negb].
  - apply wp_mbind, wp_mbind. eapply wp_get_layer; [cbn; apply lookup_insert_eq|]. apply wp_mbind.
    eapply wp_set_layer; [cbn; apply lookup_insert_eq|]. apply wp_mret. change (negb (0 =? 0)) with false. cbn [negb].
    set (st1 := set_layers _ _).
    assert (st1 = with_layer l (Layer 1 0 (Some (described id opts)) None false) (set_dirs dirs st)) as ->.
    { unfold st1, with_layer, set_layers. cbn. by rewrite insert_insert_eq. }
    eapply wp_conseq; [by apply (insert_memory_stores_spec l (described id opts) opts (set_dirs dirs st) own)|].
    intros z st2 (-> & Ha & W1 & W2 & W3 & W4 & D1 & D2 & Hlen & Hd). apply wp_mbind, wp_mret, wp_mret. split.
    + by eapply (inv_layer_added own (set_dirs dirs st) st2 l (described id opts)).
    + left. split; [done|]. exists l. split; [done|]. rewrite Hd. split; [by destruct Ha|]. cbn. unfold dirs. rewrite lookup_insert_eq. eauto.
  - apply wp_mbind, wp_mret. cbn. apply wp_mret, wp_mbind.
    apply (release_spec l _ (set_dirs dirs st)); [done..|]. apply wp_mret. split; [done|]. right. split; [done|]. eauto.
Qed.

Lemma save_layer_saved own st l s : lrefs_ok own st -> l ∈ own -> sl st l = Some s ->
  wp (save_layer E l) (fun z st' => z = 0 -> sl st' l = Some s /\
    exists d, ls_dirs st' !! sl_id s = Some d /\ ld_json d = Some s) st.
Proof.
  intros Hr Hl Hs. unfold save_layer. apply wp_mbind. eapply wp_get_slayer; [done|]. apply wp_mbind, wp_gets.
  destruct (ls_dirs st !! sl_id s); [|by apply wp_mret]. destruct (le_save E s); [|by apply wp_mret].
  apply wp_mbind, wp_modify, wp_mret. intros _. split; [done|]. cbn. rewrite lookup_insert_eq. by eexists.
Qed.

Lemma complete_layer_saved own st l diff : lrefs_ok own st -> l ∈ own ->
  wp (complete_layer E l diff) (fun z st' => z = 0 -> exists s d, sl st' l = Some s /\ sl_incompelte s = false /\
    ls_dirs st' !! sl_id s = Some d /\ ld_json d = Some s) st.
Proof.
  intros Hr Hl. destruct (at_layer_intro own st l Hr Hl) as (s & Hs & Hat). set (c := count st l) in Hat. unfold complete_layer.
  apply wp_mbind. eapply wp_get_slayer; [done|]. apply wp_mbind.
  eapply wp_conseq; [by apply (tame_set_slayer own l (key s) c Hl (put_incompelte true s))|]. intros ? st1 [Hat1 _]. apply wp_mbind.
  eapply wp_conseq; [by apply (tame_save_layer E own l (key s) c Hl)|]. intros z st2 [Hat2 _].
  destruct (negb (z =? 0)); [by apply wp_mret|]. apply wp_mbind.
  eapply wp_conseq; [by apply (tame_apply_diff E own l (key s) c Hl)|]. intros z1 st3 [Hat3 _].
  destruct (Z.eqb_spec z1 0); cbn [negb]; [|by apply wp_mret]. apply wp_mbind.
  eapply wp_conseq; [by apply (tame_update_mount_point E own l (key s) c Hl)|]. intros z2 st4 [Hat4 _].
  destruct (Z.eqb_spec z2 0); cbn [negb]; [|by apply wp_mret].
  destruct (at_layer_read own l _ _ Hl st4 Hat4) as (x4 & s4 & Hx4 & Hs4 & Hk4 & _). apply wp_mbind.
  eapply (wp_get_slayer _ _ s4); [unfold sl; by rewrite Hx4|]. apply wp_mbind.
  eapply wp_conseq; [apply wp_and; [by apply (tame_set_slayer own l (key s) c Hl (put_incompelte false s4))|]|].
  { unfold set_slayer. apply wp_mbind. eapply wp_get_layer; [done|]. eapply wp_set_layer; [done|].
    instantiate (1 := fun _ st' => sl st' l = Some (put_incompelte false s4)). unfold sl. cbn. by rewrite lookup_insert_eq. }
  intros ? st5 [[Hat5 _] Hs5]. eapply wp_conseq; [by apply (save_layer_saved own); [apply Hat5|..]|].
  intros z5 st6 H6 Hz. destruct (H6 Hz) as (Hs6 & d & Hd & Hj). eauto 10.
Qed.

(** What the processes see of the store is as before. *)
Record same_memory st st' : Prop := {
  sm_list : layers_list st' = layers_list st;
  sm_by_id : mo_abs (by_id st') = mo_abs (by_id st);
  sm_by_name n : mo_abs (by_name st') !! n = mo_abs (by_name st) !! n;
  sm_layer q : q ∈ layers_list st -> ls_layers st' !! q = ls_layers st !! q;
  sm_mounted : ls_mounted st' = ls_mounted st
}.

Lemma undo_create_spec id st :
  wp (undo_create E id) (fun _ st' => outside st st' /\ (le_rm E = true -> id ∉ ls_driver st') /\
    (le_rmdir E = true -> ls_dirs st' !! id = None)) st.
Proof.
  unfold undo_create, graphdriver_rm_layer, layer_store_remove_layer. apply wp_mbind. destruct (le_rm E), (le_rmdir E);
    repeat (apply wp_mbind || apply wp_modify || apply wp_mret); (split; [by apply outside_intro|]);
    cbn; rewrite ?lookup_delete_eq; split; intros; try done; set_solver.
Qed.

Lemma bounded_outside k st st' : bounded k st -> outside st st' -> bounded k st'.
Proof. intros Hb (dirs & mjson & drv & ->) p. apply (Hb p). Qed.
Lemma same_outside st st' : outside st st' -> same_memory st st'.
Proof. intros (dirs & mjson & drv & ->). by split. Qed.

(** The new layer [l] of [st'], besides the layers of [st]. *)
Record created (lid : cstr) (opts : layer_opts) l st st' : Prop := {
  cr_new : l ∉ layers_list st;
  cr_list : layers_list st' = layers_list st ++ [l];
  cr_by_id : mo_abs (by_id st') = <[lid := l]> (mo_abs (by_id st));
  cr_by_name n : mo_abs (by_name st') !! n = if decide (n ∈ lo_names opts) then Some l else mo_abs (by_name st) !! n;
  cr_key : skey st' l = Some (key (described lid opts));
  cr_saved : exists s d, sl st' l = Some s /\ sl_incompelte s = false /\ ls_dirs st' !! lid = Some d /\ ld_json d = Some s;
  cr_hold : hold st' l = 1;
  cr_count : count st' l = 0;
  cr_layer q : q ∈ layers_list st -> ls_layers st' !! q = ls_layers st !! q;
  cr_mounted : ls_mounted st' = ls_mounted st
}.

(** The new layer is in the store and held by the call. *)
Record filling (lid : cstr) (opts : layer_opts) l st st' : Prop := {
  fl_inv : linv [l] st';
  fl_new : l ∉ layers_list st;
  fl_list : layers_list st' = layers_list st ++ [l];
  fl_by_id : mo_abs (by_id st') = <[lid := l]> (mo_abs (by_id st));
  fl_by_name n : mo_abs (by_name st') !! n = if decide (n ∈ lo_names opts) then Some l else mo_abs (by_name st) !! n;
  fl_key : skey st' l = Some (key (described lid opts));
  fl_hold : hold st' l = 0;
  fl_count : count st' l = 0;
  fl_layer q : q <> l -> ls_layers st' !! q = ls_layers st !! q;
  fl_mounted : ls_mounted st' = ls_mounted st
}.

Lemma filling_step lid opts l st st2 st4 :
  added l (described lid opts) st st2 -> l ∉ layers_list st -> local st2 st4 -> linv [l] st4 ->
  (forall q, q <> l -> ls_layers st4 !! q = ls_layers st2 !! q) -> filling lid opts l st st4.
Proof.
  intros Ha Hnl Hloc Hi4 Hq4. destruct (lc_layer _ _ Hloc l) as (_ & K & C & H).
  { destruct (owned_live [l] st4 l (proj1 Hi4)) as (x & s & Hx & _); [by left|eauto]. }
  destruct (count_added _ _ _ _ l Ha) as [Hca Hha]. destruct (count_dead _ _ (ad_fresh _ _ _ _ Ha)) as [Hcd Hhd].
  split; try done.
  - rewrite (lc_list _ _ Hloc). apply Ha.
  - rewrite (lc_by_id _ _ Hloc). apply Ha.
  - rewrite (lc_by_name _ _ Hloc). apply Ha.
  - rewrite K. unfold skey. by rewrite (sl_added _ _ _ _ l Ha), decide_True.
  - congruence.
  - congruence.
  - intros q Hq. rewrite Hq4, (ad_layers _ _ _ _ Ha) by done. by rewrite lookup_insert_ne.
  - rewrite (lc_mounted _ _ Hloc). apply Ha.
Qed.

Lemma bounded_others k l st st' :
  bounded k st -> (forall q, q <> l -> ls_layers st' !! q = ls_layers st !! q) ->
  count st' l <= k -> - k <= hold st' l <= k -> bounded k st'.
Proof.
  intros Hb Hq Hc Hh q. destruct (decide (q = l)) as [->|Hne]; [done|]. unfold count, hold. rewrite Hq by done. apply (Hb q).
Qed.

Lemma create_done lid opts l st st4 :
  filling lid opts l st st4 ->
  (exists s d, sl st4 l = Some s /\ sl_incompelte s = false /\ ls_dirs st4 !! sl_id s = Some d /\ ld_json d = Some s) ->
  wp (change_hold_refs l 1;; layer_ref_dec l;; mret (0, Some lid)) (fun r st' => linv [] st' /\
    (forall k, 1 <= k -> bounded k st -> bounded k st') /\ r = (0, Some lid) /\ created lid opts l st st') st4.
Proof.
  intros [F1 F2 F3 F4 F5 F6 F7 F8 F9 F10] (s & d & Hs & Hinc & Hd & Hj). apply wp_mbind.
  eapply wp_conseq; [apply (change_hold_spec [l]); [done|apply lrefs_owned; by left|lia]|]. rewrite F7. intros ? st5 [Hi5 Hh5].
  destruct (rehold_reads _ _ _ _ Hh5 l) as (K5 & C5 & H5). rewrite decide_True in H5 by done.
  assert (sl st5 l = Some s) as Hs5.
  { destruct Hh5 as (x & Hx & ->). unfold sl in *. cbn. rewrite lookup_insert_eq. by rewrite Hx in Hs. }
  assert (ls_dirs st5 = ls_dirs st4 /\ layers_list st5 = layers_list st4 /\ by_id st5 = by_id st4 /\ by_name st5 = by_name st4 /\
    ls_mounted st5 = ls_mounted st4 /\ forall q, q <> l -> ls_layers st5 !! q = ls_layers st4 !! q) as (E1 & E2 & E3 & E4 & E5 & Hq5).
  { destruct Hh5 as (x & Hx & ->). split_and!; [done..|]. intros q Hq. cbn. by rewrite lookup_insert_ne. }
  apply wp_mbind. eapply wp_conseq; [apply (layer_ref_dec_spec []), Hi5|]. intros ? st6 (Hr6 & Hl6 & Hq6 & Heq6 & Hsl6). apply wp_mret.
  assert (l ∈ layers_list st6) as Hlist6 by (rewrite (lc_list _ _ Hl6), E2, F3; set_solver).
  destruct (lrefs_live [] st6 l Hr6) as (x6 & s6 & Hx6 & _); [by apply lrefs_listed|].
  destruct (lc_layer _ _ Hl6 l) as (_ & K6 & C6 & H6); [eauto|].
  assert (sl st6 l = Some s) as Hs6 by (rewrite Hsl6; [done|eauto]).
  assert (forall q, q <> l -> ls_layers st6 !! q = ls_layers st !! q) as Hq by (intros q Hq; by rewrite Hq6, Hq5, F9).
  split; [by eapply inv_local|]. split; [intros k Hk Hb; eapply bounded_others; [done|done|lia..]|]. split; [done|].
  split; try done.
  - by rewrite (lc_list _ _ Hl6), E2.
  - by rewrite (lc_by_id _ _ Hl6), E3.
  - intros n. by rewrite (lc_by_name _ _ Hl6), E4.
  - by rewrite K6, K5.
  - exists s, d. assert (sl_id s = lid) as Hid. { unfold skey in F6. rewrite Hs in F6. by injection F6. }
    rewrite Heq6. cbn. rewrite E1. by rewrite <-Hid.
  - lia.
  - lia.
  - intros q Hq'. apply Hq. by intros ->.
  - by rewrite (lc_mounted _ _ Hl6), E5.
Qed.

Lemma filter_app_last (ps : list N) l : l ∉ ps -> filter (fun q => q <> l) (ps ++ [l]) = ps.
Proof.
  induction ps as [|p ps IH]; intros Hl.
  { by rewrite app_nil_l, filter_cons, decide_False by naive_solver. }
  apply not_elem_of_cons in Hl as [Hp Hps]. rewrite <-app_comm_cons, filter_cons, decide_True by naive_solver.
  f_equal. by apply IH.
Qed.

Lemma create_failed lid opts l st st4 (ret : Z) :
  filling lid opts l st st4 -> ret <> 0 ->
  (forall n, n ∈ lo_names opts -> mo_abs (by_name st) !! n = None) -> mo_abs (by_id st) !! lid = None ->
  wp (_ ← remove_memory_stores lid; undo_create E lid;; layer_ref_dec l;; mret (ret, None : option cstr))
    (fun r st' => linv [] st' /\ (forall k, 1 <= k -> bounded k st -> bounded k st') /\
      r.1 <> 0 /\ r.2 = None /\ same_memory st st' /\ (le_rm E = true -> lid ∉ ls_driver st') /\
      (le_rmdir E = true -> ls_dirs st' !! lid = None)) st4.
Proof.
  intros [F1 F2 F3 F4 F5 F6 F7 F8 F9 F10] Hret Hfree Hid.
  destruct (owned_live [l] st4 l (proj1 F1)) as (x4 & s4 & Hx4 & Hs4); [by left|].
  assert (sl st4 l = Some s4) as Hsl by (unfold sl; by rewrite Hx4).
  assert (sl_id s4 = lid /\ sl_names s4 = lo_names opts) as [Eid Enm].
  { unfold skey in F6. rewrite Hsl in F6. by injection F6. }
  apply wp_mbind. rewrite <-Eid at 1.
  eapply wp_conseq; [apply (remove_memory_stores_spec [l] st4 l s4); [done|cbn; lia|rewrite F3; set_solver|done..]|].
  intros z st5 (_ & Hi5 & [R1 R2 R3 R4 R5 R6 R7 R8]). apply wp_mbind.
  eapply wp_conseq; [apply undo_create_spec|]. intros ? st6 (Ho6 & Hdrv & Hdir). apply wp_mbind.
  eapply wp_conseq; [apply (layer_ref_dec_spec []), (inv_outside [l] st5); done|].
  intros ? st7 (Hr7 & Hl7 & Hq7 & Heq7 & _). apply wp_mret. pose proof (outside_local _ _ Ho6) as Hl6.
  assert (local st5 st7) as Hl57 by by etrans.
  assert (layers_list st7 = layers_list st) as El by (by rewrite (lc_list _ _ Hl57), R1, F3, filter_app_last).
  assert (forall q, q <> l -> ls_layers st7 !! q = ls_layers st !! q) as Hq.
  { intros q Hne. rewrite Hq7 by done. destruct Ho6 as (? & ? & ? & ->). cbn. by rewrite R4, F9. }
  assert (ls_layers st7 !! l = None) as Hdead.
  { pose proof (lr_refs _ _ Hr7 l) as H. unfold lrefs in H. rewrite El, decide_False in H by done. cbn in H.
    destruct (ls_layers st7 !! l); [lia|done]. }
  split; [eapply (inv_local [l] [] st5); done|].
  split; [intros k Hk Hb; eapply bounded_others; [done|done|..]; destruct (count_dead _ _ Hdead); lia|].
  split; [done|]. split; [done|]. split; [|split; rewrite Heq7; cbn; [exact Hdrv|exact Hdir]].
  split; [done| | | |].
  - by rewrite (lc_by_id _ _ Hl57), R2, F4, Eid, delete_insert_id.
  - intros n. rewrite (lc_by_name _ _ Hl57), R3, Enm. case_decide; [by rewrite Hfree|]. rewrite F5. by rewrite decide_False.
  - intros q Hq'. apply Hq. by intros ->.
  - by rewrite (lc_mounted _ _ Hl57), R8.
Qed.

(** Filling the new layer in, or taking it back. *)
Lemma finish_create_spec lid opts diff l st st2 :
  linv [] st -> linv [] st2 -> l <> NULL -> added l (described lid opts) st st2 ->
  (forall n, n ∈ lo_names opts -> mo_abs (by_name st) !! n = None) -> mo_abs (by_id st) !! lid = None ->
  wp (l ← lookup lid;
      ret ← (if decide (l = NULL) then (mret (-1) : M layer_store Z) else complete_layer E l diff);
      if ret =? 0 then change_hold_refs l 1;; layer_ref_dec l;; mret (0, Some lid)
      else _ ← remove_memory_stores lid; undo_create E lid;; layer_ref_dec l;; mret (ret, None))
    (fun r st' => linv [] st' /\ (forall k, 1 <= k -> bounded k st -> bounded k st') /\
       (r = (0, Some lid) /\ created lid opts l st st' \/
        r.1 <> 0 /\ r.2 = None /\ same_memory st st' /\ (le_rm E = true -> lid ∉ ls_driver st') /\
        (le_rmdir E = true -> ls_dirs st' !! lid = None))) st2.
Proof.
  intros Hi Hi2 Hnn Ha Hfree Hid. pose proof Hi as (Hr & _).
  destruct (fresh_unlisted _ _ _ Hr (ad_fresh _ _ _ _ Ha)) as [Hnl _].
  assert (resolve st2 lid = Some l) as Hres.
  { unfold resolve. by rewrite (ad_by_id _ _ _ _ Ha), lookup_insert_eq. }
  apply wp_mbind. eapply wp_conseq; [apply (layer_lookup_spec []); [done|cbn; lia]|].
  intros p st3 (Hloc3 & Heq3 & Hp). rewrite Hres in Hp. destruct Hp as (-> & _ & Hi3 & Hq3). rewrite decide_False by done.
  pose proof Hi3 as (Hr3 & _). assert (l ∈ [l]) as Hll by by left.
  destruct (at_layer_intro [l] st3 l Hr3 Hll) as (s3 & Hs3 & Hat3). apply wp_mbind.
  eapply wp_conseq; [apply wp_and; [apply (tame_complete_layer E [l] l (key s3) (count st3 l) Hll diff), Hat3|by apply (complete_layer_saved [l])]|].
  intros z st4 [((Hr4 & Hk4 & Hc4) & Hloc4 & Ho4) Hsaved].
  assert (filling lid opts l st st4) as Hfl.
  { eapply filling_step; [done|done|by etrans|by eapply inv_local|]. intros q Hq. by rewrite Ho4, Hq3. }
  destruct (Z.eqb_spec z 0) as [->|Hz].
  - eapply wp_conseq; [apply (create_done lid opts l st st4); [done|auto]|]. intros r st' (? & ? & ? & ?). auto.
  - eapply wp_conseq; [by apply (create_failed lid opts l st st4)|]. intros r st' (? & ? & ?). auto.
Qed.

Lemma outside_driver drv st : outside st (set_driver drv (ls_mounted st) st).
Proof. by apply outside_intro. Qed.
Lemma outside_trans st1 st2 st3 : outside st1 st2 -> outside st2 st3 -> outside st1 st3.
Proof. intros (d1 & m1 & v1 & ->) (d2 & m2 & v2 & ->). by apply outside_intro. Qed.

(** What creating a layer does. *)
Definition create_post (lid : cstr) (opts : layer_opts) st (r : Z * option cstr) st' : Prop :=
  match resolve st lid with
  | Some l => r = (0, None) /\ layers_list st' = layers_list st /\
      forall q, q ∈ layers_list st -> skey st' q = skey st q /\ count st' q = count st q /\
        hold st' q = (if decide (q = l) then hold st l + 1 else hold st q)
  | None =>
      r = (0, Some lid) /\ (exists l, created lid opts l st st') \/
      r.1 <> 0 /\ r.2 = None /\ same_memory st st' /\
      (le_rm E = true -> lid ∉ ls_driver st -> lid ∉ ls_driver st') /\
      (le_rmdir E = true -> ls_dirs st !! lid = None -> ls_dirs st' !! lid = None)
  end.

Lemma hold_existing_spec st lid l :
  linv [] st -> resolve st lid = Some l -> - 2 ^ 31 <= hold st l + 1 < 2 ^ 31 ->
  wp (l ← lookup lid; if decide (l <> NULL) then change_hold_refs l 1;; layer_ref_dec l;; mret (0, None : option cstr)
      else mret (-1, None)) (fun r st' => linv [] st' /\ (forall k, bounded k st -> bounded (k + 1) st') /\
      r = (0, None) /\ layers_list st' = layers_list st /\
      forall q, q ∈ layers_list st -> skey st' q = skey st q /\ count st' q = count st q /\
        hold st' q = (if decide (q = l) then hold st l + 1 else hold st q)) st.
Proof.
  intros Hi Hres Hb. assert (l ∈ layers_list st) as Hl by (eapply layer_resolve_listed; [apply Hi|done]).
  apply wp_mbind. eapply wp_conseq; [apply (layer_lookup_spec []); [done|cbn; lia]|].
  intros p st1 (Hloc & _ & Hp). rewrite Hres in Hp. destruct Hp as (-> & Hnn & Hi1 & _). rewrite decide_True by done.
  destruct (local_listed [l] st st1 l Hloc (proj1 Hi1) Hl) as (_ & _ & Hh1).
  apply wp_mbind. eapply wp_conseq; [apply (change_hold_spec [l]); [done|apply lrefs_owned; by left|lia]|].
  intros ? st2 [Hi2 Hh]. pose proof (rehold_reads _ _ _ _ Hh) as Hrd. apply wp_mbind.
  eapply wp_conseq; [by apply layer_drop_spec|]. intros ? st3 [Hi3 Hloc3]. apply wp_mret.
  assert (layers_list st2 = layers_list st) as El by (destruct Hh as (x & _ & ->); apply (lc_list _ _ Hloc)).
  split; [done|]. split.
  - intros k Hk. assert (0 <= k) by (destruct (Hk NULL); lia).
    apply (bounded_local (k + 1) st2); [lia|done|]. intros q. destruct (Hrd q) as (_ & -> & ->).
    pose proof (bounded_local k st st1 ltac:(lia) Hloc Hk q). case_decide; subst; lia.
  - split; [done|]. rewrite (lc_list _ _ Hloc3), El. split; [done|]. intros q Hq.
    destruct (local_listed [] st2 st3 q Hloc3 (proj1 Hi3)) as (-> & -> & ->); [by rewrite El|].
    destruct (Hrd q) as (-> & -> & ->). destruct (local_listed [l] st st1 q Hloc (proj1 Hi1) Hq) as (-> & -> & ->).
    by rewrite Hh1.
Qed.

Lemma layer_store_create_spec st lid opts diff :
  linv [] st -> le_lock E = true -> NoDup (lo_names opts) ->
  (forall n, n ∈ lo_names opts -> mo_abs (by_name st) !! n = None) ->
  (forall l, - 2 ^ 31 <= hold st l + 1 < 2 ^ 31) ->
  wp (layer_store_create E lid (Some opts) diff) (fun r st' => linv [] st' /\
    (forall k, bounded k st -> bounded (k + 1) st') /\ create_post lid opts st r st') st.
Proof.
  intros Hi Hlk Hnd Hfree Hb. pose proof Hi as (Hr & Hx & Hm). unfold layer_store_create, create_post.
  rewrite Hlk. cbn [negb]. destruct (resolve st lid) as [l|] eqn:Hres.
  { pose proof (hold_existing_spec st lid l Hi Hres (Hb l)) as Hw. apply wp_bind_inv in Hw.
    apply wp_mbind. eapply wp_conseq; [apply wp_and; [exact Hw|apply (layer_lookup_spec []); [done|cbn; lia]]|].
    intros p st1 (H1 & _ & _ & H2). rewrite Hres in H2. destruct H2 as (-> & Hnn & _). by rewrite decide_True in H1 |- * by done. }
  assert (forall k, bounded k st -> bounded (k + 1) st) as Hmono.
  { intros k Hk q. pose proof (Hk q). lia. }
  apply wp_mbind. eapply wp_conseq; [apply (layer_lookup_spec []); [done|cbn; lia]|].
  intros p st0 (_ & _ & H2). rewrite Hres in H2. destruct H2 as [-> ->]. rewrite decide_False by (by intros []).
  assert (same_memory st st) as Hsame by done.
  unfold driver_create_layer. apply wp_mbind. destruct (le_opts E); cbn [negb]; [|apply wp_mret; cbn; apply wp_mret; naive_solver].
  destruct (le_create E); cbn [negb]; [|apply wp_mret; cbn; apply wp_mret; naive_solver].
  apply wp_mbind, wp_modify, wp_mret. change (negb (0 =? 0)) with false. cbn [negb]. set (st1 := set_driver _ _ st).
  assert (outside st st1) as Ho1 by apply outside_driver.
  assert (mo_abs (by_id st) !! lid = None) as Hid by (unfold resolve in Hres; by destruct (mo_abs (by_id st) !! lid)).
  pose proof (inv_outside _ _ _ Ho1 Hi) as Hi1.
  apply wp_mbind. eapply wp_conseq; [by apply (new_layer_spec [] st1 lid opts)|].
  intros z st2 (Hi2 & [(-> & l & Hnn & Ha & Hdir)|(Hz & dirs & ->)]).
  - change (negb (0 =? 0)) with false. cbn [negb].
    eapply wp_conseq; [by apply (finish_create_spec lid opts diff l st1 st2)|]. intros r st' (Hi' & Hbd & Hc).
    split; [done|]. split.
    { intros k Hk. apply Hbd; [destruct (Hk NULL); lia|]. eapply bounded_outside, Ho1. by apply Hmono. }
    destruct Hc as [[-> Hc]|(Hr1 & Hr2 & Hs & Hd1 & Hd2)].
    + left. split; [done|]. exists l. by destruct Hc.
    + right. split_and!; [done|done|by destruct Hs|auto..].
  - destruct (Z.eqb_spec z 0) as [->|_]; [done|]. cbn [negb]. apply wp_mbind.
    eapply wp_conseq; [apply undo_create_spec|]. intros ? st3 (Ho3 & Hd1 & Hd2). apply wp_mret.
    assert (outside st st3) as Ho by (eapply outside_trans; [|exact Ho3]; eapply outside_trans; [exact Ho1|apply outside_dirs]).
    split; [by eapply inv_outside|]. split; [intros k Hk; eapply bounded_outside, Ho; by apply Hmono|].
    right. split_and!; [done|done|by apply same_outside|auto..].
Qed.

End layer_store.
