(* ===== verification/LayerStoreDelete.v ===== *)
(** Deleting a layer, and the operations that mount, hold and read layers, keep the invariant
    of the store of layers. *)
From S2P Require Import Prelude Heap RbSearch KeyOrders MapC MapIface RestartManager ContainersStoreProps Effects LayerStore LayerStoreInv LayerStoreOps.

Open Scope Z_scope.

Section layer_store.
Context {MI MG : Type} {cmp : cstr -> cstr -> Z} `{!KeyOrder cmp}.
Context {opsI : MapOps cstr N MI} `{!MapLaws cmp opsI}.
Context {opsG : MapOps cstr N MG} `{!MapLaws cmp opsG}.
Abbreviation layer_store := (layer_store MI MG).
Implicit Types (st : layer_store) (own : list N) (p q l : N).
Context (E : lay_env).

(** ** Deleting *)

(** The layer [l], described by [s], has left the store. *)
Record forgotten l (s : storage_layer) st st' : Prop := {
  fg_list : layers_list st' = filter (fun q => q <> l) (layers_list st);
  fg_by_id : mo_abs (by_id st') = delete (sl_id s) (mo_abs (by_id st));
  fg_by_name n : mo_abs (by_name st') !! n = if decide (n ∈ sl_names s) then None else mo_abs (by_name st) !! n;
  fg_other q : q ∈ layers_list st -> q <> l -> skey st' q = skey st q /\ count st' q = count st q /\ hold st' q = hold st q;
  fg_unmounted : sl_id s ∉ ls_mounted st'
}.
(** And its memory is released. *)
Definition gone l (s : storage_layer) st st' : Prop := forgotten l s st st' /\ ls_layers st' !! l = None.

Lemma remove_mjson_outside own st l : lrefs_ok own st -> l ∈ own -> wp (remove_mjson E l) (fun _ st' => outside st st') st.
Proof.
  intros Hr Hl. destruct (owned_live own st l Hr Hl) as (x & s & Hx & Hs). unfold remove_mjson. apply wp_mbind.
  eapply wp_get_layer; [done|]. apply wp_mbind. eapply wp_lift; [done|].
  apply wp_when; intros _; [apply wp_modify|]; by apply outside_intro.
Qed.
Lemma remove_tar_split_outside id st : wp (remove_tar_split E id) (fun _ st' => outside st st') st.
Proof. unfold remove_tar_split. apply wp_when; intros _; [apply wp_modify|]; by apply outside_intro. Qed.

(** The layer after the unmount. *)
Lemma unmounted own st st1 l s :
  linv own st -> l ∈ layers_list st -> sl st l = Some s -> lrefs_ok own st1 ->
  (recount l 0 st st1 \/ st1 = st /\ count st l = 0) ->
  layers_list st1 = layers_list st /\ by_id st1 = by_id st /\ by_name st1 = by_name st /\ count st1 l = 0 /\
  (exists s1, sl st1 l = Some s1 /\ key s1 = key s) /\ sl_id s ∉ ls_mounted st1 /\
  (forall q, q ∈ layers_list st -> q <> l -> skey st1 q = skey st q /\ count st1 q = count st q /\ hold st1 q = hold st q) /\
  (forall q, is_Some (ls_layers st1 !! q) -> count st1 q <= count st q /\ hold st1 q = hold st q).
Proof.
  intros Hi Hl Hs Hr1 [[E1 E2 E3 E4 E5 E6 (i & Hpi & E7) E8]|[-> Hc]].
  - assert (forall q, q ∈ layers_list st -> is_Some (ls_layers st1 !! q)) as Hlive.
    { intros q Hq. destruct (lrefs_live own st1 q Hr1) as (x & s' & Hx & _); [apply lrefs_listed; by rewrite E1|eauto]. }
    destruct (E8 l (Hlive l Hl)) as (_ & K & C & H). rewrite decide_True in C by done.
    assert (exists s1, sl st1 l = Some s1 /\ key s1 = key s) as Hs1.
    { unfold skey in K. rewrite Hs in K. destruct (sl st1 l) as [s1|]; [|done]. exists s1. split; [done|]. cbn in K. congruence. }
    split_and!; try done.
    + rewrite Hs in Hpi. cbn in Hpi. injection Hpi as <-. rewrite E7, decide_False by lia. set_solver.
    + intros q Hq Hne. destruct (E8 q (Hlive q Hq)) as (_ & K' & C' & H'). rewrite decide_False in C' by done. done.
    + intros q Hq. destruct (E8 q Hq) as (_ & _ & C' & H'). split; [|done]. rewrite C'.
      case_decide; [|done]. subst. apply (mk_count _ (proj2 (proj2 Hi))).
  - split_and!; try done; [eauto|].
    intros Hm. apply (mk_mounted _ (proj2 (proj2 Hi))) in Hm as (q & Hq & Hid & Hcq).
    assert (q = l) as -> by (eapply (listed_id own st); [done|done|exact Hl|exact Hid|by rewrite Hs]). lia.
Qed.
(** What the driver and the directory keep of a deleted layer. *)
Definition erased (id : cstr) (z : Z) st' : Prop :=
  (z = 0 <-> le_rm E && le_rmdir E = true) /\ (z = 0 -> id ∉ ls_driver st' /\ ls_dirs st' !! id = None).

Lemma rm_layer_spec id st :
  wp (z ← graphdriver_rm_layer E id; if negb (z =? 0) then mret z else layer_store_remove_layer E id)
    (fun z st' => outside st st' /\ erased id z st') st.
Proof.
  unfold erased, graphdriver_rm_layer, layer_store_remove_layer. apply wp_mbind. destruct (le_rm E), (le_rmdir E);
    repeat (apply wp_mbind || apply wp_modify || apply wp_mret || (apply wp_if; intros ?));
    try done; (split; [by apply outside_intro|]); split; try done.
  intros _. cbn. rewrite lookup_delete_eq. split; [set_solver|done].
Qed.

Lemma key_eq s s' : key s' = key s -> sl_id s' = sl_id s /\ sl_names s' = sl_names s.
Proof. unfold key. intros [= -> -> _ _ _]. done. Qed.

Lemma delete_steps_spec st l s :
  linv [l] st -> l ∈ layers_list st -> sl st l = Some s ->
  wp (delete_steps E l) (fun z st' => linv [l] st' /\
    (z = -1 /\ st' = st /\ le_umount E = false \/
     forgotten l s st st' /\ erased (sl_id s) z st' /\
     (forall k q, bounded k st -> q <> l -> count st' q <= k /\ - k <= hold st' q <= k))) st.
Proof.
  intros Hi Hl Hs. assert (l ∈ [l]) as Hll by by left. unfold delete_steps. apply wp_mbind.
  eapply wp_conseq; [by apply (umount_helper_spec E [l])|].
  intros z st2 (Hi2 & [[-> Hu]|(-> & -> & Hu)]); cbn [negb Z.eqb]; [|apply wp_mret; by split; [|left]].
  destruct (unmounted [l] st st2 l s Hi Hl Hs (proj1 Hi2) Hu) as (U1 & U2 & U3 & U4 & (s2 & Hs2 & Hk2) & U5 & U6 & U7).
  destruct (key_eq _ _ Hk2) as [Eid Enm].
  apply wp_mbind. eapply wp_conseq; [by apply (remove_mjson_outside [l]); [apply Hi2|]|].
  intros ? st3 Ho3. assert (sl st3 l = Some s2) as Hs3 by (by destruct Ho3 as (? & ? & ? & ->)).
  apply wp_mbind. eapply wp_get_slayer; [done|]. apply wp_mbind.
  eapply wp_conseq; [apply remove_tar_split_outside|]. intros ? st4 Ho4.
  assert (outside st2 st4) as Ho by (eapply outside_trans; [exact Ho3|exact Ho4]). clear st3 Ho3 Ho4 Hs3.
  assert (sl st4 l = Some s2 /\ count st4 l = 0 /\ l ∈ layers_list st4) as (Hs4 & Hc4 & Hl4).
  { destruct Ho as (? & ? & ? & ->). split_and!; [done..|]. cbn. by rewrite U1. }
  apply wp_mbind. eapply wp_conseq; [apply (remove_memory_stores_spec [l] st4 l s2); [by eapply inv_outside|cbn; lia|done..]|].
  intros ? st5 (-> & Hi5 & [R1 R2 R3 R4 R5 R6 R7 R8]). cbn [negb Z.eqb]. eapply wp_conseq; [apply rm_layer_spec|].
  intros z st6 [Ho6 Her]. rewrite Eid in *. split; [by eapply inv_outside|]. right.
  assert (forall q, q <> l -> ls_layers st6 !! q = ls_layers st2 !! q) as Hq.
  { intros q Hne. destruct Ho6 as (? & ? & ? & ->), Ho as (? & ? & ? & ->). cbn. by rewrite R4. }
  assert (forall q, q <> l -> skey st6 q = skey st2 q /\ count st6 q = count st2 q /\ hold st6 q = hold st2 q) as Hr.
  { intros q Hne. unfold skey, sl, count, hold. by rewrite Hq. }
  pose proof (outside_local _ _ Ho6) as L6. pose proof (outside_local _ _ Ho) as L4.
  split_and!; [|done|].
  - split.
    + by rewrite (lc_list _ _ L6), R1, (lc_list _ _ L4), U1.
    + by rewrite (lc_by_id _ _ L6), R2, (lc_by_id _ _ L4), U2.
    + intros n. by rewrite (lc_by_name _ _ L6), R3, (lc_by_name _ _ L4), U3, Enm.
    + intros q Hlq Hne. destruct (Hr q Hne) as (-> & -> & ->). by apply U6.
    + by rewrite (lc_mounted _ _ L6), R8, (lc_mounted _ _ L4).
  - intros k q Hb Hne. destruct (Hr q Hne) as (_ & -> & ->). assert (0 <= k) by (destruct (Hb NULL); lia).
    destruct (ls_layers st2 !! q) eqn:Hlq; [|destruct (count_dead _ _ Hlq); lia].
    destruct (U7 q) as [HU ->]; [eauto|]. pose proof (Hb q). lia.
Qed.

(** What deleting the layer [l] does. *)
Definition delete_post l (s : storage_layer) st (z : Z) st' : Prop :=
  z = -1 /\ local st st' /\ le_umount E = false \/ gone l s st st' /\ erased (sl_id s) z st'.

Lemma do_delete_layer_spec st id :
  linv [] st -> wp (do_delete_layer E id) (fun z st' => linv [] st' /\
    (forall k, bounded k st -> bounded k st') /\
    match resolve st id with
    | None => z = 0 /\ st' = st
    | Some l => forall s, sl st l = Some s -> delete_post l s st z st'
    end) st.
Proof.
  intros Hi. unfold do_delete_layer. apply wp_mbind.
  eapply wp_conseq; [apply (layer_lookup_spec []); [done|cbn; lia]|].
  intros p st1 (Hl1 & _ & Hp). destruct (resolve st id) as [l|] eqn:Hres.
  2: { destruct Hp as [-> ->]. rewrite decide_True by done. by apply wp_mret. }
  destruct Hp as (-> & Hnn & Hi1 & _). rewrite decide_False by done.
  assert (l ∈ layers_list st) as Hl by (eapply layer_resolve_listed; [apply Hi|done]).
  assert (l ∈ layers_list st1) as Hlist1 by (by rewrite (lc_list _ _ Hl1)).
  destruct (listed_live [l] st1 l (proj1 Hi1) Hlist1) as (s1 & Hs1).
  assert (forall s, sl st l = Some s -> key s1 = key s) as Hkey.
  { intros s Hs. destruct (local_listed [l] st st1 l Hl1 (proj1 Hi1) Hl) as (K & _).
    unfold skey in K. rewrite Hs, Hs1 in K. cbn in K. congruence. }
  apply wp_mbind. eapply wp_conseq; [by apply (delete_steps_spec st1 l s1)|].
  intros z st2 (Hi2 & Hdel). apply wp_mbind. eapply wp_conseq; [apply (layer_ref_dec_spec []), Hi2|].
  intros ? st3 (Hr3 & Hl3 & Hq3 & Heq3 & _). apply wp_mret. split; [by eapply inv_local|].
  destruct Hdel as [(-> & -> & Hu)|(Hf & Her & Hb)].
  { assert (local st st3) as Hl13 by by etrans. split.
    - intros k Hk. eapply bounded_local; [|done..]. destruct (Hk NULL); lia.
    - intros s Hs. by left. }
  assert (ls_layers st3 !! l = None) as Hdead.
  { pose proof (lr_refs _ _ Hr3 l) as H. unfold lrefs in H. rewrite (lc_list _ _ Hl3), (fg_list _ _ _ _ Hf), decide_False in H.
    - cbn in H. destruct (ls_layers st3 !! l); [lia|done].
    - intros [H1 _]%list_elem_of_filter. done. }
  split.
  - intros k Hk q. assert (0 <= k) by (destruct (Hk NULL); lia).
    destruct (decide (q = l)) as [->|Hne]; [destruct (count_dead _ _ Hdead); lia|].
    unfold count, hold. rewrite Hq3 by done. apply (Hb k q); [|done]. by eapply bounded_local.
  - intros s Hs. right. destruct (key_eq _ _ (Hkey s Hs)) as [Eid Enm]. destruct Hf as [F1 F2 F3 F4 F5]. split.
    + split; [|done]. split.
      * by rewrite (lc_list _ _ Hl3), F1, (lc_list _ _ Hl1).
      * by rewrite (lc_by_id _ _ Hl3), F2, (lc_by_id _ _ Hl1), Eid.
      * intros n. by rewrite (lc_by_name _ _ Hl3), F3, (lc_by_name _ _ Hl1), Enm.
      * intros q Hq Hne. unfold skey, sl, count, hold. rewrite Hq3 by done. fold (sl st2 q) (skey st2 q) (count st2 q) (hold st2 q).
        destruct (F4 q) as (-> & -> & ->); [by rewrite (lc_list _ _ Hl1)|done|]. exact (local_listed [l] st st1 q Hl1 (proj1 Hi1) Hq).
      * by rewrite (lc_mounted _ _ Hl3), <-Eid.
    + rewrite Heq3, <-Eid. exact Her.
Qed.
End layer_store.
