(* ===== verification/LayerStoreSpec.v ===== *)
(** What the store of layers promises: a sequence of layers with an id, names, digests, a
    parent, a mount count and a number of holds.  Every operation on the store is an operation on this
    sequence. *)
From S2P Require Import Prelude Heap RbSearch KeyOrders MapC MapIface RestartManager ContainersStoreProps Effects LayerStore LayerStoreInv LayerStoreOps LayerStoreDelete.

Open Scope Z_scope.

(** ** The abstract store *)
Record alayer := ALayer {
  a_id : cstr;
  a_names : list cstr;
  a_diff : option cstr;
  a_compressed : option cstr;
  a_parent : option cstr;
  a_count : Z;
  a_hold : Z
}.
Definition put_count (n : Z) a := ALayer (a_id a) (a_names a) (a_diff a) (a_compressed a) (a_parent a) n (a_hold a).
Definition put_hold (n : Z) a := ALayer (a_id a) (a_names a) (a_diff a) (a_compressed a) (a_parent a) (a_count a) n.

(** A layer is found by its id, or else by one of its names. *)
Definition afind (key : cstr) (A : list alayer) : option alayer :=
  match filter (fun a => a_id a = key) A with
  | a :: _ => Some a
  | [] => head (filter (fun a => key ∈ a_names a) A)
  end.
Definition aupdate (id : cstr) (f : alayer -> alayer) (A : list alayer) : list alayer :=
  (fun a => if decide (a_id a = id) then f a else a) <$> A.
Definition aremove (id : cstr) (A : list alayer) : list alayer := filter (fun a => a_id a <> id) A.

Section layer_store.
Context {MI MG : Type} {cmp : cstr -> cstr -> Z} `{!KeyOrder cmp}.
Context {opsI : MapOps cstr N MI} `{!MapLaws cmp opsI}.
Context {opsG : MapOps cstr N MG} `{!MapLaws cmp opsG}.
Abbreviation layer_store := (layer_store MI MG).
Implicit Types (st : layer_store) (own : list N) (p q l : N).

Definition alayer_of st p : option alayer :=
  (fun '(i, n, d, c, f) => ALayer i n d c f (count st p) (hold st p)) <$> skey st p.
Definition abs_layers st : list alayer := omap (alayer_of st) (layers_list st).

Lemma alayer_of_sl st p s : sl st p = Some s ->
  alayer_of st p = Some (ALayer (sl_id s) (sl_names s) (sl_diff_digest s) (sl_compressed_diff_digest s) (sl_parent s) (count st p) (hold st p)).
Proof. intros Hs. unfold alayer_of, skey. by rewrite Hs. Qed.
Lemma alayer_of_ext st st' p : skey st' p = skey st p -> count st' p = count st p -> hold st' p = hold st p ->
  alayer_of st' p = alayer_of st p.
Proof. intros H1 H2 H3. unfold alayer_of. by rewrite H1, H2, H3. Qed.
Lemma abs_local own st st' : local st st' -> lrefs_ok own st' -> abs_layers st' = abs_layers st.
Proof.
  intros Hl Hr. unfold abs_layers. rewrite (lc_list _ _ Hl). apply omap_ext_elem. intros p Hp.
  destruct (local_listed own st st' p Hl Hr Hp) as (? & ? & ?). by apply alayer_of_ext.
Qed.

Lemma alayer_listed own st p : lrefs_ok own st -> p ∈ layers_list st ->
  exists s, sl st p = Some s /\ alayer_of st p =
    Some (ALayer (sl_id s) (sl_names s) (sl_diff_digest s) (sl_compressed_diff_digest s) (sl_parent s) (count st p) (hold st p)).
Proof. intros Hr Hp. destruct (listed_live own st p Hr Hp) as (s & Hs). exists s. split; [done|]. by apply alayer_of_sl. Qed.

(** *** Finding *)
(** An index that leads from a key to the listed layers with a property finds the first. *)
Lemma head_index own st (P : alayer -> Prop) `{!forall a, Decision (P a)} (o : option N) :
  lrefs_ok own st ->
  (forall p a, p ∈ layers_list st -> alayer_of st p = Some a -> P a <-> o = Some p) ->
  (forall p, o = Some p -> p ∈ layers_list st) ->
  head (filter P (abs_layers st)) = o ≫= alayer_of st.
Proof.
  intros Hr Ho Hl. unfold abs_layers. destruct o as [p|]; cbn.
  - assert (p ∈ layers_list st) as Hp by auto. destruct (alayer_listed own st p Hr Hp) as (s & Hs & Ha). rewrite Ha.
    apply (filter_omap_one _ _ _ p); [done|done|by apply (Ho p)|]. intros q b Hq Hb HP. apply (Ho q b) in HP; [congruence|done..].
  - rewrite filter_omap_none; [done|]. intros q b Hq Hb HP. apply (Ho q b) in HP; done.
Qed.
Lemma head_by_id own st key : linv own st ->
  head (filter (fun a => a_id a = key) (abs_layers st)) = mo_abs (by_id st) !! key ≫= alayer_of st.
Proof.
  intros (Hr & Hx & _). apply (head_index own); [done| |].
  - intros p a Hp Ha. destruct (alayer_listed own st p Hr Hp) as (s & Hs & Ha'). rewrite Ha' in Ha. injection Ha as <-. cbn.
    rewrite (lx_id _ Hx), Hs. cbn. naive_solver.
  - intros p Hid. by apply (lx_id _ Hx) in Hid as [? _].
Qed.
Lemma head_by_name own st key : linv own st ->
  head (filter (fun a => key ∈ a_names a) (abs_layers st)) = mo_abs (by_name st) !! key ≫= alayer_of st.
Proof.
  intros (Hr & Hx & _). apply (head_index own); [done| |].
  - intros p a Hp Ha. destruct (alayer_listed own st p Hr Hp) as (s & Hs & Ha'). rewrite Ha' in Ha. injection Ha as <-. cbn.
    rewrite (lx_name _ Hx). unfold names_at. rewrite Hs. naive_solver.
  - intros p Hn. by apply (lx_name _ Hx) in Hn as [? _].
Qed.
Lemma resolve_afind own st key : linv own st -> afind key (abs_layers st) = resolve st key ≫= alayer_of st.
Proof.
  intros Hi. pose proof (head_by_id own st key Hi) as H1. pose proof (head_by_name own st key Hi) as H2. unfold afind, resolve.
  destruct (mo_abs (by_id st) !! key) as [p|] eqn:Hid.
  - apply (lx_id _ (proj1 (proj2 Hi))) in Hid as [Hp _]. destruct (alayer_listed own st p (proj1 Hi) Hp) as (s & _ & Ha).
    cbn in *. rewrite Ha in *. by destruct (filter _ _); cbn in H1; simplify_eq.
  - by destruct (filter _ _).
Qed.

(** *** Changing one layer, removing and adding one *)
Lemma abs_update own st st' l s (f : alayer -> alayer) :
  linv own st -> l ∈ layers_list st -> sl st l = Some s -> layers_list st' = layers_list st ->
  alayer_of st' l = f <$> alayer_of st l ->
  (forall q, q ∈ layers_list st -> q <> l -> alayer_of st' q = alayer_of st q) ->
  abs_layers st' = aupdate (sl_id s) f (abs_layers st).
Proof.
  intros Hi Hl Hs El Hf Hq. pose proof Hi as (Hr & _). unfold abs_layers, aupdate. rewrite El. apply omap_fmap_elem. intros q Hlq.
  destruct (decide (q = l)) as [->|Hne].
  - rewrite Hf, (alayer_of_sl _ _ _ Hs). cbn. by rewrite decide_True.
  - rewrite Hq by done. destruct (alayer_listed own st q Hr Hlq) as (s' & Hs' & ->). cbn. rewrite decide_False; [done|].
    intros He. apply Hne. eapply (listed_id own st); [done..| |by rewrite Hs]. by rewrite Hs', <-He.
Qed.
Lemma abs_remove own st st' l s :
  linv own st -> l ∈ layers_list st -> sl st l = Some s ->
  layers_list st' = filter (fun q => q <> l) (layers_list st) ->
  (forall q, q ∈ layers_list st -> q <> l -> alayer_of st' q = alayer_of st q) ->
  abs_layers st' = aremove (sl_id s) (abs_layers st).
Proof.
  intros Hi Hl Hs El Hq. pose proof Hi as (Hr & _). unfold abs_layers, aremove. rewrite El. apply omap_filter_elem. intros q Hlq.
  destruct (alayer_listed own st q Hr Hlq) as (s' & Hs' & Ha). eexists. split; [exact Ha|]. cbn. split.
  - split; intros Hne He; apply Hne.
    + eapply (listed_id own st); [done..| |by rewrite Hs]. by rewrite Hs', <-He.
    + subst q. congruence.
  - intros Hne. by rewrite Hq, Ha.
Qed.
Lemma abs_append own st st' l a :
  linv own st -> layers_list st' = layers_list st ++ [l] -> alayer_of st' l = Some a ->
  (forall q, q ∈ layers_list st -> alayer_of st' q = alayer_of st q) ->
  abs_layers st' = abs_layers st ++ [a].
Proof.
  intros Hi El Ha Hq. unfold abs_layers. rewrite El, omap_app. cbn. rewrite Ha. f_equal. by apply omap_ext_elem.
Qed.
End layer_store.
