(* ===== verification/LayerStoreCalls.v ===== *)
(** Every call of the store of layers keeps its invariant and is a step of the abstract
    store. *)
From S2P Require Import Prelude Heap RbSearch KeyOrders MapC MapIface RestartManager ContainersStoreProps Effects LayerStore LayerStoreInv LayerStoreOps LayerStoreDelete LayerStoreSpec.

Open Scope Z_scope.

(** ** Calls and what they may do *)
Inductive lay_call :=
| LCreate (id : cstr) (opts : option layer_opts) (diff : bool)
| LDelete (id : option cstr)
| LMount (id : option cstr)
| LUmount (id : option cstr) (force : bool)
| LSetHold (id : option cstr) (increase : bool)
| LGetHold (id : option cstr)
| LExists (id : cstr)
| LLookup (name : option cstr)
| LList
| LByCompress (digest : cstr)
| LByUncompress (digest : cstr)
| LCheck (id : cstr).

Inductive lay_result :=
| RCreate (z : Z) (new_id : option cstr)
| RStatus (z : Z)
| RPath (path : option cstr)
| RHold (n : option Z)
| RBool (b : bool)
| RInfo (i : option layer_info)
| RInfos (z : Z) (l : list layer_info).

(** What a reader sees of a layer. *)
Definition view (i : layer_info) := (li_id i, li_parent i, li_uncompressed_digest i, li_compressed_digest i, li_mount_count i).
Definition aview (a : alayer) := (a_id a, a_parent a, a_diff a, a_compressed a, a_count a).

Section abstract.
Context (E : lay_env).
Implicit Types (A : list alayer).

Definition a_create id (opts : option layer_opts) A z (new : option cstr) A' : Prop :=
  match opts with
  | Some o =>
      if le_lock E then
        match afind id A with
        | Some a => z = 0 /\ new = None /\ A' = aupdate (a_id a) (put_hold (a_hold a + 1)) A
        | None =>
            z = 0 /\ new = Some id /\
              A' = A ++ [ALayer id (lo_names o) (lo_uncompressed_digest o) (lo_compressed_digest o) (lo_parent o) 0 1] \/
            z <> 0 /\ new = None /\ A' = A
        end
      else z = -1 /\ new = None /\ A' = A
  | None => z = -1 /\ new = None /\ A' = A
  end.

(** The layer a call with the lock finds. *)
Definition afind_lock (id : option cstr) A : option alayer := id ← id; if le_lock E then afind id A else None.

Definition a_delete (id : option cstr) A z A' : Prop :=
  match afind_lock id A with
  | Some a =>
      z = -1 /\ A' = A /\ le_umount E = false \/
      z = (if le_rm E && le_rmdir E then 0 else -1) /\ A' = aremove (a_id a) A
  | None => z = (if le_lock E && bool_decide (id <> None) then 0 else -1) /\ A' = A
  end.
Definition a_mount (id : option cstr) A (r : option cstr) A' : Prop :=
  match afind_lock id A with
  | Some a => A' = aupdate (a_id a) (put_count (a_count a + 1)) A \/ r = None /\ A' = A
  | None => r = None /\ A' = A
  end.
Definition a_umount (id : option cstr) (force : bool) A z A' : Prop :=
  match afind_lock id A with
  | Some a =>
      z = 0 /\ A' = aupdate (a_id a) (put_count (if force then 0 else Z.max 0 (a_count a - 1))) A \/
      z = -1 /\ A' = A /\ le_umount E = false
  | None => z = 0 /\ A' = A
  end.

(** The layer with this id. *)
Definition aid (id : option cstr) A : option alayer :=
  id ← id; if le_lock E then head (filter (fun a => a_id a = id) A) else None.
Definition a_set_hold (id : option cstr) (increase : bool) A z A' : Prop :=
  match aid id A with
  | Some a => z = 0 /\ A' = aupdate (a_id a) (put_hold (a_hold a + if increase then 1 else -1)) A
  | None => z = -1 /\ A' = A
  end.

Definition a_lookup (name : option cstr) A (r : option layer_info) : Prop :=
  match afind_lock name A with
  | Some a => if le_copy E then view <$> r = Some (aview a) else r = None
  | None => r = None
  end.
(** Copies of some layers. *)
Definition a_infos (B : list alayer) z (r : list layer_info) : Prop :=
  z = 0 /\ view <$> r = aview <$> B /\ le_lock E && le_array E = true \/
  z = -1 /\ r = [] /\ le_lock E && le_array E && le_copy E = false.
Definition a_by (f : alayer -> option cstr) (digest : cstr) A z (r : list layer_info) : Prop :=
  match filter (fun a => f a = Some digest) A with
  | [] => z = -1 /\ r = []
  | B => a_infos B z r
  end.
(** The unmount at the end may take away a mount that is not its own, or fail. *)
Definition a_check (id : cstr) A z A' : Prop :=
  match afind_lock (Some id) A with
  | Some a =>
      (if decide (a_diff a = None) then z = 0 else z = -1 \/ z = le_check E) /\
      exists n, A' = aupdate (a_id a) (put_count n) A /\ Z.max 0 (a_count a - 1) <= n <= a_count a + 1
  | None => z = -1 /\ A' = A
  end.

(** A step of the abstract store. *)
Definition astep (c : lay_call) A (r : lay_result) A' : Prop :=
  match c, r with
  | LCreate id opts _, RCreate z new => a_create id opts A z new A'
  | LDelete id, RStatus z => a_delete id A z A'
  | LMount id, RPath r => a_mount id A r A'
  | LUmount id force, RStatus z => a_umount id force A z A'
  | LSetHold id inc, RStatus z => a_set_hold id inc A z A'
  | LGetHold id, RHold n => n = a_hold <$> aid id A /\ A' = A
  | LExists id, RBool b => b = bool_decide (is_Some (afind_lock (Some id) A)) /\ A' = A
  | LLookup name, RInfo i => a_lookup name A i /\ A' = A
  | LList, RInfos z l => a_infos A z l /\ A' = A
  | LByCompress dg, RInfos z l => a_by a_compressed dg A z l /\ A' = A
  | LByUncompress dg, RInfos z l => a_by a_diff dg A z l /\ A' = A
  | LCheck id, RStatus z => a_check id A z A'
  | _, _ => False
  end.
End abstract.

Section layer_store.
Context {MI MG : Type} {cmp : cstr -> cstr -> Z} `{!KeyOrder cmp}.
Context {opsI : MapOps cstr N MI} `{!MapLaws cmp opsI}.
Context {opsG : MapOps cstr N MG} `{!MapLaws cmp opsG}.
Abbreviation layer_store := (layer_store MI MG).
Implicit Types (st : layer_store) (own : list N) (p q l : N).
Context (E : lay_env).

Definition run_call (c : lay_call) : M layer_store lay_result :=
  match c with
  | LCreate id opts diff => r ← layer_store_create E id opts diff; mret (RCreate r.1 r.2)
  | LDelete id => z ← layer_store_delete E id; mret (RStatus z)
  | LMount id => r ← layer_store_mount E id; mret (RPath r)
  | LUmount id force => z ← layer_store_umount E id force; mret (RStatus z)
  | LSetHold id true => z ← layer_inc_hold_refs E id; mret (RStatus z)
  | LSetHold id false => z ← layer_dec_hold_refs E id; mret (RStatus z)
  | LGetHold id => r ← layer_get_hold_refs E id; mret (RHold r)
  | LExists id => b ← layer_store_exists E id; mret (RBool b)
  | LLookup name => i ← layer_store_lookup E name; mret (RInfo i)
  | LList => r ← layer_store_list E; mret (RInfos r.1 r.2)
  | LByCompress dg => r ← layer_store_by_compress_digest E dg; mret (RInfos r.1 r.2)
  | LByUncompress dg => r ← layer_store_by_uncompress_digest E dg; mret (RInfos r.1 r.2)
  | LCheck id => z ← layer_store_check E id; mret (RStatus z)
  end.

(** ** Looking a layer up for a while *)

(** The layer a call with the lock finds. *)
Definition found st (id : option cstr) : option N := id ← id; if le_lock E then resolve st id else None.

Lemma found_afind own st id : linv own st -> afind_lock E id (abs_layers st) = found st id ≫= alayer_of st.
Proof.
  intros Hi. unfold afind_lock, found. destruct id as [id|]; [cbn|done]. destruct (le_lock E); [|done]. by eapply resolve_afind.
Qed.
Lemma found_listed own st id l : linv own st -> found st id = Some l -> l ∈ layers_list st /\ exists s, sl st l = Some s.
Proof.
  intros Hi Hf. unfold found in Hf. destruct id as [id|]; [cbn in Hf|done]. destruct (le_lock E); [|done].
  assert (l ∈ layers_list st) as Hl by (eapply layer_resolve_listed; [apply Hi|done]).
  split; [done|]. apply (listed_live own st l (proj1 Hi) Hl).
Qed.

Lemma with_layer_spec {A} own st id (a : A) (m : N -> M layer_store A) (Q : A -> layer_store -> Prop) :
  linv own st -> (length own < 8)%nat ->
  (found st (Some id) = None -> Q a st) ->
  (forall l st1, found st (Some id) = Some l -> linv (l :: own) st1 -> local st st1 -> wp (m l) Q st1) ->
  wp (l ← lookup_with_lock E id; if decide (l = NULL) then mret a else m l) Q st.
Proof.
  intros Hi Hlen Hnone Hsome. apply wp_mbind. unfold lookup_with_lock, found in *.
  destruct (le_lock E); cbn [negb mbind option_bind] in *.
  2: { apply wp_mret. rewrite decide_True by done. by apply wp_mret, Hnone. }
  eapply wp_conseq; [by apply (layer_lookup_spec own)|]. intros p st1 (Hl1 & _ & Hp).
  destruct (resolve st id) as [l|] eqn:Hres; cbn in *.
  - destruct Hp as (-> & Hnn & Hi1 & _). rewrite decide_False by done. by eapply Hsome.
  - destruct Hp as [-> ->]. rewrite decide_True by done. by apply wp_mret, Hnone.
Qed.

(** ** Mount counts *)

Lemma bounded_succ st k : bounded k st -> bounded (k + 1) st.
Proof. intros Hb q. pose proof (Hb q). lia. Qed.

(** Only the mount count of [l] changes. *)
Record counted l (n : Z) st st' : Prop := {
  ct_list : layers_list st' = layers_list st;
  ct_by_id : by_id st' = by_id st;
  ct_by_name : by_name st' = by_name st;
  ct_layer q : is_Some (ls_layers st' !! q) ->
    is_Some (ls_layers st !! q) /\ skey st' q = skey st q /\
    count st' q = (if decide (q = l) then n else count st q) /\ hold st' q = hold st q
}.
Lemma counted_recount l n st st' : recount l n st st' -> counted l n st st'.
Proof. intros []. by split. Qed.
Lemma counted_local l n st st' : local st st' -> count st l = n -> counted l n st st'.
Proof.
  intros Hl Hn. split; [apply Hl..|]. intros q Hq. destruct (lc_layer _ _ Hl q Hq) as (? & ? & ? & ?).
  split_and!; try done. case_decide; congruence.
Qed.
Lemma counted_trans l m n st st1 st2 : counted l m st st1 -> counted l n st1 st2 -> counted l n st st2.
Proof.
  intros [L1 I1 N1 H1] [L2 I2 N2 H2]. split; [congruence..|]. intros q Hq. destruct (H2 q Hq) as (Hq1 & K2 & C2 & B2).
  destruct (H1 q Hq1) as (Hq0 & K1 & C1 & B1). split_and!; [done|congruence| |congruence].
  rewrite C2. by case_decide.
Qed.
Lemma counted_bounded l n k st st' : counted l n st st' -> n <= k -> bounded k st -> bounded k st'.
Proof.
  intros [_ _ _ H] Hn Hb q. destruct (ls_layers st' !! q) eqn:Hq.
  - destruct (H q) as (_ & _ & -> & ->); [eauto|]. pose proof (Hb q). case_decide; lia.
  - destruct (count_dead _ _ Hq). pose proof (Hb NULL). lia.
Qed.
Lemma counted_at own l n st st' q : counted l n st st' -> lrefs_ok own st' -> q ∈ layers_list st ->
  skey st' q = skey st q /\ count st' q = (if decide (q = l) then n else count st q) /\ hold st' q = hold st q.
Proof.
  intros Hc Hr Hq. destruct (lrefs_live own st' q Hr) as (x & s & Hx & _).
  { apply lrefs_listed. by rewrite (ct_list _ _ _ _ Hc). }
  apply (ct_layer _ _ _ _ Hc). eauto.
Qed.
Lemma abs_counted own own' l n s st st' :
  linv own st -> linv own' st' -> l ∈ layers_list st -> sl st l = Some s -> counted l n st st' ->
  abs_layers st' = aupdate (sl_id s) (put_count n) (abs_layers st).
Proof.
  intros Hi (Hr' & _) Hl Hs Hc. eapply abs_update; [done..|by rewrite (ct_list _ _ _ _ Hc)| |].
  - destruct (counted_at own' l n st st' l Hc Hr' Hl) as (K & C & H). rewrite decide_True in C by done.
    unfold alayer_of. rewrite K, C, H. destruct (skey st l) as [[[[[? ?] ?] ?] ?]|]; done.
  - intros q Hq Hne. destruct (counted_at own' l n st st' q Hc Hr' Hq) as (K & C & H).
    rewrite decide_False in C by done. by apply alayer_of_ext.
Qed.

(** Running [m] on a layer that the call has looked up and drops afterwards. *)
Lemma dropping_spec {A} own l st (m : M layer_store A) (Q : A -> layer_store -> Prop) :
  wp m (fun a st1 => linv (l :: own) st1 /\ (forall st2, linv own st2 -> local st1 st2 -> Q a st2)) st ->
  wp (a ← m; layer_ref_dec l;; mret a) Q st.
Proof.
  intros Hm. apply wp_mbind. eapply wp_conseq; [exact Hm|]. intros a st1 [Hi HQ]. apply wp_mbind.
  eapply wp_conseq; [by apply (layer_drop_spec own)|]. intros ? st2 [Hi2 Hl]. apply wp_mret. by apply HQ.
Qed.

Lemma mount_spec own st id :
  linv own st -> (length own < 8)%nat -> (forall l, count st l < 2 ^ 31 - 1) ->
  wp (layer_store_mount E id) (fun r st' => linv own st' /\
    (forall k, bounded k st -> bounded (k + 1) st') /\
    match found st id with
    | None => r = None /\ st' = st
    | Some l => exists n, counted l n st st' /\ (n = count st l + 1 \/ n = count st l /\ r = None)
    end) st.
Proof.
  intros Hi Hlen Hb. unfold layer_store_mount. destruct id as [id|]; [|apply wp_mret; split; [done|split; [apply bounded_succ|done]]].
  apply (with_layer_spec own); [done..| |].
  { intros ->. split; [done|]. split; [apply bounded_succ|done]. }
  intros l st1 Hf Hi1 Hl1. rewrite Hf. destruct (found_listed _ _ _ _ Hi Hf) as (Hl & s & Hs). apply (dropping_spec own).
  assert (l ∈ layers_list st1) as Hlist1 by (by rewrite (lc_list _ _ Hl1)).
  destruct (local_listed _ _ _ l Hl1 (proj1 Hi1) Hl) as (_ & Hc & _).
  eapply wp_conseq; [apply (mount_helper_spec E (l :: own)); [done|by left|done|rewrite Hc; apply Hb]|].
  intros r st2 (Hi2 & Hcase). split; [done|]. intros st3 Hi3 Hl3.
  assert (exists n, counted l n st st3 /\ (n = count st l + 1 \/ n = count st l /\ r = None)) as (n & Hn & Hcase').
  { destruct Hcase as [Hrc|[Hloc ->]].
    - exists (count st l + 1). split; [|by left]. rewrite Hc in Hrc. eapply counted_trans; [by apply counted_local|].
      eapply counted_trans; [by apply counted_recount|]. apply counted_local; [done|].
      destruct (counted_at (l :: own) l (count st l + 1) st1 st2 l) as (_ & -> & _); [by apply counted_recount|apply Hi2|done|].
      by rewrite decide_True.
    - exists (count st l). split; [|by right]. apply counted_local; [|done]. by do 2 (etrans; [done|]). }
  split; [done|]. split.
  - intros k Hk. eapply counted_bounded; [exact Hn| |intros q; pose proof (Hk q); lia]. pose proof (Hk l). destruct Hcase'; lia.
  - by exists n.
Qed.

Lemma umount_spec own st id force :
  linv own st -> (length own < 8)%nat ->
  wp (layer_store_umount E id force) (fun z st' => linv own st' /\
    (forall k, bounded k st -> bounded k st') /\
    match found st id with
    | None => z = 0 /\ st' = st
    | Some l => exists n, counted l n st st' /\
        (z = 0 /\ n = (if force then 0 else Z.max 0 (count st l - 1)) \/ z = -1 /\ n = count st l /\ le_umount E = false)
    end) st.
Proof.
  intros Hi Hlen. unfold layer_store_umount. destruct id as [id|]; [|by apply wp_mret].
  apply (with_layer_spec own); [done..|by intros ->|].
  intros l st1 Hf Hi1 Hl1. rewrite Hf. destruct (found_listed _ _ _ _ Hi Hf) as (Hl & s & Hs). apply (dropping_spec own).
  assert (l ∈ layers_list st1) as Hlist1 by (by rewrite (lc_list _ _ Hl1)).
  destruct (local_listed _ _ _ l Hl1 (proj1 Hi1) Hl) as (_ & Hc & _).
  eapply wp_conseq; [apply (umount_helper_spec E (l :: own)); [done|by left|done]|].
  intros z st2 (Hi2 & Hcase). split; [done|]. intros st3 Hi3 Hl3. rewrite Hc in Hcase.
  assert (0 <= count st l) as Hpos by apply (mk_count _ (proj2 (proj2 Hi))).
  set (m := if force then 0 else Z.max 0 (count st l - 1)) in *.
  assert (exists n, counted l n st1 st2 /\ (z = 0 /\ n = m \/ z = -1 /\ n = count st l /\ le_umount E = false)) as (n & Hn & Hcase').
  { destruct Hcase as [[-> [Hrc|[-> Hz]]]|(-> & -> & Hu)].
    - exists m. split; [by apply counted_recount|by left].
    - exists m. split; [apply counted_local; [done|]; unfold m; destruct force; lia|by left].
    - exists (count st l). split; [by apply counted_local|by right]. }
  assert (counted l n st st3) as Hn3.
  { eapply counted_trans; [by apply counted_local|]. eapply counted_trans; [exact Hn|]. apply counted_local; [done|].
    destruct (counted_at (l :: own) l n st1 st2 l Hn (proj1 Hi2) Hlist1) as (_ & -> & _). by rewrite decide_True. }
  split; [done|]. split.
  - intros k Hk. eapply counted_bounded; [exact Hn3| |done]. pose proof (Hk l). unfold m in Hcase'. destruct force; lia.
  - by exists n.
Qed.

Lemma found_counted l n id st st' : counted l n st st' -> found st' id = found st id.
Proof. intros Hc. unfold found, resolve. by rewrite (ct_by_id _ _ _ _ Hc), (ct_by_name _ _ _ _ Hc). Qed.
Lemma found_local id st st' : local st st' -> found st' id = found st id.
Proof. intros Hl. unfold found, resolve. by rewrite (lc_by_id _ _ Hl), (lc_by_name _ _ Hl). Qed.

(** Mounting for the check, when the layer has a digest. *)
Lemma check_mount_spec own st id l s :
  linv own st -> (length own < 8)%nat -> found st (Some id) = Some l -> (forall l, count st l < 2 ^ 31 - 1) ->
  wp (if bool_decide (sl_diff_digest s = None) then mret 0
      else rootfs ← layer_store_mount E (Some id);
           match rootfs with None => mret (-1) | Some _ => mret (le_check E) end)
    (fun z st' => linv own st' /\ (forall k, bounded k st -> bounded (k + 1) st') /\
       (if decide (sl_diff_digest s = None) then z = 0 else z = -1 \/ z = le_check E) /\
       exists n, counted l n st st' /\ count st l <= n <= count st l + 1) st.
Proof.
  intros Hi Hlen Hf Hb. destruct (decide (sl_diff_digest s = None)) as [Hd|Hd].
  - rewrite bool_decide_eq_true_2 by done. apply wp_mret. split; [done|]. split; [apply bounded_succ|]. split; [done|].
    exists (count st l). split; [by apply counted_local|lia].
  - rewrite bool_decide_eq_false_2 by done. apply wp_mbind. eapply wp_conseq; [by apply (mount_spec own)|].
    intros r st' (Hi' & Hbd & Hc). rewrite Hf in Hc. destruct Hc as (n & Hn & Hcase).
    destruct r; apply wp_mret; (split; [done|]); (split; [done|]); (split; [auto|]); exists n; (split; [done|lia]).
Qed.

Lemma check_spec st id :
  linv [] st -> (forall l, count st l < 2 ^ 31 - 1) ->
  wp (layer_store_check E id) (fun z st' => linv [] st' /\ (forall k, bounded k st -> bounded (k + 1) st') /\
    match found st (Some id) with
    | None => z = -1 /\ st' = st
    | Some l => exists s n, sl st l = Some s /\ counted l n st st' /\
        (if decide (sl_diff_digest s = None) then z = 0 else z = -1 \/ z = le_check E) /\
        Z.max 0 (count st l - 1) <= n <= count st l + 1
    end) st.
Proof.
  intros Hi Hb. unfold layer_store_check. apply (with_layer_spec []); [done|cbn; lia|intros ->; split; [done|split; [apply bounded_succ|done]]|].
  intros l st1 Hf Hi1 Hl1. rewrite Hf. destruct (found_listed _ _ _ _ Hi Hf) as (Hl & s & Hs).
  destruct (local_listed _ _ _ l Hl1 (proj1 Hi1) Hl) as (K1 & C1 & _).
  assert (0 <= count st l) as Hpos by apply (mk_count _ (proj2 (proj2 Hi))).
  unfold skey in K1. rewrite Hs in K1. destruct (sl st1 l) as [s1|] eqn:Hs1; [|done]. cbn in K1.
  assert (sl_diff_digest s1 = sl_diff_digest s) as Ed by (unfold key in K1; congruence).
  apply wp_mbind. eapply wp_get_slayer; [done|]. apply wp_mbind.
  assert (forall l0, count st1 l0 < 2 ^ 31 - 1) as Hb1.
  { intros q. destruct (ls_layers st1 !! q) eqn:Hq; [|destruct (count_dead _ _ Hq); lia].
    destruct (lc_layer _ _ Hl1 q) as (_ & _ & -> & _); [eauto|apply Hb]. }
  eapply wp_conseq; [apply (check_mount_spec [l] st1 id l s1); [done|cbn; lia|by rewrite (found_local _ _ _ Hl1)|done]|].
  intros z st2 (Hi2 & Hbd2 & Hz & n & Hn & Hle). apply wp_mbind.
  eapply wp_conseq; [apply (umount_spec [l]); [done|cbn; lia]|]. intros z' st3 (Hi3 & Hbd3 & Hc).
  rewrite (found_counted _ _ _ _ _ Hn), (found_local _ _ _ Hl1), Hf in Hc. destruct Hc as (m & Hm & Hcase).
  assert (l ∈ layers_list st1) as Hlist1 by (by rewrite (lc_list _ _ Hl1)).
  destruct (counted_at [l] l n st1 st2 l Hn (proj1 Hi2) Hlist1) as (_ & Hc2 & _). rewrite decide_True in Hc2 by done.
  assert (counted l m st1 st3) as Hm3 by by eapply counted_trans.
  apply wp_mbind. eapply wp_conseq; [by apply (layer_drop_spec [])|]. intros ? st4 [Hi4 Hl4]. apply wp_mret.
  destruct (counted_at [l] l m st1 st3 l Hm3 (proj1 Hi3) Hlist1) as (_ & Hc3 & _). rewrite decide_True in Hc3 by done.
  split; [done|]. split.
  - intros k Hk. assert (0 <= k) by (pose proof (Hk l); lia). eapply bounded_local, Hbd3, Hbd2; [lia|done|]. by eapply bounded_local.
  - exists s, m. split; [done|]. rewrite <-Ed. split; [|split; [done|lia]].
    eapply counted_trans; [by apply counted_local|]. eapply counted_trans; [exact Hm3|]. by apply counted_local.
Qed.

(** ** Holds *)
Lemma abs_rehold own l n s st st' :
  linv own st -> l ∈ layers_list st -> sl st l = Some s -> rehold l n st st' ->
  abs_layers st' = aupdate (sl_id s) (put_hold n) (abs_layers st).
Proof.
  intros Hi Hl Hs Hh. pose proof (rehold_reads _ _ _ _ Hh) as Hq. eapply abs_update; [done..| | |].
  - by destruct Hh as (x & _ & ->).
  - destruct (Hq l) as (K & C & H). rewrite decide_True in H by done. unfold alayer_of. rewrite K, C, H.
    destruct (skey st l) as [[[[[? ?] ?] ?] ?]|]; done.
  - intros q _ Hne. destruct (Hq q) as (K & C & H). rewrite decide_False in H by done. by apply alayer_of_ext.
Qed.
Lemma bounded_rehold l n k st st' : rehold l n st st' -> - 1 <= n - hold st l <= 1 -> bounded k st -> bounded (k + 1) st'.
Proof.
  intros Hh Hn Hb q. destruct (rehold_reads _ _ _ _ Hh q) as (_ & -> & ->). pose proof (Hb q). case_decide; [subst|]; lia.
Qed.

Lemma aid_by_id own st id : linv own st -> le_lock E = true ->
  aid E (Some id) (abs_layers st) = mo_abs (by_id st) !! id ≫= alayer_of st.
Proof. intros Hi Hlk. unfold aid. cbn. rewrite Hlk. by eapply head_by_id. Qed.
Lemma by_id_listed own st id l : linv own st -> mo_abs (by_id st) !! id = Some l ->
  l ∈ layers_list st /\ exists s, sl st l = Some s.
Proof.
  intros Hi Hid. apply (lx_id _ (proj1 (proj2 Hi))) in Hid as [Hl _]. split; [done|]. by eapply listed_live, Hl; apply Hi.
Qed.

Lemma set_hold_spec st id increase :
  linv [] st -> (forall l, - 2 ^ 31 < hold st l < 2 ^ 31 - 1) ->
  wp (layer_set_hold_refs E id increase) (fun z st' => linv [] st' /\
    (forall k, bounded k st -> bounded (k + 1) st') /\
    a_set_hold E id increase (abs_layers st) z (abs_layers st')) st.
Proof.
  intros Hi Hb. assert (forall k, bounded k st -> bounded (k + 1) st) as Hsucc by (intros k; apply bounded_succ).
  unfold layer_set_hold_refs, a_set_hold. destruct id as [id|]; [|by apply wp_mret].
  destruct (le_lock E) eqn:Hlk; cbn [negb]; [|unfold aid; cbn; rewrite Hlk; by apply wp_mret].
  rewrite (aid_by_id [] st id Hi Hlk). apply wp_mbind, wp_gets.
  rewrite (mo_search_ok id _ (lx_id_wf _ (proj1 (proj2 Hi)))).
  destruct (mo_abs (by_id st) !! id) as [l|] eqn:Hid; cbn; [|by apply wp_mret].
  destruct (by_id_listed [] st id l Hi Hid) as (Hl & s & Hs). rewrite (alayer_of_sl _ _ _ Hs). cbn.
  apply wp_mbind. eapply wp_conseq.
  { apply (change_hold_spec [] st l); [done|by apply lrefs_listed|]. pose proof (Hb l). destruct increase; lia. }
  intros ? st' [Hi' Hh]. apply wp_mret. split; [done|]. split.
  - intros k. eapply bounded_rehold; [done|]. destruct increase; lia.
  - split; [done|]. by eapply (abs_rehold []).
Qed.

Lemma get_hold_spec st id :
  linv [] st -> wp (layer_get_hold_refs E id) (fun n st' => st' = st /\ n = a_hold <$> aid E id (abs_layers st)) st.
Proof.
  intros Hi. unfold layer_get_hold_refs. destruct id as [id|]; [|by apply wp_mret].
  destruct (le_lock E) eqn:Hlk; cbn [negb]; [|unfold aid; cbn; rewrite Hlk; by apply wp_mret].
  rewrite (aid_by_id [] st id Hi Hlk). apply wp_mbind, wp_gets.
  rewrite (mo_search_ok id _ (lx_id_wf _ (proj1 (proj2 Hi)))).
  destruct (mo_abs (by_id st) !! id) as [l|] eqn:Hid; cbn; [|by apply wp_mret].
  destruct (by_id_listed [] st id l Hi Hid) as (Hl & s & Hs). rewrite (alayer_of_sl _ _ _ Hs).
  unfold sl in Hs. destruct (ls_layers st !! l) as [x|] eqn:Hx; [|done].
  apply wp_mbind. eapply wp_get_layer; [done|]. apply wp_mret. cbn. unfold hold. by rewrite Hx.
Qed.

(** ** Reading *)
Lemma exists_spec st id :
  linv [] st -> wp (layer_store_exists E id) (fun b st' => linv [] st' /\ local st st' /\
    b = bool_decide (is_Some (afind_lock E (Some id) (abs_layers st)))) st.
Proof.
  intros Hi. unfold layer_store_exists. rewrite (found_afind [] st _ Hi).
  apply (with_layer_spec []); [done|cbn; lia|by intros ->|].
  intros l st1 Hf Hi1 Hl1. rewrite Hf. destruct (found_listed _ _ _ _ Hi Hf) as (Hl & s & Hs). cbn.
  rewrite (alayer_of_sl _ _ _ Hs). apply wp_mbind. eapply wp_conseq; [by apply (layer_drop_spec [])|].
  intros ? st2 [Hi2 Hl2]. apply wp_mret. split; [done|]. split; [by etrans|]. by rewrite bool_decide_eq_true_2 by eauto.
Qed.

Lemma info_of_spec st l a : alayer_of st l = Some a -> wp (info_of l) (fun i st' => st' = st /\ view i = aview a) st.
Proof.
  intros Ha. unfold alayer_of, skey in Ha. destruct (sl st l) as [s|] eqn:Hs; [|done]. cbn in Ha. injection Ha as <-.
  unfold sl in Hs. destruct (ls_layers st !! l) as [x|] eqn:Hx; [|done]. cbn in Hs. unfold info_of.
  apply wp_mbind. eapply wp_get_layer; [done|]. apply wp_mbind. eapply wp_lift; [done|]. apply wp_mret.
  split; [done|]. unfold view, aview, copy_json_to_layer, count, count_of. cbn. by rewrite Hx.
Qed.

Lemma lookup_info_spec st name :
  linv [] st -> wp (layer_store_lookup E name) (fun i st' => linv [] st' /\ local st st' /\ a_lookup E name (abs_layers st) i) st.
Proof.
  intros Hi. unfold layer_store_lookup, a_lookup. destruct name as [name|]; [|by apply wp_mret].
  rewrite (found_afind [] st _ Hi). apply (with_layer_spec []); [done|cbn; lia|by intros ->|].
  intros l st1 Hf Hi1 Hl1. rewrite Hf. destruct (found_listed _ _ _ _ Hi Hf) as (Hl & s & Hs). cbn.
  pose proof (alayer_of_sl _ _ _ Hs) as Ha. rewrite Ha. destruct (le_copy E); cbn [negb].
  - assert (alayer_of st1 l = alayer_of st l) as Ha1.
    { destruct (local_listed _ _ _ l Hl1 (proj1 Hi1) Hl) as (? & ? & ?). by apply alayer_of_ext. }
    rewrite Ha in Ha1. apply wp_mbind. eapply wp_conseq; [by apply info_of_spec|]. intros i st2 [-> Hv].
    apply wp_mbind. eapply wp_conseq; [by apply (layer_drop_spec [])|]. intros ? st2 [Hi2 Hl2]. apply wp_mret.
    split; [done|]. split; [by etrans|]. cbn. by rewrite Hv.
  - apply wp_mbind. eapply wp_conseq; [by apply (layer_drop_spec [])|]. intros ? st2 [Hi2 Hl2]. apply wp_mret.
    split; [done|]. by split; [etrans|].
Qed.

(** The outcome of copying the layers at [ps]. *)
Definition copied st (ps : list N) (r : Z * list layer_info) : Prop :=
  r.1 = 0 /\ view <$> r.2 = aview <$> omap (alayer_of st) ps \/ r = (-1, []) /\ le_copy E = false.

Lemma copied_cons st p a i ps r : le_copy E = true -> alayer_of st p = Some a -> view i = aview a ->
  copied st ps r -> copied st (p :: ps) (r.1, i :: r.2).
Proof.
  intros Hc Ha Hv [[H1 H2]|[_ H]]; [|congruence]. left. cbn. rewrite Ha. cbn. by rewrite Hv, H2.
Qed.
Lemma copied_local own st st' ps r : local st st' -> lrefs_ok own st' -> (forall p, p ∈ ps -> p ∈ layers_list st) ->
  copied st' ps r -> copied st ps r.
Proof.
  intros Hl Hr Hp. unfold copied. rewrite (omap_ext_elem (alayer_of st') (alayer_of st) ps); [done|].
  intros p Hps. destruct (local_listed own st st' p Hl Hr (Hp p Hps)) as (? & ? & ?). by apply alayer_of_ext.
Qed.

Lemma copy_layers_spec own st ps :
  lrefs_ok own st -> (forall p, p ∈ ps -> p ∈ layers_list st) ->
  wp (copy_layers E ps) (fun r st' => st' = st /\ copied st ps r) st.
Proof.
  intros Hr. induction ps as [|p ps IH]; intros Hps; cbn; [apply wp_mret; by split; [|left]|].
  destruct (le_copy E) eqn:Hc; cbn [negb]; [|apply wp_mret; by split; [|right]].
  destruct (alayer_listed own st p Hr) as (s & Hs & Ha); [apply Hps; by left|].
  apply wp_mbind. eapply wp_conseq; [by apply info_of_spec|]. intros i st1 [-> Hv]. apply wp_mbind.
  eapply wp_conseq; [apply IH; intros q Hq; apply Hps; by right|]. intros r st1 [-> Hcp]. apply wp_mret.
  split; [done|]. by eapply copied_cons.
Qed.

Lemma layer_list_spec st :
  linv [] st -> wp (layer_store_list E) (fun r st' => st' = st /\ a_infos E (abs_layers st) r.1 r.2) st.
Proof.
  intros Hi. unfold layer_store_list, a_infos. destruct (le_lock E), (le_array E); cbn [negb andb];
    try (apply wp_mret; by split; [|right]).
  apply wp_mbind, wp_gets. eapply wp_conseq; [by apply (copy_layers_spec []); [apply Hi|]|].
  intros r st' [-> [[H1 H2]|[-> H]]]; (split; [done|]); [by left|by right].
Qed.

(** Layers and their ids. *)
Definition with_id st p (id : cstr) : Prop := p ∈ layers_list st /\ sl_id <$> sl st p = Some id.

Lemma with_id_resolve own st p id : linv own st -> with_id st p id -> resolve st id = Some p.
Proof. intros (_ & Hx & _) Hw. unfold resolve. by rewrite (proj2 (lx_id _ Hx id p)). Qed.
Lemma with_id_local own st st' p id : local st st' -> lrefs_ok own st' -> with_id st p id -> with_id st' p id.
Proof.
  intros Hl Hr [Hp Hid]. destruct (local_listed own st st' p Hl Hr Hp) as (K & _).
  split; [by rewrite (lc_list _ _ Hl)|by rewrite (skey_id _ _ _ K)].
Qed.

Lemma copy_layers_by_id_spec st ps ids :
  linv [] st -> Forall2 (with_id st) ps ids ->
  wp (copy_layers_by_id E ids) (fun r st' => linv [] st' /\ local st st' /\ copied st ps r) st.
Proof.
  intros Hi HF. revert st Hi HF. revert ps. induction ids as [|id ids IH]; intros ps st Hi HF.
  { apply Forall2_nil_inv_r in HF as ->. cbn. apply wp_mret. split; [done|]. by split; [|left]. }
  destruct (Forall2_cons_inv_r _ _ _ _ HF) as (p & ps' & Hp & HF' & ->). cbn.
  destruct (le_copy E) eqn:Hc; cbn [negb]; [|apply wp_mret; split; [done|]; by split; [|right]].
  apply wp_mbind. eapply wp_conseq; [apply (layer_lookup_spec []); [done|cbn; lia]|]. intros p' st1 (Hl1 & _ & Hp').
  rewrite (with_id_resolve [] _ _ _ Hi Hp) in Hp'. destruct Hp' as (-> & Hnn & Hi1 & _). rewrite decide_False by done.
  destruct (with_id_local _ _ _ _ _ Hl1 (proj1 Hi1) Hp) as [Hp1 _].
  destruct (alayer_listed [p] st1 p (proj1 Hi1) Hp1) as (s & Hs & Ha). apply wp_mbind.
  eapply wp_conseq; [by apply info_of_spec|]. intros i st2 [-> Hv]. apply wp_mbind.
  eapply wp_conseq; [by apply (layer_drop_spec [])|]. intros ? st2 [Hi2 Hl2]. assert (local st st2) as Hl by by etrans.
  apply wp_mbind. eapply wp_conseq.
  { apply (IH ps' st2); [done|]. eapply Forall2_impl; [exact HF'|]. intros q j. eapply with_id_local; [done|apply Hi2]. }
  intros r st3 (Hi3 & Hl3 & Hcp). apply wp_mret. split; [done|]. split; [by etrans|].
  eapply copied_cons; [done| |done|].
  - rewrite <-Ha. destruct (local_listed _ _ _ p Hl1 (proj1 Hi1)) as (? & ? & ?); [apply Hp|]. symmetry. by apply alayer_of_ext.
  - eapply copied_local; [exact Hl|apply Hi2| |done]. intros q Hq.
    apply list_elem_of_lookup in Hq as (i' & Hq). by destruct (Forall2_lookup_l _ _ _ _ _ HF' Hq) as (j & _ & ? & _).
Qed.

(** The layers with a digest and their ids. *)
Lemma ids_with_split_ids (f : storage_layer -> option cstr) st (dg : cstr) (ps : list N) :
  (forall p, p ∈ ps -> p ∈ layers_list st) ->
  Forall2 (with_id st) (filter (fun p => sl st p ≫= f = Some dg) ps) (omap (id_with f st dg) ps).
Proof.
  induction ps as [|p ps IH]; intros Hps; [done|]. rewrite filter_cons. cbn. unfold id_with at 1.
  assert (Forall2 (with_id st) (filter (fun p => sl st p ≫= f = Some dg) ps) (omap (id_with f st dg) ps)) as HF
    by (apply IH; intros q Hq; apply Hps; by right).
  destruct (sl st p) as [s|] eqn:Hs; cbn.
  - destruct (decide (f s = Some dg)); [|done]. constructor; [|done]. split; [apply Hps; by left|]. by rewrite Hs.
  - by rewrite decide_False.
Qed.

Lemma abs_with_digest own st (f : storage_layer -> option cstr) (g : alayer -> option cstr) (dg : cstr) :
  lrefs_ok own st -> (forall p s a, sl st p = Some s -> alayer_of st p = Some a -> g a = f s) ->
  filter (fun a => g a = Some dg) (abs_layers st) =
  omap (alayer_of st) (filter (fun p => sl st p ≫= f = Some dg) (layers_list st)).
Proof.
  intros Hr Hg. symmetry. apply omap_filter_elem. intros p Hp. destruct (alayer_listed own st p Hr Hp) as (s & Hs & Ha).
  eexists. split; [exact Ha|]. split; [|done]. rewrite Hs. cbn. by rewrite (Hg p s _ Hs Ha).
Qed.

Lemma by_digest_spec st d (f : storage_layer -> option cstr) (g : alayer -> option cstr) dg :
  linv [] st -> di_ok d -> (forall dg, dlist d dg = ids_with f st dg) ->
  (forall p s a, sl st p = Some s -> alayer_of st p = Some a -> g a = f s) -> le_lock E = true ->
  wp (layers_by_digest_map E d dg) (fun r st' => linv [] st' /\ local st st' /\ a_by E g dg (abs_layers st) r.1 r.2) st.
Proof.
  intros Hi Hd Hids Hg Hlk. unfold a_by. rewrite (abs_with_digest [] st f g dg (proj1 Hi) Hg).
  pose proof (ids_with_split_ids f st dg (layers_list st) (fun _ H => H)) as HF. fold (ids_with f st dg) in HF. rewrite <-Hids in HF.
  set (ps := filter _ _) in *. unfold layers_by_digest_map, dlist in *. rewrite (mo_search_ok dg _ (dk_wf _ Hd)).
  destruct (mo_abs (di_map d) !! dg) as [q|] eqn:Hq.
  2: { apply Forall2_nil_inv_r in HF. rewrite HF. apply wp_mret. split; [done|]. by split. }
  destruct (dk_live _ Hd _ _ Hq) as (i & rest & Ho). rewrite Ho in HF. cbn [default] in HF. apply wp_mbind. eapply wp_lift; [done|]. cbn [length Nat.eqb].
  destruct (Forall2_cons_inv_r _ _ _ _ HF) as (p & ps' & [Hp _] & _ & Eps).
  destruct (alayer_listed [] st p (proj1 Hi) Hp) as (s & Hs & Ha).
  assert (exists a B, omap (alayer_of st) ps = a :: B) as (a & B & EB) by (rewrite Eps; cbn; rewrite Ha; eauto).
  unfold a_infos. rewrite Hlk. cbn [andb]. rewrite EB. destruct (le_array E); cbn [negb andb].
  - eapply wp_conseq; [by apply (copy_layers_by_id_spec st ps)|]. intros r st' (Hi' & Hl & [[H1 H2]|[-> H]]); (split; [done|]); (split; [done|]).
    + left. by rewrite H2, EB.
    + by right.
  - apply wp_mret. split; [done|]. split; [done|]. by right.
Qed.

Lemma by_compress_spec st dg : linv [] st ->
  wp (layer_store_by_compress_digest E dg) (fun r st' => linv [] st' /\ local st st' /\ a_by E a_compressed dg (abs_layers st) r.1 r.2) st.
Proof.
  intros Hi. pose proof Hi as (_ & Hx & _). unfold layer_store_by_compress_digest. destruct (le_lock E) eqn:Hlk; cbn [negb].
  - apply wp_mbind, wp_gets. eapply (by_digest_spec st _ sl_compressed_diff_digest); [done|apply Hx|apply (lx_compress _ Hx)| |done].
    intros p s a Hs. rewrite (alayer_of_sl _ _ _ Hs). by intros [= <-].
  - apply wp_mret. split; [done|]. split; [done|]. unfold a_by, a_infos. rewrite Hlk. destruct (filter _ _); [done|by right].
Qed.
Lemma by_uncompress_spec st dg : linv [] st ->
  wp (layer_store_by_uncompress_digest E dg) (fun r st' => linv [] st' /\ local st st' /\ a_by E a_diff dg (abs_layers st) r.1 r.2) st.
Proof.
  intros Hi. pose proof Hi as (_ & Hx & _). unfold layer_store_by_uncompress_digest. destruct (le_lock E) eqn:Hlk; cbn [negb].
  - apply wp_mbind, wp_gets. eapply (by_digest_spec st _ sl_diff_digest); [done|apply Hx|apply (lx_uncompress _ Hx)| |done].
    intros p s a Hs. rewrite (alayer_of_sl _ _ _ Hs). by intros [= <-].
  - apply wp_mret. split; [done|]. split; [done|]. unfold a_by, a_infos. rewrite Hlk. destruct (filter _ _); [done|by right].
Qed.
End layer_store.
