(* ===== verification/LayerStoreProps.v ===== *)
(** The store of layers refines the abstract store, for every sequence of calls that gives new
    layers free names, as long as memory suffices; the store stays well formed. *)
From S2P Require Import Prelude Heap RbSearch KeyOrders MapC MapIface RestartManager ContainersStoreProps Effects LayerStore LayerStoreInv LayerStoreOps LayerStoreDelete LayerStoreSpec LayerStoreCalls.

Open Scope Z_scope.

(** The names a call would add. *)
Definition call_names (c : lay_call) : list cstr := match c with LCreate _ (Some o) _ => lo_names o | _ => [] end.
(** They are distinct and no layer has them. *)
Definition names_free (names : list cstr) (A : list alayer) : Prop :=
  NoDup names /\ forall n a, n ∈ names -> a ∈ A -> n ∉ a_names a.

Definition anames (A : list alayer) : list cstr := mjoin (a_names <$> A).

Lemma elem_of_anames n A : n ∈ anames A <-> exists a, a ∈ A /\ n ∈ a_names a.
Proof.
  unfold anames. rewrite list_elem_of_join. split.
  - intros (l & Hn & (a & -> & Ha)%list_elem_of_fmap). eauto.
  - intros (a & Ha & Hn). exists (a_names a). split; [done|]. apply list_elem_of_fmap. eauto.
Qed.
Lemma names_free_alt names A : names_free names A <-> NoDup names /\ forall n, n ∈ names -> n ∉ anames A.
Proof.
  unfold names_free. split; intros [H1 H2]; (split; [done|]).
  - intros n Hn (a & Ha & Hna)%elem_of_anames. by eapply H2.
  - intros n a Hn Ha Hna. apply (H2 n Hn), elem_of_anames. eauto.
Qed.
#[export] Instance names_free_dec names A : Decision (names_free names A).
Proof.
  refine (cast_if (decide (NoDup names /\ Forall (fun n => n ∉ anames A) names)));
    abstract (rewrite names_free_alt; by rewrite Forall_forall in *).
Defined.

(** The steps of a sequence of calls. *)
Fixpoint asteps (cs : list (lay_env * lay_call)) (A : list alayer) (rs : list lay_result) (A' : list alayer) : Prop :=
  match cs, rs with
  | [], [] => A' = A
  | (E, c) :: cs, r :: rs => exists B, astep E c A r B /\ asteps cs B rs A'
  | _, _ => False
  end.

Section layer_store.
Context {MI MG : Type} {cmp : cstr -> cstr -> Z} `{!KeyOrder cmp}.
Context {opsI : MapOps cstr N MI} `{!MapLaws cmp opsI}.
Context {opsG : MapOps cstr N MG} `{!MapLaws cmp opsG}.
Abbreviation layer_store := (layer_store MI MG).
Implicit Types (st : layer_store).

(** ** One call *)
Lemma abs_same_memory st st' : same_memory st st' -> abs_layers st' = abs_layers st.
Proof.
  intros [S1 _ _ S4 _]. unfold abs_layers. rewrite S1. apply omap_ext_elem. intros p Hp.
  unfold alayer_of, skey, sl, count, hold. by rewrite S4.
Qed.
Lemma names_free_index own st names : linv own st -> names_free names (abs_layers st) ->
  forall n, n ∈ names -> mo_abs (by_name st) !! n = None.
Proof.
  intros Hi [_ Hf] n Hn. destruct (mo_abs (by_name st) !! n) as [p|] eqn:Hp; [|done]. exfalso.
  apply (lx_name _ (proj1 (proj2 Hi))) in Hp as [Hp Hnp]. destruct (alayer_listed own st p (proj1 Hi) Hp) as (s & Hs & Ha).
  unfold names_at in Hnp. rewrite Hs in Hnp. eapply (Hf n); [done|unfold abs_layers; apply list_elem_of_omap; eauto|exact Hnp].
Qed.

Lemma mounted_abs own st i : linv own st ->
  (exists p, p ∈ layers_list st /\ sl_id <$> sl st p = Some i /\ 0 < count st p) <->
  exists a, a ∈ abs_layers st /\ a_id a = i /\ 0 < a_count a.
Proof.
  intros Hi. split.
  - intros (p & Hp & Hid & Hc). destruct (alayer_listed own st p (proj1 Hi) Hp) as (s & Hs & Ha). eexists. split.
    + unfold abs_layers. apply list_elem_of_omap. eauto.
    + rewrite Hs in Hid. by injection Hid.
  - intros (a & (p & Hp & Ha)%list_elem_of_omap & Hid & Hc). exists p. split; [done|].
    destruct (alayer_listed own st p (proj1 Hi) Hp) as (s & Hs & Ha'). rewrite Ha' in Ha. injection Ha as <-.
    rewrite Hs. cbn in *. by rewrite Hid.
Qed.

Section call.
Context (E : lay_env) (HE : env_ok E).

(** What a call keeps. *)
Definition call_keeps (k : Z) (c : lay_call) st (r : lay_result) st' : Prop :=
  linv [] st' /\ bounded (k + 1) st' /\ astep E c (abs_layers st) r (abs_layers st').

Lemma create_call k st id opts diff :
  linv [] st -> bounded k st -> k < 2 ^ 31 - 1 -> names_free (call_names (LCreate id opts diff)) (abs_layers st) ->
  wp (run_call E (LCreate id opts diff)) (call_keeps k (LCreate id opts diff) st) st.
Proof.
  intros Hi Hb Hk Hf. assert (bounded (k + 1) st) as Hb1 by by apply bounded_succ. unfold call_keeps. cbn. apply wp_mbind.
  unfold a_create. destruct opts as [o|]; [|by apply wp_mret, wp_mret].
  destruct (le_lock E) eqn:Hlk; [|unfold layer_store_create; rewrite Hlk; by apply wp_mret, wp_mret].
  eapply wp_conseq.
  { apply (layer_store_create_spec E HE); [done|done|apply Hf|by eapply names_free_index|]. intros l. pose proof (Hb l). lia. }
  intros r st' (Hi' & Hbd & Hp). apply wp_mret. split; [done|]. split; [by apply Hbd|].
  rewrite (resolve_afind [] st id Hi). unfold create_post in Hp. destruct (resolve st id) as [l|] eqn:Hres; cbn.
  - destruct Hp as (-> & El & Hq). assert (l ∈ layers_list st) as Hl by (eapply layer_resolve_listed; [apply Hi|done]).
    destruct (alayer_listed [] st l (proj1 Hi) Hl) as (s & Hs & Ha). rewrite Ha. cbn. split; [done|]. split; [done|].
    eapply (abs_update []); [done..| |].
    + destruct (Hq l Hl) as (K & C & H). rewrite decide_True in H by done. unfold alayer_of. rewrite K, C, H.
      by destruct (skey st l) as [[[[[? ?] ?] ?] ?]|].
    + intros q Hlq Hne. destruct (Hq q Hlq) as (K & C & H). rewrite decide_False in H by done. by apply alayer_of_ext.
  - destruct Hp as [[-> (l & [C1 C2 C3 C4 C5 C6 C7 C8 C9 C10])]|(Hr1 & Hr2 & Hs & _)].
    + left. split; [done|]. split; [done|]. apply (abs_append [] st st' l); [done..| |].
      * unfold alayer_of. rewrite C5, C7, C8. done.
      * intros q Hq. unfold alayer_of, skey, sl, count, hold. by rewrite C9.
    + right. split; [done|]. split; [done|]. by apply abs_same_memory.
Qed.

Lemma delete_call k st id :
  linv [] st -> bounded k st -> wp (run_call E (LDelete id)) (call_keeps k (LDelete id) st) st.
Proof.
  intros Hi Hb. assert (bounded (k + 1) st) as Hb1 by by apply bounded_succ. unfold call_keeps. cbn. apply wp_mbind.
  unfold layer_store_delete, a_delete, afind_lock. destruct id as [id|]; cbn;
    [|apply wp_mret, wp_mret; by rewrite andb_false_r].
  destruct (le_lock E); cbn [negb andb]; [|by apply wp_mret, wp_mret]. rewrite (resolve_afind [] st id Hi). apply wp_mbind.
  eapply wp_conseq; [by apply do_delete_layer_spec|]. intros z st' (Hi' & Hbd & Hp). apply wp_mret, wp_mret.
  split; [done|]. split; [by apply Hbd|]. destruct (resolve st id) as [l|] eqn:Hres; cbn; [|by destruct Hp as [-> ->]].
  assert (l ∈ layers_list st) as Hl by (eapply layer_resolve_listed; [apply Hi|done]).
  destruct (alayer_listed [] st l (proj1 Hi) Hl) as (s & Hs & Ha). rewrite Ha. cbn.
  destruct (Hp s Hs) as [(-> & Hloc & Hu)|[[[F1 F2 F3 F4 F5] _] [Hz _]]].
  - left. split; [done|]. split; [|done]. by eapply abs_local, Hi'.
  - right. split.
    + destruct (le_rm E && le_rmdir E); destruct (Z.eqb_spec z 0); cbn [negb]; try done; exfalso; naive_solver.
    + eapply (abs_remove []); [done..|]. intros q Hq Hne. destruct (F4 q Hq Hne) as (? & ? & ?). by apply alayer_of_ext.
Qed.

Lemma counts_small k st : bounded k st -> k < 2 ^ 31 - 1 -> forall l, count st l < 2 ^ 31 - 1.
Proof. intros Hb Hk l. pose proof (Hb l). lia. Qed.

Lemma mount_call k st id :
  linv [] st -> bounded k st -> k < 2 ^ 31 - 1 -> wp (run_call E (LMount id)) (call_keeps k (LMount id) st) st.
Proof.
  intros Hi Hb Hk. unfold call_keeps. cbn. apply wp_mbind.
  eapply wp_conseq; [apply (mount_spec E []); [done|cbn; lia|by eapply counts_small]|].
  intros r st' (Hi' & Hbd & Hp). apply wp_mret. split; [done|]. split; [auto|]. unfold a_mount. rewrite (found_afind E [] st id Hi).
  destruct (found E st id) as [l|] eqn:Hf; cbn; [|by destruct Hp as [-> ->]].
  destruct (found_listed _ _ _ _ _ Hi Hf) as (Hl & s & Hs). rewrite (alayer_of_sl _ _ _ Hs). cbn.
  destruct Hp as (n & Hn & Hcase). pose proof (abs_counted _ _ _ _ _ _ _ Hi Hi' Hl Hs Hn) as He.
  destruct Hcase as [->|[-> ->]]; [by left|right]. split; [done|]. rewrite He. symmetry.
  apply (abs_counted [] [] l _ s st st); try done. by apply counted_local.
Qed.

Lemma umount_call k st id force :
  linv [] st -> bounded k st -> wp (run_call E (LUmount id force)) (call_keeps k (LUmount id force) st) st.
Proof.
  intros Hi Hb. unfold call_keeps. cbn. apply wp_mbind. eapply wp_conseq; [apply (umount_spec E []); [done|cbn; lia]|].
  intros z st' (Hi' & Hbd & Hp). apply wp_mret. split; [done|]. split; [by apply bounded_succ, Hbd|].
  unfold a_umount. rewrite (found_afind E [] st id Hi). destruct (found E st id) as [l|] eqn:Hf; cbn; [|by destruct Hp as [-> ->]].
  destruct (found_listed _ _ _ _ _ Hi Hf) as (Hl & s & Hs). rewrite (alayer_of_sl _ _ _ Hs). cbn.
  destruct Hp as (n & Hn & Hcase). pose proof (abs_counted _ _ _ _ _ _ _ Hi Hi' Hl Hs Hn) as He.
  destruct Hcase as [[-> ->]|(-> & -> & Hu)]; [by left|right]. split; [done|]. split; [|done]. rewrite He. symmetry.
  apply (abs_counted [] [] l _ s st st); try done. by apply counted_local.
Qed.

Lemma check_call k st id :
  linv [] st -> bounded k st -> k < 2 ^ 31 - 1 -> wp (run_call E (LCheck id)) (call_keeps k (LCheck id) st) st.
Proof.
  intros Hi Hb Hk. unfold call_keeps. cbn. apply wp_mbind.
  eapply wp_conseq; [apply (check_spec E); [done|by eapply counts_small]|].
  intros z st' (Hi' & Hbd & Hp). apply wp_mret. split; [done|]. split; [auto|]. unfold a_check. rewrite (found_afind E [] st _ Hi).
  destruct (found E st (Some id)) as [l|] eqn:Hf; cbn; [|by destruct Hp as [-> ->]].
  destruct (found_listed _ _ _ _ _ Hi Hf) as (Hl & s & Hs). rewrite (alayer_of_sl _ _ _ Hs). cbn.
  destruct Hp as (s' & n & Hs' & Hn & Hz & Hle). rewrite Hs in Hs'. injection Hs' as <-. split; [done|].
  exists n. split; [|done]. by eapply (abs_counted [] []).
Qed.

(** Calls that only read. *)
Lemma read_call {A} k st (m : M layer_store A) (f : A -> lay_result) (P : A -> Prop) :
  bounded k st -> wp m (fun a st' => linv [] st' /\ local st st' /\ P a) st ->
  wp (a ← m; mret (f a)) (fun r st' => linv [] st' /\ bounded (k + 1) st' /\
    exists a, r = f a /\ P a /\ abs_layers st' = abs_layers st) st.
Proof.
  intros Hb Hm. apply wp_mbind. eapply wp_conseq; [exact Hm|]. intros a st' (Hi & Hl & HP). apply wp_mret.
  split; [done|]. split.
  - apply bounded_succ. eapply bounded_local; [|done..]. pose proof (Hb NULL). lia.
  - exists a. split_and!; [done..|]. by eapply abs_local, Hi.
Qed.

Definition only_reads (c : lay_call) : bool :=
  match c with LGetHold _ | LExists _ | LLookup _ | LList | LByCompress _ | LByUncompress _ => true | _ => false end.
Lemma reads_spec k c st : linv [] st -> bounded k st -> only_reads c = true -> wp (run_call E c) (call_keeps k c st) st.
Proof.
  intros Hi Hb Hc. destruct c; try done.
  - eapply wp_conseq; [eapply (read_call k); [done|]; eapply wp_conseq; [by apply get_hold_spec|]; intros ? ? [-> H]; split; [done|split; [done|exact H]]|].
    intros r st' (Hi' & Hb' & n & -> & Hn & Ha). split; [done|]. split; [done|]. by rewrite Ha.
  - eapply wp_conseq; [eapply (read_call k); [done|]; by apply exists_spec|].
    intros r st' (Hi' & Hb' & n & -> & Hn & Ha). split; [done|]. split; [done|]. by rewrite Ha.
  - eapply wp_conseq; [eapply (read_call k); [done|]; by apply lookup_info_spec|].
    intros r st' (Hi' & Hb' & n & -> & Hn & Ha). split; [done|]. split; [done|]. by rewrite Ha.
  - eapply wp_conseq; [eapply (read_call k st _ (fun r => RInfos r.1 r.2)); [done|]; eapply wp_conseq; [by apply layer_list_spec|]; intros ? ? [-> H]; split; [done|split; [done|exact H]]|].
    intros r st' (Hi' & Hb' & n & -> & Hn & Ha). split; [done|]. split; [done|]. by rewrite Ha.
  - eapply wp_conseq; [eapply (read_call k st _ (fun r => RInfos r.1 r.2)); [done|]; by apply by_compress_spec|].
    intros r st' (Hi' & Hb' & n & -> & Hn & Ha). split; [done|]. split; [done|]. by rewrite Ha.
  - eapply wp_conseq; [eapply (read_call k st _ (fun r => RInfos r.1 r.2)); [done|]; by apply by_uncompress_spec|].
    intros r st' (Hi' & Hb' & n & -> & Hn & Ha). split; [done|]. split; [done|]. by rewrite Ha.
Qed.

Lemma call_spec k c st :
  linv [] st -> bounded k st -> k < 2 ^ 31 - 1 -> names_free (call_names c) (abs_layers st) ->
  wp (run_call E c) (call_keeps k c st) st.
Proof.
  intros Hi Hb Hk Hf.
  destruct c; [by apply create_call|by apply delete_call|by apply mount_call|by apply umount_call| |by apply reads_spec..|by apply check_call].
  unfold call_keeps. assert (forall l, - 2 ^ 31 < hold st l < 2 ^ 31 - 1) as Hh by (intros l; pose proof (Hb l); lia).
  destruct increase; cbn; apply wp_mbind; (eapply wp_conseq; [by apply set_hold_spec|]);
    intros z st' (Hi' & Hbd & Ha); apply wp_mret; auto.
Qed.
End call.

(** ** Sequences of calls *)
Fixpoint run_calls (cs : list (lay_env * lay_call)) : M layer_store (list lay_result) :=
  match cs with
  | [] => mret []
  | (E, c) :: cs => r ← run_call E c; rs ← run_calls cs; mret (r :: rs)
  end.

(** Whoever creates a layer gives it names that are distinct and free at that time: creating
    a layer with a name in use frees it twice. *)
Fixpoint names_fit (cs : list (lay_env * lay_call)) st : bool :=
  match cs with
  | [] => true
  | (E, c) :: cs =>
      bool_decide (names_free (call_names c) (abs_layers st)) &&
      match run_call E c st with Some (_, st') => names_fit cs st' | None => true end
  end.

Lemma run_calls_spec cs k st :
  linv [] st -> bounded k st -> k + Z.of_nat (length cs) < 2 ^ 31 -> Forall (fun x => env_ok x.1) cs ->
  names_fit cs st = true ->
  wp (run_calls cs) (fun rs st' => linv [] st' /\ asteps cs (abs_layers st) rs (abs_layers st')) st.
Proof.
  revert k st. induction cs as [|[E c] cs IH]; intros k st Hi Hb Hk HE Hf; cbn [run_calls]; [by apply wp_mret|].
  apply Forall_cons in HE as [He HE]. cbn [length] in Hk. cbn [names_fit] in Hf.
  apply andb_true_iff in Hf as [Hf1%bool_decide_eq_true Hf2]. apply wp_mbind.
  destruct (call_spec E He k c st Hi Hb ltac:(lia) Hf1) as (r & st1 & Hr & Hi1 & Hb1 & Ha).
  rewrite Hr in Hf2. exists r, st1. split; [exact Hr|]. apply wp_mbind.
  eapply wp_conseq; [apply (IH (k + 1) st1); [done|done|lia|done|exact Hf2]|].
  intros rs st2 [Hi2 Has]. apply wp_mret. split; [done|]. exists (abs_layers st1). done.
Qed.

(** C4: the store of layers refines the sequence of layers it stands for: from a consistent
    store, a sequence of calls - creating, deleting, mounting and unmounting, holding and
    releasing, looking up, listing, searching by digest, checking - runs without undefined
    behaviour whatever the driver and the disk answer, and the result of each call and what
    it changes are those of the corresponding step on the sequence of layers.  It holds for
    sequences that are short enough for the 32-bit counters (fewer than 2^31 - 1 calls from
    a new store), in which the names of a new layer are distinct and free when it is created
    ([names_fit]), and in which memory does not run out when a layer is entered into the
    list and the indices ([env_ok]): in the last two cases the code frees the layer twice
    (layer_store.c:790, [used_name_freed_twice]). *)
Theorem layer_store_refines cs k st :
  linv [] st -> bounded k st -> k + Z.of_nat (length cs) < 2 ^ 31 -> Forall (fun x => env_ok x.1) cs ->
  names_fit cs st = true ->
  exists rs st', run_calls cs st = Some (rs, st') /\ asteps cs (abs_layers st) rs (abs_layers st').
Proof.
  intros Hi Hb Hk HE Hf. destruct (run_calls_spec cs k st Hi Hb Hk HE Hf) as (rs & st' & Hr & _ & Ha). eauto.
Qed.

(** C10: a sequence of calls keeps the store of layers well formed: a layer is live exactly
    when it is in the list and then has one reference and a description, the number kept is
    that of the layers, the indices of ids and of names lead exactly to the layers that have
    them, a digest leads to the ids of exactly the layers that have it, in the order of
    their creation, and the driver has mounted exactly the layers with a positive count.
    As for the refinement, there are fewer than 2^31 - 1 calls from a new store, the names
    of a new layer are distinct and free when it is created ([names_fit]) and memory does
    not run out when it is entered into the list and the indices ([env_ok]). *)
Theorem layer_store_wellformed cs k st :
  linv [] st -> bounded k st -> k + Z.of_nat (length cs) < 2 ^ 31 -> Forall (fun x => env_ok x.1) cs ->
  names_fit cs st = true ->
  exists rs st', run_calls cs st = Some (rs, st') /\ linv [] st' /\
    (forall p, is_Some (ls_layers st' !! p) <-> p ∈ layers_list st') /\
    (forall p x, ls_layers st' !! p = Some x -> l_refcnt x = 1 /\ is_Some (slayer x)) /\
    layers_list_len st' = wrap_u 64 (Z.of_nat (length (layers_list st'))) /\
    (forall i p, mo_search i (by_id st') = Some p <-> p ∈ layers_list st' /\ sl_id <$> sl st' p = Some i) /\
    (forall n p, mo_search n (by_name st') = Some p <-> p ∈ layers_list st' /\ n ∈ names_at st' p) /\
    (forall dg, dlist (by_compress_digest st') dg = ids_with sl_compressed_diff_digest st' dg) /\
    (forall dg, dlist (by_uncompress_digest st') dg = ids_with sl_diff_digest st' dg) /\
    (forall i, i ∈ ls_mounted st' <-> exists a, a ∈ abs_layers st' /\ a_id a = i /\ 0 < a_count a).
Proof.
  intros Hi Hb Hk HE Hf. destruct (run_calls_spec cs k st Hi Hb Hk HE Hf) as (rs & st' & Hrun & Hi' & _).
  exists rs, st'. split; [done|]. split; [done|]. pose proof Hi' as (R & Hx & Hm).
  assert (forall p, lrefs st' [] p = if decide (p ∈ layers_list st') then 1%nat else 0%nat) as Er.
  { intros p. unfold lrefs. cbn. case_decide; lia. }
  split_and!.
  - intros p. pose proof (lr_refs _ _ R p) as Hp. rewrite Er in Hp. destruct (ls_layers st' !! p); case_decide; naive_solver.
  - intros p x Hp. pose proof (lr_refs _ _ R p) as Hc. rewrite Hp, Er in Hc. case_decide; naive_solver.
  - apply Hx.
  - intros i p. rewrite mo_search_ok by apply Hx. apply Hx.
  - intros n p. rewrite mo_search_ok by apply Hx. apply Hx.
  - apply Hx.
  - apply Hx.
  - intros i. rewrite (mk_mounted _ Hm). by apply (mounted_abs []).
Qed.
End layer_store.
