(* ===== verification/LayerStoreRun.v ===== *)
(** Creating and deleting layers on the concrete store, and examples. *)
From S2P Require Import Prelude Heap RbSearch KeyOrders MapC MapIface RestartManager ContainersStoreProps Effects LayerStore LayerStoreInv LayerStoreOps LayerStoreDelete LayerStoreSpec LayerStoreCalls LayerStoreProps.

Open Scope Z_scope.

Section layer_store.
Context {MI MG : Type} {cmp : cstr -> cstr -> Z} `{!KeyOrder cmp}.
Context {opsI : MapOps cstr N MI} `{!MapLaws cmp opsI}.
Context {opsG : MapOps cstr N MG} `{!MapLaws cmp opsG}.
Abbreviation layer_store := (layer_store MI MG).
Implicit Types (st : layer_store).

Lemma empty_layer_store_inv (mi mn : MI) (mc mu : MG) :
  mo_wf mi -> mo_abs mi = ∅ -> mo_wf mn -> mo_abs mn = ∅ -> mo_wf mc -> mo_abs mc = ∅ -> mo_wf mu -> mo_abs mu = ∅ ->
  linv [] (LStore ∅ [] 0 mi mn (DIndex mc ∅) (DIndex mu ∅) ∅ ∅ ∅ ∅) /\
  bounded 0 (LStore ∅ [] 0 mi mn (DIndex mc ∅) (DIndex mu ∅) ∅ ∅ ∅ ∅).
Proof.
  intros W1 A1 W2 A2 W3 A3 W4 A4. set (st := LStore _ _ _ _ _ _ _ _ _ _ _).
  assert (forall m : MG, mo_wf m -> mo_abs m = ∅ -> di_ok (DIndex m ∅)) as Hd.
  { intros m Hw Ha. split; cbn; [done|intros dg q; by rewrite Ha|intros dg1 dg2 q; by rewrite Ha]. }
  split; [|by intros p]. split_and!.
  - split; cbn; [constructor|done| |lia]. by intros p.
  - split; cbn; try done.
    + intros i p. rewrite A1. split; [done|]. by intros [?%not_elem_of_nil _].
    + intros i p. rewrite A2. split; [done|]. by intros [?%not_elem_of_nil _].
    + by intros p ?%not_elem_of_nil.
    + by apply Hd.
    + intros dg. unfold dlist. cbn. by rewrite A3.
    + by apply Hd.
    + intros dg. unfold dlist. cbn. by rewrite A4.
  - split; [|by intros p]. intros i. split; [by intros ?%not_elem_of_empty|]. by intros (p & ?%not_elem_of_nil & _).
Qed.

(** The digest lists of two stores with the same layers. *)
Lemma digest_lists_same own own' st st' : linv own st -> linv own' st' -> same_memory st st' ->
  forall dg, dlist (by_compress_digest st') dg = dlist (by_compress_digest st) dg /\
    dlist (by_uncompress_digest st') dg = dlist (by_uncompress_digest st) dg.
Proof.
  intros (_ & Hx & _) (_ & Hx' & _) Hs dg.
  rewrite (lx_compress _ Hx), (lx_compress _ Hx'), (lx_uncompress _ Hx), (lx_uncompress _ Hx').
  split; (apply ids_with_ext; [|apply Hs|]);
    try (intros s s'; unfold key; congruence); intros p Hp; unfold skey, sl; by rewrite (sm_layer _ _ Hs p Hp).
Qed.


(** C20: deleting a layer removes every trace of it when the driver and the disk allow it:
    the layer leaves the list and its memory is released, no id and no name leads to it, its
    id is in no list of either digest index, the driver has neither mounted nor kept it, its
    directory is gone, and every other layer is as before. *)
Theorem layer_delete_complete E st id l s :
  linv [] st -> le_lock E && le_umount E && le_rm E && le_rmdir E = true -> resolve st id = Some l -> sl st l = Some s ->
  exists st', layer_store_delete E (Some id) st = Some (0, st') /\ linv [] st' /\
    ls_layers st' !! l = None /\ layers_list st' = filter (fun q => q <> l) (layers_list st) /\
    (forall k, mo_search k (by_id st') <> Some l) /\ (forall n, mo_search n (by_name st') <> Some l) /\
    (forall dg, sl_id s ∉ dlist (by_compress_digest st') dg /\ sl_id s ∉ dlist (by_uncompress_digest st') dg) /\
    sl_id s ∉ ls_mounted st' /\ sl_id s ∉ ls_driver st' /\ ls_dirs st' !! sl_id s = None /\
    (forall q, q ∈ layers_list st -> q <> l -> alayer_of st' q = alayer_of st q).
Proof.
  intros Hi Hall Hres Hs. rewrite !andb_true_iff in Hall. destruct Hall as [[[Hlk Hu] Hrm] Hrd].
  destruct (do_delete_layer_spec E st id Hi) as (z & st' & Hrun & Hi' & _ & Hp). rewrite Hres in Hp.
  destruct (Hp s Hs) as [(_ & _ & Hu')|[[[F1 F2 F3 F4 F5] Hdead] [Hz Her]]]; [congruence|].
  assert (z = 0) as -> by (apply Hz; by rewrite Hrm, Hrd). destruct (Her eq_refl) as [Hdrv Hdir].
  exists st'. split; [unfold layer_store_delete; rewrite Hlk; cbn [negb]; unfold mbind, M_bind; by rewrite Hrun|].
  split; [done|]. pose proof Hi' as (_ & Hx' & _).
  assert (l ∉ layers_list st') as Hl' by (rewrite F1, list_elem_of_filter; tauto).
  assert (forall f dg, sl_id s ∉ ids_with f st' dg) as Hids.
  { intros f dg (q & Hq & Hid)%list_elem_of_omap. unfold id_with in Hid. destruct (sl st' q) as [s'|] eqn:Hsq; [|done].
    cbn in Hid. case_decide; [|done]. injection Hid as Hid.
    assert (mo_abs (by_id st') !! sl_id s = Some q) as Hm by (apply (lx_id _ Hx'); rewrite Hsq; cbn; by rewrite Hid).
    by rewrite F2, lookup_delete_eq in Hm. }
  split_and!; try done.
  - intros k. rewrite mo_search_ok by apply Hx'. by intros [? _]%(lx_id _ Hx').
  - intros n. rewrite mo_search_ok by apply Hx'. by intros [? _]%(lx_name _ Hx').
  - intros dg. by rewrite (lx_compress _ Hx'), (lx_uncompress _ Hx').
  - intros q Hq Hne. destruct (F4 q Hq Hne) as (? & ? & ?). by apply alayer_of_ext.
Qed.
End layer_store.

(** ** Examples *)
#[local] Abbreviation ly_cmp := (cstr_cmp uchar_value).
#[local] Instance ly_opsI : MapOps cstr N (gmap cstr N) := gmap_MapOps ly_cmp.
#[local] Abbreviation ly_store := (layer_store (gmap cstr N) (gmap cstr N)).

(** Everything succeeds. *)
Definition lay_demo_env : lay_env :=
  LayEnv true true true true true true true true true true true (fun _ => true) true (true, 7) true
    (Some (Some (Some (c_str "/merged")))) true true (Some (c_str "/merged")) true true true true true 0
    next_address next_address.
(** The archive cannot be unpacked. *)
Definition lay_bad_env : lay_env :=
  LayEnv true true true true true true true true true true true (fun _ => true) false (true, 7) true
    (Some (Some (Some (c_str "/merged")))) true true (Some (c_str "/merged")) true true true true true 0
    next_address next_address.

Lemma lay_demo_env_ok : env_ok lay_demo_env.
Proof.
  split; try done.
  - intros g. split; [apply next_address_fresh|]. cbn. pose proof (proj1 (next_address_spec g)). unfold NULL. lia.
  - intros g. apply next_address_fresh.
Qed.
Lemma lay_bad_env_ok : env_ok lay_bad_env.
Proof. destruct lay_demo_env_ok as [H1 H2 H3 H4 H5]. by split. Qed.

Definition lay_empty : ly_store := LStore ∅ [] 0 ∅ ∅ (DIndex ∅ ∅) (DIndex ∅ ∅) ∅ ∅ ∅ ∅.
Lemma lay_empty_inv : linv (cmp := ly_cmp) [] lay_empty /\ bounded 0 lay_empty.
Proof. by apply empty_layer_store_inv. Qed.

Definition lay_opts (names : list string) (digest : string) : layer_opts :=
  LayerOpts None (c_str <$> names) false (Some (c_str digest)) (Some (c_str digest)) None.
Definition lay_demo_calls : list (lay_env * lay_call) :=
  [(lay_demo_env, LCreate (c_str "a") (Some (lay_opts ["base"%string] "sha256:1")) true);
   (lay_demo_env, LCreate (c_str "b") (Some (lay_opts [] "sha256:1")) true);
   (lay_bad_env, LCreate (c_str "c") (Some (lay_opts ["top"%string] "sha256:1")) true);
   (lay_demo_env, LCreate (c_str "a") (Some (lay_opts [] "sha256:1")) true);
   (lay_demo_env, LMount (Some (c_str "base"))); (lay_demo_env, LMount (Some (c_str "a")));
   (lay_demo_env, LUmount (Some (c_str "a")) false);
   (lay_demo_env, LByUncompress (c_str "sha256:1")); (lay_demo_env, LGetHold (Some (c_str "a")));
   (lay_demo_env, LDelete (Some (c_str "base"))); (lay_demo_env, LByCompress (c_str "sha256:1"));
   (lay_demo_env, LCreate (c_str "c") (Some (lay_opts ["base"; "top"]%string "sha256:2")) true)].

Example lay_demo_runs :
  match run_calls lay_demo_calls lay_empty with
  | Some (rs, st) => bool_decide (layers_list st = [2%N; 3%N]) && bool_decide (ls_mounted st = ∅) &&
      bool_decide (ls_driver st = {[c_str "b"; c_str "c"]}) &&
      bool_decide (dom (ls_dirs st) = {[c_str "b"; c_str "c"]})
  | None => false
  end = true.
Proof. vm_compute. reflexivity. Qed.

Lemma lay_demo_envs : Forall (fun x : lay_env * lay_call => env_ok x.1) lay_demo_calls.
Proof. repeat constructor; cbn; intros; try apply lay_demo_env_ok; try apply lay_bad_env_ok. Qed.
Lemma lay_demo_names : names_fit lay_demo_calls lay_empty = true.
Proof. vm_compute. reflexivity. Qed.

Lemma layer_store_refines_witness : exists rs st',
  run_calls lay_demo_calls lay_empty = Some (rs, st') /\ asteps lay_demo_calls [] rs (abs_layers st').
Proof.
  destruct lay_empty_inv as [Hi Hb].
  exact (layer_store_refines (cmp := ly_cmp) lay_demo_calls 0 lay_empty Hi Hb eq_refl lay_demo_envs lay_demo_names).
Defined.

Lemma layer_store_wellformed_witness : exists rs st', run_calls lay_demo_calls lay_empty = Some (rs, st') /\
  layers_list_len st' = wrap_u 64 (Z.of_nat (length (layers_list st'))).
Proof.
  destruct lay_empty_inv as [Hi Hb].
  destruct (layer_store_wellformed (cmp := ly_cmp) lay_demo_calls 0 lay_empty Hi Hb eq_refl lay_demo_envs lay_demo_names)
    as (rs & st' & Hr & _ & _ & _ & Hlen & _). exists rs, st'. auto.
Defined.

(** The store with two layers, the first of them named. *)
Definition lay_two : list (lay_env * lay_call) := take 2 lay_demo_calls.
Lemma lay_two_store : exists rs (st : ly_store), linv (cmp := ly_cmp) [] st /\ run_calls lay_two lay_empty = Some (rs, st).
Proof.
  destruct lay_empty_inv as [Hi Hb].
  destruct (run_calls_spec (cmp := ly_cmp) lay_two 0 lay_empty Hi Hb eq_refl) as (rs & st & Hr & Hi' & _).
  - repeat constructor; apply lay_demo_env_ok.
  - vm_compute. reflexivity.
  - exists rs, st. exact (conj Hi' Hr).
Qed.
Lemma lay_two_check (b : ly_store -> bool) :
  match run_calls lay_two lay_empty with Some (_, st) => b st | None => false end = true ->
  exists st : ly_store, linv (cmp := ly_cmp) [] st /\ b st = true.
Proof. destruct lay_two_store as (rs & st & Hi & ->). eauto. Qed.


Lemma layer_delete_complete_witness : exists st st' : ly_store,
  layer_store_delete lay_demo_env (Some (c_str "base")) st = Some (0, st') /\ ls_layers st' !! 1%N = None.
Proof.
  destruct (lay_two_check (fun st => bool_decide (resolve (cmp := ly_cmp) st (c_str "base") = Some 1%N) &&
    match sl st 1 with Some s => true | None => false end)) as (st & Hi & Hb); [vm_compute; reflexivity|].
  apply andb_true_iff in Hb as [Hb1 Hb2]. apply bool_decide_eq_true in Hb1.
  destruct (sl st 1) as [s|] eqn:Hs; [|done].
  destruct (layer_delete_complete (cmp := ly_cmp) lay_demo_env st (c_str "base") 1 s Hi eq_refl Hb1 Hs)
    as (st' & Hr & _ & Hf & _). exists st, st'. auto.
Defined.

(** ** What goes wrong *)

(** Creating a layer with a name in use frees it twice. *)
Example used_name_freed_twice :
  (r ← run_calls lay_two lay_empty;
   layer_store_create lay_demo_env (c_str "c") (Some (lay_opts ["base"%string] "sha256:1")) true r.2) = None.
Proof. vm_compute. reflexivity. Qed.

(** The layer of a container, which has no digest, is unmounted by the check. *)
Example check_unmounts :
  match (r ← run_calls [(lay_demo_env, LCreate (c_str "a") (Some (LayerOpts None [] true None None None)) false);
                        (lay_demo_env, LMount (Some (c_str "a")))] lay_empty;
         layer_store_check lay_demo_env (c_str "a") r.2) with
  | Some (0, st) => bool_decide (ls_mounted st = ∅)
  | _ => false
  end = true.
Proof. vm_compute. reflexivity. Qed.

(** A layer that was left incomplete is deleted when the store is loaded, and then saved. *)
Example incomplete_layer_saved_after_free :
  load_layers_from_json_files lay_demo_env [(c_str "a", true, true)]
    (set_dirs {[c_str "a" := LayerDir (Some (SLayer (c_str "a") None None [] None None 0 true)) false]}
       (set_driver {[c_str "a"]} ∅ lay_empty)) = None.
Proof. vm_compute. reflexivity. Qed.

(** Loading two layers with one name fails, although the name is taken from the first. *)
Example same_name_not_loaded :
  match load_layers_from_json_files lay_demo_env [(c_str "a", true, true); (c_str "b", true, true)]
    (set_dirs {[c_str "a" := LayerDir (Some (SLayer (c_str "a") None None [c_str "n"] None None 0 false)) false;
                c_str "b" := LayerDir (Some (SLayer (c_str "b") None None [c_str "n"] None None 0 false)) false]}
       (set_driver {[c_str "a"; c_str "b"]} ∅ lay_empty)) with
  | Some (z, st) => bool_decide (z = -1) && bool_decide (names_at st 1 = [])
  | None => false
  end = true.
Proof. vm_compute. reflexivity. Qed.
