(* ===== verification/RootfsStore.v ===== *)
(** The store of the root file systems of containers:
    src/src/daemon/modules/image/oci/storage/rootfs_store/rootfs_store.c and rootfs.c.

    The objects live in a heap with their reference counts; the store keeps a list of them
    and three indices over the map interface, by id, by layer and by name.  [rs_disk] is what
    the json files say.  [rs_lock] is the lock of the store: the number of readers, or -1 for
    a writer.  Operations are computations over the store (Effects); [None] is undefined
    behaviour (the use of a freed object, an array read out of range) or waiting for a lock
    that nobody will release. *)
From S2P Require Import Prelude Heap KeyOrders MapIface RestartManager ContainersStore Effects ImageStore.

Open Scope Z_scope.

(** [struct id_map] *)
Record id_map := IdMap { im_container_id : Z; im_host_id : Z; im_map_size : Z }.
(** [struct storage_rootfs_options], the mappings of ids *)
Record rootfs_options := RootfsOptions { uid_map : list id_map; gid_map : list id_map }.

(** [storage_rootfs], the fields the store works with; the arrays of mappings and the length
    kept for the first of them.  The image and the layer are not NULL. *)
Record storage_rootfs := SRootfs {
  sr_id : cstr;
  sr_names : list cstr;
  sr_image : cstr;
  sr_layer : cstr;
  sr_metadata : option cstr;
  sr_uidmap : list id_map;
  sr_uidmap_len : nat;
  sr_gidmap : list id_map
}.
Definition put_sr_names l s :=
  SRootfs (sr_id s) l (sr_image s) (sr_layer s) (sr_metadata s) (sr_uidmap s) (sr_uidmap_len s) (sr_gidmap s).
Definition put_sr_metadata m s :=
  SRootfs (sr_id s) (sr_names s) (sr_image s) (sr_layer s) (Some m) (sr_uidmap s) (sr_uidmap_len s) (sr_gidmap s).

(** [cntrootfs_t] *)
Record cntrootfs_t := CntRootfs { cr_refcnt : Z; srootfs : storage_rootfs }.

(** The outcomes of the environment during a call. *)
Record rootfs_env := RootfsEnv {
  re_lock : bool;
  re_itor : bool;                            (** the iterator of the prefix search *)
  re_node : bool;                            (** a node of the list *)
  re_map : bool;                             (** insertion into a map *)
  re_names : bool;                           (** an array of names *)
  re_srootfs : bool;                         (** a new description *)
  re_rootfs : bool;                          (** a new object *)
  re_time : bool;                            (** the time of creation *)
  re_idmap : bool;                           (** the arrays of mappings *)
  re_random : nat -> option cstr;            (** the random ids *)
  re_save : cstr -> bool;                    (** writing a json file *)
  re_rmdir : bool;
  re_copy : storage_rootfs -> bool;          (** copying a description *)
  re_list : bool;                            (** the array of all root file systems *)
  re_subdirs : option (list cstr);           (** the directories of the store *)
  re_path : cstr -> bool;                    (** the paths fit in a buffer *)
  re_fresh : gmap N cntrootfs_t -> N
}.

Inductive lock_type := SHARED | EXCLUSIVE.

(** The pattern ^[a-f0-9]{64}$ *)
Definition hex_char (c : Ascii.ascii) : bool :=
  let n := Ascii.nat_of_ascii c in ((97 <=? n) && (n <=? 102) || (48 <=? n) && (n <=? 57))%nat.
Definition match_id_pattern (id : cstr) : bool :=
  (String.length (cstr_str id) =? 64)%nat && forallb hex_char (String.list_ascii_of_string (cstr_str id)).

(** Every mapping is a copy of the first one, and the array of user ids gets the length of the
    array of group ids. *)
Definition copy_mappings (l : list id_map) : list id_map := match l with [] => [] | m :: _ => replicate (length l) m end.
Definition too_many (l : list id_map) : bool := Z.of_nat (length l) >=? (2 ^ 64 - 1) / 8.
Definition copy_id_map (ok : bool) (c : storage_rootfs) (opts : option rootfs_options) : option storage_rootfs :=
  match opts with
  | None => Some c
  | Some o =>
      if too_many (uid_map o) || too_many (gid_map o) || negb ok then None
      else Some (SRootfs (sr_id c) (sr_names c) (sr_image c) (sr_layer c) (sr_metadata c)
                   (copy_mappings (uid_map o)) (length (gid_map o)) (copy_mappings (gid_map o)))
  end.

Section rootfs_store.
Context {MI MB : Type} {opsI : MapOps cstr N MI} {opsB : MapOps cstr bool MB}.

(** [rootfs_store_t] *)
Record rootfs_store := RStore {
  rs_rootfs : gmap N cntrootfs_t;
  rootfs_list : list N;
  rootfs_list_len : Z;
  rs_byid : MI;
  rs_bylayer : MI;
  rs_byname : MI;
  rs_loaded : bool;
  rs_disk : gmap cstr storage_rootfs;
  rs_lock : Z
}.
Definition put_rootfs x st :=
  RStore x (rootfs_list st) (rootfs_list_len st) (rs_byid st) (rs_bylayer st) (rs_byname st) (rs_loaded st) (rs_disk st) (rs_lock st).
Definition put_rootfs_list l n st :=
  RStore (rs_rootfs st) l n (rs_byid st) (rs_bylayer st) (rs_byname st) (rs_loaded st) (rs_disk st) (rs_lock st).
Definition put_rs_byid m st :=
  RStore (rs_rootfs st) (rootfs_list st) (rootfs_list_len st) m (rs_bylayer st) (rs_byname st) (rs_loaded st) (rs_disk st) (rs_lock st).
Definition put_rs_bylayer m st :=
  RStore (rs_rootfs st) (rootfs_list st) (rootfs_list_len st) (rs_byid st) m (rs_byname st) (rs_loaded st) (rs_disk st) (rs_lock st).
Definition put_rs_byname m st :=
  RStore (rs_rootfs st) (rootfs_list st) (rootfs_list_len st) (rs_byid st) (rs_bylayer st) m (rs_loaded st) (rs_disk st) (rs_lock st).
Definition put_rs_loaded b st :=
  RStore (rs_rootfs st) (rootfs_list st) (rootfs_list_len st) (rs_byid st) (rs_bylayer st) (rs_byname st) b (rs_disk st) (rs_lock st).
Definition put_rs_disk d st :=
  RStore (rs_rootfs st) (rootfs_list st) (rootfs_list_len st) (rs_byid st) (rs_bylayer st) (rs_byname st) (rs_loaded st) d (rs_lock st).
Definition put_rs_lock n st :=
  RStore (rs_rootfs st) (rootfs_list st) (rootfs_list_len st) (rs_byid st) (rs_bylayer st) (rs_byname st) (rs_loaded st) (rs_disk st) n.

Variable E : rootfs_env.
Abbreviation S A := (M rootfs_store A) (only parsing).

Definition rootfs_store_lock (type : lock_type) : S bool :=
  if negb (re_lock E) then mret false
  else
    n ← gets rs_lock;
    match type with
    | SHARED => if n <? 0 then crash else modify (put_rs_lock (n + 1));; mret true
    | EXCLUSIVE => if n =? 0 then modify (put_rs_lock (-1));; mret true else crash
    end.
Definition rootfs_store_unlock : S unit :=
  n ← gets rs_lock; modify (put_rs_lock (if n <? 0 then 0 else n - 1)).
(** The body of a public function, between the lock and the label [out]. *)
Definition with_rootfs_lock {A} (type : lock_type) (fail : A) (m : S A) : S A :=
  b ← rootfs_store_lock type;
  if negb b then mret fail else r ← m; rootfs_store_unlock;; mret r.

(** ** Objects *)

Definition get_srootfs (c : N) : S storage_rootfs :=
  cs ← gets rs_rootfs; i ← lift (cs !! c); mret (srootfs i).
Definition set_srootfs (c : N) (s : storage_rootfs) : S unit :=
  cs ← gets rs_rootfs;
  i ← lift (cs !! c);
  modify (put_rootfs (<[c := CntRootfs (cr_refcnt i) s]> cs)).

Definition new_rootfs (s : storage_rootfs) : S N :=
  if negb (re_rootfs E) then mret NULL
  else
    cs ← gets rs_rootfs;
    let p := re_fresh E cs in
    modify (put_rootfs (<[p := CntRootfs 1 s]> cs));;
    mret p.
Definition rootfs_ref_inc (c : N) : S unit :=
  if decide (c = NULL) then mret tt
  else
    cs ← gets rs_rootfs;
    i ← lift (cs !! c);
    modify (put_rootfs (<[c := CntRootfs (atomic_int_inc (cr_refcnt i)) (srootfs i)]> cs)).
Definition free_rootfs_t (c : N) : S unit :=
  if decide (c = NULL) then mret tt
  else
    cs ← gets rs_rootfs;
    _ ← lift (cs !! c);
    modify (put_rootfs (delete c cs)).
Definition rootfs_ref_dec (c : N) : S unit :=
  if decide (c = NULL) then mret tt
  else
    cs ← gets rs_rootfs;
    i ← lift (cs !! c);
    let '(n, is_zero) := atomic_int_dec_test (cr_refcnt i) in
    modify (put_rootfs (<[c := CntRootfs n (srootfs i)]> cs));;
    if is_zero then free_rootfs_t c else mret tt.

(** The json text is made of as many mappings as the length says. *)
Definition save_rootfs (s : storage_rootfs) : S Z :=
  if (length (sr_uidmap s) <? sr_uidmap_len s)%nat then crash
  else if re_save E (sr_id s) then modify (fun st => put_rs_disk (<[sr_id s := s]> (rs_disk st)) st);; mret 0
  else mret (-1).

Definition remove_rootfs_name (c : N) (name : cstr) : S Z :=
  if decide (c = NULL) then mret 0
  else
    s ← get_srootfs c;
    let names := filter (fun n => n <> name) (sr_names s) in
    match names with
    | [] => set_srootfs c (put_sr_names [] s);; mret 0
    | _ :: _ => if negb (re_names E) then mret (-1) else set_srootfs c (put_sr_names names s);; mret 0
    end.

(** ** Lookup *)

Definition get_rootfs_for_store_by_prefix (id : cstr) : S N :=
  if negb (re_itor E) then mret NULL
  else m ← gets rs_byid; mret (default NULL (find_prefix id (mo_elements m) NULL)).
(** The object with one more reference, or NULL. *)
Definition lookup_rootfs (id : cstr) : S N :=
  ids ← gets rs_byid;
  layers ← gets rs_bylayer;
  c ← match mo_search id ids with
      | Some c => (mret c : S N)
      | None =>
          match mo_search id layers with
          | Some c => mret c
          | None => get_rootfs_for_store_by_prefix id
          end
      end;
  rootfs_ref_inc c;;
  mret c.

(** ** Removing *)

Fixpoint remove_rootfs_names (names : list cstr) : S Z :=
  match names with
  | [] => mret 0
  | n :: names =>
      m ← gets rs_byname;
      let '(ok, m) := mo_remove n m in
      modify (put_rs_byname m);;
      if ok then remove_rootfs_names names else mret (-1)
  end.
(** The loop over the list: the first object with that id leaves it, which drops its
    reference. *)
Fixpoint unlist_rootfs (id : cstr) (before after : list N) : S unit :=
  match after with
  | [] => mret tt
  | p :: after =>
      s ← get_srootfs p;
      if decide (sr_id s = id) then
        modify (fun st => put_rootfs_list (before ++ after) (wrap_u 64 (rootfs_list_len st - 1)) st);;
        rootfs_ref_dec p
      else unlist_rootfs id (before ++ [p]) after
  end.
Definition remove_rootfs_from_indices (c : N) (id : cstr) : S Z :=
  ids ← gets rs_byid;
  let '(ok, ids) := mo_remove id ids in
  modify (put_rs_byid ids);;
  if negb ok then mret (-1)
  else
    s ← get_srootfs c;
    layers ← gets rs_bylayer;
    let '(ok, layers) := mo_remove (sr_layer s) layers in
    modify (put_rs_bylayer layers);;
    if negb ok then mret (-1)
    else
      z ← remove_rootfs_names (sr_names s);
      if negb (z =? 0) then mret (-1)
      else l ← gets rootfs_list; unlist_rootfs id [] l;; mret 0.
Definition remove_rootfs_from_memory (id : cstr) : S Z :=
  c ← lookup_rootfs id;
  z ← (if decide (c = NULL) then (mret (-1) : S Z) else remove_rootfs_from_indices c id);
  rootfs_ref_dec c;;
  mret z.
Definition remove_rootfs_dir (id : cstr) : S Z :=
  if re_rmdir E then modify (fun st => put_rs_disk (delete id (rs_disk st)) st);; mret 0 else mret (-1).

(** [missing]: the result when there is no such root file system. *)
Definition do_delete_rootfs (missing : Z) (id : cstr) : S Z :=
  c ← lookup_rootfs id;
  if decide (c = NULL) then mret missing
  else
    s ← get_srootfs c;
    z ← remove_rootfs_from_memory (sr_id s);
    z ← (if negb (z =? 0) then (mret (-1) : S Z) else z ← remove_rootfs_dir (sr_id s); mret (if negb (z =? 0) then -1 else 0));
    rootfs_ref_dec c;;
    mret z.
Definition delete_rootfs_from_store_without_lock (id : cstr) : S Z := do_delete_rootfs (-1) id.
Definition rootfs_store_delete (id : option cstr) : S Z :=
  match id with
  | None => mret (-1)
  | Some id => with_rootfs_lock EXCLUSIVE (-1) (do_delete_rootfs 0 id)
  end.

Fixpoint wipe (l : list N) : S Z :=
  match l with
  | [] => mret 0
  | p :: l =>
      s ← get_srootfs p;
      z ← delete_rootfs_from_store_without_lock (sr_id s);
      if negb (z =? 0) then mret (-1) else wipe l
  end.
Definition rootfs_store_wipe : S Z := with_rootfs_lock EXCLUSIVE (-1) (l ← gets rootfs_list; wipe l).

(** ** Creating *)

Fixpoint random_id (fuel : nat) (i : nat) : S (option cstr) :=
  match fuel with
  | O => mret None
  | Datatypes.S fuel =>
      match re_random E i with
      | None => mret None
      | Some id =>
          ids ← gets rs_byid;
          match mo_search id ids with None => mret (Some id) | Some _ => random_id fuel (i + 1) end
      end
  end.
(** Five attempts. *)
Definition generate_random_container_id : S (option cstr) := random_id 5 0.

Definition new_storage_rootfs (id image : cstr) (unique_names : list cstr) (layer : cstr) (metadata : option cstr)
    (opts : option rootfs_options) : option storage_rootfs :=
  if negb (re_srootfs E) then None
  else if negb (re_time E) then None
  else copy_id_map (re_idmap E) (SRootfs id unique_names image layer metadata [] 0 []) opts.

Fixpoint insert_rootfs_names (names : list cstr) (c : N) : S Z :=
  match names with
  | [] => mret 0
  | n :: names =>
      m ← gets rs_byname;
      let '(ok, m) := mo_insert (re_map E) n c m in
      modify (put_rs_byname m);;
      if ok then insert_rootfs_names names c else mret (-1)
  end.
(** On failure only the node of the list is taken back: neither the length nor the indices
    are. *)
Definition rootfs_store_append_container_rootfs (id layer : cstr) (unique_names : list cstr) (c : N) : S Z :=
  if negb (re_node E) then mret (-1)
  else
    l ← gets rootfs_list;
    modify (fun st => put_rootfs_list (l ++ [c]) (wrap_u 64 (rootfs_list_len st + 1)) st);;
    ids ← gets rs_byid;
    let '(ok, ids) := mo_insert (re_map E) id c ids in
    modify (put_rs_byid ids);;
    z ← (if negb ok then (mret (-1) : S Z)
         else
           layers ← gets rs_bylayer;
           let '(ok, layers) := mo_insert (re_map E) layer c layers in
           modify (put_rs_bylayer layers);;
           if negb ok then mret (-1) else insert_rootfs_names unique_names c);
    when (negb (z =? 0)) (modify (fun st => put_rootfs_list l (rootfs_list_len st) st));;
    mret z.

Definition do_create_rootfs (id : option cstr) (names : list cstr) (image layer : cstr) (metadata : option cstr)
    (opts : option rootfs_options) : S (option cstr) :=
  dst_id ← match id with None => generate_random_container_id | Some _ => mret id end;
  match dst_id with
  | None => mret None
  | Some dst_id =>
      ids ← gets rs_byid;
      match mo_search dst_id ids with
      | Some _ => mret None
      | None =>
          match (unique ← array_unique (opsB := opsB) (re_names E) names;
                 new_storage_rootfs dst_id image unique layer metadata opts) with
          | None => mret None
          | Some s =>
              c ← new_rootfs s;
              if decide (c = NULL) then mret None
              else
                z ← rootfs_store_append_container_rootfs dst_id layer (sr_names s) c;
                if negb (z =? 0) then free_rootfs_t c;; mret None
                else
                  s ← get_srootfs c;
                  z ← save_rootfs s;
                  if negb (z =? 0) then _ ← delete_rootfs_from_store_without_lock dst_id; mret None
                  else mret (Some dst_id)
          end
      end
  end.
Definition rootfs_store_create (id : option cstr) (names : list cstr) (image layer : cstr) (metadata : option cstr)
    (opts : option rootfs_options) : S (option cstr) :=
  with_rootfs_lock EXCLUSIVE None (do_create_rootfs id names image layer metadata opts).

(** ** Reading and changing *)

(** The lock is kept when there is no such root file system. *)
Definition rootfs_store_lookup (id : option cstr) : S (option cstr) :=
  match id with
  | None => mret None
  | Some id =>
      b ← rootfs_store_lock SHARED;
      if negb b then mret None
      else
        c ← lookup_rootfs id;
        if decide (c = NULL) then mret None
        else s ← get_srootfs c; rootfs_ref_dec c;; rootfs_store_unlock;; mret (Some (sr_id s))
  end.

Definition with_rootfs {A} (type : lock_type) (id : cstr) (fail : A) (m : N -> S A) : S A :=
  with_rootfs_lock type fail (
    c ← lookup_rootfs id;
    r ← (if decide (c = NULL) then (mret fail : S A) else m c);
    rootfs_ref_dec c;;
    mret r).

Definition rootfs_store_set_metadata (id metadata : option cstr) : S Z :=
  match id, metadata with
  | Some id, Some metadata =>
      with_rootfs EXCLUSIVE id (-1) (fun c =>
        s ← get_srootfs c;
        set_srootfs c (put_sr_metadata metadata s);;
        z ← save_rootfs (put_sr_metadata metadata s);
        mret (if negb (z =? 0) then -1 else 0))
  | _, _ => mret (-1)
  end.
Definition rootfs_store_save (c : N) : S Z :=
  if decide (c = NULL) then mret (-1)
  else
    b ← rootfs_store_lock SHARED;
    if negb b then mret (-1) else s ← get_srootfs c; z ← save_rootfs s; rootfs_store_unlock;; mret z.
Definition rootfs_store_exists (id : option cstr) : S bool :=
  match id with None => mret false | Some id => with_rootfs SHARED id false (fun _ => mret true) end.

(** The copy goes through the json text. *)
Definition copy_rootfs (s : storage_rootfs) : S (option storage_rootfs) :=
  if (length (sr_uidmap s) <? sr_uidmap_len s)%nat then crash else mret (if re_copy E s then Some s else None).
Definition rootfs_store_get_rootfs (id : option cstr) : S (option storage_rootfs) :=
  match id with
  | None => mret None
  | Some id => with_rootfs SHARED id None (fun c => s ← get_srootfs c; copy_rootfs s)
  end.
Fixpoint copy_all (l : list N) : S (Z * list storage_rootfs) :=
  match l with
  | [] => mret (0, [])
  | p :: l =>
      s ← get_srootfs p;
      d ← copy_rootfs s;
      match d with None => mret (-1, []) | Some d => r ← copy_all l; mret (r.1, d :: r.2) end
  end.
Definition rootfs_store_get_all_rootfs : S (Z * list storage_rootfs) :=
  with_rootfs_lock SHARED (-1, []) (
    len ← gets rootfs_list_len;
    if len =? 0 then mret (0, [])
    else if negb (re_list E) then mret (-1, [])
    else l ← gets rootfs_list; copy_all l).

(** ** Loading *)

(** Whether the description has been freed already is returned with the status. *)
Definition do_append_container (s : storage_rootfs) : S (Z * bool) :=
  c ← new_rootfs s;
  if decide (c = NULL) then mret (-1, false)
  else if negb (re_node E) then free_rootfs_t c;; mret (-1, true)
  else
    modify (fun st => put_rootfs_list (rootfs_list st ++ [c]) (wrap_u 64 (rootfs_list_len st + 1)) st);;
    mret (0, false).
(** The description is freed when it was not taken. *)
Definition append_container_by_directory (dir : cstr) : S Z :=
  if negb (re_path E dir) then mret (-1)
  else
    disk ← gets rs_disk;
    match disk !! dir with
    | None => mret (-1)
    | Some s =>
        r ← do_append_container s;
        if negb (r.1 =? 0) then (if r.2 : bool then crash else mret (-1)) else mret 0
    end.
Fixpoint append_containers (dirs : list cstr) : S unit :=
  match dirs with
  | [] => mret tt
  | d :: dirs =>
      when (match_id_pattern d && re_path E d) (
        z ← append_container_by_directory d;
        when (negb (z =? 0)) (_ ← remove_rootfs_dir d; mret tt));;
      append_containers dirs
  end.
Definition get_containers_from_json : S Z :=
  with_rootfs_lock EXCLUSIVE (-1)
    (match re_subdirs E with None => mret (-1) | Some dirs => append_containers dirs;; mret 0 end).

(** Names that another object has are taken from it; whether some were.  The names are read
    again in every turn, since the other object may be [c] itself. *)
Fixpoint load_rootfs_names (fuel : nat) (c : N) (i : nat) (should_save : bool) : S (Z * bool) :=
  match fuel with
  | O => mret (0, should_save)
  | Datatypes.S fuel =>
      s ← get_srootfs c;
      match sr_names s !! i with
      | None => mret (0, should_save)
      | Some n =>
          m ← gets rs_byname;
          z ← match mo_search n m with
              | None => (mret (0, should_save) : S (Z * bool))
              | Some other => z ← remove_rootfs_name other n; mret (z, true)
              end;
          if negb (z.1 =? 0) then mret (-1, z.2)
          else
            s ← get_srootfs c;
            n ← lift (sr_names s !! i);
            let '(ok, m) := mo_replace n c m in
            modify (put_rs_byname m);;
            if ok then load_rootfs_names fuel c (i + 1) z.2 else mret (-1, z.2)
      end
  end.
Definition load_container_to_store_field (c : N) : S Z :=
  s ← get_srootfs c;
  ids ← gets rs_byid;
  let '(ok, ids) := mo_replace (sr_id s) c ids in
  modify (put_rs_byid ids);;
  if negb ok then mret (-1)
  else
    layers ← gets rs_bylayer;
    let '(ok, layers) := mo_replace (sr_layer s) c layers in
    modify (put_rs_bylayer layers);;
    if negb ok then mret (-1)
    else
      r ← load_rootfs_names (length (sr_names s)) c 0 false;
      if negb (r.1 =? 0) then mret (-1)
      else
        s ← get_srootfs c;
        z ← (if r.2 : bool then save_rootfs s else mret 0);
        mret (if negb (z =? 0) then -1 else 0).
Fixpoint load_containers (l : list N) : S Z :=
  match l with
  | [] => mret 0
  | c :: l => z ← load_container_to_store_field c; if negb (z =? 0) then mret (-1) else load_containers l
  end.
Definition rootfs_store_load : S Z :=
  loaded ← gets rs_loaded;
  if loaded : bool then mret 0
  else
    z ← get_containers_from_json;
    if negb (z =? 0) then mret (-1)
    else
      l ← gets rootfs_list;
      z ← load_containers l;
      if negb (z =? 0) then mret (-1) else modify (put_rs_loaded true);; mret 0.
End rootfs_store.
Arguments rootfs_store : clear implicits.
