(* ===== verification/RootfsStoreInv.v ===== *)
(** The store of root file systems stays consistent: the objects are counted, and the three
    indices say where the ids, layers and names of the listed objects are. *)
From S2P Require Import Prelude Heap RbSearch KeyOrders MapC MapIface RestartManager ContainersStore ContainersStoreProps Effects ImageStore ImageStoreInv RootfsStore.

Open Scope Z_scope.

(** The indices and what they are about. *)
Inductive index := ById | ByLayer | ByName.
Definition rkeys (k : index) (s : storage_rootfs) : list cstr :=
  match k with ById => [sr_id s] | ByLayer => [sr_layer s] | ByName => sr_names s end.

(** The mappings that the json text is made of are there. *)
Definition maps_ok (s : storage_rootfs) : Prop := (sr_uidmap_len s <= length (sr_uidmap s))%nat.

Section rootfs_store.
Context {MI MB : Type} {cmp : cstr -> cstr -> Z} `{!KeyOrder cmp}.
Context {opsI : MapOps cstr N MI} `{!MapLaws cmp opsI}.
Context {opsB : MapOps cstr bool MB} `{!MapLaws cmp opsB}.
Abbreviation rootfs_store := (rootfs_store MI).
Implicit Types (st : rootfs_store) (own : list N).

Definition rsim st (p : N) : option storage_rootfs := srootfs <$> rs_rootfs st !! p.
Definition ridx (k : index) st : MI := match k with ById => rs_byid st | ByLayer => rs_bylayer st | ByName => rs_byname st end.
Definition rfinds (k : index) st (n : cstr) : option N := mo_abs (ridx k st) !! n.

(** The references: one for the list, and those of the running call. *)
Definition rrefs st own (p : N) : nat := (if decide (p ∈ rootfs_list st) then 1 else 0) + occ p own.
Record rrefs_ok own st : Prop := {
  rr_nodup : NoDup (rootfs_list st);
  rr_null : rrefs st own NULL = 0%nat;
  rr_refs p : match rs_rootfs st !! p with
              | Some i => cr_refcnt i = Z.of_nat (rrefs st own p) /\ rrefs st own p <> 0%nat
              | None => rrefs st own p = 0%nat
              end;
  rr_len : rootfs_list_len st = wrap_u 64 (Z.of_nat (length (rootfs_list st)));
  rr_few : (length own <= 8)%nat
}.
(** An index leads exactly to the listed objects that have the key. *)
Record rindex_ok st : Prop := {
  rx_wf k : mo_wf (ridx k st);
  rx_key k n p : rfinds k st n = Some p <-> p ∈ rootfs_list st /\ exists s, rsim st p = Some s /\ n ∈ rkeys k s;
  rx_nodup p s : p ∈ rootfs_list st -> rsim st p = Some s -> NoDup (sr_names s);
  rx_maps p s : p ∈ rootfs_list st -> rsim st p = Some s -> maps_ok s
}.
Definition rinv own st : Prop := rrefs_ok own st /\ rindex_ok st.

(** A step that changes nothing but reference counts; objects may have been freed. *)
Record ronly st st' : Prop := {
  ro_rlist : rootfs_list st' = rootfs_list st;
  ro_rlen : rootfs_list_len st' = rootfs_list_len st;
  ro_ridx k : ridx k st' = ridx k st;
  ro_rloaded : rs_loaded st' = rs_loaded st;
  ro_rdisk : rs_disk st' = rs_disk st;
  ro_rlock : rs_lock st' = rs_lock st;
  ro_rsim p : is_Some (rsim st' p) -> rsim st' p = rsim st p
}.
#[export] Instance ronly_preorder : PreOrder ronly.
Proof.
  split; [by intros st; split|]. intros s1 s2 s3 H1 H2.
  split; [destruct H1, H2; congruence..|]. intros p Hp. rewrite (ro_rsim _ _ H2 p Hp).
  apply (ro_rsim _ _ H1). by rewrite <-(ro_rsim _ _ H2 p Hp).
Qed.

Lemma rrefs_live own st p : rrefs_ok own st -> rrefs st own p <> 0%nat -> is_Some (rsim st p).
Proof.
  intros Hr Hp. pose proof (rr_refs _ _ Hr p) as H. unfold rsim. destruct (rs_rootfs st !! p); [by eexists|done].
Qed.
Lemma rrefs_listed own st p : p ∈ rootfs_list st -> rrefs st own p <> 0%nat.
Proof. intros H. unfold rrefs. rewrite decide_True by done. lia. Qed.
Lemma rrefs_cons st own p q : rrefs st (p :: own) q = ((if decide (q = p) then 1 else 0) + rrefs st own q)%nat.
Proof. unfold rrefs. rewrite occ_cons_eq. lia. Qed.
Lemma rrefs_bound own st p : rrefs_ok own st -> (rrefs st own p <= 9)%nat.
Proof. intros Hr. unfold rrefs. pose proof (occ_le p own). pose proof (rr_few _ _ Hr). case_decide; lia. Qed.
Lemma rlisted_not_null own st p : rrefs_ok own st -> p ∈ rootfs_list st -> p <> NULL.
Proof. intros Hr Hp ->. pose proof (rrefs_listed own st NULL Hp). by rewrite (rr_null _ _ Hr) in *. Qed.
Lemma rlisted own st p : rinv own st -> p ∈ rootfs_list st -> exists s, rsim st p = Some s.
Proof. intros (Hr & _) Hp. by eapply rrefs_live, rrefs_listed. Qed.

Lemma rsim_only own st st' p : ronly st st' -> rrefs_ok own st' -> p ∈ rootfs_list st -> rsim st' p = rsim st p.
Proof.
  intros Ho Hr Hp. apply (ro_rsim _ _ Ho). eapply rrefs_live; [done|]. apply rrefs_listed. by rewrite (ro_rlist _ _ Ho).
Qed.
Lemma rfinds_only k st st' n : ronly st st' -> rfinds k st' n = rfinds k st n.
Proof. intros Ho. unfold rfinds. by rewrite (ro_ridx _ _ Ho). Qed.
Lemma rinv_only own own' st st' : ronly st st' -> rrefs_ok own' st' -> rinv own st -> rinv own' st'.
Proof.
  intros Ho Hr (_ & [X1 X2 X3 X4]). split; [done|]. pose proof (fun p => rsim_only own' st st' p Ho Hr) as Hs.
  split; rewrite ?(ro_rlist _ _ Ho).
  - intros k. by rewrite (ro_ridx _ _ Ho).
  - intros k n p. rewrite (rfinds_only _ _ _ _ Ho), X2. split; intros [Hp Hx]; (split; [done|]); by rewrite Hs in * by done.
  - intros p s Hp. rewrite Hs by done. by apply X3.
  - intros p s Hp. rewrite Hs by done. by apply X4.
Qed.

(** ** References *)
Lemma rootfs_ref_inc_spec own st p :
  rrefs_ok own st -> rrefs st own p <> 0%nat -> (length own < 8)%nat ->
  wp (rootfs_ref_inc p) (fun _ st' => rrefs_ok (p :: own) st' /\ ronly st st') st.
Proof.
  intros Hr Hp Hlen. unfold rootfs_ref_inc.
  assert (p <> NULL) as Hn by (intros ->; by rewrite (rr_null _ _ Hr) in Hp). rewrite decide_False by done.
  apply wp_mbind, wp_gets. pose proof (rr_refs _ _ Hr p) as Hpr. pose proof (rrefs_bound own st p Hr) as Hb.
  destruct (rs_rootfs st !! p) as [i|] eqn:Hi; [|done]. destruct Hpr as [Hc _].
  apply wp_mbind. eapply wp_lift; [done|]. apply wp_modify. split.
  - split; cbn; try apply Hr.
    + change (rrefs st (p :: own) NULL = 0%nat). rewrite rrefs_cons, decide_False by done. apply Hr.
    + intros q. change (rrefs _ (p :: own) q) with (rrefs st (p :: own) q). rewrite rrefs_cons.
      destruct (decide (q = p)) as [->|Hne].
      * rewrite lookup_insert_eq. cbn. unfold atomic_int_inc. rewrite Hc, wrap_u_small by lia. lia.
      * rewrite lookup_insert_ne by done. apply (rr_refs _ _ Hr q).
    + lia.
  - split; try done. intros q _. unfold rsim. cbn. destruct (decide (q = p)) as [->|Hne].
    + by rewrite lookup_insert_eq, Hi.
    + by rewrite lookup_insert_ne.
Qed.

(** Dropping a reference, in terms of the object's new state. *)
Lemma rrefs_dropped own st st' p :
  rrefs_ok (p :: own) st -> rootfs_list st' = rootfs_list st -> rootfs_list_len st' = rootfs_list_len st ->
  (forall q, q <> p -> rs_rootfs st' !! q = rs_rootfs st !! q) ->
  match rs_rootfs st' !! p with
  | Some i => cr_refcnt i = Z.of_nat (rrefs st own p) /\ rrefs st own p <> 0%nat
  | None => rrefs st own p = 0%nat
  end -> rrefs_ok own st'.
Proof.
  intros Hr El En Hq Hp'. assert (forall q, rrefs st' own q = rrefs st own q) as Er by (intros q; unfold rrefs; by rewrite El).
  split; rewrite ?El, ?En; try apply Hr.
  - rewrite Er. pose proof (rr_null _ _ Hr) as H0. rewrite rrefs_cons in H0. lia.
  - intros q. rewrite Er. destruct (decide (q = p)) as [->|Hne]; [done|].
    rewrite Hq by done. pose proof (rr_refs _ _ Hr q) as Hrq. by rewrite rrefs_cons, decide_False in Hrq by done.
  - pose proof (rr_few _ _ Hr) as Hf. cbn in Hf. lia.
Qed.
Lemma rootfs_ref_dec_spec own st p :
  rrefs_ok (p :: own) st -> wp (rootfs_ref_dec p) (fun _ st' => rrefs_ok own st' /\ ronly st st') st.
Proof.
  intros Hr. unfold rootfs_ref_dec.
  assert (rrefs st (p :: own) p = S (rrefs st own p)) as Hp by by rewrite rrefs_cons, decide_True.
  assert (p <> NULL) as Hn by (intros ->; by rewrite (rr_null _ _ Hr) in Hp). rewrite decide_False by done.
  apply wp_mbind, wp_gets. pose proof (rr_refs _ _ Hr p) as Hpr. pose proof (rrefs_bound _ st p Hr) as Hb.
  destruct (rs_rootfs st !! p) as [i|] eqn:Hi; [|lia]. destruct Hpr as [Hc _].
  apply wp_mbind. eapply wp_lift; [done|]. unfold atomic_int_dec_test. rewrite Hc, wrap_u_small by lia.
  assert (Z.of_nat (rrefs st (p :: own) p) - 1 = Z.of_nat (rrefs st own p)) as -> by lia.
  apply wp_mbind, wp_modify. destruct (Z.eqb_spec (Z.of_nat (rrefs st own p)) 0) as [Hz|Hz].
  - unfold free_rootfs_t. rewrite decide_False by done. apply wp_mbind, wp_gets. cbn.
    apply wp_mbind. eapply wp_lift; [apply lookup_insert_eq|]. apply wp_modify. split.
    + eapply (rrefs_dropped own st); try done; cbn.
      * intros q Hq. by rewrite lookup_delete_ne, lookup_insert_ne by done.
      * rewrite lookup_delete_eq. lia.
    + split; try done. intros q. unfold rsim. cbn. destruct (decide (q = p)) as [->|Hne].
      * rewrite lookup_delete_eq. by intros [].
      * by rewrite lookup_delete_ne, lookup_insert_ne.
  - apply wp_mret. split.
    + eapply (rrefs_dropped own st); try done; cbn.
      * intros q Hq. by rewrite lookup_insert_ne by done.
      * rewrite lookup_insert_eq. cbn. lia.
    + split; try done. intros q _. unfold rsim. cbn. destruct (decide (q = p)) as [->|Hne].
      * by rewrite lookup_insert_eq, Hi.
      * by rewrite lookup_insert_ne.
Qed.
Lemma rootfs_drop_spec own st p : rinv (p :: own) st -> wp (rootfs_ref_dec p) (fun _ st' => rinv own st' /\ ronly st st') st.
Proof.
  intros Hi. eapply wp_conseq; [apply (rootfs_ref_dec_spec own), Hi|]. intros _ st' [Hr Ho]. split; [by eapply rinv_only|done].
Qed.
Lemma rootfs_ref_dec_null st (Q : unit -> rootfs_store -> Prop) : Q tt st -> wp (rootfs_ref_dec NULL) Q st.
Proof. intros H. unfold rootfs_ref_dec. rewrite decide_True by done. by apply wp_mret. Qed.

(** The reference of the list goes to the call. *)
Lemma rrefs_unlist own st l1 p l2 :
  rrefs_ok own st -> rootfs_list st = l1 ++ p :: l2 -> (length own < 8)%nat ->
  rrefs_ok (p :: own) (put_rootfs_list (l1 ++ l2) (wrap_u 64 (rootfs_list_len st - 1)) st).
Proof.
  intros Hr El Hlen. pose proof (rr_nodup _ _ Hr) as Hnd. rewrite El in Hnd.
  apply NoDup_app in Hnd as (Hn1 & Hd & [Hp Hn2]%NoDup_cons).
  assert (forall q, rrefs (put_rootfs_list (l1 ++ l2) (wrap_u 64 (rootfs_list_len st - 1)) st) (p :: own) q =
                    rrefs st own q) as Er.
  { intros q. rewrite rrefs_cons. unfold rrefs. cbn. rewrite El.
    destruct (decide (q = p)) as [->|Hne].
    - rewrite (decide_True (P := p ∈ l1 ++ p :: l2)) by set_solver. rewrite decide_False by set_solver. lia.
    - destruct (decide (q ∈ l1 ++ l2)), (decide (q ∈ l1 ++ p :: l2)); try lia; set_solver. }
  split; cbn.
  - apply NoDup_app. split_and!; [done| |done]. intros q Hq1 Hq2. by apply (Hd q Hq1), elem_of_cons; right.
  - rewrite Er. apply Hr.
  - intros q. rewrite Er. apply (rr_refs _ _ Hr q).
  - rewrite (rr_len _ _ Hr), El. unfold wrap_u. rewrite Zminus_mod_idemp_l. f_equal. rewrite !length_app. cbn. lia.
  - lia.
Qed.
Lemma rrefs_listing own st p s :
  rrefs_ok own st -> rs_rootfs st !! p = None -> p <> NULL ->
  rrefs_ok own (put_rootfs_list (rootfs_list st ++ [p]) (wrap_u 64 (rootfs_list_len st + 1))
    (put_rootfs (<[p := CntRootfs 1 s]> (rs_rootfs st)) st)).
Proof.
  intros Hr Hf Hnn. pose proof (rr_refs _ _ Hr p) as Hp. rewrite Hf in Hp.
  assert (p ∉ rootfs_list st) as Hpl by (intros H; by apply (rrefs_listed own) in H).
  assert (forall q, rrefs (put_rootfs_list (rootfs_list st ++ [p]) (wrap_u 64 (rootfs_list_len st + 1))
     (put_rootfs (<[p := CntRootfs 1 s]> (rs_rootfs st)) st)) own q =
     ((if decide (q = p) then 1 else 0) + rrefs st own q)%nat) as Er.
  { intros q. unfold rrefs. cbn. destruct (decide (q = p)) as [->|Hne].
    - rewrite decide_True, decide_False by set_solver. lia.
    - destruct (decide (q ∈ rootfs_list st ++ [p])), (decide (q ∈ rootfs_list st)); try lia; set_solver. }
  split; cbn.
  - apply NoDup_app. split_and!; [apply Hr| |apply NoDup_singleton]. intros q Hq. rewrite list_elem_of_singleton. by intros ->.
  - rewrite Er, decide_False by done. apply Hr.
  - intros q. rewrite Er. destruct (decide (q = p)) as [->|Hne].
    + rewrite lookup_insert_eq. cbn. lia.
    + rewrite lookup_insert_ne by done. apply (rr_refs _ _ Hr q).
  - rewrite (rr_len _ _ Hr). unfold wrap_u. rewrite Zplus_mod_idemp_l. f_equal. rewrite length_app. cbn. lia.
  - apply Hr.
Qed.

(** ** Descriptions and keys *)
Lemma get_srootfs_spec st p s (Q : storage_rootfs -> rootfs_store -> Prop) :
  rsim st p = Some s -> Q s st -> wp (get_srootfs p) Q st.
Proof.
  intros Hs HQ. unfold rsim in Hs. destruct (rs_rootfs st !! p) as [i|] eqn:Hi; [|done]. cbn in Hs. simplify_eq.
  unfold get_srootfs. apply wp_mbind, wp_gets, wp_mbind. eapply wp_lift; [done|]. by apply wp_mret.
Qed.
Lemma rkey own st k p s n : rinv own st -> p ∈ rootfs_list st -> rsim st p = Some s -> n ∈ rkeys k s -> rfinds k st n = Some p.
Proof. intros (_ & Hx) Hp Hs Hn. apply (rx_key _ Hx). eauto. Qed.
(** A key belongs to one object. *)
Lemma rkey_inj own st k p q s s' n :
  rinv own st -> p ∈ rootfs_list st -> q ∈ rootfs_list st -> rsim st p = Some s -> rsim st q = Some s' ->
  n ∈ rkeys k s -> n ∈ rkeys k s' -> q = p.
Proof.
  intros Hi Hp Hq Hs Hs' Hn Hn'. pose proof (rkey _ _ k _ _ _ Hi Hp Hs Hn). pose proof (rkey _ _ k _ _ _ Hi Hq Hs' Hn'). congruence.
Qed.

Context (E : rootfs_env).

(** The object an identifier stands for: its id, its layer, a prefix of its id. *)
Definition rresolve st (id : cstr) : N :=
  match rfinds ById st id with
  | Some p => p
  | None =>
      match rfinds ByLayer st id with
      | Some p => p
      | None => if re_itor E then default NULL (find_prefix id (mo_elements (rs_byid st)) NULL) else NULL
      end
  end.
Lemma rresolve_listed own st id : rinv own st -> rresolve st id <> NULL -> rresolve st id ∈ rootfs_list st.
Proof.
  intros (Hr & Hx) Hnn. unfold rresolve in *.
  destruct (rfinds ById st id) as [p|] eqn:H1; [by apply (rx_key _ Hx) in H1 as [? _]|].
  destruct (rfinds ByLayer st id) as [p|] eqn:H2; [by apply (rx_key _ Hx) in H2 as [? _]|].
  destruct (re_itor E); [|done]. destruct (find_prefix _ _ _) as [p|] eqn:Hp; cbn in *; [|done].
  apply find_prefix_elem in Hp as [->|[i Hi]]; [done|].
  apply elem_of_mo_elements in Hi; [|apply (rx_wf _ Hx ById)]. by apply (rx_key _ Hx ById) in Hi as [? _].
Qed.
Lemma rresolve_only st st' id : ronly st st' -> rresolve st' id = rresolve st id.
Proof. intros Ho. unfold rresolve. rewrite !(rfinds_only _ _ _ _ Ho). change (rs_byid st') with (ridx ById st'). by rewrite (ro_ridx _ _ Ho). Qed.
Lemma rresolve_id own st p s : rinv own st -> p ∈ rootfs_list st -> rsim st p = Some s -> rresolve st (sr_id s) = p.
Proof. intros Hi Hp Hs. unfold rresolve. by rewrite (rkey own st ById p s) by (done || by apply list_elem_of_singleton). Qed.

Lemma lookup_rootfs_spec own st id :
  rinv own st -> (length own < 8)%nat ->
  wp (lookup_rootfs E id) (fun p st' => p = rresolve st id /\ ronly st st' /\
    (p = NULL /\ st' = st \/ p <> NULL /\ p ∈ rootfs_list st /\ rinv (p :: own) st')) st.
Proof.
  intros Hi Hlen. pose proof Hi as (Hr & Hx). unfold lookup_rootfs. apply wp_mbind, wp_gets, wp_mbind, wp_gets, wp_mbind.
  eapply (wp_conseq _ (fun p st' => p = rresolve st id /\ st' = st)).
  { rewrite (mo_search_ok id (rs_byid st) (rx_wf _ Hx ById)), (mo_search_ok id (rs_bylayer st) (rx_wf _ Hx ByLayer)). unfold rresolve.
    change (mo_abs (rs_byid st) !! id) with (rfinds ById st id). change (mo_abs (rs_bylayer st) !! id) with (rfinds ByLayer st id).
    destruct (rfinds ById st id); [by apply wp_mret|]. destruct (rfinds ByLayer st id); [by apply wp_mret|].
    unfold get_rootfs_for_store_by_prefix. destruct (re_itor E); cbn; [by apply wp_mbind, wp_gets, wp_mret|by apply wp_mret]. }
  intros p st' [Hp ->]. apply wp_mbind. destruct (decide (p = NULL)) as [->|Hnn].
  { unfold rootfs_ref_inc. rewrite decide_True by done. apply wp_mret, wp_mret. split_and!; [done..|]. by left. }
  assert (p ∈ rootfs_list st) as Hl by (subst p; by eapply rresolve_listed).
  eapply wp_conseq; [eapply rootfs_ref_inc_spec; [done|by apply rrefs_listed|done]|].
  intros _ st' [Hr' Ho]. apply wp_mret. split_and!; [done..|]. right. split_and!; [done..|]. by eapply rinv_only.
Qed.
End rootfs_store.
