(* ===== verification/RootfsStoreProps.v ===== *)
(** The operations of the store of root file systems: creating, deleting, wiping, changing
    and reading keep it consistent and do what they say. *)
From S2P Require Import Prelude Heap RbSearch KeyOrders MapC MapIface RestartManager ContainersStore ContainersStoreProps Effects ImageStore ImageStoreInv ImageStoreProps RootfsStore RootfsStoreInv.

Open Scope Z_scope.

Section rootfs_store.
Context {MI MB : Type} {cmp : cstr -> cstr -> Z} `{!KeyOrder cmp}.
Context {opsI : MapOps cstr N MI} `{!MapLaws cmp opsI}.
Context {opsB : MapOps cstr bool MB} `{!MapLaws cmp opsB}.
Abbreviation rootfs_store := (rootfs_store MI).
Implicit Types (st : rootfs_store) (own : list N).
Context (E : rootfs_env).

(** ** Removing *)

(** [st'] is [st] without the object [p], described by [s]. *)
Record rremoved (p : N) (s : storage_rootfs) st st' : Prop := {
  rv_list : rootfs_list st' = filter (fun q => q <> p) (rootfs_list st);
  rv_finds k n : rfinds k st' n = if decide (n ∈ rkeys k s) then None else rfinds k st n;
  rv_sim q : q ∈ rootfs_list st -> q <> p -> rsim st' q = rsim st q;
  rv_loaded : rs_loaded st' = rs_loaded st;
  rv_lock : rs_lock st' = rs_lock st
}.

Lemma rinv_removed own st st' p s :
  rinv own st -> p ∈ rootfs_list st -> rsim st p = Some s -> (forall k, mo_wf (ridx k st')) ->
  rremoved p s st st' -> rrefs_ok own st' -> rinv own st'.
Proof.
  intros Hi Hp Hs Hw [R1 R2 R3 _ _] Hr. pose proof Hi as (_ & [X1 X2 X3 X4]). split; [done|].
  assert (forall q, q ∈ rootfs_list st' <-> q ∈ rootfs_list st /\ q <> p) as Hl by (intros q; rewrite R1, list_elem_of_filter; tauto).
  split; [done| | |].
  - intros k n q. rewrite R2, Hl. case_decide as Hk.
    + split; [done|]. intros [[Hq Hne] (s' & Hs' & Hn)]. rewrite R3 in Hs' by done. exfalso.
      apply Hne. by eapply (rkey_inj own st k p q s s').
    + rewrite X2. split.
      * intros [Hq (s' & Hs' & Hn)]. assert (q <> p) by (intros ->; rewrite Hs in Hs'; by injection Hs' as <-).
        split; [done|]. rewrite R3 by done. eauto.
      * intros [[Hq Hne] Hx]. by rewrite R3 in Hx.
  - intros q s' [Hq Hne]%Hl. rewrite R3 by done. by apply X3.
  - intros q s' [Hq Hne]%Hl. rewrite R3 by done. by apply X4.
Qed.

Lemma remove_rootfs_names_spec st names :
  mo_wf (rs_byname st) -> NoDup names -> (forall n, n ∈ names -> is_Some (mo_abs (rs_byname st) !! n)) ->
  wp (remove_rootfs_names names) (fun z st' => z = 0 /\ exists m, st' = put_rs_byname m st /\ mo_wf m /\
    forall n, mo_abs m !! n = if decide (n ∈ names) then None else mo_abs (rs_byname st) !! n) st.
Proof.
  revert st. induction names as [|n names IH]; intros st Hw Hnd Hin; cbn.
  { apply wp_mret. split; [done|]. exists (rs_byname st). by destruct st. }
  apply NoDup_cons in Hnd as [Hn Hnd]. apply wp_mbind, wp_gets.
  destruct (mo_remove_abs n (rs_byname st) Hw) as [Hm Hok]. pose proof (mo_wf_remove n _ Hw) as Hmw.
  destruct (mo_remove n (rs_byname st)) as [ok m] eqn:Em. cbn in *.
  rewrite bool_decide_eq_true_2 in Hok by (apply Hin; by left). subst ok. apply wp_mbind, wp_modify.
  eapply wp_conseq; [apply IH; [done|done|]|].
  { cbn. intros n' Hn'. rewrite Hm, lookup_delete_ne by (by intros ->). apply Hin. by right. }
  intros z st' (-> & m' & -> & Hm'w & Hm'). split; [done|]. exists m'. split_and!; [done..|].
  intros n'. rewrite Hm'. cbn. rewrite Hm. destruct (decide (n' = n)) as [->|Hne].
  - rewrite (decide_False (P := n ∈ names)), decide_True by (done || by left). apply lookup_delete_eq.
  - rewrite lookup_delete_ne by done. repeat case_decide; set_solver.
Qed.
Lemma unlist_rootfs_spec id p s a1 a2 before st (Q : unit -> rootfs_store -> Prop) :
  (forall q, q ∈ a1 -> exists s', rsim st q = Some s' /\ sr_id s' <> id) ->
  rsim st p = Some s -> sr_id s = id ->
  wp (rootfs_ref_dec p) Q (put_rootfs_list (before ++ a1 ++ a2) (wrap_u 64 (rootfs_list_len st - 1)) st) ->
  wp (unlist_rootfs id before (a1 ++ p :: a2)) Q st.
Proof.
  intros Ha Hs Hid. revert before. induction a1 as [|q a1 IH]; intros before HQ; cbn.
  - apply wp_mbind. eapply get_srootfs_spec; [done|]. rewrite decide_True by done. by apply wp_mbind, wp_modify.
  - destruct (Ha q) as (s' & Hs' & Hne); [by left|]. apply wp_mbind. eapply get_srootfs_spec; [done|].
    rewrite decide_False by done. apply IH; [|by rewrite <-app_assoc].
    intros q' Hq'. apply Ha. by right.
Qed.

(** Taking a key that is there out of a map. *)
Lemma remove_key (n : cstr) (m : MI) :
  mo_wf m -> is_Some (mo_abs m !! n) ->
  exists m', mo_remove n m = (true, m') /\ mo_wf m' /\ forall n', mo_abs m' !! n' = if decide (n' ∈ [n]) then None else mo_abs m !! n'.
Proof.
  intros Hw Hn. destruct (mo_remove_abs n m Hw) as [Hm Hok]. pose proof (mo_wf_remove n m Hw) as Hmw.
  destruct (mo_remove n m) as [ok m'] eqn:Em. cbn in *. rewrite bool_decide_eq_true_2 in Hok by done. subst ok. exists m'.
  split_and!; [done..|]. intros n'. rewrite Hm. case_decide as Hd; rewrite list_elem_of_singleton in Hd.
  - subst. apply lookup_delete_eq.
  - by rewrite lookup_delete_ne.
Qed.

Lemma remove_rootfs_from_indices_spec own st p s :
  rinv own st -> (length own < 8)%nat -> p ∈ rootfs_list st -> rsim st p = Some s ->
  wp (remove_rootfs_from_indices p (sr_id s))
    (fun z st' => z = 0 /\ rremoved p s st st' /\ rs_disk st' = rs_disk st /\ rinv own st') st.
Proof.
  intros Hi Hlen Hp Hs. pose proof Hi as (Hr & Hx). unfold remove_rootfs_from_indices. apply wp_mbind, wp_gets.
  assert (forall k n, n ∈ rkeys k s -> rfinds k st n = Some p) as Hkey by eauto using rkey.
  destruct (remove_key (sr_id s) (rs_byid st) (rx_wf _ Hx ById)) as (ids & -> & Hidw & Hids).
  { exists p. apply (Hkey ById). by apply list_elem_of_singleton. }
  apply wp_mbind, wp_modify. cbn [negb]. apply wp_mbind. eapply get_srootfs_spec; [exact Hs|]. apply wp_mbind, wp_gets. cbn.
  destruct (remove_key (sr_layer s) (rs_bylayer st) (rx_wf _ Hx ByLayer)) as (lys & -> & Hlyw & Hlys).
  { exists p. apply (Hkey ByLayer). by apply list_elem_of_singleton. }
  apply wp_mbind, wp_modify. cbn [negb]. apply wp_mbind.
  eapply wp_conseq; [apply remove_rootfs_names_spec; [apply (rx_wf _ Hx ByName)|by eapply rx_nodup|]|].
  { intros n Hn. exists p. by apply (Hkey ByName). }
  intros z st1 (-> & nms & -> & Hnmw & Hnms). cbn in Hnms |- *. apply wp_mbind, wp_gets. cbn.
  apply list_elem_of_split in Hp as Hsp. destruct Hsp as (l1 & l2 & El). rewrite El. apply wp_mbind.
  eapply unlist_rootfs_spec with (s := s); [|done..|].
  { intros q Hq. assert (q ∈ rootfs_list st) as Hql by (rewrite El; apply elem_of_app; by left).
    destruct (rlisted own st q Hi Hql) as [s' Hs']. exists s'. split; [done|]. intros Hid. pose proof (rr_nodup _ _ Hr) as Hnd. rewrite El in Hnd.
    apply NoDup_app in Hnd as (_ & Hd & _). apply (Hd q Hq), elem_of_cons. left.
    eapply (rkey_inj own st ById p q s s'); [done..|by apply list_elem_of_singleton|]. cbn. rewrite Hid. by apply list_elem_of_singleton. }
  set (st4 := put_rootfs_list _ _ _). assert (rrefs_ok (p :: own) st4) as Hr4.
  { destruct (rrefs_unlist own st l1 p l2 Hr El Hlen). by split. }
  eapply wp_conseq; [by eapply rootfs_ref_dec_spec|]. intros _ st5 [Hr5 Ho5]. apply wp_mret. split; [done|].
  assert (rremoved p s st st5) as Hrm.
  { split; [rewrite (ro_rlist _ _ Ho5); cbn| |..].
    - rewrite El, filter_split; [done|]. rewrite <-El. apply Hr.
    - intros k n. rewrite (rfinds_only _ _ _ _ Ho5). unfold rfinds. destruct k; cbn; [apply Hids|apply Hlys|apply Hnms].
    - intros q Hq Hne. rewrite (ro_rsim _ _ Ho5); [done|]. eapply rrefs_live; [done|].
      apply rrefs_listed. rewrite (ro_rlist _ _ Ho5). cbn. rewrite El in Hq. set_solver.
    - by rewrite (ro_rloaded _ _ Ho5).
    - by rewrite (ro_rlock _ _ Ho5). }
  split; [done|]. split; [by rewrite (ro_rdisk _ _ Ho5)|]. eapply rinv_removed; try done.
  intros k. rewrite (ro_ridx _ _ Ho5). by destruct k.
Qed.

(** References taken before and dropped after a removal. *)
Lemma rremoved_refs own1 own2 p s st st1 st2 st3 :
  ronly st st1 -> rrefs_ok own1 st1 -> rremoved p s st1 st2 -> ronly st2 st3 -> rrefs_ok own2 st3 -> rremoved p s st st3.
Proof.
  intros H1 Hr1 [R1 R2 R3 R4 R5] H2 Hr2. rewrite (ro_rlist _ _ H1) in *. split.
  - by rewrite (ro_rlist _ _ H2), R1.
  - intros k n. by rewrite (rfinds_only _ _ _ _ H2), R2, (rfinds_only _ _ _ _ H1).
  - intros q Hq Hne. rewrite (rsim_only own2 st2), R3, (rsim_only own1 st); try done.
    rewrite R1. by apply list_elem_of_filter.
  - by rewrite (ro_rloaded _ _ H2), R4, (ro_rloaded _ _ H1).
  - by rewrite (ro_rlock _ _ H2), R5, (ro_rlock _ _ H1).
Qed.

Lemma remove_rootfs_from_memory_spec own st p s :
  rinv own st -> (length own < 7)%nat -> p ∈ rootfs_list st -> rsim st p = Some s ->
  wp (remove_rootfs_from_memory E (sr_id s))
    (fun z st' => z = 0 /\ rremoved p s st st' /\ rs_disk st' = rs_disk st /\ rinv own st') st.
Proof.
  intros Hi Hlen Hp Hs. unfold remove_rootfs_from_memory. apply wp_mbind.
  eapply wp_conseq; [apply (lookup_rootfs_spec E own); [done|lia]|]. intros p' st1 (Hp' & Ho1 & Hcase).
  rewrite (rresolve_id E own st p s) in Hp' by done. subst p'.
  destruct Hcase as [[-> _]|(Hnn & _ & Hi1)]; [by eapply rlisted_not_null in Hp; [|apply Hi]|].
  rewrite decide_False by done. apply wp_mbind.
  assert (rsim st1 p = Some s) as Hs1 by by rewrite (rsim_only (p :: own) st) by (done || apply Hi1).
  eapply wp_conseq; [eapply remove_rootfs_from_indices_spec; [done|cbn; lia|by rewrite (ro_rlist _ _ Ho1)|done]|].
  intros z st2 (-> & Hrm & Hd & Hi2). apply wp_mbind.
  eapply wp_conseq; [by apply rootfs_drop_spec|]. intros _ st3 [Hi3 Ho3]. apply wp_mret. split_and!; [done| | |done].
  - eapply rremoved_refs; [done|apply Hi1|done|done|apply Hi3].
  - by rewrite (ro_rdisk _ _ Ho3), Hd, (ro_rdisk _ _ Ho1).
Qed.

Lemma rinv_disk own st d : rinv own st -> rinv own (put_rs_disk d st).
Proof. intros ([] & []). split; by split. Qed.
Lemma rinv_lock own st n : rinv own st -> rinv own (put_rs_lock n st).
Proof. intros ([] & []). split; by split. Qed.

(** The effect of deleting what an identifier stands for. *)
Definition rdeleted (missing : Z) (id : cstr) (z : Z) st st' : Prop :=
  match rresolve E st id with
  | 0%N => z = missing /\ st' = st
  | p => p ∈ rootfs_list st /\ exists s, rsim st p = Some s /\ rremoved p s st st' /\
           z = (if re_rmdir E then 0 else -1) /\
           rs_disk st' = (if re_rmdir E then delete (sr_id s) (rs_disk st) else rs_disk st)
  end.
Lemma rdeleted_found missing id z st st' p :
  rdeleted missing id z st st' -> rresolve E st id = p -> p <> NULL ->
  p ∈ rootfs_list st /\ exists s, rsim st p = Some s /\ rremoved p s st st' /\ z = (if re_rmdir E then 0 else -1) /\
    rs_disk st' = (if re_rmdir E then delete (sr_id s) (rs_disk st) else rs_disk st).
Proof. unfold rdeleted. intros Hd Hr Hnn. rewrite Hr in Hd. by destruct p. Qed.

Lemma do_delete_rootfs_spec missing own st id :
  rinv own st -> (length own < 6)%nat ->
  wp (do_delete_rootfs E missing id) (fun z st' => rdeleted missing id z st st' /\ rinv own st') st.
Proof.
  intros Hi Hlen. unfold do_delete_rootfs, rdeleted. apply wp_mbind.
  eapply wp_conseq; [apply (lookup_rootfs_spec E own); [done|lia]|]. intros p st1 (Hp & Ho1 & Hcase). rewrite <-Hp.
  destruct Hcase as [[-> ->]|(Hnn & Hl & Hi1)]; [by apply wp_mret|]. rewrite decide_False by done.
  destruct (rlisted _ _ _ Hi Hl) as [s Hs].
  assert (rsim st1 p = Some s) as Hs1 by by rewrite (rsim_only (p :: own) st) by (done || apply Hi1).
  apply wp_mbind. eapply get_srootfs_spec; [done|]. apply wp_mbind.
  eapply wp_conseq; [eapply remove_rootfs_from_memory_spec; [done|cbn; lia|by rewrite (ro_rlist _ _ Ho1)|done]|].
  intros z st2 (-> & Hrm & Hd & Hi2). cbn [Z.eqb negb]. apply wp_mbind.
  eapply (wp_conseq _ (fun z st' => z = (if re_rmdir E then 0 else -1) /\
    st' = put_rs_disk (if re_rmdir E then delete (sr_id s) (rs_disk st) else rs_disk st) st2)).
  { rewrite (ro_rdisk _ _ Ho1) in Hd. unfold remove_rootfs_dir. apply wp_mbind. destruct (re_rmdir E).
    - apply wp_mbind, wp_modify, wp_mret, wp_mret. by rewrite Hd.
    - apply wp_mret, wp_mret. split; [done|]. rewrite <-Hd. by destruct st2. }
  intros z st3 [-> ->]. apply wp_mbind. eapply wp_conseq; [by apply rootfs_drop_spec, rinv_disk|].
  intros _ st4 [Hi4 Ho4]. apply wp_mret. split; [|done]. destruct p as [|p]; [done|]. split; [done|].
  exists s. split; [done|]. split; [|by rewrite (ro_rdisk _ _ Ho4)].
  eapply rremoved_refs; [done|apply Hi1| |exact Ho4|apply Hi4]. by destruct Hrm.
Qed.

(** ** The lock *)
Lemma with_rootfs_lock_spec {A} type (fail : A) (m : M rootfs_store A) (Q : A -> rootfs_store -> Prop) st :
  rs_lock st = 0 -> (re_lock E = false -> Q fail st) ->
  (re_lock E = true -> forall n, wp m (fun r st' => rs_lock st' = n /\ Q r (put_rs_lock 0 st')) (put_rs_lock n st)) ->
  wp (with_rootfs_lock E type fail m) Q st.
Proof.
  intros Hl Hf Hm. unfold with_rootfs_lock, rootfs_store_lock, rootfs_store_unlock. apply wp_mbind.
  destruct (re_lock E); cbn [negb]; [|by apply wp_mret, wp_mret, Hf]. apply wp_mbind, wp_gets. rewrite Hl.
  destruct type; cbn; apply wp_mbind, wp_modify, wp_mret; cbn; apply wp_mbind; (eapply wp_conseq; [by apply Hm|]);
    intros r st' [El HQ]; apply wp_mbind, wp_mbind, wp_gets, wp_modify, wp_mret; rewrite El; exact HQ.
Qed.
(** The lock is no part of what the operations are about. *)
Lemma rresolve_lock n st id : rresolve E (put_rs_lock n st) id = rresolve E st id.
Proof. done. Qed.
Lemma rremoved_lock n p s st st' : rremoved p s (put_rs_lock n st) st' -> rs_lock st = 0 -> rremoved p s st (put_rs_lock 0 st').
Proof. intros [] Hl. by split. Qed.
Lemma rs_lock_0 st : rs_lock st = 0 -> put_rs_lock 0 st = st.
Proof. destruct st; cbn. by intros ->. Qed.

Lemma rdeleted_lock missing n id z st st' :
  rs_lock st = 0 -> rdeleted missing id z (put_rs_lock n st) st' -> rs_lock st' = n /\ rdeleted missing id z st (put_rs_lock 0 st').
Proof.
  intros Hl. unfold rdeleted. rewrite rresolve_lock. destruct (rresolve E st id) as [|p].
  - intros [-> ->]. split; [done|]. split; [done|]. by destruct st; cbn in *; subst.
  - intros (Hp & s & Hs & Hrm & Hz & Hd). split; [apply (rv_lock _ _ _ _ Hrm)|]. split; [done|]. exists s.
    split_and!; [done|by eapply rremoved_lock|done|done].
Qed.

Lemma rootfs_store_delete_spec st id :
  rinv [] st -> rs_lock st = 0 ->
  wp (rootfs_store_delete E (Some id)) (fun z st' => rinv [] st' /\ rs_lock st' = 0 /\
    if re_lock E then rdeleted 0 id z st st' else z = -1 /\ st' = st) st.
Proof.
  intros Hi Hl. unfold rootfs_store_delete. apply with_rootfs_lock_spec; [done|by intros ->|]. intros -> n.
  eapply wp_conseq; [apply (do_delete_rootfs_spec 0 []); [by apply rinv_lock|cbn; lia]|]. intros z st' [Hd Hi'].
  apply rdeleted_lock in Hd as [Hn Hd]; [|done]. split_and!; [done|by apply rinv_lock|done|done].
Qed.

(** ** Wiping *)
Definition ids_of_list st : list cstr := omap (fun p => sr_id <$> rsim st p) (rootfs_list st).

Lemma filter_rest (p : N) (l : list N) : NoDup (p :: l) -> filter (fun q => q <> p) (p :: l) = l.
Proof. intros Hnd. apply (filter_split [] l p Hnd). Qed.

Lemma wipe_spec own l st :
  rinv own st -> (length own < 6)%nat -> rootfs_list st = l ->
  wp (wipe E l) (fun z st' => rinv own st' /\ rs_lock st' = rs_lock st /\
    if bool_decide (l = []) || re_rmdir E then z = 0 /\ rootfs_list st' = [] /\
      forall i, rs_disk st' !! i = if decide (i ∈ ids_of_list st) then None else rs_disk st !! i
    else z = -1 /\ rootfs_list st' = tail l /\ rs_disk st' = rs_disk st) st.
Proof.
  revert st. induction l as [|p l IH]; intros st Hi Hlen El; cbn [wipe].
  { apply wp_mret. rewrite bool_decide_eq_true_2 by done. cbn. split_and!; try done. intros i.
    unfold ids_of_list. rewrite El. by rewrite decide_False by apply not_elem_of_nil. }
  assert (p ∈ rootfs_list st) as Hp by (rewrite El; by left).
  destruct (rlisted own st p Hi Hp) as [s Hs]. apply wp_mbind. eapply get_srootfs_spec; [done|]. apply wp_mbind.
  eapply wp_conseq; [by apply (do_delete_rootfs_spec (-1) own)|]. intros z st1 [Hd Hi1].
  apply (rdeleted_found _ _ _ _ _ p) in Hd as (_ & s' & Hs' & Hrm & -> & Hdk);
    [|by eapply rresolve_id|eapply rlisted_not_null; [apply Hi|done]].
  rewrite Hs in Hs'. injection Hs' as <-. rewrite bool_decide_eq_false_2 by done. cbn [orb tail].
  assert (NoDup (p :: l)) as Hnd by (rewrite <-El; apply Hi).
  assert (rootfs_list st1 = l) as El1 by (rewrite (rv_list _ _ _ _ Hrm), El; by apply filter_rest).
  destruct (re_rmdir E); cbn [Z.eqb negb].
  2: { apply wp_mret. split_and!; try done. apply (rv_lock _ _ _ _ Hrm). }
  eapply wp_conseq; [by apply (IH st1)|]. rewrite orb_true_r. intros z st2 (Hi2 & Hl2 & -> & El2 & Hd2). split_and!; try done.
  - by rewrite Hl2, (rv_lock _ _ _ _ Hrm).
  - intros i. rewrite Hd2, Hdk. unfold ids_of_list. rewrite El, El1. cbn [omap list_omap]. rewrite Hs. cbn.
    rewrite (omap_ext_elem (fun q => sr_id <$> rsim st1 q) (fun q => sr_id <$> rsim st q) l).
    + destruct (decide (i = sr_id s)) as [->|Hne].
      * rewrite lookup_delete_eq, (decide_True (P := _ ∈ _ :: _)) by by left. by case_decide.
      * rewrite lookup_delete_ne by done. repeat case_decide; set_solver.
    + intros q Hq. rewrite (rv_sim _ _ _ _ Hrm); [done|rewrite El; by right|]. intros ->. by apply NoDup_cons in Hnd as [? _].
Qed.

(** ** Creating *)

(** The allocator returns fresh addresses and does not fail. *)
Record rootfs_env_ok : Prop := {
  reo_fresh cs : cs !! re_fresh E cs = None /\ re_fresh E cs <> NULL;
  reo_node : re_node E = true;
  reo_map : re_map E = true
}.
Context (HE : rootfs_env_ok).

(** [st'] is [st] with the object [p], described by [s]. *)
Record radded (p : N) (s : storage_rootfs) st st' : Prop := {
  rd_list : rootfs_list st' = rootfs_list st ++ [p];
  rd_finds k n : rfinds k st' n = if decide (n ∈ rkeys k s) then Some p else rfinds k st n;
  rd_sim q : rsim st' q = if decide (q = p) then Some s else rsim st q;
  rd_loaded : rs_loaded st' = rs_loaded st;
  rd_lock : rs_lock st' = rs_lock st
}.
Definition keys_free (s : storage_rootfs) st : Prop := forall k n, n ∈ rkeys k s -> rfinds k st n = None.

Lemma fresh_not_listed own st p : rinv own st -> rs_rootfs st !! p = None -> p ∉ rootfs_list st.
Proof. intros Hi Hf Hp. destruct (rlisted _ _ _ Hi Hp) as [s' Hs']. unfold rsim in Hs'. by rewrite Hf in Hs'. Qed.

Lemma rinv_added own st st' p s :
  rinv own st -> rs_rootfs st !! p = None -> NoDup (sr_names s) -> maps_ok s -> keys_free s st ->
  (forall k, mo_wf (ridx k st')) -> radded p s st st' -> rrefs_ok own st' -> rinv own st'.
Proof.
  intros Hi Hf Hnd Hmp Hkf Hw [A1 A2 A3 _ _] Hr'. pose proof Hi as (_ & [X1 X2 X3 X4]). split; [done|].
  pose proof (fresh_not_listed _ _ _ Hi Hf) as Hp.
  assert (forall q, q ∈ rootfs_list st' <-> q ∈ rootfs_list st \/ q = p) as Hl
    by (intros q; rewrite A1, elem_of_app, list_elem_of_singleton; done).
  assert (forall q, q ∈ rootfs_list st -> rsim st' q = rsim st q) as Hsim.
  { intros q Hq. rewrite A3, decide_False by (by intros ->). done. }
  assert (rsim st' p = Some s) as Hsp by by rewrite A3, decide_True.
  split; [done| | |].
  - intros k n q. rewrite A2, Hl. case_decide as Hk.
    + split; [intros [= <-]; split; [by right|eauto]|]. intros [[Hq| ->] (s' & Hs' & Hn)]; [|done].
      rewrite Hsim in Hs' by done. pose proof (rkey _ _ k _ _ _ Hi Hq Hs' Hn) as Hx. by rewrite Hkf in Hx.
    + rewrite X2. split.
      * intros [Hq (s' & Hs' & Hn)]. split; [by left|]. rewrite Hsim by done. eauto.
      * intros [[Hq| ->] (s' & Hs' & Hn)]; [rewrite Hsim in Hs' by done; eauto|]. rewrite Hsp in Hs'. by injection Hs' as <-.
  - intros q s' [Hq| ->]%Hl; [rewrite Hsim by done; by apply X3|]. rewrite Hsp. by intros [= <-].
  - intros q s' [Hq| ->]%Hl; [rewrite Hsim by done; by apply X4|]. rewrite Hsp. by intros [= <-].
Qed.

Lemma insert_key (n : cstr) p (m : MI) :
  mo_wf m -> mo_abs m !! n = None ->
  exists m', mo_insert (re_map E) n p m = (true, m') /\ mo_wf m' /\ forall n', mo_abs m' !! n' = if decide (n' ∈ [n]) then Some p else mo_abs m !! n'.
Proof.
  intros Hw Hn. rewrite (reo_map HE). destruct (mo_insert_fresh n p m Hw Hn) as [Hok Hm]. pose proof (mo_wf_insert true n p m Hw) as Hmw.
  destruct (mo_insert true n p m) as [ok m'] eqn:Em. cbn in *. subst ok. exists m'.
  split_and!; [done..|]. intros n'. rewrite Hm. case_decide as Hd; rewrite list_elem_of_singleton in Hd.
  - subst. apply lookup_insert_eq.
  - by rewrite lookup_insert_ne.
Qed.
Lemma insert_rootfs_names_spec st names p :
  mo_wf (rs_byname st) -> NoDup names -> (forall n, n ∈ names -> mo_abs (rs_byname st) !! n = None) ->
  wp (insert_rootfs_names E names p) (fun z st' => z = 0 /\ exists m, st' = put_rs_byname m st /\ mo_wf m /\
    forall n, mo_abs m !! n = if decide (n ∈ names) then Some p else mo_abs (rs_byname st) !! n) st.
Proof.
  revert st. induction names as [|n names IH]; intros st Hw Hnd Hin; cbn.
  { apply wp_mret. split; [done|]. exists (rs_byname st). by destruct st. }
  apply NoDup_cons in Hnd as [Hn Hnd]. apply wp_mbind, wp_gets.
  destruct (insert_key n p (rs_byname st) Hw) as (m & -> & Hmw & Hm); [apply Hin; by left|]. apply wp_mbind, wp_modify.
  eapply wp_conseq; [apply IH; [done|done|]|].
  { cbn. intros n' Hn'. rewrite Hm, decide_False; [apply Hin; by right|]. rewrite list_elem_of_singleton. by intros ->. }
  intros z st' (-> & m' & -> & Hm'w & Hm'). split; [done|]. exists m'. split_and!; [done..|].
  intros n'. rewrite Hm'. cbn. rewrite Hm. repeat case_decide; set_solver.
Qed.

Lemma append_container_spec own st p s :
  rinv own st -> rs_rootfs st !! p = None -> p <> NULL -> NoDup (sr_names s) -> maps_ok s -> keys_free s st ->
  wp (rootfs_store_append_container_rootfs E (sr_id s) (sr_layer s) (sr_names s) p)
    (fun z st' => z = 0 /\ radded p s st st' /\ rs_disk st' = rs_disk st /\ rinv own st')
    (put_rootfs (<[p := CntRootfs 1 s]> (rs_rootfs st)) st).
Proof.
  intros Hi Hf Hnn Hnd Hmp Hkf. pose proof Hi as (Hr & Hx). unfold rootfs_store_append_container_rootfs. rewrite (reo_node HE). cbn [negb].
  apply wp_mbind, wp_gets, wp_mbind, wp_modify, wp_mbind, wp_gets. cbn.
  destruct (insert_key (sr_id s) p (rs_byid st) (rx_wf _ Hx ById)) as (ids & -> & Hidw & Hids).
  { apply (Hkf ById). by apply list_elem_of_singleton. }
  apply wp_mbind, wp_modify. cbn [negb]. apply wp_mbind, wp_mbind, wp_gets. cbn.
  destruct (insert_key (sr_layer s) p (rs_bylayer st) (rx_wf _ Hx ByLayer)) as (lys & -> & Hlyw & Hlys).
  { apply (Hkf ByLayer). by apply list_elem_of_singleton. }
  apply wp_mbind, wp_modify. cbn [negb].
  eapply wp_conseq; [apply insert_rootfs_names_spec; [apply (rx_wf _ Hx ByName)|done|intros n Hn; by apply (Hkf ByName)]|].
  intros z st2 (-> & nms & -> & Hnw & Hnms). cbn in Hnms |- *. apply wp_mbind, wp_mret, wp_mret. split; [done|].
  set (st3 := put_rs_byname _ _).
  assert (radded p s st st3) as Ha.
  { split; [done| | |done|done].
    - intros k n. unfold rfinds. destruct k; [apply Hids|apply Hlys|apply Hnms].
    - intros q. unfold rsim. cbn. case_decide; [subst; by rewrite lookup_insert_eq|by rewrite lookup_insert_ne]. }
  split_and!; [done..|]. eapply rinv_added; try done.
  - by intros [].
  - destruct (rrefs_listing own st p s Hr Hf Hnn). by split.
Qed.

(** The stores have the same objects under the same keys. *)
Record rsame_content st st' : Prop := {
  rs_slist : rootfs_list st' = rootfs_list st;
  rs_sfinds k n : rfinds k st' n = rfinds k st n;
  rs_ssim q : q ∈ rootfs_list st -> rsim st' q = rsim st q;
  rs_sloaded : rs_loaded st' = rs_loaded st;
  rs_slock : rs_lock st' = rs_lock st
}.
#[export] Instance rsame_content_refl : Reflexive rsame_content.
Proof. by intros st. Qed.
Lemma rsame_refs own st st' : ronly st st' -> rrefs_ok own st' -> rsame_content st st'.
Proof.
  intros Ho Hr. split; [apply Ho|intros; by apply rfinds_only|intros q Hq; by eapply rsim_only|apply Ho|apply Ho].
Qed.
(** Removing the object that has just been added. *)
Lemma radded_removed own st st1 st2 p s :
  rinv own st -> rs_rootfs st !! p = None -> keys_free s st -> radded p s st st1 -> rremoved p s st1 st2 -> rsame_content st st2.
Proof.
  intros Hi Hf Hkf [A1 A2 A3 A4 A5] [R1 R2 R3 R4 R5]. pose proof (fresh_not_listed _ _ _ Hi Hf) as Hp. split; [| | |congruence..].
  - rewrite R1, A1. rewrite <-(app_nil_r (rootfs_list st)) at 2. apply filter_split.
    apply NoDup_app. split_and!; [apply Hi| |apply NoDup_singleton]. intros q Hq. rewrite list_elem_of_singleton. by intros ->.
  - intros k n. rewrite R2, A2. case_decide; [by rewrite Hkf|done].
  - intros q Hq. assert (q <> p) by (by intros ->). rewrite R3, A3, decide_False by (rewrite ?A1; set_solver). done.
Qed.

Lemma random_id_spec st fuel i :
  mo_wf (rs_byid st) -> wp (random_id E fuel i) (fun r st' => st' = st /\ forall j, r = Some j -> rfinds ById st j = None) st.
Proof.
  intros Hw. revert i. induction fuel as [|fuel IH]; intros i; cbn; [by apply wp_mret|].
  destruct (re_random E i) as [j|]; [|by apply wp_mret]. apply wp_mbind, wp_gets. rewrite (mo_search_ok j _ Hw).
  destruct (mo_abs (rs_byid st) !! j) eqn:Hj; [apply IH|]. apply wp_mret. split; [done|]. by intros j' [= <-].
Qed.

(** The mappings of users are at least as many as those of groups. *)
Definition opts_ok (opts : option rootfs_options) : Prop :=
  match opts with None => True | Some o => (length (gid_map o) <= length (uid_map o))%nat end.
(** Nothing stands in the way of a new root file system. *)
Definition can_create (i : cstr) (opts : option rootfs_options) : bool :=
  re_names E && re_srootfs E && re_time E && re_rootfs E && re_save E i &&
  match opts with None => true | Some o => negb (too_many (uid_map o) || too_many (gid_map o) || negb (re_idmap E)) end.
(** What creating does. *)
Definition rcreated (id : option cstr) (names : list cstr) (image layer : cstr) (metadata : option cstr)
    (opts : option rootfs_options) (r : option cstr) st st' : Prop :=
  match r with
  | Some i =>
      (forall j, id = Some j -> i = j) /\ rfinds ById st i = None /\
      exists p s, radded p s st st' /\ sr_id s = i /\ sr_image s = image /\ sr_layer s = layer /\ sr_metadata s = metadata /\
        (forall n, n ∈ sr_names s <-> n ∈ names) /\ rs_disk st' = <[i := s]> (rs_disk st)
  | None => rsame_content st st' /\ forall i, id = Some i -> rfinds ById st i = None -> can_create i opts = false
  end.

Lemma new_storage_rootfs_spec i image u layer metadata opts s :
  opts_ok opts -> new_storage_rootfs E i image u layer metadata opts = Some s ->
  sr_id s = i /\ sr_names s = u /\ sr_image s = image /\ sr_layer s = layer /\ sr_metadata s = metadata /\ maps_ok s.
Proof.
  intros Ho. unfold new_storage_rootfs, copy_id_map. destruct (re_srootfs E), (re_time E); cbn; try done.
  destruct opts as [o|]; [|intros [= <-]; split_and!; [done..|]; unfold maps_ok; cbn; lia]. destruct (too_many (uid_map o) || _ || _); [done|]. intros [= <-]. cbn. split_and!; try done.
  unfold maps_ok. cbn in *. unfold copy_mappings. destruct (uid_map o) as [|m l]; [done|]. by rewrite length_replicate.
Qed.
Lemma new_storage_rootfs_none i image u layer metadata opts :
  new_storage_rootfs E i image u layer metadata opts = None -> can_create i opts = false.
Proof.
  unfold new_storage_rootfs, copy_id_map, can_create.
  destruct (re_names E), (re_srootfs E), (re_time E), (re_rootfs E), (re_save E i); cbn; try done.
  destruct opts as [o|]; [|done]. by destruct (too_many (uid_map o) || _ || _).
Qed.

Lemma save_rootfs_spec s st :
  maps_ok s -> wp (save_rootfs E s) (fun z st' => z = (if re_save E (sr_id s) then 0 else -1) /\
    st' = if re_save E (sr_id s) then put_rs_disk (<[sr_id s := s]> (rs_disk st)) st else st) st.
Proof.
  intros Hm. unfold save_rootfs. destruct (Nat.ltb_spec (length (sr_uidmap s)) (sr_uidmap_len s)); [unfold maps_ok in Hm; lia|].
  destruct (re_save E (sr_id s)); [|by apply wp_mret]. by apply wp_mbind, wp_modify, wp_mret.
Qed.

(** The part of creating that follows the choice of the description. *)
Lemma enter_rootfs_spec st i s :
  rinv [] st -> sr_id s = i -> NoDup (sr_names s) -> maps_ok s -> keys_free s st -> re_rootfs E = true ->
  wp (c ← new_rootfs E s;
      if decide (c = NULL) then mret None
      else
        z ← rootfs_store_append_container_rootfs E i (sr_layer s) (sr_names s) c;
        if negb (z =? 0) then free_rootfs_t c;; mret None
        else
          s ← get_srootfs c;
          z ← save_rootfs E s;
          if negb (z =? 0) then _ ← delete_rootfs_from_store_without_lock E i; mret None
          else mret (Some i))
    (fun r st' => rinv [] st' /\ match r with
       | Some j => j = i /\ re_save E i = true /\ exists p, radded p s st st' /\ rs_disk st' = <[i := s]> (rs_disk st)
       | None => re_save E i = false /\ rsame_content st st'
       end) st.
Proof.
  intros Hi Hid Hnd Hmp Hkf Hal. subst i. unfold new_rootfs. rewrite Hal. cbn [negb].
  apply wp_mbind, wp_mbind, wp_gets. set (p := re_fresh E (rs_rootfs st)).
  destruct (reo_fresh HE (rs_rootfs st)) as [Hf Hnn]. fold p in Hf, Hnn.
  apply wp_mbind, wp_modify, wp_mret. rewrite decide_False by done. apply wp_mbind.
  eapply wp_conseq; [apply (append_container_spec [] st p s Hi Hf Hnn Hnd Hmp Hkf)|].
  intros z st1 (-> & Ha & Hd & Hi1). cbn [Z.eqb negb]. apply wp_mbind.
  eapply get_srootfs_spec; [by rewrite (rd_sim _ _ _ _ Ha), decide_True|]. apply wp_mbind.
  eapply wp_conseq; [by apply save_rootfs_spec|]. intros z st2 [-> ->]. destruct (re_save E (sr_id s)) eqn:Hsv; cbn [Z.eqb negb].
  - apply wp_mret. split; [by apply rinv_disk|]. split_and!; [done..|]. exists p. split; [by destruct Ha|]. cbn. by rewrite Hd.
  - apply wp_mbind. eapply wp_conseq; [apply (do_delete_rootfs_spec (-1) []); [done|cbn; lia]|].
    intros z st3 [Hdel Hi3]. apply wp_mret. split; [done|]. split; [done|].
    assert (p ∈ rootfs_list st1) as Hp1 by (rewrite (rd_list _ _ _ _ Ha); apply elem_of_app; right; by apply list_elem_of_singleton).
    assert (rsim st1 p = Some s) as Hs1 by by rewrite (rd_sim _ _ _ _ Ha), decide_True.
    apply (rdeleted_found _ _ _ _ _ p) in Hdel as (_ & s' & Hs' & Hrm & _); [|by eapply rresolve_id|done].
    rewrite Hs1 in Hs'. injection Hs' as <-. by apply (radded_removed [] st st1 st3 p s).
Qed.

Lemma do_create_rootfs_spec st id names image layer metadata opts :
  rinv [] st -> (forall n, n ∈ names -> rfinds ByName st n = None) -> rfinds ByLayer st layer = None -> opts_ok opts ->
  wp (do_create_rootfs (opsB := opsB) E id names image layer metadata opts)
    (fun r st' => rinv [] st' /\ rcreated id names image layer metadata opts r st st') st.
Proof.
  intros Hi Hnm Hly Ho. pose proof Hi as (_ & Hx). unfold do_create_rootfs. apply wp_mbind.
  eapply (wp_conseq _ (fun r st' => st' = st /\ (forall j, id = Some j -> r = Some j))).
  { destruct id as [i|]; [by apply wp_mret|]. eapply wp_conseq; [apply random_id_spec, (rx_wf _ Hx ById)|]. by intros r st' [-> _]. }
  intros dst st' [-> Hdst]. assert (forall i, dst = Some i -> forall j, id = Some j -> i = j) as Hd' by (intros i -> j Hj; specialize (Hdst j Hj); congruence).
  destruct dst as [i|]; [|apply wp_mret; split; [done|]; split; [done|]; intros i Hid; by specialize (Hdst i Hid)].
  specialize (Hd' i eq_refl). assert (forall j, id = Some j -> j = i) as Hd'' by (intros j Hj; by rewrite (Hd' j Hj)).
  apply wp_mbind, wp_gets. rewrite (mo_search_ok i (rs_byid st) (rx_wf _ Hx ById)). change (mo_abs (rs_byid st) !! i) with (rfinds ById st i).
  destruct (rfinds ById st i) as [q|] eqn:Hq.
  { apply wp_mret. split; [done|]. split; [done|]. intros j Hj. rewrite (Hd'' j Hj). by rewrite Hq. }
  destruct (array_unique (re_names E) names) as [u|] eqn:Hu; cbn [mbind option_bind].
  2: { apply wp_mret. split; [done|]. split; [done|]. intros j _ _. unfold can_create. destruct names as [|n names]; [done|]. cbn in Hu.
       destruct (mo_new_ok (cmp := cmp) (ops := opsB)) as (m & Hm & _). rewrite Hm in Hu. cbn in Hu. by destruct (re_names E). }
  apply array_unique_spec in Hu as [Hnd Hun].
  destruct (new_storage_rootfs E i image u layer metadata opts) as [s|] eqn:Hs.
  2: { apply wp_mret. split; [done|]. split; [done|]. intros j Hj _. rewrite (Hd'' j Hj). by eapply new_storage_rootfs_none. }
  apply new_storage_rootfs_spec in Hs as (Hsi & <- & Hsim & Hsl & Hsm & Hmp); [|done].
  destruct (re_rootfs E) eqn:Hal.
  2: { unfold new_rootfs. rewrite Hal. apply wp_mbind, wp_mret. rewrite decide_True by done. apply wp_mret. split; [done|]. split; [done|].
       intros j _ _. unfold can_create. rewrite Hal. by rewrite !andb_false_r. }
  rewrite <-Hsl. eapply wp_conseq; [apply (enter_rootfs_spec st i s); try done|].
  - intros k n. destruct k; cbn; [intros ->%list_elem_of_singleton; by rewrite Hsi|intros ->%list_elem_of_singleton; by rewrite Hsl|].
    intros Hn. by apply Hnm, Hun.
  - intros r st' [Hi' Hr]. split; [done|]. destruct r as [j|]; cbn.
    + destruct Hr as (-> & _ & p & Ha & Hdk). split_and!; [done..|]. exists p, s. split_and!; try done.
    + destruct Hr as [Hsv Hsc]. split; [done|]. intros j Hj _. rewrite (Hd'' j Hj). unfold can_create. rewrite Hsv. by rewrite !andb_false_r.
Qed.

Lemma rsame_lock n st st' : rs_lock st = 0 -> rsame_content (put_rs_lock n st) st' -> rsame_content st (put_rs_lock 0 st').
Proof. intros Hl []. by split. Qed.
Lemma radded_lock n p s st st' : rs_lock st = 0 -> radded p s (put_rs_lock n st) st' -> radded p s st (put_rs_lock 0 st').
Proof. intros Hl []. by split. Qed.

Lemma rootfs_store_create_spec st id names image layer metadata opts :
  rinv [] st -> rs_lock st = 0 ->
  (forall n, n ∈ names -> rfinds ByName st n = None) -> rfinds ByLayer st layer = None -> opts_ok opts ->
  wp (rootfs_store_create (opsB := opsB) E id names image layer metadata opts) (fun r st' => rinv [] st' /\ rs_lock st' = 0 /\
    if re_lock E then rcreated id names image layer metadata opts r st st' else r = None /\ st' = st) st.
Proof.
  intros Hi Hl Hnm Hly Ho. unfold rootfs_store_create. apply with_rootfs_lock_spec; [done|by intros ->|]. intros -> n.
  eapply wp_conseq; [apply do_create_rootfs_spec; [by apply rinv_lock|done..]|]. intros r st' [Hi' Hc].
  destruct r as [i|]; cbn in Hc |- *.
  - destruct Hc as (H1 & H2 & p & s & Ha & H3). split; [apply (rd_lock _ _ _ _ Ha)|]. split_and!; [by apply rinv_lock|done..|].
    exists p, s. split; [by eapply radded_lock|done].
  - destruct Hc as [Hsc Hc]. split; [apply (rs_slock _ _ Hsc)|]. split_and!; [by apply rinv_lock|done|by eapply rsame_lock|done].
Qed.
End rootfs_store.
