(* ===== verification/RootfsStoreRead.v ===== *)
(** Reading the store of root file systems, changing metadata, wiping it, and sequences of
    calls. *)
From S2P Require Import Prelude Heap RbSearch KeyOrders MapC MapIface RestartManager ContainersStore ContainersStoreProps Effects ImageStore ImageStoreInv ImageStoreProps RootfsStore RootfsStoreInv RootfsStoreProps.

Open Scope Z_scope.

Section rootfs_store.
Context {MI MB : Type} {cmp : cstr -> cstr -> Z} `{!KeyOrder cmp}.
Context {opsI : MapOps cstr N MI} `{!MapLaws cmp opsI}.
Context {opsB : MapOps cstr bool MB} `{!MapLaws cmp opsB}.
Abbreviation rootfs_store := (rootfs_store MI).
Implicit Types (st : rootfs_store) (own : list N).
Context (E : rootfs_env).

Lemma ronly_lock n st st' : rs_lock st = 0 -> ronly (put_rs_lock n st) st' -> ronly st (put_rs_lock 0 st').
Proof. intros Hl []. by split. Qed.

(** Between taking and dropping the reference of a call, under the lock. *)
Lemma with_rootfs_spec {A} type st id (fail : A) m (Q : A -> rootfs_store -> Prop) :
  rinv [] st -> rs_lock st = 0 ->
  (re_lock E = false \/ rresolve E st id = NULL -> Q fail st) ->
  (forall n p s st1, p = rresolve E st id -> p <> NULL -> p ∈ rootfs_list st -> rsim st p = Some s ->
     ronly (put_rs_lock n st) st1 -> rinv [p] st1 -> rsim st1 p = Some s ->
     wp (m p) (fun r st2 => rinv [p] st2 /\ rs_lock st2 = n /\
       forall st3, rinv [] st3 -> ronly st2 st3 -> Q r (put_rs_lock 0 st3)) st1) ->
  wp (with_rootfs E type id fail m) Q st.
Proof.
  intros Hi Hl Hf Hm. unfold with_rootfs. apply with_rootfs_lock_spec; [done|auto|]. intros _ n. apply wp_mbind.
  eapply wp_conseq; [apply (lookup_rootfs_spec E []); [by apply rinv_lock|cbn; lia]|].
  intros p st1 (Hp & Ho & [[-> ->]|(Hnn & Hpl & Hi1)]).
  - rewrite decide_True by done. apply wp_mbind, wp_mret, wp_mbind, rootfs_ref_dec_null, wp_mret. split; [done|].
    change (put_rs_lock 0 (put_rs_lock n st)) with (put_rs_lock 0 st). rewrite rs_lock_0 by done. auto.
  - rewrite decide_False by done. destruct (rlisted [] st p Hi Hpl) as [s Hs]. apply wp_mbind.
    eapply wp_conseq; [apply (Hm n p s); try done|].
    + by rewrite (rsim_only [p] (put_rs_lock n st) st1) by (done || apply Hi1).
    + intros r st2 (Hi2 & Hl2 & HQ). apply wp_mbind. eapply wp_conseq; [by apply rootfs_drop_spec|].
      intros _ st3 [Hi3 Ho3]. apply wp_mret. split; [by rewrite (ro_rlock _ _ Ho3)|]. by apply HQ.
Qed.

(** Readers return what the object says, and change nothing. *)
Definition rread {A} st id (fail : A) (f : storage_rootfs -> A) (r : A) st' : Prop :=
  rinv [] st' /\ rs_lock st' = 0 /\ ronly st st' /\
  (r = fail \/ exists s, rresolve E st id <> NULL /\ rsim st (rresolve E st id) = Some s /\ r = f s).
Lemma rootfs_exists_spec st id :
  rinv [] st -> rs_lock st = 0 -> wp (rootfs_store_exists E (Some id)) (rread st id false (fun _ => true)) st.
Proof.
  intros Hi Hl. unfold rootfs_store_exists. apply with_rootfs_spec; [done|done|intros _; split_and!; try done; by left|].
  intros n p s st1 -> Hnn Hp Hs Ho Hi1 Hs1. apply wp_mret. split_and!; [done|by rewrite (ro_rlock _ _ Ho)|]. intros st3 Hi3 Ho3.
  split_and!; [by apply rinv_lock|done|eapply ronly_lock; [done|by etransitivity]|eauto].
Qed.
Lemma copy_rootfs_spec s st : maps_ok s -> wp (copy_rootfs E s) (fun r st' => st' = st /\ r = if re_copy E s then Some s else None) st.
Proof.
  intros Hm. unfold copy_rootfs. destruct (Nat.ltb_spec (length (sr_uidmap s)) (sr_uidmap_len s)); [unfold maps_ok in Hm; lia|].
  by apply wp_mret.
Qed.
Lemma rootfs_get_spec st id :
  rinv [] st -> rs_lock st = 0 ->
  wp (rootfs_store_get_rootfs E (Some id)) (rread st id None (fun s => if re_copy E s then Some s else None)) st.
Proof.
  intros Hi Hl. unfold rootfs_store_get_rootfs. apply with_rootfs_spec; [done|done|intros _; split_and!; try done; by left|].
  intros n p s st1 -> Hnn Hp Hs Ho Hi1 Hs1. apply wp_mbind. eapply get_srootfs_spec; [done|].
  eapply wp_conseq; [apply copy_rootfs_spec; by eapply (rx_maps st); [apply Hi|..]|].
  intros r st2 [-> ->]. split_and!; [done|by rewrite (ro_rlock _ _ Ho)|]. intros st3 Hi3 Ho3.
  split_and!; [by apply rinv_lock|done|eapply ronly_lock; [done|by etransitivity]|eauto].
Qed.

Lemma copy_all_spec st l :
  (forall p, p ∈ l -> exists s, rsim st p = Some s /\ maps_ok s) ->
  wp (copy_all E l) (fun r st' => st' = st /\ (r.1 = 0 -> r.2 = omap (rsim st) l)) st.
Proof.
  induction l as [|p l IH]; intros Hl; cbn; [by apply wp_mret|]. destruct (Hl p) as (s & Hs & Hm); [by left|].
  apply wp_mbind. eapply get_srootfs_spec; [done|]. apply wp_mbind. eapply wp_conseq; [by apply copy_rootfs_spec|].
  intros r st' [-> ->]. destruct (re_copy E s); [|by apply wp_mret]. apply wp_mbind. eapply wp_conseq; [apply IH; intros q Hq; apply Hl; by right|].
  intros r st' [-> Hr]. apply wp_mret. split; [done|]. cbn. intros Hz. by rewrite Hs, Hr.
Qed.
(** The number of objects fits in a [size_t]. *)
Definition rootfs_fit st : Prop := Z.of_nat (length (rootfs_list st)) < 2 ^ 64.
Lemma rootfs_get_all_spec st :
  rinv [] st -> rs_lock st = 0 ->
  wp (rootfs_store_get_all_rootfs E) (fun r st' => st' = st /\ (rootfs_fit st -> r.1 = 0 -> r.2 = omap (rsim st) (rootfs_list st))) st.
Proof.
  intros Hi Hl. unfold rootfs_store_get_all_rootfs. apply with_rootfs_lock_spec; [done|by intros _|]. intros _ n.
  assert (put_rs_lock 0 (put_rs_lock n st) = st) as E0 by exact (rs_lock_0 st Hl).
  apply wp_mbind, wp_gets. cbn [rootfs_list_len put_rs_lock]. destruct (Z.eqb_spec (rootfs_list_len st) 0) as [Hz|Hz].
  { apply wp_mret. split_and!; [done|done|]. intros Hf _. destruct Hi as (Hr & _). rewrite (rr_len _ _ Hr) in Hz.
    unfold wrap_u, rootfs_fit in *. rewrite Z.mod_small in Hz by lia. by destruct (rootfs_list st). }
  destruct (re_list E); cbn [negb]; [|by apply wp_mret]. apply wp_mbind, wp_gets.
  eapply wp_conseq; [apply copy_all_spec|].
  { intros p Hp. destruct (rlisted [] st p Hi Hp) as [s Hs]. exists s. split; [done|]. destruct Hi as (_ & Hx). by eapply (rx_maps st). }
  intros r st' [-> Hr]. done.
Qed.

(** ** Metadata *)

(** [st'] is [st] with the object [p] described by [s]. *)
Definition redescribed_rootfs (p : N) (s : storage_rootfs) st st' : Prop :=
  rootfs_list st' = rootfs_list st /\ (forall k n, rfinds k st' n = rfinds k st n) /\
  forall q, q ∈ rootfs_list st -> rsim st' q = if decide (q = p) then Some s else rsim st q.

Lemma rinv_redescribe own st p i s0 s :
  rinv own st -> rs_rootfs st !! p = Some i -> srootfs i = s0 -> (forall k, rkeys k s = rkeys k s0) -> maps_ok s ->
  rinv own (put_rootfs (<[p := CntRootfs (cr_refcnt i) s]> (rs_rootfs st)) st).
Proof.
  intros (Hr & [X1 X2 X3 X4]) Hp Hs0 Hk Hm. set (st' := put_rootfs _ st).
  assert (forall q, rsim st' q = if decide (q = p) then Some s else rsim st q) as Hsim.
  { intros q. unfold rsim. cbn. case_decide; [subst; by rewrite lookup_insert_eq|by rewrite lookup_insert_ne]. }
  assert (rsim st p = Some s0) as Hsp by (unfold rsim; by rewrite Hp; cbn; rewrite Hs0).
  split.
  - split; try apply Hr. intros q. change (rrefs st' own q) with (rrefs st own q). cbn. pose proof (rr_refs _ _ Hr q) as Hq.
    destruct (decide (q = p)) as [->|Hne]; [rewrite lookup_insert_eq; by rewrite Hp in Hq|by rewrite lookup_insert_ne].
  - split; [exact X1| | |].
    + intros k n q. change (rfinds k st' n) with (rfinds k st n). rewrite X2, Hsim. cbn. case_decide; [subst q|done].
      rewrite Hsp. split; intros [Hq (s' & [= <-] & Hn)]; (split; [done|]); eexists; (split; [done|]); by rewrite Hk in *.
    + intros q s' Hq. rewrite Hsim. case_decide; [subst|by apply X3]. intros [= <-]. specialize (Hk ByName). cbn in Hk.
      rewrite Hk. by eapply X3.
    + intros q s' Hq. rewrite Hsim. case_decide; [subst|by apply X4]. by intros [= <-].
Qed.

Lemma set_rootfs_metadata_spec st id md :
  rinv [] st -> rs_lock st = 0 ->
  wp (rootfs_store_set_metadata E (Some id) (Some md)) (fun z st' => rinv [] st' /\ rs_lock st' = 0 /\
    (if re_lock E && negb (rresolve E st id =? NULL)%N then exists s, rsim st (rresolve E st id) = Some s /\
       redescribed_rootfs (rresolve E st id) (put_sr_metadata md s) st st' /\
       z = (if re_save E (sr_id s) then 0 else -1) /\
       rs_disk st' = (if re_save E (sr_id s) then <[sr_id s := put_sr_metadata md s]> (rs_disk st) else rs_disk st)
     else z = -1 /\ st' = st)) st.
Proof.
  intros Hi Hl. unfold rootfs_store_set_metadata. destruct (re_lock E) eqn:Hlk.
  2: { unfold with_rootfs, with_rootfs_lock, rootfs_store_lock. rewrite Hlk. cbn. by apply wp_mbind, wp_mret, wp_mret. }
  apply with_rootfs_spec; [done|done| |].
  { intros [?|Hn]; [congruence|]. rewrite Hn. cbn. by split_and!. }
  intros n p s st1 Hp Hnn Hpl Hs Ho Hi1 Hs1. rewrite <-Hp. assert ((p =? NULL)%N = false) as -> by by apply N.eqb_neq. cbn [andb negb].
  apply wp_mbind. eapply get_srootfs_spec; [done|]. apply wp_mbind. unfold set_srootfs. apply wp_mbind, wp_gets, wp_mbind.
  unfold rsim in Hs1. destruct (rs_rootfs st1 !! p) as [i|] eqn:Hpi; [|done]. injection Hs1 as Hs1. eapply wp_lift; [done|]. apply wp_modify.
  assert (maps_ok s) as Hm by (by eapply (rx_maps st); [apply Hi|..]).
  apply wp_mbind. eapply wp_conseq; [by apply save_rootfs_spec|]. intros z st2 [-> ->]. apply wp_mret. cbn [sr_id put_sr_metadata].
  set (st2 := put_rootfs _ st1). assert (rinv [p] st2) as Hi2 by (eapply (rinv_redescribe [p] st1 p i s); [done..|by intros []|done]).
  split_and!.
  - destruct (re_save E (sr_id s)); [by apply rinv_disk|done].
  - destruct (re_save E (sr_id s)); cbn; apply (ro_rlock _ _ Ho).
  - intros st3 Hi3 Ho3. split_and!; [by apply rinv_lock|done|]. exists s. split; [done|].
    assert (ronly st2 (put_rs_disk (rs_disk st2) st3)) as Ho3'.
    { destruct Ho3, (re_save E (sr_id s)); by split. }
    split_and!.
    + split_and!.
      * change (rootfs_list (put_rs_lock 0 st3)) with (rootfs_list (put_rs_disk (rs_disk st2) st3)). rewrite (ro_rlist _ _ Ho3'). apply (ro_rlist _ _ Ho).
      * intros k m. change (rfinds k (put_rs_lock 0 st3) m) with (rfinds k (put_rs_disk (rs_disk st2) st3) m). rewrite (rfinds_only _ _ _ _ Ho3').
        exact (rfinds_only _ _ _ _ Ho).
      * intros q Hq. change (rsim (put_rs_lock 0 st3) q) with (rsim (put_rs_disk (rs_disk st2) st3) q).
        rewrite (rsim_only [] st2 _ q Ho3'); [|by apply rinv_disk|by pose proof (ro_rlist _ _ Ho) as El; cbn in El |- *; rewrite El].
        unfold rsim at 1. cbn. case_decide as Hqp; [subst; by rewrite lookup_insert_eq|]. rewrite lookup_insert_ne by done.
        apply (rsim_only [p] (put_rs_lock n st) st1); [done|apply Hi1|done].
    + by destruct (re_save E (sr_id s)).
    + change (rs_disk (put_rs_lock 0 st3)) with (rs_disk st3). rewrite (ro_rdisk _ _ Ho3).
      pose proof (ro_rdisk _ _ Ho) as Ed. cbn in Ed. destruct (re_save E (sr_id s)); cbn; by rewrite Ed.
Qed.

(** ** Wiping *)
Lemma rootfs_store_wipe_spec st :
  rinv [] st -> rs_lock st = 0 ->
  wp (rootfs_store_wipe E) (fun z st' => rinv [] st' /\ rs_lock st' = 0 /\
    if re_lock E && (bool_decide (rootfs_list st = []) || re_rmdir E) then z = 0 /\ rootfs_list st' = [] /\
      forall i, rs_disk st' !! i = if decide (i ∈ ids_of_list st) then None else rs_disk st !! i
    else z = -1 /\ rs_disk st' = rs_disk st) st.
Proof.
  intros Hi Hl. unfold rootfs_store_wipe. apply with_rootfs_lock_spec; [done|by intros ->|]. intros -> n. apply wp_mbind, wp_gets.
  eapply wp_conseq; [apply (wipe_spec E [] _ (put_rs_lock n st)); [by apply rinv_lock|cbn; lia|done]|].
  intros z st' (Hi' & Hl' & Hc). split; [done|]. split_and!; [by apply rinv_lock|done|]. cbn [andb].
  destruct (bool_decide _ || _); [exact Hc|]. by destruct Hc as (? & _ & ?).
Qed.
End rootfs_store.
