(* ===== verification/RootfsStoreRun.v ===== *)
(** Sequences of calls of the store of root file systems, and what the store gets wrong. *)
From S2P Require Import Prelude Heap RbSearch KeyOrders MapC MapIface RestartManager ContainersStore ContainersStoreProps Effects ImageStore ImageStoreInv ImageStoreProps RootfsStore RootfsStoreInv RootfsStoreProps RootfsStoreRead.

Open Scope Z_scope.

(** The calls of the store. *)
Inductive rootfs_call :=
| FCreate (id : option cstr) (names : list cstr) (image layer : cstr) (metadata : option cstr) (opts : option rootfs_options)
| FDelete (id : option cstr)
| FWipe
| FSetMetadata (id metadata : option cstr)
| FLookup (id : option cstr)
| FExists (id : option cstr)
| FGet (id : option cstr)
| FGetAll.

Section rootfs_store.
Context {MI MB : Type} {cmp : cstr -> cstr -> Z} `{!KeyOrder cmp}.
Context {opsI : MapOps cstr N MI} `{!MapLaws cmp opsI}.
Context {opsB : MapOps cstr bool MB} `{!MapLaws cmp opsB}.
Abbreviation rootfs_store := (rootfs_store MI).
Implicit Types (st : rootfs_store).

Definition run_rootfs (E : rootfs_env) (c : rootfs_call) : M rootfs_store unit :=
  match c with
  | FCreate id names image layer md opts => _ ← rootfs_store_create (opsB := opsB) E id names image layer md opts; mret tt
  | FDelete id => _ ← rootfs_store_delete E id; mret tt
  | FWipe => _ ← rootfs_store_wipe E; mret tt
  | FSetMetadata id md => _ ← rootfs_store_set_metadata E id md; mret tt
  | FLookup id => _ ← rootfs_store_lookup E id; mret tt
  | FExists id => _ ← rootfs_store_exists E id; mret tt
  | FGet id => _ ← rootfs_store_get_rootfs E id; mret tt
  | FGetAll => _ ← rootfs_store_get_all_rootfs E; mret tt
  end.
Fixpoint run_rootfs_calls (cs : list (rootfs_env * rootfs_call)) : M rootfs_store unit :=
  match cs with [] => mret tt | (E, c) :: cs => run_rootfs E c;; run_rootfs_calls cs end.

(** What the caller must see to: a new root file system has a layer and names that are free and
    mappings that the code copes with, and [rootfs_store_lookup] is asked for what is there. *)
Definition rootfs_fits (E : rootfs_env) (c : rootfs_call) st : bool :=
  match c with
  | FCreate _ names _ layer _ opts =>
      forallb (fun n => bool_decide (mo_search n (rs_byname st) = None)) names &&
      bool_decide (mo_search layer (rs_bylayer st) = None) &&
      match opts with None => true | Some o => (length (gid_map o) <=? length (uid_map o))%nat end
  | FLookup (Some id) => negb (re_lock E) || negb (rresolve E st id =? NULL)%N
  | _ => true
  end.
Fixpoint rootfs_calls_fit (cs : list (rootfs_env * rootfs_call)) st : bool :=
  match cs with
  | [] => true
  | (E, c) :: cs => rootfs_fits E c st && match run_rootfs E c st with Some (_, st') => rootfs_calls_fit cs st' | None => true end
  end.
(** Between calls. *)
Definition idle st : Prop := rinv [] st /\ rs_lock st = 0.

Lemma create_idle E st id names image layer md opts :
  idle st -> rootfs_env_ok E -> rootfs_fits E (FCreate id names image layer md opts) st = true ->
  wp (rootfs_store_create (opsB := opsB) E id names image layer md opts) (fun _ st' => idle st') st.
Proof.
  intros [Hi Hl] HE Hf. cbn in Hf. rewrite !andb_true_iff, forallb_forall in Hf. destruct Hf as [[Hn Hly] Ho].
  pose proof Hi as (_ & Hx). apply bool_decide_eq_true in Hly. rewrite (mo_search_ok layer (rs_bylayer st) (rx_wf _ Hx ByLayer)) in Hly.
  eapply wp_conseq; [apply rootfs_store_create_spec; try done|by intros r st' (? & ? & _)].
  - intros n Hin. apply list_elem_of_In, Hn, bool_decide_eq_true in Hin.
    by rewrite (mo_search_ok n (rs_byname st) (rx_wf _ Hx ByName)) in Hin.
  - destruct opts as [o|]; [|done]. by apply Nat.leb_le.
Qed.

(** Looking up what is there. *)
Lemma rootfs_lookup_spec E st id s :
  rinv [] st -> rs_lock st = 0 -> re_lock E = true -> rresolve E st id <> NULL -> rsim st (rresolve E st id) = Some s ->
  wp (rootfs_store_lookup E (Some id)) (fun r st' => r = Some (sr_id s) /\ rinv [] st' /\ rs_lock st' = 0) st.
Proof.
  intros Hi Hl Hlk Hnn Hs. unfold rootfs_store_lookup, rootfs_store_lock. rewrite Hlk. cbn [negb].
  apply wp_mbind, wp_mbind, wp_gets. rewrite Hl. cbn. apply wp_mbind, wp_modify, wp_mret. cbn [negb]. apply wp_mbind.
  eapply wp_conseq; [apply (lookup_rootfs_spec E []); [by apply rinv_lock|cbn; lia]|]. intros p st1 (Hp & Ho & Hc).
  destruct Hc as [[-> _]|(Hpn & Hpl & Hi1)]; [by destruct Hnn|]. rewrite decide_False by done. apply wp_mbind.
  eapply get_srootfs_spec. { rewrite (rsim_only [p] _ _ p Ho); [|apply Hi1|done]. subst p. exact Hs. }
  apply wp_mbind. eapply wp_conseq; [by apply rootfs_drop_spec|]. intros _ st2 [Hi2 Ho2]. unfold rootfs_store_unlock.
  apply wp_mbind, wp_mbind, wp_gets, wp_modify, wp_mret. rewrite (ro_rlock _ _ Ho2), (ro_rlock _ _ Ho). cbn.
  split_and!; [done|by apply rinv_lock|done].
Qed.
Lemma lookup_idle E st id :
  idle st -> rootfs_fits E (FLookup id) st = true -> wp (rootfs_store_lookup E id) (fun _ st' => idle st') st.
Proof.
  intros [Hi Hl] Hf. destruct id as [id|]; [|by apply wp_mret]. cbn in Hf. destruct (re_lock E) eqn:Hlk.
  - cbn in Hf. apply negb_true_iff, N.eqb_neq in Hf.
    destruct (rlisted [] st _ Hi (rresolve_listed E [] st id Hi Hf)) as [s Hs].
    eapply wp_conseq; [by apply (rootfs_lookup_spec E st id s)|]. by intros r st' (_ & ? & ?).
  - unfold rootfs_store_lookup, rootfs_store_lock. rewrite Hlk. by apply wp_mbind, wp_mret, wp_mret.
Qed.

Lemma run_rootfs_idle E c st :
  idle st -> rootfs_env_ok E -> rootfs_fits E c st = true -> wp (run_rootfs E c) (fun _ st' => idle st') st.
Proof.
  intros Hst HE Hf. pose proof Hst as [Hi Hl].
  destruct c as [id names image layer md opts|id| |id md|id|id|id|]; cbn [run_rootfs]; apply wp_mbind;
    (eapply (wp_conseq _ (fun _ st' => idle st')); [|intros; by apply wp_mret]).
  - by apply create_idle.
  - destruct id as [id|]; [|by apply wp_mret]. eapply wp_conseq; [by apply rootfs_store_delete_spec|]. by intros z st' (? & ? & _).
  - eapply wp_conseq; [by apply rootfs_store_wipe_spec|]. by intros z st' (? & ? & _).
  - destruct id as [id|], md as [md|]; try by apply wp_mret.
    eapply wp_conseq; [by apply set_rootfs_metadata_spec|]. by intros z st' (? & ? & _).
  - by apply lookup_idle.
  - destruct id as [id|]; [|by apply wp_mret]. eapply wp_conseq; [by apply rootfs_exists_spec|]. by intros z st' (? & ? & _).
  - destruct id as [id|]; [|by apply wp_mret]. eapply wp_conseq; [by apply rootfs_get_spec|]. by intros z st' (? & ? & _).
  - eapply wp_conseq; [by apply rootfs_get_all_spec|]. by intros z st' [-> _].
Qed.

(** C22: A sequence of calls on the store of root file systems whose callers keep to
    [rootfs_calls_fit] returns: no object is used after it has been freed and no call waits
    for the lock for ever.  Afterwards the lock is free, every listed object is live with
    exactly one reference and nothing else is, and the three indices lead exactly to the
    listed objects with the id, the layer or the name.  The callers give a new object a layer
    and names that are free and no more gid than uid mappings, and call
    [rootfs_store_lookup] only for what is there: an unknown id keeps the lock for ever
    (rootfs_store.c:1021, [unknown_lookup_keeps_lock]); and memory does not run out when an object
    is entered into the list and the indices ([rootfs_env_ok]). *)
Theorem rootfs_store_session cs st :
  rinv [] st -> rs_lock st = 0 -> Forall (fun x => rootfs_env_ok x.1) cs -> rootfs_calls_fit cs st = true ->
  exists st', run_rootfs_calls cs st = Some (tt, st') /\ rinv [] st' /\ rs_lock st' = 0.
Proof.
  revert st. induction cs as [|[E c] cs IH]; intros st Hi Hl HE Hf; [by exists st|]. apply Forall_cons in HE as [HE HEs].
  cbn in Hf. apply andb_true_iff in Hf as [Hc Hf].
  destruct (run_rootfs_idle E c st (conj Hi Hl) HE Hc) as ([] & st1 & Hr & Hi1 & Hl1). rewrite Hr in Hf.
  destruct (IH st1 Hi1 Hl1 HEs Hf) as (st' & Hr' & Hx). exists st'. split; [|done].
  cbn. unfold mbind, M_bind. by rewrite Hr.
Qed.

(** [rootfs_store_lookup] keeps the lock when it finds nothing: whoever wants to change the
    store next waits for ever. *)
Lemma unknown_lookup_keeps_lock E st id :
  rinv [] st -> rs_lock st = 0 -> re_lock E = true -> rresolve E st id = NULL ->
  exists st', rootfs_store_lookup E (Some id) st = Some (None, st') /\ rs_lock st' = 1 /\
    forall E' i, re_lock E' = true -> rootfs_store_delete E' (Some i) st' = None.
Proof.
  intros Hi Hl Hlk Hno. assert (wp (rootfs_store_lookup E (Some id)) (fun r st' => r = None /\ st' = put_rs_lock 1 st) st) as Hw.
  { unfold rootfs_store_lookup, rootfs_store_lock. rewrite Hlk. cbn [negb].
    apply wp_mbind, wp_mbind, wp_gets. rewrite Hl. cbn. apply wp_mbind, wp_modify, wp_mret. cbn [negb]. apply wp_mbind.
    eapply wp_conseq; [apply (lookup_rootfs_spec E []); [by apply rinv_lock|cbn; lia]|]. intros p st1 (Hp & _ & Hc).
    rewrite rresolve_lock, Hno in Hp. destruct Hc as [[_ ->]|[? _]]; [|done]. subst p. rewrite decide_True by done. by apply wp_mret. }
  destruct Hw as (r & st' & Hr & -> & ->). eexists. split; [exact Hr|]. split; [done|]. intros E' i Hlk'.
  unfold rootfs_store_delete, with_rootfs_lock, rootfs_store_lock. rewrite Hlk'. done.
Qed.

(** An object whose layer is in use already is freed but stays in the index of ids. *)
Lemma used_layer_dangles E st i image layer md q :
  rinv [] st -> rs_lock st = 0 -> rootfs_env_ok E -> re_lock E = true -> can_create E i None = true ->
  rfinds ById st i = None -> rfinds ByLayer st layer = Some q ->
  exists st', rootfs_store_create (opsB := opsB) E (Some i) [] image layer md None st = Some (None, st') /\
    forall E', re_lock E' = true -> rootfs_store_exists E' (Some i) st' = None.
Proof.
  intros Hi Hl HE Hlk Hcan Hid Hly. pose proof Hi as (Hr & Hx). unfold can_create in Hcan. rewrite !andb_true_iff in Hcan.
  destruct Hcan as (((((Hnm & Hsr) & Htm) & Hal) & Hsv) & _).
  destruct (reo_fresh E HE (rs_rootfs st)) as [Hf Hnn]. set (p := re_fresh E (rs_rootfs st)) in *.
  destruct (insert_key E HE i p (rs_byid st) (rx_wf _ Hx ById) Hid) as (ids & Eid & Hidw & Hids).
  destruct (mo_insert_ok true layer p (rs_bylayer st) (rx_wf _ Hx ByLayer)) as [_ Eli]. unfold gm_try_insert, gm_insert in Eli.
  unfold rfinds, ridx in Hly. rewrite Hly in Eli. injection Eli as Eok El.
  assert (wp (rootfs_store_create (opsB := opsB) E (Some i) [] image layer md None)
    (fun r st' => r = None /\ rs_byid st' = ids /\ rs_rootfs st' = rs_rootfs st /\ rs_lock st' = 0) st) as Hw.
  { unfold rootfs_store_create. apply with_rootfs_lock_spec; [done|by rewrite Hlk|]. intros _ n. unfold do_create_rootfs.
    apply wp_mbind, wp_mret, wp_mbind, wp_gets. cbn [rs_byid put_rs_lock]. rewrite (mo_search_ok i (rs_byid st) (rx_wf _ Hx ById)).
    unfold rfinds, ridx in Hid. rewrite Hid. unfold array_unique, new_storage_rootfs, copy_id_map. cbn [mbind option_bind]. rewrite Hsr, Htm. cbn [negb].
    apply wp_mbind. unfold new_rootfs. rewrite Hal. cbn [negb]. apply wp_mbind, wp_gets, wp_mbind, wp_modify, wp_mret.
    cbn [rs_rootfs put_rs_lock]. fold p. rewrite decide_False by done. apply wp_mbind. unfold rootfs_store_append_container_rootfs.
    rewrite (reo_node E HE). cbn [negb]. apply wp_mbind, wp_gets, wp_mbind, wp_modify, wp_mbind, wp_gets. cbn [rs_byid put_rootfs_list put_rootfs put_rs_lock].
    rewrite Eid. apply wp_mbind, wp_modify. cbn [negb]. apply wp_mbind, wp_mbind, wp_gets. cbn [rs_bylayer put_rs_byid put_rootfs_list put_rootfs put_rs_lock].
    rewrite (reo_map E HE). destruct (mo_insert true layer p (rs_bylayer st)) as [ok lys]. cbn in Eok. subst ok.
    apply wp_mbind, wp_modify, wp_mret, wp_mbind, wp_modify, wp_mret. cbn. apply wp_mbind. unfold free_rootfs_t. rewrite decide_False by done.
    apply wp_mbind, wp_gets, wp_mbind. eapply wp_lift; [cbn; apply lookup_insert_eq|]. apply wp_modify, wp_mret. cbn.
    split_and!; try done. by apply delete_insert_id. }
  destruct Hw as (r & st' & Hrun & -> & Eids & Ers & Elk). exists st'. split; [done|]. intros E' Hlk'.
  unfold rootfs_store_exists, with_rootfs, with_rootfs_lock, rootfs_store_lock. rewrite Hlk'. cbn [negb].
  unfold gets, modify, mret, M_ret, mbind, M_bind. rewrite Elk. cbn.
  unfold lookup_rootfs, gets, mbind, M_bind. cbn. rewrite Eids, (mo_search_ok i ids Hidw), Hids, decide_True by by apply list_elem_of_singleton.
  unfold rootfs_ref_inc. cbn. rewrite decide_False by done. unfold gets, lift, mbind, M_bind. cbn. by rewrite Ers, Hf.
Qed.
End rootfs_store.

(** ** Examples *)
#[local] Abbreviation rf_cmp := (cstr_cmp uchar_value).
#[local] Instance rf_opsI : MapOps cstr N (gmap cstr N) := gmap_MapOps rf_cmp.
#[local] Instance rf_opsB : MapOps cstr bool (gmap cstr bool) := gmap_MapOps rf_cmp.
#[local] Abbreviation rf_store := (rootfs_store (gmap cstr N)).

(** Everything succeeds. *)
Definition rootfs_demo_env : rootfs_env :=
  RootfsEnv true true true true true true true true true (fun _ => Some (c_str "r0")) (fun _ => true) true (fun _ => true) true
    (Some []) (fun _ => true) next_address.
Lemma rootfs_demo_env_ok : rootfs_env_ok rootfs_demo_env.
Proof.
  split; try done. intros cs. split; [apply next_address_fresh|]. cbn. pose proof (proj1 (next_address_spec cs)). unfold NULL. lia.
Qed.
Definition rootfs_empty : rf_store := RStore ∅ [] 0 ∅ ∅ ∅ true ∅ 0.

Lemma rootfs_empty_inv : rinv (cmp := rf_cmp) [] rootfs_empty.
Proof.
  split.
  - split; try done; [constructor|]. cbn. lia.
  - split.
    + by intros [].
    + intros k n p. split; [|by intros [?%not_elem_of_nil _]]. unfold rfinds. destruct k; cbn; by rewrite lookup_empty.
    + by intros p s ?%not_elem_of_nil.
    + by intros p s ?%not_elem_of_nil.
Qed.

Definition rootfs_demo_calls : list (rootfs_env * rootfs_call) := pair rootfs_demo_env <$>
  [FCreate (Some (c_str "c1")) [c_str "web"] (c_str "a1") (c_str "c1") None None;
   FCreate None [] (c_str "a1") (c_str "l2") None (Some (RootfsOptions [IdMap 0 1000 1; IdMap 1 2000 5] [IdMap 0 1000 1]));
   FLookup (Some (c_str "c")); FSetMetadata (Some (c_str "l2")) (Some (c_str "m")); FGet (Some (c_str "r0")); FGetAll;
   FDelete (Some (c_str "c1")); FExists (Some (c_str "c1")); FWipe].
Lemma rootfs_demo_calls_ok : Forall (fun x => rootfs_env_ok x.1) rootfs_demo_calls.
Proof. repeat constructor; apply rootfs_demo_env_ok. Qed.

Lemma rootfs_store_session_witness :
  exists st', run_rootfs_calls (opsB := rf_opsB) rootfs_demo_calls rootfs_empty = Some (tt, st') /\
    rinv (cmp := rf_cmp) [] st' /\ rs_lock st' = 0.
Proof.
  apply (rootfs_store_session (cmp := rf_cmp) (opsB := rf_opsB) rootfs_demo_calls rootfs_empty rootfs_empty_inv eq_refl rootfs_demo_calls_ok).
  vm_compute. reflexivity.
Defined.

(** The second mapping of users is lost, and with more mappings of groups than of users the
    array is read beyond its end. *)
Lemma mappings_lost :
  copy_mappings [IdMap 0 1000 1; IdMap 1 2000 5] = [IdMap 0 1000 1; IdMap 0 1000 1] /\
  rootfs_store_create (opsB := rf_opsB) rootfs_demo_env (Some (c_str "c1")) [] (c_str "a1") (c_str "c1") None
    (Some (RootfsOptions [] [IdMap 0 1000 1])) rootfs_empty = None.
Proof. split; vm_compute; reflexivity. Qed.

(** When there is no memory for a node of the list, the description read from disk is freed
    twice. *)
Lemma loaded_description_freed_twice :
  let E := RootfsEnv true true false true true true true true true (fun _ => None) (fun _ => true) true (fun _ => true) true
    (Some []) (fun _ => true) next_address in
  append_container_by_directory E (c_str "d")
    (put_rs_disk {[c_str "d" := SRootfs (c_str "d") [] (c_str "a1") (c_str "l") None [] 0 []]} rootfs_empty) = None.
Proof. vm_compute. reflexivity. Qed.

(** Loading what a daemon has saved: the root file system is found again. *)
Lemma reload_finds_again :
  let id := c_str "aaaaaaaabbbbbbbbccccccccddddddddeeeeeeeeffffffff0000000011111111" in
  let s := SRootfs id [c_str "web"] (c_str "a1") (c_str "l") None [] 0 [] in
  let E := RootfsEnv true true true true true true true true true (fun _ => None) (fun _ => true) true (fun _ => true) true
    (Some [id; c_str "tmp"]) (fun _ => true) next_address in
  match rootfs_store_load E (put_rs_disk {[id := s]} (put_rs_loaded false rootfs_empty)) with
  | Some (0, st) => fst <$> rootfs_store_get_rootfs E (Some (c_str "aaaaaaaa")) st
  | _ => None
  end = Some (Some s).
Proof. vm_compute. reflexivity. Qed.
