(* ===== verification/Storage.v ===== *)
(** The storage module: src/src/daemon/modules/image/oci/storage/storage.c, which puts the
    stores of images, of layers and of the root file systems of containers together.

    The three stores are states of their own, reached through the classes below: what the
    module calls of them is a method.  The calls of the layer store are those of LayerStore
    ([lay_call]).  [st_checked] is the file with the ids of the layers that were found
    intact.  A loop that follows parents has fuel, and running out of it is undefined. *)
From S2P Require Import Prelude KeyOrders Path Effects ImageStore LayerStore LayerStoreSpec LayerStoreCalls.

Open Scope Z_scope.

(** [storage_rootfs], what the module reads of it *)
Record rootfs_info := Rootfs { rf_id : cstr; rf_image : cstr; rf_layer : cstr }.

(** The store of images. *)
Class ImageOps (I : Type) := {
  img_exists : cstr -> M I bool;
  img_lookup : cstr -> M I (option cstr);
  img_get_summary : cstr -> M I (option img_summary);
  img_get : cstr -> M I (option img_summary);
  img_get_all : M I (Z * list img_summary);
  img_delete : cstr -> M I Z;
  img_top_layer : cstr -> M I (option cstr);
  img_big_data_names : cstr -> M I (option (list cstr));
  img_big_data_size : cstr -> cstr -> M I Z;
  img_set_size : cstr -> Z -> M I Z;
  img_create : cstr -> option cstr -> option cstr -> option cstr -> M I (option cstr)
}.
(** The store of layers. *)
Class LayerOps (L : Type) := { layer_call : lay_call -> M L lay_result }.
(** The store of root file systems. *)
Class RootfsOps (R : Type) := {
  rfs_exists : cstr -> M R bool;
  rfs_get : cstr -> M R (option rootfs_info);
  rfs_get_all : M R (Z * list rootfs_info);
  rfs_create : cstr -> cstr -> cstr -> M R (option cstr);
  rfs_delete : cstr -> M R Z
}.

Record storage (I L R : Type) := Storage {
  st_images : I;
  st_layers : L;
  st_rootfs : R;
  st_checked : list cstr
}.
Arguments Storage {I L R}.
Arguments st_images {I L R}.
Arguments st_layers {I L R}.
Arguments st_rootfs {I L R}.
Arguments st_checked {I L R}.

(** The outcomes of the environment during a call. *)
Record storage_env := StorageEnv {
  se_lock : bool;
  se_alloc : bool;                     (** a list of images, layers or file systems *)
  se_reader : bool;                    (** opening the archive of a layer *)
  se_opts : bool;                      (** the options for a new layer *)
  se_normalize : cstr -> cstr;         (** [oci_normalize_image_name] *)
  se_short_id : cstr -> bool;          (** [util_valid_short_sha256_id] *)
  se_path : bool;                      (** the path of the file of checked layers *)
  se_parse : bool;                     (** reading that file *)
  se_file : bool;                      (** opening it for writing *)
  se_write : cstr -> bool;             (** writing a line to it *)
  se_map : bool                        (** an entry of a map *)
}.

(** [storage_layer_create_opts_t]; of the data, whether there is a path. *)
Record create_opts := CreateOpts {
  co_parent : option cstr;
  co_uncompress_digest : option cstr;
  co_compressed_digest : option cstr;
  co_layer_data : bool;
  co_writable : bool
}.

(** ** Decisions on lists *)

(** The ids of the other images are compared with the id of the layer. *)
Fixpoint is_top_layer_of_other_image (all_images : list img_summary) (layer_id : cstr) : option bool :=
  match all_images with
  | [] => Some false
  | i :: l =>
      top ← im_top_layer i;
      if bool_decide (top = layer_id) && bool_decide (im_id i <> layer_id) then Some true
      else is_top_layer_of_other_image l layer_id
  end.

Definition is_parent_layer_of_other_layer (layer_id : cstr) (last_deleted : option cstr) (all_layers : list layer_info)
    : bool :=
  existsb (fun l => bool_decide (li_parent l = Some layer_id) && bool_decide (Some (li_id l) <> last_deleted)) all_layers.

Definition is_rootfs_layer (layer_id : cstr) (all_rootfs : list rootfs_info) : bool :=
  existsb (fun r => bool_decide (rf_layer r = layer_id)) all_rootfs.

(** The options of a layer carry no names. *)
Definition fill_create_layer_opts (E : storage_env) (copts : create_opts) (mount_label : option cstr) : option layer_opts :=
  if se_opts E then
    Some (LayerOpts (co_parent copts) [] (co_writable copts) (co_uncompress_digest copts) (co_compressed_digest copts)
            mount_label)
  else None.

(** [int64_t] arithmetic *)
Definition int64_add (a b : Z) : option Z :=
  if (- 2 ^ 63 <=? a + b) && (a + b <? 2 ^ 63) then Some (a + b) else None.

Section storage.
Context {I L R : Type} `{!ImageOps I} `{!LayerOps L} `{!RootfsOps R}.
Abbreviation W := (storage I L R).
Abbreviation S A := (M W A) (only parsing).

Definition on_images {A} (m : M I A) : S A := fun w =>
  match m (st_images w) with
  | Some (a, i) => Some (a, Storage i (st_layers w) (st_rootfs w) (st_checked w))
  | None => None
  end.
Definition on_layers {A} (m : M L A) : S A := fun w =>
  match m (st_layers w) with
  | Some (a, l) => Some (a, Storage (st_images w) l (st_rootfs w) (st_checked w))
  | None => None
  end.
Definition on_rootfs {A} (m : M R A) : S A := fun w =>
  match m (st_rootfs w) with
  | Some (a, r) => Some (a, Storage (st_images w) (st_layers w) r (st_checked w))
  | None => None
  end.

(** The calls of the layer store and the shape of their results. *)
Definition layer_status (c : lay_call) : S Z :=
  r ← on_layers (layer_call c); lift (match r with RStatus z => Some z | _ => None end).
Definition layer_create (id : cstr) (opts : layer_opts) (diff : bool) : S Z :=
  r ← on_layers (layer_call (LCreate id (Some opts) diff)); lift (match r with RCreate z _ => Some z | _ => None end).
Definition layer_hold (id : cstr) : S (option Z) :=
  r ← on_layers (layer_call (LGetHold (Some id))); lift (match r with RHold n => Some n | _ => None end).
Definition layer_lookup (id : cstr) : S (option layer_info) :=
  r ← on_layers (layer_call (LLookup (Some id))); lift (match r with RInfo i => Some i | _ => None end).
Definition layer_list : S (Z * list layer_info) :=
  r ← on_layers (layer_call LList); lift (match r with RInfos z l => Some (z, l) | _ => None end).
Definition layer_mount (id : cstr) : S (option cstr) :=
  r ← on_layers (layer_call (LMount (Some id))); lift (match r with RPath p => Some p | _ => None end).

Variable E : storage_env.

(** ** Deleting layers *)

(** The loop over the parents. *)
Fixpoint delete_chain (fuel : nat) (all_images : list img_summary) (all_layers : list layer_info)
    (layer_id : cstr) (last_deleted : option cstr) : S Z :=
  match fuel with
  | O => crash
  | Datatypes.S fuel =>
      refs ← layer_hold layer_id;
      match refs with
      | None => mret (-1)
      | Some refs_num =>
          if refs_num >? 0 then mret 0
          else
            top ← lift (is_top_layer_of_other_image all_images layer_id);
            if top : bool then mret 0
            else if is_parent_layer_of_other_layer layer_id last_deleted all_layers then mret 0
            else
              info ← layer_lookup layer_id;
              match info with
              | None => mret (-1)
              | Some info =>
                  z ← layer_status (LDelete (Some layer_id));
                  if negb (z =? 0) then mret (-1)
                  else
                    match li_parent info with
                    | None => mret 0
                    | Some parent => delete_chain fuel all_images all_layers parent (Some layer_id)
                    end
              end
      end
  end.

Definition do_delete_related_layers (img_top_layer_id : option cstr) (all_images : list img_summary)
    (all_layers : list layer_info) : S Z :=
  match img_top_layer_id with
  | None => mret (-1)
  | Some layer_id => delete_chain (length all_layers + 1) all_images all_layers layer_id None
  end.

Definition delete_img_related_layers (img_top_layer_id : option cstr) : S Z :=
  if negb (se_alloc E) then mret (-1)
  else
    images ← on_images img_get_all;
    if negb (images.1 =? 0) then mret (-1)
    else
      layers ← layer_list;
      if negb (layers.1 =? 0) then mret (-1)
      else do_delete_related_layers img_top_layer_id images.2 layers.2.

Definition storage_layer_chain_delete (layer_id : option cstr) : S Z :=
  if negb (se_lock E) then mret (-1) else delete_img_related_layers layer_id.

(** ** Images *)

(** [None]: an error; else whether a container uses the image. *)
Definition check_image_occupancy_status (img_id : cstr) : S (option bool) :=
  img_long_id ← on_images (img_lookup img_id);
  match img_long_id with
  | None => mret None
  | Some img_long_id =>
      if negb (se_alloc E) then mret None
      else
        all_rootfs ← on_rootfs rfs_get_all;
        if negb (all_rootfs.1 =? 0) then mret None
        else mret (Some (existsb (fun r => bool_decide (rf_image r = img_long_id)) all_rootfs.2))
  end.

Definition do_storage_img_delete (img_id : cstr) : S Z :=
  ex ← on_images (img_exists img_id);
  if negb ex then mret 0
  else
    image_info ← on_images (img_get_summary img_id);
    match image_info with
    | None => mret (-1)
    | Some info =>
        in_using ← check_image_occupancy_status img_id;
        match in_using with
        | None | Some true => mret (-1)
        | Some false =>
            z ← on_images (img_delete (im_id info));
            if negb (z =? 0) then mret (-1)
            else
              z ← delete_img_related_layers (im_top_layer info);
              mret (if negb (z =? 0) then -1 else 0)
        end
    end.

Definition storage_img_delete (img_id : option cstr) : S Z :=
  match img_id with
  | None => mret (-1)
  | Some img_id => if negb (se_lock E) then mret (-1) else do_storage_img_delete img_id
  end.

Definition storage_img_create (id top_layer metadata digest : option cstr) : S Z :=
  match id with
  | None => mret (-1)
  | Some id =>
      if negb (se_lock E) then mret (-1)
      else r ← on_images (img_create id top_layer metadata digest); mret (match r with None => -1 | Some _ => 0 end)
  end.

Definition storage_img_get_summary (img_id : cstr) : S (option img_summary) :=
  by_id ← (if se_short_id E img_id then on_images (img_exists img_id) else mret false);
  if by_id : bool then on_images (img_get_summary img_id) else on_images (img_get_summary (se_normalize E img_id)).

(** ** Sizes *)

Fixpoint add_big_data (img_id : cstr) (names : list cstr) (total : Z) : S (option Z) :=
  match names with
  | [] => mret (Some total)
  | n :: names =>
      tmp ← on_images (img_big_data_size img_id n);
      if tmp =? -1 then mret None else total ← lift (int64_add total tmp); add_big_data img_id names total
  end.
Fixpoint add_layers (fuel : nat) (layer_id : cstr) (total : Z) : S (option Z) :=
  match fuel with
  | O => crash
  | Datatypes.S fuel =>
      info ← layer_lookup layer_id;
      match info with
      | None => mret None
      | Some info =>
          if (li_uncompress_size info <? 0) || bool_decide (li_uncompressed_digest info = None) then mret None
          else
            total ← lift (int64_add total (li_uncompress_size info));
            match li_parent info with
            | None => mret (Some total)
            | Some parent => add_layers fuel parent total
            end
      end
  end.

(** The sum starts with -1. *)
Definition storage_img_cal_image_size (fuel : nat) (img_id : cstr) : S Z :=
  names ← on_images (img_big_data_names img_id);
  match names with
  | None => mret (-1)
  | Some names =>
      total ← add_big_data img_id names (-1);
      match total with
      | None => mret (-1)
      | Some total =>
          layer_id ← on_images (img_top_layer img_id);
          match layer_id with
          | None => mret (-1)
          | Some layer_id => total ← add_layers fuel layer_id total; mret (default (-1) total)
          end
      end
  end.

Definition storage_img_set_image_size (fuel : nat) (img_id : cstr) : S Z :=
  size ← storage_img_cal_image_size fuel img_id;
  if size <? 0 then mret (-1)
  else z ← on_images (img_set_size img_id size); mret (if negb (z =? 0) then -1 else 0).

Fixpoint restore_sizes (fuel : nat) (images : list img_summary) : S unit :=
  match images with
  | [] => mret tt
  | i :: images =>
      _ ← (if im_size i =? 0 then storage_img_set_image_size fuel (im_id i) else mret 0);
      restore_sizes fuel images
  end.
Definition restore_images_size (fuel : nat) : S Z :=
  if negb (se_alloc E) then mret (-1)
  else
    images ← on_images img_get_all;
    if negb (images.1 =? 0) then mret (-1) else restore_sizes fuel images.2;; mret 0.

(** ** Layers and holds *)

Definition storage_inc_hold_refs (layer_id : cstr) : S Z :=
  if negb (se_lock E) then mret (-1) else layer_status (LSetHold (Some layer_id) true).
Definition storage_dec_hold_refs (layer_id : cstr) : S Z :=
  if negb (se_lock E) then mret (-1) else layer_status (LSetHold (Some layer_id) false).

Definition storage_layer_create (layer_id : cstr) (copts : option create_opts) : S Z :=
  match copts with
  | None => mret (-1)
  | Some copts =>
      if negb (co_writable copts) && negb (co_layer_data copts) then mret (-1)
      else if co_layer_data copts && negb (se_reader E) then mret (-1)
      else
        match fill_create_layer_opts E copts None with
        | None => mret (-1)
        | Some opts =>
            if negb (se_lock E) then mret (-1)
            else z ← layer_create layer_id opts (co_layer_data copts); mret (if negb (z =? 0) then -1 else 0)
        end
  end.

(** ** Root file systems *)

Definition do_create_container_rw_layer (container_id : cstr) (image_top_layer mount_label : option cstr) : S Z :=
  match fill_create_layer_opts E (CreateOpts image_top_layer None None false true) mount_label with
  | None => mret (-1)
  | Some opts => z ← layer_create container_id opts false; mret (if negb (z =? 0) then -1 else 0)
  end.

(** The status and [*mountpoint]. *)
Definition storage_rootfs_create (container_id image : option cstr) (mount_label : option cstr) : S (Z * option cstr) :=
  match container_id, image with
  | Some container_id, Some image =>
      if negb (se_lock E) then mret (-1, None)
      else
        summary ← storage_img_get_summary image;
        match summary with
        | None => mret (-1, None)
        | Some summary =>
            z ← do_create_container_rw_layer container_id (im_top_layer summary) mount_label;
            if negb (z =? 0) then mret (-1, None)
            else
              rootfs_id ← on_rootfs (rfs_create container_id (im_id summary) container_id);
              info ← match rootfs_id with None => (mret None : S (option layer_info)) | Some _ => layer_lookup container_id end;
              match info with
              | Some info => mret (0, li_mount_point info)
              | None => _ ← layer_status (LDelete (Some container_id)); mret (-1, None)
              end
        end
  | _, _ => mret (-1, None)
  end.

Definition do_storage_rootfs_delete (container_id : cstr) : S Z :=
  ex ← on_rootfs (rfs_exists container_id);
  if negb ex then mret 0
  else
    info ← on_rootfs (rfs_get container_id);
    match info with
    | None => mret (-1)
    | Some info =>
        z ← layer_status (LDelete (Some (rf_layer info)));
        if negb (z =? 0) then mret (-1)
        else z ← on_rootfs (rfs_delete container_id); mret (if negb (z =? 0) then -1 else 0)
    end.
Definition storage_rootfs_delete (container_id : option cstr) : S Z :=
  match container_id with
  | None => mret (-1)
  | Some id => if negb (se_lock E) then mret (-1) else do_storage_rootfs_delete id
  end.

Definition storage_rootfs_mount (container_id : option cstr) : S (option cstr) :=
  match container_id with
  | None => mret None
  | Some id =>
      info ← on_rootfs (rfs_get id);
      match info with None => mret None | Some info => layer_mount (rf_layer info) end
  end.
Definition storage_rootfs_umount (container_id : option cstr) (force : bool) : S Z :=
  match container_id with
  | None => mret (-1)
  | Some id =>
      info ← on_rootfs (rfs_get id);
      match info with
      | None => mret 0
      | Some info => z ← layer_status (LUmount (Some (rf_layer info)) force); mret (if negb (z =? 0) then -1 else 0)
      end
  end.

(** ** Checks at the start *)

Fixpoint check_chain_exists (fuel : nat) (layer_id : cstr) : S Z :=
  match fuel with
  | O => crash
  | Datatypes.S fuel =>
      info ← layer_lookup layer_id;
      match info with
      | None => mret (-1)
      | Some info => match li_parent info with None => mret 0 | Some parent => check_chain_exists fuel parent end
      end
  end.
Definition do_check_img_layers_exist (fuel : nat) (img_id : cstr) : S Z :=
  layer_id ← on_images (img_top_layer img_id);
  match layer_id with None => mret (-1) | Some layer_id => check_chain_exists fuel layer_id end.

Fixpoint storage_delete_rootfs_by_img_id (img_id : cstr) (all_rootfs : list rootfs_info) : S unit :=
  match all_rootfs with
  | [] => mret tt
  | r :: l =>
      _ ← (if decide (rf_image r = img_id) then do_storage_rootfs_delete (rf_id r) else mret 0);
      storage_delete_rootfs_by_img_id img_id l
  end.

Fixpoint check_images_exist (fuel : nat) (all_images : list img_summary) (all_rootfs : list rootfs_info) : S unit :=
  match all_images with
  | [] => mret tt
  | i :: l =>
      z ← do_check_img_layers_exist fuel (im_id i);
      when (negb (z =? 0)) (storage_delete_rootfs_by_img_id (im_id i) all_rootfs;;
        _ ← do_storage_img_delete (im_id i); mret tt);;
      check_images_exist fuel l all_rootfs
  end.
Definition storage_check_image_layers_exist (fuel : nat) : S Z :=
  if negb (se_alloc E) then mret (-1)
  else
    all_images ← on_images img_get_all;
    if negb (all_images.1 =? 0) then mret (-1)
    else
      all_rootfs ← on_rootfs rfs_get_all;
      if negb (all_rootfs.1 =? 0) then mret (-1)
      else check_images_exist fuel all_images.2 all_rootfs.2;; mret 0.

(** The chain of an image down to a layer that is missing. *)
Fixpoint collect_layers (fuel : nat) (layer_id : cstr) : S (list cstr) :=
  match fuel with
  | O => crash
  | Datatypes.S fuel =>
      info ← layer_lookup layer_id;
      match info ≫= li_parent with
      | None => mret [layer_id]
      | Some parent => l ← collect_layers fuel parent; mret (layer_id :: l)
      end
  end.
Definition get_image_layers (fuel : nat) (top_lid : option cstr) : S (option (list cstr)) :=
  match top_lid with
  | None => mret None
  | Some id => if negb (se_alloc E) then mret None else l ← collect_layers fuel id; mret (Some l)
  end.

(** The ids of the checked layers are in a map and in a file. *)
Definition do_add_checked_layer (lid : cstr) (checked : gset cstr) : S (Z * gset cstr) :=
  if (Z.of_nat (String.length (cstr_str lid)) >=? PATH_MAX - 1) || negb (se_write E lid) then mret (-1, checked)
  else
    modify (fun w => Storage (st_images w) (st_layers w) (st_rootfs w) (st_checked w ++ [lid]));;
    if negb (se_map E) then mret (-1, checked) else mret (0, {[lid]} ∪ checked).

Fixpoint check_layers (ids : list cstr) (checked : gset cstr) : S (Z * gset cstr) :=
  match ids with
  | [] => mret (0, checked)
  | id :: ids =>
      if decide (id ∈ checked) then check_layers ids checked
      else
        z ← layer_status (LCheck id);
        if negb (z =? 0) then mret (-1, checked)
        else
          r ← do_add_checked_layer id checked;
          if negb (r.1 =? 0) then mret (-1, r.2) else check_layers ids r.2
  end.
Definition do_check_layers_list (ids : list cstr) (checked : gset cstr) : S (Z * gset cstr) :=
  if negb (se_file E) then mret (-1, checked) else check_layers ids checked.

Definition do_storage_check_image (fuel : nat) (id : cstr) (checked : gset cstr) : S (Z * gset cstr) :=
  img ← on_images (img_get id);
  match img with
  | None => mret (-1, checked)
  | Some img =>
      layer_ids ← get_image_layers fuel (im_top_layer img);
      match layer_ids with None => mret (-1, checked) | Some ids => do_check_layers_list ids checked end
  end.

Fixpoint check_images (fuel : nat) (all_images : list img_summary) (all_rootfs : list rootfs_info)
    (checked : gset cstr) : S (gset cstr) :=
  match all_images with
  | [] => mret checked
  | i :: l =>
      r ← do_storage_check_image fuel (im_id i) checked;
      when (negb (r.1 =? 0)) (storage_delete_rootfs_by_img_id (im_id i) all_rootfs;;
        _ ← do_storage_img_delete (im_id i); mret tt);;
      check_images fuel l all_rootfs r.2
  end.
Fixpoint remove_orphans (all_rootfs : list rootfs_info) : S unit :=
  match all_rootfs with
  | [] => mret tt
  | r :: l =>
      ex ← on_images (img_exists (rf_image r));
      _ ← (if ex : bool then mret 0 else do_storage_rootfs_delete (rf_id r));
      remove_orphans l
  end.
Definition do_storage_integration_check (fuel : nat) (checked : gset cstr) : S (bool * gset cstr) :=
  if negb (se_alloc E) then mret (false, checked)
  else
    all_images ← on_images img_get_all;
    if negb (all_images.1 =? 0) then mret (false, checked)
    else
      all_rootfs ← on_rootfs rfs_get_all;
      if negb (all_rootfs.1 =? 0) then mret (false, checked)
      else
        checked ← check_images fuel all_images.2 all_rootfs.2 checked;
        remove_orphans all_rootfs.2;;
        mret (true, checked).

Fixpoint delete_unchecked (all_layers : list layer_info) (all_rootfs : list rootfs_info) (checked : gset cstr) : S unit :=
  match all_layers with
  | [] => mret tt
  | l :: ls =>
      _ ← (if bool_decide (li_id l ∈ checked) || is_rootfs_layer (li_id l) all_rootfs then mret 0
           else layer_status (LDelete (Some (li_id l))));
      delete_unchecked ls all_rootfs checked
  end.
Definition delete_unchecked_layers (checked : gset cstr) : S unit :=
  if negb (se_alloc E) then mret tt
  else
    all_layers ← layer_list;
    if negb (all_layers.1 =? 0) then mret tt
    else
      all_rootfs ← on_rootfs rfs_get_all;
      if negb (all_rootfs.1 =? 0) then mret tt else delete_unchecked all_layers.2 all_rootfs.2 checked.

Definition storage_integration_check (fuel : nat) : S bool :=
  if negb (se_lock E) then mret false
  else if negb (se_path E) || negb (se_map E) then mret false
  else if negb (se_parse E) then mret false
  else
    lines ← gets st_checked;
    r ← do_storage_integration_check fuel (list_to_set lines);
    if negb r.1 then mret false else delete_unchecked_layers r.2;; mret true.
End storage.
