(* ===== verification/StorageSpec.v ===== *)
(** What the stores promise to the storage module, and the references between them. *)
From S2P Require Import Prelude KeyOrders Effects ImageStore LayerStore LayerStoreSpec LayerStoreCalls LayerStoreProps Storage.

Open Scope Z_scope.

(** ** Interfaces *)

(** The store of images stands for a list of images; [ifind] is the image a name, an id or a
    prefix leads to. *)
Class ImageLaws (I : Type) `{!ImageOps I} := {
  ig : I -> Prop;
  iabs : I -> list img_summary;
  ifind : I -> cstr -> option img_summary;
  isame i i' := ig i' /\ iabs i' = iabs i /\ forall k, ifind i' k = ifind i k;
  ifind_elem i k s : ig i -> ifind i k = Some s -> s ∈ iabs i;
  inodup i : ig i -> NoDup (im_id <$> iabs i);
  img_exists_ok i k : ig i -> wp (img_exists k) (fun b i' => isame i i') i;
  img_lookup_ok i k : ig i -> wp (img_lookup k) (fun r i' => isame i i' /\
    (r = None \/ exists s, ifind i k = Some s /\ r = Some (im_id s))) i;
  img_get_summary_ok i k : ig i -> wp (img_get_summary k) (fun r i' => isame i i' /\
    (r = None \/ exists s, ifind i k = Some s /\ r = Some s)) i;
  img_get_all_ok i : ig i -> wp img_get_all (fun r i' => isame i i' /\ (r.1 = 0 -> r.2 = iabs i)) i;
  img_delete_ok i id s : ig i -> s ∈ iabs i -> im_id s = id -> wp (img_delete id) (fun z i' => ig i' /\
    (iabs i' = filter (fun x => im_id x <> id) (iabs i) \/ z <> 0 /\ iabs i' = iabs i)) i;
  img_create_ok i id top md digest : ig i -> (forall s, s ∈ iabs i -> im_id s <> id) ->
    Z.of_nat (length (iabs i)) + 1 < 2 ^ 64 -> wp (img_create id top md digest) (fun r i' => ig i' /\
    (r = None /\ iabs i' = iabs i \/ r = Some id /\ iabs i' = iabs i ++ [ImgSummary id top 0])) i
}.

(** Calls of the layer store that increase no counter. *)
Definition quiet (c : lay_call) : bool :=
  match c with
  | LDelete _ | LUmount _ _ | LGetHold _ | LExists _ | LLookup _ | LList | LByCompress _ | LByUncompress _ => true
  | _ => false
  end.
(** The store of layers takes the steps of the abstract store; [lg k]: it has taken [k] steps
    that may have increased a counter. *)
Class LayerLaws (L : Type) `{!LayerOps L} := {
  lg : Z -> L -> Prop;
  labs : L -> list alayer;
  lnodup k l : lg k l -> NoDup (a_id <$> labs l);
  layer_call_quiet k l c : lg k l -> quiet c = true ->
    wp (layer_call c) (fun r l' => lg k l' /\ exists E, astep E c (labs l) r (labs l')) l;
  layer_call_ok k l c : lg k l -> k < 2 ^ 31 - 1 -> names_free (call_names c) (labs l) ->
    wp (layer_call c) (fun r l' => lg (k + 1) l' /\ exists E, astep E c (labs l) r (labs l')) l
}.

(** The store of root file systems stands for a list of them. *)
Class RootfsLaws (R : Type) `{!RootfsOps R} := {
  rg : R -> Prop;
  rabs : R -> list rootfs_info;
  rfind : R -> cstr -> option rootfs_info;
  rsame r r' := rg r' /\ rabs r' = rabs r /\ forall k, rfind r' k = rfind r k;
  rfind_elem r k x : rg r -> rfind r k = Some x -> x ∈ rabs r;
  rnodup r : rg r -> NoDup (rf_id <$> rabs r);
  rfs_exists_ok r k : rg r -> wp (rfs_exists k) (fun b r' => rsame r r') r;
  rfs_get_ok r k : rg r -> wp (rfs_get k) (fun x r' => rsame r r' /\
    (x = None \/ exists y, rfind r k = Some y /\ x = Some y)) r;
  rfs_get_all_ok r : rg r -> wp rfs_get_all (fun x r' => rsame r r' /\ (x.1 = 0 -> x.2 = rabs r)) r;
  rfs_create_ok r id image layer : rg r -> (forall x, x ∈ rabs r -> rf_id x <> id /\ rf_layer x <> layer) ->
    Z.of_nat (length (rabs r)) + 1 < 2 ^ 64 -> wp (rfs_create id image layer) (fun x r' => rg r' /\
      (x = None /\ rabs r' = rabs r \/ x = Some id /\ rabs r' = rabs r ++ [Rootfs id image layer])) r;
  rfs_delete_ok r k x : rg r -> rfind r k = Some x -> wp (rfs_delete k) (fun z r' => rg r' /\
    (rabs r' = filter (fun y => rf_id y <> rf_id x) (rabs r) \/ z <> 0 /\ rabs r' = rabs r)) r
}.

(** ** References *)

(** Nothing refers to a layer or an image that is missing: the parent of a layer and the top
    layer of an image are there, the image of a container is there, and the layer of a
    container is nobody's parent and no image's top layer.  Layers have no names. *)
Record consistent (I : list img_summary) (A : list alayer) (R : list rootfs_info) : Prop := {
  cs_parent a p : a ∈ A -> a_parent a = Some p -> p ∈ a_id <$> A;
  cs_top s : s ∈ I -> exists t, im_top_layer s = Some t /\ t ∈ a_id <$> A;
  cs_ids s : s ∈ I -> im_id s ∉ a_id <$> A;
  cs_image r : r ∈ R -> rf_image r ∈ im_id <$> I;
  cs_leaf r a : r ∈ R -> a ∈ A -> a_parent a <> Some (rf_layer r);
  cs_container r s : r ∈ R -> s ∈ I -> im_top_layer s <> Some (rf_layer r);
  cs_names a : a ∈ A -> a_names a = []
}.

Lemma elem_of_aremove t A a : a ∈ aremove t A <-> a_id a <> t /\ a ∈ A.
Proof. unfold aremove. by rewrite list_elem_of_filter. Qed.
Lemma ids_aremove t A i : i ∈ a_id <$> aremove t A <-> i <> t /\ i ∈ a_id <$> A.
Proof.
  split.
  - intros (a & -> & [Hne Ha]%elem_of_aremove)%list_elem_of_fmap. split; [done|]. apply list_elem_of_fmap. eauto.
  - intros [Hne (a & -> & Ha)%list_elem_of_fmap]. apply list_elem_of_fmap. exists a. split; [done|]. by apply elem_of_aremove.
Qed.
Lemma ids_aupdate t f A : (forall a, a_id (f a) = a_id a) -> a_id <$> aupdate t f A = a_id <$> A.
Proof.
  intros Hf. unfold aupdate. rewrite <-list_fmap_compose. apply list_fmap_ext. intros i a _. cbn. case_decide; [apply Hf|done].
Qed.
Lemma elem_of_aupdate t f A a : a ∈ aupdate t f A -> exists b, b ∈ A /\ (a = b \/ a = f b).
Proof. intros (b & -> & Hb)%list_elem_of_fmap. exists b. split; [done|]. case_decide; auto. Qed.

(** A layer without children that is no top layer can go. *)
Lemma consistent_remove I A R t :
  consistent I A R -> (forall a, a ∈ A -> a_id a <> t -> a_parent a <> Some t) -> (forall s, s ∈ I -> im_top_layer s <> Some t) ->
  consistent I (aremove t A) R.
Proof.
  intros [C1 C2 C3 C4 C5 C6 C7] Hp Ht. split.
  - intros a p [Hne Ha]%elem_of_aremove Hpa. apply ids_aremove. split; [|by eapply C1]. intros ->. by apply (Hp a Ha Hne).
  - intros s Hs. destruct (C2 s Hs) as (x & Hx & Hin). exists x. split; [done|]. apply ids_aremove. split; [|done].
    intros ->. by apply (Ht s Hs).
  - intros s Hs [_ H]%ids_aremove. by apply (C3 s Hs).
  - done.
  - intros r a Hr [_ Ha]%elem_of_aremove. by apply C5.
  - done.
  - intros a [_ Ha]%elem_of_aremove. by apply C7.
Qed.
(** Changing counters keeps the references. *)
Lemma consistent_update I A R t f :
  consistent I A R -> (forall a, a_id (f a) = a_id a /\ a_parent (f a) = a_parent a /\ a_names (f a) = a_names a) -> consistent I (aupdate t f A) R.
Proof.
  intros [C1 C2 C3 C4 C5 C6 C7] Hf. assert (a_id <$> aupdate t f A = a_id <$> A) as Eid by (apply ids_aupdate; intros; apply Hf).
  assert (forall a, a ∈ aupdate t f A -> exists b, b ∈ A /\ a_parent a = a_parent b /\ a_names a = a_names b) as Hpa.
  { intros a (b & Hb & [->| ->])%elem_of_aupdate; exists b; [done|]. split; [done|]. apply Hf. }
  split; rewrite ?Eid; try done.
  - intros a p (b & Hb & -> & _)%Hpa. by apply C1.
  - intros r a Hr (b & Hb & -> & _)%Hpa. by apply C5.
  - intros a (b & Hb & _ & ->)%Hpa. by apply C7.
Qed.
Lemma consistent_image_removed I A R id :
  consistent I A R -> (forall r, r ∈ R -> rf_image r <> id) -> consistent (filter (fun x => im_id x <> id) I) A R.
Proof.
  intros [C1 C2 C3 C4 C5 C6 C7] Hu. split; try done.
  - intros s [_ Hs]%list_elem_of_filter. by apply C2.
  - intros s [_ Hs]%list_elem_of_filter. by apply C3.
  - intros r Hr. pose proof (C4 r Hr) as Hin. apply list_elem_of_fmap in Hin as (s & He & Hs). apply list_elem_of_fmap. exists s. split; [done|].
    apply list_elem_of_filter. split; [|done]. rewrite <-He. by apply Hu.
  - intros r s Hr [_ Hs]%list_elem_of_filter. by apply C6.
Qed.
Lemma consistent_rootfs_removed I A R id :
  consistent I A R -> consistent I A (filter (fun y => rf_id y <> id) R).
Proof.
  intros [C1 C2 C3 C4 C5 C6 C7]. split; try done.
  - intros r [_ Hr]%list_elem_of_filter. by apply C4.
  - intros r a [_ Hr]%list_elem_of_filter. by apply C5.
  - intros r s [_ Hr]%list_elem_of_filter. by apply C6.
Qed.

(** A new layer on top of one that is no container's. *)
Lemma consistent_new_layer I A R id diff cdiff parent count hold :
  consistent I A R -> (forall s, s ∈ I -> im_id s <> id) ->
  (forall p, parent = Some p -> p ∈ a_id <$> A /\ forall r, r ∈ R -> rf_layer r <> p) ->
  consistent I (A ++ [ALayer id [] diff cdiff parent count hold]) R.
Proof.
  intros [C1 C2 C3 C4 C5 C6 C7] Hid Hp. assert (forall i, i ∈ a_id <$> A -> i ∈ a_id <$> (A ++ [ALayer id [] diff cdiff parent count hold])) as Hmono.
  { intros i Hi. rewrite fmap_app. apply elem_of_app. by left. }
  split; try done.
  - intros a p [Ha|Ha]%elem_of_app Hpa; apply Hmono; [by eapply C1|]. apply list_elem_of_singleton in Ha as ->. by apply Hp.
  - intros s Hs. destruct (C2 s Hs) as (t & Ht & Hin). eauto.
  - intros s Hs. rewrite fmap_app. intros [Hin|Hin]%elem_of_app; [by apply (C3 s Hs)|].
    apply list_elem_of_singleton in Hin. by apply (Hid s Hs).
  - intros r a Hr [Ha|Ha]%elem_of_app; [by apply C5|]. apply list_elem_of_singleton in Ha as ->. cbn. intros He.
    by apply (proj2 (Hp _ He) r Hr).
  - intros a [Ha|Ha]%elem_of_app; [by apply C7|]. by apply list_elem_of_singleton in Ha as ->.
Qed.
Lemma consistent_new_image I A R id t size :
  consistent I A R -> id ∉ a_id <$> A -> t ∈ a_id <$> A -> (forall r, r ∈ R -> rf_layer r <> t) ->
  consistent (I ++ [ImgSummary id (Some t) size]) A R.
Proof.
  intros [C1 C2 C3 C4 C5 C6 C7] Hid Ht Hr. split; try done.
  - intros s [Hs|Hs]%elem_of_app; [by apply C2|]. apply list_elem_of_singleton in Hs as ->. eauto.
  - intros s [Hs|Hs]%elem_of_app; [by apply C3|]. by apply list_elem_of_singleton in Hs as ->.
  - intros r Hin. rewrite fmap_app. apply elem_of_app. left. by apply C4.
  - intros r s Hin [Hs|Hs]%elem_of_app; [by apply C6|]. apply list_elem_of_singleton in Hs as ->. cbn. intros [= He]. by apply (Hr r Hin).
Qed.
Lemma consistent_new_rootfs I A R id image layer :
  consistent I A R -> image ∈ im_id <$> I -> (forall a, a ∈ A -> a_parent a <> Some layer) ->
  (forall s, s ∈ I -> im_top_layer s <> Some layer) -> consistent I A (R ++ [Rootfs id image layer]).
Proof.
  intros [C1 C2 C3 C4 C5 C6 C7] Hi Hp Ht. split; try done.
  - intros r [Hr|Hr]%elem_of_app; [by apply C4|]. by apply list_elem_of_singleton in Hr as ->.
  - intros r a [Hr|Hr]%elem_of_app; [by apply C5|]. apply list_elem_of_singleton in Hr as ->. apply Hp.
  - intros r s [Hr|Hr]%elem_of_app; [by apply C6|]. apply list_elem_of_singleton in Hr as ->. apply Ht.
Qed.
