(* ===== verification/StorageProps.v ===== *)
(** The storage module deletes only what nothing refers to. *)
From S2P Require Import Prelude KeyOrders Effects ImageStore LayerStore LayerStoreSpec LayerStoreCalls LayerStoreProps Storage StorageSpec.

Open Scope Z_scope.

Section storage.
Context {I L R : Type} `{!ImageOps I} `{!ImageLaws I} `{!LayerOps L} `{!LayerLaws L} `{!RootfsOps R} `{!RootfsLaws R}.
Abbreviation W := (storage I L R).
Implicit Types (w : W) (k : Z).

Abbreviation WI w := (iabs (st_images w)).
Abbreviation WL w := (labs (st_layers w)).
Abbreviation WR w := (rabs (st_rootfs w)).

Definition good k w : Prop := ig (st_images w) /\ lg k (st_layers w) /\ rg (st_rootfs w).
Definition consistent_at w : Prop := consistent (WI w) (WL w) (WR w).

(** ** Calls of the stores *)
Lemma wp_on_images {A} (m : M I A) (Q : A -> W -> Prop) w :
  wp m (fun a i => Q a (Storage i (st_layers w) (st_rootfs w) (st_checked w))) (st_images w) -> wp (on_images m) Q w.
Proof. intros (a & i & Hm & HQ). unfold on_images. eexists _, _. rewrite Hm. done. Qed.
Lemma wp_on_layers {A} (m : M L A) (Q : A -> W -> Prop) w :
  wp m (fun a l => Q a (Storage (st_images w) l (st_rootfs w) (st_checked w))) (st_layers w) -> wp (on_layers m) Q w.
Proof. intros (a & i & Hm & HQ). unfold on_layers. eexists _, _. rewrite Hm. done. Qed.
Lemma wp_on_rootfs {A} (m : M R A) (Q : A -> W -> Prop) w :
  wp m (fun a r => Q a (Storage (st_images w) (st_layers w) r (st_checked w))) (st_rootfs w) -> wp (on_rootfs m) Q w.
Proof. intros (a & i & Hm & HQ). unfold on_rootfs. eexists _, _. rewrite Hm. done. Qed.

(** A step of the layer store. *)
Record lstep k w w' : Prop := {
  lst_images : st_images w' = st_images w;
  lst_rootfs : st_rootfs w' = st_rootfs w;
  lst_checked : st_checked w' = st_checked w;
  lst_good : lg k (st_layers w')
}.
Lemma lstep_good k k' w w' : good k w -> lstep k' w w' -> good k' w'.
Proof. intros (G1 & G2 & G3) [S1 S2 S3 S4]. unfold good. by rewrite S1, S2. Qed.

Lemma quiet_call k w c (Q : lay_result -> W -> Prop) :
  good k w -> quiet c = true ->
  (forall r w' E, lstep k w w' -> astep E c (WL w) r (WL w') -> Q r w') -> wp (on_layers (layer_call c)) Q w.
Proof.
  intros (_ & G & _) Hq HQ. apply wp_on_layers. eapply wp_conseq; [by apply (layer_call_quiet k)|].
  intros r l' (G' & E & Ha). eapply HQ; [by split|exact Ha].
Qed.
Lemma loud_call k w c (Q : lay_result -> W -> Prop) :
  good k w -> k < 2 ^ 31 - 1 -> names_free (call_names c) (WL w) ->
  (forall r w' E, lstep (k + 1) w w' -> astep E c (WL w) r (WL w') -> Q r w') -> wp (on_layers (layer_call c)) Q w.
Proof.
  intros (_ & G & _) Hk Hf HQ. apply wp_on_layers. eapply wp_conseq; [by apply (layer_call_ok k)|].
  intros r l' (G' & E & Ha). eapply HQ; [by split|exact Ha].
Qed.

Lemma layer_hold_ok k w id :
  good k w -> wp (layer_hold id) (fun r w' => lstep k w w' /\ WL w' = WL w /\
    (r = None \/ exists a, a ∈ WL w /\ a_id a = id /\ r = Some (a_hold a))) w.
Proof.
  intros G. unfold layer_hold. apply wp_mbind, (quiet_call k); [done..|]. intros r w' E S Ha.
  destruct r; cbn [astep] in Ha; try done. destruct Ha as [-> Ha]. eapply wp_lift; [done|]. split; [done|]. split; [done|].
  destruct (aid E (Some id) (WL w)) as [a|] eqn:Haid; [right|by left]. exists a. unfold aid in Haid. cbn in Haid.
  destruct (le_lock E); [|done]. destruct (filter (fun a => a_id a = id) (WL w)) as [|b B] eqn:Hf; [done|]. injection Haid as ->.
  assert (a ∈ filter (fun a => a_id a = id) (WL w)) as Hin by (rewrite Hf; by left).
  apply list_elem_of_filter in Hin as [Hid Hin]. done.
Qed.

(** Finding by an id that is there. *)
Lemma afind_id id A a : NoDup (a_id <$> A) -> a ∈ A -> a_id a = id -> afind id A = Some a.
Proof.
  intros Hnd Ha Hid. unfold afind. assert (a ∈ filter (fun a => a_id a = id) A) as Hin by by apply list_elem_of_filter.
  destruct (filter (fun a => a_id a = id) A) as [|b B] eqn:Hf; [by apply not_elem_of_nil in Hin|]. f_equal.
  assert (b ∈ filter (fun a => a_id a = id) A) as Hb by (rewrite Hf; by left). apply list_elem_of_filter in Hb as [Hb1 Hb2].
  apply list_elem_of_lookup in Ha as [i Hi], Hb2 as [j Hj].
  assert (i = j) as ->; [|congruence]. eapply (NoDup_lookup (a_id <$> A)); [done|by rewrite list_lookup_fmap, Hi|].
  rewrite list_lookup_fmap, Hj. cbn. congruence.
Qed.

Lemma layer_lookup_ok k w id a :
  good k w -> a ∈ WL w -> a_id a = id ->
  wp (layer_lookup id) (fun r w' => lstep k w w' /\ WL w' = WL w /\
    (r = None \/ exists i, r = Some i /\ li_id i = id /\ li_parent i = a_parent a)) w.
Proof.
  intros G Ha Hid. unfold layer_lookup. apply wp_mbind, (quiet_call k); [done..|]. intros r w' E S Hs.
  destruct r as [| | | | |i|]; cbn in Hs; try done. destruct Hs as [Hl Hw]. eapply wp_lift; [done|]. split; [done|]. split; [done|].
  unfold a_lookup, afind_lock in Hl. cbn in Hl. destruct (le_lock E); [|by left].
  rewrite (afind_id id (WL w) a) in Hl; [|eapply lnodup, G|done..]. destruct (le_copy E); [|by left].
  destruct i as [i|]; [|done]. right. exists i. split; [done|]. cbn in Hl. unfold view, aview in Hl. split; congruence.
Qed.

(** Deleting a layer that is there. *)
Lemma layer_delete_ok k w id a :
  good k w -> a ∈ WL w -> a_id a = id ->
  wp (layer_status (LDelete (Some id))) (fun z w' => lstep k w w' /\
    (WL w' = aremove id (WL w) \/ z <> 0 /\ WL w' = WL w)) w.
Proof.
  intros G Ha Hid. unfold layer_status. apply wp_mbind, (quiet_call k); [done..|]. intros r w' E S Hs.
  destruct r; cbn in Hs; try done. eapply wp_lift; [done|]. split; [done|].
  unfold a_delete, afind_lock in Hs. cbn in Hs. destruct (le_lock E); cbn [andb] in Hs.
  - rewrite (afind_id id (WL w) a) in Hs; [|eapply lnodup, G|done..]. rewrite Hid in Hs.
    destruct Hs as [(-> & Hw & _)|[_ Hw]]; [by right|by left].
  - destruct Hs as [-> Hw]. by right.
Qed.

Lemma layer_list_ok k w :
  good k w -> wp layer_list (fun r w' => lstep k w w' /\ WL w' = WL w /\
    (r.1 = 0 -> view <$> r.2 = aview <$> WL w)) w.
Proof.
  intros G. unfold layer_list. apply wp_mbind, (quiet_call k); [done..|]. intros r w' E S Hs.
  destruct r; cbn in Hs; try done. destruct Hs as [Hi Hw]. eapply wp_lift; [done|]. split; [done|]. split; [done|].
  destruct Hi as [(-> & Hv & _)|(-> & _)]; [done|]. intros [=].
Qed.

(** ** Decisions *)
Lemma is_top_ok (images : list img_summary) t :
  (forall s, s ∈ images -> im_top_layer s <> None) ->
  exists b, is_top_layer_of_other_image images t = Some b /\
    (b = false <-> forall s, s ∈ images -> im_top_layer s = Some t -> im_id s = t).
Proof.
  induction images as [|i l IH]; intros Htop; cbn.
  { exists false. split; [done|]. split; [by intros _ s ?%not_elem_of_nil|done]. }
  destruct (im_top_layer i) as [x|] eqn:Hx; [|exfalso; apply (Htop i); [by left|done]]. cbn.
  destruct (bool_decide (x = t) && bool_decide (im_id i <> t)) eqn:Hb.
  - apply andb_true_iff in Hb as [Hb1 Hb2]. apply bool_decide_eq_true in Hb1, Hb2. subst x. exists true. split; [done|].
    split; [done|]. intros Hall. exfalso. apply Hb2, Hall; [by left|done].
  - destruct IH as (b & -> & Hb'); [intros s Hs; apply Htop; by right|]. exists b. split; [done|]. rewrite Hb'. split.
    + intros Hall s [->|Hs]%elem_of_cons Ht; [|by apply Hall]. rewrite Hx in Ht. injection Ht as ->.
      apply andb_false_iff in Hb as [Hb|Hb]; apply bool_decide_eq_false in Hb; [done|]. by apply dec_stable.
    + intros Hall s Hs. apply Hall. by right.
Qed.

Lemma is_parent_ok t (last : option cstr) (lays : list layer_info) (A0 : list alayer) :
  view <$> lays = aview <$> A0 ->
  is_parent_layer_of_other_layer t last lays = false <->
  forall a, a ∈ A0 -> a_parent a = Some t -> Some (a_id a) = last.
Proof.
  revert A0. induction lays as [|i l IH]; intros [|a A0] Hv; try done; cbn.
  - split; [by intros _ a ?%not_elem_of_nil|done].
  - cbn in Hv. injection Hv as Hid Hp _ _ _ Hv. rewrite Hid, Hp, orb_false_iff, (IH A0 Hv). clear IH Hv. split.
    + intros [Hb Hall] b [->|Hb']%elem_of_cons Hpb; [|by apply Hall]. rewrite bool_decide_eq_true_2 in Hb by done.
      cbn in Hb. apply bool_decide_eq_false in Hb. by apply dec_stable.
    + intros Hall. split; [|intros b Hb; apply Hall; by right].
      destruct (decide (a_parent a = Some t)) as [Ht|Ht]; [|by rewrite bool_decide_eq_false_2].
      rewrite bool_decide_eq_true_2 by done. apply bool_decide_eq_false. intros Hne. apply Hne, Hall; [by left|done].
Qed.

(** ** Chains *)

(** The layers from [t] to a base layer. *)
Fixpoint chain (A : list alayer) (t : cstr) (l : list cstr) : Prop :=
  match l with
  | [] => False
  | x :: l' => x = t /\ exists a, a ∈ A /\ a_id a = t /\ match a_parent a with None => l' = [] | Some p => chain A p l' end
  end.

Lemma same_id (A : list alayer) a b : NoDup (a_id <$> A) -> a ∈ A -> b ∈ A -> a_id a = a_id b -> a = b.
Proof.
  intros Hnd [i Hi]%list_elem_of_lookup [j Hj]%list_elem_of_lookup He.
  assert (i = j) as ->; [|congruence]. eapply (NoDup_lookup (a_id <$> A)); [done|by rewrite list_lookup_fmap, Hi|].
  rewrite list_lookup_fmap, Hj. cbn. congruence.
Qed.

Lemma chain_parent A t l a j : NoDup (a_id <$> A) -> chain A t l -> a ∈ A -> l !! j = Some (a_id a) -> a_parent a = l !! (Datatypes.S j).
Proof.
  intros Hnd. revert t j. induction l as [|x l IH]; intros t j; [done|]. intros (-> & b & Hb & Hid & Hp) Ha Hj.
  destruct j as [|j]; cbn in *.
  - injection Hj as Hj. assert (b = a) as -> by (eapply same_id; [done..|congruence]).
    destruct (a_parent a) as [p|]; [|by rewrite Hp]. destruct l as [|y l]; [done|]. by destruct Hp as [-> _].
  - destruct (a_parent b) as [p|]; [|by rewrite Hp in Hj]. by eapply IH.
Qed.

(** The only child of a layer of a chain that has none outside is the one before it. *)
Lemma chain_child A h (P : list cstr) t l a : NoDup (a_id <$> A) -> chain A h (P ++ t :: l) -> NoDup (P ++ t :: l) ->
  a ∈ A -> a_id a ∈ P ++ t :: l -> a_parent a = Some t -> Some (a_id a) = last P.
Proof.
  intros Hnd Hc Hnl Ha [j Hj]%list_elem_of_lookup Hp.
  rewrite (chain_parent A h _ a j Hnd Hc Ha Hj) in Hp.
  assert ((P ++ t :: l) !! length P = Some t) as Ht by (by rewrite lookup_app_r, Nat.sub_diag by lia).
  assert (Datatypes.S j = length P) as Hl by (by eapply NoDup_lookup).
  rewrite last_lookup. replace (Nat.pred (length P)) with j by lia. by rewrite lookup_app_l in Hj by lia.
Qed.

(** ** Deleting a chain *)

(** Some layers that are not held are gone, and nothing else has changed. *)
Definition pruned k w w' : Prop :=
  good k w' /\ consistent_at w' /\ WI w' = WI w /\ WR w' = WR w /\ st_checked w' = st_checked w /\
  exists D : list cstr, WL w' = filter (fun a => a_id a ∉ D) (WL w) /\
    forall a, a ∈ WL w -> a_id a ∈ D -> a_hold a <= 0.

Lemma filter_nothing (A : list alayer) : filter (fun a => a_id a ∉ []) A = A.
Proof. induction A as [|a A IH]; [done|]. rewrite filter_cons, decide_True by apply not_elem_of_nil. by rewrite IH. Qed.
Lemma filter_remove t (D : list cstr) (A : list alayer) :
  filter (fun a => a_id a ∉ D) (aremove t A) = filter (fun a => a_id a ∉ t :: D) A.
Proof.
  unfold aremove. rewrite list_filter_filter. apply list_filter_iff. intros a. rewrite not_elem_of_cons. tauto.
Qed.
Lemma pruned_same k w w' : good k w -> consistent_at w -> lstep k w w' -> WL w' = WL w -> pruned k w w'.
Proof.
  intros G C S Hl. split_and!; [by eapply lstep_good| |by rewrite (lst_images _ _ _ S)|by rewrite (lst_rootfs _ _ _ S)|apply S|].
  - unfold consistent_at. by rewrite (lst_images _ _ _ S), (lst_rootfs _ _ _ S), Hl.
  - exists []. rewrite filter_nothing. split; [done|]. by intros a _ ?%not_elem_of_nil.
Qed.
Lemma pruned_step k w w1 w2 t a :
  a ∈ WL w -> a_id a = t -> a_hold a <= 0 -> NoDup (a_id <$> WL w) ->
  lstep k w w1 -> WL w1 = aremove t (WL w) -> pruned k w1 w2 -> pruned k w w2.
Proof.
  intros Ha Hid Hh Hnd [S1 S2 S3 S4] Hl (G & C & P1 & P2 & P3 & D & HD & Hd).
  rewrite S1 in P1. rewrite S2 in P2. split_and!; [done|done|congruence..|]. exists (t :: D). rewrite HD, Hl, filter_remove. split; [done|].
  intros b Hb [Ht|Hin]%elem_of_cons.
  - assert (b = a) as -> by (eapply same_id; [done..|congruence]). done.
  - destruct (decide (a_id b = t)) as [Ht|Ht]; [assert (b = a) as -> by (eapply same_id; [done..|congruence]); done|].
    apply Hd; [|done]. rewrite Hl. by apply elem_of_aremove.
Qed.
Lemma pruned_ids k w w' i : pruned k w w' -> i ∈ a_id <$> WL w' -> i ∈ a_id <$> WL w.
Proof.
  intros (_ & _ & _ & _ & _ & D & -> & _) (a & -> & [_ Ha]%list_elem_of_filter)%list_elem_of_fmap. apply list_elem_of_fmap. eauto.
Qed.
Lemma aremove_shorter t A : t ∈ a_id <$> A -> (length (aremove t A) < length A)%nat.
Proof.
  intros (a & -> & Ha)%list_elem_of_fmap. unfold aremove. eapply length_filter_lt; [exact Ha|]. naive_solver.
Qed.

(** Deleting the layer [t], which nothing refers to any more. *)
Lemma delete_leaf k w t a :
  good k w -> consistent_at w -> a ∈ WL w -> a_id a = t ->
  (forall b, b ∈ WL w -> a_id b <> t -> a_parent b <> Some t) -> (forall s, s ∈ WI w -> im_top_layer s <> Some t) ->
  wp (layer_status (LDelete (Some t))) (fun z w' => lstep k w w' /\ good k w' /\ consistent_at w' /\
    (WL w' = aremove t (WL w) \/ z <> 0 /\ WL w' = WL w)) w.
Proof.
  intros G C Ha Hid Hp Ht. eapply wp_conseq; [by apply (layer_delete_ok k w t a)|]. intros z w' [S Hw].
  split; [done|]. split; [by eapply lstep_good|]. split; [|done].
  unfold consistent_at. rewrite (lst_images _ _ _ S), (lst_rootfs _ _ _ S).
  destruct Hw as [->|[_ ->]]; [by apply consistent_remove|done].
Qed.

(** The rest of a chain that nothing outside refers to and nobody holds. *)
Definition exclusive (images : list img_summary) (A0 : list alayer) (last_deleted : option cstr) (t : cstr) (l : list cstr) : Prop :=
  exists h P, chain A0 h (P ++ t :: l) /\ NoDup (P ++ t :: l) /\ last P = last_deleted /\
    (forall a x, a ∈ A0 -> a_parent a = Some x -> x ∈ t :: l -> a_id a ∈ P ++ t :: l) /\
    (forall a, a ∈ A0 -> a_id a ∈ t :: l -> a_hold a <= 0) /\
    (forall s x, s ∈ images -> im_top_layer s = Some x -> x ∉ t :: l).

Lemma exclusive_next images A0 lst t p l : exclusive images A0 lst t (p :: l) -> exclusive images A0 (Some t) p l.
Proof.
  intros (h & P & Hc & Hnd & Hl & H1 & H2 & H3). exists h, (P ++ [t]). rewrite <-app_assoc. cbn.
  split_and!; [done|done|by rewrite last_snoc|..].
  - intros a x Ha Hp Hx. eapply H1; [done..|]. by right.
  - intros a Ha Hx. apply H2; [done|]. by right.
  - intros s x Hs Hx Hin. eapply H3; [done..|]. by right.
Qed.
Lemma exclusive_parent images A0 lst t l a : NoDup (a_id <$> A0) -> exclusive images A0 lst t l -> a ∈ A0 -> a_id a = t ->
  a_parent a = head l.
Proof.
  intros Hnd (h & P & Hc & _) Ha Hid.
  rewrite (chain_parent A0 h (P ++ t :: l) a (length P) Hnd Hc Ha) by (rewrite lookup_app_r, Nat.sub_diag by lia; by rewrite Hid).
  rewrite lookup_app_r by lia. replace (Datatypes.S (length P) - length P)%nat with 1%nat by lia. by destruct l.
Qed.

(** Nothing stops the deletion of such a chain. *)
Lemma exclusive_not_held images A0 lst t l a : exclusive images A0 lst t l -> a ∈ A0 -> a_id a = t -> a_hold a <= 0.
Proof. intros (h & P & _ & _ & _ & _ & H2 & _) Ha Hid. apply H2; [done|]. rewrite Hid. by left. Qed.
Lemma exclusive_not_top images A0 lst t l b :
  exclusive images A0 lst t l -> (b = false <-> forall s, s ∈ images -> im_top_layer s = Some t -> im_id s = t) -> b = false.
Proof. intros (h & P & _ & _ & _ & _ & _ & H3) Hb. apply Hb. intros s Hs Ht. exfalso. eapply H3; [done..|]. by left. Qed.
Lemma exclusive_not_parent images A0 lst t l lays :
  NoDup (a_id <$> A0) -> exclusive images A0 lst t l -> view <$> lays = aview <$> A0 -> is_parent_layer_of_other_layer t lst lays = false.
Proof.
  intros Hnd (h & P & Hc & Hnl & <- & H1 & _ & _) Hv. apply (is_parent_ok t _ lays A0 Hv). intros b Hb Hp.
  eapply chain_child; [done..| |done]. eapply H1; [done..|]. by left.
Qed.
Lemma lstep_same k w w' : good k w -> consistent_at w -> lstep k w w' -> WL w' = WL w -> good k w' /\ consistent_at w' /\ pruned k w w'.
Proof.
  intros G C S Hl. pose proof (pruned_same k w w' G C S Hl) as P. split_and!; [apply P|apply P|done].
Qed.
Lemma lstep_trans k w1 w2 w3 : lstep k w1 w2 -> lstep k w2 w3 -> lstep k w1 w3.
Proof. intros [] []. split; congruence. Qed.

(** What remains after the deletion of [t], whose parent is next. *)
Lemma delete_chain_next fuel k w w3 images lays A0 t lst a :
  (forall w t lst, good k w -> consistent_at w -> images = WI w -> view <$> lays = aview <$> A0 -> NoDup (a_id <$> A0) ->
    (forall a, a ∈ WL w -> a ∈ A0) -> (forall x, lst = Some x -> x ∉ a_id <$> WL w) ->
    (forall r, r ∈ WR w -> rf_layer r <> t) -> (length (WL w) < fuel)%nat ->
    wp (delete_chain fuel images lays t lst) (fun z w' => pruned k w w' /\
      (forall l, exclusive images A0 lst t l -> z = 0 -> forall x, x ∈ t :: l -> x ∉ a_id <$> WL w')) w) ->
  images = WI w -> view <$> lays = aview <$> A0 -> NoDup (a_id <$> A0) -> (forall a, a ∈ WL w -> a ∈ A0) ->
  (length (WL w) < Datatypes.S fuel)%nat -> consistent_at w -> a ∈ WL w -> a_id a = t ->
  good k w3 -> consistent_at w3 -> lstep k w w3 -> WL w3 = aremove t (WL w) ->
  (forall w4, WL w3 = aremove t (WL w) -> pruned k w3 w4 -> pruned k w w4) ->
  wp (match a_parent a with None => mret 0 | Some parent => delete_chain fuel images lays parent (Some t) end)
    (fun z w' => pruned k w w' /\
      (forall l, exclusive images A0 lst t l -> z = 0 -> forall x, x ∈ t :: l -> x ∉ a_id <$> WL w')) w3.
Proof.
  intros IH Ei Hv Hnd Hsub Hfuel C Ha Hid G3 Cn3 S13 Hl3 Hgo.
  assert (t ∉ a_id <$> WL w3) as Htg by (rewrite Hl3, ids_aremove; tauto).
  assert (forall l, exclusive images A0 lst t l -> head l = a_parent a) as Hhead.
  { intros l He. symmetry. eapply exclusive_parent; [done|exact He|by apply Hsub|done]. }
  destruct (a_parent a) as [p|] eqn:Hpa.
  - eapply wp_conseq; [apply (IH w3 p (Some t)); try done|].
    + by rewrite (lst_images _ _ _ S13).
    + intros b. rewrite Hl3. intros [_ Hb']%elem_of_aremove. by apply Hsub.
    + by intros x [= <-].
    + intros r Hr Hp. rewrite (lst_rootfs _ _ _ S13) in Hr. apply (cs_leaf _ _ _ C r a Hr Ha). by rewrite Hp.
    + rewrite Hl3. assert (t ∈ a_id <$> WL w) as Hin by (apply list_elem_of_fmap; eauto).
      apply aremove_shorter in Hin. lia.
    + intros z w4 [P4 Hex]. split; [by apply Hgo|]. intros l He Hz x Hx. specialize (Hhead l He).
      destruct l as [|p' l]; [done|]. injection Hhead as ->. apply exclusive_next in He.
      apply elem_of_cons in Hx as [->|Hx]; [|by eapply Hex]. intros Hin. by eapply Htg, pruned_ids.
  - apply wp_mret. split; [apply Hgo; [done|]; apply pruned_same; try done; split; try done; apply S13|].
    intros l He _ x Hx. specialize (Hhead l He). destruct l; [|done]. by apply list_elem_of_singleton in Hx as ->.
Qed.

Lemma delete_chain_spec fuel k w images lays A0 t lst :
  good k w -> consistent_at w -> images = WI w -> view <$> lays = aview <$> A0 -> NoDup (a_id <$> A0) ->
  (forall a, a ∈ WL w -> a ∈ A0) -> (forall x, lst = Some x -> x ∉ a_id <$> WL w) ->
  (forall r, r ∈ WR w -> rf_layer r <> t) -> (length (WL w) < fuel)%nat ->
  wp (delete_chain fuel images lays t lst) (fun z w' => pruned k w w' /\
    (forall l, exclusive images A0 lst t l -> z = 0 -> forall x, x ∈ t :: l -> x ∉ a_id <$> WL w')) w.
Proof.
  revert w t lst. induction fuel as [|fuel IH]; intros w t lst G C Ei Hv Hnd Hsub Hlast Hleaf Hfuel; [lia|].
  pose proof C as [C1 C2 C3 C4 C5 C6 _]. cbn [delete_chain]. apply wp_mbind. eapply wp_conseq; [by apply (layer_hold_ok k w t)|].
  intros refs w1 (S1 & L1 & Href). destruct (lstep_same k w w1 G C S1 L1) as (G1 & Cn1 & P1).
  destruct Href as [->|(a & Ha & Hid & ->)]; [by apply wp_mret|].
  destruct (Z.gtb_spec (a_hold a) 0) as [Hgt|Hle].
  { apply wp_mret. split; [done|]. intros l He _. pose proof (exclusive_not_held _ _ _ _ _ _ He (Hsub a Ha) Hid). lia. }
  apply wp_mbind. destruct (is_top_ok images t) as (b & Hb & Hbt).
  { intros s Hs. rewrite Ei in Hs. destruct (C2 s Hs) as (x & -> & _). done. }
  eapply wp_lift; [exact Hb|]. destruct b.
  { apply wp_mret. split; [done|]. intros l He _. by pose proof (exclusive_not_top _ _ _ _ _ _ He Hbt). }
  assert (forall s, s ∈ WI w1 -> im_top_layer s <> Some t) as Htop.
  { intros s Hs Ht. rewrite (lst_images _ _ _ S1) in Hs. apply (C3 s Hs). rewrite (proj1 Hbt eq_refl s); [|by rewrite Ei|done].
    apply list_elem_of_fmap. eauto. }
  destruct (is_parent_layer_of_other_layer t lst lays) eqn:Hpar.
  { apply wp_mret. split; [done|]. intros l He _. by rewrite (exclusive_not_parent _ _ _ _ _ _ Hnd He Hv) in Hpar. }
  rewrite (is_parent_ok t lst lays A0 Hv) in Hpar. rewrite <-L1 in Ha.
  apply wp_mbind. eapply wp_conseq; [by apply (layer_lookup_ok k w1 t a)|]. intros info w2 (S2 & L2 & Hinfo). rewrite L1 in L2, Ha.
  pose proof (lstep_trans _ _ _ _ S1 S2) as S12. destruct (lstep_same k w w2 G C S12 L2) as (G2 & Cn2 & P2).
  destruct Hinfo as [->|(i & -> & Hii & Hip)]; [by apply wp_mret|].
  apply wp_mbind. eapply wp_conseq.
  { apply (delete_leaf k w2 t a); [done|done|by rewrite L2|done| |by rewrite (lst_images _ _ _ S2)].
    intros b Hb' Hne Hp. rewrite L2 in Hb'. apply (Hlast (a_id b)); [symmetry; by apply Hpar; [apply Hsub|]|].
    apply list_elem_of_fmap. eauto. }
  intros z w3 (S3 & G3 & Cn3 & Hw3). rewrite L2 in Hw3. pose proof (lstep_trans _ _ _ _ S12 S3) as S13.
  assert (forall w4, WL w3 = aremove t (WL w) -> pruned k w3 w4 -> pruned k w w4) as Hgo.
  { intros w4 Hl P4. by eapply (pruned_step k w w3 w4 t a); [done|done|lia|eapply lnodup, G|..]. }
  destruct (Z.eqb_spec z 0) as [->|Hz]; cbn [negb].
  2: { apply wp_mret. split; [|done]. destruct Hw3 as [Hl|[_ Hl]]; [apply Hgo; [done|]; by apply pruned_same; [..|split; try apply S3|]|by apply pruned_same]. }
  destruct Hw3 as [Hl3|[? _]]; [|done]. rewrite Hip. eapply delete_chain_next; eauto.
Qed.

(** Reading the images changes nothing. *)
Lemma images_read {A} k w (m : M I A) (P : A -> Prop) (Q : A -> W -> Prop) :
  good k w -> wp m (fun a i' => isame (st_images w) i' /\ P a) (st_images w) ->
  (forall a w', good k w' -> WI w' = WI w -> (forall x, ifind (st_images w') x = ifind (st_images w) x) ->
     st_layers w' = st_layers w -> st_rootfs w' = st_rootfs w -> st_checked w' = st_checked w -> P a -> Q a w') ->
  wp (on_images m) Q w.
Proof.
  intros (G1 & G2 & G3) Hm HQ. apply wp_on_images. eapply wp_conseq; [exact Hm|]. intros a i' [(Hg & Ha & Hf) HP].
  apply HQ; done.
Qed.
Lemma rootfs_read {A} k w (m : M R A) (P : A -> Prop) (Q : A -> W -> Prop) :
  good k w -> wp m (fun a r' => rsame (st_rootfs w) r' /\ P a) (st_rootfs w) ->
  (forall a w', good k w' -> WR w' = WR w -> (forall x, rfind (st_rootfs w') x = rfind (st_rootfs w) x) ->
     st_layers w' = st_layers w -> st_images w' = st_images w -> st_checked w' = st_checked w -> P a -> Q a w') ->
  wp (on_rootfs m) Q w.
Proof.
  intros (G1 & G2 & G3) Hm HQ. apply wp_on_rootfs. eapply wp_conseq; [exact Hm|]. intros a i' [(Hg & Ha & Hf) HP].
  apply HQ; done.
Qed.

Context (E : storage_env).

Lemma pruned_refl k w : good k w -> consistent_at w -> pruned k w w.
Proof. intros G C. apply pruned_same; [done..|by split; try apply G|done]. Qed.

Lemma delete_related_spec k w top :
  good k w -> consistent_at w -> (forall t r, top = Some t -> r ∈ WR w -> rf_layer r <> t) ->
  wp (delete_img_related_layers E top) (fun z w' => pruned k w w' /\
    (z = 0 -> exists t, top = Some t /\ forall l, exclusive (WI w) (WL w) None t l -> forall x, x ∈ t :: l -> x ∉ a_id <$> WL w')) w.
Proof.
  intros G C Hleaf. unfold delete_img_related_layers.
  destruct (negb (se_alloc E)); [apply wp_mret; split; [by apply pruned_refl|done]|]. apply wp_mbind.
  eapply (images_read k w); [done|apply img_get_all_ok, G|]. intros images w1 G1 EI _ EL ER EC Hi.
  assert (consistent_at w1) as C1 by (unfold consistent_at; by rewrite EI, EL, ER).
  assert (forall w', pruned k w1 w' -> pruned k w w') as Hpr.
  { intros w' (? & ? & ? & ? & ? & D & HD & HD'). rewrite EL in HD, HD'. split_and!; [done|done|congruence..|eauto]. }
  destruct (Z.eqb_spec images.1 0) as [Hz|Hz]; cbn [negb]; [|apply wp_mret; split; [by apply Hpr, pruned_refl|done]].
  apply wp_mbind. eapply wp_conseq; [by apply (layer_list_ok k w1)|]. intros lays w2 (S2 & L2 & Hl).
  assert (good k w2) as G2 by by eapply lstep_good.
  assert (consistent_at w2) as C2 by (unfold consistent_at; by rewrite (lst_images _ _ _ S2), (lst_rootfs _ _ _ S2), L2).
  assert (pruned k w1 w2) as P2 by by apply pruned_same.
  destruct (Z.eqb_spec lays.1 0) as [Hz'|Hz']; cbn [negb]; [|apply wp_mret; split; [by apply Hpr|done]].
  unfold do_delete_related_layers. destruct top as [t|]; [|apply wp_mret; split; [by apply Hpr|done]].
  specialize (Hl Hz'). specialize (Hi Hz). assert (length lays.2 = length (WL w1)) as Hlen.
  { rewrite <-(length_fmap view), Hl. apply length_fmap. }
  eapply wp_conseq.
  { apply (delete_chain_spec _ k w2 images.2 lays.2 (WL w1) t None); try done.
    - by rewrite (lst_images _ _ _ S2), Hi, EI.
    - eapply lnodup, G1.
    - intros a. by rewrite L2.
    - intros r. rewrite (lst_rootfs _ _ _ S2), ER. by apply Hleaf.
    - rewrite L2. lia. }
  intros z w3 [P3 Hex]. split.
  - apply Hpr. destruct P2 as (_ & _ & I2 & R2 & K2 & _), P3 as (? & ? & I3 & R3 & K3 & D & HD & HD').
    rewrite L2 in HD, HD'. split_and!; [done|done|congruence..|eauto].
  - intros Hz0. exists t. split; [done|]. intros l He. apply Hex; [|done]. by rewrite Hi, EL.
Qed.

(** ** Deleting an image *)

Lemma occupancy_spec k w img_id s :
  good k w -> ifind (st_images w) img_id = Some s ->
  wp (check_image_occupancy_status E img_id) (fun r w' => good k w' /\ WI w' = WI w /\ WR w' = WR w /\
    (forall x, ifind (st_images w') x = ifind (st_images w) x) /\ st_layers w' = st_layers w /\ st_checked w' = st_checked w /\
    (r = Some false -> forall x, x ∈ WR w -> rf_image x <> im_id s)) w.
Proof.
  intros G Hs. unfold check_image_occupancy_status. apply wp_mbind.
  eapply (images_read k w); [done|apply img_lookup_ok, G|]. intros r w1 G1 EI EF EL ER EC Hr.
  destruct Hr as [->|(s' & Hs' & ->)]; [apply wp_mret; split_and!; try done; by rewrite ER|].
  rewrite Hs in Hs'. injection Hs' as <-.
  destruct (negb (se_alloc E)); [apply wp_mret; split_and!; try done; by rewrite ER|]. apply wp_mbind.
  eapply (rootfs_read k w1); [done|apply rfs_get_all_ok, G1|]. intros l w2 G2 ER2 _ EL2 EI2 EC2 Hl.
  destruct (Z.eqb_spec l.1 0) as [Hz|Hz]; cbn [negb]; apply wp_mret; split_and!;
    try done; try (intros; congruence); try congruence.
  intros [= Hex] x Hx Hi. rewrite (Hl Hz), ER in Hex. apply (proj2 (not_true_iff_false _) Hex), existsb_exists.
  exists x. rewrite <-list_elem_of_In. split; [done|]. by apply bool_decide_eq_true.
Qed.

(** What deleting the image that [img_id] leads to may change. *)
Definition image_deleted k w (img_id : cstr) (z : Z) w' : Prop :=
  good k w' /\ consistent_at w' /\ WR w' = WR w /\ st_checked w' = st_checked w /\
  (exists D : list cstr, WL w' = filter (fun a => a_id a ∉ D) (WL w) /\ forall a, a ∈ WL w -> a_id a ∈ D -> a_hold a <= 0) /\
  (WI w' = WI w /\ WL w' = WL w \/
   exists s, ifind (st_images w) img_id = Some s /\ WI w' = filter (fun x => im_id x <> im_id s) (WI w) /\
     (forall r, r ∈ WR w -> rf_image r <> im_id s) /\
     (z = 0 -> exists t, im_top_layer s = Some t /\
        forall l, exclusive (WI w') (WL w) None t l -> forall x, x ∈ t :: l -> x ∉ a_id <$> WL w')).

Lemma image_kept k w img_id z w' :
  good k w' -> consistent_at w -> WI w' = WI w -> st_layers w' = st_layers w -> WR w' = WR w -> st_checked w' = st_checked w ->
  image_deleted k w img_id z w'.
Proof.
  intros G C EI EL ER EC. unfold image_deleted, consistent_at. rewrite EI, EL, ER. split_and!; try done; [|by left].
  exists []. rewrite filter_nothing. split; [done|]. by intros a _ ?%not_elem_of_nil.
Qed.

Lemma do_img_delete_spec k w img_id :
  good k w -> consistent_at w -> wp (do_storage_img_delete E img_id) (image_deleted k w img_id) w.
Proof.
  intros G C. unfold do_storage_img_delete. apply wp_mbind.
  eapply (images_read k w _ (fun _ => True)); [done|eapply wp_conseq; [apply img_exists_ok, G|done]|].
  intros ex w1 G1 EI1 EF1 EL1 ER1 EC1 _. destruct (negb ex); [apply wp_mret, image_kept; try done; by rewrite ER1|].
  apply wp_mbind. eapply (images_read k w1); [done|apply img_get_summary_ok, G1|].
  intros info w2 G2 EI2 EF2 EL2 ER2 EC2 Hinfo. rewrite EF1 in Hinfo.
  destruct Hinfo as [->|(s & Hs & ->)]; [apply wp_mret, image_kept; try done; congruence|].
  apply wp_mbind. eapply wp_conseq; [apply (occupancy_spec k w2 img_id s); [done|by rewrite EF2, EF1]|].
  intros u w3 (G3 & EI3 & ER3 & EF3 & EL3 & EC3 & Hu).
  assert (image_deleted k w img_id (-1) w3) as Hkeep by (apply image_kept; try done; congruence).
  destruct u as [[]|]; [by apply wp_mret| |by apply wp_mret]. specialize (Hu eq_refl). rewrite ER2, ER1 in Hu.
  assert (s ∈ WI w) as Hin by (eapply ifind_elem, Hs; apply G). apply wp_mbind, wp_on_images.
  eapply wp_conseq; [apply (img_delete_ok _ _ s); [apply G3|by rewrite EI3, EI2, EI1|done]|].
  intros z i4 (Gi4 & Hz). set (w4 := Storage i4 (st_layers w3) (st_rootfs w3) (st_checked w3)).
  assert (good k w4) as G4 by (split; [done|]; apply G3).
  assert (WL w4 = WL w /\ WR w4 = WR w /\ st_checked w4 = st_checked w) as (EL4 & ER4 & EC4).
  { unfold w4. cbn. split_and!; congruence. }
  assert (WI w3 = WI w) as EI by congruence.
  destruct Hz as [Hi4|[Hz Hi4]].
  2: { destruct (Z.eqb_spec z 0); [done|]. apply wp_mret, image_kept; try done; cbn; congruence. }
  rewrite EI in Hi4. pose proof (consistent_image_removed _ _ _ (im_id s) C Hu) as C4.
  rewrite <-Hi4, <-EL4, <-ER4 in C4. change (consistent_at w4) in C4.
  destruct (Z.eqb_spec z 0) as [->|Hz]; cbn [negb].
  2: { apply wp_mret. unfold image_deleted. rewrite EL4, ER4. split_and!; try done.
       - exists []. rewrite filter_nothing. split; [done|]. by intros a _ ?%not_elem_of_nil.
       - right. exists s. done. }
  apply wp_mbind. eapply wp_conseq; [apply (delete_related_spec k w4 (im_top_layer s)); [done..|]|].
  { intros t r Ht Hr He. rewrite ER4 in Hr. apply (cs_container _ _ _ C r s Hr Hin). by rewrite Ht, He. }
  intros z w5 [(G5 & C5 & EI5 & ER5 & EC5 & D & HD & HD') Hex]. apply wp_mret. unfold image_deleted.
  rewrite EL4 in HD, HD'. split_and!; try congruence; [eauto|]. right. exists s. rewrite EI5. split_and!; try done.
  destruct (Z.eqb_spec z 0) as [->|]; [intros _|done]. destruct (Hex eq_refl) as (t & Ht & Hl). exists t. split; [done|].
  intros l He. rewrite EL4 in Hl. by apply Hl.
Qed.
End storage.
