(* ===== verification/StorageSession.v ===== *)
(** Whatever the storage module is asked to do, nothing refers to a layer or an image that is
    missing. *)
From S2P Require Import Prelude KeyOrders Effects ImageStore LayerStore LayerStoreSpec LayerStoreCalls LayerStoreProps Storage StorageSpec StorageProps.

Open Scope Z_scope.

(** Calls of the module. *)
Inductive st_call :=
| SImgCreate (id top metadata digest : option cstr)
| SImgDelete (id : option cstr)
| SLayerCreate (id : cstr) (copts : option create_opts)
| SChainDelete (id : option cstr)
| SIncHold (id : cstr)
| SDecHold (id : cstr)
| SRootfsCreate (container image label : option cstr)
| SRootfsDelete (container : option cstr)
| SRootfsMount (container : option cstr)
| SRootfsUmount (container : option cstr) (force : bool).

Section storage.
Context {I L R : Type} `{!ImageOps I} `{!ImageLaws I} `{!LayerOps L} `{!LayerLaws L} `{!RootfsOps R} `{!RootfsLaws R}.
Abbreviation W := (storage I L R).
Implicit Types (w : W) (k : Z).
Abbreviation WI w := (iabs (st_images w)).
Abbreviation WL w := (labs (st_layers w)).
Abbreviation WR w := (rabs (st_rootfs w)).

Definition run_storage (E : storage_env) (c : st_call) : M W unit :=
  match c with
  | SImgCreate id top md dg => _ ← storage_img_create E id top md dg; mret tt
  | SImgDelete id => _ ← storage_img_delete E id; mret tt
  | SLayerCreate id copts => _ ← storage_layer_create E id copts; mret tt
  | SChainDelete id => _ ← storage_layer_chain_delete E id; mret tt
  | SIncHold id => _ ← storage_inc_hold_refs E id; mret tt
  | SDecHold id => _ ← storage_dec_hold_refs E id; mret tt
  | SRootfsCreate c i l => _ ← storage_rootfs_create E c i l; mret tt
  | SRootfsDelete c => _ ← storage_rootfs_delete E c; mret tt
  | SRootfsMount c => _ ← storage_rootfs_mount c; mret tt
  | SRootfsUmount c force => _ ← storage_rootfs_umount c force; mret tt
  end.

(** A layer that images and other layers may be built on. *)
Definition base_layer (t : cstr) w : bool :=
  bool_decide (t ∈ a_id <$> WL w) && bool_decide (t ∉ rf_layer <$> WR w).

(** What the callers must see to, because storage.c does not check it: images and layers are
    built on layers that are there and are no container's, ids of images, layers and containers do not clash, and the numbers of images
    and of containers fit in a [size_t]. *)
Definition storage_fits (c : st_call) w : bool :=
  match c with
  | SImgCreate (Some id) top _ _ =>
      match top with Some t => base_layer t w | None => false end &&
      bool_decide (id ∉ a_id <$> WL w) && bool_decide (id ∉ im_id <$> WI w) &&
      (Z.of_nat (length (WI w)) + 1 <? 2 ^ 64)
  | SLayerCreate id (Some copts) =>
      bool_decide (id ∉ im_id <$> WI w) && match co_parent copts with Some p => base_layer p w | None => true end
  | SChainDelete (Some t) => bool_decide (t ∉ rf_layer <$> WR w)
  | SRootfsCreate (Some c) _ _ =>
      bool_decide (c ∉ a_id <$> WL w) && bool_decide (c ∉ im_id <$> WI w) && bool_decide (c ∉ rf_id <$> WR w) &&
      bool_decide (c ∉ rf_layer <$> WR w) && (Z.of_nat (length (WR w)) + 1 <? 2 ^ 64)
  | _ => true
  end.

(** What a call keeps. *)
Definition kept k w' : Prop := exists k', k' <= k + 1 /\ good k' w' /\ consistent_at w'.

Lemma kept_quiet k w : good k w -> consistent_at w -> kept k w.
Proof. intros G C. exists k. split; [lia|done]. Qed.

(** ** Calls of the layer store that change counters *)
Lemma lstep_consistent k w w' : lstep k w w' -> consistent (WI w) (WL w') (WR w) -> consistent_at w'.
Proof. intros S C. unfold consistent_at. by rewrite (lst_images _ _ _ S), (lst_rootfs _ _ _ S). Qed.
Lemma consistent_counts w t f : consistent_at w ->
  (forall a, a_id (f a) = a_id a /\ a_parent (f a) = a_parent a /\ a_names (f a) = a_names a) ->
  consistent (WI w) (aupdate t f (WL w)) (WR w).
Proof. intros C Hf. by apply consistent_update. Qed.

Lemma no_names A : names_free [] A.
Proof. split; [constructor|]. by intros n a ?%not_elem_of_nil. Qed.

Lemma set_hold_kept k w id b :
  good k w -> k < 2 ^ 31 - 1 -> consistent_at w -> wp (layer_status (LSetHold (Some id) b)) (fun _ w' => kept k w') w.
Proof.
  intros G Hk C. unfold layer_status. apply wp_mbind, (loud_call k); [done|done|apply no_names|]. intros r w' E S Ha.
  destruct r; cbn [astep] in Ha; try done. eapply wp_lift; [done|]. exists (k + 1). split; [lia|].
  split; [by eapply lstep_good|]. eapply lstep_consistent; [done|]. unfold a_set_hold in Ha.
  destruct (aid E (Some id) (WL w)); destruct Ha as [_ ->]; [by apply consistent_counts|done].
Qed.
Lemma mount_kept k w id :
  good k w -> k < 2 ^ 31 - 1 -> consistent_at w -> wp (layer_mount id) (fun _ w' => kept k w') w.
Proof.
  intros G Hk C. unfold layer_mount. apply wp_mbind, (loud_call k); [done|done|apply no_names|]. intros r w' E S Ha.
  destruct r; cbn [astep] in Ha; try done. eapply wp_lift; [done|]. exists (k + 1). split; [lia|].
  split; [by eapply lstep_good|]. eapply lstep_consistent; [done|]. unfold a_mount in Ha.
  destruct (afind_lock E (Some id) (WL w)); [destruct Ha as [->|[_ ->]]|destruct Ha as [_ ->]]; [by apply consistent_counts|done|done].
Qed.
Lemma umount_kept k w id force :
  good k w -> consistent_at w -> wp (layer_status (LUmount (Some id) force)) (fun _ w' => good k w' /\ consistent_at w') w.
Proof.
  intros G C. unfold layer_status. apply wp_mbind, (quiet_call k); [done|done|]. intros r w' E S Ha.
  destruct r; cbn [astep] in Ha; try done. eapply wp_lift; [done|]. split; [by eapply lstep_good|].
  eapply lstep_consistent; [done|]. unfold a_umount in Ha.
  destruct (afind_lock E (Some id) (WL w)); [destruct Ha as [[_ ->]|(_ & -> & _)]|destruct Ha as [_ ->]];
    [by apply consistent_counts|done|done].
Qed.

(** Without names a layer is found by its id only. *)
Lemma afind_by_id id A a : (forall a, a ∈ A -> a_names a = []) -> afind id A = Some a -> a ∈ A /\ a_id a = id.
Proof.
  intros Hn. unfold afind. destruct (filter (fun a => a_id a = id) A) as [|b B] eqn:Hf.
  - destruct (filter (fun a => id ∈ a_names a) A) as [|c C] eqn:Hg; [done|]. intros [= ->].
    assert (a ∈ filter (fun a => id ∈ a_names a) A) as [Hin Ha]%list_elem_of_filter by (rewrite Hg; by left).
    rewrite (Hn a Ha) in Hin. by apply not_elem_of_nil in Hin.
  - intros [= ->]. assert (a ∈ filter (fun a => a_id a = id) A) as [? ?]%list_elem_of_filter by (rewrite Hf; by left). done.
Qed.

(** Deleting the layer of a container, which may be gone already. *)
Lemma delete_container_layer k w id :
  good k w -> consistent_at w -> (forall a, a ∈ WL w -> a_parent a <> Some id) -> (forall s, s ∈ WI w -> im_top_layer s <> Some id) ->
  wp (layer_status (LDelete (Some id))) (fun _ w' => good k w' /\ consistent_at w' /\ st_images w' = st_images w /\
    st_rootfs w' = st_rootfs w) w.
Proof.
  intros G C Hp Ht. unfold layer_status. apply wp_mbind, (quiet_call k); [done|done|]. intros r w' E S Ha.
  destruct r; cbn [astep] in Ha; try done. eapply wp_lift; [done|]. split; [by eapply lstep_good|].
  split; [|split; apply S]. eapply lstep_consistent; [done|]. unfold a_delete, afind_lock in Ha. cbn in Ha.
  destruct (le_lock E); [|by destruct Ha as [_ ->]]. destruct (afind id (WL w)) as [a|] eqn:Hf; [|by destruct Ha as [_ ->]].
  apply afind_by_id in Hf as [Hin Hid]; [|apply C]. rewrite Hid in Ha. destruct Ha as [(_ & -> & _)|[_ ->]]; [done|].
  apply consistent_remove; [done| |done]. intros b Hb _. by apply Hp.
Qed.

(** Creating a layer. *)
Lemma create_layer_kept k w id opts diff :
  good k w -> k < 2 ^ 31 - 1 -> consistent_at w -> lo_names opts = [] -> id ∉ im_id <$> WI w ->
  (forall p, lo_parent opts = Some p -> p ∈ a_id <$> WL w /\ forall r, r ∈ WR w -> rf_layer r <> p) ->
  wp (layer_create id opts diff) (fun z w' => lstep (k + 1) w w' /\ good (k + 1) w' /\ consistent_at w' /\
    (forall a, a ∈ WL w' -> (exists b, b ∈ WL w /\ a_parent a = a_parent b) \/ a_parent a = lo_parent opts)) w.
Proof.
  intros G Hk C Hn Hid Hp. unfold layer_create. apply wp_mbind, (loud_call k); [done|done|cbn; rewrite Hn; apply no_names|].
  intros r w' E S Ha. destruct r as [z new| | | | | |]; cbn [astep] in Ha; try done. eapply wp_lift; [done|]. split; [done|].
  split; [by eapply lstep_good|]. unfold a_create in Ha.
  assert (WL w' = WL w -> consistent_at w' /\ (forall a, a ∈ WL w' -> (exists b, b ∈ WL w /\ a_parent a = a_parent b) \/
    a_parent a = lo_parent opts)) as Hsame.
  { intros El. split; [eapply lstep_consistent; [done|by rewrite El]|]. rewrite El. eauto. }
  destruct (le_lock E); [|by apply Hsame; destruct Ha as (_ & _ & ->)].
  destruct (afind id (WL w)) as [b|]; [destruct Ha as (_ & _ & El)|destruct Ha as [(_ & _ & El)|(_ & _ & El)]].
  - split; [eapply lstep_consistent; [done|]; rewrite El; by apply consistent_counts|]. rewrite El.
    intros a (b' & Hb & [->| ->])%elem_of_aupdate; eauto.
  - split.
    + eapply lstep_consistent; [done|]. rewrite El, Hn. apply consistent_new_layer; [done| |done].
      intros s Hs He. apply Hid, list_elem_of_fmap. exists s. done.
    + rewrite El. intros a [Ha|Ha]%elem_of_app; [eauto|]. apply list_elem_of_singleton in Ha as ->. by right.
  - by apply Hsame.
Qed.

Lemma base_layer_ok t w : base_layer t w = true -> t ∈ a_id <$> WL w /\ forall r, r ∈ WR w -> rf_layer r <> t.
Proof.
  intros [Hb1 Hb2]%andb_true_iff. apply bool_decide_eq_true in Hb1, Hb2. split; [done|]. intros r Hr <-.
  apply Hb2, list_elem_of_fmap. eauto.
Qed.

(** ** The calls *)
Lemma img_create_kept E k w id top md dg :
  good k w -> consistent_at w -> storage_fits (SImgCreate id top md dg) w = true ->
  wp (storage_img_create E id top md dg) (fun _ w' => kept k w') w.
Proof.
  intros G C Hf. unfold storage_img_create. destruct id as [id|]; [|by apply wp_mret, kept_quiet].
  destruct (se_lock E); cbn [negb]; [|by apply wp_mret, kept_quiet]. cbn in Hf. rewrite !andb_true_iff in Hf. destruct Hf as [[[Ht Hid] Hii] Hn%Z.ltb_lt].
  apply bool_decide_eq_true in Hid, Hii. destruct top as [t|]; [|done]. apply base_layer_ok in Ht as [Ht Hr].
  apply wp_mbind, wp_on_images. eapply wp_conseq; [apply img_create_ok; [apply G| |done]|].
  { intros s Hs He. apply Hii, list_elem_of_fmap. eauto. }
  intros r i' [Gi Hi]. apply wp_mret, kept_quiet; [split; [done|apply G]|]. unfold consistent_at. cbn.
  destruct Hi as [[_ ->]|[_ ->]]; [done|]. by apply consistent_new_image.
Qed.

Lemma img_delete_kept E k w id : good k w -> consistent_at w -> wp (storage_img_delete E id) (fun _ w' => kept k w') w.
Proof.
  intros G C. unfold storage_img_delete. destruct id as [id|]; [|by apply wp_mret, kept_quiet].
  destruct (negb (se_lock E)); [by apply wp_mret, kept_quiet|]. eapply wp_conseq; [by apply (do_img_delete_spec E k)|].
  intros z w' (G' & C' & _). by apply kept_quiet.
Qed.
Lemma chain_delete_kept E k w t :
  good k w -> consistent_at w -> storage_fits (SChainDelete t) w = true ->
  wp (storage_layer_chain_delete E t) (fun _ w' => kept k w') w.
Proof.
  intros G C Hf. unfold storage_layer_chain_delete. destruct (negb (se_lock E)); [by apply wp_mret, kept_quiet|].
  eapply wp_conseq; [apply (delete_related_spec E k w t); [done..|]|].
  - intros t' r -> Hr He. cbn in Hf. apply bool_decide_eq_true in Hf. apply Hf, list_elem_of_fmap. eauto.
  - intros z w' [(G' & C' & _) _]. by apply kept_quiet.
Qed.
Lemma layer_create_kept E k w id copts :
  good k w -> k < 2 ^ 31 - 1 -> consistent_at w -> storage_fits (SLayerCreate id copts) w = true ->
  wp (storage_layer_create E id copts) (fun _ w' => kept k w') w.
Proof.
  intros G Hk C Hf. unfold storage_layer_create. destruct copts as [co|]; [|by apply wp_mret, kept_quiet].
  destruct (negb _ && negb _); [by apply wp_mret, kept_quiet|]. destruct (_ && negb _); [by apply wp_mret, kept_quiet|].
  unfold fill_create_layer_opts. destruct (se_opts E); [|by apply wp_mret, kept_quiet].
  destruct (negb (se_lock E)); [by apply wp_mret, kept_quiet|]. cbn in Hf. apply andb_true_iff in Hf as [Hid Hp].
  apply bool_decide_eq_true in Hid. apply wp_mbind. eapply wp_conseq; [apply (create_layer_kept k); try done|].
  - cbn. intros p Ep. rewrite Ep in Hp. by apply base_layer_ok.
  - intros z w' (_ & G' & C' & _). apply wp_mret. exists (k + 1). done.
Qed.

Lemma get_summary_ok E k w img (Q : option img_summary -> W -> Prop) :
  good k w ->
  (forall r w', good k w' -> WI w' = WI w -> st_layers w' = st_layers w -> st_rootfs w' = st_rootfs w ->
     (r = None \/ exists s, s ∈ WI w /\ r = Some s) -> Q r w') ->
  wp (storage_img_get_summary E img) Q w.
Proof.
  intros G HQ. unfold storage_img_get_summary.
  assert (forall w1 key, good k w1 -> WI w1 = WI w -> st_layers w1 = st_layers w -> st_rootfs w1 = st_rootfs w ->
    wp (on_images (img_get_summary key)) Q w1) as Hget.
  { intros w1 key G1 EI EL ER. eapply (images_read k w1); [done|apply img_get_summary_ok, G1|].
    intros r w2 G2 EI2 _ EL2 ER2 _ Hr. apply HQ; [done|congruence..|].
    destruct Hr as [->|(s & Hs & ->)]; [by left|right]. exists s. split; [|done]. rewrite <-EI. eapply ifind_elem, Hs. apply G1. }
  apply wp_mbind. destruct (se_short_id E img); [|by apply wp_mret, Hget].
  eapply (images_read k w _ (fun _ => True)); [done|eapply wp_conseq; [apply img_exists_ok, G|done]|].
  intros b w1 G1 EI _ EL ER _ _. destruct b; by apply Hget.
Qed.

(** Taking the layer of a container back. *)
Lemma undo_kept k w c :
  good (k + 1) w -> consistent_at w -> (forall a, a ∈ WL w -> a_parent a <> Some c) -> (forall s, s ∈ WI w -> im_top_layer s <> Some c) ->
  wp (_ ← layer_status (LDelete (Some c)); mret (-1, None : option cstr)) (fun _ w' => kept k w') w.
Proof.
  intros G C Hp Ht. apply wp_mbind. eapply wp_conseq; [by apply (delete_container_layer (k + 1) w c)|].
  intros ? w' (G' & C' & _). apply wp_mret. exists (k + 1). done.
Qed.

Lemma rootfs_create_kept E k w c i l :
  good k w -> k < 2 ^ 31 - 1 -> consistent_at w -> storage_fits (SRootfsCreate c i l) w = true ->
  wp (storage_rootfs_create E c i l) (fun _ w' => kept k w') w.
Proof.
  intros G Hk C Hf. unfold storage_rootfs_create. destruct c as [c|]; [|by apply wp_mret, kept_quiet].
  destruct i as [i|]; [|by apply wp_mret, kept_quiet]. destruct (negb (se_lock E)); [by apply wp_mret, kept_quiet|].
  cbn in Hf. rewrite !andb_true_iff in Hf. destruct Hf as [[[[Hc1 Hc2] Hc3] Hc4] Hcn%Z.ltb_lt]. apply bool_decide_eq_true in Hc1, Hc2, Hc3, Hc4.
  apply wp_mbind, (get_summary_ok E k); [done|]. intros r w1 G1 EI EL ER Hs.
  assert (consistent_at w1) as C1 by (unfold consistent_at; by rewrite EI, EL, ER).
  destruct Hs as [->|(s & Hs & ->)]; [by apply wp_mret, kept_quiet|].
  unfold do_create_container_rw_layer, fill_create_layer_opts. apply wp_mbind.
  destruct (se_opts E); [|by apply wp_mret; cbn [negb Z.eqb]; apply wp_mret, kept_quiet].
  destruct (cs_top _ _ _ C s Hs) as (t & Ht & Hti). apply wp_mbind. eapply wp_conseq; [apply (create_layer_kept k); try done|].
  { by rewrite EI. }
  { cbn. intros p Hp. rewrite Ht in Hp. injection Hp as <-. rewrite EL, ER. split; [done|]. intros r Hr He.
    apply (cs_container _ _ _ C r s Hr Hs). by rewrite Ht, He. }
  intros z w2 (S2 & G2 & C2 & Hpar). apply wp_mret. assert (kept k w2) as K2 by (exists (k + 1); done).
  destruct (negb _); [by apply wp_mret|]. cbn in Hpar. rewrite Ht, EL in Hpar.
  assert (forall a, a ∈ WL w2 -> a_parent a <> Some c) as Hnp.
  { intros a Ha He. apply Hc1. destruct (Hpar a Ha) as [(b & Hb & Hpb)|Hpb]; [|congruence].
    eapply (cs_parent _ _ _ C); [exact Hb|congruence]. }
  assert (forall s', s' ∈ WI w2 -> im_top_layer s' <> Some c) as Hnt.
  { rewrite (lst_images _ _ _ S2), EI. intros s' Hs' He. destruct (cs_top _ _ _ C s' Hs') as (t' & Ht' & Hin). congruence. }
  apply wp_mbind, wp_on_rootfs. eapply wp_conseq; [apply rfs_create_ok; [apply G2| |by rewrite (lst_rootfs _ _ _ S2), ER]|].
  { intros x Hx. rewrite (lst_rootfs _ _ _ S2), ER in Hx. split; intros He; [apply Hc3|apply Hc4]; apply list_elem_of_fmap; eauto. }
  intros rid r3 [Gr Hr3]. set (w3 := Storage (st_images w2) (st_layers w2) r3 (st_checked w2)).
  assert (good (k + 1) w3) as G3 by (split; [apply G2|split; [apply G2|done]]).
  assert (consistent_at w3) as C3.
  { unfold consistent_at. cbn. destruct Hr3 as [[_ ->]|[_ ->]]; [done|]. apply consistent_new_rootfs; [done| |done|done].
    rewrite (lst_images _ _ _ S2), EI. apply list_elem_of_fmap. eauto. }
  apply wp_mbind. destruct rid as [rid|]; [|by apply wp_mret, undo_kept].
  unfold layer_lookup. apply wp_mbind, (quiet_call (k + 1)); [done|done|]. intros r w4 E' S4 Ha.
  destruct r as [| | | | |info|]; cbn [astep] in Ha; try done. destruct Ha as [_ Hl4]. eapply wp_lift; [done|].
  assert (good (k + 1) w4) as G4 by by eapply lstep_good.
  assert (consistent_at w4) as C4 by (eapply lstep_consistent; [done|by rewrite Hl4]).
  destruct info; [apply wp_mret; exists (k + 1); done|].
  apply undo_kept; [done|done|by rewrite Hl4|by rewrite (lst_images _ _ _ S4)].
Qed.

(** Looking a container up. *)
Lemma rootfs_get_ok k w c (Q : option rootfs_info -> W -> Prop) :
  good k w -> consistent_at w ->
  (forall r w', good k w' -> consistent_at w' -> (forall x, r = Some x -> x ∈ WR w' /\ rfind (st_rootfs w') c = Some x) -> Q r w') ->
  wp (on_rootfs (rfs_get c)) Q w.
Proof.
  intros G C HQ. eapply (rootfs_read k w); [done|apply rfs_get_ok, G|]. intros r w' G' ER EF EL EI _ Hr.
  apply HQ; [done|unfold consistent_at; by rewrite ER, EL, EI|]. intros x ->. destruct Hr as [?|(y & Hy & [= ->])]; [done|].
  rewrite EF. split; [|done]. rewrite ER. eapply rfind_elem, Hy. apply G.
Qed.

Lemma rootfs_delete_kept E k w c : good k w -> consistent_at w -> wp (storage_rootfs_delete E c) (fun _ w' => kept k w') w.
Proof.
  intros G C. unfold storage_rootfs_delete. destruct c as [c|]; [|by apply wp_mret, kept_quiet].
  destruct (negb (se_lock E)); [by apply wp_mret, kept_quiet|]. unfold do_storage_rootfs_delete. apply wp_mbind.
  eapply (rootfs_read k w _ (fun _ => True)); [done|eapply wp_conseq; [apply rfs_exists_ok, G|done]|].
  intros ex w1 G1 ER1 _ EL1 EI1 _ _. assert (consistent_at w1) as C1 by (unfold consistent_at; by rewrite ER1, EL1, EI1).
  destruct (negb ex); [by apply wp_mret, kept_quiet|]. apply wp_mbind, (rootfs_get_ok k); [done..|]. intros r w2 G2 C2 Hx.
  destruct r as [x|]; [|by apply wp_mret, kept_quiet]. destruct (Hx x eq_refl) as [Hin Hfind]. apply wp_mbind.
  eapply wp_conseq; [apply (delete_container_layer k w2 (rf_layer x)); [done..| |]|].
  { intros a Ha. by apply (cs_leaf _ _ _ C2). }
  { intros s Hs. by apply (cs_container _ _ _ C2). }
  intros z w3 (G3 & C3 & _ & ER3). destruct (negb (z =? 0)); [by apply wp_mret, kept_quiet|]. apply wp_mbind, wp_on_rootfs.
  eapply wp_conseq; [apply (rfs_delete_ok _ c x); [apply G3|by rewrite ER3]|]. intros z' r4 [Gr Hr].
  apply wp_mret, kept_quiet; [split; [apply G3|split; [apply G3|done]]|]. unfold consistent_at. cbn.
  destruct Hr as [->|[_ ->]]; [by apply consistent_rootfs_removed|done].
Qed.

Lemma run_storage_kept E k w c :
  good k w -> k < 2 ^ 31 - 1 -> consistent_at w -> storage_fits c w = true -> wp (run_storage E c) (fun _ w' => kept k w') w.
Proof.
  intros G Hk C Hf. destruct c; cbn [run_storage]; apply wp_mbind;
    (eapply (wp_conseq _ (fun _ w' => kept k w')); [|intros; by apply wp_mret]).
  - by apply img_create_kept.
  - by apply img_delete_kept.
  - by apply layer_create_kept.
  - by apply chain_delete_kept.
  - unfold storage_inc_hold_refs. destruct (negb _); [by apply wp_mret, kept_quiet|by apply set_hold_kept].
  - unfold storage_dec_hold_refs. destruct (negb _); [by apply wp_mret, kept_quiet|by apply set_hold_kept].
  - by apply rootfs_create_kept.
  - by apply rootfs_delete_kept.
  - unfold storage_rootfs_mount. destruct container as [c|]; [|by apply wp_mret, kept_quiet].
    apply wp_mbind, (rootfs_get_ok k); [done..|]. intros r w1 G1 C1 _.
    destruct r; [by apply mount_kept|by apply wp_mret, kept_quiet].
  - unfold storage_rootfs_umount. destruct container as [c|]; [|by apply wp_mret, kept_quiet].
    apply wp_mbind, (rootfs_get_ok k); [done..|]. intros r w1 G1 C1 _. destruct r; [|by apply wp_mret, kept_quiet].
    apply wp_mbind. eapply wp_conseq; [by apply (umount_kept k)|]. intros z w2 [G2 C2]. by apply wp_mret, kept_quiet.
Qed.

(** ** Sequences *)
Fixpoint run_storage_calls (cs : list (storage_env * st_call)) : M W unit :=
  match cs with [] => mret tt | (E, c) :: cs => run_storage E c;; run_storage_calls cs end.
Fixpoint storage_calls_fit (cs : list (storage_env * st_call)) w : bool :=
  match cs with
  | [] => true
  | (E, c) :: cs =>
      storage_fits c w && match run_storage E c w with Some (_, w') => storage_calls_fit cs w' | None => true end
  end.

Lemma run_storage_calls_kept cs k w :
  good k w -> k + Z.of_nat (length cs) < 2 ^ 31 -> consistent_at w -> storage_calls_fit cs w = true ->
  wp (run_storage_calls cs) (fun _ w' => (exists k', good k' w') /\ consistent_at w') w.
Proof.
  revert k w. induction cs as [|[E c] cs IH]; intros k w G Hk C Hf; cbn; [apply wp_mret; eauto|].
  cbn [length] in Hk. cbn in Hf. apply andb_true_iff in Hf as [Hc Hf]. apply wp_mbind.
  destruct (run_storage_kept E k w c G ltac:(lia) C Hc) as ([] & w1 & Hr & k' & Hk' & G' & C').
  exists tt, w1. split; [done|]. rewrite Hr in Hf. apply (IH k' w1); [done|lia|done|done].
Qed.
End storage.
