(* ===== verification/StorageStores.v ===== *)
(** The stores of layers and of images keep the promises the storage module relies on. *)
From S2P Require Import Prelude Heap RbSearch KeyOrders MapC MapIface RestartManager ContainersStoreProps Effects ImageStore LayerStore LayerStoreInv LayerStoreOps LayerStoreDelete LayerStoreSpec LayerStoreCalls LayerStoreProps Storage StorageSpec.

Open Scope Z_scope.

(** ** The store of layers *)
Section layers.
Context {MI MG : Type} {cmp : cstr -> cstr -> Z} `{!KeyOrder cmp}.
Context {opsI : MapOps cstr N MI} `{!MapLaws cmp opsI}.
Context {opsG : MapOps cstr N MG} `{!MapLaws cmp opsG}.
Abbreviation layer_store := (layer_store MI MG).
Implicit Types (st : layer_store).

(** The store with the environments of its calls. *)
Record layer_world := LayerWorld { lw_store : layer_store; lw_env : nat -> lay_env; lw_calls : nat }.

#[export] Instance layer_world_ops : LayerOps layer_world := {
  layer_call c := fun lw =>
    match run_call (lw_env lw (lw_calls lw)) c (lw_store lw) with
    | Some (r, st) => Some (r, LayerWorld st (lw_env lw) (Datatypes.S (lw_calls lw)))
    | None => None
    end
}.

Lemma abs_layers_nodup own st : linv own st -> NoDup (a_id <$> abs_layers st).
Proof.
  intros Hi. pose proof Hi as (Hr & _). unfold abs_layers.
  assert (forall ps, NoDup ps -> (forall p, p ∈ ps -> p ∈ layers_list st) -> NoDup (a_id <$> omap (alayer_of st) ps)) as H.
  { induction ps as [|p ps IH]; intros Hnd Hl; [constructor|]. apply NoDup_cons in Hnd as [Hp Hnd]. cbn.
    destruct (alayer_listed own st p Hr) as (s & Hs & Ha); [apply Hl; by left|]. rewrite Ha. cbn. constructor.
    - intros (b & Hb & (q & Hq & Haq)%list_elem_of_omap)%list_elem_of_fmap.
      destruct (alayer_listed own st q Hr) as (s' & Hs' & Ha'); [apply Hl; by right|]. rewrite Ha' in Haq. injection Haq as <-.
      cbn in Hb. assert (p = q) as ->; [|done]. eapply (listed_id own st); [done|apply Hl; by left|apply Hl; by right| |].
      + by rewrite Hs.
      + by rewrite Hs', Hb.
    - apply IH; [done|]. intros q Hq. apply Hl. by right. }
  apply H; [apply Hr|done].
Qed.

(** Calls that increase no counter. *)
Lemma read_bounded {A} k st (m : M layer_store A) (f : A -> lay_result) (P : A -> Prop) :
  bounded k st -> wp m (fun a st' => linv [] st' /\ local st st' /\ P a) st ->
  wp (a ← m; mret (f a)) (fun _ st' => bounded k st') st.
Proof.
  intros Hb Hm. apply wp_mbind. eapply wp_conseq; [exact Hm|]. intros a st' (_ & Hl & _). apply wp_mret.
  eapply bounded_local; [|done..]. pose proof (Hb NULL). lia.
Qed.
Lemma quiet_bounded E k c st :
  linv [] st -> bounded k st -> quiet c = true -> wp (run_call E c) (fun _ st' => bounded k st') st.
Proof.
  intros Hi Hb Hq. destruct c; try done.
  - cbn. apply wp_mbind. unfold layer_store_delete. destruct id as [id|]; [|by apply wp_mret, wp_mret].
    destruct (negb _); [by apply wp_mret, wp_mret|]. apply wp_mbind.
    eapply wp_conseq; [by apply do_delete_layer_spec|]. intros z st' (_ & Hbd & _). apply wp_mret, wp_mret. auto.
  - cbn. apply wp_mbind. eapply wp_conseq; [apply (umount_spec E []); [done|cbn; lia]|]. intros z st' (_ & Hbd & _). apply wp_mret. auto.
  - eapply (read_bounded k st (layer_get_hold_refs E id) _ (fun _ => True)); [done|]. eapply wp_conseq; [by apply get_hold_spec|].
    by intros n st' [-> _].
  - eapply (read_bounded k st (layer_store_exists E id)); [done|by apply exists_spec].
  - eapply (read_bounded k st (layer_store_lookup E name)); [done|by apply lookup_info_spec].
  - eapply (read_bounded k st (layer_store_list E) (fun r => RInfos r.1 r.2) (fun _ => True)); [done|]. eapply wp_conseq; [by apply layer_list_spec|].
    by intros n st' [-> _].
  - eapply (read_bounded k st (layer_store_by_compress_digest E digest) (fun r => RInfos r.1 r.2)); [done|by apply by_compress_spec].
  - eapply (read_bounded k st (layer_store_by_uncompress_digest E digest) (fun r => RInfos r.1 r.2)); [done|by apply by_uncompress_spec].
Qed.
Lemma quiet_step E k c st :
  linv [] st -> bounded k st -> quiet c = true ->
  wp (run_call E c) (fun r st' => linv [] st' /\ astep E c (abs_layers st) r (abs_layers st')) st.
Proof.
  intros Hi Hb Hq. destruct (only_reads c) eqn:Hr.
  { eapply wp_conseq; [by apply (reads_spec E k)|]. by intros r st' (? & _ & ?). }
  destruct c; try done.
  - eapply wp_conseq; [by apply (delete_call E k)|]. by intros r st' (? & _ & ?).
  - eapply wp_conseq; [by apply (umount_call E k)|]. by intros r st' (? & _ & ?).
Qed.

#[export] Program Instance layer_world_laws : LayerLaws layer_world := {
  lg k lw := linv [] (lw_store lw) /\ bounded k (lw_store lw) /\ forall n, env_ok (lw_env lw n);
  labs lw := abs_layers (lw_store lw)
}.
Next Obligation. intros k lw (Hi & _). by eapply abs_layers_nodup. Qed.
Next Obligation.
  intros k [st es n] c (Hi & Hb & HE) Hq. cbn in *.
  destruct (quiet_step (es n) k c st Hi Hb Hq) as (r & st' & Hr & Hi' & Ha).
  destruct (quiet_bounded (es n) k c st Hi Hb Hq) as (r2 & st2 & Hr2 & Hb2). rewrite Hr in Hr2. injection Hr2 as <- <-.
  eexists _, _. split; [unfold layer_call, layer_world_ops; cbn; by rewrite Hr|]. cbn. eauto.
Qed.
Next Obligation.
  intros k [st es n] c (Hi & Hb & HE) Hk Hf. cbn in *.
  destruct (call_spec (es n) (HE n) k c st Hi Hb Hk Hf) as (r & st' & Hr & Hi' & Hb' & Ha).
  eexists _, _. split; [unfold layer_call, layer_world_ops; cbn; by rewrite Hr|]. cbn. eauto.
Qed.
End layers.
