(* ===== verification/StorageImages.v ===== *)
(** The store of images keeps the promises the storage module relies on. *)
From S2P Require Import Prelude Heap RbSearch KeyOrders MapC MapIface RestartManager ContainersStore ContainersStoreProps Effects Storage StorageSpec ImageStore ImageStoreInv ImageStoreProps ImageStoreBigData.

Open Scope Z_scope.

Section images.
Context {MI MG MB : Type} {cmp : cstr -> cstr -> Z} `{!KeyOrder cmp}.
Context {opsI : MapOps cstr N MI} `{!MapLaws cmp opsI}.
Context {opsG : MapOps cstr N MG} `{!MapLaws cmp opsG}.
Context {opsB : MapOps cstr bool MB} `{!MapLaws cmp opsB}.
Abbreviation image_store := (image_store MI MG).
Implicit Types (st : image_store).

(** The store with the environments of its calls. *)
Record image_world := ImageWorld { iw_store : image_store; iw_env : nat -> img_env; iw_calls : nat }.

Definition image_call {A} (m : img_env -> M image_store A) : M image_world A := fun iw =>
  match m (iw_env iw (iw_calls iw)) (iw_store iw) with
  | Some (a, st) => Some (a, ImageWorld st (iw_env iw) (S (iw_calls iw)))
  | None => None
  end.

#[export] Instance image_world_ops : ImageOps image_world := {
  img_exists k := image_call (fun E => image_store_exists E (Some k));
  img_lookup k := image_call (fun E => image_store_lookup E (Some k));
  img_get_summary k := image_call (fun E => image_store_get_image_summary E (Some k));
  img_get k := image_call (fun E => image_store_get_image E (Some k));
  img_get_all := image_call image_store_get_all_images;
  img_delete k := image_call (fun E => image_store_delete E (Some k));
  img_top_layer k := image_call (fun E => image_store_top_layer E (Some k));
  img_big_data_names k := image_call (fun E => image_store_big_data_names E (Some k));
  img_big_data_size k key := image_call (fun E => image_store_big_data_size E k key);
  img_set_size k z := image_call (fun E => image_store_set_image_size E (Some k) z);
  img_create k top md dg := image_call (fun E => image_store_create (opsB := opsB) E (Some k) [] top md dg)
}.

(** ** The images of a store *)
Definition summary_of (s : storage_image) : img_summary := ImgSummary (si_id s) (si_layer s) (si_size s).
Definition image_at st (p : N) : option img_summary := summary_of <$> sim st p.
Definition abs_images st : list img_summary := omap (image_at st) (images_list st).

(** Where a name, an id or a prefix leads to, when the search for prefixes is made. *)
Definition found st (k : cstr) : N :=
  match mo_abs (byid st) !! k with
  | Some p => p
  | None => match mo_abs (byname st) !! k with
            | Some p => p
            | None => default NULL (find_prefix k (mo_elements (byid st)) NULL)
            end
  end.
Definition find_image st (k : cstr) : option img_summary :=
  if decide (found st k = NULL) then None else image_at st (found st k).

Lemma image_found_listed own st k : is_inv own st -> found st k <> NULL -> found st k ∈ images_list st.
Proof.
  intros (Hr & Hn & Hx) Hd. unfold found in *.
  destruct (mo_abs (byid st) !! k) as [p|] eqn:Hid; [by apply (ix_id _ Hx) in Hid as [? _]|].
  destruct (mo_abs (byname st) !! k) as [p|] eqn:Hnm; [by apply (nx_name _ _ Hn) in Hnm as [? _]|].
  destruct (find_prefix _ _ _) as [p|] eqn:Hp; cbn in *; [|done]. apply find_prefix_elem in Hp as [->|[i Hi]]; [done|].
  apply elem_of_mo_elements in Hi; [|apply Hx]. by apply (ix_id _ Hx) in Hi as [? _].
Qed.
Lemma find_meaning E st k s : meaning E st k = Some s -> find_image st k = Some (summary_of s).
Proof.
  intros Hm. unfold meaning, resolve, find_image, found, image_at in *.
  destruct (mo_abs (byid st) !! k) as [p|]; cbn in Hm; [by destruct p; [|rewrite decide_False, Hm]|].
  destruct (mo_abs (byname st) !! k) as [p|]; cbn in Hm; [by destruct p; [|rewrite decide_False, Hm]|].
  destruct (ie_itor E); [|done]. by destruct (default NULL _) as [|p]; [|rewrite decide_False, Hm].
Qed.
Lemma elem_of_abs_images st s : s ∈ abs_images st <-> exists p, p ∈ images_list st /\ image_at st p = Some s.
Proof. unfold abs_images. by rewrite list_elem_of_omap. Qed.
Lemma find_image_elem own st k s : is_inv own st -> find_image st k = Some s -> s ∈ abs_images st.
Proof.
  intros Hi. unfold find_image. case_decide as Hd; [done|]. intros Hs. apply elem_of_abs_images. eauto using image_found_listed.
Qed.

Lemma same_images own st st' : is_inv own st -> same_content st st' -> abs_images st' = abs_images st.
Proof.
  intros Hi [S1 _ _ _ S5]. unfold abs_images. rewrite S1. apply omap_ext_elem. intros p Hp. unfold image_at. by rewrite S5.
Qed.
Lemma abs_refs own st st' : only_refs st st' -> is_inv own st -> is_inv [] st' ->
  abs_images st' = abs_images st /\ forall k, find_image st' k = find_image st k.
Proof.
  intros Ho Hi Hi'. pose proof (same_content_refs [] st st' Ho ltac:(apply Hi')) as Hsc. split; [by eapply same_images|].
  intros k. unfold find_image. assert (found st' k = found st k) as -> by (unfold found; by rewrite (or_byid _ _ Ho), (or_byname _ _ Ho)).
  case_decide as Hn; [done|]. unfold image_at. by rewrite (sc_sim _ _ Hsc) by (by eapply image_found_listed).
Qed.

Lemma abs_images_nodup own st : is_inv own st -> NoDup (im_id <$> abs_images st).
Proof.
  intros Hi. pose proof Hi as (Hr & _). unfold abs_images.
  assert (forall ps, NoDup ps -> (forall p, p ∈ ps -> p ∈ images_list st) -> NoDup (im_id <$> omap (image_at st) ps)) as H.
  { induction ps as [|p ps IH]; intros Hnd Hl; [constructor|]. apply NoDup_cons in Hnd as [Hp Hnd]. cbn.
    destruct (listed_sim own st p Hi) as [s Hs]; [apply Hl; by left|]. unfold image_at at 1. rewrite Hs. cbn. constructor.
    - intros (b & Hb & (q & Hq & Haq)%list_elem_of_omap)%list_elem_of_fmap.
      destruct (listed_sim own st q Hi) as [s' Hs']; [apply Hl; by right|]. unfold image_at in Haq. rewrite Hs' in Haq.
      injection Haq as <-. cbn in Hb. assert (q = p) as ->; [|done].
      eapply (inv_id_inj own st p q s); [done|apply Hl; by left|apply Hl; by right|done|]. by rewrite Hs', Hb.
    - apply IH; [done|]. intros q Hq. apply Hl. by right. }
  apply H; [apply Hr|done].
Qed.
Lemma abs_images_length own st : is_inv own st -> length (abs_images st) = length (images_list st).
Proof.
  intros Hi. unfold abs_images. assert (forall ps, (forall p, p ∈ ps -> p ∈ images_list st) -> length (omap (image_at st) ps) = length ps) as H.
  { induction ps as [|p ps IH]; intros Hl; [done|]. destruct (listed_sim own st p Hi) as [s Hs]; [apply Hl; by left|].
    cbn. unfold image_at at 1. rewrite Hs. cbn. f_equal. apply IH. intros q Hq. apply Hl. by right. }
  by apply H.
Qed.

(** ** Readers *)
Lemma reader_refs {A} E st k (fail : A) f :
  is_inv [] st -> wp (with_image E (Some k) fail f) (fun r st' => is_inv [] st' /\ only_refs st st' /\
    (r = fail \/ exists s, meaning E st k = Some s /\ r = f s)) st.
Proof.
  intros Hi. unfold with_image. destruct (ie_lock E); cbn [negb]; [|apply wp_mret; split_and!; [done|done|by left]].
  apply looked_up_spec; [done| |].
  { intros _. split_and!; [done|done|by left]. }
  intros p s st1 Hs _ _ _ _ Ho Hi1 Hs1. apply wp_mbind. eapply get_simage_spec; [done|]. apply wp_mret.
  split; [done|]. intros st3 Hi3 Ho3. split_and!; [done|by etransitivity|]. eauto.
Qed.

Lemma summaries_spec E st imgs (Q : list img_summary -> image_store -> Prop) :
  (forall s, ie_summary E s = true) -> (forall p, p ∈ imgs -> is_Some (sim st p)) -> Q (omap (image_at st) imgs) st ->
  wp (summaries E imgs) Q st.
Proof.
  intros HE. revert Q. induction imgs as [|p imgs IH]; intros Q Hl HQ; cbn; [by apply wp_mret|].
  destruct (Hl p) as [s Hs]; [by left|]. apply wp_mbind. eapply get_simage_spec; [done|].
  apply wp_mbind, IH; [intros q Hq; apply Hl; by right|]. apply wp_mret. unfold get_image_summary. rewrite HE.
  cbn in HQ. unfold image_at at 1 in HQ. by rewrite Hs in HQ.
Qed.

Definition images_fit st : Prop := Z.of_nat (length (images_list st)) < 2 ^ 64.

Lemma get_all_spec E st :
  is_inv [] st -> images_fit st -> (forall s, ie_summary E s = true) ->
  wp (image_store_get_all_images E) (fun r st' => st' = st /\ (r.1 = 0 -> r.2 = abs_images st)) st.
Proof.
  intros Hi Hf HE. unfold image_store_get_all_images. destruct (ie_lock E); cbn [negb]; [|by apply wp_mret].
  apply wp_mbind, wp_gets. destruct (Z.eqb_spec (images_list_len st) 0) as [Hz|Hz].
  { apply wp_mret. split; [done|]. intros _. destruct Hi as (Hr & _). rewrite (ro_len _ _ Hr) in Hz. unfold images_fit in Hf.
    unfold wrap_u in Hz. rewrite Z.mod_small in Hz by lia. unfold abs_images. by destruct (images_list st). }
  destruct (ie_list E); cbn [negb]; [|by apply wp_mret]. apply wp_mbind, wp_gets, wp_mbind, summaries_spec; [done| |by apply wp_mret].
  intros p Hp. by eapply listed_sim.
Qed.

(** ** Deleting and creating *)
Lemma delete_image_spec E st id s :
  is_inv [] st -> s ∈ abs_images st -> im_id s = id ->
  wp (image_store_delete E (Some id)) (fun z st' => is_inv [] st' /\
    (abs_images st' = filter (fun x => im_id x <> id) (abs_images st) /\ (length (images_list st') <= length (images_list st))%nat \/
     z <> 0 /\ st' = st)) st.
Proof.
  intros Hi Hs Hid. destruct (ie_lock E) eqn:Hlk.
  2: { unfold image_store_delete. rewrite Hlk. cbn. apply wp_mret. split; [done|]. by right. }
  eapply wp_conseq; [by apply (image_store_delete_spec E st id)|]. intros z st' [Hd Hi']. split; [done|]. left.
  apply elem_of_abs_images in Hs as (p & Hp & Hat). unfold image_at in Hat. destruct (sim st p) as [x|] eqn:Hx; [|done].
  injection Hat as <-. cbn in Hid. subst id. pose proof (inv_id _ _ _ _ Hi Hp Hx) as Hres.
  destruct (deleted_found E (si_id x) z st st' p Hd) as (_ & s' & Hs' & Hrm & _).
  { by apply resolve_id. } { eapply listed_not_null; [apply Hi|done]. }
  rewrite Hx in Hs'. injection Hs' as <-. split; [|rewrite (rm_list _ _ _ _ Hrm); apply length_filter].
  unfold abs_images. rewrite (rm_list _ _ _ _ Hrm). apply omap_filter_elem. intros q Hq.
  destruct (listed_sim [] st q Hi Hq) as [y Hy]. exists (summary_of y). unfold image_at. rewrite Hy. split; [done|]. cbn. split.
  - split; [|by intros Hne ->; rewrite Hx in Hy; injection Hy as <-]. intros Hne He. apply Hne.
    eapply (inv_id_inj [] st p q x); [done..|]. by rewrite Hy, <-He.
  - intros Hne. by rewrite (rm_sim _ _ _ _ Hrm), Hy.
Qed.

Lemma create_image_spec E st id top md dg :
  env_ok E -> is_inv [] st ->
  wp (image_store_create (opsB := opsB) E (Some id) [] top md dg) (fun r st' => is_inv [] st' /\
    (r = None /\ abs_images st' = abs_images st /\ images_list st' = images_list st \/
     r = Some id /\ abs_images st' = abs_images st ++ [ImgSummary id top 0] /\
       length (images_list st') = Datatypes.S (length (images_list st)))) st.
Proof.
  intros HE Hi. destruct (ie_lock E) eqn:Hlk.
  2: { unfold image_store_create. rewrite Hlk. cbn. apply wp_mret. split; [done|]. by left. }
  eapply wp_conseq; [apply (image_store_create_spec E HE st (Some id) []); [done|done|by intros n ?%not_elem_of_nil]|].
  intros r st' [Hi' Hc]. split; [done|]. destruct r as [i|]; cbn in Hc.
  - right. destruct Hc as ([[= ->]|[? _]] & Hno & p & s & Ha & Hsi & _ & Hsl & Hsz & _); [|done].
    split; [done|]. unfold abs_images. rewrite (ad_list _ _ _ _ Ha), omap_app, length_app. cbn.
    unfold image_at at 2. rewrite (ad_sim _ _ _ _ Ha), decide_True by done. cbn. unfold summary_of. rewrite Hsi, Hsl, Hsz.
    split; [|lia]. f_equal. apply omap_ext_elem. intros q Hq. unfold image_at. rewrite (ad_sim _ _ _ _ Ha), decide_False; [done|].
    intros ->. destruct (listed_sim [] st p Hi Hq) as [s' Hs'].
    pose proof (ad_list _ _ _ _ Ha) as El. destruct Hi' as (Hr & _). pose proof (ro_nodup _ _ Hr) as Hnd.
    rewrite El in Hnd. apply NoDup_app in Hnd as (_ & Hd & _). by apply (Hd p Hq), list_elem_of_singleton.
  - left. destruct Hc as [Hsc _]. split_and!; [done|by eapply same_images|apply Hsc].
Qed.

(** ** The instance *)
Lemma wp_image_call {A} (m : img_env -> M image_store A) (Q : A -> image_world -> Prop) iw :
  wp (m (iw_env iw (iw_calls iw))) (fun a st => Q a (ImageWorld st (iw_env iw) (S (iw_calls iw)))) (iw_store iw) ->
  wp (image_call m) Q iw.
Proof. intros (a & st & Hm & HQ). unfold image_call. eexists _, _. by rewrite Hm. Qed.

Definition image_env_ok (E : img_env) : Prop := env_ok E /\ forall s, ie_summary E s = true.
Definition images_good (iw : image_world) : Prop :=
  is_inv [] (iw_store iw) /\ images_fit (iw_store iw) /\ forall n, image_env_ok (iw_env iw n).

Lemma read_world {A} (iw : image_world) k (fail : A) f (Q : A -> image_world -> Prop) :
  images_good iw ->
  (forall r iw', images_good iw' -> abs_images (iw_store iw') = abs_images (iw_store iw) ->
     (forall k', find_image (iw_store iw') k' = find_image (iw_store iw) k') ->
     (r = fail \/ exists s, find_image (iw_store iw) k = Some (summary_of s) /\ r = f (iw_env iw (iw_calls iw)) s) -> Q r iw') ->
  wp (image_call (fun E => with_image E (Some k) fail (f E))) Q iw.
Proof.
  intros (Hi & Hf & HE) HQ. apply wp_image_call. eapply wp_conseq; [by apply reader_refs|]. intros r st' (Hi' & Ho & Hr).
  destruct (abs_refs [] (iw_store iw) st' Ho Hi Hi') as [Ha Hk]. apply HQ; [|done..|].
  - split_and!; [done| |done]. unfold images_fit. cbn. by rewrite (or_list _ _ Ho).
  - destruct Hr as [->|(s & Hs & ->)]; [by left|right]. exists s. split; [by eapply find_meaning|done].
Qed.

#[export] Program Instance image_world_laws : ImageLaws image_world := {
  ig := images_good;
  iabs iw := abs_images (iw_store iw);
  ifind iw := find_image (iw_store iw)
}.
Next Obligation. intros iw k s (Hi & _). by eapply find_image_elem. Qed.
Next Obligation. intros iw (Hi & _). by eapply abs_images_nodup. Qed.
Next Obligation. intros iw k G. by apply (read_world iw k false (fun _ _ => true)). Qed.
Next Obligation.
  intros iw k G. apply (read_world iw k None (fun _ s => Some (si_id s))); [done|]. intros r iw' G' Ha Hk Hr.
  split; [done|]. destruct Hr as [->|(s & Hs & ->)]; [by left|right]. by exists (summary_of s).
Qed.
Next Obligation.
  intros iw k G. apply (read_world iw k None get_image_summary); [done|]. intros r iw' G' Ha Hk Hr.
  split; [done|]. destruct Hr as [->|(s & Hs & ->)]; [by left|right]. exists (summary_of s). split; [done|].
  unfold get_image_summary. destruct G as (_ & _ & HE). by rewrite (proj2 (HE _)).
Qed.
Next Obligation.
  intros iw (Hi & Hf & HE). apply wp_image_call. eapply wp_conseq; [apply get_all_spec; [done|done|apply HE]|].
  intros r st' [-> Hr]. done.
Qed.
Next Obligation.
  intros iw id s (Hi & Hf & HE) Hs Hid. apply wp_image_call. eapply wp_conseq; [by eapply delete_image_spec|].
  intros z st' [Hi' [[Ha Hl]|[Hz ->]]]; (split; [split_and!; [done| |done]|]); cbn; eauto. unfold images_fit in *. lia.
Qed.
Next Obligation.
  intros iw id top md dg (Hi & Hf & HE) _ Hl. rewrite (abs_images_length [] _ Hi) in Hl. apply wp_image_call.
  eapply wp_conseq; [apply create_image_spec; [apply HE|done]|]. unfold images_good, images_fit in *.
  intros r st' (Hi' & [(-> & Ha & El)|(-> & Ha & El)]); (split; [split_and!; [done| |done]|]); cbn; rewrite ?El; eauto. lia.
Qed.
End images.
