(* ===== verification/StorageRootfs.v ===== *)
(** The store of root file systems keeps the promises the storage module relies on. *)
From S2P Require Import Prelude Heap RbSearch KeyOrders MapC MapIface RestartManager ContainersStore ContainersStoreProps Effects ImageStore ImageStoreInv RootfsStore RootfsStoreInv RootfsStoreProps RootfsStoreRead Storage StorageSpec.

Open Scope Z_scope.

Section rootfs.
Context {MI MB : Type} {cmp : cstr -> cstr -> Z} `{!KeyOrder cmp}.
Context {opsI : MapOps cstr N MI} `{!MapLaws cmp opsI}.
Context {opsB : MapOps cstr bool MB} `{!MapLaws cmp opsB}.
Abbreviation rootfs_store := (rootfs_store MI).
Implicit Types (st : rootfs_store).

(** What the storage module reads of a description. *)
Definition view_rootfs (s : storage_rootfs) : rootfs_info := Rootfs (sr_id s) (sr_image s) (sr_layer s).

(** The store with the environments of its calls. *)
Record rootfs_world := RootfsWorld { rw_store : rootfs_store; rw_env : nat -> rootfs_env; rw_calls : nat }.
Definition rootfs_op {A} (m : rootfs_env -> M rootfs_store A) : M rootfs_world A := fun rw =>
  match m (rw_env rw (rw_calls rw)) (rw_store rw) with
  | Some (a, st) => Some (a, RootfsWorld st (rw_env rw) (S (rw_calls rw)))
  | None => None
  end.
#[export] Instance rootfs_world_ops : RootfsOps rootfs_world := {
  rfs_exists k := rootfs_op (fun E => rootfs_store_exists E (Some k));
  rfs_get k := rootfs_op (fun E => r ← rootfs_store_get_rootfs E (Some k); mret (view_rootfs <$> r));
  rfs_get_all := rootfs_op (fun E => r ← rootfs_store_get_all_rootfs E; mret (r.1, view_rootfs <$> r.2));
  rfs_create k image layer := rootfs_op (fun E => rootfs_store_create (opsB := opsB) E (Some k) [] image layer None None);
  rfs_delete k := rootfs_op (fun E => rootfs_store_delete E (Some k))
}.

(** ** The root file systems of a store *)
Definition rootfs_at st (p : N) : option rootfs_info := view_rootfs <$> rsim st p.
Definition abs_rootfs st : list rootfs_info := omap (rootfs_at st) (rootfs_list st).
(** Where an identifier leads to, when the search for prefixes is made. *)
Definition rfound st (k : cstr) : N :=
  match rfinds ById st k with
  | Some p => p
  | None => match rfinds ByLayer st k with
            | Some p => p
            | None => default NULL (find_prefix k (mo_elements (rs_byid st)) NULL)
            end
  end.
Definition find_rootfs st (k : cstr) : option rootfs_info :=
  if decide (rfound st k = NULL) then None else rootfs_at st (rfound st k).

Lemma rfound_resolve E st k : re_itor E = true -> rresolve E st k = rfound st k.
Proof. intros HE. unfold rresolve, rfound. by rewrite HE. Qed.

Lemma elem_of_abs_rootfs st x : x ∈ abs_rootfs st <-> exists p, p ∈ rootfs_list st /\ rootfs_at st p = Some x.
Proof. unfold abs_rootfs. by rewrite list_elem_of_omap. Qed.
Lemma same_rootfs st st' : rsame_content st st' -> abs_rootfs st' = abs_rootfs st.
Proof. intros [S1 _ S3 _ _]. unfold abs_rootfs. rewrite S1. apply omap_ext_elem. intros p Hp. unfold rootfs_at. by rewrite S3. Qed.
Lemma abs_rootfs_sims own st : rinv own st -> abs_rootfs st = view_rootfs <$> omap (rsim st) (rootfs_list st).
Proof. intros _. unfold abs_rootfs. by apply omap_fmap_elem. Qed.
Lemma abs_rootfs_length own st : rinv own st -> length (abs_rootfs st) = length (rootfs_list st).
Proof.
  intros Hi. unfold abs_rootfs. assert (forall ps, (forall p, p ∈ ps -> p ∈ rootfs_list st) -> length (omap (rootfs_at st) ps) = length ps) as H.
  { induction ps as [|p ps IH]; intros Hl; [done|]. destruct (rlisted own st p Hi) as [s Hs]; [apply Hl; by left|].
    cbn. unfold rootfs_at at 1. rewrite Hs. cbn. f_equal. apply IH. intros q Hq. apply Hl. by right. }
  by apply H.
Qed.
Lemma id_key own st p q s s' :
  rinv own st -> p ∈ rootfs_list st -> q ∈ rootfs_list st -> rsim st p = Some s -> rsim st q = Some s' -> sr_id s = sr_id s' -> q = p.
Proof.
  intros Hi Hp Hq Hs Hs' He. eapply (rkey_inj own st ById p q s s' (sr_id s)); try done; cbn; apply list_elem_of_singleton; congruence.
Qed.
Lemma abs_rootfs_nodup own st : rinv own st -> NoDup (rf_id <$> abs_rootfs st).
Proof.
  intros Hi. pose proof Hi as (Hr & _). unfold abs_rootfs.
  assert (forall ps, NoDup ps -> (forall p, p ∈ ps -> p ∈ rootfs_list st) -> NoDup (rf_id <$> omap (rootfs_at st) ps)) as H.
  { induction ps as [|p ps IH]; intros Hnd Hl; [constructor|]. apply NoDup_cons in Hnd as [Hp Hnd]. cbn.
    destruct (rlisted own st p Hi) as [s Hs]; [apply Hl; by left|]. unfold rootfs_at at 1. rewrite Hs. cbn. constructor.
    - intros (b & Hb & (q & Hq & Haq)%list_elem_of_omap)%list_elem_of_fmap.
      destruct (rlisted own st q Hi) as [s' Hs']; [apply Hl; by right|]. unfold rootfs_at in Haq. rewrite Hs' in Haq.
      injection Haq as <-. cbn in Hb. assert (q = p) as ->; [|done].
      eapply (id_key own st p q s s'); try done; apply Hl; [by left|by right].
    - apply IH; [done|]. intros q Hq. apply Hl. by right. }
  apply H; [apply Hr|done].
Qed.
Lemma rfound_listed own st k : rinv own st -> rfound st k <> NULL -> rfound st k ∈ rootfs_list st.
Proof.
  intros (Hr & Hx) Hnn. unfold rfound in *.
  destruct (rfinds ById st k) as [p|] eqn:H1; [by apply (rx_key _ Hx) in H1 as [? _]|].
  destruct (rfinds ByLayer st k) as [p|] eqn:H2; [by apply (rx_key _ Hx) in H2 as [? _]|].
  destruct (find_prefix _ _ _) as [p|] eqn:Hp; cbn in *; [|done].
  apply find_prefix_elem in Hp as [->|[i Hi]]; [done|].
  apply elem_of_mo_elements in Hi; [|apply (rx_wf _ Hx ById)]. by apply (rx_key _ Hx ById) in Hi as [? _].
Qed.
Lemma find_rootfs_elem own st k x : rinv own st -> find_rootfs st k = Some x -> x ∈ abs_rootfs st.
Proof.
  intros Hi. unfold find_rootfs. case_decide as Hd; [done|]. intros Hx. apply elem_of_abs_rootfs. eauto using rfound_listed.
Qed.
Lemma abs_rootfs_refs own st st' : ronly st st' -> rinv own st -> rinv [] st' ->
  abs_rootfs st' = abs_rootfs st /\ forall k, find_rootfs st' k = find_rootfs st k.
Proof.
  intros Ho Hi Hi'. pose proof (rsame_refs [] st st' Ho ltac:(apply Hi')) as Hsc. split; [by apply same_rootfs|].
  intros k. unfold find_rootfs. assert (rfound st' k = rfound st k) as ->.
  { unfold rfound. rewrite !(rfinds_only _ _ _ _ Ho). change (rs_byid st') with (ridx ById st'). by rewrite (ro_ridx _ _ Ho). }
  case_decide as Hn; [done|]. unfold rootfs_at. by rewrite (rs_ssim _ _ Hsc) by (by eapply rfound_listed).
Qed.

(** ** Deleting and creating *)
Lemma delete_rootfs_view E st k x :
  rinv [] st -> rs_lock st = 0 -> re_itor E = true -> find_rootfs st k = Some x ->
  wp (rootfs_store_delete E (Some k)) (fun z st' => rinv [] st' /\ rs_lock st' = 0 /\
    (abs_rootfs st' = filter (fun y => rf_id y <> rf_id x) (abs_rootfs st) /\ (length (rootfs_list st') <= length (rootfs_list st))%nat \/
     z <> 0 /\ st' = st)) st.
Proof.
  intros Hi Hl HE Hf. eapply wp_conseq; [by apply rootfs_store_delete_spec|]. intros z st' (Hi' & Hl' & Hd). split_and!; [done..|].
  destruct (re_lock E); [left|right; by destruct Hd as [-> ?]].
  unfold find_rootfs in Hf. case_decide as Hn; [done|]. unfold rootfs_at in Hf. destruct (rsim st (rfound st k)) as [s|] eqn:Hs; [|done].
  injection Hf as <-. apply (rdeleted_found _ _ _ _ _ _ (rfound st k)) in Hd as (Hp & s' & Hs' & Hrm & _); [|by apply rfound_resolve|done].
  rewrite Hs in Hs'. injection Hs' as <-. split; [|rewrite (rv_list _ _ _ _ Hrm); apply length_filter].
  unfold abs_rootfs. rewrite (rv_list _ _ _ _ Hrm). apply omap_filter_elem. intros q Hq.
  destruct (rlisted [] st q Hi Hq) as [y Hy]. exists (view_rootfs y). unfold rootfs_at. rewrite Hy. split; [done|]. cbn. split.
  - split; [|by intros Hne ->; rewrite Hs in Hy; injection Hy as <-]. intros Hne He. apply Hne. by eapply (id_key [] st _ q s y).
  - intros Hne. by rewrite (rv_sim _ _ _ _ Hrm), Hy.
Qed.

Lemma create_rootfs_view E st id image layer :
  rootfs_env_ok E -> rinv [] st -> rs_lock st = 0 -> (forall x, x ∈ abs_rootfs st -> rf_layer x <> layer) ->
  wp (rootfs_store_create (opsB := opsB) E (Some id) [] image layer None None) (fun r st' => rinv [] st' /\ rs_lock st' = 0 /\
    (r = None /\ abs_rootfs st' = abs_rootfs st /\ rootfs_list st' = rootfs_list st \/
     r = Some id /\ abs_rootfs st' = abs_rootfs st ++ [Rootfs id image layer] /\
       length (rootfs_list st') = S (length (rootfs_list st)))) st.
Proof.
  intros HE Hi Hl Hly. pose proof Hi as (_ & Hx).
  eapply wp_conseq; [apply rootfs_store_create_spec; [done|done|done|by intros n ?%not_elem_of_nil| |done]|].
  { destruct (rfinds ByLayer st layer) as [q|] eqn:Hq; [|done]. apply (rx_key _ Hx) in Hq as [Hq (s & Hs & ->%list_elem_of_singleton)].
    exfalso. apply (Hly (view_rootfs s)); [|done]. apply elem_of_abs_rootfs. exists q. unfold rootfs_at. by rewrite Hs. }
  intros r st' (Hi' & Hl' & Hc). split_and!; [done..|]. destruct (re_lock E); [|left; by destruct Hc as [-> ->]].
  destruct r as [i|]; cbn in Hc.
  - right. destruct Hc as (Hii & Hno & p & s & Ha & Hsi & Hsm & Hsl & _). specialize (Hii id eq_refl). subst i. split; [done|].
    unfold abs_rootfs. rewrite (rd_list _ _ _ _ Ha), omap_app, length_app. cbn. unfold rootfs_at at 2.
    rewrite (rd_sim _ _ _ _ Ha), decide_True by done. cbn. unfold view_rootfs at 1. rewrite Hsi, Hsm, Hsl. split; [|lia]. f_equal.
    apply omap_ext_elem. intros q Hq. unfold rootfs_at. rewrite (rd_sim _ _ _ _ Ha), decide_False; [done|]. intros ->.
    destruct Hi' as (Hr & _). pose proof (rr_nodup _ _ Hr) as Hnd. rewrite (rd_list _ _ _ _ Ha) in Hnd.
    apply NoDup_app in Hnd as (_ & Hd & _). by apply (Hd p Hq), list_elem_of_singleton.
  - left. destruct Hc as [Hsc _]. split_and!; [done|by apply same_rootfs|apply Hsc].
Qed.

(** ** The instance *)
Definition rootfs_world_env_ok (E : rootfs_env) : Prop := rootfs_env_ok E /\ re_itor E = true.
Definition rootfs_good (rw : rootfs_world) : Prop :=
  rinv [] (rw_store rw) /\ rs_lock (rw_store rw) = 0 /\ rootfs_fit (rw_store rw) /\ forall n, rootfs_world_env_ok (rw_env rw n).

Lemma wp_rootfs_op {A} (m : rootfs_env -> M rootfs_store A) (Q : A -> rootfs_world -> Prop) rw :
  wp (m (rw_env rw (rw_calls rw))) (fun a st => Q a (RootfsWorld st (rw_env rw) (S (rw_calls rw)))) (rw_store rw) ->
  wp (rootfs_op m) Q rw.
Proof. intros (a & st & Hm & HQ). unfold rootfs_op. eexists _, _. by rewrite Hm. Qed.

(** A reader of the store. *)
Lemma read_rootfs {A} (rw : rootfs_world) k (fail : A) f r st' n :
  rootfs_good rw -> rread (rw_env rw n) (rw_store rw) k fail f r st' ->
  rootfs_good (RootfsWorld st' (rw_env rw) (S (rw_calls rw))) /\ abs_rootfs st' = abs_rootfs (rw_store rw) /\
  (forall k', find_rootfs st' k' = find_rootfs (rw_store rw) k') /\
  (r = fail \/ exists s, find_rootfs (rw_store rw) k = Some (view_rootfs s) /\ r = f s).
Proof.
  intros (Hi & Hl & Hf & HE) (Hi' & Hl' & Ho & Hr). destruct (abs_rootfs_refs [] (rw_store rw) st' Ho Hi Hi') as [Ha Hk].
  split_and!; [|done..|].
  - split_and!; [done|done| |done]. unfold rootfs_fit. cbn. by rewrite (ro_rlist _ _ Ho).
  - destruct Hr as [->|(s & Hn & Hs & ->)]; [by left|right]. exists s. split; [|done].
    rewrite rfound_resolve in Hn, Hs by apply HE. unfold find_rootfs. rewrite decide_False by done. unfold rootfs_at. by rewrite Hs.
Qed.

#[export] Program Instance rootfs_world_laws : RootfsLaws rootfs_world := {
  rg := rootfs_good;
  rabs rw := abs_rootfs (rw_store rw);
  rfind rw := find_rootfs (rw_store rw)
}.
Next Obligation. intros rw k x (Hi & _). by eapply find_rootfs_elem. Qed.
Next Obligation. intros rw (Hi & _). by eapply abs_rootfs_nodup. Qed.
Next Obligation.
  intros rw k G. apply wp_rootfs_op. eapply wp_conseq; [apply rootfs_exists_spec; apply G|]. intros r st' Hr.
  apply read_rootfs in Hr as (G' & Ha & Hk & _); done.
Qed.
Next Obligation.
  intros rw k G. apply wp_rootfs_op, wp_mbind. eapply wp_conseq; [apply rootfs_get_spec; apply G|]. intros r st' Hr.
  apply read_rootfs in Hr as (G' & Ha & Hk & Hr); [|done]. apply wp_mret. split; [done|].
  destruct Hr as [->|(s & Hs & ->)]; [by left|]. destruct (re_copy _ s); [right|by left]. by exists (view_rootfs s).
Qed.
Next Obligation.
  intros rw G. pose proof G as (Hi & Hl & Hf & HE). apply wp_rootfs_op, wp_mbind. eapply wp_conseq; [by apply rootfs_get_all_spec|].
  intros r st' [-> Hr]. apply wp_mret. split; [done|]. cbn. intros Hz. by rewrite Hr, (abs_rootfs_sims []).
Qed.
Next Obligation.
  intros rw id image layer (Hi & Hl & Hf & HE) Hx Hn. rewrite (abs_rootfs_length [] _ Hi) in Hn. apply wp_rootfs_op.
  eapply wp_conseq; [apply create_rootfs_view; [apply HE|done|done|by intros x [_ ?]%Hx]|]. unfold rootfs_good, rootfs_fit in *.
  intros r st' (Hi' & Hl' & [(-> & Ha & El)|(-> & Ha & El)]); (split; [split_and!; [done|done| |done]|]); cbn; rewrite ?El; eauto. lia.
Qed.
Next Obligation.
  intros rw k x (Hi & Hl & Hf & HE) Hx. apply wp_rootfs_op. eapply wp_conseq; [apply delete_rootfs_view; [done|done|apply HE|done]|].
  unfold rootfs_good, rootfs_fit in *.
  intros z st' (Hi' & Hl' & [[Ha Hle]|[Hz ->]]); (split; [split_and!; [done|done| |done]|]); cbn; eauto. lia.
Qed.
End rootfs.
