(* ===== verification/StorageRun.v ===== *)
(** What the storage module promises, for any stores that keep their promises, and the stores
    of images, layers and root file systems put together. *)
From S2P Require Import Prelude Heap RbSearch KeyOrders MapC MapIface RestartManager Effects ImageStore ImageStoreInv ImageStoreProps ImageStoreRun LayerStore LayerStoreInv LayerStoreSpec LayerStoreCalls LayerStoreProps LayerStoreRun RootfsStore RootfsStoreInv RootfsStoreProps RootfsStoreRun Storage StorageSpec StorageProps StorageSession StorageStores StorageImages StorageRootfs.

Open Scope Z_scope.

Section storage.
Context {I L R : Type} `{!ImageOps I} `{!ImageLaws I} `{!LayerOps L} `{!LayerLaws L} `{!RootfsOps R} `{!RootfsLaws R}.
Abbreviation W := (storage I L R).
Implicit Types (w : W) (k : Z).

(** C5: A sequence of fewer than 2^31 calls of the storage module from new stores returns and
    leaves nothing dangling: every parent of a layer is there, every image has its top layer,
    every container has its image, and the layer of a container is neither the parent of a
    layer nor the top layer of an image.  (That the layer of a container is there is not part
    of it: a failed [storage_rootfs_create] can leave the entry of a container whose layer it
    has deleted, storage.c:1118.)
    The callers must see to what storage.c does not check ([storage_calls_fit]): the top layer
    of a new image and the parent of a new layer exist and are no container's, a chain that is
    deleted is no container's, and the ids of new images, layers and containers do not clash;
    [image_without_layer] shows what happens otherwise.  It holds for all stores that keep
    the promises of their interfaces, and whatever they and the environment answer. *)
Theorem storage_session cs k w :
  good k w -> k + Z.of_nat (length cs) < 2 ^ 31 -> consistent (iabs (st_images w)) (labs (st_layers w)) (rabs (st_rootfs w)) ->
  storage_calls_fit cs w = true ->
  exists w', run_storage_calls cs w = Some (tt, w') /\
    consistent (iabs (st_images w')) (labs (st_layers w')) (rabs (st_rootfs w')).
Proof. intros G Hk C Hf. destruct (run_storage_calls_kept cs k w G Hk C Hf) as ([] & w' & Hr & _ & C'). eauto. Qed.

(** C21: Deleting an image never touches the containers, never deletes a layer that is held, and
    leaves nothing dangling.  Either nothing changes, or the image that the name leads to is
    gone and was used by no container; when 0 is returned after that, its chain of layers is
    gone completely, provided that nothing else refers to the chain and nobody holds it. *)
Theorem storage_img_delete_safe E k w id :
  good k w -> consistent (iabs (st_images w)) (labs (st_layers w)) (rabs (st_rootfs w)) -> se_lock E = true ->
  exists z w', storage_img_delete E (Some id) w = Some (z, w') /\
    rabs (st_rootfs w') = rabs (st_rootfs w) /\
    consistent (iabs (st_images w')) (labs (st_layers w')) (rabs (st_rootfs w')) /\
    (exists D : list cstr, labs (st_layers w') = filter (fun a => a_id a ∉ D) (labs (st_layers w)) /\
       forall a, a ∈ labs (st_layers w) -> a_id a ∈ D -> a_hold a <= 0) /\
    (iabs (st_images w') = iabs (st_images w) /\ labs (st_layers w') = labs (st_layers w) \/
     exists s, ifind (st_images w) id = Some s /\
       iabs (st_images w') = filter (fun x => im_id x <> im_id s) (iabs (st_images w)) /\
       (forall r, r ∈ rabs (st_rootfs w) -> rf_image r <> im_id s) /\
       (z = 0 -> exists t, im_top_layer s = Some t /\ forall l,
          exclusive (iabs (st_images w')) (labs (st_layers w)) None t l ->
          forall x, x ∈ t :: l -> x ∉ a_id <$> labs (st_layers w'))).
Proof.
  intros G C Hlk. destruct (do_img_delete_spec E k w id G C) as (z & w' & Hr & _ & C' & HR & _ & HD & Hc).
  exists z, w'. split; [unfold storage_img_delete; by rewrite Hlk|]. done.
Qed.
End storage.

(** ** The stores put together *)
#[local] Abbreviation st_cmp := (cstr_cmp uchar_value).
#[local] Instance st_opsN : MapOps cstr N (gmap cstr N) := gmap_MapOps st_cmp.
#[local] Instance st_opsB : MapOps cstr bool (gmap cstr bool) := gmap_MapOps st_cmp.
#[local] Abbreviation st_map := (gmap cstr N).
#[local] Abbreviation st_world := (storage (image_world (MI := st_map) (MG := st_map)) (layer_world (MI := st_map) (MG := st_map)) (rootfs_world (MI := st_map))).
#[local] Existing Instance image_world_ops.
#[local] Instance st_image_ops : ImageOps (image_world (MI := st_map) (MG := st_map)) := image_world_ops (opsB := st_opsB).
#[local] Instance st_rootfs_ops : RootfsOps (rootfs_world (MI := st_map)) := rootfs_world_ops (opsB := st_opsB).
#[local] Instance st_image_laws : ImageLaws (image_world (MI := st_map) (MG := st_map)) := image_world_laws (cmp := st_cmp).
#[local] Instance st_layer_laws : LayerLaws (layer_world (MI := st_map) (MG := st_map)) := layer_world_laws (cmp := st_cmp).
#[local] Instance st_rootfs_laws : RootfsLaws (rootfs_world (MI := st_map)) := rootfs_world_laws (cmp := st_cmp).

Definition storage_demo_env : storage_env :=
  StorageEnv true true true true (fun n => n) (fun _ => true) true true true (fun _ => true) true.
Definition storage_empty : st_world :=
  Storage (ImageWorld demo_empty (fun _ => demo_env) 0) (LayerWorld lay_empty (fun _ => lay_demo_env) 0)
    (RootfsWorld rootfs_empty (fun _ => rootfs_demo_env) 0) [].

Lemma storage_empty_good : good 0 storage_empty.
Proof.
  split_and!; cbn.
  - split_and!; [apply demo_empty_inv|done|]. intros n. split; [apply demo_env_ok|done].
  - destruct lay_empty_inv as [H1 H2]. split_and!; [done..|]. intros n. apply lay_demo_env_ok.
  - split_and!; [apply rootfs_empty_inv|done..|]. intros n. split; [apply rootfs_demo_env_ok|done].
Qed.
Lemma storage_empty_consistent : consistent_at storage_empty.
Proof. split; cbn; intros *; try by intros ?%not_elem_of_nil. Qed.

Definition base_opts (parent : option string) : option create_opts :=
  Some (CreateOpts (c_str <$> parent) (Some (c_str "sha256:1")) None true false).
Definition storage_demo_calls : list (storage_env * st_call) := pair storage_demo_env <$>
  [SLayerCreate (c_str "l1") (base_opts None); SLayerCreate (c_str "l2") (base_opts (Some "l1"%string));
   SImgCreate (Some (c_str "a1")) (Some (c_str "l2")) None None; SRootfsCreate (Some (c_str "c1")) (Some (c_str "a1")) None;
   SRootfsMount (Some (c_str "c1")); SImgDelete (Some (c_str "a1")); SRootfsUmount (Some (c_str "c1")) false;
   SRootfsDelete (Some (c_str "c1")); SDecHold (c_str "l1"); SDecHold (c_str "l2")].

Lemma storage_session_witness : exists w', run_storage_calls storage_demo_calls storage_empty = Some (tt, w') /\
  consistent (iabs (st_images w')) (labs (st_layers w')) (rabs (st_rootfs w')).
Proof.
  apply (storage_session storage_demo_calls 0 storage_empty storage_empty_good); [cbn; lia|exact storage_empty_consistent|].
  vm_compute. reflexivity.
Defined.

Lemma storage_img_delete_safe_witness : exists (w : st_world) z w',
  storage_img_delete storage_demo_env (Some (c_str "a1")) w = Some (z, w') /\ rabs (st_rootfs w') = rabs (st_rootfs w).
Proof.
  destruct (run_storage_calls_kept storage_demo_calls 0 storage_empty storage_empty_good) as ([] & w & Hr & (k & G) & C);
    [cbn; lia|exact storage_empty_consistent|vm_compute; reflexivity|].
  destruct (storage_img_delete_safe storage_demo_env k w (c_str "a1") G C eq_refl) as (z & w' & Hd & HR & _).
  exists w, z, w'. auto.
Defined.

(** What a sequence leaves, as ids. *)
Definition observe {A} (m : M st_world A) : option (A * list cstr * list cstr * list cstr) :=
  '(a, w) ← m storage_empty; Some (a, im_id <$> iabs (st_images w), a_id <$> labs (st_layers w), rf_id <$> rabs (st_rootfs w)).

(** An image in use stays; when its container is gone and its layers are not held any more,
    the image goes with all its layers. *)
Example image_in_use_stays :
  observe (run_storage_calls (take 6 storage_demo_calls);; storage_img_delete storage_demo_env (Some (c_str "a1"))) =
    Some (-1, [c_str "a1"], [c_str "l1"; c_str "l2"; c_str "c1"], [c_str "c1"]) /\
  observe (run_storage_calls storage_demo_calls;; storage_img_delete storage_demo_env (Some (c_str "a1"))) = Some (0, [], [], []).
Proof. split; vm_compute; reflexivity. Qed.

(** The size of an image is one less than that of its layers: two layers of seven bytes each. *)
Example image_size_one_short :
  fst ∘ fst ∘ fst <$> observe (run_storage_calls (take 3 storage_demo_calls);;
    storage_img_cal_image_size 10 (c_str "a1")) = Some 13.
Proof. vm_compute. reflexivity. Qed.

(** [storage_img_create] does not look whether the top layer of the new image is there. *)
Example image_without_layer :
  observe (storage_img_create storage_demo_env (Some (c_str "a1")) (Some (c_str "nosuch")) None None;; mret tt) =
    Some (tt, [c_str "a1"], [], []).
Proof. vm_compute. reflexivity. Qed.
