(* ===== verification/Deviceset.v ===== *)
(** The devices of the devicemapper driver:
    src/src/daemon/modules/image/oci/storage/layer_store/graphdriver/devmapper/deviceset.c
    with the store of metadata_store.c.

    Every layer is a thin device of a pool that the kernel keeps.  The metadata of a device is
    in memory and in a file; an operation announces what it is going to do in the transaction
    file, works on the pool and on the files, and then moves the transaction id of the pool
    on.  [dw_disk] is what survives the loss of power, the pool included, and [dw_hist] all
    that it has been: power may be lost at any of these points.

    The pool is a parameter ([PoolOps]); so are the outcomes of writing, removing and reading
    files and of the calls on activated devices, as streams read by the number of the call.
    The objects of the store are counted references to one description per hash, which is
    what the map [dw_store] holds; the counting is left out.  Making the names of files and of
    devices, and the entries of the map of ids, does not fail here; locks are taken by one
    thread.  [None] is undefined behaviour. *)
From S2P Require Import Prelude StrUtils KeyOrders Effects RootfsStore.

Open Scope Z_scope.

(** [image_devmapper_device_info] *)
Record device_info := DevInfo {
  di_hash : cstr;
  di_id : Z;
  di_size : Z;
  di_tid : Z;
  di_initialized : bool;
  di_deleted : bool
}.
Definition put_di_deleted b i := DevInfo (di_hash i) (di_id i) (di_size i) (di_tid i) (di_initialized i) b.
Definition put_di_initialized b i := DevInfo (di_hash i) (di_id i) (di_size i) (di_tid i) b (di_deleted i).
Definition put_di_size z i := DevInfo (di_hash i) (di_id i) z (di_tid i) (di_initialized i) (di_deleted i).
Definition put_di_hash h i := DevInfo h (di_id i) (di_size i) (di_tid i) (di_initialized i) (di_deleted i).

(** [image_devmapper_transaction] *)
Record transaction := Trans { tr_open : Z; tr_hash : cstr; tr_id : Z }.
(** [image_devmapper_deviceset_metadata] *)
Record ds_metadata := DsMeta { dm_next : Z; dm_uuid : option cstr; dm_fs : option cstr }.

Definition MAX_DEVICE_ID : Z := 0xffffff.
Definition ERR_BUSY : Z := 24.
Definition ERR_DEVICE_ID_EXISTS : Z := 25.
Definition ERR_ENXIO : Z := 26.
Definition BASE : cstr := c_str "base".

(** What the pool reports of itself. *)
Record pool_report := PoolReport { pr_tid : Z; pr_meta_used : Z; pr_meta_total : Z; pr_data_used : Z; pr_data_total : Z }.
(** The messages of a thin pool: the results are 0 or an error. *)
Class PoolOps (P : Type) := {
  pool_get_status : P -> option pool_report;
  dev_create_device : Z -> P -> Z * P;
  dev_create_snap_device_raw : Z -> Z -> P -> Z * P;       (** the new device, the base *)
  dev_delete_device : Z -> P -> Z * P;
  dev_set_transaction_id : Z -> Z -> P -> Z * P            (** the old id, the new one *)
}.

(** What survives the loss of power. *)
Record disk (P : Type) := Disk {
  dk_files : gmap cstr device_info;
  dk_trans : option transaction;
  dk_meta : option ds_metadata;
  dk_pool : P
}.
Arguments Disk {P}.
Arguments dk_files {P}.
Arguments dk_trans {P}.
Arguments dk_meta {P}.
Arguments dk_pool {P}.

(** [struct dm_info] of a device *)
Record dm_info := DmInfo { dmi_exists : bool; dmi_deferred : bool }.

(** The answers of the environment, by the number of the question, and the configuration. *)
Record dev_env := DevEnv {
  de_write : nat -> bool;                    (** writing a file *)
  de_remove : nat -> bool;                   (** removing a file *)
  de_parse : nat -> bool;                    (** reading a file *)
  de_alloc : nat -> bool;
  de_map : nat -> bool;                      (** an entry of the store *)
  de_info : nat -> option dm_info;
  de_dm : nat -> Z;                          (** a call on an activated device *)
  de_shell : nat -> bool;                    (** mkfs, mounting, growing *)
  de_uuid : nat -> option cstr;
  de_readdir : gset cstr -> list cstr;       (** the order of the directory *)
  de_lock : bool;
  base_fs_size : Z;
  user_base_size : bool;
  min_free_space_percent : Z;
  thin_pool_device : option cstr;
  de_pool : bool;                            (** the pool exists *)
  de_prepared : bool                         (** udev, the directory of the descriptions and the prefix at a start *)
}.

(** The bits of the map of ids. *)
Definition id_key (device_id : Z) : Z := device_id / 8.
Definition id_mask (device_id : Z) : Z := Z.shiftl 1 (device_id mod 8).

Section deviceset.
Context {P : Type} `{!PoolOps P}.

(** [struct device_set] and the disk *)
Record dworld := DWorld {
  dw_store : gmap cstr device_info;
  dw_ids : gmap Z Z;
  dw_next : Z;
  dw_tid : Z;
  dw_trans : transaction;
  dw_uuid : option cstr;
  dw_fs : option cstr;
  dw_deleted : Z;
  dw_disk : disk P;
  dw_hist : list (disk P);
  dw_calls : nat
}.
Definition put_store x w := DWorld x (dw_ids w) (dw_next w) (dw_tid w) (dw_trans w) (dw_uuid w) (dw_fs w) (dw_deleted w) (dw_disk w) (dw_hist w) (dw_calls w).
Definition put_ids x w := DWorld (dw_store w) x (dw_next w) (dw_tid w) (dw_trans w) (dw_uuid w) (dw_fs w) (dw_deleted w) (dw_disk w) (dw_hist w) (dw_calls w).
Definition put_next x w := DWorld (dw_store w) (dw_ids w) x (dw_tid w) (dw_trans w) (dw_uuid w) (dw_fs w) (dw_deleted w) (dw_disk w) (dw_hist w) (dw_calls w).
Definition put_tid x w := DWorld (dw_store w) (dw_ids w) (dw_next w) x (dw_trans w) (dw_uuid w) (dw_fs w) (dw_deleted w) (dw_disk w) (dw_hist w) (dw_calls w).
Definition put_trans x w := DWorld (dw_store w) (dw_ids w) (dw_next w) (dw_tid w) x (dw_uuid w) (dw_fs w) (dw_deleted w) (dw_disk w) (dw_hist w) (dw_calls w).
Definition put_uuid x w := DWorld (dw_store w) (dw_ids w) (dw_next w) (dw_tid w) (dw_trans w) x (dw_fs w) (dw_deleted w) (dw_disk w) (dw_hist w) (dw_calls w).
Definition put_fs x w := DWorld (dw_store w) (dw_ids w) (dw_next w) (dw_tid w) (dw_trans w) (dw_uuid w) x (dw_deleted w) (dw_disk w) (dw_hist w) (dw_calls w).
Definition put_nr_deleted x w := DWorld (dw_store w) (dw_ids w) (dw_next w) (dw_tid w) (dw_trans w) (dw_uuid w) (dw_fs w) x (dw_disk w) (dw_hist w) (dw_calls w).
Definition put_disk_hist d h w := DWorld (dw_store w) (dw_ids w) (dw_next w) (dw_tid w) (dw_trans w) (dw_uuid w) (dw_fs w) (dw_deleted w) d h (dw_calls w).
Definition put_calls n w := DWorld (dw_store w) (dw_ids w) (dw_next w) (dw_tid w) (dw_trans w) (dw_uuid w) (dw_fs w) (dw_deleted w) (dw_disk w) (dw_hist w) n.

Variable E : dev_env.
Abbreviation S A := (M dworld A) (only parsing).

Definition ask {A} (f : nat -> A) : S A :=
  n ← gets dw_calls; modify (put_calls (Datatypes.S n));; mret (f n).
(** A step of the disk. *)
Definition persist (f : disk P -> disk P) : S unit :=
  modify (fun w => put_disk_hist (f (dw_disk w)) (f (dw_disk w) :: dw_hist w) w).
Definition on_pool (f : P -> Z * P) : S Z :=
  d ← gets dw_disk;
  let '(r, p) := f (dk_pool d) in
  persist (fun d => Disk (dk_files d) (dk_trans d) (dk_meta d) p);;
  mret r.

(** ** Files *)

Definition save_metadata (info : device_info) : S Z :=
  ok ← ask (de_write E);
  if ok : bool then
    persist (fun d => Disk (<[di_hash info := info]> (dk_files d)) (dk_trans d) (dk_meta d) (dk_pool d));; mret 0
  else mret (-1).
Definition save_transaction_metadata : S Z :=
  ok ← ask (de_write E);
  t ← gets dw_trans;
  if ok : bool then persist (fun d => Disk (dk_files d) (Some t) (dk_meta d) (dk_pool d));; mret 0 else mret (-1).
Definition save_deviceset_matadata : S Z :=
  ok ← ask (de_write E);
  w ← gets (fun w => w);
  if ok : bool then
    persist (fun d => Disk (dk_files d) (dk_trans d) (Some (DsMeta (dw_next w) (dw_uuid w) (dw_fs w))) (dk_pool d));; mret 0
  else mret (-1).
Definition remove_transaction_metadata : S Z :=
  ok ← ask (de_remove E);
  if ok : bool then persist (fun d => Disk (dk_files d) None (dk_meta d) (dk_pool d));; mret 0 else mret (-1).
Definition remove_metadata (hash : cstr) : S Z :=
  ok ← ask (de_remove E);
  if ok : bool then persist (fun d => Disk (delete hash (dk_files d)) (dk_trans d) (dk_meta d) (dk_pool d));; mret 0
  else mret (-1).

Definition load_metadata (hash : cstr) : S (option device_info) :=
  d ← gets dw_disk;
  let name := if (String.length (cstr_str hash) =? 0)%nat then BASE else hash in
  match dk_files d !! name with
  | None => mret None
  | Some info =>
      ok ← ask (de_parse E);
      if negb ok then mret None
      else
        let info := if (String.length (cstr_str (di_hash info)) =? 0)%nat then put_di_hash hash info else info in
        mret (if di_id info >? MAX_DEVICE_ID then None else Some info)
  end.

(** ** The store *)

(** When the entry cannot be made the description is freed here and by the caller. *)
Definition metadata_store_add (hash : cstr) (info : device_info) : S bool :=
  ok ← ask (de_alloc E);
  if negb ok then mret false
  else
    ok ← ask (de_map E);
    if negb ok then crash else modify (fun w => put_store (<[hash := info]> (dw_store w)) w);; mret true.
Definition metadata_store_get (hash : cstr) : S (option device_info) := st ← gets dw_store; mret (st !! hash).
Definition metadata_store_remove (hash : cstr) : S bool :=
  st ← gets dw_store;
  modify (put_store (delete hash st));;
  mret (bool_decide (is_Some (st !! hash))).
(** A change of the object that the store refers to. *)
Definition set_device (hash : cstr) (f : device_info -> device_info) : S unit :=
  modify (fun w => put_store (alter f hash (dw_store w)) w).

Definition lookup_device (hash : cstr) : S (option device_info) :=
  i ← metadata_store_get hash;
  match i with
  | Some _ => mret i
  | None =>
      info ← load_metadata hash;
      match info with
      | None => mret None
      | Some info => ok ← metadata_store_add hash info; if negb ok then mret None else metadata_store_get hash
      end
  end.

(** ** Device ids *)

Definition mark_device_id_used (device_id : Z) : S unit :=
  modify (fun w => put_ids (<[id_key device_id := Z.lor (default 0 (dw_ids w !! id_key device_id)) (id_mask device_id)]> (dw_ids w)) w).
Definition mark_device_id_free (device_id : Z) : S unit :=
  modify (fun w => put_ids
    (<[id_key device_id := Z.land (default 0 (dw_ids w !! id_key device_id)) (Z.lnot (id_mask device_id))]> (dw_ids w)) w).
Definition is_device_id_free (ids : gmap Z Z) (device_id : Z) : bool :=
  Z.land (default 0 (ids !! id_key device_id)) (id_mask device_id) =? 0.
Definition inc_next_device_id : S unit := modify (fun w => put_next (Z.land (dw_next w + 1) MAX_DEVICE_ID) w).

(** At most [p] turns of a loop that carries [b], until one gives a result. *)
Fixpoint loop_for {B R} (p : positive) (body : B -> S (B + R)) (b : B) : S (B + R) :=
  match p with
  | xH => body b
  | xO p => r ← loop_for p body b; match r with inr _ => mret r | inl b => loop_for p body b end
  | xI p =>
      r ← body b;
      match r with
      | inr _ => mret r
      | inl b => r ← loop_for p body b; match r with inr _ => mret r | inl b => loop_for p body b end
      end
  end.
Definition next_id_turn (_ : unit) : S (unit + Z) :=
  w ← gets (fun w => w);
  if is_device_id_free (dw_ids w) (dw_next w) then mark_device_id_used (dw_next w);; mret (inr (dw_next w))
  else inc_next_device_id;; mret (inl tt).
Definition get_next_free_device_id : S (option Z) :=
  inc_next_device_id;;
  r ← loop_for (2 ^ 24) next_id_turn tt;
  mret (match r with inr id => Some id | inl _ => None end).

Fixpoint mark_all (hashes : list cstr) : S unit :=
  match hashes with
  | [] => mret tt
  | h :: l =>
      i ← lookup_device h;
      match i with None => mret tt | Some i => mark_device_id_used (di_id i) end;;
      mark_all l
  end.
(** The hashes of the store, in its order. *)
Definition construct_device_id_map : S unit := st ← gets dw_store; mark_all (map_to_list st).*1.
Fixpoint count_all (hashes : list cstr) : S unit :=
  match hashes with
  | [] => mret tt
  | h :: l =>
      i ← lookup_device h;
      match i with
      | Some i => when (di_deleted i) (modify (fun w => put_nr_deleted (wrap_u 32 (dw_deleted w + 1)) w))
      | None => mret tt
      end;;
      count_all l
  end.
Definition count_deleted_devices : S unit := st ← gets dw_store; count_all (map_to_list st).*1.

(** ** Transactions *)

Definition open_transaction (hash : cstr) (id : Z) : S Z :=
  modify (fun w => put_trans (Trans (wrap_u 64 (dw_tid w + 1)) hash id) w);;
  z ← save_transaction_metadata;
  mret (if negb (z =? 0) then -1 else 0).
Definition refresh_transaction (id : Z) : S Z :=
  modify (fun w => put_trans (Trans (tr_open (dw_trans w)) (tr_hash (dw_trans w)) id) w);;
  z ← save_transaction_metadata;
  mret (if negb (z =? 0) then -1 else 0).
Definition update_pool_transaction_id : S Z :=
  w ← gets (fun w => w);
  z ← on_pool (dev_set_transaction_id (dw_tid w) (tr_open (dw_trans w)));
  if negb (z =? 0) then mret (-1) else modify (fun w => put_tid (tr_open (dw_trans w)) w);; mret 0.
Definition close_transaction : S Z := update_pool_transaction_id.

Definition load_transaction_metadata : S Z :=
  w ← gets (fun w => w);
  match dk_trans (dw_disk w) with
  | None => modify (put_trans (Trans (dw_tid w) (tr_hash (dw_trans w)) (tr_id (dw_trans w))));; mret 0
  | Some t =>
      ok ← ask (de_parse E);
      if negb ok then mret (-1)
      else
        modify (put_trans (if (String.length (cstr_str (tr_hash t)) =? 0)%nat then Trans (tr_open t) BASE (tr_id t) else t));;
        mret 0
  end.
Definition rollback_transaction : S unit :=
  t ← gets dw_trans;
  _ ← on_pool (dev_delete_device (tr_id t));
  z ← remove_metadata (tr_hash t);
  (if negb (z =? 0) then mret tt else mark_device_id_free (tr_id t));;
  _ ← metadata_store_remove (tr_hash t);
  _ ← remove_transaction_metadata;
  mret tt.
Definition process_pending_transaction : S Z :=
  z ← load_transaction_metadata;
  if negb (z =? 0) then mret (-1)
  else
    w ← gets (fun w => w);
    if dw_tid w =? tr_open (dw_trans w) then mret 0
    else if dw_tid w >? tr_open (dw_trans w) then mret 0
    else
      rollback_transaction;;
      modify (fun w => put_trans (Trans (dw_tid w) (tr_hash (dw_trans w)) (tr_id (dw_trans w))) w);;
      mret 0.

Definition unregister_device (hash : cstr) : S Z :=
  ok ← metadata_store_remove hash;
  if negb ok then mret (-1)
  else z ← remove_metadata hash; mret (if negb (z =? 0) then -1 else 0).
Definition register_device (id : Z) (hash : cstr) (size tid : Z) : S (option device_info) :=
  ok ← ask (de_alloc E);
  if negb ok then mret None
  else
    let info := DevInfo hash id size tid false false in
    ok ← metadata_store_add hash info;
    if negb ok then mret None
    else
      z ← save_metadata info;
      if negb (z =? 0) then _ ← metadata_store_remove hash; mret None else mret (Some info).

(** ** Creating devices *)

(** The loop around the creation in the pool: the id of the device, or the failure.
    [strict]: a failed [refresh_transaction] is an error. *)
Definition create_turn (strict : bool) (create : Z -> P -> Z * P) (cur : Z) : S (Z + (Z * Z)) :=
  nret ← on_pool (create cur);
  if nret =? 0 then mret (inr (0, cur))
  else if nret =? ERR_DEVICE_ID_EXISTS then
    next ← get_next_free_device_id;
    match next with
    | None => mret (inr (-1, cur))
    | Some next =>
        z ← refresh_transaction next;
        if strict && negb (z =? 0) then mret (inr (-1, next)) else mret (inl next)
    end
  else mark_device_id_free cur;; mret (inr (-1, cur)).
(** Every turn takes a free id, of which there are [2 ^ 24]. *)
Definition create_loop (strict : bool) (create : Z -> P -> Z * P) (cur : Z) : S (Z * Z) :=
  r ← loop_for (2 ^ 24) (create_turn strict create) cur;
  match r with inr r => mret r | inl _ => crash end.

(** [create_register_device] and [create_register_snap_device] *)
Definition create_and_register (strict : bool) (create : Z -> P -> Z * P) (hash : cstr) (size : Z) : S (option device_info) :=
  id ← get_next_free_device_id;
  match id with
  | None => mret None
  | Some id =>
      z ← open_transaction hash id;
      if negb (z =? 0) then mark_device_id_free id;; mret None
      else
        r ← create_loop strict create id;
        if negb (r.1 =? 0) then mret None
        else
          let id := r.2 in
          t ← gets dw_trans;
          info ← register_device id hash size (tr_open t);
          match info with
          | None => _ ← on_pool (dev_delete_device id); mark_device_id_free id;; mret None
          | Some info =>
              z ← close_transaction;
              if negb (z =? 0) then
                _ ← unregister_device hash;
                _ ← on_pool (dev_delete_device id);
                mark_device_id_free id;;
                mret None
              else mret (Some info)
          end
  end.
Definition create_register_device (hash : cstr) : S (option device_info) :=
  create_and_register false dev_create_device hash (base_fs_size E).
Definition create_register_snap_device (base_info : device_info) (hash : cstr) (size : Z) : S Z :=
  r ← create_and_register true (fun id => dev_create_snap_device_raw id (di_id base_info)) hash size;
  mret (match r with Some _ => 0 | None => -1 end).

Definition pool_has_free_space : S Z :=
  if min_free_space_percent E =? 0 then mret 0
  else
    d ← gets dw_disk;
    match pool_get_status (dk_pool d) with
    | None => mret (-1)
    | Some s =>
        let least total := Z.max 1 (wrap_u 64 (total * min_free_space_percent E) / 100) in
        if wrap_u 64 (pr_data_total s - pr_data_used s) <? least (pr_data_total s) then mret (-1)
        else if wrap_u 64 (pr_meta_total s - pr_meta_used s) <? least (pr_meta_total s) then mret (-1)
        else mret 0
    end.

(** Busy a hundred times is taken for success. *)
Fixpoint cancel_retries (n : nat) : S Z :=
  match n with
  | O => mret 0
  | Datatypes.S n =>
      nret ← ask (de_dm E);
      if nret =? 0 then mret 0 else if nret =? ERR_BUSY then cancel_retries n else mret (-1)
  end.
Definition cancel_deferred_removal : S Z := cancel_retries 100.
Definition deactivate_device : S Z :=
  i ← ask (de_info E);
  match i with
  | None => mret (-1)
  | Some i =>
      if negb (dmi_exists i) then mret 0
      else nret ← ask (de_dm E); mret (if nret =? 0 then 0 else if nret =? ERR_ENXIO then 0 else -1)
  end.

Definition take_snapshot (hash : cstr) (base_info : device_info) (size : Z) : S Z :=
  z ← pool_has_free_space;
  if negb (z =? 0) then mret (-1)
  else
    i ← ask (de_info E);
    match i with
    | None => mret (-1)
    | Some i =>
        c ← (if dmi_deferred i then cancel_deferred_removal else mret 0);
        if negb (c =? 0) then mret (-1)
        else
          let deactivate := when (dmi_deferred i) (_ ← deactivate_device; mret tt) in
          s ← (if dmi_exists i then ask (de_dm E) else mret 0);
          if negb (s =? 0) then deactivate;; mret (-1)
          else
            z ← create_register_snap_device base_info hash size;
            deactivate;;
            when (dmi_exists i) (_ ← ask (de_dm E); mret tt);;
            mret (if negb (z =? 0) then -1 else 0)
    end.

Definition cancel_deferred_removal_if_needed : S Z :=
  i ← ask (de_info E);
  match i with
  | None => mret (-1)
  | Some i =>
      if negb (dmi_deferred i) then mret 0
      else z ← cancel_deferred_removal; mret (if negb (z =? 0) && negb (z =? ERR_ENXIO) then -1 else 0)
  end.
Definition activate_device_if_needed (info : device_info) : S Z :=
  if di_deleted info then mret (-1)
  else
    z ← cancel_deferred_removal_if_needed;
    if negb (z =? 0) then mret (-1)
    else
      i ← ask (de_info E);
      match i with
      | None => mret (-1)
      | Some i => if dmi_exists i then mret 0 else z ← ask (de_dm E); mret (if negb (z =? 0) then -1 else 0)
      end.
(** [util_mount] fails when the file system is NULL. *)
Definition grow_fs (info : device_info) : S Z :=
  z ← activate_device_if_needed info;
  fs ← gets dw_fs;
  ok ← (if negb (z =? 0) then mret false
        else
          mounted ← ask (de_shell E);
          match fs with
          | Some fs => if negb mounted then mret false else if bool_decide (fs = c_str "ext4") then ask (de_shell E) else mret false
          | None => mret false
          end);
  _ ← deactivate_device;
  mret (if ok : bool then 0 else -1).
Definition grow_device_fs (hash : cstr) (size base_size : Z) : S Z :=
  if size <=? base_size then mret 0
  else i ← lookup_device hash; match i with None => mret (-1) | Some i => grow_fs i end.

(** ** Deleting *)

Definition mark_for_deferred_deletion (info : device_info) : S Z :=
  if di_deleted info then mret 0
  else
    set_device (di_hash info) (put_di_deleted true);;
    z ← save_metadata (put_di_deleted true info);
    if negb (z =? 0) then set_device (di_hash info) (put_di_deleted false);; mret (-1)
    else modify (fun w => put_nr_deleted (wrap_u 32 (dw_deleted w + 1)) w);; mret 0.
Definition delete_transaction (info : device_info) (sync_delete : bool) : S Z :=
  z ← open_transaction (di_hash info) (di_id info);
  if negb (z =? 0) then mret (-1)
  else
    nret ← on_pool (dev_delete_device (di_id info));
    ret ← (if negb (nret =? 0) && (sync_delete || negb (nret =? ERR_BUSY)) then (mret (-1) : S Z)
           else if nret =? 0 then
             z ← unregister_device (di_hash info);
             if negb (z =? 0) then mret (-1)
             else
               when (di_deleted info) (modify (fun w => put_nr_deleted (wrap_u 32 (dw_deleted w - 1)) w));;
               mark_device_id_free (di_id info);;
               mret 0
           else z ← mark_for_deferred_deletion info; mret (if negb (z =? 0) then -1 else 0));
    _ ← close_transaction;
    mret ret.
Definition do_delete_device (hash : cstr) (sync_delete : bool) : S Z :=
  i ← lookup_device hash;
  match i with
  | None => mret (-1)
  | Some info =>
      z ← deactivate_device;
      if negb (z =? 0) then mret (-1)
      else z ← delete_transaction info sync_delete; mret (if negb (z =? 0) then -1 else 0)
  end.
Definition delete_device (hash : cstr) (sync_delete : bool) : S Z :=
  if negb (de_lock E) then mret (-1)
  else z ← do_delete_device hash sync_delete; mret (if negb (z =? 0) then -1 else 0).
Fixpoint cleanup_all (hashes : list cstr) : S unit :=
  match hashes with
  | [] => mret tt
  | h :: l =>
      i ← lookup_device h;
      match i with
      | Some i => when (di_deleted i) (_ ← do_delete_device h false; mret tt)
      | None => mret tt
      end;;
      cleanup_all l
  end.
Definition cleanup_deleted_devices : S unit :=
  if negb (de_lock E) then mret tt
  else
    n ← gets dw_deleted;
    if n =? 0 then mret tt else st ← gets dw_store; cleanup_all (map_to_list st).*1.

(** ** Adding *)

(** [size]: the outcome of [parse_storage_opt], 0 when no size is given. *)
Definition add_device (hash : cstr) (base_hash : option cstr) (size : option Z) : S Z :=
  if negb (de_lock E) then mret (-1)
  else
    let base := match base_hash with Some b => if (String.length (cstr_str b) =? 0)%nat then BASE else b | None => BASE end in
    b ← lookup_device base;
    match b with
    | None => mret (-1)
    | Some b =>
        if di_deleted b then mret (-1)
        else
          i ← lookup_device hash;
          match i, size with
          | None, Some size =>
              let size := if size =? 0 then di_size b else size in
              if size <? di_size b then mret (-1)
              else
                z ← take_snapshot hash b size;
                if negb (z =? 0) then mret (-1)
                else
                  z ← grow_device_fs hash size (di_size b);
                  if negb (z =? 0) then _ ← do_delete_device hash true; mret (-1) else mret 0
          | _, _ => mret (-1)
          end
    end.
Definition has_device (hash : cstr) : S bool :=
  if (String.length (cstr_str hash) =? 0)%nat || negb (de_lock E) then mret false
  else i ← lookup_device hash; mret (bool_decide (is_Some i)).
Definition mount_device (hash : cstr) : S Z :=
  if negb (de_lock E) then mret (-1)
  else
    i ← lookup_device hash;
    match i with
    | None => mret (-1)
    | Some i =>
        if di_deleted i then mret (-1)
        else
          z ← activate_device_if_needed i;
          if negb (z =? 0) then mret (-1) else ok ← ask (de_shell E); mret (if ok : bool then 0 else -1)
    end.
Definition unmount_device (hash : cstr) : S Z :=
  if negb (de_lock E) then mret (-1)
  else
    i ← lookup_device hash;
    match i with
    | None => mret (-1)
    | Some i => ok ← ask (de_shell E); if negb ok then mret (-1) else z ← deactivate_device; mret (if negb (z =? 0) then -1 else 0)
    end.

(** ** Start-up *)

Definition util_valid_device_hash (hash : cstr) : bool := bool_decide (hash = BASE) || match_id_pattern hash.
(** Files with invalid names are removed. *)
Fixpoint walk_files (names : list cstr) : S Z :=
  match names with
  | [] => mret 0
  | n :: l =>
      ok ← ask (de_shell E);
      if negb ok then mret (-1)
      else if negb (util_valid_device_hash n) then _ ← remove_metadata n; walk_files l
      else i ← lookup_device n; match i with None => mret (-1) | Some _ => walk_files l end
  end.
Definition device_file_walk : S Z :=
  d ← gets dw_disk; walk_files (de_readdir E (dom (dk_files d))).

Definition init_metadata : S Z :=
  d ← gets dw_disk;
  match pool_get_status (dk_pool d) with
  | None => mret (-1)
  | Some s =>
      modify (put_tid (pr_tid s));;
      z ← device_file_walk;
      if negb (z =? 0) then mret (-1)
      else
        construct_device_id_map;;
        count_deleted_devices;;
        z ← process_pending_transaction;
        mret (if negb (z =? 0) then -1 else 0)
  end.
Definition load_deviceset_metadata : S Z :=
  d ← gets dw_disk;
  match dk_meta d with
  | None => mret 0
  | Some m =>
      ok ← ask (de_parse E);
      if negb ok then mret (-1) else modify (fun w => put_fs (dm_fs m) (put_uuid (dm_uuid m) (put_next (dm_next m) w)));; mret 0
  end.

Definition save_base_device_uuid (info : device_info) : S Z :=
  z ← activate_device_if_needed info;
  u ← (if negb (z =? 0) then mret None else ask (de_uuid E));
  r ← match u with
      | None => (mret (-1) : S Z)
      | Some u => modify (put_uuid (Some u));; z ← save_deviceset_matadata; mret (if negb (z =? 0) then -1 else 0)
      end;
  _ ← deactivate_device;
  mret r.
(** The file system is ext4. *)
Definition create_file_system : S Z :=
  modify (put_fs (Some (c_str "ext4")));;
  z ← save_deviceset_matadata;
  if negb (z =? 0) then mret (-1) else ok ← ask (de_shell E); mret (if ok : bool then 0 else -1).
Definition create_base_image : S Z :=
  i ← create_register_device BASE;
  match i with
  | None => mret (-1)
  | Some info =>
      z ← activate_device_if_needed info;
      if negb (z =? 0) then mret (-1)
      else
        z ← create_file_system;
        if negb (z =? 0) then mret (-1)
        else
          set_device BASE (put_di_initialized true);;
          z ← save_metadata (put_di_initialized true info);
          if negb (z =? 0) then set_device BASE (put_di_initialized false);; mret (-1)
          else z ← save_base_device_uuid (put_di_initialized true info); mret (if negb (z =? 0) then -1 else 0)
  end.
Definition check_thin_pool : S Z :=
  d ← gets dw_disk;
  mret (match pool_get_status (dk_pool d) with
        | None => -1
        | Some s => if negb (pr_data_used s =? 0) then -1 else if negb (pr_tid s =? 0) then -1 else 0
        end).
Definition verify_base_device_uuidfs (info : device_info) (stored : cstr) : S Z :=
  z ← activate_device_if_needed info;
  if negb (z =? 0) then mret (-1)
  else
    u ← ask (de_uuid E);
    r ← (if bool_decide (u <> Some stored) then (mret (-1) : S Z)
         else
           fs ← gets dw_fs;
           let fs := default (c_str "") fs in
           if (String.length (cstr_str fs) =? 0)%nat then
             modify (put_fs (Some (c_str "ext4")));; z ← save_deviceset_matadata; mret (if negb (z =? 0) then -1 else 0)
           else mret (if strcaseeq (String.list_ascii_of_string (cstr_str fs)) (String.list_ascii_of_string "ext4") then 0 else -1));
    _ ← deactivate_device;
    mret r.
Definition setup_verify_baseimages_uuidfs (info : device_info) : S Z :=
  u ← gets dw_uuid;
  match u with
  | None => z ← save_base_device_uuid info; mret (if negb (z =? 0) then -1 else 0)
  | Some u => verify_base_device_uuidfs info u
  end.
Definition check_grow_base_device_fs (info : device_info) : S Z :=
  if negb (user_base_size E) then mret 0
  else
    b ← lookup_device BASE;
    let size := match b with Some b => di_size b | None => 0 end in
    if base_fs_size E <? size then mret (-1)
    else if base_fs_size E =? size then mret 0
    else
      set_device BASE (put_di_size (base_fs_size E));;
      z ← save_metadata (put_di_size (base_fs_size E) info);
      if negb (z =? 0) then _ ← metadata_store_remove (di_hash info); mret (-1)
      else grow_fs (put_di_size (base_fs_size E) info).
(** [util_valid_str] *)
Definition util_valid_str (s : option cstr) : bool :=
  match s with Some s => negb (String.length (cstr_str s) =? 0)%nat | None => false end.
Definition setup_base_image : S Z :=
  i ← lookup_device BASE;
  match i with
  | Some info =>
      if di_initialized info && negb (di_deleted info) then
        z ← setup_verify_baseimages_uuidfs info;
        if negb (z =? 0) then mret (-1) else z ← check_grow_base_device_fs info; mret (if negb (z =? 0) then -1 else 0)
      else
        z ← do_delete_device BASE true;
        if negb (z =? 0) then mret (-1) else z ← create_base_image; mret (if negb (z =? 0) then -1 else 0)
  | None =>
      z ← (if util_valid_str (thin_pool_device E) then check_thin_pool else mret 0);
      if negb (z =? 0) then mret (-1) else z ← create_base_image; mret (if negb (z =? 0) then -1 else 0)
  end.
Definition do_init_metadata : S Z :=
  match thin_pool_device E with
  | None => mret (-1)
  | Some _ =>
      if negb (de_pool E) || negb (util_valid_str (thin_pool_device E)) then mret (-1)
      else z ← init_metadata; mret (if negb (z =? 0) then -1 else 0)
  end.
(** [do_check_all_devices], which takes broken devices out of /dev/mapper and whose result is
    only logged, changes neither the descriptions nor the pool. *)
Definition do_devmapper_init : S Z :=
  if negb (de_prepared E) then mret (-1)
  else
  z ← do_init_metadata;
  if negb (z =? 0) then mret (-1)
  else
    z ← load_deviceset_metadata;
    if negb (z =? 0) then mret (-1)
    else z ← setup_base_image; mret (if negb (z =? 0) then -1 else 0).
End deviceset.
Arguments dworld : clear implicits.
