(* ===== verification/DevicesetIds.v ===== *)
(** The ids of the devices: the map of bits, and the search for a free id. *)
From S2P Require Import Prelude KeyOrders Effects Deviceset.

Open Scope Z_scope.

(** An id that a device can have. *)
Definition dev_id (z : Z) : Prop := 0 <= z <= MAX_DEVICE_ID.
Definition dev_ids : list Z := seqZ 0 (MAX_DEVICE_ID + 1).
Definition set_used (id : Z) (ids : gmap Z Z) : gmap Z Z :=
  <[id_key id := Z.lor (default 0 (ids !! id_key id)) (id_mask id)]> ids.
Definition set_free (id : Z) (ids : gmap Z Z) : gmap Z Z :=
  <[id_key id := Z.land (default 0 (ids !! id_key id)) (Z.lnot (id_mask id))]> ids.
Definition free_ids (ids : gmap Z Z) : list Z := filter (fun z => is_device_id_free ids z) dev_ids.

Lemma elem_of_dev_ids z : z ∈ dev_ids <-> dev_id z.
Proof. unfold dev_ids, dev_id. rewrite elem_of_seqZ. lia. Qed.
Lemma length_dev_ids : length dev_ids = Pos.to_nat (2 ^ 24).
Proof. unfold dev_ids. rewrite length_seqZ. assert (MAX_DEVICE_ID + 1 = Zpos (2 ^ 24)) as -> by done. apply Z2Nat.inj_pos. Qed.
Lemma elem_of_free_ids ids z : z ∈ free_ids ids <-> dev_id z /\ is_device_id_free ids z = true.
Proof. unfold free_ids. rewrite list_elem_of_filter, elem_of_dev_ids, Is_true_true. tauto. Qed.

Lemma is_device_id_free_bit ids z :
  is_device_id_free ids z = negb (Z.testbit (default 0 (ids !! id_key z)) (z mod 8)).
Proof.
  unfold is_device_id_free, id_mask. set (v := default 0 _). set (k := z mod 8).
  assert (0 <= k) by (subst k; apply Z.mod_pos_bound; lia).
  destruct (Z.testbit v k) eqn:Hb; cbn [negb].
  - apply Z.eqb_neq. intros H0. apply (f_equal (fun x => Z.testbit x k)) in H0.
    rewrite Z.land_spec, Hb, Z.shiftl_1_l, Z.pow2_bits_true, Z.bits_0 in H0 by done. done.
  - apply Z.eqb_eq, Z.bits_inj'. intros n Hn. rewrite Z.land_spec, Z.shiftl_1_l, Z.bits_0.
    destruct (decide (n = k)) as [->|Hne]; [by rewrite Hb|].
    rewrite Z.pow2_bits_false by lia. by rewrite andb_false_r.
Qed.

Lemma same_key_bit a b : id_key a = id_key b -> a mod 8 = b mod 8 -> a = b.
Proof. unfold id_key. intros H1 H2. rewrite (Z.div_mod a 8), (Z.div_mod b 8) by lia. by rewrite H1, H2. Qed.

(** A change of one word that keeps the bits other than that of [id]. *)
Lemma one_word_bit ids id v z b :
  (forall k, 0 <= k -> Z.testbit v k = if decide (k = id mod 8) then b else Z.testbit (default 0 (ids !! id_key id)) k) ->
  is_device_id_free (<[id_key id := v]> ids) z = if decide (z = id) then negb b else is_device_id_free ids z.
Proof.
  intros Hv. rewrite !is_device_id_free_bit. assert (0 <= z mod 8) by (apply Z.mod_pos_bound; lia).
  destruct (decide (id_key z = id_key id)) as [Hk|Hk].
  - rewrite Hk, lookup_insert_eq. cbn [default]. rewrite Hv by done.
    destruct (decide (z mod 8 = id mod 8)) as [Hm|Hm].
    + rewrite decide_True by by apply same_key_bit. done.
    + rewrite decide_False by (intros ->; done). done.
  - rewrite lookup_insert_ne by done. rewrite decide_False by (intros ->; done). done.
Qed.

Lemma id_mask_bit id k : 0 <= k -> Z.testbit (id_mask id) k = bool_decide (k = id mod 8).
Proof.
  intros Hk. unfold id_mask. assert (0 <= id mod 8) by (apply Z.mod_pos_bound; lia).
  rewrite Z.shiftl_1_l. case_bool_decide as Hd; [subst; by apply Z.pow2_bits_true|]. apply Z.pow2_bits_false. lia.
Qed.

Lemma is_free_used ids id z :
  is_device_id_free (set_used id ids) z = if decide (z = id) then false else is_device_id_free ids z.
Proof.
  unfold set_used. rewrite (one_word_bit _ _ _ _ true); [done|].
  intros k Hk. rewrite Z.lor_spec, id_mask_bit by done.
  case_decide; [rewrite bool_decide_true by done; apply orb_true_r|]. rewrite bool_decide_false by done. apply orb_false_r.
Qed.
Lemma is_free_free ids id z :
  is_device_id_free (set_free id ids) z = if decide (z = id) then true else is_device_id_free ids z.
Proof.
  unfold set_free. rewrite (one_word_bit _ _ _ _ false); [done|].
  intros k Hk. rewrite Z.land_spec, Z.lnot_spec, id_mask_bit by done.
  case_decide; [rewrite bool_decide_true by done; apply andb_false_r|]. rewrite bool_decide_false by done. apply andb_true_r.
Qed.

(** Taking a free id leaves one less. *)
Lemma free_ids_used ids id :
  dev_id id -> is_device_id_free ids id = true -> (length (free_ids (set_used id ids)) < length (free_ids ids))%nat.
Proof.
  intros Hid Hf.
  assert (Hsub : id :: free_ids (set_used id ids) ⊆+ free_ids ids).
  { apply NoDup_submseteq.
    - constructor; [|apply NoDup_filter, NoDup_seqZ].
      rewrite elem_of_free_ids, is_free_used, decide_True by done. intros [_ ?]; done.
    - intros z [->|Hz]%elem_of_cons; [by apply elem_of_free_ids|].
      apply elem_of_free_ids in Hz as [Hz Hu]. rewrite is_free_used in Hu. case_decide; [done|]. by apply elem_of_free_ids. }
  apply submseteq_length in Hsub. cbn [length] in Hsub. lia.
Qed.
Lemma free_ids_length ids : (length (free_ids ids) <= Pos.to_nat (2 ^ 24))%nat.
Proof.
  unfold free_ids. etrans; [apply length_filter|]. by rewrite length_dev_ids.
Qed.

Section loop.
Context {P : Type}.
Implicit Types (w : dworld P).

(** The loop with a count of the turns. *)
Lemma wp_loop_for {B R} (I : nat -> B -> dworld P -> Prop) (Q : R -> dworld P -> Prop) (body : B -> M (dworld P) (B + R)) :
  (forall k b w, I k b w -> wp (body b) (fun r w' => match r with inl b' => I (S k) b' w' | inr r => Q r w' end) w) ->
  forall p k b w, I k b w ->
    wp (loop_for p body b) (fun r w' => match r with inl b' => I (k + Pos.to_nat p)%nat b' w' | inr r => Q r w' end) w.
Proof.
  intros Hbody p. induction p as [p IH|p IH|]; intros k b w HI; cbn [loop_for].
  - wp_step. eapply wp_conseq; [by apply Hbody|]. intros [b1|r] w1 H1; [|by apply wp_mret].
    wp_step. eapply wp_conseq; [apply (IH _ _ _ H1)|]. intros [b2|r] w2 H2; [|by apply wp_mret].
    eapply wp_conseq; [apply (IH _ _ _ H2)|]. intros [b3|r] w3 H3; [|done].
    replace (k + Pos.to_nat p~1)%nat with (S k + Pos.to_nat p + Pos.to_nat p)%nat by lia. done.
  - wp_step. eapply wp_conseq; [apply (IH _ _ _ HI)|]. intros [b2|r] w2 H2; [|by apply wp_mret].
    eapply wp_conseq; [apply (IH _ _ _ H2)|]. intros [b3|r] w3 H3; [|done].
    replace (k + Pos.to_nat p~0)%nat with (k + Pos.to_nat p + Pos.to_nat p)%nat by lia. done.
  - replace (k + Pos.to_nat 1)%nat with (S k) by lia. by apply Hbody.
Qed.

(** [z] after [k] turns of the counter of ids *)
Definition id_after (z : Z) (k : nat) : Z := (z + Z.of_nat k) mod (MAX_DEVICE_ID + 1).
Lemma land_max z : Z.land z MAX_DEVICE_ID = z mod (MAX_DEVICE_ID + 1).
Proof. change MAX_DEVICE_ID with (Z.ones 24). rewrite Z.land_ones by lia. done. Qed.
Lemma id_after_range z k : dev_id (id_after z k).
Proof. unfold id_after, dev_id. pose proof (Z.mod_pos_bound (z + Z.of_nat k) (MAX_DEVICE_ID + 1)). unfold MAX_DEVICE_ID in *. lia. Qed.
Lemma id_after_S z k : Z.land (id_after z k + 1) MAX_DEVICE_ID = id_after z (S k).
Proof. rewrite land_max. unfold id_after. rewrite Zplus_mod_idemp_l. f_equal. lia. Qed.
(** Every id comes up. *)
Lemma id_after_onto z j : dev_id j -> exists k, (k < Pos.to_nat (2 ^ 24))%nat /\ id_after z k = j.
Proof.
  intros Hj. exists (Z.to_nat ((j - z) mod (MAX_DEVICE_ID + 1))).
  pose proof (Z.mod_pos_bound (j - z) (MAX_DEVICE_ID + 1) ltac:(done)) as Hb. split.
  - change (MAX_DEVICE_ID + 1) with (Zpos (2 ^ 24)) in *. lia.
  - unfold id_after. rewrite Z2Nat.id by lia. rewrite Zplus_mod_idemp_r.
    replace (z + (j - z)) with j by lia. apply Z.mod_small. unfold dev_id in Hj. lia.
Qed.

(** The search changes the counter and the bit of the id that it finds. *)
Definition took (w : dworld P) (r : option Z) (w' : dworld P) : Prop :=
  match r with
  | Some id => dev_id id /\ is_device_id_free (dw_ids w) id = true /\ w' = put_ids (set_used id (dw_ids w)) (put_next id w)
  | None => (forall id, dev_id id -> is_device_id_free (dw_ids w) id = false) /\ exists n, w' = put_next n w
  end.

Lemma wp_next_id w : wp get_next_free_device_id (took w) w.
Proof.
  unfold get_next_free_device_id, inc_next_device_id. wp_step. wp_step.
  set (s := dw_next w + 1). wp_step.
  eapply wp_conseq.
  - apply (wp_loop_for
      (fun k _ w' => w' = put_next (id_after s k) w /\ forall i, (i < k)%nat -> is_device_id_free (dw_ids w) (id_after s i) = false)
      (fun id => took w (Some id))) with (k := 0%nat).
    + intros k [] w' [-> Hused]. unfold next_id_turn. wp_step. wp_step. cbn [dw_ids dw_next put_next].
      wp_step; wp_step; unfold mark_device_id_used, inc_next_device_id; wp_step; wp_step.
      * split; [apply id_after_range|]. done.
      * unfold put_next. cbn. split; [by rewrite id_after_S|].
        intros i Hi. destruct (decide (i = k)) as [->|]; [done|]. apply Hused. lia.
    + split; [|lia]. rewrite land_max. unfold id_after. by rewrite Z.add_0_r.
  - intros [[]|id] w' H; apply wp_mret; [|done]. destruct H as [-> Hall]. split; [|by eexists].
    intros id Hid. destruct (id_after_onto s id Hid) as (k & Hk & <-). by apply Hall.
Qed.
End loop.

(** C24: [get_next_free_device_id] always ends.  It fails exactly when every one of the [2 ^ 24] ids is
    marked as used; otherwise it gives an id within the bounds that was free, and marks just that one. *)
Theorem next_device_id_correct {P} (w : dworld P) :
  exists r w', get_next_free_device_id w = Some (r, w') /\
    (r = None <-> forall id, dev_id id -> is_device_id_free (dw_ids w) id = false) /\
    dw_store w' = dw_store w /\ dw_disk w' = dw_disk w /\
    forall id, r = Some id ->
      dev_id id /\ is_device_id_free (dw_ids w) id = true /\ dw_next w' = id /\
      forall z, is_device_id_free (dw_ids w') z = if decide (z = id) then false else is_device_id_free (dw_ids w) z.
Proof.
  destruct (wp_next_id w) as (r & w' & Hrun & Ht). exists r, w'. split; [done|].
  destruct r as [id|]; cbn in Ht.
  - destruct Ht as (Hid & Hf & ->). split; [split; [done|]; intros Hall; by rewrite Hall in Hf|].
    split_and!; [done..|]. intros ? [= <-]. split_and!; [done..|]. intros z. apply is_free_used.
  - destruct Ht as (Hall & n & ->). split; [done|]. done.
Qed.
