(* ===== verification/DevicesetInv.v ===== *)
(** The devices and the loss of power: what the pool promises, what has to hold of the disk at
    every moment, and what holds in addition between two operations. *)
From S2P Require Import Prelude KeyOrders Effects Deviceset DevicesetIds.

Open Scope Z_scope.

(** A thin pool has the devices with the ids [pool_ids] and a transaction id; a message that
    fails changes nothing. *)
Class PoolLaws (P : Type) `{!PoolOps P} := {
  pool_ids : P -> gset Z;
  pool_tid : P -> Z;
  pl_tid p : 0 <= pool_tid p;
  pl_status p s : pool_get_status p = Some s -> pr_tid s = pool_tid p;
  pl_create id p r p' : dev_create_device id p = (r, p') ->
    pool_tid p' = pool_tid p /\ pool_ids p' = (if decide (r = 0) then {[id]} ∪ pool_ids p else pool_ids p);
  pl_snap id base p r p' : dev_create_snap_device_raw id base p = (r, p') ->
    pool_tid p' = pool_tid p /\ pool_ids p' = (if decide (r = 0) then {[id]} ∪ pool_ids p else pool_ids p);
  pl_delete id p r p' : dev_delete_device id p = (r, p') ->
    pool_tid p' = pool_tid p /\ pool_ids p' = (if decide (r = 0) then pool_ids p ∖ {[id]} else pool_ids p);
  pl_set old new p r p' : dev_set_transaction_id old new p = (r, p') ->
    pool_ids p' = pool_ids p /\ pool_tid p' = (if decide (r = 0) then new else pool_tid p)
}.

Definition named (h : cstr) : Prop := (String.length (cstr_str h) =? 0)%nat = false.
(** Conditions on the files alone. *)
Definition files_ok : gmap cstr device_info -> Prop := map_Forall (fun h i => di_hash i = h /\ named h /\ dev_id (di_id i)).
Definition ids_inj (F : gmap cstr device_info) : Prop :=
  forall h1 h2 i1 i2, F !! h1 = Some i1 -> F !! h2 = Some i2 -> di_id i1 = di_id i2 -> h1 = h2.
Definition not_id (id : Z) : gmap cstr device_info -> Prop := map_Forall (fun _ i => di_id i <> id).
Definition used_ids (ids : gmap Z Z) : gmap cstr device_info -> Prop :=
  map_Forall (fun _ i => is_device_id_free ids (di_id i) = false).
(** What is assumed of the environment: removing a file and entering a device into the store do not
    fail, and a directory is read completely, in any order. *)
Record env_ok (E : dev_env) : Prop := {
  eo_remove n : de_remove E n = true;
  eo_map n : de_map E n = true;
  eo_readdir X : de_readdir E X ≡ₚ elements X
}.

Lemma ids_inj_insert F h i : ids_inj F -> not_id (di_id i) (delete h F) -> ids_inj (<[h := i]> F).
Proof.
  intros HF Hn h1 h2 i1 i2 H1 H2 Heq.
  destruct (decide (h1 = h)) as [->|N1], (decide (h2 = h)) as [->|N2]; [done|..];
    rewrite ?lookup_insert_eq, ?lookup_insert_ne in H1 by done; rewrite ?lookup_insert_eq, ?lookup_insert_ne in H2 by done; simplify_eq.
  - assert (delete h F !! h2 = Some i2) as Hd by by rewrite lookup_delete_ne. by apply Hn in Hd.
  - assert (delete h F !! h1 = Some i1) as Hd by by rewrite lookup_delete_ne. by apply Hn in Hd.
  - eauto.
Qed.
Lemma ids_inj_delete F h : ids_inj F -> ids_inj (delete h F).
Proof. intros HF h1 h2 i1 i2 [_ H1]%lookup_delete_Some [_ H2]%lookup_delete_Some. eauto. Qed.
Lemma ids_inj_not_id F h i : ids_inj F -> F !! h = Some i -> not_id (di_id i) (delete h F).
Proof. intros HF Hi k j [Hne Hk]%lookup_delete_Some Heq. apply Hne. eauto. Qed.
Lemma not_id_delete id h F : not_id id F -> not_id id (delete h F).
Proof. intros HF. by apply map_Forall_delete. Qed.
Lemma not_id_insert id h i F : not_id id F -> di_id i <> id -> not_id id (<[h := i]> F).
Proof. intros HF Hi. by apply map_Forall_insert_2. Qed.
Lemma used_not_id ids id F : used_ids ids F -> is_device_id_free ids id = true -> not_id id F.
Proof. intros HF Hf h i Hi Heq. apply HF in Hi. cbn in Hi. congruence. Qed.
Lemma used_ids_used ids id F : used_ids ids F -> used_ids (set_used id ids) F.
Proof. intros HF h i Hi. rewrite is_free_used. case_decide; [done|]. by apply (HF h). Qed.
Lemma used_ids_free ids id F : used_ids ids F -> not_id id F -> used_ids (set_free id ids) F.
Proof. intros HF Hn h i Hi. rewrite is_free_free. rewrite decide_False; [by apply (HF h)|]. by apply (Hn h). Qed.
Lemma delete_delete_subseteq_not_id id h F : not_id id (delete h F) -> forall k, not_id id (delete h (delete k F)).
Proof. intros HF k. rewrite delete_delete. by apply not_id_delete. Qed.

(** Replacing the description of a device by one of the same device. *)
Definition same_device (i j : device_info) : Prop := di_hash i = di_hash j /\ di_id i = di_id j.
Lemma Forall_resave (R : cstr -> device_info -> Prop) (F : gmap cstr device_info) h i j :
  (forall k i j, same_device i j -> R k i -> R k j) ->
  map_Forall R F -> F !! h = Some i -> same_device i j -> map_Forall R (<[h := j]> F).
Proof. intros HR HF Hi Hs. apply map_Forall_insert_2; [|done]. apply (HR h i j Hs). by apply HF. Qed.
Lemma files_ok_resave F h i j : files_ok F -> F !! h = Some i -> same_device i j -> files_ok (<[h := j]> F).
Proof. apply Forall_resave. intros k ? ? [<- <-]. done. Qed.
Lemma not_id_resave id F h i j : not_id id F -> F !! h = Some i -> same_device i j -> not_id id (<[h := j]> F).
Proof. apply Forall_resave. intros k ? ? [_ <-]. done. Qed.
Lemma not_id_delete_resave id F h k i j : not_id id (delete k F) -> F !! h = Some i -> same_device i j -> not_id id (delete k (<[h := j]> F)).
Proof.
  intros HF Hi Hs. destruct (decide (h = k)) as [->|Hne]; [by rewrite delete_insert_eq|].
  rewrite delete_insert_ne by done. eapply not_id_resave; [done| |done]. by rewrite lookup_delete_ne.
Qed.
Lemma used_ids_resave ids F h i j : used_ids ids F -> F !! h = Some i -> same_device i j -> used_ids ids (<[h := j]> F).
Proof. apply Forall_resave. intros k ? ? [_ <-]. done. Qed.
Lemma ids_inj_resave F h i j : ids_inj F -> F !! h = Some i -> same_device i j -> ids_inj (<[h := j]> F).
Proof.
  intros HF Hi [_ Hs]. apply ids_inj_insert; [done|]. rewrite <-Hs. by apply ids_inj_not_id.
Qed.
Lemma same_device_deleted b i : same_device i (put_di_deleted b i).
Proof. done. Qed.
Lemma same_device_initialized b i : same_device i (put_di_initialized b i).
Proof. done. Qed.
Lemma same_device_size z i : same_device i (put_di_size z i).
Proof. done. Qed.

Create HintDb dev.
#[export] Hint Resolve ids_inj_insert ids_inj_delete ids_inj_not_id not_id_delete not_id_insert used_not_id used_ids_used
  used_ids_free delete_delete_subseteq_not_id files_ok_resave not_id_resave not_id_delete_resave used_ids_resave ids_inj_resave
  same_device_deleted same_device_initialized same_device_size : dev.

Section inv.
Context {P : Type} {opsP : PoolOps P} {lawsP : PoolLaws P}.
Implicit Types (w : dworld P) (d : disk P) (p : P).

Definition in_pool (p : P) : gmap cstr device_info -> Prop := map_Forall (fun _ i => di_id i ∈ pool_ids p).
(** The transaction that has been announced and not been finished. *)
Definition pending (d : disk P) : option transaction :=
  match dk_trans d with
  | Some t => if pool_tid (dk_pool d) <? tr_open t then Some t else None
  | None => None
  end.
(** The files that no transaction is about. *)
Definition committed (d : disk P) : gmap cstr device_info :=
  match pending d with Some t => delete (tr_hash t) (dk_files d) | None => dk_files d end.
(** The device of an unfinished transaction is not that of another file. *)
Definition trans_ok (p : P) (F : gmap cstr device_info) (T : option transaction) : Prop :=
  forall t, T = Some t -> named (tr_hash t) /\ dev_id (tr_id t) /\
    (pool_tid p < tr_open t -> not_id (tr_id t) (delete (tr_hash t) F)).

(** At every moment: the devices of the committed files are in the pool, and undoing the
    unfinished transaction concerns none of them. *)
Record dsafe (d : disk P) : Prop := {
  sf_files : files_ok (dk_files d);
  sf_inj : ids_inj (dk_files d);
  sf_trans : trans_ok (dk_pool d) (dk_files d) (dk_trans d);
  sf_pool : in_pool (dk_pool d) (committed d)
}.

(** A state of the disk after which [b] more transactions can be numbered. *)
Definition past (b : Z) (d : disk P) : Prop := dsafe d /\ pool_tid (dk_pool d) + b < 2 ^ 64.

(** Between operations: the memory agrees with the files, all the files have their device;
    [b] more transactions can be numbered. *)
Record settled (b : Z) (w : dworld P) : Prop := {
  st_store : dw_store w = dk_files (dw_disk w);
  st_used : used_ids (dw_ids w) (dk_files (dw_disk w));
  st_tid : dw_tid w = pool_tid (dk_pool (dw_disk w));
  st_room : dw_tid w + b < 2 ^ 64;
  st_files : files_ok (dk_files (dw_disk w));
  st_inj : ids_inj (dk_files (dw_disk w));
  st_trans : trans_ok (dk_pool (dw_disk w)) (dk_files (dw_disk w)) (dk_trans (dw_disk w));
  st_pool : in_pool (dk_pool (dw_disk w)) (dk_files (dw_disk w));
  st_hist : Forall (past b) (dw_hist w)
}.

Lemma committed_subseteq d : committed d ⊆ dk_files d.
Proof. unfold committed. destruct (pending d); [apply delete_subseteq|done]. Qed.
Lemma in_pool_subseteq p F F' : in_pool p F -> F' ⊆ F -> in_pool p F'.
Proof. intros HF Hs h i Hi. apply (HF h). by eapply lookup_weaken. Qed.
Lemma in_pool_delete p h F : in_pool p F -> in_pool p (delete h F).
Proof. intros HF. by apply map_Forall_delete. Qed.
Lemma in_pool_ids p p' F : in_pool p F -> pool_ids p ⊆ pool_ids p' -> in_pool p' F.
Proof. intros HF Hs h i Hi. apply Hs. by apply (HF h). Qed.
Lemma in_pool_removed p p' id F : in_pool p F -> not_id id F -> pool_ids p ∖ {[id]} ⊆ pool_ids p' -> in_pool p' F.
Proof. intros HF Hn Hs h i Hi. apply Hs, elem_of_difference. split; [by apply (HF h)|]. apply Hn in Hi. set_solver. Qed.
Lemma in_pool_resave p F h i j : in_pool p F -> F !! h = Some i -> same_device i j -> in_pool p (<[h := j]> F).
Proof. apply Forall_resave. intros k ? ? [_ <-]. done. Qed.

(** All the files have their device. *)
Lemma dsafe_all F T m p : files_ok F -> ids_inj F -> trans_ok p F T -> in_pool p F -> dsafe (Disk F T m p).
Proof. intros. split; [done..|]. eapply in_pool_subseteq; [done|]. apply committed_subseteq. Qed.
Lemma dsafe_hist b F T m p ds :
  files_ok F -> ids_inj F -> trans_ok p F T -> in_pool p F -> pool_tid p + b < 2 ^ 64 -> Forall (past b) ds ->
  Forall (past b) (Disk F T m p :: ds).
Proof. intros. constructor; [|done]. split; [by apply dsafe_all|done]. Qed.
Lemma past_less b b' ds : Forall (past b) ds -> b' <= b -> Forall (past b') ds.
Proof. intros H Hle. eapply Forall_impl; [exact H|]. intros d [Hd Hr]. split; [done|lia]. Qed.
(** The files other than that of an unfinished transaction have. *)
Lemma dsafe_pending F t m p :
  files_ok F -> ids_inj F -> trans_ok p F (Some t) -> pool_tid p < tr_open t -> in_pool p (delete (tr_hash t) F) ->
  dsafe (Disk F (Some t) m p).
Proof.
  intros ??? Hlt ?. split; [done..|]. unfold committed, pending. cbn.
  by rewrite (proj2 (Z.ltb_lt _ _) Hlt).
Qed.
Lemma settled_dsafe b w : settled b w -> dsafe (dw_disk w).
Proof. intros []. destruct (dw_disk w). by apply dsafe_all. Qed.
Lemma settled_less b b' w : settled b w -> b' <= b -> settled b' w.
Proof. intros [] ?. split; try done; [lia|by eapply past_less]. Qed.

Lemma trans_ok_pool p p' F T : trans_ok p F T -> pool_tid p <= pool_tid p' -> trans_ok p' F T.
Proof. intros HT Hle t Ht. destruct (HT t Ht) as (? & ? & H). split_and!; [done..|]. intros. apply H. lia. Qed.
Lemma trans_ok_delete p F h T : trans_ok p F T -> trans_ok p (delete h F) T.
Proof. intros HT t Ht. destruct (HT t Ht) as (? & ? & H). split_and!; [done..|]. intros. by apply delete_delete_subseteq_not_id, H. Qed.
Lemma trans_ok_resave p F h i j T : trans_ok p F T -> F !! h = Some i -> same_device i j -> trans_ok p (<[h := j]> F) T.
Proof. intros HT Hi Hs t Ht. destruct (HT t Ht) as (? & ? & H). split_and!; [done..|]. intros. eapply not_id_delete_resave; eauto. Qed.
Lemma trans_ok_new p F t : named (tr_hash t) -> dev_id (tr_id t) -> not_id (tr_id t) (delete (tr_hash t) F) -> trans_ok p F (Some t).
Proof. by intros ??? ? [= <-]. Qed.
End inv.
#[export] Hint Resolve in_pool_delete in_pool_resave trans_ok_delete trans_ok_resave trans_ok_new dsafe_all dsafe_hist settled_dsafe : dev.

(** * Steps of the operations: symbolic execution, and steps that only ask *)

Section rules.
Context {P : Type} {opsP : PoolOps P}.
Implicit Types (w : dworld P) (d : disk P).

Definition push (d : disk P) (w : dworld P) : dworld P := put_disk_hist d (d :: dw_hist w) w.
Definition tick (w : dworld P) : dworld P := put_calls (S (dw_calls w)) w.

Lemma wp_ask {A} (f : nat -> A) (Q : A -> dworld P -> Prop) w : Q (f (dw_calls w)) (tick w) -> wp (ask f) Q w.
Proof. intros H. unfold ask. wp_step. wp_step. wp_step. wp_step. by wp_step. Qed.
Lemma wp_persist f (Q : unit -> dworld P -> Prop) w : Q tt (push (f (dw_disk w)) w) -> wp (persist f) Q w.
Proof. intros H. by apply wp_modify. Qed.
Lemma wp_on_pool f (Q : Z -> dworld P -> Prop) w :
  (forall r p', f (dk_pool (dw_disk w)) = (r, p') ->
    Q r (push (Disk (dk_files (dw_disk w)) (dk_trans (dw_disk w)) (dk_meta (dw_disk w)) p') w)) -> wp (on_pool f) Q w.
Proof.
  intros H. unfold on_pool. wp_step. wp_step. destruct (f (dk_pool (dw_disk w))) as [r p'] eqn:Hf.
  wp_step. apply wp_persist. wp_step. by apply H.
Qed.
Lemma wp_set_used id (Q : unit -> dworld P -> Prop) w : Q tt (put_ids (set_used id (dw_ids w)) w) -> wp (mark_device_id_used id) Q w.
Proof. intros H. by apply wp_modify. Qed.
Lemma wp_set_free id (Q : unit -> dworld P -> Prop) w : Q tt (put_ids (set_free id (dw_ids w)) w) -> wp (mark_device_id_free id) Q w.
Proof. intros H. by apply wp_modify. Qed.
Lemma wp_set_device h f (Q : unit -> dworld P -> Prop) w : Q tt (put_store (alter f h (dw_store w)) w) -> wp (set_device h f) Q w.
Proof. intros H. by apply wp_modify. Qed.
Lemma wp_store_get h (Q : option device_info -> dworld P -> Prop) w : Q (dw_store w !! h) w -> wp (metadata_store_get h) Q w.
Proof. intros H. unfold metadata_store_get. wp_step. wp_step. by wp_step. Qed.
Lemma wp_store_remove h (Q : bool -> dworld P -> Prop) w :
  Q (bool_decide (is_Some (dw_store w !! h))) (put_store (delete h (dw_store w)) w) -> wp (metadata_store_remove h) Q w.
Proof. intros H. unfold metadata_store_remove. wp_step. wp_step. wp_step. wp_step. by wp_step. Qed.
End rules.

(** One step, with the rules of the device set. *)
Ltac dstep :=
  lazymatch goal with
  | |- wp (ask _) _ _ => apply wp_ask
  | |- wp (persist _) _ _ => apply wp_persist
  | |- wp (on_pool _) _ _ => apply wp_on_pool; intros ? ? ?
  | |- wp (mark_device_id_used _) _ _ => apply wp_set_used
  | |- wp (mark_device_id_free _) _ _ => apply wp_set_free
  | |- wp (set_device _ _) _ _ => apply wp_set_device
  | |- wp (metadata_store_get _) _ _ => apply wp_store_get
  | |- wp (metadata_store_remove _) _ _ => apply wp_store_remove
  | |- wp (if _ then _ else _) _ _ => apply wp_if; intros ?
  | |- wp (when _ _) _ _ => apply wp_when; intros ?
  | |- _ => wp_step
  end.
Ltac dsteps := repeat dstep.
(** Projections of the state after changes. *)
Ltac dproj :=
  cbn [dw_store dw_ids dw_next dw_tid dw_trans dw_uuid dw_fs dw_deleted dw_disk dw_hist dw_calls dk_files dk_trans dk_meta dk_pool
       push tick put_store put_ids put_next put_tid put_trans put_uuid put_fs put_nr_deleted put_disk_hist put_calls] in *.

Section steps.
Context {P : Type} {opsP : PoolOps P} {lawsP : PoolLaws P}.
Variable E : dev_env.
Implicit Types (w : dworld P) (d : disk P) (F : gmap cstr device_info).
Hypothesis HE : env_ok E.
Abbreviation files w := (dk_files (dw_disk w)).

(** Steps that only ask. *)
Definition asks (w w' : dworld P) : Prop := exists n, w' = put_calls n w.
Lemma asks_refl w : asks w w.
Proof. exists (dw_calls w). by destruct w. Qed.
Lemma asks_tick w : asks w (tick w).
Proof. by eexists. Qed.
Lemma asks_trans w1 w2 w3 : asks w1 w2 -> asks w2 w3 -> asks w1 w3.
Proof. intros [n ->] [m ->]. by exists m. Qed.
Lemma settled_asks b w w' : settled b w -> asks w w' -> settled b w'.
Proof. intros [] [n ->]. by split. Qed.

Definition quiet {A} (m : M (dworld P) A) : Prop := forall w, wp m (fun _ => asks w) w.
Lemma quiet_mret {A} (a : A) : quiet (mret a).
Proof. intros w. apply wp_mret, asks_refl. Qed.
Lemma quiet_ask {A} (f : nat -> A) : quiet (ask f).
Proof. intros w. apply wp_ask, asks_tick. Qed.
Lemma quiet_gets {A} (f : dworld P -> A) : quiet (gets f).
Proof. intros w. apply wp_gets, asks_refl. Qed.
Lemma quiet_bind {A B} (m : M (dworld P) A) (k : A -> M (dworld P) B) : quiet m -> (forall a, quiet (k a)) -> quiet (m ≫= k).
Proof.
  intros Hm Hk w. wp_step. eapply wp_conseq; [apply Hm|]. intros a w1 H1.
  eapply wp_conseq; [apply Hk|]. intros b w2. by apply asks_trans.
Qed.
Lemma quiet_if {A} (c : bool) (m1 m2 : M (dworld P) A) : quiet m1 -> quiet m2 -> quiet (if c then m1 else m2).
Proof. by destruct c. Qed.
Lemma quiet_when (c : bool) (m : M (dworld P) unit) : quiet m -> quiet (when c m).
Proof. destruct c; [done|]. intros. apply quiet_mret. Qed.
End steps.
Ltac quiet :=
  repeat first
    [ apply quiet_mret | apply quiet_ask | apply quiet_gets | apply quiet_if | apply quiet_when
    | apply quiet_bind; [|intros ?] | progress (match goal with |- quiet (match ?x with _ => _ end) => destruct x end) | solve [auto with dev] ].

Section devices.
Context {P : Type} {opsP : PoolOps P} {lawsP : PoolLaws P}.
Variable E : dev_env.
Implicit Types (w : dworld P) (d : disk P) (F : gmap cstr device_info).
Hypothesis HE : env_ok E.
Abbreviation files w := (dk_files (dw_disk w)).

Lemma quiet_cancel n : quiet (P := P) (cancel_retries E n).
Proof. induction n as [|n IH]; cbn [cancel_retries]; quiet. Qed.
Lemma quiet_deactivate : quiet (P := P) (deactivate_device E).
Proof. unfold deactivate_device. quiet. Qed.
Lemma quiet_free_space : quiet (P := P) (pool_has_free_space E).
Proof. unfold pool_has_free_space. quiet. Qed.
Hint Resolve quiet_cancel quiet_deactivate quiet_free_space : dev.
Lemma quiet_cancel_if_needed : quiet (P := P) (cancel_deferred_removal_if_needed E).
Proof. unfold cancel_deferred_removal_if_needed, cancel_deferred_removal. quiet. Qed.
Hint Resolve quiet_cancel_if_needed : dev.
Lemma quiet_activate i : quiet (P := P) (activate_device_if_needed E i).
Proof. unfold activate_device_if_needed. quiet. Qed.
Hint Resolve quiet_activate : dev.
Lemma quiet_grow_fs i : quiet (P := P) (grow_fs E i).
Proof. unfold grow_fs. quiet. Qed.

(** The memory answers for every file. *)
Lemma wp_lookup h (Q : option device_info -> dworld P -> Prop) w :
  dw_store w = files w -> named h -> Q (files w !! h) w -> wp (lookup_device E h) Q w.
Proof.
  intros Hst Hh HQ. unfold lookup_device. dsteps. rewrite Hst. destruct (files w !! h) as [i|] eqn:Hi; [by dsteps|].
  unfold load_metadata. dsteps. rewrite Hh, Hi. by dsteps.
Qed.
End devices.
#[export] Hint Resolve quiet_cancel quiet_deactivate quiet_free_space quiet_cancel_if_needed quiet_activate quiet_grow_fs
  settled_asks : dev.
