(* ===== verification/DevicesetOps.v ===== *)
(** The transactions, creating a device and deleting one: each leaves the device set settled and
    every state of the disk on the way safe. *)
From S2P Require Import Prelude KeyOrders Effects Deviceset DevicesetIds DevicesetInv.

Open Scope Z_scope.

Section devices.
Context {P : Type} {opsP : PoolOps P} {lawsP : PoolLaws P}.
Variable E : dev_env.
Implicit Types (w : dworld P) (d : disk P) (F : gmap cstr device_info).
Hypothesis HE : env_ok E.
Abbreviation files w := (dk_files (dw_disk w)).
Abbreviation pool w := (dk_pool (dw_disk w)).

(** The transaction about [h] is announced on the disk. *)
Definition announced (h : cstr) w : Prop :=
  (exists t, dk_trans (dw_disk w) = Some t /\ tr_hash t = h /\ tr_open t = dw_tid w + 1) /\
  tr_hash (dw_trans w) = h /\ tr_open (dw_trans w) = dw_tid w + 1.
(** The same files and ids. *)
Definition same_files w w' : Prop :=
  files w' = files w /\ dw_ids w' = dw_ids w /\ pool_ids (pool w') = pool_ids (pool w).

Lemma announced_asks h w w' : announced h w -> asks w w' -> announced h w'.
Proof. by intros H [n ->]. Qed.
Lemma same_files_refl w : same_files w w.
Proof. done. Qed.

(** A step of the disk of a settled device set. *)
Lemma settled_push b w F T m p :
  settled b w -> F = dw_store w -> trans_ok p F T -> pool_tid p = pool_tid (pool w) -> in_pool p F ->
  settled b (push (Disk F T m p) w).
Proof.
  intros [Hs ? ? ? ? ? ? ? Hh] -> HT Htid Hp. rewrite Hs in *.
  split; cbn [dw_store dw_ids dw_tid dw_disk dw_hist dk_files dk_pool dk_trans push put_disk_hist]; [done|done|congruence|done..|].
  apply dsafe_hist; try done. lia.
Qed.
Lemma settled_pool b w p :
  settled b w -> pool_tid p = pool_tid (pool w) -> in_pool p (files w) ->
  settled b (push (Disk (files w) (dk_trans (dw_disk w)) (dk_meta (dw_disk w)) p) w).
Proof.
  intros Hs Ht Hp. apply settled_push; [done|by rewrite (st_store _ _ Hs)|..|done|done].
  eapply trans_ok_pool; [apply Hs|lia].
Qed.
Lemma settled_one b w : settled (b + 1) w -> settled b w.
Proof. intros Hs. apply settled_less with (b + 1); [done|lia]. Qed.
Lemma settled_ids b w ids : settled b w -> used_ids ids (files w) -> settled b (put_ids ids w).
Proof. intros [] ?. by split. Qed.
Lemma settled_set_free b w id : settled b w -> not_id id (files w) -> settled b (put_ids (set_free id (dw_ids w)) w).
Proof. intros Hs ?. apply settled_ids; [done|]. apply used_ids_free; [apply Hs|done]. Qed.
Lemma settled_trans b w t : settled b w -> settled b (put_trans t w).
Proof. intros []. by split. Qed.
Lemma settled_next b w n : settled b w -> settled b (put_next n w).
Proof. intros []. by split. Qed.
Lemma settled_deleted b w n : settled b w -> settled b (put_nr_deleted n w).
Proof. intros []. by split. Qed.
Lemma settled_tick b w : settled b w -> settled b (tick w).
Proof. intros []. by split. Qed.
(** A description of a device is replaced in the memory and in its file. *)
Lemma settled_resave b w h i j :
  settled b w -> files w !! h = Some i -> same_device i j ->
  settled b (push (Disk (<[h := j]> (files w)) (dk_trans (dw_disk w)) (dk_meta (dw_disk w)) (pool w))
    (put_store (<[h := j]> (dw_store w)) w)).
Proof.
  intros [Hs Hu ? ? Hf Hi HT Hp Hh] Hl Hd. rewrite Hs in *.
  assert (trans_ok (pool w) (<[h := j]> (files w)) (dk_trans (dw_disk w))) by eauto with dev.
  split; dproj; eauto with dev. apply dsafe_hist; eauto with dev. lia.
Qed.

Lemma wp_open b h id w :
  settled (b + 1) w -> 0 <= b -> named h -> dev_id id -> not_id id (delete h (files w)) ->
  wp (open_transaction E h id) (fun r w' => settled (b + 1) w' /\ same_files w w' /\ (r = 0 -> announced h w')) w.
Proof.
  intros Hs Hb Hh Hid Hn. unfold open_transaction, save_transaction_metadata. dsteps.
  - assert (wrap_u 64 (dw_tid w + 1) = dw_tid w + 1) as Hw.
    { apply wrap_u_small. pose proof (pl_tid (pool w)). rewrite (st_tid _ _ Hs) at 1. pose proof (st_room _ _ Hs). lia. }
    split_and!; [|done|]; cbn.
    + apply settled_push; [by apply settled_tick, settled_trans|symmetry; apply Hs|by apply trans_ok_new|done|apply Hs].
    + intros _. split; [eexists; split; [done|]; cbn; by rewrite Hw|]. cbn. by rewrite Hw.
  - split_and!; [by apply settled_tick, settled_trans|done|done].
Qed.
Lemma wp_refresh b h id w :
  settled b w -> announced h w -> named h -> dev_id id -> not_id id (delete h (files w)) ->
  wp (refresh_transaction E id) (fun _ w' => settled b w' /\ same_files w w' /\ announced h w') w.
Proof.
  intros Hs (Hd & Hm1 & Hm2) Hh Hid Hn. unfold refresh_transaction, save_transaction_metadata. dsteps.
  - split_and!; [|done|]; cbn.
    + apply settled_push; [by apply settled_tick, settled_trans|symmetry; apply Hs|apply trans_ok_new; cbn; by rewrite ?Hm1|done|apply Hs].
    + split; [by eexists|done].
  - split_and!; [by apply settled_tick, settled_trans|done|done].
Qed.
Lemma wp_close b h w :
  settled (b + 1) w -> announced h w -> 0 <= b -> wp close_transaction (fun _ w' => settled b w' /\ same_files w w') w.
Proof.
  intros Hs (_ & Hm1 & Hm2) Hb. unfold close_transaction, update_pool_transaction_id. dsteps.
  all: apply pl_set in H as [Hids Htid]; rewrite ?negb_true_iff, ?negb_false_iff in *.
  - rewrite decide_False in Htid by by apply Z.eqb_neq. split; [|by split_and!]. apply settled_one. apply settled_pool; [done..|].
    eapply in_pool_ids; [apply Hs|by rewrite Hids].
  - rewrite decide_True in Htid by by apply Z.eqb_eq. destruct Hs as [Hst Hu Ht Hr Hf Hi HT Hp Hh].
    assert (in_pool p' (files w)) by (eapply in_pool_ids; [done|by rewrite Hids]).
    assert (trans_ok p' (files w) (dk_trans (dw_disk w))) by (eapply trans_ok_pool; [done|lia]).
    split; [|by split_and!]. split; dproj; try done; [lia|]. apply dsafe_hist; try done; [lia|]. eapply past_less; [done|lia].
Qed.

(** ** Creating *)

(** What the pool does when it creates a device. *)
Definition creates (create : Z -> P -> Z * P) : Prop := forall id p r p', create id p = (r, p') ->
  pool_tid p' = pool_tid p /\ pool_ids p' = (if decide (r = 0) then {[id]} ∪ pool_ids p else pool_ids p).
Lemma creates_device : creates dev_create_device.
Proof. exact pl_create. Qed.
Lemma creates_snap base : creates (fun id => dev_create_snap_device_raw id base).
Proof. intros id p. apply pl_snap. Qed.

(** A device is being created: no other file has its id. *)
Record creating (b : Z) (h : cstr) F (id : Z) w : Prop := {
  cr_settled : settled (b + 1) w;
  cr_announced : announced h w;
  cr_files : files w = F;
  cr_dev : dev_id id;
  cr_not : not_id id F;
  cr_used : is_device_id_free (dw_ids w) id = false
}.
Lemma creating_take b h F id w :
  settled (b + 1) w -> announced h w -> files w = F -> dev_id id -> is_device_id_free (dw_ids w) id = true ->
  creating b h F id (put_ids (set_used id (dw_ids w)) (put_next id w)).
Proof.
  intros Hs Ha <- Hid Hf. split; [|done|done|done|eapply used_not_id; [apply Hs|done]|].
  - apply (settled_ids _ (put_next id w)); [by apply settled_next|]. apply used_ids_used, Hs.
  - cbn. by rewrite is_free_used, decide_True.
Qed.

Lemma wp_create_turn b h F create strict cur w :
  creates create -> named h -> creating b h F cur w ->
  wp (create_turn E strict create cur) (fun r w' =>
    match r with
    | inl next => creating b h F next w' /\ (length (free_ids (dw_ids w')) < length (free_ids (dw_ids w)))%nat
    | inr (r, id) => if decide (r = 0) then creating b h F id w' /\ id ∈ pool_ids (pool w') else settled (b + 1) w' /\ files w' = F
    end) w.
Proof.
  intros Hc Hh [Hs Ha HF Hid Hn Hu]. unfold create_turn. dstep. dstep. destruct (Hc _ _ _ _ H) as [Htid Hids].
  assert (settled (b + 1) (push (Disk (files w) (dk_trans (dw_disk w)) (dk_meta (dw_disk w)) p') w)) as Hs'.
  { apply settled_pool; [done..|]. eapply in_pool_ids; [apply Hs|]. rewrite Hids. case_decide; set_solver. }
  dstep; [dsteps|dstep].
  - rewrite decide_True by done. split; [by split|]. cbn. rewrite Hids, decide_True by by apply Z.eqb_eq. set_solver.
  - dstep. eapply wp_conseq; [apply wp_next_id|]. intros [id|] w1 Ht; cbn in Ht.
    + destruct Ht as (Hid' & Hf' & ->). destruct (creating_take b h F id _ Hs' Ha HF Hid' Hf') as [Hs1 Ha1 HF1 _ Hn1 Hu1].
      dstep. eapply wp_conseq; [apply (wp_refresh (b + 1) h); [done..|]; apply not_id_delete; by rewrite <-HF in Hn1|].
      intros z w2 (Hs2 & (HF2 & Hi2 & _) & Ha2). dsteps.
      * split; [done|]. by rewrite HF2.
      * split; [split; [done|done|by rewrite HF2|done|done|by rewrite Hi2]|]. rewrite Hi2. by apply free_ids_used.
    + destruct Ht as (_ & n & ->). dsteps. split; [by apply settled_next|done].
  - dsteps. split; [|done]. apply (settled_set_free _ _ _ Hs'). by rewrite <-HF in Hn.
Qed.

Lemma wp_create_loop b h F create strict cur w :
  creates create -> named h -> creating b h F cur w -> (length (free_ids (dw_ids w)) < Pos.to_nat (2 ^ 24))%nat ->
  wp (create_loop E strict create cur) (fun '(r, id) w' =>
    if decide (r = 0) then creating b h F id w' /\ id ∈ pool_ids (pool w') else settled (b + 1) w' /\ files w' = F) w.
Proof.
  intros Hc Hh Hcr Hfew. unfold create_loop. dstep. eapply wp_conseq.
  - apply (wp_loop_for (fun k id w' => creating b h F id w' /\ (length (free_ids (dw_ids w')) + k < Pos.to_nat (2 ^ 24))%nat)
      (fun '(r, id) w' => if decide (r = 0) then creating b h F id w' /\ id ∈ pool_ids (pool w') else settled (b + 1) w' /\ files w' = F))
      with (k := 0%nat).
    + intros k id w1 [H1 Hk]. eapply wp_conseq; [by eapply wp_create_turn|]. intros [next|[r id']] w2 H2; [|done].
      destruct H2. split; [done|lia].
    + split; [done|lia].
  - intros [id|[r id]] w' H'; [destruct H'; lia|]. by apply wp_mret.
Qed.

Lemma wp_register b h F id size tid w :
  named h -> creating b h F id w -> F !! h = None -> id ∈ pool_ids (pool w) ->
  wp (register_device E id h size tid) (fun r w' =>
    settled (b + 1) w' /\
    match r with
    | Some i => i = DevInfo h id size tid false false /\ files w' = <[h := i]> F /\ announced h w' /\ pool_ids (pool w') = pool_ids (pool w)
    | None => files w' = F
    end) w.
Proof.
  intros Hh [[Hs Hu Ht Hr Hf Hi HT Hp Hd] Ha HF Hid Hn Hus] Hnone Hin. subst F.
  set (i := DevInfo h id size tid false false).
  assert (in_pool (pool w) (<[h := i]> (files w))) by (by apply map_Forall_insert_2).
  assert (files_ok (<[h := i]> (files w))) by (by apply map_Forall_insert_2).
  assert (ids_inj (<[h := i]> (files w))) by eauto with dev.
  assert (trans_ok (pool w) (<[h := i]> (files w)) (dk_trans (dw_disk w))).
  { destruct Ha as [(t & HTt & Hth & Hto) _]. rewrite HTt in *. destruct (HT t eq_refl) as (? & ? & Hnt).
    apply trans_ok_new; [done..|]. rewrite Hth in *. rewrite delete_insert_eq. apply Hnt. lia. }
  unfold register_device, metadata_store_add, save_metadata. dsteps.
  all: rewrite ?(eo_map _ HE) in *; try done; cbn; rewrite ?Hs; try (split; [by split|done]).
  - split; [|by split_and!]. split; dproj; try done; [by apply map_Forall_insert_2|]. apply dsafe_hist; try done. lia.
  - split; [split; dproj|]; try done. by rewrite delete_insert_id.
Qed.

(** A device without a file is given back to the pool. *)
Lemma wp_pool_delete b id w :
  settled b w -> not_id id (files w) ->
  wp (on_pool (dev_delete_device id)) (fun _ w' => settled b w' /\ files w' = files w) w.
Proof.
  intros Hs Hn. dsteps. destruct (pl_delete _ _ _ _ H) as [Htid Hids]. split; [|done]. apply settled_pool; [done..|].
  eapply in_pool_removed; [apply Hs|done|]. rewrite Hids. case_decide; set_solver.
Qed.
Lemma wp_give_back {A} b id (a : A) w :
  settled b w -> not_id id (files w) ->
  wp (_ ← on_pool (dev_delete_device id); mark_device_id_free id;; mret a) (fun r w' => r = a /\ settled b w' /\ files w' = files w) w.
Proof.
  intros Hs Hn. dstep. eapply wp_conseq; [by apply wp_pool_delete|]. intros _ w1 [Hs1 HF1]. dsteps.
  split_and!; [done| |done]. apply settled_set_free; [done|by rewrite HF1].
Qed.

(** The file and the entry of a device go. *)
Lemma wp_unregister b h w :
  dw_store w = files w -> is_Some (files w !! h) ->
  (let F := delete h (files w) in
   settled b (push (Disk F (dk_trans (dw_disk w)) (dk_meta (dw_disk w)) (pool w)) (put_store F w))) ->
  wp (unregister_device E h) (fun r w' =>
    r = 0 /\ settled b w' /\ files w' = delete h (files w) /\ (forall k, announced k w -> announced k w')) w.
Proof.
  cbn zeta. intros Hst Hi Hs. unfold unregister_device, remove_metadata. dstep. dstep. rewrite Hst, bool_decide_true by done. dsteps.
  all: rewrite ?(eo_remove _ HE) in *; try done.
  split_and!; [done|exact (settled_tick b _ Hs)|done|done].
Qed.
Lemma settled_unregister b w h :
  settled b w -> let F := delete h (files w) in
  settled b (push (Disk F (dk_trans (dw_disk w)) (dk_meta (dw_disk w)) (pool w)) (put_store F w)).
Proof.
  intros [Hs Hu ? ? Hf Hi HT Hp Hh].
  assert (files_ok (delete h (files w))) by by apply map_Forall_delete.
  assert (used_ids (dw_ids w) (delete h (files w))) by by apply map_Forall_delete.
  split; dproj; eauto with dev. apply dsafe_hist; eauto with dev. lia.
Qed.

Lemma wp_create_and_register b h create strict size w :
  creates create -> named h -> settled (b + 1) w -> 0 <= b -> files w !! h = None ->
  wp (create_and_register E strict create h size) (fun r w' =>
    settled b w' /\
    match r with
    | Some i => files w' = <[h := i]> (files w) /\ di_hash i = h /\ di_size i = size /\ di_initialized i = false /\
        di_deleted i = false /\ not_id (di_id i) (files w)
    | None => files w' = files w
    end) w.
Proof.
  intros Hc Hh Hs Hb Hnone. unfold create_and_register. dstep. eapply wp_conseq; [apply wp_next_id|].
  intros [id|] w1 Ht; cbn in Ht; [|destruct Ht as (_ & n & ->); dsteps; split; [|done]; by apply settled_one, settled_next].
  destruct Ht as (Hid & Hf & ->). pose proof (used_not_id _ _ _ (st_used _ _ Hs) Hf) as Hn.
  pose proof (free_ids_used _ _ Hid Hf) as Hfew. pose proof (free_ids_length (dw_ids w)).
  dstep. eapply wp_conseq; [apply (wp_open b); [|done..|by apply not_id_delete]|].
  { apply (settled_ids _ (put_next id w)); [by apply settled_next|]. apply used_ids_used, Hs. }
  intros z w2 (Hs2 & (HF2 & Hi2 & _) & Ha2). dproj. dstep.
  { dsteps. split; [|done]. apply settled_one. apply settled_set_free; [done|by rewrite HF2]. }
  rewrite negb_false_iff, Z.eqb_eq in *. dstep. eapply wp_conseq; [apply (wp_create_loop b h (files w) create strict); [done..| |]|].
  { split; [done|by apply Ha2|done..|]. by rewrite Hi2, is_free_used, decide_True. }
  { rewrite Hi2. lia. }
  intros [r id'] w3 H3. cbn [fst snd]. dstep.
  { rewrite decide_False in H3 by (rewrite <-Z.eqb_neq; by rewrite <-negb_true_iff). destruct H3. dsteps. split; [|done].
    by apply settled_one. }
  rewrite decide_True in H3 by by rewrite <-Z.eqb_eq, <-negb_false_iff. destruct H3 as [Hcr Hin]. pose proof (cr_not _ _ _ _ _ Hcr) as Hn'.
  dstep. dstep. dstep. eapply wp_conseq; [by eapply wp_register|].
  intros [i|] w4 [Hs4 H4].
  - destruct H4 as (-> & HF4 & Ha4 & _). dstep. eapply wp_conseq; [by apply (wp_close b h)|]. intros z' w5 (Hs5 & HF5 & _). dstep; [|dsteps; split; [done|]].
    + dstep. eapply wp_conseq; [eapply (wp_unregister b)|].
      * apply Hs5.
      * rewrite HF5, HF4, lookup_insert_eq. by eexists.
      * by apply settled_unregister.
      * intros z6 w6 (_ & Hs6 & HF6 & _).
        rewrite HF5, HF4, delete_insert_id in HF6 by done.
        eapply wp_conseq; [apply (wp_give_back b); [done|by rewrite HF6]|]. intros ? w7 (-> & Hs7 & HF7). split; [done|congruence].
    + split_and!; [congruence|done..].
  - eapply wp_conseq; [apply (wp_give_back (b + 1)); [done|by rewrite H4]|]. intros ? w7 (-> & Hs7 & HF7).
    split; [by apply settled_one|congruence].
Qed.

(** ** Deleting *)

Lemma alter_is_insert {A} (f : A -> A) k x (m : gmap cstr A) : m !! k = Some x -> alter f k m = <[k := f x]> m.
Proof. intros H. rewrite <-(insert_id m k x H) at 1. apply alter_insert_eq. Qed.
Lemma put_deleted_id b i : di_deleted i = b -> put_di_deleted b i = i.
Proof. by destruct i; cbn; intros ->. Qed.
Lemma put_initialized_id b i : di_initialized i = b -> put_di_initialized b i = i.
Proof. by destruct i; cbn; intros ->. Qed.

(** The object of a device changes and its file is saved; when that fails the change is taken back. *)
Definition saves w h i w' (r : Z) : Prop :=
  files w' = (if decide (r = 0) then <[h := i]> (files w) else files w) /\ (forall k, announced k w -> announced k w').
Lemma wp_resave b h i f undo k (Q : Z -> dworld P -> Prop) w :
  settled b w -> files w !! h = Some i -> same_device i (f i) -> undo (f i) = i ->
  (forall w', settled b w' -> saves w h (f i) w' 0 -> wp k Q w') ->
  (forall w', settled b w' -> saves w h (f i) w' (-1) -> Q (-1) w') ->
  wp (set_device h f;; z ← save_metadata E (f i); if negb (z =? 0) then set_device h undo;; mret (-1) else k) Q w.
Proof.
  intros Hs Hi Hf Hu Hk HQ. assert (di_hash (f i) = h) as Hh.
  { destruct Hf as [<- _]. by destruct (st_files _ _ Hs h i Hi). }
  unfold save_metadata. dsteps; try done; rewrite ?(st_store _ _ Hs), ?(alter_is_insert _ _ _ _ Hi), ?Hh.
  - apply Hk; [|done]. pose proof (settled_resave b w h i (f i) Hs Hi Hf) as Hr. rewrite (st_store _ _ Hs) in Hr.
    exact (settled_tick b _ Hr).
  - apply HQ; [|done]. dproj. rewrite alter_insert_eq, Hu, insert_id by done. destruct Hs. by split.
Qed.

Lemma wp_mark_deferred b h i w :
  settled b w -> files w !! h = Some i ->
  wp (mark_for_deferred_deletion E i) (fun r w' => settled b w' /\ saves w h (put_di_deleted true i) w' r) w.
Proof.
  intros Hs Hi. assert (di_hash i = h) as Hh by by destruct (st_files _ _ Hs h i Hi).
  unfold mark_for_deferred_deletion. dstep; [dsteps|].
  { split; [done|]. split; [|done]. rewrite decide_True, put_deleted_id, insert_id by done. done. }
  rewrite Hh. apply (wp_resave b h i); [done..|exact (put_deleted_id false i H)| |done].
  intros w' Hs' HF'. dsteps. split; [by apply settled_deleted|done].
Qed.

(** The device is gone and then its file. *)
Lemma settled_pool_delete b h i w p' :
  settled b w -> announced h w -> files w !! h = Some i ->
  pool_tid p' = pool_tid (pool w) -> pool_ids p' = pool_ids (pool w) ∖ {[di_id i]} ->
  let F := delete h (files w) in
  let T := dk_trans (dw_disk w) in
  let m := dk_meta (dw_disk w) in
  settled b (push (Disk F T m p') (put_store F (push (Disk (files w) T m p') w))).
Proof.
  intros [Hs Hu Ht Hr Hf Hi HT Hp Hh] [(t & HTt & Hth & Hto) _] Hl Htid Hids F T m. subst T. rewrite HTt in *.
  assert (not_id (di_id i) F) as Hn by by apply ids_inj_not_id.
  assert (in_pool p' F) as Hp'.
  { eapply in_pool_removed; [apply in_pool_delete, Hp|done|by rewrite Hids]. }
  assert (files_ok F) by by apply map_Forall_delete.
  assert (used_ids (dw_ids w) F) by by apply map_Forall_delete.
  assert (trans_ok p' (files w) (Some t)) as HT' by (eapply trans_ok_pool; [done|lia]).
  split; dproj; subst F; eauto with dev; [congruence|]. apply dsafe_hist; eauto with dev; [lia|]. constructor; [|done].
  split; [apply dsafe_pending; [done..|lia|by rewrite Hth]|dproj; lia].
Qed.

(** A device goes in one transaction, or, when it is busy and need not go at once, is marked. *)
Lemma wp_delete_transaction b h i sync w :
  settled (b + 1) w -> 0 <= b -> files w !! h = Some i ->
  wp (delete_transaction E i sync) (fun r w' =>
    settled b w' /\
    (r <> 0 -> files w' = files w) /\
    (r = 0 -> files w' = delete h (files w) \/ sync = false /\ files w' = <[h := put_di_deleted true i]> (files w))) w.
Proof.
  intros Hs Hb Hi. destruct (st_files _ _ Hs h i Hi) as (Hh & Hnm & Hid). pose proof (ids_inj_not_id _ _ _ (st_inj _ _ Hs) Hi) as Hn.
  unfold delete_transaction. rewrite Hh. dstep. eapply wp_conseq; [by apply (wp_open b)|].
  intros z w1 (Hs1 & (HF1 & Hi1 & _) & Ha1). dstep; [dsteps; split_and!; [by apply settled_one|done|done]|].
  rewrite negb_false_iff, Z.eqb_eq in *. specialize (Ha1 H). dstep. dstep. destruct (pl_delete _ _ _ _ H0) as [Htid Hids].
  set (w2 := push _ w1). assert (announced h w2) as Ha2 by done.
  assert (r <> 0 -> settled (b + 1) w2) as Hs2.
  { intros Hr. rewrite decide_False in Hids by done. apply settled_pool; [done..|]. eapply in_pool_ids; [apply Hs1|by rewrite Hids]. }
  dstep.
  apply (wp_conseq _ (fun r' w' => settled (b + 1) w' /\ announced h w' /\ (r' <> 0 -> files w' = files w) /\
    (r' = 0 -> files w' = delete h (files w) \/ sync = false /\ files w' = <[h := put_di_deleted true i]> (files w)))).
  - dstep; [|dstep].
    + dsteps. apply andb_true_iff in H1 as [H1%negb_true_iff%Z.eqb_neq _]. split_and!; [by apply Hs2|done|done|done].
    + apply Z.eqb_eq in H2. subst r. rewrite decide_True in Hids by done. dstep.
      eapply wp_conseq; [apply (wp_unregister (b + 1) h w2)|].
      * apply Hs1.
      * subst w2. dproj. rewrite HF1, Hi. by eexists.
      * apply (settled_pool_delete (b + 1) h i w1 p'); [done|done|by rewrite HF1|done|done].
      * intros z' w3 (-> & Hs3 & HF3 & Ha3). subst w2. dproj. rewrite HF1 in HF3.
        dstep; [done|]. dsteps; (split_and!; [|by apply Ha3|done|by left]); (apply settled_set_free; [|by dproj; rewrite HF3]); by try apply settled_deleted.
    + apply Z.eqb_neq in H2. dstep. eapply wp_conseq; [apply (wp_mark_deferred (b + 1) h i); [by apply Hs2|by subst w2; dproj; rewrite HF1]|].
      intros z' w3 [Hs3 [HF3 Ha3]]. subst w2. dproj. rewrite HF1 in HF3. dsteps. destruct (Z.eqb_spec z' 0); cbn [negb]; cycle 1.
      * rewrite decide_False in HF3 by done. split_and!; [done|by apply Ha3|done|done].
      * rewrite decide_True in HF3 by done. split_and!; [done|by apply Ha3|done|]. intros _. right. split; [|done].
        destruct sync; [|done]. rewrite (proj2 (Z.eqb_neq _ _) H2) in H1. done.
  - intros r' w3 (Hs3 & Ha3 & HF3 & HF3'). dstep. eapply wp_conseq; [by apply (wp_close b h)|]. intros _ w4 (Hs4 & HF4 & _). dsteps.
    rewrite HF4. done.
Qed.
End devices.
#[export] Hint Resolve settled_ids settled_set_free settled_trans settled_next settled_deleted settled_tick settled_pool : dev.

(** * The operations of the driver *)

Section api.
Context {P : Type} {opsP : PoolOps P} {lawsP : PoolLaws P}.
Variable E : dev_env.
Implicit Types (w : dworld P) (d : disk P) (F : gmap cstr device_info).
Hypothesis HE : env_ok E.
Abbreviation files w := (dk_files (dw_disk w)).
Abbreviation pool w := (dk_pool (dw_disk w)).

(** Deleting the device [h] has had the result [r]. *)
Definition deletes (h : cstr) (sync : bool) F F' (r : Z) : Prop :=
  (r <> 0 -> F' = F) /\
  (r = 0 -> exists i, F !! h = Some i /\ (F' = delete h F \/ sync = false /\ F' = <[h := put_di_deleted true i]> F)).
Lemma deletes_failed h sync F : deletes h sync F F (-1).
Proof. done. Qed.

Lemma wp_quiet {A} (m : M (dworld P) A) (Q : A -> dworld P -> Prop) b w :
  quiet m -> settled b w -> (forall a w', settled b w' -> files w' = files w -> Q a w') -> wp m Q w.
Proof.
  intros Hm Hs HQ. eapply wp_conseq; [apply Hm|]. intros a w' Ha. apply HQ; [by eapply settled_asks|]. by destruct Ha as [n ->].
Qed.

Lemma wp_do_delete b h sync w :
  settled (b + 1) w -> 0 <= b -> named h ->
  wp (do_delete_device E h sync) (fun r w' => settled b w' /\ deletes h sync (files w) (files w') r) w.
Proof.
  intros Hs Hb Hh. unfold do_delete_device. dstep. apply wp_lookup; [apply Hs|done|].
  destruct (files w !! h) as [i|] eqn:Hi; [|dsteps; split; [by apply settled_one|done]].
  dstep. apply (wp_quiet _ _ (b + 1)); [auto with dev|done|]. intros z w1 Hs1 HF1.
  dstep; [dsteps; split; [by apply settled_one|by rewrite HF1]|].
  dstep. eapply wp_conseq; [apply (wp_delete_transaction E HE b h i); [done..|by rewrite HF1]|].
  intros r w2 (Hs2 & HF2 & HF2'). dsteps. rewrite HF1 in *. split; [done|].
  destruct (Z.eqb_spec r 0); cbn [negb]; (split; intros; [try done; by apply HF2|]); [|done]. exists i. split; [done|by apply HF2'].
Qed.
Lemma wp_delete b h sync w :
  settled (b + 1) w -> 0 <= b -> named h ->
  wp (delete_device E h sync) (fun r w' => settled b w' /\ deletes h sync (files w) (files w') r) w.
Proof.
  intros Hs Hb Hh. unfold delete_device. dstep; [dsteps; split; [by apply settled_one|done]|].
  dstep. eapply wp_conseq; [by apply wp_do_delete|]. intros r w1 [Hs1 HF1]. dsteps. split; [done|].
  destruct (Z.eqb_spec r 0); cbn [negb]; [by subst|]. split; [|done]. intros _. by apply HF1.
Qed.

(** Only devices that were marked as deleted have gone. *)
Definition purged F F' : Prop :=
  forall h, F' !! h = F !! h \/ F' !! h = None /\ exists i, F !! h = Some i /\ di_deleted i = true.
#[local] Instance purged_preorder : PreOrder purged.
Proof.
  split; [by left|]. intros F1 F2 F3 H1 H2 h. destruct (H2 h) as [->|[-> (i & Hi & Hd)]]; [apply H1|].
  right. split; [done|]. exists i. split; [|done]. destruct (H1 h) as [<-|[Hn _]]; congruence.
Qed.
Lemma deletes_purged h F F' r i : F !! h = Some i -> di_deleted i = true -> deletes h false F F' r -> purged F F'.
Proof.
  intros Hi Hd [Hne H0]. destruct (decide (r = 0)) as [Hr|Hr]; [|by rewrite Hne].
  destruct (H0 Hr) as (i' & Hi' & [->|[_ ->]]); simplify_eq.
  - intros k. destruct (decide (k = h)) as [->|Hk]; [right|left; by apply lookup_delete_ne].
    split; [apply lookup_delete_eq|]. by exists i.
  - rewrite put_deleted_id, insert_id by done. done.
Qed.

Lemma wp_cleanup_all l b w :
  settled (b + Z.of_nat (length l)) w -> 0 <= b -> Forall named l ->
  wp (cleanup_all E l) (fun _ w' => settled b w' /\ purged (files w) (files w')) w.
Proof.
  revert w. induction l as [|h l IH]; intros w Hs Hb Hl; cbn [cleanup_all length] in *.
  { dsteps. split; [|done]. by replace (b + Z.of_nat 0) with b in Hs by lia. }
  apply Forall_cons in Hl as [Hh Hl]. replace (b + Z.of_nat (S (length l))) with (b + Z.of_nat (length l) + 1) in Hs by lia.
  dstep. apply wp_lookup; [apply Hs|done|]. dstep. destruct (files w !! h) as [i|] eqn:Hi.
  - dstep.
    + dstep. eapply wp_conseq; [apply (wp_do_delete (b + Z.of_nat (length l))); [done|lia|done]|]. intros r w1 [Hs1 HF1]. dsteps.
      eapply wp_conseq; [by apply IH|]. intros _ w2 [Hs2 HF2]. split; [done|]. etrans; [by eapply deletes_purged|done].
    + apply IH; [by apply settled_one|done|done].
  - dsteps. apply IH; [by apply settled_one|done|done].
Qed.

(** There are no more files than ids. *)
Lemma files_length F : files_ok F -> ids_inj F -> (length (map_to_list F).*1 <= Pos.to_nat (2 ^ 24))%nat.
Proof.
  intros Hf Hi. rewrite length_fmap, <-(length_fmap (fun x => di_id x.2)).
  assert ((fun x : cstr * device_info => di_id x.2) <$> map_to_list F ⊆+ dev_ids) as Hsub.
  { apply NoDup_submseteq.
    - apply NoDup_fmap_2_strong; [|apply NoDup_map_to_list].
      intros [h1 i1] [h2 i2] H1%elem_of_map_to_list H2%elem_of_map_to_list Heq. cbn in Heq.
      assert (h1 = h2) by eauto. congruence.
    - intros z ([h i] & -> & Hz%elem_of_map_to_list)%list_elem_of_fmap. apply elem_of_dev_ids. by destruct (Hf h i Hz) as (_ & _ & ?). }
  apply submseteq_length in Hsub. by rewrite length_dev_ids in Hsub.
Qed.
Lemma files_named F : files_ok F -> Forall named (map_to_list F).*1.
Proof. intros Hf. apply Forall_fmap, Forall_forall. intros [h i] H%elem_of_map_to_list. by destruct (Hf h i H) as (_ & ? & _). Qed.

Lemma wp_cleanup b w :
  settled (b + 2 ^ 24) w -> 0 <= b -> wp (cleanup_deleted_devices E) (fun _ w' => settled b w' /\ purged (files w) (files w')) w.
Proof.
  intros Hs Hb. assert (settled b w) by (eapply settled_less; [done|lia]).
  pose proof (files_length _ (st_files _ _ Hs) (st_inj _ _ Hs)) as Hl.
  unfold cleanup_deleted_devices. dsteps; [by split..|]. rewrite (st_store _ _ Hs). apply wp_cleanup_all; [|done|by apply files_named, Hs].
  apply settled_less with (b + 2 ^ 24); [done|]. lia.
Qed.

(** ** Adding *)

(** One device is new, and its id is that of no other. *)
Definition adds (h : cstr) (size : Z) F F' : Prop :=
  F !! h = None /\ exists i, F' = <[h := i]> F /\ di_hash i = h /\ di_size i = size /\ di_deleted i = false /\ not_id (di_id i) F.

Lemma wp_create_snap b base h size w :
  settled (b + 1) w -> 0 <= b -> named h -> files w !! h = None ->
  wp (create_register_snap_device E base h size) (fun r w' => settled b w' /\
    (r = 0 -> adds h size (files w) (files w')) /\ (r <> 0 -> files w' = files w)) w.
Proof.
  intros Hs Hb Hh Hn. unfold create_register_snap_device. dstep.
  eapply wp_conseq; [apply (wp_create_and_register E HE b); [apply creates_snap|done..]|].
  intros [i|] w1 [Hs1 HF1]; dsteps; split; try done. destruct HF1 as (HF1 & ? & ? & _ & ? & ?).
  split; [|done]. intros _. split; [done|]. by exists i.
Qed.

Lemma wp_take_snapshot b h base size w :
  settled (b + 1) w -> 0 <= b -> named h -> files w !! h = None ->
  wp (take_snapshot E h base size) (fun r w' => settled b w' /\
    (r = 0 -> adds h size (files w) (files w')) /\ (r <> 0 -> files w' = files w)) w.
Proof.
  intros Hs Hb Hh Hn. unfold take_snapshot.
  assert (forall w', settled (b + 1) w' -> files w' = files w -> settled b w' /\
    ((-1 : Z) = 0 -> adds h size (files w) (files w')) /\ ((-1 : Z) <> 0 -> files w' = files w)) as Hfail
    by (intros; split; [by apply settled_one|done]).
  dstep. apply (wp_quiet _ _ (b + 1)); [auto with dev|done|]. intros z w1 Hs1 HF1. dstep; [dsteps; auto|].
  dstep. apply (wp_quiet _ _ (b + 1)); [apply quiet_ask|done|]. intros [i|] w2 Hs2 HF2; [|dsteps; apply Hfail; congruence].
  dstep. apply (wp_quiet _ _ (b + 1)); [unfold cancel_deferred_removal; quiet|done|]. intros c w3 Hs3 HF3. dstep; [dsteps; apply Hfail; congruence|].
  dstep. apply (wp_quiet _ _ (b + 1)); [quiet|done|]. intros s w4 Hs4 HF4. dstep.
  { dstep. apply (wp_quiet _ _ (b + 1)); [quiet|done|]. intros _ w5 Hs5 HF5. dsteps. apply Hfail; congruence. }
  assert (files w4 = files w) as HF by congruence. rewrite <-HF in *.
  dstep. eapply wp_conseq; [by apply (wp_create_snap b)|]. intros r w5 (Hs5 & HF5 & HF5').
  dstep. apply (wp_quiet _ _ b); [quiet|done|]. intros _ w6 Hs6 HF6.
  dstep. apply (wp_quiet _ _ b); [quiet|done|]. intros _ w7 Hs7 HF7. dsteps. rewrite HF7, HF6. split; [done|].
  destruct (Z.eqb_spec r 0); cbn [negb]; (split; [try done; by auto|auto]).
Qed.

Definition base_of (base_hash : option cstr) : cstr :=
  match base_hash with Some b => if (String.length (cstr_str b) =? 0)%nat then BASE else b | None => BASE end.
Lemma base_of_named b : named (base_of b).
Proof. destruct b as [b|]; [|done]. unfold base_of. destruct (_ =? _)%nat eqn:H; done. Qed.

(** Adding [h] has had the result [r]. *)
Definition added (h base : cstr) (size : option Z) F F' (r : Z) : Prop :=
  delete h F' = delete h F /\ (is_Some (F !! h) -> F' = F) /\
  (r = 0 -> exists ib z, size = Some z /\ let sz := if z =? 0 then di_size ib else z in
     F !! base = Some ib /\ di_deleted ib = false /\ di_size ib <= sz /\ adds h sz F F').
Lemma adds_delete h size F F' : adds h size F F' -> delete h F' = delete h F.
Proof. intros (_ & i & -> & _). apply delete_insert_eq. Qed.

Lemma wp_add b h base size w :
  settled (b + 2) w -> 0 <= b -> named h ->
  wp (add_device E h base size) (fun r w' => settled b w' /\ added h (base_of base) size (files w) (files w') r) w.
Proof.
  intros Hs Hb Hh. replace (b + 2) with (b + 1 + 1) in Hs by lia.
  assert (settled b w) as Hsb by (eapply settled_less; [done|lia]).
  unfold add_device. fold (base_of base). dstep; [dsteps; by split|].
  dstep. apply wp_lookup; [apply Hs|apply base_of_named|].
  destruct (files w !! base_of base) as [ib|] eqn:Hib; [|dsteps; by split].
  dstep; [dsteps; by split|]. dstep. apply wp_lookup; [apply Hs|done|].
  destruct (files w !! h) as [i|] eqn:Hn, size as [size|]; try (dsteps; by split).
  set (sz := if size =? 0 then di_size ib else size). dstep; [dsteps; by split|].
  dstep. eapply wp_conseq; [apply (wp_take_snapshot (b + 1)); [done|lia|done|done]|]. intros z w1 (Hs1 & HF1 & HF1').
  dstep; rewrite ?negb_true_iff, ?negb_false_iff, ?Z.eqb_neq, ?Z.eqb_eq in *.
  { dsteps. rewrite HF1' by done. split; [by apply settled_one|done]. }
  specialize (HF1 ltac:(done)). pose proof (adds_delete _ _ _ _ HF1) as Hd.
  dstep. eapply (wp_conseq _ (fun _ w2 => settled (b + 1) w2 /\ files w2 = files w1)).
  { unfold grow_device_fs. dstep; [by dsteps|]. dstep. apply wp_lookup; [apply Hs1|done|].
    destruct (files w1 !! h); [|by dsteps]. apply (wp_quiet _ _ (b + 1)); [auto with dev|done|]. auto. }
  intros z2 w2 [Hs2 HF2]. dstep.
  - dstep. eapply wp_conseq; [by apply (wp_do_delete b)|]. intros r w3 [Hs3 [HF3 HF3']]. dsteps. split; [done|].
    split; [|split; [rewrite Hn; by intros []|done]]. rewrite HF2 in *. destruct (decide (r = 0)) as [Hr|Hr]; [|by rewrite HF3].
    destruct (HF3' Hr) as (i & Hi & [->|[? _]]); [|done]. by rewrite delete_delete_eq.
  - dsteps. rewrite HF2. split; [by apply settled_one|]. split; [done|]. split; [rewrite Hn; by intros []|].
    intros _. exists ib, size. split; [done|]. split_and!; [done|done| |done]. rewrite Z.ltb_ge in *. done.
Qed.

(** The rest only looks. *)
Lemma wp_has b h w :
  settled b w -> wp (has_device E h) (fun r w' => settled b w' /\ files w' = files w /\
    r = negb (String.length (cstr_str h) =? 0)%nat && de_lock E && bool_decide (is_Some (files w !! h))) w.
Proof.
  intros Hs. unfold has_device. dstep; [dsteps|].
  - split_and!; [done..|]. destruct (_ =? _)%nat, (de_lock E); done.
  - apply orb_false_iff in H as [Hh Hl]. dstep. apply wp_lookup; [apply Hs|done|]. dsteps. split_and!; [done..|].
    apply negb_false_iff in Hl. by rewrite Hh, Hl.
Qed.
Lemma wp_mount b h w : settled b w -> named h -> wp (mount_device E h) (fun _ w' => settled b w' /\ files w' = files w) w.
Proof.
  intros Hs Hh. unfold mount_device. dstep; [by dsteps|]. dstep. apply wp_lookup; [apply Hs|done|].
  destruct (files w !! h); [|by dsteps]. apply (wp_quiet _ _ b); [quiet|done|auto].
Qed.
Lemma wp_unmount b h w : settled b w -> named h -> wp (unmount_device E h) (fun _ w' => settled b w' /\ files w' = files w) w.
Proof.
  intros Hs Hh. unfold unmount_device. dstep; [by dsteps|]. dstep. apply wp_lookup; [apply Hs|done|].
  destruct (files w !! h); [|by dsteps]. apply (wp_quiet _ _ b); [quiet|done|auto].
Qed.
End api.
