(* ===== verification/DevicesetBoot.v ===== *)
(** Starting up: the descriptions are read from a disk as it was at any moment, and the transaction
    that was not finished is undone. *)
From S2P Require Import Prelude KeyOrders Effects RootfsStore Deviceset DevicesetIds DevicesetInv DevicesetOps.

Open Scope Z_scope.

(** Reading works. *)
Record env_good (E : dev_env) : Prop := {
  eg_parse n : de_parse E n = true;
  eg_alloc n : de_alloc E n = true;
  eg_stat n : de_shell E n = true
}.
(** The files whose names are those of devices. *)
Definition valid_files (F : gmap cstr device_info) : gmap cstr device_info :=
  filter (fun x => util_valid_device_hash x.1 = true) F.

Lemma valid_named h : util_valid_device_hash h = true -> named h.
Proof.
  unfold util_valid_device_hash, named. intros [H|H]%orb_true_iff; [by apply bool_decide_eq_true in H as ->|].
  apply Nat.eqb_neq. intros Hl. destruct h as [s Hs]; cbn in *. destruct s; [|done].
  vm_compute in H. done.
Qed.
Lemma valid_files_delete F h : util_valid_device_hash h = false -> valid_files (delete h F) = valid_files F.
Proof.
  intros Hv. unfold valid_files. rewrite map_filter_delete. apply delete_id. apply map_lookup_filter_None. right. intros i _. cbn. congruence.
Qed.

Section boot.
Context {P : Type} {opsP : PoolOps P} {lawsP : PoolLaws P}.
Variable E : dev_env.
Implicit Types (w : dworld P) (d : disk P) (F : gmap cstr device_info).
Hypothesis HE : env_ok E.
Abbreviation files w := (dk_files (dw_disk w)).
Abbreviation pool w := (dk_pool (dw_disk w)).

Definition safe (b : Z) w : Prop := past b (dw_disk w) /\ Forall (past b) (dw_hist w).
Lemma settled_safe b w : settled b w -> safe b w.
Proof.
  intros Hs. split; [|apply Hs]. split; [by eapply settled_dsafe|]. rewrite <-(st_tid _ _ Hs). apply Hs.
Qed.
Lemma past_safe b d w : safe b w -> past b d -> safe b (push d w).
Proof. intros [_ Hh] Hd. split; [done|by constructor]. Qed.

Lemma dsafe_delete h F T m p : dsafe (Disk F T m p) -> dsafe (Disk (delete h F) T m p).
Proof.
  intros [Hf Hi HT Hp]. dproj. split; dproj; [by apply map_Forall_delete|auto with dev..|].
  eapply in_pool_subseteq; [exact Hp|]. unfold committed, pending. cbn.
  destruct T as [t|]; [destruct (_ <? _)|]; [apply delete_mono|..]; apply delete_subseteq.
Qed.

(** The directory is read up to [l]. *)
Record walking (b : Z) d (ids : gmap Z Z) (tid : Z) (l : list cstr) w : Prop := {
  wk_safe : safe b w;
  wk_sub : dw_store w ⊆ files w;
  wk_valid n : is_Some (dw_store w !! n) -> util_valid_device_hash n = true;
  wk_rest n : is_Some (files w !! n) -> n ∈ l \/ is_Some (dw_store w !! n);
  wk_there n : n ∈ l -> is_Some (files w !! n);
  wk_files : valid_files (files w) = valid_files (dk_files d);
  wk_pool : pool w = dk_pool d;
  wk_trans : dk_trans (dw_disk w) = dk_trans d;
  wk_ids : dw_ids w = ids;
  wk_tid : dw_tid w = tid
}.

(** A file that is there is read into the memory, unless reading fails. *)
Lemma wp_lookup_load b d ids tid n l w :
  walking b d ids tid (n :: l) w -> util_valid_device_hash n = true ->
  wp (lookup_device E n) (fun r w' =>
    walking b d ids tid (n :: l) w' /\ (env_good E -> is_Some r) /\ (is_Some r -> is_Some (dw_store w' !! n))) w.
Proof.
  intros Hw Hv. unfold lookup_device. dsteps. destruct (dw_store w !! n) as [i|] eqn:Hi.
  { dsteps. split_and!; [done|by eexists|by rewrite Hi]. }
  destruct (wk_there _ _ _ _ _ _ Hw n) as [i Hf]; [by left|].
  destruct (sf_files _ (proj1 (proj1 (wk_safe _ _ _ _ _ _ Hw))) n i Hf) as (Hh & Hnm & Hid).
  unfold load_metadata. dstep. dstep. dstep. rewrite (valid_named _ Hv), Hf. dstep. dstep. dstep.
  { dsteps. split; [by destruct Hw|]. rewrite negb_true_iff in *. split; [|by intros []]. intros Hg. by rewrite (eg_parse _ Hg) in *. }
  rewrite Hh, Hnm. unfold dev_id in Hid. rewrite (Z.gtb_ltb), (proj2 (Z.ltb_ge _ _)) by lia. dsteps; unfold metadata_store_add; dsteps.
  all: rewrite ?(eo_map _ HE) in *; try done.
  - split; [by destruct Hw|]. rewrite negb_true_iff in *. split; [|by intros []]. intros Hg. by rewrite (eg_alloc _ Hg) in *.
  - dproj. rewrite lookup_insert_eq. split; [|by split; eexists]. destruct Hw as [Hs Hsub Hval Hrest Hth ? ? ? ? ?].
    split; dproj; try done.
    + by apply insert_subseteq_l.
    + intros k. destruct (decide (k = n)) as [->|]; [done|]. rewrite lookup_insert_ne by done. auto.
    + intros k Hk. destruct (decide (k = n)) as [->|]; [by left; left|]. rewrite lookup_insert_ne by done. auto.
Qed.

Lemma wp_walk b d ids tid l w :
  walking b d ids tid l w -> NoDup l ->
  wp (walk_files E l) (fun r w' => safe b w' /\ (env_good E -> r = 0) /\ (r = 0 -> walking b d ids tid [] w')) w.
Proof.
  revert w. induction l as [|n l IH]; intros w Hw Hnd; cbn [walk_files].
  { dsteps. split; [apply Hw|done]. }
  apply NoDup_cons in Hnd as [Hnl Hnd]. dstep. dstep. assert (walking b d ids tid (n :: l) (tick w)) as Hw' by by destruct Hw.
  clear Hw. set (w1 := tick w) in *. clearbody w1. dstep.
  { dsteps. split; [apply Hw'|]. rewrite negb_true_iff in *. split; [|done]. intros Hg. by rewrite (eg_stat _ Hg) in *. }
  dstep; rewrite ?negb_true_iff, ?negb_false_iff in *.
  - unfold remove_metadata. dsteps; rewrite (eo_remove _ HE) in *; [|done]. apply IH; [|done].
    destruct Hw' as [[[Hd Hr] Hh] Hsub Hval Hrest Hth HF ? ? ? ?]. split; dproj; try done.
    + split; [|constructor]; [..|done]; (split; [|done]); apply dsafe_delete; by destruct (dw_disk w1).
    + apply map_subseteq_spec. intros k i Hk. destruct (decide (k = n)) as [->|Hne].
      * assert (util_valid_device_hash n = true) by (apply Hval; by eexists). congruence.
      * rewrite lookup_delete_ne by done. by eapply lookup_weaken.
    + intros k [i [Hne Hk]%lookup_delete_Some]. destruct (Hrest k) as [[->|?]%elem_of_cons|]; [by eexists|done|by left|by right].
    + intros k Hk. rewrite lookup_delete_ne by (by intros ->). apply Hth. by right.
    + by rewrite valid_files_delete.
  - dstep. eapply wp_conseq; [by eapply wp_lookup_load|]. intros [i|] w2 (Hw2 & Hg & Hst).
    + apply IH; [|done]. specialize (Hst ltac:(by eexists)). destruct Hw2 as [? ? ? Hrest Hth ? ? ? ? ?]. split; try done.
      * intros k Hk. destruct (Hrest k Hk) as [[->|?]%elem_of_cons|]; auto.
      * intros k Hk. apply Hth. by right.
    + dsteps. split; [apply Hw2|]. split; [|done]. intros Hgood. by destruct (Hg Hgood).
Qed.

(** The memory of the daemon when it starts. *)
Definition fresh w : Prop := dw_store w = ∅ /\ dw_ids w = ∅.

Lemma wp_device_file_walk b w :
  safe b w -> dw_store w = ∅ ->
  wp (device_file_walk E) (fun r w' => safe b w' /\ (env_good E -> r = 0) /\
    (r = 0 -> dw_store w' = files w' /\ files w' = valid_files (files w) /\ pool w' = pool w /\
       dk_trans (dw_disk w') = dk_trans (dw_disk w) /\ dw_ids w' = dw_ids w /\ dw_tid w' = dw_tid w)) w.
Proof.
  intros Hs He. unfold device_file_walk. dstep. dstep. set (l := de_readdir E _).
  assert (l ≡ₚ elements (dom (files w))) as Hl by apply (eo_readdir _ HE).
  assert (forall n, n ∈ l <-> is_Some (files w !! n)) as Hin.
  { intros n. rewrite Hl, elem_of_elements. apply elem_of_dom. }
  eapply wp_conseq; [apply (wp_walk b (dw_disk w) (dw_ids w) (dw_tid w))|].
  - split; try done; [by rewrite He; apply map_empty_subseteq|by intros n; rewrite He; intros []|..].
    + intros n Hn. left. by apply Hin.
    + intros n. apply Hin.
  - rewrite Hl. apply NoDup_elements.
  - intros r w' (Hs' & Hg & Hw). split; [done|]. split; [done|]. intros Hr. destruct (Hw Hr) as [? Hsub Hval Hrest _ HF ? ? ? ?].
    assert (dw_store w' = files w') as Hst.
    { apply map_eq. intros n. destruct (files w' !! n) as [i|] eqn:Hi.
      - destruct (Hrest n) as [?%elem_of_nil|[j Hj]]; [by eexists|done|]. rewrite Hj. rewrite <-Hi. symmetry. by eapply lookup_weaken.
      - by eapply lookup_weaken_None. }
    split_and!; try done. rewrite <-HF. symmetry. apply map_filter_id. intros n i Hi. apply Hval. rewrite Hst. by eexists.
Qed.

(** The bits of the ids of all the files are set. *)
Lemma wp_mark_all l w :
  dw_store w = files w -> Forall named l ->
  wp (mark_all E l) (fun _ w' => exists ids, w' = put_ids ids w /\
    (forall z, is_device_id_free (dw_ids w) z = false -> is_device_id_free ids z = false) /\
    forall h i, h ∈ l -> files w !! h = Some i -> is_device_id_free ids (di_id i) = false) w.
Proof.
  revert w. induction l as [|h l IH]; intros w Hst Hl; cbn [mark_all].
  { dsteps. exists (dw_ids w). split_and!; [by destruct w|done|]. by intros h i ?%elem_of_nil. }
  apply Forall_cons in Hl as [Hh Hl]. dstep. apply wp_lookup; [done..|]. dstep. destruct (files w !! h) as [i|] eqn:Hi; dsteps.
  - eapply wp_conseq; [apply IH; [done|done]|]. intros _ w' (ids & -> & Hm & Hall). exists ids. dproj. split_and!; [done|..].
    + intros z Hz. apply Hm. rewrite is_free_used. by case_decide.
    + intros k j [->|Hk]%elem_of_cons Hj; [|by eapply Hall]. simplify_eq. apply Hm. by rewrite is_free_used, decide_True.
  - eapply wp_conseq; [apply IH; [done|done]|]. intros _ w' (ids & -> & Hm & Hall). exists ids. split_and!; [done..|].
    intros k j [->|Hk]%elem_of_cons Hj; [congruence|by eapply Hall].
Qed.
Lemma wp_count_all l w :
  dw_store w = files w -> Forall named l -> wp (count_all E l) (fun _ w' => exists n, w' = put_nr_deleted n w) w.
Proof.
  revert w. induction l as [|h l IH]; intros w Hst Hl; cbn [count_all].
  { dsteps. exists (dw_deleted w). by destruct w. }
  apply Forall_cons in Hl as [Hh Hl]. dstep. apply wp_lookup; [done..|]. dstep. destruct (files w !! h) as [i|]; dsteps.
  all: (eapply wp_conseq; [by apply IH|]); intros _ w' [n ->]; by exists n.
Qed.

Lemma wp_rollback b t w :
  safe b w -> dw_store w = files w -> used_ids (dw_ids w) (files w) -> dw_tid w = pool_tid (pool w) ->
  dw_trans w = t -> dk_trans (dw_disk w) = Some t -> pool_tid (pool w) < tr_open t ->
  wp (rollback_transaction E) (fun _ w' => settled b w' /\ files w' = delete (tr_hash t) (files w) /\
    pool_ids (pool w) ∖ {[tr_id t]} ⊆ pool_ids (pool w')) w.
Proof.
  intros [[[Hf Hi HT Hp] Hr] Hh] Hst Hu Ht Hm HTt Hlt. unfold committed, pending in Hp. rewrite HTt in *.
  rewrite (proj2 (Z.ltb_lt _ _) Hlt) in Hp. destruct (HT t eq_refl) as (Hnm & Hid & Hnot). specialize (Hnot Hlt).
  unfold rollback_transaction, remove_metadata, remove_transaction_metadata. dstep. dstep. rewrite Hm. dstep. dstep.
  destruct (pl_delete _ _ _ _ H) as [Htid Hids].
  assert (pool_ids (pool w) ∖ {[tr_id t]} ⊆ pool_ids p') as Hsub by (rewrite Hids; case_decide; set_solver).
  set (F := delete (tr_hash t) (files w)) in *.
  assert (in_pool p' F) by by eapply in_pool_removed.
  assert (files_ok F) by by apply map_Forall_delete.
  assert (used_ids (dw_ids w) F) by by apply map_Forall_delete.
  assert (ids_inj F) by by apply ids_inj_delete.
  assert (trans_ok p' (files w) (Some t)) by (eapply trans_ok_pool; [done|lia]).
  dsteps; rewrite ?(eo_remove _ HE) in *; try done. dproj. rewrite Hst. split; [|done].
  assert (past b (Disk (files w) (Some t) (dk_meta (dw_disk w)) p')) by (split; [apply dsafe_pending; try done; lia|dproj; lia]).
  split; dproj; try done; [by apply used_ids_free|congruence|lia|]. rewrite HTt. fold F.
  apply dsafe_hist; try done; [lia|]. apply dsafe_hist; try done; [by apply trans_ok_delete|lia|]. by constructor.
Qed.

(** What is undone is the unfinished transaction, and nothing else. *)
Lemma wp_process_pending b w :
  safe b w -> dw_store w = files w -> used_ids (dw_ids w) (files w) -> dw_tid w = pool_tid (pool w) ->
  wp (process_pending_transaction E) (fun r w' => safe b w' /\ (env_good E -> r = 0) /\
    (r = 0 -> settled b w' /\ files w' = committed (dw_disk w) /\
       forall id, id ∈ pool_ids (pool w) -> (forall t, pending (dw_disk w) = Some t -> id <> tr_id t) -> id ∈ pool_ids (pool w'))) w.
Proof.
  intros Hs Hst Hu Ht.
  assert (pending (dw_disk w) = None -> forall t n, let w' := put_calls n (put_trans t w) in
    safe b w' /\ settled b w' /\ files w' = committed (dw_disk w)) as Hnone.
  { intros Hpn t n. pose proof Hs as [[[Hf Hi HT Hp] Hr] Hh]. unfold committed in *. rewrite Hpn in *. cbn zeta.
    split_and!; [exact Hs|split; dproj; try done; lia|done]. }
  unfold process_pending_transaction, load_transaction_metadata. dstep. dstep. dstep.
  destruct (dk_trans (dw_disk w)) as [t|] eqn:HTt.
  - destruct (sf_trans _ (proj1 (proj1 Hs)) t HTt) as (Hnm & _). dstep. dstep. dstep.
    { dstep. dstep; [|done]. dstep. split; [exact Hs|]. rewrite negb_true_iff in *. split; [|done]. intros Hg. by rewrite (eg_parse _ Hg) in *. }
    rewrite Hnm. dstep. dstep. dstep. dstep; [done|]. dsteps.
    all: dproj; rewrite ?Z.eqb_eq, ?Z.eqb_neq, ?Z.gtb_ltb, ?Z.ltb_lt, ?Z.ltb_ge in *.
    1-2: destruct (Hnone ltac:(unfold pending; rewrite HTt, (proj2 (Z.ltb_ge _ _)) by lia; done) t (S (dw_calls w))) as (? & ? & ?);
      split_and!; [done|done|intros _; split_and!; done].
    assert (pending (dw_disk w) = Some t) as Hpn by (unfold pending; rewrite HTt, (proj2 (Z.ltb_lt _ _)) by lia; done).
    eapply wp_conseq; [apply (wp_rollback b t); try done; dproj; lia|]. intros _ w1 (Hs1 & HF1 & Hids1). dproj. dsteps.
    split_and!; [apply settled_safe; by apply settled_trans|done|]. intros _. split_and!; [by apply settled_trans|..].
    + dproj. unfold committed. by rewrite Hpn.
    + intros id Hid Hne. apply Hids1, elem_of_difference. split; [done|]. apply Hne in Hpn. set_solver.
  - destruct (Hnone ltac:(unfold pending; by rewrite HTt) (Trans (dw_tid w) (tr_hash (dw_trans w)) (tr_id (dw_trans w))) (dw_calls w)) as (Ha & Hb & Hc).
    dsteps; try done; cbn [tr_open dw_tid dw_trans put_trans] in *; lia.
Qed.

(** The descriptions are read, and then the unfinished transaction is undone. *)
Definition recovered d w' : Prop :=
  files w' = valid_files (committed d) /\
  forall id, id ∈ pool_ids (dk_pool d) -> (forall t, pending d = Some t -> id <> tr_id t) -> id ∈ pool_ids (pool w').

Lemma wp_init_metadata b w :
  safe b w -> fresh w ->
  wp (init_metadata E) (fun r w' => safe b w' /\ (env_good E -> is_Some (pool_get_status (pool w)) -> r = 0) /\
    (r = 0 -> settled b w' /\ recovered (dw_disk w) w')) w.
Proof.
  intros Hs [He Hie]. unfold init_metadata. dstep. dstep. destruct (pool_get_status (pool w)) as [st|] eqn:Hst; [|dsteps; split; [done|]].
  2: { split; [|done]. by intros _ []. }
  apply pl_status in Hst. dstep. dstep. dstep. eapply wp_conseq; [apply (wp_device_file_walk b); [exact Hs|done]|].
  intros r w1 (Hs1 & Hg1 & H1). dproj. dstep.
  { dsteps. split; [done|]. split; [|done]. intros Hg. rewrite Hg1 in *; done. }
  rewrite negb_false_iff, Z.eqb_eq in *. destruct (H1 ltac:(done)) as (Hm1 & HF1 & Hp1 & HT1 & Hi1 & Ht1).
  pose proof (files_named _ (sf_files _ (proj1 (proj1 Hs1)))) as Hnm.
  unfold construct_device_id_map, count_deleted_devices. dstep. dstep. dstep. rewrite Hm1.
  eapply wp_conseq; [by apply wp_mark_all|]. intros _ w2 (ids & -> & _ & Hall).
  dstep. dstep. dstep. dproj. rewrite Hm1. eapply wp_conseq; [by apply wp_count_all|]. intros _ w3 [n ->].
  dstep. eapply wp_conseq; [apply (wp_process_pending b); [exact Hs1|done| |]|].
  - intros h i Hi. apply (Hall h); [|done]. apply list_elem_of_fmap. exists (h, i). split; [done|]. by apply elem_of_map_to_list.
  - dproj. congruence.
  - intros z w4 (Hs4 & Hg4 & H4). dsteps. split; [done|]. split.
    { intros Hg _. by rewrite Hg4. }
    destruct (Z.eqb_spec z 0) as [->|]; cbn [negb]; [|done]. intros _. destruct (H4 eq_refl) as (Hs4' & HF4 & Hids).
    split; [done|]. dproj.
    assert (pending (dw_disk w1) = pending (dw_disk w)) as Hpn by (unfold pending; by rewrite HT1, Hp1).
    split; [|by intros id; rewrite <-Hpn, <-Hp1; apply Hids]. rewrite HF4. unfold committed. rewrite Hpn, HF1.
    destruct (pending (dw_disk w)); [|done]. symmetry. apply map_filter_delete.
Qed.
End boot.

(** * The base device, and the whole of the start-up *)

Section base.
Context {P : Type} {opsP : PoolOps P} {lawsP : PoolLaws P}.
Variable E : dev_env.
Implicit Types (w : dworld P) (d : disk P) (F : gmap cstr device_info).
Hypothesis HE : env_ok E.
Abbreviation files w := (dk_files (dw_disk w)).
Abbreviation pool w := (dk_pool (dw_disk w)).

(** Settled as before, with the same files. *)
Definition stays (b : Z) F w : Prop := settled b w /\ files w = F.
Lemma stays_uuid b F w u : stays b F w -> stays b F (put_uuid u w).
Proof. intros [[] ?]. by split; [split|]. Qed.
Lemma stays_fs b F w u : stays b F w -> stays b F (put_fs u w).
Proof. intros [[] ?]. by split; [split|]. Qed.
Lemma stays_next b F w n : stays b F w -> stays b F (put_next n w).
Proof. intros [[] ?]. by split; [split|]. Qed.
Lemma stays_quiet {A} (m : M (dworld P) A) b F w : quiet m -> stays b F w -> wp m (fun _ => stays b F) w.
Proof. intros Hq [Hs HF]. apply (wp_quiet _ _ b); [done|done|]. intros a w' Hs' HF'. split; [done|congruence]. Qed.

Lemma wp_save_meta b F w : stays b F w -> wp (save_deviceset_matadata E) (fun _ => stays b F) w.
Proof.
  intros [Hs HF]. unfold save_deviceset_matadata. dsteps; (split; [|done]).
  - apply settled_push; [by apply settled_tick|symmetry; apply Hs|apply Hs|done|apply Hs].
  - by apply settled_tick.
Qed.
Lemma wp_save_uuid b F i w : stays b F w -> wp (save_base_device_uuid E i) (fun _ => stays b F) w.
Proof.
  intros Hs. unfold save_base_device_uuid. dstep. eapply wp_conseq; [apply (stays_quiet _ b F); [apply quiet_activate|done]|]. intros z w1 H1.
  dstep. eapply wp_conseq; [apply (stays_quiet _ b F); [quiet|exact H1]|]. intros u w2 H2.
  dstep. eapply (wp_conseq _ (fun _ => stays b F)).
  - destruct u as [u|]; [|by dsteps]. dstep. dstep. dstep. eapply wp_conseq; [by apply (wp_save_meta b F), stays_uuid|]. intros z' w3 H3. by dsteps.
  - intros r w3 H3. dstep. eapply wp_conseq; [apply (stays_quiet _ b F); [apply quiet_deactivate|done]|]. intros ? w4 H4. by dsteps.
Qed.
Lemma wp_create_fs b F w : stays b F w -> wp (create_file_system E) (fun _ => stays b F) w.
Proof.
  intros Hs. unfold create_file_system. dstep. dstep. dstep. eapply wp_conseq; [by apply (wp_save_meta b F), stays_fs|]. intros z w1 H1.
  apply stays_quiet; [quiet|done].
Qed.
Lemma wp_verify b F i u w : stays b F w -> wp (verify_base_device_uuidfs E i u) (fun _ => stays b F) w.
Proof.
  intros Hs. unfold verify_base_device_uuidfs. dstep. eapply wp_conseq; [apply (stays_quiet _ b F); [apply quiet_activate|done]|]. intros z w1 H1.
  dstep; [by dsteps|]. dstep. eapply wp_conseq; [apply (stays_quiet _ b F); [apply quiet_ask|done]|]. intros u' w2 H2.
  dstep. eapply (wp_conseq _ (fun _ => stays b F)).
  - dstep; [by dsteps|]. dstep. dstep. dstep; [|by dsteps]. dstep. dstep. dstep.
    eapply wp_conseq; [by apply (wp_save_meta b F), stays_fs|]. intros z' w3 Hw3. by dsteps.
  - intros r w3 H3. dstep. eapply wp_conseq; [apply (stays_quiet _ b F); [apply quiet_deactivate|done]|]. intros ? w4 H4. by dsteps.
Qed.
Lemma wp_setup_verify b F i w : stays b F w -> wp (setup_verify_baseimages_uuidfs E i) (fun _ => stays b F) w.
Proof.
  intros Hs. unfold setup_verify_baseimages_uuidfs. dstep. dstep. destruct (dw_uuid w); [by apply wp_verify|].
  dstep. eapply wp_conseq; [by apply (wp_save_uuid b F)|]. intros z w1 H1. by dsteps.
Qed.

(** The base device is there and usable, the other devices are what they were. *)
Definition base_ready F F' : Prop :=
  delete BASE F' = delete BASE F /\ exists i, F' !! BASE = Some i /\ di_initialized i = true /\ di_deleted i = false.

Lemma wp_create_base b w :
  settled (b + 1) w -> 0 <= b -> files w !! BASE = None ->
  wp (create_base_image E) (fun r w' => settled b w' /\ (r = 0 -> base_ready (files w) (files w'))) w.
Proof.
  intros Hs Hb Hn. unfold create_base_image, create_register_device. dstep.
  eapply wp_conseq; [apply (wp_create_and_register E HE b BASE); [apply creates_device|done..]|].
  intros [i|] w1 [Hs1 H1]; [|dsteps; by split]. destruct H1 as (HF1 & Hh & _ & Hin & Hdel & _).
  assert (stays b (files w1) w1) as Hst by done.
  dstep. eapply wp_conseq; [apply (stays_quiet _ b (files w1)); [apply quiet_activate|exact Hst]|]. intros z w2 [Hs2 HF2]. dstep; [dsteps; by split|].
  dstep. eapply wp_conseq; [by apply (wp_create_fs b (files w2))|]. intros z2 w3 [Hs3 HF3]. dstep; [dsteps; by split|].
  assert (files w3 = <[BASE := i]> (files w)) as HF by congruence.
  apply (wp_resave E b BASE i); [done|rewrite HF; apply lookup_insert_eq|done|exact (put_initialized_id false i Hin)|..].
  - intros w4 Hs4 [HF4 _]. dstep. eapply wp_conseq; [by apply (wp_save_uuid b (files w4))|]. intros r w5 [Hs5 HF5]. dsteps. split; [done|].
    intros _. rewrite HF5, HF4, decide_True, HF, insert_insert_eq by done. split; [apply delete_insert_eq|].
    exists (put_di_initialized true i). by rewrite lookup_insert_eq.
  - intros w4 Hs4 _. by split.
Qed.

Lemma wp_check_grow b i w :
  settled b w -> files w !! BASE = Some i -> di_initialized i = true -> di_deleted i = false ->
  wp (check_grow_base_device_fs E i) (fun r w' => safe b w' /\ (r = 0 -> settled b w' /\ base_ready (files w) (files w'))) w.
Proof.
  intros Hs Hi Hin Hdel. assert (di_hash i = BASE) as Hh by by destruct (st_files _ _ Hs _ _ Hi).
  pose proof (settled_safe _ _ Hs) as Hsf.
  assert (base_ready (files w) (files w)) as Hr by (split; [done|by exists i]).
  unfold check_grow_base_device_fs. dstep; [dsteps; by split|]. dstep. apply wp_lookup; [apply Hs|done|]. rewrite Hi.
  dstep; [dsteps; by split|]. dstep; [dsteps; by split|]. set (sz := base_fs_size E).
  dstep. dstep. unfold save_metadata. dstep. dstep. dstep. cbn [di_hash put_di_size]. rewrite (st_store _ _ Hs), (alter_is_insert _ _ _ _ Hi), Hh. dstep.
  - dstep. dstep. dstep. dstep; [done|]. pose proof (settled_resave b w BASE i (put_di_size sz i) Hs Hi (same_device_size sz i)) as Hrs.
    rewrite (st_store _ _ Hs) in Hrs. apply settled_tick in Hrs. fold sz. eapply (wp_quiet _ _ b); [apply quiet_grow_fs|exact Hrs|].
    intros r w1 Hs1 HF1. split; [by apply settled_safe|]. intros _. split; [done|]. dproj. rewrite HF1. split; [apply delete_insert_eq|].
    exists (put_di_size sz i). by rewrite lookup_insert_eq.
  - dstep. dstep; [|done]. dsteps. split; [exact Hsf|done].
Qed.

Lemma wp_setup_base b w :
  settled (b + 2) w -> 0 <= b ->
  wp (setup_base_image E) (fun r w' => safe b w' /\ (r = 0 -> settled b w' /\ base_ready (files w) (files w'))) w.
Proof.
  intros Hs Hb. replace (b + 2) with (b + 1 + 1) in Hs by lia.
  assert (settled b w) as Hsb by (eapply settled_less; [done|lia]). pose proof (settled_safe _ _ Hsb) as Hsf.
  unfold setup_base_image. dstep. apply wp_lookup; [apply Hs|done|]. destruct (files w !! BASE) as [i|] eqn:Hi.
  - dstep.
    + apply andb_true_iff in H as [Hin Hdel%negb_true_iff]. dstep. eapply wp_conseq; [by apply (wp_setup_verify b (files w))|].
      intros z w1 [Hs1 HF1]. dstep; [dsteps; split; [by apply settled_safe|done]|].
      dstep. eapply wp_conseq; [apply (wp_check_grow b i); [done|by rewrite HF1|done..]|]. intros r w2 [Hsf2 H2]. dsteps. rewrite HF1 in *.
      split; [done|]. destruct (Z.eqb_spec r 0); cbn [negb]; [auto|done].
    + dstep. eapply wp_conseq; [apply (wp_do_delete E HE (b + 1)); [done|lia|done]|]. intros z w1 [Hs1 [_ H1]].
      dstep; [dsteps; split; [by apply settled_safe, settled_one|done]|]. rewrite negb_false_iff, Z.eqb_eq in *.
      destruct (H1 ltac:(done)) as (i' & Hi' & [HF1|[? _]]); [|done].
      dstep. eapply wp_conseq; [apply (wp_create_base b); [done..|by rewrite HF1, lookup_delete_eq]|]. intros r w2 [Hs2 H2]. dsteps.
      split; [by apply settled_safe|]. destruct (Z.eqb_spec r 0); cbn [negb]; [|done]. intros _. split; [done|].
      destruct (H2 ltac:(done)) as [Hd Hb2]. split; [|done]. by rewrite Hd, HF1, delete_delete_eq.
  - dstep. eapply (wp_conseq _ (fun _ w' => w' = w)).
    { unfold check_thin_pool. destruct (util_valid_str _); by dsteps. }
    intros z ? ->. dstep; [by dsteps|].
    dstep. eapply wp_conseq; [apply (wp_create_base b); [by apply settled_one|done..]|]. intros r w2 [Hs2 H2]. dsteps.
    split; [by apply settled_safe|]. destruct (Z.eqb_spec r 0); cbn [negb]; [auto|done].
Qed.

Lemma wp_load_meta b F w : stays b F w -> wp (load_deviceset_metadata E) (fun _ => stays b F) w.
Proof.
  intros Hs. unfold load_deviceset_metadata. dstep. dstep. destruct (dk_meta (dw_disk w)); [|by dsteps].
  dstep. eapply wp_conseq; [apply (stays_quiet _ b F); [apply quiet_ask|done]|]. intros ok w1 H1. dsteps; [done|].
  by apply stays_fs, stays_uuid, stays_next.
Qed.

Lemma wp_do_init_metadata b w :
  safe b w -> fresh w ->
  wp (do_init_metadata E) (fun r w' => safe b w' /\
    (env_good E -> is_Some (pool_get_status (pool w)) -> de_pool E = true -> util_valid_str (thin_pool_device E) = true -> r = 0) /\
    (r = 0 -> settled b w' /\ recovered (dw_disk w) w')) w.
Proof.
  intros Hs Hf. unfold do_init_metadata. destruct (thin_pool_device E) as [n|] eqn:Hn; [|by dsteps].
  dstep. { dsteps. split_and!; [done| |done]. intros _ _ Hp Hv. by rewrite Hp, Hv in *. }
  dstep. eapply wp_conseq; [by apply (wp_init_metadata E HE b)|]. intros z w1 (Hs1 & H0 & H1). dsteps.
  split; [done|]. destruct (Z.eqb_spec z 0) as [->|]; cbn [negb]; [by split; [|auto]|].
  split; [|done]. intros Hg Hp _ _. by destruct (H0 Hg Hp).
Qed.

Lemma wp_devmapper_init b w :
  safe (b + 2) w -> fresh w -> 0 <= b ->
  wp (do_devmapper_init E) (fun r w' => safe b w' /\
    (r = 0 -> settled b w' /\ base_ready (valid_files (committed (dw_disk w))) (files w'))) w.
Proof.
  assert (forall w', safe (b + 2) w' -> safe b w') as Hless.
  { intros w' [[Hd Hr] Hh]. split; [split; [done|lia]|]. eapply past_less; [done|lia]. }
  intros Hs Hf Hb. unfold do_devmapper_init. dstep; [dsteps; by split; [apply Hless|]|].
  dstep. eapply wp_conseq; [by apply (wp_do_init_metadata (b + 2))|].
  intros z w1 (Hs1 & _ & H1). dstep; [dsteps; by split; [apply Hless|]|]. rewrite negb_false_iff, Z.eqb_eq in *.
  destruct (H1 ltac:(done)) as [Hst1 [HF1 _]].
  dstep. eapply wp_conseq; [by apply (wp_load_meta (b + 2) (files w1))|]. intros z2 w2 [Hs2 HF2].
  dstep; [dsteps; split; [by apply Hless, settled_safe|done]|].
  dstep. eapply wp_conseq; [by apply (wp_setup_base b)|]. intros r w3 [Hs3 H3]. dsteps. split; [done|].
  destruct (Z.eqb_spec r 0); cbn [negb]; [|done]. intros _. rewrite <-HF1, <-HF2. by apply H3.
Qed.
End base.
