(* ===== verification/DevicesetSession.v ===== *)
(** Lives of a device set: operations, and losses of power at any moment followed by a start. *)
From S2P Require Import Prelude KeyOrders Effects Deviceset DevicesetIds DevicesetInv DevicesetOps DevicesetBoot.

Open Scope Z_scope.

Inductive dev_op :=
  | DAdd (hash : cstr) (base : option cstr) (size : option Z)
  | DDelete (hash : cstr) (sync : bool)
  | DCleanup
  | DHas (hash : cstr)
  | DMount (hash : cstr)
  | DUnmount (hash : cstr)
  | DRestart (k : nat)          (** power is lost [k] steps of the disk ago *).
Definition op_ok (o : dev_op) : Prop :=
  match o with DAdd h _ _ | DDelete h _ | DMount h | DUnmount h => named h | DCleanup | DHas _ | DRestart _ => True end.
(** The transactions that an operation may number. *)
Definition op_cost (o : dev_op) : Z :=
  match o with DAdd _ _ _ => 2 | DDelete _ _ => 1 | DCleanup => 2 ^ 24 | DHas _ | DMount _ | DUnmount _ => 0 | DRestart _ => 2 end.
Definition ops_cost (l : list dev_op) : Z := foldr (fun o z => op_cost o + z) 0 l.

Section session.
Context {P : Type} {opsP : PoolOps P}.
Implicit Types (w : dworld P) (d : disk P) (F : gmap cstr device_info).

(** A new process on the disk [d]. *)
Definition reboot (d : disk P) (hist : list (disk P)) (calls : nat) : dworld P :=
  DWorld ∅ ∅ 0 0 (Trans 0 (c_str "") 0) None None 0 d hist calls.
Definition lost (k : nat) (w : dworld P) : dworld P :=
  match drop k (dw_hist w) with
  | d :: ds => reboot d (d :: ds) (dw_calls w)
  | [] => reboot (dw_disk w) (dw_hist w) (dw_calls w)
  end.
Definition run_op (E : dev_env) (o : dev_op) (w : dworld P) : option (dworld P) :=
  match o with
  | DAdd h b s => snd <$> add_device E h b s w
  | DDelete h s => snd <$> delete_device E h s w
  | DCleanup => snd <$> cleanup_deleted_devices E w
  | DHas h => snd <$> has_device E h w
  | DMount h => snd <$> mount_device E h w
  | DUnmount h => snd <$> unmount_device E h w
  | DRestart _ => Some w
  end.
(** Operations with losses of power among them.  After a loss of power the whole start
    [do_devmapper_init] runs on one of the states the disk has had; a process that could not start
    serves nobody. *)
Fixpoint dev_session (E : dev_env) (l : list dev_op) (up : bool) (w : dworld P) : option (bool * dworld P) :=
  match l with
  | [] => Some (up, w)
  | DRestart k :: l =>
      match do_devmapper_init E (lost k w) with Some (r, w) => dev_session E l (r =? 0) w | None => None end
  | o :: l => if up then match run_op E o w with Some w => dev_session E l true w | None => None end else dev_session E l false w
  end.

Context {lawsP : PoolLaws P}.
Abbreviation files w := (dk_files (dw_disk w)).
Abbreviation pool w := (dk_pool (dw_disk w)).

Lemma wp_snd {A} (m : M (dworld P) A) (Q : A -> dworld P -> Prop) w :
  wp m Q w -> exists a w', snd <$> m w = Some w' /\ Q a w'.
Proof. intros (a & w' & -> & HQ). by exists a, w'. Qed.

Lemma run_op_settled E b o w :
  env_ok E -> settled (b + op_cost o) w -> 0 <= b -> op_ok o -> exists w', run_op E o w = Some w' /\ settled b w'.
Proof.
  intros HE Hs Hb Ho.
  assert (b + 0 = b) as H0 by lia.
  destruct o as [h base size|h sync| |h|h|h|k]; cbn [run_op op_cost op_ok] in *; rewrite ?H0 in Hs.
  - destruct (wp_snd _ _ _ (wp_add E HE b h base size w Hs Hb Ho)) as (r & w' & H & ? & _). eauto.
  - destruct (wp_snd _ _ _ (wp_delete E HE b h sync w Hs Hb Ho)) as (r & w' & H & ? & _). eauto.
  - destruct (wp_snd _ _ _ (wp_cleanup E HE b w Hs Hb)) as (r & w' & H & ? & _). eauto.
  - destruct (wp_snd _ _ _ (wp_has E b h w Hs)) as (r & w' & H & ? & _). eauto.
  - destruct (wp_snd _ _ _ (wp_mount E b h w Hs Ho)) as (r & w' & H & ? & _). eauto.
  - destruct (wp_snd _ _ _ (wp_unmount E b h w Hs Ho)) as (r & w' & H & ? & _). eauto.
  - exists w. split; [done|]. eapply settled_less; [done|lia].
Qed.

Lemma safe_lost b k w : safe b w -> safe b (lost k w) /\ fresh (lost k w).
Proof.
  intros [Hd Hh]. unfold lost. destruct (drop k (dw_hist w)) as [|d ds] eqn:Hk; [done|].
  assert (Forall (past b) (d :: ds)) as Hf by (rewrite <-Hk; by apply Forall_drop).
  split; [|done]. split; [by apply Forall_cons in Hf as [? _]|done].
Qed.
Lemma safe_less b b' w : safe b w -> b' <= b -> safe b' w.
Proof. intros [[Hd Hr] Hh] Hle. split; [split; [done|lia]|]. by eapply past_less. Qed.
Lemma op_cost_nonneg o : 0 <= op_cost o.
Proof. by destruct o. Qed.
Lemma ops_cost_nonneg l : 0 <= ops_cost l.
Proof. induction l as [|o l IH]; cbn [ops_cost foldr]; [done|]. pose proof (op_cost_nonneg o). fold (ops_cost l). lia. Qed.

Lemma dev_session_safe E l b up w :
  env_ok E -> Forall op_ok l -> 0 <= b -> safe (b + ops_cost l) w -> (up = true -> settled (b + ops_cost l) w) ->
  exists up' w', dev_session E l up w = Some (up', w') /\ safe b w' /\ (up' = true -> settled b w').
Proof.
  intros HE Hl Hb. revert up w. induction Hl as [|o l Ho Hl IH]; intros up w Hs Hup; cbn [dev_session ops_cost foldr] in *.
  { replace (b + 0) with b in * by lia. eauto. }
  fold (ops_cost l) in *. pose proof (op_cost_nonneg o). pose proof (ops_cost_nonneg l).
  assert ((exists k, o = DRestart k) \/ dev_session E (o :: l) up w = if up then match run_op E o w with Some w => dev_session E l true w | None => None end else dev_session E l false w)
    as [[k ->]|Heq] by (destruct o; eauto).
  - cbn [op_cost] in *. apply (safe_lost _ k) in Hs as [Hs Hf].
    destruct (wp_devmapper_init E HE (b + ops_cost l) (lost k w)) as (r & w1 & -> & Hs1 & H1); [|done|lia|].
    { by replace (b + ops_cost l + 2) with (b + (2 + ops_cost l)) by lia. }
    apply IH; [done|]. intros Hr%Z.eqb_eq. by apply H1.
  - cbn [dev_session] in Heq. rewrite Heq. destruct up.
    + destruct (run_op_settled E (b + ops_cost l) o w) as (w1 & -> & Hs1); [done| |lia|done|].
      { replace (b + ops_cost l + op_cost o) with (b + (op_cost o + ops_cost l)) by lia. by apply Hup. }
      apply IH; [by apply settled_safe|done].
    + apply IH; [|done]. eapply safe_less; [done|lia].
Qed.

(** C6: Power may be lost at any step of the disk.  Whatever operations the driver runs, with starts
    after losses of power at any moment among them, they return, and from every state that the disk
    has had: [init_metadata], which reads the descriptions and undoes the unfinished transaction,
    succeeds when reading works and the pool answers, and then the devices are exactly those of the
    committed files, each has its own id, and each is in the pool; and the whole start
    [do_devmapper_init] returns whatever the environment answers, and when it succeeds the base device
    is ready, the other devices are those of the committed files, and ids and pool agree as before.
    That the whole start succeeds is not claimed: [base_lost_for_ever] shows a pool that every
    start refuses.  Entries of the store and the removal of files never fail ([env_ok]; a failing
    entry is a double free, metadata_store.c:154), and the 64-bit transaction id has room for the operations. *)
Theorem device_crash_safe E l w :
  env_ok E -> Forall op_ok l -> settled (2 + ops_cost l) w ->
  exists up w', dev_session E l true w = Some (up, w') /\
    forall d E' calls, d ∈ dw_hist w' -> env_ok E' ->
      (env_good E' -> is_Some (pool_get_status (dk_pool d)) ->
       exists w2, init_metadata E' (reboot d [d] calls) = Some (0, w2) /\
        dw_store w2 = valid_files (committed d) /\ dk_files (dw_disk w2) = dw_store w2 /\ ids_inj (dw_store w2) /\
        in_pool (dk_pool (dw_disk w2)) (dw_store w2)) /\
      (exists r w3, do_devmapper_init E' (reboot d [d] calls) = Some (r, w3) /\
        (r = 0 -> base_ready (valid_files (committed d)) (dw_store w3) /\ dk_files (dw_disk w3) = dw_store w3 /\
           ids_inj (dw_store w3) /\ in_pool (dk_pool (dw_disk w3)) (dw_store w3))).
Proof.
  intros HE Hl Hs.
  destruct (dev_session_safe E l 2 true w) as (up & w' & Hrun & [_ Hh] & _); [done|done|done|by apply settled_safe|done|].
  exists up, w'. split; [done|]. intros d E' calls Hd HE'. rewrite Forall_forall in Hh. specialize (Hh d Hd).
  assert (safe (0 + 2) (reboot d [d] calls)) as Hsf by (split; [done|by constructor]). split.
  - intros Hg Hst.
    destruct (wp_init_metadata E' HE' (0 + 2) (reboot d [d] calls)) as (r & w2 & Hr & _ & Hr0 & H2); [done..|].
    rewrite (Hr0 Hg Hst) in *. destruct (H2 eq_refl) as [Hset [HF _]]. exists w2. rewrite (st_store _ _ Hset), HF. split_and!; [done..| |].
    + rewrite <-HF. apply Hset.
    + rewrite <-HF. apply Hset.
  - destruct (wp_devmapper_init E' HE' 0 (reboot d [d] calls) Hsf) as (r & w3 & Hr & _ & H3); [done..|].
    exists r, w3. split; [done|]. intros Hr0. destruct (H3 Hr0) as [Hset Hb]. rewrite (st_store _ _ Hset). split_and!; [done..| |]; apply Hset.
Qed.

(** C23: [add_device] returns, as long as entries of the store and removals of files do not fail
    ([env_ok]; a failing entry is a double free, metadata_store.c:154) and the transaction id has
    room for two more.  When it succeeds the base device was there and in use, the hash was
    new, and there is one more device: with the size asked for or that of the base, at least as large as
    the base, with an id that no other device has, present in the pool.  A device that is there already is never
    changed, and in no case another device. *)
Theorem device_add_correct E b h base size w :
  env_ok E -> settled (b + 2) w -> 0 <= b -> named h ->
  exists r w', add_device E h base size w = Some (r, w') /\ settled b w' /\
    delete h (files w') = delete h (files w) /\
    (is_Some (files w !! h) -> files w' = files w) /\
    (r = 0 -> files w !! h = None /\ exists ib z i, size = Some z /\
      files w !! base_of base = Some ib /\ di_deleted ib = false /\
      files w' = <[h := i]> (files w) /\ di_hash i = h /\ di_size i = (if z =? 0 then di_size ib else z) /\ di_size ib <= di_size i /\ di_deleted i = false /\
      di_id i ∈ pool_ids (pool w') /\ forall k j, files w !! k = Some j -> di_id j <> di_id i).
Proof.
  intros HE Hs Hb Hh. destruct (wp_add E HE b h base size w Hs Hb Hh) as (r & w' & Hrun & Hs' & Hdel & Hsame & H0).
  exists r, w'. split_and!; [done..|]. intros Hr. destruct (H0 Hr) as (ib & z & Hz & Hib & Hd & Hle & Hn & i & HF & Hhi & Hsz & Hdi & Hid).
  split; [done|]. exists ib, z, i. split_and!; [done..|by rewrite Hsz|done| |by apply Hid]. apply (st_pool _ _ Hs' h). by rewrite HF, lookup_insert_eq.
Qed.
End session.

(** * A small pool: an instance of the interface, and concrete lives *)

#[export] Instance device_info_eq_dec : EqDecision device_info.
Proof. solve_decision. Defined.

(** A pool that can say no only for a reason. *)
Record tpool := TPool { tp_ids : gset Z; tp_tid : N }.
#[export] Instance tpool_ops : PoolOps tpool := {|
  pool_get_status p := Some (PoolReport (Z.of_N (tp_tid p)) 1 100 (Z.of_nat (size (tp_ids p))) 1000);
  dev_create_device id p := if decide (id ∈ tp_ids p) then (ERR_DEVICE_ID_EXISTS, p) else (0, TPool ({[id]} ∪ tp_ids p) (tp_tid p));
  dev_create_snap_device_raw id base p :=
    if decide (id ∈ tp_ids p) then (ERR_DEVICE_ID_EXISTS, p)
    else if decide (base ∈ tp_ids p) then (0, TPool ({[id]} ∪ tp_ids p) (tp_tid p)) else (-1, p);
  dev_delete_device id p := if decide (id ∈ tp_ids p) then (0, TPool (tp_ids p ∖ {[id]}) (tp_tid p)) else (-1, p);
  dev_set_transaction_id old new p :=
    if decide (old = Z.of_N (tp_tid p) /\ 0 <= new) then (0, TPool (tp_ids p) (Z.to_N new)) else (-1, p)
|}.
#[local] Obligation Tactic := idtac.
#[export] Program Instance tpool_laws : PoolLaws tpool := {| pool_ids := tp_ids; pool_tid p := Z.of_N (tp_tid p) |}.
Next Obligation. intros p. apply N2Z.is_nonneg. Qed.
Next Obligation. by intros p s [= <-]. Qed.
Next Obligation. intros id p r p'. cbn. case_decide; intros [= <- <-]; done. Qed.
Next Obligation. intros id base p r p'. cbn. repeat case_decide; intros [= <- <-]; done. Qed.
Next Obligation. intros id p r p'. cbn. case_decide; intros [= <- <-]; done. Qed.
Next Obligation. intros old new p r p'. cbn. case_decide as H; intros [= <- <-]; cbn; [|done]. split; [done|]. rewrite Z2N.id; [done|apply H]. Qed.

(** Everything works; the write number [bad] does not. *)
Definition tenv (bad : nat) : dev_env :=
  DevEnv (fun n => negb (n =? bad)%nat) (fun _ => true) (fun _ => true) (fun _ => true) (fun _ => true) (fun _ => Some (DmInfo false false))
    (fun _ => 0) (fun _ => true) (fun _ => Some (c_str "uuid")) (fun X => elements X) true 10 false 10 (Some (c_str "isulad-thinpool")) true true.
Lemma tenv_ok bad : env_ok (tenv bad).
Proof. by split. Qed.
Lemma tenv_good bad : env_good (tenv bad).
Proof. by split. Qed.

(** Two hashes of layers. *)
Definition layer1 : cstr := c_str "0123456789abcdef0123456789abcdef0123456789abcdef0123456789abcdef".
Definition layer2 : cstr := c_str "fedcba9876543210fedcba9876543210fedcba9876543210fedcba9876543210".
(** An empty pool. *)
Definition empty_disk : disk tpool := Disk ∅ None None (TPool ∅ 0).
Definition start : dworld tpool := reboot empty_disk [empty_disk] 0.
(** After the start: the base device, with the id 1, and the memory that goes with it. *)
Definition base_info : device_info := DevInfo BASE 1 10 1 true false.
Definition running : dworld tpool :=
  let d := Disk {[BASE := base_info]} (Some (Trans 1 BASE 1)) (Some (DsMeta 1 (Some (c_str "uuid")) (Some (c_str "ext4")))) (TPool {[1]} 1) in
  DWorld {[BASE := base_info]} (set_used 1 ∅) 1 1 (Trans 1 BASE 1) (Some (c_str "uuid")) (Some (c_str "ext4")) 0 d [d] 8.

(** The first start makes the base device. *)
Example start_makes_base :
  match do_devmapper_init (tenv 100) start with
  | Some (r, w) =>
      (r =? 0) && bool_decide (dw_store w = {[BASE := base_info]}) && bool_decide (dw_store w = dk_files (dw_disk w)) &&
      bool_decide (tp_ids (dk_pool (dw_disk w)) = {[1]})
  | None => false
  end = true.
Proof. vm_compute. reflexivity. Qed.

(** A device is added; power is lost when the device is in the pool and its file is written, but
    before the transaction is closed: after the start it is gone from both. *)
Example add_crash_undone :
  match dev_session (tenv 100) [DAdd layer1 None (Some 0); DRestart 1] true running with
  | Some (up, w) => up && bool_decide (dw_store w = {[BASE := base_info]}) && bool_decide (tp_ids (dk_pool (dw_disk w)) = {[1]})
  | None => false
  end = true.
Proof. vm_compute. reflexivity. Qed.
(** Power is lost after the transaction is closed. *)
Example add_crash_kept :
  match dev_session (tenv 100) [DAdd layer1 None (Some 0); DRestart 0] true running with
  | Some (up, w) => up && bool_decide (is_Some (dw_store w !! layer1)) && bool_decide (tp_ids (dk_pool (dw_disk w)) = {[1; 2]})
  | None => false
  end = true.
Proof. vm_compute. reflexivity. Qed.

Lemma running_settled b : 0 <= b < 2 ^ 63 -> settled b running.
Proof.
  intros Hb.
  assert (files_ok {[BASE := base_info]}) by by apply map_Forall_singleton.
  assert (ids_inj {[BASE := base_info]}) by by intros h1 h2 i1 i2 [-> _]%lookup_singleton_Some [-> _]%lookup_singleton_Some _.
  assert (in_pool (TPool {[1]} 1) {[BASE := base_info]}) by (apply map_Forall_singleton; cbn; set_solver).
  assert (trans_ok (TPool {[1]} 1) {[BASE := base_info]} (Some (Trans 1 BASE 1))).
  { intros t [= <-]. split_and!; [done|by split|]. cbn. lia. }
  split; cbn [running dw_store dw_ids dw_tid dw_disk dw_hist dk_files dk_pool dk_trans]; try done.
  - by apply map_Forall_singleton.
  - lia.
  - apply dsafe_hist; try done. change (1 + b < 2 ^ 64). lia.
Qed.

Lemma device_crash_safe_witness :
  let l := [DAdd layer1 None (Some 0); DRestart 3; DAdd layer2 (Some BASE) (Some 20); DDelete layer2 true; DCleanup; DRestart 1] in
  exists up w', dev_session (tenv 12) l true running = Some (up, w') /\
    forall d, d ∈ dw_hist w' ->
      (exists w2, init_metadata (tenv 100) (reboot d [d] 0) = Some (0, w2) /\ dw_store w2 = valid_files (committed d)) /\
      exists r w3, do_devmapper_init (tenv 100) (reboot d [d] 0) = Some (r, w3) /\
        (r = 0 -> base_ready (valid_files (committed d)) (dw_store w3)).
Proof.
  intros l. destruct (device_crash_safe (tenv 12) l running) as (up & w' & Hrun & H); [apply tenv_ok|by repeat constructor| |].
  { apply running_settled. cbn. lia. }
  exists up, w'. split; [done|]. intros d Hd. destruct (H d (tenv 100) 0%nat Hd (tenv_ok _)) as [H1 (r & w3 & Hr & H3)]. split.
  - destruct (H1 (tenv_good _)) as (w2 & H2 & HF & _); [by eexists|]. exists w2. auto.
  - exists r, w3. split; [done|]. intros Hr0. apply H3, Hr0.
Defined.

Lemma device_add_correct_witness :
  exists r w', add_device (tenv 100) layer1 None (Some 20) running = Some (r, w') /\ r = 0 /\
    delete layer1 (dk_files (dw_disk w')) = {[BASE := base_info]}.
Proof.
  destruct (device_add_correct (tenv 100) 0 layer1 None (Some 20) running (tenv_ok _)) as (r & w' & Hrun & _ & Hd & _);
    [by apply running_settled|done|done|]. exists r, w'. split; [done|]. split.
  - assert (option_map fst (add_device (tenv 100) layer1 None (Some 20) running) = Some 0) as H0 by (vm_compute; reflexivity).
    rewrite Hrun in H0. by injection H0.
  - rewrite Hd. apply delete_id. by apply lookup_singleton_ne.
Defined.

(** Power is lost while the first base device is made, and again between its removal and the next
    attempt: from then on every start refuses the pool, whose transaction id is no longer 0. *)
Example base_lost_for_ever :
  match dev_session (tenv 100) [DRestart 0; DRestart 3; DRestart 7; DRestart 0; DRestart 0] false start with
  | Some (up, w) =>
      negb up && bool_decide (dw_store w = ∅) && bool_decide (tp_ids (dk_pool (dw_disk w)) = ∅) && bool_decide (tp_tid (dk_pool (dw_disk w)) = 2%N)
  | None => false
  end = true.
Proof. vm_compute. reflexivity. Qed.
