(* ===== verification/LocalVolume.v ===== *)
(** The local volume driver: src/src/daemon/modules/volume/local.c, the driver behind the
    volume store.

    A volume is a directory below the root of the driver, with the data in "_data".  The table
    of volumes is used through the interface [MapOps].  The directories of the disk are a set
    of stacks of components, innermost first ([comps] of PathProps); a path that the kernel
    is given stands for its components.  Answers of the environment (memory, making and
    removing directories) are streams read by the number of the call.  The mutex is part of
    the state: taking it twice waits for ever, which, as undefined behaviour, is [None]. *)
From Stdlib Require Import Ascii.
From S2P Require Import Prelude Heap KeyOrders StrUtils Path PathProps MapIface Effects Volume.

Open Scope Z_scope.

(** Names as characters and back. *)
Definition chars (s : cstr) : cs := String.list_ascii_of_string (cstr_str s).
Definition of_chars (l : cs) : cstr := c_str (String.string_of_list_ascii l).

Definition LOCAL_VOLUME_DRIVER_NAME : cstr := c_str "local".
Definition LOCAL_VOLUME_ROOT_DIR_NAME : cs := String.list_ascii_of_string "volumes".
Definition LOCAL_VOLUME_DATA_DIR_NAME : cs := String.list_ascii_of_string "_data".
Definition VOLUME_ERR_NOT_EXIST : Z := -2.

(** [util_valid_volume_name]: ^[a-zA-Z0-9][a-zA-Z0-9_.-]{1,63}$ *)
Definition alnum (c : ascii) : bool :=
  let n := N_of_ascii c in
  ((48 <=? n) && (n <=? 57) || (65 <=? n) && (n <=? 90) || (97 <=? n) && (n <=? 122))%N.
Definition name_char (c : ascii) : bool := alnum c || Ascii.eqb c "_" || Ascii.eqb c "." || Ascii.eqb c "-".
Definition util_valid_volume_name (name : cs) : bool :=
  match name with
  | c :: s => alnum c && forallb name_char s && (1 <=? length s)%nat && (length s <=? 63)%nat
  | [] => false
  end.

(** [util_path_dir] (utils_file.c): the path up to its last slash; it works on the reversed path. *)
Fixpoint cut_last (r : cs) : option cs :=
  match r with [] => None | c :: r => if ISSLASH c then Some r else cut_last r end.
Definition util_path_dir (path : cs) : cs :=
  if (length path =? 0)%nat then [dot]
  else
    match cut_last (rev (tail path)) with
    | Some r => take 1 path ++ rev r
    | None => if ISSLASH (default dot (head path)) then [slash] else path
    end.

(** The directories on the way to a path, outermost first. *)
Fixpoint prefixes (st : list cs) : list (list cs) :=
  match st with [] => [] | _ :: st' => prefixes st' ++ [st] end.
(** At or below a directory. *)
Definition below (d st : list cs) : bool := bool_decide (d `suffix_of` st).

Record local_env := LocalEnv {
  le_alloc : nat -> bool;
  le_map : nat -> bool;                          (** an entry of the table *)
  le_mkdir : nat -> bool;
  le_rmdir : nat -> option (gset (list cs));     (** [None], or what is left when it fails *)
  le_opendir : bool;
  le_readdir : gset cs -> list cs;               (** the order of a directory *)
  le_file : cs -> bool;                          (** files that are not directories *)
  le_getcwd : option cs;
  le_link : cs -> bool;
  le_readlink : cs -> option cs
}.

(** What the table keeps of a volume. *)
Record lvol := LVol { lv_name : cstr; lv_path : cs }.

Section local.
Context {MV : Type} {opsV : MapOps cstr lvol MV}.

(** [struct volumes_info] and the disk *)
Record volumes_info := VInfo {
  vi_root : cs;
  vi_map : MV;
  vi_locked : bool;
  vi_fs : gset (list cs);
  vi_calls : nat
}.
Definition put_vmap m i := VInfo (vi_root i) m (vi_locked i) (vi_fs i) (vi_calls i).
Definition put_vlock b i := VInfo (vi_root i) (vi_map i) b (vi_fs i) (vi_calls i).
Definition put_vfs f i := VInfo (vi_root i) (vi_map i) (vi_locked i) f (vi_calls i).
Definition put_vcalls n i := VInfo (vi_root i) (vi_map i) (vi_locked i) (vi_fs i) n.

Variable E : local_env.
Abbreviation S A := (M volumes_info A) (only parsing).

Definition vask {A} (f : nat -> A) : S A := n ← gets vi_calls; modify (put_vcalls (Datatypes.S n));; mret (f n).
Definition mutex_lock : S unit := b ← gets vi_locked; if b : bool then crash else modify (put_vlock true).
Definition mutex_unlock : S unit := modify (put_vlock false).

(** ** Directories (utils_file.c) *)

Fixpoint mkdirs (l : list (list cs)) : S Z :=
  match l with
  | [] => mret 0
  | d :: l =>
      fs ← gets vi_fs;
      ok ← vask (le_mkdir E);
      if bool_decide (d ∈ fs) || ok then modify (put_vfs ({[d]} ∪ fs));; mkdirs l else mret (-1)
  end.
(** On a clean path, as all paths of the driver are.  The loop of a relative path ends before its first turn:
    nothing is made, and the answer is 0. *)
Definition util_mkdir_p (dir : cs) : S Z :=
  if len dir >? PATH_MAX then mret (-1)
  else if negb (ISSLASH (default dot (head dir))) then mret 0
  else mkdirs (prefixes (comps dir)).
Definition util_recursive_rmdir (dirpath : cs) : S Z :=
  fs ← gets vi_fs;
  let d := comps dirpath in
  if negb (bool_decide (d ∈ fs)) then mret 0
  else
    r ← vask (le_rmdir E);
    let kept := default ∅ r in
    modify (put_vfs (filter (fun st => negb (below d st) || bool_decide (st ∈ kept)) fs));;
    mret (match r with None => 0 | Some _ => -1 end).
(** The names in a directory. *)
Definition entries (d : list cs) (fs : gset (list cs)) : gset cs :=
  set_omap (fun st => match st with w :: st' => if decide (st' = d) then Some w else None | [] => None end) fs.

(** ** Volumes *)

Definition dup_volume (v : lvol) : S (option volume) :=
  ok ← vask (le_alloc E);
  let p := of_chars (lv_path v) in
  mret (if ok : bool then Some (Vol LOCAL_VOLUME_DRIVER_NAME (lv_name v) p (Some p)) else None).
Definition local_volume_get (name : cstr) : S (option volume) :=
  if negb (util_valid_volume_name (chars name)) then mret None
  else
    mutex_lock;;
    m ← gets vi_map;
    v ← match mo_search name m with None => mret None | Some v => dup_volume v end;
    mutex_unlock;;
    mret v.

Definition create_volume_meminfo (name : cstr) : S (option lvol) :=
  ok ← vask (le_alloc E);
  root ← gets vi_root;
  let path := root ++ [slash] ++ chars name ++ [slash] ++ LOCAL_VOLUME_DATA_DIR_NAME in
  mret (if negb ok || (len path >=? PATH_MAX) then None else Some (LVol name path)).
(** A volume that the table has no room for is returned all the same. *)
Definition volume_create_nolock (name : cstr) : S (option lvol) :=
  m ← gets vi_map;
  match mo_search name m with
  | Some v => mret (Some v)
  | None =>
      v ← create_volume_meminfo name;
      match v with
      | None => mret None
      | Some v =>
          z ← util_mkdir_p (lv_path v);
          if negb (z =? 0) then _ ← util_recursive_rmdir (lv_path v); mret None
          else
            ok ← vask (le_map E);
            modify (fun i => put_vmap (mo_insert ok name v (vi_map i)).2 i);;
            mret (Some v)
      end
  end.
Definition local_volume_create (name : option cstr) : S (option volume) :=
  match name with
  | None => mret None
  | Some name =>
      if negb (util_valid_volume_name (chars name)) then mret None
      else
        mutex_lock;;
        v ← volume_create_nolock name;
        r ← match v with None => mret None | Some v => dup_volume v end;
        mutex_unlock;;
        mret r
  end.
Definition local_volume_mount (name : cstr) : S Z := mret 0.
Definition local_volume_umount (name : cstr) : S Z := mret 0.

Fixpoint dup_volumes (l : list (cstr * lvol)) : S (option (list volume)) :=
  match l with
  | [] => mret (Some [])
  | (_, v) :: l =>
      r ← dup_volume v;
      match r with
      | None => mret None
      | Some r => rest ← dup_volumes l; mret ((fun rest => r :: rest) <$> rest)
      end
  end.
(** Without memory for the list the mutex stays locked. *)
Definition local_volume_list : S (option (list volume)) :=
  mutex_lock;;
  ok ← vask (le_alloc E);
  if negb ok then mret None
  else
    ok ← vask (le_alloc E);
    m ← gets vi_map;
    r ← (if negb ok then mret None else dup_volumes (mo_elements m));
    mutex_unlock;;
    mret r.

Definition remove_volume_dir (path : cs) : S Z :=
  root ← gets vi_root;
  let vol_dir := util_path_dir path in
  if negb (util_has_prefix (Some vol_dir) (Some root)) || (len vol_dir <=? len root + 1) then mret (-1)
  else
    z ← util_recursive_rmdir path;
    if negb (z =? 0) then mret z else util_recursive_rmdir vol_dir.
Definition volume_remove_nolock (name : cstr) : S Z :=
  m ← gets vi_map;
  match mo_search name m with
  | None => mret VOLUME_ERR_NOT_EXIST
  | Some v =>
      z ← remove_volume_dir (lv_path v);
      if negb (z =? 0) then mret (-1)
      else
        m ← gets vi_map;
        let '(b, m) := mo_remove name m in
        modify (put_vmap m);;
        mret (if b : bool then 0 else -1)
  end.
Definition local_volume_remove (name : option cstr) : S Z :=
  match name with
  | None => mret (-1)
  | Some name =>
      if negb (util_valid_volume_name (chars name)) then mret (-1)
      else mutex_lock;; z ← volume_remove_nolock name; mutex_unlock;; mret z
  end.

(** ** Start-up *)

Definition alloc_all (_ : Z) : bool := true.
Definition build_and_valid_data_dir (root_dir name : cs) : S (option cs) :=
  if negb (util_valid_volume_name name) then mret None
  else
    vol_dir ← lift (util_path_join (le_getcwd E) (Some root_dir) (Some name));
    match vol_dir with
    | None => mret None
    | Some vol_dir =>
        t ← lift (util_follow_symlink_in_scope alloc_all (le_link E) (le_readlink E) (le_getcwd E) (Some vol_dir) (Some root_dir));
        match t with
        | None => mret None
        | Some _ =>
            data_dir ← lift (util_path_join (le_getcwd E) (Some vol_dir) (Some LOCAL_VOLUME_DATA_DIR_NAME));
            match data_dir with
            | None => mret None
            | Some data_dir =>
                t ← lift (util_follow_symlink_in_scope alloc_all (le_link E) (le_readlink E) (le_getcwd E) (Some data_dir) (Some vol_dir));
                fs ← gets vi_fs;
                mret (match t with
                      | Some t => if bool_decide (comps t ∈ fs) || le_file E t then Some data_dir else None
                      | None => None
                      end)
            end
        end
    end.
Definition load_volume (d_name : cs) : S unit :=
  root ← gets vi_root;
  data ← build_and_valid_data_dir root d_name;
  match data with
  | None => mret tt
  | Some data =>
      mutex_lock;;
      ok ← vask (le_alloc E);
      (if negb ok then mret tt
       else
         ok ← vask (le_map E);
         modify (fun i => put_vmap (mo_insert ok (of_chars d_name) (LVol (of_chars d_name) data) (vi_map i)).2 i));;
      mutex_unlock
  end.
Fixpoint load_entries (l : list cs) : S unit :=
  match l with
  | [] => mret tt
  | n :: l => (if bool_decide (n = [dot]) || bool_decide (n = [dot; dot]) then mret tt else load_volume n);; load_entries l
  end.
(** [util_scan_subdirs] with [load_volume] *)
Definition load_volumes : S Z :=
  if negb (le_opendir E) then mret (-1)
  else i ← gets (fun i => i); load_entries (le_readdir E (entries (comps (vi_root i)) (vi_fs i)));; mret 0.
End local.
Arguments volumes_info : clear implicits.

(** [local_volume_init]: the tables of the driver when it starts on a disk. *)
Definition local_volume_init {MV} {opsV : MapOps cstr lvol MV} (E : local_env) (scope : cs) (fs : gset (list cs)) (calls : nat)
    : option (option (volumes_info MV)) :=
  if negb (le_alloc E calls) then Some None
  else
    match mo_new with
    | None => Some None
    | Some m =>
        match util_mkdir_p E scope (VInfo scope m false fs (S calls)) with
        | None => None
        | Some (z, i) =>
            if negb (z =? 0) then Some None
            else
              match load_volumes E i with
              | None => None
              | Some (z, i) => Some (if negb (z =? 0) then None else Some i)
              end
        end
    end.

(** The driver that [register_local_volume] registers. *)
Definition local_driver {MV} {opsV : MapOps cstr lvol MV} (E : local_env) : volume_driver (volumes_info MV) :=
  Driver (Some (fun n => local_volume_create E (Some n))) (Some (local_volume_get E)) (Some local_volume_mount)
    (Some local_volume_umount) (Some (local_volume_list E)) (Some (fun n => local_volume_remove E (Some n))).

(** [register_local_volume] up to the registration, which is part of [volume_init] in Volume: the state of the
    driver, or [None] for -1.  A path that could not be joined is the NULL that [local_volume_init] refuses. *)
Definition register_local_volume {MV} {opsV : MapOps cstr lvol MV} (E : local_env) (root_dir : option cs) (fs : gset (list cs)) (calls : nat)
    : option (option (volumes_info MV)) :=
  match root_dir with
  | None => Some None
  | Some root_dir =>
      scope ← util_path_join (le_getcwd E) (Some root_dir) (Some LOCAL_VOLUME_ROOT_DIR_NAME);
      match scope with None => Some None | Some scope => local_volume_init E scope fs calls end
  end.
(** [volume_init] of volume.c with the driver behind it. *)
Definition local_store_init {MV MD MN MR : Type} {opsV : MapOps cstr lvol MV} {opsD : MapOps cstr (volume_driver (volumes_info MV)) MD} {opsN : MapOps cstr loc MN}
    (E : local_env) (root_dir : option cs) (fs : gset (list cs)) (calls : nat) : option (option (volume_store (volumes_info MV) MD MN MR)) :=
  info ← register_local_volume E root_dir fs calls;
  Some (i ← info; snd (volume_init LOCAL_VOLUME_DRIVER_NAME (Some (local_driver E)) i)).
