(* ===== verification/LocalVolumeProps.v ===== *)
(** The local volume driver keeps its table and the directories in step, finds its volumes again after
    a restart, and, behind the volume store, never loses the data of a volume that is in use. *)
From Stdlib Require Import Ascii.
From S2P Require Import Prelude Heap RbSearch KeyOrders StrUtils StrProps Path PathProps MapC MapIface MapRefine Effects Volume VolumeProps LocalVolume.

Open Scope Z_scope.

(** ** Names and paths *)

Lemma truncate_id s : no_nul s = true -> truncate_nul s = s.
Proof.
  intros Hs. exact (f_equal cstr_str (c_str_of (exist _ s Hs))).
Qed.
Lemma no_nul_chars l : zero ∉ l -> no_nul (String.string_of_list_ascii l) = true.
Proof.
  induction l as [|c l IH]; [done|]. intros H. cbn. rewrite bool_decide_eq_false_2 by set_solver. apply IH. set_solver.
Qed.
Lemma chars_of_chars l : zero ∉ l -> chars (of_chars l) = l.
Proof.
  intros H. unfold chars, of_chars, c_str. cbn. rewrite truncate_id by by apply no_nul_chars. apply String.list_ascii_of_string_of_list_ascii.
Qed.
Lemma of_chars_chars s : of_chars (chars s) = s.
Proof. unfold of_chars, chars. rewrite String.string_of_list_ascii_of_string. apply c_str_of. Qed.
#[export] Instance chars_inj : Inj (=) (=) chars.
Proof. intros s1 s2 H. by rewrite <-(of_chars_chars s1), <-(of_chars_chars s2), H. Qed.

Lemma valid_name_comp n : util_valid_volume_name n = true -> valid_comp n /\ zero ∉ n /\ (length n <= 64)%nat.
Proof.
  unfold util_valid_volume_name. destruct n as [|c s]; [done|].
  rewrite !andb_true_iff, forallb_forall, !Nat.leb_le. intros [[[Hc Hs] Hmin] Hmax].
  assert (forall x, x ∈ c :: s -> name_char x = true) as Hall.
  { intros x [->|Hx]%elem_of_cons; [unfold name_char; by rewrite Hc|]. apply Hs. by apply list_elem_of_In. }
  assert (forall x, name_char x = false -> x ∉ c :: s) as Hno.
  { intros x Hx Hin. rewrite Hall in Hx by done. done. }
  split_and!; [|by apply Hno|cbn [length]; lia]. unfold valid_comp. split_and!; [done|by apply Hno|..]; by intros [= ->].
Qed.

Lemma path_of_cons w st : st <> [] -> path_of [] (w :: st) = path_of [] st ++ slash :: w.
Proof.
  intros Hne. destruct st as [|v st]; [done|]. unfold path_of. cbn [app]. cbn [rev]. rewrite !fmap_app, !concat_app. cbn.
  by rewrite !app_nil_r.
Qed.
Lemma cut_last_app w r : slash ∉ w -> cut_last (w ++ slash :: r) = Some r.
Proof.
  induction w as [|c w IH]; [done|]. intros Hw. cbn. destruct (ISSLASH c) eqn:Hc; [apply ISSLASH_spec in Hc; set_solver|].
  apply IH. set_solver.
Qed.
Lemma path_absolute st : ISSLASH (default dot (head (path_of [] st))) = true.
Proof. by destruct (path_of_slash st) as [p ->]. Qed.
Lemma path_dir_of w st : st <> [] -> slash ∉ w -> util_path_dir (path_of [] (w :: st)) = path_of [] st.
Proof.
  intros Hne Hw. rewrite path_of_cons by done. destruct (path_of_slash st) as [p ->]. unfold util_path_dir. cbn [length app tail Nat.eqb].
  rewrite rev_app_distr. cbn [rev]. rewrite <-app_assoc. cbn [app]. rewrite cut_last_app by by rewrite elem_of_rev. cbn. by rewrite rev_involutive.
Qed.
Lemma has_prefix_app (p q : cs) : util_has_prefix (Some (p ++ q)) (Some p) = true.
Proof.
  unfold util_has_prefix. rewrite decide_False by (rewrite length_app; lia). rewrite take_app_length. by apply bool_decide_eq_true.
Qed.

Lemma elem_of_prefixes st d : d ∈ prefixes st <-> d <> [] /\ d `suffix_of` st.
Proof.
  induction st as [|w st IH]; cbn [prefixes].
  { split; [by intros ?%elem_of_nil|]. intros [Hd [k Hk]]. by destruct k, d. }
  rewrite elem_of_app, IH, list_elem_of_singleton. split.
  - intros [[? Hs]| -> ]; [split; [done|by apply suffix_cons_r]|split; [done|by exists []]].
  - intros [Hd [k Hk]]. destruct k as [|x k]; [by right|]. left. split; [done|]. injection Hk as _ ->. by exists k.
Qed.

(** ** Directories *)
Section dirs.
Context {MV : Type} {opsV : MapOps cstr lvol MV}.
Variable E : local_env.
Implicit Types (i : volumes_info MV).

(** Only directories and the count of calls have changed. *)
Definition disk_only (i i' : volumes_info MV) : Prop := exists fs c, i' = put_vfs fs (put_vcalls c i).
Lemma disk_only_refl i : disk_only i i.
Proof. exists (vi_fs i), (vi_calls i). by destruct i. Qed.
Lemma disk_only_trans i1 i2 i3 : disk_only i1 i2 -> disk_only i2 i3 -> disk_only i1 i3.
Proof. intros (f & c & ->) (f' & c' & ->). by exists f', c'. Qed.

Lemma wp_vask {A} (f : nat -> A) (Q : A -> volumes_info MV -> Prop) i : Q (f (vi_calls i)) (put_vcalls (S (vi_calls i)) i) -> wp (vask f) Q i.
Proof. intros H. unfold vask. repeat wp_step. done. Qed.

Lemma wp_mkdirs l i :
  wp (mkdirs E l) (fun z i' => disk_only i i' /\ vi_fs i ⊆ vi_fs i' /\ vi_fs i' ⊆ vi_fs i ∪ list_to_set l /\
    (z = 0 -> list_to_set l ⊆ vi_fs i') /\ ((forall n, le_mkdir E n = true) -> z = 0)) i.
Proof.
  revert i. induction l as [|d l IH]; intros i; cbn [mkdirs list_to_set].
  { wp_step. split_and!; [apply disk_only_refl|set_solver..|done]. }
  wp_step. wp_step. wp_step. apply wp_vask. wp_step.
  - wp_step. wp_step. eapply wp_conseq; [apply IH|]. intros z i' (Hd & H1 & H2 & H3 & H4). cbn in H1, H2.
    split_and!; [|set_solver|set_solver| |done].
    + eapply disk_only_trans; [|exact Hd]. eexists _, _. done.
    + intros Hz. specialize (H3 Hz). set_solver.
  - wp_step. cbn. split_and!; [by exists (vi_fs i), (S (vi_calls i)); destruct i|set_solver|set_solver|done|].
    intros Hok. rewrite Hok, orb_true_r in *. done.
Qed.

Lemma wp_rmdir p i :
  wp (util_recursive_rmdir E p) (fun z i' => disk_only i i' /\ vi_fs i' ⊆ vi_fs i /\
    (forall st, st ∈ vi_fs i -> ~ comps p `suffix_of` st -> st ∈ vi_fs i') /\
    (z = 0 -> comps p ∉ vi_fs i') /\
    ((forall n, le_rmdir E n = None) -> z = 0 /\ forall st, st ∈ vi_fs i' -> comps p ∈ vi_fs i -> ~ comps p `suffix_of` st)) i.
Proof.
  unfold util_recursive_rmdir. wp_step. wp_step. wp_step.
  { wp_step. rewrite negb_true_iff, bool_decide_eq_false in *. split_and!; [apply disk_only_refl|done..|]. intros _. by split. }
  rewrite negb_false_iff, bool_decide_eq_true in *. wp_step. apply wp_vask. wp_step. wp_step. wp_step. cbn [vi_fs put_vfs put_vcalls].
  unfold below. split_and!.
  - eexists _, _. done.
  - intros st [_ ?]%elem_of_filter. done.
  - intros st Hst Hn. apply elem_of_filter. split; [|done]. by rewrite (bool_decide_eq_false_2 _ Hn).
  - destruct (le_rmdir E (vi_calls i)); [done|]. intros _ [Hb _]%elem_of_filter.
    rewrite (bool_decide_eq_true_2 (comps p `suffix_of` comps p)) in Hb by done. cbn in Hb. by apply bool_decide_unpack in Hb.
  - intros ->. split; [done|]. intros st [Hb _]%elem_of_filter _ Hs. rewrite (bool_decide_eq_true_2 _ Hs) in Hb. cbn in Hb.
    by apply bool_decide_unpack in Hb.
Qed.
End dirs.

(** ** The driver *)

(** Memory suffices. *)
Record mem_ok (E : local_env) : Prop := { mo_alloc n : le_alloc E n = true; mo_entry n : le_map E n = true }.
(** Making and removing directories works. *)
Record disk_ok (E : local_env) : Prop := { do_mkdir n : le_mkdir E n = true; do_rmdir n : le_rmdir E n = None }.
(** A root with room for the names below it. *)
Record root_ok (rst : list cs) : Prop := {
  ro_comps : Forall valid_comp rst;
  ro_deep : rst <> [];
  ro_cstring : cstring (path_of [] rst);
  ro_short : len (path_of [] rst) + 72 < PATH_MAX - 1
}.

Section driver.
Context {MV : Type} {cmp : cstr -> cstr -> Z} `{!KeyOrder cmp} {opsV : MapOps cstr lvol MV} `{!MapLaws cmp opsV}.
Variables (E : local_env) (rst : list cs).
Hypotheses (HE : mem_ok E) (HR : root_ok rst).
Implicit Types (i : volumes_info MV) (n : cstr).

Definition vol_dir n : list cs := chars n :: rst.
Definition data_dir n : list cs := LOCAL_VOLUME_DATA_DIR_NAME :: vol_dir n.
Definition vols i : gmap cstr lvol := mo_abs (vi_map i).
Definition the_vol n : lvol := LVol n (path_of [] (data_dir n)).

Record linv i : Prop := {
  li_root : vi_root i = path_of [] rst;
  li_free : vi_locked i = false;
  li_wf : mo_wf (vi_map i);
  li_vol n v : vols i !! n = Some v -> v = the_vol n /\ util_valid_volume_name (chars n) = true
}.
(** Nothing outside of the directory of [n] has gone. *)
Definition spares n i i' : Prop := forall st, st ∈ vi_fs i -> ~ vol_dir n `suffix_of` st -> st ∈ vi_fs i'.

Lemma vol_dir_valid n : util_valid_volume_name (chars n) = true -> Forall valid_comp (vol_dir n).
Proof. intros H. constructor; [by apply valid_name_comp|apply HR]. Qed.
Lemma data_dir_valid n : util_valid_volume_name (chars n) = true -> Forall valid_comp (data_dir n).
Proof.
  intros H. constructor; [|by apply vol_dir_valid]. split_and!; [done| |done|done].
  by apply (bool_decide_unpack _); vm_compute.
Qed.
Lemma data_path n : path_of [] (data_dir n) = path_of [] rst ++ [slash] ++ chars n ++ [slash] ++ LOCAL_VOLUME_DATA_DIR_NAME.
Proof. unfold data_dir, vol_dir. rewrite !path_of_cons by (done || apply HR). by rewrite <-app_assoc. Qed.
Lemma data_path_len n : util_valid_volume_name (chars n) = true -> len (path_of [] (data_dir n)) < PATH_MAX - 1.
Proof.
  intros H. apply valid_name_comp in H as (_ & _ & H). pose proof (ro_short _ HR) as Hs. rewrite data_path. unfold len in *.
  rewrite !length_app. change (length LOCAL_VOLUME_DATA_DIR_NAME) with 5%nat. cbn [length]. lia.
Qed.
Lemma data_path_cstring n : util_valid_volume_name (chars n) = true -> cstring (path_of [] (data_dir n)).
Proof.
  intros H. apply valid_name_comp in H as (_ & H & _). pose proof (ro_cstring _ HR). unfold cstring in *. rewrite data_path.
  assert (zero ∉ LOCAL_VOLUME_DATA_DIR_NAME) by by apply (bool_decide_unpack _); vm_compute. rewrite !elem_of_app, !list_elem_of_singleton. naive_solver.
Qed.
Lemma suffix_data n m : vol_dir n `suffix_of` data_dir m -> n = m.
Proof.
  intros [k Hk]. unfold data_dir, vol_dir in Hk. destruct k as [|x [|y k]]; cbn in Hk.
  - apply (f_equal length) in Hk. cbn in Hk. lia.
  - injection Hk as _ Hk. by apply (inj chars).
  - apply (f_equal length) in Hk. cbn in Hk. rewrite length_app in Hk. cbn in Hk. lia.
Qed.
Lemma suffix_vol n m : vol_dir n `suffix_of` vol_dir m -> n = m.
Proof. intros H. apply suffix_data. by apply suffix_cons_r. Qed.

Lemma linv_disk i i' : linv i -> disk_only i i' -> linv i'.
Proof. intros [] (fs & c & ->). by split. Qed.
Lemma linv_lock i b : linv i -> linv (put_vlock false (put_vlock b i)).
Proof. intros []. by split. Qed.

Lemma wp_dup v i : wp (dup_volume E v) (fun r i' => disk_only i i' /\ vi_fs i' = vi_fs i /\
  r = Some (Vol LOCAL_VOLUME_DRIVER_NAME (lv_name v) (of_chars (lv_path v)) (Some (of_chars (lv_path v))))) i.
Proof.
  unfold dup_volume. wp_step. apply wp_vask. wp_step. rewrite (mo_alloc _ HE). split_and!; [|done..].
  exists (vi_fs i), (S (vi_calls i)). by destruct i.
Qed.

Lemma wp_get n i :
  linv i -> wp (local_volume_get E n) (fun r i' => linv i' /\ vols i' = vols i /\ vi_fs i' = vi_fs i /\
    (is_Some r <-> is_Some (vols i !! n))) i.
Proof.
  intros Hi. unfold local_volume_get. wp_step.
  { wp_step. split_and!; [done..|]. split; [by intros []|]. intros [v Hv]. rewrite (proj2 (li_vol _ Hi n v Hv)) in *. done. }
  wp_step. unfold mutex_lock. wp_step. wp_step. rewrite (li_free _ Hi). wp_step. wp_step. wp_step. cbn [vi_map put_vlock].
  rewrite mo_search_ok by apply Hi. fold (vols i). wp_step.
  assert (linv (put_vlock false i)) as Hf by (destruct Hi; by split).
  destruct (vols i !! n) as [v|] eqn:Hv.
  - eapply wp_conseq; [apply wp_dup|]. intros r i' ((fs & c & ->) & Hfs & ->). unfold mutex_unlock. wp_step. wp_step. wp_step. cbn in Hfs. subst fs.
    split_and!; [destruct Hi; by split|done..].
  - unfold mutex_unlock. repeat wp_step. split_and!; [done..|]. by split; intros [].
Qed.

(** Creating: a known volume is left alone; a new one gets its directories. *)
Record created n i (r : option volume) i' : Prop := {
  ct_inv : linv i';
  ct_spares : spares n i i';
  ct_known : is_Some (vols i !! n) -> vols i' = vols i /\ vi_fs i' = vi_fs i;
  ct_vols : vols i' = if decide (is_Some r) then <[n := the_vol n]> (vols i) else vols i;
  ct_dirs : is_Some r -> vols i !! n = None -> data_dir n ∈ vi_fs i' /\ vol_dir n ∈ vi_fs i';
  ct_keeps : is_Some r -> vi_fs i ⊆ vi_fs i';
  ct_works : disk_ok E -> util_valid_volume_name (chars n) = true -> is_Some r;
  ct_new st : st ∈ vi_fs i' -> st ∈ vi_fs i \/ st `suffix_of` data_dir n;
  ct_invalid : util_valid_volume_name (chars n) = false -> vi_fs i' = vi_fs i
}.

Lemma spares_refl n i : spares n i i.
Proof. by intros st. Qed.

Lemma wp_create_nolock n i :
  mo_wf (vi_map i) -> vi_root i = path_of [] rst -> util_valid_volume_name (chars n) = true ->
  (forall v, vols i !! n = Some v -> v = the_vol n) ->
  wp (volume_create_nolock E n) (fun r i' => exists m fs c, i' = put_vmap m (put_vfs fs (put_vcalls c i)) /\ mo_wf m /\
    spares n i i' /\ (is_Some (vols i !! n) -> mo_abs m = vols i /\ fs = vi_fs i) /\
    mo_abs m = (if decide (is_Some r) then <[n := the_vol n]> (vols i) else vols i) /\
    (is_Some r -> vols i !! n = None -> data_dir n ∈ fs /\ vol_dir n ∈ fs) /\ (is_Some r -> vi_fs i ⊆ fs) /\
    (disk_ok E -> is_Some r) /\ (forall st, st ∈ fs -> st ∈ vi_fs i \/ st `suffix_of` data_dir n) /\
    (forall v, r = Some v -> v = the_vol n)) i.
Proof.
  intros Hwf Hroot Hv Hk. unfold volume_create_nolock. wp_step. wp_step. rewrite mo_search_ok by done. fold (vols i).
  destruct (vols i !! n) as [v|] eqn:Hn.
  { wp_step. exists (vi_map i), (vi_fs i), (vi_calls i). assert (v = the_vol n) as -> by auto.
    split_and!; [by destruct i|done|apply spares_refl|done| |done|done|done|auto|by intros ? [= <-]].
    rewrite decide_True by by eexists. by rewrite insert_id. }
  unfold create_volume_meminfo. wp_step. wp_step. apply wp_vask. wp_step. wp_step. wp_step. cbn [vi_root put_vcalls]. rewrite Hroot, <-data_path.
  rewrite (mo_alloc _ HE). cbn [negb orb]. pose proof (data_path_len n Hv) as Hl.
  assert ((len (path_of [] (data_dir n)) >=? PATH_MAX) = false) as -> by (rewrite Z.geb_leb; apply Z.leb_gt; lia).
  change (LVol n (path_of [] (data_dir n))) with (the_vol n). cbn [lv_path the_vol]. unfold util_mkdir_p.
  assert ((len (path_of [] (data_dir n)) >? PATH_MAX) = false) as -> by (rewrite Z.gtb_ltb; apply Z.ltb_ge; lia).
  rewrite path_absolute. cbn [negb].
  pose proof (comps_path_of _ (data_dir_valid n Hv)) as Hc. rewrite Hc. wp_step.
  eapply wp_conseq; [apply wp_mkdirs|]. intros z i1 ((fs & c & ->) & Hsub & Hsup & Hz & Hw). cbn [vi_fs put_vfs put_vcalls] in *.
  assert (forall st, st ∈ fs -> st ∈ vi_fs i \/ st `suffix_of` data_dir n) as Hnew.
  { intros st Hst. apply Hsup in Hst. rewrite elem_of_union, elem_of_list_to_set, elem_of_prefixes in Hst. tauto. }
  wp_step.
  - rewrite negb_true_iff, Z.eqb_neq in *. wp_step. eapply wp_conseq; [apply wp_rmdir|].
    intros z2 i2 ((fs2 & c2 & ->) & Hsub2 & Hsp2 & _). cbn [vi_fs put_vfs put_vcalls] in *. rewrite Hc in *. wp_step.
    exists (vi_map i), fs2, c2. split_and!; [by destruct i|done| | |done|by intros []|by intros []| |auto|done].
    + intros st Hst Hns. apply Hsp2; [by apply Hsub|]. intros Hs. apply Hns. etrans; [|exact Hs]. by exists [LOCAL_VOLUME_DATA_DIR_NAME].
    + by intros [].
    + intros Hd. destruct H. apply Hw. intros k. apply Hd.
  - rewrite negb_false_iff, Z.eqb_eq in *. wp_step. apply wp_vask. rewrite (mo_entry _ HE). wp_step. wp_step. wp_step. cbn [vi_map put_vcalls put_vfs].
    destruct (mo_insert_fresh n (the_vol n) (vi_map i) Hwf Hn) as [_ Hins].
    exists (mo_insert true n (the_vol n) (vi_map i)).2, fs, (S c). split_and!; [done|by apply mo_wf_insert| |by intros []| |..].
    + intros st Hst _. by apply Hsub.
    + by rewrite decide_True by by eexists.
    + intros _ _. specialize (Hz H). split; apply Hz, elem_of_list_to_set, elem_of_prefixes; (split; [done|]); [by exists []|by exists [LOCAL_VOLUME_DATA_DIR_NAME]].
    + done.
    + intros _. by eexists.
    + auto.
    + by intros v [= <-].
Qed.

Lemma wp_create n i :
  linv i -> wp (local_volume_create E (Some n)) (created n i) i.
Proof.
  intros Hi. unfold local_volume_create. wp_step.
  { wp_step. rewrite negb_true_iff in *. split; try done; try (by intros []); try (intros; congruence); by left. }
  rewrite negb_false_iff in *. wp_step. unfold mutex_lock. wp_step. wp_step. rewrite (li_free _ Hi). wp_step. wp_step.
  eapply wp_conseq; [apply wp_create_nolock; [apply Hi|apply Hi|done|]|].
  { intros v Hv. by destruct (li_vol _ Hi n v Hv). }
  intros r i1 (m & fs & c & -> & Hm & Hsp & Hkn & Habs & Hdirs & Hkp & Hwk & Hnew & Hval). cbn in Hsp. wp_step.
  apply (wp_conseq _ (fun r' i' => exists c', i' = put_vmap m (put_vfs fs (put_vcalls c' (put_vlock true i))) /\ (is_Some r' <-> is_Some r))).
  - destruct r as [v|]; [|wp_step; by exists c]. eapply wp_conseq; [apply wp_dup|].
    intros r' i' ((fs' & c' & ->) & Hfs & ->). cbn in Hfs. subst fs'. exists c'. split; [done|]. by split; eexists.
  - intros r' i' (c' & -> & Hr). unfold mutex_unlock. wp_step. wp_step. wp_step.
    split; unfold vols in *; cbn in *; try done.
    + destruct Hi as [? ? ? Hvol]. split; [done..|]. unfold vols. cbn. rewrite Habs. intros k v. case_decide; [|apply Hvol].
      intros [[<- <-]|[_ Hk]]%lookup_insert_Some; [done|by apply Hvol].
    + rewrite Habs. by rewrite (decide_ext (is_Some r) (is_Some r')).
    + intros Hs. apply Hdirs. by apply Hr.
    + intros Hs. apply Hkp. by apply Hr.
    + intros Hd _. by apply Hr, Hwk.
    + intros. congruence.
Qed.

(** Removing: only below the directory of the volume. *)
Record removed n i (z : Z) i' : Prop := {
  rm_inv : linv i';
  rm_spares : spares n i i';
  rm_vols : vols i' = if decide (z = 0) then delete n (vols i) else vols i;
  rm_dirs : z = 0 -> is_Some (vols i !! n) /\ data_dir n ∉ vi_fs i' /\ vol_dir n ∉ vi_fs i';
  rm_sub : vi_fs i' ⊆ vi_fs i;
  rm_works : disk_ok E -> is_Some (vols i !! n) -> z = 0;
  rm_unknown : vols i !! n = None -> vi_fs i' = vi_fs i
}.

Lemma wp_remove_dir n i :
  vi_root i = path_of [] rst -> util_valid_volume_name (chars n) = true ->
  wp (remove_volume_dir E (lv_path (the_vol n))) (fun z i' => disk_only i i' /\ vi_fs i' ⊆ vi_fs i /\ spares n i i' /\
    (z = 0 -> data_dir n ∉ vi_fs i' /\ vol_dir n ∉ vi_fs i') /\ (disk_ok E -> z = 0)) i.
Proof.
  intros Hroot Hv. unfold remove_volume_dir. wp_step. wp_step. cbn [lv_path the_vol].
  pose proof (data_dir_valid n Hv) as Hvd. pose proof (vol_dir_valid n Hv) as Hvv.
  assert (util_path_dir (path_of [] (data_dir n)) = path_of [] (vol_dir n)) as ->.
  { apply path_dir_of; [done|]. apply Forall_cons in Hvd as [Hvd _]. by apply Hvd. }
  rewrite Hroot. assert (path_of [] (vol_dir n) = path_of [] rst ++ slash :: chars n) as Hp by (apply path_of_cons, HR).
  rewrite Hp, has_prefix_app. cbn [negb orb]. rewrite <-Hp.
  assert ((len (path_of [] (vol_dir n)) <=? len (path_of [] rst) + 1) = false) as ->.
  { apply Z.leb_gt. rewrite Hp. unfold len. rewrite length_app. apply valid_name_comp in Hv as [[Hne _] _]. destruct (chars n); [done|]. cbn [length]. lia. }
  pose proof (comps_path_of _ Hvd) as Hcd. pose proof (comps_path_of _ Hvv) as Hcv.
  wp_step. eapply wp_conseq; [apply wp_rmdir|]. rewrite Hcd. intros z i1 (Hd1 & Hsub1 & Hsp1 & Hz1 & Hw1).
  assert (spares n i i1) as Hs1.
  { intros st Hst Hns. apply Hsp1; [done|]. intros Hs. apply Hns. etrans; [|exact Hs]. by exists [LOCAL_VOLUME_DATA_DIR_NAME]. }
  wp_step; [wp_step|].
  - rewrite negb_true_iff, Z.eqb_neq in *. split_and!; [done..|]. intros Hd. destruct H. apply Hw1. apply Hd.
  - rewrite negb_false_iff, Z.eqb_eq in *. eapply wp_conseq; [apply wp_rmdir|]. rewrite Hcv. intros z2 i2 (Hd2 & Hsub2 & Hsp2 & Hz2 & Hw2).
    split_and!; [by eapply disk_only_trans|by etrans|..].
    + intros st Hst Hns. apply Hsp2; [by apply Hs1|done].
    + intros Hz. split; [|by apply Hz2]. intros Hin. apply Hsub2 in Hin. by apply Hz1.
    + intros Hd. apply Hw2. apply Hd.
Qed.

Lemma wp_remove n i : linv i -> wp (local_volume_remove E (Some n)) (removed n i) i.
Proof.
  intros Hi. unfold local_volume_remove. wp_step.
  { wp_step. rewrite negb_true_iff in *. split; try done; [apply spares_refl|]. intros _ [v Hv]. destruct (li_vol _ Hi n v Hv). congruence. }
  rewrite negb_false_iff in *. wp_step. unfold mutex_lock. wp_step. wp_step. rewrite (li_free _ Hi). wp_step. wp_step.
  unfold volume_remove_nolock. wp_step. wp_step. cbn [vi_map put_vlock]. rewrite mo_search_ok by apply Hi. fold (vols i).
  assert (linv (put_vlock false (put_vlock true i))) as Hu by (destruct Hi; by split).
  destruct (vols i !! n) as [v|] eqn:Hn.
  2: { wp_step. unfold mutex_unlock. repeat wp_step. split; try done; [by intros st|]. rewrite Hn. by intros _ []. }
  destruct (li_vol _ Hi n v Hn) as [-> Hv]. wp_step. eapply wp_conseq; [apply (wp_remove_dir n); [apply Hi|done]|].
  intros z i1 ((fs & c & ->) & Hsub & Hsp & Hz & Hw). cbn in Hsub, Hsp, Hz. wp_step.
  - wp_step. unfold mutex_unlock. repeat wp_step. rewrite negb_true_iff, Z.eqb_neq in *. split; try done; [by destruct Hi; split| |intros; congruence].
    intros Hd. by destruct H0; apply Hw.
  - rewrite negb_false_iff, Z.eqb_eq in *. wp_step. wp_step. cbn [vi_map put_vlock put_vfs put_vcalls].
    destruct (mo_remove_abs n (vi_map i) (li_wf _ Hi)) as [Ha Hb]. pose proof (mo_wf_remove n (vi_map i) (li_wf _ Hi)) as Hwf.
    destruct (mo_remove n (vi_map i)) as [b m]. cbn in Hb, Ha, Hwf. fold (vols i) in Hb, Ha. subst b. rewrite bool_decide_eq_true_2 by by rewrite Hn.
    wp_step. wp_step. wp_step. unfold mutex_unlock. repeat wp_step. split; unfold vols in *; cbn; try done.
    + destruct Hi as [? ? ? Hvol]. split; [done..|]. unfold vols. cbn. rewrite Ha. intros k v [_ Hk]%lookup_delete_Some. by apply Hvol.
    + intros _. split; [by rewrite Hn|by apply Hz].
    + intros. congruence.
Qed.

Lemma wp_dup_volumes l i :
  wp (dup_volumes E l) (fun r i' => disk_only i i' /\ vi_fs i' = vi_fs i /\ exists vs, r = Some vs /\ v_name <$> vs = (fun x => lv_name x.2) <$> l) i.
Proof.
  revert i. induction l as [|[k v] l IH]; intros i; cbn [dup_volumes].
  { wp_step. split_and!; [apply disk_only_refl|done|by exists []]. }
  wp_step. eapply wp_conseq; [apply wp_dup|]. intros r i1 (Hd1 & Hf1 & ->). wp_step. eapply wp_conseq; [apply IH|].
  intros r i2 (Hd2 & Hf2 & vs & -> & Hvs). wp_step. split_and!; [by eapply disk_only_trans|congruence|]. eexists. split; [done|]. cbn. by rewrite Hvs.
Qed.
Lemma wp_list i :
  linv i -> wp (local_volume_list E) (fun r i' => linv i' /\ vols i' = vols i /\ vi_fs i' = vi_fs i /\
    exists vs, r = Some vs /\ forall n, n ∈ v_name <$> vs <-> is_Some (vols i !! n)) i.
Proof.
  intros Hi. unfold local_volume_list. wp_step. unfold mutex_lock. wp_step. wp_step. rewrite (li_free _ Hi). wp_step. wp_step. apply wp_vask.
  rewrite (mo_alloc _ HE). cbn [negb]. wp_step. apply wp_vask. rewrite (mo_alloc _ HE). wp_step. wp_step. cbn [negb vi_map put_vlock put_vcalls].
  wp_step. eapply wp_conseq; [apply wp_dup_volumes|]. intros r i1 ((fs & c & ->) & Hfs & vs & -> & Hvs). cbn in Hfs. subst fs.
  unfold mutex_unlock. wp_step. wp_step. wp_step. split_and!; [destruct Hi; by split|done|done|]. exists vs. split; [done|]. intros n.
  rewrite Hvs, list_elem_of_fmap. split.
  - intros ([k v] & -> & Hin). rewrite (elem_of_mo_elements (cmp := cmp)) in Hin by apply Hi. fold (vols i) in Hin.
    destruct (li_vol _ Hi k v Hin) as [-> _]. cbn. by rewrite Hin.
  - intros [v Hv]. exists (n, v). destruct (li_vol _ Hi n v Hv) as [-> _]. split; [done|].
    rewrite (elem_of_mo_elements (cmp := cmp)) by apply Hi. done.
Qed.

(** ** Starting on a disk *)

(** The disk is readable and has no links and no files in the place of data directories. *)
Record plain_disk : Prop := {
  pd_open : le_opendir E = true;
  pd_readdir X w : w ∈ X -> w ∈ le_readdir E X;
  pd_file p : le_file E p = false;
  pd_link p : le_link E p = false;
  pd_cwd : cwd_ok (le_getcwd E)
}.

Lemma join_plain st w :
  plain_disk -> Forall valid_comp (w :: st) -> st <> [] -> len (path_of [] (w :: st)) < PATH_MAX ->
  util_path_join (le_getcwd E) (Some (path_of [] st)) (Some w) = Some (Some (path_of [] (w :: st))).
Proof.
  intros Hp Hv Hne Hl. unfold util_path_join. cbn [app]. rewrite <-path_of_cons by done.
  rewrite Z.geb_leb, (proj2 (Z.leb_gt _ _)) by lia.
  apply clean_path_fixpoint; [apply Hp|lia|done|done].
Qed.
Lemma follow_plain st w :
  plain_disk -> Forall valid_comp (w :: st) -> cstring (path_of [] (w :: st)) -> len (path_of [] (w :: st)) < PATH_MAX - 1 ->
  util_follow_symlink_in_scope alloc_all (le_link E) (le_readlink E) (le_getcwd E) (Some (path_of [] (w :: st))) (Some (path_of [] st)) =
  Some (Some (path_of [] (w :: st))).
Proof.
  intros Hp Hv Hc Hl. apply (follow_symlink_plain_path alloc_all _ _ _ st [w]); try done; [apply Hp|]. intros. apply Hp.
Qed.

Lemma wp_build w i :
  plain_disk ->
  wp (build_and_valid_data_dir E (path_of [] rst) w) (fun r i' => i' = i /\
    r = if util_valid_volume_name w && bool_decide (data_dir (of_chars w) ∈ vi_fs i) then Some (path_of [] (data_dir (of_chars w))) else None) i.
Proof.
  intros Hp. unfold build_and_valid_data_dir. wp_step.
  { wp_step. rewrite negb_true_iff in *. by rewrite H. }
  rewrite negb_false_iff in *. rewrite H. cbn [andb]. set (n := of_chars w).
  assert (chars n = w) as Hw by (apply chars_of_chars; by apply valid_name_comp). rewrite <-Hw in H.
  assert (path_of [] (w :: rst) = path_of [] (vol_dir n)) as Hvd by (unfold vol_dir; by rewrite Hw).
  pose proof (data_path_len n H) as Hl. pose proof (data_path_cstring n H) as Hc. pose proof (data_dir_valid n H) as Hv.
  assert (len (path_of [] (vol_dir n)) < PATH_MAX - 1) as Hlv.
  { unfold data_dir in Hl. rewrite path_of_cons in Hl by done. unfold len in *. rewrite length_app in Hl. lia. }
  assert (cstring (path_of [] (vol_dir n))) as Hcv.
  { unfold data_dir, cstring in *. rewrite path_of_cons, elem_of_app in Hc by done. tauto. }
  pose proof (vol_dir_valid n H) as Hvv. pose proof (ro_deep _ HR).
  wp_step. apply wp_lift with (Some (path_of [] (vol_dir n))); [rewrite <-Hw; apply join_plain; [done..|fold (vol_dir n); lia]|].
  wp_step. eapply wp_lift; [by apply follow_plain|]. cbn beta iota. wp_step.
  apply wp_lift with (Some (path_of [] (data_dir n))); [apply join_plain; [done..|fold (data_dir n); lia]|].
  cbn beta iota. wp_step. eapply wp_lift; [by apply (follow_plain (vol_dir n))|]. wp_step. wp_step. wp_step.
  fold (data_dir n). rewrite comps_path_of, (pd_file Hp), orb_false_r by done. done.
Qed.

Lemma wp_load_volume w i :
  plain_disk -> linv i ->
  wp (load_volume E w) (fun _ i' => linv i' /\ vi_fs i' = vi_fs i /\ forall n,
    is_Some (vols i' !! n) <-> is_Some (vols i !! n) \/ chars n = w /\ util_valid_volume_name (chars n) = true /\ data_dir n ∈ vi_fs i) i.
Proof.
  intros Hp Hi. unfold load_volume. wp_step. wp_step. rewrite (li_root _ Hi). wp_step.
  eapply wp_conseq; [by apply wp_build|]. intros r i' [-> ->]. set (k := of_chars w).
  destruct (util_valid_volume_name w && bool_decide (data_dir k ∈ vi_fs i)) eqn:Hb.
  - apply andb_true_iff in Hb as [Hv Hd%bool_decide_eq_true]. assert (chars k = w) as Hw by (apply chars_of_chars; by apply valid_name_comp).
    wp_step. unfold mutex_lock. wp_step. wp_step. rewrite (li_free _ Hi). wp_step. wp_step. apply wp_vask. rewrite (mo_alloc _ HE). cbn [negb].
    wp_step. wp_step. apply wp_vask. rewrite (mo_entry _ HE). wp_step. unfold mutex_unlock. wp_step. cbn [vi_map put_vcalls put_vlock].
    fold k. change (LVol k (path_of [] (data_dir k))) with (the_vol k).
    pose proof (mo_wf_insert true k (the_vol k) (vi_map i) (li_wf _ Hi)) as Hwf.
    assert (mo_abs (mo_insert true k (the_vol k) (vi_map i)).2 = <[k := the_vol k]> (vols i)) as Ha.
    { destruct (vols i !! k) as [v|] eqn:Hk.
      - destruct (li_vol _ Hi k v Hk) as [-> _]. rewrite insert_id by done.
        by destruct (mo_insert_bound true k (the_vol k) (the_vol k) (vi_map i) (li_wf _ Hi) Hk) as [_ ->].
      - by destruct (mo_insert_fresh k (the_vol k) (vi_map i) (li_wf _ Hi) Hk) as [_ ->]. }
    unfold vols in *. cbn. split_and!; [|done|].
    + destruct Hi as [? ? ? Hvol]. split; [done..|]. unfold vols. cbn. rewrite Ha.
      intros m v [[<- <-]|[_ Hm]]%lookup_insert_Some; [by rewrite Hw|by apply Hvol].
    + intros m. rewrite Ha, lookup_insert_is_Some'. split; [intros [<-|?]; [right|by left]; by rewrite Hw|].
      intros [?|(Hm & _)]; [by right|left]. apply (inj chars). congruence.
  - wp_step. split_and!; [done..|]. intros m. split; [by left|]. intros [?|(<- & Hv & Hd)]; [done|].
    subst k. rewrite of_chars_chars, Hv, bool_decide_eq_true_2 in Hb by done. done.
Qed.

Lemma wp_load_entries l i :
  plain_disk -> linv i ->
  wp (load_entries E l) (fun _ i' => linv i' /\ vi_fs i' = vi_fs i /\ forall n,
    is_Some (vols i' !! n) <-> is_Some (vols i !! n) \/ chars n ∈ l /\ util_valid_volume_name (chars n) = true /\ data_dir n ∈ vi_fs i) i.
Proof.
  intros Hp. revert i. induction l as [|w l IH]; intros i Hi; cbn [load_entries].
  { wp_step. split_and!; [done..|]. intros n. rewrite elem_of_nil. tauto. }
  wp_step. wp_step.
  - wp_step. eapply wp_conseq; [by apply IH|]. intros _ i' (Hi' & Hfs & Hall). split_and!; [done..|]. intros n. rewrite Hall, elem_of_cons.
    assert (util_valid_volume_name (chars n) = true -> chars n <> w) as Hne.
    { intros Hv Hw. rewrite Hw in Hv. apply orb_true_iff in H as [Hd%bool_decide_eq_true|Hd%bool_decide_eq_true]; by rewrite Hd in Hv. }
    naive_solver.
  - eapply wp_conseq; [by apply wp_load_volume|]. intros _ i1 (Hi1 & Hf1 & H1). eapply wp_conseq; [by apply IH|].
    intros _ i2 (Hi2 & Hf2 & H2). split_and!; [done|congruence|]. intros n. rewrite H2, H1, elem_of_cons, Hf1. tauto.
Qed.

Lemma elem_of_entries w d fs : w ∈ entries d fs <-> w :: d ∈ fs.
Proof.
  unfold entries. rewrite elem_of_set_omap. split.
  - intros ([|v st] & Hst & Hw); [done|]. case_decide; [|done]. by simplify_eq.
  - intros H. exists (w :: d). by rewrite decide_True.
Qed.
Lemma not_prefix_dir d k : length d = (length rst + S k)%nat -> d ∉ prefixes rst.
Proof. intros Hd [_ Hs]%elem_of_prefixes. apply suffix_length in Hs. lia. Qed.

Lemma wp_load_volumes i :
  plain_disk -> linv i ->
  wp (load_volumes E) (fun z i' => z = 0 /\ linv i' /\ vi_fs i' = vi_fs i /\ forall n,
    is_Some (vols i' !! n) <-> is_Some (vols i !! n) \/ chars n ∈ le_readdir E (entries rst (vi_fs i)) /\
      util_valid_volume_name (chars n) = true /\ data_dir n ∈ vi_fs i) i.
Proof.
  intros Hp Hi. unfold load_volumes. rewrite (pd_open Hp). cbn [negb]. wp_step. wp_step. rewrite (li_root _ Hi), comps_path_of by apply HR.
  wp_step. eapply wp_conseq; [by apply wp_load_entries|]. intros ? i' H'. wp_step. done.
Qed.

(** The volumes after a start are the directories with data. *)
Lemma init_spec fs calls :
  plain_disk -> (forall k, le_mkdir E k = true) -> (forall n, data_dir n ∈ fs -> vol_dir n ∈ fs) ->
  exists i, local_volume_init (opsV := opsV) E (path_of [] rst) fs calls = Some (Some i) /\ linv i /\ vi_fs i = fs ∪ list_to_set (prefixes rst) /\
    forall n, is_Some (vols i !! n) <-> util_valid_volume_name (chars n) = true /\ data_dir n ∈ fs.
Proof.
  intros Hp Hmk Hcl. unfold local_volume_init. rewrite (mo_alloc _ HE). cbn [negb].
  destruct (mo_new_ok (ops := opsV)) as (m & -> & Hm & Ha). unfold util_mkdir_p. pose proof (ro_short _ HR).
  rewrite Z.gtb_ltb, (proj2 (Z.ltb_ge _ _)), path_absolute by lia. cbn [negb]. rewrite comps_path_of by apply HR.
  destruct (wp_mkdirs E (prefixes rst) (VInfo (path_of [] rst) m false fs (S calls))) as (z & i1 & -> & (fs1 & c1 & ->) & H1 & H2 & H3 & H4).
  specialize (H4 Hmk). subst z. specialize (H3 eq_refl). cbn in H1, H2, H3. cbn [Z.eqb negb put_vfs put_vcalls vi_root vi_map vi_locked vi_fs].
  assert (fs1 = fs ∪ list_to_set (prefixes rst)) as -> by set_solver.
  set (i1 := put_vfs _ _).
  assert (linv i1) as Hi1 by (split; [done..|]; unfold vols; cbn; rewrite Ha; by intros n v ?%lookup_empty_Some).
  destruct (wp_load_volumes i1 Hp Hi1) as (z & i2 & -> & -> & Hi2 & Hf2 & H2').
  exists i2. split_and!; [done..|]. intros n. rewrite H2'. unfold vols. cbn. rewrite Ha, lookup_empty.
  assert (data_dir n ∈ fs ∪ list_to_set (prefixes rst) <-> data_dir n ∈ fs) as ->.
  { rewrite elem_of_union, elem_of_list_to_set. pose proof (not_prefix_dir (data_dir n) 1). cbn [data_dir vol_dir length] in *. split; [|by left].
    intros [?|Hin]; [done|]. destruct H0; [cbn; lia|done]. }
  split; [by intros [[]|(_ & ? & ?)]|]. intros [Hv Hd]. right. split_and!; [|done..]. apply Hp, elem_of_entries, elem_of_union_l. by apply Hcl.
Qed.

(** ** Sessions *)

(** The table and the disk say the same. *)
Definition mirror i : Prop := forall n,
  (is_Some (vols i !! n) <-> util_valid_volume_name (chars n) = true /\ data_dir n ∈ vi_fs i) /\
  (data_dir n ∈ vi_fs i -> vol_dir n ∈ vi_fs i).

Lemma data_suffix_data n m : data_dir m `suffix_of` data_dir n -> m = n.
Proof. intros [k Hk]. apply suffix_data. exists (k ++ [LOCAL_VOLUME_DATA_DIR_NAME]). rewrite <-app_assoc. exact Hk. Qed.

Lemma mirror_created n i r i' : disk_ok E -> mirror i -> created n i r i' -> mirror i'.
Proof.
  intros HD Hm Hc m. destruct (util_valid_volume_name (chars n)) eqn:Hv.
  2: { rewrite (ct_invalid _ _ _ _ Hc Hv). destruct r as [v|]; [|rewrite (ct_vols _ _ _ _ Hc); apply Hm].
       pose proof (ct_inv _ _ _ _ Hc) as Hi. destruct (li_vol _ Hi n (the_vol n)); [|congruence].
       rewrite (ct_vols _ _ _ _ Hc), decide_True by by eexists. apply lookup_insert_eq. }
  pose proof (ct_works _ _ _ _ Hc HD Hv) as Hr. pose proof (ct_keeps _ _ _ _ Hc Hr) as Hk.
  rewrite (ct_vols _ _ _ _ Hc), decide_True by done. destruct (decide (m = n)) as [->|Hne].
  - assert (data_dir n ∈ vi_fs i' /\ vol_dir n ∈ vi_fs i') as [Hd Hvd].
    { destruct (vols i !! n) as [v|] eqn:Hn; [|by apply (ct_dirs _ _ _ _ Hc)].
      destruct (Hm n) as [[H1 _] H2]. rewrite Hn in H1. destruct (H1 ltac:(by eexists)) as [_ Hd]. split; apply Hk; auto. }
    rewrite lookup_insert_eq. done.
  - rewrite lookup_insert_ne by done. destruct (Hm m) as [H1 H2].
    assert (data_dir m ∈ vi_fs i' <-> data_dir m ∈ vi_fs i) as ->; [|by split; [done|auto]].
    split; [|apply Hk]. intros [?|Hs]%(ct_new _ _ _ _ Hc); [done|]. by apply data_suffix_data in Hs.
Qed.
Lemma mirror_removed n i z i' : disk_ok E -> mirror i -> removed n i z i' -> mirror i'.
Proof.
  intros HD Hm Hr m. destruct (vols i !! n) as [v|] eqn:Hn.
  2: { rewrite (rm_unknown _ _ _ _ Hr Hn), (rm_vols _ _ _ _ Hr). case_decide as Hz; [|apply Hm].
       destruct (rm_dirs _ _ _ _ Hr Hz) as [[? ?] _]. congruence. }
  pose proof (rm_works _ _ _ _ Hr HD ltac:(rewrite Hn; by eexists)) as Hz. destruct (rm_dirs _ _ _ _ Hr Hz) as (_ & Hd & Hvd).
  rewrite (rm_vols _ _ _ _ Hr), decide_True by done. destruct (decide (m = n)) as [->|Hne].
  - rewrite lookup_delete_eq. split; [|done]. split; [by intros []|]. by intros [_ ?].
  - rewrite lookup_delete_ne by done. destruct (Hm m) as [H1 H2].
    assert (data_dir m ∈ vi_fs i' <-> data_dir m ∈ vi_fs i) as Hdm.
    { split; [apply (rm_sub _ _ _ _ Hr)|]. intros Hin. apply (rm_spares _ _ _ _ Hr); [done|]. by intros ->%suffix_data. }
    rewrite Hdm. split; [done|]. intros Hin. apply (rm_spares _ _ _ _ Hr); [auto|]. by intros ->%suffix_vol.
Qed.
End driver.

Inductive local_op := LCreate (n : cstr) | LRemove (n : cstr) | LGet (n : cstr) | LList.
Definition local_call {MV} {opsV : MapOps cstr lvol MV} (E : local_env) (o : local_op) (i : volumes_info MV) : option (volumes_info MV) :=
  match o with
  | LCreate n => snd <$> local_volume_create E (Some n) i
  | LRemove n => snd <$> local_volume_remove E (Some n) i
  | LGet n => snd <$> local_volume_get E n i
  | LList => snd <$> local_volume_list E i
  end.
Fixpoint local_session {MV} {opsV : MapOps cstr lvol MV} (E : local_env) (l : list local_op) (i : volumes_info MV) : option (volumes_info MV) :=
  match l with [] => Some i | o :: l => match local_call E o i with Some i => local_session E l i | None => None end end.

Section reload.
Context {MV : Type} {cmp : cstr -> cstr -> Z} `{!KeyOrder cmp} {opsV : MapOps cstr lvol MV} `{!MapLaws cmp opsV}.
Implicit Types (i : volumes_info MV).

Lemma local_call_mirror E rst o i :
  mem_ok E -> disk_ok E -> root_ok rst -> linv rst i -> mirror rst i ->
  exists i', local_call E o i = Some i' /\ linv rst i' /\ mirror rst i'.
Proof.
  intros HE HD HR Hi Hm. destruct o as [n|n|n|]; cbn [local_call].
  - destruct (wp_create E rst HE HR n i Hi) as (r & i' & -> & Hc). exists i'. split_and!; [done|apply Hc|by eapply mirror_created].
  - destruct (wp_remove E rst HR n i Hi) as (z & i' & -> & Hc). exists i'. split_and!; [done|apply Hc|by eapply mirror_removed].
  - destruct (wp_get E rst HE n i Hi) as (r & i' & -> & Hi' & Hv & Hf & _). exists i'. split_and!; [done..|]. intros m. rewrite Hv, Hf. apply Hm.
  - destruct (wp_list E rst HE i Hi) as (r & i' & -> & Hi' & Hv & Hf & _). exists i'. split_and!; [done..|]. intros m. rewrite Hv, Hf. apply Hm.
Qed.
Lemma local_session_mirror E rst l i :
  mem_ok E -> disk_ok E -> root_ok rst -> linv rst i -> mirror rst i ->
  exists i', local_session E l i = Some i' /\ linv rst i' /\ mirror rst i'.
Proof.
  intros HE HD HR. revert i. induction l as [|o l IH]; intros i Hi Hm; cbn [local_session]; [by exists i|].
  destruct (local_call_mirror E rst o i HE HD HR Hi Hm) as (i1 & -> & Hi1 & Hm1). by apply IH.
Qed.

(** C28: After any calls of the local volume driver with memory and a disk that works, a daemon that starts
    on the directories that are then there finds exactly the volumes of the table, with the same paths. *)
Theorem local_volumes_reloaded E rst l i calls :
  mem_ok E -> disk_ok E -> plain_disk E -> root_ok rst -> linv rst i -> mirror rst i ->
  exists i' i2, local_session E l i = Some i' /\
    local_volume_init (opsV := opsV) E (path_of [] rst) (vi_fs i') calls = Some (Some i2) /\
    mo_abs (vi_map i2) = mo_abs (vi_map i') /\ vi_locked i2 = false.
Proof.
  intros HE HD HP HR Hi Hm. destruct (local_session_mirror E rst l i HE HD HR Hi Hm) as (i' & Hrun & Hi' & Hm').
  destruct (init_spec E rst HE HR (vi_fs i') calls HP) as (i2 & Hinit & Hi2 & _ & Hv2); [apply HD|apply Hm'|].
  exists i', i2. split_and!; [done..| |apply Hi2]. apply map_eq. intros n. change (vols i2 !! n = vols i' !! n).
  destruct (vols i' !! n) as [v|] eqn:Hn.
  - destruct (li_vol _ _ Hi' n v Hn) as [-> _]. destruct (proj2 (Hv2 n)) as [v2 Hv]; [apply Hm'; rewrite Hn; by eexists|].
    destruct (li_vol _ _ Hi2 n v2 Hv) as [-> _]. done.
  - apply eq_None_not_Some. intros Hs. apply Hv2, Hm' in Hs. rewrite Hn in Hs. by destruct Hs.
Qed.
End reload.

(** ** Behind the volume store *)

Section store.
Context {MV MD MN MR : Type} {cmp : cstr -> cstr -> Z} `{!KeyOrder cmp}.
Context {opsV : MapOps cstr lvol MV} `{!MapLaws cmp opsV}.
Context {opsD : MapOps cstr (volume_driver (volumes_info MV)) MD} `{!MapLaws cmp opsD}.
Context {opsN : MapOps cstr loc MN} `{!MapLaws cmp opsN}.
Context {opsR : MapOps cstr bool MR} `{!MapLaws cmp opsR}.
Variables (E : local_env) (rst : list cs) (bytes_of : loc -> cstr).
Hypotheses (HE : mem_ok E) (HR : root_ok rst).
Abbreviation store := (volume_store (volumes_info MV) MD MN MR).
Abbreviation drv := (local_driver (opsV := opsV) E).
Implicit Types (vs : store) (n ref : cstr).

(** The state behind the driver is in order. *)
#[local] Instance local_inv : DeviceInv (volumes_info MV) := linv rst.
Lemma local_driver_ok : driver_ok drv.
Proof.
  split; eexists; (split; [done|]).
  - intros n i Hi. destruct (wp_create E rst HE HR n i Hi) as (r & i' & ? & Hc). exists r, i'. split; [done|apply Hc].
  - intros n i Hi. destruct (wp_get E rst HE n i Hi) as (r & i' & ? & Hi' & _). by exists r, i'.
  - intros n i Hi. by exists 0, i.
  - intros n i Hi. by exists 0, i.
  - intros i Hi. destruct (wp_list E rst HE i Hi) as (r & i' & ? & Hi' & _). by exists r, i'.
  - intros n i Hi. destruct (wp_remove E rst HR n i Hi) as (z & i' & ? & Hc). exists z, i'. split; [done|apply Hc].
Qed.

Record store_local vs : Prop := {
  sl_inv : vs_inv vs;
  sl_drivers : mo_abs (vs_drivers vs) = {[LOCAL_VOLUME_DRIVER_NAME := drv]}
}.
Lemma sl_dev vs : store_local vs -> linv rst (vs_dev vs).
Proof. intros Hs. apply (inv_dev _ (sl_inv _ Hs)). Qed.
(** The same volumes, with the same directories. *)
Definition same_dev (i i' : volumes_info MV) : Prop := vols i' = vols i /\ vi_fs i' = vi_fs i.
(** A volume that is known stays known, with all its directories. *)
Definition kept n vs vs' : Prop :=
  is_Some (vols (vs_dev vs) !! n) ->
  is_Some (vols (vs_dev vs') !! n) /\
  forall st, vol_dir rst n `suffix_of` st -> st ∈ vi_fs (vs_dev vs) -> st ∈ vi_fs (vs_dev vs').
#[local] Instance kept_preorder n : PreOrder (kept n).
Proof.
  split; [by intros vs|]. intros v1 v2 v3 H1 H2 Hk. destruct (H1 Hk) as [Hk2 Hs1]. destruct (H2 Hk2) as [Hk3 Hs2]. eauto.
Qed.

Lemma vol_dirs_apart n m st : vol_dir rst n `suffix_of` st -> vol_dir rst m `suffix_of` st -> n = m.
Proof.
  intros [k1 H1] [k2 H2]. assert (length k1 = length k2) as Hl.
  { apply (f_equal length) in H1, H2. rewrite length_app in *. cbn in *. lia. }
  rewrite H1 in H2. apply app_inj_1 in H2 as [_ H2]; [|done]. injection H2 as H2. by apply (inj chars).
Qed.

Lemma same_dev_kept n vs vs' : same_dev (vs_dev vs) (vs_dev vs') -> kept n vs vs'.
Proof. intros [Hv Hf] Hk. by rewrite Hv, Hf. Qed.

Lemma lookup_local n vs :
  store_local vs ->
  exists i, lookup_driver_by_volume_name true (Some n) vs = Some (Some drv, put_static (Some drv) (put_dev i vs)) /\
    linv rst i /\ same_dev (vs_dev vs) i.
Proof.
  intros Hs. pose proof Hs as [Hi Hd]. unfold lookup_driver_by_volume_name. cbn [negb].
  assert (mo_elements (vs_drivers vs) = [(LOCAL_VOLUME_DRIVER_NAME, drv)]) as ->.
  { pose proof (mo_elements_perm (cmp := cmp) (vs_drivers vs) (inv_drivers_wf _ Hi)) as Hp. rewrite Hd, map_to_list_singleton in Hp.
    by apply Permutation_singleton_r in Hp. }
  destruct (wp_get E rst HE n (vs_dev vs) (sl_dev _ Hs)) as (r & i & Hg & Hi' & Hv & Hf & _). cbn. rewrite Hg. cbn.
  destruct r; cbn; exists i; by split_and!.
Qed.
Lemma store_local_dev vs i : store_local vs -> linv rst i -> store_local (put_dev i vs).
Proof. intros [Hi ?] Hl. split; [by apply vs_inv_dev|done]. Qed.
Lemma store_local_static vs d : store_local vs -> d = Some drv -> store_local (put_static d vs).
Proof. intros [Hi ?] ->. split; [|done]. apply vs_inv_static; [done|]. intros ? [= <-]. apply local_driver_ok. Qed.

(** Removing a volume concerns only volumes without users. *)
Lemma volume_remove_kept m vs :
  store_local vs ->
  exists z vs', volume_remove true true (Some m) vs = Some (z, vs') /\ store_local vs' /\ (forall n, vol_refs vs' n = vol_refs vs n) /\
    forall n, vol_refs vs n <> ∅ -> kept n vs vs'.
Proof.
  intros Hs. destruct (volume_remove_spec m vs (sl_inv _ Hs)) as (z & vs' & Hrun & Hi' & Hrefs & Hdrv & Hused). exists z, vs'.
  destruct (lookup_local m vs Hs) as (i & Hlk & Hi & Hsame).
  assert (vs_dev vs' = i \/ exists z', removed E rst m i z' (vs_dev vs')) as Hdev.
  { unfold volume_remove in Hrun. rewrite Hlk in Hrun. cbn [mbind option_bind fst snd] in Hrun.
    destruct (get_name_refs true m _) as [o|]; [|done]. cbn [mbind option_bind] in Hrun.
    destruct (wp_remove E rst HR m i Hi) as (z1 & i1 & Hr & Hrmd).
    destruct o as [[|x l]|]; [right|left; by injection Hrun as _ <-|right];
      cbn [local_driver drv_remove mbind option_bind put_static put_dev vs_dev] in Hrun; rewrite Hr in Hrun; injection Hrun as _ <-; by exists z1. }
  split_and!; [done| |done|].
  - split; [done|by rewrite Hdrv; apply Hs].
  - intros n Hne. destruct (decide (n = m)) as [->|Hnm].
    { destruct (Hused Hne) as [_ [d Hl]]. rewrite Hlk in Hl. injection Hl as _ <-. by apply same_dev_kept. }
    transitivity (put_dev i vs); [by apply same_dev_kept|].
    destruct Hdev as [He|[z' Hr]]; [apply same_dev_kept; by rewrite He|]. intros Hk. split.
    + rewrite (rm_vols _ _ _ _ _ _ Hr). case_decide; [by rewrite lookup_delete_ne|done].
    + intros st Hst Hin. apply (rm_spares _ _ _ _ _ _ Hr); [done|]. intros Hm. destruct Hnm. by eapply vol_dirs_apart.
Qed.

Lemma prune_kept l vs :
  store_local vs ->
  exists r vs', prune_loop l vs = Some (r, vs') /\ store_local vs' /\ (forall n, vol_refs vs' n = vol_refs vs n) /\
    forall n, vol_refs vs n <> ∅ -> kept n vs vs'.
Proof.
  revert vs. induction l as [|v l IH]; intros vs Hs; cbn [prune_loop]; [by eexists _, vs|].
  destruct (volume_remove_kept (v_name v) vs Hs) as (z & vs1 & -> & Hs1 & Hr1 & Hk1). cbn [mbind option_bind fst snd].
  destruct (IH vs1 Hs1) as (r & vs2 & -> & Hs2 & Hr2 & Hk2). cbn [mbind option_bind fst snd]. eexists _, vs2. split_and!; [done|done|congruence|].
  intros n Hn. etrans; [by apply Hk1|]. apply Hk2. by rewrite Hr1.
Qed.

(** The daemon starts with the volumes of the disk and without references. *)
Lemma local_store_starts st fs calls :
  rst = LOCAL_VOLUME_ROOT_DIR_NAME :: st -> st <> [] -> plain_disk E -> (forall k, le_mkdir E k = true) ->
  (forall n, data_dir rst n ∈ fs -> vol_dir rst n ∈ fs) ->
  exists vs, local_store_init E (Some (path_of [] st)) fs calls = Some (Some vs) /\ store_local vs /\ (forall n, vol_refs vs n = ∅) /\
    forall n, is_Some (vols (vs_dev vs) !! n) <-> util_valid_volume_name (chars n) = true /\ data_dir rst n ∈ fs.
Proof.
  intros Hrst Hne HP Hmk Hcl. destruct (init_spec E rst HE HR fs calls HP Hmk Hcl) as (i & Hi & Hl & _ & Hv).
  pose proof (ro_comps _ HR) as Hc. pose proof (ro_short _ HR) as Hlen. rewrite Hrst in Hi, Hc, Hlen.
  unfold local_store_init, register_local_volume. rewrite join_plain by (done || lia). cbn [mbind option_bind]. rewrite Hi. cbn [mbind option_bind].
  destruct (volume_init_spec LOCAL_VOLUME_DRIVER_NAME drv i) as (vs & -> & Hinv & Hd & _ & Hdev & Hr); [apply local_driver_ok|done|].
  exists vs. split_and!; [done| |done|by rewrite Hdev]. by split.
Qed.


(** An allocator that has an address left. *)
Definition good_allocs vs : ref_allocs := RefAllocs (fresh ({[NULL]} ∪ dom (vs_refs vs))) true true.
Lemma good_allocs_ok vs : ref_allocs_ok (good_allocs vs) vs.
Proof.
  unfold ref_allocs_ok, good_allocs. cbn. pose proof (is_fresh ({[NULL]} ∪ dom (vs_refs vs))) as Hf.
  split_and!; [set_solver| |done|done]. apply not_elem_of_dom. set_solver.
Qed.

Lemma volume_create_kept m ref vs :
  store_local vs ->
  exists r vs', volume_create bytes_of (good_allocs vs) None (Some LOCAL_VOLUME_DRIVER_NAME) (Some m) (Some ref) vs = Some (r, vs') /\ store_local vs' /\
    (forall n, vol_refs vs n ⊆ vol_refs vs' n) /\ (forall n, kept n vs vs') /\
    (is_Some r -> is_Some (vols (vs_dev vs') !! m) /\ ref ∈ vol_refs vs' m).
Proof.
  intros Hs. unfold volume_create, lookup_driver. rewrite mo_search_ok by apply Hs. rewrite (sl_drivers _ Hs), lookup_singleton_eq.
  destruct (wp_create E rst HE HR m (vs_dev vs) (sl_dev _ Hs)) as (r & i' & Hrun & Hc).
  cbn [local_driver drv_create mbind option_bind]. rewrite Hrun. cbn [mbind option_bind fst snd].
  pose proof (store_local_dev vs i' Hs (ct_inv _ _ _ _ _ _ Hc)) as Hs1.
  assert (forall n, kept n vs (put_dev i' vs)) as Hk1.
  { intros n Hk. destruct (decide (n = m)) as [->|Hne].
    - destruct (ct_known _ _ _ _ _ _ Hc Hk) as [Hv Hf]. cbn. rewrite Hv, Hf. done.
    - cbn. split.
      + rewrite (ct_vols _ _ _ _ _ _ Hc). case_decide; [by rewrite lookup_insert_ne|done].
      + intros st Hst Hin. apply (ct_spares _ _ _ _ _ _ Hc); [done|]. intros Hm. destruct Hne. by eapply vol_dirs_apart. }
  destruct r as [v|]; [|eexists _, _; split_and!; [done|done|done|done|by intros []]].
  destruct (add_name_ref_spec bytes_of (good_allocs vs) m ref (put_dev i' vs) (sl_inv _ Hs1)) as (vs2 & -> & Hi2 & Hd2 & Hdev2 & Hr2).
  { apply (good_allocs_ok vs). }
  cbn [mbind option_bind fst snd]. rewrite bool_decide_eq_false_2 by by intros []. eexists _, vs2. split_and!; [done|..].
  - split; [done|by rewrite Hd2; apply Hs1].
  - intros n. rewrite Hr2. case_decide; [|done]. change (vol_refs (put_dev i' vs) n) with (vol_refs vs n). set_solver.
  - intros n. etrans; [apply Hk1|]. intros Hk. by rewrite Hdev2.
  - intros _. rewrite Hdev2, Hr2, decide_True by done. split; [|set_solver]. cbn. rewrite (ct_vols _ _ _ _ _ _ Hc), decide_True by by eexists.
    by rewrite lookup_insert_eq.
Qed.

Lemma volume_list_kept vs :
  store_local vs ->
  exists l vs', volume_list true vs = Some (l, vs') /\ store_local vs' /\ (forall n, vol_refs vs' n = vol_refs vs n) /\ forall n, kept n vs vs'.
Proof.
  intros Hs. unfold volume_list, list_all_driver_volumes. cbn [negb].
  destruct (mo_elements (vs_drivers vs)) as [|[k d] ds] eqn:He; [by exists None, vs|].
  assert (mo_abs (vs_drivers vs) !! k = Some d) as Hkd by (rewrite <-(elem_of_mo_elements (cmp := cmp)), He by apply Hs; by left).
  rewrite (sl_drivers _ Hs) in Hkd. apply lookup_singleton_Some in Hkd as [_ <-]. cbn [local_driver drv_list mbind option_bind].
  destruct (wp_list E rst HE (vs_dev vs) (sl_dev _ Hs)) as (r & i & -> & Hi & Hv & Hf & _). cbn [mbind option_bind fst snd].
  exists r, (put_dev i vs). split_and!; [done|by apply store_local_dev|done|]. intros n. by apply same_dev_kept.
Qed.

Inductive vol_op := VCreate (n ref : cstr) | VRef (n ref : cstr) | VUnref (n ref : cstr) | VRemove (n : cstr) | VPrune | VList | VMount (n : cstr) | VUmount (n : cstr).
Definition vol_call (o : vol_op) vs : option store :=
  match o with
  | VCreate n ref => snd <$> volume_create bytes_of (good_allocs vs) None (Some LOCAL_VOLUME_DRIVER_NAME) (Some n) (Some ref) vs
  | VRef n ref => snd <$> volume_add_ref bytes_of (good_allocs vs) (Some n) (Some ref) vs
  | VUnref n ref => snd <$> volume_del_ref (Some n) (Some ref) vs
  | VRemove n => snd <$> volume_remove true true (Some n) vs
  | VPrune => snd <$> volume_prune vs
  | VList => snd <$> volume_list true vs
  | VMount n => snd <$> volume_mount true (Some n) vs
  | VUmount n => snd <$> volume_umount true (Some n) vs
  end.
Fixpoint vol_session (l : list vol_op) vs : option store :=
  match l with [] => Some vs | o :: l => match vol_call o vs with Some vs => vol_session l vs | None => None end end.

Lemma vol_call_kept o vs n ref :
  store_local vs -> ref ∈ vol_refs vs n -> o <> VUnref n ref ->
  exists vs', vol_call o vs = Some vs' /\ store_local vs' /\ ref ∈ vol_refs vs' n /\ kept n vs vs'.
Proof.
  intros Hs Hr Ho. assert (vol_refs vs n <> ∅) as Hne by set_solver. destruct o as [m r|m r|m r|m| | |m|m]; cbn [vol_call].
  - destruct (volume_create_kept m r vs Hs) as (v & vs' & -> & Hs' & Hrefs & Hk & _). eexists. split_and!; [done|done|by apply Hrefs|apply Hk].
  - destruct (add_name_ref_spec bytes_of (good_allocs vs) m r vs (sl_inv _ Hs) (good_allocs_ok vs)) as (vs' & Hrun & Hi & Hd & Hdev & Hrefs).
    unfold volume_add_ref. rewrite Hrun. eexists. split_and!; [done| |rewrite Hrefs; case_decide; set_solver|intros Hk; cbn; by rewrite Hdev].
    split; cbn; [done|by rewrite Hd; apply Hs].
  - destruct (del_name_ref_spec m r vs (sl_inv _ Hs)) as (z & vs' & Hrun & Hi & Hd & Hdev & _ & Hrefs).
    unfold volume_del_ref. rewrite Hrun. eexists. split_and!; [done| | |intros Hk; cbn; by rewrite Hdev].
    + split; cbn; [done|by rewrite Hd; apply Hs].
    + cbn. rewrite Hrefs. case_decide as Hm; [|done]. subst m. apply elem_of_difference. split; [done|]. intros ->%elem_of_singleton. done.
  - destruct (volume_remove_kept m vs Hs) as (z & vs' & -> & Hs' & Hrefs & Hk). eexists. split_and!; [done|done|cbn; by rewrite Hrefs|by apply Hk].
  - unfold volume_prune. destruct (volume_list_kept vs Hs) as (l & vs1 & -> & Hs1 & Hrefs1 & Hk1). cbn [mbind option_bind fst snd].
    destruct l as [l|]; [|eexists; split_and!; [done|done|cbn; by rewrite Hrefs1|apply Hk1]].
    destruct (prune_kept l vs1 Hs1) as (r & vs' & -> & Hs' & Hrefs & Hk). eexists. split_and!; [done|done|cbn; by rewrite Hrefs, Hrefs1|].
    etrans; [apply Hk1|]. apply Hk. by rewrite Hrefs1.
  - destruct (volume_list_kept vs Hs) as (l & vs1 & -> & Hs1 & Hrefs1 & Hk1). eexists. split_and!; [done|done|cbn; by rewrite Hrefs1|apply Hk1].
  - unfold volume_mount, volume_with_driver. destruct (lookup_local m vs Hs) as (i & -> & Hi & Hsm). cbn. eexists. split_and!; [done| |done|by apply same_dev_kept].
    apply (store_local_dev (put_static (Some drv) (put_dev i vs))); [|done]. by apply store_local_static; [apply store_local_dev|].
  - unfold volume_umount, volume_with_driver. destruct (lookup_local m vs Hs) as (i & -> & Hi & Hsm). cbn. eexists. split_and!; [done| |done|by apply same_dev_kept].
    apply (store_local_dev (put_static (Some drv) (put_dev i vs))); [|done]. by apply store_local_static; [apply store_local_dev|].
Qed.
Lemma vol_session_kept l vs n ref :
  store_local vs -> ref ∈ vol_refs vs n -> VUnref n ref ∉ l ->
  exists vs', vol_session l vs = Some vs' /\ store_local vs' /\ ref ∈ vol_refs vs' n /\ kept n vs vs'.
Proof.
  revert vs. induction l as [|o l IH]; intros vs Hs Hr Hl; cbn [vol_session]; [by exists vs|].
  apply not_elem_of_cons in Hl as [Ho Hl]. destruct (vol_call_kept o vs n ref Hs Hr) as (vs1 & -> & Hs1 & Hr1 & Hk1); [done|].
  destruct (IH vs1 Hs1 Hr1 Hl) as (vs2 & -> & Hs2 & Hr2 & Hk2). exists vs2. split_and!; [done..|]. by etrans.
Qed.
End store.

Section claims.
Context {MV MD MN MR : Type} {cmp : cstr -> cstr -> Z} `{!KeyOrder cmp}.
Context {opsV : MapOps cstr lvol MV} `{!MapLaws cmp opsV}.
Context {opsD : MapOps cstr (volume_driver (volumes_info MV)) MD} `{!MapLaws cmp opsD}.
Context {opsN : MapOps cstr loc MN} `{!MapLaws cmp opsN}.
Context {opsR : MapOps cstr bool MR} `{!MapLaws cmp opsR}.

(** C27: The volume store with the local driver behind it, as long as there is memory: while a container refers to
    a volume that the driver has, any calls of the store return, the volume stays known, the mutex
    is free again, and no directory of its data is lost, whatever making and removing directories
    on the disk do.  Without memory the code may do otherwise: [volume_remove] then takes a used
    volume for an unused one, and [local_volume_list] keeps the mutex. *)
Theorem used_volume_data_kept E rst bytes_of l (vs : volume_store (volumes_info MV) MD MN MR) n ref :
  mem_ok E -> root_ok rst -> store_local E rst vs -> ref ∈ vol_refs vs n -> is_Some (mo_abs (vi_map (vs_dev vs)) !! n) ->
  VUnref n ref ∉ l ->
  exists vs', vol_session bytes_of l vs = Some vs' /\ ref ∈ vol_refs vs' n /\ is_Some (mo_abs (vi_map (vs_dev vs')) !! n) /\
    vi_locked (vs_dev vs') = false /\
    forall st, vol_dir rst n `suffix_of` st -> st ∈ vi_fs (vs_dev vs) -> st ∈ vi_fs (vs_dev vs').
Proof.
  intros HE HR Hs Hr Hn Hl. destruct (vol_session_kept E rst bytes_of HE HR l vs n ref Hs Hr Hl) as (vs' & Hrun & Hs' & Hr' & Hk).
  exists vs'. destruct (Hk Hn) as [Hk1 Hk2]. split_and!; [done..|apply (sl_dev _ _ _ Hs')|done].
Qed.
End claims.

(** ** Concrete runs *)

(** Removing directories fails now and then when [flaky]. *)
Definition lenv (flaky : bool) : local_env :=
  LocalEnv (fun _ => true) (fun _ => true) (fun _ => true) (fun n => if flaky && Nat.even n then Some ∅ else None) true elements
    (fun _ => false) None (fun _ => false) (fun _ => None).
Definition lroot : list cs := [LOCAL_VOLUME_ROOT_DIR_NAME].
Definition vol_a : cstr := c_str "web-data".
Definition vol_b : cstr := c_str "logs".
#[local] Abbreviation ltable := (gmap cstr lvol).
#[local] Abbreviation ldrv := (volume_driver (volumes_info ltable)).
#[local] Abbreviation lv_cmp := (cstr_cmp uchar_value).
#[local] Instance lv_opsV : MapOps cstr lvol ltable := gmap_MapOps lv_cmp.
#[local] Instance lv_opsD : MapOps cstr ldrv (gmap cstr ldrv) := gmap_MapOps lv_cmp.
#[local] Instance lv_opsN : MapOps cstr loc (gmap cstr loc) := gmap_MapOps lv_cmp.
#[local] Instance lv_opsR : MapOps cstr bool (gmap cstr bool) := gmap_MapOps lv_cmp.
Definition no_vols : volumes_info ltable := VInfo (path_of [] lroot) ∅ false {[lroot]} 0.
Definition one_vol : volumes_info ltable :=
  VInfo (path_of [] lroot) {[vol_a := the_vol lroot vol_a]} false {[lroot; vol_dir lroot vol_a; data_dir lroot vol_a]} 0.
Definition used_store : volume_store (volumes_info ltable) (gmap cstr ldrv) (gmap cstr loc) (gmap cstr bool) :=
  VS {[LOCAL_VOLUME_DRIVER_NAME := local_driver (lenv true)]} {[vol_a := 7%N]} {[7%N := {[c_str "c1" := true]}]} None one_vol.

Lemma lenv_mem flaky : mem_ok (lenv flaky).
Proof. by split. Qed.
Lemma lenv_disk : disk_ok (lenv false).
Proof. by split. Qed.
Lemma lenv_plain flaky : plain_disk (lenv flaky).
Proof. split; try done. intros X w. apply elem_of_elements. Qed.
Lemma lroot_ok : root_ok lroot.
Proof.
  split; [|done| |done].
  - constructor; [|done]. split_and!; [done| |done|done]. by apply (bool_decide_unpack _); vm_compute.
  - by apply (bool_decide_unpack _); vm_compute.
Qed.
Lemma no_vols_inv : linv (cmp := lv_cmp) lroot no_vols.
Proof. split; [done..|]. unfold vols. cbn. by intros n v ?%lookup_empty_Some. Qed.
Lemma no_vols_mirror : mirror (cmp := lv_cmp) lroot no_vols.
Proof.
  intros n. assert (data_dir lroot n ∉ ({[lroot]} : gset (list cs))) as Hd by (rewrite elem_of_singleton; done).
  split; [|done]. unfold vols. cbn. rewrite lookup_empty. split; [by intros []|by intros [_ ?]].
Qed.
Lemma one_vol_inv : linv (cmp := lv_cmp) lroot one_vol.
Proof. split; [done..|]. unfold vols. cbn. by intros n v [<- <-]%lookup_singleton_Some. Qed.
Lemma used_store_local : store_local (cmp := lv_cmp) (lenv true) lroot used_store.
Proof.
  split; [split|done]; cbn; try done.
  - intros n p [<- <-]%lookup_singleton_Some. rewrite lookup_singleton_eq. by eexists.
  - by intros n1 n2 p [<- _]%lookup_singleton_Some [<- _]%lookup_singleton_Some.
  - intros p [r [<- _]%lookup_singleton_Some]. exists vol_a. exact (lookup_insert_eq (M := gmap cstr) ∅ vol_a 7%N).
  - intros p r [_ <-]%lookup_singleton_Some. apply insert_non_empty.
  - intros n d [_ <-]%lookup_singleton_Some. apply (local_driver_ok (cmp := lv_cmp)); [apply lenv_mem|apply lroot_ok].
  - apply one_vol_inv.
Qed.

Lemma local_volumes_reloaded_witness :
  exists i' i2, local_session (lenv false) [LCreate vol_a; LCreate vol_b; LRemove vol_a; LGet vol_a; LList] no_vols = Some i' /\
    local_volume_init (lenv false) (path_of [] lroot) (vi_fs i') 0 = Some (Some i2) /\
    vi_map i2 = vi_map i' /\ vi_locked i2 = false.
Proof.
  exact (local_volumes_reloaded (cmp := lv_cmp) (lenv false) lroot [LCreate vol_a; LCreate vol_b; LRemove vol_a; LGet vol_a; LList]
    no_vols 0 (lenv_mem _) lenv_disk (lenv_plain _) lroot_ok no_vols_inv no_vols_mirror).
Defined.

Lemma used_volume_data_kept_witness :
  let l := [VCreate vol_b (c_str "c2"); VRemove vol_a; VUnref vol_b (c_str "c2"); VList; VPrune] in
  exists vs', vol_session (fun _ => vol_b) l used_store = Some vs' /\
    c_str "c1" ∈ vol_refs vs' vol_a /\ data_dir lroot vol_a ∈ vi_fs (vs_dev vs').
Proof.
  intros l.
  destruct (used_volume_data_kept (cmp := lv_cmp) (lenv true) lroot (fun _ => vol_b) l used_store vol_a (c_str "c1"))
    as (vs' & Hrun & Hr & _ & _ & Hst).
  - apply lenv_mem.
  - apply lroot_ok.
  - apply used_store_local.
  - by apply (bool_decide_unpack _); vm_compute.
  - by apply (bool_decide_unpack _); vm_compute.
  - subst l. rewrite !not_elem_of_cons. split_and!; try (by intros [= ?]); set_solver.
  - exists vs'. split_and!; [done|done|]. apply Hst; [by exists [LOCAL_VOLUME_DATA_DIR_NAME]|]. cbn. set_solver.
Defined.

(** Without memory for the list of volumes the mutex is never unlocked: the next call waits for ever. *)
Example list_without_memory_keeps_lock :
  let E := LocalEnv (fun n => negb (n =? 0)%nat) (fun _ => true) (fun _ => true) (fun _ => None) true elements (fun _ => false) None (fun _ => false) (fun _ => None) in
  local_session E [LList; LGet vol_a] no_vols = None.
Proof. reflexivity. Qed.
(** A volume that finds no room in the table is reported as created: its directory is there, the table does not know it. *)
Example unlisted_volume_created :
  let E := LocalEnv (fun _ => true) (fun _ => false) (fun _ => true) (fun _ => None) true elements (fun _ => false) None (fun _ => false) (fun _ => None) in
  match local_volume_create E (Some vol_a) no_vols with
  | Some (r, i) => bool_decide (is_Some r) && bool_decide (data_dir lroot vol_a ∈ vi_fs i) && bool_decide (size (vi_map i) = 0%nat)
  | None => false
  end = true.
Proof. vm_compute. reflexivity. Qed.
